(* ===== verification/_CoqProject ===== *)
-Q . S2P
Prelude.v
RuntimeValue.v
Crc64.v
JsonText.v
JsonParser.v
JsonWriter.v
JsonRoundtrip.v
ServerStatus.v
HashIndex.v
StringTable.v
Identity.v
TextLines.v
Assign.v
DenseIndex.v
SparseIndex.v
GraphData.v
GraphGrowth.v
GraphTypes.v
GraphRecords.v
GraphLinks.v
Graph.v
ImageBytes.v
CompiledView.v
CompiledBounds.v
CompiledProject.v
GraphDelta.v
DeltaProject.v
DeltaTypes.v
DeltaLinks.v
DeltaRefine.v
ProjectView.v
RuntimeLayout.v
RuntimeRules.v
RuntimeOrder.v
RuntimeRecords.v
RuntimeRecursion.v
RuntimeBuild.v
RuntimeProject.v
Outcome.v
RuntimeQuery.v
QueryBounds.v
RuntimeIc.v
IcScalar.v
RuntimeIcCodec.v
IcEncode.v
IcBind.v
IcRoundtrip.v
IcBounds.v
RuntimeIcReset.v
IcResetRecords.v
IcRestore.v
RuntimeIcSnapshot.v
IcSnapshot.v
IcSnapshotExact.v
RuntimeIcText.v
IcText.v
IcResetBounds.v
Preprocessor.v
LexicalToken.v
LexicalStream.v
FrontendInput.v
LexerScan.v
LexerText.v
Lexer.v
LexedInput.v
DirectiveDecoder.v
DirectiveExecutor.v
DiagnosticCatalog.v
Diagnostics.v
DiagnosticFormatter.v
OutboundChannel.v
Connection.v
Communication.v
ServerState.v
Server.v
ServerControl.v
Base64.v
JsonProtocol.v
TcpPeer.v
TcpEndpoint.v
