(* ===== verification/Prelude.v ===== *)
(** * Verification of ServerEngine V4

    The program (src/server_engine) is a server that compiles the C++ declarations of
    client projects into a semantic graph, lays the objects of that graph out in shared
    memory and answers clients over TCP.  This library models the parts of it that are
    ordinary code over ordinary data and proves what makes each of them correct.  Every
    definition is a translation of the function named beside it and can be evaluated.

    ** How the code is modelled

    - A C++ unsigned integer of [w] bits is a [Z]; each place where the code can wrap
      applies [u8], [u16], [u32] or [u64].  [std::size_t] has 64 bits.  A byte is
      [Byte.byte], a text a list of bytes, a vector a list.
    - A struct is a Record, an enumeration an Inductive type.  An object is a Record of
      its members and a method is a function from the object (and the arguments) to the
      result and the object afterwards.
    - An access out of bounds, a dangling address and a loop that does not end are not
      given a result: the function returns [None], and the theorems say it returns
      [Some].  A failure the code reports is a value of its status type.
    - Whether an allocation succeeds is an argument of the operation, so that a theorem
      holds for every pattern of failures.  The results of system calls, the readings of
      clocks and the order in which threads take a lock are arguments too; a critical
      section is one step.
    - A loop over a container is structural.  A loop that is not carries fuel, and the
      fuel given is proved to be enough: 65 doublings of a 64-bit capacity
      ([LexicalStream.grow_fuel], [HashIndex.capacity_loop] with 64), one more than the
      length of what a loop consumes (the source of the lexer and its scanners, the
      buffer of a peer, the lines of an Assign file), one more than the number of
      derived types for a chain of qualifiers ([GraphTypes.type_fuel], because a derived
      type has an older child), one more than the number of macros for an expansion
      ([Preprocessor.expansion_fuel], because the pair of walkers meets in a cycle), the
      number of tokens left for a directive, one more than the number of peers for the
      service loop, the slot number of an identity for the walk to its root.

    ** Interfaces

    A component that needs another one through a narrow promise is a section over a
    class: [StringTable.BaselineStrings] and [BaselineLaws] (the strings of a persisted
    image), [Identity.BaselineIdentities] and [IdentityLaws] (its identities),
    [FrontendInput.LexicalWords] (the words of the files being read),
    [Server.ProjectServices] and [ProjectLaws] (loading, building and publishing a
    project), [Diagnostics.TotalCompare] (an order that sorting may use),
    [GraphDelta.GraphBaseline] and [baseline_laws] (a compiled image under a build),
    [ProjectView.ProjectView] and [project_laws] (the records of a bound project, which
    the view over an image and the semantic graph implement).  Every
    class with laws has an instance, used by the witnesses.

    ** The files

    Foundations
    - this file: widths, bytes, the rewrite base [zbits], generic lemmas on lists and
      lookups.
    - ServerStatus: server_status.hpp.
    - HashIndex, DenseIndex, SparseIndex: the open addressing that string table, macro
      table, identities, graph and graph delta share, with the invariant that a probe ends and finds what was
      inserted.
    - Crc64: project/persistence/crc64_ecma.hpp.  The sliced, table-driven checksum is
      the bit-serial remainder.

    JSON and protocol
    - JsonText, JsonParser, JsonWriter, JsonRoundtrip: json/.  The parser always returns
      and its events are one well-nested value; what the writer prints is the document
      of its calls; a printed document parses back to its events.
    - Base64, JsonProtocol: communication/protocol/.  The decoder accepts exactly the
      canonical encodings; a request document decodes to its request, a decoded request
      satisfies its schema, an outbound message is a JSON document.

    Front end of the compiler (project/)
    - StringTable, Identity: string/ and semantic/.  Equal texts and equal keys have one
      identity, and identities never change.
    - Preprocessor, DirectiveDecoder, DirectiveExecutor: preprocessor/ and
      frontend/directive_*.  The macro table is a finite map; expansion ends; conditional
      groups evaluate as the structured program they spell, and an included file cannot
      close the groups of its includer.
    - LexicalToken, LexicalStream, FrontendInput, LexerScan, LexerText, Lexer,
      LexedInput: frontend/.  [tokenize] always returns; an accepted file is the tokens
      of its grammar; the packed stream reads back as those tokens.
    - Assign: assign/.  Reading a file by index arithmetic is reading its lines.

    Semantic graph (project/graph/)
    - GraphData, GraphGrowth, GraphTypes, GraphRecords, GraphLinks, Graph: graph.hpp,
      graph.cpp and the headers of handles, type references and construction values.
      [Graph.graph_step] is a call of an operation, [Graph.reachable] the graphs that
      calls build; every reference is one legal C++ type, what was given out keeps its
      meaning, inheritance has no cycle, a path leads from its root to its value, a
      target has one link.

    Images and runtime (project/persistence, project/abi, project/runtime)
    - ImageBytes, CompiledView, CompiledBounds, CompiledProject: compiled_project.cpp,
      the view over a compiled image.  [bind] and the queries are defined for images of
      arbitrary bytes; what [bind] accepts has disjoint sections inside the image, no
      query reads outside of it, and a lookup returns what it was asked for.
    - GraphDelta: project/graph/graph_delta.cpp, the changes that a build makes over a
      compiled image, which it sees through [GraphDelta.GraphBaseline].  DeltaProject: the
      project that image and delta stand for, and what each operation means for it;
      DeltaTypes, DeltaLinks: each operation does that; DeltaRefine: scripts of operations,
      and the view over an accepted image as a baseline.  A loop over derived types has one
      round more than there are derived types.
    - ProjectView: what the runtime asks of a bound project; a graph that the program can
      build satisfies its laws.
    - RuntimeLayout: abi_layout.cpp and runtime_layout.cpp, the builder as a state
      transformer.  [layout_fuel] is two calls for every slot, because a nested call
      that does not return at once fills one, and [unconnected_fuel] one more than the
      places of unconnected values.
    - RuntimeRules: rounding up, fields one behind the other, and the
      rules of native layout stated without the builder.
    - RuntimeOrder, RuntimeRecords, RuntimeRecursion, RuntimeBuild: the builder refines the rules; the order
      [RuntimeRules.extends] says what a step of the construction keeps.
    - RuntimeProject: the preparation returns, a prepared layout obeys the
      rules of the ABI, objects, unconnected values and fields do not overlap, and every
      reference has a value to refer to.
    - TextLines: searching texts and reading them line by line, shared by two readers.
    - Outcome, RuntimeValue: computations that answer or refuse, and what reading a value
      answers.
    - RuntimeQuery: runtime_query.cpp, reading one value by its name.  The member search is
      given the depth that the code allows, [type_count + 1] calls.  QueryBounds: it ends
      and touches only the image and the runtime memory, and which member a name means,
      against the rule of hiding and ambiguity.
    - RuntimeIc: runtime_ic.cpp, a scalar by its semantic path; IcScalar: resolving, reading
      and writing it stay in bounds, its member is the one of a query by name, and a write
      is read back and changes nothing else.
    - RuntimeIcCodec: the binary half of runtime_ic_codec.cpp.  IcEncode: an image as
      regions that are filled from their beginning, and the encoders; IcBind: what they
      write is the image of the plan, and what the view accepts and reads of it; IcRoundtrip:
      the index of strings and the places of the parts; preparing, encoding, binding and
      reading a snapshot gives it back, with paths as texts and with numbers of the compiled
      image's strings; IcBounds: the view on arbitrary
      bytes, and what an accepted image contains.
    - RuntimeIcReset: runtime_ic_reset.cpp, writing initial conditions back from records and
      from a binary image; IcResetRecords: the states that the loop keeps do not
      change an outcome, and the reset from an image is the reset from its records;
      IcRestore: a snapshot that is encoded, bound and written into another memory reads
      there as before.
    - RuntimeIcSnapshot: runtime_ic_snapshot.cpp, the traversal of a whole project; its two
      copies, with texts and with numbers of strings, are one definition over the type of
      components.  The depth that is left is the fuel, as in the code.  IcSnapshot: it ends
      and what it records is read by its path; [IcSnapshot.self_naming] is what the indices
      of an image promise about names.  IcSnapshotExact: nothing that a path leads to is
      missing, and the snapshot of a memory, written into another memory
      through its binary image, is read there by every path.
    - RuntimeIcText: the text half of runtime_ic_codec.cpp and the reset
      from a text.  [FloatText] stands for the floating-point conversions of <charconv>,
      [IcText.FloatTextLaws] for what they promise.  A path and a text are searched with one
      more round than they have bytes, because every round moves behind a separator.
      IcText: a value, a path and a line are read back, and a
      snapshot survives its text; IcResetBounds: no reset leaves its bounds, for any text.

    Diagnostics (diagnostics/)
    - DiagnosticCatalog, Diagnostics, DiagnosticFormatter: the registry, locations from
      offsets, the presentation order and the caret under the source.

    Server and communication
    - OutboundChannel, Connection, Communication: communication/connection, session,
      request_queue, communication.cpp.  Messages are delivered in order, resources are
      conserved, closing is final.
    - ServerState, Server, ServerControl: server_state.hpp, server_policy, license/
      server_lease, server.cpp.  Requests refine the state machine of the project; every
      client is told the state it is in; the control loop comes to rest.
    - TcpPeer, TcpEndpoint: communication/tcp/tcp_endpoint.cpp.  Received bytes are
      dispatched as frames in order, the gate counts the open peers.

    ** Choices a reader should know

    A method of the connection is one whole step, because the code holds its mutex
    across it.  The padding bytes of graph records that no operation reads are left out.
    [std::upper_bound] and [std::stable_sort] are their specifications.  A path is its
    generic string.  The control message of a request leaves out the identity of its
    client, which the control loop does not read.

    ** Findings

    - [TcpEndpoint.hangup_closes_later_peers]: the service loop of the endpoint reads the
      poll events of a peer at its current index while it erases peers, so a hang-up on
      one connection closes every later one (tcp_endpoint.cpp:657).
    - The registry that is called the complete diagnostic catalog lacks
      [project_load_incomplete] (diagnostic_registry.hpp:41).

    ** Not modelled

    - Operating-system work: console input, sockets and threads, file mappings, shared
      memory, the cryptography and HTTP of authentication, execution lanes, the entry
      point.
    - Floating-point text conversion (the JSON writer's [number(double)] and the
      floating-point accessors).
    - The loaders of the configuration, the licence and the lease, which check JSON
      members one by one over the modelled parser.
    - The parser (project/parser/parser.cpp), the source map and the file context, the persisted images beside what is listed above, and the runtime
      beside what is listed above: these build on the components here and are the next
      to be added. *)

From stdpp Require Export prelude gmap strings list.
From Stdlib Require Export ZArith Lia Btauto.
From Stdlib.Strings Require Export Byte.

Local Open Scope Z_scope.

(** ** Machine integers *)

(** A [w]-bit unsigned integer is a [Z]; the wrap-around of the C++ unsigned
    arithmetic is written with these reductions. *)
Definition u8 (x : Z) : Z := x mod 2 ^ 8.
Definition u16 (x : Z) : Z := x mod 2 ^ 16.
Definition u32 (x : Z) : Z := x mod 2 ^ 32.
Definition u64 (x : Z) : Z := x mod 2 ^ 64.

(** [std::numeric_limits<T>::max()] of the two widths the code compares with. *)
Definition u32_max : Z := 2 ^ 32 - 1.
Definition size_max : Z := 2 ^ 64 - 1.

(** Bytes of text: [char] and [std::byte] as the 256 values of [byte]. *)
Definition bz (b : byte) : Z := Z.of_N (Byte.to_N b).
Definition zb (z : Z) : byte :=
  match Byte.of_N (Z.to_N (u8 z)) with Some b => b | None => x00 end.

#[export] Instance byte_eq_dec : EqDecision byte := Byte.byte_eq_dec.
#[export] Instance byte_inhabited : Inhabited byte := populate x00.

(** A C++ string literal as the bytes of its characters. *)
Definition str (s : string) : list byte := String.list_byte_of_string s.

(** ** Bit-level automation *)

Create Rewrite HintDb zbits.
(** UTF-8 validity of the strings the JSON parser builds. *)
Create HintDb utf8.

Lemma testbit_high n x i : 0 <= x < 2 ^ n -> n <= i -> Z.testbit x i = false.
Proof.
  intros Hx Hi. destruct (decide (0 <= n)).
  - rewrite <- (Z.mod_small x (2 ^ n)) by lia. apply Z.mod_pow2_bits_high; lia.
  - rewrite (Z.pow_neg_r 2 n) in Hx by lia. lia.
Qed.

Lemma shiftl_testbit x n i :
  0 <= i -> Z.testbit (Z.shiftl x n) i = Z.testbit x (i - n).
Proof. intros. by rewrite Z.shiftl_spec. Qed.

Lemma pow2_testbit n i : 0 <= n -> Z.testbit (2 ^ n) i = (n =? i).
Proof. intros. rewrite Z.pow2_bits_eqb by lia. done. Qed.

(** A nonnegative integer is below [2 ^ n] when its bits from [n] on are clear. *)
Lemma bits_bound n x :
  0 <= n -> (forall i, n <= i -> Z.testbit x i = false) -> 0 <= x < 2 ^ n.
Proof.
  intros Hn H. replace x with (x mod 2 ^ n); [apply Z.mod_pos_bound; lia|].
  apply Z.bits_inj'. intros i Hi. rewrite Z.testbit_mod_pow2 by lia.
  destruct (Z.ltb_spec i n); [done|]. by rewrite H.
Qed.

Lemma lxor_bound n x y :
  0 <= n -> 0 <= x < 2 ^ n -> 0 <= y < 2 ^ n -> 0 <= Z.lxor x y < 2 ^ n.
Proof.
  intros Hn Hx Hy. apply bits_bound; [done|]. intros i Hi.
  by rewrite Z.lxor_spec, !(testbit_high n) by done.
Qed.

Lemma lor_bound n x y :
  0 <= n -> 0 <= x < 2 ^ n -> 0 <= y < 2 ^ n -> 0 <= Z.lor x y < 2 ^ n.
Proof.
  intros Hn Hx Hy. apply bits_bound; [done|]. intros i Hi.
  by rewrite Z.lor_spec, !(testbit_high n) by done.
Qed.

Lemma land_ones_mod x n : 0 <= n -> Z.land x (2 ^ n - 1) = x mod 2 ^ n.
Proof.
  intros. rewrite <- Z.land_ones by lia. by rewrite Z.ones_equiv, <- Z.sub_1_r.
Qed.

Lemma land_bound_r x n : 0 <= n -> 0 <= Z.land x (2 ^ n - 1) < 2 ^ n.
Proof. intros. rewrite land_ones_mod by lia. apply Z.mod_pos_bound. lia. Qed.

#[export] Hint Rewrite Z.lxor_spec Z.land_spec Z.lor_spec Z.bits_0
  using lia : zbits.
#[export] Hint Rewrite shiftl_testbit Z.shiftr_spec Z.testbit_mod_pow2
  pow2_testbit Z.testbit_ones_nonneg Z.testbit_neg_r using lia : zbits.

(** [zbits] proves an equation of integers bit by bit. *)
Ltac zbits_at i :=
  autorewrite with zbits;
  repeat match goal with
  | |- context [?a =? ?b] => destruct (Z.eqb_spec a b); try lia
  | |- context [?a <? ?b] => destruct (Z.ltb_spec a b); try lia
  | |- context [Z.testbit _ ?a] => rewrite (Z.testbit_neg_r _ a) by lia
  end;
  try btauto.
Ltac zbits := apply Z.bits_inj'; intros ?i ?Hi; zbits_at i.

(** ** Byte lemmas *)

Lemma bz_range b : 0 <= bz b < 256.
Proof. unfold bz. pose proof (Byte.to_N_bounded b). lia. Qed.

Lemma bz_inj a b : bz a = bz b -> a = b.
Proof.
  unfold bz. intros H. apply N2Z.inj in H.
  pose proof (Byte.of_to_N a). pose proof (Byte.of_to_N b). congruence.
Qed.

Lemma u8_range z : 0 <= u8 z < 256.
Proof. unfold u8. apply Z.mod_pos_bound. lia. Qed.

Lemma bz_zb z : bz (zb z) = u8 z.
Proof.
  unfold zb, bz. pose proof (u8_range z).
  destruct (Byte.of_N (Z.to_N (u8 z))) eqn:E.
  - apply Byte.to_of_N in E. lia.
  - apply Byte.of_N_None_iff in E. lia.
Qed.

Lemma bz_zb_small z : 0 <= z < 256 -> bz (zb z) = z.
Proof. intros. rewrite bz_zb. unfold u8. apply Z.mod_small. lia. Qed.

Lemma zb_bz b : zb (bz b) = b.
Proof. apply bz_inj. apply bz_zb_small, bz_range. Qed.

Lemma bz_eqb a b : (bz a =? bz b) = bool_decide (a = b).
Proof.
  case_bool_decide as E; [subst; lia|].
  apply Z.eqb_neq. intros H. by apply E, bz_inj.
Qed.

(** Lower ranges through which [lia] sees a byte or a reduced word. *)
Ltac byte_ranges :=
  repeat match goal with
  | |- context [bz ?b] =>
      lazymatch goal with
      | _ : 0 <= bz b < 256 |- _ => fail
      | _ => pose proof (bz_range b)
      end
  | _ : context [bz ?b] |- _ =>
      lazymatch goal with
      | _ : 0 <= bz b < 256 |- _ => fail
      | _ => pose proof (bz_range b)
      end
  end.

(** ** Control-flow automation *)

(** Splits the innermost [match]/[if] scrutinee and cleans up. *)
Ltac split_match :=
  match goal with
  | |- context [match ?x with _ => _ end] =>
      lazymatch x with
      | context [match _ with _ => _ end] => fail
      | _ => destruct x eqn:?
      end
  | H : context [match ?x with _ => _ end] |- _ =>
      lazymatch x with
      | context [match _ with _ => _ end] => fail
      | _ => destruct x eqn:?
      end
  end; simplify_eq/=.

(** Turns boolean comparisons in the context into propositions. *)
Ltac unbool :=
  repeat match goal with
  | H : (_ && _)%bool = true |- _ => apply andb_true_iff in H as [? ?]
  | H : (_ || _)%bool = false |- _ => apply orb_false_iff in H as [? ?]
  | H : (_ || _)%bool = true |- _ => apply orb_true_iff in H
  | H : (_ && _)%bool = false |- _ => apply andb_false_iff in H
  | H : negb _ = true |- _ => apply negb_true_iff in H
  | H : negb _ = false |- _ => apply negb_false_iff in H
  | H : (_ =? _) = true |- _ => apply Z.eqb_eq in H
  | H : (_ =? _) = false |- _ => apply Z.eqb_neq in H
  | H : (_ <? _) = true |- _ => apply Z.ltb_lt in H
  | H : (_ <? _) = false |- _ => apply Z.ltb_ge in H
  | H : (_ <=? _) = true |- _ => apply Z.leb_le in H
  | H : (_ <=? _) = false |- _ => apply Z.leb_gt in H
  | H : (_ =? _)%nat = true |- _ => apply Nat.eqb_eq in H
  | H : (_ =? _)%nat = false |- _ => apply Nat.eqb_neq in H
  | H : (_ <? _)%nat = true |- _ => apply Nat.ltb_lt in H
  | H : (_ <? _)%nat = false |- _ => apply Nat.ltb_ge in H
  | H : (_ <=? _)%nat = true |- _ => apply Nat.leb_le in H
  | H : (_ <=? _)%nat = false |- _ => apply Nat.leb_gt in H
  | H : bool_decide _ = true |- _ => apply bool_decide_eq_true in H
  | H : bool_decide _ = false |- _ => apply bool_decide_eq_false in H
  end.

(** ** Lists *)

Lemma lookup_total_fmap_lt `{Inhabited A, Inhabited B} (f : A -> B) (l : list A) n :
  (n < length l)%nat -> (f <$> l) !!! n = f (l !!! n).
Proof.
  intros Hn. destruct (lookup_lt_is_Some_2 l n Hn) as [x Hx].
  rewrite (list_lookup_total_correct _ _ _ Hx).
  apply list_lookup_total_correct. by rewrite list_lookup_fmap, Hx.
Qed.

Lemma lookup_total_seq_lt j n i : (i < n)%nat -> seq j n !!! i = (j + i)%nat.
Proof. intros. apply list_lookup_total_correct, lookup_seq. lia. Qed.

(** ** Bit fields as arithmetic *)

Lemma lor_disjoint c x n : 0 <= n -> 0 <= x < 2 ^ n -> Z.lor (c * 2 ^ n) x = c * 2 ^ n + x.
Proof.
  intros Hn Hx. rewrite <- Z.shiftl_mul_pow2 by lia.
  assert (Z.land (Z.shiftl c n) x = 0) as H0.
  { apply Z.bits_inj'. intros i Hi. rewrite Z.land_spec, Z.bits_0, shiftl_testbit by lia.
    destruct (decide (i < n)); [by rewrite Z.testbit_neg_r by lia|].
    rewrite (testbit_high n x) by lia. btauto. }
  pose proof (Z.add_lor_land (Z.shiftl c n) x). lia.
Qed.

Lemma land_mask x n m : m = 2 ^ n - 1 -> 0 <= n -> Z.land x m = x mod 2 ^ n.
Proof. intros ->. apply land_ones_mod. Qed.

(** [lia] with the quotient and remainder equations of constant divisors. *)
Ltac divlia := Z.to_euclidean_division_equations; lia.

(** ** Slices: the elements from index [a] up to index [b] *)

Definition slice {A} (a b : nat) (l : list A) : list A := take (b - a) (drop a l).

Lemma slice_app {A} (a b c : nat) (l : list A) :
  (a <= b <= c)%nat -> slice a c l = slice a b l ++ slice b c l.
Proof.
  intros H. unfold slice. replace (c - a)%nat with ((b - a) + (c - b))%nat by lia.
  rewrite <- take_take_drop, drop_drop. do 3 f_equal. lia.
Qed.

Lemma slice_nil {A} (a : nat) (l : list A) : slice a a l = [].
Proof. unfold slice. by rewrite Nat.sub_diag, take_0. Qed.

Lemma slice_one `{Inhabited A} (a : nat) (l : list A) :
  (a < length l)%nat -> slice a (S a) l = [l !!! a].
Proof.
  intros Ha. unfold slice. replace (S a - a)%nat with 1%nat by lia.
  destruct (lookup_lt_is_Some_2 l a Ha) as [x Hx].
  rewrite (drop_S l x a Hx), (list_lookup_total_correct _ _ _ Hx). done.
Qed.

Lemma length_slice {A} (a b : nat) (l : list A) :
  (a <= b <= length l)%nat -> length (slice a b l) = (b - a)%nat.
Proof. intros. unfold slice. rewrite length_take, length_drop. lia. Qed.
