(* ===== verification/RuntimeValue.v ===== *)
(** What the services over the runtime memory answer: a value read by its name
    (project/runtime/runtime_query.hpp), a reset of initial conditions
    (project/runtime/runtime_ic_reset.hpp). *)

From S2P Require Import Prelude.

Local Open Scope Z_scope.

Inductive runtime_query_result :=
| query_success | query_invalid_input | query_not_found | query_unsupported_type
| query_invalid_runtime.

#[export] Instance runtime_query_result_eq_dec : EqDecision runtime_query_result.
Proof. solve_decision. Defined.

(** A value read from the runtime image: the intrinsic type's number, the size and
    the bits. *)
Record runtime_value := RuntimeValue {
  value_type : Z;
  value_size : Z;
  value_reserved16 : Z;
  value_reserved32 : Z;
  value_bits : Z
}.

Inductive runtime_ic_reset_result :=
| reset_success | reset_invalid_input | reset_invalid_image | reset_not_found
| reset_unsupported_type | reset_type_mismatch | reset_invalid_runtime | reset_failed.

#[export] Instance runtime_ic_reset_result_eq_dec : EqDecision runtime_ic_reset_result.
Proof. solve_decision. Defined.

(** ** Options of a reset, bits of a byte (project/runtime/runtime_ic.hpp) *)

Definition reset_ic_constants : Z := 0x01.
Definition reset_ic_variables : Z := 0x02.
Definition reset_ic_defaults : Z := 0x04.
Definition reset_ic_options_mask : Z := Z.lor (Z.lor reset_ic_constants reset_ic_variables) reset_ic_defaults.

Definition has_option (value option : Z) : bool := negb (Z.land value option =? 0).
Definition valid_reset_ic_options (value : Z) : bool :=
  Z.land value (Z.lnot reset_ic_options_mask) =? 0.

Lemma valid_reset_ic_options_spec value :
  0 <= value < 256 -> valid_reset_ic_options value = true <-> value < 8.
Proof.
  intros Hv. unfold valid_reset_ic_options. rewrite Z.eqb_eq, <- Z.ldiff_land.
  change reset_ic_options_mask with (Z.ones 3). rewrite Z.ldiff_ones_r by lia.
  rewrite Z.shiftr_div_pow2, Z.shiftl_mul_pow2 by lia. change (2 ^ 3) with 8. divlia.
Qed.
