(* ===== verification/Crc64.v ===== *)
(** CRC-64/ECMA-182 of the persisted images
    (server_engine/project/persistence/crc64_ecma.hpp): the lookup tables, the
    big-endian block load, the slicing-by-8 loop, and the proof that it
    computes the bit-serial remainder. *)

From S2P Require Import Prelude.

Local Open Scope Z_scope.

Definition persistence_crc64_polynomial : Z := 0x42f0e1eba9ea3693.

(** One round of the table loop: shift out the top bit, reduce if it was set. *)
Definition crc_bit_step (crc : Z) : Z :=
  if negb (Z.land crc (Z.shiftl 1 63) =? 0)
  then Z.lxor (u64 (Z.shiftl crc 1)) persistence_crc64_polynomial
  else u64 (Z.shiftl crc 1).

Definition make_persistence_crc64_table : list Z :=
  (fun index => Nat.iter 8 crc_bit_step (u64 (Z.shiftl (Z.of_nat index) 56)))
    <$> seq 0 256.

Definition persistence_crc64_table : list Z := make_persistence_crc64_table.

Definition persistence_crc64_advance_zero (crc : Z) : Z :=
  Z.lxor (u64 (Z.shiftl crc 8))
    (persistence_crc64_table !!! Z.to_nat (u8 (Z.shiftr crc 56))).

(** [output[7]] is the byte table; each lower slice advances the slice above it
    by one zero byte. The list is built from slice 7 down to slice 0. *)
Fixpoint slices_down (n : nat) (slice : list Z) : list (list Z) :=
  match n with
  | O => [slice]
  | S n => slices_down n (persistence_crc64_advance_zero <$> slice) ++ [slice]
  end.

Definition make_persistence_crc64_slicing_table : list (list Z) :=
  slices_down 7 persistence_crc64_table.

Definition persistence_crc64_slicing_table : list (list Z) :=
  make_persistence_crc64_slicing_table.

Definition persistence_crc64_byteswap (value : Z) : Z :=
  Z.lor (Z.lor (Z.lor (Z.lor (Z.lor (Z.lor (Z.lor
    (u64 (Z.shiftl (Z.land value 0x00000000000000ff) 56))
    (u64 (Z.shiftl (Z.land value 0x000000000000ff00) 40)))
    (u64 (Z.shiftl (Z.land value 0x0000000000ff0000) 24)))
    (u64 (Z.shiftl (Z.land value 0x00000000ff000000) 8)))
    (Z.shiftr (Z.land value 0x000000ff00000000) 8))
    (Z.shiftr (Z.land value 0x0000ff0000000000) 24))
    (Z.shiftr (Z.land value 0x00ff000000000000) 40))
    (Z.shiftr (Z.land value 0xff00000000000000) 56).

(** [std::memcpy] of eight bytes into a [uint64] on a little- or big-endian
    machine (language semantics, not program code). *)
Definition memcpy_le64 (l : list byte) : Z :=
  foldr (fun b acc => Z.lor (bz b) (Z.shiftl acc 8)) 0 l.
Definition memcpy_be64 (l : list byte) : Z :=
  foldl (fun acc b => Z.lor (Z.shiftl acc 8) (bz b)) 0 l.

Inductive evaluation := constant_evaluated | native_little | native_big.

Definition persistence_crc64_load_be64
    (mode : evaluation) (bytes : list byte) (offset : nat) : Z :=
  let at_ i := bz (bytes !!! (offset + i)%nat) in
  match mode with
  | constant_evaluated =>
      Z.lor (Z.lor (Z.lor (Z.lor (Z.lor (Z.lor (Z.lor
        (u64 (Z.shiftl (at_ 0%nat) 56)) (u64 (Z.shiftl (at_ 1%nat) 48)))
        (u64 (Z.shiftl (at_ 2%nat) 40))) (u64 (Z.shiftl (at_ 3%nat) 32)))
        (u64 (Z.shiftl (at_ 4%nat) 24))) (u64 (Z.shiftl (at_ 5%nat) 16)))
        (u64 (Z.shiftl (at_ 6%nat) 8))) (at_ 7%nat)
  | native_little =>
      persistence_crc64_byteswap (memcpy_le64 (take 8 (drop offset bytes)))
  | native_big => memcpy_be64 (take 8 (drop offset bytes))
  end.

(** The body of the eight-byte loop. *)
Definition crc_block (crc block : Z) : Z :=
  let value := Z.lxor crc block in
  let slice k shift :=
    (persistence_crc64_slicing_table !!! k) !!! Z.to_nat (u8 (Z.shiftr value shift)) in
  Z.lxor (Z.lxor (Z.lxor (Z.lxor (Z.lxor (Z.lxor (Z.lxor
    (slice 0%nat 56) (slice 1%nat 48)) (slice 2%nat 40)) (slice 3%nat 32))
    (slice 4%nat 24)) (slice 5%nat 16)) (slice 6%nat 8)) (slice 7%nat 0).

(** The body of the single-byte loop. *)
Definition crc_byte (crc : Z) (b : byte) : Z :=
  let table_index := u8 (Z.lxor (Z.shiftr crc 56) (bz b)) in
  Z.lxor (u64 (Z.shiftl crc 8)) (persistence_crc64_table !!! Z.to_nat table_index).

Fixpoint crc_word_loop (mode : evaluation) (fuel : nat) (bytes : list byte)
    (crc : Z) (offset : nat) : Z * nat :=
  match fuel with
  | O => (crc, offset)
  | S fuel =>
      if (8 <=? length bytes - offset)%nat then
        crc_word_loop mode fuel bytes
          (crc_block crc (persistence_crc64_load_be64 mode bytes offset)) (offset + 8)
      else (crc, offset)
  end.

Fixpoint crc_tail_loop (fuel : nat) (bytes : list byte) (crc : Z) (offset : nat) : Z :=
  match fuel with
  | O => crc
  | S fuel =>
      if (offset <? length bytes)%nat then
        crc_tail_loop fuel bytes (crc_byte crc (bytes !!! offset)) (S offset)
      else crc
  end.

(** [persistence_crc64]; each loop runs at most [length bytes] times. *)
Definition persistence_crc64 (mode : evaluation) (bytes : list byte) : Z :=
  let '(crc, offset) := crc_word_loop mode (length bytes) bytes 0 0 in
  crc_tail_loop (length bytes) bytes crc offset.

(** ** Reference: the bit-serial remainder *)

Definition crc_ref_byte (crc : Z) (b : byte) : Z :=
  Nat.iter 8 crc_bit_step (Z.lxor crc (Z.shiftl (bz b) 56)).

Definition crc_ref (bytes : list byte) : Z := foldl crc_ref_byte 0 bytes.

Definition persistence_crc64_ecma_check : list byte := str "123456789".

Example check_value :
  persistence_crc64 native_little persistence_crc64_ecma_check = 0x6c40df5f0b497347.
Proof. vm_compute. reflexivity. Qed.

(** ** The bit step is linear and invertible *)

Lemma crc_bit_step_alt x :
  crc_bit_step x =
  Z.lxor (u64 (Z.shiftl x 1)) (if Z.testbit x 63 then persistence_crc64_polynomial else 0).
Proof.
  unfold crc_bit_step. replace (Z.land x (Z.shiftl 1 63)) with
    (if Z.testbit x 63 then 2 ^ 63 else 0).
  - destruct (Z.testbit x 63); simpl; by rewrite ?Z.lxor_0_r.
  - change (Z.shiftl 1 63) with (2 ^ 63). apply Z.bits_inj'. intros i Hi.
    rewrite Z.land_spec, pow2_testbit by lia.
    destruct (Z.eqb_spec 63 i) as [<-|].
    + by destruct (Z.testbit x 63).
    + destruct (Z.testbit x 63); rewrite ?pow2_testbit, ?Z.bits_0 by lia;
        destruct (Z.eqb_spec 63 i); try done; by rewrite andb_false_r.
Qed.

Lemma u64_range x : 0 <= u64 x < 2 ^ 64.
Proof. apply Z.mod_pos_bound. lia. Qed.

Lemma u64_lxor x y : u64 (Z.lxor x y) = Z.lxor (u64 x) (u64 y).
Proof. unfold u64. zbits. Qed.

Lemma crc_bit_step_range x : 0 <= crc_bit_step x < 2 ^ 64.
Proof.
  rewrite crc_bit_step_alt. apply lxor_bound; [lia|apply u64_range|].
  destruct (Z.testbit x 63); unfold persistence_crc64_polynomial; lia.
Qed.

Lemma crc_bit_step_lxor x y :
  crc_bit_step (Z.lxor x y) = Z.lxor (crc_bit_step x) (crc_bit_step y).
Proof.
  rewrite !crc_bit_step_alt, Z.shiftl_lxor, u64_lxor, Z.lxor_spec.
  apply Z.bits_inj'. intros i Hi. rewrite !Z.lxor_spec.
  destruct (Z.testbit x 63), (Z.testbit y 63); simpl; rewrite ?Z.bits_0; btauto.
Qed.

Definition crc_steps (n : nat) (x : Z) : Z := Nat.iter n crc_bit_step x.

Lemma crc_steps_lxor n x y :
  crc_steps n (Z.lxor x y) = Z.lxor (crc_steps n x) (crc_steps n y).
Proof.
  unfold crc_steps. induction n as [|n IH]; simpl; [done|].
  by rewrite IH, crc_bit_step_lxor.
Qed.

Lemma crc_steps_range n x : 0 <= x < 2 ^ 64 -> 0 <= crc_steps n x < 2 ^ 64.
Proof. destruct n; [done|]. intros _. apply crc_bit_step_range. Qed.

Lemma crc_steps_add n m x : crc_steps (n + m) x = crc_steps n (crc_steps m x).
Proof. apply Nat.iter_add. Qed.

Lemma crc_steps_0 x : crc_steps 0 x = x.
Proof. done. Qed.

Lemma crc_steps_1 x : crc_steps 1 x = crc_bit_step x.
Proof. done. Qed.

(** Steps that lose no bit are a plain shift. *)
Lemma crc_steps_small n x :
  (n <= 64)%nat -> 0 <= x < 2 ^ (64 - Z.of_nat n) ->
  crc_steps n x = Z.shiftl x (Z.of_nat n).
Proof.
  revert x. induction n as [|n IH]; intros x Hn Hx.
  { change (Z.of_nat 0) with 0. by rewrite Z.shiftl_0_r. }
  replace (S n) with (n + 1)%nat by lia. rewrite crc_steps_add.
  rewrite crc_steps_1, crc_bit_step_alt.
  assert (0 <= x < 2 ^ 63).
  { pose proof (Z.pow_le_mono_r 2 (64 - Z.of_nat (S n)) 63). lia. }
  rewrite (testbit_high 63) by lia. rewrite Z.lxor_0_r. unfold u64.
  rewrite Z.shiftl_mul_pow2, Z.mod_small by lia.
  rewrite IH; [|lia|].
  - rewrite !Z.shiftl_mul_pow2 by lia. rewrite <- Z.mul_assoc, <- Z.pow_add_r by lia.
    do 2 f_equal. lia.
  - replace (64 - Z.of_nat n) with (64 - Z.of_nat (S n) + 1) by lia.
    rewrite Z.pow_add_r by lia. lia.
Qed.

(** The polynomial has a constant term, so a step forgets nothing. *)
Lemma crc_bit_step_zero x : 0 <= x < 2 ^ 64 -> crc_bit_step x = 0 -> x = 0.
Proof.
  intros Hx H. rewrite crc_bit_step_alt in H. destruct (Z.testbit x 63) eqn:E.
  - apply (f_equal (fun z => Z.testbit z 0)) in H. unfold u64 in H.
    rewrite Z.lxor_spec, Z.testbit_mod_pow2, Z.shiftl_spec_low in H by lia.
    discriminate H.
  - rewrite Z.lxor_0_r in H. apply Z.bits_inj'. intros i Hi. rewrite Z.bits_0.
    destruct (decide (i = 63)) as [->|]; [done|].
    destruct (decide (i < 63)); [|apply (testbit_high 64); lia].
    apply (f_equal (fun z => Z.testbit z (i + 1))) in H. unfold u64 in H.
    rewrite Z.bits_0, Z.testbit_mod_pow2, Z.shiftl_spec in H by lia.
    replace (i + 1 - 1) with i in H by lia. revert H.
    destruct (Z.ltb_spec (i + 1) 64); [done|lia].
Qed.

Lemma crc_steps_inj n x y :
  0 <= x < 2 ^ 64 -> 0 <= y < 2 ^ 64 -> crc_steps n x = crc_steps n y -> x = y.
Proof.
  intros Hx Hy H. apply Z.lxor_eq.
  assert (crc_steps n (Z.lxor x y) = 0) as H0
    by (rewrite crc_steps_lxor, H; apply Z.lxor_nilpotent).
  assert (0 <= Z.lxor x y < 2 ^ 64) as Hr by (apply lxor_bound; lia).
  clear H. revert H0. induction n as [|n IH]; [done|].
  intros H0. apply IH, crc_bit_step_zero; [by apply crc_steps_range|done].
Qed.

#[local] Opaque crc_steps.

(** ** Tables *)

Lemma top_byte_split x :
  0 <= x < 2 ^ 64 ->
  x = Z.lxor (Z.shiftl (u8 (Z.shiftr x 56)) 56) (x mod 2 ^ 56).
Proof.
  intros Hx. apply Z.bits_inj'. intros i Hi. unfold u8. autorewrite with zbits.
  destruct (Z.ltb_spec i 56).
  - rewrite (Z.testbit_neg_r _ (i - 56)) by lia. by rewrite andb_false_r.
  - rewrite Z.shiftr_spec by lia. replace (i - 56 + 56) with i by lia.
    rewrite xorb_false_r. destruct (Z.ltb_spec (i - 56) 8); [done|].
    apply (testbit_high 64); lia.
Qed.

Lemma table_lookup i :
  0 <= i < 256 ->
  persistence_crc64_table !!! Z.to_nat i = crc_steps 8 (Z.shiftl i 56).
Proof.
  intros Hi. unfold persistence_crc64_table, make_persistence_crc64_table.
  rewrite lookup_total_fmap_lt by (rewrite length_seq; lia).
  rewrite lookup_total_seq_lt, Nat.add_0_l, Z2Nat.id by lia.
  unfold u64. rewrite Z.shiftl_mul_pow2, Z.mod_small by lia. done.
Qed.

Lemma advance_zero_steps x :
  0 <= x < 2 ^ 64 -> persistence_crc64_advance_zero x = crc_steps 8 x.
Proof.
  intros Hx. unfold persistence_crc64_advance_zero.
  rewrite table_lookup by apply u8_range.
  rewrite (top_byte_split x Hx) at 3. rewrite crc_steps_lxor, Z.lxor_comm. f_equal.
  assert (0 <= x mod 2 ^ 56 < 2 ^ 56) by (apply Z.mod_pos_bound; lia).
  rewrite crc_steps_small by (simpl; lia). unfold u64.
  apply Z.bits_inj'. intros i Hi. autorewrite with zbits.
  change (Z.of_nat 8) with 8.
  destruct (Z.ltb_spec i 64), (Z.ltb_spec (i - 8) 56); simpl; try lia; done.
Qed.

Lemma slices_down_lookup t k :
  (k < 8)%nat ->
  slices_down 7 t !!! k = Nat.iter (7 - k) (fmap persistence_crc64_advance_zero) t.
Proof. intros. by destruct k as [|[|[|[|[|[|[|[|k]]]]]]]]; [..|lia]. Qed.

Lemma advanced_lookup t n i :
  (i < length t)%nat ->
  Nat.iter n (fmap persistence_crc64_advance_zero) t !!! i =
  Nat.iter n persistence_crc64_advance_zero (t !!! i).
Proof.
  intros Hi. assert (forall m, length (Nat.iter m (fmap persistence_crc64_advance_zero) t)
    = length t) as Hlen.
  { induction m as [|m IH]; simpl; [done|]. by rewrite length_fmap. }
  induction n as [|n IH]; simpl; [done|].
  rewrite lookup_total_fmap_lt by (rewrite Hlen; lia). by rewrite IH.
Qed.

Lemma table_length : length persistence_crc64_table = 256%nat.
Proof.
  unfold persistence_crc64_table, make_persistence_crc64_table.
  rewrite length_fmap. apply length_seq.
Qed.

Lemma slice_lookup k i :
  (k < 8)%nat -> 0 <= i < 256 ->
  (persistence_crc64_slicing_table !!! k) !!! Z.to_nat i =
  crc_steps (8 * (8 - k)) (Z.shiftl i 56).
Proof.
  intros Hk Hi. unfold persistence_crc64_slicing_table, make_persistence_crc64_slicing_table.
  rewrite slices_down_lookup, advanced_lookup, table_lookup by (rewrite ?table_length; lia).
  assert (0 <= Z.shiftl i 56 < 2 ^ 64) by (rewrite Z.shiftl_mul_pow2; lia).
  replace (8 - k)%nat with (S (7 - k)) by lia.
  induction (7 - k)%nat as [|n IH]; [done|]. rewrite Nat.iter_succ.
  rewrite IH, advance_zero_steps by by apply crc_steps_range.
  rewrite <- crc_steps_add. f_equal. lia.
Qed.

(** ** The slicing loop body *)

(** Peeling the top byte: [8 (S n)] steps of a word are the advanced top byte
    plus [8 n] steps of the rest. *)
Lemma crc_steps_peel n x :
  0 <= x < 2 ^ 64 ->
  crc_steps (8 * S n) x =
  Z.lxor (crc_steps (8 * S n) (Z.shiftl (u8 (Z.shiftr x 56)) 56))
    (crc_steps (8 * n) (u64 (Z.shiftl x 8))).
Proof.
  intros Hx. rewrite (top_byte_split x Hx) at 1. rewrite crc_steps_lxor. f_equal.
  replace (8 * S n)%nat with (8 * n + 8)%nat by lia. rewrite crc_steps_add. f_equal.
  assert (0 <= x mod 2 ^ 56 < 2 ^ 56) by (apply Z.mod_pos_bound; lia).
  rewrite crc_steps_small by (simpl; lia). unfold u64.
  apply Z.bits_inj'. intros i Hi. autorewrite with zbits. change (Z.of_nat 8) with 8.
  destruct (Z.ltb_spec i 64), (Z.ltb_spec (i - 8) 56); simpl; try lia; done.
Qed.

Lemma u64_shiftl_shiftl x a b :
  0 <= a -> 0 <= b -> u64 (Z.shiftl (u64 (Z.shiftl x a)) b) = u64 (Z.shiftl x (a + b)).
Proof.
  intros. unfold u64. apply Z.bits_inj'. intros i Hi. autorewrite with zbits.
  destruct (decide (i - b < 0)).
  - rewrite !(Z.testbit_neg_r _ (i - b)), !(Z.testbit_neg_r _ (i - (a + b))) by lia. by rewrite andb_false_r.
  - rewrite shiftl_testbit by lia.
    replace (i - (a + b)) with (i - b - a) by lia.
    destruct (Z.ltb_spec i 64), (Z.ltb_spec (i - b) 64); try lia; done.
Qed.

Lemma top_byte_shiftl x s :
  0 <= s <= 56 -> u8 (Z.shiftr (u64 (Z.shiftl x s)) 56) = u8 (Z.shiftr x (56 - s)).
Proof.
  intros. unfold u8, u64. apply Z.bits_inj'. intros i Hi. autorewrite with zbits.
  destruct (Z.ltb_spec i 8); [|done].
  simpl.
  replace (i + 56 - s) with (i + (56 - s)) by lia.
  destruct (Z.ltb_spec (i + 56) 64); [done|lia].
Qed.

Lemma crc_block_steps crc block :
  0 <= crc < 2 ^ 64 -> 0 <= block < 2 ^ 64 ->
  crc_block crc block = crc_steps 64 (Z.lxor crc block).
Proof.
  intros Hc Hb. unfold crc_block. set (v := Z.lxor crc block).
  assert (0 <= v < 2 ^ 64) as Hv by (apply lxor_bound; lia).
  rewrite !slice_lookup by (try apply u8_range; lia). simpl (8 - _)%nat.
  change 64%nat with (8 * 8)%nat.
  rewrite (crc_steps_peel 7 v) by done.
  do 7 (rewrite (crc_steps_peel _ (u64 _)) by apply u64_range;
        rewrite u64_shiftl_shiftl by lia).
  change (8 * 0)%nat with 0%nat. rewrite crc_steps_0.
  change (8 + 8 + 8 + 8 + 8 + 8 + 8 + 8) with 64.
  assert (u64 (Z.shiftl v 64) = 0) as ->
    by (unfold u64; rewrite Z.shiftl_mul_pow2, Z.mod_mul; lia).
  rewrite !top_byte_shiftl by lia. rewrite Z.lxor_0_r.
  rewrite <- !Z.lxor_assoc. done.
Qed.

(** ** The single-byte loop body *)

Lemma byte_shift_range b : 0 <= Z.shiftl (bz b) 56 < 2 ^ 64.
Proof. pose proof (bz_range b). rewrite Z.shiftl_mul_pow2; lia. Qed.

Lemma crc_ref_byte_range crc b : 0 <= crc_ref_byte crc b < 2 ^ 64.
Proof. apply crc_bit_step_range. Qed.

Lemma crc_ref_byte_steps crc b :
  crc_ref_byte crc b = crc_steps 8 (Z.lxor crc (Z.shiftl (bz b) 56)).
Proof. done. Qed.

Lemma crc_byte_ref crc b :
  0 <= crc < 2 ^ 64 -> crc_byte crc b = crc_ref_byte crc b.
Proof.
  intros Hc. pose proof (bz_range b).
  rewrite crc_ref_byte_steps. change 8%nat with (8 * 1)%nat.
  assert (0 <= Z.lxor crc (Z.shiftl (bz b) 56) < 2 ^ 64)
    by (apply lxor_bound; [lia|done|apply byte_shift_range]).
  rewrite (crc_steps_peel 0) by done. unfold crc_byte.
  rewrite table_lookup by apply u8_range. rewrite Z.lxor_comm.
  change (8 * 0)%nat with 0%nat. rewrite crc_steps_0.
  assert (u8 (Z.lxor (Z.shiftr crc 56) (bz b)) =
    u8 (Z.shiftr (Z.lxor crc (Z.shiftl (bz b) 56)) 56)) as ->.
  { unfold u8. apply Z.bits_inj'. intros i Hi. autorewrite with zbits.
    by replace (i + 56 - 56) with i by lia. }
  change (8 * 1)%nat with 8%nat.
  assert (u64 (Z.shiftl (Z.lxor crc (Z.shiftl (bz b) 56)) 8) = u64 (Z.shiftl crc 8)) as ->.
  { rewrite Z.shiftl_lxor, Z.shiftl_shiftl, u64_lxor by lia.
    unfold u64 at 2. rewrite (Z.shiftl_mul_pow2 (bz b)), Z.mod_mul by lia.
    by rewrite Z.lxor_0_r. }
  done.
Qed.

(** ** Block loads *)

Lemma memcpy_be64_snoc l b :
  memcpy_be64 (l ++ [b]) = Z.lor (Z.shiftl (memcpy_be64 l) 8) (bz b).
Proof. unfold memcpy_be64. by rewrite foldl_app. Qed.

Lemma memcpy_be64_range l :
  0 <= memcpy_be64 l < 2 ^ (8 * Z.of_nat (length l)).
Proof.
  induction l as [|b l IH] using rev_ind; [by vm_compute|].
  rewrite memcpy_be64_snoc, length_app, Nat2Z.inj_add. simpl (Z.of_nat (length [b])).
  pose proof (bz_range b).
  apply lor_bound; [lia| |].
  - rewrite Z.shiftl_mul_pow2, Z.mul_add_distr_l, Z.pow_add_r by lia. lia.
  - pose proof (Z.pow_le_mono_r 2 8 (8 * (Z.of_nat (length l) + 1))). lia.
Qed.

Lemma byte_shift_fits b k :
  (k < 8)%nat ->
  0 <= Z.shiftl (bz b) (56 - 8 * Z.of_nat k) < 2 ^ (64 - Z.of_nat (8 * k)).
Proof.
  intros Hk. pose proof (bz_range b). rewrite Z.shiftl_mul_pow2 by lia.
  replace (64 - Z.of_nat (8 * k)) with (8 + (56 - 8 * Z.of_nat k)) by lia.
  rewrite Z.pow_add_r by lia. change (2 ^ 8) with 256.
  pose proof (Z.pow_pos_nonneg 2 (56 - 8 * Z.of_nat k)). nia.
Qed.

Lemma crc_ref_block l crc :
  (length l <= 8)%nat ->
  foldl crc_ref_byte crc l =
  crc_steps (8 * length l)
    (Z.lxor crc (Z.shiftl (memcpy_be64 l) (64 - 8 * Z.of_nat (length l)))).
Proof.
  induction l as [|b l IH] using rev_ind; intros Hl.
  { change (memcpy_be64 []) with 0. by rewrite Z.shiftl_0_l, Z.lxor_0_r. }
  rewrite length_app in Hl. simpl in Hl.
  rewrite foldl_app, IH, length_app, memcpy_be64_snoc by lia. simpl foldl.
  set (k := length l) in *. pose proof (bz_range b).
  change (length [b]) with 1%nat.
  replace (8 * (k + 1))%nat with (8 + 8 * k)%nat by lia.
  rewrite (crc_steps_add 8 (8 * k)), crc_ref_byte_steps. f_equal.
  assert (Z.shiftl (bz b) 56 = crc_steps (8 * k) (Z.shiftl (bz b) (56 - 8 * Z.of_nat k)))
    as ->.
  { rewrite crc_steps_small, Z.shiftl_shiftl by (lia || (apply byte_shift_fits; lia)).
    f_equal. lia. }
  rewrite <- crc_steps_lxor, Z.lxor_assoc. do 2 f_equal.
  rewrite Nat2Z.inj_add. change (Z.of_nat 1) with 1.
  rewrite Z.shiftl_lor, Z.shiftl_shiftl by lia.
  replace (8 + (64 - 8 * (Z.of_nat k + 1))) with (64 - 8 * Z.of_nat k) by lia.
  replace (64 - 8 * (Z.of_nat k + 1)) with (56 - 8 * Z.of_nat k) by lia.
  apply Z.bits_inj'. intros i Hi. rewrite Z.lxor_spec, Z.lor_spec, !shiftl_testbit by lia.
  destruct (decide (i < 64 - 8 * Z.of_nat k)).
  - by rewrite (Z.testbit_neg_r (memcpy_be64 l)) by lia.
  - rewrite (testbit_high 8 (bz b)) by lia. btauto.
Qed.

(** [std::is_constant_evaluated()] and the two [memcpy] branches load the same
    word: the byte swap turns the little-endian load into the big-endian one. *)
Lemma masked_byte v k :
  0 <= k -> Z.land v (Z.shiftl 255 k) = Z.shiftl (u8 (Z.shiftr v k)) k.
Proof.
  intros. change 255 with (Z.ones 8). unfold u8. apply Z.bits_inj'. intros i Hi.
  autorewrite with zbits.
  destruct (decide (i < k)).
  - rewrite !(Z.testbit_neg_r _ (i - k)) by lia. by rewrite !andb_false_r.
  - rewrite Z.testbit_ones_nonneg, Z.shiftr_spec by lia.
    rewrite andb_comm. do 2 f_equal. lia.
Qed.

Lemma memcpy_le64_cons b l :
  u8 (memcpy_le64 (b :: l)) = bz b /\ Z.shiftr (memcpy_le64 (b :: l)) 8 = memcpy_le64 l.
Proof.
  pose proof (bz_range b). simpl. unfold u8. split; apply Z.bits_inj'; intros i Hi;
    autorewrite with zbits.
  - destruct (Z.ltb_spec i 8); simpl.
    + rewrite (Z.testbit_neg_r _ (i - 8)) by lia. btauto.
    + by rewrite (testbit_high 8) by lia.
  - rewrite (testbit_high 8) by lia. simpl. f_equal. lia.
Qed.

Lemma u64_byte_shiftl x s : 0 <= x < 256 -> 0 <= s <= 56 -> u64 (Z.shiftl x s) = Z.shiftl x s.
Proof.
  intros. unfold u64. rewrite Z.shiftl_mul_pow2 by lia. apply Z.mod_small.
  pose proof (Z.pow_le_mono_r 2 s 56). pose proof (Z.pow_pos_nonneg 2 s). nia.
Qed.

Lemma swap_low v k s m :
  m = Z.shiftl 255 k -> 0 <= k -> 0 <= s -> k + s <= 56 ->
  u64 (Z.shiftl (Z.land v m) s) = Z.shiftl (u8 (Z.shiftr v k)) (k + s).
Proof.
  intros -> ???. rewrite masked_byte, Z.shiftl_shiftl by lia.
  apply u64_byte_shiftl; [apply u8_range|lia].
Qed.

Lemma swap_high v k s m :
  m = Z.shiftl 255 k -> 0 <= s <= k ->
  Z.shiftr (Z.land v m) s = Z.shiftl (u8 (Z.shiftr v k)) (k - s).
Proof. intros -> ?. by rewrite masked_byte, Z.shiftr_shiftl_l by lia. Qed.

(** The word whose bytes, most significant first, are the eight arguments. *)
Definition be_word (b0 b1 b2 b3 b4 b5 b6 b7 : Z) : Z :=
  Z.lor (Z.lor (Z.lor (Z.lor (Z.lor (Z.lor (Z.lor
    (Z.shiftl b0 56) (Z.shiftl b1 48)) (Z.shiftl b2 40)) (Z.shiftl b3 32))
    (Z.shiftl b4 24)) (Z.shiftl b5 16)) (Z.shiftl b6 8)) b7.

Lemma byteswap_be_word v :
  persistence_crc64_byteswap v =
  be_word (u8 v) (u8 (Z.shiftr v 8)) (u8 (Z.shiftr v 16)) (u8 (Z.shiftr v 24))
    (u8 (Z.shiftr v 32)) (u8 (Z.shiftr v 40)) (u8 (Z.shiftr v 48)) (u8 (Z.shiftr v 56)).
Proof.
  unfold persistence_crc64_byteswap, be_word.
  rewrite (swap_low v 0 56), (swap_low v 8 40), (swap_low v 16 24), (swap_low v 24 8),
    (swap_high v 32 8), (swap_high v 40 24), (swap_high v 48 40), (swap_high v 56 56)
    by (reflexivity || lia).
  by rewrite Z.shiftr_0_r, Z.shiftl_0_r.
Qed.

Lemma le64_bytes b0 b1 b2 b3 b4 b5 b6 b7 :
  persistence_crc64_byteswap (memcpy_le64 [b0; b1; b2; b3; b4; b5; b6; b7]) =
  be_word (bz b0) (bz b1) (bz b2) (bz b3) (bz b4) (bz b5) (bz b6) (bz b7).
Proof.
  rewrite byteswap_be_word.
  assert (forall b l k, 0 <= k ->
    Z.shiftr (memcpy_le64 (b :: l)) (k + 8) = Z.shiftr (memcpy_le64 l) k) as Hs.
  { intros b l k Hk. rewrite (Z.add_comm k 8), <- Z.shiftr_shiftr by lia.
    by rewrite (proj2 (memcpy_le64_cons b l)). }
  pose proof (fun b l => proj1 (memcpy_le64_cons b l)) as Hu.
  rewrite Hu. f_equal.
  all: repeat first
    [ rewrite Hu; reflexivity
    | match goal with |- context [Z.shiftr (memcpy_le64 (?b :: ?l)) 8] =>
        rewrite (proj2 (memcpy_le64_cons b l)) end
    | match goal with |- context [Z.shiftr (memcpy_le64 (?b :: ?l)) ?k] =>
        change k with ((k - 8) + 8); rewrite (Hs b l (k - 8)) by lia;
        let k' := eval compute in (k - 8) in change (k - 8) with k' end ].
Qed.

Lemma be64_bytes b0 b1 b2 b3 b4 b5 b6 b7 :
  memcpy_be64 [b0; b1; b2; b3; b4; b5; b6; b7] =
  be_word (bz b0) (bz b1) (bz b2) (bz b3) (bz b4) (bz b5) (bz b6) (bz b7).
Proof.
  unfold memcpy_be64, be_word. cbn [foldl].
  rewrite Z.shiftl_0_l, Z.lor_0_l. rewrite !Z.shiftl_lor, !Z.shiftl_shiftl by lia. done.
Qed.

Lemma load_memcpy mode bytes offset :
  (offset + 8 <= length bytes)%nat ->
  persistence_crc64_load_be64 mode bytes offset = memcpy_be64 (take 8 (drop offset bytes)).
Proof.
  intros Hlen. assert (length (take 8 (drop offset bytes)) = 8%nat) as Ht
    by (rewrite length_take, length_drop; lia).
  assert (forall i, (i < 8)%nat ->
    bytes !!! (offset + i)%nat = take 8 (drop offset bytes) !!! i) as Hat.
  { intros i Hi. symmetry. rewrite !list_lookup_total_alt.
    rewrite lookup_take_lt, lookup_drop by lia. done. }
  unfold persistence_crc64_load_be64. rewrite !Hat by lia.
  destruct (take 8 (drop offset bytes)) as [|b0 [|b1 [|b2 [|b3 [|b4 [|b5 [|b6 [|b7 [|]]]]]]]]];
    try discriminate Ht.
  cbn [lookup_total list_lookup_total].
  rewrite !u64_byte_shiftl by (apply bz_range || lia).
  destruct mode; rewrite ?be64_bytes; [done|apply le64_bytes|done].
Qed.

(** ** The loops compute the reference *)

Lemma crc_word_loop_ref mode bytes fuel crc offset :
  0 <= crc < 2 ^ 64 -> (offset <= length bytes)%nat ->
  exists n, (offset <= n <= length bytes)%nat /\
    crc_word_loop mode fuel bytes crc offset =
      (foldl crc_ref_byte crc (take (n - offset) (drop offset bytes)), n) /\
    0 <= foldl crc_ref_byte crc (take (n - offset) (drop offset bytes)) < 2 ^ 64.
Proof.
  revert crc offset.
  induction fuel as [|fuel IH]; intros crc offset Hc Ho; cbn [crc_word_loop].
  { exists offset. rewrite Nat.sub_diag, take_0. simpl. repeat split; lia. }
  destruct (Nat.leb_spec 8 (length bytes - offset)).
  - rewrite load_memcpy by lia. set (w := take 8 (drop offset bytes)).
    assert (length w = 8%nat) as Hw by (unfold w; rewrite length_take, length_drop; lia).
    pose proof (memcpy_be64_range w) as Hr. rewrite Hw in Hr.
    change (8 * Z.of_nat 8) with 64 in Hr.
    assert (crc_block crc (memcpy_be64 w) = foldl crc_ref_byte crc w) as ->.
    { rewrite crc_block_steps, crc_ref_block, Hw by lia.
      change (64 - 8 * Z.of_nat 8) with 0. by rewrite Z.shiftl_0_r. }
    assert (0 <= foldl crc_ref_byte crc w < 2 ^ 64) as Hc'.
    { rewrite crc_ref_block by lia. apply crc_steps_range, lxor_bound; [lia|done|].
      rewrite Hw, Z.shiftl_0_r. done. }
    destruct (IH _ (offset + 8)%nat Hc' ltac:(lia)) as (n & Hn & -> & Hrange).
    exists n. rewrite <- foldl_app in Hrange |- *.
    replace (w ++ take (n - (offset + 8)) (drop (offset + 8) bytes)) with
      (take (n - offset) (drop offset bytes)) in *.
    + repeat split; lia.
    + unfold w. replace (n - offset)%nat with (8 + (n - (offset + 8)))%nat by lia.
      rewrite <- (drop_drop bytes 8 offset). by rewrite take_take_drop.
  - exists offset. rewrite Nat.sub_diag, take_0. simpl. repeat split; lia.
Qed.

Lemma crc_tail_loop_ref bytes fuel crc offset :
  0 <= crc < 2 ^ 64 -> (length bytes <= offset + fuel)%nat ->
  crc_tail_loop fuel bytes crc offset = foldl crc_ref_byte crc (drop offset bytes).
Proof.
  revert crc offset. induction fuel as [|fuel IH]; intros crc offset Hc Ho; simpl.
  { by rewrite drop_ge by lia. }
  destruct (Nat.ltb_spec offset (length bytes)) as [Hlt|].
  - rewrite crc_byte_ref, IH by (done || lia || apply crc_ref_byte_range).
    destruct (lookup_lt_is_Some_2 bytes offset Hlt) as [b Hb].
    rewrite (drop_S bytes b offset Hb), (list_lookup_total_correct _ _ _ Hb). done.
  - by rewrite drop_ge by lia.
Qed.

Lemma persistence_crc64_ref mode bytes : persistence_crc64 mode bytes = crc_ref bytes.
Proof.
  unfold persistence_crc64, crc_ref.
  destruct (crc_word_loop_ref mode bytes (length bytes) 0 0) as (n & Hn & -> & Hr);
    [lia..|].
  rewrite crc_tail_loop_ref by (lia || done). rewrite <- foldl_app, drop_0, Nat.sub_0_r.
  by rewrite take_drop.
Qed.

(** ** Error detection *)

Lemma crc_ref_fold_range l crc :
  0 <= crc < 2 ^ 64 -> 0 <= foldl crc_ref_byte crc l < 2 ^ 64.
Proof.
  revert crc. induction l as [|b l IH]; intros crc Hc; simpl; [done|].
  apply IH, crc_ref_byte_range.
Qed.

Lemma crc_ref_fold_inj l x y :
  0 <= x < 2 ^ 64 -> 0 <= y < 2 ^ 64 ->
  foldl crc_ref_byte x l = foldl crc_ref_byte y l -> x = y.
Proof.
  revert x y. induction l as [|b l IH]; intros x y Hx Hy H; [done|].
  apply IH in H; [|apply crc_ref_byte_range..].
  rewrite !crc_ref_byte_steps in H.
  pose proof (byte_shift_range b).
  apply crc_steps_inj in H; [|apply lxor_bound; lia..].
  apply (f_equal (fun z => Z.lxor z (Z.shiftl (bz b) 56))) in H.
  by rewrite !Z.lxor_assoc, !Z.lxor_nilpotent, !Z.lxor_0_r in H.
Qed.

Lemma memcpy_be64_inj l1 l2 :
  length l1 = length l2 -> memcpy_be64 l1 = memcpy_be64 l2 -> l1 = l2.
Proof.
  revert l2. induction l1 as [|b1 l1 IH] using rev_ind; intros l2 Hlen H.
  { by destruct l2. }
  destruct l2 as [|b2 l2 _] using rev_ind; rewrite !length_app in Hlen; simpl in Hlen; [lia|].
  rewrite !memcpy_be64_snoc in H. pose proof (bz_range b1). pose proof (bz_range b2).
  assert (forall x b, Z.lor (Z.shiftl x 8) (bz b) = x * 256 + bz b) as Hadd.
  { intros x b. pose proof (bz_range b).
    assert (Z.land (Z.shiftl x 8) (bz b) = 0) as Hland.
    { apply Z.bits_inj'. intros i Hi. autorewrite with zbits.
      destruct (decide (i < 8)); [by rewrite (Z.testbit_neg_r x) by lia|].
      rewrite (testbit_high 8 (bz b)) by lia. btauto. }
    pose proof (Z.add_lor_land (Z.shiftl x 8) (bz b)) as Ha.
    rewrite Hland, Z.shiftl_mul_pow2 in Ha by lia. rewrite Z.shiftl_mul_pow2 by lia. lia. }
  rewrite !Hadd in H. assert (bz b1 = bz b2) as Hb by lia.
  f_equal; [apply IH; lia|]. by rewrite (bz_inj _ _ Hb).
Qed.

(** Two messages that agree outside a window of eight bytes and differ inside it. *)
Lemma crc_ref_burst pre w1 w2 post :
  length w1 = length w2 -> (length w1 <= 8)%nat -> w1 <> w2 ->
  crc_ref (pre ++ w1 ++ post) <> crc_ref (pre ++ w2 ++ post).
Proof.
  intros Hlen H8 Hne H. unfold crc_ref in H. rewrite !foldl_app in H.
  pose proof (crc_ref_fold_range pre 0 ltac:(lia)) as Hc.
  set (c := foldl crc_ref_byte 0 pre) in *.
  apply crc_ref_fold_inj in H; [|by apply crc_ref_fold_range..].
  rewrite !crc_ref_block, <- Hlen in H by lia.
  set (k := length w1) in *.
  assert (forall w, length w = k -> 0 <= Z.shiftl (memcpy_be64 w) (64 - 8 * Z.of_nat k) < 2 ^ 64)
    as Hr.
  { intros w Hw. pose proof (memcpy_be64_range w) as Hm. rewrite Hw in Hm.
    rewrite Z.shiftl_mul_pow2 by lia.
    replace (2 ^ 64) with (2 ^ (8 * Z.of_nat k) * 2 ^ (64 - 8 * Z.of_nat k))
      by (rewrite <- Z.pow_add_r by lia; f_equal; lia).
    pose proof (Z.pow_pos_nonneg 2 (64 - 8 * Z.of_nat k)). nia. }
  apply crc_steps_inj in H; [|apply lxor_bound; [lia|done|apply Hr; done]..].
  apply Hne, memcpy_be64_inj; [done|].
  apply (f_equal (Z.lxor c)) in H. rewrite <- !Z.lxor_assoc, !Z.lxor_nilpotent, !Z.lxor_0_l in H.
  rewrite !Z.shiftl_mul_pow2 in H by lia.
  pose proof (Z.pow_pos_nonneg 2 (64 - 8 * Z.of_nat k)). nia.
Qed.

(** ** Properties *)

(** C1: the table-driven, sliced-by-eight [persistence_crc64] computes, for every
    byte string and for every branch of the block load (constant evaluation,
    little- and big-endian [memcpy]), the bit-serial CRC-64/ECMA remainder. *)
Theorem crc64_is_bit_serial_remainder mode bytes :
  persistence_crc64 mode bytes = crc_ref bytes.
Proof. apply persistence_crc64_ref. Qed.

(** two images that agree outside a window of at most eight bytes and differ
    inside it have different checksums: every such corruption is detected. *)
Theorem crc64_detects_bursts mode pre w1 w2 post :
  length w1 = length w2 -> (length w1 <= 8)%nat -> w1 <> w2 ->
  persistence_crc64 mode (pre ++ w1 ++ post) <> persistence_crc64 mode (pre ++ w2 ++ post).
Proof. rewrite !persistence_crc64_ref. apply crc_ref_burst. Qed.

Lemma crc64_detects_bursts_witness :
  persistence_crc64 native_little (str "compiled" ++ str ".bin" ++ str " image") <>
  persistence_crc64 native_little (str "compiled" ++ str ".BIN" ++ str " image").
Proof. apply crc64_detects_bursts; [reflexivity|vm_compute; lia|discriminate]. Defined.
