(* ===== verification/JsonText.v ===== *)
(** Character-level JSON code (server_engine/json/json_ascii.hpp,
    json_unicode.hpp, json_escape.hpp): ASCII classes, the UTF-8 encoder and the
    strict UTF-8 decoder, string escaping, and the proof that encoder and decoder
    are inverse on exactly the Unicode scalar values. *)

From S2P Require Import Prelude.

Local Open Scope Z_scope.

(** ** json_ascii.hpp *)

(** A [char] of the source text compared with a character literal. *)
Definition is_char (value literal : byte) : bool := bz value =? bz literal.

Definition json_is_space (value : byte) : bool :=
  is_char value " " || is_char value x09 || is_char value x0d || is_char value x0a.

Definition json_is_digit (value : byte) : bool :=
  (bz "0"%byte <=? bz value) && (bz value <=? bz "9"%byte).

Definition json_hex_value (value : byte) : Z :=
  if (bz "0"%byte <=? bz value) && (bz value <=? bz "9"%byte) then bz value - bz "0"%byte
  else if (bz "a"%byte <=? bz value) && (bz value <=? bz "f"%byte)
  then bz value - bz "a"%byte + 10
  else if (bz "A"%byte <=? bz value) && (bz value <=? bz "F"%byte)
  then bz value - bz "A"%byte + 10
  else -1.

(** ** json_unicode.hpp *)

Definition json_is_high_surrogate (value : Z) : bool :=
  (0xD800 <=? value) && (value <=? 0xDBFF).
Definition json_is_low_surrogate (value : Z) : bool :=
  (0xDC00 <=? value) && (value <=? 0xDFFF).
Definition json_is_surrogate (value : Z) : bool :=
  (0xD800 <=? value) && (value <=? 0xDFFF).
Definition json_is_unicode_scalar (value : Z) : bool :=
  (value <=? 0x10FFFF) && negb (json_is_surrogate value).

Definition json_append_utf8 (codepoint : Z) (output : list byte) : list byte :=
  let low6 shift := zb (Z.lor 0x80 (Z.land (Z.shiftr codepoint shift) 0x3F)) in
  if codepoint <=? 0x7F then output ++ [zb codepoint]
  else if codepoint <=? 0x7FF then
    output ++ [zb (Z.lor 0xC0 (Z.land (Z.shiftr codepoint 6) 0x1F)); low6 0]
  else if codepoint <=? 0xFFFF then
    output ++ [zb (Z.lor 0xE0 (Z.land (Z.shiftr codepoint 12) 0x0F)); low6 6; low6 0]
  else
    output ++ [zb (Z.lor 0xF0 (Z.land (Z.shiftr codepoint 18) 0x07));
               low6 12; low6 6; low6 0].

Inductive json_utf8_status :=
| utf8_ok
| utf8_truncated
| utf8_invalid_leading_byte
| utf8_invalid_continuation_byte
| utf8_overlong_sequence
| utf8_invalid_codepoint.

Record json_utf8_result := Utf8Result {
  utf8_status : json_utf8_status;
  utf8_codepoint : Z;
  utf8_length : nat
}.

Definition json_is_utf8_continuation (value : byte) : bool :=
  Z.land (bz value) 0xC0 =? 0x80.

(** Length, payload bits and smallest legal value announced by a leading byte. *)
Definition utf8_leading (first : Z) : option (nat * Z * Z) :=
  if (0xC2 <=? first) && (first <=? 0xDF) then Some (2%nat, Z.land first 0x1F, 0x80)
  else if (0xE0 <=? first) && (first <=? 0xEF) then Some (3%nat, Z.land first 0x0F, 0x800)
  else if (0xF0 <=? first) && (first <=? 0xF4) then Some (4%nat, Z.land first 0x07, 0x10000)
  else None.

(** The continuation loop, [n] iterations left; [inl i] is the index of the
    first byte that is not a continuation byte. *)
Fixpoint utf8_continue (text : list byte) (offset i n : nat) (codepoint : Z) : nat + Z :=
  match n with
  | O => inr codepoint
  | S n =>
      let next := text !!! (offset + i)%nat in
      if negb (json_is_utf8_continuation next) then inl i
      else utf8_continue text offset (S i) n
             (Z.lor (u32 (Z.shiftl codepoint 6)) (Z.land (bz next) 0x3F))
  end.

Definition json_decode_utf8_one (text : list byte) (offset : nat) : json_utf8_result :=
  if (length text <=? offset)%nat then Utf8Result utf8_truncated 0 0
  else
    let first := bz (text !!! offset) in
    if first <=? 0x7F then Utf8Result utf8_ok first 1
    else match utf8_leading first with
    | None => Utf8Result utf8_invalid_leading_byte 0 1
    | Some (len, codepoint, minimum) =>
        if (length text <? offset + len)%nat
        then Utf8Result utf8_truncated 0 (length text - offset)
        else match utf8_continue text offset 1 (len - 1) codepoint with
        | inl i => Utf8Result utf8_invalid_continuation_byte 0 i
        | inr codepoint =>
            if codepoint <? minimum then Utf8Result utf8_overlong_sequence codepoint len
            else if negb (json_is_unicode_scalar codepoint)
            then Utf8Result utf8_invalid_codepoint codepoint len
            else Utf8Result utf8_ok codepoint len
        end
    end.

(** ** json_escape.hpp *)

Definition json_hex_upper : list byte := str "0123456789ABCDEF".

Definition json_write_u00_escape (output : list byte) (value : byte) : list byte :=
  output ++ ["\"%byte; "u"%byte; "0"%byte; "0"%byte;
    json_hex_upper !!! Z.to_nat (Z.land (Z.shiftr (bz value) 4) 0x0F);
    json_hex_upper !!! Z.to_nat (Z.land (bz value) 0x0F)].

(** One round of the escaping loop. *)
Definition json_write_escaped_char (output : list byte) (value : byte) : list byte :=
  if is_char value x22 then output ++ ["\"%byte; x22]
  else if is_char value "\" then output ++ ["\"%byte; "\"%byte]
  else if is_char value x08 then output ++ ["\"%byte; "b"%byte]
  else if is_char value x0c then output ++ ["\"%byte; "f"%byte]
  else if is_char value x0a then output ++ ["\"%byte; "n"%byte]
  else if is_char value x0d then output ++ ["\"%byte; "r"%byte]
  else if is_char value x09 then output ++ ["\"%byte; "t"%byte]
  else if bz value <? 0x20 then json_write_u00_escape output value
  else output ++ [value].

Definition json_write_escaped_string (output text : list byte) : list byte :=
  foldl json_write_escaped_char (output ++ [x22]) text ++ [x22].

(** ** The encoder and decoder as arithmetic *)

Lemma is_char_spec a b : is_char a b = true <-> a = b.
Proof. unfold is_char. rewrite Z.eqb_eq. split; [apply bz_inj|by intros ->]. Qed.

Lemma continuation_arith b :
  json_is_utf8_continuation b = (128 <=? bz b) && (bz b <? 192).
Proof. by destruct b. Qed.

Definition utf8_bytes (cp : Z) : list Z :=
  if cp <=? 0x7F then [cp]
  else if cp <=? 0x7FF then [192 + cp / 64; 128 + cp mod 64]
  else if cp <=? 0xFFFF then [224 + cp / 4096; 128 + cp / 64 mod 64; 128 + cp mod 64]
  else [240 + cp / 262144; 128 + cp / 4096 mod 64; 128 + cp / 64 mod 64; 128 + cp mod 64].

Lemma tag_bits c k n x m s :
  m = 2 ^ n - 1 -> k = c * 2 ^ n -> 0 <= n -> 0 <= s ->
  Z.lor k (Z.land (Z.shiftr x s) m) = k + x / 2 ^ s mod 2 ^ n.
Proof.
  intros Hm Hk Hn Hs. rewrite (land_mask _ n) by lia. rewrite Hk, Z.shiftr_div_pow2 by lia.
  apply lor_disjoint; [done|]. apply Z.mod_pos_bound. lia.
Qed.

Lemma append_utf8_arith cp out :
  0 <= cp <= 0x10FFFF -> json_append_utf8 cp out = out ++ (zb <$> utf8_bytes cp).
Proof.
  intros Hcp. unfold json_append_utf8, utf8_bytes.
  rewrite !(tag_bits 2 0x80 6), (tag_bits 6 0xC0 5), (tag_bits 14 0xE0 4),
    (tag_bits 30 0xF0 3) by lia.
  change (2 ^ 0) with 1. rewrite Z.div_1_r.
  destruct (Z.leb_spec cp 0x7F); [done|].
  destruct (Z.leb_spec cp 0x7FF);
    [|destruct (Z.leb_spec cp 0xFFFF)]; simpl; repeat f_equal; divlia.
Qed.

Lemma utf8_continue_step text offset i n cp b :
  text !!! (offset + i)%nat = b -> json_is_utf8_continuation b = true ->
  0 <= cp < 2 ^ 21 ->
  utf8_continue text offset i (S n) cp =
  utf8_continue text offset (S i) n (cp * 64 + bz b mod 64).
Proof.
  intros Hb Hc Hcp. simpl. rewrite Hb, Hc. simpl. f_equal.
  rewrite (land_mask _ 6) by lia. unfold u32.
  rewrite Z.shiftl_mul_pow2, Z.mod_small by lia.
  apply lor_disjoint; [lia|]. apply Z.mod_pos_bound. lia.
Qed.

(** Reading a byte of the middle part of a text. *)
Lemma lookup_total_middle (pre bs post : list byte) i :
  (i < length bs)%nat -> (pre ++ bs ++ post) !!! (length pre + i)%nat = bs !!! i.
Proof.
  intros Hi. rewrite !list_lookup_total_alt.
  rewrite lookup_app_r, lookup_app_l by lia.
  by replace (length pre + i - length pre)%nat with i by lia.
Qed.

Lemma utf8_leading_arith first :
  utf8_leading first =
  if (194 <=? first) && (first <=? 223) then Some (2%nat, first mod 32, 0x80)
  else if (224 <=? first) && (first <=? 239) then Some (3%nat, first mod 16, 0x800)
  else if (240 <=? first) && (first <=? 244) then Some (4%nat, first mod 8, 0x10000)
  else None.
Proof.
  unfold utf8_leading.
  by rewrite (land_mask _ 5), (land_mask _ 4), (land_mask _ 3) by lia.
Qed.

(** The decoder on a text that carries the bytes [bs] at [offset]. *)
Definition carries (text : list byte) (offset : nat) (bs : list byte) : Prop :=
  (offset + length bs <= length text)%nat /\
  forall i, (i < length bs)%nat -> text !!! (offset + i)%nat = bs !!! i.

Lemma carries_middle pre bs post : carries (pre ++ bs ++ post) (length pre) bs.
Proof.
  split; [rewrite !length_app; lia|]. intros. by apply lookup_total_middle.
Qed.

Lemma carries_take text offset bs :
  carries text offset bs <-> (offset <= length text)%nat /\ take (length bs) (drop offset text) = bs.
Proof.
  split.
  - intros [Hl H]. split; [lia|]. apply list_eq_same_length with (length bs); [done|..].
    { rewrite length_take, length_drop. lia. }
    intros i x y Hi Hx Hy. rewrite lookup_take_lt, lookup_drop in Hx by lia.
    specialize (H i Hi). rewrite !list_lookup_total_alt, Hx, Hy in H. done.
  - intros [Ho H]. assert (length bs <= length text - offset)%nat as Hl.
    { rewrite <- H at 1. rewrite length_take, length_drop. lia. }
    split; [lia|]. intros i Hi. rewrite <- H. rewrite !list_lookup_total_alt.
    by rewrite lookup_take_lt, lookup_drop by lia.
Qed.

Lemma carries_at text offset bs i b :
  carries text offset bs -> bs !! i = Some b -> text !!! (offset + i)%nat = b.
Proof.
  intros [_ H] Hb. rewrite H by (by eapply lookup_lt_Some).
  by apply list_lookup_total_correct.
Qed.

Lemma decode_single text offset b :
  carries text offset [b] -> bz b <= 0x7F ->
  json_decode_utf8_one text offset = Utf8Result utf8_ok (bz b) 1.
Proof.
  intros Hc Hb. pose proof (proj1 Hc) as Hlen. simpl in Hlen.
  pose proof (carries_at _ _ _ 0 b Hc eq_refl) as Hb0. rewrite Nat.add_0_r in Hb0.
  unfold json_decode_utf8_one. rewrite Hb0.
  by rewrite (proj2 (Nat.leb_gt _ _)), (proj2 (Z.leb_le _ _)) by lia.
Qed.

Lemma decode_multi text offset b bs len cp0 minimum :
  carries text offset (b :: bs) -> 0x7F < bz b ->
  utf8_leading (bz b) = Some (len, cp0, minimum) -> len = S (length bs) ->
  json_decode_utf8_one text offset =
  match utf8_continue text offset 1 (length bs) cp0 with
  | inl i => Utf8Result utf8_invalid_continuation_byte 0 i
  | inr codepoint =>
      if codepoint <? minimum then Utf8Result utf8_overlong_sequence codepoint len
      else if negb (json_is_unicode_scalar codepoint)
      then Utf8Result utf8_invalid_codepoint codepoint len
      else Utf8Result utf8_ok codepoint len
  end.
Proof.
  intros Hc Hb Hl ->. pose proof (proj1 Hc) as Hlen. simpl in Hlen.
  pose proof (carries_at _ _ _ 0 b Hc eq_refl) as Hb0. rewrite Nat.add_0_r in Hb0.
  unfold json_decode_utf8_one. rewrite Hb0, Hl.
  rewrite (proj2 (Nat.leb_gt _ _)), (proj2 (Z.leb_gt _ _)), (proj2 (Nat.ltb_ge _ _)) by lia.
  by rewrite Nat.sub_succ, Nat.sub_0_r.
Qed.

(** Reading carried continuation bytes, each with six payload bits. *)
Lemma continue_carried text offset bs i cp x :
  carries text offset bs -> bs !! i = Some (zb (128 + x)) -> 0 <= x < 64 -> 0 <= cp < 2 ^ 21 ->
  forall n, utf8_continue text offset i (S n) cp = utf8_continue text offset (S i) n (cp * 64 + x).
Proof.
  intros Hc Hb Hx Hcp n.
  rewrite (utf8_continue_step _ _ _ _ _ (zb (128 + x))).
  - rewrite bz_zb_small by lia. do 2 f_equal. divlia.
  - by apply (carries_at _ _ bs).
  - rewrite continuation_arith, bz_zb_small by lia. apply andb_true_iff. lia.
  - done.
Qed.

Lemma scalar_bounds cp : json_is_unicode_scalar cp = true -> cp <= 0x10FFFF.
Proof. unfold json_is_unicode_scalar. intros. unbool. lia. Qed.

Lemma leading_2 f : 194 <= f <= 223 -> utf8_leading f = Some (2%nat, f mod 32, 0x80).
Proof. rewrite utf8_leading_arith. intros. repeat case_match; unbool; done || lia. Qed.
Lemma leading_3 f : 224 <= f <= 239 -> utf8_leading f = Some (3%nat, f mod 16, 0x800).
Proof. rewrite utf8_leading_arith. intros. repeat case_match; unbool; done || lia. Qed.
Lemma leading_4 f : 240 <= f <= 244 -> utf8_leading f = Some (4%nat, f mod 8, 0x10000).
Proof. rewrite utf8_leading_arith. intros. repeat case_match; unbool; done || lia. Qed.

Lemma decode_carried text offset cp :
  json_is_unicode_scalar cp = true -> 0 <= cp ->
  carries text offset (zb <$> utf8_bytes cp) ->
  json_decode_utf8_one text offset = Utf8Result utf8_ok cp (length (utf8_bytes cp)).
Proof.
  intros Hs Hcp. pose proof (scalar_bounds cp Hs) as Hmax. unfold utf8_bytes.
  destruct (Z.leb_spec cp 0x7F); [|destruct (Z.leb_spec cp 0x7FF);
    [|destruct (Z.leb_spec cp 0xFFFF)]]; intros Hc; cbn [fmap list_fmap] in Hc.
  - rewrite (decode_single _ _ _ Hc); rewrite bz_zb_small by lia; done || lia.
  - erewrite (decode_multi _ _ _ _ _ _ _ Hc); rewrite ?bz_zb_small by divlia;
      [|divlia|apply leading_2; divlia|done].
    cbn [length]. erewrite continue_carried; [|exact Hc|done|divlia..]. cbn [utf8_continue].
    replace (_ * 64 + _) with cp by divlia.
    by rewrite (proj2 (Z.ltb_ge _ _)), Hs by lia.
  - erewrite (decode_multi _ _ _ _ _ _ _ Hc); rewrite ?bz_zb_small by divlia;
      [|divlia|apply leading_3; divlia|done].
    cbn [length]. do 2 (erewrite continue_carried; [|exact Hc|done|divlia..]).
    cbn [utf8_continue]. replace (_ * 64 + cp mod 64) with cp by divlia.
    by rewrite (proj2 (Z.ltb_ge _ _)), Hs by lia.
  - erewrite (decode_multi _ _ _ _ _ _ _ Hc); rewrite ?bz_zb_small by divlia;
      [|divlia|apply leading_4; divlia|done].
    cbn [length]. do 3 (erewrite continue_carried; [|exact Hc|done|divlia..]).
    cbn [utf8_continue]. replace (_ * 64 + cp mod 64) with cp by divlia.
    by rewrite (proj2 (Z.ltb_ge _ _)), Hs by lia.
Qed.

Lemma continue_inv text offset i n cp c :
  0 <= cp < 2 ^ 21 -> utf8_continue text offset i (S n) cp = inr c ->
  let b := bz (text !!! (offset + i)%nat) in
  128 <= b < 192 /\ utf8_continue text offset (S i) n (cp * 64 + b mod 64) = inr c.
Proof.
  intros Hcp H b. destruct (json_is_utf8_continuation (text !!! (offset + i)%nat)) eqn:E.
  - rewrite (utf8_continue_step _ _ _ _ _ _ eq_refl E Hcp) in H. split; [|done].
    rewrite continuation_arith in E. unbool. subst b. lia.
  - simpl in H. rewrite E in H. discriminate.
Qed.

(** Inversion of the length/leading-byte part of the decoder. *)
Lemma decode_ok_inv text offset cp len :
  json_decode_utf8_one text offset = Utf8Result utf8_ok cp len ->
  (offset + len <= length text)%nat /\ json_is_unicode_scalar cp = true /\
  let b0 := bz (text !!! offset) in
  (len = 1%nat /\ b0 <= 0x7F /\ cp = b0) \/
  exists cp0 minimum, 0x7F < b0 /\ utf8_leading b0 = Some (len, cp0, minimum) /\
    utf8_continue text offset 1 (len - 1) cp0 = inr cp /\ minimum <= cp.
Proof.
  unfold json_decode_utf8_one. pose proof (bz_range (text !!! offset)) as Hb.
  destruct (Nat.leb_spec (length text) offset); [done|].
  destruct (Z.leb_spec (bz (text !!! offset)) 0x7F).
  { intros [= <- <-]. repeat split; [lia| |by left].
    unfold json_is_unicode_scalar, json_is_surrogate.
    apply andb_true_iff. split; [lia|]. apply negb_true_iff, andb_false_iff. lia. }
  destruct (utf8_leading (bz (text !!! offset))) as [[[l cp0] mn]|] eqn:El; [|done].
  destruct (Nat.ltb_spec (length text) (offset + l)); [done|].
  destruct (utf8_continue text offset 1 (l - 1) cp0) as [|c] eqn:Ec; [done|].
  destruct (Z.ltb_spec c mn); [done|].
  destruct (json_is_unicode_scalar c) eqn:Es; simpl; [|done].
  intros [= <- <-]. repeat split; [lia|done|]. right. by exists cp0, mn.
Qed.

Lemma byte_back b z : 0 <= z < 256 -> bz b = z -> b = zb z.
Proof. intros Hz <-. symmetry. apply zb_bz. Qed.

Lemma decoded_carries text offset cp len :
  json_decode_utf8_one text offset = Utf8Result utf8_ok cp len ->
  0 <= cp /\ json_is_unicode_scalar cp = true /\ len = length (utf8_bytes cp) /\
  carries text offset (zb <$> utf8_bytes cp).
Proof.
  intros H. apply decode_ok_inv in H as (Hlen & Hs & H).
  pose proof (scalar_bounds cp Hs). pose proof (bz_range (text !!! offset)) as Hb.
  destruct H as [(-> & Hb0 & ->)|(cp0 & mn & Hb0 & Hl & Hc & Hmn)].
  { unfold utf8_bytes. rewrite (proj2 (Z.leb_le _ 0x7F)) by done.
    repeat split; [lia|done|simpl; lia|]. intros [|i] Hi; simpl in Hi; [|lia].
    rewrite Nat.add_0_r. simpl. by rewrite zb_bz. }
  rewrite utf8_leading_arith in Hl.
  repeat case_match; simplify_eq; unbool; cbn [Nat.sub] in Hc;
    repeat match type of Hc with utf8_continue _ _ _ (S _) _ = _ =>
      apply continue_inv in Hc as [? Hc]; [|divlia] end;
    cbn [utf8_continue] in Hc; injection Hc as Hc; unfold utf8_bytes;
    repeat match goal with |- context [if ?a <=? ?b then _ else _] =>
      destruct (Z.leb_spec a b); try (exfalso; divlia) end.
  all: repeat split; try done; try divlia.
  all: intros [|[|[|[|i]]]] Hi; simpl in Hi; try lia; rewrite ?Nat.add_0_r;
    cbn [fmap list_fmap lookup_total list_lookup_total]; apply byte_back; divlia.
Qed.

(** The extent a failed decode reports is inside the text. *)
Lemma utf8_continue_bound text offset i n cp j :
  utf8_continue text offset i n cp = inl j -> (i <= j < i + n)%nat.
Proof.
  revert i cp. induction n as [|n IH]; intros i cp H; simpl in H; [done|].
  case_match; [simplify_eq; lia|]. apply IH in H. lia.
Qed.

Lemma decode_error_bound text offset st cp len :
  json_decode_utf8_one text offset = Utf8Result st cp len ->
  (offset < length text)%nat -> st <> utf8_ok -> (offset + Nat.max len 1 <= length text)%nat.
Proof.
  unfold json_decode_utf8_one, utf8_leading. intros H Ho Hst.
  repeat case_match; simplify_eq; unbool; try lia;
    match goal with Hc : utf8_continue _ _ _ _ _ = inl _ |- _ =>
      apply utf8_continue_bound in Hc; lia end.
Qed.

(** ** Valid UTF-8 *)

Definition is_scalar (cp : Z) : Prop := 0 <= cp /\ json_is_unicode_scalar cp = true.

Definition utf8_encode (cps : list Z) : list byte :=
  mjoin ((fun cp => json_append_utf8 cp []) <$> cps).

(** The bytes are the encodings of a sequence of Unicode scalar values. *)
Definition valid_utf8 (bytes : list byte) : Prop :=
  exists cps, Forall is_scalar cps /\ bytes = utf8_encode cps.

Lemma is_scalar_max cp : is_scalar cp -> 0 <= cp <= 0x10FFFF.
Proof. intros [? H]. split; [done|]. by apply scalar_bounds. Qed.

Lemma append_utf8_app cp out :
  is_scalar cp -> json_append_utf8 cp out = out ++ json_append_utf8 cp [].
Proof.
  intros Hcp. rewrite !append_utf8_arith by by apply is_scalar_max. done.
Qed.

Lemma utf8_encode_app cps1 cps2 :
  utf8_encode (cps1 ++ cps2) = utf8_encode cps1 ++ utf8_encode cps2.
Proof. unfold utf8_encode. by rewrite fmap_app, join_app. Qed.

Lemma valid_utf8_nil : valid_utf8 [].
Proof. by exists []. Qed.

Lemma valid_utf8_app a b : valid_utf8 a -> valid_utf8 b -> valid_utf8 (a ++ b).
Proof.
  intros (ca & Ha & ->) (cb & Hb & ->). exists (ca ++ cb).
  split; [by apply Forall_app|]. by rewrite utf8_encode_app.
Qed.

Lemma valid_utf8_scalar cp : is_scalar cp -> valid_utf8 (json_append_utf8 cp []).
Proof.
  intros. exists [cp]. split; [by constructor|].
  unfold utf8_encode. simpl. by rewrite app_nil_r.
Qed.

Lemma ascii_scalar b : bz b <= 0x7F -> is_scalar (bz b).
Proof.
  intros. pose proof (bz_range b). split; [lia|].
  unfold json_is_unicode_scalar, json_is_surrogate. apply andb_true_iff.
  split; [lia|]. apply negb_true_iff, andb_false_iff. lia.
Qed.

Lemma valid_utf8_ascii b : bz b <= 0x7F -> valid_utf8 [b].
Proof.
  intros Hb. replace [b] with (json_append_utf8 (bz b) []).
  - by apply valid_utf8_scalar, ascii_scalar.
  - unfold json_append_utf8. rewrite (proj2 (Z.leb_le _ 0x7F)) by done. simpl. by rewrite zb_bz.
Qed.

(** What a successful decode read is the encoding of what it returned. *)
Lemma decoded_take text offset cp len :
  json_decode_utf8_one text offset = Utf8Result utf8_ok cp len ->
  is_scalar cp /\ (1 <= len)%nat /\ (offset + len <= length text)%nat /\
  take len (drop offset text) = json_append_utf8 cp [].
Proof.
  intros H. apply decoded_carries in H as (H0 & Hs & -> & Hc).
  rewrite append_utf8_arith by (split; [done|by apply scalar_bounds]). simpl.
  pose proof (proj1 Hc) as Hlen. rewrite length_fmap in Hlen.
  apply carries_take in Hc as [_ Hc]. rewrite length_fmap in Hc.
  repeat split; try done. unfold utf8_bytes. repeat case_match; simpl; lia.
Qed.

#[export] Hint Resolve valid_utf8_nil valid_utf8_app valid_utf8_scalar valid_utf8_ascii : utf8.

(** ** The codec is a bijection between scalar values and their encodings *)

(** Decoding at any place of a text where the encoder's output for a Unicode
    scalar value stands gives that scalar value and exactly the encoded length. *)
Theorem utf8_decodes_encoded (pre : list byte) (cp : Z) (post : list byte) :
  is_scalar cp ->
  json_decode_utf8_one (pre ++ json_append_utf8 cp [] ++ post) (length pre)
  = Utf8Result utf8_ok cp (length (json_append_utf8 cp [])).
Proof.
  intros Hcp. pose proof (is_scalar_max cp Hcp). rewrite append_utf8_arith by done. simpl app.
  rewrite length_fmap. apply decode_carried; [apply Hcp..|]. apply carries_middle.
Qed.

Lemma utf8_decodes_encoded_witness :
  json_decode_utf8_one (str "a" ++ json_append_utf8 0x20AC [] ++ str "b") 1
  = Utf8Result utf8_ok 0x20AC 3.
Proof. apply (utf8_decodes_encoded (str "a") 0x20AC (str "b")). done. Defined.

(** Whatever bytes a text holds, the decoder either reads the encoding of the
    scalar value it returns (so overlong forms, surrogates and values above
    U+10FFFF are never accepted) or reports an extent inside the text. *)
Theorem utf8_decoder_sound (text : list byte) (offset : nat) :
  (offset < length text)%nat ->
  let r := json_decode_utf8_one text offset in
  match utf8_status r with
  | utf8_ok =>
      is_scalar (utf8_codepoint r) /\ (1 <= utf8_length r)%nat /\
      take (utf8_length r) (drop offset text) = json_append_utf8 (utf8_codepoint r) []
  | _ => (offset + Nat.max (utf8_length r) 1 <= length text)%nat
  end.
Proof.
  intros Ho r. destruct r as [st cp len] eqn:E. subst r. simpl.
  destruct st; [apply decoded_take in E as (? & ? & ? & ?); done|..];
    by eapply decode_error_bound.
Qed.

Lemma utf8_decoder_sound_witness :
  let r := json_decode_utf8_one [xc0; x80] 0 in
  utf8_status r <> utf8_ok /\ (0 + Nat.max (utf8_length r) 1 <= 2)%nat.
Proof. split; [done|]. apply (utf8_decoder_sound [xc0; x80] 0). simpl. lia. Defined.
