(* ===== verification/JsonParser.v ===== *)
(** The streaming JSON-with-comments parser (server_engine/json/json_parser.hpp
    and json_parser.cpp, json_value.hpp): the parser object as a record, every
    method as a state transformer, and the theorems that it always returns, that
    its diagnostics stay inside the text, and that an accepted text produced one
    well-nested value. *)

From S2P Require Import Prelude JsonText.

Local Open Scope Z_scope.

(** ** Results, values and events *)

Inductive json_error_code :=
| err_none
| err_unexpected_end
| err_unexpected_token
| err_invalid_string
| err_invalid_escape
| err_invalid_unicode
| err_invalid_utf8
| err_invalid_number
| err_unterminated_comment
| err_nesting_too_deep
| err_internal_failure.

#[export] Instance json_error_code_eq_dec : EqDecision json_error_code.
Proof. solve_decision. Defined.

Record json_parse_result := ParseResult {
  code : json_error_code;
  err_offset : nat;
  err_length : nat
}.

Definition no_error : json_parse_result := ParseResult err_none 0 0.

Definition json_parse_ok (r : json_parse_result) : bool :=
  bool_decide (code r = err_none).

Inductive json_value_kind :=
| kind_string
| kind_integer
| kind_number
| kind_boolean
| kind_null_value.

#[export] Instance json_value_kind_eq_dec : EqDecision json_value_kind.
Proof. solve_decision. Defined.

Record json_value_view := ValueView {
  kind_value : json_value_kind;
  text_value : list byte;
  boolean_value : bool
}.

(** The calls the parser makes on its [json_event_handler], in order. *)
Inductive json_event :=
| ev_location (offset length : nat)
| ev_object_begin
| ev_object_end
| ev_array_begin
| ev_array_end
| ev_key (key : list byte)
| ev_value (value : json_value_view).

(** The mutable members of [json_parser_impl], and the handler calls made so far. *)
Record parser := Parser {
  position : nat;
  result : json_parse_result;
  scratch : list byte;
  log : list json_event
}.

Definition at_position (p : nat) (s : parser) : parser :=
  Parser p (result s) (scratch s) (log s).
Definition set_scratch (b : list byte) (s : parser) : parser :=
  Parser (position s) (result s) b (log s).
Definition call (e : json_event) (s : parser) : parser :=
  Parser (position s) (result s) (scratch s) (log s ++ [e]).

(** A method returning [bool]; [None] is an exhausted loop bound. *)
Definition method : Type := parser -> option (bool * parser).

(** [if (!m()) return false; k] *)
Definition and_then (m k : method) : method := fun s =>
  match m s with
  | Some (true, s) => k s
  | other => other
  end.

Declare Scope parser_scope.
Delimit Scope parser_scope with parser.
Notation "m ;;? k" := (and_then m k) (at level 60, right associativity) : parser_scope.
Local Open Scope parser_scope.

Definition return_true : method := fun s => Some (true, s).

Definition max_depth : nat := 64.

Definition fail (c : json_error_code) (offset len : nat) : method := fun s =>
  Some (false,
    if bool_decide (code (result s) = err_none)
    then Parser (position s) (ParseResult c offset len) (scratch s) (log s)
    else s).

(** ** The methods *)

Section Methods.
Context (text : list byte).

Definition size : nat := length text.
Definition at_ (p : nat) : byte := text !!! p.

Definition consume (value : byte) (s : parser) : bool * parser :=
  if (position s <? size)%nat && is_char (at_ (position s)) value
  then (true, at_position (S (position s)) s)
  else (false, s).

Definition skip_bom (s : parser) : parser :=
  if (3 <=? size)%nat && (bz (at_ 0) =? 0xEF) && (bz (at_ 1) =? 0xBB) && (bz (at_ 2) =? 0xBF)
  then at_position 3 s else s.

(** [while (position < size && p(text[position])) ++position;], where [n] is
    [size - position]. *)
Fixpoint scan_while (p : byte -> bool) (n pos : nat) : nat :=
  match n with
  | O => pos
  | S n => if p (at_ pos) then scan_while p n (S pos) else pos
  end.
Definition advance_while (p : byte -> bool) (pos : nat) : nat :=
  scan_while p (size - pos) pos.

(** The block-comment loop, where [n] is [size - 1 - position]. *)
Fixpoint close_comment (n pos : nat) : bool * nat :=
  match n with
  | O => (false, pos)
  | S n =>
      if is_char (at_ pos) "*" && is_char (at_ (S pos)) "/" then (true, (pos + 2)%nat)
      else close_comment n (S pos)
  end.

Fixpoint skip_trivia (fuel : nat) : method := fun s =>
  match fuel with
  | O => None
  | S fuel =>
      if (size <=? position s)%nat then Some (true, s)
      else if json_is_space (at_ (position s))
      then skip_trivia fuel (at_position (S (position s)) s)
      else if negb (is_char (at_ (position s)) "/") || (size <=? position s + 1)%nat
      then Some (true, s)
      else if is_char (at_ (position s + 1)) "/"
      then skip_trivia fuel
             (at_position
               (advance_while (fun c => negb (is_char c x0d) && negb (is_char c x0a))
                 (position s + 2)) s)
      else if is_char (at_ (position s + 1)) "*"
      then
        let begin := position s in
        let '(closed, pos) := close_comment (size - 1 - (begin + 2)) (begin + 2) in
        if negb closed
        then fail err_unterminated_comment begin (size - begin) (at_position pos s)
        else skip_trivia fuel (at_position pos s)
      else Some (true, s)
  end.

(** Every round of the trivia loop consumes a byte. *)
Definition trivia : method := skip_trivia (S size).

(** The loop of [parse_hex4], [n] digits left. *)
Fixpoint hex4_loop (n : nat) (output : Z) (s : parser) : option ((bool * Z) * parser) :=
  match n with
  | O => Some ((true, output), s)
  | S n =>
      let digit := json_hex_value (at_ (position s)) in
      if digit <? 0 then
        match fail err_invalid_unicode (position s) 1 s with
        | Some (b, s) => Some ((b, output), s)
        | None => None
        end
      else hex4_loop n (Z.lor (u32 (Z.shiftl output 4)) digit)
             (at_position (S (position s)) s)
  end.

Definition parse_hex4 (s : parser) : option ((bool * Z) * parser) :=
  if (size <? position s + 4)%nat then
    match fail err_unexpected_end (position s) (size - position s) s with
    | Some (b, s) => Some ((b, 0), s)
    | None => None
    end
  else hex4_loop 4 0 s.

Definition parse_unicode_escape (escape_offset : nat) : method := fun s =>
  match parse_hex4 s with
  | None => None
  | Some ((false, _), s) => Some (false, s)
  | Some ((true, first), s) =>
      let append codepoint s :=
        Some (true, set_scratch (json_append_utf8 codepoint (scratch s)) s) in
      if json_is_high_surrogate first then
        if (size <? position s + 2)%nat || negb (is_char (at_ (position s)) "\") ||
           negb (is_char (at_ (position s + 1)) "u")
        then fail err_invalid_unicode escape_offset (position s - escape_offset) s
        else
          match parse_hex4 (at_position (position s + 2) s) with
          | None => None
          | Some ((false, _), s) => Some (false, s)
          | Some ((true, second), s) =>
              if negb (json_is_low_surrogate second)
              then fail err_invalid_unicode escape_offset (position s - escape_offset) s
              else append
                     (u32 (u32 (0x10000 + u32 (Z.shiftl (u32 (first - 0xD800)) 10))
                           + u32 (second - 0xDC00))) s
          end
      else if json_is_low_surrogate first
      then fail err_invalid_unicode escape_offset (position s - escape_offset) s
      else append first s
  end.

Definition push_scratch (b : byte) (s : parser) : parser :=
  set_scratch (scratch s ++ [b]) s.

(** The loop of [parse_decoded_string]. *)
Fixpoint string_loop (fuel : nat) : method := fun s =>
  match fuel with
  | O => None
  | S fuel =>
      if (size <=? position s)%nat then fail err_unexpected_end (position s) 0 s
      else
        let byte := at_ (position s) in
        if is_char byte x22 then Some (true, at_position (S (position s)) s)
        else if bz byte <? 0x20 then fail err_invalid_string (position s) 1 s
        else if is_char byte "\" then
          let escape_offset := position s in
          let s := at_position (S escape_offset) s in
          if (size <=? position s)%nat then fail err_unexpected_end (position s) 0 s
          else
            let escape := at_ (position s) in
            let s := at_position (S (position s)) s in
            if is_char escape x22 then string_loop fuel (push_scratch x22 s)
            else if is_char escape "\" then string_loop fuel (push_scratch "\" s)
            else if is_char escape "/" then string_loop fuel (push_scratch "/" s)
            else if is_char escape "b" then string_loop fuel (push_scratch x08 s)
            else if is_char escape "f" then string_loop fuel (push_scratch x0c s)
            else if is_char escape "n" then string_loop fuel (push_scratch x0a s)
            else if is_char escape "r" then string_loop fuel (push_scratch x0d s)
            else if is_char escape "t" then string_loop fuel (push_scratch x09 s)
            else if is_char escape "u"
            then (parse_unicode_escape escape_offset ;;? string_loop fuel) s
            else fail err_invalid_escape escape_offset 2 s
        else if bz byte <=? 0x7F
        then string_loop fuel (at_position (S (position s)) (push_scratch byte s))
        else
          let decoded := json_decode_utf8_one text (position s) in
          match utf8_status decoded with
          | utf8_ok =>
              string_loop fuel
                (at_position (position s + utf8_length decoded)
                  (set_scratch
                    (scratch s ++ take (utf8_length decoded) (drop (position s) text)) s))
          | _ => fail err_invalid_utf8 (position s) (Nat.max (utf8_length decoded) 1) s
          end
  end.

Definition parse_decoded_string : method := fun s =>
  let '(ok, s) := consume x22 s in
  if negb ok
  then fail err_unexpected_token (position s) (if (position s <? size)%nat then 1 else 0) s
  else string_loop (S size) (set_scratch [] s).

Definition parse_string_value : method := fun s =>
  let begin := position s in
  (parse_decoded_string ;;? fun s =>
    return_true
      (call (ev_value (ValueView kind_string (scratch s) false))
        (call (ev_location begin (position s - begin)) s))) s.

(** The fraction and exponent parts of [parse_number]; [inl] is the position the
    failure was reported at. *)
Definition number_digits (pos : nat) : nat + nat :=
  if (size <=? pos)%nat || negb (json_is_digit (at_ pos)) then inl pos
  else inr (advance_while json_is_digit pos).

Definition number_exponent (pos : nat) : nat + nat :=
  let pos := S pos in
  number_digits
    (if (pos <? size)%nat && (is_char (at_ pos) "+" || is_char (at_ pos) "-")
     then S pos else pos).

(** The part of [parse_number] after the integer digits. *)
Definition number_tail (begin : nat) : method := fun s =>
  let emit (integer : bool) (s : parser) :=
    let token := take (position s - begin) (drop begin text) in
    return_true
      (call (ev_value
              (ValueView (if integer then kind_integer else kind_number) token false))
        (call (ev_location begin (length token)) s)) in
  let exponent (integer : bool) (s : parser) :=
    if (position s <? size)%nat &&
       (is_char (at_ (position s)) "e" || is_char (at_ (position s)) "E")
    then match number_exponent (position s) with
         | inl pos => fail err_invalid_number begin (pos - begin) (at_position pos s)
         | inr pos => emit false (at_position pos s)
         end
    else emit integer s in
  let '(dot, s) := consume "." s in
  if dot then
    match number_digits (position s) with
    | inl pos => fail err_invalid_number begin (pos - begin) (at_position pos s)
    | inr pos => exponent false (at_position pos s)
    end
  else exponent true s.

Definition parse_number : method := fun s =>
  let begin := position s in
  let '(minus, s) := consume "-" s in
  if minus && (size <=? position s)%nat
  then fail err_invalid_number begin (position s - begin) s
  else
    let '(zero, s) := consume "0" s in
    if zero then
      if (position s <? size)%nat && json_is_digit (at_ (position s))
      then fail err_invalid_number begin (position s - begin + 1) s
      else number_tail begin s
    else if (size <=? position s)%nat || negb (json_is_digit (at_ (position s)))
    then fail err_invalid_number begin (Nat.max (position s - begin) 1) s
    else number_tail begin (at_position (advance_while json_is_digit (position s)) s).

Definition parse_literal (literal : list byte) (value : json_value_view) : method := fun s =>
  let begin := position s in
  if negb (bool_decide (take (length literal) (drop begin text) = literal))
  then fail err_unexpected_token (position s) 1 s
  else
    return_true
      (call (ev_value value)
        (call (ev_location begin (length literal))
          (at_position (begin + length literal) s))).

(** A missing ':' or ',' at the current position. *)
Definition unexpected_here : method := fun s =>
  fail err_unexpected_token (position s) (if (position s <? size)%nat then 1 else 0) s.

(** The member loop of [parse_object]; [parse_member] is
    [parse_value(depth + 1)]. *)
Fixpoint object_loop (parse_member : method) (fuel : nat) : method :=
  match fuel with
  | O => fun _ => None
  | S fuel =>
      trivia ;;? fun s =>
      if (size <=? position s)%nat then fail err_unexpected_end (position s) 0 s
      else if negb (is_char (at_ (position s)) x22)
      then fail err_unexpected_token (position s) 1 s
      else
        let key_begin := position s in
        (parse_decoded_string ;;? fun s =>
         let s := call (ev_location key_begin (position s - key_begin)) s in
         let s := call (ev_key (scratch s)) s in
         (trivia ;;? fun s =>
          let '(colon, s) := consume ":" s in
          if negb colon then unexpected_here s
          else
            (parse_member ;;? trivia ;;? fun s =>
             let '(close, s) := consume "}" s in
             if close then return_true (call ev_object_end s)
             else
               let '(comma, s) := consume "," s in
               if negb comma then unexpected_here s
               else object_loop parse_member fuel s) s) s) s
  end.

Fixpoint array_loop (parse_element : method) (fuel : nat) : method :=
  match fuel with
  | O => fun _ => None
  | S fuel =>
      parse_element ;;? trivia ;;? fun s =>
      let '(close, s) := consume "]" s in
      if close then return_true (call ev_array_end s)
      else
        let '(comma, s) := consume "," s in
        if negb comma then unexpected_here s
        else array_loop parse_element fuel s
  end.

Definition parse_object (parse_value : nat -> method) (depth : nat) : method := fun s =>
  if (max_depth <=? depth)%nat then fail err_nesting_too_deep (position s) 1 s
  else
    let begin := position s in
    let s := at_position (S begin) s in
    let s := call ev_object_begin (call (ev_location begin 1) s) in
    (trivia ;;? fun s =>
     let '(close, s) := consume "}" s in
     if close then return_true (call ev_object_end s)
     else object_loop (parse_value (S depth)) (S size) s) s.

Definition parse_array (parse_value : nat -> method) (depth : nat) : method := fun s =>
  if (max_depth <=? depth)%nat then fail err_nesting_too_deep (position s) 1 s
  else
    let begin := position s in
    let s := at_position (S begin) s in
    let s := call ev_array_begin (call (ev_location begin 1) s) in
    (trivia ;;? fun s =>
     let '(close, s) := consume "]" s in
     if close then return_true (call ev_array_end s)
     else array_loop (parse_value (S depth)) (S size) s) s.

Fixpoint parse_value (fuel depth : nat) : method :=
  match fuel with
  | O => fun _ => None
  | S fuel =>
      trivia ;;? fun s =>
      if (size <=? position s)%nat then fail err_unexpected_end (position s) 0 s
      else
        let c := at_ (position s) in
        if is_char c "{" then parse_object (parse_value fuel) depth s
        else if is_char c "[" then parse_array (parse_value fuel) depth s
        else if is_char c x22 then parse_string_value s
        else if is_char c "t"
        then parse_literal (str "true") (ValueView kind_boolean [] true) s
        else if is_char c "f"
        then parse_literal (str "false") (ValueView kind_boolean [] false) s
        else if is_char c "n"
        then parse_literal (str "null") (ValueView kind_null_value [] false) s
        else if is_char c "-" || json_is_digit c then parse_number s
        else fail err_unexpected_token (position s) 1 s
  end.

(** [json_parser_impl::run]. Values nest at most [max_depth] containers deep, so
    [max_depth + 1] levels of recursion are enough. *)
Definition run : option parser :=
  let s := skip_bom (Parser 0 no_error [] []) in
  match
    (trivia ;;? fun s =>
     if (size <=? position s)%nat then fail err_unexpected_end (position s) 0 s
     else
       (parse_value (S max_depth) 0 ;;? trivia ;;? fun s =>
        if negb (position s =? size)%nat
        then fail err_unexpected_token (position s) 1 s
        else return_true s) s) s
  with
  | Some (_, s) => Some s
  | None => None
  end.

End Methods.

(** ** parse_json: a handler that may throw *)

(** The handler consumes the calls in order; [None] is a thrown exception. *)
Fixpoint deliver {H : Type} (handle : H -> json_event -> option H)
    (h : H) (events : list json_event) : option H :=
  match events with
  | [] => Some h
  | e :: events =>
      match handle h e with
      | Some h => deliver handle h events
      | None => None
      end
  end.

Definition parse_json {H : Type} (handle : H -> json_event -> option H)
    (text : list byte) (h : H) : option json_parse_result :=
  match run text with
  | None => None
  | Some s =>
      match deliver handle h (log s) with
      | Some _ => Some (result s)
      | None => Some (ParseResult err_internal_failure 0 0)
      end
  end.

(** ** Total correctness of a method *)

Section Correctness.
Context (text : list byte).
Abbreviation size := (size text).

Lemma size_eq : size = length text.
Proof. done. Qed.

Definition clean (s : parser) : Prop :=
  result s = no_error /\ (position s <= size)%nat.

(** The recorded diagnostic lies inside the text. *)
Definition failed_in_text (s : parser) : Prop :=
  code (result s) <> err_none /\ (err_offset (result s) + err_length (result s) <= size)%nat.

(** [m] returns; [Q] holds of the state it leaves when it returned [true]. *)
Definition returns (m : method) (s : parser) (Q : parser -> Prop) : Prop :=
  exists b s', m s = Some (b, s') /\ if b : bool then Q s' else failed_in_text s'.

Lemma returns_bind m k s P Q :
  returns m s P -> (forall s', P s' -> returns k s' Q) -> returns (m ;;? k) s Q.
Proof.
  intros (b & s' & Hm & Hb) Hk. unfold returns, and_then. rewrite Hm.
  destruct b; [by apply Hk|]. by exists false, s'.
Qed.

Lemma returns_true s (Q : parser -> Prop) : Q s -> returns return_true s Q.
Proof. intros H. by exists true, s. Qed.

Lemma returns_fail c o l s Q :
  clean s -> c <> err_none -> (o + l <= size)%nat -> returns (fail c o l) s Q.
Proof.
  intros [Hr _] Hc Hl. unfold returns, fail. rewrite Hr. simpl.
  eexists false, _. split; [done|]. by split.
Qed.

Lemma returns_mono m s (P Q : parser -> Prop) :
  returns m s P -> (forall s', P s' -> Q s') -> returns m s Q.
Proof. intros (b & s' & Hm & Hb) H. exists b, s'. destruct b; auto. Qed.

Lemma clean_at p s : clean s -> (p <= size)%nat -> clean (at_position p s).
Proof. intros [??] ?. by split. Qed.

Lemma consume_spec c s b s' :
  consume text c s = (b, s') -> clean s ->
  clean s' /\ log s' = log s /\ scratch s' = scratch s /\
  position s' = (position s + if b then 1 else 0)%nat.
Proof.
  intros H [Hr Hp]. unfold consume in H.
  destruct ((position s <? size)%nat && is_char (at_ text (position s)) c) eqn:E;
    simplify_eq; unbool; simpl; repeat split; simpl; try done; lia.
Qed.

Lemma scan_while_bounds p n pos :
  (pos <= scan_while text p n pos <= pos + n)%nat.
Proof.
  revert pos. induction n as [|n IH]; intros pos; simpl; [lia|].
  case_match; [|lia]. specialize (IH (S pos)). lia.
Qed.

Lemma advance_while_bounds p pos :
  (pos <= size)%nat -> (pos <= advance_while text p pos <= size)%nat.
Proof. intros. unfold advance_while. pose proof (scan_while_bounds p (size - pos) pos). lia. Qed.

Lemma close_comment_bounds n pos b q :
  close_comment text n pos = (b, q) ->
  (pos <= q)%nat /\ ((q <= pos + n)%nat \/ (0 < n /\ q <= pos + n + 1)%nat).
Proof.
  revert pos. induction n as [|n IH]; intros pos; simpl; [intros; simplify_eq; lia|].
  case_match; intros Hc; simplify_eq; [lia|]. apply IH in Hc. lia.
Qed.

(** ** Trivia *)

Lemma skip_trivia_returns fuel s :
  clean s -> (size < position s + fuel)%nat ->
  returns (skip_trivia text fuel) s (fun s' =>
    clean s' /\ (position s <= position s')%nat /\ log s' = log s /\ scratch s' = scratch s).
Proof.
  revert s. induction fuel as [|fuel IH]; intros s Hs Hf.
  { destruct Hs. lia. }
  assert (forall p, (position s < p <= size)%nat ->
    returns (skip_trivia text fuel) (at_position p s) (fun s' =>
      clean s' /\ (position s <= position s')%nat /\ log s' = log s /\ scratch s' = scratch s))
    as Hnext.
  { intros p Hp. eapply returns_mono; [apply IH; [apply clean_at; [done|lia]|simpl; lia]|].
    simpl. intros s' (? & ? & ? & ?). split_and!; done || lia. }
  unfold returns. cbn [skip_trivia].
  destruct (Nat.leb_spec size (position s)); [by eexists true, s|].
  destruct (json_is_space _); [by apply Hnext; lia|].
  destruct (_ || _) eqn:E1; [by eexists true, s|]. unbool.
  destruct (is_char (at_ text (position s + 1)) "/"); [apply Hnext|].
  { pose proof (advance_while_bounds
      (fun c => negb (is_char c x0d) && negb (is_char c x0a)) (position s + 2)). lia. }
  destruct (is_char (at_ text (position s + 1)) "*"); [|by eexists true, s].
  destruct (close_comment _ _ _) as [closed pos] eqn:Ec. apply close_comment_bounds in Ec.
  destruct closed; simpl negb; cbn iota.
  - apply Hnext. lia.
  - apply returns_fail; [apply clean_at; [done|lia]|done|lia].
Qed.

Lemma trivia_returns s :
  clean s ->
  returns (trivia text) s (fun s' =>
    clean s' /\ (position s <= position s')%nat /\ log s' = log s /\ scratch s' = scratch s).
Proof. intros. apply skip_trivia_returns; [done|lia]. Qed.

(** ** Strings *)

Lemma hex_value_range c : -1 <= json_hex_value c < 16.
Proof. by destruct c. Qed.

Lemma hex_digit_step k output digit :
  (k < 8)%nat -> 0 <= output < 2 ^ (4 * Z.of_nat k) -> 0 <= digit < 16 ->
  Z.lor (u32 (Z.shiftl output 4)) digit = output * 16 + digit /\
  0 <= output * 16 + digit < 2 ^ (4 * Z.of_nat (S k)).
Proof.
  intros Hk Ho Hd. assert (2 ^ (4 * Z.of_nat (S k)) = 2 ^ (4 * Z.of_nat k) * 16) as Hp.
  { replace (4 * Z.of_nat (S k)) with (4 * Z.of_nat k + 4) by lia.
    by rewrite Z.pow_add_r by lia. }
  split; [|nia]. unfold u32. rewrite Z.shiftl_mul_pow2, Z.mod_small by
    (try lia; pose proof (Z.pow_le_mono_r 2 (4 * Z.of_nat (S k)) 32); nia).
  apply lor_disjoint; lia.
Qed.

(** [parse_hex4] and its loop leave the scratch string and the calls alone. *)
Definition hex_returns (m : option ((bool * Z) * parser)) (s : parser) (n : nat) : Prop :=
  exists b out s', m = Some ((b, out), s') /\
    if b : bool
    then clean s' /\ position s' = (position s + n)%nat /\ log s' = log s /\
         scratch s' = scratch s /\ 0 <= out < 0x10000
    else failed_in_text s'.

Lemma hex4_loop_returns n k output s :
  clean s -> (position s + n <= size)%nat -> (k + n = 4)%nat ->
  0 <= output < 2 ^ (4 * Z.of_nat k) ->
  hex_returns (hex4_loop text n output s) s n.
Proof.
  revert k output s. induction n as [|n IH]; intros k output s Hs Hn Hk Ho; simpl.
  { eexists true, output, s. rewrite Nat.add_0_r. assert (k = 4%nat) as -> by lia.
    split_and!; done || lia. }
  pose proof (hex_value_range (at_ text (position s))) as Hr.
  destruct (Z.ltb_spec (json_hex_value (at_ text (position s))) 0).
  - unfold fail. rewrite (proj1 Hs). eexists false, output, _. split; [done|].
    split; [done|simpl; lia].
  - destruct (hex_digit_step k output (json_hex_value (at_ text (position s))))
      as [-> Ho']; [lia..|].
    destruct (IH (S k) _ (at_position (S (position s)) s)
      ltac:(apply clean_at; [done|lia]) ltac:(simpl; lia) ltac:(lia) Ho')
      as (b & out & s' & Hm & Hb).
    exists b, out, s'. split; [done|]. destruct b; [|done]. simpl in Hb.
    destruct Hb as (? & ? & ? & ? & ?). split_and!; done || lia.
Qed.

Lemma parse_hex4_returns s : clean s -> hex_returns (parse_hex4 text s) s 4.
Proof.
  intros Hs. unfold parse_hex4. destruct (Nat.ltb_spec size (position s + 4)).
  - unfold fail. rewrite (proj1 Hs). eexists false, 0, _. split; [done|].
    destruct Hs. split; [done|simpl; lia].
  - apply (hex4_loop_returns 4 0); lia || done.
Qed.

Lemma bmp_scalar first :
  0 <= first < 0x10000 -> json_is_high_surrogate first = false ->
  json_is_low_surrogate first = false -> is_scalar first.
Proof.
  unfold json_is_high_surrogate, json_is_low_surrogate. intros. unbool.
  split; [lia|]. unfold json_is_unicode_scalar, json_is_surrogate.
  apply andb_true_iff. split; [lia|]. apply negb_true_iff, andb_false_iff. lia.
Qed.

(** The code point of a surrogate pair; the 32-bit arithmetic does not wrap. *)
Lemma pair_scalar first second :
  json_is_high_surrogate first = true -> json_is_low_surrogate second = true ->
  let cp := u32 (u32 (0x10000 + u32 (Z.shiftl (u32 (first - 0xD800)) 10))
                 + u32 (second - 0xDC00)) in
  cp = 0x10000 + (first - 0xD800) * 0x400 + (second - 0xDC00) /\ is_scalar cp.
Proof.
  intros H1 H2 cp. unfold json_is_high_surrogate, json_is_low_surrogate in H1, H2. unbool.
  assert (cp = 0x10000 + (first - 0xD800) * 0x400 + (second - 0xDC00)) as Hcp.
  { subst cp. unfold u32. rewrite Z.shiftl_mul_pow2 by lia. change (2 ^ 10) with 0x400.
    rewrite !Z.mod_small; try done; divlia. }
  split; [done|]. rewrite Hcp. split; [lia|].
  unfold json_is_unicode_scalar, json_is_surrogate.
  apply andb_true_iff. split; [lia|]. apply negb_true_iff, andb_false_iff. lia.
Qed.

Definition string_post (s s' : parser) : Prop :=
  clean s' /\ (position s <= position s')%nat /\ log s' = log s /\ valid_utf8 (scratch s').

Lemma append_scalar_post s s' cp :
  clean s' -> (position s <= position s')%nat -> log s' = log s ->
  valid_utf8 (scratch s') -> is_scalar cp ->
  string_post s (set_scratch (json_append_utf8 cp (scratch s')) s').
Proof.
  intros [? ?] ????. split_and!; simpl; try done.
  rewrite append_utf8_app by done. eauto with utf8.
Qed.

Lemma parse_unicode_escape_returns e s :
  clean s -> (e <= position s)%nat -> valid_utf8 (scratch s) ->
  returns (parse_unicode_escape text e) s (string_post s).
Proof.
  intros Hs He Hu. unfold returns, parse_unicode_escape.
  destruct (parse_hex4_returns s Hs) as ([|] & first & s1 & -> & H1);
    [|by eexists false, s1].
  destruct H1 as (Hs1 & Hp1 & Hl1 & Hsc1 & Hf1). pose proof (proj2 Hs1).
  destruct (json_is_high_surrogate first) eqn:Eh.
  - destruct (_ || _) eqn:Eg.
    { apply returns_fail; [done|done|lia]. }
    unbool.
    assert (clean (at_position (position s1 + 2) s1)) as Hc2 by (apply clean_at; [done|lia]).
    destruct (parse_hex4_returns _ Hc2) as ([|] & second & s2 & -> & Hx2);
      [|by eexists false, s2].
    destruct Hx2 as (Hs2 & Hp2 & Hl2 & Hsc2 & _). simpl in Hp2, Hl2, Hsc2.
    pose proof (proj2 Hs2).
    destruct (json_is_low_surrogate second) eqn:El; simpl negb; cbn iota.
    + eexists true, _. split; [done|].
      apply append_scalar_post; [done|lia|congruence|congruence|].
      by apply pair_scalar.
    + apply returns_fail; [done|done|lia].
  - destruct (json_is_low_surrogate first) eqn:El.
    + apply returns_fail; [done|done|lia].
    + eexists true, _. split; [done|].
      apply append_scalar_post; [done|lia|congruence|congruence|]. by apply bmp_scalar.
Qed.

Lemma string_loop_returns fuel s :
  clean s -> (size < position s + fuel)%nat -> valid_utf8 (scratch s) ->
  returns (string_loop text fuel) s (fun s' =>
    string_post s s' /\ (position s < position s')%nat).
Proof.
  revert s. induction fuel as [|fuel IH]; intros s Hs Hf Hu.
  { destruct Hs. lia. }
  assert (forall s1, clean s1 -> (position s < position s1)%nat -> log s1 = log s ->
    valid_utf8 (scratch s1) ->
    returns (string_loop text fuel) s1 (fun s' =>
      string_post s s' /\ (position s < position s')%nat)) as Hnext.
  { intros s1 Hs1 Hp1 Hl1 Hu1. eapply returns_mono; [apply IH; [done|lia|done]|].
    unfold string_post. intros s' ((? & ? & ? & ?) & ?).
    split_and!; done || lia || congruence. }
  assert (forall p b, (position s < p <= size)%nat -> bz b <= 0x7F ->
    returns (string_loop text fuel) (push_scratch b (at_position p s)) (fun s' =>
      string_post s s' /\ (position s < position s')%nat)) as Hpush.
  { intros p b Hp Hb. apply Hnext; simpl; [|lia|done|eauto with utf8].
    destruct Hs. split; [done|simpl; lia]. }
  pose proof (proj2 Hs) as Hsz. unfold returns. cbn [string_loop].
  destruct (Nat.leb_spec size (position s)); [apply returns_fail; [done|done|lia]|].
  destruct (is_char (at_ text (position s)) x22).
  { eexists true, _. split; [done|]. unfold string_post. simpl.
    split_and!; [apply clean_at; [done|lia]|lia|done|done|lia]. }
  destruct (Z.ltb_spec (bz (at_ text (position s))) 0x20);
    [apply returns_fail; [done|done|lia]|].
  destruct (is_char (at_ text (position s)) "\").
  - change (at_position ?p (at_position ?q s)) with (at_position p s).
    change (position (at_position ?p s)) with p.
    destruct (Nat.leb_spec size (S (position s))).
    { apply returns_fail; [apply (clean_at _ s); [done|lia]|done|lia]. }
    repeat match goal with |- context [if is_char ?e ?l then string_loop _ _ _ else _] =>
      destruct (is_char e l); [apply Hpush; [lia|vm_compute; discriminate]|] end.
    assert (clean (at_position (S (S (position s))) s)) as Hc by (apply clean_at; [done|lia]).
    destruct (is_char _ "u").
    + eapply returns_bind; [apply parse_unicode_escape_returns; [done|simpl; lia|done]|].
      intros s1 (? & Hp & ? & ?). simpl in Hp. apply Hnext; done || lia.
    + apply returns_fail; [done|done|lia].
  - destruct (Z.leb_spec (bz (at_ text (position s))) 0x7F).
    { apply (Hpush (S (position s))); [lia|done]. }
    destruct (json_decode_utf8_one text (position s)) as [st cp len] eqn:Ed. simpl.
    destruct st;
      try (apply returns_fail; [done|done|apply decode_error_bound in Ed; done]).
    apply decoded_take in Ed as (Hsc & Hl & Hlen & Ht).
    apply Hnext; simpl; [|lia|done|rewrite Ht; eauto with utf8].
    destruct Hs. split; [done|simpl; change size with (length text); lia].
Qed.

(** ** Numbers *)

Definition digits (l : list byte) : Prop := l <> [] /\ Forall (fun c => json_is_digit c = true) l.

(** The JSON number grammar; [integer] when there is neither fraction nor exponent. *)
Definition number_token (integer : bool) (token : list byte) : Prop :=
  exists sign ip fp ep, token = sign ++ ip ++ fp ++ ep /\
    (sign = [] \/ sign = str "-") /\
    (ip = str "0" \/ digits ip /\ head ip <> Some "0"%byte) /\
    (fp = [] \/ exists ds, fp = "."%byte :: ds /\ digits ds) /\
    (ep = [] \/ exists e sg ds, ep = e :: sg ++ ds /\ (e = "e"%byte \/ e = "E"%byte) /\
      (sg = [] \/ sg = str "+" \/ sg = str "-") /\ digits ds) /\
    integer = bool_decide (fp = [] /\ ep = []).

Lemma scan_while_all p n pos :
  (pos + n <= size)%nat ->
  Forall (fun c => p c = true) (slice pos (scan_while text p n pos) text).
Proof.
  revert pos. induction n as [|n IH]; intros pos Hn; simpl.
  { rewrite slice_nil. constructor. }
  destruct (p (at_ text pos)) eqn:E; [|rewrite slice_nil; constructor].
  pose proof (scan_while_bounds p n (S pos)).
  rewrite (slice_app pos (S pos)), slice_one by (pose proof size_eq; lia).
  constructor; [done|]. apply IH. lia.
Qed.

Lemma advance_digits pos :
  (pos < size)%nat -> json_is_digit (at_ text pos) = true ->
  let q := advance_while text json_is_digit pos in
  (pos < q <= size)%nat /\ digits (slice pos q text) /\
  head (slice pos q text) = Some (at_ text pos).
Proof.
  intros Hp Hd q. pose proof (advance_while_bounds json_is_digit pos ltac:(lia)) as Hb.
  fold q in Hb. assert (pos < q)%nat as Hlt.
  { unfold q, advance_while. replace (size - pos)%nat with (S (size - S pos)) by lia.
    simpl. rewrite Hd. pose proof (scan_while_bounds json_is_digit (size - S pos) (S pos)). lia. }
  assert (slice pos q text = at_ text pos :: slice (S pos) q text) as Hs.
  { rewrite (slice_app pos (S pos)), slice_one by (pose proof size_eq; lia). done. }
  split; [lia|]. split; [split|].
  - by rewrite Hs.
  - apply scan_while_all. lia.
  - by rewrite Hs.
Qed.

Lemma consume_slice c s s' :
  consume text c s = (true, s') -> slice (position s) (position s') text = [c].
Proof.
  unfold consume. intros H.
  destruct ((position s <? size)%nat && is_char (at_ text (position s)) c) eqn:E;
    simplify_eq. unbool. simpl. rewrite slice_one by done.
  by apply is_char_spec in H0 as <-.
Qed.

Lemma number_digits_spec pos :
  (pos <= size)%nat ->
  match number_digits text pos with
  | inl p => p = pos
  | inr q => (pos < q <= size)%nat /\ digits (slice pos q text)
  end.
Proof.
  intros Hp. unfold number_digits. destruct (_ || _) eqn:E; [done|]. unbool.
  pose proof (advance_digits pos ltac:(lia) ltac:(done)) as (? & ? & _). done.
Qed.

(** What [parse_number] leaves behind: one located number event. *)
Definition number_post (begin : nat) (s s' : parser) : Prop :=
  clean s' /\ (begin < position s')%nat /\
  exists integer, number_token integer (slice begin (position s') text) /\
  log s' = log s ++
    [ev_location begin (position s' - begin);
     ev_value (ValueView (if integer then kind_integer else kind_number)
                 (slice begin (position s') text) false)].

Lemma exponent_spec pos :
  (pos < size)%nat -> is_char (at_ text pos) "e" || is_char (at_ text pos) "E" = true ->
  match number_exponent text pos with
  | inl p => (pos < p <= size)%nat
  | inr q => (pos < q <= size)%nat /\ exists e sg ds,
      slice pos q text = e :: sg ++ ds /\ (e = "e"%byte \/ e = "E"%byte) /\
      (sg = [] \/ sg = str "+" \/ sg = str "-") /\ digits ds
  end.
Proof.
  intros Hp He. unfold number_exponent.
  assert (at_ text pos = "e"%byte \/ at_ text pos = "E"%byte) as He'.
  { unbool. destruct He as [He|He]; apply is_char_spec in He; auto. }
  set (p1 := if (S pos <? size)%nat &&
    (is_char (at_ text (S pos)) "+" || is_char (at_ text (S pos)) "-")
    then S (S pos) else S pos).
  assert ((S pos <= p1 <= size)%nat /\
    (slice (S pos) p1 text = [] \/ slice (S pos) p1 text = str "+" \/
     slice (S pos) p1 text = str "-")) as [Hp1 Hsg].
  { subst p1. destruct (_ && _) eqn:E; [|rewrite slice_nil; split; [lia|auto]].
    unbool. split; [lia|]. rewrite slice_one by done. right.
    destruct H0 as [H0|H0]; apply is_char_spec in H0; unfold at_ in H0; rewrite H0; auto. }
  pose proof (number_digits_spec p1 ltac:(lia)) as Hd.
  destruct (number_digits text p1) as [p|q]; [lia|]. destruct Hd as [Hq Hd].
  split; [lia|]. exists (at_ text pos), (slice (S pos) p1 text), (slice p1 q text).
  split_and!; [|done..].
  rewrite (slice_app pos (S pos) q), (slice_app (S pos) p1 q), slice_one
    by (pose proof size_eq; lia). done.
Qed.

(** The integer part read so far, for [number_tail]. *)
Definition integer_part (l : list byte) : Prop :=
  exists sign ip, l = sign ++ ip /\ (sign = [] \/ sign = str "-") /\
    (ip = str "0" \/ digits ip /\ head ip <> Some "0"%byte).

Lemma emit_number begin integer s s1 :
  clean s1 -> (begin < position s1)%nat -> log s1 = log s ->
  number_token integer (slice begin (position s1) text) ->
  returns (fun s1 =>
    let token := take (position s1 - begin) (drop begin text) in
    return_true
      (call (ev_value (ValueView (if integer then kind_integer else kind_number) token false))
        (call (ev_location begin (length token)) s1))) s1 (number_post begin s).
Proof.
  intros Hc Hb Hl Hn. apply returns_true. split; [apply Hc|]. split; [done|].
  exists integer. split; [done|]. simpl. rewrite Hl, <- app_assoc. simpl.
  repeat f_equal. change (take _ _) with (slice begin (position s1) text).
  apply length_slice. destruct Hc. pose proof size_eq. lia.
Qed.

Lemma number_token_intro l fp ep integer :
  integer_part l ->
  (fp = [] \/ exists ds, fp = "."%byte :: ds /\ digits ds) ->
  (ep = [] \/ exists e sg ds, ep = e :: sg ++ ds /\ (e = "e"%byte \/ e = "E"%byte) /\
      (sg = [] \/ sg = str "+" \/ sg = str "-") /\ digits ds) ->
  integer = bool_decide (fp = [] /\ ep = []) ->
  number_token integer (l ++ fp ++ ep).
Proof.
  intros (sign & ip & -> & Hs & Hi) Hf He ->. exists sign, ip, fp, ep.
  rewrite <- app_assoc. split_and!; done.
Qed.

(** The exponent part of [number_tail]. *)
Lemma exponent_returns begin m fp integer s s1 :
  clean s1 -> (begin < m)%nat -> (m <= position s1)%nat -> log s1 = log s ->
  integer_part (slice begin m text) -> slice m (position s1) text = fp ->
  (fp = [] \/ exists ds, fp = "."%byte :: ds /\ digits ds) ->
  integer = bool_decide (fp = []) ->
  let emit (integer : bool) (s : parser) :=
    let token := take (position s - begin) (drop begin text) in
    return_true
      (call (ev_value (ValueView (if integer then kind_integer else kind_number) token false))
        (call (ev_location begin (length token)) s)) in
  returns (fun s1 =>
    if (position s1 <? size)%nat &&
       (is_char (at_ text (position s1)) "e" || is_char (at_ text (position s1)) "E")
    then match number_exponent text (position s1) with
         | inl pos => fail err_invalid_number begin (pos - begin) (at_position pos s1)
         | inr pos => emit false (at_position pos s1)
         end
    else emit integer s1) s1 (number_post begin s).
Proof.
  intros Hc Hb Hm Hl Hi Hfp Hf -> emit. pose proof (proj2 Hc). unfold returns.
  destruct (_ && _) eqn:E.
  - apply andb_true_iff in E as [E1 E2]. apply Nat.ltb_lt in E1.
    pose proof (exponent_spec (position s1) E1 E2) as He.
    destruct (number_exponent text (position s1)) as [p|q].
    + apply returns_fail; [apply clean_at; [done|lia]|done|lia].
    + destruct He as (Hq & e & sg & ds & Hs & He & Hsg & Hds).
      apply (emit_number begin false s (at_position q s1));
        [apply clean_at; [done|lia]|simpl; lia|done|].
      simpl. rewrite (slice_app begin m q), (slice_app m (position s1) q), Hs, Hfp by lia.
      apply number_token_intro; [done|done|right; eauto 10|].
      symmetry. apply bool_decide_eq_false. by intros [_ ?].
  - apply (emit_number begin _ s s1); [done|lia|done|].
    rewrite (slice_app begin m (position s1)), Hfp by lia.
    assert (number_token (bool_decide (fp = [])) (slice begin m text ++ fp ++ [])) as Hn.
    { apply number_token_intro; [done|done|by left|]. apply bool_decide_ext. split; [by intros|by intros [? _]]. }
    by rewrite app_nil_r in Hn.
Qed.

Lemma number_tail_returns begin s :
  clean s -> (begin < position s)%nat -> integer_part (slice begin (position s) text) ->
  returns (number_tail text begin) s (number_post begin s).
Proof.
  intros Hc Hb Hi. pose proof (proj2 Hc). unfold returns, number_tail.
  destruct (consume text "." s) as [[|] s1] eqn:Ed;
    destruct (consume_spec _ _ _ _ Ed Hc) as (Hc1 & Hl1 & _ & Hp1); pose proof (proj2 Hc1).
  - pose proof (number_digits_spec (position s1) ltac:(lia)) as Hd.
    destruct (number_digits text (position s1)) as [p|q].
    + subst p. apply returns_fail; [by apply clean_at|done|lia].
    + destruct Hd as [Hq Hd]. apply consume_slice in Ed.
      apply (exponent_returns begin (position s)
        ("."%byte :: slice (position s1) q text) false s (at_position q s1));
        simpl; try done; try lia.
      * apply clean_at; [done|lia].
      * rewrite (slice_app (position s) (position s1) q), Ed by lia. done.
      * right. eauto.
  - apply (exponent_returns begin (position s) [] true s s1); try done; try lia.
    + rewrite Hp1, Nat.add_0_r. apply slice_nil.
    + by left.
Qed.

Lemma parse_number_returns s :
  clean s -> (position s < size)%nat ->
  is_char (at_ text (position s)) "-" || json_is_digit (at_ text (position s)) = true ->
  returns (parse_number text) s (number_post (position s) s).
Proof.
  intros Hc Hp H0. unfold returns, parse_number. set (begin := position s).
  destruct (consume text "-" s) as [minus s1] eqn:Em.
  destruct (consume_spec _ _ _ _ Em Hc) as (Hc1 & Hl1 & _ & Hp1); pose proof (proj2 Hc1).
  assert (exists sign, slice begin (position s1) text = sign /\
    (sign = [] \/ sign = str "-")) as (sign & Hsign & Hsg).
  { eexists. split; [done|]. destruct minus.
    - right. by apply consume_slice in Em.
    - left. rewrite Hp1, Nat.add_0_r. apply slice_nil. }
  destruct (minus && _) eqn:Eg.
  { apply returns_fail; [done|done|]. fold begin in Hp1. lia. }
  destruct (consume text "0" s1) as [zero s2] eqn:Ez.
  destruct (consume_spec _ _ _ _ Ez Hc1) as (Hc2 & Hl2 & _ & Hp2); pose proof (proj2 Hc2).
  assert (number_post begin s2 = number_post begin s) as Hpost
    by (unfold number_post; by rewrite Hl2, Hl1).
  rewrite <- Hpost. fold begin in Hp1. destruct zero.
  - destruct ((position s2 <? size)%nat && json_is_digit (at_ text (position s2))) eqn:E2.
    { apply andb_true_iff in E2 as [E2 _]. apply Nat.ltb_lt in E2.
      apply returns_fail; [done|done|lia]. }
    apply number_tail_returns; [done|lia|]. exists sign, (str "0").
    rewrite (slice_app begin (position s1)), Hsign by lia.
    apply consume_slice in Ez. rewrite Ez. split_and!; auto.
  - destruct ((size <=? position s2)%nat || negb (json_is_digit (at_ text (position s2))))
      eqn:E2.
    { apply returns_fail; [done|done|]. destruct minus; lia. }
    unbool. destruct (advance_digits (position s2) ltac:(lia) ltac:(done)) as (Hq & Hd & Hh).
    assert (number_post begin s2 = number_post begin
      (at_position (advance_while text json_is_digit (position s2)) s2)) as -> by done.
    apply number_tail_returns; simpl; [apply clean_at; [done|lia]|lia|].
    exists sign, (slice (position s1) (advance_while text json_is_digit (position s2)) text).
    rewrite Nat.add_0_r in Hp2. rewrite Hp2 in *.
    rewrite (slice_app begin (position s1)), Hsign by lia.
    split_and!; [done|done|]. right. split; [done|]. rewrite Hh. intros [= Hz].
    unfold consume in Ez. rewrite (proj2 (Nat.ltb_lt _ _)) in Ez by lia.
    rewrite Hz in Ez. discriminate Ez.
Qed.

(** ** Well-nested event streams *)

(** A scalar delivered with location [o], [l]: strings are valid UTF-8, the other
    kinds carry the exact token at that place of the text. *)
Definition scalar_event (o l : nat) (v : json_value_view) : Prop :=
  (o + l <= size)%nat /\
  match kind_value v with
  | kind_string => valid_utf8 (text_value v)
  | kind_integer =>
      text_value v = slice o (o + l) text /\ number_token true (text_value v)
  | kind_number =>
      text_value v = slice o (o + l) text /\ number_token false (text_value v)
  | kind_boolean =>
      slice o (o + l) text = str (if boolean_value v then "true" else "false")
  | kind_null_value => slice o (o + l) text = str "null"
  end.

Inductive value_events : nat -> list json_event -> Prop :=
| ve_scalar d o l v :
    scalar_event o l v -> value_events d [ev_location o l; ev_value v]
| ve_object d o ms :
    (d < max_depth)%nat -> (o < size)%nat -> member_events (S d) ms ->
    value_events d ([ev_location o 1; ev_object_begin] ++ ms ++ [ev_object_end])
| ve_array d o vs :
    (d < max_depth)%nat -> (o < size)%nat -> element_events (S d) vs ->
    value_events d ([ev_location o 1; ev_array_begin] ++ vs ++ [ev_array_end])
with member_events : nat -> list json_event -> Prop :=
| me_nil d : member_events d []
| me_cons d o l k ve ms :
    (o + l <= size)%nat -> valid_utf8 k -> value_events d ve -> member_events d ms ->
    member_events d ([ev_location o l; ev_key k] ++ ve ++ ms)
with element_events : nat -> list json_event -> Prop :=
| ee_nil d : element_events d []
| ee_cons d ve vs :
    value_events d ve -> element_events d vs -> element_events d (ve ++ vs).

Definition value_post (d : nat) (s s' : parser) : Prop :=
  clean s' /\ (position s < position s')%nat /\
  exists evs, log s' = log s ++ evs /\ value_events d evs.

Lemma parse_decoded_string_returns s :
  clean s ->
  returns (parse_decoded_string text) s (fun s' =>
    string_post s s' /\ (position s < position s')%nat).
Proof.
  intros Hc. unfold returns, parse_decoded_string.
  destruct (consume text x22 s) as [ok s1] eqn:E.
  destruct (consume_spec _ _ _ _ E Hc) as (Hc1 & Hl1 & _ & Hp1). pose proof (proj2 Hc1).
  destruct ok; simpl negb; cbn iota.
  - eapply returns_mono; [apply string_loop_returns;
      [destruct Hc1; by split|simpl; lia|simpl; auto with utf8]|].
    unfold string_post. simpl. intros s' ((? & ? & ? & ?) & ?).
    split_and!; done || lia || congruence.
  - apply returns_fail; [done|done|]. destruct (Nat.ltb_spec (position s1) size); lia.
Qed.

Lemma parse_string_value_returns d s :
  clean s -> returns (parse_string_value text) s (value_post d s).
Proof.
  intros Hc. unfold parse_string_value. eapply returns_bind.
  { by apply parse_decoded_string_returns. }
  intros s1 ((Hc1 & Hp1 & Hl1 & Hu) & Hlt). apply returns_true.
  split; [apply Hc1|]. split; [done|]. eexists. split.
  { simpl. rewrite Hl1, <- app_assoc. done. }
  apply ve_scalar. split; [|done]. destruct Hc1. lia.
Qed.

Lemma parse_number_value d s :
  clean s -> (position s < size)%nat ->
  is_char (at_ text (position s)) "-" || json_is_digit (at_ text (position s)) = true ->
  returns (parse_number text) s (value_post d s).
Proof.
  intros Hc Hp H0. eapply returns_mono; [by apply parse_number_returns|].
  intros s' (Hc' & Hlt & integer & Hn & Hl). split; [done|]. split; [done|].
  eexists. split; [done|]. apply ve_scalar. destruct Hc' as [_ ?].
  split; [lia|]. replace (position s + (position s' - position s))%nat with (position s') by lia.
  by destruct integer.
Qed.

Lemma parse_literal_returns d s literal v :
  clean s -> literal <> [] ->
  (slice (position s) (position s + length literal) text = literal ->
   (position s + length literal <= size)%nat ->
   scalar_event (position s) (length literal) v) ->
  (position s < size)%nat ->
  returns (parse_literal text literal v) s (value_post d s).
Proof.
  intros Hc Hne Hv Hp. unfold returns, parse_literal. case_bool_decide as E; simpl negb; cbn iota.
  - apply returns_true. assert (length literal <= size - position s)%nat as Hl.
    { rewrite <- E at 1. rewrite length_take, length_drop. pose proof size_eq. lia. }
    destruct literal as [|c l]; [done|].
    split; [destruct Hc; split; [done|simpl in *; lia]|]. split; [simpl; lia|].
    eexists. split; [simpl; rewrite <- app_assoc; done|]. apply ve_scalar, Hv; [|simpl in *; lia].
    unfold slice. by rewrite Nat.add_comm, Nat.add_sub.
  - apply returns_fail; [done|done|lia].
Qed.

Lemma unexpected_here_returns s Q : clean s -> returns (unexpected_here text) s Q.
Proof.
  intros Hc. apply returns_fail; [done|done|]. destruct Hc.
  destruct (Nat.ltb_spec (position s) size); lia.
Qed.

(** ** Containers and values *)

Section Loops.
Context (d : nat) (parse_inner : method).
Context (Hinner : forall s, clean s -> returns parse_inner s (value_post d s)).

Definition loop_post (items : list json_event -> Prop) (close : json_event) (s s' : parser)
  : Prop :=
  clean s' /\ (position s < position s')%nat /\
  exists evs, log s' = log s ++ evs ++ [close] /\ items evs.

(** Looks at one punctuation byte; both continuations start from a clean state. *)
Lemma consume_returns c s (k : bool * parser -> option (bool * parser)) Q :
  clean s ->
  (forall s1, clean s1 -> position s1 = S (position s) -> log s1 = log s ->
     scratch s1 = scratch s -> returns (fun _ => k (true, s1)) s1 Q) ->
  (forall s1, clean s1 -> position s1 = position s -> log s1 = log s ->
     scratch s1 = scratch s -> returns (fun _ => k (false, s1)) s1 Q) ->
  returns (fun _ => k (consume text c s)) s Q.
Proof.
  intros Hc Ht Hf. destruct (consume text c s) as [b s1] eqn:E.
  destruct (consume_spec _ _ _ _ E Hc) as (Hc1 & Hl1 & Hsc1 & Hp1). destruct b.
  - apply Ht; [done|lia|done|done].
  - apply Hf; [done|lia|done|done].
Qed.

Lemma object_loop_returns fuel s :
  clean s -> (size < position s + fuel)%nat ->
  returns (object_loop text parse_inner fuel) s (loop_post (member_events d) ev_object_end s).
Proof.
  revert s. induction fuel as [|fuel IH]; intros s Hc Hf. { destruct Hc. lia. }
  cbn [object_loop]. eapply returns_bind; [by apply trivia_returns|].
  intros s1 (Hc1 & Hp1 & Hl1 & _). pose proof (proj2 Hc1).
  unfold returns at 1. destruct (Nat.leb_spec size (position s1)).
  { apply returns_fail; [done|done|lia]. }
  destruct (is_char _ x22); simpl negb; cbn iota; [|apply returns_fail; [done|done|lia]].
  eapply returns_bind; [by apply parse_decoded_string_returns|].
  intros s2 ((Hc2 & Hp2 & Hl2 & Hu) & Hlt2). pose proof (proj2 Hc2).
  set (key := [ev_location (position s1) (position s2 - position s1); ev_key (scratch s2)]).
  eapply returns_bind; [apply trivia_returns; destruct Hc2; by split|].
  intros s3 (Hc3 & Hp3 & Hl3 & _). simpl in Hp3, Hl3.
  apply (consume_returns ":" s3 (fun r => let '(colon, s) := r in _)); [done| |];
    intros s4 Hc4 Hp4 Hl4 _; simpl negb; cbn iota;
    [|by apply unexpected_here_returns].
  eapply returns_bind; [by apply Hinner|].
  intros s5 (Hc5 & Hp5 & ve & Hl5 & Hve).
  eapply returns_bind; [by apply trivia_returns|].
  intros s6 (Hc6 & Hp6 & Hl6 & _).
  assert (log s6 = log s ++ key ++ ve) as Hlog.
  { rewrite Hl6, Hl5, Hl4, Hl3, Hl2, Hl1, <- !app_assoc. done. }
  assert (forall ms, member_events d ms -> member_events d (key ++ ve ++ ms)) as Hcons.
  { intros. apply me_cons; [lia|done..]. }
  apply (consume_returns "}" s6 (fun r => let '(close, s) := r in _)); [done| |];
    intros s7 Hc7 Hp7 Hl7 _; simpl negb; cbn iota.
  { apply returns_true. split; [apply Hc7|]. split; [simpl; lia|].
    exists (key ++ ve ++ []). split; [|apply Hcons; constructor].
    simpl. rewrite Hl7, Hlog, app_nil_r. by rewrite <- !app_assoc. }
  apply (consume_returns "," s7 (fun r => let '(comma, s) := r in _)); [done| |];
    intros s8 Hc8 Hp8 Hl8 _; simpl negb; cbn iota;
    [|by apply unexpected_here_returns].
  eapply returns_mono; [apply IH; [done|lia]|].
  intros s9 (Hc9 & Hp9 & ms & Hl9 & Hms). split; [done|]. split; [lia|].
  exists (key ++ ve ++ ms). split; [|by apply Hcons].
  rewrite Hl9, Hl8, Hl7, Hlog. by rewrite <- !app_assoc.
Qed.

Lemma array_loop_returns fuel s :
  clean s -> (size < position s + fuel)%nat ->
  returns (array_loop text parse_inner fuel) s (loop_post (element_events d) ev_array_end s).
Proof.
  revert s. induction fuel as [|fuel IH]; intros s Hc Hf. { destruct Hc. lia. }
  cbn [array_loop]. eapply returns_bind; [by apply Hinner|].
  intros s5 (Hc5 & Hp5 & ve & Hl5 & Hve).
  eapply returns_bind; [by apply trivia_returns|].
  intros s6 (Hc6 & Hp6 & Hl6 & _).
  apply (consume_returns "]" s6 (fun r => let '(close, s) := r in _)); [done| |];
    intros s7 Hc7 Hp7 Hl7 _; simpl negb; cbn iota.
  { apply returns_true. split; [apply Hc7|]. split; [simpl; lia|].
    exists (ve ++ []). split; [|apply ee_cons; [done|constructor]].
    simpl. by rewrite Hl7, Hl6, Hl5, app_nil_r, <- app_assoc. }
  apply (consume_returns "," s7 (fun r => let '(comma, s) := r in _)); [done| |];
    intros s8 Hc8 Hp8 Hl8 _; simpl negb; cbn iota;
    [|by apply unexpected_here_returns].
  eapply returns_mono; [apply IH; [done|lia]|].
  intros s9 (Hc9 & Hp9 & vs & Hl9 & Hvs). split; [done|]. split; [lia|].
  exists (ve ++ vs). split; [|by apply ee_cons].
  by rewrite Hl9, Hl8, Hl7, Hl6, Hl5, <- !app_assoc.
Qed.

End Loops.

(** The shared shape of [parse_object] and [parse_array]. *)
Lemma container_returns (d : nat) (c : byte) (opening closing : json_event) items loop s :
  clean s -> (position s < size)%nat ->
  ((d < max_depth)%nat -> forall s1, clean s1 ->
     returns loop s1 (loop_post items closing s1)) ->
  items [] ->
  ((d < max_depth)%nat -> forall o evs, (o < size)%nat -> items evs ->
     value_events d ([ev_location o 1; opening] ++ evs ++ [closing])) ->
  returns (fun s =>
    if (max_depth <=? d)%nat then fail err_nesting_too_deep (position s) 1 s
    else
      let begin := position s in
      let s := at_position (S begin) s in
      let s := call opening (call (ev_location begin 1) s) in
      (trivia text ;;? fun s =>
       let '(close, s) := consume text c s in
       if close then return_true (call closing s) else loop s) s) s (value_post d s).
Proof.
  intros Hc Hp Hloop Hnil Hve. unfold returns at 1.
  destruct (Nat.leb_spec max_depth d). { apply returns_fail; [done|done|lia]. }
  eapply returns_bind; [apply trivia_returns; destruct Hc; split; [done|simpl; lia]|].
  intros s1 (Hc1 & Hp1 & Hl1 & _). simpl in Hp1, Hl1.
  apply (consume_returns c s1 (fun r => let '(close, s) := r in _)); [done| |];
    intros s2 Hc2 Hp2 Hl2 _; cbn iota.
  - apply returns_true. split; [apply Hc2|]. split; [simpl; lia|].
    eexists. split; [|apply (Hve H (position s) [] Hp Hnil)].
    simpl. rewrite Hl2, Hl1, <- !app_assoc. done.
  - eapply returns_mono; [by apply Hloop|].
    intros s3 (Hc3 & Hp3 & evs & Hl3 & Hevs). split; [done|]. split; [lia|].
    eexists. split; [|apply (Hve H (position s) evs Hp Hevs)].
    rewrite Hl3, Hl2, Hl1, <- !app_assoc. done.
Qed.

Lemma parse_value_returns fuel d s :
  clean s -> (d <= max_depth)%nat -> (max_depth < d + fuel)%nat ->
  returns (parse_value text fuel d) s (value_post d s).
Proof.
  revert d s. induction fuel as [|fuel IH]; intros d s Hc Hd Hf; [lia|].
  cbn [parse_value]. eapply returns_bind; [by apply trivia_returns|].
  intros s1 (Hc1 & Hp1 & Hl1 & _). pose proof (proj2 Hc1).
  assert (forall s', value_post d s1 s' -> value_post d s s') as Hup.
  { intros s' (? & ? & evs & Hl & ?). split; [done|]. split; [lia|].
    exists evs. by rewrite Hl, Hl1. }
  unfold returns at 1. destruct (Nat.leb_spec size (position s1)).
  { apply returns_fail; [done|done|lia]. }
  set (c := at_ text (position s1)).
  destruct (is_char c "{").
  { eapply returns_mono; [|exact Hup].
    apply (container_returns d "}" ev_object_begin ev_object_end (member_events (S d)));
      [done|done| |constructor|intros; by apply ve_object].
    intros Hdm s2 Hc2. apply object_loop_returns; [|done|lia].
    intros s3 Hc3. apply IH; [done|lia..]. }
  destruct (is_char c "[").
  { eapply returns_mono; [|exact Hup].
    apply (container_returns d "]" ev_array_begin ev_array_end (element_events (S d)));
      [done|done| |constructor|intros; by apply ve_array].
    intros Hdm s2 Hc2. apply array_loop_returns; [|done|lia].
    intros s3 Hc3. apply IH; [done|lia..]. }
  destruct (is_char c x22).
  { eapply returns_mono; [by apply parse_string_value_returns|exact Hup]. }
  do 3 (destruct (is_char c _);
    [eapply returns_mono; [apply (parse_literal_returns d); [done|done| |done]|exact Hup];
     intros; split; done|]).
  destruct (is_char c "-" || json_is_digit c) eqn:E.
  - eapply returns_mono; [by apply parse_number_value|exact Hup].
  - apply returns_fail; [done|done|lia].
Qed.

Lemma run_returns :
  exists s, run text = Some s /\
    if json_parse_ok (result s)
    then position s = size /\ value_events 0 (log s)
    else (err_offset (result s) + err_length (result s) <= size)%nat.
Proof.
  set (s0 := skip_bom text (Parser 0 no_error [] [])).
  assert (clean s0 /\ log s0 = []) as [Hc0 Hl0].
  { subst s0. unfold skip_bom. case_match; [|repeat split; simpl; lia].
    unbool. repeat split. simpl. lia. }
  assert (returns (trivia text ;;? fun s =>
     if (size <=? position s)%nat then fail err_unexpected_end (position s) 0 s
     else
       (parse_value text (S max_depth) 0 ;;? trivia text ;;? fun s =>
        if negb (position s =? size)%nat
        then fail err_unexpected_token (position s) 1 s
        else return_true s) s) s0 (fun s' =>
      result s' = no_error /\ position s' = size /\ value_events 0 (log s')))
    as (b & s' & Hm & Hb).
  { eapply returns_bind; [by apply trivia_returns|].
    intros s1 (Hc1 & Hp1 & Hl1 & _). pose proof (proj2 Hc1). unfold returns at 1.
    destruct (Nat.leb_spec size (position s1)). { apply returns_fail; [done|done|lia]. }
    eapply returns_bind; [apply parse_value_returns; [done|lia..]|].
    intros s2 (Hc2 & Hp2 & evs & Hl2 & Hevs).
    eapply returns_bind; [by apply trivia_returns|].
    intros s3 (Hc3 & Hp3 & Hl3 & _). pose proof (proj2 Hc3). unfold returns at 1.
    destruct (Nat.eqb_spec (position s3) size); simpl negb; cbn iota.
    - apply returns_true. split; [apply Hc3|]. split; [done|].
      by rewrite Hl3, Hl2, Hl1, Hl0.
    - apply returns_fail; [done|done|lia]. }
  exists s'. unfold run. fold s0. rewrite Hm. split; [done|]. unfold json_parse_ok. destruct b.
  - destruct Hb as (-> & Hp & He). simpl. done.
  - destruct Hb as [Hne Hb]. by rewrite bool_decide_false.
Qed.

End Correctness.

(** C3: [parse_json] always returns. An accepted text was consumed to its end and
    the handler received the events of one value: correctly nested, at most
    [max_depth] containers deep, with valid UTF-8 strings and number tokens that
    are the bytes of the text at the announced place. A rejection, a throwing
    handler included, names an extent of the text. *)
Theorem parse_json_total {H : Type} (handle : H -> json_event -> option H)
    (text : list byte) (h : H) :
  exists r, parse_json handle text h = Some r /\
    if json_parse_ok r
    then exists events h', deliver handle h events = Some h' /\ value_events text 0 events
    else (err_offset r + err_length r <= length text)%nat.
Proof.
  destruct (run_returns text) as (s & Hs & H0). unfold parse_json. rewrite Hs.
  destruct (deliver handle h (log s)) as [h'|] eqn:Ed.
  - eexists. split; [done|]. destruct (json_parse_ok (result s)); [|done].
    destruct H0 as [_ H0]. by exists (log s), h'.
  - eexists. split; [done|]. simpl. lia.
Qed.
