(* ===== verification/JsonWriter.v ===== *)
(** The compact JSON writer (server_engine/json/json_writer.hpp, json_buffer.hpp)
    and the typed scalar accessors of json_value.hpp: the writer object as a
    record with its container stack, every call as a state transformer returning
    the C++ [bool], and the theorem that writing a document is printing it. *)

From S2P Require Import Prelude JsonText JsonParser.

Local Open Scope Z_scope.

(** ** Integer conversion of the standard library *)

(** [std::to_chars] of a nonnegative value, least significant digit last. *)
Fixpoint decimal_digits (fuel : nat) (z : Z) (acc : list byte) : list byte :=
  match fuel with
  | O => acc
  | S fuel =>
      let acc := zb (bz "0"%byte + z mod 10) :: acc in
      if z <? 10 then acc else decimal_digits fuel (z / 10) acc
  end.

(** Every round divides by ten, so [log2 z + 1] rounds are enough. *)
Definition decimal (z : Z) : list byte := decimal_digits (S (Z.to_nat (Z.log2 z))) z [].

Definition to_chars (z : Z) : list byte :=
  if z <? 0 then "-"%byte :: decimal (- z) else decimal z.

(** The integral types the code instantiates its templates with. *)
Record integral := Integral { is_signed : bool; min_value : Z; max_value : Z }.
Definition int32 : integral := Integral true (- 2 ^ 31) (2 ^ 31 - 1).
Definition int64 : integral := Integral true (- 2 ^ 63) (2 ^ 63 - 1).
Definition uint32 : integral := Integral false 0 (2 ^ 32 - 1).
Definition uint64 : integral := Integral false 0 (2 ^ 64 - 1).

Definition representable (T : integral) (z : Z) : bool :=
  (min_value T <=? z) && (z <=? max_value T).

Fixpoint digits_value (acc : Z) (l : list byte) : option Z :=
  match l with
  | [] => Some acc
  | c :: l => if json_is_digit c then digits_value (acc * 10 + (bz c - bz "0"%byte)) l else None
  end.

(** [std::from_chars] over the whole token: [None] when the pattern does not
    match, stops early, or the value is out of range. *)
Definition from_chars (T : integral) (token : list byte) : option Z :=
  let magnitude l := match l with [] => None | _ => digits_value 0 l end in
  let value :=
    match token with
    | c :: rest =>
        if is_char c "-" && is_signed T then Z.opp <$> magnitude rest else magnitude token
    | [] => None
    end in
  match value with
  | Some z => if representable T z then Some z else None
  | None => None
  end.

(** ** json_value_view::get *)

Definition get_string_view (v : json_value_view) : option (list byte) :=
  if negb (bool_decide (kind_value v = kind_string)) then None else Some (text_value v).

Definition get_bool (v : json_value_view) : option bool :=
  if negb (bool_decide (kind_value v = kind_boolean)) then None else Some (boolean_value v).

Definition get_integral (T : integral) (v : json_value_view) : option Z :=
  if negb (bool_decide (kind_value v = kind_integer)) then None
  else from_chars T (text_value v).

Definition is_null (v : json_value_view) : bool := bool_decide (kind_value v = kind_null_value).

(** ** The writer object *)

Inductive container_kind := container_object | container_array.

#[export] Instance container_kind_eq_dec : EqDecision container_kind.
Proof. solve_decision. Defined.

Record frame := Frame {
  frame_kind : container_kind;
  has_content : bool;
  expect_key : bool
}.

(** [stack.back()] is the head of [stack]. *)
Record json_writer := JsonWriter {
  output : list byte;
  stack : list frame;
  root_written : bool;
  valid_state : bool
}.

Definition new_writer : json_writer := JsonWriter [] [] false true.

(** json_buffer::push *)
Definition push (text : list byte) (w : json_writer) : json_writer :=
  JsonWriter (output w ++ text) (stack w) (root_written w) (valid_state w).
Definition set_stack (st : list frame) (w : json_writer) : json_writer :=
  JsonWriter (output w) st (root_written w) (valid_state w).
Definition mark_root (w : json_writer) : json_writer :=
  JsonWriter (output w) (stack w) true (valid_state w).

Definition writer_clear (w : json_writer) : json_writer := JsonWriter [] [] false true.

Definition writer_complete (w : json_writer) : bool :=
  valid_state w && root_written w && bool_decide (stack w = []).

Definition invalidate (w : json_writer) : bool * json_writer :=
  (false, JsonWriter (output w) (stack w) (root_written w) false).

Definition begin_value (w : json_writer) : bool * json_writer :=
  if negb (valid_state w) then (false, w)
  else match stack w with
  | [] => if root_written w then invalidate w else (true, mark_root w)
  | top :: _ =>
      if bool_decide (frame_kind top = container_object)
      then if expect_key top then invalidate w else (true, w)
      else (true, if has_content top then push (str ",") w else w)
  end.

Definition finish_value (w : json_writer) : json_writer :=
  match stack w with
  | [] => w
  | top :: rest =>
      set_stack
        (Frame (frame_kind top) true
          (if bool_decide (frame_kind top = container_object) then true else expect_key top)
         :: rest) w
  end.

Definition primitive (value : list byte) (w : json_writer) : bool * json_writer :=
  let '(ok, w) := begin_value w in
  if negb ok then (false, w) else (true, finish_value (push value w)).

Definition begin_object (w : json_writer) : bool * json_writer :=
  let '(ok, w) := begin_value w in
  if negb ok then (false, w)
  else
    let w := push (str "{") w in
    (true, set_stack (Frame container_object false true :: stack w) w).

Definition end_object (w : json_writer) : bool * json_writer :=
  match stack w with
  | top :: rest =>
      if negb (bool_decide (frame_kind top = container_object)) || negb (expect_key top)
      then invalidate w
      else (true, finish_value (set_stack rest (push (str "}") w)))
  | [] => invalidate w
  end.

Definition begin_array (w : json_writer) : bool * json_writer :=
  let '(ok, w) := begin_value w in
  if negb ok then (false, w)
  else
    let w := push (str "[") w in
    (true, set_stack (Frame container_array false false :: stack w) w).

Definition end_array (w : json_writer) : bool * json_writer :=
  match stack w with
  | top :: rest =>
      if negb (bool_decide (frame_kind top = container_array)) then invalidate w
      else (true, finish_value (set_stack rest (push (str "]") w)))
  | [] => invalidate w
  end.

Definition writer_key (value : list byte) (w : json_writer) : bool * json_writer :=
  match stack w with
  | [] => invalidate w
  | top :: rest =>
      if negb (bool_decide (frame_kind top = container_object)) || negb (expect_key top)
      then invalidate w
      else
        let w := if has_content top then push (str ",") w else w in
        let w := JsonWriter (json_write_escaped_string (output w) value)
                   (stack w) (root_written w) (valid_state w) in
        let w := push (str ":") w in
        (true, set_stack (Frame (frame_kind top) (has_content top) false :: rest) w)
  end.

Definition writer_null (w : json_writer) : bool * json_writer := primitive (str "null") w.

Definition writer_boolean (value : bool) (w : json_writer) : bool * json_writer :=
  primitive (str (if value then "true" else "false")) w.

(** json_buffer::push_integer: the conversion buffer holds 32 characters. *)
Definition push_integer (input : Z) (w : json_writer) : bool * json_writer :=
  if (32 <? length (to_chars input))%nat then (false, w)
  else (true, push (to_chars input) w).

Definition writer_number (value : Z) (w : json_writer) : bool * json_writer :=
  let '(ok, w) := begin_value w in
  if negb ok then (false, w)
  else
    let '(ok, w) := push_integer value w in
    if negb ok then invalidate w else (true, finish_value w).

Definition writer_string (value : list byte) (w : json_writer) : bool * json_writer :=
  let '(ok, w) := begin_value w in
  if negb ok then (false, w)
  else (true, finish_value
          (JsonWriter (json_write_escaped_string (output w) value)
             (stack w) (root_written w) (valid_state w))).

(** ** Documents and their compact text *)

#[warnings="-register-all"]
Inductive jvalue :=
| JNull
| JBool (b : bool)
| JInt (z : Z)
| JString (s : list byte)
| JArray (vs : list jvalue)
| JObject (ms : list (list byte * jvalue)).

(** Induction through the nested lists. *)
Section JvalueInd.
Context (P : jvalue -> Prop).
Context (Hnull : P JNull) (Hbool : forall b, P (JBool b)) (Hint : forall z, P (JInt z))
  (Hstring : forall s, P (JString s))
  (Harray : forall vs, Forall P vs -> P (JArray vs))
  (Hobject : forall ms, Forall (fun m => P m.2) ms -> P (JObject ms)).

Fixpoint jvalue_nested_ind (v : jvalue) : P v :=
  match v with
  | JNull => Hnull
  | JBool b => Hbool b
  | JInt z => Hint z
  | JString s => Hstring s
  | JArray vs =>
      Harray vs ((fix go vs : Forall P vs :=
        match vs with
        | [] => Forall_nil_2 _
        | v :: vs => Forall_cons_2 _ _ _ (jvalue_nested_ind v) (go vs)
        end) vs)
  | JObject ms =>
      Hobject ms ((fix go ms : Forall (fun m => P m.2) ms :=
        match ms with
        | [] => Forall_nil_2 _
        | m :: ms => Forall_cons_2 _ _ _ (jvalue_nested_ind m.2) (go ms)
        end) ms)
  end.
End JvalueInd.

Definition quoted (s : list byte) : list byte := json_write_escaped_string [] s.

(** Comma-separated concatenation. *)
Fixpoint separated (items : list (list byte)) : list byte :=
  match items with
  | [] => []
  | [item] => item
  | item :: items => item ++ str "," ++ separated items
  end.

Fixpoint print (v : jvalue) : list byte :=
  match v with
  | JNull => str "null"
  | JBool b => str (if b then "true" else "false")
  | JInt z => to_chars z
  | JString s => quoted s
  | JArray vs => str "[" ++ separated (print <$> vs) ++ str "]"
  | JObject ms =>
      str "{" ++ separated ((fun m => quoted m.1 ++ str ":" ++ print m.2) <$> ms) ++ str "}"
  end.

Definition print_member (m : list byte * jvalue) : list byte :=
  quoted m.1 ++ str ":" ++ print m.2.

(** The calls a client makes to write a document, stopping at the first [false]. *)
Definition then_call (m k : json_writer -> bool * json_writer) (w : json_writer)
  : bool * json_writer :=
  let '(ok, w) := m w in if ok then k w else (false, w).

Fixpoint all_calls (calls : list (json_writer -> bool * json_writer)) (w : json_writer)
  : bool * json_writer :=
  match calls with
  | [] => (true, w)
  | c :: calls => then_call c (all_calls calls) w
  end.

Fixpoint write_value (v : jvalue) : json_writer -> bool * json_writer :=
  match v with
  | JNull => writer_null
  | JBool b => writer_boolean b
  | JInt z => writer_number z
  | JString s => writer_string s
  | JArray vs =>
      then_call begin_array (then_call (all_calls (write_value <$> vs)) end_array)
  | JObject ms =>
      then_call begin_object
        (then_call
          (all_calls ((fun m => then_call (writer_key m.1) (write_value m.2)) <$> ms))
          end_object)
  end.

(** ** Writing is printing *)

Lemma escaped_fold_app out text :
  foldl json_write_escaped_char out text = out ++ foldl json_write_escaped_char [] text.
Proof.
  revert out. induction text as [|c text IH] using rev_ind; intros out; simpl.
  { by rewrite app_nil_r. }
  rewrite !foldl_app. simpl. rewrite IH. set (m := foldl _ [] text).
  unfold json_write_escaped_char, json_write_u00_escape. simpl.
  repeat case_match; by rewrite <- app_assoc.
Qed.

Lemma escaped_string_app out text :
  json_write_escaped_string out text = out ++ quoted text.
Proof.
  unfold quoted, json_write_escaped_string.
  rewrite (escaped_fold_app (out ++ _)), (escaped_fold_app ([] ++ _)). simpl.
  by rewrite <- !app_assoc.
Qed.

Lemma decimal_digits_length fuel z acc n :
  0 <= z < 10 ^ Z.of_nat n -> (1 <= n)%nat ->
  (length (decimal_digits fuel z acc) <= n + length acc)%nat.
Proof.
  revert z acc n. induction fuel as [|fuel IH]; intros z acc n Hz Hn; simpl; [lia|].
  destruct (Z.ltb_spec z 10); [simpl; lia|].
  destruct n as [|[|n]]; [lia|simpl in Hz; lia|].
  specialize (IH (z / 10) (zb (bz "0"%byte + z mod 10) :: acc) (S n)). simpl length in *.
  assert (0 <= z / 10 < 10 ^ Z.of_nat (S n)); [|specialize (IH H0); lia].
  replace (Z.of_nat (S (S n))) with (Z.of_nat (S n) + 1) in Hz by lia.
  rewrite Z.pow_add_r in Hz by lia. change (10 ^ 1) with 10 in Hz.
  split; [apply Z.div_pos; lia|apply Z.div_lt_upper_bound; lia].
Qed.

Lemma to_chars_fits z : - 2 ^ 63 <= z < 2 ^ 64 -> (length (to_chars z) <= 32)%nat.
Proof.
  intros Hz. unfold to_chars, decimal. destruct (Z.ltb_spec z 0); simpl length.
  - pose proof (decimal_digits_length (S (Z.to_nat (Z.log2 (- z)))) (- z) [] 20).
    simpl length in *. lia.
  - pose proof (decimal_digits_length (S (Z.to_nat (Z.log2 z))) z [] 20).
    simpl length in *. lia.
Qed.

(** A position of the document where a value may be written. *)
Definition ready (w : json_writer) : Prop :=
  valid_state w = true /\
  match stack w with
  | [] => root_written w = false
  | top :: _ => frame_kind top = container_object -> expect_key top = false
  end.

(** The writer after a value with text [t] was written there. *)
Definition written (t : list byte) (w : json_writer) : json_writer :=
  match stack w with
  | [] => JsonWriter (output w ++ t) [] true true
  | top :: rest =>
      JsonWriter
        (output w ++
          (if bool_decide (frame_kind top = container_array) && has_content top
           then str "," else []) ++ t)
        (Frame (frame_kind top) true
           (if bool_decide (frame_kind top = container_object) then true else expect_key top)
         :: rest) (root_written w) true
  end.

(** [begin_value] at a ready position only adds the separator. *)
Lemma begin_value_ready w :
  ready w -> exists sep w1, begin_value w = (true, w1) /\
    w1 = JsonWriter (output w ++ sep) (stack w)
           (match stack w with [] => true | _ => root_written w end) true /\
    sep = match stack w with
          | [] => []
          | top :: _ => if bool_decide (frame_kind top = container_array) && has_content top
                        then str "," else []
          end.
Proof.
  intros [Hv Hr]. destruct w as [out st root valid]. simpl in *. subst valid.
  unfold begin_value. simpl. destruct st as [|[k h e] st]; simpl in *.
  - subst root. eexists [], _. split; [done|]. by rewrite app_nil_r.
  - destruct k; simpl in *.
    + rewrite Hr by done. eexists [], _. split; [done|]. by rewrite app_nil_r.
    + destruct h; [by eexists (str ","), _|]. eexists [], _. split; [done|].
      by rewrite app_nil_r.
Qed.

Lemma primitive_ready t w : ready w -> primitive t w = (true, written t w).
Proof.
  intros Hw. destruct (begin_value_ready w Hw) as (sep & w1 & Hb & -> & Hsep).
  unfold primitive. rewrite Hb. simpl. f_equal. unfold finish_value, written. simpl.
  destruct (stack w) as [|top rest]; rewrite Hsep; simpl; [by rewrite app_nil_r|].
  unfold set_stack, push. simpl. by rewrite <- app_assoc.
Qed.

(** Integers that every integral instantiation of [number] can hold. *)
Fixpoint ints_fit (v : jvalue) : Prop :=
  match v with
  | JInt z => - 2 ^ 63 <= z < 2 ^ 64
  | JArray vs => foldr (fun v P => ints_fit v /\ P) True vs
  | JObject ms => foldr (fun m P => ints_fit m.2 /\ P) True ms
  | _ => True
  end.

Definition writes (v : jvalue) : Prop :=
  forall w, ready w -> ints_fit v -> write_value v w = (true, written (print v) w).

Lemma array_calls vs out st root h :
  Forall writes vs -> foldr (fun v P => ints_fit v /\ P) True vs ->
  all_calls (write_value <$> vs) (JsonWriter out (Frame container_array h false :: st) root true)
  = (true, JsonWriter
      (out ++ (match vs with [] => [] | _ => if h then str "," else [] end) ++
         separated (print <$> vs))
      (Frame container_array (h || negb (bool_decide (vs = []))) false :: st) root true).
Proof.
  intros Hw. revert out h. induction Hw as [|v vs Hv _ IH]; intros out h Hi; simpl.
  { by rewrite app_nil_r, orb_false_r. }
  destruct Hi as [Hi Hrest]. unfold then_call. rewrite Hv by done.
  unfold written. simpl. rewrite IH by done. rewrite orb_true_r. simpl.
  do 2 f_equal. destruct vs; simpl; by rewrite ?app_nil_r, <- ?app_assoc.
Qed.

Definition member_call (m : list byte * jvalue) : json_writer -> bool * json_writer :=
  then_call (writer_key m.1) (write_value m.2).

Lemma object_calls ms out st root h :
  Forall (fun m => writes m.2) ms -> foldr (fun m P => ints_fit m.2 /\ P) True ms ->
  all_calls (member_call <$> ms) (JsonWriter out (Frame container_object h true :: st) root true)
  = (true, JsonWriter
      (out ++ (match ms with [] => [] | _ => if h then str "," else [] end) ++
         separated (print_member <$> ms))
      (Frame container_object (h || negb (bool_decide (ms = []))) true :: st) root true).
Proof.
  intros Hw. revert out h. induction Hw as [|[k v] ms Hv _ IH]; intros out h Hi; simpl.
  { by rewrite app_nil_r, orb_false_r. }
  destruct Hi as [Hi Hrest]. unfold then_call at 1. unfold member_call at 1, then_call at 1.
  unfold writer_key.
  destruct h; simpl; rewrite escaped_string_app, Hv by done; unfold written; simpl;
    rewrite IH by done; simpl; do 2 f_equal; unfold print_member; simpl;
    destruct ms; simpl; by rewrite ?app_nil_r, <- ?app_assoc.
Qed.

Lemma write_value_writes v : writes v.
Proof.
  induction v as [|b|z|s|vs IH|ms IH] using jvalue_nested_ind; intros w Hw Hi;
    simpl write_value.
  - by apply primitive_ready.
  - by apply primitive_ready.
  - unfold writer_number. destruct (begin_value_ready w Hw) as (sep & w1 & -> & -> & ->).
    simpl negb. cbn iota. unfold push_integer.
    pose proof (to_chars_fits z Hi). destruct (Nat.ltb_spec 32 (length (to_chars z))); [lia|].
    simpl. f_equal. unfold finish_value, written, set_stack, push. simpl.
    by destruct (stack w); simpl; rewrite ?app_nil_r, <- ?app_assoc.
  - unfold writer_string. destruct (begin_value_ready w Hw) as (sep & w1 & -> & -> & ->).
    simpl. f_equal. unfold finish_value, written, set_stack. simpl.
    rewrite escaped_string_app.
    by destruct (stack w); simpl; rewrite ?app_nil_r, <- ?app_assoc.
  - unfold then_call, begin_array.
    destruct (begin_value_ready w Hw) as (sep & w1 & -> & -> & ->). simpl.
    unfold set_stack, push. simpl. rewrite array_calls by done. simpl.
    unfold end_array. simpl. unfold finish_value, written, set_stack, push. simpl.
    by destruct (stack w), vs; simpl; rewrite ?app_nil_r, <- ?app_assoc.
  - change (print (JObject ms)) with (str "{" ++ separated (print_member <$> ms) ++ str "}").
    unfold then_call, begin_object.
    destruct (begin_value_ready w Hw) as (sep & w1 & -> & -> & ->). simpl.
    unfold set_stack, push. simpl. pose proof (object_calls ms) as Ho.
    unfold member_call, then_call in Ho. rewrite Ho by done. simpl.
    unfold end_object. simpl. unfold finish_value, written, set_stack, push. simpl.
    by destruct (stack w), ms; simpl; rewrite ?app_nil_r, <- ?app_assoc.
Qed.

(** ** Any sequence of calls *)

Inductive writer_call :=
| call_begin_object | call_end_object | call_begin_array | call_end_array
| call_key (k : list byte) | call_null | call_boolean (b : bool)
| call_number (z : Z) | call_string (s : list byte) | call_clear.

Definition apply_call (c : writer_call) (w : json_writer) : bool * json_writer :=
  match c with
  | call_begin_object => begin_object w
  | call_end_object => end_object w
  | call_begin_array => begin_array w
  | call_end_array => end_array w
  | call_key k => writer_key k w
  | call_null => writer_null w
  | call_boolean b => writer_boolean b w
  | call_number z => writer_number z w
  | call_string s => writer_string s w
  | call_clear => (true, writer_clear w)
  end.

(** The writer after the calls, whatever they returned. *)
Definition after_calls (calls : list writer_call) : json_writer :=
  foldl (fun w c => (apply_call c w).2) new_writer calls.

(** Containers that are still open, with what they hold so far. *)
Inductive open_container :=
| open_array (vs : list jvalue)
| open_object (ms : list (list byte * jvalue)) (pending : option (list byte)).

Definition nonempty {A} (l : list A) : bool := match l with [] => false | _ => true end.
Definition comma_if (b : bool) : list byte := if b then str "," else [].

Definition frame_of (p : open_container) : frame :=
  match p with
  | open_array vs => Frame container_array (nonempty vs) false
  | open_object ms None => Frame container_object (nonempty ms) true
  | open_object ms (Some _) => Frame container_object (nonempty ms) false
  end.

Definition open_text (p : open_container) : list byte :=
  match p with
  | open_array vs => str "[" ++ separated (print <$> vs)
  | open_object ms None => str "{" ++ separated (print_member <$> ms)
  | open_object ms (Some k) =>
      str "{" ++ separated (print_member <$> ms) ++ comma_if (nonempty ms) ++ quoted k ++ str ":"
  end.

(** The text of a container at the point where its next value begins. *)
Definition value_prefix (p : open_container) : list byte :=
  match p with
  | open_array vs => open_text p ++ comma_if (nonempty vs)
  | _ => open_text p
  end.

Definition takes_value (p : open_container) : bool :=
  match p with open_object _ None => false | _ => true end.

Definition add_value (v : jvalue) (p : open_container) : open_container :=
  match p with
  | open_array vs => open_array (vs ++ [v])
  | open_object ms (Some k) => open_object (ms ++ [(k, v)]) None
  | open_object ms None => p
  end.

Definition enclosing_text (ps : list open_container) : list byte :=
  mjoin (value_prefix <$> reverse ps).

(** What a valid writer holds. *)
Inductive holds : json_writer -> Prop :=
| holds_nothing : holds (JsonWriter [] [] false true)
| holds_document v : holds (JsonWriter (print v) [] true true)
| holds_open p ps :
    Forall (fun p => takes_value p = true) ps ->
    holds (JsonWriter (enclosing_text ps ++ open_text p) (frame_of <$> p :: ps) true true).

Lemma separated_snoc l x :
  separated (l ++ [x]) = separated l ++ comma_if (nonempty l) ++ x.
Proof.
  induction l as [|y l IH]; simpl; [done|].
  destruct l as [|z l]; [done|].
  cbn [app]. cbn [app] in IH. rewrite IH. simpl. by rewrite <- !app_assoc.
Qed.

Lemma nonempty_fmap {A B} (f : A -> B) l : nonempty (f <$> l) = nonempty l.
Proof. by destruct l. Qed.

Lemma nonempty_snoc {A} (l : list A) x : nonempty (l ++ [x]) = true.
Proof. by destruct l. Qed.

Lemma add_value_text v p :
  takes_value p = true -> open_text (add_value v p) = value_prefix p ++ print v.
Proof.
  destruct p as [vs|ms [k|]]; intros Ht; [| |done]; simpl.
  - rewrite fmap_app. simpl. rewrite separated_snoc, nonempty_fmap. by rewrite <- !app_assoc.
  - rewrite fmap_app. simpl. rewrite separated_snoc, nonempty_fmap.
    unfold print_member at 2. simpl. by rewrite <- !app_assoc.
Qed.

Lemma enclosing_snoc p ps : enclosing_text (p :: ps) = enclosing_text ps ++ value_prefix p.
Proof.
  unfold enclosing_text. rewrite reverse_cons, fmap_app, join_app. simpl. by rewrite app_nil_r.
Qed.

(** Adding the finished value [v] to the innermost open container, whose
    separator is already written. *)
Lemma holds_add v ps :
  Forall (fun p => takes_value p = true) ps ->
  holds (finish_value (JsonWriter (enclosing_text ps ++ print v) (frame_of <$> ps) true true)).
Proof.
  intros Hps. destruct ps as [|p ps]; [apply holds_document|].
  apply Forall_cons in Hps as [Hp Hps].
  rewrite enclosing_snoc, <- app_assoc, <- add_value_text by done.
  pose proof (holds_open (add_value v p) ps Hps) as H.
  replace (finish_value _) with
    (JsonWriter (enclosing_text ps ++ open_text (add_value v p))
       (frame_of <$> add_value v p :: ps) true true); [done|].
  unfold finish_value, set_stack. simpl. do 2 f_equal.
  destruct p as [vs|ms [k|]]; simpl; by rewrite ?nonempty_snoc.
Qed.

(** [begin_value] either leaves an invalid writer or writes the separator. *)
Lemma begin_value_holds w ok w1 :
  holds w -> begin_value w = (ok, w1) ->
  if ok then exists ps, Forall (fun p => takes_value p = true) ps /\
    w1 = JsonWriter (enclosing_text ps) (frame_of <$> ps) true true
  else valid_state w1 = false.
Proof.
  intros Hw H. destruct Hw as [|v|p ps Hps].
  - injection H as <- <-. by exists [].
  - injection H as <- <-. done.
  - unfold begin_value in H. simpl in H.
    destruct p as [vs|ms [k|]]; simpl in H; injection H as <- <-; [| |done].
    + exists (open_array vs :: ps). split; [by constructor|].
      rewrite enclosing_snoc. unfold push. simpl.
      destruct (nonempty vs); simpl; by rewrite ?app_nil_r, <- ?app_assoc.
    + exists (open_object ms (Some k) :: ps). split; [by constructor|].
      by rewrite enclosing_snoc.
Qed.

Definition valid_holds (w : json_writer) : Prop := valid_state w = true -> holds w.

(** A scalar call: [begin_value], the text of a value, [finish_value]. *)
Lemma scalar_call_holds v w :
  valid_holds w ->
  valid_holds (let '(ok, w) := begin_value w in
    if negb ok then (false, w) else (true, finish_value (push (print v) w))).2.
Proof.
  intros Hw. destruct (begin_value w) as [ok w1] eqn:E.
  destruct (valid_state w) eqn:Ev.
  - pose proof (begin_value_holds _ _ _ (Hw Ev) E) as H. destruct ok; simpl.
    + destruct H as (ps & Hps & ->). intros _. by apply holds_add.
    + intros Hv. congruence.
  - unfold begin_value in E. rewrite Ev in E. injection E as <- <-. simpl. intros Hv. congruence.
Qed.

Lemma open_call_holds p w (c : list byte) :
  open_text p = c -> valid_holds w ->
  valid_holds (let '(ok, w) := begin_value w in
    if negb ok then (false, w)
    else let w := push c w in (true, set_stack (frame_of p :: stack w) w)).2.
Proof.
  intros <- Hw. destruct (begin_value w) as [ok w1] eqn:E.
  destruct (valid_state w) eqn:Ev.
  - pose proof (begin_value_holds _ _ _ (Hw Ev) E) as H. destruct ok; simpl.
    + destruct H as (ps & Hps & ->). intros _. by apply (holds_open p).
    + intros Hv. congruence.
  - unfold begin_value in E. rewrite Ev in E. injection E as <- <-. simpl. intros Hv. congruence.
Qed.

Lemma apply_call_holds c w : valid_holds w -> valid_holds (apply_call c w).2.
Proof.
  intros Hw. destruct c as [| | | |k| |b|z|s|]; simpl.
  - by apply (open_call_holds (open_object [] None)).
  - unfold end_object. destruct (stack w) as [|top rest] eqn:Es; [done|].
    destruct (_ || _) eqn:Eg; [done|]. simpl. intros Hv.
    assert (valid_state w = true) as Hv'.
    { revert Hv. unfold finish_value. simpl. by destruct rest. }
    destruct (Hw Hv') as [| |p ps Hps]; simplify_eq/=.
    destruct p as [vs|ms [k|]]; simpl in Eg; try discriminate Eg.
    pose proof (holds_add (JObject ms) ps Hps) as H.
    unfold set_stack, push. simpl. rewrite <- app_assoc.
    exact H.
  - by apply (open_call_holds (open_array [])).
  - unfold end_array. destruct (stack w) as [|top rest] eqn:Es; [done|].
    destruct (negb _) eqn:Eg; [done|]. simpl. intros Hv.
    assert (valid_state w = true) as Hv'.
    { revert Hv. unfold finish_value. simpl. by destruct rest. }
    destruct (Hw Hv') as [| |p ps Hps]; simplify_eq/=.
    destruct p as [vs|ms [k|]]; simpl in Eg; try discriminate Eg.
    pose proof (holds_add (JArray vs) ps Hps) as H.
    unfold set_stack, push. simpl. by rewrite <- app_assoc.
  - unfold writer_key. destruct (stack w) as [|top rest] eqn:Es; [done|].
    destruct (_ || _) eqn:Eg; [done|]. simpl. intros Hv.
    assert (valid_state w = true) as Hv' by by destruct (has_content top).
    destruct (Hw Hv') as [| |p ps Hps]; simplify_eq/=.
    destruct p as [vs|ms [k'|]]; simpl in Eg; try discriminate Eg. simpl.
    pose proof (holds_open (open_object ms (Some k)) ps Hps) as H.
    unfold set_stack, push. simpl. simpl in H.
    destruct (nonempty ms); simpl; rewrite escaped_string_app;
      simpl in H; by rewrite <- ?app_assoc in *.
  - by apply (scalar_call_holds JNull).
  - by apply (scalar_call_holds (JBool b)).
  - pose proof (scalar_call_holds (JInt z) w Hw) as H. unfold writer_number.
    destruct (begin_value w) as [[|] w1]; simpl in *; [|done].
    unfold push_integer. by destruct (32 <? _)%nat.
  - pose proof (scalar_call_holds (JString s) w Hw) as H. unfold writer_string.
    destruct (begin_value w) as [[|] w1]; simpl in *; [|done].
    rewrite escaped_string_app. done.
  - intros _. apply holds_nothing.
Qed.

Lemma after_calls_holds calls : valid_holds (after_calls calls).
Proof.
  unfold after_calls. assert (valid_holds new_writer) as H by (intros _; apply holds_nothing).
  revert H. generalize new_writer. induction calls as [|c calls IH]; intros w Hw; [done|].
  simpl. by apply IH, apply_call_holds.
Qed.

Lemma complete_is_print calls :
  writer_complete (after_calls calls) = true -> exists v, output (after_calls calls) = print v.
Proof.
  intros H. unfold writer_complete in H. unbool.
  destruct (after_calls_holds calls); [done|done|by eexists|done].
Qed.

(** Writing a document with the member and element calls succeeds and leaves
    exactly its compact text in a complete writer. *)
Theorem write_value_prints (v : jvalue) :
  ints_fit v ->
  write_value v new_writer = (true, JsonWriter (print v) [] true true) /\
  writer_complete (JsonWriter (print v) [] true true) = true.
Proof. intros Hv. split; [|done]. by apply (write_value_writes v new_writer). Qed.

Lemma write_value_prints_witness :
  (write_value (JArray [JInt (-7); JObject [(str "k", JNull)]]) new_writer).2
  = JsonWriter (str "[-7,{" ++ [x22] ++ str "k" ++ [x22] ++ str ":null}]") [] true true.
Proof.
  rewrite (proj1 (write_value_prints (JArray [JInt (-7); JObject [(str "k", JNull)]])
    ltac:(simpl; lia))). vm_compute. done.
Defined.

(** After any sequence of calls, in any order and whatever they returned, a
    writer that reports itself complete holds the text of one document. *)
Theorem complete_output_is_document (calls : list writer_call) :
  writer_complete (after_calls calls) = true ->
  exists v, output (after_calls calls) = print v.
Proof. apply complete_is_print. Qed.

Lemma complete_output_is_document_witness :
  exists v, output (after_calls [call_begin_array; call_null; call_end_array]) = print v.
Proof. apply complete_output_is_document. vm_compute. done. Defined.
