(* ===== verification/JsonRoundtrip.v ===== *)
(** The JSON reader and writer together: a printed document parses back to
    exactly the events of its content, whatever calls the writer printed it
    from, and every integer is read back as the number that was written. *)

From S2P Require Import Prelude JsonText JsonParser JsonWriter.

Local Open Scope Z_scope.
Local Open Scope parser_scope.

(** ** The printed forms *)

Definition escaped (bytes : list byte) : list byte := foldl json_write_escaped_char [] bytes.

Lemma quoted_escaped bytes : quoted bytes = x22 :: escaped bytes ++ [x22].
Proof. unfold quoted, json_write_escaped_string. by rewrite escaped_fold_app. Qed.

Lemma escaped_app a b : escaped (a ++ b) = escaped a ++ escaped b.
Proof. unfold escaped. rewrite foldl_app. apply escaped_fold_app. Qed.

Lemma is_char_below b l : bz l < 0x80 -> 0x80 <= bz b -> is_char b l = false.
Proof. intros. apply Z.eqb_neq. lia. Qed.

Lemma escaped_high bytes : Forall (fun b => 0x80 <= bz b) bytes -> escaped bytes = bytes.
Proof.
  induction 1 as [|b bytes Hb _ IH]; [done|].
  change (b :: bytes) with ([b] ++ bytes). rewrite escaped_app, IH. f_equal.
  unfold escaped, json_write_escaped_char. simpl.
  rewrite !is_char_below by (try done; by eapply Z.lt_le_trans).
  by rewrite (proj2 (Z.ltb_ge _ _)) by lia.
Qed.

(** [Forall digit], the value, and no superfluous zero. *)
Lemma digits_value_app acc a b :
  digits_value acc (a ++ b) =
  match digits_value acc a with Some z => digits_value z b | None => None end.
Proof. revert acc. induction a as [|c a IH]; intros acc; simpl; [done|]. by case_match. Qed.

Lemma digit_byte n : 0 <= n < 10 ->
  json_is_digit (zb (bz "0"%byte + n)) = true /\ bz (zb (bz "0"%byte + n)) - bz "0"%byte = n.
Proof.
  intros Hn. change (bz "0"%byte) with 48. unfold json_is_digit. rewrite bz_zb_small by lia.
  change (bz "0"%byte) with 48. change (bz "9"%byte) with 57. split; [|lia].
  apply andb_true_iff. lia.
Qed.

Lemma decimal_digits_spec fuel z acc :
  0 <= z < 10 ^ Z.of_nat fuel ->
  exists ds, decimal_digits fuel z acc = ds ++ acc /\
    Forall (fun c => json_is_digit c = true) ds /\
    (forall k, digits_value k ds = Some (k * 10 ^ Z.of_nat (length ds) + z)) /\
    (0 < z -> ds <> [] /\ head ds <> Some "0"%byte) /\
    (z = 0 -> (1 <= fuel)%nat -> ds = str "0").
Proof.
  revert z acc. induction fuel as [|fuel IH]; intros z acc Hz.
  { exists []. change (10 ^ Z.of_nat 0) with 1 in Hz. assert (z = 0) as -> by lia.
    split_and!; try done; try lia. intros k. simpl. f_equal. lia. }
  pose proof (Z.mod_pos_bound z 10 ltac:(lia)) as Hm.
  destruct (digit_byte (z mod 10) Hm) as [Hd Hv]. simpl.
  destruct (Z.ltb_spec z 10) as [Hl|Hl].
  - rewrite (Z.mod_small z 10) in * by lia. exists [zb (bz "0"%byte + z)]. split_and!.
    + done.
    + by constructor.
    + intros k. simpl digits_value. rewrite Hd, Hv. simpl. f_equal; lia.
    + intros Hp. split; [done|]. simpl. intros [= H]. apply (f_equal bz) in H. lia.
    + intros -> _. done.
  - rewrite Nat2Z.inj_succ, Z.pow_succ_r in Hz by lia.
    destruct (IH (z / 10) (zb (bz "0"%byte + z mod 10) :: acc)) as (ds & -> & Hds & Hk & Hh & _).
    { split; [apply Z.div_pos; lia|apply Z.div_lt_upper_bound; lia]. }
    exists (ds ++ [zb (bz "0"%byte + z mod 10)]).
    destruct Hh as [Hne Hh]; [apply Z.div_str_pos; lia|]. split_and!.
    + by rewrite <- app_assoc.
    + apply Forall_app. by repeat constructor.
    + intros k. rewrite digits_value_app, Hk. simpl. rewrite Hd, Hv. f_equal.
      rewrite length_app. simpl. rewrite Nat2Z.inj_add, Z.pow_add_r by lia.
      pose proof (Z.div_mod z 10). lia.
    + intros _. by destruct ds.
    + lia.
Qed.

Definition decimal_text (ds : list byte) : Prop :=
  ds = str "0" \/ digits ds /\ head ds <> Some "0"%byte.

Lemma decimal_spec z :
  0 <= z -> decimal_text (decimal z) /\ digits (decimal z) /\
    digits_value 0 (decimal z) = Some z.
Proof.
  intros Hz. unfold decimal.
  destruct (decimal_digits_spec (S (Z.to_nat (Z.log2 z))) z []) as (ds & -> & Hd & Hv & Hp & H0).
  { split; [done|]. rewrite Nat2Z.inj_succ, Z2Nat.id by apply Z.log2_nonneg.
    destruct (decide (z = 0)) as [->|]; [done|].
    pose proof (Z.log2_spec z ltac:(lia)). pose proof (Z.pow_le_mono_l 2 10 (Z.succ (Z.log2 z))).
    lia. }
  rewrite app_nil_r. specialize (Hv 0). rewrite Z.mul_0_l, Z.add_0_l in Hv.
  destruct (decide (z = 0)) as [E|E].
  - rewrite (H0 E ltac:(lia)) in *. split_and!; [by left|split; [done|by repeat constructor]|done].
  - destruct (Hp ltac:(lia)). split_and!; [right|..]; done.
Qed.

Lemma from_to_chars T z :
  representable T z = true -> (z < 0 -> is_signed T = true) -> from_chars T (to_chars z) = Some z.
Proof.
  intros Hr Hs. unfold to_chars, from_chars. destruct (Z.ltb_spec z 0).
  - destruct (decimal_spec (- z)) as (_ & [Hne _] & Hv); [lia|].
    rewrite Hs by done. simpl. rewrite Hv. destruct (decimal (- z)) eqn:E; [done|].
    simpl. by rewrite Z.opp_involutive, Hr.
  - destruct (decimal_spec z) as (_ & [Hne Hd] & Hv); [lia|].
    destruct (decimal z) as [|c l] eqn:E; [done|].
    assert (is_char c "-" = false) as ->.
    { apply Forall_cons in Hd as [Hd _]. destruct (is_char c "-") eqn:Ec; [|done].
      apply is_char_spec in Ec as ->. done. }
    simpl andb. cbn iota. by rewrite Hv, Hr.
Qed.

(** ** Reading the printed forms *)

Lemma carries_app text o a b :
  carries text o (a ++ b) <-> carries text o a /\ carries text (o + length a) b.
Proof.
  unfold carries. rewrite length_app. split.
  - intros [Hl H]. split; (split; [lia|]); intros i Hi.
    + rewrite H by lia. rewrite !list_lookup_total_alt. by rewrite lookup_app_l.
    + replace (o + length a + i)%nat with (o + (length a + i))%nat by lia.
      rewrite H by lia. rewrite !list_lookup_total_alt. by rewrite lookup_app_r, Nat.add_comm,
        Nat.add_sub by lia.
  - intros [[Hl1 H1] [Hl2 H2]]. split; [lia|]. intros i Hi.
    destruct (decide (i < length a)%nat).
    + rewrite H1 by done. rewrite !list_lookup_total_alt. by rewrite lookup_app_l.
    + replace (o + i)%nat with (o + length a + (i - length a))%nat by lia.
      rewrite H2 by lia. rewrite !list_lookup_total_alt. by rewrite (lookup_app_r a) by lia.
Qed.

Lemma carries_cons text o b l :
  carries text o (b :: l) <-> carries text o [b] /\ carries text (S o) l.
Proof. change (b :: l) with ([b] ++ l). rewrite carries_app. simpl. by rewrite Nat.add_1_r. Qed.

Lemma carries_one text o b : carries text o [b] -> (o < length text)%nat /\ at_ text o = b.
Proof.
  intros H. split; [destruct H; simpl in *; lia|].
  pose proof (carries_at text o [b] 0 b H eq_refl) as E. by rewrite Nat.add_0_r in E.
Qed.

Lemma carries_uncons text o b l :
  carries text o (b :: l) -> (o < length text)%nat /\ at_ text o = b /\ carries text (S o) l.
Proof. rewrite carries_cons. intros [H ?]. apply carries_one in H as []. done. Qed.

(** Takes the bytes of a carried list literal apart. *)
Ltac carried_bytes :=
  repeat match goal with
  | H : carries _ _ (_ :: _) |- _ => apply carries_uncons in H as (? & ? & H)
  end.

(** Membership in a list literal. *)
Ltac in_list := by repeat first [apply list_elem_of_here | apply list_elem_of_further].

(** Evaluates the byte tests on known bytes. *)
Ltac eval_bytes :=
  repeat match goal with
  | |- context [is_char ?a ?b] =>
      let v := eval vm_compute in (is_char a b) in
      lazymatch v with true => idtac | false => idtac end;
      change (is_char a b) with v
  | |- context [json_hex_value ?a] =>
      let v := eval vm_compute in (json_hex_value a) in
      lazymatch v with json_hex_value _ => fail | match _ with _ => _ end => fail | _ => idtac end;
      change (json_hex_value a) with v
  end; cbn iota.

Section Reading.
Context (text : list byte).
Abbreviation size := (size text).

Definition shifted (n : nat) (added : list byte) (s : parser) : parser :=
  at_position (position s + n) (set_scratch (scratch s ++ added) s).

(** One round of the string loop on an escape sequence of two characters. *)
Lemma read_short fuel s c b :
  carries text (position s) ["\"%byte; c] ->
  (c, b) ∈ [(x22, x22); ("\"%byte, "\"%byte); ("b"%byte, x08); ("f"%byte, x0c);
            ("n"%byte, x0a); ("r"%byte, x0d); ("t"%byte, x09)] ->
  string_loop text (S fuel) s = string_loop text fuel (shifted 2 [b] s).
Proof.
  intros Hc Hin. carried_bytes. assert (size = length text) as Hsz by done.
  cbn [string_loop]. rewrite (proj2 (Nat.leb_gt _ _)), H0 by lia. eval_bytes.
  change (bz "\" <? 32) with false. cbn iota. cbn [position at_position].
  rewrite (proj2 (Nat.leb_gt _ _)), H2 by lia.
  unfold shifted. rewrite Nat.add_comm. simpl.
  repeat (apply elem_of_cons in Hin as [Hin|Hin]; [injection Hin as -> ->; eval_bytes; done|]).
  by apply elem_of_nil in Hin.
Qed.

Lemma read_u00 fuel s b :
  bz b < 0x20 -> clean text s -> carries text (position s) (json_write_u00_escape [] b) ->
  string_loop text (S fuel) s = string_loop text fuel (shifted 6 [b] s).
Proof.
  intros Hb [Hr _] Hc. unfold json_write_u00_escape in Hc. simpl in Hc. carried_bytes.
  assert (size = length text) as Hsz by done. destruct s as [pos res scr lg]. simpl in *.
  cbn [string_loop position]. rewrite (proj2 (Nat.leb_gt _ _)), H0 by lia. eval_bytes.
  change (bz "\" <? 32) with false. cbn iota. cbn [position at_position].
  rewrite (proj2 (Nat.leb_gt _ _)), H2 by lia. eval_bytes.
  unfold and_then, parse_unicode_escape, parse_hex4. cbn [position at_position result scratch log].
  rewrite (proj2 (Nat.ltb_ge _ _)) by lia.
  unfold shifted. cbn [hex4_loop position at_position result scratch log].
  rewrite H4, H6, H8, H10. replace (pos + 6)%nat with (S (S (S (S (S (S pos)))))) by lia.
  destruct b; first [discriminate Hb | reflexivity].
Qed.

(** Bytes the escaper copies. *)
Lemma read_plain fuel s b :
  0x20 <= bz b <= 0x7F -> is_char b x22 = false -> is_char b "\" = false ->
  carries text (position s) [b] ->
  string_loop text (S fuel) s = string_loop text fuel (shifted 1 [b] s).
Proof.
  intros Hb Hq Hs Hc. apply carries_one in Hc as [Hp Hb0]. assert (size = length text) by done.
  cbn [string_loop]. rewrite (proj2 (Nat.leb_gt _ _)), Hb0, Hq, Hs by lia.
  rewrite (proj2 (Z.ltb_ge _ _)), (proj2 (Z.leb_le _ _)) by lia.
  unfold shifted. by rewrite Nat.add_1_r.
Qed.

Lemma read_ascii fuel s b :
  clean text s -> bz b <= 0x7F -> carries text (position s) (escaped [b]) ->
  string_loop text (S fuel) s
  = string_loop text fuel (shifted (length (escaped [b])) [b] s).
Proof.
  intros Hs Hb. unfold escaped. simpl. unfold json_write_escaped_char.
  destruct (is_char b x22) eqn:Eq.
  { apply is_char_spec in Eq as ->. intros. apply (read_short fuel s x22); [done|set_solver]. }
  destruct (is_char b "\") eqn:Es.
  { apply is_char_spec in Es as ->. intros. apply (read_short fuel s "\"); [done|set_solver]. }
  repeat match goal with |- context [is_char b ?l] =>
    let E := fresh "E" in destruct (is_char b l) eqn:E;
      [apply is_char_spec in E as ->; intros; eapply read_short; [done|set_solver]|] end.
  destruct (Z.ltb_spec (bz b) 0x20); intros.
  - by apply read_u00.
  - by apply read_plain.
Qed.

(** A character outside ASCII is copied as it is encoded. *)
Lemma read_wide fuel s cp :
  is_scalar cp -> 0x7F < cp -> carries text (position s) (json_append_utf8 cp []) ->
  string_loop text (S fuel) s
  = string_loop text fuel
      (shifted (length (json_append_utf8 cp [])) (json_append_utf8 cp []) s).
Proof.
  intros Hcp H7 Hc. pose proof (is_scalar_max cp Hcp) as Hm. destruct Hcp as [H0 Hsc].
  rewrite append_utf8_arith in * by lia. simpl app in *.
  pose proof (decode_carried text (position s) cp Hsc H0 Hc) as Hd.
  assert (exists b l, zb <$> utf8_bytes cp = b :: l /\ 0x7F < bz b) as (b & l & Hb & Hb7).
  { unfold utf8_bytes. repeat case_match; unbool; try lia; eexists _, _; (split; [done|]);
      rewrite bz_zb_small; divlia. }
  pose proof (proj2 (proj1 (carries_take _ _ _) Hc)) as Ht. rewrite length_fmap in *.
  pose proof Hc as Hc'. rewrite Hb in Hc'. apply carries_uncons in Hc' as (Hp & Hat & _).
  assert (size = length text) by done.
  cbn [string_loop]. rewrite (proj2 (Nat.leb_gt _ _)), Hat by lia.
  rewrite !(is_char_below b) by (try done; lia).
  rewrite (proj2 (Z.ltb_ge _ _)), (proj2 (Z.leb_gt _ _)) by lia.
  rewrite Hd. cbn [utf8_status utf8_length]. by rewrite Ht.
Qed.

Lemma read_scalar fuel s cp :
  clean text s -> is_scalar cp ->
  carries text (position s) (escaped (json_append_utf8 cp [])) ->
  string_loop text (S fuel) s
  = string_loop text fuel
      (shifted (length (escaped (json_append_utf8 cp []))) (json_append_utf8 cp []) s).
Proof.
  intros Hs Hcp. pose proof (is_scalar_max cp Hcp). destruct (Z.leb_spec cp 0x7F).
  - assert (json_append_utf8 cp [] = [zb cp]) as ->.
    { rewrite append_utf8_arith by done. unfold utf8_bytes. by rewrite (proj2 (Z.leb_le _ _)). }
    intros. apply read_ascii; [done|rewrite bz_zb_small; lia|done].
  - rewrite escaped_high; [by apply read_wide|].
    rewrite append_utf8_arith by done. simpl. apply Forall_fmap.
    unfold utf8_bytes. repeat case_match; unbool; try lia;
      repeat (apply Forall_cons; split); try apply Forall_nil; try done;
      simpl; rewrite bz_zb_small; divlia.
Qed.

Lemma shifted_clean n added s :
  clean text s -> (position s + n <= size)%nat -> clean text (shifted n added s).
Proof. intros [? _] ?. by split. Qed.

Lemma escaped_nonempty bytes : bytes <> [] -> (1 <= length (escaped bytes))%nat.
Proof.
  destruct bytes as [|b l]; [done|]. intros _. change (b :: l) with ([b] ++ l).
  rewrite escaped_app, length_app. unfold escaped at 1. simpl.
  unfold json_write_escaped_char, json_write_u00_escape. repeat case_match; simpl; lia.
Qed.

Lemma read_string cps fuel s :
  clean text s -> Forall is_scalar cps -> (size < position s + fuel)%nat ->
  carries text (position s) (escaped (utf8_encode cps) ++ [x22]) ->
  string_loop text fuel s
  = Some (true, shifted (length (escaped (utf8_encode cps)) + 1) (utf8_encode cps) s).
Proof.
  intros Hs Hcps. revert fuel s Hs. induction Hcps as [|cp cps Hcp _ IH];
    intros fuel s Hs Hf Hc; (destruct fuel as [|fuel]; [destruct Hs; lia|]).
  - apply carries_one in Hc as [Hp Hb]. assert (size = length text) by done.
    cbn [string_loop]. rewrite (proj2 (Nat.leb_gt _ _)), Hb by lia. eval_bytes.
    unfold shifted. simpl. rewrite Nat.add_1_r, app_nil_r. by destruct s.
  - change (utf8_encode (cp :: cps)) with (json_append_utf8 cp [] ++ utf8_encode cps) in *.
    rewrite escaped_app, <- app_assoc in *. apply carries_app in Hc as [Hc1 Hc2].
    assert (json_append_utf8 cp [] <> []) as Hne.
    { pose proof (is_scalar_max cp Hcp). rewrite append_utf8_arith by done. unfold utf8_bytes.
      by repeat case_match. }
    apply escaped_nonempty in Hne. pose proof (proj1 Hc2). assert (size = length text) by done.
    rewrite (read_scalar _ _ cp) by done. rewrite IH.
    + unfold shifted, at_position, set_scratch. simpl. rewrite length_app, <- app_assoc.
      do 3 f_equal. lia.
    + apply shifted_clean; [done|lia].
    + simpl. lia.
    + done.
Qed.

(** ** Tokens *)

(** The end of the text, or a byte that ends a token. *)
Definition stops (p : nat) : Prop :=
  (size <= p)%nat \/ at_ text p ∈ [","%byte; "]"%byte; "}"%byte].

Lemma trivia_none s :
  ((size <= position s)%nat \/
   json_is_space (at_ text (position s)) = false /\ is_char (at_ text (position s)) "/" = false) ->
  trivia text s = Some (true, s).
Proof.
  intros H. unfold trivia. cbn [skip_trivia].
  destruct (Nat.leb_spec size (position s)); [done|]. destruct H as [?|[-> ->]]; [lia|done].
Qed.

Lemma stops_cases p (P : byte -> Prop) :
  stops p -> (p < size)%nat -> P ","%byte -> P "]"%byte -> P "}"%byte -> P (at_ text p).
Proof.
  intros [H|H] Hp; [lia|].
  repeat (apply elem_of_cons in H as [->|H]; [done|]). by apply elem_of_nil in H.
Qed.

Lemma trivia_stops s : stops (position s) -> trivia text s = Some (true, s).
Proof.
  intros H. apply trivia_none. destruct (Nat.lt_ge_cases (position s) size); [right|by left].
  by apply (stops_cases (position s) (fun c => json_is_space c = false /\ is_char c "/" = false)).
Qed.

Lemma read_digits ds p :
  carries text p ds -> Forall (fun c => json_is_digit c = true) ds -> stops (p + length ds) ->
  advance_while text json_is_digit p = (p + length ds)%nat.
Proof.
  unfold advance_while. intros Hc Hd Hst. assert (size = length text) as Hsz by done.
  pose proof (proj1 Hc) as Hl. remember (size - p)%nat as n eqn:En.
  revert n p Hc Hst Hl En. induction Hd as [|c ds Hd0 _ IH]; intros n p Hc Hst Hl En; simpl in *.
  - rewrite Nat.add_0_r in *. destruct n as [|n]; simpl; [done|].
    by rewrite (stops_cases p (fun c => json_is_digit c = false)) by (done || lia).
  - apply carries_uncons in Hc as (Hp & Hb & Hc). destruct n as [|n]; [lia|]. simpl.
    rewrite Hb, Hd0. rewrite IH; [lia|done| |lia..]. by rewrite Nat.add_succ_comm.
Qed.

Definition number_event (o : nat) (token : list byte) : list json_event :=
  [ev_location o (length token); ev_value (ValueView kind_integer token false)].

Lemma consume_not c s :
  ((position s < size)%nat -> is_char (at_ text (position s)) c = false) ->
  consume text c s = (false, s).
Proof.
  intros H. unfold consume. destruct (Nat.ltb_spec (position s) size); [|done].
  by rewrite H.
Qed.

Lemma consume_here c s :
  carries text (position s) [c] -> consume text c s = (true, at_position (S (position s)) s).
Proof.
  intros Hc. apply carries_one in Hc as [Hp Hb]. unfold consume.
  rewrite (proj2 (Nat.ltb_lt _ _)), Hb by done.
  by rewrite (proj2 (is_char_spec _ _) eq_refl).
Qed.

Lemma stops_not c s :
  stops (position s) -> c <> ","%byte -> c <> "]"%byte -> c <> "}"%byte ->
  consume text c s = (false, s).
Proof.
  intros H ???. apply consume_not. intros Hp.
  assert (forall l, c <> l -> is_char l c = false) as Hne.
  { intros l Hl. destruct (is_char l c) eqn:E; [|done]. by apply is_char_spec in E as ->. }
  apply (stops_cases (position s) (fun x => is_char x c = false)); auto.
Qed.

(** The tail of a number with neither fraction nor exponent. *)
Lemma read_number_tail begin token s :
  carries text begin token -> position s = (begin + length token)%nat -> stops (position s) ->
  number_tail text begin s
  = Some (true, Parser (position s) (result s) (scratch s) (log s ++ number_event begin token)).
Proof.
  intros Hc Hp Hst. unfold number_tail. rewrite stops_not by done.
  assert ((position s <? size)%nat && (is_char (at_ text (position s)) "e" ||
    is_char (at_ text (position s)) "E") = false) as ->.
  { destruct (Nat.ltb_spec (position s) size); [|done]. simpl.
    by apply (stops_cases (position s) (fun c => is_char c "e" || is_char c "E" = false)). }
  replace (position s - begin)%nat with (length token) by lia.
  apply carries_take in Hc as [_ ->]. unfold return_true, call, number_event. simpl.
  by rewrite <- app_assoc.
Qed.

(** The digits of a number, after an optional sign. *)
Lemma read_number_digits begin token ds s (R : bool * parser) :
  clean text s -> decimal_text ds -> digits ds -> carries text (position s) ds ->
  carries text begin token -> (position s + length ds = begin + length token)%nat ->
  stops (begin + length token) ->
  R = (true, Parser (begin + length token) (result s) (scratch s)
               (log s ++ number_event begin token)) ->
  (let '(zero, s) := consume text "0" s in
   if zero then
     if (position s <? size)%nat && json_is_digit (at_ text (position s))
     then fail err_invalid_number begin (position s - begin + 1) s
     else number_tail text begin s
   else if (size <=? position s)%nat || negb (json_is_digit (at_ text (position s)))
   then fail err_invalid_number begin (Nat.max (position s - begin) 1) s
   else number_tail text begin
          (at_position (advance_while text json_is_digit (position s)) s)) = Some R.
Proof.
  intros Hs Hz Hd Hc Ht Hp Hst ->. destruct Hz as [->|[_ Hh]].
  - rewrite consume_here by done. simpl position. simpl length in Hp.
    assert ((S (position s) <? size)%nat && json_is_digit (at_ text (S (position s))) = false)
      as ->.
    { destruct (Nat.ltb_spec (S (position s)) size); [|done]. simpl.
      replace (begin + length token)%nat with (S (position s)) in Hst by lia.
      by apply (stops_cases (S (position s)) (fun c => json_is_digit c = false)). }
    rewrite (read_number_tail begin token); simpl;
      replace (S (position s)) with (begin + length token)%nat by lia; done.
  - destruct Hd as [Hne Hd]. destruct ds as [|c ds]; [done|].
    pose proof (carries_uncons _ _ _ _ Hc) as (Hps & Hat & _). assert (size = length text) by done.
    rewrite consume_not.
    2: { intros _. rewrite Hat. destruct (is_char c "0") eqn:E; [|done].
         by apply is_char_spec in E as ->. }
    rewrite Hat, (proj2 (Nat.leb_gt _ _)) by lia.
    rewrite (proj1 (proj1 (Forall_cons _ _ _) Hd)). simpl orb. cbn iota.
    rewrite (read_digits (c :: ds)) by (done || by rewrite Hp). rewrite Hp.
    by apply (read_number_tail begin token (at_position (begin + length token) s)).
Qed.

Lemma read_number z s :
  clean text s -> carries text (position s) (to_chars z) ->
  stops (position s + length (to_chars z)) ->
  parse_number text s
  = Some (true, Parser (position s + length (to_chars z)) (result s) (scratch s)
                  (log s ++ number_event (position s) (to_chars z))).
Proof.
  intros Hs Hc Hst. unfold parse_number. set (begin := position s) in *.
  pose proof Hc as Ht. unfold to_chars in Hc. destruct (Z.ltb_spec z 0).
  - destruct (decimal_spec (- z) ltac:(lia)) as (Hz & Hd & _).
    assert (length (to_chars z) = S (length (decimal (- z)))) as Hl.
    { unfold to_chars. by rewrite (proj2 (Z.ltb_lt _ _)). }
    apply carries_cons in Hc as [Hm Hc]. rewrite consume_here by done.
    pose proof (proj1 Hc) as Hlen. assert (size = length text) by done.
    assert (1 <= length (decimal (- z)))%nat
      by (destruct Hd as [Hne _]; destruct (decimal (- z)); simpl; [done|lia]).
    cbn [position at_position]. rewrite (proj2 (Nat.leb_gt _ _)) by lia. simpl andb. cbn iota.
    apply (read_number_digits begin (to_chars z) (decimal (- z)));
      simpl; try done; [apply clean_at; [done|lia]|lia].
  - destruct (decimal_spec z ltac:(lia)) as (Hz & Hd & _).
    assert (to_chars z = decimal z) as Hl.
    { unfold to_chars. by rewrite (proj2 (Z.ltb_ge _ _)). }
    rewrite consume_not.
    2: { intros _. destruct Hd as [Hne Hd]. destruct (decimal z) as [|c l]; [done|].
         apply carries_uncons in Hc as (_ & Hat & _). fold begin. rewrite Hat.
         apply Forall_cons in Hd as [Hd _].
         destruct (is_char c "-") eqn:E; [|done]. by apply is_char_spec in E as ->. }
    simpl andb. cbn iota.
    apply (read_number_digits begin (to_chars z) (decimal z)); try done. by rewrite Hl.
Qed.
End Reading.

(** ** Documents *)

Section Items.
Context (events : nat -> jvalue -> list json_event).

Fixpoint elements_at (o : nat) (vs : list jvalue) : list json_event :=
  match vs with
  | [] => []
  | v :: vs => events o v ++ elements_at (o + length (print v) + 1) vs
  end.

Fixpoint members_at (o : nat) (ms : list (list byte * jvalue)) : list json_event :=
  match ms with
  | [] => []
  | m :: ms =>
      [ev_location o (length (quoted m.1)); ev_key m.1] ++
      events (o + length (quoted m.1) + 1)%nat m.2 ++
      members_at (o + length (print_member m) + 1) ms
  end.
End Items.

(** The handler calls for the text of [v] at offset [o]. *)
Fixpoint events_at (o : nat) (v : jvalue) : list json_event :=
  match v with
  | JNull => [ev_location o 4; ev_value (ValueView kind_null_value [] false)]
  | JBool b =>
      [ev_location o (if b then 4 else 5); ev_value (ValueView kind_boolean [] b)]
  | JInt z => number_event o (to_chars z)
  | JString s => [ev_location o (length (quoted s)); ev_value (ValueView kind_string s false)]
  | JArray vs =>
      [ev_location o 1; ev_array_begin] ++ elements_at events_at (S o) vs ++ [ev_array_end]
  | JObject ms =>
      [ev_location o 1; ev_object_begin] ++ members_at events_at (S o) ms ++ [ev_object_end]
  end.

(** Documents within the limits of the parser, at depth [d]: every string is
    valid UTF-8 and containers nest at most [max_depth] deep. *)
Fixpoint readable (d : nat) (v : jvalue) : Prop :=
  match v with
  | JString s => valid_utf8 s
  | JArray vs => (d < max_depth)%nat /\ foldr (fun v P => readable (S d) v /\ P) True vs
  | JObject ms =>
      (d < max_depth)%nat /\
      foldr (fun m P => (valid_utf8 m.1 /\ readable (S d) m.2) /\ P) True ms
  | _ => True
  end.

Section Documents.
Context (text : list byte).
Abbreviation size := (JsonParser.size text).

(** [m] at [s] consumes [n] bytes and delivers [evs]. *)
Definition reads (m : method) (s : parser) (n : nat) (evs : list json_event) : Prop :=
  exists scr, m s = Some (true, Parser (position s + n) no_error scr (log s ++ evs)).

Definition value_reads (v : jvalue) : Prop :=
  forall fuel d s, clean text s -> carries text (position s) (print v) ->
    stops text (position s + length (print v)) -> readable d v ->
    (d <= max_depth)%nat -> (max_depth < d + fuel)%nat ->
    reads (parse_value text fuel d) s (length (print v)) (events_at (position s) v).

Lemma read_quoted s str :
  clean text s -> valid_utf8 str -> carries text (position s) (quoted str) ->
  parse_decoded_string text s
  = Some (true, Parser (position s + length (quoted str)) no_error str (log s)).
Proof.
  intros Hs (cps & Hcps & ->) Hc. rewrite quoted_escaped in *.
  apply carries_cons in Hc as [Hq Hc]. unfold parse_decoded_string.
  rewrite consume_here by done. simpl negb. cbn iota.
  pose proof (proj1 Hc) as Hlen. assert (size = length text) by done.
  rewrite (read_string text cps); simpl; try done; [|destruct Hs; split; [done|simpl; lia]|lia].
  unfold shifted, at_position, set_scratch. simpl. rewrite length_app. simpl.
  rewrite (proj1 Hs). do 3 f_equal. lia.
Qed.

Lemma read_literal s literal v :
  clean text s -> carries text (position s) literal ->
  reads (parse_literal text literal v) s (length literal)
    [ev_location (position s) (length literal); ev_value v].
Proof.
  intros [Hr _] Hc. apply carries_take in Hc as [_ Hc]. eexists.
  unfold parse_literal. rewrite Hc, bool_decide_true by done.
  unfold return_true, call. simpl. rewrite Hr, <- app_assoc. done.
Qed.

(** [parse_value] looks at the first byte of the token. *)
Lemma parse_value_at fuel d s c l m :
  carries text (position s) (c :: l) -> json_is_space c = false -> is_char c "/" = false ->
  (if is_char c "{" then parse_object text (parse_value text fuel) d s
   else if is_char c "[" then parse_array text (parse_value text fuel) d s
   else if is_char c x22 then parse_string_value text s
   else if is_char c "t" then parse_literal text (str "true") (ValueView kind_boolean [] true) s
   else if is_char c "f"
   then parse_literal text (str "false") (ValueView kind_boolean [] false) s
   else if is_char c "n"
   then parse_literal text (str "null") (ValueView kind_null_value [] false) s
   else if is_char c "-" || json_is_digit c then parse_number text s
   else fail err_unexpected_token (position s) 1 s) = m ->
  parse_value text (S fuel) d s = m.
Proof.
  intros Hc Hsp Hsl <-. apply carries_uncons in Hc as (Hp & Hat & _).
  cbn [parse_value]. unfold and_then. rewrite trivia_none by (right; by rewrite Hat).
  assert (size = length text) by done. by rewrite (proj2 (Nat.leb_gt _ _)), Hat by lia.
Qed.

Lemma read_scalars v :
  match v with JArray _ | JObject _ => False | _ => True end -> value_reads v.
Proof.
  intros Hv fuel d s Hs Hc Hst Hr Hmd Hf. destruct fuel as [|fuel]; [lia|]. unfold reads.
  destruct v as [|b|z|str|vs|ms]; try done.
  - erewrite parse_value_at by (exact Hc || done || reflexivity).
    by apply (read_literal s (str "null")).
  - destruct b; erewrite parse_value_at by (exact Hc || done || reflexivity).
    + by apply (read_literal s (str "true")).
    + by apply (read_literal s (str "false")).
  - exists (scratch s). cbn [print events_at] in *. pose proof (read_number text z s Hs Hc Hst) as Hn.
    rewrite (proj1 Hs) in Hn.
    assert (exists c l, to_chars z = c :: l /\ (c = "-"%byte \/ json_is_digit c = true))
      as (c & l & Hz & Hcd).
    { unfold to_chars. destruct (Z.ltb_spec z 0); [eauto|].
      destruct (decimal_spec z ltac:(lia)) as (_ & [Hne Hd] & _).
      destruct (decimal z) as [|c l]; [done|]. apply Forall_cons in Hd as [Hd _]. eauto. }
    pose proof Hc as Hc'. rewrite Hz in Hc'. rewrite <- Hn.
    destruct Hcd as [->|Hd]; [by apply (parse_value_at fuel d s "-" l)|].
    apply (parse_value_at fuel d s c l); try done; destruct c; try discriminate Hd; done.
  - cbn [print events_at readable] in *. exists str.
    rewrite quoted_escaped in Hc. erewrite parse_value_at by (exact Hc || done || reflexivity).
    rewrite <- quoted_escaped in Hc. unfold parse_string_value, and_then.
    rewrite (read_quoted s str) by done. unfold return_true, call. simpl.
    rewrite <- app_assoc. simpl. do 5 f_equal. f_equal. lia.
Qed.

Lemma reads_bind (m k : method) s n1 n2 e1 e2 :
  reads m s n1 e1 ->
  (forall s1, result s1 = no_error -> position s1 = (position s + n1)%nat ->
     log s1 = log s ++ e1 -> reads k s1 n2 e2) ->
  reads (m ;;? k) s (n1 + n2) (e1 ++ e2).
Proof.
  intros (scr & Hm) Hk. unfold reads, and_then. rewrite Hm.
  destruct (Hk (Parser (position s + n1) no_error scr (log s ++ e1))) as (scr' & ->); try done.
  exists scr'. simpl. by rewrite Nat.add_assoc, app_assoc.
Qed.

Lemma stops_carried p c l :
  carries text p (c :: l) -> c ∈ [","%byte; "]"%byte; "}"%byte] -> stops text p.
Proof. intros Hc Hin. apply carries_uncons in Hc as (_ & <- & _). by right. Qed.

(** A value, then the punctuation after it. *)
Lemma reads_then (m k : method) s n1 n2 e1 e2 c l :
  reads m s n1 e1 -> carries text (position s + n1) (c :: l) ->
  c ∈ [","%byte; "]"%byte; "}"%byte] ->
  (forall s1, clean text s1 -> position s1 = (position s + n1)%nat ->
     log s1 = log s ++ e1 -> reads k s1 n2 e2) ->
  reads (m ;;? trivia text ;;? k) s (n1 + n2) (e1 ++ e2).
Proof.
  intros Hm Hc Hin Hk. apply reads_bind; [done|]. intros s1 Hr Hp Hl.
  unfold reads, and_then. rewrite trivia_stops by (rewrite Hp; by eapply stops_carried).
  apply Hk; [|done..]. apply carries_uncons in Hc as (Hc & _). split; [done|].
  assert (size = length text) by done. lia.
Qed.

Lemma consume_other c c' l s :
  carries text (position s) (c' :: l) -> c' <> c -> consume text c s = (false, s).
Proof.
  intros Hc Hne. apply consume_not. intros _. apply carries_uncons in Hc as (_ & -> & _).
  destruct (is_char c' c) eqn:E; [|done]. by apply is_char_spec in E.
Qed.

Lemma reads_event (m : method) s n evs :
  (exists s1, m s = Some (true, s1) /\ result s1 = no_error /\
     position s1 = (position s + n)%nat /\ log s1 = log s ++ evs) ->
  reads m s n evs.
Proof.
  intros (s1 & Hm & Hr & Hp & Hl). exists (scratch s1). rewrite Hm.
  destruct s1; simpl in *; by subst.
Qed.

(** Punctuation is consumed, then the rest is read. *)
Lemma reads_skip (m k : method) s n n' evs :
  m s = k (at_position (position s + n) s) ->
  reads k (at_position (position s + n) s) n' evs -> reads m s (n + n') evs.
Proof. intros Hm (scr & H). exists scr. rewrite Hm, H. simpl. by rewrite Nat.add_assoc. Qed.

Lemma read_elements vs fuel pf d s :
  Forall value_reads vs -> vs <> [] -> clean text s ->
  carries text (position s) (separated (print <$> vs) ++ str "]") ->
  foldr (fun v P => readable (S d) v /\ P) True vs ->
  (S d <= max_depth)%nat -> (max_depth < S d + pf)%nat -> (size < position s + fuel)%nat ->
  reads (array_loop text (parse_value text pf (S d)) fuel) s
    (length (separated (print <$> vs)) + 1)
    (elements_at events_at (position s) vs ++ [ev_array_end]).
Proof.
  intros Hv Hne. revert fuel s. induction Hv as [|v vs Hv Hvs IH]; [done|].
  intros fuel s Hs Hc Hr Hd Hpf Hf. destruct fuel as [|fuel]; [destruct Hs; lia|].
  assert (size = length text) as Hsz by done. destruct Hr as [Hr Hrs].
  cbn [array_loop elements_at]. rewrite <- app_assoc. destruct vs as [|v' vs].
  - simpl in *. apply carries_app in Hc as [Hc1 Hc2].
    eapply reads_then; [|exact Hc2|in_list|].
    { apply Hv; try done. by eapply stops_carried; [exact Hc2|in_list]. }
    intros s1 Hs1 Hp1 Hl1. apply reads_event. rewrite consume_here by by rewrite Hp1.
    eexists. split; [done|]. simpl. destruct Hs1 as [-> _]. split_and!; done || lia.
  - change (separated (print <$> v :: v' :: vs))
      with (print v ++ str "," ++ separated (print <$> v' :: vs)) in Hc |- *.
    rewrite <- app_assoc in Hc. apply carries_app in Hc as [Hc1 Hc2].
    rewrite <- app_assoc in Hc2. rewrite length_app, <- Nat.add_assoc.
    eapply reads_then; [|exact Hc2|in_list|].
    { apply Hv; try done. by eapply stops_carried; [exact Hc2|in_list]. }
    intros s1 Hs1 Hp1 Hl1. rewrite <- Hp1 in Hc2.
    rewrite length_app, <- Nat.add_assoc.
    apply (reads_skip _ (array_loop text (parse_value text pf (S d)) fuel)).
    { rewrite (consume_other "]" ","%byte _ s1 Hc2) by done.
      rewrite consume_here by by apply carries_cons in Hc2 as [Hc2 _].
      by rewrite Nat.add_1_r. }
    apply carries_cons in Hc2 as [_ Hc2].
    replace (position s + length (print v) + 1)%nat with (position (at_position (position s1 + 1) s1))
      by (simpl; lia).
    apply IH; simpl; try done; rewrite ?Nat.add_1_r; try done; [|lia].
    apply clean_at; [done|]. destruct Hc2. lia.
Qed.

(** What [object_loop] does after a member's value. *)
Definition member_end (fuel pf d : nat) : method := fun s =>
  let '(close, s) := consume text "}" s in
  if close then return_true (call ev_object_end s)
  else
    let '(comma, s) := consume text "," s in
    if negb comma then unexpected_here text s
    else object_loop text (parse_value text pf (S d)) fuel s.

(** One member of an object, up to the punctuation after its value. *)
Lemma read_member m fuel pf d s c l n2 e2 :
  value_reads m.2 -> clean text s ->
  carries text (position s) (print_member m ++ c :: l) ->
  c ∈ [","%byte; "]"%byte; "}"%byte] -> valid_utf8 m.1 -> readable (S d) m.2 ->
  (S d <= max_depth)%nat -> (max_depth < S d + pf)%nat ->
  (forall s1, clean text s1 -> position s1 = (position s + length (print_member m))%nat ->
     log s1 = log s ++ [ev_location (position s) (length (quoted m.1)); ev_key m.1] ++
       events_at (position s + length (quoted m.1) + 1) m.2 ->
     reads (member_end fuel pf d) s1 n2 e2) ->
  reads (object_loop text (parse_value text pf (S d)) (S fuel)) s
    (length (print_member m) + n2)
    (([ev_location (position s) (length (quoted m.1)); ev_key m.1] ++
      events_at (position s + length (quoted m.1) + 1) m.2) ++ e2).
Proof.
  intros Hv Hs Hc Hin Hu Hr Hd Hpf Hk. assert (size = length text) as Hsz by done.
  unfold print_member in *. rewrite <- app_assoc in Hc.
  apply carries_app in Hc as [Hc1 Hc2]. pose proof Hc1 as Hq. rewrite quoted_escaped in Hq.
  change (str ":" ++ print m.2) with (":"%byte :: print m.2) in *.
  pose proof (carries_uncons _ _ _ _ Hq) as (Hp & Hat & _).
  cbn [app] in Hc2. pose proof Hc2 as Hcol. apply carries_cons in Hcol as [Hcol Hc3].
  apply carries_app in Hc3 as [Hc3 Hc4]. pose proof (proj1 Hcol) as Hlen. simpl in Hlen.
  set (s3 := Parser (S (position s + length (quoted m.1))) no_error m.1
    (log s ++ [ev_location (position s) (length (quoted m.1)); ev_key m.1])).
  assert (object_loop text (parse_value text pf (S d)) (S fuel) s
    = (parse_value text pf (S d) ;;? trivia text ;;? member_end fuel pf d) s3) as Heq.
  { cbn [object_loop]. unfold and_then at 1. rewrite trivia_none by (right; by rewrite Hat).
    rewrite (proj2 (Nat.leb_gt _ _)), Hat by lia. eval_bytes. unfold and_then at 1.
    rewrite (read_quoted s m.1) by done. cbn [position log call scratch result].
    unfold and_then at 1. rewrite trivia_none.
    2: { right. apply carries_one in Hcol as [_ Hcol]. simpl. by rewrite Hcol. }
    rewrite consume_here by done. simpl negb. cbn iota. unfold at_position, call, s3. simpl.
    rewrite <- app_assoc. simpl. replace (position s + length (quoted m.1) - position s)%nat
      with (length (quoted m.1)) by lia. done. }
  destruct (reads_then (parse_value text pf (S d)) (member_end fuel pf d)
     s3 (length (print m.2)) n2 (events_at (position s + length (quoted m.1) + 1) m.2)
     e2 c l) as (scr & Hm).
  - rewrite Nat.add_1_r. apply Hv; try done; [split; [done|simpl; lia]|].
    by eapply stops_carried; [exact Hc4|].
  - exact Hc4.
  - done.
  - intros s1 Hs1 Hp1 Hl1. apply Hk; [done| |].
    + rewrite Hp1, length_app. simpl. lia.
    + rewrite Hl1; unfold s3; cbn [log]; by rewrite <- app_assoc.
  - exists scr. rewrite Heq, Hm. simpl. rewrite length_app, <- !app_assoc. simpl.
    do 3 f_equal. lia.
Qed.

Lemma read_members ms fuel pf d s :
  Forall (fun m => value_reads m.2) ms -> ms <> [] -> clean text s ->
  carries text (position s) (separated (print_member <$> ms) ++ str "}") ->
  foldr (fun m P => (valid_utf8 m.1 /\ readable (S d) m.2) /\ P) True ms ->
  (S d <= max_depth)%nat -> (max_depth < S d + pf)%nat -> (size < position s + fuel)%nat ->
  reads (object_loop text (parse_value text pf (S d)) fuel) s
    (length (separated (print_member <$> ms)) + 1)
    (members_at events_at (position s) ms ++ [ev_object_end]).
Proof.
  intros Hv Hne. revert fuel s. induction Hv as [|m ms Hv Hvs IH]; [done|].
  intros fuel s Hs Hc Hr Hd Hpf Hf. destruct fuel as [|fuel]; [destruct Hs; lia|].
  assert (size = length text) as Hsz by done. destruct Hr as [[Hu Hr] Hrs].
  cbn [members_at]. rewrite (app_assoc _ (events_at _ _)), <- (app_assoc _ _ [ev_object_end]).
  destruct ms as [|m' ms].
  - simpl separated in *. eapply (read_member m fuel pf d s "}" []); try done; [in_list|].
    intros s1 Hs1 Hp1 Hl1. apply carries_app in Hc as [_ Hc2]. rewrite <- Hp1 in Hc2.
    apply reads_event. unfold member_end. rewrite consume_here by done.
    eexists. split; [done|]. simpl. destruct Hs1 as [-> _]. split_and!; done || lia.
  - change (separated (print_member <$> m :: m' :: ms))
      with (print_member m ++ str "," ++ separated (print_member <$> m' :: ms)) in Hc |- *.
    rewrite <- app_assoc in Hc. rewrite length_app, <- Nat.add_assoc.
    eapply (read_member m fuel pf d s ","); [done|done|exact Hc|in_list|done..|].
    intros s1 Hs1 Hp1 Hl1. apply carries_app in Hc as [_ Hc2]. rewrite <- Hp1 in Hc2.
    rewrite <- app_assoc in Hc2. rewrite length_app, <- Nat.add_assoc.
    apply (reads_skip _ (object_loop text (parse_value text pf (S d)) fuel)).
    { unfold member_end. rewrite (consume_other "}" ","%byte _ s1 Hc2) by done.
      rewrite consume_here by by apply carries_cons in Hc2 as [Hc2 _].
      by rewrite Nat.add_1_r. }
    apply carries_cons in Hc2 as [_ Hc2].
    replace (position s + length (print_member m) + 1)%nat
      with (position (at_position (position s1 + 1) s1)) by (simpl; lia).
    apply IH; simpl; try done; rewrite ?Nat.add_1_r; try done; [|lia].
    apply clean_at; [done|]. destruct Hc2. lia.
Qed.

(** Every printable item starts with a byte that is no trivia and closes nothing. *)
Definition item_start (c : byte) : bool :=
  negb (json_is_space c) && negb (is_char c "/") && negb (is_char c "]") && negb (is_char c "}").

Lemma print_start v : exists c l, print v = c :: l /\ item_start c = true.
Proof.
  destruct v as [|[]|z|s|vs|ms]; try (eexists _, _; split; [reflexivity|done]).
  - cbn [print]. unfold to_chars. destruct (Z.ltb_spec z 0); [by eexists _, _|].
    destruct (decimal_spec z ltac:(lia)) as (_ & [Hne Hd] & _).
    destruct (decimal z) as [|c l]; [done|]. apply Forall_cons in Hd as [Hd _].
    exists c, l. split; [done|]. destruct c; try discriminate Hd; done.
  - cbn [print]. rewrite quoted_escaped. by eexists _, _.
Qed.

Lemma separated_start {A} (f : A -> list byte) (xs : list A) :
  (forall x, exists c l, f x = c :: l /\ item_start c = true) ->
  xs = [] \/ exists c l, separated (f <$> xs) = c :: l /\ item_start c = true.
Proof.
  intros Hf. destruct xs as [|x xs]; [by left|right]. destruct (Hf x) as (c & l & Hx & Hc).
  exists c. simpl. rewrite Hx. case_match; simpl; by eexists.
Qed.

(** The opening of a container, then its loop. *)
Lemma reads_container d c loop opening closing s n evs body :
  clean text s -> (d < max_depth)%nat -> (position s < size)%nat ->
  carries text (S (position s)) (body ++ [c]) ->
  (body = [] /\ n = O /\ evs = [] \/
   (exists c' l, body = c' :: l /\ item_start c' = true /\ c' <> c) /\
   forall s1, clean text s1 -> position s1 = S (position s) ->
     reads loop s1 (n + 1) (evs ++ [closing])) ->
  json_is_space c = false -> is_char c "/" = false ->
  reads (fun s =>
    if (max_depth <=? d)%nat then fail err_nesting_too_deep (position s) 1 s
    else
      let begin := position s in
      let s := at_position (S begin) s in
      let s := call opening (call (ev_location begin 1) s) in
      (trivia text ;;? fun s =>
       let '(close, s) := consume text c s in
       if close then return_true (call closing s) else loop s) s) s
    (1 + n + 1) ([ev_location (position s) 1; opening] ++ evs ++ [closing]).
Proof.
  intros Hs Hd Hp Hc Hcases Hsp Hsl. unfold reads.
  rewrite (proj2 (Nat.leb_gt _ _)) by done. cbn zeta. unfold and_then.
  destruct Hcases as [(-> & -> & ->)|[(c' & l & -> & Hi & Hne) Hloop]].
  - pose proof (carries_one _ _ _ Hc) as [_ Hat].
    rewrite trivia_none by (right; simpl; by rewrite Hat).
    rewrite consume_here by done. eexists. unfold return_true, call, at_position. simpl.
    rewrite (proj1 Hs), <- !app_assoc. simpl. do 3 f_equal. lia.
  - unfold item_start in Hi. unbool.
    pose proof (carries_uncons _ _ _ _ Hc) as (Hp' & Hat & _).
    rewrite trivia_none by (right; simpl; by rewrite Hat).
    rewrite (consume_other c c' (l ++ [c])) by done.
    destruct (Hloop (call opening (call (ev_location (position s) 1)
      (at_position (S (position s)) s)))) as (scr & ->); [|done|].
    { destruct Hs. split; [done|simpl; lia]. }
    exists scr. simpl. rewrite <- !app_assoc. simpl. do 3 f_equal. lia.
Qed.

Lemma print_reads v : value_reads v.
Proof.
  induction v as [|b|z|str|vs IH|ms IH] using jvalue_nested_ind; try by apply read_scalars.
  - intros fuel d s Hs Hc Hst Hr Hmd Hf. destruct fuel as [|fuel]; [lia|].
    destruct Hr as [Hd Hr]. cbn [print events_at] in *. unfold reads.
    erewrite parse_value_at by (exact Hc || done || reflexivity).
    apply carries_cons in Hc as [Hb Hc]. apply carries_one in Hb as [Hp _].
    change (length (Prelude.str "[" ++ separated (print <$> vs) ++ Prelude.str "]"))
      with (S (length (separated (print <$> vs) ++ Prelude.str "]"))).
    rewrite length_app. eapply reads_container; try done.
    destruct (separated_start print vs print_start) as [->|(c & l & Hl & Hi)]; [by left|right].
    split; [exists c, l; split_and!; [done..|by intros ->]|].
    intros s1 Hs1 Hp1. rewrite <- Hp1. apply read_elements; rewrite ?Hp1; done || (try lia).
    by intros ->.
  - intros fuel d s Hs Hc Hst Hr Hmd Hf. destruct fuel as [|fuel]; [lia|].
    destruct Hr as [Hd Hr]. cbn [events_at] in *. unfold reads.
    change (print (JObject ms))
      with (Prelude.str "{" ++ separated (print_member <$> ms) ++ Prelude.str "}") in *.
    erewrite parse_value_at by (exact Hc || done || reflexivity).
    apply carries_cons in Hc as [Hb Hc]. apply carries_one in Hb as [Hp _].
    change (length (Prelude.str "{" ++ separated (print_member <$> ms) ++ Prelude.str "}"))
      with (S (length (separated (print_member <$> ms) ++ Prelude.str "}"))).
    rewrite length_app. eapply reads_container; try done.
    destruct (separated_start print_member ms) as [->|(c & l & Hl & Hi)]; [|by left|right].
    { intros m. unfold print_member. rewrite quoted_escaped. by eexists _, _. }
    split; [exists c, l; split_and!; [done..|by intros ->]|].
    intros s1 Hs1 Hp1. rewrite <- Hp1. apply read_members; rewrite ?Hp1; done || (try lia).
    by intros ->.
Qed.

(** A printed document is accepted, with the events of its content. *)
Lemma print_accepted v :
  text = print v -> readable 0 v ->
  exists s, run text = Some s /\ result s = no_error /\ log s = events_at 0 v.
Proof.
  intros Ht Hr. assert (size = length text) as Hsz by done.
  destruct (print_start v) as (c & l & Hv & Hi). unfold item_start in Hi. unbool.
  assert (carries text 0 (print v)) as Hc.
  { pose proof (carries_middle [] (print v) []) as Hcm. rewrite app_nil_r in Hcm. by rewrite Ht. }
  pose proof Hc as Hc'. rewrite Hv in Hc'. apply carries_uncons in Hc' as (Hp & Hat & _).
  unfold run. assert (skip_bom text (Parser 0 no_error [] []) = Parser 0 no_error [] []) as ->.
  { unfold skip_bom. destruct (bz (at_ text 0) =? 239) eqn:E; [|by rewrite andb_false_r].
    exfalso. rewrite Hat in E. clear -Hv E. destruct v as [|[]|z|str|vs|ms];
      try (injection Hv as <- _; discriminate E); cbn [print] in Hv.
    - unfold to_chars in Hv. destruct (Z.ltb_spec z 0); [by injection Hv as <- _|].
      destruct (decimal_spec z ltac:(lia)) as (_ & [_ Hd] & _). rewrite Hv in Hd.
      apply Forall_cons in Hd as [Hd _]. destruct c; discriminate.
    - rewrite quoted_escaped in Hv. by injection Hv as <- _. }
  unfold and_then. rewrite trivia_none by (right; simpl; by rewrite Hat).
  rewrite (proj2 (Nat.leb_gt _ _)) by (simpl; lia).
  destruct (print_reads v (S max_depth) 0%nat (Parser 0 no_error [] [])) as (scr & Hm);
    try done; try lia.
  - split; [done|simpl; lia].
  - left. rewrite Hsz, Ht. simpl. lia.
  - rewrite Hm. cbn [position log app]. rewrite trivia_none by (left; rewrite Hsz, Ht; simpl; lia).
    simpl. rewrite Hsz, Ht, Nat.eqb_refl. simpl. by eexists.
Qed.
End Documents.

(** ** Reader and writer together *)

(** C2: A document within the parser's limits, written by the writer, is accepted
    by the parser, which delivers exactly the events of the document, each at
    the offset and length of its token. *)
Theorem json_roundtrip (v : jvalue) :
  ints_fit v -> readable 0 v ->
  exists w s, write_value v new_writer = (true, w) /\ writer_complete w = true /\
    run (output w) = Some s /\ result s = no_error /\ log s = events_at 0 v.
Proof.
  intros Hi Hr. destruct (print_accepted (print v) v eq_refl Hr) as (s & Hs & Hres & Hl).
  exists (JsonWriter (print v) [] true true), s. split_and!; try done.
  by apply (write_value_writes v new_writer).
Qed.

Lemma json_roundtrip_witness :
  exists w s,
    write_value (JObject [(str "n", JInt 12); (str "s", JString (str "x"))]) new_writer
      = (true, w) /\ writer_complete w = true /\
    run (output w) = Some s /\ result s = no_error /\
    log s = events_at 0 (JObject [(str "n", JInt 12); (str "s", JString (str "x"))]).
Proof.
  apply json_roundtrip; [simpl; lia|]. simpl. unfold max_depth.
  split_and!; try (by apply valid_utf8_ascii); try done. lia.
Defined.

(** An integer written by [number] is read back by [get<T>] as itself when
    the type [T] can hold it, and as nothing otherwise. *)
Theorem integer_roundtrip (T : integral) (z : Z) :
  T ∈ [int32; int64; uint32; uint64] ->
  get_integral T (ValueView kind_integer (to_chars z) false)
  = if representable T z then Some z else None.
Proof.
  intros HT. unfold get_integral. simpl. assert (is_signed T = false -> min_value T = 0) as Hm.
  { repeat (apply elem_of_cons in HT as [->|HT]; [done|]). by apply elem_of_nil in HT. }
  destruct (representable T z) eqn:Er.
  - apply from_to_chars; [done|]. intros Hz. destruct (is_signed T); [done|].
    unfold representable in Er. unbool. lia.
  - unfold from_chars, to_chars. destruct (Z.ltb_spec z 0).
    + destruct (decimal_spec (- z)) as (_ & [Hne _] & Hv); [lia|].
      destruct (is_signed T); simpl; [|done]. rewrite Hv.
      destruct (decimal (- z)); [done|]. simpl. by rewrite Z.opp_involutive, Er.
    + destruct (decimal_spec z) as (_ & [Hne Hd] & Hv); [lia|].
      destruct (decimal z) as [|c l]; [done|].
      assert (is_char c "-" = false) as ->.
      { apply Forall_cons in Hd as [Hd _]. destruct (is_char c "-") eqn:Ec; [|done].
        apply is_char_spec in Ec as ->. done. }
      simpl andb. cbn iota. by rewrite Hv, Er.
Qed.

Lemma integer_roundtrip_witness :
  get_integral int32 (ValueView kind_integer (to_chars (-40)) false) = Some (-40) /\
  get_integral uint32 (ValueView kind_integer (to_chars (-40)) false) = None.
Proof.
  rewrite !integer_roundtrip by (repeat first [apply list_elem_of_here |
    apply list_elem_of_further]). done.
Defined.
