(* ===== verification/ServerStatus.v ===== *)
(** The shared result domain (server_engine/server_status.hpp). *)

From S2P Require Import Prelude.

Inductive server_status :=
| success
| invalid_configuration
| project_configuration_invalid
| io_error
| unsupported
| license_read_failed
| license_invalid
| license_expired
| server_lease_read_failed
| server_lease_invalid
| server_lease_not_active
| server_lease_expired
| server_identity_start_failed
| authentication_start_failed
| access_denied
| project_already_loaded
| project_not_loaded
| project_load_failed
| project_artifact_invalid
| project_runtime_failed
| runtime_query_invalid
| runtime_query_not_found
| runtime_ic_invalid
| runtime_ic_not_found
| runtime_ic_type_mismatch
| runtime_ic_failed
| runtime_state_invalid
| communication_invalid_request
| communication_start_failed.

#[export] Instance server_status_eq_dec : EqDecision server_status.
Proof. solve_decision. Defined.

Definition succeeded (status : server_status) : bool := bool_decide (status = success).

Lemma succeeded_spec status : succeeded status = true <-> status = success.
Proof. apply bool_decide_eq_true. Qed.
