(* ===== verification/HashIndex.v ===== *)
(** The open-addressing scheme shared by the string table, the preprocessor and
    the identity tables: a power-of-two array of slots, a masked home position,
    linear probing to the next slot, growth that keeps half of the slots vacant,
    and removal that re-inserts the slots that follow. The components instantiate
    it with their slot types; here are the probing loops, the invariant that makes
    them terminate and find what was inserted, and its preservation. *)

From S2P Require Import Prelude.

Local Open Scope Z_scope.

(** ** Capacity *)

(** The doubling loop: a capacity below [size_max / 2] doubles at most 63 times. *)
Fixpoint capacity_loop (fuel : nat) (capacity minimum : Z) : option Z :=
  match fuel with
  | O => None
  | S fuel =>
      if capacity <? minimum
      then if size_max / 2 <? capacity then Some 0
           else capacity_loop fuel (capacity * 2) minimum
      else Some capacity
  end.

(** [next_capacity] of preprocessor.cpp, [next_index_capacity] of
    string_table.cpp and of identity.cpp; 0 reports a failure. *)
Definition next_capacity (required : Z) : option Z :=
  if required =? 0 then Some 0
  else if size_max / 2 <? required then Some 0
  else capacity_loop 64 8 (required * 2).

Lemma capacity_loop_spec k fuel minimum :
  0 <= k <= 63 -> 64 <= k + Z.of_nat fuel ->
  exists c, capacity_loop fuel (2 ^ k) minimum = Some c /\
    if 2 ^ 63 <? minimum then c = 0 else exists j, k <= j <= 63 /\ c = 2 ^ j /\ minimum <= c.
Proof.
  revert k. induction fuel as [|fuel IH]; intros k Hk Hf; [lia|]. cbn [capacity_loop].
  pose proof (Z.pow_le_mono_r 2 k 63 ltac:(lia) ltac:(lia)) as Hle.
  change (size_max / 2) with (2 ^ 63 - 1).
  destruct (Z.ltb_spec (2 ^ k) minimum).
  - destruct (Z.ltb_spec (2 ^ 63 - 1) (2 ^ k)).
    + exists 0. split; [done|]. rewrite (proj2 (Z.ltb_lt _ _)) by lia. done.
    + assert (k <> 63) by (intros ->; lia).
      replace (2 ^ k * 2) with (2 ^ (k + 1)) by (rewrite Z.pow_add_r by lia; lia).
      destruct (IH (k + 1) ltac:(lia) ltac:(lia)) as (c & Hc & Hs). exists c. split; [done|].
      destruct (_ <? _); [done|]. destruct Hs as (j & ? & ? & ?). exists j. split; [lia|done].
  - exists (2 ^ k). split; [done|]. rewrite (proj2 (Z.ltb_ge _ _)) by lia.
    exists k. split; [lia|done].
Qed.

Lemma next_capacity_spec required :
  0 <= required ->
  exists c, next_capacity required = Some c /\
    if (required =? 0) || (2 ^ 62 <? required) then c = 0
    else exists j, 3 <= j <= 63 /\ c = 2 ^ j /\ 2 * required <= c.
Proof.
  intros H0. unfold next_capacity. destruct (Z.eqb_spec required 0); [by exists 0|].
  change (size_max / 2) with (2 ^ 63 - 1).
  destruct (Z.ltb_spec (2 ^ 63 - 1) required).
  - exists 0. split; [done|]. by rewrite (proj2 (Z.ltb_lt _ _)) by lia.
  - destruct (capacity_loop_spec 3 64 (required * 2)) as (c & Hc & Hs); [lia..|].
    exists c. split; [done|]. simpl. destruct (Z.ltb_spec (2 ^ 62) required).
    + by rewrite (proj2 (Z.ltb_lt _ _)) in Hs by lia.
    + rewrite (proj2 (Z.ltb_ge _ _)) in Hs by lia. destruct Hs as (j & ? & ? & ?).
      exists j. split; [lia|]. split; [done|lia].
Qed.

(** ** Probing *)

Section Table.
Context {S : Type} (vacant : S) (occupied : S -> bool) (hash : S -> Z).
#[local] Instance slot_inhabited : Inhabited S := populate vacant.

Definition mask (T : list S) : Z := Z.of_nat (length T) - 1.
Definition home (T : list S) (h : Z) : nat := Z.to_nat (Z.land h (mask T)).
Definition next_position (T : list S) (pos : nat) : nat :=
  Z.to_nat (Z.land (u64 (Z.of_nat pos + 1)) (mask T)).

(** The slot loops: from [pos] to the first slot on which [stop] holds. *)
Fixpoint probe (T : list S) (stop : S -> bool) (fuel pos : nat) : option nat :=
  match fuel with
  | O => None
  | Datatypes.S fuel =>
      if stop (T !!! pos) then Some pos else probe T stop fuel (next_position T pos)
  end.

(** [insert_index], [insert_slot]. *)
Definition insert_slot (T : list S) (slot : S) : option (list S) :=
  match probe T (fun s => negb (occupied s)) (length T) (home T (hash slot)) with
  | Some pos => Some (<[pos := slot]> T)
  | None => None
  end.

(** The rehash loops: the given slots, in order, into [T]. *)
Fixpoint insert_all (T : list S) (slots : list S) : option (list S) :=
  match slots with
  | [] => Some T
  | s :: slots =>
      match insert_slot T s with
      | Some T => insert_all T slots
      | None => None
      end
  end.

(** The loop of [preprocessor::undefine]: re-insert until a vacant slot. *)
Fixpoint reinsert_from (fuel : nat) (T : list S) (current : nat) : option (list S) :=
  match fuel with
  | O => None
  | Datatypes.S fuel =>
      let slot := T !!! current in
      if negb (occupied slot) then Some T
      else
        match insert_slot (<[current := vacant]> T) slot with
        | Some T => reinsert_from fuel T (next_position T current)
        | None => None
        end
  end.

(** ** Cyclic positions *)

Definition sized (T : list S) : Prop :=
  exists k, 0 <= k <= 63 /\ Z.of_nat (length T) = 2 ^ k.

(** The slot at a position counted around the table. *)
Definition cell (T : list S) (x : nat) : S := T !!! (x mod length T)%nat.
Definition busy (T : list S) (x : nat) : Prop := occupied (cell T x) = true.

Lemma sized_pos T : sized T -> (0 < length T)%nat.
Proof. intros (k & Hk & Hl). assert (0 < 2 ^ k) by (apply Z.pow_pos_nonneg; lia). lia. Qed.

Lemma mask_mod T x : sized T -> 0 <= x -> Z.to_nat (Z.land x (mask T)) = (Z.to_nat x mod length T)%nat.
Proof.
  intros (k & Hk & Hl) Hx. unfold mask. rewrite Hl, land_ones_mod by lia.
  rewrite Z2Nat.inj_mod by lia. f_equal. lia.
Qed.

Lemma home_mod T h : sized T -> home T h = (Z.to_nat (u64 h) mod length T)%nat.
Proof.
  intros Hs. assert (0 <= u64 h) by (unfold u64; apply Z.mod_pos_bound; lia).
  rewrite <- mask_mod by done. destruct Hs as (k & Hk & Hl). unfold home, mask.
  rewrite Hl, !land_ones_mod by lia. f_equal. unfold u64.
  symmetry. apply Z.mod_mod_divide. exists (2 ^ (64 - k)).
  rewrite <- Z.pow_add_r by lia. f_equal. lia.
Qed.

Lemma next_position_mod T x :
  sized T -> next_position T (x mod length T) = (Datatypes.S x mod length T)%nat.
Proof.
  intros Hs. pose proof (sized_pos T Hs) as Hp. unfold next_position.
  pose proof (Nat.mod_upper_bound x (length T) ltac:(lia)).
  assert (Z.of_nat (length T) <= 2 ^ 63).
  { destruct Hs as (k & Hk & ->). apply Z.pow_le_mono_r; lia. }
  unfold u64. rewrite Z.mod_small by lia. rewrite mask_mod by (done || lia).
  replace (Z.to_nat (Z.of_nat (x mod length T) + 1)) with (x mod length T + 1)%nat by lia.
  rewrite Nat.Div0.add_mod_idemp_l. f_equal. lia.
Qed.

Lemma cell_mod T x : cell T (x mod length T) = cell T x.
Proof. unfold cell. by rewrite Nat.Div0.mod_mod. Qed.

Lemma mod_shift n a b v : (a mod n = b mod n)%nat -> ((a + v) mod n = (b + v) mod n)%nat.
Proof. intros H. rewrite <- (Nat.Div0.add_mod_idemp_l a), <- (Nat.Div0.add_mod_idemp_l b). by rewrite H. Qed.

Lemma mod_apart n a u v : (u < v < u + n)%nat -> ((a + u) mod n <> (a + v) mod n)%nat.
Proof.
  intros H E. pose proof (Nat.div_mod_eq (a + u) n). pose proof (Nat.div_mod_eq (a + v) n).
  rewrite E in *. destruct (Nat.lt_ge_cases ((a + u) / n) ((a + v) / n)); nia.
Qed.

(** A rejecting slot after the home position bounds the loop. *)
Lemma probe_spec T stop fuel h d :
  sized T -> (d < fuel)%nat -> stop (cell T (h + d)) = true ->
  exists j, probe T stop fuel (h mod length T) = Some ((h + j) mod length T)%nat /\
    (j <= d)%nat /\ stop (cell T (h + j)) = true /\
    forall i, (i < j)%nat -> stop (cell T (h + i)) = false.
Proof.
  intros Hs. revert h d. induction fuel as [|fuel IH]; intros h d Hf Hst; [lia|].
  cbn [probe]. fold (cell T h). destruct (stop (cell T h)) eqn:E.
  - exists 0%nat. rewrite Nat.add_0_r. split; [done|]. split; [lia|]. split; [done|lia].
  - destruct d as [|d]; [rewrite Nat.add_0_r in Hst; congruence|].
    rewrite next_position_mod by done.
    destruct (IH (Datatypes.S h) d) as (j & Hp & Hj & Hsj & Hlt); [lia|by rewrite Nat.add_succ_comm|].
    exists (Datatypes.S j). rewrite <- !Nat.add_succ_comm. split; [done|]. split; [lia|].
    split; [done|]. intros [|i] Hi; [by rewrite Nat.add_0_r|].
    rewrite <- Nat.add_succ_comm. apply Hlt. lia.
Qed.

(** ** The table invariant *)

Context (vacant_free : occupied vacant = false).

(** The occupied slots. *)
Definition entries (T : list S) : list S := filter (fun s => occupied s = true) T.

Lemma entries_occupied T : Forall (fun s => occupied s = true) (entries T).
Proof. unfold entries. apply Forall_forall. intros s Hs. by apply list_elem_of_filter in Hs as [Hs _]. Qed.

(** The hash as a [size_t], before it is masked. *)
Definition home_of (s : S) : nat := Z.to_nat (u64 (hash s)).

(** Every occupied slot is reached from its home over occupied slots only. *)
Definition linked (T : list S) : Prop :=
  forall x, busy T x ->
    exists j, (j < length T)%nat /\
      (x mod length T = (home_of (cell T x) + j) mod length T)%nat /\
      forall i, (i < j)%nat -> busy T (home_of (cell T x) + i).

Definition has_room (T : list S) : Prop := exists x, ~ busy T x.

Definition table_ok (T : list S) : Prop := sized T /\ linked T.

#[export] Instance busy_dec T x : Decision (busy T x).
Proof. unfold busy. apply _. Defined.

Lemma busy_mod T x y : (x mod length T = y mod length T)%nat -> busy T x -> busy T y.
Proof. intros H Hb. unfold busy in *. by rewrite <- cell_mod, <- H, cell_mod. Qed.

Lemma cell_same T x y : (x mod length T = y mod length T)%nat -> cell T x = cell T y.
Proof. intros H. by rewrite <- (cell_mod T x), H, cell_mod. Qed.

Lemma cell_set T s q x :
  (0 < length T)%nat ->
  cell (<[(q mod length T)%nat := s]> T) x
  = if decide (x mod length T = q mod length T)%nat then s else cell T x.
Proof.
  intros Hp. unfold cell. rewrite length_insert.
  pose proof (Nat.mod_upper_bound q (length T) ltac:(lia)).
  destruct (decide _) as [->|].
  - by rewrite list_lookup_total_insert_eq.
  - by rewrite list_lookup_total_insert_ne.
Qed.

Lemma entries_set T s q :
  (0 < length T)%nat ->
  entries (<[(q mod length T)%nat := s]> T) ++ entries [cell T q]
  ≡ₚ entries T ++ entries [s].
Proof.
  intros Hp. pose proof (Nat.mod_upper_bound q (length T) ltac:(lia)) as Hq.
  destruct (lookup_lt_is_Some_2 T _ Hq) as [x Hx].
  assert (cell T q = x) as -> by (unfold cell; by apply list_lookup_total_correct).
  assert (entries T = entries (take (q mod length T) T)
    ++ entries (x :: drop (Datatypes.S (q mod length T)) T)) as ->.
  { unfold entries. by rewrite <- filter_app, take_drop_middle. }
  rewrite (insert_take_drop T _ s Hq). unfold entries.
  rewrite !filter_app, !filter_cons, filter_nil. repeat case_decide; simpl; solve_Permutation.
Qed.

Lemma elem_of_entries T s :
  (0 < length T)%nat -> s ∈ entries T <-> exists x, cell T x = s /\ busy T x.
Proof.
  intros Hp. unfold entries. rewrite list_elem_of_filter. split.
  - intros [Ho Hs]. apply list_elem_of_lookup in Hs as [x Hx]. exists x.
    assert (cell T x = s) as Hc.
    { unfold cell. rewrite Nat.mod_small by (by eapply lookup_lt_Some).
      by apply list_lookup_total_correct. }
    split; [done|]. unfold busy. by rewrite Hc.
  - intros (x & <- & Hb). split; [done|]. unfold cell.
    apply list_elem_of_lookup. exists (x mod length T)%nat.
    destruct (lookup_lt_is_Some_2 T (x mod length T)) as [y Hy]; [apply Nat.mod_upper_bound; lia|].
    by rewrite (list_lookup_total_correct _ _ _ Hy).
Qed.

(** Fewer entries than slots leave a vacant slot. *)
Lemma entries_room T : (length (entries T) < length T)%nat -> has_room T.
Proof.
  intros H. destruct (decide (Forall (fun s => occupied s = true) T)) as [Hall|Hn].
  - assert (entries T = T) as E; [|rewrite E in H; lia].
    unfold entries. clear H. induction Hall; [done|]. rewrite filter_cons_True by done. by f_equal.
  - apply not_Forall_Exists in Hn; [|apply _]. apply Exists_exists in Hn as (s & Hs & Ho).
    apply list_elem_of_lookup in Hs as [x Hx]. exists x. unfold busy, cell.
    rewrite Nat.mod_small by (by eapply lookup_lt_Some).
    by rewrite (list_lookup_total_correct _ _ _ Hx).
Qed.

(** From any position, a vacant slot is less than a round away. *)
Lemma room_ahead T h :
  (0 < length T)%nat -> has_room T -> exists d, (d < length T)%nat /\ ~ busy T (h + d).
Proof.
  intros Hp [x Hx]. exists ((x + (length T - h mod length T)) mod length T)%nat.
  split; [apply Nat.mod_upper_bound; lia|]. intros Hb. apply Hx. revert Hb. apply busy_mod.
  rewrite Nat.Div0.add_mod_idemp_r. pose proof (Nat.div_mod_eq h (length T)).
  pose proof (Nat.mod_upper_bound h (length T) ltac:(lia)).
  replace (h + (x + (length T - h mod length T)))%nat
    with (x + (h / length T + 1) * length T)%nat by lia.
  apply Nat.Div0.mod_add.
Qed.

Definition rejects (matches : S -> bool) (s : S) : bool := negb (occupied s) || matches s.

(** A search that stops at a vacant slot or at a match ends, and ends at a match
    when the table holds one. *)
Lemma search_spec T matches h :
  table_ok T -> has_room T ->
  (forall s, s ∈ entries T -> matches s = true -> home_of s = h) ->
  exists x, probe T (rejects matches) (length T) (h mod length T) = Some (x mod length T)%nat /\
    (busy T x /\ matches (cell T x) = true \/
     ~ busy T x /\ (forall s, s ∈ entries T -> matches s = false) /\
     exists j, (j < length T)%nat /\ x = (h + j)%nat /\
       forall i, (i < j)%nat -> busy T (h + i)).
Proof.
  intros [Hs Hl] Hroom Hhome. pose proof (sized_pos T Hs) as Hp.
  destruct (room_ahead T h Hp Hroom) as (d & Hd & Hfree).
  destruct (probe_spec T (rejects matches) (length T) h d Hs Hd) as (j & Hpr & Hj & Hst & Hbef).
  { unfold rejects. destruct (occupied (cell T (h + d))) eqn:E; [|done]. by destruct Hfree. }
  assert (forall i, (i < j)%nat -> busy T (h + i) /\ matches (cell T (h + i)) = false) as Hbef'.
  { intros i Hi. specialize (Hbef i Hi). unfold rejects in Hbef. by unbool. }
  exists (h + j)%nat. split; [done|]. destruct (decide (busy T (h + j))) as [Hb|Hnb].
  { left. split; [done|]. unfold rejects, busy in *. by rewrite Hb in Hst. }
  right. split; [done|]. split; [|exists j; split; [lia|]; split; [done|]; intros; by apply Hbef'].
  intros s Hin. apply elem_of_entries in Hin as (y & <- & Hby); [|done].
  apply not_true_is_false. intros Hm. apply Hnb.
  assert (cell T y ∈ entries T) as Hin by (apply elem_of_entries; eauto).
  destruct (Hl y Hby) as (j' & Hj' & Hy & Hpath). rewrite (Hhome _ Hin Hm) in *. clear Hin.
  rewrite (cell_same T _ _ Hy) in Hm. apply (busy_mod _ _ _ Hy) in Hby.
  destruct (Nat.lt_trichotomy j j') as [Hlt|[->|Hlt]]; [by apply Hpath|done|].
  destruct (Hbef' j' Hlt) as [_ Hm']. congruence.
Qed.

(** Insertion goes to the first vacant slot after the home position. *)
Lemma insert_slot_at T s :
  sized T -> has_room T ->
  exists j, insert_slot T s = Some (<[((home_of s + j) mod length T)%nat := s]> T) /\
    (j < length T)%nat /\ ~ busy T (home_of s + j) /\
    (forall i, (i < j)%nat -> busy T (home_of s + i)) /\
    forall d, ~ busy T (home_of s + d) -> (d < length T)%nat -> (j <= d)%nat.
Proof.
  intros Hs Hroom. pose proof (sized_pos T Hs) as Hp.
  destruct (room_ahead T (home_of s) Hp Hroom) as (d & Hd & Hfree).
  assert (forall x, ~ busy T x <-> negb (occupied (cell T x)) = true) as Hneg.
  { intros x. rewrite negb_true_iff. apply not_true_iff_false. }
  destruct (probe_spec T (fun s => negb (occupied s)) (length T) (home_of s) d Hs Hd)
    as (j & Hpr & Hj & Hst & Hbef); [by apply Hneg|].
  assert (forall i, (i < j)%nat -> busy T (home_of s + i)) as Hpath.
  { intros i Hi. apply negb_false_iff. by apply (Hbef i). }
  exists j. unfold insert_slot. rewrite home_mod by done. fold (home_of s). rewrite Hpr.
  split; [done|]. split; [lia|]. split; [by apply Hneg|]. split; [done|].
  intros d' Hd' _. destruct (Nat.lt_ge_cases d' j); [|done]. by destruct Hd'; apply Hpath.
Qed.

Lemma busy_set T s q x :
  (0 < length T)%nat -> occupied s = true -> busy T x ->
  busy (<[(q mod length T)%nat := s]> T) x.
Proof. intros Hp Ho Hb. unfold busy. rewrite cell_set by done. by case_decide. Qed.

(** The invariant after [s] was put at the end of its path. *)
Lemma linked_set T s j :
  table_ok T -> occupied s = true -> (j < length T)%nat ->
  ~ busy T (home_of s + j) -> (forall i, (i < j)%nat -> busy T (home_of s + i)) ->
  table_ok (<[((home_of s + j) mod length T)%nat := s]> T).
Proof.
  intros [Hs Hl] Ho Hj Hfree Hpath. pose proof (sized_pos T Hs) as Hp.
  split; [unfold sized; by rewrite length_insert|].
  intros x Hb. rewrite length_insert. unfold busy in Hb. rewrite cell_set in * by done.
  case_decide as Hx.
  - exists j. split; [done|]. split; [done|]. intros i Hi. by apply busy_set, Hpath.
  - destruct (Hl x Hb) as (j' & Hj' & Hx' & Hpath'). exists j'. split; [done|].
    split; [done|]. intros i Hi. by apply busy_set, Hpath'.
Qed.

Lemma entries_vacant T s q :
  (0 < length T)%nat -> ~ busy T q -> occupied s = true ->
  entries (<[(q mod length T)%nat := s]> T) ≡ₚ s :: entries T.
Proof.
  intros Hp Hq Hs. pose proof (entries_set T s q Hp) as H. unfold entries at 2 4 in H.
  rewrite filter_cons_False, filter_nil, app_nil_r in H by done.
  rewrite filter_cons_True, filter_nil in H by done. rewrite H. solve_Permutation.
Qed.

Lemma insert_slot_spec T s :
  table_ok T -> has_room T -> occupied s = true ->
  exists T', insert_slot T s = Some T' /\ table_ok T' /\ length T' = length T /\
    entries T' ≡ₚ s :: entries T.
Proof.
  intros Hok Hroom Ho. destruct Hok as [Hs Hl] eqn:E. pose proof (sized_pos T Hs) as Hp.
  destruct (insert_slot_at T s Hs Hroom) as (j & Hi & Hj & Hfree & Hpath & _).
  eexists. split; [done|]. split; [by apply linked_set|]. split; [by rewrite length_insert|].
  by apply entries_vacant.
Qed.

(** Rehashing: every slot finds a place while the load stays below the size. *)
Lemma insert_all_spec T slots :
  table_ok T -> Forall (fun s => occupied s = true) slots ->
  (length (entries T) + length slots <= length T)%nat ->
  exists T', insert_all T slots = Some T' /\ table_ok T' /\ length T' = length T /\
    entries T' ≡ₚ slots ++ entries T.
Proof.
  intros Hok Hsl. revert T Hok. induction Hsl as [|s slots Hs _ IH]; intros T Hok Hn; simpl in *.
  - by exists T.
  - destruct (insert_slot_spec T s Hok) as (T1 & -> & Hok1 & Hl1 & He1);
      [apply entries_room; lia|done|].
    destruct (IH T1 Hok1) as (T' & -> & Hok' & Hl' & He').
    { rewrite He1, Hl1. simpl. lia. }
    exists T'. split; [done|]. split; [done|]. split; [congruence|]. rewrite He', He1.
    solve_Permutation.
Qed.

(** A freshly allocated table. *)
Lemma vacant_table k :
  0 <= k <= 63 ->
  table_ok (replicate (Z.to_nat (2 ^ k)) vacant) /\
  entries (replicate (Z.to_nat (2 ^ k)) vacant) = [].
Proof.
  intros Hk. assert (forall n, entries (replicate n vacant) = []) as He.
  { induction n; [done|]. unfold entries. simpl. rewrite filter_cons_False; [done|].
    by rewrite vacant_free. }
  assert (0 < 2 ^ k) by (apply Z.pow_pos_nonneg; lia).
  split; [|apply He]. split.
  - exists k. rewrite length_replicate. lia.
  - intros x Hb. exfalso.
    assert (cell (replicate (Z.to_nat (2 ^ k)) vacant) x ∈ entries (replicate (Z.to_nat (2 ^ k)) vacant))
      as Hin; [|by rewrite He in Hin; apply elem_of_nil in Hin].
    apply elem_of_entries; [rewrite length_replicate; lia|eauto].
Qed.

(** ** Removal *)

(** While the slots after a removed one are re-inserted: [f] is the position that
    was cleared, [t] the distance walked from it, [m] the distance of the first
    vacant slot that was there before. The path of a slot may be broken only at
    the positions already walked, and only for slots still ahead of the walk. *)
Definition hole (n f t x : nat) : Prop := exists u, (u < t)%nat /\ (x mod n = (f + u) mod n)%nat.
Definition run (T : list S) (c p : nat) : Prop :=
  exists v, (v < length T)%nat /\ (p mod length T = (c + v) mod length T)%nat /\
    forall w, (w <= v)%nat -> busy T (c + w).

Record repairing (f t m : nat) (T : list S) : Prop := Repairing {
  rep_sized : sized T;
  rep_bounds : (t <= m < length T)%nat;
  rep_end : ~ busy T (f + m);
  rep_cluster : forall u, (t <= u < m)%nat -> busy T (f + u);
  rep_paths : forall x, busy T x ->
    exists j, (j < length T)%nat /\
      (x mod length T = (home_of (cell T x) + j) mod length T)%nat /\
      forall i, (i < j)%nat -> busy T (home_of (cell T x) + i) \/
        hole (length T) f t (home_of (cell T x) + i) /\ run T (f + t) x
}.

(** The end of the walk: every path is whole again. *)
Lemma repaired f m T : repairing f m m T -> table_ok T.
Proof.
  intros [Hs Hb He Hc Hp]. split; [done|]. intros x Hx.
  destruct (Hp x Hx) as (j & Hj & Hxj & Hpath). exists j. split; [done|]. split; [done|].
  intros i Hi. destruct (Hpath i Hi) as [?|[_ (v & _ & _ & Hrun)]]; [done|].
  destruct He. specialize (Hrun 0%nat ltac:(lia)). by rewrite Nat.add_0_r in Hrun.
Qed.

Lemma cell_cleared T q x :
  (0 < length T)%nat -> (x mod length T <> q mod length T)%nat ->
  cell (<[(q mod length T)%nat := vacant]> T) x = cell T x.
Proof. intros Hp Hx. rewrite cell_set by done. by case_decide. Qed.

Lemma not_busy_cleared T q x :
  (0 < length T)%nat -> (x mod length T = q mod length T)%nat ->
  ~ busy (<[(q mod length T)%nat := vacant]> T) x.
Proof.
  intros Hp Hx. unfold busy. rewrite cell_set by done. rewrite decide_True by done.
  by rewrite vacant_free.
Qed.

(** A run ahead of [c] loses its first slot and gains nothing behind. *)
Lemma run_step T T' c p :
  length T' = length T -> run T c p -> (p mod length T <> c mod length T)%nat ->
  (forall x, busy T x -> (x mod length T <> c mod length T)%nat -> busy T' x) ->
  run T' (Datatypes.S c) p.
Proof.
  intros Hl (v & Hv & Hp & Hrun) Hne Hkeep. destruct v as [|v].
  { rewrite Nat.add_0_r in Hp. done. }
  exists v. rewrite Hl. split; [lia|]. split; [by rewrite Nat.add_succ_comm|].
  intros w Hw. rewrite Nat.add_succ_comm. apply Hkeep; [apply Hrun; lia|].
  rewrite <- (Nat.add_0_r c) at 2. apply not_eq_sym, mod_apart. lia.
Qed.

(** The path of a slot through [c] is a run from [c], or is broken there already. *)
Lemma path_run T c h j x P :
  (j < length T)%nat -> (x mod length T = (h + j) mod length T)%nat -> busy T x ->
  (forall i, (i < j)%nat -> busy T (h + i) \/ P i /\ run T c x) ->
  forall i, (i < j)%nat -> ((h + i) mod length T = c mod length T)%nat -> run T c x.
Proof.
  intros Hj Hx Hb Hpath i Hi Hc.
  destruct (decide (Forall (fun k => busy T (h + k)) (seq i (j - i)))) as [Hall|Hn].
  - rewrite Forall_seq in Hall. exists (j - i)%nat. split; [lia|]. split.
    + rewrite Hx. rewrite <- (mod_shift _ _ _ (j - i) Hc). f_equal. lia.
    + intros w Hw. apply (busy_mod T (h + (i + w))).
      { rewrite Nat.add_assoc. by apply mod_shift. }
      destruct (decide (w = (j - i)%nat)) as [->|].
      * apply (busy_mod T x); [|done]. rewrite Hx. f_equal. lia.
      * apply Hall. lia.
  - apply not_Forall_Exists in Hn; [|apply _]. apply Exists_exists in Hn as (k & Hk & Hnb).
    apply elem_of_seq in Hk. destruct (Hpath k) as [?|[_ ?]]; [lia|done|done].
Qed.

Lemma repair_step f t m T :
  repairing f t m T -> (t < m)%nat ->
  exists T', insert_slot (<[((f + t) mod length T)%nat := vacant]> T) (cell T (f + t)) = Some T' /\
    repairing f (Datatypes.S t) m T' /\ length T' = length T /\ entries T' ≡ₚ entries T.
Proof.
  intros [Hs Hm He Hcl Hp] Ht. pose proof (sized_pos T Hs) as Hpos.
  set (c := (f + t)%nat). set (s := cell T c). set (T1 := <[(c mod length T)%nat := vacant]> T).
  assert (length T1 = length T) as Hl1 by apply length_insert.
  assert (busy T c) as Hbc by (apply Hcl; lia).
  destruct (Hp c Hbc) as (j0 & Hj0 & Hc0 & Hpath0). fold s in Hc0, Hpath0.
  assert (sized T1) as Hs1 by (unfold sized; by rewrite Hl1).
  assert (~ busy T1 (home_of s + j0)) as Hfree0 by by apply not_busy_cleared.
  destruct (insert_slot_at T1 s Hs1) as (j & Hi & Hj & Hfree & Hpath & Hmin); [by eexists|].
  assert (j <= j0)%nat as Hjj by (apply Hmin; [done|lia]). rewrite Hl1 in *.
  set (q := (home_of s + j)%nat) in *. exists (<[(q mod length T)%nat := s]> T1).
  split; [done|].
  assert (exists u, (u <= t)%nat /\ (q mod length T = (f + u) mod length T)%nat) as (u & Hu & Hq).
  { destruct (decide ((q mod length T)%nat = (c mod length T)%nat)) as [E|E]; [by exists t|].
    destruct (decide (j = j0)) as [Ej|]; [destruct E; unfold q; by rewrite Hc0, Ej|].
    destruct (Hpath0 j ltac:(lia)) as [Hb|[(u & Hu & Hq) _]]; [|exists u; split; [lia|done]].
    destruct Hfree. unfold busy. unfold T1. by rewrite cell_cleared. }
  set (T' := <[_ := s]> T1).
  assert (length T' = length T) as Hl' by (unfold T'; by rewrite length_insert).
  assert (forall x, cell T' x = if decide (x mod length T = q mod length T)%nat then s
    else cell T1 x) as Hcell.
  { intros x. unfold T'. rewrite <- Hl1. apply cell_set. lia. }
  assert (forall x, busy T1 x -> busy T' x) as Hkeep1.
  { intros x Hx. unfold busy. rewrite Hcell. by case_decide. }
  assert (forall x, busy T x -> (x mod length T <> c mod length T)%nat -> busy T' x) as Hkeep.
  { intros x Hx Hxc. apply Hkeep1. unfold busy, T1. by rewrite cell_cleared. }
  assert (forall v, (t < v <= m)%nat -> cell T' (f + v) = cell T (f + v)) as Hahead.
  { intros v Hv. rewrite Hcell, decide_False.
    - apply cell_cleared; [done|]. apply not_eq_sym, mod_apart. lia.
    - rewrite Hq. apply not_eq_sym, mod_apart. lia. }
  split; [|split; [done|]].
  - split; rewrite ?Hl'.
    + unfold sized. by rewrite Hl'.
    + lia.
    + unfold busy. by rewrite Hahead by lia.
    + intros v Hv. unfold busy. rewrite Hahead by lia. apply Hcl. lia.
    + intros x Hx. unfold busy in Hx. rewrite Hcell in *. case_decide as Hxq.
      { exists j. split; [done|]. split; [done|]. intros i' Hi'. left. by apply Hkeep1, Hpath. }
      assert ((x mod length T)%nat <> (c mod length T)%nat) as Hxc.
      { intros E. by destruct (not_busy_cleared T c x Hpos E). }
      unfold T1 in *. rewrite cell_cleared in * by done.
      destruct (Hp x Hx) as (jx & Hjx & Hxj & Hpathx). exists jx. split; [done|]. split; [done|].
      assert (run T c x -> run T' (f + Datatypes.S t) x) as Hrun.
      { intros Hr. rewrite <- plus_n_Sm. by apply (run_step T). }
      intros i' Hi'. set (y := (home_of (cell T x) + i')%nat).
      destruct (decide ((y mod length T)%nat = (c mod length T)%nat)) as [Hyc|Hyc].
      { right. split; [exists t; split; [lia|done]|]. apply Hrun.
        by apply (path_run T c (home_of (cell T x)) jx x (fun i => hole (length T) f t
          (home_of (cell T x) + i)) Hjx Hxj Hx Hpathx i'). }
      destruct (Hpathx i' Hi') as [Hb|[(v & Hv & Hyv) Hr]]; [left; by apply Hkeep|].
      right. split; [exists v; split; [lia|done]|by apply Hrun].
  - assert (entries T' ≡ₚ s :: entries T1) as ->.
    { unfold T'. rewrite <- Hl1. apply entries_vacant; [lia|done|done]. }
    pose proof (entries_set T vacant c Hpos) as H. fold T1 in H. fold s in H.
    unfold entries at 2 4 in H. rewrite filter_cons_True, filter_nil in H by done.
    rewrite filter_cons_False, filter_nil, app_nil_r in H by by rewrite vacant_free.
    rewrite <- H. solve_Permutation.
Qed.

Lemma reinsert_repairs fuel f t m T :
  repairing f t m T -> (m - t < fuel)%nat ->
  exists T', reinsert_from fuel T ((f + t) mod length T) = Some T' /\ table_ok T' /\
    length T' = length T /\ entries T' ≡ₚ entries T.
Proof.
  revert t T. induction fuel as [|fuel IH]; intros t T HR Hf; [lia|].
  pose proof (rep_bounds _ _ _ _ HR). pose proof (rep_sized _ _ _ _ HR) as Hs.
  cbn [reinsert_from]. change (T !!! ((f + t) mod length T)%nat) with (cell T (f + t)).
  destruct (decide (t = m)) as [->|].
  - rewrite (not_true_is_false _ (rep_end _ _ _ _ HR)). simpl.
    exists T. split; [done|]. split; [by eapply repaired|]. done.
  - assert (occupied (cell T (f + t)) = true) as -> by (apply (rep_cluster _ _ _ _ HR); lia).
    simpl negb. cbn iota.
    destruct (repair_step f t m T HR ltac:(lia)) as (T1 & -> & HR1 & Hl1 & He1).
    rewrite <- Hl1. rewrite (next_position_mod T1 (f + t)) by by eapply rep_sized.
    rewrite plus_n_Sm. destruct (IH _ _ HR1) as (T' & -> & Hok & Hl' & He'); [lia|].
    exists T'. split; [done|]. split; [done|]. split; [congruence|by rewrite He'].
Qed.

(** Clearing an occupied slot and re-inserting the cluster after it removes
    exactly that slot. *)
Lemma remove_spec T f :
  table_ok T -> busy T f -> (exists x, ~ busy T x) ->
  exists T', reinsert_from (length T) (<[(f mod length T)%nat := vacant]> T)
               (next_position T (f mod length T)) = Some T' /\
    table_ok T' /\ length T' = length T /\ cell T f :: entries T' ≡ₚ entries T.
Proof.
  intros [Hs Hl] Hf Hroom. pose proof (sized_pos T Hs) as Hp.
  set (T1 := <[_ := vacant]> T).
  assert (length T1 = length T) as Hl1 by apply length_insert.
  destruct (room_ahead T f Hp Hroom) as (d & Hd & Hfree).
  destruct (probe_spec T (fun s => negb (occupied s)) (length T) (Datatypes.S f) (d - 1) Hs)
    as (j & _ & Hj & Hst & Hbef); [lia| |].
  { destruct d as [|d]; [by rewrite Nat.add_0_r in Hfree|].
    replace (Datatypes.S f + (Datatypes.S d - 1))%nat with (f + Datatypes.S d)%nat by lia.
    apply negb_true_iff. by apply not_true_iff_false. }
  assert (1 <= d)%nat by (destruct d; [by rewrite Nat.add_0_r in Hfree|lia]).
  assert (forall v, (1 <= v < length T)%nat -> cell T1 (f + v) = cell T (f + v)) as Hc1.
  { intros v Hv. apply cell_cleared; [done|]. rewrite <- (Nat.add_0_r f) at 2.
    apply not_eq_sym, mod_apart. lia. }
  assert (repairing f 1 (Datatypes.S j) T1) as HR.
  { split; rewrite ?Hl1.
    - unfold sized. by rewrite Hl1.
    - lia.
    - unfold busy. rewrite Hc1 by lia. rewrite <- Nat.add_succ_comm.
      apply not_true_iff_false. by apply negb_true_iff.
    - intros [|u] Hu; [lia|]. unfold busy. rewrite Hc1 by lia. rewrite <- Nat.add_succ_comm.
      apply negb_false_iff. apply (Hbef u). lia.
    - intros x Hx.
      assert ((x mod length T)%nat <> (f mod length T)%nat) as Hxf.
      { intros E. by destruct (not_busy_cleared T f x Hp E). }
      unfold busy in Hx. unfold T1 in *. rewrite cell_cleared in * by done.
      destruct (Hl x Hx) as (jx & Hjx & Hxj & Hpath). exists jx. split; [done|]. split; [done|].
      intros i Hi. set (y := (home_of (cell T x) + i)%nat).
      destruct (decide ((y mod length T)%nat = (f mod length T)%nat)) as [Hy|Hy].
      + right. split; [exists 0%nat; rewrite Nat.add_0_r; split; [lia|done]|].
        rewrite Nat.add_1_r. apply (run_step T); [by rewrite length_insert| |done|].
        * apply (path_run T f (home_of (cell T x)) jx x (fun _ => False) Hjx Hxj Hx
            ltac:(intros; left; by apply Hpath) i Hi Hy).
        * intros z Hz Hzf. unfold busy. by rewrite cell_cleared.
      + left. unfold busy. rewrite cell_cleared by done. by apply Hpath. }
  destruct (reinsert_repairs (length T) f 1 (Datatypes.S j) T1 HR) as (T' & Hr & Hok & Hl' & He);
    [lia|].
  exists T'. rewrite next_position_mod by done. rewrite Hl1, Nat.add_1_r in Hr.
  split; [done|]. split; [done|]. split; [congruence|]. rewrite He.
  pose proof (entries_set T vacant f Hp) as H0. fold T1 in H0.
  unfold entries at 2 4 in H0. rewrite filter_cons_True, filter_nil in H0 by done.
  rewrite filter_cons_False, filter_nil, app_nil_r in H0 by by rewrite vacant_free.
  rewrite <- H0. solve_Permutation.
Qed.
End Table.

(** The invariant reads the hash of the occupied slots only. *)
Lemma table_ok_ext {S : Type} (vacant : S) (occupied : S -> bool) (h1 h2 : S -> Z) (T : list S) :
  (forall s, s ∈ entries occupied T -> h1 s = h2 s) ->
  table_ok vacant occupied h1 T -> table_ok vacant occupied h2 T.
Proof.
  intros Hh [Hs Hl]. split; [done|]. intros x Hx.
  assert (home_of h2 (cell vacant T x) = home_of h1 (cell vacant T x)) as ->; [|by apply Hl].
  unfold home_of. rewrite Hh; [done|]. apply (elem_of_entries vacant); [by apply sized_pos|eauto].
Qed.
