(* ===== verification/StringTable.v ===== *)
(** The canonical string table (project/string/string_table.hpp and .cpp): an
    immutable persisted baseline plus append-only local records, an arena of
    bytes and an open-addressed index. The persisted image is seen through the
    interface [BaselineStrings]; the theorems are proved against its laws. *)

From S2P Require Import Prelude ServerStatus HashIndex.

Local Open Scope Z_scope.

(** ** What the table relies on of a [compiled_project_view] *)

Class BaselineStrings (B : Type) := {
  baseline_valid : B -> bool;
  string_count : B -> Z;
  string_byte_size : B -> Z;
  baseline_string : B -> Z -> list byte;
  baseline_find : B -> list byte -> Z
}.

(** The persisted strings are numbered from 1, nonempty and pairwise distinct, and
    [find_string] inverts [string]. *)
Class BaselineLaws (B : Type) `{BaselineStrings B} := {
  string_count_nonneg b : 0 <= string_count b;
  string_byte_size_nonneg b : 0 <= string_byte_size b;
  baseline_find_range b v : baseline_valid b = true -> 0 <= baseline_find b v <= string_count b;
  baseline_find_string b v :
    baseline_valid b = true -> baseline_find b v <> 0 ->
    baseline_string b (baseline_find b v) = v;
  baseline_string_find b id :
    baseline_valid b = true -> 1 <= id <= string_count b ->
    baseline_string b id <> [] /\ baseline_find b (baseline_string b id) = id
}.

(** ** The table *)

(** [string_id]: 0 is the invalid identity. *)
Abbreviation string_id := Z (only parsing).

Record string_record := StringRecord {
  rec_offset : Z;
  rec_length : Z;
  rec_hash : Z
}.

Record string_slot := StringSlot {
  slot_hash : Z;
  slot_id : string_id
}.

Definition empty_slot : string_slot := StringSlot 0 0.
Definition slot_occupied (s : string_slot) : bool := negb (slot_id s =? 0).

#[export] Instance string_slot_inhabited : Inhabited string_slot := populate empty_slot.

Record string_table (B : Type) := StringTable {
  baseline : option B;
  baseline_string_count : Z;
  baseline_byte_count : Z;
  records : list string_record;
  bytes : list byte;
  index : list string_slot
}.
Arguments StringTable {B}.
Arguments baseline {B}.
Arguments baseline_string_count {B}.
Arguments baseline_byte_count {B}.
Arguments records {B}.
Arguments bytes {B}.
Arguments index {B}.

(** The outcomes of the allocations of one call, and whether the argument is a
    view into the table's own arena. *)
Record allocation := Allocation {
  index_allocated : bool;
  copy_allocated : bool;
  append_allocated : bool;
  value_in_arena : bool
}.

Section Operations.
Context {B : Type} `{BaselineStrings B}.

Definition new_string_table : string_table B := StringTable None 0 0 [] [] [].

Definition record_count (t : string_table B) : Z := Z.of_nat (length (records t)).
Definition arena_size (t : string_table B) : Z := Z.of_nat (length (bytes t)).

Definition table_size (t : string_table B) : Z := baseline_string_count t + record_count t.
Definition byte_size (t : string_table B) : Z := baseline_byte_count t + arena_size t.

Definition bind_baseline (b : B) (t : string_table B) : server_status * string_table B :=
  if negb (baseline_valid b) || match baseline t with Some _ => true | None => false end ||
     negb (bool_decide (records t = [])) || negb (bool_decide (bytes t = [])) ||
     negb (match index t with [] => true | _ => false end)
  then (project_artifact_invalid, t)
  else if (u32_max <? string_count b) || (u32_max <? string_byte_size b)
  then (project_artifact_invalid, t)
  else (success,
    StringTable (Some b) (string_count b) (string_byte_size b) (records t) (bytes t) (index t)).

(** The FNV-1a hash, with 0 kept free. *)
Definition hash_text (value : list byte) : Z :=
  let hash :=
    foldl (fun hash c => u32 (Z.lxor hash (bz c) * 16777619)) 2166136261 value in
  if hash =? 0 then 1 else hash.

Definition contains (t : string_table B) (id : string_id) : bool :=
  if id =? 0 then false
  else
    match baseline t with
    | Some b =>
        if id <=? baseline_string_count t
        then negb (bool_decide (baseline_string b id = []))
        else (id - baseline_string_count t - 1 <? record_count t)
    | None =>
        if id <=? baseline_string_count t then false
        else (id - baseline_string_count t - 1 <? record_count t)
    end.

Definition local_string (t : string_table B) (local : Z) : list byte :=
  match records t !! Z.to_nat local with
  | None => []
  | Some record =>
      if (arena_size t <? rec_offset record) ||
         (arena_size t - rec_offset record <? rec_length record)
      then []
      else take (Z.to_nat (rec_length record)) (drop (Z.to_nat (rec_offset record)) (bytes t))
  end.

Definition get (t : string_table B) (id : string_id) : list byte :=
  if id =? 0 then []
  else
    match baseline t with
    | Some b =>
        if id <=? baseline_string_count t then baseline_string b id
        else local_string t (id - baseline_string_count t - 1)
    | None =>
        if id <=? baseline_string_count t then []
        else local_string t (id - baseline_string_count t - 1)
    end.

Definition spelling (t : string_table B) (slot : Z) : list byte :=
  if (slot =? 0) || (table_size t <? slot) then [] else get t slot.

(** The probe loop stops at a vacant slot or at a slot of the same hash and
    spelling. *)
Definition slot_matches (t : string_table B) (value : list byte) (hash : Z)
    (s : string_slot) : bool :=
  (slot_hash s =? hash) && bool_decide (get t (slot_id s) = value).

Definition find_hashed (t : string_table B) (value : list byte) (hash : Z) : string_id :=
  let not_indexed :=
    match baseline t with Some b => baseline_find b value | None => 0 end in
  match index t with
  | [] => not_indexed
  | _ =>
      match probe empty_slot (index t) (rejects slot_occupied (slot_matches t value hash))
              (length (index t)) (home (index t) hash) with
      | Some position =>
          let slot := index t !!! position in
          if slot_occupied slot then slot_id slot else not_indexed
      | None => not_indexed
      end
  end.

Definition find (t : string_table B) (value : list byte) : string_id :=
  match value with
  | [] => 0
  | _ => find_hashed t value (hash_text value)
  end.

(** The slots of the local records, in order. *)
Definition record_slots (t : string_table B) : list string_slot :=
  imap (fun current record =>
    StringSlot (rec_hash record)
      (u32 (baseline_string_count t + Z.of_nat current + 1))) (records t).

Definition with_index (i : list string_slot) (t : string_table B) : string_table B :=
  StringTable (baseline t) (baseline_string_count t) (baseline_byte_count t)
    (records t) (bytes t) i.

Definition next_index_capacity (required : Z) : option Z := next_capacity required.

Definition insert_index (target : list string_slot) (id : string_id) (hash : Z)
  : option (list string_slot) :=
  insert_slot empty_slot slot_occupied slot_hash target (StringSlot hash id).

(** [None] is a loop that does not end. *)
Definition ensure_index_capacity (additional : Z) (allocated : bool) (t : string_table B)
  : option (server_status * string_table B) :=
  if size_max - record_count t <? additional then Some (io_error, t)
  else
    let required := record_count t + additional in
    if negb (match index t with [] => true | _ => false end) &&
       (required <=? Z.of_nat (length (index t)) / 2)
    then Some (success, t)
    else
      match next_index_capacity required with
      | None => None
      | Some capacity =>
          if capacity =? 0 then Some (io_error, t)
          else if negb allocated then Some (io_error, t)
          else
            match insert_all empty_slot slot_occupied slot_hash
                    (replicate (Z.to_nat capacity) empty_slot) (record_slots t) with
            | None => None
            | Some candidate => Some (success, with_index candidate t)
            end
      end.

Definition u32_full (t : string_table B) (value : list byte) : bool :=
  let size := Z.of_nat (length value) in
  (u32_max <? baseline_string_count t) ||
  (u32_max - baseline_string_count t <=? record_count t) ||
  (u32_max <? size) ||
  (u32_max <? baseline_byte_count t) ||
  (u32_max - baseline_byte_count t <? arena_size t) ||
  (u32_max - baseline_byte_count t - arena_size t <? size).

(** Status, [output] and the table after the call. *)
Definition intern (value : list byte) (a : allocation) (t : string_table B)
  : option (server_status * string_id * string_table B) :=
  match value with
  | [] => Some (project_configuration_invalid, 0, t)
  | _ =>
      let hash := hash_text value in
      let existing := find_hashed t value hash in
      if negb (existing =? 0) then Some (success, existing, t)
      else
        match ensure_index_capacity 1 (index_allocated a) t with
        | None => None
        | Some (prepared, t) =>
            if negb (succeeded prepared) then Some (prepared, 0, t)
            else if u32_full t value then Some (io_error, 0, t)
            else if negb (bool_decide (bytes t = [])) && value_in_arena a &&
                    negb (copy_allocated a)
            then Some (io_error, 0, t)
            else if negb (append_allocated a) then Some (io_error, 0, t)
            else
              let records' := records t ++
                [StringRecord (u32 (arena_size t)) (u32 (Z.of_nat (length value))) hash] in
              let output :=
                u32 (baseline_string_count t + Z.of_nat (length records')) in
              match insert_index (index t) output hash with
              | None => None
              | Some index' =>
                  Some (success, output,
                    StringTable (baseline t) (baseline_string_count t)
                      (baseline_byte_count t) records' (bytes t ++ value) index')
              end
        end
  end.
End Operations.

(** ** The invariant *)

Section Invariant.
Context {B : Type} `{BaselineLaws B}.
Implicit Types (t : string_table B) (locals : list (list byte)).

(** The records of strings laid out one after the other. *)
Fixpoint layout (offset : nat) (vs : list (list byte)) : list string_record :=
  match vs with
  | [] => []
  | v :: vs =>
      StringRecord (Z.of_nat offset) (Z.of_nat (length v)) (hash_text v) ::
      layout (offset + length v) vs
  end.

Definition slots_of (base : Z) (vs : list (list byte)) : list string_slot :=
  imap (fun i v => StringSlot (hash_text v) (base + Z.of_nat i + 1)) vs.

(** The table [t] holds the strings [locals] on top of its baseline. *)
Record table_inv t locals : Prop := TableInv {
  inv_baseline :
    match baseline t with
    | Some b => baseline_valid b = true /\ baseline_string_count t = string_count b /\
                baseline_byte_count t = string_byte_size b
    | None => baseline_string_count t = 0 /\ baseline_byte_count t = 0
    end;
  inv_records : records t = layout 0 locals;
  inv_bytes : bytes t = mjoin locals;
  inv_count : baseline_string_count t + Z.of_nat (length locals) <= u32_max;
  inv_size : baseline_byte_count t + arena_size t <= u32_max;
  inv_nonempty : Forall (fun v => v <> []) locals;
  inv_distinct : NoDup locals;
  inv_new : forall b v, baseline t = Some b -> v ∈ locals -> baseline_find b v = 0;
  inv_index :
    locals = [] /\ index t = [] \/
    table_ok empty_slot slot_occupied slot_hash (index t) /\
    (2 * length locals <= length (index t))%nat /\ (8 <= length (index t))%nat /\
    entries slot_occupied (index t) ≡ₚ slots_of (baseline_string_count t) locals
}.

Lemma count_nonneg t locals : table_inv t locals -> 0 <= baseline_string_count t.
Proof.
  intros Hi. pose proof (inv_baseline _ _ Hi) as Hb. destruct (baseline t) as [b|]; [|lia].
  pose proof (string_count_nonneg b). lia.
Qed.

Lemma byte_count_nonneg t locals : table_inv t locals -> 0 <= baseline_byte_count t.
Proof.
  intros Hi. pose proof (inv_baseline _ _ Hi) as Hb. destruct (baseline t) as [b|]; [|lia].
  pose proof (string_byte_size_nonneg b). lia.
Qed.

Lemma length_layout o vs : length (layout o vs) = length vs.
Proof. revert o. induction vs; intros; simpl; auto. Qed.

Lemma layout_app o vs ws :
  layout o (vs ++ ws) = layout o vs ++ layout (o + length (mjoin vs)) ws.
Proof.
  revert o. induction vs as [|v vs IH]; intros o; simpl; [by rewrite Nat.add_0_r|].
  rewrite IH, length_app. do 3 f_equal. lia.
Qed.

Lemma layout_lookup o vs i v :
  vs !! i = Some v ->
  exists offset, layout o vs !! i
    = Some (StringRecord (Z.of_nat offset) (Z.of_nat (length v)) (hash_text v)) /\
    (o <= offset)%nat /\ (offset - o + length v <= length (mjoin vs))%nat /\
    take (length v) (drop (offset - o) (mjoin vs)) = v.
Proof.
  revert o i. induction vs as [|w vs IH]; intros o i Hi; [done|]. destruct i as [|i]; simpl in *.
  - simplify_eq. exists o. rewrite Nat.sub_diag, drop_0, take_app_length, length_app.
    split; [done|]. split; [done|]. split; [lia|done].
  - destruct (IH (o + length w)%nat i Hi) as (off & Hl & Ho & Hb & Ht). exists off.
    split; [done|]. split; [lia|]. rewrite length_app. split; [lia|].
    replace (off - o)%nat with (length w + (off - (o + length w)))%nat by lia.
    rewrite <- drop_drop, drop_app_length. done.
Qed.

Lemma hash_text_range v : 1 <= hash_text v < 2 ^ 32.
Proof.
  unfold hash_text. set (h := foldl _ _ v).
  assert (0 <= h < 2 ^ 32) as Hh.
  { subst h. induction v as [|c v IH] using rev_ind; [done|]. rewrite foldl_app. simpl.
    unfold u32. apply Z.mod_pos_bound. lia. }
  destruct (Z.eqb_spec h 0); lia.
Qed.

Lemma record_count_locals t locals : table_inv t locals -> record_count t = Z.of_nat (length locals).
Proof. intros Hi. unfold record_count. by rewrite (inv_records _ _ Hi), length_layout. Qed.

(** A local string is read back through its identity. *)
Lemma get_local t locals i v :
  table_inv t locals -> locals !! i = Some v ->
  get t (baseline_string_count t + Z.of_nat i + 1) = v.
Proof.
  intros Hi Hv. pose proof (count_nonneg _ _ Hi). unfold get.
  rewrite (proj2 (Z.eqb_neq _ 0)), (proj2 (Z.leb_gt _ _)) by lia.
  replace (baseline_string_count t + Z.of_nat i + 1 - baseline_string_count t - 1)
    with (Z.of_nat i) by lia.
  assert (local_string t (Z.of_nat i) = v) as ->; [|by destruct (baseline t)].
  unfold local_string. rewrite (inv_records _ _ Hi), Nat2Z.id.
  destruct (layout_lookup 0 locals i v Hv) as (off & -> & _ & Hb & Ht).
  rewrite Nat.sub_0_r in *. simpl. unfold arena_size. rewrite (inv_bytes _ _ Hi), !Nat2Z.id.
  rewrite (proj2 (Z.ltb_ge _ _)), (proj2 (Z.ltb_ge _ _)) by lia. done.
Qed.

Lemma get_beyond t locals id : table_inv t locals -> table_size t < id -> get t id = [].
Proof.
  intros Hi Hid. pose proof (count_nonneg _ _ Hi). unfold table_size in Hid.
  rewrite (record_count_locals _ _ Hi) in Hid. unfold get.
  rewrite (proj2 (Z.eqb_neq _ 0)), (proj2 (Z.leb_gt _ _)) by lia.
  assert (local_string t (id - baseline_string_count t - 1) = []) as ->;
    [|by destruct (baseline t)].
  unfold local_string. rewrite lookup_ge_None_2; [done|].
  rewrite (inv_records _ _ Hi), length_layout. lia.
Qed.

Lemma elem_of_slots base vs s :
  s ∈ slots_of base vs <->
  exists i v, vs !! i = Some v /\ s = StringSlot (hash_text v) (base + Z.of_nat i + 1).
Proof.
  unfold slots_of. rewrite list_elem_of_lookup. split.
  - intros [i Hi]. rewrite list_lookup_imap in Hi. destruct (vs !! i) as [v|] eqn:E; [|done].
    simpl in Hi. simplify_eq. eauto.
  - intros (i & v & Hv & ->). exists i. by rewrite list_lookup_imap, Hv.
Qed.

Lemma record_slots_locals t locals :
  table_inv t locals -> record_slots t = slots_of (baseline_string_count t) locals.
Proof.
  intros Hi. unfold record_slots, slots_of. rewrite (inv_records _ _ Hi).
  pose proof (count_nonneg _ _ Hi). pose proof (inv_count _ _ Hi) as Hc. clear Hi.
  apply list_eq. intros i. rewrite !list_lookup_imap.
  destruct (locals !! i) as [v|] eqn:Ev.
  - destruct (layout_lookup 0 locals i v Ev) as (off & -> & _). simpl.
    apply lookup_lt_Some in Ev. unfold u32. rewrite Z.mod_small; [done|].
    unfold u32_max in Hc. lia.
  - rewrite lookup_ge_None_2; [done|]. rewrite length_layout. by apply lookup_ge_None_1.
Qed.

(** ** Lookup *)

Definition not_local t (v : list byte) : string_id :=
  match baseline t with Some b => baseline_find b v | None => 0 end.

Lemma slot_occupied_local base i v :
  0 <= base -> slot_occupied (StringSlot (hash_text v) (base + Z.of_nat i + 1)) = true.
Proof. intros. apply negb_true_iff, Z.eqb_neq. cbn [slot_id]. lia. Qed.

(** The probe loop finds a local string and nothing else. *)
Lemma find_hashed_spec t locals v :
  table_inv t locals ->
  (forall i, locals !! i = Some v ->
     find_hashed t v (hash_text v) = baseline_string_count t + Z.of_nat i + 1) /\
  (v ∉ locals -> find_hashed t v (hash_text v) = not_local t v).
Proof.
  intros Hi. pose proof (count_nonneg _ _ Hi) as Hc. unfold find_hashed.
  fold (not_local t v). destruct (inv_index _ _ Hi) as [[-> ->]|(Hok & Hload & Hmin & He)];
    [by split|].
  assert (forall s, s ∈ entries slot_occupied (index t) -> forall w,
    slot_matches t w (hash_text w) s = true -> exists i, locals !! i = Some w /\
    slot_id s = baseline_string_count t + Z.of_nat i + 1) as Hsound.
  { intros s Hs w Hm. rewrite He in Hs. apply elem_of_slots in Hs as (i & v' & Hv' & ->).
    unfold slot_matches in Hm. simpl in Hm. unbool.
    rewrite (get_local t locals i v') in * by done. subst. eauto. }
  destruct (index t) as [|s0 rest] eqn:Eidx; [simpl in Hmin; lia|]. rewrite <- Eidx in *. clear Eidx.
  pose proof (sized_pos _ (proj1 Hok)) as Hpos.
  destruct (search_spec empty_slot slot_occupied slot_hash (index t)
    (slot_matches t v (hash_text v)) (Z.to_nat (u64 (hash_text v))) Hok) as (x & Hpr & Hx).
  { apply entries_room. rewrite He. unfold slots_of. rewrite length_imap. lia. }
  { intros s _ Hm. unfold slot_matches in Hm. unbool. unfold home_of. by rewrite H1. }
  rewrite <- home_mod in Hpr by apply Hok. rewrite Hpr.
  change (index t !!! (x mod length (index t))%nat) with (cell empty_slot (index t) x).
  destruct Hx as [[Hb Hm]|(Hnb & Hnone & _)].
  - unfold busy in Hb. rewrite Hb.
    destruct (Hsound (cell empty_slot (index t) x)) with (w := v) as (i & Hv & Hid);
      [apply (elem_of_entries empty_slot); eauto|done|].
    split; [|intros Hn; by destruct Hn; eapply list_elem_of_lookup_2].
    intros i' Hv'. rewrite Hid. by rewrite (NoDup_lookup _ _ _ _ (inv_distinct _ _ Hi) Hv Hv').
  - unfold busy in Hnb. rewrite (not_true_is_false _ Hnb). split; [|done].
    intros i Hv. exfalso.
    assert (StringSlot (hash_text v) (baseline_string_count t + Z.of_nat i + 1)
      ∈ entries slot_occupied (index t)) as Hin by (rewrite He; apply elem_of_slots; eauto).
    specialize (Hnone _ Hin). unfold slot_matches in Hnone. simpl in Hnone.
    rewrite Z.eqb_refl, (get_local t locals i v), bool_decide_true in Hnone by done. done.
Qed.

(** ** Growing the index *)

Lemma with_index_inv t locals idx :
  table_inv t locals ->
  table_ok empty_slot slot_occupied slot_hash idx ->
  (2 * length locals <= length idx)%nat -> (8 <= length idx)%nat ->
  entries slot_occupied idx ≡ₚ slots_of (baseline_string_count t) locals ->
  table_inv (with_index idx t) locals.
Proof. intros [] ????. split; simpl; try done. right. done. Qed.

Lemma ensure_index_spec t locals allocated :
  table_inv t locals ->
  exists st t', ensure_index_capacity 1 allocated t = Some (st, t') /\
    (st = io_error /\ t' = t /\ allocated = false \/
     st = success /\ (exists idx, t' = with_index idx t) /\ table_inv t' locals /\
     (2 * S (length locals) <= length (index t'))%nat).
Proof.
  intros Hi. pose proof (count_nonneg _ _ Hi) as Hc. pose proof (inv_count _ _ Hi) as Hmax.
  unfold u32_max in Hmax. unfold ensure_index_capacity, next_index_capacity.
  rewrite (record_count_locals _ _ Hi).
  rewrite (proj2 (Z.ltb_ge _ _)) by (unfold size_max; lia).
  destruct (_ && _) eqn:Eg.
  { exists success, t. split; [done|]. right. split; [done|]. split.
    { exists (index t). by destruct t. }
    split; [done|]. unbool.
    assert (2 * (Z.of_nat (length locals) + 1) <= Z.of_nat (length (index t))); [|lia].
    pose proof (Z.mul_div_le (Z.of_nat (length (index t))) 2). lia. }
  destruct (next_capacity_spec (Z.of_nat (length locals) + 1)) as (c & -> & Hcap); [lia|].
  unfold u32_max in Hmax. rewrite (proj2 (Z.eqb_neq _ 0)), (proj2 (Z.ltb_ge _ _)) in Hcap by lia.
  destruct Hcap as (j & Hj & -> & Hle). pose proof (Z.pow_pos_nonneg 2 j).
  rewrite (proj2 (Z.eqb_neq _ 0)) by lia.
  destruct allocated; simpl negb; cbn iota; [|exists io_error, t; split; [done|by left]].
  destruct (vacant_table empty_slot slot_occupied slot_hash eq_refl j) as [Hok He]; [lia|].
  assert (0 < 2 ^ j) as Hp by (apply Z.pow_pos_nonneg; lia).
  assert (8 <= 2 ^ j) as H8 by (apply (Z.pow_le_mono_r 2 3 j); lia).
  rewrite (record_slots_locals _ _ Hi).
  destruct (insert_all_spec empty_slot slot_occupied slot_hash
    (replicate (Z.to_nat (2 ^ j)) empty_slot) (slots_of (baseline_string_count t) locals) Hok)
    as (T' & -> & Hok' & Hl' & He').
  { apply Forall_forall. intros s Hs. apply elem_of_slots in Hs as (i & v & _ & ->).
    by apply slot_occupied_local. }
  { rewrite He. unfold slots_of. rewrite length_imap, length_replicate. simpl. lia. }
  rewrite He, app_nil_r in He'. rewrite length_replicate in Hl'.
  exists success, (with_index T' t). split; [done|]. right. split; [done|].
  split; [by eexists|]. split; [|simpl; lia]. apply with_index_inv; try done; lia.
Qed.

(** ** Interning *)

(** A new string after everything that was checked. *)
Lemma append_inv t locals v idx :
  table_inv t locals -> v <> [] -> v ∉ locals -> not_local t v = 0 ->
  u32_full t v = false ->
  table_ok empty_slot slot_occupied slot_hash idx ->
  (2 * S (length locals) <= length idx)%nat -> (8 <= length idx)%nat ->
  entries slot_occupied idx
  ≡ₚ StringSlot (hash_text v) (baseline_string_count t + Z.of_nat (length locals) + 1)
     :: slots_of (baseline_string_count t) locals ->
  table_inv
    (StringTable (baseline t) (baseline_string_count t) (baseline_byte_count t)
      (records t ++ [StringRecord (u32 (arena_size t)) (u32 (Z.of_nat (length v))) (hash_text v)])
      (bytes t ++ v) idx) (locals ++ [v]).
Proof.
  intros Hi Hv Hnew Hnb Hfull Hok Hload Hmin He. pose proof (count_nonneg _ _ Hi).
  pose proof (byte_count_nonneg _ _ Hi). unfold u32_full in Hfull. unbool.
  rewrite (record_count_locals _ _ Hi) in *. unfold u32_max, arena_size in *.
  destruct Hi as [Hb Hr Hby Hcnt Hsz Hne Hd Hn _]. split; simpl; try done.
  - rewrite layout_app, Hr. simpl. unfold u32, arena_size. rewrite Hby in *.
    rewrite !Z.mod_small by lia. done.
  - rewrite join_app, Hby. simpl. by rewrite app_nil_r.
  - rewrite length_app. simpl. unfold u32_max in *. lia.
  - unfold arena_size, u32_max in *. simpl. rewrite length_app. lia.
  - apply Forall_app. split; [done|by repeat constructor].
  - apply NoDup_app. split; [done|]. split; [|apply NoDup_singleton].
    intros w Hw Hw'. apply list_elem_of_singleton in Hw' as ->. done.
  - intros b w Hbw Hw. apply elem_of_app in Hw as [Hw|Hw]; [by eapply Hn|].
    apply list_elem_of_singleton in Hw as ->. unfold not_local in Hnb. by rewrite Hbw in Hnb.
  - right. rewrite length_app. simpl. split; [done|]. split; [lia|]. split; [done|].
    rewrite He. unfold slots_of. rewrite imap_app. simpl. rewrite Nat.add_0_r.
    solve_Permutation.
Qed.

(** Everything a caller sees of [t'] is what it saw of [t]. *)
Definition same_strings t t' : Prop :=
  table_size t' = table_size t /\ byte_size t' = byte_size t /\
  forall id, get t' id = get t id.

Lemma same_with_index idx t : same_strings t (with_index idx t).
Proof. done. Qed.

(** Why a call can fail: an allocation, or the 32-bit counters. *)
Definition exhausted (a : allocation) t (v : list byte) : Prop :=
  index_allocated a = false \/ copy_allocated a = false \/ append_allocated a = false \/
  u32_full t v = true.

Lemma intern_spec t locals v a :
  table_inv t locals -> v <> [] ->
  exists st id t', intern v a t = Some (st, id, t') /\
    (st = success /\ id = find t v /\ id <> 0 /\ t' = t \/
     st = success /\ find t v = 0 /\ id = table_size t + 1 /\
       baseline t' = baseline t /\ baseline_string_count t' = baseline_string_count t /\
       table_inv t' (locals ++ [v]) \/
     st = io_error /\ id = 0 /\ exhausted a t v /\ table_inv t' locals /\ same_strings t t').
Proof.
  intros Hi Hv. unfold intern, find, insert_index. destruct v as [|c v]; [done|].
  set (w := c :: v) in *. destruct (find_hashed_spec t locals w Hi) as [Hloc Hnot].
  destruct (Z.eqb_spec (find_hashed t w (hash_text w)) 0) as [E|E]; simpl negb; cbn iota.
  2: { eexists _, _, _. split; [done|]. by left. }
  assert (w ∉ locals) as Hnew.
  { intros Hin. apply list_elem_of_lookup in Hin as [i Hin]. apply Hloc in Hin.
    pose proof (count_nonneg _ _ Hi). lia. }
  pose proof (Hnot Hnew) as Hnb. rewrite E in Hnb. symmetry in Hnb.
  destruct (ensure_index_spec t locals (index_allocated a) Hi)
    as (st & t1 & -> & [(-> & -> & Ha)|(-> & [idx ->] & Hi1 & Hload)]).
  { eexists _, _, _. split; [done|]. right. right. split_and!; try done. by left. }
  simpl negb. cbn iota.
  change (u32_full (with_index idx t) w) with (u32_full t w).
  repeat match goal with |- context [if ?c then Some (io_error, 0, _) else _] =>
    destruct c eqn:?; [eexists _, _, _; split; [done|]; right; right; unbool;
      split; [done|]; split; [done|]; split; [unfold exhausted; tauto|by split]|] end.
  pose proof (count_nonneg _ _ Hi1) as Hc. cbn [with_index baseline_string_count] in Hc.
  destruct (inv_index _ _ Hi1) as [[-> Hidx]|(Hok & Hload1 & Hmin & He)].
  { exfalso. cbn [with_index index] in Hidx, Hload. rewrite Hidx in Hload. simpl in Hload. lia. }
  assert (u32 (baseline_string_count t + Z.of_nat (length (records t ++
    [StringRecord (u32 (arena_size (with_index idx t))) (u32 (Z.of_nat (length w)))
       (hash_text w)])))
    = baseline_string_count t + Z.of_nat (length locals) + 1) as Hout.
  { match goal with Hf : u32_full _ _ = false |- _ => unfold u32_full in Hf; clear -Hf Hc Hi Hi1 end.
    unbool. rewrite (inv_records _ _ Hi), length_app, length_layout. simpl.
    rewrite (record_count_locals _ _ Hi) in *.
    unfold u32_max in *. cbn [with_index baseline_string_count] in *.
    unfold u32. rewrite Z.mod_small; lia. }
  cbn [with_index baseline_string_count records index] in *. rewrite Hout.
  destruct (insert_slot_spec empty_slot slot_occupied slot_hash idx
    (StringSlot (hash_text w) (baseline_string_count t + Z.of_nat (length locals) + 1)) Hok)
    as (idx' & -> & Hok' & Hl' & He').
  { apply entries_room. rewrite He. unfold slots_of. rewrite length_imap. lia. }
  { by apply slot_occupied_local. }
  eexists _, _, _. split; [done|]. right. left. split; [done|]. split; [done|].
  split; [unfold table_size; by rewrite (record_count_locals _ _ Hi)|]. split; [done|].
  split; [done|]. apply (append_inv (with_index idx t)); try done; [lia|lia|].
  cbn [with_index baseline_string_count]. by rewrite He', He.
Qed.

(** ** Identities and spellings *)

Lemma find_get t locals v id :
  table_inv t locals -> v <> [] ->
  (find t v = id /\ id <> 0) <-> (1 <= id <= table_size t /\ get t id = v).
Proof.
  intros Hi Hv. pose proof (count_nonneg _ _ Hi) as Hc.
  destruct (find_hashed_spec t locals v Hi) as [Hloc Hnot].
  assert (find t v = find_hashed t v (hash_text v)) as -> by by destruct v.
  unfold table_size. rewrite (record_count_locals _ _ Hi).
  assert (forall b, baseline t = Some b -> baseline_valid b = true /\
    baseline_string_count t = string_count b) as Hbase.
  { intros b Hb. pose proof (inv_baseline _ _ Hi) as Hinv. rewrite Hb in Hinv. tauto. }
  split.
  - intros [<- Hne]. destruct (decide (v ∈ locals)) as [Hin|Hnin].
    + apply list_elem_of_lookup in Hin as [i Hin]. rewrite (Hloc i Hin).
      split; [apply lookup_lt_Some in Hin; lia|by eapply get_local].
    + rewrite (Hnot Hnin) in *. unfold not_local in *. destruct (baseline t) as [b|] eqn:Eb; [|done].
      destruct (Hbase b eq_refl) as [Hval Hcnt]. pose proof (baseline_find_range b v Hval).
      split; [lia|]. unfold get. rewrite Eb, (proj2 (Z.eqb_neq _ 0)) by done.
      rewrite (proj2 (Z.leb_le _ _)) by lia. by apply baseline_find_string.
  - intros [Hid Hget]. split; [|lia]. destruct (Z.leb_spec id (baseline_string_count t)) as [Hle|Hgt].
    + unfold get in Hget. rewrite (proj2 (Z.eqb_neq _ 0)), (proj2 (Z.leb_le _ _)) in Hget by lia.
      destruct (baseline t) as [b|] eqn:Eb; [|by subst].
      destruct (Hbase b eq_refl) as [Hval Hcnt].
      destruct (baseline_string_find b id Hval) as [Hne Hfind]; [lia|]. rewrite Hget in *.
      rewrite Hnot; [unfold not_local; by rewrite Eb|].
      intros Hin. pose proof (inv_new _ _ Hi b v Eb Hin). lia.
    + destruct (lookup_lt_is_Some_2 locals (Z.to_nat (id - baseline_string_count t - 1)))
        as [w Hw]; [lia|].
      pose proof (get_local _ _ _ _ Hi Hw) as Hgw.
      replace (baseline_string_count t + Z.of_nat (Z.to_nat (id - baseline_string_count t - 1)) + 1)
        with id in Hgw by lia.
      assert (w = v) as -> by congruence. rewrite (Hloc _ Hw). lia.
Qed.

(** Interning a new string leaves every older identity as it was. *)
Lemma get_append t t' locals v id :
  table_inv t locals -> table_inv t' (locals ++ [v]) -> baseline t' = baseline t ->
  baseline_string_count t' = baseline_string_count t -> id <= table_size t ->
  get t' id = get t id.
Proof.
  intros Hi Hi' Hb Hcb Hid. unfold table_size in Hid. rewrite (record_count_locals _ _ Hi) in Hid.
  pose proof (count_nonneg _ _ Hi).
  destruct (Z.leb_spec id (baseline_string_count t)).
  - unfold get. rewrite Hb, Hcb. rewrite (proj2 (Z.leb_le _ _)) by done. done.
  - destruct (lookup_lt_is_Some_2 locals (Z.to_nat (id - baseline_string_count t - 1)))
      as [w Hw]; [lia|].
    pose proof (get_local _ _ _ _ Hi Hw) as Hg1.
    pose proof (get_local t' _ (Z.to_nat (id - baseline_string_count t - 1)) w Hi') as Hg2.
    rewrite Hcb in Hg2.
    replace (baseline_string_count t + Z.of_nat (Z.to_nat (id - baseline_string_count t - 1)) + 1)
      with id in * by lia.
    rewrite Hg1. apply Hg2. by apply lookup_app_l_Some.
Qed.

(** The tables a program can build. *)
Inductive reachable : string_table B -> Prop :=
| reach_new : reachable new_string_table
| reach_bind b t : reachable t -> reachable (bind_baseline b t).2
| reach_intern v a t st id t' :
    reachable t -> intern v a t = Some (st, id, t') -> reachable t'.

Lemma new_inv : table_inv new_string_table [].
Proof.
  split; simpl; first [done | by left | by apply NoDup_nil].
Qed.

Lemma bind_inv b t locals :
  table_inv t locals -> exists locals', table_inv (bind_baseline b t).2 locals'.
Proof.
  intros Hi. exists locals. unfold bind_baseline. destruct (_ || _) eqn:E1; [done|].
  destruct ((u32_max <? string_count b) || _) eqn:E2; [done|]. unbool.
  pose proof (string_count_nonneg b). pose proof (string_byte_size_nonneg b).
  assert (locals = []) as ->.
  { destruct locals; [done|]. rewrite (inv_records _ _ Hi) in *. done. }
  split; cbn [baseline baseline_string_count baseline_byte_count records bytes index snd].
  - done.
  - apply Hi.
  - apply Hi.
  - simpl. lia.
  - unfold arena_size. cbn [bytes]. rewrite (inv_bytes _ _ Hi). simpl. lia.
  - constructor.
  - constructor.
  - intros ? ? _ Hv. by apply elem_of_nil in Hv.
  - left. split; [done|]. by destruct (index t).
Qed.

Lemma reachable_inv t : reachable t -> exists locals, table_inv t locals.
Proof.
  induction 1 as [|b t _ [locals Hi]|v a t st id t' _ [locals Hi] Hin].
  - exists []. apply new_inv.
  - by eapply bind_inv.
  - destruct v as [|c v]; [simpl in Hin; simplify_eq; by eexists|].
    destruct (intern_spec t locals (c :: v) a Hi) as (? & ? & ? & Heq & Hcase); [done|].
    rewrite Hin in Heq. simplify_eq.
    destruct Hcase as [(_ & _ & _ & ->)|[(_ & _ & _ & _ & _ & Hi')|(_ & _ & _ & Hi' & _)]]; eauto.
Qed.
End Invariant.

(** ** A baseline given by its strings *)

(** Reference instance of the interface: the persisted strings as a list. *)
Definition position_of (strings : list (list byte)) (v : list byte) : Z :=
  match list_find (fun w => w = v) strings with
  | Some (i, _) => Z.of_nat i + 1
  | None => 0
  end.

#[export] Instance list_strings : BaselineStrings (list (list byte)) := {
  baseline_valid strings := bool_decide (NoDup strings /\ Forall (fun v => v <> []) strings);
  string_count strings := Z.of_nat (length strings);
  string_byte_size strings := Z.of_nat (length (mjoin strings));
  baseline_string strings id := nth (Z.to_nat (id - 1)) strings [];
  baseline_find := position_of
}.

#[export] Instance list_strings_laws : BaselineLaws (list (list byte)).
Proof.
  split; simpl; try lia.
  - intros b v _. unfold position_of. destruct (list_find _ b) as [[i w]|] eqn:E; [|lia].
    apply list_find_Some in E as [E _]. apply lookup_lt_Some in E. lia.
  - intros b v _ Hne. unfold position_of in *.
    destruct (list_find _ b) as [[i w]|] eqn:E; [|done].
    apply list_find_Some in E as (E & -> & _). replace (Z.to_nat (Z.of_nat i + 1 - 1)) with i by lia.
    by apply nth_lookup_Some with (d := []) in E.
  - intros b id Hv Hid. apply bool_decide_eq_true in Hv as [Hnd Hne].
    destruct (lookup_lt_is_Some_2 b (Z.to_nat (id - 1))) as [w Hw]; [lia|].
    rewrite (nth_lookup_Some _ _ _ _ Hw). split; [exact (Forall_lookup_1 _ _ _ _ Hne Hw)|].
    unfold position_of. destruct (list_find _ b) as [[i w']|] eqn:E.
    + apply list_find_Some in E as (E & -> & _). pose proof (NoDup_lookup _ _ _ _ Hnd E Hw). lia.
    + rewrite list_find_None in E. apply list_elem_of_lookup_2 in Hw.
      by apply (proj1 (Forall_forall _ _) E) in Hw.
Qed.

(** ** The contract of the string table *)

(** In every table a program can build, identities and spellings correspond one
    to one: [find] returns a nonzero identity exactly for the strings that [get]
    reads at a valid identity, so equal strings share one identity and different
    strings never do, across the baseline and the local records. *)
Theorem string_identities_canonical {B} `{BaselineLaws B}
    (t : string_table B) (v : list byte) (id : string_id) :
  reachable t -> v <> [] ->
  (find t v = id /\ id <> 0) <-> (1 <= id <= table_size t /\ get t id = v).
Proof. intros Ht Hv. destruct (reachable_inv t Ht) as [locals Hi]. by eapply find_get. Qed.

Definition example_table : string_table (list (list byte)) :=
  (bind_baseline [str "alpha"; str "beta"] new_string_table).2.

Definition allocated : allocation := Allocation true true true false.

Lemma string_identities_canonical_witness :
  (find example_table (str "beta") = 2 /\ 2 <> 0) <->
  (1 <= 2 <= table_size example_table /\ get example_table 2 = str "beta").
Proof.
  apply string_identities_canonical; [|done]. unfold example_table. apply reach_bind, reach_new.
Defined.

(** [intern] always returns. It gives a known string its identity and changes
    nothing; gives a new string the next identity, under which it is found and read
    back, without disturbing any other; or, only when memory or the 32-bit
    counters are exhausted, reports an I/O error and leaves every string and
    identity as it was. *)
Theorem intern_outcomes {B} `{BaselineLaws B}
    (t : string_table B) (v : list byte) (a : allocation) :
  reachable t -> v <> [] ->
  exists st id t', intern v a t = Some (st, id, t') /\
    (st = success /\ id = find t v /\ id <> 0 /\ t' = t \/
     st = success /\ find t v = 0 /\ id = table_size t + 1 /\
       find t' v = id /\ get t' id = v /\ table_size t' = id /\
       (forall id', id' <= table_size t -> get t' id' = get t id') \/
     st = io_error /\ id = 0 /\ exhausted a t v /\ same_strings t t').
Proof.
  intros Ht Hv. destruct (reachable_inv t Ht) as [locals Hi].
  destruct (intern_spec t locals v a Hi Hv) as (st & id & t' & Hint & Hcase).
  exists st, id, t'. split; [done|].
  destruct Hcase as [?|[(-> & Hf & -> & Hb & Hcb & Hi')|(-> & -> & Hex & _ & Hsame)]]; [by left| |auto 10].
  right. left. split; [done|]. split; [done|]. split; [done|].
  assert (table_size t' = table_size t + 1) as Hsz.
  { unfold table_size. rewrite Hcb, (record_count_locals _ _ Hi), (record_count_locals _ _ Hi').
    rewrite length_app. simpl. lia. }
  pose proof (count_nonneg _ _ Hi).
  assert (get t' (table_size t + 1) = v) as Hget.
  { pose proof (get_local t' _ (length locals) v Hi') as Hg.
    rewrite lookup_app_r, Nat.sub_diag in Hg by done. rewrite Hcb in Hg.
    unfold table_size. rewrite (record_count_locals _ _ Hi). by apply Hg. }
  assert (1 <= table_size t + 1 <= table_size t') as Hrange.
  { unfold table_size in *. rewrite (record_count_locals _ _ Hi) in *. lia. }
  split; [by apply (find_get t' (locals ++ [v]) v)|]. split; [done|]. split; [done|].
  intros id' Hid'. by eapply get_append.
Qed.

Lemma intern_outcomes_witness :
  exists st id t', intern (str "gamma") allocated example_table = Some (st, id, t') /\
    (st = success /\ id = find example_table (str "gamma") /\ id <> 0 /\ t' = example_table \/
     st = success /\ find example_table (str "gamma") = 0 /\ id = table_size example_table + 1 /\
       find t' (str "gamma") = id /\ get t' id = str "gamma" /\ table_size t' = id /\
       (forall id', id' <= table_size example_table -> get t' id' = get example_table id') \/
     st = io_error /\ id = 0 /\ exhausted allocated example_table (str "gamma") /\
       same_strings example_table t').
Proof.
  apply intern_outcomes; [|done]. unfold example_table. apply reach_bind, reach_new.
Defined.
