(* ===== verification/Identity.v ===== *)
(** The identity space of a project (project/semantic/identity.hpp and .cpp): packed
    references to roots, namespaces, types and objects, each known by its parent, its
    name and its kind, on top of the identities of a persisted image, with an
    open-addressed index.  The image is seen through the interface
    [BaselineIdentities]; the strings of the names are the string table's. *)

From Stdlib Require Import Sorted.
From S2P Require Import Prelude ServerStatus HashIndex StringTable.

Local Open Scope Z_scope.

(** ** References *)

Inductive identity_kind := kind_root | kind_namespace_scope | kind_type | kind_object.

#[export] Instance identity_kind_eq_dec : EqDecision identity_kind.
Proof. solve_decision. Defined.

Definition kind_number (k : identity_kind) : Z :=
  match k with kind_root => 0 | kind_namespace_scope => 1 | kind_type => 2 | kind_object => 3 end.

(** [static_cast<identity_kind>] of two bits. *)
Definition kind_of_number (n : Z) : identity_kind :=
  if n =? 0 then kind_root
  else if n =? 1 then kind_namespace_scope
  else if n =? 2 then kind_type
  else kind_object.

(** [identity_ref] is its packed word. *)
Abbreviation identity_ref := Z (only parsing).

Definition kind_shift : Z := 30.
Definition slot_mask : Z := 0x3fffffff.
Definition maximum_slot : Z := slot_mask.

Definition slot (r : identity_ref) : Z := Z.land r slot_mask.
Definition kind (r : identity_ref) : identity_kind := kind_of_number (Z.shiftr r kind_shift).
Definition valid (r : identity_ref) : bool := negb (slot r =? 0).

Definition make (s : Z) (k : identity_kind) : identity_ref :=
  if negb (s =? 0) && (s <=? maximum_slot)
  then Z.lor (u32 (Z.shiftl (kind_number k) kind_shift)) s
  else 0.

Definition root : identity_ref := make 1 kind_root.

Record identity_record := IdentityRecord { parent : identity_ref; name : string_id }.

#[export] Instance identity_record_eq_dec : EqDecision identity_record.
Proof. solve_decision. Defined.

(** ** What the space relies on of a [compiled_project_view] *)

Class BaselineIdentities (B : Type) := {
  identity_count : B -> Z;
  identity_root : B -> identity_ref;
  identity_valid : B -> identity_ref -> bool;
  identity_parent : B -> identity_ref -> identity_ref;
  identity_name : B -> identity_ref -> string_id;
  identity_at_slot : B -> Z -> identity_ref;
  find_identity : B -> identity_ref -> string_id -> identity_kind -> identity_ref
}.

(** In a valid image the slots up to its count hold identities, each after its
    parent and with a name, and [find_identity] inverts their records. *)
Class IdentityLaws (B : Type) `{BaselineStrings B, BaselineIdentities B} := {
  identity_count_range (b : B) : 0 <= identity_count b;
  identity_at_slot_valid b s :
    baseline_valid b = true -> 2 <= s <= identity_count b ->
    slot (identity_at_slot b s) = s /\ identity_valid b (identity_at_slot b s) = true /\
    kind (identity_at_slot b s) <> kind_root /\ 0 <= identity_at_slot b s < 2 ^ 32;
  identity_valid_at b r :
    baseline_valid b = true -> 2 <= slot r <= identity_count b -> identity_valid b r = true ->
    identity_at_slot b (slot r) = r;
  identity_parent_before b r :
    baseline_valid b = true -> 2 <= slot r <= identity_count b -> identity_valid b r = true ->
    1 <= slot (identity_parent b r) < slot r /\ 0 <= identity_parent b r < 2 ^ 32 /\
    (identity_parent b r = root \/ slot (identity_parent b r) <> 1 /\
       identity_valid b (identity_parent b r) = true) /\
    identity_name b r <> 0;
  find_identity_found b p n k :
    baseline_valid b = true -> find_identity b p n k <> 0 ->
    2 <= slot (find_identity b p n k) <= identity_count b /\
    identity_valid b (find_identity b p n k) = true /\
    identity_parent b (find_identity b p n k) = p /\ identity_name b (find_identity b p n k) = n /\
    kind (find_identity b p n k) = k;
  find_identity_record b r :
    baseline_valid b = true -> 2 <= slot r <= identity_count b -> identity_valid b r = true ->
    find_identity b (identity_parent b r) (identity_name b r) (kind r) = r
}.

(** ** The space *)

Record identity_slot := IdentitySlot { slot_fingerprint : Z; slot_identity : identity_ref }.

Definition empty_slot : identity_slot := IdentitySlot 0 0.
Definition slot_occupied (s : identity_slot) : bool := valid (slot_identity s).

#[export] Instance identity_slot_inhabited : Inhabited identity_slot := populate empty_slot.

Record identity_space (B : Type) := IdentitySpace {
  baseline : option B;
  baseline_identity_count : Z;
  records : list identity_record;
  kinds : list identity_kind;
  index : list identity_slot
}.
Arguments IdentitySpace {B}.
Arguments baseline {B}.
Arguments baseline_identity_count {B}.
Arguments records {B}.
Arguments kinds {B}.
Arguments index {B}.

Definition root_record : identity_record := IdentityRecord 0 0.

Section Operations.
Context {B : Type} `{BaselineStrings B, BaselineIdentities B}.

Definition new_identity_space : identity_space B := IdentitySpace None 1 [] [] [].

(** [same] tells whether the string table is bound to the same image. *)
Definition bind_baseline (b : B) (same : bool) (t : identity_space B)
  : server_status * identity_space B :=
  if negb (baseline_valid b) || match baseline t with Some _ => true | None => false end ||
     negb same ||
     negb match records t with [] => true | _ => false end ||
     negb match kinds t with [] => true | _ => false end ||
     negb match index t with [] => true | _ => false end ||
     (identity_count b =? 0) || (maximum_slot <? identity_count b) ||
     negb (identity_root b =? root)
  then (project_artifact_invalid, t)
  else (success, IdentitySpace (Some b) (identity_count b) (records t) (kinds t) (index t)).

Definition mix64 (value : Z) : Z :=
  let value := Z.lxor value (Z.shiftr value 30) in
  let value := u64 (value * 0xbf58476d1ce4e5b9) in
  let value := Z.lxor value (Z.shiftr value 27) in
  let value := u64 (value * 0x94d049bb133111eb) in
  Z.lxor value (Z.shiftr value 31).

Definition hash_key (p : identity_ref) (n : string_id) (k : identity_kind) : Z :=
  let value := Z.lor p (u64 (Z.shiftl n 32)) in
  mix64 (Z.lxor value (u64 (kind_number k * 0x9e3779b97f4a7c15))).

Definition fingerprint (hash : Z) : Z :=
  let value := u32 (Z.lxor hash (Z.shiftr hash 32)) in
  if value =? 0 then 1 else value.

Definition local_index (t : identity_space B) (s : Z) : nat :=
  Z.to_nat (s - baseline_identity_count t - 1).

Definition contains (t : identity_space B) (r : identity_ref) : bool :=
  if negb (valid r) then false
  else if slot r =? 1 then bool_decide (kind r = kind_root)
  else
    let local :=
      match records t !! local_index t (slot r), kinds t !! local_index t (slot r) with
      | Some _, Some k => bool_decide (k = kind r)
      | _, _ => false
      end in
    if slot r <=? baseline_identity_count t
    then match baseline t with Some b => identity_valid b r | None => false end
    else local.

(** [None] is the return of [false]. *)
Definition record (t : identity_space B) (r : identity_ref) : option identity_record :=
  if negb (contains t r) then None
  else if slot r =? 1 then Some root_record
  else
    match baseline t with
    | Some b =>
        if slot r <=? baseline_identity_count t then
          let p := identity_parent b r in
          let n := identity_name b r in
          if negb (valid p) || (n =? 0) then None else Some (IdentityRecord p n)
        else records t !! local_index t (slot r)
    | None => records t !! local_index t (slot r)
    end.

Definition at_slot (t : identity_space B) (s : Z) : identity_ref :=
  if s =? 0 then 0
  else if s =? 1 then root
  else
    let local :=
      match records t !! local_index t s, kinds t !! local_index t s with
      | Some _, Some k => make s k
      | _, _ => 0
      end in
    if s <=? baseline_identity_count t
    then match baseline t with Some b => identity_at_slot b s | None => 0 end
    else local.

Definition same_key (t : identity_space B) (r p : identity_ref) (n : string_id) (k : identity_kind)
  : bool :=
  if negb (contains t r) || negb (bool_decide (kind r = k)) ||
     (slot r <=? baseline_identity_count t)
  then false
  else match record t r with
       | Some value => (parent value =? p) && (name value =? n)
       | None => false
       end.

Definition slot_matches (t : identity_space B) (p : identity_ref) (n : string_id)
    (k : identity_kind) (expected : Z) (s : identity_slot) : bool :=
  (slot_fingerprint s =? expected) && same_key t (slot_identity s) p n k.

Definition find_key (t : identity_space B) (p : identity_ref) (n : string_id) (k : identity_kind)
    (hash expected : Z) : identity_ref :=
  match index t with
  | [] => 0
  | _ =>
      match probe empty_slot (index t) (rejects slot_occupied (slot_matches t p n k expected))
              (length (index t)) (home (index t) hash) with
      | Some position =>
          let found := index t !!! position in
          if slot_occupied found then slot_identity found else 0
      | None => 0
      end
  end.

(** [known] is [strings.contains(name)]. *)
Definition find (known : bool) (p : identity_ref) (n : string_id) (k : identity_kind)
    (t : identity_space B) : identity_ref :=
  if negb (contains t p) || negb known || bool_decide (k = kind_root) then 0
  else
    let hash := hash_key p n k in
    let local := find_key t p n k hash (fingerprint hash) in
    if valid local then local
    else match baseline t with Some b => find_identity b p n k | None => 0 end.

(** An index entry with the hash that [insert_index] was called with. *)
Definition insert_index (target : list identity_slot) (r : identity_ref) (hash : Z)
  : option (list identity_slot) :=
  match probe empty_slot target (fun s => negb (slot_occupied s)) (length target)
          (home target hash) with
  | Some position => Some (<[position := IdentitySlot (fingerprint hash) r]> target)
  | None => None
  end.

(** The rehash loop of [ensure_index_capacity] over the records from [current] on. *)
Fixpoint insert_records (t : identity_space B) (current : nat) (rs : list identity_record)
    (target : list identity_slot) : option (list identity_slot) :=
  match rs with
  | [] => Some target
  | value :: rs =>
      let r := at_slot t (u32 (baseline_identity_count t + Z.of_nat current + 1)) in
      match insert_index target r (hash_key (parent value) (name value) (kind r)) with
      | Some target => insert_records t (S current) rs target
      | None => None
      end
  end.

Definition record_count (t : identity_space B) : Z := Z.of_nat (length (records t)).
Definition size (t : identity_space B) : Z := baseline_identity_count t + record_count t.

Definition with_index (i : list identity_slot) (t : identity_space B) : identity_space B :=
  IdentitySpace (baseline t) (baseline_identity_count t) (records t) (kinds t) i.

(** [None] is a loop that does not end. *)
Definition ensure_index_capacity (additional : Z) (allocated : bool) (t : identity_space B)
  : option (server_status * identity_space B) :=
  if size_max - record_count t <? additional then Some (io_error, t)
  else
    let required := record_count t + additional in
    if negb (match index t with [] => true | _ => false end) &&
       (required <=? Z.of_nat (length (index t)) / 2)
    then Some (success, t)
    else
      match next_capacity required with
      | None => None
      | Some capacity =>
          if capacity =? 0 then Some (io_error, t)
          else if negb allocated then Some (io_error, t)
          else
            match insert_records t 0 (records t) (replicate (Z.to_nat capacity) empty_slot) with
            | None => None
            | Some candidate => Some (success, with_index candidate t)
            end
      end.

(** The outcomes of the allocations of one call. *)
Record allocation := Allocation { index_allocated : bool; append_allocated : bool }.

Definition resolve (known : bool) (p : identity_ref) (n : string_id) (k : identity_kind)
    (a : allocation) (t : identity_space B)
  : option (server_status * identity_ref * identity_space B) :=
  if negb (contains t p) || negb known || bool_decide (k = kind_root)
  then Some (project_configuration_invalid, 0, t)
  else
    let hash := hash_key p n k in
    let existing := find_key t p n k hash (fingerprint hash) in
    if valid existing then Some (success, existing, t)
    else
      let persisted := match baseline t with Some b => find_identity b p n k | None => 0 end in
      if valid persisted then Some (success, persisted, t)
      else
        match ensure_index_capacity 1 (index_allocated a) t with
        | None => None
        | Some (prepared, t) =>
            if negb (succeeded prepared) then Some (prepared, 0, t)
            else if maximum_slot <=? size t then Some (io_error, 0, t)
            else
              let r := make (u32 (size t + 1)) k in
              if negb (valid r) then Some (io_error, 0, t)
              else if negb (append_allocated a) then Some (io_error, 0, t)
              else
                match insert_index (index t) r hash with
                | None => None
                | Some index' =>
                    Some (success, r,
                      IdentitySpace (baseline t) (baseline_identity_count t)
                        (records t ++ [IdentityRecord p n]) (kinds t ++ [k]) index')
                end
        end.
End Operations.

(** ** Packing *)

Lemma make_value s k : 1 <= s <= maximum_slot -> make s k = kind_number k * 2 ^ 30 + s.
Proof.
  intros Hs. unfold make. change maximum_slot with (2 ^ 30 - 1) in *.
  rewrite (proj2 (Z.eqb_neq _ _)), (proj2 (Z.leb_le _ _)) by lia. cbn [negb andb].
  unfold kind_shift. rewrite Z.shiftl_mul_pow2 by lia.
  assert (u32 (kind_number k * 2 ^ 30) = kind_number k * 2 ^ 30) as -> by by destruct k.
  apply lor_disjoint; lia.
Qed.

Lemma make_slot s k : 1 <= s <= maximum_slot -> slot (make s k) = s.
Proof.
  intros Hs. rewrite make_value by done. unfold slot. change slot_mask with (2 ^ 30 - 1).
  change maximum_slot with (2 ^ 30 - 1) in *. rewrite land_ones_mod by lia.
  rewrite Z.add_comm, Z_mod_plus_full. apply Z.mod_small. lia.
Qed.

Lemma make_kind s k : 1 <= s <= maximum_slot -> kind (make s k) = k.
Proof.
  intros Hs. rewrite make_value by done. unfold kind. unfold kind_shift.
  change maximum_slot with (2 ^ 30 - 1) in *. rewrite Z.shiftr_div_pow2 by lia.
  assert ((kind_number k * 2 ^ 30 + s) / 2 ^ 30 = kind_number k) as -> by divlia. by destruct k.
Qed.

Lemma slot_range r : 0 <= slot r <= maximum_slot.
Proof.
  unfold slot. change slot_mask with (2 ^ 30 - 1). change maximum_slot with (2 ^ 30 - 1).
  pose proof (land_bound_r r 30). lia.
Qed.

(** A reference is its slot and its kind. *)
Lemma make_parts r : 0 <= r < 2 ^ 32 -> slot r <> 0 -> make (slot r) (kind r) = r.
Proof.
  intros Hr Hs. pose proof (slot_range r). rewrite make_value by lia. unfold kind, slot, kind_shift.
  change slot_mask with (2 ^ 30 - 1) in *. rewrite land_ones_mod, Z.shiftr_div_pow2 by lia.
  assert (0 <= r / 2 ^ 30 <= 3) as Hk by divlia.
  assert (kind_number (kind_of_number (r / 2 ^ 30)) = r / 2 ^ 30) as ->.
  { assert (r / 2 ^ 30 = 0 \/ r / 2 ^ 30 = 1 \/ r / 2 ^ 30 = 2 \/ r / 2 ^ 30 = 3)
      as [-> | [-> | [-> | ->]]] by lia; done. }
  divlia.
Qed.

Lemma make_valid s k : 1 <= s <= maximum_slot -> valid (make s k) = true.
Proof. intros Hs. unfold valid. rewrite make_slot by done. apply negb_true_iff, Z.eqb_neq. lia. Qed.

(** ** The invariant *)

Section Invariant.
Context {B : Type} `{IdentityLaws B}.
Abbreviation local := (identity_ref * string_id * identity_kind)%type.
Implicit Types (t : identity_space B) (locals : list local).

Definition key_hash (l : local) : Z := hash_key l.1.1 l.1.2 l.2.

Definition slot_of (base : Z) (i : nat) (l : local) : identity_slot :=
  IdentitySlot (fingerprint (key_hash l)) (make (base + Z.of_nat i + 1) l.2).

Definition slots_of (base : Z) (ls : list local) : list identity_slot := imap (slot_of base) ls.

(** The hash an index entry was inserted with. *)
Definition entry_hash (base : Z) locals (s : identity_slot) : Z :=
  match locals !! Z.to_nat (slot (slot_identity s) - base - 1) with
  | Some l => key_hash l
  | None => 0
  end.

(** The space [t] holds the identities [locals] on top of its image. *)
Record space_inv t locals : Prop := SpaceInv {
  inv_baseline :
    match baseline t with
    | Some b => baseline_valid b = true /\ baseline_identity_count t = identity_count b
    | None => baseline_identity_count t = 1
    end;
  inv_base : 1 <= baseline_identity_count t;
  inv_records : records t = (fun l => IdentityRecord l.1.1 l.1.2) <$> locals;
  inv_kinds : kinds t = snd <$> locals;
  inv_count : baseline_identity_count t + Z.of_nat (length locals) <= maximum_slot;
  inv_distinct : NoDup locals;
  inv_new : forall b p n k, baseline t = Some b -> (p, n, k) ∈ locals -> find_identity b p n k = 0;
  inv_parents : forall i p n k, locals !! i = Some (p, n, k) ->
    k <> kind_root /\ 0 <= p < 2 ^ 32 /\ slot p <= baseline_identity_count t + Z.of_nat i /\
    contains t p = true;
  inv_index :
    locals = [] /\ index t = [] \/
    table_ok empty_slot slot_occupied (entry_hash (baseline_identity_count t) locals) (index t) /\
    (2 * length locals <= length (index t))%nat /\ (8 <= length (index t))%nat /\
    entries slot_occupied (index t) ≡ₚ slots_of (baseline_identity_count t) locals
}.

Lemma identity_record_count_locals t locals : space_inv t locals -> record_count t = Z.of_nat (length locals).
Proof. intros Hi. unfold record_count. by rewrite (inv_records _ _ Hi), length_fmap. Qed.

(** The local identity at index [i]. *)
Lemma local_parts t locals i l :
  space_inv t locals -> locals !! i = Some l ->
  let r := make (baseline_identity_count t + Z.of_nat i + 1) l.2 in
  slot r = baseline_identity_count t + Z.of_nat i + 1 /\ kind r = l.2 /\ valid r = true /\
  slot r <> 1 /\ baseline_identity_count t < slot r.
Proof.
  intros Hi Hl r. pose proof (inv_base _ _ Hi). pose proof (inv_count _ _ Hi).
  apply lookup_lt_Some in Hl. unfold r. rewrite make_slot, make_kind, make_valid by lia.
  split_and!; done || lia.
Qed.

Lemma lookup_local t locals i l :
  space_inv t locals -> locals !! i = Some l ->
  records t !! i = Some (IdentityRecord l.1.1 l.1.2) /\ kinds t !! i = Some l.2.
Proof.
  intros Hi Hl. rewrite (inv_records _ _ Hi), (inv_kinds _ _ Hi), !list_lookup_fmap, Hl. done.
Qed.

Lemma local_index_of t i : local_index t (baseline_identity_count t + Z.of_nat i + 1) = i.
Proof. unfold local_index. lia. Qed.

Lemma contains_local t locals i l :
  space_inv t locals -> locals !! i = Some l ->
  let r := make (baseline_identity_count t + Z.of_nat i + 1) l.2 in
  contains t r = true /\ record t r = Some (IdentityRecord l.1.1 l.1.2) /\
  at_slot t (slot r) = r.
Proof.
  intros Hi Hl r. destruct (local_parts t locals i l Hi Hl) as (Hs & Hk & Hv & Hs1 & Hb). fold r in Hs, Hk, Hv, Hs1, Hb.
  destruct (lookup_local t locals i l Hi Hl) as [Hr Hkd]. pose proof (inv_base _ _ Hi).
  assert (contains t r = true) as Hc.
  { unfold contains. rewrite Hv, Hs, (proj2 (Z.eqb_neq _ 1)), (proj2 (Z.leb_gt _ _)) by lia.
    rewrite local_index_of, Hr, Hkd, Hk. simpl. by apply bool_decide_eq_true. }
  split; [done|]. split.
  - unfold record. rewrite Hc, Hs, (proj2 (Z.eqb_neq _ 1)), (proj2 (Z.leb_gt _ _)) by lia.
    rewrite local_index_of, Hr. simpl. by destruct (baseline t).
  - unfold at_slot. rewrite Hs, (proj2 (Z.eqb_neq _ 0)), (proj2 (Z.eqb_neq _ 1)), (proj2 (Z.leb_gt _ _)) by lia.
    by rewrite local_index_of, Hr, Hkd.
Qed.

(** Every identity after the image is a local one. *)
Lemma contains_inv t locals r :
  space_inv t locals -> 0 <= r < 2 ^ 32 -> contains t r = true -> slot r <> 1 ->
  2 <= slot r /\
  (slot r <= baseline_identity_count t /\ (exists b, baseline t = Some b /\ identity_valid b r = true)
   \/ exists i l, locals !! i = Some l /\ r = make (baseline_identity_count t + Z.of_nat i + 1) l.2).
Proof.
  intros Hi Hr Hc Hs1. pose proof (slot_range r). pose proof (inv_base _ _ Hi).
  unfold contains in Hc. destruct (valid r) eqn:Hv; [|done]. unfold valid in Hv. unbool.
  cbn [negb] in Hc. rewrite (proj2 (Z.eqb_neq (slot r) 1)) in Hc by done. split; [lia|].
  destruct (Z.leb_spec (slot r) (baseline_identity_count t)) as [Hle|Hgt].
  - left. split; [done|]. destruct (baseline t) as [b|]; [by exists b|done].
  - right. exists (local_index t (slot r)).
    rewrite (inv_records _ _ Hi), (inv_kinds _ _ Hi), !list_lookup_fmap in Hc.
    destruct (locals !! local_index t (slot r)) as [l|]; [|done]. simpl in Hc.
    apply bool_decide_eq_true in Hc. exists l. split; [done|]. rewrite Hc.
    replace (baseline_identity_count t + Z.of_nat (local_index t (slot r)) + 1) with (slot r)
      by (unfold local_index; lia). by rewrite make_parts.
Qed.

(** ** Lookup *)

Lemma elem_of_identity_slots base ls s :
  s ∈ slots_of base ls <-> exists i l, ls !! i = Some l /\ s = slot_of base i l.
Proof.
  unfold slots_of. rewrite list_elem_of_lookup. split.
  - intros [i Hi]. rewrite list_lookup_imap in Hi. destruct (ls !! i) as [l|] eqn:E; [|done].
    simpl in Hi. simplify_eq. eauto.
  - intros (i & l & Hl & ->). exists i. by rewrite list_lookup_imap, Hl.
Qed.

Lemma entry_hash_local t locals i l :
  space_inv t locals -> locals !! i = Some l ->
  entry_hash (baseline_identity_count t) locals (slot_of (baseline_identity_count t) i l) = key_hash l.
Proof.
  intros Hi Hl. unfold entry_hash, slot_of. cbn [slot_identity].
  destruct (local_parts t locals i l Hi Hl) as (-> & _).
  replace (Z.to_nat (baseline_identity_count t + Z.of_nat i + 1 - baseline_identity_count t - 1))
    with i by lia. by rewrite Hl.
Qed.

Lemma same_key_local t locals i l p n k :
  space_inv t locals -> locals !! i = Some l ->
  same_key t (make (baseline_identity_count t + Z.of_nat i + 1) l.2) p n k = bool_decide (l = (p, n, k)).
Proof.
  intros Hi Hl. unfold same_key. destruct (contains_local t locals i l Hi Hl) as (-> & -> & _).
  destruct (local_parts t locals i l Hi Hl) as (_ & -> & _ & _ & Hb).
  rewrite (proj2 (Z.leb_gt _ _)) by done. destruct l as [[p' n'] k']. cbn [fst snd parent name negb orb].
  rewrite orb_false_r. case_bool_decide as Hk; cbn [negb].
  - subst k'. destruct (Z.eqb_spec p' p), (Z.eqb_spec n' n); cbn [andb]; symmetry;
      first [apply bool_decide_eq_true; congruence|apply bool_decide_eq_false; congruence].
  - symmetry. apply bool_decide_eq_false. congruence.
Qed.

(** The probe loop finds a local identity and nothing else. *)
Lemma find_key_spec t locals p n k :
  space_inv t locals ->
  let hash := hash_key p n k in
  (forall i, locals !! i = Some (p, n, k) ->
     find_key t p n k hash (fingerprint hash) = make (baseline_identity_count t + Z.of_nat i + 1) k) /\
  ((p, n, k) ∉ locals -> find_key t p n k hash (fingerprint hash) = 0).
Proof.
  intros Hi hash. unfold find_key.
  destruct (inv_index _ _ Hi) as [[-> ->]|(Hok & Hload & Hmin & He)]; [by split|].
  set (eh := entry_hash _ locals) in *.
  assert (forall s, s ∈ entries slot_occupied (index t) ->
    slot_matches t p n k (fingerprint hash) s = true -> exists i, locals !! i = Some (p, n, k) /\
    slot_identity s = make (baseline_identity_count t + Z.of_nat i + 1) k /\ eh s = hash) as Hsound.
  { intros s Hs Hm. rewrite He in Hs. apply elem_of_identity_slots in Hs as (i & l & Hl & ->).
    unfold slot_matches, slot_of in Hm. cbn [slot_fingerprint slot_identity] in Hm. unbool.
    rewrite (same_key_local t locals i l) in * by done.
    match goal with Hd : bool_decide _ = true |- _ => apply bool_decide_eq_true in Hd; subst l end.
    exists i. split; [done|]. split; [done|]. by apply entry_hash_local. }
  destruct (index t) as [|s0 rest] eqn:Eidx; [simpl in Hmin; lia|]. rewrite <- Eidx in *. clear Eidx.
  pose proof (sized_pos _ (proj1 Hok)) as Hpos.
  assert (has_room empty_slot slot_occupied (index t)) as Hroom.
  { apply entries_room. rewrite He. unfold slots_of. rewrite length_imap. lia. }
  destruct (search_spec empty_slot slot_occupied eh (index t)
    (slot_matches t p n k (fingerprint hash)) (Z.to_nat (u64 hash)) Hok Hroom) as (x & Hpr & Hx).
  { intros s Hin Hm. destruct (Hsound s Hin Hm) as (_ & _ & _ & Hh). unfold home_of. by rewrite Hh. }
  rewrite <- home_mod in Hpr by apply Hok. rewrite Hpr. cbv zeta.
  change (index t !!! (x mod length (index t))%nat) with (cell empty_slot (index t) x).
  destruct Hx as [[Hb Hm]|(Hnb & Hnone & _)].
  - unfold busy in Hb. rewrite Hb.
    destruct (Hsound (cell empty_slot (index t) x)) as (i & Hl & -> & _);
      [apply (elem_of_entries empty_slot); eauto|done|].
    split; [|intros Hn; by destruct Hn; eapply list_elem_of_lookup_2].
    intros i' Hl'. by rewrite (NoDup_lookup _ _ _ _ (inv_distinct _ _ Hi) Hl Hl').
  - unfold busy in Hnb. rewrite (not_true_is_false _ Hnb). split; [|done].
    intros i Hl. exfalso.
    assert (slot_of (baseline_identity_count t) i (p, n, k) ∈ entries slot_occupied (index t))
      as Hin by (rewrite He; apply elem_of_identity_slots; eauto).
    specialize (Hnone _ Hin). unfold slot_matches, slot_of in Hnone.
    cbn [slot_fingerprint slot_identity] in Hnone.
    rewrite (same_key_local t locals i (p, n, k)), bool_decide_true in Hnone by done.
    change (key_hash (p, n, k)) with hash in Hnone. by rewrite Z.eqb_refl in Hnone.
Qed.

(** ** Growing the index *)

Lemma insert_index_slot (h : identity_slot -> Z) T r hash :
  h (IdentitySlot (fingerprint hash) r) = hash ->
  insert_index T r hash = insert_slot empty_slot slot_occupied h T (IdentitySlot (fingerprint hash) r).
Proof. intros Hh. unfold insert_index, insert_slot. by rewrite Hh. Qed.

Lemma slot_of_occupied t locals i l :
  space_inv t locals -> locals !! i = Some l ->
  slot_occupied (slot_of (baseline_identity_count t) i l) = true.
Proof. intros Hi Hl. by destruct (local_parts t locals i l Hi Hl) as (_ & _ & ? & _). Qed.

(** The rehash loop inserts the slots of the local identities. *)
Lemma insert_records_slots t locals T :
  space_inv t locals ->
  insert_records t 0 (records t) T =
  insert_all empty_slot slot_occupied (entry_hash (baseline_identity_count t) locals) T
    (slots_of (baseline_identity_count t) locals).
Proof.
  intros Hi. rewrite (inv_records _ _ Hi). set (eh := entry_hash _ locals).
  pose proof (inv_base _ _ Hi). pose proof (inv_count _ _ Hi) as Hc.
  change maximum_slot with (2 ^ 30 - 1) in Hc.
  assert (forall ls i T, (forall j l, ls !! j = Some l -> locals !! (i + j)%nat = Some l) ->
    insert_records t i ((fun l => IdentityRecord l.1.1 l.1.2) <$> ls) T =
    insert_all empty_slot slot_occupied eh T
      (imap (fun j => slot_of (baseline_identity_count t) (i + j)) ls)) as Hg; [|by apply (Hg locals 0%nat)].
  intros ls. induction ls as [|l ls IH]; intros i T' Hls; [done|].
  cbn [insert_records fmap list_fmap imap insert_all]. rewrite Nat.add_0_r.
  assert (locals !! i = Some l) as Hl by (rewrite <- (Nat.add_0_r i); by apply Hls).
  destruct (local_parts t locals i l Hi Hl) as (Hs & Hk & _).
  destruct (contains_local t locals i l Hi Hl) as (_ & _ & Ha). rewrite Hs in Ha.
  apply lookup_lt_Some in Hl as Hlt.
  assert (u32 (baseline_identity_count t + Z.of_nat i + 1) = baseline_identity_count t + Z.of_nat i + 1)
    as -> by (apply Z.mod_small; lia).
  rewrite Ha, Hk. cbn [parent name]. change (hash_key l.1.1 l.1.2 l.2) with (key_hash l).
  rewrite (insert_index_slot eh) by by apply entry_hash_local.
  change (IdentitySlot (fingerprint (key_hash l)) (make (baseline_identity_count t + Z.of_nat i + 1) l.2))
    with (slot_of (baseline_identity_count t) i l).
  destruct (insert_slot _ _ _ _ _) as [T1|]; [|done]. rewrite IH.
  - f_equal. apply imap_ext. intros j l' _. unfold compose.
    by replace (i + S j)%nat with (S i + j)%nat by lia.
  - intros j l' Hj. replace (S i + j)%nat with (i + S j)%nat by lia. by apply Hls.
Qed.

Lemma identity_with_index_inv t locals idx :
  space_inv t locals ->
  table_ok empty_slot slot_occupied (entry_hash (baseline_identity_count t) locals) idx ->
  (2 * length locals <= length idx)%nat -> (8 <= length idx)%nat ->
  entries slot_occupied idx ≡ₚ slots_of (baseline_identity_count t) locals ->
  space_inv (with_index idx t) locals.
Proof. intros [] ????. split; simpl; try done. by right. Qed.

Lemma identity_ensure_index_spec t locals allocated :
  space_inv t locals ->
  exists st t', ensure_index_capacity 1 allocated t = Some (st, t') /\
    (st = io_error /\ t' = t /\ allocated = false \/
     st = success /\ (exists idx, t' = with_index idx t) /\ space_inv t' locals /\
     (2 * S (length locals) <= length (index t'))%nat).
Proof.
  intros Hi. pose proof (inv_base _ _ Hi) as Hc. pose proof (inv_count _ _ Hi) as Hmax.
  change maximum_slot with (2 ^ 30 - 1) in Hmax. unfold ensure_index_capacity.
  rewrite (identity_record_count_locals _ _ Hi).
  rewrite (proj2 (Z.ltb_ge _ _)) by (unfold size_max; lia).
  destruct (_ && _) eqn:Eg.
  { exists success, t. split; [done|]. right. split; [done|]. split.
    { exists (index t). by destruct t. }
    split; [done|]. unbool.
    pose proof (Z.mul_div_le (Z.of_nat (length (index t))) 2). lia. }
  destruct (next_capacity_spec (Z.of_nat (length locals) + 1)) as (c & -> & Hcap); [lia|].
  rewrite (proj2 (Z.eqb_neq _ 0)), (proj2 (Z.ltb_ge _ _)) in Hcap by lia.
  destruct Hcap as (j & Hj & -> & Hle). pose proof (Z.pow_pos_nonneg 2 j).
  rewrite (proj2 (Z.eqb_neq _ 0)) by lia.
  destruct allocated; simpl negb; cbn iota; [|exists io_error, t; split; [done|by left]].
  set (eh := entry_hash (baseline_identity_count t) locals).
  destruct (vacant_table empty_slot slot_occupied eh eq_refl j) as [Hok He]; [lia|].
  assert (8 <= 2 ^ j) as H8 by (apply (Z.pow_le_mono_r 2 3 j); lia).
  rewrite (insert_records_slots t locals) by done. fold eh.
  destruct (insert_all_spec empty_slot slot_occupied eh
    (replicate (Z.to_nat (2 ^ j)) empty_slot) (slots_of (baseline_identity_count t) locals) Hok)
    as (T' & -> & Hok' & Hl' & He').
  { apply Forall_forall. intros s Hs. apply elem_of_identity_slots in Hs as (i & l & Hl & ->).
    by eapply slot_of_occupied. }
  { rewrite He. unfold slots_of. rewrite length_imap, length_replicate. simpl. lia. }
  rewrite He, app_nil_r in He'. rewrite length_replicate in Hl'.
  exists success, (with_index T' t). split; [done|]. right. split; [done|].
  split; [by eexists|]. split; [|simpl; lia]. apply identity_with_index_inv; try done; lia.
Qed.

(** ** Resolving *)

(** The space after a new identity was appended. *)
Definition appended (p : identity_ref) (n : string_id) (k : identity_kind)
    (idx : list identity_slot) t : identity_space B :=
  IdentitySpace (baseline t) (baseline_identity_count t)
    (records t ++ [IdentityRecord p n]) (kinds t ++ [k]) idx.

Lemma contains_slot t locals r :
  space_inv t locals -> contains t r = true ->
  1 <= slot r <= baseline_identity_count t + Z.of_nat (length locals).
Proof.
  intros Hi Hc. pose proof (slot_range r). pose proof (inv_base _ _ Hi).
  unfold contains in Hc. destruct (valid r) eqn:Hv; [|done]. unfold valid in Hv. unbool.
  cbn [negb] in Hc. destruct (Z.eqb_spec (slot r) 1); [lia|].
  destruct (Z.leb_spec (slot r) (baseline_identity_count t)); [lia|].
  destruct (records t !! _) as [v|] eqn:E; [|done]. apply lookup_lt_Some in E.
  rewrite (inv_records _ _ Hi), length_fmap in E. unfold local_index in E. lia.
Qed.

Lemma contains_appended t p n k idx r : contains t r = true -> contains (appended p n k idx t) r = true.
Proof.
  unfold contains. cbn [appended baseline baseline_identity_count records kinds].
  change (local_index (appended p n k idx t) (slot r)) with (local_index t (slot r)).
  destruct (negb _); [done|]. destruct (_ =? 1); [done|]. destruct (_ <=? _); [done|].
  destruct (records t !! _) as [v|] eqn:Er; [|done]. destruct (kinds t !! _) as [kd|] eqn:Ek; [|done].
  by rewrite !(lookup_app_l_Some _ _ _ _ Er), !(lookup_app_l_Some _ _ _ _ Ek).
Qed.

Lemma identity_append_inv t locals p n k idx :
  space_inv t locals -> (p, n, k) ∉ locals ->
  (forall b, baseline t = Some b -> find_identity b p n k = 0) ->
  0 <= p < 2 ^ 32 -> contains t p = true -> k <> kind_root ->
  baseline_identity_count t + Z.of_nat (length locals) < maximum_slot ->
  table_ok empty_slot slot_occupied
    (entry_hash (baseline_identity_count t) (locals ++ [(p, n, k)])) idx ->
  (2 * S (length locals) <= length idx)%nat -> (8 <= length idx)%nat ->
  entries slot_occupied idx ≡ₚ slot_of (baseline_identity_count t) (length locals) (p, n, k)
    :: slots_of (baseline_identity_count t) locals ->
  space_inv (appended p n k idx t) (locals ++ [(p, n, k)]).
Proof.
  intros Hi Hnew Hnb Hpr Hcp Hkr Hmax Hok Hlen Hmin He. pose proof (contains_slot _ _ _ Hi Hcp) as Hsp.
  destruct Hi as [Hb Hba Hr Hk Hc Hd Hn Hp Hx].
  split; cbn [appended baseline baseline_identity_count records kinds index]; try done.
  - by rewrite Hr, fmap_app.
  - by rewrite Hk, fmap_app.
  - rewrite length_app. simpl. lia.
  - apply NoDup_app. split; [done|]. split; [|apply NoDup_singleton].
    intros l Hl Hl'. by apply list_elem_of_singleton in Hl' as ->.
  - intros b p' n' k' Hbb [Hl|Hl]%elem_of_app; [by eapply Hn|].
    apply list_elem_of_singleton in Hl. simplify_eq. by apply Hnb.
  - intros i p' n' k' Hl. apply lookup_app_Some in Hl as [Hl|[Hge Hl]].
    + destruct (Hp _ _ _ _ Hl) as (? & ? & ? & ?). do 3 (split; [done|]). by apply contains_appended.
    + apply list_lookup_singleton_Some in Hl as [Hi Hl]. simplify_eq.
      split; [done|]. split; [done|]. split; [lia|]. by apply contains_appended.
  - right. rewrite length_app. simpl. split; [done|]. split; [lia|]. split; [done|].
    rewrite He. unfold slots_of. rewrite imap_app. simpl. rewrite Nat.add_0_r. solve_Permutation.
Qed.

(** Why a call can fail. *)
Definition exhausted (a : allocation) t : Prop :=
  index_allocated a = false \/ append_allocated a = false \/ maximum_slot <= size t.

Lemma entry_hash_kept t locals l s :
  space_inv t locals -> s ∈ slots_of (baseline_identity_count t) locals ->
  entry_hash (baseline_identity_count t) locals s
  = entry_hash (baseline_identity_count t) (locals ++ [l]) s.
Proof.
  intros Hi Hs. apply elem_of_identity_slots in Hs as (i & l' & Hl & ->).
  rewrite (entry_hash_local t locals i l') by done. unfold entry_hash, slot_of. cbn [slot_identity].
  destruct (local_parts t locals i l' Hi Hl) as (-> & _).
  replace (Z.to_nat (baseline_identity_count t + Z.of_nat i + 1 - baseline_identity_count t - 1))
    with i by lia. by rewrite (lookup_app_l_Some _ _ _ _ Hl).
Qed.

Definition not_local t (l : local) : identity_ref :=
  match baseline t with Some b => find_identity b l.1.1 l.1.2 l.2 | None => 0 end.

Lemma persisted_valid t locals l :
  space_inv t locals -> not_local t l <> 0 -> valid (not_local t l) = true.
Proof.
  intros Hi Hn. unfold not_local in *. pose proof (inv_baseline _ _ Hi) as Hb.
  destruct (baseline t) as [b|]; [|done]. destruct Hb as [Hv _].
  destruct (find_identity_found b _ _ _ Hv Hn) as [Hs _]. unfold valid.
  apply negb_true_iff, Z.eqb_neq. lia.
Qed.

(** What [find] returns. *)
Lemma find_spec t locals p n k :
  space_inv t locals -> contains t p = true -> k <> kind_root ->
  (forall i, locals !! i = Some (p, n, k) ->
     find true p n k t = make (baseline_identity_count t + Z.of_nat i + 1) k) /\
  ((p, n, k) ∉ locals -> find true p n k t = not_local t (p, n, k)).
Proof.
  intros Hi Hc Hk. unfold find. rewrite Hc, bool_decide_eq_false_2 by done. cbn [negb orb].
  destruct (find_key_spec t locals p n k Hi) as [Hl Hn]. split.
  - intros i Hil. rewrite (Hl i Hil).
    destruct (local_parts t locals i (p, n, k) Hi Hil) as (_ & _ & Hv & _). cbn [snd] in Hv.
    by rewrite Hv.
  - intros Hnl. rewrite (Hn Hnl). done.
Qed.

Lemma size_locals t locals :
  space_inv t locals -> size t = baseline_identity_count t + Z.of_nat (length locals).
Proof. intros Hi. unfold size. by rewrite (identity_record_count_locals _ _ Hi). Qed.

(** A new identity enters an index with room for it. *)
Lemma insert_new t locals p n k idx :
  space_inv t locals -> space_inv (with_index idx t) locals ->
  (2 * S (length locals) <= length idx)%nat -> size t < maximum_slot ->
  (p, n, k) ∉ locals -> not_local t (p, n, k) = 0 ->
  0 <= p < 2 ^ 32 -> contains t p = true -> k <> kind_root ->
  exists idx', insert_index idx (make (size t + 1) k) (hash_key p n k) = Some idx' /\
    space_inv (appended p n k idx' t) (locals ++ [(p, n, k)]).
Proof.
  intros Hi Hi1 Hload Hroom Hnin Hz Hpr Hc Hk.
  pose proof (inv_base _ _ Hi) as Hb. pose proof (size_locals t locals Hi) as Hsize.
  destruct (inv_index _ _ Hi1) as [[-> Hidx]|(Hok & Hload1 & Hmin & He)].
  { exfalso. cbn [with_index index] in Hidx. rewrite Hidx in Hload. simpl in Hload. lia. }
  cbn [with_index index baseline_identity_count] in *.
  set (eh := entry_hash (baseline_identity_count t) (locals ++ [(p, n, k)])).
  assert (slot_of (baseline_identity_count t) (length locals) (p, n, k)
    = IdentitySlot (fingerprint (hash_key p n k)) (make (size t + 1) k)) as Hso.
  { unfold slot_of, key_hash. cbn [fst snd]. rewrite Hsize. done. }
  rewrite (insert_index_slot eh).
  2: { unfold eh, entry_hash. cbn [slot_identity]. rewrite make_slot by lia.
       replace (Z.to_nat (size t + 1 - baseline_identity_count t - 1)) with (length locals) by lia.
       by rewrite lookup_app_r, Nat.sub_diag by done. }
  destruct (insert_slot_spec empty_slot slot_occupied eh idx
    (IdentitySlot (fingerprint (hash_key p n k)) (make (size t + 1) k))) as (idx' & -> & Hok' & Hl' & He').
  { eapply table_ok_ext; [|exact Hok]. intros s Hs. rewrite He in Hs. by apply entry_hash_kept. }
  { apply entries_room. rewrite He. unfold slots_of. rewrite length_imap. lia. }
  { unfold slot_occupied. cbn [slot_identity]. apply make_valid. lia. }
  exists idx'. split; [done|]. apply identity_append_inv; try done; try lia.
  - intros b Hbb. unfold not_local in Hz. by rewrite Hbb in Hz.
  - by rewrite He', He, Hso.
Qed.

Lemma resolve_spec t locals p n k a :
  space_inv t locals -> 0 <= p < 2 ^ 32 -> contains t p = true -> k <> kind_root ->
  exists st r t', resolve true p n k a t = Some (st, r, t') /\
    (st = success /\ r = find true p n k t /\ r <> 0 /\ t' = t \/
     st = success /\ find true p n k t = 0 /\ r = make (size t + 1) k /\ size t < maximum_slot /\
       space_inv t' (locals ++ [(p, n, k)]) /\ (exists idx, t' = appended p n k idx t) \/
     st = io_error /\ r = 0 /\ exhausted a t /\ space_inv t' locals /\
       exists idx, t' = with_index idx t).
Proof.
  intros Hi Hpr Hc Hk. destruct (find_spec t locals p n k Hi Hc Hk) as [Hfl Hfn].
  destruct (find_key_spec t locals p n k Hi) as [Hl Hn].
  unfold resolve. rewrite Hc, bool_decide_eq_false_2 by done. cbn [negb orb].
  destruct (decide ((p, n, k) ∈ locals)) as [Hin|Hnin].
  { apply list_elem_of_lookup in Hin as [i Hil]. rewrite (Hl i Hil).
    destruct (local_parts t locals i (p, n, k) Hi Hil) as (Hs & _ & Hv & _). cbn [snd] in Hs, Hv.
    rewrite Hv. eexists _, _, _. split; [done|]. left. rewrite (Hfl i Hil). split_and!; try done.
    intros E. unfold valid in Hv. rewrite E in Hv. done. }
  rewrite (Hn Hnin). change (valid 0) with false. cbn iota. specialize (Hfn Hnin).
  change (match baseline t with Some b => find_identity b p n k | None => 0 end)
    with (not_local t (p, n, k)).
  destruct (decide (not_local t (p, n, k) = 0)) as [Hz|Hz].
  2: { rewrite (persisted_valid t locals) by done. eexists _, _, _. split; [done|]. left.
       by rewrite Hfn. }
  rewrite Hz in Hfn |- *. change (valid 0) with false. cbn iota.
  destruct (identity_ensure_index_spec t locals (index_allocated a) Hi)
    as (st & t1 & -> & [(-> & -> & Ha)|(-> & [idx ->] & Hi1 & Hload)]).
  { eexists _, _, _. split; [done|]. right. right. split_and!; try done; [by left|].
    exists (index t). by destruct t. }
  change (succeeded success) with true. cbn [negb]. cbn iota.
  change (size (with_index idx t)) with (size t).
  destruct (Z.leb_spec maximum_slot (size t)) as [Hfull|Hroom].
  { eexists _, _, _. split; [done|]. right. right. split_and!; try done; [by right; right|by eexists]. }
  pose proof (inv_base _ _ Hi) as Hb. pose proof (size_locals t locals Hi) as Hsize.
  assert (u32 (size t + 1) = size t + 1) as ->.
  { apply Z.mod_small. change maximum_slot with (2 ^ 30 - 1) in *. lia. }
  rewrite make_valid by lia. cbn [negb].
  destruct (append_allocated a) eqn:Ea; cbn [negb]; cbn iota.
  2: { eexists _, _, _. split; [done|]. right. right. split_and!; try done; [by right; left|by eexists]. }
  destruct (insert_new t locals p n k idx) as (idx' & Hins & Hi'); try done.
  cbn [with_index index]. rewrite Hins. eexists _, _, _. split; [done|]. right. left.
  do 4 (split; [done|]). split; [exact Hi'|]. by exists idx'.
Qed.

(** ** Identities and their records *)

(** A persisted identity is read back from its slot. *)
Lemma persisted_record t locals b r :
  space_inv t locals -> baseline t = Some b -> 2 <= slot r <= baseline_identity_count t ->
  identity_valid b r = true ->
  contains t r = true /\
  record t r = Some (IdentityRecord (identity_parent b r) (identity_name b r)) /\
  1 <= slot (identity_parent b r) < slot r /\ 0 <= identity_parent b r < 2 ^ 32 /\
  contains t (identity_parent b r) = true.
Proof.
  intros Hi Hb Hs Hv. pose proof (inv_baseline _ _ Hi) as Hbase. rewrite Hb in Hbase.
  destruct Hbase as [Hbv Hbc]. rewrite Hbc in *.
  destruct (identity_parent_before b r Hbv Hs Hv) as (Hp & Hpr & Hpv & Hn).
  assert (forall r, 2 <= slot r <= identity_count b -> identity_valid b r = true -> contains t r = true) as Hcont.
  { intros r' Hs' Hv'. unfold contains, valid.
    rewrite (proj2 (Z.eqb_neq (slot r') 0)), (proj2 (Z.eqb_neq (slot r') 1)), Hbc, (proj2 (Z.leb_le _ _)) by lia.
    by rewrite Hb. }
  split; [by apply Hcont|]. split; [|split; [done|]; split; [done|]].
  - unfold record. rewrite Hcont, (proj2 (Z.eqb_neq (slot r) 1)), Hb, Hbc, (proj2 (Z.leb_le _ _)) by (done || lia).
    cbn [negb]. unfold valid. rewrite (proj2 (Z.eqb_neq (slot _) 0)), (proj2 (Z.eqb_neq _ 0)) by lia. done.
  - destruct Hpv as [->|[Hne Hpv]]; [done|]. apply Hcont; [lia|done].
Qed.

Lemma find_record t locals p n k r :
  space_inv t locals -> contains t p = true -> k <> kind_root -> 0 <= r < 2 ^ 32 ->
  (find true p n k t = r /\ r <> 0) <->
  (contains t r = true /\ slot r <> 1 /\ kind r = k /\ record t r = Some (IdentityRecord p n)).
Proof.
  intros Hi Hc Hk Hr. destruct (find_spec t locals p n k Hi Hc Hk) as [Hfl Hfn].
  pose proof (inv_base _ _ Hi). pose proof (inv_baseline _ _ Hi) as Hbase. split.
  - intros [Hf Hne]. destruct (decide ((p, n, k) ∈ locals)) as [Hin|Hnin].
    + apply list_elem_of_lookup in Hin as [i Hil]. rewrite (Hfl i Hil) in Hf. subst r.
      destruct (contains_local t locals i (p, n, k) Hi Hil) as (? & ? & _).
      destruct (local_parts t locals i (p, n, k) Hi Hil) as (_ & ? & _ & ? & _). done.
    + rewrite (Hfn Hnin) in Hf. unfold not_local in Hf. cbn [fst snd] in Hf.
      destruct (baseline t) as [b|] eqn:Hb; [|by subst]. destruct Hbase as [Hbv Hbc].
      destruct (find_identity_found b p n k Hbv) as (Hs & Hv & Hp & Hn' & Hkd); [by rewrite Hf|].
      rewrite Hf in *. destruct (persisted_record t locals b r Hi Hb) as (Hcr & Hrec & _); [lia|done|].
      split_and!; try done; [lia|]. by rewrite Hrec, Hp, Hn'.
  - intros (Hcr & Hs1 & Hkd & Hrec).
    destruct (contains_inv t locals r Hi Hr Hcr Hs1) as (Hs2 & [(Hle & b & Hb & Hv)|(i & l & Hl & Hrl)]).
    + destruct (persisted_record t locals b r Hi Hb) as (_ & Hrec' & _); [lia|done|].
      rewrite Hb in Hbase. destruct Hbase as [Hbv Hbc]. rewrite Hrec in Hrec'. simplify_eq.
      assert (r <> 0) as Hr0 by (intros ->; done). rewrite Hbc in *.
      pose proof (find_identity_record b r Hbv (conj Hs2 Hle) Hv) as Hfr.
      split; [|done]. rewrite Hfn; [unfold not_local; by rewrite Hb|].
      intros Hin. by rewrite (inv_new _ _ Hi b _ _ _ Hb Hin) in Hfr.
    + destruct (contains_local t locals i l Hi Hl) as (_ & Hrec' & _).
      destruct (local_parts t locals i l Hi Hl) as (_ & Hkl & _). rewrite <- Hrl in Hrec', Hkl.
      rewrite Hrec in Hrec'. destruct l as [[p' n'] k']. cbn [fst snd] in *.
      injection Hrec' as -> ->. assert (k' = k) as -> by congruence. split.
      * rewrite Hrl. by apply Hfl.
      * intros Hz. rewrite Hz in Hs2. change (slot 0) with 0 in Hs2. lia.
Qed.

(** ** The tree of scopes *)

(** The path from an identity to the root by its parents. *)
Fixpoint ancestors (fuel : nat) t (r : identity_ref) : option (list identity_ref) :=
  match fuel with
  | O => None
  | S fuel =>
      if slot r =? 1 then Some [r]
      else match record t r with
           | Some v => cons r <$> ancestors fuel t (parent v)
           | None => None
           end
  end.

Lemma parent_before t locals r :
  space_inv t locals -> 0 <= r < 2 ^ 32 -> contains t r = true -> slot r <> 1 ->
  exists v, record t r = Some v /\ 1 <= slot (parent v) < slot r /\ 0 <= parent v < 2 ^ 32 /\
    contains t (parent v) = true.
Proof.
  intros Hi Hr Hc Hs1.
  destruct (contains_inv t locals r Hi Hr Hc Hs1) as (Hs2 & [(Hle & b & Hb & Hv)|(i & l & Hl & ->)]).
  - destruct (persisted_record t locals b r Hi Hb) as (_ & Hrec & ? & ? & ?); [lia|done|].
    eexists. split; [done|]. done.
  - destruct (contains_local t locals i l Hi Hl) as (_ & Hrec & _).
    destruct (local_parts t locals i l Hi Hl) as (-> & _). eexists. split; [done|].
    destruct l as [[p n] k]. destruct (inv_parents _ _ Hi _ _ _ _ Hl) as (_ & ? & ? & Hcp).
    cbn [parent fst snd]. pose proof (contains_slot _ _ _ Hi Hcp). split_and!; try done; lia.
Qed.

Lemma ancestors_end t locals fuel r :
  space_inv t locals -> 0 <= r < 2 ^ 32 -> contains t r = true -> slot r <= Z.of_nat fuel ->
  exists path, ancestors fuel t r = Some path /\ last path = Some root.
Proof.
  intros Hi. revert r. induction fuel as [|fuel IH]; intros r Hr Hc Hs.
  { pose proof (contains_slot _ _ _ Hi Hc). lia. }
  cbn [ancestors]. destruct (Z.eqb_spec (slot r) 1) as [Hr1|Hr1].
  - exists [r]. split; [done|]. simpl. f_equal. rewrite <- (make_parts r), Hr1 by lia.
    unfold contains in Hc. destruct (valid r); [|done]. rewrite Hr1 in Hc. cbn [negb Z.eqb Pos.eqb] in Hc.
    apply bool_decide_eq_true in Hc. by rewrite Hc.
  - destruct (parent_before t locals r Hi Hr Hc Hr1) as (v & -> & Hlt & Hpr & Hcp).
    destruct (IH (parent v) Hpr Hcp) as (path & -> & Hl); [lia|]. exists (r :: path). split; [done|].
    destruct path as [|q path]; [done|]. exact Hl.
Qed.

(** The spaces a program can build. *)
Inductive reachable : identity_space B -> Prop :=
| reach_new : reachable new_identity_space
| reach_bind b same t : reachable t -> reachable (bind_baseline b same t).2
| reach_resolve known p n k a t st r t' :
    reachable t -> 0 <= p < 2 ^ 32 -> resolve known p n k a t = Some (st, r, t') -> reachable t'.

Lemma new_space_inv : space_inv new_identity_space [].
Proof.
  split; cbn [new_identity_space baseline baseline_identity_count records kinds index]; try done.
  - by apply NoDup_nil.
  - by left.
Qed.

Lemma identity_bind_inv b same t locals :
  space_inv t locals -> space_inv (bind_baseline b same t).2 locals.
Proof.
  intros Hi. unfold bind_baseline. destruct (_ || _) eqn:E; [done|].
  destruct (baseline t); [by rewrite orb_true_r in E|]. unbool.
  assert (locals = []) as ->.
  { pose proof (inv_records _ _ Hi) as Hr. destruct locals; [done|]. by rewrite Hr in *. }
  pose proof (identity_count_range b). destruct Hi as [_ _ Hr Hk _ Hd _ _ Hx].
  split; cbn [baseline baseline_identity_count records kinds index snd]; try done.
  - lia.
  - simpl. lia.
  - intros b' p n k _ Hin. by apply not_elem_of_nil in Hin.
Qed.

Lemma reachable_space_inv t : reachable t -> exists locals, space_inv t locals.
Proof.
  induction 1 as [|b same t _ [locals IH]|known p n k a t st r t' _ [locals IH] Hp Hr].
  - exists []. apply new_space_inv.
  - exists locals. by apply identity_bind_inv.
  - destruct (contains t p) eqn:Hc, known, (bool_decide (k = kind_root)) eqn:Hk;
      try (unfold resolve in Hr; rewrite Hc, ?Hk in Hr; cbn in Hr; simplify_eq; by exists locals).
    apply bool_decide_eq_false in Hk.
    destruct (resolve_spec t locals p n k a IH Hp Hc Hk) as (st' & r' & t1 & Hr' & Hcase).
    rewrite Hr in Hr'. simplify_eq. destruct Hcase as [(_ & _ & _ & ->)|[H'|H']].
    + by exists locals.
    + exists (locals ++ [(p, n, k)]). by destruct H' as (_ & _ & _ & _ & ? & _).
    + exists locals. by destruct H' as (_ & _ & _ & ? & _).
Qed.

Lemma record_appended t p n k idx r :
  contains t r = true -> record (appended p n k idx t) r = record t r.
Proof.
  intros Hc. unfold record. rewrite Hc, contains_appended by done. cbn [negb].
  destruct (Z.eqb_spec (slot r) 1); [done|]. unfold contains in Hc.
  destruct (negb (valid r)); [done|]. rewrite (proj2 (Z.eqb_neq (slot r) 1)) in Hc by done.
  change (local_index (appended p n k idx t) (slot r)) with (local_index t (slot r)).
  cbn [appended baseline baseline_identity_count records].
  destruct (Z.leb_spec (slot r) (baseline_identity_count t)); [by destruct (baseline t)|].
  destruct (records t !! _) as [v|] eqn:Er; [|done]. by rewrite !(lookup_app_l_Some _ _ _ _ Er).
Qed.

(** The appended identity. *)
Lemma new_identity t locals p n k idx :
  space_inv t locals -> space_inv (appended p n k idx t) (locals ++ [(p, n, k)]) ->
  contains t p = true ->
  let r := make (size t + 1) k in
  find true p n k (appended p n k idx t) = r /\ contains (appended p n k idx t) r = true /\
  kind r = k /\ record (appended p n k idx t) r = Some (IdentityRecord p n).
Proof.
  intros Hi Hi' Hc r.
  assert ((locals ++ [(p, n, k)]) !! length locals = Some (p, n, k)) as Hl
    by by rewrite lookup_app_r, Nat.sub_diag.
  destruct (inv_parents _ _ Hi' _ _ _ _ Hl) as (Hk & _).
  destruct (contains_local _ _ _ _ Hi' Hl) as (Hcr & Hrec & _).
  destruct (local_parts _ _ _ _ Hi' Hl) as (_ & Hkd & _).
  destruct (find_spec _ _ p n k Hi') as [Hf _]; [by apply contains_appended|done|].
  specialize (Hf _ Hl). cbn [appended baseline_identity_count fst snd] in Hcr, Hrec, Hkd, Hf.
  assert (r = make (baseline_identity_count t + Z.of_nat (length locals) + 1) k) as ->
    by (unfold r; by rewrite (size_locals _ _ Hi)).
  done.
Qed.

Lemma find_range t locals p n k :
  space_inv t locals -> contains t p = true -> k <> kind_root ->
  find true p n k t <> 0 -> 0 <= find true p n k t < 2 ^ 32.
Proof.
  intros Hi Hc Hk Hne. destruct (find_spec t locals p n k Hi Hc Hk) as [Hfl Hfn].
  pose proof (inv_base _ _ Hi). pose proof (inv_count _ _ Hi) as Hmax.
  destruct (decide ((p, n, k) ∈ locals)) as [Hin|Hnin].
  - apply list_elem_of_lookup in Hin as [i Hl]. rewrite (Hfl i Hl).
    apply lookup_lt_Some in Hl. rewrite make_value by lia.
    change maximum_slot with (2 ^ 30 - 1) in Hmax.
    assert (0 <= kind_number k <= 3) by (destruct k; simpl; lia). lia.
  - rewrite (Hfn Hnin) in *. unfold not_local in *. pose proof (inv_baseline _ _ Hi) as Hb.
    destruct (baseline t) as [b|]; [|done]. destruct Hb as [Hv Hcnt]. cbn [fst snd] in *.
    destruct (find_identity_found b p n k Hv Hne) as (Hs & Hval & _).
    rewrite <- (identity_valid_at b _ Hv Hs Hval).
    by destruct (identity_at_slot_valid b (slot (find_identity b p n k)) Hv Hs) as (_ & _ & _ & ?).
Qed.

(** What a resolved identity is in the space after the call. *)
Definition resolved (p : identity_ref) (n : string_id) (k : identity_kind) (r : identity_ref)
    (t' : identity_space B) : Prop :=
  r <> 0 /\ find true p n k t' = r /\ contains t' r = true /\ kind r = k /\
  record t' r = Some (IdentityRecord p n).

Definition keeps t t' : Prop :=
  forall r, contains t r = true -> contains t' r = true /\ record t' r = record t r.

Lemma resolve_result t p n k a :
  reachable t -> 0 <= p < 2 ^ 32 -> contains t p = true -> k <> kind_root ->
  exists st r t', resolve true p n k a t = Some (st, r, t') /\ keeps t t' /\
    (st = success /\ resolved p n k r t' /\
       (size t' = size t \/ size t' = size t + 1 /\ r = make (size t') k) \/
     st = io_error /\ r = 0 /\ size t' = size t /\ exhausted a t).
Proof.
  intros Ht Hp Hc Hk. destruct (reachable_space_inv t Ht) as [locals Hi].
  destruct (resolve_spec t locals p n k a Hi Hp Hc Hk) as (st & r & t' & Hr & Hcase).
  exists st, r, t'. split; [done|].
  destruct Hcase as [(-> & -> & Hne & ->)|[(-> & _ & -> & Hroom & Hi' & [idx ->])|(-> & -> & Hx & _ & [idx ->])]].
  - split; [by intros r|]. left. split; [done|]. split; [|by left].
    pose proof (find_range t locals p n k Hi Hc Hk Hne) as Hrange.
    destruct (proj1 (find_record t locals p n k _ Hi Hc Hk Hrange) (conj eq_refl Hne))
      as (? & _ & ? & ?). done.
  - split; [intros r Hcr; split; [by apply contains_appended|by apply record_appended]|].
    left. split; [done|]. pose proof (new_identity t locals p n k idx Hi Hi' Hc) as (Hf & Hcr & Hkd & Hrec).
    assert (size (appended p n k idx t) = size t + 1) as Hsz.
    { unfold size, record_count. cbn [appended records baseline_identity_count].
      rewrite length_app. simpl. lia. }
    split; [|right; by rewrite Hsz]. split; [|done].
    intros Hz. rewrite Hz in Hcr. by unfold contains in Hcr.
  - split; [by intros r|]. by right.
Qed.

Definition later (r q : identity_ref) : Prop := slot q < slot r.

Lemma ancestors_descend t locals fuel r path :
  space_inv t locals -> 0 <= r < 2 ^ 32 -> contains t r = true -> ancestors fuel t r = Some path ->
  head path = Some r /\ Sorted later path.
Proof.
  intros Hi. revert r path. induction fuel as [|fuel IH]; intros r path Hr Hc Ha; [done|].
  cbn [ancestors] in Ha. destruct (Z.eqb_spec (slot r) 1) as [Hr1|Hr1]; [simplify_eq; by repeat constructor|].
  destruct (parent_before t locals r Hi Hr Hc Hr1) as (v & Hv & Hlt & Hpr & Hcp). rewrite Hv in Ha.
  destruct (ancestors fuel t (parent v)) as [path'|] eqn:Hrec; [|done]. simpl in Ha. simplify_eq.
  destruct (IH _ _ Hpr Hcp Hrec) as [Hh Hs]. split; [done|]. constructor; [done|].
  destruct path' as [|q path']; [constructor|]. simplify_eq/=. constructor. unfold later. lia.
Qed.

(** * Properties *)

(** C19: Identities are canonical: in every space a program can build, [find] of a parent,
    a name and a kind answers a reference exactly when that reference is in the space
    with that kind and that record, so two references with the same kind and record are
    the same reference. *)
Theorem identities_canonical t p n k r :
  reachable t -> contains t p = true -> k <> kind_root -> 0 <= r < 2 ^ 32 ->
  (find true p n k t = r /\ r <> 0) <->
  (contains t r = true /\ slot r <> 1 /\ kind r = k /\ record t r = Some (IdentityRecord p n)).
Proof. intros [locals Hi]%reachable_space_inv. by apply find_record with locals. Qed.

(** [resolve] under a parent of the space always returns: with the one identity of that
    parent, name and kind, new (the next slot) or known; or, only when memory or the
    slots are exhausted, with [io_error] and no identity.  Either way every older
    identity keeps its record. *)
Theorem resolve_outcomes t p n k a :
  reachable t -> 0 <= p < 2 ^ 32 -> contains t p = true -> k <> kind_root ->
  exists st r t', resolve true p n k a t = Some (st, r, t') /\ keeps t t' /\
    (st = success /\ resolved p n k r t' /\
       (size t' = size t \/ size t' = size t + 1 /\ r = make (size t') k) \/
     st = io_error /\ r = 0 /\ size t' = size t /\ exhausted a t).
Proof. apply resolve_result. Qed.

(** The parents of every identity lead to the root: the walk ends after at most as many
    steps as its slot number, at the root, and each parent has a smaller slot, so there
    is no cycle of scopes. *)
Theorem scopes_reach_root t r :
  reachable t -> 0 <= r < 2 ^ 32 -> contains t r = true ->
  exists path, ancestors (Z.to_nat (slot r)) t r = Some path /\ head path = Some r /\
    last path = Some root /\ Sorted later path.
Proof.
  intros [locals Hi]%reachable_space_inv Hr Hc. pose proof (slot_range r).
  destruct (ancestors_end t locals (Z.to_nat (slot r)) r Hi Hr Hc) as (path & Ha & Hl); [lia|].
  exists path. split; [done|]. by destruct (ancestors_descend t locals _ r path Hi Hr Hc Ha).
Qed.
End Invariant.

(** ** An image with one namespace *)

(** A concrete image: its second slot is the namespace with the name 1 under the root. *)
Inductive sample_image := sample.

Definition sample_namespace : identity_ref := make 2 kind_namespace_scope.

#[export] Instance sample_strings : BaselineStrings sample_image := {
  baseline_valid _ := true;
  string_count _ := 1;
  string_byte_size _ := 1;
  baseline_string _ id := if id =? 1 then [x61] else [];
  baseline_find _ v := if decide (v = [x61]) then 1 else 0
}.

#[export] Instance sample_identities : BaselineIdentities sample_image := {
  identity_count _ := 2;
  identity_root _ := root;
  identity_valid _ r := (r =? root) || (r =? sample_namespace);
  identity_parent _ r := if r =? sample_namespace then root else 0;
  identity_name _ r := if r =? sample_namespace then 1 else 0;
  identity_at_slot _ s := if s =? 1 then root else if s =? 2 then sample_namespace else 0;
  find_identity _ p n k :=
    if bool_decide (p = root /\ n = 1 /\ k = kind_namespace_scope) then sample_namespace else 0
}.

#[export] Instance sample_laws : IdentityLaws sample_image.
Proof.
  split; simpl.
  - done.
  - intros b s _ Hs. assert (s = 2) as -> by lia. done.
  - intros b r _ Hs [?%Z.eqb_eq|?%Z.eqb_eq]%orb_true_iff; subst; [|done].
    change (slot root) with 1 in Hs. lia.
  - intros b r _ Hs [?%Z.eqb_eq|?%Z.eqb_eq]%orb_true_iff; subst; [change (slot root) with 1 in Hs; lia|].
    change (sample_namespace =? sample_namespace) with true. cbn iota.
    change (slot root) with 1. change (slot sample_namespace) with 2.
    split; [lia|]. split; [by vm_compute|]. split; [by left|done].
  - intros b p n k _ Hf. case_bool_decide as Hc; [|done]. destruct Hc as (-> & -> & ->).
    split_and!; by vm_compute.
  - intros b r _ Hs [?%Z.eqb_eq|?%Z.eqb_eq]%orb_true_iff; subst; [change (slot root) with 1 in Hs; lia|].
    done.
Qed.

(** The space bound to the image, and after a type was added to its namespace. *)
Definition sample_space : identity_space sample_image :=
  (bind_baseline sample true new_identity_space).2.

Definition with_type : identity_space sample_image :=
  match resolve true sample_namespace 1 kind_type (Allocation true true) sample_space with
  | Some (_, _, t) => t
  | None => sample_space
  end.

Lemma sample_reachable : reachable sample_space.
Proof. apply reach_bind, reach_new. Qed.

Lemma with_type_reachable : reachable with_type.
Proof.
  apply (reach_resolve true sample_namespace 1 kind_type (Allocation true true) sample_space success
    (make 3 kind_type)); [apply sample_reachable|by vm_compute|by vm_compute].
Qed.

Lemma identities_canonical_witness :
  (find true sample_namespace 1 kind_type with_type = make 3 kind_type /\ make 3 kind_type <> 0) <->
  (contains with_type (make 3 kind_type) = true /\ slot (make 3 kind_type) <> 1 /\
   kind (make 3 kind_type) = kind_type /\
   record with_type (make 3 kind_type) = Some (IdentityRecord sample_namespace 1)).
Proof.
  apply identities_canonical; [apply with_type_reachable|by vm_compute|done|by vm_compute].
Defined.

Lemma resolve_outcomes_witness :
  exists st r t', resolve true sample_namespace 1 kind_object (Allocation true true) with_type = Some (st, r, t') /\
    keeps with_type t' /\
    (st = success /\ resolved sample_namespace 1 kind_object r t' /\
       (size t' = size with_type \/ size t' = size with_type + 1 /\ r = make (size t') kind_object) \/
     st = io_error /\ r = 0 /\ size t' = size with_type /\ exhausted (Allocation true true) with_type).
Proof.
  apply resolve_outcomes; [apply with_type_reachable|by vm_compute|by vm_compute|done].
Defined.

Lemma scopes_reach_root_witness :
  exists path, ancestors (Z.to_nat (slot (make 3 kind_type))) with_type (make 3 kind_type) = Some path /\
    head path = Some (make 3 kind_type) /\ last path = Some root /\ Sorted later path.
Proof.
  apply scopes_reach_root; [apply with_type_reachable|by vm_compute|by vm_compute].
Defined.

(** Three scopes up to the root; the second resolution of a key is the first. *)
Example nested_type :
  ancestors 3 with_type (make 3 kind_type) = Some [make 3 kind_type; sample_namespace; root] /\
  resolve true sample_namespace 1 kind_type (Allocation false false) with_type
  = Some (success, make 3 kind_type, with_type).
Proof. by vm_compute. Qed.
