(* ===== verification/TextLines.v ===== *)
(** Searching a text and reading it line by line: what the readers of Assign files and of
    initial conditions share. *)

From S2P Require Import Prelude JsonText.

(** [find(c, from)] of a string view *)
Fixpoint find_from (c : byte) (n : nat) (l : list byte) : option nat :=
  match l with
  | [] => None
  | b :: l => if is_char b c then Some n else find_from c (S n) l
  end.
Definition find_byte (c : byte) (from : nat) (l : list byte) : option nat :=
  find_from c from (drop from l).

Definition starts_with (pattern l : list byte) : bool := bool_decide (take (length pattern) l = pattern).

(** [find(pattern)] of a string view *)
Fixpoint find_text (pattern text : list byte) : option nat :=
  if bool_decide (take (length pattern) text = pattern) then Some O
  else match text with [] => None | _ :: text => S <$> find_text pattern text end.

(** [find(pattern, from)] *)
Definition find_text_from (pattern : list byte) (from : nat) (l : list byte) : option nat :=
  Nat.add from <$> find_text pattern (drop from l).

(** [substr(position, count)] inside the text *)
Definition substr (position n : nat) (l : list byte) : list byte := take n (drop position l).

(** The lines of a text, without their newlines. *)
Fixpoint lines (content : list byte) : list (list byte) :=
  match content with
  | [] => [[]]
  | b :: content =>
      if is_char b x0a then [] :: lines content
      else match lines content with
           | l :: ls => (b :: l) :: ls
           | [] => [[b]]
           end
  end.

Lemma find_from_spec c n l :
  match find_from c n l with
  | Some m => exists l1 l2, l = l1 ++ c :: l2 /\ m = (n + length l1)%nat /\
      Forall (fun b => is_char b c = false) l1
  | None => Forall (fun b => is_char b c = false) l
  end.
Proof.
  revert n. induction l as [|b l IH]; intros n; simpl; [constructor|].
  destruct (is_char b c) eqn:E.
  - apply is_char_spec in E as ->. exists [], l. split; [done|]. split; [simpl; lia|constructor].
  - specialize (IH (S n)). destruct (find_from c (S n) l) as [m|].
    + destruct IH as (l1 & l2 & -> & -> & Hl). exists (b :: l1), l2.
      split; [done|]. split; [simpl; lia|by constructor].
    + by constructor.
Qed.

Lemma lines_cons l1 l2 :
  Forall (fun b => is_char b x0a = false) l1 -> lines (l1 ++ x0a :: l2) = l1 :: lines l2.
Proof. induction 1 as [|b l1 Hb _ IH]; simpl; [done|]. by rewrite Hb, IH. Qed.

Lemma lines_one l : Forall (fun b => is_char b x0a = false) l -> lines l = [l].
Proof. induction 1 as [|b l Hb _ IH]; simpl; [done|]. by rewrite Hb, IH. Qed.

Lemma find_absent c n l : Forall (fun b => is_char b c = false) l -> find_from c n l = None.
Proof. intros Hl. revert n. induction Hl as [|b l Hb _ IH]; intros n; simpl; [done|]. by rewrite Hb. Qed.

Lemma find_first c n l1 l2 :
  Forall (fun b => is_char b c = false) l1 -> find_from c n (l1 ++ c :: l2) = Some (n + length l1)%nat.
Proof.
  intros Hl. revert n. induction Hl as [|b l1 Hb _ IH]; intros n; simpl.
  - rewrite (proj2 (is_char_spec c c)) by done. f_equal. lia.
  - rewrite Hb, IH. f_equal. lia.
Qed.

