(* ===== verification/Assign.v ===== *)
(** The Assign user data of a project: the compact table of source and target texts
    (project/assign/assign_table.hpp and .cpp) and the reader of Assign files
    (project/assign/assign_input.cpp).  The table is shown to be the ordered list of
    the pairs added to it, and the reader to be the reading of a file line by line,
    with every pair of a written file read back. *)

From S2P Require Import Prelude JsonText TextLines ServerStatus.

Local Open Scope Z_scope.

(** ** assign_table *)

Record assign_record := AssignRecord {
  source_offset : Z;
  source_length : Z;
  target_offset : Z;
  target_length : Z
}.

Record assign_table := AssignTable {
  entries : list assign_record;
  bytes : list byte
}.

Definition new_assign_table : assign_table := AssignTable [] [].

Definition byte_size (t : assign_table) : Z := Z.of_nat (length (bytes t)).

(** [allocated] tells whether the two reservations succeed. *)
Definition add (allocated : bool) (source target : list byte) (t : assign_table)
  : server_status * assign_table :=
  let source_size := Z.of_nat (length source) in
  let target_size := Z.of_nat (length target) in
  if bool_decide (source = []) || bool_decide (target = []) then (project_configuration_invalid, t)
  else if (u32_max <? source_size) || (u32_max <? target_size) ||
          (u32_max - source_size <? byte_size t) ||
          (u32_max - target_size <? byte_size t + source_size)
  then (project_configuration_invalid, t)
  else if negb allocated then (io_error, t)
  else
    (success,
     AssignTable
       (entries t ++
        [AssignRecord (u32 (byte_size t)) (u32 source_size)
           (u32 (byte_size t + source_size)) (u32 target_size)])
       (bytes t ++ source ++ target)).

Definition clear (t : assign_table) : assign_table := AssignTable [] [].

Definition text (offset size : Z) (t : assign_table) : list byte :=
  if (byte_size t <? offset) || (byte_size t - offset <? size) then []
  else take (Z.to_nat size) (drop (Z.to_nat offset) (bytes t)).

Definition source (r : assign_record) (t : assign_table) : list byte :=
  text (source_offset r) (source_length r) t.

Definition target (r : assign_record) (t : assign_table) : list byte :=
  text (target_offset r) (target_length r) t.

(** The pairs a reader of the table sees, in order. *)
Definition pairs (t : assign_table) : list (list byte * list byte) :=
  (fun r => (source r t, target r t)) <$> entries t.

(** ** Reading a file *)

Definition is_blank (b : byte) : bool := is_char b " " || is_char b x09.

Fixpoint trim_front (l : list byte) : list byte :=
  match l with
  | [] => []
  | b :: rest => if is_blank b then trim_front rest else l
  end.

(** The loop at the back is the loop at the front of the reversed text. *)
Definition trim_assign_text (value : list byte) : list byte :=
  rev (trim_front (rev (trim_front value))).

Record assign_parse_failure := AssignFailure {
  failure_file : Z;
  failure_offset : Z;
  failure_length : Z;
  failure_detail : list byte
}.

Definition no_failure : assign_parse_failure := AssignFailure 0 0 0 [].

Definition separator_detail : list byte :=
  str "Assign line must contain exactly one '=' or one tab separator".
Definition empty_detail : list byte := str "Assign source and target must both be non-empty".

(** The source and the target of a line that is not empty, or why it has none. *)
Definition split_line (line : list byte) : list byte + list byte * list byte :=
  let split (separator : nat) (target_first : bool) :=
    let left := trim_assign_text (take separator line) in
    let right := trim_assign_text (drop (S separator) line) in
    let '(source, target) := if target_first then (right, left) else (left, right) in
    if bool_decide (source = []) || bool_decide (target = []) then inl empty_detail
    else inr (source, target) in
  match find_byte "=" 0 line, find_byte x09 0 line with
  | Some equal, Some _ => inl separator_detail
  | Some equal, None =>
      match find_byte "=" (S equal) line with
      | Some _ => inl separator_detail
      | None => split equal true
      end
  | None, None => inl separator_detail
  | None, Some tab =>
      match find_byte x09 (S tab) line with
      | Some _ => inl separator_detail
      | None => split tab false
      end
  end.

(** The loop of [parse_assign_file]; a line and its newline are consumed every
    round.  [allocated] tells of each call of [add] whether it can allocate. *)
Fixpoint parse_lines (fuel : nat) (allocated : nat -> bool) (file : Z) (content : list byte)
    (line_begin : nat) (t : assign_table)
  : option (server_status * assign_parse_failure * assign_table) :=
  match fuel with
  | O => None
  | S fuel =>
      if (length content <? line_begin)%nat then Some (success, no_failure, t)
      else
        let newline := find_byte x0a line_begin content in
        let line_end := default (length content) newline in
        let physical_end :=
          if (line_begin <? line_end)%nat && is_char (content !!! (line_end - 1)%nat) x0d
          then (line_end - 1)%nat else line_end in
        let line := trim_assign_text (slice line_begin physical_end content) in
        let next t :=
          match newline with
          | None => Some (success, no_failure, t)
          | Some n => parse_lines fuel allocated file content (S n) t
          end in
        if bool_decide (line = []) then next t
        else
          match split_line line with
          | inl detail =>
              Some (project_configuration_invalid,
                AssignFailure file (u32 (Z.of_nat line_begin))
                  (u32 (Z.of_nat (physical_end - line_begin))) detail, t)
          | inr (source, target) =>
              let (status, t) := add (allocated (length (entries t))) source target t in
              if negb (succeeded status) then Some (status, no_failure, t) else next t
          end
  end.

Definition parse_assign_file (allocated : nat -> bool) (file : Z) (content : list byte)
    (t : assign_table) : option (server_status * assign_parse_failure * assign_table) :=
  parse_lines (S (S (length content))) allocated file content 0 t.

(** A file of the file context: its kind, and its content when it is available. *)
Record assign_file := AssignFile {
  is_assign : bool;
  file_content : option (list byte)
}.

(** The loop of [parse_assign_inputs] over the files from [index] on. *)
Fixpoint parse_files (allocated : nat -> bool) (index : Z) (files : list assign_file)
    (t : assign_table) : option (server_status * assign_parse_failure * assign_table) :=
  match files with
  | [] => Some (success, no_failure, t)
  | f :: files =>
      if negb (is_assign f) then parse_files allocated (index + 1) files t
      else
        match file_content f with
        | None => Some (project_artifact_invalid, no_failure, t)
        | Some content =>
            match parse_assign_file allocated (u32 (index + 1)) content t with
            | None => None
            | Some (status, failure, t) =>
                if negb (succeeded status) then Some (status, failure, t)
                else parse_files allocated (index + 1) files t
            end
        end
  end.

Definition parse_assign_inputs (allocated : nat -> bool) (files : list assign_file)
    (t : assign_table) : option (server_status * assign_parse_failure * assign_table) :=
  parse_files allocated 0 files (clear t).

(** ** The table is the list of its pairs *)

Record table_ok (t : assign_table) : Prop := TableOk {
  ok_size : byte_size t <= u32_max;
  ok_entries : Forall (fun r =>
    0 <= source_offset r /\ 0 <= source_length r /\ source_offset r + source_length r <= byte_size t /\
    0 <= target_offset r /\ 0 <= target_length r /\ target_offset r + target_length r <= byte_size t)
    (entries t)
}.

Lemma text_app offset size t more entries' :
  0 <= offset -> 0 <= size -> offset + size <= byte_size t ->
  text offset size (AssignTable entries' (bytes t ++ more)) = text offset size t.
Proof.
  intros Ho Hs Hb. unfold text, byte_size in *. cbn [bytes]. rewrite length_app.
  rewrite !(proj2 (Z.ltb_ge _ _)) by lia. cbn [orb].
  rewrite drop_app_le, take_app_le by (rewrite ?length_drop; lia). done.
Qed.

Lemma text_at es before s after :
  text (Z.of_nat (length before)) (Z.of_nat (length s)) (AssignTable es (before ++ s ++ after)) = s.
Proof.
  unfold text, byte_size. cbn [bytes]. rewrite !length_app.
  rewrite !(proj2 (Z.ltb_ge _ _)) by lia. cbn [orb].
  by rewrite !Nat2Z.id, drop_app_length, take_app_length.
Qed.

Lemma pairs_app t more es :
  table_ok t -> pairs (AssignTable (entries t ++ es) (bytes t ++ more))
  = pairs t ++ ((fun r => (source r (AssignTable (entries t ++ es) (bytes t ++ more)),
                           target r (AssignTable (entries t ++ es) (bytes t ++ more)))) <$> es).
Proof.
  intros [_ He]. unfold pairs. cbn [entries]. rewrite fmap_app. f_equal.
  apply list_fmap_ext. intros i r Hr. unfold source, target.
  destruct (Forall_lookup_1 _ _ _ _ He Hr) as (? & ? & ? & ? & ? & ?).
  by rewrite !text_app by done.
Qed.

(** Why an addition is refused. *)
Definition no_room (source target : list byte) (t : assign_table) : Prop :=
  u32_max < byte_size t + Z.of_nat (length source) + Z.of_nat (length target).

Lemma add_spec allocated s g t :
  table_ok t ->
  exists status t', add allocated s g t = (status, t') /\ table_ok t' /\
    (status = success /\ pairs t' = pairs t ++ [(s, g)] /\ s <> [] /\ g <> [] /\
       byte_size t' = byte_size t + Z.of_nat (length s) + Z.of_nat (length g) \/
     t' = t /\ (status = project_configuration_invalid /\ (s = [] \/ g = [] \/ no_room s g t) \/
                status = io_error /\ allocated = false)).
Proof.
  intros Hok. pose proof (ok_size t Hok) as Hsz. assert (0 <= byte_size t) by (unfold byte_size; lia).
  unfold add. destruct (bool_decide (s = []) || bool_decide (g = [])) eqn:E1.
  { eexists _, _. split; [done|]. split; [done|]. right. split; [done|]. left. split; [done|].
    unbool. destruct E1 as [E1|E1]; apply bool_decide_eq_true in E1; auto. }
  destruct (_ || _) eqn:E2 in |- *.
  { eexists _, _. split; [done|]. split; [done|]. right. split; [done|]. left. split; [done|].
    right. right. unfold no_room. unfold u32_max in *. unbool. lia. }
  destruct allocated; simpl negb; cbn iota; [|eexists _, _; split; [done|]; split; [done|]; right; auto].
  unbool. eexists _, _. split; [done|].
  repeat match goal with H : bool_decide _ = false |- _ => apply bool_decide_eq_false in H end.
  assert (u32 (byte_size t) = byte_size t /\ u32 (Z.of_nat (length s)) = Z.of_nat (length s) /\
    u32 (byte_size t + Z.of_nat (length s)) = byte_size t + Z.of_nat (length s) /\
    u32 (Z.of_nat (length g)) = Z.of_nat (length g)) as (-> & -> & -> & ->).
  { unfold u32, u32_max in *. rewrite !Z.mod_small by lia. done. }
  assert (byte_size (AssignTable (entries t ++ [AssignRecord (byte_size t) (Z.of_nat (length s))
    (byte_size t + Z.of_nat (length s)) (Z.of_nat (length g))]) (bytes t ++ s ++ g))
    = byte_size t + Z.of_nat (length s) + Z.of_nat (length g)) as Hbs.
  { unfold byte_size. cbn [bytes]. rewrite !length_app. lia. }
  split; [split|].
  - rewrite Hbs. lia.
  - rewrite Hbs. apply Forall_app. split; [|repeat constructor; simpl; lia].
    eapply Forall_impl; [apply Hok|]. simpl. intros r Hr. lia.
  - left. split_and!; try done. rewrite pairs_app by done. do 2 f_equal. cbn [fmap list_fmap].
    do 2 f_equal; unfold source, target; cbn [source_offset source_length target_offset target_length].
    + apply text_at.
    + unfold byte_size. rewrite <- Nat2Z.inj_add, <- length_app, app_assoc.
      pose proof (text_at (entries t ++ [AssignRecord (Z.of_nat (length (bytes t))) (Z.of_nat (length s))
        (Z.of_nat (length (bytes t ++ s))) (Z.of_nat (length g))]) (bytes t ++ s) g []) as Ht.
      by rewrite app_nil_r in Ht.
Qed.

(** ** Reading by lines *)

(** A line without the carriage return at its end. *)
Definition strip_return (line : list byte) : list byte :=
  match last line with
  | Some b => if is_char b x0d then removelast line else line
  | None => line
  end.

(** What a file means: its lines from [offset] on, in order, up to the first that is
    refused. *)
Fixpoint read_lines (allocated : nat -> bool) (file : Z) (offset : nat) (ls : list (list byte))
    (t : assign_table) : server_status * assign_parse_failure * assign_table :=
  match ls with
  | [] => (success, no_failure, t)
  | l :: ls =>
      let physical := strip_return l in
      let line := trim_assign_text physical in
      if bool_decide (line = []) then read_lines allocated file (offset + S (length l)) ls t
      else
        match split_line line with
        | inl detail =>
            (project_configuration_invalid,
             AssignFailure file (u32 (Z.of_nat offset)) (u32 (Z.of_nat (length physical))) detail, t)
        | inr (source, target) =>
            let (status, t) := add (allocated (length (entries t))) source target t in
            if negb (succeeded status) then (status, no_failure, t)
            else read_lines allocated file (offset + S (length l)) ls t
        end
  end.

(** The physical end of a line of the content. *)
Lemma strip_slice before l after :
  let content := before ++ l ++ after in
  let b := length before in
  let e := (length before + length l)%nat in
  let p := if (b <? e)%nat && is_char (content !!! (e - 1)%nat) x0d then (e - 1)%nat else e in
  slice b p content = strip_return l /\ (p - b = length (strip_return l))%nat.
Proof.
  intros content b e p. unfold strip_return, slice.
  assert (forall n, (n <= length l)%nat -> take n (drop b content) = take n l) as Ht.
  { intros n Hn. unfold content, b. by rewrite drop_app_length, take_app_le by lia. }
  destruct l as [|c l _] using rev_ind.
  - assert (p = b) as -> by (unfold p, e; rewrite (proj2 (Nat.ltb_ge _ _)) by (simpl; lia); simpl; lia).
    by rewrite Nat.sub_diag.
  - rewrite last_snoc, length_app in *. cbn [length] in *.
    assert (content !!! (e - 1)%nat = c) as Hc.
    { apply list_lookup_total_correct. unfold content, e. rewrite length_app. simpl.
      rewrite lookup_app_r by lia. rewrite <- app_assoc, lookup_app_r by lia.
      replace (length before + (length l + 1) - 1 - length before - length l)%nat with 0%nat by lia. done. }
    unfold p. rewrite Hc, (proj2 (Nat.ltb_lt b e)) by (unfold b, e; rewrite length_app; simpl; lia).
    cbn [andb]. assert (e = (b + (length l + 1))%nat) as He by (unfold e, b; by rewrite length_app).
    destruct (is_char c x0d).
    + rewrite removelast_last. replace (e - 1 - b)%nat with (length l) by lia.
      rewrite Ht by lia. by rewrite take_app_length.
    + replace (e - b)%nat with (length l + 1)%nat by lia. rewrite Ht by lia.
      rewrite take_ge by (rewrite length_app; simpl; lia). by rewrite length_app.
Qed.

Lemma parse_lines_reads fuel allocated file before rest t :
  (length rest + 1 < fuel)%nat ->
  parse_lines fuel allocated file (before ++ rest) (length before) t
  = Some (read_lines allocated file (length before) (lines rest) t).
Proof.
  revert before rest t. induction fuel as [|fuel IH]; intros before rest t Hf; [lia|].
  cbn [parse_lines]. rewrite (proj2 (Nat.ltb_ge _ _)) by (rewrite length_app; lia).
  unfold find_byte. rewrite drop_app_length.
  pose proof (find_from_spec x0a (length before) rest) as Hfind.
  destruct (find_from x0a (length before) rest) as [m|].
  - destruct Hfind as (l & after & -> & -> & Hl). rewrite lines_cons by done. cbn [from_option id].
    destruct (strip_slice before l (x0a :: after)) as [Hs Hlen]. rewrite Hs, Hlen.
    cbn [read_lines].
    assert (forall t, parse_lines fuel allocated file (before ++ l ++ x0a :: after)
      (S (length before + length l)) t
      = Some (read_lines allocated file (length before + S (length l)) (lines after) t)) as Hnext.
    { intros t'. replace (before ++ l ++ x0a :: after) with ((before ++ l ++ [x0a]) ++ after)
        by by rewrite <- !app_assoc.
      assert (length (before ++ l ++ [x0a]) = S (length before + length l))%nat as Hlb
        by (rewrite !length_app; simpl; lia).
      rewrite <- Hlb, IH, Hlb by (rewrite length_app in Hf; simpl in Hf; lia).
      do 2 f_equal. lia. }
    case_bool_decide; [apply Hnext|].
    destruct (split_line _) as [detail|[s g]]; [done|].
    destruct (add _ s g t) as [status t']. destruct (succeeded status); simpl negb; cbn iota; [apply Hnext|done].
  - rewrite lines_one by done. cbn [from_option id]. rewrite length_app.
    destruct (strip_slice before rest []) as [Hs Hlen]. rewrite app_nil_r in Hs, Hlen.
    rewrite Hs, Hlen. cbn [read_lines].
    case_bool_decide; [done|]. destruct (split_line _) as [detail|[s g]]; [done|].
    destruct (add _ s g t) as [status t']. by destruct (succeeded status).
Qed.

(** ** Writing and reading back *)

(** A text that a line can carry as its source or target: it is not empty, holds no
    separator and no line end, and neither begins nor ends with a blank. *)
Definition carried (s : list byte) : bool :=
  forallb (fun b => negb (is_char b "=" || is_char b x09 || is_char b x0a || is_char b x0d)) s &&
  match head s, last s with
  | Some f, Some l => negb (is_blank f) && negb (is_blank l)
  | _, _ => false
  end.

Definition assign_line (p : list byte * list byte) : list byte := p.2 ++ "="%byte :: p.1.

(** A file with one line for each pair of a source and a target. *)
Definition assign_text (ps : list (list byte * list byte)) : list byte :=
  concat ((fun p => assign_line p ++ [x0a]) <$> ps).

Lemma trim_clean f l m :
  (f :: m = l) -> is_blank f = false ->
  (forall b, last l = Some b -> is_blank b = false) -> trim_assign_text l = l.
Proof.
  intros <- Hf Hl. unfold trim_assign_text. cbn [trim_front]. rewrite Hf.
  destruct (rev (f :: m)) as [|b r] eqn:E.
  - apply (f_equal (@length byte)) in E. rewrite length_rev in E. done.
  - assert (f :: m = rev r ++ [b]) as Hm by (rewrite <- (rev_involutive (f :: m)), E; done).
    cbn [trim_front]. rewrite Hl by (rewrite Hm; apply last_snoc). by rewrite Hm.
Qed.

Lemma carried_spec s :
  carried s = true ->
  exists f m, s = f :: m /\ is_blank f = false /\
    (forall b, last s = Some b -> is_blank b = false) /\ trim_assign_text s = s /\
    Forall (fun b => is_char b "=" = false /\ is_char b x09 = false /\ is_char b x0a = false /\
                     is_char b x0d = false) s.
Proof.
  unfold carried. intros Hs. apply andb_true_iff in Hs as [Ha Hb].
  destruct s as [|f m]; [done|]. cbn [head] in Hb. destruct (last (f :: m)) as [l|] eqn:El; [|done].
  unbool. exists f, m. split; [done|]. split; [done|].
  assert (forall b, Some l = Some b -> is_blank b = false) as Hlast by by intros ? [= <-].
  split; [done|]. split.
  - eapply trim_clean; [done|done|]. by rewrite El.
  - apply Forall_forall. intros b Hin. rewrite forallb_forall in Ha.
    specialize (Ha b (proj1 (list_elem_of_In _ _) Hin)). unbool. done.
Qed.

Lemma split_written s g :
  carried s = true -> carried g = true -> split_line (assign_line (s, g)) = inr (s, g).
Proof.
  intros Hs Hg. apply carried_spec in Hs as (fs & ms & -> & _ & _ & Hts & Has).
  apply carried_spec in Hg as (fg & mg & Eg & _ & _ & Htg & Hag).
  unfold split_line, assign_line, find_byte. cbn [fst snd]. rewrite !drop_0.
  rewrite find_first by (eapply Forall_impl; [exact Hag|]; simpl; tauto).
  rewrite find_absent.
  2: { apply Forall_app. split; [eapply Forall_impl; [exact Hag|]; simpl; tauto|].
       constructor; [done|]. eapply Forall_impl; [exact Has|]; simpl; tauto. }
  cbn [Nat.add]. rewrite take_app_length.
  assert (drop (S (length g)) (g ++ "="%byte :: fs :: ms) = fs :: ms) as Hd.
  { change (S (length g)) with (1 + length g)%nat. rewrite Nat.add_comm, <- drop_drop, drop_app_length. done. }
  rewrite Hd, find_absent by (eapply Forall_impl; [exact Has|]; simpl; tauto).
  rewrite Htg, Hts. subst g. done.
Qed.

Lemma line_clean s g :
  carried s = true -> carried g = true ->
  let line := assign_line (s, g) in
  Forall (fun b => is_char b x0a = false) line /\ strip_return line = line /\
  trim_assign_text line = line /\ line <> [].
Proof.
  intros Hs Hg line. apply carried_spec in Hs as (fs & ms & Es & _ & Hls & _ & Has).
  apply carried_spec in Hg as (fg & mg & Eg & Hfg & _ & _ & Hag).
  assert (last line = last s) as Hl.
  { unfold line, assign_line. cbn [fst snd]. rewrite Es.
    change (g ++ "="%byte :: fs :: ms) with (g ++ ["="%byte] ++ (fs :: ms)).
    rewrite app_assoc, last_app. by destruct (last (fs :: ms)) eqn:E; [|apply last_None in E]. }
  split_and!.
  - unfold line, assign_line. cbn [fst snd]. apply Forall_app. split.
    + eapply Forall_impl; [exact Hag|]. simpl. tauto.
    + constructor; [done|]. eapply Forall_impl; [exact Has|]. simpl. tauto.
  - unfold strip_return. rewrite Hl. destruct (last s) as [b|] eqn:E; [|done].
    apply last_Some_elem_of in E. apply (proj1 (Forall_forall _ _) Has) in E as (_ & _ & _ & ->). done.
  - unfold line, assign_line. cbn [fst snd]. subst g. eapply trim_clean; [done|done|].
    intros b Hb. apply Hls. rewrite <- Hl. exact Hb.
  - unfold line, assign_line. cbn [fst snd]. by subst g.
Qed.

(** The bytes the texts of the pairs take. *)
Definition pairs_size (ps : list (list byte * list byte)) : Z :=
  foldr (fun p n => Z.of_nat (length p.1) + Z.of_nat (length p.2) + n) 0 ps.

Lemma pairs_size_nonneg ps : 0 <= pairs_size ps.
Proof. unfold pairs_size. induction ps as [|p ps IH]; simpl; lia. Qed.

Lemma read_written file offset ps t :
  table_ok t -> Forall (fun p => carried p.1 = true /\ carried p.2 = true) ps ->
  byte_size t + pairs_size ps <= u32_max ->
  exists t', read_lines (fun _ => true) file offset (lines (assign_text ps)) t
    = (success, no_failure, t') /\ pairs t' = pairs t ++ ps /\ table_ok t'.
Proof.
  intros Hok Hps. revert offset t Hok. induction Hps as [|[s g] ps [Hs Hg] Hps IH]; intros offset t Hok Hsz.
  { exists t. split; [done|]. by rewrite app_nil_r. }
  pose proof (pairs_size_nonneg ps). cbn [fst snd] in *.
  change (pairs_size ((s, g) :: ps))
    with (Z.of_nat (length s) + Z.of_nat (length g) + pairs_size ps) in Hsz.
  change (assign_text ((s, g) :: ps)) with ((assign_line (s, g) ++ [x0a]) ++ assign_text ps).
  destruct (line_clean s g Hs Hg) as (Hl & Hr & Ht & Hne). rewrite <- app_assoc. cbn [app].
  rewrite lines_cons by done. cbn [read_lines]. rewrite Hr, Ht.
  rewrite bool_decide_eq_false_2, split_written by done.
  destruct (add_spec true s g t Hok) as (status & t1 & -> & Hok1 &
    [(-> & Hp & _ & _ & Hb)|(-> & [(-> & [->|[->|Hn]])|[_ ?]])]); try done.
  - simpl negb. cbn iota. destruct (IH (offset + S (length (assign_line (s, g))))%nat t1 Hok1)
      as (t' & Hr' & Hp' & Hok'); [lia|].
    exists t'. split; [done|]. split; [|done]. rewrite Hp', Hp, <- app_assoc. done.
  - unfold no_room in Hn. lia.
Qed.

(** ** The contract *)

(** The reader of Assign files is the reading of the file line by line: it always
    returns, ends a line at a newline and drops a carriage return before it, ignores
    blank lines, and adds the pair of every other line in order until one is refused,
    whose extent in the file it reports. *)
Theorem assign_file_reads_lines (allocated : nat -> bool) (file : Z) (content : list byte)
    (t : assign_table) :
  parse_assign_file allocated file content t = Some (read_lines allocated file 0 (lines content) t).
Proof. apply (parse_lines_reads _ allocated file [] content). lia. Qed.

(** Every pair of texts that a line can carry survives: a file written from pairs
    appends exactly these pairs, in order, to what the table held. *)
Theorem assign_pairs_roundtrip (file : Z) (ps : list (list byte * list byte)) (t : assign_table) :
  table_ok t -> Forall (fun p => carried p.1 = true /\ carried p.2 = true) ps ->
  byte_size t + pairs_size ps <= u32_max ->
  exists t', parse_assign_file (fun _ => true) file (assign_text ps) t
    = Some (success, no_failure, t') /\ pairs t' = pairs t ++ ps.
Proof.
  intros Hok Hps Hsz. destruct (read_written file 0 ps t Hok Hps Hsz) as (t' & Hr & Hp & _).
  exists t'. split; [|done]. unfold parse_assign_file.
  pose proof (parse_lines_reads (S (S (length (assign_text ps)))) (fun _ => true) file []
    (assign_text ps) t ltac:(lia)) as Hl. simpl app in Hl. simpl length in Hl. by rewrite Hl, Hr.
Qed.

Definition example_pairs : list (list byte * list byte) :=
  [(str "pump.speed", str "plc.out 1"); (str "a", str "b")].

Lemma assign_pairs_roundtrip_witness :
  exists t', parse_assign_file (fun _ => true) 1 (assign_text example_pairs) new_assign_table
    = Some (success, no_failure, t') /\ pairs t' = pairs new_assign_table ++ example_pairs.
Proof.
  apply (assign_pairs_roundtrip 1 example_pairs new_assign_table).
  - split; [vm_compute; discriminate|constructor].
  - repeat constructor.
  - vm_compute. discriminate.
Defined.

Example two_separators :
  parse_assign_file (fun _ => true) 1 (str "a=b=c") new_assign_table
  = Some (project_configuration_invalid, AssignFailure 1 0 5 separator_detail, new_assign_table).
Proof. by vm_compute. Qed.
