(* ===== verification/DenseIndex.v ===== *)
(** A dense array with an open-addressed index over its keys, as the semantic graph
    keeps for derived types, endpoint paths and link targets: an entry of the array
    never moves, the index maps the hash of its key to a slot that names its
    position.  Here are the three loops the stores share and the invariant that the
    index finds exactly the keys of the array; a store instantiates them with its
    keys and its slots. *)

From S2P Require Import Prelude ServerStatus HashIndex.

Local Open Scope Z_scope.

(** ** Operations *)

Section Slots.
Context {S : Type} (vacant : S) (occupied : S -> bool).
#[local] Instance slot_is_inhabited : Inhabited S := populate vacant.

(** [insert_*_index]: the loop to a free slot, and the store of [s] there. *)
Definition insert_hashed (T : list S) (hash : Z) (s : S) : option (list S) :=
  match probe vacant T (fun s => negb (occupied s)) (length T) (home T hash) with
  | Some position => Some (<[position := s]> T)
  | None => None
  end.

(** The loop of [find_*]: the first slot that matches, unless a free one is before. *)
Definition find_slot (T : list S) (hash : Z) (matches : S -> bool) : option S :=
  match T with
  | [] => None
  | _ =>
      match probe vacant T (rejects occupied matches) (length T) (home T hash) with
      | Some position =>
          let found := T !!! position in if occupied found then Some found else None
      | None => None
      end
  end.

(** [ensure_*_index_capacity] of a store with [count] keys; [rebuild] is the loop that
    fills the new table.  [None] is a loop that does not end. *)
Definition ensure_capacity (count additional : Z) (allocated : bool)
    (rebuild : list S -> option (list S)) (T : list S) : option (server_status * list S) :=
  if size_max - count <? additional then Some (io_error, T)
  else
    let required := count + additional in
    if negb (match T with [] => true | _ => false end) &&
       (required <=? Z.of_nat (length T) / 2)
    then Some (success, T)
    else
      match next_capacity required with
      | None => None
      | Some capacity =>
          if capacity =? 0 then Some (io_error, T)
          else if negb allocated then Some (io_error, T)
          else
            match rebuild (replicate (Z.to_nat capacity) vacant) with
            | None => None
            | Some candidate => Some (success, candidate)
            end
      end.

Section Keys.
Context {K : Type} (hash : K -> Z) (slot_of : nat -> K -> S).

(** The loop over an array that fills a table, from position [i] on. *)
Fixpoint insert_keys (i : nat) (keys : list K) (T : list S) : option (list S) :=
  match keys with
  | [] => Some T
  | k :: keys =>
      match insert_hashed T (hash k) (slot_of i k) with
      | Some T => insert_keys (Datatypes.S i) keys T
      | None => None
      end
  end.

Definition slots_of (keys : list K) : list S := imap slot_of keys.

(** ** The invariant *)

(** [index_of] reads the position of an array entry back from its slot; a [usable] key
    makes a slot that is not vacant. *)
Context `{EqDecision K} (usable : K -> Prop) (index_of : S -> nat) (limit : nat).
Context (vacant_free : occupied vacant = false).
Context (slot_busy : forall i k, (i < limit)%nat -> usable k -> occupied (slot_of i k) = true).
Context (slot_index : forall i k, (i < limit)%nat -> index_of (slot_of i k) = i).
Context (limit_small : Z.of_nat limit <= 2 ^ 32).

Definition entry_hash (keys : list K) (s : S) : Z :=
  match keys !! index_of s with Some k => hash k | None => 0 end.

Record dense_ok (keys : list K) (T : list S) : Prop := DenseOk {
  dense_distinct : NoDup keys;
  dense_usable : Forall usable keys;
  dense_limit : (length keys <= limit)%nat;
  dense_table :
    keys = [] /\ T = [] \/
    table_ok vacant occupied (entry_hash keys) T /\
    (2 * length keys <= length T)%nat /\ (8 <= length T)%nat /\
    entries occupied T ≡ₚ slots_of keys
}.

Lemma dense_empty : dense_ok [] [].
Proof. split; [apply NoDup_nil_2|by constructor|simpl; lia|by left]. Qed.

Lemma elem_of_slots_of keys s :
  s ∈ slots_of keys <-> exists i k, keys !! i = Some k /\ s = slot_of i k.
Proof.
  unfold slots_of. rewrite list_elem_of_lookup. split.
  - intros [i Hi]. rewrite list_lookup_imap in Hi. destruct (keys !! i) as [k|] eqn:E; [|done].
    simpl in Hi. simplify_eq. eauto.
  - intros (i & k & Hk & ->). exists i. by rewrite list_lookup_imap, Hk.
Qed.

Lemma entry_hash_slot keys i k :
  (length keys <= limit)%nat -> keys !! i = Some k -> entry_hash keys (slot_of i k) = hash k.
Proof.
  intros Hl Hk. apply lookup_lt_Some in Hk as Hi. unfold entry_hash.
  by rewrite slot_index, Hk by lia.
Qed.

Lemma slots_busy keys :
  Forall usable keys -> (length keys <= limit)%nat -> Forall (fun s => occupied s = true) (slots_of keys).
Proof.
  intros Hu Hl. apply Forall_forall. intros s (i & k & Hk & ->)%elem_of_slots_of.
  rewrite Forall_lookup in Hu. apply slot_busy; [apply lookup_lt_Some in Hk; lia|by eapply Hu].
Qed.

(** The loop finds the slot of a key of the array, and no slot for another key. *)
Lemma find_slot_spec keys T k (matches : S -> bool) :
  dense_ok keys T ->
  (forall i k', keys !! i = Some k' -> matches (slot_of i k') = bool_decide (k' = k)) ->
  (forall i, keys !! i = Some k -> find_slot T (hash k) matches = Some (slot_of i k)) /\
  (k ∉ keys -> find_slot T (hash k) matches = None).
Proof.
  intros [Hnd _ Hlim Ht] Hm. unfold find_slot.
  destruct Ht as [[-> ->]|(Hok & Hload & Hmin & He)]; [by split|].
  destruct T as [|s0 rest] eqn:ET; [simpl in Hmin; lia|]. rewrite <- ET in *. clear ET.
  assert (has_room vacant occupied T) as Hroom.
  { apply entries_room. rewrite He. unfold slots_of. rewrite length_imap. lia. }
  destruct (search_spec vacant occupied (entry_hash keys) T matches (Z.to_nat (u64 (hash k))) Hok Hroom)
    as (x & Hpr & Hx).
  { intros s Hs Hms. rewrite He in Hs. apply elem_of_slots_of in Hs as (i & k' & Hk & ->).
    rewrite (Hm i k' Hk) in Hms. apply bool_decide_eq_true in Hms. subst k'.
    unfold home_of. by rewrite entry_hash_slot. }
  rewrite <- home_mod in Hpr by apply Hok. rewrite Hpr. cbv zeta.
  change (T !!! (x mod length T)%nat) with (cell vacant T x).
  pose proof (sized_pos T (proj1 Hok)) as Hpos. destruct Hx as [[Hb Hms]|(Hnb & Hnone & _)].
  - unfold busy in Hb. rewrite Hb.
    assert (cell vacant T x ∈ entries occupied T) as Hin by (apply (elem_of_entries vacant); eauto).
    rewrite He in Hin. apply elem_of_slots_of in Hin as (i & k' & Hk & Hs). rewrite Hs in Hms |- *.
    rewrite (Hm i k' Hk) in Hms. apply bool_decide_eq_true in Hms. subst k'. split.
    + intros i' Hk'. by rewrite (NoDup_lookup _ _ _ _ Hnd Hk Hk').
    + intros Hn. by destruct Hn; eapply list_elem_of_lookup_2.
  - unfold busy in Hnb. rewrite (not_true_is_false _ Hnb). split; [|done]. intros i Hk. exfalso.
    assert (slot_of i k ∈ entries occupied T) as Hin by (rewrite He; apply elem_of_slots_of; eauto).
    specialize (Hnone _ Hin). rewrite (Hm i k Hk) in Hnone. by rewrite bool_decide_true in Hnone.
Qed.

(** ** Growing *)

Lemma insert_hashed_slot (h : S -> Z) T s hash' :
  h s = hash' -> insert_hashed T hash' s = insert_slot vacant occupied h T s.
Proof. intros Hh. unfold insert_hashed, insert_slot. by rewrite Hh. Qed.

(** The loop over the array inserts its slots. *)
Lemma insert_keys_slots keys T :
  (length keys <= limit)%nat ->
  insert_keys 0 keys T = insert_all vacant occupied (entry_hash keys) T (slots_of keys).
Proof.
  intros Hl.
  assert (forall ks i T, (forall j k, ks !! j = Some k -> keys !! (i + j)%nat = Some k) ->
    insert_keys i ks T =
    insert_all vacant occupied (entry_hash keys) T (imap (fun j => slot_of (i + j)) ks)) as Hg;
    [|by apply (Hg keys 0%nat)].
  intros ks. induction ks as [|k ks IH]; intros i T' Hks; [done|].
  cbn [insert_keys imap insert_all]. rewrite Nat.add_0_r.
  assert (keys !! i = Some k) as Hk by (rewrite <- (Nat.add_0_r i); by apply Hks).
  rewrite (insert_hashed_slot (entry_hash keys)) by by apply entry_hash_slot.
  destruct (insert_slot _ _ _ _ _) as [T1|]; [|done]. rewrite IH.
  - f_equal. apply imap_ext. intros j l' _. unfold compose.
    by replace (i + Datatypes.S j)%nat with (Datatypes.S i + j)%nat by lia.
  - intros j l' Hj. replace (Datatypes.S i + j)%nat with (i + Datatypes.S j)%nat by lia. by apply Hks.
Qed.

(** A new table filled with the slots of the keys, in any order. *)
Lemma refill_spec keys slots k :
  NoDup keys -> Forall usable keys -> (length keys <= limit)%nat -> slots ≡ₚ slots_of keys ->
  3 <= k <= 63 -> 2 * Z.of_nat (length keys) <= 2 ^ k ->
  exists T, insert_all vacant occupied (entry_hash keys)
      (replicate (Z.to_nat (2 ^ k)) vacant) slots = Some T /\
    dense_ok keys T /\ Z.of_nat (length T) = 2 ^ k.
Proof.
  intros Hnd Hus Hlim Hs Hk Hcap. pose proof (Z.pow_pos_nonneg 2 k).
  destruct (vacant_table vacant occupied (entry_hash keys) vacant_free k) as [Hok He]; [lia|].
  assert (8 <= 2 ^ k) as H8 by (apply (Z.pow_le_mono_r 2 3 k); lia).
  destruct (insert_all_spec vacant occupied (entry_hash keys)
    (replicate (Z.to_nat (2 ^ k)) vacant) slots Hok) as (T & HT & Hok' & Hl' & He').
  { rewrite Hs. by apply slots_busy. }
  { rewrite He, Hs. unfold slots_of. rewrite length_imap, length_replicate. simpl. lia. }
  rewrite He, app_nil_r, Hs in He'. rewrite length_replicate in Hl'.
  exists T. split; [done|]. split; [|lia]. split; [done..|]. right. split; [done|].
  split; [lia|]. split; [lia|done].
Qed.

(** Making room for one more key. *)
Lemma dense_capacity_spec keys T allocated (rebuild : list S -> option (list S)) slots :
  dense_ok keys T -> slots ≡ₚ slots_of keys ->
  (forall T, rebuild T = insert_all vacant occupied (entry_hash keys) T slots) ->
  exists st T', ensure_capacity (Z.of_nat (length keys)) 1 allocated rebuild T = Some (st, T') /\
    (st = io_error /\ T' = T /\ allocated = false \/
     st = success /\ dense_ok keys T' /\ (2 * Datatypes.S (length keys) <= length T')%nat).
Proof.
  intros Hd Hs Hre. pose proof Hd as [Hnd Hus Hlim Ht]. unfold ensure_capacity.
  rewrite (proj2 (Z.ltb_ge _ _)) by (unfold size_max; lia).
  destruct (_ && _) eqn:Eg.
  { exists success, T. split; [done|]. right. unbool. do 2 (split; [done|]).
    pose proof (Z.mul_div_le (Z.of_nat (length T)) 2). lia. }
  destruct (next_capacity_spec (Z.of_nat (length keys) + 1)) as (c & -> & Hcap); [lia|].
  rewrite (proj2 (Z.eqb_neq _ 0)), (proj2 (Z.ltb_ge _ _)) in Hcap by lia.
  destruct Hcap as (j & Hj & -> & Hle). pose proof (Z.pow_pos_nonneg 2 j).
  rewrite (proj2 (Z.eqb_neq _ 0)) by lia.
  destruct allocated; cbn [negb]; [|exists io_error, T; split; [done|by left]].
  rewrite Hre. destruct (refill_spec keys slots j Hnd Hus Hlim Hs Hj) as (T' & -> & Hd' & Hl'); [lia|].
  exists success, T'. split; [done|]. right. split; [done|]. split; [done|lia].
Qed.

(** A new key enters an index with room for it. *)
Lemma append_key_spec keys T k :
  dense_ok keys T -> (2 * Datatypes.S (length keys) <= length T)%nat -> k ∉ keys -> usable k ->
  (length keys < limit)%nat ->
  exists T', insert_hashed T (hash k) (slot_of (length keys) k) = Some T' /\
    dense_ok (keys ++ [k]) T'.
Proof.
  intros [Hnd Hus Hlim Ht] Hload Hk Husk Hlt.
  destruct Ht as [[-> ->]|(Hok & _ & Hmin & He)]; [simpl in Hload; lia|].
  set (eh := entry_hash (keys ++ [k])).
  assert ((keys ++ [k]) !! length keys = Some k) as Hlast by by rewrite lookup_app_r, Nat.sub_diag.
  assert (length (keys ++ [k]) = Datatypes.S (length keys)) as Hlen by (rewrite length_app; simpl; lia).
  rewrite (insert_hashed_slot eh) by (apply entry_hash_slot; [lia|done]).
  destruct (insert_slot_spec vacant occupied eh T (slot_of (length keys) k))
    as (T' & -> & Hok' & Hl' & He').
  { eapply table_ok_ext; [|exact Hok]. intros s Hs. rewrite He in Hs.
    apply elem_of_slots_of in Hs as (i & k' & Hk' & ->). rewrite entry_hash_slot by done.
    unfold eh. rewrite entry_hash_slot; [done|lia|by apply lookup_app_l_Some]. }
  { apply entries_room. rewrite He. unfold slots_of. rewrite length_imap. lia. }
  { by apply slot_busy. }
  exists T'. split; [done|]. split.
  - apply NoDup_app. split; [done|]. split; [|apply NoDup_singleton].
    intros l Hl Hl2. by apply list_elem_of_singleton in Hl2 as ->.
  - apply Forall_app. split; [done|by constructor].
  - lia.
  - right. rewrite Hlen. split; [done|]. split; [lia|]. split; [lia|].
    rewrite He', He. unfold slots_of. rewrite imap_app. simpl. rewrite Nat.add_0_r. solve_Permutation.
Qed.
End Keys.
End Slots.
