(* ===== verification/SparseIndex.v ===== *)
(** Tables from numbers to numbers with open addressing, as the graph delta keeps them for
    patches, for identities and for link targets: here with their loops, the finite map a
    table stands for, and [graph_delta::sparse_index] (project/graph/graph_delta.cpp). *)

From S2P Require Import Prelude ServerStatus HashIndex DenseIndex.

Local Open Scope Z_scope.

(** ** Tables of keys and values *)

Section Keyed.
Context {S : Type} (vacant : S) (key value : S -> Z) (make : Z -> Z -> S) (hash : Z -> Z).
#[local] Instance keyed_slot_inhabited : Inhabited S := populate vacant.

Definition keyed_occupied (s : S) : bool := negb (key s =? 0).

(** The value of a key; 0 is the missing one. *)
Definition keyed_find (T : list S) (k : Z) : Z :=
  if k =? 0 then 0
  else
    match find_slot vacant keyed_occupied T (hash k) (fun s => key s =? k) with
    | Some s => value s
    | None => 0
    end.

(** The loop to a free slot; [None] is a loop that does not end. *)
Definition keyed_insert (T : list S) (k v : Z) : option (list S) :=
  insert_hashed vacant keyed_occupied T (hash k) (make k v).

(** The rehash loop over the old table. *)
Fixpoint keyed_move (old T : list S) : option (list S) :=
  match old with
  | [] => Some T
  | s :: old =>
      if key s =? 0 then keyed_move old T
      else
        match insert_hashed vacant keyed_occupied T (hash (key s)) s with
        | Some T => keyed_move old T
        | None => None
        end
  end.

Definition keyed_capacity (count additional : Z) (allocated : bool) (T : list S) : option (server_status * list S) :=
  ensure_capacity vacant count additional allocated (keyed_move T) T.

(** ** The map of a table *)

Context (key_vacant : key vacant = 0).
Context (key_make : forall k v, key (make k v) = k) (value_make : forall k v, value (make k v) = v).

Definition slot_hash (s : S) : Z := hash (key s).
Definition slots_of_map (m : gmap Z Z) : list S := (fun p => make p.1 p.2) <$> map_to_list m.

Record keyed_ok (m : gmap Z Z) (count : Z) (T : list S) : Prop := KeyedOk {
  keyed_count : count = Z.of_nat (size m);
  keyed_zero : m !! 0 = None;
  keyed_table :
    m = ∅ /\ T = [] \/
    table_ok vacant keyed_occupied slot_hash T /\ (2 * size m <= length T)%nat /\ (8 <= length T)%nat /\
    entries keyed_occupied T ≡ₚ slots_of_map m
}.

Lemma keyed_empty : keyed_ok ∅ 0 [].
Proof. split; [done|by apply lookup_empty|by left]. Qed.

Lemma vacant_not_occupied : keyed_occupied vacant = false.
Proof. unfold keyed_occupied. by rewrite key_vacant. Qed.

Lemma make_occupied k v : k <> 0 -> keyed_occupied (make k v) = true.
Proof. intros H. unfold keyed_occupied. by rewrite key_make, (proj2 (Z.eqb_neq k 0)). Qed.

Lemma elem_of_map_slots m s : s ∈ slots_of_map m <-> exists k v, m !! k = Some v /\ s = make k v.
Proof.
  unfold slots_of_map. rewrite list_elem_of_fmap. split.
  - intros ([k v] & -> & H%elem_of_map_to_list). by exists k, v.
  - intros (k & v & H & ->). exists (k, v). split; [done|]. by apply elem_of_map_to_list.
Qed.

Lemma length_slots m : length (slots_of_map m) = size m.
Proof. unfold slots_of_map. by rewrite length_fmap, length_map_to_list. Qed.

Lemma keyed_find_spec m count T k : keyed_ok m count T -> k <> 0 -> keyed_find T k = default 0 (m !! k).
Proof.
  intros [_ H0 Ht] Hk. unfold keyed_find. rewrite (proj2 (Z.eqb_neq k 0)) by done.
  destruct Ht as [[-> ->]|(Hok & Hload & Hmin & He)]; [done|]. unfold find_slot.
  destruct T as [|s0 T0] eqn:ET; [cbn in Hmin; lia|]. rewrite <- ET in *. clear ET s0 T0.
  pose proof Hok as [Hsized _]. rewrite home_mod by done.
  destruct (search_spec vacant keyed_occupied slot_hash T (fun s => key s =? k) (Z.to_nat (u64 (hash k))))
    as (x & -> & Hx); [done| | |].
  - apply entries_room. rewrite He, length_slots. lia.
  - intros s Hs Hkey%Z.eqb_eq. unfold home_of, slot_hash. by rewrite Hkey.
  - fold (cell vacant T x). change (T !!! (x mod length T)%nat) with (cell vacant T x).
    destruct Hx as [[Hb Hm]|(Hnb & Hnone & _)].
    + unfold busy in Hb. rewrite Hb. assert (cell vacant T x ∈ entries keyed_occupied T) as Hin.
      { apply (elem_of_entries vacant); [lia|]. by exists x. }
      rewrite He in Hin. apply elem_of_map_slots in Hin as (k' & v & Hv & E). rewrite E in Hm |- *.
      rewrite key_make in Hm. apply Z.eqb_eq in Hm as ->. by rewrite value_make, Hv.
    + unfold busy in Hnb. rewrite (not_true_is_false _ Hnb). destruct (m !! k) as [v|] eqn:Ev; [|done]. exfalso.
      assert (make k v ∈ entries keyed_occupied T) as Hin by (rewrite He; apply elem_of_map_slots; by exists k, v).
      apply Hnone in Hin. by rewrite key_make, Z.eqb_refl in Hin.
Qed.

Lemma keyed_move_all old T : keyed_move old T = insert_all vacant keyed_occupied slot_hash T (entries keyed_occupied old).
Proof.
  revert T. induction old as [|s old IH]; intros T; [done|]. cbn [keyed_move]. unfold entries. rewrite filter_cons.
  unfold keyed_occupied at 3. destruct (Z.eqb_spec (key s) 0) as [E|E]; cbn [negb].
  - rewrite decide_False by (unfold keyed_occupied; by rewrite E). apply IH.
  - rewrite decide_True by (unfold keyed_occupied; by rewrite (proj2 (Z.eqb_neq _ 0))). cbn [insert_all].
    rewrite (insert_hashed_slot vacant keyed_occupied slot_hash) by done. destruct (insert_slot _ _ _ _ _); [apply IH|done].
Qed.

Lemma slots_occupied m : m !! 0 = None -> Forall (fun s => keyed_occupied s = true) (slots_of_map m).
Proof.
  intros H0. apply Forall_forall. intros s (k & v & Hv & ->)%elem_of_map_slots. apply make_occupied. intros ->. by rewrite H0 in Hv.
Qed.

(** Making room for one more key. *)
Lemma keyed_capacity_spec m count T allocated :
  keyed_ok m count T -> Z.of_nat (size m) < 2 ^ 61 ->
  exists st T', keyed_capacity count 1 allocated T = Some (st, T') /\
    (st = io_error /\ T' = T /\ allocated = false \/
     st = success /\ keyed_ok m count T' /\ (2 * Datatypes.S (size m) <= length T')%nat).
Proof.
  intros Hk Hsmall. pose proof Hk as [-> H0 Ht]. unfold keyed_capacity, ensure_capacity.
  rewrite (proj2 (Z.ltb_ge _ _)) by (unfold size_max; lia).
  destruct (_ && _) eqn:Eg.
  { exists success, T. split; [done|]. right. unbool. do 2 (split; [done|]).
    pose proof (Z.mul_div_le (Z.of_nat (length T)) 2). lia. }
  destruct (next_capacity_spec (Z.of_nat (size m) + 1)) as (c & -> & Hcap); [lia|].
  rewrite (proj2 (Z.eqb_neq _ 0)), (proj2 (Z.ltb_ge _ _)) in Hcap by lia.
  destruct Hcap as (j & Hj & -> & Hle). pose proof (Z.pow_pos_nonneg 2 j).
  rewrite (proj2 (Z.eqb_neq _ 0)) by lia.
  destruct allocated; cbn [negb]; [|exists io_error, T; split; [done|by left]].
  rewrite keyed_move_all.
  destruct (vacant_table vacant keyed_occupied slot_hash vacant_not_occupied j) as [Hok He]; [lia|].
  assert (entries keyed_occupied T ≡ₚ slots_of_map m) as Hslots.
  { destruct Ht as [[-> ->]|(_ & _ & _ & Ht)]; [done|done]. }
  assert (8 <= 2 ^ j) as H8 by (apply (Z.pow_le_mono_r 2 3 j); lia).
  destruct (insert_all_spec vacant keyed_occupied slot_hash (replicate (Z.to_nat (2 ^ j)) vacant) (entries keyed_occupied T) Hok)
    as (T' & -> & Hok' & Hl' & He').
  { rewrite Hslots. by apply slots_occupied. }
  { rewrite He, Hslots, length_slots, length_replicate. cbn. lia. }
  rewrite He, app_nil_r, Hslots in He'. rewrite length_replicate in Hl'.
  exists success, T'. split; [done|]. right. split; [done|]. split; [|lia]. split; [done|done|]. right.
  split; [done|]. split; [lia|]. split; [lia|done].
Qed.

(** A new key. *)
Lemma keyed_insert_spec m count T k v :
  keyed_ok m count T -> (2 * Datatypes.S (size m) <= length T)%nat -> m !! k = None -> k <> 0 ->
  exists T', keyed_insert T k v = Some T' /\ keyed_ok (<[k := v]> m) (count + 1) T'.
Proof.
  intros [-> H0 Ht] Hload Hk Hk0.
  destruct Ht as [[-> ->]|(Hok & _ & Hmin & He)]; [cbn in Hload; lia|]. unfold keyed_insert.
  rewrite (insert_hashed_slot vacant keyed_occupied slot_hash) by (unfold slot_hash; by rewrite key_make).
  destruct (insert_slot_spec vacant keyed_occupied slot_hash T (make k v)) as (T' & -> & Hok' & Hl' & He').
  - done.
  - apply entries_room. rewrite He, length_slots. lia.
  - by apply make_occupied.
  - exists T'. split; [done|]. assert (size (<[k := v]> m) = Datatypes.S (size m)) as Hsize by by apply map_size_insert_None. split.
    + rewrite Hsize. lia.
    + by rewrite lookup_insert_ne.
    + right. split; [done|]. split; [rewrite Hsize; lia|]. split; [lia|]. rewrite He', He. unfold slots_of_map.
      by rewrite map_to_list_insert.
Qed.
End Keyed.

(** ** [graph_delta::sparse_index] *)

Record sparse_index_slot := SparseSlot { sparse_key : Z; sparse_value : Z }.
Record sparse_index := SparseIndex { sparse_slots : list sparse_index_slot; sparse_count : Z }.

Definition no_index : sparse_index := SparseIndex [] 0.
Definition vacant_sparse : sparse_index_slot := SparseSlot 0 0.

Definition mix32 (value : Z) : Z :=
  let value := Z.lxor value (Z.shiftr value 16) in
  let value := u32 (value * 0x7feb352d) in
  let value := Z.lxor value (Z.shiftr value 15) in
  let value := u32 (value * 0x846ca68b) in
  Z.lxor value (Z.shiftr value 16).

Definition sparse_empty (i : sparse_index) : bool := sparse_count i =? 0.

Definition sparse_find (i : sparse_index) (k : Z) : Z :=
  keyed_find vacant_sparse sparse_key sparse_value mix32 (sparse_slots i) k.

Definition sparse_capacity (additional : Z) (allocated : bool) (i : sparse_index) : option (server_status * sparse_index) :=
  '(status, slots) ← keyed_capacity vacant_sparse sparse_key mix32 (sparse_count i) additional allocated (sparse_slots i);
  Some (status, SparseIndex slots (sparse_count i)).

(** [insert]; [None] is a loop that does not end. *)
Definition sparse_insert (k v : Z) (allocated : bool) (i : sparse_index) : option (server_status * sparse_index) :=
  if (k =? 0) || (v =? 0) then Some (project_configuration_invalid, i)
  else
    let existing := sparse_find i k in
    if negb (existing =? 0)
    then Some (if existing =? v then success else project_configuration_invalid, i)
    else
      '(prepared, i) ← sparse_capacity 1 allocated i;
      if negb (succeeded prepared) then Some (prepared, i)
      else
        slots ← keyed_insert vacant_sparse sparse_key SparseSlot mix32 (sparse_slots i) k v;
        Some (success, SparseIndex slots (sparse_count i + 1)).

(** The map that an index stands for; no key has the value 0. *)
Definition sparse_ok (m : gmap Z Z) (i : sparse_index) : Prop :=
  keyed_ok vacant_sparse sparse_key SparseSlot mix32 m (sparse_count i) (sparse_slots i) /\ (forall k, m !! k <> Some 0).

Lemma sparse_ok_empty : sparse_ok ∅ no_index.
Proof. split; [apply keyed_empty|]. intros k. by rewrite lookup_empty. Qed.

Lemma sparse_find_spec m i k : sparse_ok m i -> sparse_find i k = default 0 (m !! k).
Proof.
  intros [Hok _]. destruct (decide (k = 0)) as [->|Hk].
  - unfold sparse_find, keyed_find. cbn. by rewrite (keyed_zero _ _ _ _ _ _ _ Hok).
  - by apply (keyed_find_spec vacant_sparse sparse_key sparse_value SparseSlot mix32 (fun _ _ => eq_refl) (fun _ _ => eq_refl) m (sparse_count i)).
Qed.

(** Inserting ends; it adds a key that is not there, and fails only where it must or where
    there is no memory. *)
Lemma sparse_insert_spec m i k v allocated :
  sparse_ok m i -> k <> 0 -> v <> 0 -> m !! k = None -> Z.of_nat (size m) < 2 ^ 61 ->
  exists st i', sparse_insert k v allocated i = Some (st, i') /\
    (st = io_error /\ i' = i /\ allocated = false \/ st = success /\ sparse_ok (<[k := v]> m) i').
Proof.
  intros Hok Hk Hv Hm Hsmall. unfold sparse_insert. rewrite (proj2 (Z.eqb_neq k 0)), (proj2 (Z.eqb_neq v 0)) by done.
  rewrite (sparse_find_spec m i k Hok), Hm. cbn [orb default negb Z.eqb]. destruct Hok as [Hok Hvalues].
  destruct (keyed_capacity_spec vacant_sparse sparse_key SparseSlot mix32 eq_refl (fun _ _ => eq_refl) m (sparse_count i) (sparse_slots i) allocated)
    as (st & T & Hcap & Hcases); [done|done|].
  unfold sparse_capacity. rewrite Hcap. cbn [mbind option_bind].
  destruct Hcases as [(-> & -> & ->)|(-> & Hok' & Hload)]; cbn [succeeded negb].
  { exists io_error, i. split; [by destruct i|by left]. }
  cbn [sparse_slots sparse_count].
  destruct (keyed_insert_spec vacant_sparse sparse_key SparseSlot mix32 (fun _ _ => eq_refl) m (sparse_count i) T k v)
    as (T' & -> & Hok''); [done..|]. cbn [mbind option_bind]. eexists _, _. split; [done|]. right. split; [done|]. split; [done|].
  intros k' [[-> ->]|[_ H]]%lookup_insert_Some; [done|]. by apply (Hvalues k').
Qed.
