(* ===== verification/GraphData.v ===== *)
(** The data of the semantic graph (project/graph/graph.hpp, type_ref.hpp,
    construction_value.hpp, member_index.hpp and the handles): packed type and
    endpoint references, the records of the dense arrays, the graph itself and its
    lookups.  A handle is its slot, 0 the invalid one.  Padding bytes that no
    operation reads are left out. *)

From S2P Require Import Prelude ServerStatus HashIndex StringTable Identity DenseIndex.

Local Open Scope Z_scope.

(** ** Type references (type_ref.hpp) *)

Inductive intrinsic_type :=
| ty_none | void_type | bool_type | char_type | signed_char | unsigned_char | wchar_type
| char8_type | char16_type | char32_type | signed_short | unsigned_short | signed_int
| unsigned_int | signed_long | unsigned_long | signed_long_long | unsigned_long_long
| float_type | double_type | long_double_type | nullptr_type.

#[export] Instance intrinsic_type_eq_dec : EqDecision intrinsic_type.
Proof. solve_decision. Defined.

(** The enumerators in the order of their values. *)
Definition intrinsic_types : list intrinsic_type :=
  [ty_none; void_type; bool_type; char_type; signed_char; unsigned_char; wchar_type;
   char8_type; char16_type; char32_type; signed_short; unsigned_short; signed_int;
   unsigned_int; signed_long; unsigned_long; signed_long_long; unsigned_long_long;
   float_type; double_type; long_double_type; nullptr_type].

Definition intrinsic_number (t : intrinsic_type) : Z :=
  match t with
  | ty_none => 0 | void_type => 1 | bool_type => 2 | char_type => 3 | signed_char => 4
  | unsigned_char => 5 | wchar_type => 6 | char8_type => 7 | char16_type => 8
  | char32_type => 9 | signed_short => 10 | unsigned_short => 11 | signed_int => 12
  | unsigned_int => 13 | signed_long => 14 | unsigned_long => 15 | signed_long_long => 16
  | unsigned_long_long => 17 | float_type => 18 | double_type => 19
  | long_double_type => 20 | nullptr_type => 21
  end.

(** [static_cast<intrinsic_type>]; a number without an enumerator reads as [ty_none],
    and every use compares the number with the last enumerator first. *)
Definition intrinsic_of_number (n : Z) : intrinsic_type :=
  default ty_none (intrinsic_types !! Z.to_nat n).

Inductive type_ref_kind := ref_invalid | ref_intrinsic | ref_named | ref_derived.

#[export] Instance type_ref_kind_eq_dec : EqDecision type_ref_kind.
Proof. solve_decision. Defined.

Definition ref_kind_number (k : type_ref_kind) : Z :=
  match k with ref_invalid => 0 | ref_intrinsic => 1 | ref_named => 2 | ref_derived => 3 end.

Definition ref_kind_of_number (n : Z) : type_ref_kind :=
  if n =? 0 then ref_invalid
  else if n =? 1 then ref_intrinsic
  else if n =? 2 then ref_named
  else ref_derived.

Inductive derived_type_kind :=
| const_qualified | volatile_qualified | pointer | lvalue_reference | rvalue_reference
| bounded_array | unbounded_array.

#[export] Instance derived_type_kind_eq_dec : EqDecision derived_type_kind.
Proof. solve_decision. Defined.

Definition derived_kind_number (k : derived_type_kind) : Z :=
  match k with
  | const_qualified => 0 | volatile_qualified => 1 | pointer => 2 | lvalue_reference => 3
  | rvalue_reference => 4 | bounded_array => 5 | unbounded_array => 6
  end.

Abbreviation type_ref := Z (only parsing).

Definition maximum_payload : Z := 0x3fffffff.
Definition ref_kind (r : type_ref) : type_ref_kind := ref_kind_of_number (Z.shiftr r 30).
Definition payload (r : type_ref) : Z := Z.land r maximum_payload.
Definition ref_valid (r : type_ref) : bool :=
  negb (bool_decide (ref_kind r = ref_invalid)) && negb (payload r =? 0).

Definition make_ref (k : type_ref_kind) (p : Z) : type_ref :=
  if negb (bool_decide (k = ref_invalid)) && negb (p =? 0) && (p <=? maximum_payload)
  then Z.lor (u32 (Z.shiftl (ref_kind_number k) 30)) p
  else 0.

Record derived_type_record := DerivedTypeRecord {
  derived_payload : Z;
  child : type_ref;
  derived_kind : derived_type_kind
}.

#[export] Instance derived_type_record_eq_dec : EqDecision derived_type_record.
Proof. solve_decision. Defined.

(** ** Construction values (construction_value.hpp) *)

Inductive construction_kind :=
| zero | signed_integer | unsigned_integer | real | member_binding | object_binding
| construction_unsupported.

#[export] Instance construction_kind_eq_dec : EqDecision construction_kind.
Proof. solve_decision. Defined.

Record construction_value := ConstructionValue {
  low : Z;
  high : Z;
  operand : Z;
  value_kind : construction_kind
}.

#[export] Instance construction_value_eq_dec : EqDecision construction_value.
Proof. solve_decision. Defined.

Definition no_construction : construction_value := ConstructionValue 0 0 0 zero.

Definition bits (v : construction_value) : Z := Z.lor (low v) (u64 (Z.shiftl (high v) 32)).

Definition valid_construction (v : construction_value) : bool :=
  match value_kind v with
  | zero | construction_unsupported => (bits v =? 0) && (operand v =? 0)
  | member_binding | object_binding => (bits v =? 0) && negb (operand v =? 0)
  | signed_integer | unsigned_integer | real => operand v =? 0
  end.

(** ** Handles and endpoints (graph.hpp) *)

Abbreviation type_handle := Z (only parsing).
Abbreviation object_handle := Z (only parsing).
Abbreviation link_handle := Z (only parsing).
Abbreviation endpoint_path_handle := Z (only parsing).
Abbreviation member_index := Z (only parsing).
Abbreviation endpoint_ref := Z (only parsing).

(** [maximum_slot] of every handle. *)
Definition maximum_handle : Z := 0x3fffffff.
Definition path_valid (p : endpoint_path_handle) : bool := negb (p =? 0) && (p <=? maximum_handle).

Definition no_member : member_index := u32_max.
Definition member_valid (m : member_index) : bool := negb (m =? no_member).

Definition endpoint_payload_mask : Z := 0x3fffffff.
Definition endpoint_kind_mask : Z := 0xc0000000.
Definition path_tag : Z := 0x40000000.
Definition invalid_endpoint : endpoint_ref := 0xffffffff.

Definition member_endpoint (m : member_index) : endpoint_ref :=
  if member_valid m && (m <=? endpoint_payload_mask) then m else invalid_endpoint.

Definition from_path (p : endpoint_path_handle) : endpoint_ref :=
  if path_valid p then Z.lor path_tag p else invalid_endpoint.

Definition is_member (e : endpoint_ref) : bool := Z.land e endpoint_kind_mask =? 0.
Definition is_path (e : endpoint_ref) : bool :=
  (Z.land e endpoint_kind_mask =? path_tag) && negb (Z.land e endpoint_payload_mask =? 0).
Definition endpoint_valid (e : endpoint_ref) : bool := is_member e || is_path e.
Definition direct_member (e : endpoint_ref) : member_index := if is_member e then e else no_member.
Definition path (e : endpoint_ref) : endpoint_path_handle :=
  if is_path e then Z.land e endpoint_payload_mask else 0.

Inductive endpoint_path_step_kind := step_member | step_array_index.

#[export] Instance endpoint_path_step_kind_eq_dec : EqDecision endpoint_path_step_kind.
Proof. solve_decision. Defined.

Definition step_kind_number (k : endpoint_path_step_kind) : Z :=
  match k with step_member => 1 | step_array_index => 2 end.

Record endpoint_path_step := EndpointPathStep {
  step_value : Z;
  step_kind : endpoint_path_step_kind;
  step_reserved : list byte
}.

#[export] Instance endpoint_path_step_eq_dec : EqDecision endpoint_path_step.
Proof. solve_decision. Defined.

Record graph_range := GraphRange { range_begin : Z; range_count : Z }.

#[export] Instance graph_range_eq_dec : EqDecision graph_range.
Proof. solve_decision. Defined.

Record endpoint_path_record := EndpointPathRecord {
  path_steps : graph_range;
  root_type : type_ref;
  value_type : type_ref
}.

(** ** Types, members, objects and links *)

Inductive graph_type_kind := kind_record.
Inductive graph_record_kind := struct_type | class_type | union_type.
Inductive graph_member_access := public_access | protected_access | private_access.

#[export] Instance graph_record_kind_eq_dec : EqDecision graph_record_kind.
Proof. solve_decision. Defined.
#[export] Instance graph_member_access_eq_dec : EqDecision graph_member_access.
Proof. solve_decision. Defined.

Definition graph_base_flag_mask : Z := 0x01.

Record base_record := BaseRecord {
  base_type : type_handle;
  base_access : graph_member_access;
  base_flags : Z;
  base_reserved : Z
}.

Definition graph_type_defined : Z := 0x0001.
Definition graph_type_polymorphic : Z := 0x0002.

Record type_entry := TypeEntry {
  entry_members : graph_range;
  entry_bases : graph_range;
  entry_kind : graph_type_kind;
  record_kind : graph_record_kind;
  entry_flags : Z
}.

Definition defined (e : type_entry) : bool := negb (Z.land (entry_flags e) graph_type_defined =? 0).
Definition entry_polymorphic (e : type_entry) : bool :=
  negb (Z.land (entry_flags e) graph_type_polymorphic =? 0).

Record member_record := MemberRecord {
  member_name : string_id;
  member_type : type_ref;
  member_access : graph_member_access
}.

#[export] Instance member_record_eq_dec : EqDecision member_record.
Proof. solve_decision. Defined.

Definition graph_object_construction_slot_mask : Z := 0x3fffffff.
Definition graph_object_non_default_initializer : Z := 0x40000000.
Definition graph_object_internal_static : Z := 0x80000000.
Definition graph_object_flag_mask : Z :=
  Z.lor graph_object_non_default_initializer graph_object_internal_static.

Record object_entry := ObjectEntry { object_type : type_ref; state : Z }.

Definition non_default_initializer (o : object_entry) : bool :=
  negb (Z.land (state o) graph_object_non_default_initializer =? 0).
Definition internal_static (o : object_entry) : bool :=
  negb (Z.land (state o) graph_object_internal_static =? 0).
Definition construction_slot (o : object_entry) : Z :=
  Z.land (state o) graph_object_construction_slot_mask.

Record object_endpoint := ObjectEndpoint { endpoint_object : object_handle; endpoint_member : endpoint_ref }.

#[export] Instance object_endpoint_eq_dec : EqDecision object_endpoint.
Proof. solve_decision. Defined.

Record link_record := LinkRecord { link_source : object_endpoint; link_target : object_endpoint }.

(** ** The graph *)

Record derived_index_slot := DerivedSlot { derived_fingerprint : Z; slot_type : type_ref }.
Record endpoint_path_index_slot := PathSlot { path_fingerprint : Z; slot_path : endpoint_path_handle }.
Record link_target_index_slot := LinkSlot { link_key : Z; slot_link : link_handle }.

Record graph := Graph {
  identity_locations : list Z;
  types : list type_entry;
  type_identities : list identity_ref;
  base_records : list base_record;
  member_records : list member_record;
  member_construction : list construction_value;
  objects : list object_entry;
  object_identities : list identity_ref;
  object_construction : list construction_value;
  endpoint_paths : list endpoint_path_record;
  endpoint_path_step_values : list endpoint_path_step;
  endpoint_path_index : list endpoint_path_index_slot;
  links : list link_record;
  link_target_index : list link_target_index_slot;
  link_target_index_count : Z;
  derived_types : list derived_type_record;
  derived_index : list derived_index_slot
}.

Definition new_graph : graph := Graph [] [] [] [] [] [] [] [] [] [] [] [] [] [] 0 [] [].

(** The vectors of one operation, replaced together. *)
Definition with_types locations ts identities (g : graph) : graph :=
  Graph locations ts identities (base_records g) (member_records g) (member_construction g)
    (objects g) (object_identities g) (object_construction g) (endpoint_paths g)
    (endpoint_path_step_values g) (endpoint_path_index g) (links g) (link_target_index g)
    (link_target_index_count g) (derived_types g) (derived_index g).

Definition with_definitions ts bases members values (g : graph) : graph :=
  Graph (identity_locations g) ts (type_identities g) bases members values
    (objects g) (object_identities g) (object_construction g) (endpoint_paths g)
    (endpoint_path_step_values g) (endpoint_path_index g) (links g) (link_target_index g)
    (link_target_index_count g) (derived_types g) (derived_index g).

Definition with_objects locations os identities values (g : graph) : graph :=
  Graph locations (types g) (type_identities g) (base_records g) (member_records g)
    (member_construction g) os identities values (endpoint_paths g)
    (endpoint_path_step_values g) (endpoint_path_index g) (links g) (link_target_index g)
    (link_target_index_count g) (derived_types g) (derived_index g).

Definition with_paths paths steps index (g : graph) : graph :=
  Graph (identity_locations g) (types g) (type_identities g) (base_records g)
    (member_records g) (member_construction g) (objects g) (object_identities g)
    (object_construction g) paths steps index (links g) (link_target_index g)
    (link_target_index_count g) (derived_types g) (derived_index g).

Definition with_links ls index count (g : graph) : graph :=
  Graph (identity_locations g) (types g) (type_identities g) (base_records g)
    (member_records g) (member_construction g) (objects g) (object_identities g)
    (object_construction g) (endpoint_paths g) (endpoint_path_step_values g)
    (endpoint_path_index g) ls index count (derived_types g) (derived_index g).

Definition with_derived ts index (g : graph) : graph :=
  Graph (identity_locations g) (types g) (type_identities g) (base_records g)
    (member_records g) (member_construction g) (objects g) (object_identities g)
    (object_construction g) (endpoint_paths g) (endpoint_path_step_values g)
    (endpoint_path_index g) (links g) (link_target_index g) (link_target_index_count g)
    ts index.

(** ** Lookups (graph.cpp) *)

Definition count {A} (l : list A) : Z := Z.of_nat (length l).

(** The element of a one-based handle. *)
Definition at_handle {A} (l : list A) (h : Z) : option A := l !! Z.to_nat (h - 1).

(** [contains] of the four handle types. *)
Definition contains_type (g : graph) (t : type_handle) : bool := negb (t =? 0) && (t <=? count (types g)).
Definition contains_object (g : graph) (o : object_handle) : bool :=
  negb (o =? 0) && (o <=? count (objects g)).
Definition contains_link (g : graph) (l : link_handle) : bool := negb (l =? 0) && (l <=? count (links g)).

Definition contains_ref (g : graph) (r : type_ref) : bool :=
  if negb (ref_valid r) then false
  else match ref_kind r with
  | ref_intrinsic => payload r <=? intrinsic_number nullptr_type
  | ref_named => payload r <=? count (types g)
  | ref_derived => payload r <=? count (derived_types g)
  | ref_invalid => false
  end.

(** [find] of the three handle types; [None] is [nullptr]. *)
Definition find_entry (g : graph) (t : type_handle) : option type_entry :=
  if contains_type g t then at_handle (types g) t else None.
Definition find_object_entry (g : graph) (o : object_handle) : option object_entry :=
  if contains_object g o then at_handle (objects g) o else None.
Definition find_link (g : graph) (l : link_handle) : option link_record :=
  if contains_link g l then at_handle (links g) l else None.

Inductive location_kind := location_none | location_type | location_object.

#[export] Instance location_kind_eq_dec : EqDecision location_kind.
Proof. solve_decision. Defined.

Definition location_number (k : location_kind) : Z :=
  match k with location_none => 0 | location_type => 1 | location_object => 2 end.

Definition encode_location (k : location_kind) (slot : Z) : Z :=
  if bool_decide (k = location_none) || (slot =? 0) || (maximum_payload <? slot) then 0
  else Z.lor (u32 (Z.shiftl (location_number k) 30)) slot.

(** The kind bits compared with an enumerator. *)
Definition location_is (k : location_kind) (value : Z) : bool :=
  Z.shiftr value 30 =? location_number k.
Definition decode_location_slot (value : Z) : Z := Z.land value maximum_payload.

Definition find_type (g : graph) (i : identity_ref) : type_handle :=
  if negb (valid i) then 0
  else match identity_locations g !! Z.to_nat (slot i) with
  | None => 0
  | Some location =>
      if negb (location_is location_type location) then 0
      else let t := decode_location_slot location in if contains_type g t then t else 0
  end.

Definition find_object (g : graph) (i : identity_ref) : object_handle :=
  if negb (valid i) then 0
  else match identity_locations g !! Z.to_nat (slot i) with
  | None => 0
  | Some location =>
      if negb (location_is location_object location) then 0
      else let o := decode_location_slot location in if contains_object g o then o else 0
  end.

(** [identity] of a type and of an object. *)
Definition type_identity (g : graph) (t : type_handle) : identity_ref :=
  if contains_type g t then default 0 (at_handle (type_identities g) t) else 0.
Definition object_identity (g : graph) (o : object_handle) : identity_ref :=
  if contains_object g o then default 0 (at_handle (object_identities g) o) else 0.

(** [intrinsic], [named] and [derived] of a reference; [None] is [false]. *)
Definition as_intrinsic (g : graph) (r : type_ref) : option intrinsic_type :=
  if negb (contains_ref g r) || negb (bool_decide (ref_kind r = ref_intrinsic)) then None
  else
    let t := intrinsic_of_number (payload r) in
    if 0 <? intrinsic_number t then Some t else None.

Definition as_named (g : graph) (r : type_ref) : option type_handle :=
  if negb (contains_ref g r) || negb (bool_decide (ref_kind r = ref_named)) then None
  else if contains_type g (payload r) then Some (payload r) else None.

Definition derived (g : graph) (r : type_ref) : option derived_type_record :=
  if negb (contains_ref g r) || negb (bool_decide (ref_kind r = ref_derived)) then None
  else at_handle (derived_types g) (payload r).

(** The records of a range, if it is in bounds. *)
Definition range_of {A} (l : list A) (r : graph_range) : list A :=
  if (count l <? range_begin r) || (count l - range_begin r <? range_count r) then []
  else slice (Z.to_nat (range_begin r)) (Z.to_nat (range_begin r + range_count r)) l.

Definition bases (g : graph) (t : type_handle) : list base_record :=
  match find_entry g t with
  | Some e =>
      if negb (defined e) || (range_count (entry_bases e) =? 0) then []
      else range_of (base_records g) (entry_bases e)
  | None => []
  end.

Definition polymorphic (g : graph) (t : type_handle) : bool :=
  match find_entry g t with Some e => defined e && entry_polymorphic e | None => false end.

Definition members (g : graph) (t : type_handle) : list member_record :=
  match find_entry g t with
  | Some e =>
      if negb (defined e) || (range_count (entry_members e) =? 0) then []
      else range_of (member_records g) (entry_members e)
  | None => []
  end.

(** The loop of [find_member] from index [i] on. *)
Fixpoint member_named (name : string_id) (i : Z) (ms : list member_record) : member_index :=
  match ms with
  | [] => no_member
  | m :: ms => if member_name m =? name then u32 i else member_named name (i + 1) ms
  end.

Definition find_member (g : graph) (t : type_handle) (name : string_id) : member_index :=
  if name =? 0 then no_member else member_named name 0 (members g t).

Definition member (g : graph) (t : type_handle) (m : member_index) : option member_record :=
  if negb (member_valid m) then None else members g t !! Z.to_nat m.

(** [construction] of a member and of an object. *)
Definition construction_of_member (g : graph) (t : type_handle) (m : member_index)
  : option construction_value :=
  match find_entry g t with
  | Some e =>
      if negb (defined e) || negb (member_valid m) || (range_count (entry_members e) <=? m) then None
      else member_construction g !! Z.to_nat (range_begin (entry_members e) + m)
  | None => None
  end.

Definition construction_of_object (g : graph) (o : object_handle) : option construction_value :=
  match find_object_entry g o with
  | Some e =>
      if negb (non_default_initializer e)
      then if construction_slot e =? 0 then Some no_construction else None
      else if construction_slot e =? 0 then None
      else at_handle (object_construction g) (construction_slot e)
  | None => None
  end.

(** [endpoint_path] and [endpoint_path_steps]. *)
Definition endpoint_path (g : graph) (p : endpoint_path_handle) : option endpoint_path_record :=
  if negb (path_valid p) || (count (endpoint_paths g) <? p) then None
  else match at_handle (endpoint_paths g) p with
  | Some r =>
      if (range_begin (path_steps r) <=? count (endpoint_path_step_values g)) &&
         (range_count (path_steps r) <=?
            count (endpoint_path_step_values g) - range_begin (path_steps r))
      then Some r else None
  | None => None
  end.

Definition endpoint_path_steps (g : graph) (p : endpoint_path_handle) : list endpoint_path_step :=
  match endpoint_path g p with
  | Some r => range_of (endpoint_path_step_values g) (path_steps r)
  | None => []
  end.
