(* ===== verification/GraphGrowth.v ===== *)
(** How a semantic graph may grow: the arrays are extended at their ends, a type entry
    changes only until its record is defined, an identity keeps its location.  Every
    lookup that answered keeps its answer, which is what makes handles and references
    stable. *)

From S2P Require Import Prelude Identity GraphData.

Local Open Scope Z_scope.

(** ** Packed references *)

Lemma make_ref_value k p :
  k <> ref_invalid -> 1 <= p <= maximum_payload -> make_ref k p = ref_kind_number k * 2 ^ 30 + p.
Proof.
  intros Hk Hp. unfold make_ref. change maximum_payload with (2 ^ 30 - 1) in *.
  rewrite bool_decide_eq_false_2, (proj2 (Z.eqb_neq p 0)), (proj2 (Z.leb_le _ _)) by (done || lia).
  cbn [negb andb]. rewrite Z.shiftl_mul_pow2 by lia.
  assert (u32 (ref_kind_number k * 2 ^ 30) = ref_kind_number k * 2 ^ 30) as -> by by destruct k.
  apply lor_disjoint; lia.
Qed.

Lemma payload_range r : 0 <= payload r <= maximum_payload.
Proof.
  unfold payload. change maximum_payload with (2 ^ 30 - 1). pose proof (land_bound_r r 30). lia.
Qed.

Lemma make_ref_parts k p :
  k <> ref_invalid -> 1 <= p <= maximum_payload ->
  ref_kind (make_ref k p) = k /\ payload (make_ref k p) = p /\ ref_valid (make_ref k p) = true /\
  0 <= make_ref k p < 2 ^ 32.
Proof.
  intros Hk Hp. assert (payload (make_ref k p) = p) as Hpay.
  { rewrite make_ref_value by done. unfold payload. change maximum_payload with (2 ^ 30 - 1) in *.
    rewrite land_ones_mod, Z.add_comm, Z_mod_plus_full by lia. apply Z.mod_small. lia. }
  assert (ref_kind (make_ref k p) = k) as Hkind.
  { rewrite make_ref_value by done. unfold ref_kind. change maximum_payload with (2 ^ 30 - 1) in *.
    rewrite Z.shiftr_div_pow2 by lia.
    assert ((ref_kind_number k * 2 ^ 30 + p) / 2 ^ 30 = ref_kind_number k) as -> by divlia.
    by destruct k. }
  split; [done|]. split; [done|]. split.
  - unfold ref_valid. rewrite Hkind, Hpay, bool_decide_eq_false_2 by done.
    by rewrite (proj2 (Z.eqb_neq p 0)) by lia.
  - rewrite make_ref_value by done. change maximum_payload with (2 ^ 30 - 1) in *.
    assert (0 <= ref_kind_number k <= 3) by (destruct k; simpl; lia). lia.
Qed.

(** A valid reference is its kind and its payload. *)
Lemma make_ref_of r : 0 <= r < 2 ^ 32 -> ref_valid r = true -> make_ref (ref_kind r) (payload r) = r.
Proof.
  intros Hr Hv. unfold ref_valid in Hv. unbool. pose proof (payload_range r).
  rewrite make_ref_value by (done || lia). unfold payload, ref_kind in *.
  change maximum_payload with (2 ^ 30 - 1) in *. rewrite land_ones_mod, Z.shiftr_div_pow2 by lia.
  assert (0 <= r / 2 ^ 30 <= 3) as Hk by divlia.
  assert (ref_kind_number (ref_kind_of_number (r / 2 ^ 30)) = r / 2 ^ 30) as ->.
  { assert (r / 2 ^ 30 = 0 \/ r / 2 ^ 30 = 1 \/ r / 2 ^ 30 = 2 \/ r / 2 ^ 30 = 3)
      as [-> | [-> | [-> | ->]]] by lia; done. }
  divlia.
Qed.

Lemma contains_valid g r : contains_ref g r = true -> ref_valid r = true.
Proof. unfold contains_ref. by destruct (ref_valid r). Qed.

(** The cases of a contained reference. *)
Lemma contains_cases g r :
  contains_ref g r = true ->
  1 <= payload r /\
  (ref_kind r = ref_intrinsic /\ payload r <= 21 \/
   ref_kind r = ref_named /\ payload r <= count (types g) \/
   ref_kind r = ref_derived /\ payload r <= count (derived_types g)).
Proof.
  intros Hc. pose proof (contains_valid _ _ Hc) as Hv. unfold ref_valid in Hv. unbool.
  pose proof (payload_range r). unfold contains_ref in Hc. destruct (negb _); [done|].
  split; [lia|]. destruct (ref_kind r); unbool; simpl in Hc; [done|left|right; left|right; right]; (split; [done|lia]).
Qed.

(** ** Handles *)

Lemma at_handle_lookup {A} (l : list A) h :
  1 <= h <= count l -> exists x, at_handle l h = Some x.
Proof.
  intros Hh. unfold at_handle, count in *. apply lookup_lt_is_Some_2. lia.
Qed.

Lemma at_handle_last {A} (l : list A) x : at_handle (l ++ [x]) (count l + 1) = Some x.
Proof.
  unfold at_handle, count. replace (Z.to_nat (Z.of_nat (length l) + 1 - 1)) with (length l) by lia.
  by rewrite lookup_app_r, Nat.sub_diag.
Qed.

Lemma at_handle_prefix {A} (l l' : list A) h x :
  l `prefix_of` l' -> at_handle l h = Some x -> at_handle l' h = Some x.
Proof. intros [k ->] Hx. by apply lookup_app_l_Some. Qed.

Lemma count_prefix {A} (l l' : list A) : l `prefix_of` l' -> count l <= count l'.
Proof. intros Hl%prefix_length. unfold count. lia. Qed.

Lemma count_at_least {A} (l : list A) : 0 <= count l.
Proof. unfold count. lia. Qed.

Lemma count_app {A} (l k : list A) : count (l ++ k) = count l + count k.
Proof. unfold count. rewrite length_app. lia. Qed.

(** ** Growth *)

Record grows (g g' : graph) : Prop := Grows {
  grows_derived : derived_types g `prefix_of` derived_types g';
  grows_types : forall i e, types g !! i = Some e ->
    exists e', types g' !! i = Some e' /\ (defined e = true -> e' = e);
  grows_type_identities : type_identities g `prefix_of` type_identities g';
  grows_base_records : base_records g `prefix_of` base_records g';
  grows_member_records : member_records g `prefix_of` member_records g';
  grows_member_construction : member_construction g `prefix_of` member_construction g';
  grows_objects : objects g `prefix_of` objects g';
  grows_object_identities : object_identities g `prefix_of` object_identities g';
  grows_object_construction : object_construction g `prefix_of` object_construction g';
  grows_paths : endpoint_paths g `prefix_of` endpoint_paths g';
  grows_steps : endpoint_path_step_values g `prefix_of` endpoint_path_step_values g';
  grows_links : links g `prefix_of` links g';
  grows_locations : forall i l, identity_locations g !! i = Some l -> l <> 0 ->
    identity_locations g' !! i = Some l
}.

#[export] Instance grows_preorder : PreOrder grows.
Proof.
  split.
  - intros g. split; eauto.
  - intros g1 g2 g3 H12 H23. destruct H12, H23. split; try by etrans.
    + intros i e He. destruct (grows_types0 i e He) as (e' & He' & Hd).
      destruct (grows_types1 i e' He') as (e'' & He'' & Hd'). exists e''. split; [done|].
      intros Hdef. specialize (Hd Hdef). subst e'. by apply Hd'.
    + eauto.
Qed.

Section Growth.
Context (g g' : graph) (Hg : grows g g').

Lemma grows_type_count : count (types g) <= count (types g').
Proof.
  unfold count. destruct (decide (length (types g) = 0)%nat); [lia|].
  destruct (lookup_lt_is_Some_2 (types g) (pred (length (types g)))) as [e He]; [lia|].
  destruct (grows_types _ _ Hg _ _ He) as (e' & He' & _). apply lookup_lt_Some in He'. lia.
Qed.

Lemma contains_type_grows t : contains_type g t = true -> contains_type g' t = true.
Proof.
  unfold contains_type. intros. unbool. pose proof grows_type_count.
  rewrite (proj2 (Z.eqb_neq _ _)), (proj2 (Z.leb_le _ _)) by lia. done.
Qed.

Lemma contains_object_grows o : contains_object g o = true -> contains_object g' o = true.
Proof.
  unfold contains_object. intros. unbool. pose proof (count_prefix _ _ (grows_objects _ _ Hg)).
  rewrite (proj2 (Z.eqb_neq _ _)), (proj2 (Z.leb_le _ _)) by lia. done.
Qed.

Lemma contains_ref_grows r : contains_ref g r = true -> contains_ref g' r = true.
Proof.
  unfold contains_ref. destruct (negb _); [done|]. pose proof grows_type_count.
  pose proof (count_prefix _ _ (grows_derived _ _ Hg)).
  destruct (ref_kind r); intros; unbool; try apply Z.leb_le; done || lia.
Qed.

Lemma derived_grows r d : derived g r = Some d -> derived g' r = Some d.
Proof.
  unfold derived. destruct (contains_ref g r) eqn:Hc; [|done].
  rewrite (contains_ref_grows r Hc). destruct (negb (bool_decide _)); [done|].
  apply at_handle_prefix, Hg.
Qed.

(** A contained reference has the same shape in both graphs. *)
Lemma derived_same r : contains_ref g r = true -> derived g' r = derived g r.
Proof.
  intros Hc. destruct (derived g r) as [d|] eqn:Hd; [by apply derived_grows|].
  unfold derived in *. rewrite Hc in Hd. rewrite (contains_ref_grows r Hc).
  destruct (bool_decide (ref_kind r = ref_derived)) eqn:Hk; [|done]. unbool. cbn [negb orb] in *.
  destruct (contains_cases g r Hc) as (Hp & [[? _]|[[? _]|[_ Hle]]]); try congruence.
  destruct (at_handle_lookup (derived_types g) (payload r)) as [d E]; [lia|congruence].
Qed.

Lemma as_named_grows r t : as_named g r = Some t -> as_named g' r = Some t.
Proof.
  unfold as_named. destruct (contains_ref g r) eqn:Hc; [|done].
  rewrite (contains_ref_grows r Hc). destruct (negb (bool_decide _)); [done|]. cbn [negb orb].
  destruct (contains_type g (payload r)) eqn:Ht; [|done]. by rewrite (contains_type_grows _ Ht).
Qed.

Lemma as_intrinsic_grows r t : as_intrinsic g r = Some t -> as_intrinsic g' r = Some t.
Proof.
  unfold as_intrinsic. destruct (contains_ref g r) eqn:Hc; [|done].
  by rewrite (contains_ref_grows r Hc).
Qed.

Lemma find_entry_grows t e :
  find_entry g t = Some e -> exists e', find_entry g' t = Some e' /\ (defined e = true -> e' = e).
Proof.
  unfold find_entry. destruct (contains_type g t) eqn:Hc; [|done].
  rewrite (contains_type_grows _ Hc). apply Hg.
Qed.

Lemma find_defined_grows t e :
  find_entry g t = Some e -> defined e = true -> find_entry g' t = Some e.
Proof. intros He Hd. destruct (find_entry_grows t e He) as (e' & ? & Heq). by rewrite <- (Heq Hd). Qed.

Lemma find_object_entry_grows o e : find_object_entry g o = Some e -> find_object_entry g' o = Some e.
Proof.
  unfold find_object_entry. destruct (contains_object g o) eqn:Hc; [|done].
  rewrite (contains_object_grows _ Hc). apply at_handle_prefix, Hg.
Qed.

Lemma endpoint_path_grows p r : endpoint_path g p = Some r -> endpoint_path g' p = Some r.
Proof.
  unfold endpoint_path. destruct (path_valid p); [|done]. cbn [negb orb].
  pose proof (count_prefix _ _ (grows_paths _ _ Hg)) as Hp.
  pose proof (count_prefix _ _ (grows_steps _ _ Hg)) as Hs.
  destruct (Z.ltb_spec (count (endpoint_paths g)) p); [done|].
  rewrite (proj2 (Z.ltb_ge _ _)) by lia.
  destruct (at_handle (endpoint_paths g) p) as [r0|] eqn:Hr; [|done].
  rewrite (at_handle_prefix _ _ _ _ (grows_paths _ _ Hg) Hr).
  destruct (_ && _) eqn:Hb; [|done]. unbool.
  rewrite !(proj2 (Z.leb_le _ _)) by lia. done.
Qed.
End Growth.

(** A range stays the same records. *)
Lemma slice_prefix {A} (l l' : list A) a b :
  l `prefix_of` l' -> (b <= length l)%nat -> slice a b l' = slice a b l.
Proof.
  intros [k ->] Hb. unfold slice. destruct (decide (a <= length l)%nat).
  - rewrite drop_app_le by done. rewrite take_app_le; [done|]. rewrite length_drop. lia.
  - replace (b - a)%nat with 0%nat by lia. by rewrite !take_0.
Qed.

Lemma range_of_prefix {A} (l l' : list A) r :
  l `prefix_of` l' -> 0 <= range_begin r -> 0 <= range_count r ->
  range_begin r + range_count r <= count l -> range_of l' r = range_of l r.
Proof.
  intros Hl Hb Hc Hle. pose proof (count_prefix _ _ Hl). unfold range_of.
  rewrite !(proj2 (Z.ltb_ge _ _)) by lia. cbn [orb].
  apply slice_prefix; [done|]. unfold count in *. lia.
Qed.

Lemma length_range_of {A} (l : list A) r :
  0 <= range_begin r -> 0 <= range_count r -> range_begin r + range_count r <= count l ->
  count (range_of l r) = range_count r.
Proof.
  intros Hb Hc Hle. unfold range_of. rewrite !(proj2 (Z.ltb_ge _ _)) by lia. cbn [orb].
  unfold count in *. rewrite length_slice by lia. lia.
Qed.

(** The records appended at the end. *)
Lemma range_of_end {A} (l k : list A) :
  range_of (l ++ k) (GraphRange (count l) (count k)) = k.
Proof.
  unfold range_of. cbn [range_begin range_count]. rewrite count_app. pose proof (count_at_least k).
  rewrite !(proj2 (Z.ltb_ge _ _)) by (pose proof (count_at_least l); lia). cbn [orb]. unfold slice, count.
  replace (Z.to_nat (Z.of_nat (length l))) with (length l) by lia.
  rewrite drop_app_length. apply take_ge. lia.
Qed.
