(* ===== verification/GraphTypes.v ===== *)
(** The derived types of the semantic graph (project/graph/graph.cpp: [intrinsic],
    [named], [derive] and the derived index).  A type reference stands for a C++ type
    expression; the theorems say that every contained reference stands for one legal
    type, that two references to the same type are the same word, and what [derive]
    returns. *)

From S2P Require Import Prelude ServerStatus HashIndex DenseIndex Identity GraphData GraphGrowth.

Local Open Scope Z_scope.

(** ** Operations *)

Definition valid_intrinsic (t : intrinsic_type) : bool :=
  (intrinsic_number ty_none <? intrinsic_number t) &&
  (intrinsic_number t <=? intrinsic_number nullptr_type).

Definition intrinsic (t : intrinsic_type) : type_ref :=
  if valid_intrinsic t then make_ref ref_intrinsic (intrinsic_number t) else 0.

Definition named (g : graph) (t : type_handle) : type_ref :=
  if contains_type g t then make_ref ref_named t else 0.

Definition valid_derived_kind (k : derived_type_kind) : bool :=
  (derived_kind_number const_qualified <=? derived_kind_number k) &&
  (derived_kind_number k <=? derived_kind_number unbounded_array).

(** The lambda [mix] of the hash functions: eight rounds over the bytes of [value]. *)
Fixpoint mix_bytes (rounds : nat) (hash value : Z) : Z :=
  match rounds with
  | O => hash
  | S rounds =>
      mix_bytes rounds (u64 (Z.lxor hash (u8 (Z.land value 0xff)) * 1099511628211)) (Z.shiftr value 8)
  end.
Definition mix (hash value : Z) : Z := mix_bytes 8 hash value.

Definition hash_seed : Z := 1469598103934665603.

(** What identifies a derived type. *)
Abbreviation derived_key := (type_ref * derived_type_kind * Z)%type.

Definition hash_derived (key : derived_key) : Z :=
  let '(child, kind, payload) := key in
  let hash := mix (mix (mix hash_seed child) (derived_kind_number kind)) payload in
  if hash =? 0 then 1 else hash.

Definition fingerprint (hash : Z) : Z :=
  let folded := u32 (Z.lxor hash (Z.shiftr hash 32)) in if folded =? 0 then 1 else folded.

Definition vacant_derived : derived_index_slot := DerivedSlot 0 0.
Definition derived_occupied (s : derived_index_slot) : bool := ref_valid (slot_type s).

Definition key_of (d : derived_type_record) : derived_key := (child d, derived_kind d, derived_payload d).

Definition derived_matches (g : graph) (key : derived_key) (expected : Z) (s : derived_index_slot) : bool :=
  (derived_fingerprint s =? expected) && bool_decide (ref_kind (slot_type s) = ref_derived) &&
  (payload (slot_type s) <=? count (derived_types g)) &&
  match at_handle (derived_types g) (payload (slot_type s)) with
  | Some d => bool_decide (key_of d = key)
  | None => false
  end.

Definition find_derived (g : graph) (key : derived_key) (hash expected : Z) : type_ref :=
  match find_slot vacant_derived derived_occupied (derived_index g) hash
          (derived_matches g key expected) with
  | Some s => slot_type s
  | None => 0
  end.

(** The slot of the derived type at position [i]. *)
Definition derived_slot_of (i : nat) (key : derived_key) : derived_index_slot :=
  DerivedSlot (fingerprint (hash_derived key)) (make_ref ref_derived (u32 (Z.of_nat i + 1))).

Definition insert_derived_index (T : list derived_index_slot) (r : type_ref) (hash : Z)
  : option (list derived_index_slot) :=
  insert_hashed vacant_derived derived_occupied T hash (DerivedSlot (fingerprint hash) r).

Definition ensure_derived_index_capacity (additional : Z) (allocated : bool) (g : graph)
  : option (server_status * list derived_index_slot) :=
  ensure_capacity vacant_derived (count (derived_types g)) additional allocated
    (insert_keys vacant_derived derived_occupied hash_derived derived_slot_of 0
       (key_of <$> derived_types g))
    (derived_index g).

Definition is_reference (k : derived_type_kind) : bool :=
  bool_decide (k = lvalue_reference) || bool_decide (k = rvalue_reference).
Definition is_qualified (k : derived_type_kind) : bool :=
  bool_decide (k = const_qualified) || bool_decide (k = volatile_qualified).
Definition is_array (k : derived_type_kind) : bool :=
  bool_decide (k = bounded_array) || bool_decide (k = unbounded_array).

(** The loop of [derive] through the qualifiers of the child: whether it is a reference
    and whether it is [void].  [None] is a loop that does not end or an access out of
    bounds. *)
Fixpoint unqualified (fuel : nat) (g : graph) (r : type_ref) : option (bool * bool) :=
  match fuel with
  | O => None
  | S fuel =>
      match ref_kind r with
      | ref_intrinsic => Some (false, payload r =? intrinsic_number void_type)
      | ref_derived =>
          match at_handle (derived_types g) (payload r) with
          | None => None
          | Some d =>
              if is_qualified (derived_kind d) then unqualified fuel g (child d)
              else Some (is_reference (derived_kind d), false)
          end
      | _ => Some (false, false)
      end
  end.

(** Enough for every chain of qualifiers: each step goes to an older derived type. *)
Definition type_fuel (g : graph) : nat := S (length (derived_types g)).

(** The outcomes of the allocations of one call. *)
Record derive_allocation := DeriveAllocation { table_allocated : bool; record_allocated : bool }.

Definition derive (r : type_ref) (k : derived_type_kind) (n : Z) (a : derive_allocation) (g : graph)
  : option (server_status * type_ref * graph) :=
  let payload_valid := if bool_decide (k = bounded_array) then negb (n =? 0) else n =? 0 in
  if negb (contains_ref g r) || negb (valid_derived_kind k) || negb payload_valid
  then Some (project_configuration_invalid, 0, g)
  else
    match unqualified (type_fuel g) g r with
    | None => None
    | Some (child_reference, child_void) =>
        if child_reference && (bool_decide (k = pointer) || is_reference k || is_array k)
        then Some (project_configuration_invalid, 0, g)
        else if child_void && (is_reference k || is_array k)
        then Some (project_configuration_invalid, 0, g)
        else
          let key := (r, k, n) in
          let hash := hash_derived key in
          let existing := find_derived g key hash (fingerprint hash) in
          if ref_valid existing then Some (success, existing, g)
          else if maximum_payload <=? count (derived_types g) then Some (io_error, 0, g)
          else
            match ensure_derived_index_capacity 1 (table_allocated a) g with
            | None => None
            | Some (prepared, index) =>
                let g := with_derived (derived_types g) index g in
                if negb (succeeded prepared) then Some (prepared, 0, g)
                else if negb (record_allocated a) then Some (io_error, 0, g)
                else
                  let ts := derived_types g ++ [DerivedTypeRecord n r k] in
                  let output := make_ref ref_derived (u32 (count ts)) in
                  match insert_derived_index index output hash with
                  | None => None
                  | Some index => Some (success, output, with_derived ts index g)
                  end
            end
    end.

(** ** C++ type expressions *)

Inductive cpp_type :=
| T_intrinsic (t : intrinsic_type)
| T_record (t : type_handle)
| T_derived (k : derived_type_kind) (n : Z) (c : cpp_type).

Fixpoint without_qualifiers (c : cpp_type) : cpp_type :=
  match c with
  | T_derived k _ c' => if is_qualified k then without_qualifiers c' else c
  | _ => c
  end.

Definition reference_type (c : cpp_type) : bool :=
  match without_qualifiers c with T_derived k _ _ => is_reference k | _ => false end.

Definition is_void (c : cpp_type) : bool :=
  match without_qualifiers c with T_intrinsic void_type => true | _ => false end.

(** No pointer or reference to a reference, no array of references, no reference to
    [void], no array of [void]; only a bounded array has a bound, which is positive. *)
Fixpoint legal (c : cpp_type) : bool :=
  match c with
  | T_intrinsic t => valid_intrinsic t
  | T_record _ => true
  | T_derived k n c =>
      legal c && (if bool_decide (k = bounded_array) then negb (n =? 0) else n =? 0) &&
      negb (reference_type c && (bool_decide (k = pointer) || is_reference k || is_array k)) &&
      negb (is_void c && (is_reference k || is_array k))
  end.

(** The type expression of a reference. *)
Inductive denotes (g : graph) : type_ref -> cpp_type -> Prop :=
| denotes_intrinsic r t : as_intrinsic g r = Some t -> denotes g r (T_intrinsic t)
| denotes_named r t : as_named g r = Some t -> denotes g r (T_record t)
| denotes_derived r d c :
    derived g r = Some d -> denotes g (child d) c ->
    denotes g r (T_derived (derived_kind d) (derived_payload d) c).

(** ** The invariant of the derived types *)

Definition derived_limit : nat := Z.to_nat maximum_payload.
Definition derived_index_of (s : derived_index_slot) : nat := Z.to_nat (payload (slot_type s) - 1).

Abbreviation derived_dense := (dense_ok vacant_derived derived_occupied hash_derived derived_slot_of
  (fun _ => True) derived_index_of derived_limit).

Record derived_ok (g : graph) : Prop := DerivedOk {
  derived_indexed : derived_dense (key_of <$> derived_types g) (derived_index g);
  derived_children : forall i d, derived_types g !! i = Some d ->
    0 <= child d < 2 ^ 32 /\ contains_ref g (child d) = true /\
    (ref_kind (child d) = ref_derived -> payload (child d) <= Z.of_nat i);
  derived_legal : forall i d c, derived_types g !! i = Some d -> denotes g (child d) c ->
    legal (T_derived (derived_kind d) (derived_payload d) c) = true
}.

(** ** Shapes of references *)

Lemma intrinsic_of_number_spec n : 0 <= n <= 21 -> intrinsic_number (intrinsic_of_number n) = n.
Proof.
  intros Hn. assert (forallb (fun i => intrinsic_number (intrinsic_of_number (Z.of_nat i)) =? Z.of_nat i)
    (seq 0 22) = true) as Hall by by vm_compute.
  rewrite forallb_forall in Hall. specialize (Hall (Z.to_nat n)).
  rewrite Z2Nat.id in Hall by lia. apply Z.eqb_eq, Hall, in_seq. lia.
Qed.

Lemma as_intrinsic_spec g r t :
  as_intrinsic g r = Some t <->
  contains_ref g r = true /\ ref_kind r = ref_intrinsic /\ payload r = intrinsic_number t.
Proof.
  unfold as_intrinsic. split.
  - destruct (contains_ref g r) eqn:Hc; [|done]. case_bool_decide as Hk; [|done]. cbn [negb orb].
    destruct (_ <? _); [|done]. intros [= <-]. split_and!; try done.
    destruct (contains_cases g r Hc) as (? & [[_ ?]|[[? _]|[? _]]]); try congruence.
    rewrite intrinsic_of_number_spec; lia.
  - intros (Hc & Hk & Hp). rewrite Hc, Hp, bool_decide_eq_true_2 by done. cbn [negb orb].
    pose proof (contains_cases g r Hc) as [Hp1 _].
    assert (intrinsic_of_number (intrinsic_number t) = t) as -> by by destruct t.
    by rewrite (proj2 (Z.ltb_lt _ _)) by lia.
Qed.

Lemma as_named_spec g r t :
  as_named g r = Some t <-> contains_ref g r = true /\ ref_kind r = ref_named /\ payload r = t.
Proof.
  unfold as_named. split.
  - destruct (contains_ref g r) eqn:Hc; [|done]. case_bool_decide as Hk; [|done]. cbn [negb orb].
    destruct (contains_type g (payload r)); [|done]. by intros [= <-].
  - intros (Hc & Hk & <-). rewrite Hc, bool_decide_eq_true_2 by done. cbn [negb orb].
    destruct (contains_cases g r Hc) as (? & [[? _]|[[_ ?]|[? _]]]); try congruence.
    unfold contains_type. rewrite (proj2 (Z.eqb_neq _ _)), (proj2 (Z.leb_le _ _)) by lia. done.
Qed.

Lemma derived_spec g r d :
  derived g r = Some d <->
  contains_ref g r = true /\ ref_kind r = ref_derived /\ at_handle (derived_types g) (payload r) = Some d.
Proof.
  unfold derived. split.
  - destruct (contains_ref g r) eqn:Hc; [|done]. case_bool_decide as Hk; done.
  - intros (-> & Hk & ->). by rewrite bool_decide_eq_true_2.
Qed.

(** How old a reference is: a derived type comes after its child. *)
Definition rank (r : type_ref) : Z := if bool_decide (ref_kind r = ref_derived) then payload r else 0.

Lemma child_rank g r d :
  derived_ok g -> derived g r = Some d ->
  0 <= rank (child d) < rank r /\ 0 <= child d < 2 ^ 32 /\ contains_ref g (child d) = true.
Proof.
  intros Hok (Hc & Hk & Hd)%derived_spec. destruct (contains_cases g r Hc) as [Hp _].
  destruct (derived_children g Hok _ d Hd) as (Hr & Hcc & Hpay).
  split; [|done]. unfold rank. rewrite (bool_decide_eq_true_2 (ref_kind r = _)) by done.
  pose proof (payload_range (child d)). case_bool_decide; [specialize (Hpay ltac:(done))|]; lia.
Qed.

(** Every reference of the graph stands for a type. *)
Lemma denotes_exists g r : derived_ok g -> contains_ref g r = true -> exists c, denotes g r c.
Proof.
  intros Hok. remember (Z.to_nat (rank r)) as n eqn:En. revert r En.
  induction n as [n IH] using lt_wf_ind. intros r -> Hc.
  destruct (contains_cases g r Hc) as (Hp & [[Hk Hle]|[[Hk Hle]|[Hk Hle]]]).
  - exists (T_intrinsic (intrinsic_of_number (payload r))). apply denotes_intrinsic, as_intrinsic_spec.
    by rewrite intrinsic_of_number_spec by lia.
  - exists (T_record (payload r)). apply denotes_named. by apply as_named_spec.
  - destruct (at_handle_lookup (derived_types g) (payload r)) as [d Hd]; [lia|].
    assert (derived g r = Some d) as Hdr by by apply derived_spec.
    destruct (child_rank g r d Hok Hdr) as (Hlt & _ & Hcc).
    destruct (IH (Z.to_nat (rank (child d)))) with (r := child d) as [c Hden]; [lia|done..|].
    eexists. by apply denotes_derived with (d := d).
Qed.

Lemma denotes_contains g r c : denotes g r c -> contains_ref g r = true.
Proof.
  destruct 1 as [r t H|r t H|r d c H _].
  - by apply as_intrinsic_spec in H as [? _].
  - by apply as_named_spec in H as [? _].
  - by apply derived_spec in H as [? _].
Qed.

(** The shape of a type is the kind of its reference. *)
Lemma denotes_kind g r c :
  denotes g r c ->
  ref_kind r = match c with T_intrinsic _ => ref_intrinsic | T_record _ => ref_named | T_derived _ _ _ => ref_derived end.
Proof.
  destruct 1 as [r t H|r t H|r d c H _].
  - by apply as_intrinsic_spec in H as (_ & ? & _).
  - by apply as_named_spec in H as (_ & ? & _).
  - by apply derived_spec in H as (_ & ? & _).
Qed.

Lemma denotes_functional g r c c' : denotes g r c -> denotes g r c' -> c = c'.
Proof.
  intros H. revert c'. induction H as [r t H|r t H|r d c H Hc IH]; intros c' H';
    pose proof (denotes_kind _ _ _ H') as Hk; inversion H' as [? t' H1|? t' H1|? d' ? H1 H2]; subst;
    [congruence| | | |congruence| | | |assert (d' = d) as -> by congruence; f_equal; by apply IH];
    exfalso; [apply as_intrinsic_spec in H as (_ & ? & _)..|apply as_named_spec in H as (_ & ? & _)
    |apply as_named_spec in H as (_ & ? & _)|apply derived_spec in H as (_ & ? & _)
    |apply derived_spec in H as (_ & ? & _)]; congruence.
Qed.

Lemma denotes_grows g g' r c : grows g g' -> denotes g r c -> denotes g' r c.
Proof.
  intros Hg. induction 1 as [r t H|r t H|r d c H _ IH].
  - apply denotes_intrinsic. by apply (as_intrinsic_grows g g').
  - apply denotes_named. by apply (as_named_grows g g').
  - apply denotes_derived; [by apply (derived_grows g g')|done].
Qed.

Lemma denotes_legal g r c : derived_ok g -> denotes g r c -> legal c = true.
Proof.
  intros Hok. destruct 1 as [r t H|r t H|r d c H Hc]; simpl; [|done|].
  - apply as_intrinsic_spec in H as (Hc & Hk & Hp). destruct (contains_cases g r Hc) as (? & _).
    destruct t; done || (simpl in Hp; lia).
  - apply derived_spec in H as (_ & _ & Hd). by apply (derived_legal g Hok _ d c Hd).
Qed.

Lemma ref_determined r r' :
  0 <= r < 2 ^ 32 -> 0 <= r' < 2 ^ 32 -> ref_valid r = true -> ref_valid r' = true ->
  ref_kind r = ref_kind r' -> payload r = payload r' -> r = r'.
Proof. intros Hr Hr' Hv Hv' Hk Hp. rewrite <- (make_ref_of r), <- (make_ref_of r') by done. by rewrite Hk, Hp. Qed.

(** Two references to the same type are the same word. *)
Lemma denotes_injective g r r' c :
  derived_ok g -> 0 <= r < 2 ^ 32 -> 0 <= r' < 2 ^ 32 -> denotes g r c -> denotes g r' c -> r = r'.
Proof.
  intros Hok Hr Hr' H H'. pose proof (contains_valid _ _ (denotes_contains _ _ _ H)) as Hv.
  pose proof (contains_valid _ _ (denotes_contains _ _ _ H')) as Hv'.
  revert r' Hr' H' Hv'. induction H as [r t H|r t H|r d c H Hc IH]; intros r' Hr' H' Hv';
    inversion H' as [? t' H1|? t' H1|? d' ? H1 H2]; subst.
  - apply as_intrinsic_spec in H as (_ & Hk & Hp), H1 as (_ & Hk1 & Hp1).
    apply ref_determined; done || congruence.
  - apply as_named_spec in H as (_ & Hk & Hp), H1 as (_ & Hk1 & Hp1). apply ref_determined; done || congruence.
  - destruct (child_rank g r d Hok H) as (_ & Hcr & Hcc).
    destruct (child_rank g r' d' Hok H1) as (_ & Hcr' & Hcc').
    assert (child d = child d') as Hch.
    { by apply IH; [|apply (contains_valid g)| |done|apply (contains_valid g)]. }
    apply derived_spec in H as (Hc1 & Hk & Hd), H1 as (Hc2 & Hk1 & Hd1).
    pose proof (contains_cases g r Hc1) as [Hp _]. pose proof (contains_cases g r' Hc2) as [Hp' _].
    apply ref_determined; try done; [congruence|].
    pose proof (dense_distinct _ _ _ _ _ _ _ _ _ (derived_indexed g Hok)) as Hnd.
    assert (key_of d = key_of d') as Hkey by (unfold key_of; congruence).
    pose proof (NoDup_lookup _ (Z.to_nat (payload r - 1)) (Z.to_nat (payload r' - 1)) (key_of d) Hnd) as Hi.
    rewrite !list_lookup_fmap in Hi. unfold at_handle in Hd, Hd1. rewrite Hd, Hd1 in Hi. simpl in Hi.
    specialize (Hi eq_refl ltac:(congruence)). lia.
Qed.

(** The loop through the qualifiers of a child. *)
Lemma unqualified_spec g r c fuel :
  derived_ok g -> denotes g r c -> rank r < Z.of_nat fuel ->
  unqualified fuel g r = Some (reference_type c, is_void c).
Proof.
  intros Hok H. revert fuel. induction H as [r t H|r t H|r d c H Hc IH]; intros fuel Hf.
  - apply as_intrinsic_spec in H as (_ & Hk & Hp). unfold rank in Hf.
    destruct fuel as [|fuel]; [case_bool_decide; [congruence|lia]|]. cbn [unqualified]. rewrite Hk, Hp.
    by destruct t.
  - apply as_named_spec in H as (_ & Hk & Hp). unfold rank in Hf.
    destruct fuel as [|fuel]; [case_bool_decide; [congruence|lia]|]. cbn [unqualified]. by rewrite Hk.
  - destruct (child_rank g r d Hok H) as (Hrk & _). apply derived_spec in H as (_ & Hk & Hd).
    destruct fuel as [|fuel]; [lia|]. cbn [unqualified]. rewrite Hk, Hd.
    unfold reference_type, is_void. simpl. destruct (is_qualified (derived_kind d)) eqn:Eq; [|done].
    apply IH. lia.
Qed.

Lemma rank_fuel g r : derived_ok g -> contains_ref g r = true -> rank r < Z.of_nat (type_fuel g).
Proof.
  intros Hok Hc. unfold rank, type_fuel. case_bool_decide as Hk; [|lia].
  destruct (contains_cases g r Hc) as (_ & [[? _]|[[? _]|[_ Hle]]]); try congruence.
  unfold count in Hle. lia.
Qed.

(** ** The derived index *)

Lemma derived_limit_spec i : (i < derived_limit)%nat -> 1 <= Z.of_nat i + 1 <= maximum_payload.
Proof. unfold derived_limit. lia. Qed.

Lemma derived_slot_parts i k :
  (i < derived_limit)%nat ->
  let s := derived_slot_of i k in
  ref_kind (slot_type s) = ref_derived /\ payload (slot_type s) = Z.of_nat i + 1 /\
  derived_occupied s = true /\ derived_index_of s = i.
Proof.
  intros Hi s. pose proof (derived_limit_spec i Hi) as Hb. unfold s, derived_slot_of, derived_occupied.
  unfold derived_index_of. cbn [slot_type].
  assert (u32 (Z.of_nat i + 1) = Z.of_nat i + 1) as ->.
  { apply Z.mod_small. change maximum_payload with (2 ^ 30 - 1) in Hb. lia. }
  destruct (make_ref_parts ref_derived (Z.of_nat i + 1)) as (-> & -> & -> & _); [done|done|].
  split_and!; try done. lia.
Qed.

Lemma derived_slot_busy i k : (i < derived_limit)%nat -> True -> derived_occupied (derived_slot_of i k) = true.
Proof. intros Hi _. by apply derived_slot_parts. Qed.

Lemma derived_slot_index i k : (i < derived_limit)%nat -> derived_index_of (derived_slot_of i k) = i.
Proof. intros Hi. by apply derived_slot_parts. Qed.

Lemma derived_limit_small : Z.of_nat derived_limit <= 2 ^ 32.
Proof. unfold derived_limit. rewrite Z2Nat.id by done. done. Qed.

Lemma find_derived_spec g key :
  derived_ok g ->
  let hash := hash_derived key in
  (forall i, (key_of <$> derived_types g) !! i = Some key ->
     find_derived g key hash (fingerprint hash) = make_ref ref_derived (Z.of_nat i + 1)) /\
  (key ∉ key_of <$> derived_types g -> find_derived g key hash (fingerprint hash) = 0).
Proof.
  intros Hok. cbv zeta. unfold find_derived. pose proof (derived_indexed g Hok) as Hd.
  destruct (find_slot_spec vacant_derived derived_occupied hash_derived derived_slot_of (fun _ => True) derived_index_of
    derived_limit derived_slot_index _ _ key (derived_matches g key (fingerprint (hash_derived key))) Hd) as [Hf Hn].
  { intros i k' Hi. pose proof (dense_limit _ _ _ _ _ _ _ _ _ Hd) as Hl.
    apply lookup_lt_Some in Hi as Hlt. destruct (derived_slot_parts i k') as (Hk & Hp & _); [lia|].
    unfold derived_matches. rewrite Hk, Hp, bool_decide_eq_true_2 by done.
    rewrite length_fmap in Hlt. rewrite (proj2 (Z.leb_le _ _)) by (unfold count; lia).
    unfold at_handle. replace (Z.to_nat (Z.of_nat i + 1 - 1)) with i by lia.
    rewrite list_lookup_fmap in Hi. destruct (derived_types g !! i) as [d|]; [|done].
    simpl in Hi. simplify_eq. unfold derived_slot_of. cbn [derived_fingerprint].
    case_bool_decide as E; [|by rewrite andb_false_r]. by rewrite E, Z.eqb_refl. }
  split.
  - intros i Hi. rewrite (Hf i Hi). unfold derived_slot_of. cbn [slot_type]. f_equal.
    apply lookup_lt_Some in Hi. pose proof (dense_limit _ _ _ _ _ _ _ _ _ Hd) as Hl.
    pose proof (derived_limit_spec i ltac:(lia)) as Hb. apply Z.mod_small.
    change maximum_payload with (2 ^ 30 - 1) in Hb. lia.
  - intros Hk. by rewrite (Hn Hk).
Qed.

(** Other operations leave the derived types as they are. *)
Lemma derived_ok_grows g g' :
  derived_ok g -> grows g g' -> derived_types g' = derived_types g ->
  derived_index g' = derived_index g -> derived_ok g'.
Proof.
  intros Hok Hg Ht Hi. split; rewrite ?Ht, ?Hi.
  - apply Hok.
  - intros i d Hd. destruct (derived_children g Hok i d Hd) as (? & Hc & ?).
    split; [done|]. split; [|done]. by apply (contains_ref_grows g g').
  - intros i d c Hd Hc. destruct (derived_children g Hok i d Hd) as (_ & Hcc & _).
    destruct (denotes_exists g (child d) Hok Hcc) as [c' Hc'].
    assert (c = c') as -> by (eapply denotes_functional; [done|by eapply denotes_grows]).
    by apply (derived_legal g Hok i d).
Qed.

Lemma grows_with_derived g ts index :
  derived_types g `prefix_of` ts -> grows g (with_derived ts index g).
Proof. intros Hp. split; cbn; try done; eauto. Qed.

(** The graph with a new derived type. *)
Lemma derived_ok_append g r k n c index :
  derived_ok g -> denotes g r c -> 0 <= r < 2 ^ 32 ->
  legal (T_derived k n c) = true ->
  derived_dense (key_of <$> derived_types g ++ [DerivedTypeRecord n r k]) index ->
  derived_ok (with_derived (derived_types g ++ [DerivedTypeRecord n r k]) index g).
Proof.
  intros Hok Hr Hrange Hlegal Hd. set (g' := with_derived _ _ _).
  assert (grows g g') as Hg by by apply grows_with_derived, prefix_app_r.
  pose proof (denotes_contains _ _ _ Hr) as Hc. split; cbn [g' with_derived derived_types derived_index].
  - done.
  - intros i d Hi. apply lookup_app_Some in Hi as [Hi|[Hle Hi]].
    + destruct (derived_children g Hok i d Hi) as (? & Hcc & ?). split; [done|].
      split; [|done]. by apply (contains_ref_grows g g').
    + apply list_lookup_singleton_Some in Hi as [Hi <-]. cbn [child]. split; [done|].
      split; [by apply (contains_ref_grows g g')|]. intros Hk.
      destruct (contains_cases g r Hc) as (_ & [[? _]|[[? _]|[_ Hp]]]); try congruence.
      unfold count in Hp. lia.
  - intros i d c' Hi Hc'. apply lookup_app_Some in Hi as [Hi|[Hle Hi]].
    + destruct (derived_children g Hok i d Hi) as (_ & Hcc & _).
      destruct (denotes_exists g (child d) Hok Hcc) as [c2 Hc2].
      assert (c' = c2) as -> by (eapply denotes_functional; [done|by apply (denotes_grows g g')]).
      by apply (derived_legal g Hok i d).
    + apply list_lookup_singleton_Some in Hi as [_ <-]. cbn [child derived_kind derived_payload] in *.
      by rewrite (denotes_functional _ _ _ _ Hc' (denotes_grows g g' r c Hg Hr)).
Qed.

(** ** What [derive] returns *)

Definition derive_exhausted (a : derive_allocation) (g : graph) : Prop :=
  table_allocated a = false \/ record_allocated a = false \/ maximum_payload <= count (derived_types g).

(** The checks of [derive] accept the legal types. *)
Lemma derive_checks k n c :
  legal c = true ->
  legal (T_derived k n c) =
  (if bool_decide (k = bounded_array) then negb (n =? 0) else n =? 0) &&
  negb (reference_type c && (bool_decide (k = pointer) || is_reference k || is_array k)) &&
  negb (is_void c && (is_reference k || is_array k)).
Proof. intros Hc. cbn [legal]. by rewrite Hc. Qed.

Lemma valid_derived_kind_all k : valid_derived_kind k = true.
Proof. by destruct k. Qed.

(** A key of the array is the type it stands for. *)
Lemma found_denotes g r k n c i :
  derived_ok g -> denotes g r c -> (key_of <$> derived_types g) !! i = Some (r, k, n) ->
  let out := make_ref ref_derived (Z.of_nat i + 1) in
  ref_valid out = true /\ 0 <= out < 2 ^ 32 /\ denotes g out (T_derived k n c).
Proof.
  intros Hok Hc Hi out. pose proof (dense_limit _ _ _ _ _ _ _ _ _ (derived_indexed g Hok)) as Hl.
  apply lookup_lt_Some in Hi as Hlt. pose proof (derived_limit_spec i ltac:(lia)) as Hb.
  destruct (make_ref_parts ref_derived (Z.of_nat i + 1)) as (Hk & Hp & Hv & Hr); [done|done|].
  fold out in Hk, Hp, Hv, Hr. split; [done|]. split; [done|].
  rewrite length_fmap in Hlt. rewrite list_lookup_fmap in Hi.
  destruct (derived_types g !! i) as [d|] eqn:Hd; [|done]. simpl in Hi. unfold key_of in Hi. simplify_eq.
  apply denotes_derived; [|done]. apply derived_spec. split; [|split; [done|]].
  - unfold contains_ref. rewrite Hv, Hk, Hp. apply Z.leb_le. unfold count. lia.
  - rewrite Hp. unfold at_handle. by replace (Z.to_nat (Z.of_nat i + 1 - 1)) with i by lia.
Qed.

Definition derive_result (r : type_ref) k n c a (g g' : graph) (st : server_status) (out : type_ref) : Prop :=
  legal (T_derived k n c) = false /\ st = project_configuration_invalid /\ out = 0 /\ g' = g \/
  legal (T_derived k n c) = true /\ st = success /\ 0 <= out < 2 ^ 32 /\ denotes g' out (T_derived k n c) \/
  legal (T_derived k n c) = true /\ st = io_error /\ out = 0 /\ derive_exhausted a g.

(** A type that is not in the array yet. *)
Lemma derive_new g r k n c index :
  derived_ok g -> denotes g r c -> 0 <= r < 2 ^ 32 -> legal (T_derived k n c) = true ->
  (r, k, n) ∉ key_of <$> derived_types g -> count (derived_types g) < maximum_payload ->
  derived_dense (key_of <$> derived_types g) index ->
  (2 * S (length (derived_types g)) <= length index)%nat ->
  let out := make_ref ref_derived (u32 (count (derived_types g ++ [DerivedTypeRecord n r k]))) in
  exists index', insert_derived_index index out (hash_derived (r, k, n)) = Some index' /\
    let g' := with_derived (derived_types g ++ [DerivedTypeRecord n r k]) index' g in
    derived_ok g' /\ grows g g' /\ 0 <= out < 2 ^ 32 /\ denotes g' out (T_derived k n c).
Proof.
  intros Hok Hc Hr Hlegal Hk Hmax Hd Hload out.
  assert (length (key_of <$> derived_types g) = length (derived_types g)) as Hlen by apply length_fmap.
  destruct (append_key_spec vacant_derived derived_occupied hash_derived derived_slot_of (fun _ => True) derived_index_of
    derived_limit derived_slot_busy derived_slot_index _ index (r, k, n) Hd) as (index' & Hins & Hd').
  { by rewrite Hlen. }
  { done. }
  { done. }
  { rewrite Hlen. unfold derived_limit. unfold count in Hmax. lia. }
  assert (out = make_ref ref_derived (Z.of_nat (length (derived_types g)) + 1)) as Hout.
  { unfold out. rewrite count_app. f_equal. unfold count. simpl. apply Z.mod_small.
    unfold count in Hmax. change maximum_payload with (2 ^ 30 - 1) in Hmax. lia. }
  exists index'. split.
  { rewrite <- Hins. unfold insert_derived_index, derived_slot_of. f_equal. f_equal.
    rewrite Hlen, Hout. f_equal. symmetry. apply Z.mod_small.
    unfold count in Hmax. change maximum_payload with (2 ^ 30 - 1) in Hmax. lia. }
  assert (derived_dense (key_of <$> derived_types g ++ [DerivedTypeRecord n r k]) index') as Hd2
    by by rewrite fmap_app.
  intros g'. assert (grows g g') as Hg by by apply grows_with_derived, prefix_app_r.
  assert (derived_ok g') as Hok' by by eapply derived_ok_append.
  split; [done|]. split; [done|].
  destruct (found_denotes g' r k n c (length (derived_types g)) Hok') as (_ & Hrange & Hden).
  - by apply (denotes_grows g g').
  - cbn [g' with_derived derived_types]. rewrite fmap_app, lookup_app_r by lia.
    by rewrite Hlen, Nat.sub_diag.
  - rewrite Hout. done.
Qed.

(** An index of the same types. *)
Lemma derived_ok_reindex g index :
  derived_ok g -> derived_dense (key_of <$> derived_types g) index ->
  derived_ok (with_derived (derived_types g) index g).
Proof.
  intros Hok Hd. assert (grows g (with_derived (derived_types g) index g)) as Hg by by apply grows_with_derived.
  split; [done|apply Hok|]. intros i d c Hi Hc.
  destruct (derived_children g Hok i d Hi) as (_ & Hcc & _).
  destruct (denotes_exists g (child d) Hok Hcc) as [c2 Hc2].
  assert (c = c2) as -> by (eapply denotes_functional; [done|by eapply denotes_grows]).
  by apply (derived_legal g Hok i d).
Qed.

Ltac unchanged g :=
  eexists _, _, g; split; [done|]; split; [done|]; split; [done|]; split; [by destruct g|].

(** After the checks. *)
Lemma derive_accepted g r k n c a :
  derived_ok g -> denotes g r c -> 0 <= r < 2 ^ 32 -> legal (T_derived k n c) = true ->
  (r, k, n) ∉ key_of <$> derived_types g -> count (derived_types g) < maximum_payload ->
  exists st index, ensure_derived_index_capacity 1 (table_allocated a) g = Some (st, index) /\
    (st = io_error /\ index = derived_index g /\ table_allocated a = false \/
     st = success /\ derived_ok (with_derived (derived_types g) index g) /\
     let out := make_ref ref_derived (u32 (count (derived_types g ++ [DerivedTypeRecord n r k]))) in
     exists index', insert_derived_index index out (hash_derived (r, k, n)) = Some index' /\
       let g' := with_derived (derived_types g ++ [DerivedTypeRecord n r k]) index' g in
       derived_ok g' /\ grows g g' /\ 0 <= out < 2 ^ 32 /\ denotes g' out (T_derived k n c)).
Proof.
  intros Hok Hc Hr Hlegal Hnin Hroom. unfold ensure_derived_index_capacity, count at 1.
  rewrite <- (length_fmap key_of (derived_types g)).
  destruct (dense_capacity_spec vacant_derived derived_occupied hash_derived derived_slot_of
    (fun _ => True) derived_index_of derived_limit eq_refl derived_slot_busy derived_limit_small
    _ _ (table_allocated a) (insert_keys vacant_derived derived_occupied hash_derived derived_slot_of 0
       (key_of <$> derived_types g)) _ (derived_indexed g Hok) (reflexivity _))
    as (st & index & -> & [(-> & -> & Ha)|(-> & Hd & Hload)]).
  { intros T. apply (insert_keys_slots _ _ _ _ _ derived_limit derived_slot_index).
    apply (dense_limit _ _ _ _ _ _ _ _ _ (derived_indexed g Hok)). }
  - eexists _, _. split; [done|]. by left.
  - eexists _, _. split; [done|]. right. split; [done|]. split; [by apply derived_ok_reindex|].
    rewrite length_fmap in Hload. by apply derive_new.
Qed.

Lemma derive_spec g r k n c a :
  derived_ok g -> denotes g r c -> 0 <= r < 2 ^ 32 ->
  exists st out g', derive r k n a g = Some (st, out, g') /\
    grows g g' /\ derived_ok g' /\ g' = with_derived (derived_types g') (derived_index g') g /\
    derive_result r k n c a g g' st out.
Proof.
  intros Hok Hc Hr. unfold derive, derive_result.
  rewrite (denotes_contains _ _ _ Hc), valid_derived_kind_all. cbn [negb orb].
  rewrite (unqualified_spec g r c) by first [done|apply rank_fuel; [done|by eapply denotes_contains]].
  assert (legal c = true) as Hlc by by eapply denotes_legal.
  pose proof (derive_checks k n c Hlc) as Hlegal.
  destruct (if bool_decide (k = bounded_array) then _ else _); cbn [negb andb] in *; [|unchanged g; by left].
  destruct (reference_type c && _); cbn [negb andb] in *; [unchanged g; by left|].
  destruct (is_void c && _); cbn [negb andb] in *; [unchanged g; by left|].
  destruct (find_derived_spec g (r, k, n) Hok) as [Hf Hn].
  destruct (decide ((r, k, n) ∈ key_of <$> derived_types g)) as [Hin|Hnin].
  { apply list_elem_of_lookup in Hin as [i Hi]. rewrite (Hf i Hi).
    destruct (found_denotes g r k n c i Hok Hc Hi) as (-> & Hrange & Hden). unchanged g. by right; left. }
  rewrite (Hn Hnin). change (ref_valid 0) with false. cbn iota.
  destruct (Z.leb_spec maximum_payload (count (derived_types g))) as [Hfull|Hroom].
  { unchanged g. right; right. do 3 (split; [done|]). by right; right. }
  destruct (derive_accepted g r k n c a) as (st & index & -> & [(-> & -> & Ha)|(-> & Hre & Hnew)]); try done.
  { assert (with_derived (derived_types g) (derived_index g) g = g) as -> by by destruct g.
    unchanged g. right; right. do 3 (split; [done|]). by left. }
  change (succeeded success) with true. cbn [negb with_derived derived_types derived_index].
  destruct (record_allocated a) eqn:Ea; cbn [negb].
  - destruct Hnew as (index' & -> & Hok' & Hg & Hrange & Hden).
    eexists _, _, _. split; [done|]. do 3 (split; [done|]). by right; left.
  - eexists _, _, _. split; [done|]. split; [by apply grows_with_derived|]. split; [done|]. split; [done|].
    right; right. do 3 (split; [done|]). by right; left.
Qed.
