(* ===== verification/GraphRecords.v ===== *)
(** The records and objects of the semantic graph (project/graph/graph.cpp:
    [declare_record], [define_record], [add_object], [reference_binding_compatible];
    project/graph/construction_semantics.hpp).  An identity has one type or one object;
    a record is defined once, from defined bases, and keeps its definition. *)

From S2P Require Import Prelude ServerStatus HashIndex DenseIndex Identity GraphData GraphGrowth GraphTypes.

Local Open Scope Z_scope.

(** ** Construction semantics *)

Definition is_kind (k : construction_kind) (v : construction_value) : bool :=
  bool_decide (value_kind v = k).

Definition integral_intrinsic (t : intrinsic_type) : bool :=
  match t with
  | ty_none | void_type | float_type | double_type | long_double_type | nullptr_type => false
  | _ => true
  end.

Definition floating_intrinsic (t : intrinsic_type) : bool :=
  bool_decide (t = float_type) || bool_decide (t = double_type) || bool_decide (t = long_double_type).

Definition integer_constant (v : construction_value) : bool :=
  is_kind signed_integer v || is_kind unsigned_integer v.

(** The end of [construction_compatible] for an intrinsic type; the payload is cast to
    an enumeration of one byte. *)
Definition intrinsic_accepts (p : Z) (v : construction_value) : bool :=
  let n := u8 p in
  let t := intrinsic_of_number n in
  if (n <=? intrinsic_number ty_none) || (intrinsic_number nullptr_type <? n) ||
     bool_decide (t = void_type) then false
  else if bool_decide (t = nullptr_type)
  then is_kind zero v || integer_constant v && (bits v =? 0)
  else if floating_intrinsic t
  then is_kind zero v || integer_constant v || is_kind real v
  else if integral_intrinsic t then is_kind zero v || integer_constant v
  else false.

(** The loop through the qualifiers of the target; [view] is the [derived] of the type
    view.  [None] is a loop that does not end. *)
Fixpoint compatible_loop (fuel : nat) (view : type_ref -> option derived_type_record)
    (target : type_ref) (v : construction_value) : option bool :=
  match fuel with
  | O => None
  | S fuel =>
      match ref_kind target with
      | ref_derived =>
          match view target with
          | None => Some false
          | Some d =>
              match derived_kind d with
              | const_qualified | volatile_qualified => compatible_loop fuel view (child d) v
              | lvalue_reference | rvalue_reference =>
                  Some (is_kind zero v || is_kind member_binding v || is_kind object_binding v)
              | pointer => Some (is_kind zero v || integer_constant v && (bits v =? 0))
              | bounded_array => Some (negb (derived_payload d =? 0) && is_kind zero v)
              | unbounded_array => Some false
              end
          end
      | ref_named => Some (is_kind zero v)
      | ref_intrinsic => Some (intrinsic_accepts (payload target) v)
      | ref_invalid => Some false
      end
  end.

Definition construction_compatible (fuel : nat) (view : type_ref -> option derived_type_record)
    (target : type_ref) (v : construction_value) : option bool :=
  if negb (ref_valid target) || negb (valid_construction v) || is_kind construction_unsupported v
  then Some false
  else compatible_loop fuel view target v.

Definition reference_binding_compatible (g : graph) (target source : type_ref) : bool :=
  match derived g target with
  | Some t =>
      if negb (is_reference (derived_kind t)) then false
      else
        let source :=
          match derived g source with
          | Some s => if is_reference (derived_kind s) then child s else source
          | None => source
          end in
        child t =? source
  | None => false
  end.

(** ** Declaring a record *)

Definition valid_record_kind (k : graph_record_kind) : bool :=
  bool_decide (k = struct_type) || bool_decide (k = class_type) || bool_decide (k = union_type).

Definition compatible_record_kind (l r : graph_record_kind) : bool :=
  Bool.eqb (bool_decide (l = union_type)) (bool_decide (r = union_type)).

Definition valid_member_access (a : graph_member_access) : bool :=
  bool_decide (a = public_access) || bool_decide (a = protected_access) || bool_decide (a = private_access).

Definition ensure_identity_slot (i : identity_ref) (allocated : bool) (g : graph) : server_status * list Z :=
  if negb (valid i) then (project_configuration_invalid, identity_locations g)
  else if slot i <? count (identity_locations g) then (success, identity_locations g)
  else if negb allocated then (io_error, identity_locations g)
  else (success, resize (Z.to_nat (slot i + 1)) 0 (identity_locations g)).

(** The locations with their old length again. *)
Definition restore (old : nat) (locations : list Z) : list Z :=
  if (old <? length locations)%nat then resize old 0 locations else locations.

(** The outcomes of the allocations of one call: of the locations, of the records. *)
Record allocations := Allocations { locations_allocated : bool; records_allocated : bool }.

Definition declare_record (i : identity_ref) (k : graph_record_kind) (a : allocations) (g : graph)
  : server_status * type_handle * graph :=
  if negb (valid i) || negb (bool_decide (kind i = kind_type)) || negb (valid_record_kind k)
  then (project_configuration_invalid, 0, g)
  else
    let existing := find_type g i in
    if negb (existing =? 0) then
      match find_entry g existing with
      | Some e =>
          if negb (compatible_record_kind (record_kind e) k) then (project_configuration_invalid, 0, g)
          else (success, existing, g)
      | None => (project_configuration_invalid, 0, g)
      end
    else if maximum_handle <=? count (types g) then (io_error, 0, g)
    else
      let old := length (identity_locations g) in
      let (prepared, locations) := ensure_identity_slot i (locations_allocated a) g in
      let restored := with_types (restore old locations) (types g) (type_identities g) g in
      if negb (succeeded prepared)
      then (prepared, 0, with_types locations (types g) (type_identities g) g)
      else if negb (locations !!! Z.to_nat (slot i) =? 0)
      then (project_configuration_invalid, 0, restored)
      else if negb (records_allocated a) then (io_error, 0, restored)
      else
        let ts := types g ++ [TypeEntry (GraphRange 0 0) (GraphRange 0 0) kind_record k 0] in
        let output := u32 (count ts) in
        (success, output,
          with_types (<[Z.to_nat (slot i) := encode_location location_type output]> locations)
            ts (type_identities g ++ [i]) g).

(** ** Defining a record *)

(** The loop over the bases; [None] is a base that is refused. *)
Fixpoint check_bases (g : graph) (t : type_handle) (previous bs : list base_record) (poly : bool)
  : option bool :=
  match bs with
  | [] => Some poly
  | b :: bs =>
      match find_entry g (base_type b) with
      | None => None
      | Some e =>
          if (base_type b =? 0) || (base_type b =? t) || negb (defined e) ||
             bool_decide (record_kind e = union_type) || negb (valid_member_access (base_access b)) ||
             negb (Z.land (base_flags b) (Z.lnot graph_base_flag_mask) =? 0) ||
             negb (base_reserved b =? 0)
          then None
          else if existsb (fun p => base_type p =? base_type b) previous then None
          else check_bases g t (previous ++ [b]) bs (poly || entry_polymorphic e)
      end
  end.

Definition construction_at (values : list construction_value) (i : nat) : construction_value :=
  match values with [] => no_construction | _ => default no_construction (values !! i) end.

(** The loop over the members from index [i] on.  [None] is a loop that does not end. *)
Fixpoint check_members (g : graph) (definition : list member_record) (values : list construction_value)
    (i : nat) (ms : list member_record) : option bool :=
  match ms with
  | [] => Some true
  | m :: ms =>
      if (member_name m =? 0) || negb (contains_ref g (member_type m)) ||
         negb (valid_member_access (member_access m)) then Some false
      else
        let v := construction_at values i in
        if negb (valid_construction v) then Some false
        else
          match construction_compatible (type_fuel g) (derived g) (member_type m) v with
          | None => None
          | Some false => Some false
          | Some true =>
              if is_kind member_binding v &&
                 ((count definition <? operand v) ||
                  negb (match at_handle definition (operand v) with
                        | Some bound => reference_binding_compatible g (member_type m) (member_type bound)
                        | None => false
                        end)) then Some false
              else if is_kind object_binding v &&
                 negb (match find_object_entry g (operand v) with
                       | Some o => internal_static o && reference_binding_compatible g (member_type m) (object_type o)
                       | None => false
                       end) then Some false
              else check_members g definition values (S i) ms
          end
  end.

(** The comparison with the definition that a record already has. *)
Definition same_definition (g : graph) (t : type_handle) (e : type_entry) (k : graph_record_kind)
    (definition : list member_record) (values : list construction_value) (bs : list base_record)
    (poly : bool) : bool :=
  bool_decide (record_kind e = k) && Bool.eqb (entry_polymorphic e) poly &&
  bool_decide ((fun b => (base_type b, base_access b, base_flags b)) <$> bases g t
    = ((fun b => (base_type b, base_access b, base_flags b)) <$> bs)) &&
  bool_decide (members g t = definition) &&
  forallb (fun i =>
    match member_construction g !! (Z.to_nat (range_begin (entry_members e)) + i)%nat with
    | Some v => bool_decide (v = construction_at values i)
    | None => false
    end) (seq 0 (length definition)).

Definition define_record (t : type_handle) (k : graph_record_kind) (definition : list member_record)
    (values : list construction_value) (bs : list base_record) (declares_virtual : bool)
    (allocated : bool) (g : graph) : option (server_status * graph) :=
  match find_entry g t with
  | None => Some (project_configuration_invalid, g)
  | Some e =>
      if negb (valid_record_kind k) || negb (compatible_record_kind (record_kind e) k) ||
         (negb (bool_decide (values = [])) && negb (count values =? count definition)) ||
         (bool_decide (k = union_type) && (negb (bool_decide (bs = [])) || declares_virtual))
      then Some (project_configuration_invalid, g)
      else
        match check_bases g t [] bs declares_virtual with
        | None => Some (project_configuration_invalid, g)
        | Some poly =>
            match check_members g definition values 0 definition with
            | None => None
            | Some false => Some (project_configuration_invalid, g)
            | Some true =>
                if defined e then
                  if same_definition g t e k definition values bs poly then Some (success, g)
                  else Some (project_configuration_invalid, g)
                else if (u32_max <? count (member_records g)) || (u32_max <? count definition) ||
                        (u32_max - count (member_records g) <? count definition) ||
                        (u32_max <? count (base_records g)) || (u32_max <? count bs) ||
                        (u32_max - count (base_records g) <? count bs)
                then Some (io_error, g)
                else if negb allocated then
                  Some (io_error,
                    with_definitions (types g) (base_records g) (member_records g)
                      (resize (length (member_records g)) no_construction (member_construction g)) g)
                else
                  let all := member_records g ++ definition in
                  let flags := Z.lor (entry_flags e) graph_type_defined in
                  let entry := TypeEntry (GraphRange (u32 (count (member_records g))) (u32 (count definition)))
                    (GraphRange (u32 (count (base_records g))) (u32 (count bs))) (entry_kind e) k
                    (if poly then Z.lor flags graph_type_polymorphic else flags) in
                  Some (success,
                    with_definitions (<[Z.to_nat (t - 1) := entry]> (types g)) (base_records g ++ bs) all
                      (if bool_decide (values = [])
                       then resize (length all) no_construction (member_construction g)
                       else member_construction g ++ values) g)
            end
        end
  end.

(** ** Adding an object *)

(** [add_object] after its checks. *)
Definition store_object (i : identity_ref) (t : type_ref) (flags : Z) (initial : construction_value)
    (a : allocations) (g : graph) : server_status * object_handle * graph :=
  let has_initial := negb (Z.land flags graph_object_non_default_initializer =? 0) in
  let existing := find_object g i in
  if negb (existing =? 0) then
    match find_object_entry g existing, construction_of_object g existing with
    | Some e, Some v =>
        if negb (object_type e =? t) || negb (Z.land (state e) graph_object_flag_mask =? flags) ||
           negb (bool_decide (v = initial))
        then (project_configuration_invalid, 0, g)
        else (success, existing, g)
    | _, _ => (project_configuration_invalid, 0, g)
    end
  else if maximum_handle <=? count (objects g) then (io_error, 0, g)
  else if has_initial && (graph_object_construction_slot_mask <=? count (object_construction g))
  then (io_error, 0, g)
  else
    let old := length (identity_locations g) in
    let (prepared, locations) := ensure_identity_slot i (locations_allocated a) g in
    let keep locations :=
      with_objects locations (objects g) (object_identities g) (object_construction g) g in
    if negb (succeeded prepared) then (prepared, 0, keep locations)
    else if negb (locations !!! Z.to_nat (slot i) =? 0)
    then (project_configuration_invalid, 0, keep (restore old locations))
    else if negb (records_allocated a) then (io_error, 0, keep (restore old locations))
    else
      let values := if has_initial then object_construction g ++ [initial] else object_construction g in
      let construction_slot := if has_initial then u32 (count values) else 0 in
      let os := objects g ++ [ObjectEntry t (Z.lor flags construction_slot)] in
      let output := u32 (count os) in
      (success, output,
        with_objects (<[Z.to_nat (slot i) := encode_location location_object output]> locations)
          os (object_identities g ++ [i]) values g).

Definition add_object (i : identity_ref) (t : type_ref) (flags : Z) (initial : construction_value)
    (a : allocations) (g : graph) : option (server_status * object_handle * graph) :=
  let has_initial := negb (Z.land flags graph_object_non_default_initializer =? 0) in
  if negb (valid i) || negb (bool_decide (kind i = kind_object)) || negb (contains_ref g t) ||
     negb (Z.land flags (Z.lnot graph_object_flag_mask) =? 0) || negb (valid_construction initial)
  then Some (project_configuration_invalid, 0, g)
  else
    match construction_compatible (type_fuel g) (derived g) t initial with
    | None => None
    | Some compatible =>
        if negb compatible || (negb has_initial && negb (bool_decide (initial = no_construction))) ||
           is_kind member_binding initial || is_kind object_binding initial
        then Some (project_configuration_invalid, 0, g)
        else Some (store_object i t flags initial a g)
    end.

(** ** Values that fit a type *)

(** [compatible_loop] on the type a reference stands for. *)
Fixpoint accepts (c : cpp_type) (v : construction_value) : bool :=
  match c with
  | T_intrinsic t => intrinsic_accepts (intrinsic_number t) v
  | T_record _ => is_kind zero v
  | T_derived k n c =>
      match k with
      | const_qualified | volatile_qualified => accepts c v
      | lvalue_reference | rvalue_reference =>
          is_kind zero v || is_kind member_binding v || is_kind object_binding v
      | pointer => is_kind zero v || integer_constant v && (bits v =? 0)
      | bounded_array => negb (n =? 0) && is_kind zero v
      | unbounded_array => false
      end
  end.

Definition fits (c : cpp_type) (v : construction_value) : bool :=
  valid_construction v && negb (is_kind construction_unsupported v) && accepts c v.

Lemma compatible_loop_spec g r c v fuel :
  derived_ok g -> denotes g r c -> rank r < Z.of_nat fuel ->
  compatible_loop fuel (derived g) r v = Some (accepts c v).
Proof.
  intros Hok H. revert fuel. induction H as [r t H|r t H|r d c H Hc IH]; intros fuel Hf;
    (destruct fuel as [|fuel]; [unfold rank in Hf; case_bool_decide; pose proof (payload_range r); lia|]);
    cbn [compatible_loop].
  - apply as_intrinsic_spec in H as (_ & -> & ->). done.
  - apply as_named_spec in H as (_ & -> & _). done.
  - destruct (child_rank g r d Hok H) as (Hrk & _). rewrite H.
    apply derived_spec in H as (_ & -> & _).
    destruct (derived_kind d) eqn:Ek; cbn [accepts]; try done; (rewrite IH by lia; done).
Qed.

Lemma construction_compatible_spec g r c v :
  derived_ok g -> denotes g r c ->
  construction_compatible (type_fuel g) (derived g) r v = Some (fits c v).
Proof.
  intros Hok Hc. pose proof (denotes_contains _ _ _ Hc) as Hcr. unfold construction_compatible, fits.
  rewrite (contains_valid _ _ Hcr). destruct (valid_construction v); [|done].
  destruct (is_kind construction_unsupported v); [done|]. cbn [negb orb andb].
  apply compatible_loop_spec; [done..|by apply rank_fuel].
Qed.

(** ** Locations *)

Definition identity_fits (i : identity_ref) (k : identity_kind) : Prop :=
  0 <= i < 2 ^ 32 /\ valid i = true /\ kind i = k.

Lemma identity_fits_inj i j k :
  identity_fits i k -> identity_fits j k -> Z.to_nat (slot i) = Z.to_nat (slot j) -> i = j.
Proof.
  intros (Hi & Hvi & Hki) (Hj & Hvj & Hkj) Hs. pose proof (slot_range i). pose proof (slot_range j).
  unfold valid in *. unbool. rewrite <- (make_parts i), <- (make_parts j), Hki, Hkj by done. f_equal. lia.
Qed.

Lemma encode_value k h :
  k <> location_none -> 1 <= h <= maximum_handle ->
  encode_location k h = location_number k * 2 ^ 30 + h.
Proof.
  intros Hk Hh. unfold encode_location. change maximum_handle with (2 ^ 30 - 1) in Hh.
  change maximum_payload with (2 ^ 30 - 1).
  rewrite bool_decide_eq_false_2, (proj2 (Z.eqb_neq h 0)), (proj2 (Z.ltb_ge _ _)) by (done || lia).
  cbn [orb]. rewrite Z.shiftl_mul_pow2 by lia.
  assert (u32 (location_number k * 2 ^ 30) = location_number k * 2 ^ 30) as -> by by destruct k.
  apply lor_disjoint; lia.
Qed.

Lemma location_decodes k k' h :
  k <> location_none -> 1 <= h <= maximum_handle ->
  decode_location_slot (encode_location k h) = h /\
  location_is k' (encode_location k h) = bool_decide (k = k') /\ encode_location k h <> 0.
Proof.
  intros Hk Hh. rewrite encode_value by done. change maximum_handle with (2 ^ 30 - 1) in Hh.
  assert (1 <= location_number k <= 2) by (destruct k; simpl; done || lia). split; [|split; [|lia]].
  - unfold decode_location_slot. change maximum_payload with (2 ^ 30 - 1).
    rewrite land_ones_mod, Z.add_comm, Z_mod_plus_full by lia. apply Z.mod_small. lia.
  - unfold location_is. rewrite Z.shiftr_div_pow2 by lia.
    assert ((location_number k * 2 ^ 30 + h) / 2 ^ 30 = location_number k) as -> by divlia.
    by destruct k, k'.
Qed.

(** A location that is in use is that of a type or of an object, and each of them is at
    the slot of its identity. *)
Record locations_ok (g : graph) : Prop := LocationsOk {
  location_used : forall s l, identity_locations g !! s = Some l -> l <> 0 ->
    (exists t i, 1 <= t <= maximum_handle /\ l = encode_location location_type t /\
       at_handle (type_identities g) t = Some i /\ Z.to_nat (slot i) = s) \/
    (exists o i, 1 <= o <= maximum_handle /\ l = encode_location location_object o /\
       at_handle (object_identities g) o = Some i /\ Z.to_nat (slot i) = s);
  type_located : forall t i, 1 <= t -> at_handle (type_identities g) t = Some i ->
    identity_fits i kind_type /\ t <= maximum_handle /\
    identity_locations g !! Z.to_nat (slot i) = Some (encode_location location_type t);
  object_located : forall o i, 1 <= o -> at_handle (object_identities g) o = Some i ->
    identity_fits i kind_object /\ o <= maximum_handle /\
    identity_locations g !! Z.to_nat (slot i) = Some (encode_location location_object o)
}.

Lemma ensure_slot_spec i allocated g :
  valid i = true ->
  (exists n, ensure_identity_slot i allocated g = (success, identity_locations g ++ replicate n 0) /\
     (Z.to_nat (slot i) < length (identity_locations g ++ replicate n 0%Z))%nat) \/
  ensure_identity_slot i allocated g = (io_error, identity_locations g) /\ allocated = false.
Proof.
  intros Hv. pose proof (slot_range i). unfold ensure_identity_slot. rewrite Hv. cbn [negb].
  destruct (Z.ltb_spec (slot i) (count (identity_locations g))) as [Hlt|Hge].
  - left. exists 0%nat. rewrite app_nil_r. split; [done|]. unfold count in Hlt. lia.
  - destruct allocated; cbn [negb]; [left|by right]. unfold count in Hge.
    exists (Z.to_nat (slot i + 1) - length (identity_locations g))%nat.
    rewrite resize_ge by lia. split; [done|]. rewrite length_app, length_replicate. lia.
Qed.

Lemma restore_grown l n : restore (length l) (l ++ replicate n 0) = l.
Proof.
  unfold restore. rewrite length_app, length_replicate. destruct (Nat.ltb_spec (length l) (length l + n)).
  - by rewrite resize_app_le, resize_all by lia.
  - assert (n = 0)%nat as -> by lia. by rewrite app_nil_r.
Qed.

Lemma lookup_grown (l : list Z) n s x : (l ++ replicate n 0) !! s = Some x -> x <> 0 -> l !! s = Some x.
Proof.
  intros Hx Hne. apply lookup_app_Some in Hx as [Hx|[_ Hx]]; [done|].
  by apply lookup_replicate in Hx as [-> _].
Qed.

(** A free slot is given to a new type or object. *)
Lemma set_location (l : list Z) n s x :
  (s < length (l ++ replicate n 0%Z))%nat -> (l ++ replicate n 0) !!! s = 0 ->
  (<[s := x]> (l ++ replicate n 0)) !! s = Some x /\
  (forall s' y, l !! s' = Some y -> y <> 0 -> (<[s := x]> (l ++ replicate n 0)) !! s' = Some y) /\
  (forall s' y, (<[s := x]> (l ++ replicate n 0)) !! s' = Some y -> y <> 0 ->
     s' = s /\ y = x \/ l !! s' = Some y).
Proof.
  intros Hs H0. split; [by apply list_lookup_insert_eq|]. split.
  - intros s' y Hy Hne. destruct (decide (s' = s)) as [->|Hss].
    + rewrite (list_lookup_total_correct _ _ y) in H0 by by apply lookup_app_l_Some. done.
    + rewrite list_lookup_insert_ne by done. by apply lookup_app_l_Some.
  - intros s' y Hy Hne. destruct (decide (s' = s)) as [->|Hss].
    + rewrite list_lookup_insert_eq in Hy by done. simplify_eq. by left.
    + rewrite list_lookup_insert_ne in Hy by done. right. by eapply lookup_grown.
Qed.

(** ** The invariant of records and objects *)

(** A base of a defined record: an older defined record that is no union. *)
Definition base_ok (g : graph) (e : type_entry) (b : base_record) : Prop :=
  exists e', find_entry g (base_type b) = Some e' /\ defined e' = true /\
    record_kind e' <> union_type /\
    range_begin (entry_bases e') + range_count (entry_bases e') <= range_begin (entry_bases e) /\
    (entry_polymorphic e' = true -> entry_polymorphic e = true).

Record entry_ok (g : graph) (e : type_entry) : Prop := EntryOk {
  members_range : 0 <= range_begin (entry_members e) /\ 0 <= range_count (entry_members e) /\
    range_begin (entry_members e) + range_count (entry_members e) <= count (member_records g);
  bases_range : 0 <= range_begin (entry_bases e) /\ 0 <= range_count (entry_bases e) /\
    range_begin (entry_bases e) + range_count (entry_bases e) <= count (base_records g);
  bases_distinct : NoDup (base_type <$> range_of (base_records g) (entry_bases e));
  bases_ok : Forall (base_ok g e) (range_of (base_records g) (entry_bases e))
}.

(** The type and the value of a member or of an object. *)
Definition initialised (g : graph) (r : type_ref) (v : construction_value) : Prop :=
  0 <= r < 2 ^ 32 /\ exists c, denotes g r c /\ fits c v = true.

(** Ranges that share no index: one ends where the other has not begun. *)
Definition ranges_apart (r r' : graph_range) : Prop :=
  range_begin r + range_count r <= range_begin r' \/ range_begin r' + range_count r' <= range_begin r.

Record records_ok (g : graph) : Prop := RecordsOk {
  identity_per_type : length (type_identities g) = length (types g);
  types_bound : count (types g) <= maximum_handle;
  construction_per_member : length (member_construction g) = length (member_records g);
  members_bound : count (member_records g) <= u32_max;
  bases_bound : count (base_records g) <= u32_max;
  entries_ok : forall i e, types g !! i = Some e -> defined e = true -> entry_ok g e;
  entries_plain : forall i e, types g !! i = Some e -> defined e = false -> entry_flags e = 0;
  members_initialised : forall i m v, member_records g !! i = Some m ->
    member_construction g !! i = Some v -> initialised g (member_type m) v;
  definitions_apart : forall i j e e', types g !! i = Some e -> types g !! j = Some e' -> i <> j ->
    defined e = true -> defined e' = true ->
    ranges_apart (entry_members e) (entry_members e') /\ ranges_apart (entry_bases e) (entry_bases e')
}.

Record objects_ok (g : graph) : Prop := ObjectsOk {
  identity_per_object : length (object_identities g) = length (objects g);
  objects_bound : count (objects g) <= maximum_handle;
  object_values_bound : count (object_construction g) <= graph_object_construction_slot_mask;
  objects_initialised : forall h o, 1 <= h -> at_handle (objects g) h = Some o ->
    exists v, construction_of_object g h = Some v /\ initialised g (object_type o) v
}.

Lemma initialised_grows g g' r v : grows g g' -> initialised g r v -> initialised g' r v.
Proof. intros Hg (Hr & c & Hc & Hf). split; [done|]. exists c. split; [by apply (denotes_grows g g')|done]. Qed.

Lemma base_ok_grows g g' e b : grows g g' -> base_ok g e b -> base_ok g' e b.
Proof.
  intros Hg (e' & He & Hd & ?). exists e'. split; [by apply (find_defined_grows g g')|done].
Qed.

Lemma ranges_apart_sym r r' : ranges_apart r r' -> ranges_apart r' r.
Proof. intros [?|?]; [by right|by left]. Qed.

Lemma entry_ok_grows g g' e : grows g g' -> entry_ok g e -> entry_ok g' e.
Proof.
  intros Hg [Hm Hb Hn Hf]. pose proof (count_prefix _ _ (grows_member_records _ _ Hg)).
  pose proof (count_prefix _ _ (grows_base_records _ _ Hg)).
  assert (range_of (base_records g') (entry_bases e) = range_of (base_records g) (entry_bases e)) as Hr
    by (apply range_of_prefix; [apply Hg|lia..]).
  split; rewrite ?Hr; [lia|lia|done|]. eapply Forall_impl; [done|].
  intros b Hbk. by apply (base_ok_grows g g').
Qed.

(** Other operations leave the records and the objects as they are. *)
Lemma records_ok_grows g g' :
  records_ok g -> grows g g' -> types g' = types g -> type_identities g' = type_identities g ->
  member_records g' = member_records g -> member_construction g' = member_construction g ->
  base_records g' = base_records g -> records_ok g'.
Proof.
  intros [] Hg Ht Hi Hm Hc Hb. split; rewrite ?Ht, ?Hi, ?Hm, ?Hc, ?Hb; try done.
  - intros i e He Hd. apply (entry_ok_grows g g'); eauto.
  - intros i m v Hm' Hv. apply (initialised_grows g g'); eauto.
Qed.

Lemma construction_of_object_grows g g' h v :
  grows g g' -> construction_of_object g h = Some v -> construction_of_object g' h = Some v.
Proof.
  intros Hg. unfold construction_of_object.
  destruct (find_object_entry g h) as [e|] eqn:He; [|done].
  rewrite (find_object_entry_grows g g' Hg h e He).
  destruct (negb _); [done|]. destruct (_ =? 0); [done|]. apply at_handle_prefix, Hg.
Qed.

Lemma objects_ok_grows g g' :
  objects_ok g -> grows g g' -> objects g' = objects g -> object_identities g' = object_identities g ->
  object_construction g' = object_construction g -> objects_ok g'.
Proof.
  intros [Hi Hb Hv Ho] Hg H1 H2 H3. split; rewrite ?H1, ?H2, ?H3; [exact Hi|exact Hb|exact Hv|].
  intros h o Hh Ha. destruct (Ho h o Hh Ha) as (v & Hval & Hin). exists v.
  split; [by apply (construction_of_object_grows g g')|by apply (initialised_grows g g')].
Qed.

Lemma locations_ok_same g g' :
  locations_ok g -> identity_locations g' = identity_locations g ->
  type_identities g' = type_identities g -> object_identities g' = object_identities g -> locations_ok g'.
Proof. intros [] H1 H2 H3. split; rewrite ?H1, ?H2, ?H3; done. Qed.

(** ** Handles and identities *)

Lemma contains_type_at g t :
  records_ok g -> contains_type g t = true -> 1 <= t ->
  exists e i, find_entry g t = Some e /\ at_handle (types g) t = Some e /\
    at_handle (type_identities g) t = Some i /\ type_identity g t = i /\ t <= maximum_handle.
Proof.
  intros Hr Hc Ht. unfold find_entry, type_identity. rewrite Hc. unfold contains_type in Hc. unbool.
  destruct (at_handle_lookup (types g) t) as [e He]; [lia|].
  destruct (at_handle_lookup (type_identities g) t) as [i Hi].
  { unfold count in *. rewrite (identity_per_type g Hr). lia. }
  exists e, i. rewrite He, Hi. split_and!; try done. pose proof (types_bound g Hr). lia.
Qed.

Lemma contains_type_range g t : contains_type g t = true <-> t <> 0 /\ t <= count (types g).
Proof. unfold contains_type. rewrite andb_true_iff, negb_true_iff, Z.eqb_neq, Z.leb_le. done. Qed.

Lemma contains_object_range g o : contains_object g o = true <-> o <> 0 /\ o <= count (objects g).
Proof. unfold contains_object. rewrite andb_true_iff, negb_true_iff, Z.eqb_neq, Z.leb_le. done. Qed.

Lemma at_handle_count {A} (l : list A) h x : at_handle l h = Some x -> h <= count l \/ h <= 1.
Proof. unfold at_handle. intros Hx%lookup_lt_Some. unfold count. lia. Qed.

(** [find_type] inverts [identity]. *)
Lemma find_type_spec g i t :
  records_ok g -> locations_ok g -> identity_fits i kind_type ->
  (find_type g i = t /\ t <> 0) <-> (1 <= t /\ contains_type g t = true /\ type_identity g t = i).
Proof.
  intros Hr Hl Hfit. pose proof Hfit as (Hi & Hv & Hk). split.
  - intros [Hf Hne]. unfold find_type in Hf. rewrite Hv in Hf. cbn [negb] in Hf.
    destruct (identity_locations g !! Z.to_nat (slot i)) as [l|] eqn:El; [|done].
    destruct (location_is location_type l) eqn:Eis; [|done]. cbn [negb] in Hf.
    assert (l <> 0) as Hl0 by (intros ->; done).
    destruct (location_used g Hl _ _ El Hl0) as [(h & j & Hh & -> & Hj & Hs)|(h & j & Hh & -> & Hj & Hs)].
    2: { destruct (location_decodes location_object location_type h) as (_ & E & _); [done|done|].
         rewrite E in Eis. done. }
    destruct (location_decodes location_type location_type h) as (Hd & _); [done|done|]. rewrite Hd in Hf.
    destruct (contains_type g h) eqn:Hc; [subst h|congruence]. split; [lia|]. split; [done|].
    destruct (contains_type_at g t Hr Hc) as (e & j' & _ & _ & Hj' & -> & _); [lia|].
    assert (j' = j) as -> by congruence.
    destruct (type_located g Hl t j) as [Hj2 _]; [lia|done|].
    by apply (identity_fits_inj _ _ kind_type).
  - intros (Ht & Hc & Hid). destruct (contains_type_at g t Hr Hc Ht) as (e & j & _ & _ & Hj & Hid' & Hmax).
    assert (j = i) as -> by congruence. destruct (type_located g Hl t i Ht Hj) as (_ & _ & Hloc).
    unfold find_type. rewrite Hv, Hloc. cbn [negb].
    destruct (location_decodes location_type location_type t) as (-> & -> & _); [done|lia|].
    cbn [negb bool_decide]. rewrite bool_decide_eq_true_2 by done. cbn [negb]. rewrite Hc. split; [done|lia].
Qed.

Lemma contains_object_at g o :
  objects_ok g -> contains_object g o = true -> 1 <= o ->
  exists e i, find_object_entry g o = Some e /\ at_handle (objects g) o = Some e /\
    at_handle (object_identities g) o = Some i /\ object_identity g o = i /\ o <= maximum_handle.
Proof.
  intros Hr Hc Ht. unfold find_object_entry, object_identity. rewrite Hc. unfold contains_object in Hc. unbool.
  destruct (at_handle_lookup (objects g) o) as [e He]; [lia|].
  destruct (at_handle_lookup (object_identities g) o) as [i Hi].
  { unfold count in *. rewrite (identity_per_object g Hr). lia. }
  exists e, i. rewrite He, Hi. split_and!; try done. pose proof (objects_bound g Hr). lia.
Qed.

Lemma find_object_spec g i o :
  objects_ok g -> locations_ok g -> identity_fits i kind_object ->
  (find_object g i = o /\ o <> 0) <-> (1 <= o /\ contains_object g o = true /\ object_identity g o = i).
Proof.
  intros Hr Hl Hfit. pose proof Hfit as (Hi & Hv & Hk). split.
  - intros [Hf Hne]. unfold find_object in Hf. rewrite Hv in Hf. cbn [negb] in Hf.
    destruct (identity_locations g !! Z.to_nat (slot i)) as [l|] eqn:El; [|done].
    destruct (location_is location_object l) eqn:Eis; [|done]. cbn [negb] in Hf.
    assert (l <> 0) as Hl0 by (intros ->; done).
    destruct (location_used g Hl _ _ El Hl0) as [(h & j & Hh & -> & Hj & Hs)|(h & j & Hh & -> & Hj & Hs)].
    1: { destruct (location_decodes location_type location_object h) as (_ & E & _); [done|done|].
         rewrite E in Eis. done. }
    destruct (location_decodes location_object location_object h) as (Hd & _); [done|done|]. rewrite Hd in Hf.
    destruct (contains_object g h) eqn:Hc; [subst h|congruence]. split; [lia|]. split; [done|].
    destruct (contains_object_at g o Hr Hc) as (e & j' & _ & _ & Hj' & -> & _); [lia|].
    assert (j' = j) as -> by congruence.
    destruct (object_located g Hl o j) as [Hj2 _]; [lia|done|].
    by apply (identity_fits_inj _ _ kind_object).
  - intros (Ht & Hc & Hid). destruct (contains_object_at g o Hr Hc Ht) as (e & j & _ & _ & Hj & Hid' & Hmax).
    assert (j = i) as -> by congruence. destruct (object_located g Hl o i Ht Hj) as (_ & _ & Hloc).
    unfold find_object. rewrite Hv, Hloc. cbn [negb].
    destruct (location_decodes location_object location_object o) as (-> & -> & _); [done|lia|].
    rewrite bool_decide_eq_true_2 by done. cbn [negb]. rewrite Hc. split; [done|lia].
Qed.

(** ** Declaring *)

Definition exhausted (a : allocations) (n : Z) (limit : Z) : Prop :=
  locations_allocated a = false \/ records_allocated a = false \/ limit <= n.

(** An identity whose slot belongs to a type or object of another kind. *)
Definition slot_taken (g : graph) (i : identity_ref) : Prop :=
  exists l, identity_locations g !! Z.to_nat (slot i) = Some l /\ l <> 0.

Lemma grows_with_types g locations ts ids :
  (forall i e, types g !! i = Some e -> ts !! i = Some e) -> type_identities g `prefix_of` ids ->
  (forall s y, identity_locations g !! s = Some y -> y <> 0 -> locations !! s = Some y) ->
  grows g (with_types locations ts ids g).
Proof. intros Ht Hi Hl. split; cbn; try done; eauto. Qed.

Lemma with_types_same g : with_types (identity_locations g) (types g) (type_identities g) g = g.
Proof. by destruct g. Qed.

(** The graph with a new type. *)
Lemma declare_new g i k n s :
  records_ok g -> locations_ok g -> identity_fits i kind_type -> s = Z.to_nat (slot i) ->
  count (types g) < maximum_handle ->
  (s < length (identity_locations g ++ replicate n 0%Z))%nat ->
  (identity_locations g ++ replicate n 0) !!! s = 0 ->
  let ts := types g ++ [TypeEntry (GraphRange 0 0) (GraphRange 0 0) kind_record k 0] in
  let g' := with_types (<[s := encode_location location_type (u32 (count ts))]>
    (identity_locations g ++ replicate n 0)) ts (type_identities g ++ [i]) g in
  u32 (count ts) = count (types g) + 1 /\ grows g g' /\ records_ok g' /\ locations_ok g'.
Proof.
  intros Hr Hl Hfit Hs Hmax Hlen H0 ts g'. pose proof (count_at_least (types g)) as Hnn.
  assert (count ts = count (types g) + 1) as Hts by (unfold ts; by rewrite count_app).
  assert (u32 (count ts) = count (types g) + 1) as Hu.
  { rewrite Hts. apply Z.mod_small. change maximum_handle with (2 ^ 30 - 1) in Hmax. lia. }
  destruct (set_location (identity_locations g) n s (encode_location location_type (u32 (count ts))) Hlen H0)
    as (Hset & Hkeep & Hback).
  assert (grows g g') as Hg.
  { apply grows_with_types; [|by apply prefix_app_r|done]. intros j e He. by apply lookup_app_l_Some. }
  split; [done|]. split; [done|]. pose proof (identity_per_type g Hr) as Hper.
  assert (count (type_identities g) = count (types g)) as Hcnt by (unfold count; by rewrite Hper).
  split.
  - pose proof Hr as [_ _ ? ? ? He Hp Hm Hap]. split; cbn [g' with_types types type_identities member_records member_construction base_records]; try done.
    + unfold ts. rewrite !length_app. simpl. lia.
    + lia.
    + intros j e Hj Hd. apply (entry_ok_grows g g' e Hg).
      apply lookup_app_Some in Hj as [Hj|[_ Hj]]; [by eapply He|].
      apply list_lookup_singleton_Some in Hj as [_ <-]. done.
    + intros j e Hj Hd. apply lookup_app_Some in Hj as [Hj|[_ Hj]]; [by eapply Hp|].
      by apply list_lookup_singleton_Some in Hj as [_ <-].
    + intros j m v Hj Hv. apply (initialised_grows g g' _ _ Hg). by eapply Hm.
    + intros j j' e e' Hj Hj' Hne Hd Hd'.
      apply lookup_app_Some in Hj as [Hj|[_ [_ <-]%list_lookup_singleton_Some]]; [|done].
      apply lookup_app_Some in Hj' as [Hj'|[_ [_ <-]%list_lookup_singleton_Some]]; [|done].
      by apply (Hap j j').
  - pose proof Hl as [Hlu Hlt Hlo]. split; cbn [g' with_types identity_locations type_identities object_identities].
    + intros s' l Hl' Hne. destruct (Hback s' l Hl' Hne) as [[-> ->]|Hold].
      * left. exists (u32 (count ts)), i. rewrite Hu. split; [lia|]. split; [done|].
        split; [rewrite <- Hcnt; apply at_handle_last|done].
      * destruct (Hlu s' l Hold Hne) as [(t & j & Ht & -> & Hj & <-)|Hobj]; [left|by right].
        exists t, j. split; [done|]. split; [done|]. split; [|done].
        eapply at_handle_prefix; [by apply prefix_app_r|done].
    + intros t j Ht Hj. unfold at_handle in Hj. apply lookup_app_Some in Hj as [Hj|[Hge Hj]].
      * destruct (Hlt t j Ht Hj) as (Hf & Hle & Hloc). split; [done|]. split; [done|]. apply Hkeep; [done|].
        by destruct (location_decodes location_type location_type t) as (_ & _ & ?).
      * apply list_lookup_singleton_Some in Hj as [Hz <-]. split; [done|].
        assert (t = u32 (count ts)) as ->; [rewrite Hu, <- Hcnt; unfold count; lia|].
        split; [lia|]. by rewrite <- Hs.
    + intros o j Ho Hj. destruct (Hlo o j Ho Hj) as (Hf & Hle & Hloc). split; [done|]. split; [done|].
      apply Hkeep; [done|]. by destruct (location_decodes location_object location_object o) as (_ & _ & ?).
Qed.

Definition declare_result (i : identity_ref) (k : graph_record_kind) (a : allocations)
    (g g' : graph) (st : server_status) (t : type_handle) : Prop :=
  st = success /\ identity_fits i kind_type /\ 1 <= t /\ contains_type g' t = true /\
    type_identity g' t = i /\
    (exists e, find_entry g' t = Some e /\ compatible_record_kind (record_kind e) k = true) \/
  st = io_error /\ g' = g /\ t = 0 /\ exhausted a (count (types g)) maximum_handle \/
  st = project_configuration_invalid /\ g' = g /\ t = 0 /\
    (~ identity_fits i kind_type \/ slot_taken g i).

Ltac same_graph g := eexists _, _, g; do 4 (split; [done|]); split; [by destruct g|].

Lemma declare_spec g i k a :
  records_ok g -> locations_ok g -> 0 <= i < 2 ^ 32 ->
  exists st t g', declare_record i k a g = (st, t, g') /\ grows g g' /\ records_ok g' /\ locations_ok g' /\
    g' = with_types (identity_locations g') (types g') (type_identities g') g /\
    declare_result i k a g g' st t.
Proof.
  intros Hr Hl Hi. unfold declare_record, declare_result.
  assert (valid_record_kind k = true) as -> by by destruct k.
  destruct (valid i) eqn:Hv; cbn [negb orb].
  2: { same_graph g. right; right. do 3 (split; [done|]). left. intros (_ & ? & _). congruence. }
  case_bool_decide as Hk; cbn [negb orb].
  2: { same_graph g. right; right. do 3 (split; [done|]). left. by intros (_ & _ & ?). }
  assert (identity_fits i kind_type) as Hfit by done.
  destruct (Z.eqb_spec (find_type g i) 0) as [Hnone|Hsome]; cbn [negb].
  2: { destruct (proj1 (find_type_spec g i _ Hr Hl Hfit) (conj eq_refl Hsome)) as (Ht & Hc & Hid).
       destruct (contains_type_at g _ Hr Hc Ht) as (e & j & He & _ & Hj & Hid' & _). rewrite He.
       destruct (compatible_record_kind (record_kind e) k) eqn:Hcomp; cbn [negb]; same_graph g.
       - left. do 5 (split; [done|]). by exists e.
       - right; right. do 3 (split; [done|]). right.
         destruct (type_located g Hl _ _ Ht Hj) as (_ & Hle & Hloc).
         assert (j = i) as -> by congruence. eexists. split; [done|].
         by destruct (location_decodes location_type location_type (find_type g i)) as (_ & _ & ?). }
  destruct (Z.leb_spec maximum_handle (count (types g))) as [Hfull|Hroom].
  { same_graph g. right; left. do 3 (split; [done|]). by right; right. }
  destruct (ensure_slot_spec i (locations_allocated a) g Hv) as [[n [-> Hlen]]|[-> Ha]].
  2: { cbn [succeeded]. change (succeeded io_error) with false. cbn [negb]. rewrite with_types_same.
       same_graph g. right; left. do 3 (split; [done|]). by left. }
  change (succeeded success) with true. cbn [negb]. rewrite restore_grown, with_types_same.
  destruct (Z.eqb_spec ((identity_locations g ++ replicate n 0) !!! Z.to_nat (slot i)) 0) as [H0|Htaken]; cbn [negb].
  2: { same_graph g. right; right. do 3 (split; [done|]). right.
       destruct (lookup_lt_is_Some_2 _ _ Hlen) as [l Hlk].
       rewrite (list_lookup_total_correct _ _ _ Hlk) in Htaken. exists l. split; [|done].
       by eapply lookup_grown. }
  destruct (records_allocated a) eqn:Ea; cbn [negb].
  2: { same_graph g. right; left. do 3 (split; [done|]). by right; left. }
  destruct (declare_new g i k n _ Hr Hl Hfit eq_refl Hroom Hlen H0) as (Hu & Hg & Hr' & Hl').
  eexists _, _, _. do 4 (split; [done|]). split; [done|]. left. rewrite Hu.
  pose proof (count_at_least (types g)). split; [done|]. split; [done|]. split; [lia|].
  assert (contains_type (with_types (<[Z.to_nat (slot i) := encode_location location_type (count (types g) + 1)]>
    (identity_locations g ++ replicate n 0)) (types g ++ [TypeEntry (GraphRange 0 0) (GraphRange 0 0) kind_record k 0])
    (type_identities g ++ [i]) g) (count (types g) + 1) = true) as Hc.
  { apply contains_type_range. cbn [with_types types]. rewrite count_app. change (count [_]) with 1. lia. }
  split; [done|]. unfold type_identity, find_entry. rewrite Hc. cbn [with_types types type_identities].
  rewrite at_handle_last. split.
  - assert (count (types g) = count (type_identities g)) as -> by (unfold count; by rewrite (identity_per_type g Hr)).
    by rewrite at_handle_last.
  - eexists. split; [done|]. by destruct k.
Qed.

(** ** Objects *)

(** The state word of an object: flags above the construction slot. *)
Lemma object_state_parts flags s :
  0 <= flags < 2 ^ 32 -> Z.land flags (Z.lnot graph_object_flag_mask) = 0 ->
  0 <= s <= graph_object_construction_slot_mask ->
  let o := Z.lor flags s in
  Z.land o graph_object_non_default_initializer = Z.land flags graph_object_non_default_initializer /\
  Z.land o graph_object_construction_slot_mask = s /\ Z.land o graph_object_flag_mask = flags.
Proof.
  intros Hf Hm Hs o.
  change graph_object_construction_slot_mask with (Z.ones 30) in *.
  change graph_object_non_default_initializer with (2 ^ 30) in *.
  assert (0 <= s < 2 ^ 30) as Hs' by (change (Z.ones 30) with (2 ^ 30 - 1) in Hs; lia). clear Hs.
  assert (flags = Z.land flags graph_object_flag_mask) as Hfm.
  { rewrite <- (Z.lor_0_r (Z.land flags _)), <- Hm, <- Z.land_lor_distr_r, Z.lor_lnot_diag.
    by rewrite Z.land_m1_r. }
  change graph_object_flag_mask with (Z.lor (2 ^ 30) (2 ^ 31)) in *.
  assert (forall i, Z.testbit flags i = Z.testbit flags i && ((30 =? i) || (31 =? i))) as Hbits.
  { intros i. destruct (Z.ltb_spec i 0); [by rewrite Z.testbit_neg_r by lia|].
    rewrite Hfm at 1. autorewrite with zbits. done. }
  unfold o. split_and!; apply Z.bits_inj'; intros i Hi; autorewrite with zbits; rewrite (Hbits i);
    destruct (Z.ltb_spec i 30); try (rewrite (testbit_high 30 s) by lia);
    destruct (Z.eqb_spec 30 i), (Z.eqb_spec 31 i); try lia; try btauto.
Qed.

Lemma grows_with_objects g locations os ids values :
  objects g `prefix_of` os -> object_identities g `prefix_of` ids -> object_construction g `prefix_of` values ->
  (forall s y, identity_locations g !! s = Some y -> y <> 0 -> locations !! s = Some y) ->
  grows g (with_objects locations os ids values g).
Proof. intros Ho Hi Hv Hl. split; cbn; try done; eauto. Qed.

Lemma with_objects_same g :
  with_objects (identity_locations g) (objects g) (object_identities g) (object_construction g) g = g.
Proof. by destruct g. Qed.

Section NewObject.
Context (g : graph) (i : identity_ref) (t : type_ref) (flags : Z) (initial : construction_value)
  (n s : nat).
Context (Ho : objects_ok g) (Hl : locations_ok g) (Hfit : identity_fits i kind_object)
  (Hs : s = Z.to_nat (slot i)) (Hroom : count (objects g) < maximum_handle).

(** What [store_object] appends. *)
Definition new_values : list construction_value :=
  if negb (Z.land flags graph_object_non_default_initializer =? 0)
  then object_construction g ++ [initial] else object_construction g.
Definition new_slot : Z :=
  if negb (Z.land flags graph_object_non_default_initializer =? 0) then u32 (count new_values) else 0.
Definition new_objects : list object_entry := objects g ++ [ObjectEntry t (Z.lor flags new_slot)].
Definition with_new_object : graph :=
  with_objects (<[s := encode_location location_object (u32 (count new_objects))]>
    (identity_locations g ++ replicate n 0)) new_objects (object_identities g ++ [i]) new_values g.

Context (Hlen : (s < length (identity_locations g ++ replicate n 0%Z))%nat)
  (H0 : (identity_locations g ++ replicate n 0) !!! s = 0)
  (Hflags : 0 <= flags < 2 ^ 32) (Hmask : Z.land flags (Z.lnot graph_object_flag_mask) = 0)
  (Hvalues : negb (Z.land flags graph_object_non_default_initializer =? 0) = true ->
     count (object_construction g) < graph_object_construction_slot_mask)
  (Hplain : negb (Z.land flags graph_object_non_default_initializer =? 0) = false ->
     initial = no_construction)
  (Hinit : initialised g t initial).

Lemma new_object_handle : u32 (count new_objects) = count (objects g) + 1.
Proof.
  unfold new_objects. rewrite count_app. change (count [_]) with 1. apply Z.mod_small.
  pose proof (count_at_least (objects g)). change maximum_handle with (2 ^ 30 - 1) in Hroom. lia.
Qed.

Lemma new_object_grows : grows g with_new_object.
Proof.
  destruct (set_location (identity_locations g) n s
    (encode_location location_object (u32 (count new_objects))) Hlen H0) as (_ & Hkeep & _).
  apply grows_with_objects; [by apply prefix_app_r|by apply prefix_app_r| |done].
  unfold new_values. destruct (negb _); [by apply prefix_app_r|done].
Qed.

Lemma new_slot_range : 0 <= new_slot <= graph_object_construction_slot_mask /\
  count new_values <= graph_object_construction_slot_mask.
Proof.
  pose proof (count_at_least (object_construction g)). pose proof (object_values_bound g Ho) as Hb.
  change graph_object_construction_slot_mask with (2 ^ 30 - 1) in *.
  unfold new_slot, new_values. destruct (negb _); [|lia]. specialize (Hvalues eq_refl).
  rewrite count_app. change (count [_]) with 1. unfold u32. rewrite Z.mod_small by lia. lia.
Qed.

Lemma new_object_entry :
  find_object_entry with_new_object (count (objects g) + 1) = Some (ObjectEntry t (Z.lor flags new_slot)).
Proof.
  unfold find_object_entry, contains_object. cbn [with_new_object with_objects objects].
  unfold new_objects. rewrite count_app. change (count [_]) with 1. pose proof (count_at_least (objects g)).
  rewrite (proj2 (Z.eqb_neq _ _)), (proj2 (Z.leb_le _ _)) by lia. apply at_handle_last.
Qed.

Lemma new_object_construction :
  construction_of_object with_new_object (count (objects g) + 1) = Some initial.
Proof.
  unfold construction_of_object. rewrite new_object_entry. pose proof new_slot_range as [Hr _].
  destruct (object_state_parts flags new_slot Hflags Hmask Hr) as (H1 & H2 & _).
  unfold non_default_initializer, construction_slot. cbn [state]. rewrite H1, H2.
  destruct (negb (Z.land flags graph_object_non_default_initializer =? 0)) eqn:Ef; cbn [negb].
  - assert (new_slot = count (object_construction g) + 1) as ->.
    { unfold new_slot, new_values. rewrite Ef, count_app. change (count [_]) with 1. apply Z.mod_small.
      pose proof (count_at_least (object_construction g)). specialize (Hvalues eq_refl).
      change graph_object_construction_slot_mask with (2 ^ 30 - 1) in Hvalues. lia. }
    pose proof (count_at_least (object_construction g)). rewrite (proj2 (Z.eqb_neq _ 0)) by lia.
    cbn [with_new_object with_objects object_construction]. unfold new_values. rewrite Ef. apply at_handle_last.
  - unfold new_slot. rewrite Ef. by rewrite Hplain.
Qed.

Lemma new_object_ok : objects_ok with_new_object.
Proof.
  pose proof new_object_grows as Hg. pose proof Ho as [Hi Hb Hv Hin].
  split; cbn [with_new_object with_objects objects object_identities object_construction].
  - unfold new_objects. rewrite !length_app. simpl. lia.
  - unfold new_objects. rewrite count_app. change (count [_]) with 1. lia.
  - apply new_slot_range.
  - intros h o Hh Ha. unfold at_handle, new_objects in Ha. apply lookup_app_Some in Ha as [Ha|[Hge Ha]].
    + destruct (Hin h o Hh Ha) as (v & Hval & Hini). exists v.
      split; [by apply (construction_of_object_grows g)|by apply (initialised_grows g)].
    + apply list_lookup_singleton_Some in Ha as [Hz <-]. cbn [object_type].
      assert (h = count (objects g) + 1) as -> by (unfold count; lia).
      exists initial. split; [apply new_object_construction|by apply (initialised_grows g)].
Qed.

Lemma new_object_locations : locations_ok with_new_object.
Proof.
  destruct (set_location (identity_locations g) n s
    (encode_location location_object (u32 (count new_objects))) Hlen H0) as (Hset & Hkeep & Hback).
  rewrite new_object_handle in Hset, Hkeep, Hback. pose proof (count_at_least (objects g)).
  assert (count (object_identities g) = count (objects g)) as Hcnt
    by (unfold count; by rewrite (identity_per_object g Ho)).
  pose proof Hl as [Hlu Hlt Hlo].
  split; cbn [with_new_object with_objects identity_locations type_identities object_identities];
    rewrite ?new_object_handle.
  - intros s' l Hl' Hne. destruct (Hback s' l Hl' Hne) as [[-> ->]|Hold].
    + right. exists (count (objects g) + 1), i. split; [lia|]. split; [done|].
      split; [rewrite <- Hcnt; apply at_handle_last|done].
    + destruct (Hlu s' l Hold Hne) as [Htype|(o & j & Hr & -> & Hj & <-)]; [by left|right].
      exists o, j. split; [done|]. split; [done|]. split; [|done].
      eapply at_handle_prefix; [by apply prefix_app_r|done].
  - intros t' j Ht Hj. destruct (Hlt t' j Ht Hj) as (Hf & Hle & Hloc). split; [done|]. split; [done|].
    apply Hkeep; [done|]. by destruct (location_decodes location_type location_type t') as (_ & _ & ?).
  - intros o j Hr Hj. unfold at_handle in Hj. apply lookup_app_Some in Hj as [Hj|[Hge Hj]].
    + destruct (Hlo o j Hr Hj) as (Hf & Hle & Hloc). split; [done|]. split; [done|]. apply Hkeep; [done|].
      by destruct (location_decodes location_object location_object o) as (_ & _ & ?).
    + apply list_lookup_singleton_Some in Hj as [Hz <-]. split; [done|].
      assert (o = count (objects g) + 1) as -> by (rewrite <- Hcnt; unfold count; lia).
      split; [lia|]. by rewrite <- Hs.
Qed.
End NewObject.

(** The arguments that [add_object] accepts. *)
Definition object_acceptable (i : identity_ref) (c : cpp_type) (flags : Z) (initial : construction_value)
  : Prop :=
  identity_fits i kind_object /\ Z.land flags (Z.lnot graph_object_flag_mask) = 0 /\ fits c initial = true /\
  (Z.land flags graph_object_non_default_initializer = 0 -> initial = no_construction) /\
  value_kind initial <> member_binding /\ value_kind initial <> object_binding.

Definition object_stored (g : graph) (o : object_handle) (i : identity_ref) (t : type_ref) (flags : Z)
    (initial : construction_value) : Prop :=
  1 <= o /\ object_identity g o = i /\ construction_of_object g o = Some initial /\
  exists e, find_object_entry g o = Some e /\ object_type e = t /\
    Z.land (state e) graph_object_flag_mask = flags.

Definition add_object_result (i : identity_ref) (t : type_ref) (c : cpp_type) (flags : Z)
    (initial : construction_value) (a : allocations) (g g' : graph) (st : server_status)
    (o : object_handle) : Prop :=
  st = success /\ object_acceptable i c flags initial /\ object_stored g' o i t flags initial \/
  st = io_error /\ g' = g /\ o = 0 /\
    (exhausted a (count (objects g)) maximum_handle \/
     graph_object_construction_slot_mask <= count (object_construction g)) \/
  st = project_configuration_invalid /\ g' = g /\ o = 0 /\
    (~ object_acceptable i c flags initial \/ slot_taken g i).

Lemma store_object_spec g i t c flags initial a :
  objects_ok g -> locations_ok g -> 0 <= flags < 2 ^ 32 -> 0 <= t < 2 ^ 32 -> denotes g t c ->
  object_acceptable i c flags initial ->
  exists st o g', store_object i t flags initial a g = (st, o, g') /\ grows g g' /\ objects_ok g' /\
    locations_ok g' /\
    g' = with_objects (identity_locations g') (objects g') (object_identities g') (object_construction g') g /\
    add_object_result i t c flags initial a g g' st o.
Proof.
  intros Ho Hl Hflags Ht Hc Hacc. pose proof Hacc as (Hfit & Hmask & Hfits & Hplain & _).
  pose proof Hfit as (_ & Hv & _). unfold store_object, add_object_result.
  destruct (Z.eqb_spec (find_object g i) 0) as [Hnone|Hsome]; cbn [negb].
  2: { destruct (proj1 (find_object_spec g i _ Ho Hl Hfit) (conj eq_refl Hsome)) as (Hh & Hco & Hid).
       destruct (contains_object_at g _ Ho Hco Hh) as (e & j & He & Ha & Hj & Hid' & _). rewrite He.
       destruct (objects_initialised g Ho _ _ Hh Ha) as (v & Hval & _). rewrite Hval.
       destruct (negb (object_type e =? t) || _ || _) eqn:Echeck; same_graph g.
       - right; right. do 3 (split; [done|]). right.
         destruct (object_located g Hl _ _ Hh Hj) as (_ & Hle & Hloc).
         assert (j = i) as -> by congruence. eexists. split; [done|].
         by destruct (location_decodes location_object location_object (find_object g i)) as (_ & _ & ?).
       - unbool. left. split; [done|]. split; [done|]. split; [done|]. split; [done|].
         split; [congruence|]. by exists e. }
  destruct (Z.leb_spec maximum_handle (count (objects g))) as [Hfull|Hroom].
  { same_graph g. right; left. do 3 (split; [done|]). left. by right; right. }
  destruct (_ && _) eqn:Evalues; unbool.
  { same_graph g. right; left. do 3 (split; [done|]). by right. }
  destruct (ensure_slot_spec i (locations_allocated a) g Hv) as [[n [-> Hlen]]|[-> Ha]].
  2: { change (succeeded io_error) with false. cbn [negb]. rewrite with_objects_same.
       same_graph g. right; left. do 3 (split; [done|]). left. by left. }
  change (succeeded success) with true. cbn [negb]. rewrite restore_grown, with_objects_same.
  destruct (Z.eqb_spec ((identity_locations g ++ replicate n 0) !!! Z.to_nat (slot i)) 0) as [H0|Htaken]; cbn [negb].
  2: { same_graph g. right; right. do 3 (split; [done|]). right.
       destruct (lookup_lt_is_Some_2 _ _ Hlen) as [l Hlk].
       rewrite (list_lookup_total_correct _ _ _ Hlk) in Htaken. exists l. split; [|done].
       by eapply lookup_grown. }
  destruct (records_allocated a) eqn:Ea; cbn [negb].
  2: { same_graph g. right; left. do 3 (split; [done|]). left. by right; left. }
  assert (negb (Z.land flags graph_object_non_default_initializer =? 0) = true ->
    count (object_construction g) < graph_object_construction_slot_mask) as Hvalues.
  { intros E. rewrite E in Evalues. destruct Evalues as [Hx|Hx]; [discriminate Hx|exact (proj1 (Z.leb_gt _ _) Hx)]. }
  assert (negb (Z.land flags graph_object_non_default_initializer =? 0) = false -> initial = no_construction)
    as Hpl by (intros E; unbool; by apply Hplain).
  assert (initialised g t initial) as Hinit by (split; [done|by exists c]).
  eexists success, _, (with_new_object g i t flags initial n (Z.to_nat (slot i))).
  split; [done|]. split; [by apply new_object_grows|]. split; [by apply new_object_ok|].
  split; [by apply new_object_locations|]. split; [done|]. left. do 2 (split; [done|]).
  change (count (objects g ++ _)) with (count (new_objects g t flags initial)).
  rewrite (new_object_handle g i t flags initial n _ eq_refl Hroom Hlen). pose proof (count_at_least (objects g)).
  split; [lia|]. split; [|split; [by apply new_object_construction|]].
  - unfold object_identity, contains_object. cbn [with_new_object with_objects objects object_identities].
    unfold new_objects. rewrite count_app. change (count [_]) with 1.
    rewrite (proj2 (Z.eqb_neq _ _)), (proj2 (Z.leb_le _ _)) by lia. cbn [negb andb].
    assert (count (objects g) = count (object_identities g)) as -> by (unfold count; by rewrite (identity_per_object g Ho)).
    by rewrite at_handle_last.
  - eexists. split; [by apply new_object_entry|]. split; [done|]. cbn [state].
    destruct (object_state_parts flags (new_slot g flags initial) Hflags Hmask) as (_ & _ & ->); [|done].
    by apply (new_slot_range g i flags initial n _ Ho eq_refl Hlen).
Qed.

Lemma add_object_spec g i t c flags initial a :
  derived_ok g -> objects_ok g -> locations_ok g -> 0 <= i < 2 ^ 32 -> 0 <= flags < 2 ^ 32 ->
  0 <= t < 2 ^ 32 -> denotes g t c ->
  exists st o g', add_object i t flags initial a g = Some (st, o, g') /\ grows g g' /\ objects_ok g' /\
    locations_ok g' /\
    g' = with_objects (identity_locations g') (objects g') (object_identities g') (object_construction g') g /\
    add_object_result i t c flags initial a g g' st o.
Proof.
  intros Hd Ho Hl Hi Hflags Ht Hc. unfold add_object.
  rewrite (denotes_contains _ _ _ Hc), (construction_compatible_spec g t c) by done.
  assert (forall P, ~ object_acceptable i c flags initial ->
    P = Some (project_configuration_invalid, 0, g) ->
    exists st o g', P = Some (st, o, g') /\ grows g g' /\ objects_ok g' /\ locations_ok g' /\
    g' = with_objects (identity_locations g') (objects g') (object_identities g') (object_construction g') g /\
    add_object_result i t c flags initial a g g' st o) as Hbad.
  { intros P Hna ->. same_graph g. right; right. do 3 (split; [done|]). by left. }
  destruct (negb (valid i) || _ || _ || _ || _) eqn:E1.
  { apply Hbad; [|done]. intros ((_ & Hv & Hk) & Hm & Hf & _). unfold fits in Hf.
    apply andb_true_iff in Hf as [[Hvc _]%andb_true_iff _].
    rewrite Hv, Hk, Hm, Hvc, bool_decide_eq_true_2 in E1 by done. discriminate. }
  destruct (negb (fits c initial) || _ || _ || _) eqn:E2.
  { apply Hbad; [|done]. intros (_ & _ & Hf & Hp & Hmb & Hob). rewrite Hf in E2. unfold is_kind in E2.
    rewrite !(bool_decide_eq_false_2 (value_kind initial = _)), !orb_false_r in E2 by done.
    cbn [negb orb] in E2. apply andb_true_iff in E2 as [Hz Hn]. rewrite negb_involutive in Hz.
    apply Z.eqb_eq in Hz. by rewrite bool_decide_eq_true_2 in Hn by by apply Hp. }
  unbool. unfold is_kind in *. unbool.
  assert (object_acceptable i c flags initial) as Hacc.
  { split; [by split; [|split]|]. do 2 (split; [done|]). split; [|done]. intros Hz.
    match goal with Hd : _ \/ _ |- _ => destruct Hd as [Hd|Hd] end; unbool; done. }
  destruct (store_object_spec g i t c flags initial a Ho Hl Hflags Ht Hc Hacc) as (st & o & g' & -> & Hrest).
  by exists st, o, g'.
Qed.

(** ** Definitions *)

Definition good_base (g : graph) (t : type_handle) (b : base_record) : Prop :=
  base_type b <> t /\
  exists e, find_entry g (base_type b) = Some e /\ defined e = true /\ record_kind e <> union_type.

Lemma check_bases_spec g t previous bs p poly :
  check_bases g t previous bs p = Some poly -> NoDup (base_type <$> previous) ->
  NoDup (base_type <$> previous ++ bs) /\ Forall (good_base g t) bs /\ (p = true -> poly = true) /\
  Forall (fun b => forall e, find_entry g (base_type b) = Some e -> entry_polymorphic e = true -> poly = true) bs.
Proof.
  revert previous p. induction bs as [|b bs IH]; intros previous p Hc Hnd.
  { simpl in Hc. simplify_eq. by rewrite app_nil_r. }
  cbn [check_bases] in Hc. destruct (find_entry g (base_type b)) as [e|] eqn:He; [|done].
  destruct (_ || _) eqn:E1; [done|]. destruct (existsb _ _) eqn:E2; [done|]. unbool.
  assert (base_type b ∉ base_type <$> previous) as Hnew.
  { intros Hin. apply list_elem_of_fmap in Hin as (p' & Hp & Hin).
    assert (existsb (fun p => base_type p =? base_type b) previous = true) as Hex; [|congruence].
    apply existsb_exists. exists p'. split; [by apply list_elem_of_In|]. by apply Z.eqb_eq. }
  destruct (IH (previous ++ [b]) (p || entry_polymorphic e) Hc) as (Hnd' & Hgood & Hp & Hpoly).
  { rewrite fmap_app. apply NoDup_app. split; [done|]. split; [|apply NoDup_singleton].
    intros x Hx Hx'. by apply list_elem_of_singleton in Hx' as ->. }
  rewrite <- app_assoc in Hnd'. split; [done|]. split; [|split].
  - constructor; [|done]. split; [done|]. by exists e.
  - intros ->. by apply Hp.
  - constructor; [|done]. intros e' He' Hpe. simplify_eq. apply Hp. by rewrite Hpe, orb_true_r.
Qed.

Definition member_checked (g : graph) (m : member_record) (v : construction_value) : Prop :=
  member_name m <> 0 /\ exists c, denotes g (member_type m) c /\ fits c v = true.

Lemma check_members_spec g definition values i ms :
  derived_ok g ->
  exists b, check_members g definition values i ms = Some b /\
    (b = true -> forall j m, ms !! j = Some m -> member_checked g m (construction_at values (i + j))).
Proof.
  intros Hd. revert i. induction ms as [|m ms IH]; intros i; [by exists true|]. cbn [check_members].
  destruct (member_name m =? 0) eqn:Hn; [by exists false|].
  destruct (contains_ref g (member_type m)) eqn:Hc; [|by exists false].
  destruct (valid_member_access _); [|by exists false]. cbn [negb orb].
  destruct (valid_construction _); [|by exists false]. cbn [negb].
  destruct (denotes_exists g _ Hd Hc) as [c Hden]. rewrite (construction_compatible_spec g _ c) by done.
  destruct (fits c (construction_at values i)) eqn:Hf; [|by exists false].
  destruct (_ && (_ || _)); [by exists false|]. destruct (_ && negb _); [by exists false|].
  destruct (IH (S i)) as (b & Hb & Hall). exists b. split; [done|]. intros -> [|j] m' Hj; simpl in Hj.
  - simplify_eq. rewrite Nat.add_0_r. unbool. split; [done|]. by exists c.
  - rewrite Nat.add_succ_r. by apply (Hall eq_refl j).
Qed.

Lemma grows_with_definitions g ts bs ms vs :
  (forall i e, types g !! i = Some e -> exists e', ts !! i = Some e' /\ (defined e = true -> e' = e)) ->
  base_records g `prefix_of` bs -> member_records g `prefix_of` ms -> member_construction g `prefix_of` vs ->
  grows g (with_definitions ts bs ms vs g).
Proof. intros Ht Hb Hm Hv. split; cbn; try done; eauto. Qed.

Section NewDefinition.
Context (g : graph) (t : type_handle) (k : graph_record_kind) (definition : list member_record)
  (values : list construction_value) (bs : list base_record) (poly : bool) (e : type_entry).

(** What [define_record] appends and sets. *)
Definition added_values : list construction_value :=
  if bool_decide (values = []) then replicate (length definition) no_construction else values.

Definition new_flags : Z :=
  let flags := Z.lor (entry_flags e) graph_type_defined in
  if poly then Z.lor flags graph_type_polymorphic else flags.

Definition new_entry : type_entry :=
  TypeEntry (GraphRange (count (member_records g)) (count definition))
    (GraphRange (count (base_records g)) (count bs)) (entry_kind e) k new_flags.

Definition with_new_definition : graph :=
  with_definitions (<[Z.to_nat (t - 1) := new_entry]> (types g)) (base_records g ++ bs)
    (member_records g ++ definition) (member_construction g ++ added_values) g.

Context (Hr : records_ok g) (Ht : 1 <= t) (Hat : find_entry g t = Some e) (Hund : defined e = false)
  (Hm : count (member_records g) + count definition <= u32_max)
  (Hb : count (base_records g) + count bs <= u32_max)
  (Hvalues : values = [] \/ length values = length definition)
  (Hnd : NoDup (base_type <$> bs)) (Hgood : Forall (good_base g t) bs)
  (Hpoly : Forall (fun b => forall e, find_entry g (base_type b) = Some e ->
     entry_polymorphic e = true -> poly = true) bs)
  (Hchecked : forall j m, definition !! j = Some m -> member_checked g m (construction_at values j))
  (Hranges : Forall (fun m => 0 <= member_type m < 2 ^ 32) definition).

Lemma entry_at : types g !! Z.to_nat (t - 1) = Some e.
Proof using Hat. clear -Hat. unfold find_entry in Hat. by destruct (contains_type g t). Qed.

Lemma new_entry_flags : defined new_entry = true /\ entry_polymorphic new_entry = poly.
Proof using Hr Hat Hund.
  pose proof (entries_plain g Hr _ _ entry_at Hund) as Hf. clear -Hf.
  unfold defined, entry_polymorphic, new_entry, new_flags. cbn [entry_flags]. rewrite Hf. by destruct poly.
Qed.

Lemma length_added_values : length added_values = length definition.
Proof using Hvalues.
  clear -Hvalues. unfold added_values. case_bool_decide as Hv; [by rewrite length_replicate|].
  by destruct Hvalues.
Qed.

Lemma added_value j : (j < length definition)%nat -> added_values !! j = Some (construction_at values j).
Proof using Hvalues.
  clear -Hvalues. intros Hj. unfold added_values, construction_at. case_bool_decide as Hv.
  - rewrite Hv. by apply lookup_replicate_2.
  - destruct Hvalues as [?|Hl]; [done|]. destruct (lookup_lt_is_Some_2 values j) as [v Hlk]; [lia|].
    rewrite Hlk. by destruct values.
Qed.

Lemma new_definition_grows : grows g with_new_definition.
Proof using Hat Hund.
  apply grows_with_definitions; [|by apply prefix_app_r..]. intros i e0 He.
  destruct (decide (i = Z.to_nat (t - 1))) as [->|Hne].
  - rewrite entry_at in He. simplify_eq. eexists. split; [|intros Hdef; congruence].
    apply list_lookup_insert_eq. eapply lookup_lt_Some, entry_at.
  - exists e0. by rewrite list_lookup_insert_ne.
Qed.

Lemma new_bases : range_of (base_records g ++ bs) (entry_bases new_entry) = bs.
Proof using. apply range_of_end. Qed.

Lemma new_entry_ok : entry_ok with_new_definition new_entry.
Proof using Hr Hat Hund Hnd Hgood Hpoly.
  clear Hvalues Hchecked Hranges Hm Hb Ht. pose proof new_definition_grows as Hg. destruct new_entry_flags as [_ Hp].
  split; cbn [with_new_definition with_definitions base_records member_records]; rewrite ?new_bases; try done.
  - rewrite count_app. cbn [new_entry entry_members range_begin range_count].
    pose proof (count_at_least (member_records g)). pose proof (count_at_least definition). lia.
  - rewrite count_app. cbn [new_entry entry_bases range_begin range_count].
    pose proof (count_at_least (base_records g)). pose proof (count_at_least bs). lia.
  - rewrite Forall_forall in Hgood, Hpoly |- *. intros b Hin.
    destruct (Hgood b Hin) as (Hne & e' & He' & Hd' & Hk'). exists e'.
    split; [by apply (find_defined_grows g)|]. do 2 (split; [done|]). split.
    + unfold find_entry in He'. destruct (contains_type g (base_type b)); [|done].
      destruct (bases_range g e' (entries_ok g Hr _ _ He' Hd')) as (_ & _ & Hle). done.
    + intros Hpe. rewrite Hp. by apply (Hpoly b Hin e').
Qed.

Lemma new_entry_apart i e0 :
  types g !! i = Some e0 -> defined e0 = true ->
  ranges_apart (entry_members e0) (entry_members new_entry) /\ ranges_apart (entry_bases e0) (entry_bases new_entry).
Proof using Hr.
  clear -Hr. intros Hi Hd. destruct (entries_ok g Hr i e0 Hi Hd) as [(_ & _ & Hm) (_ & _ & Hb) _ _].
  split; left; cbn; done.
Qed.

Lemma new_definition_ok : records_ok with_new_definition.
Proof.
  pose proof new_definition_grows as Hg. pose proof Hr as [Hi Htb Hc _ _ He Hp Hmi Hap].
  split; cbn [with_new_definition with_definitions types type_identities base_records member_records member_construction].
  - by rewrite length_insert.
  - unfold count. by rewrite length_insert.
  - rewrite !length_app, length_added_values. lia.
  - by rewrite count_app.
  - by rewrite count_app.
  - intros i e0 Hlk Hdef. destruct (decide (i = Z.to_nat (t - 1))) as [->|Hne].
    + rewrite list_lookup_insert_eq in Hlk by (eapply lookup_lt_Some, entry_at). simplify_eq. apply new_entry_ok.
    + rewrite list_lookup_insert_ne in Hlk by done. apply (entry_ok_grows g _ _ Hg). by eapply He.
  - intros i e0 Hlk Hdef. destruct (decide (i = Z.to_nat (t - 1))) as [->|Hne].
    + rewrite list_lookup_insert_eq in Hlk by (eapply lookup_lt_Some, entry_at). simplify_eq.
      destruct new_entry_flags as [Hd _]. congruence.
    + rewrite list_lookup_insert_ne in Hlk by done. by eapply Hp.
  - intros i m v Hlk Hv. apply (initialised_grows g _ _ _ Hg).
    apply lookup_app_Some in Hlk as [Hlk|[Hge Hlk]].
    + rewrite lookup_app_l in Hv by (rewrite Hc; by eapply lookup_lt_Some). by eapply Hmi.
    + rewrite lookup_app_r, Hc in Hv by lia. apply lookup_lt_Some in Hlk as Hlt.
      rewrite added_value in Hv by done. simplify_eq.
      destruct (Hchecked _ _ Hlk) as (_ & c & Hden & Hf). rewrite Forall_lookup in Hranges.
      split; [by eapply Hranges|by exists c].
  - intros i j e1 e2 Hi1 Hi2 Hne Hd1 Hd2.
    apply list_lookup_insert_Some in Hi1 as [(<- & <- & _)|[Hn1 Hi1]], Hi2 as [(<- & <- & _)|[Hn2 Hi2]]; [done|..].
    + destruct (new_entry_apart j e2 Hi2 Hd2). split; by apply ranges_apart_sym.
    + by apply (new_entry_apart i).
    + by apply (Hap i j).
Qed.

Lemma new_definition_entry : find_entry with_new_definition t = Some new_entry.
Proof using Hat.
  clear -Hat. unfold find_entry, contains_type in *. cbn [with_new_definition with_definitions types].
  unfold count in *. rewrite length_insert. destruct (negb _ && _); [|done].
  unfold at_handle in *. apply list_lookup_insert_eq. by eapply lookup_lt_Some.
Qed.

Lemma new_definition_members :
  members with_new_definition t = definition /\ bases with_new_definition t = bs.
Proof using Hr Hat Hund.
  clear Hvalues Hchecked Hranges Hm Hb Ht Hnd Hgood Hpoly. unfold members, bases. rewrite new_definition_entry. destruct new_entry_flags as [-> _].
  cbn [negb orb with_new_definition with_definitions member_records base_records new_entry entry_members entry_bases range_count].
  rewrite !range_of_end. split; destruct (_ =? 0) eqn:Hz; try done;
    apply Z.eqb_eq in Hz; unfold count in Hz; symmetry; apply nil_length_inv; lia.
Qed.
End NewDefinition.

Abbreviation base_key := (fun b => (base_type b, base_access b, base_flags b)).

(** What a defined record is. *)
Definition has_definition (g : graph) (t : type_handle) (k : graph_record_kind)
    (definition : list member_record) (values : list construction_value) (bs : list base_record) : Prop :=
  (exists e, find_entry g t = Some e /\ defined e = true /\ record_kind e = k) /\
  members g t = definition /\ base_key <$> bases g t = base_key <$> bs /\
  forall j, (j < length definition)%nat ->
    construction_of_member g t (Z.of_nat j) = Some (construction_at values j).

Lemma same_definition_spec g t e k definition values bs poly :
  records_ok g -> find_entry g t = Some e -> defined e = true ->
  same_definition g t e k definition values bs poly = true ->
  has_definition g t k definition values bs.
Proof.
  intros Hr He Hd Hs. unfold same_definition in Hs. rewrite !andb_true_iff in Hs.
  destruct Hs as ((((Hk & _) & Hb) & Hm) & Hv). unbool.
  split; [by exists e|]. split; [done|]. split; [done|]. intros j Hj.
  rewrite forallb_forall in Hv. specialize (Hv j ltac:(apply in_seq; lia)).
  assert (find_entry g t = Some e) as He2 by done. unfold find_entry in He2.
  destruct (contains_type g t); [|done].
  destruct (members_range g e (entries_ok g Hr _ _ He2 Hd)) as (H0 & Hc & Hle).
  assert (range_count (entry_members e) = count (members g t)) as Hcnt.
  { unfold members. rewrite He, Hd. cbn [negb orb]. destruct (Z.eqb_spec (range_count (entry_members e)) 0) as [->|]; [done|].
    symmetry. by apply length_range_of. }
  pose proof (members_bound g Hr) as Hmb. rewrite Hm in Hcnt. unfold count in Hcnt.
  unfold construction_of_member. rewrite He, Hd. unfold member_valid, no_member.
  rewrite (proj2 (Z.eqb_neq _ _)), (proj2 (Z.leb_gt _ _)) by (unfold u32_max in *; lia). cbn [negb orb].
  replace (Z.to_nat (range_begin (entry_members e) + Z.of_nat j))
    with (Z.to_nat (range_begin (entry_members e)) + j)%nat by lia.
  destruct (member_construction g !! _) as [v|]; [|done]. unbool. by subst v.
Qed.

Lemma new_has_definition g t k definition values bs poly e :
  records_ok g -> 1 <= t -> find_entry g t = Some e -> defined e = false ->
  count (member_records g) + count definition <= u32_max ->
  (values = [] \/ length values = length definition) ->
  has_definition (with_new_definition g t k definition values bs poly e) t k definition values bs.
Proof.
  intros Hr Ht He Hund Hm Hv. destruct (new_entry_flags g t k definition bs poly e Hr He Hund) as [Hd _].
  split; [eexists; split; [by apply new_definition_entry|by split]|].
  destruct (new_definition_members g t k definition values bs poly e) as [-> ->]; [done..|].
  split; [done|]. split; [done|]. intros j Hj. unfold construction_of_member.
  rewrite new_definition_entry, Hd by done. unfold member_valid, no_member.
  pose proof (count_at_least (member_records g)) as Hnn. unfold count in Hm, Hnn.
  cbn [new_entry entry_members range_begin range_count]. unfold count.
  rewrite (proj2 (Z.eqb_neq _ _)), (proj2 (Z.leb_gt _ _)) by (unfold u32_max in *; lia). cbn [negb orb].
  cbn [with_new_definition with_definitions member_construction].
  rewrite lookup_app_r by (rewrite (construction_per_member g Hr); lia).
  rewrite (construction_per_member g Hr).
  replace (Z.to_nat (Z.of_nat (length (member_records g)) + Z.of_nat j) - length (member_records g))%nat with j by lia.
  by apply added_value.
Qed.

Definition define_result (t : type_handle) (k : graph_record_kind) (definition : list member_record)
    (values : list construction_value) (bs : list base_record) (allocated : bool) (g g' : graph)
    (st : server_status) : Prop :=
  st = success /\ has_definition g' t k definition values bs \/
  st = io_error /\ g' = g /\
    (allocated = false \/ u32_max < count (member_records g) + count definition \/
     u32_max < count (base_records g) + count bs) \/
  st = project_configuration_invalid /\ g' = g.

Ltac same_records g := eexists _, g; do 3 (split; [done|]); split; [by destruct g|].

Lemma define_spec g t k definition values bs declares_virtual allocated :
  derived_ok g -> records_ok g -> 0 <= t -> Forall (fun m => 0 <= member_type m < 2 ^ 32) definition ->
  exists st g', define_record t k definition values bs declares_virtual allocated g = Some (st, g') /\
    grows g g' /\ records_ok g' /\
    g' = with_definitions (types g') (base_records g') (member_records g') (member_construction g') g /\
    define_result t k definition values bs allocated g g' st.
Proof.
  intros Hd Hr Ht Hranges. unfold define_record, define_result.
  destruct (find_entry g t) as [e|] eqn:He; [|same_records g; by right; right].
  match goal with |- context [if ?b then Some (project_configuration_invalid, g) else _] => destruct b eqn:E1 end;
    [same_records g; by right; right|].
  destruct (check_bases g t [] bs declares_virtual) as [poly|] eqn:Eb; [|same_records g; by right; right].
  destruct (check_members_spec g definition values 0 definition Hd) as (b & -> & Hchecked).
  destruct b; [|same_records g; by right; right].
  destruct (defined e) eqn:Hdef.
  { destruct (same_definition _ _ _ _ _ _ _ _) eqn:Es; [|same_records g; by right; right].
    same_records g. left. split; [done|]. by eapply same_definition_spec. }
  pose proof (count_at_least definition). pose proof (count_at_least bs).
  pose proof (count_at_least (member_records g)). pose proof (count_at_least (base_records g)).
  match goal with |- context [if ?b then Some (io_error, g) else _] => destruct b eqn:E2 end.
  { same_records g. right; left. split; [done|]. split; [done|]. right.
    pose proof (members_bound g Hr). pose proof (bases_bound g Hr).
    rewrite !orb_true_iff, !Z.ltb_lt in E2. lia. }
  rewrite !orb_false_iff, !Z.ltb_ge in E2. destruct allocated; cbn [negb].
  2: { rewrite <- (construction_per_member g Hr), resize_all. replace (with_definitions _ _ _ _ g) with g by by destruct g.
       same_records g. right; left. by auto. }
  assert (values = [] \/ length values = length definition) as Hv.
  { rewrite !orb_false_iff, andb_false_iff in E1. destruct E1 as [[_ [Hv|Hv]] _]; unbool; [by left|right].
    unfold count in Hv. lia. }
  assert (1 <= t) as Ht1.
  { unfold find_entry, contains_type in He. destruct (Z.eqb_spec t 0); [done|lia]. }
  destruct (check_bases_spec g t [] bs _ _ Eb) as (Hnd & Hgood & _ & Hpoly); [by apply NoDup_nil_2|].
  specialize (Hchecked eq_refl). unfold u32_max in *.
  eexists success, (with_new_definition g t k definition values bs poly e). split.
  { unfold u32. rewrite !(Z.mod_small _ (2 ^ 32)) by lia. do 2 f_equal.
    unfold with_new_definition. f_equal. unfold added_values. case_bool_decide as Hvs; [|done].
    rewrite length_app, resize_ge by (rewrite (construction_per_member g Hr); lia).
    rewrite (construction_per_member g Hr). do 2 f_equal. lia. }
  split; [by apply new_definition_grows|]. split; [by apply new_definition_ok; try (unfold u32_max; lia)|].
  split; [done|]. left. split; [done|]. apply new_has_definition; try done. unfold u32_max. lia.
Qed.
