(* ===== verification/GraphLinks.v ===== *)
(** The endpoint paths and links of the semantic graph (project/graph/graph.cpp:
    [resolve_endpoint_path], [intern_endpoint_path], [endpoint_type], [add_link] and
    their indexes).  A path is interned once and leads from its root type to its value
    type; a target endpoint is bound by one link, to a source of the type it refers
    to. *)

From S2P Require Import Prelude ServerStatus HashIndex DenseIndex Identity GraphData GraphGrowth GraphTypes GraphRecords.

Local Open Scope Z_scope.

(** ** Resolving a path *)

(** The loops through the qualifiers of a type.  [None] is a loop that does not end. *)
Fixpoint strip_cv (fuel : nat) (g : graph) (r : type_ref) : option type_ref :=
  match fuel with
  | O => None
  | S fuel =>
      match derived g r with
      | Some d => if is_qualified (derived_kind d) then strip_cv fuel g (child d) else Some r
      | None => Some r
      end
  end.

(** The switch over the kind of a step; [None] is the return of [false]. *)
Definition resolve_step (g : graph) (s : endpoint_path_step) (current : type_ref) : option type_ref :=
  match step_kind s with
  | step_member =>
      if u32_max <? step_value s then None
      else
        match as_named g current with
        | None => None
        | Some record =>
            match find_entry g record with
            | None => None
            | Some e =>
                if negb (defined e) || (range_count (entry_members e) <=? step_value s) then None
                else member_type <$>
                  member_records g !! Z.to_nat (range_begin (entry_members e) + step_value s)
            end
        end
  | step_array_index =>
      match derived g current with
      | None => None
      | Some d =>
          if negb (bool_decide (derived_kind d = bounded_array)) || (derived_payload d <=? step_value s)
          then None else Some (child d)
      end
  end.

Fixpoint resolve_steps (g : graph) (current : type_ref) (steps : list endpoint_path_step)
  : option (option type_ref) :=
  match steps with
  | [] => Some (Some current)
  | s :: steps =>
      if existsb (fun b => negb (bool_decide (b = x00))) (step_reserved s) then Some None
      else
        match strip_cv (type_fuel g) g current with
        | None => None
        | Some current =>
            match resolve_step g s current with
            | None => Some None
            | Some current => resolve_steps g current steps
            end
        end
  end.

Definition resolve_endpoint_path (g : graph) (root : type_ref) (steps : list endpoint_path_step)
  : option (option type_ref) :=
  if negb (contains_ref g root) || bool_decide (steps = []) then Some None
  else
    match resolve_steps g root steps with
    | Some (Some output) => Some (if contains_ref g output then Some output else None)
    | other => other
    end.

(** ** Interning a path *)

(** What identifies a path. *)
Abbreviation path_key := (type_ref * list endpoint_path_step)%type.

Definition hash_endpoint_path (key : path_key) : Z :=
  let hash := fold_left (fun hash s => mix (mix hash (step_kind_number (step_kind s))) (step_value s))
    key.2 (mix hash_seed key.1) in
  if hash =? 0 then 1 else hash.

Definition vacant_path : endpoint_path_index_slot := PathSlot 0 0.
Definition path_occupied (s : endpoint_path_index_slot) : bool := path_valid (slot_path s).

Definition key_of_path (steps : list endpoint_path_step) (r : endpoint_path_record) : path_key :=
  (root_type r, range_of steps (path_steps r)).

Definition path_matches (g : graph) (root : type_ref) (steps : list endpoint_path_step) (expected : Z)
    (s : endpoint_path_index_slot) : bool :=
  (path_fingerprint s =? expected) && (slot_path s <=? count (endpoint_paths g)) &&
  match at_handle (endpoint_paths g) (slot_path s) with
  | Some r =>
      (root_type r =? root) && (range_count (path_steps r) =? count steps) &&
      (range_begin (path_steps r) <=? count (endpoint_path_step_values g)) &&
      (range_count (path_steps r) <=?
         count (endpoint_path_step_values g) - range_begin (path_steps r)) &&
      bool_decide (range_of (endpoint_path_step_values g) (path_steps r) = steps)
  | None => false
  end.

Definition find_endpoint_path (g : graph) (root : type_ref) (steps : list endpoint_path_step)
    (hash expected : Z) : endpoint_path_handle :=
  match find_slot vacant_path path_occupied (endpoint_path_index g) hash
          (path_matches g root steps expected) with
  | Some s => slot_path s
  | None => 0
  end.

(** The slot of the path at position [i]. *)
Definition path_slot_of (i : nat) (key : path_key) : endpoint_path_index_slot :=
  PathSlot (fingerprint (hash_endpoint_path key)) (u32 (Z.of_nat i + 1)).

Definition insert_endpoint_path_index (T : list endpoint_path_index_slot) (p : endpoint_path_handle)
    (hash : Z) : option (list endpoint_path_index_slot) :=
  insert_hashed vacant_path path_occupied T hash (PathSlot (fingerprint hash) p).

Definition path_keys (g : graph) : list path_key :=
  key_of_path (endpoint_path_step_values g) <$> endpoint_paths g.

Definition ensure_endpoint_path_index_capacity (additional : Z) (allocated : bool) (g : graph)
  : option (server_status * list endpoint_path_index_slot) :=
  ensure_capacity vacant_path (count (endpoint_paths g)) additional allocated
    (insert_keys vacant_path path_occupied hash_endpoint_path path_slot_of 0 (path_keys g))
    (endpoint_path_index g).

(** The path and the value type; 0 and 0 without one. *)
Definition intern_endpoint_path (root : type_ref) (steps : list endpoint_path_step)
    (a : derive_allocation) (g : graph)
  : option (server_status * (endpoint_path_handle * type_ref) * graph) :=
  match resolve_endpoint_path g root steps with
  | None => None
  | Some None => Some (project_configuration_invalid, (0, 0), g)
  | Some (Some resolved) =>
      let hash := hash_endpoint_path (root, steps) in
      let existing := find_endpoint_path g root steps hash (fingerprint hash) in
      if path_valid existing then
        Some (success,
          (existing, default 0 (value_type <$> at_handle (endpoint_paths g) existing)), g)
      else if (maximum_handle <=? count (endpoint_paths g)) || (u32_max <? count steps) ||
              (u32_max - count steps <? count (endpoint_path_step_values g))
      then Some (io_error, (0, 0), g)
      else
        match ensure_endpoint_path_index_capacity 1 (table_allocated a) g with
        | None => None
        | Some (prepared, index) =>
            let g := with_paths (endpoint_paths g) (endpoint_path_step_values g) index g in
            if negb (succeeded prepared) then Some (prepared, (0, 0), g)
            else if negb (record_allocated a) then Some (io_error, (0, 0), g)
            else
              let record := EndpointPathRecord
                (GraphRange (u32 (count (endpoint_path_step_values g))) (u32 (count steps))) root resolved in
              let paths := endpoint_paths g ++ [record] in
              let output := u32 (count paths) in
              match insert_endpoint_path_index index output hash with
              | None => None
              | Some index =>
                  Some (success, (output, resolved),
                    with_paths paths (endpoint_path_step_values g ++ steps) index g)
              end
        end
  end.

(** ** Links *)

Definition link_target_key (target : object_endpoint) : Z :=
  if (endpoint_object target =? 0) || negb (endpoint_valid (endpoint_member target)) then 0
  else Z.lor (u64 (Z.shiftl (endpoint_object target) 32)) (u64 (endpoint_member target + 1)).

Definition vacant_link : link_target_index_slot := LinkSlot 0 0.
Definition link_occupied (s : link_target_index_slot) : bool := negb (link_key s =? 0).

Definition insert_link_target_index (T : list link_target_index_slot) (key : Z) (l : link_handle)
  : option (list link_target_index_slot) :=
  insert_hashed vacant_link link_occupied T (mix64 key) (LinkSlot key l).

(** The rehash loop, over the old table. *)
Fixpoint move_links (old T : list link_target_index_slot) : option (list link_target_index_slot) :=
  match old with
  | [] => Some T
  | s :: old =>
      if link_key s =? 0 then move_links old T
      else
        match insert_link_target_index T (link_key s) (slot_link s) with
        | Some T => move_links old T
        | None => None
        end
  end.

Definition ensure_link_target_index_capacity (additional : Z) (allocated : bool) (g : graph)
  : option (server_status * list link_target_index_slot) :=
  ensure_capacity vacant_link (link_target_index_count g) additional allocated
    (move_links (link_target_index g)) (link_target_index g).

Definition find_link_target (g : graph) (target : object_endpoint) : link_handle :=
  let key := link_target_key target in
  if key =? 0 then 0
  else
    match find_slot vacant_link link_occupied (link_target_index g) (mix64 key)
            (fun s => link_key s =? key) with
    | Some s => slot_link s
    | None => 0
    end.

(** [Some None] is the return of [false]. *)
Definition endpoint_type (g : graph) (e : object_endpoint) : option (option type_ref) :=
  match find_object_entry g (endpoint_object e) with
  | None => Some None
  | Some o =>
      if negb (endpoint_valid (endpoint_member e)) then Some None
      else if is_path (endpoint_member e) then
        match endpoint_path g (path (endpoint_member e)) with
        | None => Some None
        | Some p =>
            if negb (root_type p =? object_type o) then Some None
            else Some (if contains_ref g (value_type p) then Some (value_type p) else None)
        end
      else
        let m := direct_member (endpoint_member e) in
        if negb (member_valid m) then Some None
        else
          match strip_cv (type_fuel g) g (object_type o) with
          | None => None
          | Some t =>
              match as_named g t with
              | None => Some None
              | Some record =>
                  match member g record m with
                  | None => Some None
                  | Some value =>
                      Some (if ref_valid (member_type value) then Some (member_type value) else None)
                  end
              end
          end
  end.

Definition add_link (source target : object_endpoint) (a : derive_allocation) (g : graph)
  : option (server_status * link_handle * graph) :=
  match endpoint_type g source, endpoint_type g target with
  | None, _ => None
  | Some None, _ => Some (project_configuration_invalid, 0, g)
  | Some (Some _), None => None
  | Some (Some _), Some None => Some (project_configuration_invalid, 0, g)
  | Some (Some source_type), Some (Some target_type) =>
      if negb (reference_binding_compatible g target_type source_type)
      then Some (project_configuration_invalid, 0, g)
      else
        let existing := find_link_target g target in
        if negb (existing =? 0) then
          match find_link g existing with
          | Some l =>
              if negb (bool_decide (link_target l = target)) || negb (bool_decide (link_source l = source))
              then Some (project_configuration_invalid, 0, g)
              else Some (success, existing, g)
          | None => Some (project_configuration_invalid, 0, g)
          end
        else if maximum_handle <=? count (links g) then Some (io_error, 0, g)
        else
          match ensure_link_target_index_capacity 1 (table_allocated a) g with
          | None => None
          | Some (prepared, index) =>
              let g := with_links (links g) index (link_target_index_count g) g in
              if negb (succeeded prepared) then Some (prepared, 0, g)
              else if negb (record_allocated a) then Some (io_error, 0, g)
              else
                let ls := links g ++ [LinkRecord source target] in
                let output := u32 (count ls) in
                let key := link_target_key target in
                if key =? 0 then Some (project_configuration_invalid, 0, g)
                else
                  match insert_link_target_index index key output with
                  | None => None
                  | Some index =>
                      Some (success, output, with_links ls index (link_target_index_count g + 1) g)
                  end
          end
  end.

(** ** What a path means *)

(** One step from a type: to a member of its record, or to an element of its array. *)
Definition step_leads (g : graph) (s : endpoint_path_step) (c c' : cpp_type) : Prop :=
  match step_kind s, without_qualifiers c with
  | step_member, T_record t =>
      exists m, members g t !! Z.to_nat (step_value s) = Some m /\ denotes g (member_type m) c'
  | step_array_index, T_derived bounded_array n element => step_value s < n /\ c' = element
  | _, _ => False
  end.

Inductive path_leads (g : graph) : cpp_type -> list endpoint_path_step -> cpp_type -> Prop :=
| path_ends c : path_leads g c [] c
| path_steps_on c s c1 steps c' :
    Forall (fun b => b = x00) (step_reserved s) -> step_leads g s c c1 -> path_leads g c1 steps c' ->
    path_leads g c (s :: steps) c'.

(** ** Stripping qualifiers *)

Lemma strip_spec g r c fuel :
  derived_ok g -> denotes g r c -> rank r < Z.of_nat fuel -> 0 <= r < 2 ^ 32 ->
  exists r', strip_cv fuel g r = Some r' /\ denotes g r' (without_qualifiers c) /\ 0 <= r' < 2 ^ 32.
Proof.
  intros Hok H. revert fuel. induction H as [r t H|r t H|r d c H Hc IH]; intros fuel Hf Hr;
    (destruct fuel as [|fuel]; [unfold rank in Hf; case_bool_decide; pose proof (payload_range r); lia|]);
    cbn [strip_cv].
  - exists r. apply as_intrinsic_spec in H as Hs. destruct Hs as (_ & Hk & _).
    unfold derived. rewrite (bool_decide_eq_false_2 (ref_kind r = _)), orb_true_r by congruence.
    split; [done|]. split; [by apply denotes_intrinsic|done].
  - exists r. apply as_named_spec in H as Hs. destruct Hs as (_ & Hk & _).
    unfold derived. rewrite (bool_decide_eq_false_2 (ref_kind r = _)), orb_true_r by congruence.
    split; [done|]. split; [by apply denotes_named|done].
  - rewrite H. destruct (child_rank g r d Hok H) as (Hrk & Hcr & _). cbn [without_qualifiers].
    destruct (is_qualified (derived_kind d)); [by apply IH; [lia|]|].
    exists r. split; [done|]. split; [by apply denotes_derived|done].
Qed.

Lemma without_qualifiers_idem c : without_qualifiers (without_qualifiers c) = without_qualifiers c.
Proof. induction c as [| |k n c IH]; try done. simpl. destruct (is_qualified k) eqn:E; [done|]. simpl. by rewrite E. Qed.

Lemma strip_grows g g' r c r' :
  derived_ok g -> derived_ok g' -> grows g g' -> denotes g r c -> 0 <= r < 2 ^ 32 ->
  strip_cv (type_fuel g) g r = Some r' -> strip_cv (type_fuel g') g' r = Some r'.
Proof.
  intros Hok Hok' Hg Hc Hr Hs.
  destruct (strip_spec g r c (type_fuel g)) as (r1 & H1 & Hd1 & Hr1); try done.
  { apply rank_fuel; [done|by eapply denotes_contains]. }
  assert (r1 = r') as -> by congruence. pose proof (denotes_grows g g' r c Hg Hc) as Hc'.
  destruct (strip_spec g' r c (type_fuel g')) as (r2 & -> & Hd2 & Hr2); try done.
  { apply rank_fuel; [done|by eapply denotes_contains]. }
  f_equal. by apply (denotes_injective g' r2 r' (without_qualifiers c) Hok'); try done; apply (denotes_grows g g').
Qed.

(** ** Members *)

Lemma lookup_slice {A} (l : list A) a b i : (i < b - a)%nat -> slice a b l !! i = l !! (a + i)%nat.
Proof. intros Hi. unfold slice. rewrite lookup_take_lt by done. apply lookup_drop. Qed.

Lemma members_lookup g t e v :
  records_ok g -> find_entry g t = Some e -> defined e = true ->
  0 <= v < range_count (entry_members e) ->
  members g t !! Z.to_nat v = member_records g !! Z.to_nat (range_begin (entry_members e) + v).
Proof.
  intros Hr He Hd Hv. pose proof He as He2. unfold find_entry in He2.
  destruct (contains_type g t); [|done].
  destruct (members_range g e (entries_ok g Hr _ _ He2 Hd)) as (H0 & Hc & Hle).
  unfold members. rewrite He, Hd, (proj2 (Z.eqb_neq _ 0)) by lia. cbn [negb orb]. unfold range_of.
  rewrite !(proj2 (Z.ltb_ge _ _)) by lia. cbn [orb]. rewrite lookup_slice by lia. f_equal. lia.
Qed.

Lemma members_count g t e :
  records_ok g -> find_entry g t = Some e -> defined e = true ->
  count (members g t) = range_count (entry_members e).
Proof.
  intros Hr He Hd. pose proof He as He2. unfold find_entry in He2. destruct (contains_type g t); [|done].
  destruct (members_range g e (entries_ok g Hr _ _ He2 Hd)) as (H0 & Hc & Hle).
  unfold members. rewrite He, Hd. cbn [negb orb].
  destruct (Z.eqb_spec (range_count (entry_members e)) 0) as [->|]; [done|]. by apply length_range_of.
Qed.

Lemma members_defined g t m i : members g t !! i = Some m -> exists e, find_entry g t = Some e /\ defined e = true.
Proof.
  unfold members. destruct (find_entry g t) as [e|]; [|done]. destruct (defined e) eqn:Hd; [|done].
  intros _. by exists e.
Qed.

Lemma members_grows g g' t :
  records_ok g -> grows g g' -> members g t <> [] -> members g' t = members g t.
Proof.
  intros Hr Hg Hne. destruct (members g t) as [|m ms] eqn:Em; [done|]. rewrite <- Em.
  destruct (members_defined g t m 0) as (e & He & Hd); [by rewrite Em|].
  pose proof He as He2. unfold find_entry in He2. destruct (contains_type g t); [|done].
  destruct (members_range g e (entries_ok g Hr _ _ He2 Hd)) as (H0 & Hc & Hle).
  unfold members. rewrite He, (find_defined_grows g g' Hg t e He Hd), Hd. cbn [negb orb].
  destruct (_ =? 0); [done|]. apply range_of_prefix; [apply Hg|lia..].
Qed.

Lemma members_lookup_grows g g' t i m :
  records_ok g -> grows g g' -> members g t !! i = Some m -> members g' t !! i = Some m.
Proof. intros Hr Hg Hm. rewrite (members_grows g g'); [done..|]. intros E. by rewrite E in Hm. Qed.

(** The type of a stored member. *)
Lemma member_denotes g i m :
  records_ok g -> member_records g !! i = Some m ->
  0 <= member_type m < 2 ^ 32 /\ exists c, denotes g (member_type m) c.
Proof.
  intros Hr Hm. destruct (lookup_lt_is_Some_2 (member_construction g) i) as [v Hv].
  { rewrite (construction_per_member g Hr). by eapply lookup_lt_Some. }
  destruct (members_initialised g Hr i m v Hm Hv) as (Hrange & c & Hc & _). split; [done|by exists c].
Qed.

(** ** Soundness and stability of resolving *)

Lemma resolve_step_spec g s r c r' :
  derived_ok g -> records_ok g -> 0 <= step_value s -> denotes g r c -> without_qualifiers c = c ->
  resolve_step g s r = Some r' ->
  0 <= r' < 2 ^ 32 /\ exists c', denotes g r' c' /\ step_leads g s c c'.
Proof.
  intros Hd Hr Hs Hc Hw. unfold resolve_step, step_leads. rewrite Hw. destruct (step_kind s).
  - destruct (_ <? _); [done|]. destruct (as_named g r) as [t|] eqn:Ht; [|done].
    destruct (find_entry g t) as [e|] eqn:He; [|done]. destruct (defined e) eqn:Hdef; [|done]. cbn [negb orb].
    destruct (Z.leb_spec (range_count (entry_members e)) (step_value s)); [done|].
    destruct (member_records g !! _) as [m|] eqn:Hm; [|done]. intros [= <-].
    destruct (member_denotes g _ m Hr Hm) as (Hrange & c' & Hc'). split; [done|]. exists c'. split; [done|].
    assert (c = T_record t) as -> by (eapply denotes_functional; [done|by apply denotes_named]).
    exists m. rewrite (members_lookup g t e) by done. done.
  - destruct (derived g r) as [d|] eqn:Hder; [|done]. case_bool_decide as Hk; [|done]. cbn [negb orb].
    destruct (Z.leb_spec (derived_payload d) (step_value s)); [done|]. intros [= <-].
    destruct (child_rank g r d Hd Hder) as (_ & Hrange & Hcc). split; [done|].
    destruct (denotes_exists g _ Hd Hcc) as [c' Hc']. exists c'. split; [done|].
    assert (c = T_derived (derived_kind d) (derived_payload d) c') as ->
      by (eapply denotes_functional; [done|by apply denotes_derived]).
    by rewrite Hk.
Qed.

Lemma resolve_step_grows g g' s r r' :
  grows g g' -> resolve_step g s r = Some r' -> resolve_step g' s r = Some r'.
Proof.
  intros Hg. unfold resolve_step. destruct (step_kind s).
  - destruct (_ <? _); [done|]. destruct (as_named g r) as [t|] eqn:Ht; [|done].
    rewrite (as_named_grows g g' Hg r t Ht). destruct (find_entry g t) as [e|] eqn:He; [|done].
    destruct (defined e) eqn:Hdef; [|done]. rewrite (find_defined_grows g g' Hg t e He Hdef), Hdef.
    destruct (negb true || _); [done|]. destruct (member_records g !! _) as [m|] eqn:Hm; [|done].
    destruct (grows_member_records _ _ Hg) as [k ->]. by rewrite (lookup_app_l_Some _ _ _ _ Hm).
  - destruct (derived g r) as [d|] eqn:Hd; [|done]. by rewrite (derived_grows g g' Hg r d Hd).
Qed.

Lemma resolve_steps_spec g r c steps :
  derived_ok g -> records_ok g -> Forall (fun s => 0 <= step_value s) steps ->
  denotes g r c -> 0 <= r < 2 ^ 32 ->
  exists o, resolve_steps g r steps = Some o /\
    forall r', o = Some r' -> 0 <= r' < 2 ^ 32 /\ exists c', denotes g r' c' /\ path_leads g c steps c'.
Proof.
  intros Hd Hr Hs. revert r c. induction Hs as [|s steps Hs _ IH]; intros r c Hc Hrange; cbn [resolve_steps].
  { exists (Some r). split; [done|]. intros r' [= <-]. split; [done|]. exists c. split; [done|constructor]. }
  destruct (existsb _ _) eqn:Ez; [by exists None|].
  destruct (strip_spec g r c (type_fuel g)) as (r1 & -> & Hc1 & Hr1); try done.
  { apply rank_fuel; [done|by eapply denotes_contains]. }
  destruct (resolve_step g s r1) as [r2|] eqn:Hstep; [|by exists None].
  destruct (resolve_step_spec g s r1 _ r2 Hd Hr Hs Hc1 (without_qualifiers_idem c) Hstep) as (Hr2 & c2 & Hc2 & Hl).
  destruct (IH r2 c2 Hc2 Hr2) as (o & -> & Ho). exists o. split; [done|]. intros r' ->.
  destruct (Ho r' eq_refl) as (Hr' & c' & Hc' & Hp). split; [done|]. exists c'. split; [done|].
  apply path_steps_on with c2; [|by unfold step_leads in *; rewrite without_qualifiers_idem in Hl|done].
  apply Forall_forall. intros b Hb. destruct (decide (b = x00)) as [|Hne]; [done|]. exfalso.
  assert (existsb (fun b => negb (bool_decide (b = x00))) (step_reserved s) = true) as Hex; [|congruence].
  apply existsb_exists. exists b. split; [by apply list_elem_of_In|]. by rewrite bool_decide_eq_false_2.
Qed.

Lemma resolve_steps_grows g g' r c steps r' :
  derived_ok g -> derived_ok g' -> records_ok g -> grows g g' ->
  Forall (fun s => 0 <= step_value s) steps -> denotes g r c -> 0 <= r < 2 ^ 32 ->
  resolve_steps g r steps = Some (Some r') -> resolve_steps g' r steps = Some (Some r').
Proof.
  intros Hd Hd' Hr Hg Hs. revert r c. induction Hs as [|s steps Hs _ IH]; intros r c Hc Hrange; [done|].
  cbn [resolve_steps]. destruct (existsb _ _); [done|].
  destruct (strip_spec g r c (type_fuel g)) as (r1 & Hst & Hc1 & Hr1); try done.
  { apply rank_fuel; [done|by eapply denotes_contains]. }
  rewrite Hst, (strip_grows g g' r c r1) by done.
  destruct (resolve_step g s r1) as [r2|] eqn:Hstep; [|done].
  rewrite (resolve_step_grows g g' s r1 r2 Hg Hstep).
  destruct (resolve_step_spec g s r1 _ r2 Hd Hr Hs Hc1 (without_qualifiers_idem c) Hstep) as (Hr2 & c2 & Hc2 & _).
  by apply IH with c2.
Qed.

Lemma resolve_path_grows g g' r steps r' :
  derived_ok g -> derived_ok g' -> records_ok g -> grows g g' ->
  Forall (fun s => 0 <= step_value s) steps -> 0 <= r < 2 ^ 32 ->
  resolve_endpoint_path g r steps = Some (Some r') -> resolve_endpoint_path g' r steps = Some (Some r').
Proof.
  intros Hd Hd' Hr Hg Hs Hrange. unfold resolve_endpoint_path.
  destruct (contains_ref g r) eqn:Hc; [|done]. rewrite (contains_ref_grows g g' Hg r Hc).
  destruct (bool_decide (steps = [])); [done|]. cbn [negb orb].
  destruct (denotes_exists g r Hd Hc) as [c Hden].
  destruct (resolve_steps g r steps) as [[o|]|] eqn:Hres; [|done..].
  rewrite (resolve_steps_grows g g' r c steps o) by done.
  destruct (contains_ref g o) eqn:Ho; [|done]. by rewrite (contains_ref_grows g g' Hg o Ho).
Qed.

(** Resolving always returns, and what it returns is the type at the end of the path. *)
Lemma resolve_path_spec g r c steps :
  derived_ok g -> records_ok g -> Forall (fun s => 0 <= step_value s) steps ->
  denotes g r c -> 0 <= r < 2 ^ 32 ->
  exists o, resolve_endpoint_path g r steps = Some o /\
    forall r', o = Some r' -> 0 <= r' < 2 ^ 32 /\ contains_ref g r' = true /\ steps <> [] /\
      exists c', denotes g r' c' /\ path_leads g c steps c'.
Proof.
  intros Hd Hr Hs Hc Hrange. unfold resolve_endpoint_path. rewrite (denotes_contains _ _ _ Hc).
  case_bool_decide as Hne; [by exists None|]. cbn [negb orb].
  destruct (resolve_steps_spec g r c steps Hd Hr Hs Hc Hrange) as ([o|] & -> & Ho); [|by exists None].
  destruct (Ho o eq_refl) as (Hro & c' & Hc' & Hp). rewrite (denotes_contains _ _ _ Hc').
  exists (Some o). split; [done|]. intros r' [= <-]. split; [done|]. split; [by eapply denotes_contains|].
  split; [done|]. by exists c'.
Qed.

(** ** The invariant of the paths *)

Definition path_limit : nat := Z.to_nat maximum_handle.
Definition path_index_of (s : endpoint_path_index_slot) : nat := Z.to_nat (slot_path s - 1).

Abbreviation path_dense := (dense_ok vacant_path path_occupied hash_endpoint_path path_slot_of
  (fun _ => True) path_index_of path_limit).

(** A record of the array: its steps lead from its root type to its value type. *)
Record path_ok (g : graph) (r : endpoint_path_record) : Prop := PathOk {
  path_range : 0 <= range_begin (path_steps r) /\ 0 <= range_count (path_steps r) /\
    range_begin (path_steps r) + range_count (path_steps r) <= count (endpoint_path_step_values g);
  path_root : 0 <= root_type r < 2 ^ 32 /\ contains_ref g (root_type r) = true;
  path_values : Forall (fun s => 0 <= step_value s) (range_of (endpoint_path_step_values g) (path_steps r));
  path_resolved : resolve_endpoint_path g (root_type r)
    (range_of (endpoint_path_step_values g) (path_steps r)) = Some (Some (value_type r))
}.

Record paths_ok (g : graph) : Prop := PathsOk {
  path_indexed : path_dense (path_keys g) (endpoint_path_index g);
  path_steps_bound : count (endpoint_path_step_values g) <= u32_max;
  paths_resolved : forall i r, endpoint_paths g !! i = Some r -> path_ok g r
}.

Lemma path_limit_spec i : (i < path_limit)%nat -> 1 <= Z.of_nat i + 1 <= maximum_handle.
Proof. unfold path_limit. lia. Qed.

Lemma path_slot_parts i k :
  (i < path_limit)%nat ->
  slot_path (path_slot_of i k) = Z.of_nat i + 1 /\ path_occupied (path_slot_of i k) = true /\
  path_index_of (path_slot_of i k) = i.
Proof.
  intros Hi. pose proof (path_limit_spec i Hi) as Hb. unfold path_slot_of, path_occupied, path_index_of.
  cbn [slot_path]. assert (u32 (Z.of_nat i + 1) = Z.of_nat i + 1) as ->.
  { apply Z.mod_small. change maximum_handle with (2 ^ 30 - 1) in Hb. lia. }
  split; [done|]. split; [|lia]. unfold path_valid.
  by rewrite (proj2 (Z.eqb_neq _ 0)), (proj2 (Z.leb_le _ _)) by lia.
Qed.

Lemma path_slot_busy i k : (i < path_limit)%nat -> True -> path_occupied (path_slot_of i k) = true.
Proof. intros Hi _. by apply path_slot_parts. Qed.

Lemma path_slot_index i k : (i < path_limit)%nat -> path_index_of (path_slot_of i k) = i.
Proof. intros Hi. by apply path_slot_parts. Qed.

Lemma path_limit_small : Z.of_nat path_limit <= 2 ^ 32.
Proof. unfold path_limit. rewrite Z2Nat.id by done. done. Qed.

Lemma path_key_at g i r :
  endpoint_paths g !! i = Some r ->
  path_keys g !! i = Some (root_type r, range_of (endpoint_path_step_values g) (path_steps r)).
Proof. intros Hr. unfold path_keys. by rewrite list_lookup_fmap, Hr. Qed.

(** What the comparison of [find_endpoint_path] decides. *)
Lemma path_matches_spec g root steps i k' :
  paths_ok g -> path_keys g !! i = Some k' ->
  path_matches g root steps (fingerprint (hash_endpoint_path (root, steps))) (path_slot_of i k')
  = bool_decide (k' = (root, steps)).
Proof.
  intros Hok Hi. pose proof (dense_limit _ _ _ _ _ _ _ _ _ (path_indexed g Hok)) as Hl.
  apply lookup_lt_Some in Hi as Hlt. destruct (path_slot_parts i k') as (Hp & _); [lia|].
  unfold path_matches. rewrite Hp. unfold path_keys in Hlt. rewrite length_fmap in Hlt.
  rewrite (proj2 (Z.leb_le _ _)) by (unfold count; lia). unfold at_handle.
  replace (Z.to_nat (Z.of_nat i + 1 - 1)) with i by lia.
  destruct (lookup_lt_is_Some_2 _ _ Hlt) as [r Hr]. rewrite (path_key_at g i r Hr) in Hi. simplify_eq.
  rewrite Hr. destruct (path_range g r (paths_resolved g Hok i r Hr)) as (Hb & Hc & Hle).
  rewrite (proj2 (Z.leb_le (range_begin _) _)), (proj2 (Z.leb_le (range_count _) _)) by lia.
  rewrite !andb_true_r. unfold path_slot_of. cbn [path_fingerprint].
  symmetry. case_bool_decide as E.
  - injection E as E1 E2. rewrite E1, E2, !Z.eqb_refl. rewrite bool_decide_eq_true_2 by done.
    rewrite <- E2, length_range_of by lia. by rewrite Z.eqb_refl.
  - destruct (Z.eqb_spec (root_type r) root) as [E1|]; [|by rewrite !andb_false_l, andb_false_r].
    rewrite (bool_decide_eq_false_2 (range_of _ _ = steps)); [by rewrite !andb_false_r|].
    intros E2. apply E. by rewrite E1, E2.
Qed.

Lemma find_endpoint_path_spec g root steps :
  paths_ok g ->
  let hash := hash_endpoint_path (root, steps) in
  (forall i, path_keys g !! i = Some (root, steps) ->
     find_endpoint_path g root steps hash (fingerprint hash) = Z.of_nat i + 1) /\
  ((root, steps) ∉ path_keys g -> find_endpoint_path g root steps hash (fingerprint hash) = 0).
Proof.
  intros Hok. cbv zeta. unfold find_endpoint_path. pose proof (path_indexed g Hok) as Hd.
  destruct (find_slot_spec vacant_path path_occupied hash_endpoint_path path_slot_of (fun _ => True)
    path_index_of path_limit path_slot_index _ _ (root, steps)
    (path_matches g root steps (fingerprint (hash_endpoint_path (root, steps)))) Hd) as [Hf Hn].
  { intros i k' Hi. by apply path_matches_spec. }
  split.
  - intros i Hi. rewrite (Hf i Hi). apply path_slot_parts.
    pose proof (dense_limit _ _ _ _ _ _ _ _ _ Hd). apply lookup_lt_Some in Hi. lia.
  - intros Hk. by rewrite (Hn Hk).
Qed.

Lemma path_ok_grows g g' r :
  derived_ok g -> derived_ok g' -> records_ok g -> grows g g' -> path_ok g r -> path_ok g' r.
Proof.
  intros Hd Hd' Hr Hg [(Hb & Hc & Hle) [Hrt Hcr] Hv Hres].
  pose proof (count_prefix _ _ (grows_steps _ _ Hg)).
  assert (range_of (endpoint_path_step_values g') (path_steps r)
    = range_of (endpoint_path_step_values g) (path_steps r)) as Hsame
    by (apply range_of_prefix; [apply Hg|lia..]).
  split; rewrite ?Hsame; [lia|split; [done|by apply (contains_ref_grows g g')]|done|].
  by apply (resolve_path_grows g g').
Qed.

(** Other operations leave the paths as they are. *)
Lemma paths_ok_grows g g' :
  derived_ok g -> derived_ok g' -> records_ok g -> paths_ok g -> grows g g' ->
  endpoint_paths g' = endpoint_paths g -> endpoint_path_step_values g' = endpoint_path_step_values g ->
  endpoint_path_index g' = endpoint_path_index g -> paths_ok g'.
Proof.
  intros Hd Hd' Hr [Hi Hb Hp] Hg H1 H2 H3. split; rewrite ?H3, ?H2; [unfold path_keys; by rewrite H1, H2|done|].
  intros i r. rewrite H1. intros Hlk. apply (path_ok_grows g g'); eauto.
Qed.

Lemma grows_with_paths g paths steps index :
  endpoint_paths g `prefix_of` paths -> endpoint_path_step_values g `prefix_of` steps ->
  grows g (with_paths paths steps index g).
Proof. intros Hp Hs. split; cbn; try done; eauto. Qed.

Lemma derived_ok_with_paths g paths steps index :
  derived_ok g -> grows g (with_paths paths steps index g) -> derived_ok (with_paths paths steps index g).
Proof. intros Hd Hg. by apply (derived_ok_grows g). Qed.

(** ** What [intern_endpoint_path] returns *)

Section NewPath.
Context (g : graph) (root : type_ref) (steps : list endpoint_path_step) (resolved : type_ref)
  (index : list endpoint_path_index_slot).
Context (Hd : derived_ok g) (Hr : records_ok g) (Hp : paths_ok g)
  (Hrange : 0 <= root < 2 ^ 32) (Hc : contains_ref g root = true)
  (Hs : Forall (fun s => 0 <= step_value s) steps)
  (Hres : resolve_endpoint_path g root steps = Some (Some resolved))
  (Hnew : (root, steps) ∉ path_keys g) (Hroom : count (endpoint_paths g) < maximum_handle)
  (Hsteps : count (endpoint_path_step_values g) + count steps <= u32_max)
  (Hdense : path_dense (path_keys g) index) (Hload : (2 * S (length (endpoint_paths g)) <= length index)%nat).

Definition new_path_record : endpoint_path_record :=
  EndpointPathRecord (GraphRange (count (endpoint_path_step_values g)) (count steps)) root resolved.

Definition with_new_path (index : list endpoint_path_index_slot) : graph :=
  with_paths (endpoint_paths g ++ [new_path_record]) (endpoint_path_step_values g ++ steps) index g.

Lemma new_path_grows index' : grows g (with_new_path index').
Proof using. by apply grows_with_paths; apply prefix_app_r. Qed.

Lemma new_path_keys index' : path_keys (with_new_path index') = path_keys g ++ [(root, steps)].
Proof using Hp.
  clear Hload Hdense. unfold path_keys, with_new_path. cbn [with_paths endpoint_paths endpoint_path_step_values].
  rewrite fmap_app. f_equal.
  - apply list_fmap_ext. intros i r Hi. unfold key_of_path. f_equal.
    destruct (path_range g r (paths_resolved g Hp i r Hi)) as (Hb & Hcnt & Hle).
    apply range_of_prefix; [by apply prefix_app_r|lia..].
  - simpl. unfold key_of_path. cbn [new_path_record root_type path_steps]. by rewrite range_of_end.
Qed.

Lemma new_path_ok :
  exists index', insert_endpoint_path_index index (u32 (count (endpoint_paths g) + 1))
      (hash_endpoint_path (root, steps)) = Some index' /\
    paths_ok (with_new_path index').
Proof.
  assert (length (path_keys g) = length (endpoint_paths g)) as Hlen by apply length_fmap.
  destruct (append_key_spec vacant_path path_occupied hash_endpoint_path path_slot_of (fun _ => True)
    path_index_of path_limit path_slot_busy path_slot_index _ index (root, steps) Hdense)
    as (index' & Hins & Hd'); [by rewrite Hlen|done|done| |].
  { rewrite Hlen. unfold path_limit. unfold count in Hroom. lia. }
  exists index'. split; [rewrite <- Hins; unfold insert_endpoint_path_index, path_slot_of; by rewrite Hlen|].
  pose proof (new_path_grows index') as Hg.
  pose proof (derived_ok_with_paths g _ _ _ Hd Hg) as Hdok. split.
  - by rewrite new_path_keys.
  - cbn [with_new_path with_paths endpoint_path_step_values]. by rewrite count_app.
  - intros i r Hi. unfold with_new_path in Hi. cbn [with_paths endpoint_paths] in Hi.
    apply lookup_app_Some in Hi as [Hi|[_ Hi]].
    + apply (path_ok_grows g); try done. by eapply (paths_resolved g Hp).
    + apply list_lookup_singleton_Some in Hi as [_ <-].
      assert (range_of (endpoint_path_step_values (with_new_path index')) (path_steps new_path_record) = steps)
        as Hst by apply range_of_end.
      split; rewrite ?Hst; try done.
      * cbn [with_new_path with_paths endpoint_path_step_values new_path_record path_steps range_begin range_count].
        rewrite count_app. pose proof (count_at_least (endpoint_path_step_values g)). pose proof (count_at_least steps). lia.
      * exact (resolve_path_grows g _ root steps resolved Hd Hdok Hr Hg Hs Hrange Hres).
Qed.
End NewPath.

(** The record that a path handle stands for. *)
Definition interned (g : graph) (p : endpoint_path_handle) (root : type_ref)
    (steps : list endpoint_path_step) (value : type_ref) : Prop :=
  1 <= p /\ exists r, endpoint_path g p = Some r /\ root_type r = root /\ endpoint_path_steps g p = steps /\
    value_type r = value.

Definition intern_result (root : type_ref) (steps : list endpoint_path_step) (a : derive_allocation)
    (g g' : graph) (st : server_status) (p : endpoint_path_handle) (value : type_ref) : Prop :=
  st = success /\ resolve_endpoint_path g root steps = Some (Some value) /\ interned g' p root steps value \/
  st = project_configuration_invalid /\ g' = g /\ p = 0 /\ resolve_endpoint_path g root steps = Some None \/
  st = io_error /\ p = 0 /\
    (table_allocated a = false \/ record_allocated a = false \/
     maximum_handle <= count (endpoint_paths g) \/
     u32_max < count (endpoint_path_step_values g) + count steps).

(** The handle at a position of the array. *)
Lemma interned_at g i r :
  paths_ok g -> endpoint_paths g !! i = Some r ->
  interned g (Z.of_nat i + 1) (root_type r)
    (range_of (endpoint_path_step_values g) (path_steps r)) (value_type r).
Proof.
  intros Hp Hi. destruct (path_range g r (paths_resolved g Hp i r Hi)) as (Hb & Hc & Hle).
  pose proof (dense_limit _ _ _ _ _ _ _ _ _ (path_indexed g Hp)) as Hl.
  unfold path_keys in Hl. rewrite length_fmap in Hl. apply lookup_lt_Some in Hi as Hlt.
  pose proof (path_limit_spec i ltac:(lia)) as Hh.
  assert (endpoint_path g (Z.of_nat i + 1) = Some r) as He.
  { unfold endpoint_path, path_valid.
    rewrite (proj2 (Z.eqb_neq _ 0)), (proj2 (Z.leb_le _ maximum_handle)), (proj2 (Z.ltb_ge _ _)) by (unfold count; lia).
    cbn [negb andb orb]. unfold at_handle. replace (Z.to_nat (Z.of_nat i + 1 - 1)) with i by lia.
    rewrite Hi, !(proj2 (Z.leb_le _ _)) by lia. done. }
  split; [lia|]. exists r. split; [done|]. split; [done|]. split; [|done]. unfold endpoint_path_steps. by rewrite He.
Qed.

Lemma with_paths_same g : with_paths (endpoint_paths g) (endpoint_path_step_values g) (endpoint_path_index g) g = g.
Proof. by destruct g. Qed.

(** Room for one more path. *)
Lemma ensure_path_spec g allocated :
  paths_ok g ->
  exists st index, ensure_endpoint_path_index_capacity 1 allocated g = Some (st, index) /\
    (st = io_error /\ index = endpoint_path_index g /\ allocated = false \/
     st = success /\ path_dense (path_keys g) index /\
       (2 * S (length (endpoint_paths g)) <= length index)%nat).
Proof.
  intros Hp. unfold ensure_endpoint_path_index_capacity, count.
  rewrite <- (length_fmap (key_of_path (endpoint_path_step_values g)) (endpoint_paths g)).
  apply (dense_capacity_spec vacant_path path_occupied hash_endpoint_path path_slot_of (fun _ => True)
    path_index_of path_limit eq_refl path_slot_busy path_limit_small (path_keys g) _ _ _ _
    (path_indexed g Hp) (reflexivity _)).
  intros T. apply (insert_keys_slots _ _ _ _ _ path_limit path_slot_index).
  apply (dense_limit _ _ _ _ _ _ _ _ _ (path_indexed g Hp)).
Qed.

Ltac same_paths g := eexists _, _, _, g; do 3 (split; [done|]); split; [by destruct g|].

Lemma intern_endpoint_path_spec g root steps a :
  derived_ok g -> records_ok g -> paths_ok g -> 0 <= root < 2 ^ 32 ->
  Forall (fun s => 0 <= step_value s) steps -> contains_ref g root = true ->
  exists st p value g', intern_endpoint_path root steps a g = Some (st, (p, value), g') /\
    grows g g' /\ paths_ok g' /\
    g' = with_paths (endpoint_paths g') (endpoint_path_step_values g') (endpoint_path_index g') g /\
    intern_result root steps a g g' st p value.
Proof.
  intros Hd Hr Hp Hrange Hs Hc. destruct (denotes_exists g root Hd Hc) as [c Hden].
  destruct (resolve_path_spec g root c steps Hd Hr Hs Hden Hrange) as (o & Hres & Ho).
  unfold intern_endpoint_path, intern_result. rewrite Hres.
  destruct o as [resolved|]; [|same_paths g; by right; left].
  destruct (find_endpoint_path_spec g root steps Hp) as [Hf Hn].
  destruct (decide ((root, steps) ∈ path_keys g)) as [Hin|Hnin].
  { apply list_elem_of_lookup in Hin as [i Hi]. rewrite (Hf i Hi).
    unfold path_keys in Hi. rewrite list_lookup_fmap in Hi.
    destruct (endpoint_paths g !! i) as [r|] eqn:Er; [|done]. simpl in Hi. unfold key_of_path in Hi.
    simplify_eq. pose proof (interned_at g i r Hp Er) as Hint. pose proof Hint as (_ & r' & He & _).
    assert (path_valid (Z.of_nat i + 1) = true) as ->.
    { unfold endpoint_path in He. by destruct (path_valid _). }
    unfold at_handle. replace (Z.to_nat (Z.of_nat i + 1 - 1)) with i by lia. rewrite Er.
    same_paths g. left. split; [done|]. pose proof (path_resolved g r (paths_resolved g Hp i r Er)) as Hv.
    rewrite Hres in Hv. simplify_eq. done. }
  rewrite (Hn Hnin). change (path_valid 0) with false. cbn iota.
  destruct (_ || _ || _) eqn:Elim.
  { same_paths g. right; right. split; [done|]. split; [done|]. right; right.
    pose proof (path_steps_bound g Hp). pose proof (count_at_least (endpoint_path_step_values g)).
    rewrite !orb_true_iff, Z.leb_le, !Z.ltb_lt in Elim. lia. }
  rewrite !orb_false_iff, Z.leb_gt, !Z.ltb_ge in Elim. destruct Elim as [[Hroom _] Hsteps].
  destruct (ensure_path_spec g (table_allocated a) Hp) as (st & index & -> & [(-> & -> & Ha)|(-> & Hdense & Hload)]).
  { rewrite with_paths_same. same_paths g. right; right. split; [done|]. split; [done|]. by left. }
  change (succeeded success) with true. cbn [negb with_paths endpoint_paths endpoint_path_step_values].
  destruct (record_allocated a) eqn:Ea; cbn [negb].
  2: { assert (grows g (with_paths (endpoint_paths g) (endpoint_path_step_values g) index g)) as Hg
         by by apply grows_with_paths.
       eexists _, _, _, _. split; [done|]. split; [done|]. split; [|split; [done|right; right; by auto]].
       pose proof (derived_ok_with_paths _ _ _ _ Hd Hg). pose proof Hp as [_ Hb Hrec]. split; [done|done|].
       intros i r Hi. apply (path_ok_grows g); try done. by eapply Hrec. }
  pose proof (count_at_least (endpoint_path_step_values g)). pose proof (count_at_least steps).
  destruct (new_path_ok g root steps resolved index) as (index' & Hins & Hok'); try done; [lia|].
  assert (forall n, 0 <= n <= u32_max -> u32 n = n) as Hu.
  { intros n Hle. apply Z.mod_small. unfold u32_max in Hle. lia. }
  rewrite (Hu (count (endpoint_path_step_values g))), (Hu (count steps)) by lia.
  change (EndpointPathRecord _ root resolved) with (new_path_record g root steps resolved).
  assert (count (endpoint_paths g ++ [new_path_record g root steps resolved]) = count (endpoint_paths g) + 1)
    as -> by apply count_app.
  rewrite Hins.
  eexists _, _, _, (with_new_path g root steps resolved index'). split; [done|].
  split; [apply new_path_grows|]. split; [done|]. split; [done|]. left. split; [done|]. split; [done|].
  assert (endpoint_paths (with_new_path g root steps resolved index') !! length (endpoint_paths g)
    = Some (new_path_record g root steps resolved)) as Hlast.
  { cbn [with_new_path with_paths endpoint_paths]. by rewrite lookup_app_r, Nat.sub_diag. }
  pose proof (interned_at _ _ _ Hok' Hlast) as Hint.
  assert (u32 (count (endpoint_paths g) + 1) = Z.of_nat (length (endpoint_paths g)) + 1) as ->.
  { unfold count. apply Z.mod_small. unfold count in Hroom. change maximum_handle with (2 ^ 30 - 1) in Hroom. lia. }
  cbn [with_new_path with_paths endpoint_path_step_values new_path_record path_steps root_type value_type] in Hint.
  rewrite range_of_end in Hint. exact Hint.
Qed.

(** ** Endpoints *)

(** An endpoint as two 32-bit words. *)
Definition endpoint_words (e : object_endpoint) : Prop :=
  0 <= endpoint_object e < 2 ^ 32 /\ 0 <= endpoint_member e < 2 ^ 32.

Lemma endpoint_valid_range e : 0 <= e < 2 ^ 32 -> endpoint_valid e = true -> e < 2 ^ 31.
Proof.
  intros He Hv. destruct (Z.lt_ge_cases e (2 ^ 31)) as [|Hge]; [done|]. exfalso.
  assert (Z.testbit (Z.land e endpoint_kind_mask) 31 = true) as Hbit.
  { rewrite Z.land_spec. change (Z.testbit endpoint_kind_mask 31) with true. rewrite andb_true_r.
    apply Z.testbit_true; [lia|]. assert (e / 2 ^ 31 = 1) as -> by divlia. done. }
  unfold endpoint_valid, is_member, is_path in Hv.
  apply orb_true_iff in Hv as [Hv%Z.eqb_eq|[Hv%Z.eqb_eq _]%andb_true_iff]; by rewrite Hv in Hbit.
Qed.

Lemma link_target_key_value e :
  endpoint_words e -> endpoint_object e <> 0 -> endpoint_valid (endpoint_member e) = true ->
  link_target_key e = endpoint_object e * 2 ^ 32 + (endpoint_member e + 1) /\ endpoint_member e < 2 ^ 31.
Proof.
  intros [Ho Hm] H0 Hv. pose proof (endpoint_valid_range _ Hm Hv). split; [|done].
  unfold link_target_key. rewrite Hv, (proj2 (Z.eqb_neq _ 0)) by done. cbn [negb orb].
  rewrite Z.shiftl_mul_pow2 by lia. unfold u64. rewrite !(Z.mod_small _ (2 ^ 64)) by lia.
  apply lor_disjoint; lia.
Qed.

Lemma link_target_key_inj e e' :
  endpoint_words e -> endpoint_words e' -> endpoint_object e <> 0 -> endpoint_object e' <> 0 ->
  endpoint_valid (endpoint_member e) = true -> endpoint_valid (endpoint_member e') = true ->
  link_target_key e = link_target_key e' -> e = e'.
Proof.
  intros Hw Hw' H0 H0' Hv Hv' Hk.
  destruct (link_target_key_value e Hw H0 Hv) as [E1 ?].
  destruct (link_target_key_value e' Hw' H0' Hv') as [E2 ?].
  destruct Hw, Hw', e as [o m], e' as [o' m']. cbn [endpoint_object endpoint_member] in *.
  f_equal; lia.
Qed.

(** An endpoint that has a type. *)
Lemma endpoint_type_some g e r :
  endpoint_type g e = Some (Some r) ->
  endpoint_object e <> 0 /\ endpoint_valid (endpoint_member e) = true.
Proof.
  unfold endpoint_type, find_object_entry, contains_object.
  destruct (Z.eqb_spec (endpoint_object e) 0); [done|].
  destruct (_ && _); [|done]. destruct (at_handle _ _); [|done].
  by destruct (endpoint_valid (endpoint_member e)).
Qed.

Lemma members_stored g t i m : members g t !! i = Some m -> exists j, member_records g !! j = Some m.
Proof.
  intros Hm. destruct (members_defined g t m i Hm) as (e & He & Hd). unfold members in Hm.
  rewrite He, Hd in Hm. destruct (_ || _); [done|]. unfold range_of in Hm. destruct (_ || _); [done|].
  unfold slice in Hm. apply lookup_take_Some in Hm as [Hm _]. rewrite lookup_drop in Hm. eauto.
Qed.

Lemma endpoint_type_spec g e :
  derived_ok g -> records_ok g -> objects_ok g -> 0 <= endpoint_object e ->
  exists o, endpoint_type g e = Some o /\ forall r, o = Some r -> contains_ref g r = true.
Proof.
  intros Hd Hr Ho He. unfold endpoint_type.
  destruct (find_object_entry g (endpoint_object e)) as [ob|] eqn:Hob; [|by exists None].
  destruct (endpoint_valid (endpoint_member e)) eqn:Hv; [|by exists None]. cbn [negb].
  destruct (is_path (endpoint_member e)).
  { destruct (endpoint_path g _) as [p|]; [|by exists None]. destruct (negb _); [by exists None|].
    eexists. split; [done|]. intros r Hcase. destruct (contains_ref g (value_type p)) eqn:Hc; [|done].
    by simplify_eq. }
  destruct (member_valid _); [|by exists None]. cbn [negb].
  unfold find_object_entry in Hob. destruct (contains_object g (endpoint_object e)) eqn:Hco; [|done].
  apply contains_object_range in Hco as [Hne _].
  destruct (objects_initialised g Ho (endpoint_object e) ob) as (v & _ & Hrange & c & Hc & _); [lia|done|].
  destruct (strip_spec g (object_type ob) c (type_fuel g)) as (r1 & -> & Hc1 & Hr1); try done.
  { apply rank_fuel; [done|by eapply denotes_contains]. }
  destruct (as_named g r1) as [t|]; [|by exists None]. destruct (member g t _) as [m|] eqn:Hm; [|by exists None].
  eexists. split; [done|]. intros r Hcase. destruct (ref_valid (member_type m)) eqn:Hrv; [|done]. simplify_eq.
  unfold member in Hm. destruct (negb _); [done|].
  destruct (members_stored g t _ m Hm) as [j Hj].
  destruct (member_denotes g j m Hr Hj) as (_ & c' & Hc'). by eapply denotes_contains.
Qed.

Lemma endpoint_type_grows g g' e r :
  derived_ok g -> derived_ok g' -> records_ok g -> objects_ok g -> grows g g' -> 0 <= endpoint_object e ->
  endpoint_type g e = Some (Some r) -> endpoint_type g' e = Some (Some r).
Proof.
  intros Hd Hd' Hr Ho Hg He. unfold endpoint_type.
  destruct (find_object_entry g (endpoint_object e)) as [ob|] eqn:Hob; [|done].
  rewrite (find_object_entry_grows g g' Hg _ ob Hob).
  destruct (endpoint_valid (endpoint_member e)); [|done]. cbn [negb].
  destruct (is_path (endpoint_member e)).
  { destruct (endpoint_path g _) as [p|] eqn:Hp; [|done]. rewrite (endpoint_path_grows g g' Hg _ p Hp).
    destruct (negb _); [done|]. destruct (contains_ref g (value_type p)) eqn:Hc; [|done].
    by rewrite (contains_ref_grows g g' Hg _ Hc). }
  destruct (member_valid _); [|done]. cbn [negb].
  unfold find_object_entry in Hob. destruct (contains_object g (endpoint_object e)) eqn:Hco; [|done].
  apply contains_object_range in Hco as [Hne _].
  destruct (objects_initialised g Ho (endpoint_object e) ob) as (v & _ & Hrange & c & Hc & _); [lia|done|].
  destruct (strip_cv (type_fuel g) g (object_type ob)) as [r1|] eqn:Hst; [|done].
  rewrite (strip_grows g g' _ c r1 Hd Hd' Hg Hc Hrange Hst).
  destruct (as_named g r1) as [t|] eqn:Ht; [|done]. rewrite (as_named_grows g g' Hg r1 t Ht).
  unfold member. destruct (negb _); [done|].
  destruct (members g t !! _) as [m|] eqn:Hm; [|done]. by rewrite (members_lookup_grows g g' t _ m Hr Hg Hm).
Qed.

Lemma binding_grows g g' target source :
  grows g g' -> contains_ref g source = true ->
  reference_binding_compatible g target source = true -> reference_binding_compatible g' target source = true.
Proof.
  intros Hg Hc. unfold reference_binding_compatible. destruct (derived g target) as [t|] eqn:Ht; [|done].
  by rewrite (derived_grows g g' Hg target t Ht), (derived_same g g' Hg source Hc).
Qed.

(** ** The invariant of the links *)

Definition link_limit : nat := Z.to_nat maximum_handle.
Definition link_index_of (s : link_target_index_slot) : nat := Z.to_nat (slot_link s - 1).
Definition link_slot_of (i : nat) (key : Z) : link_target_index_slot := LinkSlot key (u32 (Z.of_nat i + 1)).
Definition key_usable (key : Z) : Prop := key <> 0.

Abbreviation link_dense := (dense_ok vacant_link link_occupied mix64 link_slot_of key_usable
  link_index_of link_limit).

Definition link_keys (g : graph) : list Z := (fun l => link_target_key (link_target l)) <$> links g.

(** A link binds a reference to something of the type it refers to. *)
Record link_ok (g : graph) (l : link_record) : Prop := LinkOk {
  link_words : endpoint_words (link_source l) /\ endpoint_words (link_target l);
  link_typed : exists source target,
    endpoint_type g (link_source l) = Some (Some source) /\
    endpoint_type g (link_target l) = Some (Some target) /\
    reference_binding_compatible g target source = true
}.

Record links_ok (g : graph) : Prop := LinksOk {
  link_indexed : link_dense (link_keys g) (link_target_index g);
  link_counted : link_target_index_count g = count (links g);
  links_typed : forall i l, links g !! i = Some l -> link_ok g l
}.

Lemma link_limit_spec i : (i < link_limit)%nat -> 1 <= Z.of_nat i + 1 <= maximum_handle.
Proof. unfold link_limit. lia. Qed.

Lemma link_slot_parts i k :
  (i < link_limit)%nat ->
  slot_link (link_slot_of i k) = Z.of_nat i + 1 /\ link_index_of (link_slot_of i k) = i.
Proof.
  intros Hi%link_limit_spec. unfold link_slot_of, link_index_of. cbn [slot_link].
  assert (u32 (Z.of_nat i + 1) = Z.of_nat i + 1) as ->; [|split; [done|lia]].
  apply Z.mod_small. change maximum_handle with (2 ^ 30 - 1) in Hi. lia.
Qed.

Lemma link_slot_busy i k : (i < link_limit)%nat -> key_usable k -> link_occupied (link_slot_of i k) = true.
Proof. intros _ Hk. unfold link_occupied. cbn [link_slot_of link_key]. by apply negb_true_iff, Z.eqb_neq. Qed.

Lemma link_slot_index i k : (i < link_limit)%nat -> link_index_of (link_slot_of i k) = i.
Proof. intros Hi. by apply link_slot_parts. Qed.

Lemma link_limit_small : Z.of_nat link_limit <= 2 ^ 32.
Proof. unfold link_limit. rewrite Z2Nat.id by done. done. Qed.

(** The rehash loop inserts the occupied slots of the old table. *)
Lemma move_links_slots keys old T :
  (length keys <= link_limit)%nat -> HashIndex.entries link_occupied old ⊆ DenseIndex.slots_of link_slot_of keys ->
  move_links old T =
  insert_all vacant_link link_occupied (DenseIndex.entry_hash mix64 link_index_of keys) T (HashIndex.entries link_occupied old).
Proof.
  intros Hl. revert T. induction old as [|s old IH]; intros T Hs; [done|]. cbn [move_links].
  unfold HashIndex.entries in *. destruct (link_key s =? 0) eqn:Hz.
  - rewrite filter_cons_False in Hs |- * by (unfold link_occupied; by rewrite Hz). by apply IH.
  - rewrite filter_cons_True in Hs |- * by (unfold link_occupied; by rewrite Hz). cbn [insert_all]. unfold insert_link_target_index.
    assert (LinkSlot (link_key s) (slot_link s) = s) as -> by by destruct s.
    assert (s ∈ DenseIndex.slots_of link_slot_of keys) as Hin by (apply Hs; left).
    apply elem_of_slots_of in Hin as (i & k & Hk & Hsk).
    rewrite (insert_hashed_slot _ _ (DenseIndex.entry_hash mix64 link_index_of keys)).
    + destruct (insert_slot _ _ _ _ _); [|done]. apply IH. intros x Hx. apply Hs. by right.
    + rewrite Hsk. by apply (DenseIndex.entry_hash_slot mix64 link_slot_of link_index_of link_limit link_slot_index).
Qed.

Lemma link_ok_grows g g' l :
  derived_ok g -> derived_ok g' -> records_ok g -> objects_ok g -> grows g g' -> link_ok g l -> link_ok g' l.
Proof.
  intros Hd Hd' Hr Ho Hg [[[Hs1 Hs2] [Ht1 Ht2]] (source & target & Hs & Ht & Hb)].
  split; [done|]. exists source, target.
  split; [by apply (endpoint_type_grows g g'); try done; apply Hs1|].
  split; [by apply (endpoint_type_grows g g'); try done; apply Ht1|].
  apply (binding_grows g g'); try done.
  destruct (endpoint_type_spec g (link_source l) Hd Hr Ho) as (o & Ho1 & Hc); [apply Hs1|].
  apply Hc. congruence.
Qed.

(** Other operations leave the links as they are. *)
Lemma links_ok_grows g g' :
  derived_ok g -> derived_ok g' -> records_ok g -> objects_ok g -> links_ok g -> grows g g' ->
  links g' = links g -> link_target_index g' = link_target_index g ->
  link_target_index_count g' = link_target_index_count g -> links_ok g'.
Proof.
  intros Hd Hd' Hr Ho [Hi Hc Hl] Hg H1 H2 H3. split; rewrite ?H1, ?H2, ?H3; [unfold link_keys; by rewrite H1|done|].
  intros i l Hlk. apply (link_ok_grows g g'); eauto.
Qed.

Lemma grows_with_links g ls index n : links g `prefix_of` ls -> grows g (with_links ls index n g).
Proof. intros Hp. split; cbn; try done; eauto. Qed.

(** ** What [add_link] returns *)

Lemma find_link_target_spec g target :
  links_ok g -> link_target_key target <> 0 ->
  (forall i, link_keys g !! i = Some (link_target_key target) ->
     find_link_target g target = Z.of_nat i + 1) /\
  (link_target_key target ∉ link_keys g -> find_link_target g target = 0).
Proof.
  intros Hok Hk. unfold find_link_target. rewrite (proj2 (Z.eqb_neq _ 0)) by done.
  pose proof (link_indexed g Hok) as Hd.
  destruct (find_slot_spec vacant_link link_occupied mix64 link_slot_of key_usable
    link_index_of link_limit link_slot_index _ _ (link_target_key target)
    (fun s => link_key s =? link_target_key target) Hd) as [Hf Hn].
  { intros i k' _. cbn [link_slot_of link_key]. destruct (Z.eqb_spec k' (link_target_key target)).
    - by rewrite bool_decide_eq_true_2.
    - by rewrite bool_decide_eq_false_2. }
  split.
  - intros i Hi. rewrite (Hf i Hi). apply link_slot_parts.
    pose proof (dense_limit _ _ _ _ _ _ _ _ _ Hd). apply lookup_lt_Some in Hi. lia.
  - intros Hnin. by rewrite (Hn Hnin).
Qed.

Lemma ensure_link_spec g allocated :
  links_ok g ->
  exists st index, ensure_link_target_index_capacity 1 allocated g = Some (st, index) /\
    (st = io_error /\ index = link_target_index g /\ allocated = false \/
     st = success /\ link_dense (link_keys g) index /\ (2 * S (length (links g)) <= length index)%nat).
Proof.
  intros Hok. pose proof (link_indexed g Hok) as Hd.
  unfold ensure_link_target_index_capacity. rewrite (link_counted g Hok). unfold count.
  rewrite <- (length_fmap (fun l => link_target_key (link_target l)) (links g)).
  assert (HashIndex.entries link_occupied (link_target_index g) ≡ₚ DenseIndex.slots_of link_slot_of (link_keys g))
    as Hperm.
  { destruct (dense_table _ _ _ _ _ _ _ _ _ Hd) as [[-> ->]|(_ & _ & _ & He)]; done. }
  apply (dense_capacity_spec vacant_link link_occupied mix64 link_slot_of key_usable
    link_index_of link_limit eq_refl link_slot_busy link_limit_small (link_keys g) _ _ _ _ Hd Hperm).
  intros T. apply move_links_slots; [apply (dense_limit _ _ _ _ _ _ _ _ _ Hd)|]. by rewrite Hperm.
Qed.

(** A target endpoint that is bound. *)
Definition bound (g : graph) (l : link_handle) (source target : object_endpoint) : Prop :=
  1 <= l /\ find_link g l = Some (LinkRecord source target).

Definition compatible_endpoints (g : graph) (source target : object_endpoint) : Prop :=
  exists ts tt, endpoint_type g source = Some (Some ts) /\ endpoint_type g target = Some (Some tt) /\
    reference_binding_compatible g tt ts = true.

Definition add_link_result (source target : object_endpoint) (a : derive_allocation) (g g' : graph)
    (st : server_status) (l : link_handle) : Prop :=
  st = success /\ compatible_endpoints g source target /\ bound g' l source target \/
  st = project_configuration_invalid /\ g' = g /\ l = 0 /\
    (~ compatible_endpoints g source target \/
     exists l' source', bound g l' source' target /\ source' <> source) \/
  st = io_error /\ l = 0 /\
    (table_allocated a = false \/ record_allocated a = false \/ maximum_handle <= count (links g)).

(** The link at a position of the array. *)
Lemma find_link_at g i l : links g !! i = Some l -> find_link g (Z.of_nat i + 1) = Some l.
Proof.
  intros Hi. apply lookup_lt_Some in Hi as Hlt. unfold find_link, contains_link, at_handle.
  rewrite (proj2 (Z.eqb_neq _ 0)), (proj2 (Z.leb_le _ _)) by (unfold count; lia). cbn [negb andb].
  by replace (Z.to_nat (Z.of_nat i + 1 - 1)) with i by lia.
Qed.

(** The target of a stored link with the key of [target] is [target]. *)
Lemma key_target g i target ts :
  links_ok g -> endpoint_words target -> endpoint_type g target = Some (Some ts) ->
  link_keys g !! i = Some (link_target_key target) ->
  exists source, links g !! i = Some (LinkRecord source target).
Proof.
  intros Hok Hw Ht Hi. unfold link_keys in Hi. rewrite list_lookup_fmap in Hi.
  destruct (links g !! i) as [[source t]|] eqn:El; [|done]. simpl in Hi. injection Hi as Hi.
  destruct (links_typed g Hok i _ El) as [[_ Hwt] (s1 & t1 & _ & Ht1 & _)]. cbn [link_target] in *.
  destruct (endpoint_type_some g t t1 Ht1), (endpoint_type_some g target ts Ht).
  exists source. by rewrite (link_target_key_inj t target).
Qed.

Lemma with_links_same g : with_links (links g) (link_target_index g) (link_target_index_count g) g = g.
Proof. by destruct g. Qed.

(** The graph with a new link. *)
Lemma new_link_ok g source target index :
  derived_ok g -> records_ok g -> objects_ok g -> links_ok g -> link_ok g (LinkRecord source target) ->
  link_target_key target <> 0 -> link_target_key target ∉ link_keys g -> count (links g) < maximum_handle ->
  link_dense (link_keys g) index -> (2 * S (length (links g)) <= length index)%nat ->
  exists index', insert_link_target_index index (link_target_key target) (u32 (count (links g) + 1)) = Some index' /\
    let g' := with_links (links g ++ [LinkRecord source target]) index' (link_target_index_count g + 1) g in
    grows g g' /\ links_ok g' /\ u32 (count (links g) + 1) = Z.of_nat (length (links g)) + 1.
Proof.
  intros Hd Hr Ho Hok Hl Hk Hnew Hroom Hdense Hload.
  assert (length (link_keys g) = length (links g)) as Hlen by apply length_fmap.
  destruct (append_key_spec vacant_link link_occupied mix64 link_slot_of key_usable
    link_index_of link_limit link_slot_busy link_slot_index _ index (link_target_key target) Hdense)
    as (index' & Hins & Hd'); [by rewrite Hlen|done|done| |].
  { rewrite Hlen. unfold link_limit. unfold count in Hroom. lia. }
  exists index'. split; [rewrite <- Hins; unfold insert_link_target_index, link_slot_of; by rewrite Hlen|].
  intros g'. assert (grows g g') as Hg by by apply grows_with_links, prefix_app_r.
  assert (derived_ok g') as Hdok by by apply (derived_ok_grows g g').
  split; [done|]. split.
  - split; cbn [g' with_links links link_target_index link_target_index_count].
    + unfold link_keys. cbn [g' with_links links]. by rewrite fmap_app.
    + rewrite (link_counted g Hok), count_app. done.
    + intros i l Hi. apply (link_ok_grows g g'); try done. apply lookup_app_Some in Hi as [Hi|[_ Hi]].
      * by eapply (links_typed g Hok).
      * by apply list_lookup_singleton_Some in Hi as [_ <-].
  - unfold count in *. apply Z.mod_small. change maximum_handle with (2 ^ 30 - 1) in Hroom. lia.
Qed.

Ltac same_links g := eexists _, _, g; do 3 (split; [done|]); split; [by destruct g|].

Lemma add_link_spec g source target a :
  derived_ok g -> records_ok g -> objects_ok g -> links_ok g -> endpoint_words source -> endpoint_words target ->
  exists st l g', add_link source target a g = Some (st, l, g') /\ grows g g' /\ links_ok g' /\
    g' = with_links (links g') (link_target_index g') (link_target_index_count g') g /\
    add_link_result source target a g g' st l.
Proof.
  intros Hd Hr Ho Hok Hws Hwt. unfold add_link, add_link_result, compatible_endpoints.
  destruct (endpoint_type_spec g source Hd Hr Ho) as (os & Hs & _); [apply Hws|].
  destruct (endpoint_type_spec g target Hd Hr Ho) as (ot & Ht & _); [apply Hwt|]. rewrite Hs, Ht.
  destruct os as [ts|]; [|same_links g; right; left; do 3 (split; [done|]); left; intros (? & ? & ? & ? & ?); congruence].
  destruct ot as [tt|]; [|same_links g; right; left; do 3 (split; [done|]); left; intros (? & ? & ? & ? & ?); congruence].
  destruct (reference_binding_compatible g tt ts) eqn:Hb; cbn [negb].
  2: { same_links g. right; left. do 3 (split; [done|]). left. intros (? & ? & ? & ? & ?). congruence. }
  destruct (endpoint_type_some g target tt Ht) as [H0 Hv].
  assert (link_target_key target <> 0) as Hk.
  { destruct (link_target_key_value target Hwt H0 Hv) as [-> _]. destruct Hwt. lia. }
  destruct (find_link_target_spec g target Hok Hk) as [Hf Hn].
  destruct (decide (link_target_key target ∈ link_keys g)) as [Hin|Hnin].
  { apply list_elem_of_lookup in Hin as [i Hi]. rewrite (Hf i Hi).
    destruct (key_target g i target tt Hok Hwt Ht Hi) as [source' Hl].
    pose proof (find_link_at g i _ Hl) as Hfl. rewrite Hfl, (proj2 (Z.eqb_neq _ 0)) by lia.
    cbn [negb link_target link_source]. rewrite bool_decide_eq_true_2 by done. cbn [negb orb].
    case_bool_decide as Hsrc; cbn [negb]; same_links g.
    - left. split; [done|]. split; [by exists ts, tt|]. split; [lia|]. by rewrite <- Hsrc.
    - right; left. do 3 (split; [done|]). right. exists (Z.of_nat i + 1), source'. split; [split; [lia|done]|done]. }
  rewrite (Hn Hnin). cbn [negb Z.eqb].
  destruct (Z.leb_spec maximum_handle (count (links g))) as [Hfull|Hroom].
  { same_links g. right; right. split; [done|]. split; [done|]. by right; right. }
  destruct (ensure_link_spec g (table_allocated a) Hok) as (st & index & -> & [(-> & -> & Ha)|(-> & Hdense & Hload)]).
  { rewrite with_links_same. same_links g. right; right. split; [done|]. split; [done|]. by left. }
  change (succeeded success) with true. cbn [negb with_links links link_target_index_count].
  assert (link_ok g (LinkRecord source target)) as Hlok by (split; [done|by exists ts, tt]).
  destruct (record_allocated a) eqn:Ea; cbn [negb].
  2: { assert (grows g (with_links (links g) index (link_target_index_count g) g)) as Hg by by apply grows_with_links.
       eexists _, _, _. split; [done|]. split; [done|]. split; [|split; [done|right; right; by auto]].
       pose proof Hok as [_ Hc Hty]. split; [done|done|]. intros i l Hi.
       apply (link_ok_grows g); try done; [by apply (derived_ok_grows g)|by eapply Hty]. }
  rewrite (proj2 (Z.eqb_neq _ 0)) by done.
  assert (count (links g ++ [LinkRecord source target]) = count (links g) + 1) as -> by apply count_app.
  destruct (new_link_ok g source target index) as (index' & -> & Hg & Hok' & Hu); try done.
  eexists _, _, _. split; [done|]. split; [done|]. split; [done|]. split; [done|]. left. split; [done|].
  split; [by exists ts, tt|]. rewrite Hu. split; [lia|]. apply find_link_at.
  cbn [with_links links]. by rewrite lookup_app_r, Nat.sub_diag.
Qed.
