(* ===== verification/Graph.v ===== *)
(** The semantic graph as a whole: the graphs that its operations build from the empty
    one, their invariant, and what handles and references promise to the components
    that keep them (project/graph/graph.hpp and graph.cpp). *)

From Stdlib Require Import Wellfounded.
From S2P Require Import Prelude ServerStatus HashIndex DenseIndex Identity GraphData GraphGrowth GraphTypes GraphRecords GraphLinks.

Local Open Scope Z_scope.

(** ** The graphs of the program *)

(** A call of an operation, with the 32-bit words and unsigned values it can be given. *)
Inductive graph_step (g : graph) : graph -> Prop :=
| step_declare i k a :
    0 <= i < 2 ^ 32 -> graph_step g (declare_record i k a g).2
| step_define t k definition values bs declares_virtual allocated st g' :
    0 <= t -> Forall (fun m => 0 <= member_type m < 2 ^ 32) definition -> Forall (fun b => 0 <= base_type b) bs ->
    define_record t k definition values bs declares_virtual allocated g = Some (st, g') -> graph_step g g'
| step_object i t flags initial a st o g' :
    0 <= i < 2 ^ 32 -> 0 <= t < 2 ^ 32 -> 0 <= flags < 2 ^ 32 ->
    add_object i t flags initial a g = Some (st, o, g') -> graph_step g g'
| step_derive r k n a st out g' :
    0 <= r < 2 ^ 32 -> 0 <= n -> derive r k n a g = Some (st, out, g') -> graph_step g g'
| step_path root steps a st out g' :
    0 <= root < 2 ^ 32 -> Forall (fun s => 0 <= step_value s) steps ->
    intern_endpoint_path root steps a g = Some (st, out, g') -> graph_step g g'
| step_link source target a st l g' :
    endpoint_words source -> endpoint_words target ->
    add_link source target a g = Some (st, l, g') -> graph_step g g'.

Inductive evolves (g : graph) : graph -> Prop :=
| evolves_refl : evolves g g
| evolves_step g1 g2 : evolves g g1 -> graph_step g1 g2 -> evolves g g2.

Definition reachable (g : graph) : Prop := evolves new_graph g.

Record graph_ok (g : graph) : Prop := GraphOk {
  ok_derived : derived_ok g;
  ok_records : records_ok g;
  ok_objects : objects_ok g;
  ok_locations : locations_ok g;
  ok_paths : paths_ok g;
  ok_links : links_ok g
}.

Lemma new_graph_ok : graph_ok new_graph.
Proof.
  split.
  - split; [apply dense_empty|by intros i d Hi|by intros i d c Hi].
  - split; by try intros i.
  - by split.
  - split; [by intros s l Hl|intros t i _ Hi; by unfold at_handle in Hi|intros o i _ Hi; by unfold at_handle in Hi].
  - split; [apply dense_empty|done|by intros i r Hi].
  - split; [apply dense_empty|done|by intros i l Hi].
Qed.

(** A graph that grew from a good one, with some of its parts unchanged. *)
Lemma frame_derived g g' :
  graph_ok g -> grows g g' -> derived_types g' = derived_types g -> derived_index g' = derived_index g -> derived_ok g'.
Proof. intros Hok Hg H1 H2. by apply (derived_ok_grows g g'); [apply Hok|..]. Qed.

(** The parts of the invariant that an operation does not touch. *)
Ltac frame g g' Hframe :=
  split; try done;
  first [apply (records_ok_grows g g')|apply (objects_ok_grows g g')|apply (locations_ok_same g g')
        |apply (paths_ok_grows g g')|apply (links_ok_grows g g')]; try done; by rewrite Hframe.

Lemma graph_step_spec g g' : graph_ok g -> graph_step g g' -> grows g g' /\ graph_ok g'.
Proof.
  intros Hok Hstep. pose proof Hok as [Hd Hr Ho Hl Hp Hk].
  destruct Hstep as [i k a Hi|t k def vs bs dv al st g' Ht Hrange _ Heq|i t fl v a st o g' Hi Ht Hf Heq
    |r k n a st out g' Hrange _ Heq|root steps a st out g' Hrange Hs Heq|src tgt a st l g' Hs Ht Heq].
  - destruct (declare_spec g i k a Hr Hl Hi) as (st & t & g' & -> & Hg & Hr' & Hl' & Hframe & _). cbn [snd].
    split; [done|]. assert (derived_ok g') as Hd' by (apply (frame_derived g g' Hok Hg); by rewrite Hframe).
    frame g g' Hframe.
  - destruct (define_spec g t k def vs bs dv al Hd Hr Ht Hrange) as (st' & g1 & Heq' & Hg & Hr' & Hframe & _).
    rewrite Heq in Heq'. injection Heq' as <- <-. split; [done|].
    assert (derived_ok g') as Hd' by (apply (frame_derived g g' Hok Hg); by rewrite Hframe).
    frame g g' Hframe.
  - destruct (contains_ref g t) eqn:Hc.
    2: { unfold add_object in Heq. rewrite Hc, orb_true_r in Heq. simpl in Heq. by simplify_eq. }
    destruct (denotes_exists g t Hd Hc) as [c Hden].
    destruct (add_object_spec g i t c fl v a Hd Ho Hl Hi Hf Ht Hden)
      as (st' & o' & g1 & Heq' & Hg & Ho' & Hl' & Hframe & _).
    rewrite Heq in Heq'. injection Heq' as <- <- <-. split; [done|].
    assert (derived_ok g') as Hd' by (apply (frame_derived g g' Hok Hg); by rewrite Hframe).
    frame g g' Hframe.
  - destruct (contains_ref g r) eqn:Hc; [|unfold derive in Heq; rewrite Hc in Heq; by simplify_eq/=].
    destruct (denotes_exists g r Hd Hc) as [c Hden].
    destruct (derive_spec g r k n c a Hd Hden Hrange) as (st' & o' & g1 & Heq' & Hg & Hd' & Hframe & _).
    rewrite Heq in Heq'. injection Heq' as <- <- <-. split; [done|]. frame g g' Hframe.
  - destruct (contains_ref g root) eqn:Hc.
    2: { unfold intern_endpoint_path, resolve_endpoint_path in Heq. rewrite Hc in Heq. by simplify_eq/=. }
    destruct (intern_endpoint_path_spec g root steps a Hd Hr Hp Hrange Hs Hc) as (st' & p & v & g1 & Heq' & Hg & Hp' & Hframe & _).
    rewrite Heq in Heq'. injection Heq' as <- -> <-. split; [done|].
    assert (derived_ok g') as Hd' by (apply (frame_derived g g' Hok Hg); by rewrite Hframe).
    frame g g' Hframe.
  - destruct (add_link_spec g src tgt a Hd Hr Ho Hk Hs Ht) as (st' & l' & g1 & Heq' & Hg & Hk' & Hframe & _).
    rewrite Heq in Heq'. injection Heq' as <- <- <-. split; [done|].
    assert (derived_ok g') as Hd' by (apply (frame_derived g g' Hok Hg); by rewrite Hframe).
    frame g g' Hframe.
Qed.

Lemma evolves_spec g g' : graph_ok g -> evolves g g' -> grows g g' /\ graph_ok g'.
Proof.
  intros Hok H. induction H as [|g1 g2 _ IH Hs]; [by split|].
  destruct IH as [Hg Hok1]. destruct (graph_step_spec g1 g2 Hok1 Hs) as [Hg' Hok2].
  split; [by etrans|done].
Qed.

Lemma reachable_graph_ok g : reachable g -> graph_ok g.
Proof. intros H. by apply (evolves_spec new_graph g new_graph_ok). Qed.

(** ** Words *)

(** The payloads of derived types and the handles of bases are unsigned. *)
Record graph_words (g : graph) : Prop := GraphWords {
  payload_words : Forall (fun d => 0 <= derived_payload d) (derived_types g);
  base_words : Forall (fun b => 0 <= base_type b) (base_records g)
}.

Lemma define_words g t k definition values bs declares_virtual allocated st g' :
  define_record t k definition values bs declares_virtual allocated g = Some (st, g') ->
  derived_types g' = derived_types g /\ (base_records g' = base_records g \/ base_records g' = base_records g ++ bs).
Proof.
  unfold define_record. destruct (find_entry g t) as [e|]; [|intros [= _ <-]; auto].
  repeat case_match; intros; simplify_eq; cbn; auto.
Qed.

Lemma derive_words g r k n a st out g' :
  derive r k n a g = Some (st, out, g') ->
  base_records g' = base_records g /\
  (derived_types g' = derived_types g \/ derived_types g' = derived_types g ++ [DerivedTypeRecord n r k]).
Proof. unfold derive. cbv zeta. repeat case_match; intros; simplify_eq; cbn; auto. Qed.

Lemma graph_step_words g g' : graph_ok g -> graph_step g g' -> graph_words g -> graph_words g'.
Proof.
  intros Hok Hstep [Hp Hb]. pose proof Hok as [Hd Hr Ho Hl Hps Hk].
  destruct Hstep as [i k a Hi|t k def vs bs dv al st g' Ht _ Hbs Heq|i t fl v a st o g' Hi Ht Hf Heq
    |r k n a st out g' Hrange Hn Heq|root steps a st out g' Hrange Hs Heq|src tgt a st l g' Hs Ht Heq].
  - destruct (declare_spec g i k a Hr Hl Hi) as (st & t & g' & -> & _ & _ & _ & Hframe & _). rewrite Hframe. by split.
  - apply define_words in Heq as [Hde Hbe]. split; [by rewrite Hde|].
    destruct Hbe as [->| ->]; [done|]. by apply Forall_app.
  - destruct (contains_ref g t) eqn:Hc.
    2: { unfold add_object in Heq. rewrite Hc, orb_true_r in Heq. simpl in Heq. by simplify_eq. }
    destruct (denotes_exists g t Hd Hc) as [c Hden].
    destruct (add_object_spec g i t c fl v a Hd Ho Hl Hi Hf Ht Hden) as (st' & o' & g1 & Heq' & _ & _ & _ & Hframe & _).
    rewrite Heq in Heq'. injection Heq' as _ _ <-. rewrite Hframe. by split.
  - apply derive_words in Heq as [Hbe Hde]. split; [|by rewrite Hbe].
    destruct Hde as [->| ->]; [done|]. apply Forall_app. split; [done|]. by apply Forall_singleton.
  - destruct (contains_ref g root) eqn:Hc.
    2: { unfold intern_endpoint_path, resolve_endpoint_path in Heq. rewrite Hc in Heq. by simplify_eq/=. }
    destruct (intern_endpoint_path_spec g root steps a Hd Hr Hps Hrange Hs Hc) as (st' & p & v & g1 & Heq' & _ & _ & Hframe & _).
    rewrite Heq in Heq'. injection Heq' as _ _ <-. rewrite Hframe. by split.
  - destruct (add_link_spec g src tgt a Hd Hr Ho Hk Hs Ht) as (st' & l' & g1 & Heq' & _ & _ & Hframe & _).
    rewrite Heq in Heq'. injection Heq' as _ _ <-. rewrite Hframe. by split.
Qed.

Lemma reachable_words g : reachable g -> graph_words g.
Proof.
  intros H. induction H as [|g1 g2 H IH Hs]; [by split|].
  apply (graph_step_words g1 g2); [by apply reachable_graph_ok|done..].
Qed.

(** ** Inheritance *)

(** [b] is a base of the record [t]. *)
Definition base_of (g : graph) (b t : type_handle) : Prop := b ∈ base_type <$> bases g t.

(** The position at which the bases of a record begin. *)
Definition bases_position (g : graph) (t : type_handle) : Z :=
  match find_entry g t with
  | Some e => if bool_decide (bases g t = []) then 0 else range_begin (entry_bases e) + 1
  | None => 0
  end.

Lemma bases_defined g t b : b ∈ bases g t -> exists e, find_entry g t = Some e /\ defined e = true.
Proof.
  unfold bases. destruct (find_entry g t) as [e|]; [|by intros ?%not_elem_of_nil].
  destruct (defined e) eqn:Hd; [|by intros ?%not_elem_of_nil]. intros _. by exists e.
Qed.

Lemma bases_range_of g t e :
  find_entry g t = Some e -> defined e = true -> records_ok g ->
  bases g t = range_of (base_records g) (entry_bases e) /\ entry_ok g e.
Proof.
  intros He Hd Hr. pose proof He as He2. unfold find_entry in He2. destruct (contains_type g t); [|done].
  pose proof (entries_ok g Hr _ _ He2 Hd) as Hok. split; [|done].
  unfold bases. rewrite He, Hd. cbn [negb orb]. destruct (Z.eqb_spec (range_count (entry_bases e)) 0) as [Hz|]; [|done].
  destruct (bases_range g e Hok) as (Hb & Hc & Hle). pose proof (length_range_of _ _ Hb Hc Hle) as Hlen.
  rewrite Hz in Hlen. symmetry. apply nil_length_inv. unfold count in Hlen. lia.
Qed.

(** The bases of a base begin before it in the array. *)
Lemma base_position g b t :
  records_ok g -> base_of g b t -> 0 <= bases_position g b < bases_position g t.
Proof.
  intros Hr Hb. unfold base_of in Hb. apply list_elem_of_fmap in Hb as (r & -> & Hin).
  destruct (bases_defined g t r Hin) as (e & He & Hd).
  destruct (bases_range_of g t e He Hd Hr) as [Hbs Hok]. pose proof (bases_ok g e Hok) as Hall.
  rewrite <- Hbs, Forall_forall in Hall. destruct (Hall r Hin) as (e' & He' & Hd' & _ & Hle & _).
  destruct (bases_range_of g (base_type r) e' He' Hd' Hr) as [Hbs' Hok'].
  destruct (bases_range g e Hok) as (H0 & _), (bases_range g e' Hok') as (H0' & Hc' & Hle').
  unfold bases_position. rewrite He, He'. rewrite (bool_decide_eq_false_2 (bases g t = [])).
  2: { intros E. rewrite E in Hin. by apply not_elem_of_nil in Hin. }
  case_bool_decide as Hnil; [lia|].
  assert (range_count (entry_bases e') <> 0); [|lia]. intros Hz. apply Hnil. rewrite Hbs'.
  pose proof (length_range_of _ _ H0' Hc' Hle') as Hlen. rewrite Hz in Hlen.
  apply nil_length_inv. unfold count in Hlen. lia.
Qed.

(** ** Stability *)

(** What was said of a handle, a reference or a path stays true. *)
Record keeps_meaning (g g' : graph) : Prop := KeepsMeaning {
  kept_types : forall r c, denotes g r c -> denotes g' r c;
  kept_definitions : forall t e, find_entry g t = Some e -> defined e = true ->
    find_entry g' t = Some e /\ members g' t = members g t /\ bases g' t = bases g t;
  kept_identities : forall t i, 1 <= t -> contains_type g t = true -> type_identity g t = i ->
    contains_type g' t = true /\ type_identity g' t = i;
  kept_objects : forall o e v, find_object_entry g o = Some e -> construction_of_object g o = Some v ->
    find_object_entry g' o = Some e /\ construction_of_object g' o = Some v;
  kept_paths : forall p root steps value, interned g p root steps value -> interned g' p root steps value;
  kept_links : forall l source target, bound g l source target -> bound g' l source target
}.

Lemma interned_grows g g' p root steps value :
  paths_ok g -> grows g g' -> interned g p root steps value -> interned g' p root steps value.
Proof.
  intros Hp Hg (Hp1 & r & He & Hroot & Hs & Hv). split; [done|]. exists r. pose proof (endpoint_path_grows g g' Hg p r He) as He'.
  split; [done|]. split; [done|]. split; [|done]. unfold endpoint_path_steps in *. rewrite He in Hs. rewrite He'.
  rewrite <- Hs. unfold endpoint_path in He. destruct (_ || _); [done|].
  destruct (at_handle (endpoint_paths g) p) as [r'|] eqn:Ha; [|done]. destruct (_ && _); [|done]. simplify_eq.
  destruct (path_range g r (paths_resolved g Hp _ r Ha)) as (Hb & Hc & Hle).
  apply range_of_prefix; [apply Hg|lia..].
Qed.

Lemma grows_keeps g g' : graph_ok g -> graph_ok g' -> grows g g' -> keeps_meaning g g'.
Proof.
  intros Hok Hok' Hg. pose proof (ok_records g Hok) as Hr. pose proof (ok_records g' Hok') as Hr'. split.
  - intros r c. by apply denotes_grows.
  - intros t e He Hd. pose proof (find_defined_grows g g' Hg t e He Hd) as He'.
    destruct (bases_range_of g t e He Hd Hr) as [Hb Hek], (bases_range_of g' t e He' Hd Hr') as [Hb' _].
    split; [done|]. split.
    + unfold members. rewrite He, He', Hd. destruct (negb true || _); [done|].
      destruct (members_range g e Hek) as (? & ? & ?). apply range_of_prefix; [apply Hg|lia..].
    + rewrite Hb, Hb'. destruct (bases_range g e Hek) as (? & ? & ?). apply range_of_prefix; [apply Hg|lia..].
  - intros t i Ht Hc Hid. pose proof (contains_type_grows g g' Hg t Hc) as Hc'. split; [done|].
    destruct (contains_type_at g t Hr Hc Ht) as (e & j & _ & _ & Hj & Hid' & _).
    unfold type_identity. rewrite Hc', (at_handle_prefix _ _ _ _ (grows_type_identities _ _ Hg) Hj). simpl. congruence.
  - intros o e v He Hv. split; [by apply (find_object_entry_grows g g')|by apply (construction_of_object_grows g g')].
  - intros p root steps value. apply interned_grows; [apply Hok|done].
  - intros l source target [Hl Hf]. split; [done|]. unfold find_link in *.
    destruct (contains_link g l) eqn:Hc; [|done]. unfold contains_link in *. unbool.
    pose proof (count_prefix _ _ (grows_links _ _ Hg)).
    rewrite (proj2 (Z.eqb_neq _ _)), (proj2 (Z.leb_le _ _)) by lia.
    by apply (at_handle_prefix _ _ _ _ (grows_links _ _ Hg)).
Qed.

(** ** Canonical paths and links *)

Lemma interned_record g p root steps value :
  paths_ok g -> interned g p root steps value ->
  resolve_endpoint_path g root steps = Some (Some value) /\ 1 <= p /\ 0 <= root < 2 ^ 32 /\
  Forall (fun s => 0 <= step_value s) steps /\ contains_ref g root = true /\
  path_keys g !! Z.to_nat (p - 1) = Some (root, steps).
Proof.
  intros Hp (Hp1 & r & He & <- & Hs & <-). unfold endpoint_path_steps in Hs. rewrite He in Hs.
  unfold endpoint_path in He. destruct (_ || _) eqn:Ev; [done|].
  destruct (at_handle (endpoint_paths g) p) as [r'|] eqn:Ha; [|done]. destruct (_ && _); [|done]. simplify_eq.
  destruct (paths_resolved g Hp _ r Ha) as [_ [Hroot Hc] Hv Hres]. split; [done|].
  do 3 (split; [done|]). split; [done|by apply path_key_at].
Qed.

Lemma interned_unique g p p' root steps value value' :
  paths_ok g -> interned g p root steps value -> interned g p' root steps value' -> p = p' /\ value = value'.
Proof.
  intros Hp Hi Hi'. destruct (interned_record g p root steps value Hp Hi) as (Hres & Hp1 & _ & _ & _ & Hk).
  destruct (interned_record g p' root steps value' Hp Hi') as (Hres' & Hp1' & _ & _ & _ & Hk').
  pose proof (NoDup_lookup _ _ _ _ (dense_distinct _ _ _ _ _ _ _ _ _ (path_indexed g Hp)) Hk Hk').
  split; [lia|congruence].
Qed.

Lemma bound_record g l source target :
  bound g l source target -> 1 <= l /\ links g !! Z.to_nat (l - 1) = Some (LinkRecord source target).
Proof. intros [Hl Hf]. split; [done|]. unfold find_link in Hf. by destruct (contains_link g l). Qed.

Lemma bound_unique g l l' source source' target :
  links_ok g -> bound g l source target -> bound g l' source' target -> l = l' /\ source = source'.
Proof.
  intros Hok [Hl Hi]%bound_record [Hl' Hi']%bound_record.
  assert (Z.to_nat (l - 1) = Z.to_nat (l' - 1)) as Heq.
  { apply (NoDup_lookup (link_keys g) _ _ (link_target_key target)).
    - apply (dense_distinct _ _ _ _ _ _ _ _ _ (link_indexed g Hok)).
    - unfold link_keys. by rewrite list_lookup_fmap, Hi.
    - unfold link_keys. by rewrite list_lookup_fmap, Hi'. }
  rewrite <- Heq, Hi in Hi'. split; [lia|congruence].
Qed.

Lemma bound_typed g l source target :
  graph_ok g -> bound g l source target -> compatible_endpoints g source target.
Proof.
  intros Hok [_ Hi]%bound_record. destruct (links_typed g (ok_links g Hok) _ _ Hi) as [_ (s & t & ? & ? & ?)].
  by exists s, t.
Qed.

(** * Properties *)

(** C20: In every graph a program can build, each type reference of the graph stands for one
    legal C++ type (no reference to a reference or to [void], no array of references, a
    positive bound for bounded arrays only), and two references that stand for the same
    type are the same word. *)
Theorem types_legal_and_canonical (g : graph) :
  reachable g ->
  (forall r, contains_ref g r = true -> exists c, denotes g r c /\ legal c = true) /\
  (forall r r' c, 0 <= r < 2 ^ 32 -> 0 <= r' < 2 ^ 32 -> denotes g r c -> denotes g r' c -> r = r').
Proof.
  intros Hd%reachable_graph_ok%ok_derived. split.
  - intros r Hc. destruct (denotes_exists g r Hd Hc) as [c Hden]. exists c.
    split; [done|by eapply denotes_legal].
  - intros r r' c. by apply denotes_injective.
Qed.

(** [derive] on a type of the graph always returns: with a reference that stands for the
    derived type, exactly when that type is legal; refusing it and leaving the graph as it
    is when it is not; and with [io_error] only when memory or the payloads are exhausted. *)
Theorem derive_outcomes (g : graph) (r : type_ref) (k : derived_type_kind) (n : Z) (c : cpp_type)
    (a : derive_allocation) :
  reachable g -> 0 <= r < 2 ^ 32 -> denotes g r c ->
  exists st out g', derive r k n a g = Some (st, out, g') /\ derive_result r k n c a g g' st out.
Proof.
  intros Hok%reachable_graph_ok Hr Hc.
  destruct (derive_spec g r k n c a (ok_derived g Hok) Hc Hr) as (st & out & g' & ? & _ & _ & _ & ?).
  by exists st, out, g'.
Qed.

(** C21: Nothing that was given out changes its meaning: however a graph evolves, the
    references stand for the same types, a defined record keeps its members and bases, a
    type its identity, an object its type and initial value, a path its steps and type, a
    link its endpoints. *)
Theorem meanings_stable (g g' : graph) :
  reachable g -> evolves g g' -> keeps_meaning g g'.
Proof.
  intros Hok%reachable_graph_ok H. destruct (evolves_spec g g' Hok H) as [Hg Hok']. by apply grows_keeps.
Qed.

(** C22: Inheritance has no cycles: the relation between a record and its bases is well
    founded in every graph a program can build. *)
Theorem inheritance_well_founded (g : graph) : reachable g -> well_founded (base_of g).
Proof.
  intros Hr%reachable_graph_ok%ok_records.
  apply (wf_incl _ _ (fun b t => 0 <= bases_position g b < bases_position g t)).
  - intros b t Hb. by apply base_position.
  - apply (wf_inverse_image _ _ _ (bases_position g) (Z.lt_wf 0)).
Qed.

(** C23: A path handle leads from the type of its root to the type it is said to have, step
    by step through members and array elements, and a root with its steps has one handle. *)
Theorem endpoint_paths_lead (g : graph) (p : endpoint_path_handle) (root : type_ref)
    (steps : list endpoint_path_step) (value : type_ref) :
  reachable g -> interned g p root steps value ->
  (exists c c', denotes g root c /\ denotes g value c' /\ path_leads g c steps c') /\
  (forall p' value', interned g p' root steps value' -> p' = p /\ value' = value).
Proof.
  intros Hok%reachable_graph_ok Hi. pose proof (ok_paths g Hok) as Hp. split.
  - destruct (interned_record g p root steps value Hp Hi) as (Hres & _ & Hrange & Hs & Hc & _).
    destruct (denotes_exists g root (ok_derived g Hok) Hc) as [c Hden].
    destruct (resolve_path_spec g root c steps (ok_derived g Hok) (ok_records g Hok) Hs Hden Hrange)
      as (o & Ho & Hlead). rewrite Hres in Ho. simplify_eq.
    destruct (Hlead value eq_refl) as (_ & _ & _ & c' & Hc' & Hpath). by exists c, c'.
  - intros p' value' Hi'. by apply (interned_unique g p' p root steps value' value Hp).
Qed.

(** A target endpoint has one link: what binds it is a source of the type the target
    refers to, and no other link binds it. *)
Theorem one_link_per_target (g : graph) (l : link_handle) (source target : object_endpoint) :
  reachable g -> bound g l source target ->
  compatible_endpoints g source target /\
  (forall l' source', bound g l' source' target -> l' = l /\ source' = source).
Proof.
  intros Hok%reachable_graph_ok Hb. split; [by apply (bound_typed g l)|].
  intros l' source' Hb'. by apply (bound_unique g l' l source' source target (ok_links g Hok)).
Qed.

(** Handles and identities are inverse: [find_type] and [find_object] answer a handle
    exactly when the graph contains it with that identity. *)
Theorem identities_locate (g : graph) (i : identity_ref) (h : Z) :
  reachable g ->
  (identity_fits i kind_type ->
    (find_type g i = h /\ h <> 0 <-> 1 <= h /\ contains_type g h = true /\ type_identity g h = i)) /\
  (identity_fits i kind_object ->
    (find_object g i = h /\ h <> 0 <-> 1 <= h /\ contains_object g h = true /\ object_identity g h = i)).
Proof.
  intros [_ Hr Ho Hl _ _]%reachable_graph_ok. split; intros Hi.
  - by apply find_type_spec.
  - by apply find_object_spec.
Qed.

(** ** A small project *)

(** [struct A { int x[2]; };  struct B : A { int& r; };  A a;  B b;  b.r = a.x[1];] *)
Definition after {A} (o : option (A * graph)) (g : graph) : graph :=
  match o with Some (_, g') => g' | None => g end.

Definition plenty : allocations := Allocations true true.
Definition room : derive_allocation := DeriveAllocation true true.
Definition int_ref : type_ref := intrinsic signed_int.
Definition no_bytes : list byte := replicate 7 x00.

Definition sample1 : graph := (declare_record (Identity.make 2 kind_type) struct_type plenty new_graph).2.
Definition sample2 : graph := (declare_record (Identity.make 3 kind_type) struct_type plenty sample1).2.
Definition sample3 : graph := after (derive int_ref bounded_array 2 room sample2) sample2.
Definition sample4 : graph := after (derive int_ref lvalue_reference 0 room sample3) sample3.
Definition int_array : type_ref := make_ref ref_derived 1.
Definition int_reference : type_ref := make_ref ref_derived 2.
Definition members_a : list member_record := [MemberRecord 1 int_array public_access].
Definition members_b : list member_record := [MemberRecord 2 int_reference public_access].
Definition sample5 : graph := after (define_record 1 struct_type members_a [] [] false true sample4) sample4.
Definition base_a : list base_record := [BaseRecord 1 public_access 0 0].
Definition sample6 : graph := after (define_record 2 struct_type members_b [] base_a false true sample5) sample5.
Definition sample7 : graph :=
  after (add_object (Identity.make 4 kind_object) (make_ref ref_named 1) 0 no_construction plenty sample6) sample6.
Definition sample8 : graph :=
  after (add_object (Identity.make 5 kind_object) (make_ref ref_named 2) 0 no_construction plenty sample7) sample7.
Definition second_element : list endpoint_path_step :=
  [EndpointPathStep 0 step_member no_bytes; EndpointPathStep 1 step_array_index no_bytes].
Definition sample9 : graph :=
  after (intern_endpoint_path (make_ref ref_named 1) second_element room sample8) sample8.
Definition source_end : object_endpoint := ObjectEndpoint 1 (from_path 1).
Definition target_end : object_endpoint := ObjectEndpoint 2 (member_endpoint 0).
Definition sample_graph : graph := after (add_link source_end target_end room sample9) sample9.

Lemma evolves_after {A} g (o : option (A * graph)) :
  (forall x g', o = Some (x, g') -> graph_step g g') -> evolves g (after o g).
Proof.
  intros H. destruct o as [[x g']|]; [|by constructor]. eapply evolves_step; [by constructor|by eapply H].
Qed.

Lemma evolves_trans g1 g2 g3 : evolves g1 g2 -> evolves g2 g3 -> evolves g1 g3.
Proof. intros H12 H23. induction H23; [done|by eapply evolves_step]. Qed.

Lemma sample6_reachable : reachable sample6.
Proof.
  assert (reachable sample2) as H2.
  { eapply evolves_step; [eapply evolves_step; [by constructor|]|]; apply step_declare; by vm_compute. }
  apply (evolves_trans _ sample2); [done|].
  apply (evolves_trans _ sample3); [unfold sample3 at 1; refine (evolves_after _ _ _); intros [] ? E; refine (step_derive _ _ _ _ _ _ _ _ _ _ E); clear; by vm_compute|].
  apply (evolves_trans _ sample4); [unfold sample4 at 1; refine (evolves_after _ _ _); intros [] ? E; refine (step_derive _ _ _ _ _ _ _ _ _ _ E); clear; by vm_compute|].
  apply (evolves_trans _ sample5).
  - unfold sample5 at 1; refine (evolves_after _ _ _). intros st g' E. refine (step_define _ _ _ _ _ _ _ _ _ _ _ _ _ E); clear; [done|..]; repeat constructor; by vm_compute.
  - unfold sample6 at 1; refine (evolves_after _ _ _). intros st g' E. refine (step_define _ _ _ _ _ _ _ _ _ _ _ _ _ E); clear; [done|..]; repeat constructor; by vm_compute.
Qed.

Lemma sample_reachable_graph : reachable sample_graph.
Proof.
  apply (evolves_trans _ sample6); [apply sample6_reachable|].
  apply (evolves_trans _ sample7); [unfold sample7 at 1; refine (evolves_after _ _ _); intros [] ? E; refine (step_object _ _ _ _ _ _ _ _ _ _ _ _ E); clear; by vm_compute|].
  apply (evolves_trans _ sample8); [unfold sample8 at 1; refine (evolves_after _ _ _); intros [] ? E; refine (step_object _ _ _ _ _ _ _ _ _ _ _ _ E); clear; by vm_compute|].
  apply (evolves_trans _ sample9).
  - unfold sample9 at 1; refine (evolves_after _ _ _). intros [] ? E. refine (step_path _ _ _ _ _ _ _ _ _ E); clear; [by vm_compute|]. repeat constructor; by vm_compute.
  - unfold sample_graph at 1; refine (evolves_after _ _ _). intros [] ? E. refine (step_link _ _ _ _ _ _ _ _ _ E); clear; by vm_compute.
Qed.

Lemma types_legal_and_canonical_witness :
  (forall r, contains_ref sample_graph r = true -> exists c, denotes sample_graph r c /\ legal c = true) /\
  (forall r r' c, 0 <= r < 2 ^ 32 -> 0 <= r' < 2 ^ 32 -> denotes sample_graph r c ->
     denotes sample_graph r' c -> r = r').
Proof. apply types_legal_and_canonical. apply sample_reachable_graph. Defined.

Lemma derive_outcomes_witness :
  exists st out g', derive int_reference pointer 0 room sample_graph = Some (st, out, g') /\
    derive_result int_reference pointer 0 (T_derived lvalue_reference 0 (T_intrinsic signed_int)) room
      sample_graph g' st out.
Proof.
  apply derive_outcomes; [apply sample_reachable_graph|by vm_compute|].
  apply (denotes_derived _ _ (DerivedTypeRecord 0 int_ref lvalue_reference)); [by vm_compute|].
  apply denotes_intrinsic. by vm_compute.
Defined.

Lemma meanings_stable_witness : keeps_meaning new_graph sample_graph.
Proof. apply meanings_stable; [apply evolves_refl|apply sample_reachable_graph]. Defined.

Lemma inheritance_well_founded_witness : well_founded (base_of sample_graph).
Proof. apply inheritance_well_founded. apply sample_reachable_graph. Defined.

Lemma endpoint_paths_lead_witness :
  (exists c c', denotes sample_graph (make_ref ref_named 1) c /\ denotes sample_graph int_ref c' /\
     path_leads sample_graph c second_element c') /\
  (forall p' value', interned sample_graph p' (make_ref ref_named 1) second_element value' ->
     p' = 1 /\ value' = int_ref).
Proof.
  apply endpoint_paths_lead; [apply sample_reachable_graph|].
  split; [done|]. eexists. split; [by vm_compute|]. by vm_compute.
Defined.

Lemma one_link_per_target_witness :
  compatible_endpoints sample_graph source_end target_end /\
  (forall l' source', bound sample_graph l' source' target_end -> l' = 1 /\ source' = source_end).
Proof.
  apply one_link_per_target; [apply sample_reachable_graph|]. split; [done|by vm_compute].
Defined.

Lemma identities_locate_witness :
  (identity_fits (Identity.make 3 kind_type) kind_type ->
    (find_type sample_graph (Identity.make 3 kind_type) = 2 /\ 2 <> 0 <->
     1 <= 2 /\ contains_type sample_graph 2 = true /\ type_identity sample_graph 2 = Identity.make 3 kind_type)) /\
  (identity_fits (Identity.make 3 kind_type) kind_object ->
    (find_object sample_graph (Identity.make 3 kind_type) = 2 /\ 2 <> 0 <->
     1 <= 2 /\ contains_object sample_graph 2 = true /\ object_identity sample_graph 2 = Identity.make 3 kind_type)).
Proof. apply identities_locate. apply sample_reachable_graph. Defined.

(** The second record inherits from the first, and its reference is bound once: to another
    element it is refused. *)
Example sample_links :
  bases sample_graph 2 = base_a /\ find_link sample_graph 1 = Some (LinkRecord source_end target_end) /\
  (let '(p, g) := match intern_endpoint_path (make_ref ref_named 1)
       [EndpointPathStep 0 step_member no_bytes; EndpointPathStep 0 step_array_index no_bytes] room sample_graph with
     | Some (_, (p, _), g) => (p, g) | None => (0, sample_graph) end in
   add_link (ObjectEndpoint 1 (from_path p)) target_end room g = Some (project_configuration_invalid, 0, g)).
Proof. by vm_compute. Qed.
