(* ===== verification/ImageBytes.v ===== *)
(** Little-endian words in the bytes of a persisted image: the [read_u*] and [write_u*]
    helpers of project/persistence/compiled_project.cpp (and their copies in the other
    image writers), whose portable branch and [memcpy] branch store the same bytes.  An
    address is an offset into the image, and an access outside it has no result. *)

From S2P Require Import Prelude.

Local Open Scope Z_scope.

(** ** Reading and writing *)

(** The word of [bs], its first byte the lowest. *)
Fixpoint le_value (bs : list byte) : Z :=
  match bs with
  | [] => 0
  | b :: bs => Z.lor (bz b) (Z.shiftl (le_value bs) 8)
  end.

(** The [n] lowest bytes of a word. *)
Fixpoint le_bytes (n : nat) (value : Z) : list byte :=
  match n with
  | O => []
  | S n => zb (Z.land value 0xff) :: le_bytes n (Z.shiftr value 8)
  end.

(** [size] bytes at [offset]; [None] is an access out of bounds. *)
Definition bytes_at (image : list byte) (offset size : Z) : option (list byte) :=
  if (0 <=? offset) && (0 <=? size) && (offset + size <=? Z.of_nat (length image))
  then Some (take (Z.to_nat size) (drop (Z.to_nat offset) image))
  else None.

Definition read_u8 (image : list byte) (offset : Z) : option Z := le_value <$> bytes_at image offset 1.
Definition read_u16 (image : list byte) (offset : Z) : option Z := le_value <$> bytes_at image offset 2.
Definition read_u32 (image : list byte) (offset : Z) : option Z := le_value <$> bytes_at image offset 4.
Definition read_u64 (image : list byte) (offset : Z) : option Z := le_value <$> bytes_at image offset 8.

Definition zero_bytes (image : list byte) (offset size : Z) : option bool :=
  forallb (fun b => bool_decide (b = x00)) <$> bytes_at image offset size.

(** The bytes [bs] stored at [offset]. *)
Definition store_bytes (image : list byte) (offset : Z) (bs : list byte) : option (list byte) :=
  if (0 <=? offset) && (offset + Z.of_nat (length bs) <=? Z.of_nat (length image))
  then Some (take (Z.to_nat offset) image ++ bs ++ drop (Z.to_nat offset + length bs) image)
  else None.

Definition write_u16 (image : list byte) (offset value : Z) : option (list byte) :=
  store_bytes image offset (le_bytes 2 value).
Definition write_u32 (image : list byte) (offset value : Z) : option (list byte) :=
  store_bytes image offset (le_bytes 4 value).
Definition write_u64 (image : list byte) (offset value : Z) : option (list byte) :=
  store_bytes image offset (le_bytes 8 value).

(** ** Words and their bytes *)

Lemma le_bytes_length n v : length (le_bytes n v) = n.
Proof. revert v. induction n as [|n IH]; intros v; cbn; [done|]. by rewrite IH. Qed.

Lemma le_value_range bs : 0 <= le_value bs < 2 ^ (8 * Z.of_nat (length bs)).
Proof.
  induction bs as [|b bs IH]; [done|]. cbn [le_value length].
  replace (8 * Z.of_nat (S (length bs))) with (8 + 8 * Z.of_nat (length bs)) by lia.
  apply lor_bound; [lia| |].
  - pose proof (bz_range b). rewrite Z.pow_add_r by lia. nia.
  - rewrite Z.shiftl_mul_pow2 by lia. rewrite Z.pow_add_r by lia. change (2 ^ 8) with 256. nia.
Qed.

(** A word written and read back is reduced to its width. *)
Lemma le_value_bytes n v : le_value (le_bytes n v) = v mod 2 ^ (8 * Z.of_nat n).
Proof.
  revert v. induction n as [|n IH]; intros v.
  { cbn. by rewrite Z.mod_1_r. }
  cbn [le_bytes le_value]. rewrite IH, bz_zb. unfold u8.
  replace (8 * Z.of_nat (S n)) with (8 + 8 * Z.of_nat n) by lia.
  change 0xff with (2 ^ 8 - 1). rewrite land_ones_mod, Z.mod_mod by lia.
  apply Z.bits_inj'. intros i Hi. rewrite Z.lor_spec, shiftl_testbit by lia.
  destruct (Z.ltb_spec i 8).
  - rewrite !Z.testbit_mod_pow2 by lia. rewrite (Z.testbit_neg_r _ (i - 8)) by lia.
    rewrite !(proj2 (Z.ltb_lt i _)) by lia. btauto.
  - rewrite !Z.testbit_mod_pow2, Z.shiftr_spec by lia. replace (i - 8 + 8) with i by lia.
    rewrite (proj2 (Z.ltb_ge i 8)) by lia.
    destruct (Z.ltb_spec (i - 8) (8 * Z.of_nat n)), (Z.ltb_spec i (8 + 8 * Z.of_nat n)); lia || btauto.
Qed.

(** ** Accesses in bounds *)

Lemma bytes_at_some image offset size :
  0 <= offset -> 0 <= size -> offset + size <= Z.of_nat (length image) ->
  exists bs, bytes_at image offset size = Some bs /\ Z.of_nat (length bs) = size.
Proof.
  intros. unfold bytes_at. rewrite !(proj2 (Z.leb_le _ _)) by lia. cbn. eexists. split; [done|].
  rewrite length_take, length_drop. lia.
Qed.

Lemma bytes_at_length image offset size bs :
  bytes_at image offset size = Some bs -> Z.of_nat (length bs) = size /\ 0 <= offset /\
    offset + size <= Z.of_nat (length image).
Proof.
  unfold bytes_at. intros H. split_match. unbool.
  rewrite length_take, length_drop. lia.
Qed.

Lemma read_u8_some image offset :
  0 <= offset -> offset + 1 <= Z.of_nat (length image) ->
  exists v, read_u8 image offset = Some v /\ 0 <= v < 2 ^ 8.
Proof.
  intros. destruct (bytes_at_some image offset 1) as (bs & E & Hl); [lia..|].
  unfold read_u8. rewrite E. eexists. split; [done|]. pose proof (le_value_range bs).
  by replace (length bs) with 1%nat in * by lia.
Qed.

Lemma read_u16_some image offset :
  0 <= offset -> offset + 2 <= Z.of_nat (length image) ->
  exists v, read_u16 image offset = Some v /\ 0 <= v < 2 ^ 16.
Proof.
  intros. destruct (bytes_at_some image offset 2) as (bs & E & Hl); [lia..|].
  unfold read_u16. rewrite E. eexists. split; [done|]. pose proof (le_value_range bs).
  by replace (length bs) with 2%nat in * by lia.
Qed.

Lemma read_u32_some image offset :
  0 <= offset -> offset + 4 <= Z.of_nat (length image) ->
  exists v, read_u32 image offset = Some v /\ 0 <= v < 2 ^ 32.
Proof.
  intros. destruct (bytes_at_some image offset 4) as (bs & E & Hl); [lia..|].
  unfold read_u32. rewrite E. eexists. split; [done|]. pose proof (le_value_range bs).
  by replace (length bs) with 4%nat in * by lia.
Qed.

Lemma read_u64_some image offset :
  0 <= offset -> offset + 8 <= Z.of_nat (length image) ->
  exists v, read_u64 image offset = Some v /\ 0 <= v < 2 ^ 64.
Proof.
  intros. destruct (bytes_at_some image offset 8) as (bs & E & Hl); [lia..|].
  unfold read_u64. rewrite E. eexists. split; [done|]. pose proof (le_value_range bs).
  by replace (length bs) with 8%nat in * by lia.
Qed.

Lemma zero_bytes_some image offset size :
  0 <= offset -> 0 <= size -> offset + size <= Z.of_nat (length image) ->
  exists b, zero_bytes image offset size = Some b.
Proof.
  intros. destruct (bytes_at_some image offset size) as (bs & E & _); [done..|].
  unfold zero_bytes. rewrite E. by eexists.
Qed.

(** ** Reading what was stored *)

Lemma bytes_at_app pre bs post offset size :
  offset = Z.of_nat (length pre) -> size = Z.of_nat (length bs) ->
  bytes_at (pre ++ bs ++ post) offset size = Some bs.
Proof.
  intros -> ->. unfold bytes_at. rewrite !length_app.
  rewrite !(proj2 (Z.leb_le _ _)) by lia. cbn. rewrite !Nat2Z.id, drop_app_length, take_app_length. done.
Qed.

Lemma store_bytes_length image offset bs image' :
  store_bytes image offset bs = Some image' -> length image' = length image.
Proof.
  unfold store_bytes. intros H. split_match. unbool.
  rewrite !length_app, length_take, length_drop. lia.
Qed.

Lemma store_bytes_some image offset bs :
  0 <= offset -> offset + Z.of_nat (length bs) <= Z.of_nat (length image) ->
  exists image', store_bytes image offset bs = Some image'.
Proof.
  intros. unfold store_bytes. rewrite !(proj2 (Z.leb_le _ _)) by lia. by eexists.
Qed.

Lemma store_bytes_read image offset bs image' :
  store_bytes image offset bs = Some image' ->
  bytes_at image' offset (Z.of_nat (length bs)) = Some bs.
Proof.
  unfold store_bytes. intros H. split_match. unbool.
  apply bytes_at_app; [|done]. rewrite length_take. lia.
Qed.

(** Bytes that a store does not touch keep their value. *)
Lemma store_bytes_other image offset bs image' o n :
  store_bytes image offset bs = Some image' ->
  o + n <= offset \/ offset + Z.of_nat (length bs) <= o ->
  bytes_at image' o n = bytes_at image o n.
Proof.
  intros H Ho. pose proof (store_bytes_length _ _ _ _ H) as Hl.
  unfold store_bytes in H. split_match. unbool. unfold bytes_at. rewrite Hl.
  destruct ((0 <=? o) && (0 <=? n) && (o + n <=? Z.of_nat (length image))) eqn:E; [|done].
  unbool. f_equal. apply list_eq. intros i.
  destruct (decide (i < Z.to_nat n)%nat); [|rewrite !lookup_ge_None_2; [done|..]; rewrite length_take; lia].
  rewrite !lookup_take_lt, !lookup_drop by lia.
  destruct Ho.
  - rewrite lookup_app_l by (rewrite length_take; lia). by rewrite lookup_take_lt by lia.
  - rewrite lookup_app_r by (rewrite length_take; lia). rewrite length_take.
    rewrite lookup_app_r by lia. rewrite lookup_drop. f_equal. lia.
Qed.
