(* ===== verification/CompiledView.v ===== *)
(** The read-only view over a compiled project image
    (project/persistence/compiled_project.hpp and .cpp: [compiled_project_view]): the
    directory of sections that [bind] accepts and every query over the records.  The
    image is any list of bytes; the theorems say that [bind] always returns, that what it
    accepts is a directory of disjoint sections inside the image, and that no query on
    an accepted image reads outside it or fails to end, whatever the bytes are. *)

From S2P Require Import Prelude Crc64 StringTable Identity GraphData GraphTypes GraphRecords GraphLinks ImageBytes.

Local Open Scope Z_scope.

(** ** The format *)

Inductive compiled_project_section :=
| sec_string_core | sec_string_index | sec_string_bytes | sec_identity_core | sec_identity_index
| sec_types | sec_type_identities | sec_members | sec_member_construction | sec_derived_types
| sec_objects | sec_object_identities | sec_object_construction | sec_links
| sec_graph_identity_index | sec_assign_records | sec_assign_bytes | sec_source_contributions
| sec_source_roots | sec_source_files | sec_source_file_indices | sec_source_paths
| sec_derived_index | sec_link_target_index | sec_endpoint_paths | sec_endpoint_path_steps
| sec_endpoint_path_index | sec_bases | sec_member_name_index.

#[export] Instance compiled_project_section_eq_dec : EqDecision compiled_project_section.
Proof. solve_decision. Defined.

(** The enumerators in the order of their values, which start at 1. *)
Definition compiled_project_sections : list compiled_project_section :=
  [sec_string_core; sec_string_index; sec_string_bytes; sec_identity_core; sec_identity_index;
   sec_types; sec_type_identities; sec_members; sec_member_construction; sec_derived_types;
   sec_objects; sec_object_identities; sec_object_construction; sec_links;
   sec_graph_identity_index; sec_assign_records; sec_assign_bytes; sec_source_contributions;
   sec_source_roots; sec_source_files; sec_source_file_indices; sec_source_paths;
   sec_derived_index; sec_link_target_index; sec_endpoint_paths; sec_endpoint_path_steps;
   sec_endpoint_path_index; sec_bases; sec_member_name_index].

Definition section_index (k : compiled_project_section) : nat :=
  match k with
  | sec_string_core => 0 | sec_string_index => 1 | sec_string_bytes => 2 | sec_identity_core => 3
  | sec_identity_index => 4 | sec_types => 5 | sec_type_identities => 6 | sec_members => 7
  | sec_member_construction => 8 | sec_derived_types => 9 | sec_objects => 10
  | sec_object_identities => 11 | sec_object_construction => 12 | sec_links => 13
  | sec_graph_identity_index => 14 | sec_assign_records => 15 | sec_assign_bytes => 16
  | sec_source_contributions => 17 | sec_source_roots => 18 | sec_source_files => 19
  | sec_source_file_indices => 20 | sec_source_paths => 21 | sec_derived_index => 22
  | sec_link_target_index => 23 | sec_endpoint_paths => 24 | sec_endpoint_path_steps => 25
  | sec_endpoint_path_index => 26 | sec_bases => 27 | sec_member_name_index => 28
  end%nat.

Inductive compiled_project_image_result := image_success | image_invalid_state | image_invalid | image_failed.

#[export] Instance compiled_project_image_result_eq_dec : EqDecision compiled_project_image_result.
Proof. solve_decision. Defined.

Definition compiled_project_format_version : Z := 10.
Definition compiled_project_header_size : Z := 256.
Definition compiled_project_directory_count : Z := 29.
Definition compiled_project_directory_entry_size : Z := 32.
Definition compiled_project_prefix_size : Z :=
  Z.land (compiled_project_header_size +
          compiled_project_directory_count * compiled_project_directory_entry_size + 63) (Z.lnot 63).

(** [SECMPV4] and a zero byte. *)
Definition image_magic : list byte := str "SECMPV4" ++ [x00].
Definition endian_marker : Z := 0x01020304.
Definition directory_offset : Z := compiled_project_header_size.
Definition directory_bytes : Z := compiled_project_directory_count * compiled_project_directory_entry_size.
Definition first_section_offset : Z := compiled_project_prefix_size.

Definition header_string_count_offset : Z := 48.
Definition header_identity_count_offset : Z := 56.
Definition header_type_count_offset : Z := 64.
Definition header_object_count_offset : Z := 72.
Definition header_link_count_offset : Z := 80.
Definition header_assign_count_offset : Z := 88.
Definition header_reserved_begin : Z := 96.
Definition header_directory_crc_offset : Z := 240.
Definition header_crc_offset : Z := 248.

Definition string_core_size : Z := 8.
Definition index_record_size : Z := 8.
Definition identity_core_size : Z := 12.
Definition type_record_size : Z := 20.
Definition type_identity_size : Z := 4.
Definition base_record_size : Z := 8.
Definition member_record_size : Z := 12.
Definition construction_record_size : Z := 16.
Definition derived_record_size : Z := 16.
Definition object_record_size : Z := 8.
Definition object_identity_size : Z := 4.
Definition link_record_size : Z := 16.
Definition endpoint_path_record_size : Z := 16.
Definition endpoint_path_step_record_size : Z := 16.
Definition graph_identity_record_size : Z := 4.
Definition assign_record_size : Z := 16.

Definition expected_record_size (k : compiled_project_section) : Z :=
  match k with
  | sec_string_core => string_core_size
  | sec_string_index => index_record_size
  | sec_string_bytes => 1
  | sec_identity_core => identity_core_size
  | sec_identity_index => index_record_size
  | sec_types => type_record_size
  | sec_type_identities => type_identity_size
  | sec_bases => base_record_size
  | sec_members => member_record_size
  | sec_member_construction => construction_record_size
  | sec_derived_types => derived_record_size
  | sec_objects => object_record_size
  | sec_object_identities => object_identity_size
  | sec_object_construction => construction_record_size
  | sec_links => link_record_size
  | sec_endpoint_paths => endpoint_path_record_size
  | sec_endpoint_path_steps => endpoint_path_step_record_size
  | sec_graph_identity_index => graph_identity_record_size
  | sec_assign_records => assign_record_size
  | sec_assign_bytes | sec_source_paths => 1
  | sec_source_contributions | sec_source_roots => 8
  | sec_source_files => 20
  | sec_source_file_indices => 4
  | sec_derived_index | sec_link_target_index | sec_endpoint_path_index | sec_member_name_index =>
      index_record_size
  end.

(** The 64-bit sums that report an overflow. *)
Definition align64 (value : Z) : option Z :=
  if size_max - 63 <? value then None else Some (Z.land (value + 63) (Z.lnot 63)).
Definition add_u64 (l r : Z) : option Z := if size_max - r <? l then None else Some (l + r).
Definition multiply_u64 (l r : Z) : option Z :=
  if negb (l =? 0) && (size_max / l <? r) then None else Some (l * r).

Fixpoint index_capacity_loop (fuel : nat) (capacity required : Z) : option Z :=
  match fuel with
  | O => None
  | S fuel =>
      if capacity <? required
      then if size_max / 2 <? capacity then Some 0
           else index_capacity_loop fuel (capacity * 2) required
      else Some capacity
  end.

(** At most 61 doublings of 8. *)
Definition index_capacity (live : Z) : option Z :=
  if size_max / 2 <? live then Some 0 else index_capacity_loop 64 8 (live * 2).

(** ** The view *)

Record section_view := SectionView {
  section_data : option Z;
  section_count : Z;
  section_record_size : Z;
  section_crc64 : Z
}.

Definition no_section : section_view := SectionView None 0 0 0.
#[export] Instance section_view_inhabited : Inhabited section_view := populate no_section.

Record compiled_view := CompiledView {
  view_bytes : option (list byte);
  view_sections : list section_view;
  string_count_value : Z;
  identity_count_value : Z;
  type_count_value : Z;
  object_count_value : Z;
  link_count_value : Z;
  assign_count_value : Z
}.

(** [reset], and the view of the default constructor. *)
Definition empty_view : compiled_view := CompiledView None (replicate 29 no_section) 0 0 0 0 0 0.

Definition view_valid (v : compiled_view) : bool := bool_decide (is_Some (view_bytes v)).

Definition section (v : compiled_view) (k : compiled_project_section) : section_view :=
  view_sections v !!! section_index k.

(** ** Binding an image *)

Definition native : evaluation := native_little.

(** The loop over the directory from the entry of [k] on: the sections and the end of the
    last one; [Some None] is the return of [invalid_image]. *)
Fixpoint bind_sections (image : list byte) (index : Z) (ks : list compiled_project_section)
    (previous_end : Z) (candidate : list section_view) : option (option (list section_view * Z)) :=
  match ks with
  | [] => Some (Some (candidate, previous_end))
  | k :: ks =>
      let entry := directory_offset + index * compiled_project_directory_entry_size in
      raw_kind ← read_u32 image entry;
      record_size ← read_u32 image (entry + 4);
      section_offset ← read_u64 image (entry + 8);
      count ← read_u64 image (entry + 16);
      section_crc ← read_u64 image (entry + 24);
      match align64 previous_end with
      | None => Some None
      | Some aligned_offset =>
          if negb (raw_kind =? index + 1) || negb (record_size =? expected_record_size k) ||
             negb (section_offset =? aligned_offset) || negb (Z.land section_offset 63 =? 0) ||
             (Z.of_nat (length image) <? section_offset) then Some None
          else
            padding ←
              (if previous_end <? section_offset
               then zero_bytes image previous_end (section_offset - previous_end) else Some true);
            if negb padding then Some None
            else
              match multiply_u64 count record_size with
              | None => Some None
              | Some byte_count =>
                  match add_u64 section_offset byte_count with
                  | None => Some None
                  | Some last =>
                      if Z.of_nat (length image) <? last then Some None
                      else bind_sections image (index + 1) ks last
                        (candidate ++ [SectionView (Some section_offset) count record_size section_crc])
                  end
              end
      end
  end.

(** The comparisons of the header before its checksums. *)
Definition header_fields_valid (image : list byte) : option bool :=
  magic ← bytes_at image 0 8;
  version ← read_u32 image 8;
  endian ← read_u32 image 12;
  header_size ← read_u32 image 16;
  directory_count ← read_u32 image 20;
  entry_size ← read_u32 image 24;
  reserved ← read_u32 image 28;
  directory ← read_u64 image 32;
  size ← read_u64 image 40;
  zeros ← zero_bytes image header_reserved_begin (header_directory_crc_offset - header_reserved_begin);
  Some (bool_decide (magic = image_magic) && (version =? compiled_project_format_version) &&
    (endian =? endian_marker) && (header_size =? compiled_project_header_size) &&
    (directory_count =? compiled_project_directory_count) &&
    (entry_size =? compiled_project_directory_entry_size) && (reserved =? 0) &&
    (directory =? directory_offset) && (size =? Z.of_nat (length image)) && zeros).

(** The checksums of the header, with its own field cleared, and of the directory. *)
Definition checksums_valid (image : list byte) : option bool :=
  header ← bytes_at image 0 compiled_project_header_size;
  stored_header_crc ← read_u64 header header_crc_offset;
  header ← write_u64 header header_crc_offset 0;
  if negb (persistence_crc64 native header =? stored_header_crc) then Some false
  else
    directory ← bytes_at image directory_offset directory_bytes;
    stored ← read_u64 image header_directory_crc_offset;
    Some (persistence_crc64 native directory =? stored).

(** The relations between the counts of the header and of the sections. *)
Definition counts_valid (v : compiled_view) : option bool :=
  let count k := section_count (section v k) in
  strings ← index_capacity (string_count_value v);
  identities ← index_capacity (if 0 <? identity_count_value v then identity_count_value v - 1 else 0);
  members ← index_capacity (count sec_members);
  derived_types ← index_capacity (count sec_derived_types);
  links ← index_capacity (count sec_links);
  paths ← index_capacity (count sec_endpoint_paths);
  Some (
    negb ((u32_max <? string_count_value v) || (identity_count_value v =? 0) ||
      (maximum_slot <? identity_count_value v) || (maximum_handle <? type_count_value v) ||
      (maximum_handle <? object_count_value v) || (u32_max <? link_count_value v) ||
      (u32_max <? assign_count_value v) || (u32_max <? count sec_string_bytes) ||
      (u32_max <? count sec_members) || (maximum_payload <? count sec_derived_types) ||
      (u32_max <? count sec_assign_bytes) ||
      (strings =? 0) || (identities =? 0) || (members =? 0) || (derived_types =? 0) ||
      (links =? 0) || (paths =? 0) ||
      (maximum_handle <? count sec_endpoint_paths) || (u32_max <? count sec_endpoint_path_steps) ||
      negb (count sec_string_core =? string_count_value v) ||
      negb (count sec_string_index =? strings) ||
      negb (count sec_identity_core =? identity_count_value v) ||
      negb (count sec_identity_index =? identities) ||
      negb (count sec_types =? type_count_value v) ||
      negb (count sec_type_identities =? type_count_value v) ||
      (u32_max <? count sec_bases) ||
      negb (count sec_members =? count sec_member_construction) ||
      negb (count sec_member_name_index =? members) ||
      negb (count sec_derived_index =? derived_types) ||
      negb (count sec_objects =? object_count_value v) ||
      negb (count sec_object_identities =? object_count_value v) ||
      (graph_object_construction_slot_mask <? count sec_object_construction) ||
      negb (count sec_links =? link_count_value v) ||
      negb (count sec_link_target_index =? links) ||
      negb (count sec_endpoint_path_index =? paths) ||
      negb (count sec_graph_identity_index =? identity_count_value v + 1) ||
      negb (count sec_assign_records =? assign_count_value v)) &&
    negb ((u32_max <? count sec_source_files) || (u32_max <? count sec_source_contributions) ||
      negb (count sec_source_roots =? count sec_source_files) ||
      negb (count sec_source_file_indices =? count sec_source_contributions) ||
      (u32_max <? count sec_source_paths))).

(** The result and the view afterwards; a refused image leaves the view reset.  The
    header counts fit [std::size_t], which has their width. *)
Definition bind (image : list byte) : option (compiled_project_image_result * compiled_view) :=
  if Z.of_nat (length image) <? first_section_offset then Some (image_invalid, empty_view)
  else
    fields ← header_fields_valid image;
    if negb fields then Some (image_invalid, empty_view)
    else
      checksums ← checksums_valid image;
      if negb checksums then Some (image_invalid, empty_view)
      else
        bound ← bind_sections image 0 compiled_project_sections first_section_offset [];
        match bound with
        | None => Some (image_invalid, empty_view)
        | Some (candidate, previous_end) =>
            if negb (previous_end =? Z.of_nat (length image)) then Some (image_invalid, empty_view)
            else
              string_count ← read_u64 image header_string_count_offset;
              identity_count ← read_u64 image header_identity_count_offset;
              type_count ← read_u64 image header_type_count_offset;
              object_count ← read_u64 image header_object_count_offset;
              link_count ← read_u64 image header_link_count_offset;
              assign_count ← read_u64 image header_assign_count_offset;
              let v := CompiledView (Some image) candidate string_count identity_count type_count
                object_count link_count assign_count in
              counts ← counts_valid v;
              if negb counts then Some (image_invalid, empty_view) else Some (image_success, v)
        end.

(** ** Decoding words *)

Definition string_from_raw (v : compiled_view) (value : Z) : string_id :=
  if negb (value =? 0) && (value <=? string_count_value v) then value else 0.
Definition type_from_raw (v : compiled_view) (value : Z) : type_handle :=
  if negb (value =? 0) && (value <=? type_count_value v) then value else 0.
Definition object_from_raw (v : compiled_view) (value : Z) : object_handle :=
  if negb (value =? 0) && (value <=? object_count_value v) then value else 0.
Definition link_from_raw (v : compiled_view) (value : Z) : link_handle :=
  if negb (value =? 0) && (value <=? link_count_value v) then value else 0.
Definition member_from_raw (v : compiled_view) (value : Z) : member_index := value.

Definition type_ref_from_raw (v : compiled_view) (value : Z) : type_ref :=
  let p := payload value in
  if p =? 0 then 0
  else match ref_kind value with
  | ref_intrinsic => if intrinsic_number nullptr_type <? p then 0 else value
  | ref_named => if type_count_value v <? p then 0 else value
  | ref_derived => if section_count (section v sec_derived_types) <? p then 0 else value
  | ref_invalid => 0
  end.

(** The address of a record, and the reads through the view. *)
Definition record_at (v : compiled_view) (k : compiled_project_section) (index size : Z) : option Z :=
  data ← section_data (section v k); Some (data + index * size).
Definition get_u8 (v : compiled_view) (address : Z) : option Z :=
  image ← view_bytes v; read_u8 image address.
Definition get_u16 (v : compiled_view) (address : Z) : option Z :=
  image ← view_bytes v; read_u16 image address.
Definition get_u32 (v : compiled_view) (address : Z) : option Z :=
  image ← view_bytes v; read_u32 image address.
Definition get_u64 (v : compiled_view) (address : Z) : option Z :=
  image ← view_bytes v; read_u64 image address.
Definition get_zero_bytes (v : compiled_view) (address size : Z) : option bool :=
  image ← view_bytes v; zero_bytes image address size.

(** A [string_view] into a section of bytes. *)
Definition get_text (v : compiled_view) (k : compiled_project_section) (offset length : Z)
  : option (list byte) :=
  data ← section_data (section v k); image ← view_bytes v; bytes_at image (data + offset) length.

(** ** The persisted indexes *)

Section Probing.
Context {A : Type} (image : list byte) (data mask expected : Z) (accept : Z -> option (option A)).

(** The probing loop of the lookups; [Some None] is a lookup that finds nothing. *)
Fixpoint probe_index (n : nat) (position : Z) : option (option A) :=
  match n with
  | O => Some None
  | S n =>
      let slot := data + position * index_record_size in
      fingerprint ← read_u32 image slot;
      raw ← read_u32 image (slot + 4);
      if raw =? 0 then Some None
      else if fingerprint =? expected then
        found ← accept raw;
        match found with
        | Some a => Some (Some a)
        | None => probe_index n (Z.land (position + 1) mask)
        end
      else probe_index n (Z.land (position + 1) mask)
  end.
End Probing.

Definition find_in {A} (v : compiled_view) (k : compiled_project_section) (hash expected : Z)
    (accept : Z -> option (option A)) : option (option A) :=
  let index := section v k in
  let count := section_count index in
  if (count =? 0) || negb (Z.land count (count - 1) =? 0) then Some None
  else
    data ← section_data index;
    image ← view_bytes v;
    probe_index image data (count - 1) expected accept (Z.to_nat count) (Z.land hash (count - 1)).

(** ** Strings and identities *)

Definition view_string_byte_size (v : compiled_view) : Z := section_count (section v sec_string_bytes).

(** The empty view of bytes for an identifier without a string. *)
Definition view_string (v : compiled_view) (id : string_id) : option (list byte) :=
  if (id =? 0) || (string_count_value v <? id) then Some []
  else
    record ← record_at v sec_string_core (id - 1) string_core_size;
    offset ← get_u32 v record;
    length ← get_u32 v (record + 4);
    let count := section_count (section v sec_string_bytes) in
    if (length =? 0) || (count <? offset) || (count - offset <? length) then Some []
    else get_text v sec_string_bytes offset length.

Definition string_hash (value : list byte) : Z :=
  let hash := foldl (fun hash b => u32 (Z.lxor hash (bz b) * 16777619)) 2166136261 value in
  if hash =? 0 then 1 else hash.

Definition find_string (v : compiled_view) (value : list byte) : option string_id :=
  if bool_decide (value = []) then Some 0
  else
    let hash := string_hash value in
    default 0 <$> find_in v sec_string_index hash hash (fun raw =>
      let id := string_from_raw v raw in
      text ← view_string v id;
      Some (if negb (id =? 0) && bool_decide (text = value) then Some id else None)).

Definition identity_from_raw (v : compiled_view) (value : Z) : option identity_ref :=
  let s := slot value in
  if (s =? 0) || (identity_count_value v <? s) then Some 0
  else
    record ← record_at v sec_identity_core (s - 1) identity_core_size;
    stored ← get_u32 v record;
    Some (if stored =? value then value else 0).

Definition view_identity_root (v : compiled_view) : option identity_ref := identity_from_raw v 1.

Definition view_identity_at_slot (v : compiled_view) (s : Z) : option identity_ref :=
  if (s =? 0) || (identity_count_value v <? s) then Some 0
  else
    record ← record_at v sec_identity_core (s - 1) identity_core_size;
    raw ← get_u32 v record;
    identity_from_raw v raw.

Definition view_identity_valid (v : compiled_view) (i : identity_ref) : option bool :=
  valid <$> identity_from_raw v i.

Definition view_identity_parent (v : compiled_view) (i : identity_ref) : option identity_ref :=
  i ← identity_from_raw v i;
  if negb (valid i) || (slot i =? 1) then Some 0
  else
    record ← record_at v sec_identity_core (slot i - 1) identity_core_size;
    raw ← get_u32 v (record + 4);
    identity_from_raw v raw.

Definition view_identity_name (v : compiled_view) (i : identity_ref) : option string_id :=
  i ← identity_from_raw v i;
  if negb (valid i) || (slot i =? 1) then Some 0
  else
    record ← record_at v sec_identity_core (slot i - 1) identity_core_size;
    raw ← get_u32 v (record + 8);
    Some (string_from_raw v raw).

Definition identity_hash (parent name kind : Z) : Z :=
  let value := Z.lor parent (u64 (Z.shiftl name 32)) in
  mix64 (Z.lxor value (u64 (kind * 0x9e3779b97f4a7c15))).

Definition identity_fingerprint (hash : Z) : Z :=
  let value := u32 (Z.lxor hash (Z.shiftr hash 32)) in if value =? 0 then 1 else value.

Definition view_find_identity (v : compiled_view) (parent : identity_ref) (name : string_id)
    (k : identity_kind) : option identity_ref :=
  parent_valid ← view_identity_valid v parent;
  if negb parent_valid || (string_from_raw v name =? 0) || bool_decide (k = kind_root) then Some 0
  else
    let hash := identity_hash parent name (kind_number k) in
    default 0 <$> find_in v sec_identity_index hash (identity_fingerprint hash) (fun raw =>
      i ← identity_from_raw v raw;
      i_parent ← view_identity_parent v i;
      i_name ← view_identity_name v i;
      Some (if valid i && bool_decide (kind i = k) && (i_parent =? parent) && (i_name =? name)
            then Some i else None)).

(** ** Types, members and derived types *)

(** Records as they are stored: an enumeration that the query does not check is its
    byte. *)
Record type_view := TypeView {
  tv_members : graph_range;
  tv_bases : graph_range;
  tv_kind : Z;
  tv_record_kind : Z;
  tv_flags : Z
}.

Definition tv_defined (t : type_view) : bool := negb (Z.land (tv_flags t) graph_type_defined =? 0).
Definition tv_polymorphic (t : type_view) : bool := negb (Z.land (tv_flags t) graph_type_polymorphic =? 0).

Record base_view := BaseView { bv_type : type_handle; bv_access : Z; bv_flags : Z }.
Record member_view := MemberView { mv_name : string_id; mv_type : type_ref; mv_access : Z }.

Definition access_byte_valid (access : Z) : bool := (1 <=? access) && (access <=? 3).

Definition view_type_at (v : compiled_view) (index : Z) : type_handle :=
  if index <? type_count_value v then u32 (index + 1) else 0.

(** [Some None] is the return of [false] in this and the following queries. *)
Definition view_type (v : compiled_view) (t : type_handle) : option (option type_view) :=
  if (t =? 0) || (type_count_value v <? t) then Some None
  else
    record ← record_at v sec_types (t - 1) type_record_size;
    members_begin ← get_u32 v record;
    members_count ← get_u32 v (record + 4);
    bases_begin ← get_u32 v (record + 8);
    bases_count ← get_u32 v (record + 12);
    kind ← get_u8 v (record + 16);
    record_kind ← get_u8 v (record + 17);
    flags ← get_u16 v (record + 18);
    Some (Some (TypeView (GraphRange members_begin members_count) (GraphRange bases_begin bases_count)
      kind record_kind flags)).

Definition view_type_identity (v : compiled_view) (t : type_handle) : option identity_ref :=
  if (t =? 0) || (type_count_value v <? t) then Some 0
  else
    record ← record_at v sec_type_identities (t - 1) type_identity_size;
    raw ← get_u32 v record;
    identity_from_raw v raw.

Definition view_base_at (v : compiled_view) (index : Z) : option (option base_view) :=
  if section_count (section v sec_bases) <=? index then Some None
  else
    record ← record_at v sec_bases index base_record_size;
    raw ← get_u32 v record;
    access ← get_u8 v (record + 4);
    flags ← get_u8 v (record + 5);
    reserved ← get_u16 v (record + 6);
    let t := type_from_raw v raw in
    Some (if negb (t =? 0) && access_byte_valid access &&
             (Z.land flags (Z.lnot graph_base_flag_mask) =? 0) && (reserved =? 0)
          then Some (BaseView t access flags) else None).

(** The location of an identity in the graph: its kind and its slot. *)
Definition graph_location_kind (value : Z) : Z := Z.shiftr value 30.
Definition graph_location_slot (value : Z) : Z := Z.land value maximum_payload.

Definition view_find_type (v : compiled_view) (i : identity_ref) : option type_handle :=
  i_valid ← view_identity_valid v i;
  if negb i_valid || (identity_count_value v <? slot i) then Some 0
  else
    record ← record_at v sec_graph_identity_index (slot i) graph_identity_record_size;
    location ← get_u32 v record;
    Some (if negb (graph_location_kind location =? 1) then 0
          else type_from_raw v (graph_location_slot location)).

(** The record of a member at a global index; whether the access byte is checked. *)
Definition read_member (v : compiled_view) (checked : bool) (index : Z) : option (option member_view) :=
  record ← record_at v sec_members index member_record_size;
  name ← get_u32 v record;
  type ← get_u32 v (record + 4);
  access ← get_u8 v (record + 8);
  zeros ← get_zero_bytes v (record + 9) 3;
  let name := string_from_raw v name in
  let type := type_ref_from_raw v type in
  Some (if negb (name =? 0) && ref_valid type && (negb checked || access_byte_valid access) && zeros
        then Some (MemberView name type access) else None).

Definition view_member (v : compiled_view) (t : type_handle) (m : member_index)
  : option (option member_view) :=
  entry ← view_type v t;
  match entry with
  | None => Some None
  | Some e =>
      if negb (tv_defined e) || negb (member_valid m) || (range_count (tv_members e) <=? m) then Some None
      else
        let global := range_begin (tv_members e) + m in
        if section_count (section v sec_members) <=? global then Some None
        else read_member v false global
  end.

Definition view_member_at (v : compiled_view) (index : Z) : option (option member_view) :=
  if section_count (section v sec_members) <=? index then Some None else read_member v true index.

(** [static_cast<construction_kind>]; other numbers are refused by [valid_construction]. *)
Definition construction_kind_of_number (n : Z) : option construction_kind :=
  [zero; signed_integer; unsigned_integer; real; member_binding; object_binding; construction_unsupported]
    !! Z.to_nat n.

Definition read_construction (v : compiled_view) (record : Z) : option (option construction_value) :=
  low ← get_u32 v record;
  high ← get_u32 v (record + 4);
  operand ← get_u32 v (record + 8);
  kind ← get_u32 v (record + 12);
  Some (match construction_kind_of_number kind with
        | None => None
        | Some kind =>
            let value := ConstructionValue low high operand kind in
            if valid_construction value then Some value else None
        end).

Definition view_construction_at (v : compiled_view) (index : Z) : option (option construction_value) :=
  if section_count (section v sec_member_construction) <=? index then Some None
  else
    record ← record_at v sec_member_construction index construction_record_size;
    read_construction v record.

Definition view_member_construction (v : compiled_view) (t : type_handle) (m : member_index)
  : option (option construction_value) :=
  entry ← view_type v t;
  match entry with
  | None => Some None
  | Some e =>
      if negb (tv_defined e) || negb (member_valid m) || (range_count (tv_members e) <=? m) then Some None
      else view_construction_at v (range_begin (tv_members e) + m)
  end.

Definition member_hash (t : type_handle) (name : string_id) : Z :=
  mix64 (Z.lor (u64 (Z.shiftl t 32)) name).

Definition view_find_member (v : compiled_view) (t : type_handle) (name : string_id)
  : option member_index :=
  if string_from_raw v name =? 0 then Some no_member
  else
    entry ← view_type v t;
    match entry with
    | None => Some no_member
    | Some e =>
        if negb (tv_defined e) then Some no_member
        else
          let hash := member_hash t name in
          let member_begin := range_begin (tv_members e) in
          let member_end := member_begin + range_count (tv_members e) in
          default no_member <$> find_in v sec_member_name_index hash (identity_fingerprint hash) (fun raw =>
            let global := raw - 1 in
            if (member_begin <=? global) && (global <? member_end) then
              value ← view_member_at v global;
              Some (match value with
                    | Some m => if mv_name m =? name
                                then Some (member_from_raw v (u32 (global - member_begin))) else None
                    | None => None
                    end)
            else Some None)
    end.

Definition derived_kind_of_number (n : Z) : option derived_type_kind :=
  [const_qualified; volatile_qualified; pointer; lvalue_reference; rvalue_reference; bounded_array;
   unbounded_array] !! Z.to_nat n.

Definition view_derived (v : compiled_view) (r : type_ref) : option (option derived_type_record) :=
  if negb (ref_valid r) || negb (bool_decide (ref_kind r = ref_derived)) then Some None
  else if (payload r =? 0) || (section_count (section v sec_derived_types) <? payload r) then Some None
  else
    record ← record_at v sec_derived_types (payload r - 1) derived_record_size;
    n ← get_u64 v record;
    child ← get_u32 v (record + 8);
    kind ← get_u8 v (record + 12);
    zeros ← get_zero_bytes v (record + 13) 3;
    let child := type_ref_from_raw v child in
    Some (match derived_kind_of_number kind with
          | Some kind => if ref_valid child && zeros then Some (DerivedTypeRecord n child kind) else None
          | None => None
          end).

Definition view_find_derived (v : compiled_view) (child : type_ref) (k : derived_type_kind) (n : Z)
  : option type_ref :=
  if negb (ref_valid (type_ref_from_raw v child)) || negb (valid_derived_kind k) then Some 0
  else
    let hash := hash_derived (child, k, n) in
    default 0 <$> find_in v sec_derived_index hash (identity_fingerprint hash) (fun raw =>
      let candidate := type_ref_from_raw v raw in
      if bool_decide (ref_kind candidate = ref_derived) then
        record ← view_derived v candidate;
        Some (match record with
              | Some d => if bool_decide (key_of d = (child, k, n)) then Some candidate else None
              | None => None
              end)
      else Some None).

(** ** Objects, paths and links *)

Definition view_object_at (v : compiled_view) (index : Z) : object_handle :=
  if index <? object_count_value v then u32 (index + 1) else 0.

Definition view_object (v : compiled_view) (o : object_handle) : option (option object_entry) :=
  if (o =? 0) || (object_count_value v <? o) then Some None
  else
    record ← record_at v sec_objects (o - 1) object_record_size;
    type ← get_u32 v record;
    state ← get_u32 v (record + 4);
    let type := type_ref_from_raw v type in
    Some (if ref_valid type then Some (ObjectEntry type state) else None).

Definition view_object_identity (v : compiled_view) (o : object_handle) : option identity_ref :=
  if (o =? 0) || (object_count_value v <? o) then Some 0
  else
    record ← record_at v sec_object_identities (o - 1) object_identity_size;
    raw ← get_u32 v record;
    identity_from_raw v raw.

Definition view_find_object (v : compiled_view) (i : identity_ref) : option object_handle :=
  i_valid ← view_identity_valid v i;
  if negb i_valid || (identity_count_value v <? slot i) then Some 0
  else
    record ← record_at v sec_graph_identity_index (slot i) graph_identity_record_size;
    location ← get_u32 v record;
    Some (if negb (graph_location_kind location =? 2) then 0
          else object_from_raw v (graph_location_slot location)).

Definition view_object_construction (v : compiled_view) (o : object_handle)
  : option (option construction_value) :=
  entry ← view_object v o;
  match entry with
  | None => Some None
  | Some e =>
      if negb (non_default_initializer e)
      then Some (if construction_slot e =? 0 then Some no_construction else None)
      else
        let s := construction_slot e in
        if (s =? 0) || (section_count (section v sec_object_construction) <? s) then Some None
        else
          record ← record_at v sec_object_construction (s - 1) construction_record_size;
          read_construction v record
  end.

Definition view_endpoint_path (v : compiled_view) (p : endpoint_path_handle)
  : option (option endpoint_path_record) :=
  if negb (path_valid p) then Some None
  else if section_count (section v sec_endpoint_paths) <? p then Some None
  else
    record ← record_at v sec_endpoint_paths (p - 1) endpoint_path_record_size;
    begin ← get_u32 v record;
    count ← get_u32 v (record + 4);
    root ← get_u32 v (record + 8);
    value ← get_u32 v (record + 12);
    let step_count := section_count (section v sec_endpoint_path_steps) in
    let root := type_ref_from_raw v root in
    let value := type_ref_from_raw v value in
    Some (if negb (count =? 0) && (begin <=? step_count) && (count <=? step_count - begin) &&
             ref_valid root && ref_valid value
          then Some (EndpointPathRecord (GraphRange begin count) root value) else None).

Definition step_kind_of_number (n : Z) : option endpoint_path_step_kind :=
  if n =? 1 then Some step_member else if n =? 2 then Some step_array_index else None.

Definition view_endpoint_path_step_at (v : compiled_view) (index : Z)
  : option (option endpoint_path_step) :=
  if section_count (section v sec_endpoint_path_steps) <=? index then Some None
  else
    record ← record_at v sec_endpoint_path_steps index endpoint_path_step_record_size;
    value ← get_u64 v record;
    kind ← get_u8 v (record + 8);
    zeros ← get_zero_bytes v (record + 9) 7;
    Some (match step_kind_of_number kind with
          | Some kind => if (zeros : bool) then Some (EndpointPathStep value kind (replicate 7 x00)) else None
          | None => None
          end).

Definition view_link_at (v : compiled_view) (index : Z) : link_handle :=
  if index <? link_count_value v then link_from_raw v (u32 (index + 1)) else 0.

Definition endpoint_from_raw (value : Z) : endpoint_ref :=
  if endpoint_valid value then value else invalid_endpoint.

Definition view_link (v : compiled_view) (l : link_handle) : option (option link_record) :=
  if (l =? 0) || (link_count_value v <? l) then Some None
  else
    record ← record_at v sec_links (l - 1) link_record_size;
    source_object ← get_u32 v record;
    source_endpoint ← get_u32 v (record + 4);
    target_object ← get_u32 v (record + 8);
    target_endpoint ← get_u32 v (record + 12);
    let source_object := object_from_raw v source_object in
    let target_object := object_from_raw v target_object in
    Some (
      if (source_object =? 0) || (target_object =? 0) then None
      else if Z.lor source_endpoint target_endpoint <=? maximum_handle
      then Some (LinkRecord (ObjectEndpoint source_object source_endpoint)
                            (ObjectEndpoint target_object target_endpoint))
      else
        let source := endpoint_from_raw source_endpoint in
        let target := endpoint_from_raw target_endpoint in
        let path_count := section_count (section v sec_endpoint_paths) in
        if negb (endpoint_valid source) || negb (endpoint_valid target) then None
        else if (is_path source && (path_count <? path source)) ||
                (is_path target && (path_count <? path target)) then None
        else Some (LinkRecord (ObjectEndpoint source_object source) (ObjectEndpoint target_object target))).

Definition link_target_hash (target : object_endpoint) : Z :=
  mix64 (Z.lor (u64 (Z.shiftl (endpoint_object target) 32)) (u64 (endpoint_member target + 1))).

Definition view_find_link_target (v : compiled_view) (target : object_endpoint) : option link_handle :=
  if (endpoint_object target =? 0) || negb (endpoint_valid (endpoint_member target)) ||
     (object_count_value v <? endpoint_object target) then Some 0
  else
    let hash := link_target_hash target in
    default 0 <$> find_in v sec_link_target_index hash (identity_fingerprint hash) (fun raw =>
      let candidate := link_from_raw v raw in
      if candidate =? 0 then Some None
      else
        record ← view_link v candidate;
        Some (match record with
              | Some l => if bool_decide (link_target l = target) then Some candidate else None
              | None => None
              end)).

(** ** Assign records and sources *)

Definition view_assign (v : compiled_view) (index : Z) : option (option (list byte * list byte)) :=
  if assign_count_value v <=? index then Some None
  else
    record ← record_at v sec_assign_records index assign_record_size;
    source_offset ← get_u32 v record;
    source_length ← get_u32 v (record + 4);
    target_offset ← get_u32 v (record + 8);
    target_length ← get_u32 v (record + 12);
    let count := section_count (section v sec_assign_bytes) in
    if (source_length =? 0) || (target_length =? 0) || (count <? source_offset) ||
       (count - source_offset <? source_length) || (count <? target_offset) ||
       (count - target_offset <? target_length) then Some None
    else
      source ← get_text v sec_assign_bytes source_offset source_length;
      target ← get_text v sec_assign_bytes target_offset target_length;
      Some (Some (source, target)).

Definition view_source_file_count (v : compiled_view) : Z := section_count (section v sec_source_files).
Definition view_source_contribution_count (v : compiled_view) : Z :=
  section_count (section v sec_source_contributions).

(** [source_data_ref]: the kind in the top bits, 0 the invalid one. *)
Definition source_data_slot (value : Z) : Z := Z.land value 0x3fffffff.
Definition source_data_from_raw (value : Z) : Z := if negb (source_data_slot value =? 0) then value else 0.

(** The file and the datum of a contribution. *)
Definition view_source_contribution (v : compiled_view) (index : Z) : option (option (Z * Z)) :=
  if negb (view_valid v) || (section_count (section v sec_source_contributions) <=? index) then Some None
  else
    data ← record_at v sec_source_contributions index 8;
    file ← get_u32 v data;
    raw ← get_u32 v (data + 4);
    let datum := source_data_from_raw raw in
    Some (if negb (file =? 0) && (file <=? view_source_file_count v) && negb (source_data_slot datum =? 0)
          then Some (file, datum) else None).

Definition view_source_root (v : compiled_view) (file : Z) : option (option graph_range) :=
  if negb (view_valid v) || (file =? 0) || (section_count (section v sec_source_roots) <? file)
  then Some None
  else
    data ← record_at v sec_source_roots (file - 1) 8;
    begin ← get_u32 v data;
    count ← get_u32 v (data + 4);
    let total := section_count (section v sec_source_contributions) in
    Some (if (begin <=? total) && (count <=? total - begin) then Some (GraphRange begin count) else None).

(** The path, the number of the [file_kind] (at most 3, [assign]) and the range. *)
Definition view_source_file (v : compiled_view) (file : Z)
  : option (option (list byte * Z * graph_range)) :=
  if negb (view_valid v) || (file =? 0) || (section_count (section v sec_source_files) <? file)
  then Some None
  else
    data ← record_at v sec_source_files (file - 1) 20;
    raw_kind ← get_u32 v data;
    offset ← get_u32 v (data + 4);
    length ← get_u32 v (data + 8);
    let paths := section_count (section v sec_source_paths) in
    if (3 <? raw_kind) || (length =? 0) || (paths <? offset) || (paths - offset <? length) then Some None
    else
      path ← get_text v sec_source_paths offset length;
      begin ← get_u32 v (data + 12);
      count ← get_u32 v (data + 16);
      let total := section_count (section v sec_source_file_indices) in
      Some (if (begin <=? total) && (count <=? total - begin)
            then Some (path, raw_kind, GraphRange begin count) else None).

Definition view_source_file_index (v : compiled_view) (index : Z) : option (option Z) :=
  if negb (view_valid v) || (section_count (section v sec_source_file_indices) <=? index) then Some None
  else
    data ← record_at v sec_source_file_indices index 4;
    output ← get_u32 v data;
    Some (if output <? view_source_contribution_count v then Some output else None).
