(* ===== verification/CompiledBounds.v ===== *)
(** What an accepted image guarantees (project/persistence/compiled_project.cpp): the
    sections that [bind] recorded lie inside the image one after the other, and every
    query of the view answers without reading outside it, even when the records hold
    arbitrary words.  What a lookup through a persisted index returns is what was asked
    for. *)

From S2P Require Import Prelude Crc64 StringTable Identity GraphData GraphGrowth GraphTypes GraphLinks ImageBytes CompiledView.

Local Open Scope Z_scope.

(** ** Sections *)

Lemma land_le_r a b : 0 <= b -> 0 <= Z.land a b <= b.
Proof.
  intros Hb. split; [apply Z.land_nonneg; by right|].
  assert (Z.ldiff (Z.land a b) b = 0) as H0.
  { apply Z.bits_inj'. intros i Hi. rewrite Z.ldiff_spec, Z.land_spec, Z.bits_0. btauto. }
  apply Z.sub_nocarry_ldiff in H0 as H1.
  enough (0 <= b - Z.land a b) by lia.
  assert (Z.ldiff (Z.land a b) b = 0 -> b - Z.land a b = Z.ldiff b (Z.land a b)) as H2
    by (intros; by apply Z.sub_nocarry_ldiff).
  rewrite H2 by done. apply Z.ldiff_nonneg. by left.
Qed.

Definition view_image (v : compiled_view) : list byte := default [] (view_bytes v).
Definition section_offset (v : compiled_view) (k : compiled_project_section) : Z :=
  default 0 (section_data (section v k)).
Definition section_end (v : compiled_view) (k : compiled_project_section) : Z :=
  section_offset v k + section_count (section v k) * expected_record_size k.

(** A section record inside the image, at or after [start]. *)
Definition section_fits (image : list byte) (start : Z) (k : compiled_project_section) (s : section_view)
    (last : Z) : Prop :=
  exists data, section_data s = Some data /\ start <= data /\ data mod 64 = 0 /\
    0 <= section_count s < 2 ^ 64 /\ section_record_size s = expected_record_size k /\
    last = data + section_count s * expected_record_size k /\ last <= Z.of_nat (length image).

Inductive sections_fit (image : list byte) : Z -> list compiled_project_section -> list section_view -> Z -> Prop :=
| fit_nil start : sections_fit image start [] [] start
| fit_cons start k s mid ks ss last :
    section_fits image start k s mid -> sections_fit image mid ks ss last ->
    sections_fit image start (k :: ks) (s :: ss) last.

Lemma record_size_positive k : 0 < expected_record_size k <= 20.
Proof. by destruct k. Qed.

Lemma align64_some v a : align64 v = Some a -> v <= a < v + 64 /\ a mod 64 = 0.
Proof.
  unfold align64. intros H. split_match.
  change (Z.lnot 63) with (Z.lnot (Z.ones 6)). rewrite <- Z.ldiff_land, Z.ldiff_ones_r by lia.
  rewrite Z.shiftl_mul_pow2, Z.shiftr_div_pow2 by lia. change (2 ^ 6) with 64.
  rewrite Z_mod_mult. pose proof (Z.div_mod (v + 63) 64). pose proof (Z.mod_pos_bound (v + 63) 64). lia.
Qed.

Lemma bind_sections_spec image index ks prev cand :
  0 <= index -> index + Z.of_nat (length ks) <= 29 -> 1216 <= Z.of_nat (length image) ->
  0 <= prev <= Z.of_nat (length image) ->
  exists o, bind_sections image index ks prev cand = Some o /\
    forall res last, o = Some (res, last) ->
      exists ss, res = cand ++ ss /\ sections_fit image prev ks ss last /\ last <= Z.of_nat (length image).
Proof.
  revert index prev cand. induction ks as [|k ks IH]; intros index prev cand Hi Hn Himg Hp.
  { exists (Some (cand, prev)). split; [done|]. intros ?? [= <- <-]. exists [].
    rewrite app_nil_r. split; [done|]. split; [constructor|lia]. }
  cbn [bind_sections length] in *. unfold directory_offset, compiled_project_header_size,
    compiled_project_directory_entry_size.
  destruct (read_u32_some image (256 + index * 32)) as (kind & -> & _); [lia..|].
  destruct (read_u32_some image (256 + index * 32 + 4)) as (size & -> & Hsize); [lia..|].
  destruct (read_u64_some image (256 + index * 32 + 8)) as (offset & -> & Hoff); [lia..|].
  destruct (read_u64_some image (256 + index * 32 + 16)) as (count & -> & Hcount); [lia..|].
  destruct (read_u64_some image (256 + index * 32 + 24)) as (crc & -> & _); [lia..|]. cbn [mbind option_bind].
  destruct (align64 prev) as [a|] eqn:Ealign; [|by exists None].
  apply align64_some in Ealign as [Ha Hmod].
  destruct (_ || _) eqn:E1; [by exists None|]. unbool.
  assert (offset = a) as -> by lia. assert (size = expected_record_size k) as -> by lia.
  destruct (zero_bytes_some image prev (a - prev)) as [z Hz]; [lia..|].
  assert (exists p, (if prev <? a then zero_bytes image prev (a - prev) else Some true) = Some p) as [p ->]
    by (destruct (prev <? a); [by exists z|by exists true]).
  cbn [mbind option_bind]. destruct (negb p); [by exists None|].
  destruct (multiply_u64 _ _) as [bytes|] eqn:Em; [|by exists None].
  destruct (add_u64 _ _) as [last|] eqn:Ea; [|by exists None].
  unfold multiply_u64 in Em. unfold add_u64 in Ea.
  destruct (_ && _) in Em; [done|]. destruct (_ <? _) in Ea; [done|]. simplify_eq.
  pose proof (record_size_positive k) as Hk.
  destruct (Z.ltb_spec (Z.of_nat (length image)) (a + count * expected_record_size k)); [by exists None|].
  destruct (IH (index + 1) (a + count * expected_record_size k)
    (cand ++ [SectionView (Some a) count (expected_record_size k) crc])) as (o & -> & Ho); [lia..|nia|].
  exists o. split; [done|]. intros res last' Heq. destruct (Ho res last' Heq) as (ss & -> & Hfit & Hl).
  eexists (_ :: ss). rewrite <- app_assoc. split; [done|]. split; [|done].
  eapply fit_cons; [|done]. exists a. cbn. repeat split; try done; lia.
Qed.

Lemma sections_fit_le image start ks ss last : sections_fit image start ks ss last -> start <= last.
Proof.
  induction 1 as [|start k s mid ks ss last (d & _ & ? & _ & ? & _ & -> & _) _ IH]; [lia|].
  pose proof (record_size_positive k). nia.
Qed.

Lemma sections_fit_lookup image start ks ss last i k :
  sections_fit image start ks ss last -> ks !! i = Some k ->
  exists s start' mid, ss !! i = Some s /\ start <= start' /\ section_fits image start' k s mid /\
    mid <= last /\ (forall j k' s', (i < j)%nat -> ks !! j = Some k' -> ss !! j = Some s' ->
      forall d, section_data s' = Some d -> mid <= d).
Proof.
  intros H. revert i k. induction H as [|start k0 s mid ks ss last Hs Hrest IH]; intros i k Hi; [done|].
  destruct i as [|i].
  - cbn in Hi. simplify_eq. exists s, start, mid. split; [done|]. split; [lia|]. split; [done|].
    split; [by apply sections_fit_le in Hrest|]. intros [|j] k' s' Hj Hk' Hs' d Hd; [lia|].
    change (ks !! j = Some k') in Hk'. change (ss !! j = Some s') in Hs'. destruct (IH j k' Hk') as (s1 & start' & mid' & Hs1 & ? & (d' & Hd' & ? & _) & _).
    rewrite Hs1 in Hs'. simplify_eq. lia.
  - cbn in Hi. destruct (IH i k Hi) as (s1 & start' & mid' & ? & ? & ? & ? & Hj).
    exists s1, start', mid'. split; [done|]. split; [|split; [done|split; [done|]]].
    + destruct Hs as (d & _ & ? & _ & ? & _ & -> & _). pose proof (record_size_positive k0). nia.
    + intros [|j] k' s' ? Hk' Hs' d Hd; [lia|]. eapply (Hj j); [lia|done|done|done].
Qed.

Lemma sections_lookup k : compiled_project_sections !! section_index k = Some k.
Proof. by destruct k. Qed.

(** ** Accepted views *)

(** What every query relies on. *)
Record view_ok (v : compiled_view) : Prop := ViewOk {
  ok_bytes : view_bytes v = Some (view_image v);
  ok_section k : exists last, section_fits (view_image v) first_section_offset k (section v k) last;
  ok_string_core : section_count (section v sec_string_core) = string_count_value v;
  ok_string_bytes : section_count (section v sec_string_bytes) <= u32_max;
  ok_identity_core : section_count (section v sec_identity_core) = identity_count_value v;
  ok_identity_count : 1 <= identity_count_value v <= maximum_slot;
  ok_types : section_count (section v sec_types) = type_count_value v;
  ok_type_identities : section_count (section v sec_type_identities) = type_count_value v;
  ok_type_count : 0 <= type_count_value v <= maximum_handle;
  ok_member_construction :
    section_count (section v sec_members) = section_count (section v sec_member_construction);
  ok_member_count : section_count (section v sec_members) <= u32_max;
  ok_base_count : section_count (section v sec_bases) <= u32_max;
  ok_derived_count : section_count (section v sec_derived_types) <= maximum_payload;
  ok_objects : section_count (section v sec_objects) = object_count_value v;
  ok_object_identities : section_count (section v sec_object_identities) = object_count_value v;
  ok_object_count : 0 <= object_count_value v <= maximum_handle;
  ok_object_construction : section_count (section v sec_object_construction) <= graph_object_construction_slot_mask;
  ok_link_count : section_count (section v sec_links) = link_count_value v;
  ok_link_bound : link_count_value v <= u32_max;
  ok_graph_identity : section_count (section v sec_graph_identity_index) = identity_count_value v + 1;
  ok_assign_count : section_count (section v sec_assign_records) = assign_count_value v;
  ok_source_roots :
    section_count (section v sec_source_roots) = section_count (section v sec_source_files)
}.

Lemma index_capacity_some live : 0 <= live -> exists c, index_capacity live = Some c.
Proof.
  intros Hl. unfold index_capacity. destruct (size_max / 2 <? live); [by eexists|].
  assert (forall fuel k, 0 <= k <= 63 -> 64 <= k + Z.of_nat fuel ->
    exists c, index_capacity_loop fuel (2 ^ k) (live * 2) = Some c) as H.
  { induction fuel as [|fuel IH]; intros k Hk Hf; [lia|]. cbn [index_capacity_loop].
    destruct (_ <? _); [|by eexists]. destruct (Z.ltb_spec (size_max / 2) (2 ^ k)); [by eexists|].
    assert (k <> 63). { intros ->. change (size_max / 2) with (2 ^ 63 - 1) in *. lia. }
    replace (2 ^ k * 2) with (2 ^ (k + 1)) by (rewrite Z.pow_add_r by lia; lia). apply IH; lia. }
  apply (H 64%nat 3); lia.
Qed.

Lemma counts_valid_some v :
  (forall k, 0 <= section_count (section v k)) -> 0 <= string_count_value v -> exists b, counts_valid v = Some b.
Proof.
  intros Hk Hs. unfold counts_valid.
  destruct (index_capacity_some (string_count_value v)) as [? ->]; [done|].
  destruct (index_capacity_some (if 0 <? identity_count_value v then identity_count_value v - 1 else 0))
    as [? ->]. { destruct (Z.ltb_spec 0 (identity_count_value v)); lia. }
  destruct (index_capacity_some (section_count (section v sec_members))) as [? ->]; [done|].
  destruct (index_capacity_some (section_count (section v sec_derived_types))) as [? ->]; [done|].
  destruct (index_capacity_some (section_count (section v sec_links))) as [? ->]; [done|].
  destruct (index_capacity_some (section_count (section v sec_endpoint_paths))) as [? ->]; [done|].
  by eexists.
Qed.

(** The comparisons of [counts_valid] that the queries rely on. *)
Lemma counts_valid_true v :
  counts_valid v = Some true ->
  let count k := section_count (section v k) in
  count sec_string_core = string_count_value v /\ count sec_string_bytes <= u32_max /\
  count sec_identity_core = identity_count_value v /\
  (identity_count_value v <> 0 /\ identity_count_value v <= maximum_slot) /\
  count sec_types = type_count_value v /\ count sec_type_identities = type_count_value v /\
  type_count_value v <= maximum_handle /\ count sec_members = count sec_member_construction /\
  count sec_members <= u32_max /\ count sec_bases <= u32_max /\
  count sec_derived_types <= maximum_payload /\ count sec_objects = object_count_value v /\
  count sec_object_identities = object_count_value v /\ object_count_value v <= maximum_handle /\
  count sec_links = link_count_value v /\ count sec_graph_identity_index = identity_count_value v + 1 /\
  count sec_assign_records = assign_count_value v /\ count sec_source_roots = count sec_source_files /\
  count sec_object_construction <= graph_object_construction_slot_mask /\ link_count_value v <= u32_max.
Proof.
  unfold counts_valid. intros H.
  do 6 (apply bind_Some in H as (? & _ & H)).
  apply Some_inj, andb_true_iff in H as [H1 H2]. apply negb_true_iff in H1, H2. cbn zeta.
  repeat match goal with
  | H : (_ || _)%bool = false |- _ => apply orb_false_iff in H as [? ?]
  | H : negb _ = false |- _ => apply negb_false_iff in H
  | H : (_ =? _) = true |- _ => apply Z.eqb_eq in H
  | H : (_ =? _) = false |- _ => apply Z.eqb_neq in H
  | H : (_ <? _) = false |- _ => apply Z.ltb_ge in H
  end.
  split_and!; assumption.
Qed.

Lemma header_fields_some image : 1216 <= Z.of_nat (length image) -> exists b, header_fields_valid image = Some b.
Proof.
  intros H. unfold header_fields_valid.
  destruct (bytes_at_some image 0 8) as (? & -> & _); [lia..|].
  destruct (read_u32_some image 8) as (? & -> & _); [lia..|].
  destruct (read_u32_some image 12) as (? & -> & _); [lia..|].
  destruct (read_u32_some image 16) as (? & -> & _); [lia..|].
  destruct (read_u32_some image 20) as (? & -> & _); [lia..|].
  destruct (read_u32_some image 24) as (? & -> & _); [lia..|].
  destruct (read_u32_some image 28) as (? & -> & _); [lia..|].
  destruct (read_u64_some image 32) as (? & -> & _); [lia..|].
  destruct (read_u64_some image 40) as (? & -> & _); [lia..|].
  destruct (zero_bytes_some image 96 144) as (? & Hz); [lia..|].
  change (header_directory_crc_offset - header_reserved_begin) with 144. unfold header_reserved_begin.
  rewrite Hz. by eexists.
Qed.

Lemma checksums_some image : 1216 <= Z.of_nat (length image) -> exists b, checksums_valid image = Some b.
Proof.
  intros H. unfold checksums_valid.
  destruct (bytes_at_some image 0 256) as (header & Hh & Hl); [lia..|].
  unfold compiled_project_header_size. rewrite Hh. cbn [mbind option_bind].
  unfold header_crc_offset, header_directory_crc_offset.
  destruct (read_u64_some header 248) as (? & -> & _); [lia..|]. cbn [mbind option_bind].
  destruct (store_bytes_some header 248 (le_bytes 8 0)) as (header' & Hw); [lia|rewrite le_bytes_length; lia|].
  unfold write_u64. rewrite Hw. cbn [mbind option_bind].
  destruct (negb _); [by eexists|].
  destruct (bytes_at_some image 256 928) as (dir & Hd & _); [lia..|].
  change directory_bytes with 928. change directory_offset with 256. rewrite Hd. cbn [mbind option_bind].
  destruct (read_u64_some image 240) as (? & -> & _); [lia..|]. by eexists.
Qed.

Lemma bound_sections_ok image ss last v :
  sections_fit image first_section_offset compiled_project_sections ss last -> view_sections v = ss ->
  forall k, exists last', section_fits image first_section_offset k (section v k) last'.
Proof.
  intros Hfit Hv k.
  destruct (sections_fit_lookup _ _ _ _ _ (section_index k) k Hfit (sections_lookup k))
    as (s & start & mid & Hs & Hle & Hk & _).
  exists mid. unfold section. rewrite Hv, (list_lookup_total_correct _ _ _ Hs).
  destruct Hk as (d & ? & ? & ?). exists d. split; [done|]. split; [lia|done].
Qed.

(** [bind] returns, and what it accepts satisfies [view_ok]. *)
Lemma bind_spec image :
  exists r v, bind image = Some (r, v) /\
    (r = image_success -> view_ok v /\ view_image v = image /\
       sections_fit image first_section_offset compiled_project_sections (view_sections v)
         (Z.of_nat (length image)) /\
       header_fields_valid image = Some true /\ checksums_valid image = Some true) /\
    (r <> image_success -> v = empty_view).
Proof.
  unfold bind. change first_section_offset with 1216.
  destruct (Z.ltb_spec (Z.of_nat (length image)) 1216); [by eexists _, _|].
  destruct (header_fields_some image) as [f Hf]; [done|]. rewrite Hf. cbn [mbind option_bind].
  destruct f; cbn [negb]; [|by eexists _, _].
  destruct (checksums_some image) as [c Hc]; [done|]. rewrite Hc. cbn [mbind option_bind].
  destruct c; cbn [negb]; [|by eexists _, _].
  destruct (bind_sections_spec image 0 compiled_project_sections 1216 []) as (o & -> & Ho); [done|done|done|lia|].
  cbn [mbind option_bind]. destruct o as [[cand last]|]; [|by eexists _, _].
  destruct (Ho cand last eq_refl) as (ss & -> & Hfit & _). cbn [app] in *.
  destruct (Z.eqb_spec last (Z.of_nat (length image))) as [->|]; cbn [negb]; [|by eexists _, _].
  unfold header_string_count_offset, header_identity_count_offset, header_type_count_offset,
    header_object_count_offset, header_link_count_offset, header_assign_count_offset.
  destruct (read_u64_some image 48) as (n1 & -> & Hn1); [lia..|].
  destruct (read_u64_some image 56) as (n2 & -> & Hn2); [lia..|].
  destruct (read_u64_some image 64) as (n3 & -> & Hn3); [lia..|].
  destruct (read_u64_some image 72) as (n4 & -> & Hn4); [lia..|].
  destruct (read_u64_some image 80) as (n5 & -> & Hn5); [lia..|].
  destruct (read_u64_some image 88) as (n6 & -> & Hn6); [lia..|]. cbn [mbind option_bind].
  set (v := CompiledView _ _ _ _ _ _ _ _).
  assert (forall k, exists last', section_fits image 1216 k (section v k) last') as Hsec
    by (by apply (bound_sections_ok image ss _ v Hfit)).
  destruct (counts_valid_some v) as [b Hb]; [|cbn; lia|].
  { intros k. destruct (Hsec k) as (? & ? & _ & _ & _ & ? & _). lia. }
  rewrite Hb. cbn [mbind option_bind]. destruct b; cbn [negb]; [|by eexists _, _].
  exists image_success, v. split; [done|]. split; [|done]. intros _. split; [|done].
  pose proof (counts_valid_true v Hb) as Hcounts. cbn [string_count_value identity_count_value
    type_count_value object_count_value link_count_value assign_count_value v] in Hcounts.
  constructor; cbn [string_count_value identity_count_value type_count_value object_count_value
    link_count_value assign_count_value view_bytes v]; try done; lia.
Qed.

(** ** Reads *)

Lemma read_u32_fits image a x : read_u32 image a = Some x -> 0 <= x < 2 ^ 32.
Proof.
  unfold read_u32. intros (bs & Hbs & ->)%fmap_Some.
  apply bytes_at_length in Hbs as [Hl _]. pose proof (le_value_range bs).
  by replace (length bs) with 4%nat in * by lia.
Qed.

Section Reads.
Context (v : compiled_view) (Hv : view_ok v).

Abbreviation size := (Z.of_nat (length (view_image v))).

Lemma record_some k index :
  0 <= index < section_count (section v k) ->
  exists r, record_at v k index (expected_record_size k) = Some r /\ 0 <= r /\
    r + expected_record_size k <= size.
Proof.
  intros Hi. destruct (ok_section v Hv k) as (last & data & Hd & Hs & _ & Hc & _ & -> & Hl).
  unfold record_at. rewrite Hd. eexists. split; [done|]. pose proof (record_size_positive k).
  change first_section_offset with 1216 in Hs. nia.
Qed.

Lemma get_u8_some a : 0 <= a -> a + 1 <= size -> exists x, get_u8 v a = Some x /\ 0 <= x < 2 ^ 8.
Proof. unfold get_u8. rewrite (ok_bytes v Hv). apply read_u8_some. Qed.
Lemma get_u16_some a : 0 <= a -> a + 2 <= size -> exists x, get_u16 v a = Some x /\ 0 <= x < 2 ^ 16.
Proof. unfold get_u16. rewrite (ok_bytes v Hv). apply read_u16_some. Qed.
Lemma get_u32_some a : 0 <= a -> a + 4 <= size -> exists x, get_u32 v a = Some x /\ 0 <= x < 2 ^ 32.
Proof. unfold get_u32. rewrite (ok_bytes v Hv). apply read_u32_some. Qed.
Lemma get_u64_some a : 0 <= a -> a + 8 <= size -> exists x, get_u64 v a = Some x /\ 0 <= x < 2 ^ 64.
Proof. unfold get_u64. rewrite (ok_bytes v Hv). apply read_u64_some. Qed.
Lemma get_zero_bytes_some a n :
  0 <= a -> 0 <= n -> a + n <= size -> exists b, get_zero_bytes v a n = Some b.
Proof. unfold get_zero_bytes. rewrite (ok_bytes v Hv). apply zero_bytes_some. Qed.

Lemma get_text_some k offset length :
  expected_record_size k = 1 -> 0 <= offset -> 0 <= length ->
  offset + length <= section_count (section v k) -> exists bs, get_text v k offset length = Some bs.
Proof.
  intros Hk Ho Hn Hb. destruct (ok_section v Hv k) as (last & data & Hd & Hs & _ & Hc & _ & -> & Hl).
  unfold get_text. rewrite Hd, (ok_bytes v Hv). cbn [mbind option_bind].
  change first_section_offset with 1216 in Hs.
  destruct (bytes_at_some (view_image v) (data + offset) length) as (bs & -> & _); [lia..|]. by eexists.
Qed.

(** The probing loop of every lookup: it ends inside the index, and what it returns was
    accepted. *)
Lemma find_in_some {A} k hash expected (accept : Z -> option (option A)) :
  expected_record_size k = index_record_size ->
  (forall raw, 0 < raw < 2 ^ 32 -> exists o, accept raw = Some o) ->
  exists o, find_in v k hash expected accept = Some o.
Proof.
  intros Hk Hacc. unfold find_in. destruct (_ || _) eqn:E; [by eexists|]. unbool.
  destruct (ok_section v Hv k) as (last & data & Hd & Hs & _ & Hc & _ & -> & Hl).
  rewrite Hd, (ok_bytes v Hv). cbn [mbind option_bind]. rewrite Hk in Hl. unfold index_record_size in *.
  set (count := section_count (section v k)) in *. change first_section_offset with 1216 in Hs.
  assert (forall n position, 0 <= position < count ->
    exists o, probe_index (view_image v) data (count - 1) expected accept n position = Some o) as Hloop.
  { induction n as [|n IH]; intros position Hp; cbn [probe_index]; [by eexists|]. unfold index_record_size.
    destruct (read_u32_some (view_image v) (data + position * 8)) as (f & -> & _); [lia..|].
    destruct (read_u32_some (view_image v) (data + position * 8 + 4)) as (raw & -> & Hraw); [lia..|].
    cbn [mbind option_bind]. pose proof (land_le_r (position + 1) (count - 1)).
    destruct (Z.eqb_spec raw 0); [by eexists|]. destruct (f =? expected); [|apply IH; lia].
    destruct (Hacc raw) as [[a|] ->]; [lia|by eexists|]. cbn. apply IH; lia. }
  apply Hloop. pose proof (land_le_r hash (count - 1)). lia.
Qed.

Lemma find_in_default {A} (d : A) k hash expected (accept : Z -> option (option A)) :
  expected_record_size k = index_record_size ->
  (forall raw, 0 < raw < 2 ^ 32 -> exists o, accept raw = Some o) ->
  exists o, default d <$> find_in v k hash expected accept = Some o.
Proof. intros Hk Hacc. destruct (find_in_some k hash expected accept Hk Hacc) as [o ->]. by eexists. Qed.

Lemma find_in_accepted {A} k hash expected (accept : Z -> option (option A)) a :
  find_in v k hash expected accept = Some (Some a) -> exists raw, 0 < raw < 2 ^ 32 /\ accept raw = Some (Some a).
Proof.
  unfold find_in. destruct (_ || _); [done|]. destruct (section_data _) as [data|]; cbn [mbind option_bind]; [|done].
  destruct (view_bytes v) as [image|]; cbn [mbind option_bind]; [|done].
  generalize (Z.land hash (section_count (section v k) - 1)). induction (Z.to_nat _) as [|n IH]; intros p; [done|].
  cbn [probe_index]. intros (f & _ & (raw & Hraw & H)%bind_Some)%bind_Some. apply read_u32_fits in Hraw.
  destruct (Z.eqb_spec raw 0); [done|]. destruct (_ =? _); [|by apply (IH _ H)].
  apply bind_Some in H as ([a'|] & E & H); [|by apply (IH _ H)]. simplify_eq. exists raw. split; [lia|done].
Qed.
End Reads.

(** ** Queries *)

(** One read of a query: an address in bounds by arithmetic over the record it is in. *)
Ltac view_read Hv :=
  cbn [mbind option_bind];
  match goal with
  | |- exists _, mbind _ (record_at ?v ?k ?i _) = _ =>
      let E := fresh in
      destruct (record_some v Hv k i) as (? & E & ? & ?);
      [lia|cbn [expected_record_size] in *; rewrite E; clear E;
        unfold string_core_size, identity_core_size, type_record_size, type_identity_size,
          base_record_size, member_record_size, construction_record_size, derived_record_size,
          object_record_size, object_identity_size, link_record_size, endpoint_path_record_size,
          endpoint_path_step_record_size, graph_identity_record_size, assign_record_size in *]
  | |- exists _, mbind _ (get_u8 ?v ?a) = _ => destruct (get_u8_some v Hv a) as (? & -> & ?); [lia..|]
  | |- exists _, mbind _ (get_u16 ?v ?a) = _ => destruct (get_u16_some v Hv a) as (? & -> & ?); [lia..|]
  | |- exists _, mbind _ (get_u32 ?v ?a) = _ => destruct (get_u32_some v Hv a) as (? & -> & ?); [lia..|]
  | |- exists _, mbind _ (get_u64 ?v ?a) = _ => destruct (get_u64_some v Hv a) as (? & -> & ?); [lia..|]
  | |- exists _, mbind _ (get_zero_bytes ?v ?a ?n) = _ =>
      destruct (get_zero_bytes_some v Hv a n) as (? & ->); [lia..|]
  | |- exists _, Some _ = Some _ => eexists; reflexivity
  end.

Ltac view_reads Hv := repeat view_read Hv; cbn [mbind option_bind].

(** Words are in range wherever they are read. *)
Section Words.
Context (v : compiled_view).

Lemma get_u32_word a x : get_u32 v a = Some x -> 0 <= x < 2 ^ 32.
Proof. unfold get_u32. intros (image & _ & Hx)%bind_Some. by eapply read_u32_fits. Qed.

Lemma view_type_fields t e :
  view_type v t = Some (Some e) ->
  0 <= range_begin (tv_members e) < 2 ^ 32 /\ 0 <= range_count (tv_members e) < 2 ^ 32.
Proof.
  unfold view_type. destruct (_ || _); [done|]. intros Ho.
  do 8 (apply bind_Some in Ho as (? & ? & Ho)). simplify_eq. cbn.
  split; by eapply get_u32_word.
Qed.

End Words.

Section Queries.
Context (v : compiled_view) (Hv : view_ok v).

Lemma string_from_raw_range raw : 0 <= raw -> 0 <= string_from_raw v raw.
Proof. unfold string_from_raw. destruct (_ && _); lia. Qed.

Lemma view_string_some id : 0 <= id -> exists o, view_string v id = Some o.
Proof.
  intros H0. unfold view_string. destruct (_ || _) eqn:E; [by eexists|]. unbool.
  pose proof (ok_string_core v Hv). view_reads Hv.
  destruct ((_ || _) || _) eqn:E; [by eexists|]. unbool. apply (get_text_some v Hv); [done|lia..].
Qed.

Lemma find_string_some value : exists o, find_string v value = Some o.
Proof.
  unfold find_string. case_bool_decide; [by eexists|].
  apply (find_in_default v Hv); [done|].
  intros raw Hraw. destruct (view_string_some (string_from_raw v raw)) as [t ->]; [|by eexists].
  apply string_from_raw_range. lia.
Qed.

Lemma identity_from_raw_some raw :
  exists i, identity_from_raw v raw = Some i /\ (i = 0 \/ i = raw /\ 1 <= slot i <= identity_count_value v).
Proof.
  assert (0 <= slot raw). { unfold slot, slot_mask. apply Z.land_nonneg. by right. }
  assert (exists i, identity_from_raw v raw = Some i) as [i Hi].
  { unfold identity_from_raw. destruct (_ || _) eqn:E; [by eexists|]. unbool.
    pose proof (ok_identity_core v Hv). view_reads Hv. }
  exists i. split; [done|]. unfold identity_from_raw in Hi. destruct (_ || _) eqn:E; [simplify_eq; by left|].
  unbool. apply bind_Some in Hi as (? & _ & (? & _ & Hi)%bind_Some). simplify_eq.
  destruct (_ =? _); [right|by left]. split; [done|lia].
Qed.

Lemma view_identity_at_slot_some s : 0 <= s -> exists o, view_identity_at_slot v s = Some o.
Proof.
  intros. unfold view_identity_at_slot. destruct (_ || _) eqn:E; [by eexists|]. unbool.
  pose proof (ok_identity_core v Hv). view_reads Hv. cbn [mbind option_bind].
  destruct (identity_from_raw_some x0) as (i & -> & _). by eexists.
Qed.

Lemma view_identity_valid_some i : exists b, view_identity_valid v i = Some b /\
  (b = true -> 1 <= slot i <= identity_count_value v).
Proof.
  unfold view_identity_valid. destruct (identity_from_raw_some i) as (j & -> & Hj). eexists. split; [done|].
  destruct Hj as [->|[-> ?]]; [done|]. done.
Qed.

Lemma view_identity_parent_some i : exists o, view_identity_parent v i = Some o.
Proof.
  unfold view_identity_parent. destruct (identity_from_raw_some i) as (j & -> & Hj). cbn [mbind option_bind].
  destruct (_ || _) eqn:E; [by eexists|]. unbool. unfold valid in *. unbool.
  pose proof (ok_identity_core v Hv). destruct Hj as [->|[-> ?]]; [done|].
  view_reads Hv. cbn [mbind option_bind]. destruct (identity_from_raw_some x0) as (? & -> & _). by eexists.
Qed.

Lemma view_identity_name_some i : exists o, view_identity_name v i = Some o.
Proof.
  unfold view_identity_name. destruct (identity_from_raw_some i) as (j & -> & Hj). cbn [mbind option_bind].
  destruct (_ || _) eqn:E; [by eexists|]. unbool. unfold valid in *. unbool.
  pose proof (ok_identity_core v Hv). destruct Hj as [->|[-> ?]]; [done|]. view_reads Hv.
Qed.

Lemma view_find_identity_some parent name k : exists o, view_find_identity v parent name k = Some o.
Proof.
  unfold view_find_identity. destruct (view_identity_valid_some parent) as (b & -> & _). cbn [mbind option_bind].
  destruct (_ || _); [by eexists|].
  apply (find_in_default v Hv); [done|]. intros raw _. destruct (identity_from_raw_some raw) as (i & -> & _). cbn [mbind option_bind].
  destruct (view_identity_parent_some i) as [? ->]. cbn [mbind option_bind].
  destruct (view_identity_name_some i) as [? ->]. by eexists.
Qed.

Lemma view_type_some t : 0 <= t -> exists o, view_type v t = Some o.
Proof.
  intros Ht. unfold view_type. destruct (_ || _) eqn:E; [by eexists|]. unbool.
  pose proof (ok_types v Hv). view_reads Hv.
Qed.

Lemma view_type_identity_some t : 0 <= t -> exists o, view_type_identity v t = Some o.
Proof.
  intros. unfold view_type_identity. destruct (_ || _) eqn:E; [by eexists|]. unbool.
  pose proof (ok_type_identities v Hv). view_reads Hv. destruct (identity_from_raw_some x0) as (? & -> & _). by eexists.
Qed.

Lemma view_base_at_some i : 0 <= i -> exists o, view_base_at v i = Some o.
Proof.
  intros. unfold view_base_at. destruct (_ <=? _) eqn:E; [by eexists|]. unbool. view_reads Hv.
Qed.

Lemma view_find_type_some i : exists o, view_find_type v i = Some o.
Proof.
  unfold view_find_type. destruct (view_identity_valid_some i) as (b & -> & Hb). cbn [mbind option_bind].
  destruct (_ || _) eqn:E; [by eexists|]. unbool. subst. specialize (Hb eq_refl).
  pose proof (ok_graph_identity v Hv). view_reads Hv.
Qed.

Lemma view_find_object_some i : exists o, view_find_object v i = Some o.
Proof.
  unfold view_find_object. destruct (view_identity_valid_some i) as (b & -> & Hb). cbn [mbind option_bind].
  destruct (_ || _) eqn:E; [by eexists|]. unbool. subst. specialize (Hb eq_refl).
  pose proof (ok_graph_identity v Hv). view_reads Hv.
Qed.

Lemma read_member_some checked i :
  0 <= i < section_count (section v sec_members) -> exists o, read_member v checked i = Some o.
Proof. intros. unfold read_member. view_reads Hv. Qed.

Lemma view_member_some t m : 0 <= t -> 0 <= m -> exists o, view_member v t m = Some o.
Proof.
  intros. unfold view_member. destruct (view_type_some t) as ([e|] & He); [done| |rewrite He; by eexists]. rewrite He.
  cbn [mbind option_bind]. destruct (_ || _); [by eexists|]. destruct (_ <=? _) eqn:E; [by eexists|]. unbool.
  apply read_member_some. pose proof (view_type_fields v t e He). lia.
Qed.

Lemma view_member_at_some i : 0 <= i -> exists o, view_member_at v i = Some o.
Proof.
  intros. unfold view_member_at. destruct (_ <=? _) eqn:E; [by eexists|]. unbool. by apply read_member_some.
Qed.

Lemma read_construction_some a :
  0 <= a -> a + 16 <= Z.of_nat (length (view_image v)) -> exists o, read_construction v a = Some o.
Proof. intros. unfold read_construction. view_reads Hv. Qed.

Lemma view_construction_at_some i : 0 <= i -> exists o, view_construction_at v i = Some o.
Proof.
  intros. unfold view_construction_at. destruct (_ <=? _) eqn:E; [by eexists|]. unbool. view_reads Hv.
  by apply read_construction_some.
Qed.

Lemma view_member_construction_some t m : 0 <= t -> 0 <= m -> exists o, view_member_construction v t m = Some o.
Proof.
  intros. unfold view_member_construction. destruct (view_type_some t) as ([e|] & He); [done| |rewrite He; by eexists]. rewrite He.
  cbn [mbind option_bind]. destruct (_ || _); [by eexists|]. apply view_construction_at_some.
  pose proof (view_type_fields v t e He). lia.
Qed.

Lemma view_find_member_some t name : 0 <= t -> exists o, view_find_member v t name = Some o.
Proof.
  intros. unfold view_find_member. destruct (_ =? _); [by eexists|].
  destruct (view_type_some t) as ([e|] & He); [done| |rewrite He; by eexists]. rewrite He. cbn [mbind option_bind].
  destruct (negb _); [by eexists|]. apply (find_in_default v Hv); [done|]. intros raw Hraw.
  destruct (_ && _); [|by eexists]. destruct (view_member_at_some (raw - 1)) as [? ->]; [lia|]. by eexists.
Qed.

Lemma view_derived_some r : exists o, view_derived v r = Some o.
Proof.
  unfold view_derived. destruct (_ || _); [by eexists|]. destruct (_ || _) eqn:E; [by eexists|]. unbool.
  pose proof (payload_range r). view_reads Hv.
Qed.

Lemma view_find_derived_some child k n : exists o, view_find_derived v child k n = Some o.
Proof.
  unfold view_find_derived. destruct (_ || _); [by eexists|]. apply (find_in_default v Hv); [done|].
  intros raw _. case_bool_decide; [|by eexists].
  destruct (view_derived_some (type_ref_from_raw v raw)) as [? ->]. by eexists.
Qed.

Lemma view_object_some o : 0 <= o -> exists x, view_object v o = Some x.
Proof.
  intros. unfold view_object. destruct (_ || _) eqn:E; [by eexists|]. unbool.
  pose proof (ok_objects v Hv). view_reads Hv.
Qed.

Lemma view_object_identity_some o : 0 <= o -> exists x, view_object_identity v o = Some x.
Proof.
  intros. unfold view_object_identity. destruct (_ || _) eqn:E; [by eexists|]. unbool.
  pose proof (ok_object_identities v Hv). view_reads Hv.
  destruct (identity_from_raw_some x0) as (? & -> & _). by eexists.
Qed.

Lemma view_object_construction_some o : 0 <= o -> exists x, view_object_construction v o = Some x.
Proof.
  intros. unfold view_object_construction. destruct (view_object_some o) as ([e|] & ->); [done| |by eexists].
  cbn [mbind option_bind]. destruct (negb _); [by eexists|]. destruct (_ || _) eqn:E; [by eexists|]. unbool.
  assert (0 <= construction_slot e) by (apply Z.land_nonneg; by right). view_reads Hv.
  by apply read_construction_some.
Qed.

Lemma view_endpoint_path_some p : 0 <= p -> exists o, view_endpoint_path v p = Some o.
Proof.
  intros. unfold view_endpoint_path, path_valid. destruct (negb _) eqn:E1; [by eexists|].
  destruct (_ <? _) eqn:E; [by eexists|]. unbool. view_reads Hv.
Qed.

Lemma view_endpoint_path_step_at_some i : 0 <= i -> exists o, view_endpoint_path_step_at v i = Some o.
Proof.
  intros. unfold view_endpoint_path_step_at. destruct (_ <=? _) eqn:E; [by eexists|]. unbool. view_reads Hv.
Qed.

Lemma view_link_some l : 0 <= l -> exists o, view_link v l = Some o.
Proof.
  intros. unfold view_link. destruct (_ || _) eqn:E; [by eexists|]. unbool.
  pose proof (ok_link_count v Hv). view_reads Hv.
Qed.

Lemma link_from_raw_range raw : 0 <= raw -> 0 <= link_from_raw v raw.
Proof. unfold link_from_raw. destruct (_ && _); lia. Qed.

Lemma view_find_link_target_some target : exists o, view_find_link_target v target = Some o.
Proof.
  unfold view_find_link_target. destruct (_ || _); [by eexists|]. apply (find_in_default v Hv); [done|].
  intros raw Hraw. destruct (_ =? _); [by eexists|].
  destruct (view_link_some (link_from_raw v raw)) as [? ->]; [apply link_from_raw_range; lia|]. by eexists.
Qed.

Lemma view_assign_some i : 0 <= i -> exists o, view_assign v i = Some o.
Proof.
  intros. unfold view_assign. destruct (_ <=? _) eqn:E; [by eexists|]. unbool.
  pose proof (ok_assign_count v Hv). view_reads Hv. destruct (_ || _) eqn:E'; [by eexists|]. unbool.
  destruct (get_text_some v Hv sec_assign_bytes x0 x1) as [? ->]; [done|lia..|]. cbn [mbind option_bind].
  destruct (get_text_some v Hv sec_assign_bytes x2 x3) as [? ->]; [done|lia..|]. by eexists.
Qed.

Lemma view_source_contribution_some i : 0 <= i -> exists o, view_source_contribution v i = Some o.
Proof.
  intros. unfold view_source_contribution. destruct (_ || _) eqn:E; [by eexists|]. unbool. view_reads Hv.
Qed.

Lemma view_source_root_some f : 0 <= f -> exists o, view_source_root v f = Some o.
Proof.
  intros. unfold view_source_root. destruct (_ || _) eqn:E; [by eexists|]. unbool. view_reads Hv.
Qed.

Lemma view_source_file_some f : 0 <= f -> exists o, view_source_file v f = Some o.
Proof.
  intros. unfold view_source_file. destruct (_ || _) eqn:E; [by eexists|]. unbool. view_reads Hv.
  destruct (_ || _) eqn:E'; [by eexists|]. unbool.
  destruct (get_text_some v Hv sec_source_paths x1 x2) as [? ->]; [done|lia..|]. view_reads Hv.
Qed.

Lemma view_source_file_index_some i : 0 <= i -> exists o, view_source_file_index v i = Some o.
Proof.
  intros. unfold view_source_file_index. destruct (_ || _) eqn:E; [by eexists|]. unbool. view_reads Hv.
Qed.
End Queries.

(** ** Lookups *)

Section Lookups.
Context (v : compiled_view).

Lemma find_in_default_accepted {A} (d : A) k hash expected accept a :
  default d <$> find_in v k hash expected accept = Some a -> a <> d ->
  exists raw, 0 < raw < 2 ^ 32 /\ accept raw = Some (Some a).
Proof.
  intros (o & H & Ha)%fmap_Some Hd. destruct o as [a'|]; cbn in Ha; subst; [|done].
  by apply find_in_accepted in H.
Qed.

Lemma find_string_sound value id : find_string v value = Some id -> id <> 0 -> view_string v id = Some value.
Proof.
  unfold find_string. case_bool_decide as Hnil; [by intros [= <-]|]. intros H Hid.
  apply find_in_default_accepted in H as (raw & _ & H); [|done].
  apply bind_Some in H as (text & Ht & H). destruct (_ && _) eqn:E; simplify_eq. unbool. by subst.
Qed.

Lemma identity_from_raw_same raw i : identity_from_raw v raw = Some i -> i <> 0 -> i = raw.
Proof.
  unfold identity_from_raw. destruct (_ || _); [by intros [= <-]|].
  intros (r & _ & (w & _ & H)%bind_Some)%bind_Some Hi. destruct (_ =? _); by simplify_eq.
Qed.

Lemma find_identity_sound p n k i :
  view_find_identity v p n k = Some i -> i <> 0 ->
  view_identity_valid v i = Some true /\ kind i = k /\ view_identity_parent v i = Some p /\
  view_identity_name v i = Some n.
Proof.
  unfold view_find_identity. intros (b & _ & H)%bind_Some Hi. destruct (_ || _); [by simplify_eq|].
  apply find_in_default_accepted in H as (raw & _ & H); [|done].
  apply bind_Some in H as (j & Hj & (jp & Hp & (jn & Hn & Hr)%bind_Some)%bind_Some).
  destruct (_ && _) eqn:E in Hr; simplify_eq. unbool. subst.
  pose proof (identity_from_raw_same raw i Hj Hi) as <-.
  split; [|by auto]. unfold view_identity_valid. rewrite Hj. cbn. by f_equal.
Qed.

Lemma find_member_sound t n m :
  view_ok v -> view_find_member v t n = Some m -> m <> no_member ->
  exists e r, view_type v t = Some (Some e) /\ tv_defined e = true /\ 0 <= m < range_count (tv_members e) /\
    view_member_at v (range_begin (tv_members e) + m) = Some (Some r) /\ mv_name r = n.
Proof.
  intros Hv. unfold view_find_member. destruct (_ =? 0); [by intros [= <-]|].
  intros ([e|] & He & H)%bind_Some Hm; [|by simplify_eq].
  destruct (negb _) eqn:Hd; [by simplify_eq|].
  apply find_in_default_accepted in H as (raw & _ & H); [|done].
  destruct (_ && _) eqn:E; [|done]. apply bind_Some in H as ([r|] & Hr & H); [|done].
  destruct (_ =? _) eqn:En; simplify_eq. unbool.
  exists e, r. split; [done|]. split; [done|]. unfold member_from_raw.
  destruct (view_type_fields v t e He) as [? Hc]. unfold u32. rewrite Z.mod_small by lia.
  split; [lia|]. replace (_ + _) with (raw - 1) by lia. done.
Qed.

Lemma find_derived_sound c k n r :
  view_find_derived v c k n = Some r -> r <> 0 -> view_derived v r = Some (Some (DerivedTypeRecord n c k)).
Proof.
  unfold view_find_derived. destruct (_ || _); [by intros [= <-]|]. intros H Hr.
  apply find_in_default_accepted in H as (raw & _ & H); [|done].
  case_bool_decide; [|done]. apply bind_Some in H as ([d|] & Hd & H); [|done].
  case_bool_decide as Hk; simplify_eq. destruct d as [x c' k']. unfold key_of in Hk. cbn in Hk. by simplify_eq.
Qed.

Lemma find_link_target_sound target l :
  view_find_link_target v target = Some l -> l <> 0 ->
  exists r, view_link v l = Some (Some r) /\ link_target r = target.
Proof.
  unfold view_find_link_target. destruct (_ || _); [by intros [= <-]|]. intros H Hl.
  apply find_in_default_accepted in H as (raw & _ & H); [|done].
  destruct (_ =? 0); [done|]. apply bind_Some in H as ([r|] & Hr & H); [|done].
  case_bool_decide; simplify_eq. by exists r.
Qed.
End Lookups.
