(* ===== verification/CompiledProject.v ===== *)
(** The guarantees of the view over compiled project images
    (project/persistence/compiled_project.cpp), and a small image on which they are
    evaluated. *)

From S2P Require Import Prelude Crc64 StringTable Identity GraphData GraphTypes GraphRecords GraphLinks ImageBytes CompiledView CompiledBounds.

Local Open Scope Z_scope.

(** ** Binding *)

(** C24: [bind] returns for every image.  What it accepts has a valid header, directory and
    checksums, and 29 sections that are aligned, in order, disjoint and inside the image;
    what it refuses leaves the view empty. *)
Theorem bind_accepts_directory (image : list byte) :
  exists r v, bind image = Some (r, v) /\
    (r <> image_success -> v = empty_view) /\
    (r = image_success ->
      header_fields_valid image = Some true /\ checksums_valid image = Some true /\
      (forall k, first_section_offset <= section_offset v k /\ section_offset v k mod 64 = 0 /\
        0 <= section_count (section v k) /\ section_end v k <= Z.of_nat (length image)) /\
      (forall k k', (section_index k < section_index k')%nat -> section_end v k <= section_offset v k')).
Proof.
  destruct (bind_spec image) as (r & v & Hb & Hok & Hbad). exists r, v. split; [done|]. split; [done|].
  intros ->. destruct (Hok eq_refl) as (_ & Himg & Hfit & Hf & Hc). split; [done|]. split; [done|].
  assert (forall k, exists s start mid, section v k = s /\ first_section_offset <= start /\
    section_fits image start k s mid /\ mid <= Z.of_nat (length image) /\
    (forall k', (section_index k < section_index k')%nat -> forall d,
      section_data (section v k') = Some d -> mid <= d)) as Hsec.
  { intros k. destruct (sections_fit_lookup _ _ _ _ _ (section_index k) k Hfit (sections_lookup k))
      as (s & start & mid & Hs & ? & Hk & ? & Hafter). exists s, start, mid.
    split; [unfold section; by rewrite (list_lookup_total_correct _ _ _ Hs)|]. split; [done|].
    split; [done|]. split; [done|]. intros k' Hlt d Hd.
    destruct (sections_fit_lookup _ _ _ _ _ (section_index k') k' Hfit (sections_lookup k'))
      as (s' & _ & _ & Hs' & _). apply (Hafter _ _ s' Hlt (sections_lookup k') Hs').
    unfold section in Hd. by rewrite (list_lookup_total_correct _ _ _ Hs') in Hd. }
  unfold section_end, section_offset. split.
  - intros k. destruct (Hsec k) as (s & start & mid & -> & ? & (d & -> & ? & ? & ? & _ & -> & ?) & ? & _).
    cbn. lia.
  - intros k k' Hlt. destruct (Hsec k) as (s & start & mid & -> & _ & (d & -> & _ & _ & _ & _ & -> & _) & _ & Ha).
    destruct (Hsec k') as (s' & _ & _ & Hs' & _ & (d' & Hd' & _) & _). specialize (Ha k' Hlt).
    rewrite Hs' in *. rewrite Hd' in *. cbn. by apply Ha.
Qed.

(** ** Queries *)

(** A call of a query, with its unsigned arguments. *)
Inductive view_query :=
| ask_string (id : N)
| ask_find_string (value : list byte)
| ask_identity_root
| ask_identity_at_slot (s : N)
| ask_identity_valid (i : N)
| ask_identity_parent (i : N)
| ask_identity_name (i : N)
| ask_find_identity (parent name : N) (k : identity_kind)
| ask_type (t : N)
| ask_type_identity (t : N)
| ask_base_at (index : N)
| ask_find_type (i : N)
| ask_member (t m : N)
| ask_member_at (index : N)
| ask_construction_at (index : N)
| ask_member_construction (t m : N)
| ask_find_member (t name : N)
| ask_derived (r : N)
| ask_find_derived (child : N) (k : derived_type_kind) (payload : N)
| ask_object (o : N)
| ask_object_identity (o : N)
| ask_find_object (i : N)
| ask_object_construction (o : N)
| ask_endpoint_path (p : N)
| ask_endpoint_path_step_at (index : N)
| ask_link (l : N)
| ask_find_link_target (object member : N)
| ask_assign (index : N)
| ask_source_contribution (index : N)
| ask_source_root (file : N)
| ask_source_file (file : N)
| ask_source_file_index (index : N).

Definition answered (v : compiled_view) (q : view_query) : Prop :=
  match q with
  | ask_string id => is_Some (view_string v (Z.of_N id))
  | ask_find_string value => is_Some (find_string v value)
  | ask_identity_root => is_Some (view_identity_root v)
  | ask_identity_at_slot s => is_Some (view_identity_at_slot v (Z.of_N s))
  | ask_identity_valid i => is_Some (view_identity_valid v (Z.of_N i))
  | ask_identity_parent i => is_Some (view_identity_parent v (Z.of_N i))
  | ask_identity_name i => is_Some (view_identity_name v (Z.of_N i))
  | ask_find_identity p n k => is_Some (view_find_identity v (Z.of_N p) (Z.of_N n) k)
  | ask_type t => is_Some (view_type v (Z.of_N t))
  | ask_type_identity t => is_Some (view_type_identity v (Z.of_N t))
  | ask_base_at i => is_Some (view_base_at v (Z.of_N i))
  | ask_find_type i => is_Some (view_find_type v (Z.of_N i))
  | ask_member t m => is_Some (view_member v (Z.of_N t) (Z.of_N m))
  | ask_member_at i => is_Some (view_member_at v (Z.of_N i))
  | ask_construction_at i => is_Some (view_construction_at v (Z.of_N i))
  | ask_member_construction t m => is_Some (view_member_construction v (Z.of_N t) (Z.of_N m))
  | ask_find_member t n => is_Some (view_find_member v (Z.of_N t) (Z.of_N n))
  | ask_derived r => is_Some (view_derived v (Z.of_N r))
  | ask_find_derived c k n => is_Some (view_find_derived v (Z.of_N c) k (Z.of_N n))
  | ask_object o => is_Some (view_object v (Z.of_N o))
  | ask_object_identity o => is_Some (view_object_identity v (Z.of_N o))
  | ask_find_object i => is_Some (view_find_object v (Z.of_N i))
  | ask_object_construction o => is_Some (view_object_construction v (Z.of_N o))
  | ask_endpoint_path p => is_Some (view_endpoint_path v (Z.of_N p))
  | ask_endpoint_path_step_at i => is_Some (view_endpoint_path_step_at v (Z.of_N i))
  | ask_link l => is_Some (view_link v (Z.of_N l))
  | ask_find_link_target o m => is_Some (view_find_link_target v (ObjectEndpoint (Z.of_N o) (Z.of_N m)))
  | ask_assign i => is_Some (view_assign v (Z.of_N i))
  | ask_source_contribution i => is_Some (view_source_contribution v (Z.of_N i))
  | ask_source_root f => is_Some (view_source_root v (Z.of_N f))
  | ask_source_file f => is_Some (view_source_file v (Z.of_N f))
  | ask_source_file_index i => is_Some (view_source_file_index v (Z.of_N i))
  end.

Lemma bound_view_ok image v : bind image = Some (image_success, v) -> view_ok v.
Proof. destruct (bind_spec image) as (r & v' & -> & Hok & _). intros [= -> ->]. by apply Hok. Qed.

(** Which query answers, by its lemma. *)
Create HintDb view_queries.
#[local] Hint Resolve view_type_some view_string_some find_string_some view_identity_at_slot_some view_identity_parent_some
  view_identity_name_some view_find_identity_some view_type_identity_some view_base_at_some
  view_find_type_some view_find_object_some view_member_some view_member_at_some
  view_construction_at_some view_member_construction_some view_find_member_some view_derived_some
  view_find_derived_some view_object_some view_object_identity_some view_object_construction_some
  view_endpoint_path_some view_endpoint_path_step_at_some view_link_some view_find_link_target_some
  view_assign_some view_source_contribution_some view_source_root_some view_source_file_some
  view_source_file_index_some N2Z.is_nonneg : view_queries.

(** C25: Every query on an accepted image, with any arguments, ends with an answer and
    reads only bytes of the image, whatever its records hold. *)
Theorem queries_in_bounds (image : list byte) (v : compiled_view) (q : view_query) :
  bind image = Some (image_success, v) -> answered v q.
Proof.
  intros Hv%bound_view_ok. destruct q; unfold answered, is_Some; eauto with view_queries.
  - destruct (identity_from_raw_some v Hv 1) as (x & ? & _). by exists x.
  - destruct (view_identity_valid_some v Hv (Z.of_N i)) as (x & ? & _). by exists x.
Qed.

(** C26: What a lookup through a persisted index returns has the key that was looked up,
    for every accepted image, verified or not. *)
Theorem lookups_return_their_key (image : list byte) (v : compiled_view) :
  bind image = Some (image_success, v) ->
  (forall value id, find_string v value = Some id -> id <> 0 -> view_string v id = Some value) /\
  (forall p n k i, view_find_identity v p n k = Some i -> i <> 0 ->
    view_identity_valid v i = Some true /\ kind i = k /\ view_identity_parent v i = Some p /\
    view_identity_name v i = Some n) /\
  (forall t n m, view_find_member v t n = Some m -> m <> no_member ->
    exists e r, view_type v t = Some (Some e) /\ tv_defined e = true /\ 0 <= m < range_count (tv_members e) /\
      view_member_at v (range_begin (tv_members e) + m) = Some (Some r) /\ mv_name r = n) /\
  (forall c k n r, view_find_derived v c k n = Some r -> r <> 0 ->
    view_derived v r = Some (Some (DerivedTypeRecord n c k))) /\
  (forall target l, view_find_link_target v target = Some l -> l <> 0 ->
    exists r, view_link v l = Some (Some r) /\ link_target r = target).
Proof.
  intros Hv%bound_view_ok. split_and!.
  - apply find_string_sound.
  - apply find_identity_sound.
  - intros t n m. by apply find_member_sound.
  - apply find_derived_sound.
  - apply find_link_target_sound.
Qed.

(** ** A small image *)

(** The sections of [struct A { int x; }; A y;]: their counts and their bytes. *)
Definition words (ws : list Z) : list byte := ws ≫= le_bytes 4.

(** An index of eight slots with the given hashes, fingerprints and values. *)
Fixpoint sample_place (n : nat) (slots : list (Z * Z)) (position : Z) (s : Z * Z) : list (Z * Z) :=
  match n with
  | O => slots
  | S n =>
      if (slots !!! Z.to_nat position).2 =? 0 then <[Z.to_nat position := s]> slots
      else sample_place n slots (Z.land (position + 1) 7) s
  end.
Definition sample_index (entries : list (Z * Z * Z)) : list byte :=
  words (foldl (fun slots e => sample_place 8 slots (Z.land e.1.1 7) (e.1.2, e.2)) (replicate 8 (0, 0)) entries
         ≫= fun s => [s.1; s.2]).
Definition mixed (hash value : Z) : Z * Z * Z := (hash, identity_fingerprint hash, value).

Definition type_a : identity_ref := make 2 kind_type.
Definition object_y : identity_ref := make 3 kind_object.
Definition int_type : type_ref := GraphTypes.intrinsic signed_int.
Definition a_type : type_ref := make_ref ref_named 1.

Definition sample_section (k : compiled_project_section) : Z * list byte :=
  match k with
  | sec_string_core => (3, words [0; 1; 1; 1; 2; 1])
  | sec_string_bytes => (3, str "Axy")
  | sec_string_index =>
      (8, sample_index ((fun e => (string_hash (str e.1), string_hash (str e.1), e.2)) <$>
            [("A"%string, 1); ("x"%string, 2); ("y"%string, 3)]))
  | sec_identity_core => (3, words [root; 0; 0; type_a; root; 1; object_y; root; 3])
  | sec_identity_index =>
      (8, sample_index [mixed (identity_hash root 1 2) type_a; mixed (identity_hash root 3 3) object_y])
  | sec_types => (1, words [0; 1; 0; 0] ++ [x01; x01; x01; x00])
  | sec_type_identities => (1, words [type_a])
  | sec_members => (1, words [2; int_type; 1])
  | sec_member_construction => (1, words [0; 0; 0; 0])
  | sec_objects => (1, words [a_type; 0])
  | sec_object_identities => (1, words [object_y])
  | sec_graph_identity_index =>
      (4, words [0; 0; encode_location location_type 1; encode_location location_object 1])
  | sec_member_name_index => (8, sample_index [mixed (member_hash 1 2) 1])
  | sec_derived_index | sec_link_target_index | sec_endpoint_path_index => (8, sample_index [])
  | _ => (0, [])
  end.

(** The directory and the bytes of the sections from the end of the previous one on. *)
Fixpoint sample_sections (index cursor : Z) (ks : list compiled_project_section) : list byte * list byte :=
  match ks with
  | [] => ([], [])
  | k :: ks =>
      let '(count, bytes) := sample_section k in
      let offset := default 0 (align64 cursor) in
      let (directory, body) := sample_sections (index + 1) (offset + Z.of_nat (length bytes)) ks in
      (words [index + 1; expected_record_size k] ++ le_bytes 8 offset ++ le_bytes 8 count ++
         le_bytes 8 (persistence_crc64 native bytes) ++ directory,
       replicate (Z.to_nat (offset - cursor)) x00 ++ bytes ++ body)
  end.

Definition make_sample : list byte :=
  let (directory, body) := sample_sections 0 first_section_offset compiled_project_sections in
  let body := replicate (Z.to_nat (first_section_offset - directory_offset - directory_bytes)) x00 ++ body in
  let header size crc :=
    image_magic ++ words [10; endian_marker; 256; 29; 32; 0] ++ le_bytes 8 directory_offset ++
    le_bytes 8 size ++ (([3; 3; 1; 1; 0; 0] : list Z) ≫= le_bytes 8) ++ replicate 144 x00 ++
    le_bytes 8 (persistence_crc64 native directory) ++ le_bytes 8 crc in
  let size := directory_offset + directory_bytes + Z.of_nat (length body) in
  header size (persistence_crc64 native (header size 0)) ++ directory ++ body.

Definition sample_image : list byte := Eval vm_compute in make_sample.

Definition sample_view : compiled_view := Eval vm_compute in
  match bind sample_image with Some (_, v) => v | None => empty_view end.

Lemma sample_bound : bind sample_image = Some (image_success, sample_view).
Proof. vm_compute. reflexivity. Qed.

Lemma queries_in_bounds_witness : answered sample_view (ask_find_member 1 2).
Proof. apply (queries_in_bounds sample_image). apply sample_bound. Defined.

Lemma lookups_return_their_key_witness :
  find_string sample_view (str "x") = Some 2 /\ view_string sample_view 2 = Some (str "x").
Proof.
  assert (find_string sample_view (str "x") = Some 2) as H by (vm_compute; reflexivity).
  split; [exact H|]. apply (proj1 (lookups_return_their_key sample_image sample_view sample_bound) _ _ H).
  discriminate.
Defined.

(** The graph of the image, as its queries answer it. *)
Example sample_queries :
  view_find_identity sample_view root 3 kind_object = Some object_y /\
  view_find_object sample_view object_y = Some 1 /\ view_object sample_view 1 = Some (Some (ObjectEntry a_type 0)) /\
  view_find_member sample_view 1 2 = Some 0 /\
  view_member_at sample_view 0 = Some (Some (MemberView 2 int_type 1)).
Proof. vm_compute. auto. Qed.
