(* ===== verification/GraphDelta.v ===== *)
(** The sparse delta over a compiled project (project/graph/graph_delta.hpp and .cpp), which a
    build changes while the compiled image stays as it is: slots of the image are patched,
    new slots are appended, retired slots keep their numbers.  The compiled image is seen
    through the interface [GraphBaseline]; types, objects and links are kept in the same way,
    which is modelled once as [lineage]. *)

From S2P Require Import Prelude ServerStatus HashIndex DenseIndex SparseIndex StringTable Identity GraphData GraphTypes GraphRecords GraphLinks ImageBytes CompiledView.

Local Open Scope Z_scope.

(** ** What the delta asks of a compiled project *)

(** [None] is the return of [false]; counts are those of the image. *)
Class GraphBaseline (B : Type) := {
  baseline_valid : B -> bool;
  baseline_type_count : B -> Z;
  baseline_member_count : B -> Z;
  baseline_object_count : B -> Z;
  baseline_object_construction_count : B -> Z;
  baseline_link_count : B -> Z;
  baseline_derived_count : B -> Z;
  baseline_type : B -> type_handle -> option type_view;
  baseline_object : B -> object_handle -> option object_entry;
  baseline_object_value : B -> object_handle -> option construction_value;
  baseline_link : B -> link_handle -> option link_record;
  baseline_type_identity : B -> type_handle -> identity_ref;
  baseline_object_identity : B -> object_handle -> identity_ref;
  baseline_find_type : B -> identity_ref -> type_handle;
  baseline_find_object : B -> identity_ref -> object_handle;
  baseline_member : B -> type_handle -> member_index -> option member_view;
  baseline_member_value : B -> type_handle -> member_index -> option construction_value;
  baseline_derived : B -> type_ref -> option derived_type_record;
  baseline_find_derived : B -> type_ref -> derived_type_kind -> Z -> type_ref;
  baseline_find_link_target : B -> object_endpoint -> link_handle
}.

(** The outcomes of the allocations of one call: of the patches, of an index (of the
    patches, of the identities, of link targets or of derived types), of the appended
    records, of the construction values. *)
Record delta_allocations := DeltaAllocations {
  patch_allocated : bool;
  index_allocated : bool;
  appended_allocated : bool;
  values_allocated : bool
}.

(** ** Slots of the image and appended ones *)

Section Lineage.
Context {V A : Type}.

Record patch := Patch { patch_slot : Z; patch_value : V; patch_live : bool }.

(** The patches with their index, the appended slots, and how many slots are live. *)
Record lineage := Lineage {
  base_count : Z;
  live_count : Z;
  patches : list patch;
  patch_index : sparse_index;
  added : list A;
  added_live : list bool
}.

Definition with_live (n : Z) (l : lineage) : lineage :=
  Lineage (base_count l) (u64 n) (patches l) (patch_index l) (added l) (added_live l).
Definition with_patches (ps : list patch) (index : sparse_index) (l : lineage) : lineage :=
  Lineage (base_count l) (live_count l) ps index (added l) (added_live l).
Definition with_added (slots : list A) (live : list bool) (l : lineage) : lineage :=
  Lineage (base_count l) (live_count l) (patches l) (patch_index l) slots live.

(** [type_count], [object_count], [link_count]. *)
Definition slot_count (l : lineage) : Z := base_count l + count (added l).
Definition slot_exists (l : lineage) (h : Z) : bool := negb (h =? 0) && (h <=? slot_count l).

(** The place of an appended slot. *)
Definition added_place (l : lineage) (h : Z) : nat := Z.to_nat (h - base_count l - 1).

(** [find_type_patch], [find_object_patch], [find_link_patch], with the place of the patch. *)
Definition find_patch (l : lineage) (slot : Z) : option (nat * patch) :=
  let position := sparse_find (patch_index l) slot in
  if negb (position =? 0) && (position <=? count (patches l))
  then p ← patches l !! Z.to_nat (position - 1); Some (Z.to_nat (position - 1), p)
  else None.

Definition contains_slot (l : lineage) (h : Z) : bool :=
  if negb (slot_exists l h) then false
  else if h <=? base_count l then
    match find_patch l h with None => true | Some (_, p) => patch_live p end
  else
    match added_live l !! added_place l h with None => false | Some live => live end.

(** [ensure_type_patch] and the other two: the place of the patch.  [bound] is a baseline,
    [fetched] what it stores in the slot. *)
Definition ensure_patch (bound : bool) (fetched : option V) (a : delta_allocations) (h : Z) (l : lineage)
  : option (server_status * nat * lineage) :=
  if negb bound || (h =? 0) || (base_count l <? h) then Some (project_configuration_invalid, O, l)
  else
    match find_patch l h with
    | Some (n, _) => Some (success, n, l)
    | None =>
        match fetched with
        | None => Some (project_artifact_invalid, O, l)
        | Some value =>
            if negb (patch_allocated a) then Some (io_error, O, l)
            else
              let ps := patches l ++ [Patch h value true] in
              '(inserted, index) ← sparse_insert h (u32 (count ps)) (index_allocated a) (patch_index l);
              if negb (succeeded inserted) then Some (inserted, O, with_patches (patches l) index l)
              else Some (success, length (patches l), with_patches ps index l)
        end
    end.

(** A change of the patch of a slot, which is made first. *)
Definition change_patch (bound : bool) (fetched : option V) (a : delta_allocations) (h : Z) (change : patch -> patch) (l : lineage)
  : option (server_status * lineage) :=
  '(prepared, n, l) ← ensure_patch bound fetched a h l;
  if negb (succeeded prepared) then Some (prepared, l)
  else Some (success, with_patches (alter change n (patches l)) (patch_index l) l).

(** [retire]. *)
Definition retire_slot (bound : bool) (fetched : option V) (a : delta_allocations) (h : Z) (l : lineage)
  : option (server_status * lineage) :=
  if negb (contains_slot l h) then Some (project_configuration_invalid, l)
  else if h <=? base_count l then
    '(prepared, l) ← change_patch bound fetched a h (fun p => Patch (patch_slot p) (patch_value p) false) l;
    if negb (succeeded prepared) then Some (prepared, l)
    else Some (success, with_live (live_count l - 1) l)
  else if count (added_live l) <=? Z.of_nat (added_place l h) then Some (project_artifact_invalid, l)
  else Some (success, with_live (live_count l - 1) (with_added (added l) (<[added_place l h := false]> (added_live l)) l)).

(** A slot that was retired gets a value and is live again: a patch of the image, or an
    appended slot. *)
Definition revive_patch (n : nat) (value : V) (l : lineage) : lineage :=
  with_live (live_count l + 1) (with_patches (alter (fun p => Patch (patch_slot p) value true) n (patches l)) (patch_index l) l).
Definition revive_added (h : Z) (slot : A) (l : lineage) : lineage :=
  with_live (live_count l + 1) (with_added (<[added_place l h := slot]> (added l)) (<[added_place l h := true]> (added_live l)) l).

(** The place of [h] is behind an end of the appended slots. *)
Definition added_missing (h : Z) (l : lineage) : bool :=
  (count (added l) <=? Z.of_nat (added_place l h)) || (count (added_live l) <=? Z.of_nat (added_place l h)).

(** The middle of [declare_record] and [add_link]. *)
Definition revive_slot (bound : bool) (fetched : option V) (a : delta_allocations) (h : Z) (value : V) (slot : A) (l : lineage)
  : option (server_status * lineage) :=
  if h <=? base_count l then
    '(prepared, n, l) ← ensure_patch bound fetched a h l;
    Some (if succeeded prepared then (success, revive_patch n value l) else (prepared, l))
  else if added_missing h l then Some (project_artifact_invalid, l)
  else Some (success, revive_added h slot l).

(** A slot at the end. *)
Definition append_slot (slot : A) (l : lineage) : lineage := with_added (added l ++ [slot]) (added_live l ++ [true]) l.
End Lineage.

Arguments patch : clear implicits.
Arguments lineage : clear implicits.

(** The value in a slot: of the patch, of the image or appended. *)
Definition slot_value {V A} (of_patch : V -> A) (fetched : option A) (l : lineage V A) (h : Z) : option A :=
  if negb (contains_slot l h) then None
  else if h <=? base_count l then
    match find_patch l h with
    | Some (_, p) => if patch_live p then Some (of_patch (patch_value p)) else None
    | None => fetched
    end
  else added l !! added_place l h.

Definition no_lineage {V A} (n : Z) : lineage V A := Lineage n n [] no_index [] [].

(** ** The delta *)

Section Delta.
Context `{GraphBaseline B}.

(** [delta_baseline] is the pointer; the counts of the image are kept beside it. *)
Record graph_delta := GraphDelta {
  delta_baseline : option B;
  base_members : Z;
  base_object_values : Z;
  base_derived : Z;
  delta_locations : list Z;
  identity_overlay : sparse_index;
  type_part : lineage type_view type_view;
  delta_type_identities : list identity_ref;
  object_part : lineage (object_entry * construction_value) object_entry;
  delta_object_identities : list identity_ref;
  link_part : lineage link_record link_record;
  delta_members : list member_view;
  delta_member_values : list construction_value;
  delta_object_values : list construction_value;
  delta_link_index : list link_target_index_slot;
  delta_link_count : Z;
  delta_derived : list derived_type_record;
  delta_derived_index : list derived_index_slot
}.

Definition new_delta : graph_delta :=
  GraphDelta None 0 0 0 [] no_index (no_lineage 0) [] (no_lineage 0) [] (no_lineage 0) [] [] [] [] 0 [] [].

Definition with_locations ls overlay (d : graph_delta) : graph_delta :=
  GraphDelta (delta_baseline d) (base_members d) (base_object_values d) (base_derived d) ls overlay (type_part d)
    (delta_type_identities d) (object_part d) (delta_object_identities d) (link_part d) (delta_members d)
    (delta_member_values d) (delta_object_values d) (delta_link_index d) (delta_link_count d) (delta_derived d)
    (delta_derived_index d).
Definition with_type_part l ids (d : graph_delta) : graph_delta :=
  GraphDelta (delta_baseline d) (base_members d) (base_object_values d) (base_derived d) (delta_locations d)
    (identity_overlay d) l ids (object_part d) (delta_object_identities d) (link_part d) (delta_members d)
    (delta_member_values d) (delta_object_values d) (delta_link_index d) (delta_link_count d) (delta_derived d)
    (delta_derived_index d).
Definition with_member_part ms values (d : graph_delta) : graph_delta :=
  GraphDelta (delta_baseline d) (base_members d) (base_object_values d) (base_derived d) (delta_locations d)
    (identity_overlay d) (type_part d) (delta_type_identities d) (object_part d) (delta_object_identities d)
    (link_part d) ms values (delta_object_values d) (delta_link_index d) (delta_link_count d) (delta_derived d)
    (delta_derived_index d).
Definition with_object_part l ids values (d : graph_delta) : graph_delta :=
  GraphDelta (delta_baseline d) (base_members d) (base_object_values d) (base_derived d) (delta_locations d)
    (identity_overlay d) (type_part d) (delta_type_identities d) l ids (link_part d) (delta_members d)
    (delta_member_values d) values (delta_link_index d) (delta_link_count d) (delta_derived d)
    (delta_derived_index d).
Definition with_link_part l index n (d : graph_delta) : graph_delta :=
  GraphDelta (delta_baseline d) (base_members d) (base_object_values d) (base_derived d) (delta_locations d)
    (identity_overlay d) (type_part d) (delta_type_identities d) (object_part d) (delta_object_identities d)
    l (delta_members d) (delta_member_values d) (delta_object_values d) index n (delta_derived d)
    (delta_derived_index d).
Definition with_derived_part ts index (d : graph_delta) : graph_delta :=
  GraphDelta (delta_baseline d) (base_members d) (base_object_values d) (base_derived d) (delta_locations d)
    (identity_overlay d) (type_part d) (delta_type_identities d) (object_part d) (delta_object_identities d)
    (link_part d) (delta_members d) (delta_member_values d) (delta_object_values d) (delta_link_index d)
    (delta_link_count d) ts index.

Definition bound (d : graph_delta) : bool := match delta_baseline d with Some _ => true | None => false end.

Definition bind_baseline (b : B) (d : graph_delta) : server_status * graph_delta :=
  let unused {A} (l : list A) := bool_decide (length l = O) in
  if bound d || negb (baseline_valid b) || negb (unused (delta_locations d)) || negb (sparse_empty (identity_overlay d)) ||
     negb (unused (patches (type_part d))) || negb (unused (patches (object_part d))) || negb (unused (patches (link_part d))) ||
     negb (unused (added (type_part d))) || negb (unused (delta_type_identities d)) ||
     negb (unused (delta_members d)) || negb (unused (delta_member_values d)) ||
     negb (unused (added (object_part d))) || negb (unused (delta_object_identities d)) || negb (unused (delta_object_values d)) ||
     negb (unused (added (link_part d))) || negb (unused (delta_derived d))
  then (project_configuration_invalid, d)
  else
    let based {V A} (n : Z) (l : lineage V A) := Lineage n n (patches l) (patch_index l) (added l) (added_live l) in
    (success,
      GraphDelta (Some b) (baseline_member_count b) (baseline_object_construction_count b) (baseline_derived_count b)
        (delta_locations d) (identity_overlay d) (based (baseline_type_count b) (type_part d)) (delta_type_identities d)
        (based (baseline_object_count b) (object_part d)) (delta_object_identities d)
        (based (baseline_link_count b) (link_part d)) (delta_members d) (delta_member_values d) (delta_object_values d)
        (delta_link_index d) (delta_link_count d) (delta_derived d) (delta_derived_index d)).

(** *** Identities *)

Definition delta_ensure_identity_slot (i : identity_ref) (allocated : bool) (d : graph_delta) : server_status * list Z :=
  if negb (valid i) then (project_configuration_invalid, delta_locations d)
  else if slot i <? count (delta_locations d) then (success, delta_locations d)
  else if negb allocated then (io_error, delta_locations d)
  else (success, resize (Z.to_nat (slot i + 1)) 0 (delta_locations d)).

Definition publish_identity_location (i : identity_ref) (k : location_kind) (slot_value : Z) (allocated : bool) (d : graph_delta)
  : option (server_status * graph_delta) :=
  let location := encode_location k slot_value in
  if negb (valid i) || (location =? 0) then Some (project_configuration_invalid, d)
  else if bound d then
    '(st, overlay) ← sparse_insert i location allocated (identity_overlay d);
    Some (st, with_locations (delta_locations d) overlay d)
  else
    let (prepared, ls) := delta_ensure_identity_slot i allocated d in
    if negb (succeeded prepared) then Some (prepared, with_locations ls (identity_overlay d) d)
    else
      match ls !! Z.to_nat (slot i) with
      | None => None
      | Some target =>
          if negb (target =? 0)
          then Some (if target =? location then success else project_configuration_invalid, with_locations ls (identity_overlay d) d)
          else Some (success, with_locations (<[Z.to_nat (slot i) := location]> ls) (identity_overlay d) d)
      end.

Definition lineage_location (d : graph_delta) (i : identity_ref) : Z :=
  if negb (valid i) then 0
  else
    match delta_baseline d with
    | Some b =>
        let local := sparse_find (identity_overlay d) i in
        if negb (local =? 0) then local
        else
          match kind i with
          | kind_type => let t := baseline_find_type b i in if negb (t =? 0) then encode_location location_type t else 0
          | kind_object => let o := baseline_find_object b i in if negb (o =? 0) then encode_location location_object o else 0
          | _ => 0
          end
    | None => default 0 (delta_locations d !! Z.to_nat (slot i))
    end.

Definition lineage_type (d : graph_delta) (i : identity_ref) : type_handle :=
  let location := lineage_location d i in
  if location_is location_type location then decode_location_slot location else 0.
Definition lineage_object (d : graph_delta) (i : identity_ref) : object_handle :=
  let location := lineage_location d i in
  if location_is location_object location then decode_location_slot location else 0.

(** *** Slots *)

Definition fetched_type (d : graph_delta) (t : type_handle) : option type_view := b ← delta_baseline d; baseline_type b t.
Definition fetched_object (d : graph_delta) (o : object_handle) : option object_entry := b ← delta_baseline d; baseline_object b o.
Definition fetched_link (d : graph_delta) (l : link_handle) : option link_record := b ← delta_baseline d; baseline_link b l.
(** What [ensure_object_patch] copies. *)
Definition fetched_object_patch (d : graph_delta) (o : object_handle) : option (object_entry * construction_value) :=
  b ← delta_baseline d; e ← baseline_object b o; v ← baseline_object_value b o; Some (e, v).

Definition delta_contains_type (d : graph_delta) (t : type_handle) : bool := contains_slot (type_part d) t.
Definition delta_contains_object (d : graph_delta) (o : object_handle) : bool := contains_slot (object_part d) o.
Definition delta_contains_link (d : graph_delta) (l : link_handle) : bool := contains_slot (link_part d) l.

Definition delta_type (d : graph_delta) (t : type_handle) : option type_view :=
  slot_value id (fetched_type d t) (type_part d) t.
Definition delta_object (d : graph_delta) (o : object_handle) : option object_entry :=
  slot_value fst (fetched_object d o) (object_part d) o.
Definition delta_link (d : graph_delta) (l : link_handle) : option link_record :=
  slot_value id (fetched_link d l) (link_part d) l.

(** [find]: a pointer to what the delta itself holds; [None] is [nullptr]. *)
Definition delta_find_entry (d : graph_delta) (t : type_handle) : option type_view := slot_value id None (type_part d) t.
Definition delta_find_object_entry (d : graph_delta) (o : object_handle) : option object_entry := slot_value fst None (object_part d) o.
Definition delta_find_link (d : graph_delta) (l : link_handle) : option link_record := slot_value id None (link_part d) l.

Definition delta_find_type (d : graph_delta) (i : identity_ref) : type_handle :=
  let output := lineage_type d i in if delta_contains_type d output then output else 0.
Definition delta_find_object (d : graph_delta) (i : identity_ref) : object_handle :=
  let output := lineage_object d i in if delta_contains_object d output then output else 0.

Definition delta_type_identity (d : graph_delta) (t : type_handle) : identity_ref :=
  if negb (delta_contains_type d t) then 0
  else if t <=? base_count (type_part d) then
    match delta_baseline d with Some b => baseline_type_identity b t | None => 0 end
  else default 0 (delta_type_identities d !! added_place (type_part d) t).
Definition delta_object_identity (d : graph_delta) (o : object_handle) : identity_ref :=
  if negb (delta_contains_object d o) then 0
  else if o <=? base_count (object_part d) then
    match delta_baseline d with Some b => baseline_object_identity b o | None => 0 end
  else default 0 (delta_object_identities d !! added_place (object_part d) o).

(** *** References *)

Definition delta_derived_count (d : graph_delta) : Z := base_derived d + count (delta_derived d).

Definition derived_of (d : graph_delta) (r : type_ref) : option derived_type_record :=
  if negb (ref_valid r) || negb (bool_decide (ref_kind r = ref_derived)) || (payload r =? 0) ||
     (delta_derived_count d <? payload r) then None
  else if payload r <=? base_derived d then b ← delta_baseline d; baseline_derived b r
  else delta_derived d !! Z.to_nat (payload r - base_derived d - 1).

(** The cases of [contains] of a reference that end at once. *)
Definition contains_plain (d : graph_delta) (r : type_ref) : bool :=
  if negb (ref_valid r) then false
  else
    match ref_kind r with
    | ref_intrinsic => payload r <=? intrinsic_number nullptr_type
    | ref_named => delta_contains_type d (payload r)
    | ref_derived | ref_invalid => false
    end.

Fixpoint contains_loop (d : graph_delta) (n : nat) (r : type_ref) : bool :=
  match n with
  | O => false
  | S n =>
      match derived_of d r with
      | None => false
      | Some e => if bool_decide (ref_kind (child e) = ref_derived) then contains_loop d n (child e) else contains_plain d (child e)
      end
  end.

Definition delta_contains_ref (d : graph_delta) (r : type_ref) : bool :=
  if negb (ref_valid r) then false
  else if bool_decide (ref_kind r = ref_derived) then contains_loop d (S (Z.to_nat (delta_derived_count d))) r
  else contains_plain d r.

Definition delta_intrinsic (t : intrinsic_type) : type_ref :=
  if valid_intrinsic t then make_ref ref_intrinsic (intrinsic_number t) else 0.
Definition delta_named (d : graph_delta) (t : type_handle) : type_ref :=
  if delta_contains_type d t then make_ref ref_named t else 0.

Definition delta_as_intrinsic (d : graph_delta) (r : type_ref) : option intrinsic_type :=
  if negb (delta_contains_ref d r) || negb (bool_decide (ref_kind r = ref_intrinsic)) then None
  else let t := intrinsic_of_number (payload r) in if valid_intrinsic t then Some t else None.
Definition delta_as_named (d : graph_delta) (r : type_ref) : option type_handle :=
  if negb (delta_contains_ref d r) || negb (bool_decide (ref_kind r = ref_named)) then None
  else if delta_contains_type d (payload r) then Some (payload r) else None.

Definition delta_reference_compatible (d : graph_delta) (target source : type_ref) : bool :=
  match derived_of d target with
  | None => false
  | Some t =>
      if negb (is_reference (derived_kind t)) then false
      else
        let source :=
          match derived_of d source with
          | Some s => if is_reference (derived_kind s) then child s else source
          | None => source
          end in
        child t =? source
  end.

Definition delta_compatible (d : graph_delta) (target : type_ref) (v : construction_value) : option bool :=
  construction_compatible (S (S (Z.to_nat (delta_derived_count d)))) (derived_of d) target v.

(** *** Members *)

Definition delta_member_count (d : graph_delta) : Z := base_members d + count (delta_members d).

(** The end of [member] and of [construction]: the record behind the image's members. *)
Definition local_member {A} (d : graph_delta) (values : list A) (e : type_view) (m : member_index) : option A :=
  let logical := range_begin (tv_members e) + m in
  if logical <? base_members d then None else values !! Z.to_nat (logical - base_members d).

Definition delta_member (d : graph_delta) (t : type_handle) (m : member_index) : option member_view :=
  e ← delta_type d t;
  if negb (tv_defined e) || negb (member_valid m) || (range_count (tv_members e) <=? m) then None
  else if (t <=? base_count (type_part d)) && bool_decide (find_patch (type_part d) t = None)
  then b ← delta_baseline d; baseline_member b t m
  else local_member d (delta_members d) e m.

Definition delta_member_value (d : graph_delta) (t : type_handle) (m : member_index) : option construction_value :=
  e ← delta_type d t;
  if negb (tv_defined e) || negb (member_valid m) || (range_count (tv_members e) <=? m) then None
  else if (t <=? base_count (type_part d)) && bool_decide (find_patch (type_part d) t = None)
  then b ← delta_baseline d; baseline_member_value b t m
  else local_member d (delta_member_values d) e m.

(** [members]: what the delta itself holds. *)
Definition delta_members_of (d : graph_delta) (t : type_handle) : list member_view :=
  match delta_find_entry d t with
  | None => []
  | Some e =>
      if negb (tv_defined e) || (range_count (tv_members e) =? 0) || (range_begin (tv_members e) <? base_members d) then []
      else
        let begin := range_begin (tv_members e) - base_members d in
        if (count (delta_members d) <? begin) || (count (delta_members d) - begin <? range_count (tv_members e)) then []
        else take (Z.to_nat (range_count (tv_members e))) (drop (Z.to_nat begin) (delta_members d))
  end.

(** The pointer versions of [member] and [construction]. *)
Definition delta_member_pointer (d : graph_delta) (t : type_handle) (m : member_index) : option member_view :=
  if negb (member_valid m) then None else delta_members_of d t !! Z.to_nat m.
Definition delta_value_pointer (d : graph_delta) (t : type_handle) (m : member_index) : option construction_value :=
  e ← delta_find_entry d t;
  if negb (tv_defined e) || negb (member_valid m) || (range_count (tv_members e) <=? m) then None
  else local_member d (delta_member_values d) e m.

Fixpoint find_member_loop (d : graph_delta) (t : type_handle) (name : string_id) (n : nat) (index : Z) : member_index :=
  match n with
  | O => no_member
  | S n =>
      match delta_member d t index with
      | Some m => if mv_name m =? name then index else find_member_loop d t name n (index + 1)
      | None => find_member_loop d t name n (index + 1)
      end
  end.

Definition delta_find_member (d : graph_delta) (t : type_handle) (name : string_id) : member_index :=
  if name =? 0 then no_member
  else
    match delta_type d t with
    | None => no_member
    | Some e => if negb (tv_defined e) then no_member else find_member_loop d t name (Z.to_nat (range_count (tv_members e))) 0
    end.

(** [construction] of an object. *)
Definition delta_object_value (d : graph_delta) (o : object_handle) : option construction_value :=
  if negb (delta_contains_object d o) then None
  else if o <=? base_count (object_part d) then
    match find_patch (object_part d) o with
    | Some (_, p) => if patch_live p then Some (patch_value p).2 else None
    | None => b ← delta_baseline d; baseline_object_value b o
    end
  else
    e ← added (object_part d) !! added_place (object_part d) o;
    if negb (non_default_initializer e) then if construction_slot e =? 0 then Some no_construction else None
    else
      let s := construction_slot e in
      if (s <=? base_object_values d) || (base_object_values d + count (delta_object_values d) <? s) then None
      else delta_object_values d !! Z.to_nat (s - base_object_values d - 1).

(** *** Types *)

Definition record_number : Z := 1.
Definition union_number : Z := 3.
Definition delta_record_kind_valid (k : Z) : bool := (k =? 1) || (k =? 2) || (k =? union_number).
Definition delta_record_kind_compatible (l r : Z) : bool := Bool.eqb (l =? union_number) (r =? union_number).

(** A type that is declared only. *)
Definition declared (k : Z) : type_view := TypeView (GraphRange 0 0) (GraphRange 0 0) record_number k 0.

Definition delta_declare_record (i : identity_ref) (k : Z) (a : delta_allocations) (d : graph_delta)
  : option (server_status * type_handle * graph_delta) :=
  if negb (valid i) || negb (bool_decide (kind i = kind_type)) || negb (delta_record_kind_valid k)
  then Some (project_configuration_invalid, 0, d)
  else
    let existing := lineage_type d i in
    if negb (existing =? 0) then
      if delta_contains_type d existing then
        match delta_type d existing with
        | None => Some (project_configuration_invalid, 0, d)
        | Some e =>
            if negb (tv_kind e =? record_number) || negb (delta_record_kind_compatible (tv_record_kind e) k)
            then Some (project_configuration_invalid, 0, d)
            else Some (success, existing, d)
        end
      else
        '(st, l) ← revive_slot (bound d) (fetched_type d existing) a existing (declared k) (declared k) (type_part d);
        Some (st, if succeeded st then existing else 0, with_type_part l (delta_type_identities d) d)
    else if maximum_handle <=? slot_count (type_part d) then Some (io_error, 0, d)
    else if negb (appended_allocated a) then Some (io_error, 0, d)
    else
      let l := append_slot (declared k) (type_part d) in
      let output := u32 (slot_count l) in
      '(published, d) ← publish_identity_location i location_type output (index_allocated a) d;
      if negb (succeeded published) then Some (published, 0, d)
      else Some (success, output, with_type_part (with_live (live_count l + 1) l) (delta_type_identities d ++ [i]) d).

(** Storing an entry in a live slot: the end of [clear_definition] and of [define_record]. *)
Definition store_type (t : type_handle) (e : type_view) (a : delta_allocations) (d : graph_delta)
  : option (server_status * lineage type_view type_view) :=
  if t <=? base_count (type_part d)
  then change_patch (bound d) (fetched_type d t) a t (fun p => Patch (patch_slot p) e (patch_live p)) (type_part d)
  else if count (added (type_part d)) <=? Z.of_nat (added_place (type_part d) t)
  then Some (project_artifact_invalid, type_part d)
  else Some (success, with_added (<[added_place (type_part d) t := e]> (added (type_part d))) (added_live (type_part d)) (type_part d)).

(** [static_cast<std::uint16_t>(~graph_type_flag_mask)]. *)
Definition unflagged : Z := 0xfffc.

Definition clear_definition (t : type_handle) (a : delta_allocations) (d : graph_delta) : option (server_status * graph_delta) :=
  match delta_type d t with
  | None => Some (project_configuration_invalid, d)
  | Some e =>
      if negb (tv_defined e) then Some (success, d)
      else
        let e := TypeView (GraphRange 0 0) (GraphRange 0 0) (tv_kind e) (tv_record_kind e) (Z.land (tv_flags e) unflagged) in
        '(st, l) ← store_type t e a d;
        Some (st, with_type_part l (delta_type_identities d) d)
  end.

Definition retire_type (t : type_handle) (a : delta_allocations) (d : graph_delta) : option (server_status * graph_delta) :=
  '(st, l) ← retire_slot (bound d) (fetched_type d t) a t (type_part d);
  Some (st, with_type_part l (delta_type_identities d) d).

(** The loop over the members from index [i] on; [None] is a loop that does not end. *)
Fixpoint delta_check_members (d : graph_delta) (definition : list member_view) (values : list construction_value)
    (i : nat) (ms : list member_view) : option bool :=
  match ms with
  | [] => Some true
  | m :: ms =>
      if (mv_name m =? 0) || negb (delta_contains_ref d (mv_type m)) then Some false
      else
        let v := construction_at values i in
        if negb (valid_construction v) then Some false
        else
          match delta_compatible d (mv_type m) v with
          | None => None
          | Some false => Some false
          | Some true =>
              if is_kind member_binding v &&
                 ((count definition <? operand v) ||
                  negb (match at_handle definition (operand v) with
                        | Some bound => delta_reference_compatible d (mv_type m) (mv_type bound)
                        | None => false
                        end)) then Some false
              else if is_kind object_binding v &&
                 negb (match delta_object d (operand v) with
                       | Some o => internal_static o && delta_reference_compatible d (mv_type m) (object_type o)
                       | None => false
                       end) then Some false
              else delta_check_members d definition values (S i) ms
          end
  end.

(** The comparison with the definition that a record already has. *)
Definition delta_same_definition (d : graph_delta) (t : type_handle) (e : type_view) (k : Z)
    (definition : list member_view) (values : list construction_value) : bool :=
  (tv_record_kind e =? k) && (range_count (tv_bases e) =? 0) && negb (tv_polymorphic e) &&
  (range_count (tv_members e) =? count definition) &&
  forallb (fun i =>
    match delta_member d t (u32 (Z.of_nat i)), delta_member_value d t (u32 (Z.of_nat i)), definition !! i with
    | Some existing, Some value, Some m =>
        (mv_name existing =? mv_name m) && (mv_type existing =? mv_type m) && (mv_access existing =? mv_access m) &&
        bool_decide (value = construction_at values i)
    | _, _, _ => false
    end) (seq 0 (length definition)).

Definition delta_define_record (t : type_handle) (k : Z) (definition : list member_view) (values : list construction_value)
    (a : delta_allocations) (d : graph_delta) : option (server_status * graph_delta) :=
  match delta_type d t with
  | None => Some (project_configuration_invalid, d)
  | Some e =>
      if negb (tv_kind e =? record_number) || negb (delta_record_kind_valid k) ||
         negb (delta_record_kind_compatible (tv_record_kind e) k) ||
         (negb (bool_decide (values = [])) && negb (count values =? count definition))
      then Some (project_configuration_invalid, d)
      else
        checked ← delta_check_members d definition values 0 definition;
        if negb checked then Some (project_configuration_invalid, d)
        else if tv_defined e then
          Some (if delta_same_definition d t e k definition values then success else project_configuration_invalid, d)
        else if (u32_max <? delta_member_count d) || (u32_max <? count definition) ||
                (u32_max - delta_member_count d <? count definition)
        then Some (io_error, d)
        else
          let old := length (delta_members d) in
          let restored := with_member_part (delta_members d) (resize old no_construction (delta_member_values d)) d in
          if negb (appended_allocated a) then Some (io_error, restored)
          else
            let all := delta_members d ++ definition in
            let all_values :=
              if bool_decide (values = []) then resize (length all) no_construction (delta_member_values d)
              else delta_member_values d ++ values in
            let e := TypeView (GraphRange (u32 (delta_member_count d)) (u32 (count definition))) (GraphRange 0 0) (tv_kind e) k
              (Z.lor (Z.land (tv_flags e) (0xffff - graph_type_polymorphic)) graph_type_defined) in
            '(st, l) ← store_type t e a d;
            Some (st, with_type_part l (delta_type_identities d)
              (if succeeded st then with_member_part all all_values d else restored))
  end.

(** *** Objects *)

(** The end of [add_object]: the new value, if the object has one, and its slot. *)
Definition new_object_value (flags : Z) (initial : construction_value) (a : delta_allocations) (d : graph_delta)
  : option (list construction_value * Z) :=
  if Z.land flags graph_object_non_default_initializer =? 0 then Some (delta_object_values d, 0)
  else if graph_object_construction_slot_mask <=? base_object_values d + count (delta_object_values d) then None
  else if negb (values_allocated a) then None
  else
    let values := delta_object_values d ++ [initial] in
    Some (values, u32 (base_object_values d + count values)).

(** The guards of [add_object]; [None] is a loop that does not end. *)
Definition object_accepted (d : graph_delta) (i : identity_ref) (t : type_ref) (flags : Z) (initial : construction_value)
  : option bool :=
  if negb (valid i) || negb (bool_decide (kind i = kind_object)) || negb (delta_contains_ref d t) ||
     negb (Z.land flags (Z.lnot graph_object_flag_mask) =? 0) || negb (valid_construction initial)
  then Some false
  else
    compatible ← delta_compatible d t initial;
    Some (compatible &&
      negb ((Z.land flags graph_object_non_default_initializer =? 0) && negb (bool_decide (initial = no_construction))) &&
      negb (is_kind member_binding initial) && negb (is_kind object_binding initial)).

Definition delta_add_object (i : identity_ref) (t : type_ref) (flags : Z) (initial : construction_value)
    (a : delta_allocations) (d : graph_delta) : option (server_status * object_handle * graph_delta) :=
  accepted ← object_accepted d i t flags initial;
  if negb accepted then Some (project_configuration_invalid, 0, d)
  else
    let existing := lineage_object d i in
    if negb (existing =? 0) then
      if delta_contains_object d existing then
        match delta_object d existing, delta_object_value d existing with
        | Some e, Some v =>
            if negb (object_type e =? t) || negb (Z.land (state e) graph_object_flag_mask =? flags) ||
               negb (bool_decide (v = initial))
            then Some (project_configuration_invalid, 0, d)
            else Some (success, existing, d)
        | _, _ => Some (project_configuration_invalid, 0, d)
        end
      else
        let l := object_part d in
        if existing <=? base_count l then
          '(prepared, n, l) ← ensure_patch (bound d) (fetched_object_patch d existing) a existing l;
          let kept := with_object_part l (delta_object_identities d) (delta_object_values d) d in
          if negb (succeeded prepared) then Some (prepared, 0, kept)
          else
            match new_object_value flags initial a d with
            | None => Some (io_error, 0, kept)
            | Some (values, slot) =>
                let l := revive_patch n (ObjectEntry t (Z.lor flags slot), initial) l in
                Some (success, existing, with_object_part l (delta_object_identities d) values d)
            end
        else if added_missing existing l then Some (project_artifact_invalid, 0, d)
        else
          match new_object_value flags initial a d with
          | None => Some (io_error, 0, d)
          | Some (values, slot) =>
              let l := revive_added existing (ObjectEntry t (Z.lor flags slot)) l in
              Some (success, existing, with_object_part l (delta_object_identities d) values d)
          end
    else if maximum_handle <=? slot_count (object_part d) then Some (io_error, 0, d)
    else
      match new_object_value flags initial a d with
      | None => Some (io_error, 0, d)
      | Some (values, slot) =>
          if negb (appended_allocated a) then Some (io_error, 0, d)
          else
            let l := append_slot (ObjectEntry t (Z.lor flags slot)) (object_part d) in
            let output := u32 (slot_count l) in
            '(published, d) ← publish_identity_location i location_object output (index_allocated a) d;
            if negb (succeeded published) then Some (published, 0, d)
            else
              Some (success, output, with_object_part (with_live (live_count l + 1) l) (delta_object_identities d ++ [i]) values d)
      end.

Definition retire_object (o : object_handle) (a : delta_allocations) (d : graph_delta) : option (server_status * graph_delta) :=
  '(st, l) ← retire_slot (bound d) (fetched_object_patch d o) a o (object_part d);
  Some (st, with_object_part l (delta_object_identities d) (delta_object_values d) d).

(** *** Derived types *)

(** The slot of the derived type that the delta appends at position [i]. *)
Definition delta_slot_of (base : Z) (i : nat) (key : derived_key) : derived_index_slot :=
  DerivedSlot (fingerprint (hash_derived key)) (make_ref ref_derived (u32 (base + Z.of_nat i + 1))).

Definition delta_derived_matches (d : graph_delta) (key : derived_key) (expected : Z) (s : derived_index_slot) : bool :=
  (derived_fingerprint s =? expected) && bool_decide (ref_kind (slot_type s) = ref_derived) &&
  (base_derived d <? payload (slot_type s)) && (payload (slot_type s) <=? delta_derived_count d) &&
  match delta_derived d !! Z.to_nat (payload (slot_type s) - base_derived d - 1) with
  | Some r => bool_decide (key_of r = key)
  | None => false
  end.

Definition delta_find_derived (d : graph_delta) (key : derived_key) (hash expected : Z) : type_ref :=
  match find_slot vacant_derived derived_occupied (delta_derived_index d) hash (delta_derived_matches d key expected) with
  | Some s => slot_type s
  | None => 0
  end.

Definition delta_derived_capacity (additional : Z) (allocated : bool) (d : graph_delta)
  : option (server_status * list derived_index_slot) :=
  ensure_capacity vacant_derived (count (delta_derived d)) additional allocated
    (insert_keys vacant_derived derived_occupied hash_derived (delta_slot_of (base_derived d)) 0 (key_of <$> delta_derived d))
    (delta_derived_index d).

Definition delta_derive (c : type_ref) (k : derived_type_kind) (n : Z) (a : delta_allocations) (d : graph_delta)
  : option (server_status * type_ref * graph_delta) :=
  if negb (delta_contains_ref d c) || negb (valid_derived_kind k) then Some (project_configuration_invalid, 0, d)
  else
    let hash := hash_derived (c, k, n) in
    let existing := delta_find_derived d (c, k, n) hash (fingerprint hash) in
    if ref_valid existing then Some (success, existing, d)
    else
      let stored := match delta_baseline d with Some b => baseline_find_derived b c k n | None => 0 end in
      if ref_valid stored then Some (success, stored, d)
      else if maximum_payload <=? delta_derived_count d then Some (io_error, 0, d)
      else
        '(prepared, index) ← delta_derived_capacity 1 (index_allocated a) d;
        let d := with_derived_part (delta_derived d) index d in
        if negb (succeeded prepared) then Some (prepared, 0, d)
        else if negb (appended_allocated a) then Some (io_error, 0, d)
        else
          let ts := delta_derived d ++ [DerivedTypeRecord n c k] in
          let output := make_ref ref_derived (u32 (base_derived d + count ts)) in
          index ← insert_derived_index index output hash;
          Some (success, output, with_derived_part ts index d).

(** *** Links *)

Definition find_local_link_target (d : graph_delta) (target : object_endpoint) : link_handle :=
  keyed_find vacant_link link_key slot_link mix64 (delta_link_index d) (link_target_key target).

Definition lineage_link_target (d : graph_delta) (target : object_endpoint) : link_handle :=
  let local := find_local_link_target d target in
  if negb (local =? 0) then local
  else match delta_baseline d with Some b => baseline_find_link_target b target | None => 0 end.

(** The conversion of an endpoint to a member index is [direct_member]. *)
Definition delta_endpoint_type (d : graph_delta) (e : object_endpoint) : option type_ref :=
  o ← delta_object d (endpoint_object e);
  if negb (endpoint_valid (endpoint_member e)) then None
  else
    t ← delta_as_named d (object_type o);
    m ← delta_member d t (direct_member (endpoint_member e));
    if ref_valid (mv_type m) then Some (mv_type m) else None.

Definition delta_add_link (source target : object_endpoint) (a : delta_allocations) (d : graph_delta)
  : option (server_status * link_handle * graph_delta) :=
  match delta_endpoint_type d source, delta_endpoint_type d target with
  | Some source_type, Some target_type =>
      if negb (delta_reference_compatible d target_type source_type) then Some (project_configuration_invalid, 0, d)
      else
        let existing := lineage_link_target d target in
        if negb (existing =? 0) then
          if delta_contains_link d existing then
            match delta_link d existing with
            | None => Some (project_configuration_invalid, 0, d)
            | Some l =>
                if negb (bool_decide (link_target l = target)) || negb (bool_decide (link_source l = source))
                then Some (project_configuration_invalid, 0, d)
                else Some (success, existing, d)
            end
          else
            let value := LinkRecord source target in
            '(st, l) ← revive_slot (bound d) (fetched_link d existing) a existing value value (link_part d);
            Some (st, if succeeded st then existing else 0, with_link_part l (delta_link_index d) (delta_link_count d) d)
        else if maximum_handle <=? slot_count (link_part d) then Some (io_error, 0, d)
        else
          '(prepared, index) ← keyed_capacity vacant_link link_key mix64 (delta_link_count d) 1 (index_allocated a) (delta_link_index d);
          let d := with_link_part (link_part d) index (delta_link_count d) d in
          if negb (succeeded prepared) then Some (prepared, 0, d)
          else if negb (appended_allocated a) then Some (io_error, 0, d)
          else
            let l := append_slot (LinkRecord source target) (link_part d) in
            let output := u32 (slot_count l) in
            let key := link_target_key target in
            if key =? 0 then Some (project_configuration_invalid, 0, d)
            else
              index ← keyed_insert vacant_link link_key LinkSlot mix64 index key output;
              Some (success, output, with_link_part (with_live (live_count l + 1) l) index (delta_link_count d + 1) d)
  | _, _ => Some (project_configuration_invalid, 0, d)
  end.

Definition retire_link (h : link_handle) (a : delta_allocations) (d : graph_delta) : option (server_status * graph_delta) :=
  '(st, l) ← retire_slot (bound d) (fetched_link d h) a h (link_part d);
  Some (st, with_link_part l (delta_link_index d) (delta_link_count d) d).

(** [object_at]. *)
Definition delta_object_at (d : graph_delta) (index : Z) : object_handle :=
  if slot_count (object_part d) <=? index then 0
  else let output := u32 (index + 1) in if delta_contains_object d output then output else 0.
End Delta.

Arguments graph_delta : clear implicits.
