(* ===== verification/DeltaProject.v ===== *)
(** The slots of the sparse delta: what a slot of a [lineage] holds, the invariant of the
    patches, of their index and of the live counter, and what making a patch, retiring,
    reviving and appending do to every slot.

    What a bound delta stands for: the project after the build, as the meaning of every slot
    of types, objects and links, with the handles of identities and of link targets.  Here
    are the laws of the compiled image that the delta relies on, the meaning of a slot in
    terms of what the slot holds, and the invariant of a delta. *)

From S2P Require Import Prelude ServerStatus HashIndex StringTable Identity DenseIndex SparseIndex GraphData GraphTypes GraphRecords GraphLinks ImageBytes CompiledView GraphDelta.

Local Open Scope Z_scope.

(** ** Counting *)

(** How many of the slots 1 to [n] are live. *)
Fixpoint number_live (live : Z -> bool) (n : nat) : Z :=
  match n with
  | O => 0
  | S n => number_live live n + (if live (Z.of_nat n + 1) then 1 else 0)
  end.

Lemma number_live_range live n : 0 <= number_live live n <= Z.of_nat n.
Proof. induction n as [|n IH]; [done|]. cbn [number_live]. destruct (live _); lia. Qed.

Lemma number_live_same f g n :
  (forall h, 1 <= h <= Z.of_nat n -> f h = g h) -> number_live f n = number_live g n.
Proof.
  induction n as [|n IH]; intros H; [done|]. cbn [number_live]. rewrite IH, H by (try intros ? ?; try apply H; lia). done.
Qed.

(** One slot changes. *)
Lemma number_live_change f g n h :
  1 <= h <= Z.of_nat n -> (forall h', h' <> h -> f h' = g h') ->
  number_live f n = number_live g n + (if f h then 1 else 0) - (if g h then 1 else 0).
Proof.
  intros Hh Hfg. induction n as [|n IH]; [lia|]. cbn [number_live].
  destruct (Z.eq_dec h (Z.of_nat n + 1)) as [->|Hne].
  - rewrite (number_live_same f g n) by (intros; apply Hfg; lia). lia.
  - rewrite (Hfg (Z.of_nat n + 1)) by lia. rewrite IH by lia. lia.
Qed.

(** ** Slots *)

Section Slots.
Context {V A : Type}.
Implicit Types l : lineage V A.

(** What a slot holds: the record of the image, its patch, or an appended record. *)
Inductive holding := stored | patched (v : V) | appended (x : A).

Definition patch_at l (h : Z) : option (patch V) := snd <$> find_patch l h.

(** A slot with its liveness. *)
Definition held_state l (h : Z) : option (bool * holding) :=
  if negb (slot_exists l h) then None
  else if h <=? base_count l then
    match patch_at l h with
    | None => Some (true, stored)
    | Some p => Some (patch_live p, patched (patch_value p))
    end
  else
    live ← added_live l !! added_place l h; x ← added l !! added_place l h; Some (live, appended x).

(** The invariant: the index is the map from the patched slots to their patches, appended
    slots have their flag, and the counter counts the live slots. *)
Record patches_ok l : Prop := PatchesOk {
  base_range : 0 <= base_count l < 2 ^ 32;
  patches_indexed : exists m, sparse_ok m (patch_index l) /\ base.size m = length (patches l) /\
    (forall h pos, m !! h = Some pos <-> 1 <= pos /\ exists p, patches l !! Z.to_nat (pos - 1) = Some p /\ patch_slot p = h);
  patches_of_base : forall p, p ∈ patches l -> 1 <= patch_slot p <= base_count l;
  added_flags : length (added_live l) = length (added l)
}.

Record lineage_ok l : Prop := LineageOk {
  lineage_patches : patches_ok l;
  lineage_size : slot_count l < 2 ^ 33;
  lineage_live : live_count l = number_live (contains_slot l) (Z.to_nat (slot_count l))
}.

Lemma find_patch_spec l h n p :
  patches_ok l -> (find_patch l h = Some (n, p) <-> patches l !! n = Some p /\ patch_slot p = h).
Proof.
  intros [_ (m & Hm & _ & Hiff) _ _]. unfold find_patch. rewrite (sparse_find_spec m) by done. split.
  - destruct (m !! h) as [pos|] eqn:E; cbn [default]; [|done].
    apply Hiff in E as (Hpos & p' & Hp & Hs). destruct (_ && _); [|done]. cbn [mbind option_bind].
    destruct (patches l !! _) as [q|] eqn:Eq; [|done]. rewrite Hp in Eq. cbn. by intros [= <- <-]; simplify_eq.
  - intros [Hp Hs]. assert (m !! h = Some (Z.of_nat n + 1)) as E.
    { apply Hiff. split; [lia|]. exists p. by replace (Z.to_nat (Z.of_nat n + 1 - 1)) with n by lia. }
    rewrite E. cbn [default id]. apply lookup_lt_Some in Hp as Hlt. unfold count.
    rewrite (proj2 (Z.eqb_neq _ _)), (proj2 (Z.leb_le _ _)) by lia. cbn [negb andb].
    replace (Z.to_nat (Z.of_nat n + 1 - 1)) with n by lia. by rewrite Hp.
Qed.

Lemma patch_at_spec l h p : patches_ok l -> (patch_at l h = Some p <-> p ∈ patches l /\ patch_slot p = h).
Proof.
  intros Hok. unfold patch_at. rewrite fmap_Some. split.
  - intros ([n p'] & H & ->). apply find_patch_spec in H as [H ?]; [|done]. split; [by eapply list_elem_of_lookup_2|done].
  - intros [[n Hn]%list_elem_of_lookup_1 Hs]. exists (n, p). split; [by apply find_patch_spec|done].
Qed.

Lemma patch_at_none l h : patches_ok l -> (patch_at l h = None <-> forall p, p ∈ patches l -> patch_slot p <> h).
Proof.
  intros Hok. split.
  - intros H p Hp Hs. assert (patch_at l h = Some p) as E by by apply patch_at_spec. by rewrite H in E.
  - intros H. destruct (patch_at l h) as [p|] eqn:E; [|done]. apply patch_at_spec in E as [? ?]; [|done]. by destruct (H p).
Qed.

Lemma find_patch_none l h : find_patch l h = None <-> patch_at l h = None.
Proof. unfold patch_at. destruct (find_patch l h) as [[]|]; done. Qed.

(** The patches are fewer than the slots of the image, while a slot has none. *)
Lemma patches_few l h : patches_ok l -> 1 <= h <= base_count l -> patch_at l h = None -> count (patches l) < base_count l.
Proof.
  intros Hok Hh Hnone. rewrite patch_at_none in Hnone by done. destruct Hok as [Hb (m & _ & Hsize & Hiff) Hp _].
  unfold count. rewrite <- Hsize, <- size_dom.
  assert (dom m ⊆ list_to_set (seqZ 1 (base_count l)) ∖ {[h]}) as Hsub%subseteq_size.
  { intros h' [pos Hpos]%elem_of_dom. apply Hiff in Hpos as (_ & p & Hlook%list_elem_of_lookup_2 & <-).
    apply elem_of_difference. split; [apply elem_of_list_to_set, elem_of_seqZ; apply Hp in Hlook; lia|].
    intros E%elem_of_singleton. by apply (Hnone p). }
  rewrite size_difference in Hsub by (intros ? ->%elem_of_singleton; apply elem_of_list_to_set, elem_of_seqZ; lia).
  rewrite size_singleton, (size_list_to_set (C:=gset Z)), length_seqZ in Hsub by apply NoDup_seqZ. lia.
Qed.

(** [contains_slot] and the value of a slot in terms of what it holds. *)
Lemma contains_state l h : patches_ok l -> contains_slot l h = match held_state l h with Some (live, _) => live | None => false end.
Proof.
  intros Hok. unfold contains_slot, held_state, patch_at. destruct (slot_exists l h) eqn:He; cbn [negb]; [|done].
  destruct (h <=? base_count l) eqn:Hb; [by destruct (find_patch l h) as [[]|]|].
  destruct (added_live l !! added_place l h) as [live|] eqn:El; [|done]. cbn [mbind option_bind].
  destruct (lookup_lt_is_Some_2 (added l) (added_place l h)) as [x ->]; [|done].
  rewrite <- (added_flags l Hok). by eapply lookup_lt_Some.
Qed.

Lemma value_state {X} (of_patch : V -> X) (of_added : A -> X) fetched l h :
  patches_ok l ->
  (if negb (contains_slot l h) then None
   else if h <=? base_count l then
     match find_patch l h with Some (_, p) => if patch_live p then Some (of_patch (patch_value p)) else None | None => fetched end
   else of_added <$> (added l !! added_place l h))
  = match held_state l h with
    | Some (true, stored) => fetched
    | Some (true, patched v) => Some (of_patch v)
    | Some (true, appended x) => Some (of_added x)
    | _ => None
    end.
Proof.
  intros Hok. rewrite contains_state by done. unfold held_state, patch_at. destruct (slot_exists l h); cbn [negb]; [|done].
  destruct (h <=? base_count l); cbn [negb].
  - destruct (find_patch l h) as [[n p]|]; cbn; [|done]. by destruct (patch_live p).
  - destruct (added_live l !! _) as [[]|] eqn:El; cbn; [| |done]; by destruct (added l !! _).
Qed.

(** ** Making and changing patches *)

(** The parts of a [lineage] that patching leaves alone. *)
Definition same_added l l' : Prop :=
  base_count l' = base_count l /\ added l' = added l /\ added_live l' = added_live l /\ live_count l' = live_count l.

Lemma ensure_patch_spec bound fetched a h l :
  patches_ok l -> 0 <= h ->
  exists st n l', ensure_patch bound fetched a h l = Some (st, n, l') /\ patches_ok l' /\ same_added l l' /\
    (st <> success /\ l' = l \/
     st = success /\ 1 <= h <= base_count l /\
     exists p, patches l' !! n = Some p /\ patch_slot p = h /\
       (patch_at l h = Some p \/ patch_at l h = None /\ fetched = Some (patch_value p) /\ patch_live p = true) /\
       (forall h', h' <> h -> patch_at l' h' = patch_at l h')).
Proof.
  intros Hok Hh. pose proof Hok as [Hb (m & Hm & Hsize & Hiff) Hp Hflags]. unfold ensure_patch.
  destruct (negb bound || (h =? 0) || (base_count l <? h)) eqn:Eg.
  { exists project_configuration_invalid, O, l. repeat (split; [done|]). by left. }
  destruct (find_patch l h) as [[n p]|] eqn:Ef.
  { exists success, n, l. repeat (split; [done|]). right. pose proof Ef as [Hn Hs]%find_patch_spec; [|done].
    split; [done|]. split; [subst; apply Hp; by eapply list_elem_of_lookup_2|]. exists p. split; [done|]. split; [done|].
    split; [|done]. left. unfold patch_at. by rewrite Ef. }
  destruct fetched as [value|]; [|exists project_artifact_invalid, O, l; repeat (split; [done|]); by left].
  destruct (patch_allocated a); cbn [negb]; [|exists io_error, O, l; repeat (split; [done|]); by left].
  apply find_patch_none in Ef. pose proof Ef as Hnone. rewrite patch_at_none in Hnone by done.
  unbool. pose proof (patches_few l h Hok ltac:(lia) Ef) as Hfew.
  assert (m !! h = None) as Hmh.
  { destruct (m !! h) as [pos|] eqn:E; [|done]. apply Hiff in E as (_ & p & Hl & Hs). apply list_elem_of_lookup_2 in Hl. by destruct (Hnone p). }
  assert (u32 (count (patches l ++ [Patch h value true])) = Z.of_nat (length (patches l)) + 1) as ->.
  { unfold u32, count in *. rewrite length_app. cbn [length]. rewrite Z.mod_small; lia. }
  unfold count in Hfew.
  destruct (sparse_insert_spec m (patch_index l) h (Z.of_nat (length (patches l)) + 1) (index_allocated a))
    as (st & i' & -> & [(-> & -> & _)|(-> & Hm')]); [done|lia|lia|done|lia|..]; cbn [mbind option_bind succeeded negb].
  { exists io_error, O, l. assert (with_patches (patches l) (patch_index l) l = l) as -> by by destruct l.
    repeat (split; [done|]). by left. }
  set (l' := with_patches (patches l ++ [Patch h value true]) i' l).
  assert (patches_ok l') as Hok'.
  { split; [done| | |done]; unfold l'; cbn [patches patch_index with_patches base_count].
    - exists (<[h := Z.of_nat (length (patches l)) + 1]> m). split; [done|]. split.
      { rewrite map_size_insert_None by done. rewrite length_app. cbn. lia. }
      intros h' pos. rewrite lookup_insert_Some. setoid_rewrite lookup_app_Some. split.
      + intros [[<- <-]|[Hne Hpos]].
        * split; [lia|]. exists (Patch h value true). split; [|done]. right. replace (Z.to_nat _ - _)%nat with O by lia. split; [lia|done].
        * apply Hiff in Hpos as (? & p & ? & ?). split; [done|]. exists p. split; [by left|done].
      + intros (Hpos & p & [Hin|[Hge Hin]] & Hs).
        * right. assert (m !! h' = Some pos) as E by (apply Hiff; split; [done|by exists p]). split; [by intros ->; rewrite Hmh in E|done].
        * left. apply list_lookup_singleton_Some in Hin as [Hz <-]. cbn in Hs. split; [done|lia].
    - intros p [Hin|Hin]%elem_of_app; [by apply Hp|]. apply list_elem_of_singleton in Hin as ->. cbn. lia. }
  exists success, (length (patches l)), l'. repeat (split; [done|]). right. split; [done|]. split; [lia|].
  exists (Patch h value true). split; [cbn; by rewrite lookup_app_r, Nat.sub_diag|]. split; [done|]. split; [by right|].
  intros h' Hne. destruct (patch_at l h') as [p|] eqn:E.
  - apply patch_at_spec in E as [? ?]; [|done]. apply patch_at_spec; [done|]. split; [apply elem_of_app; by left|done].
  - apply patch_at_none; [done|]. rewrite patch_at_none in E by done. intros p [Hin|Hin]%elem_of_app; [by apply E|].
    apply list_elem_of_singleton in Hin as ->. cbn. done.
Qed.

(** A patch that keeps its slot changes what that slot holds and no other. *)
Lemma alter_patch_spec (f : patch V -> patch V) l n p :
  patches_ok l -> patches l !! n = Some p -> patch_slot (f p) = patch_slot p ->
  let l' := with_patches (alter f n (patches l)) (patch_index l) l in
  patches_ok l' /\ patch_at l' (patch_slot p) = Some (f p) /\
  (forall h, h <> patch_slot p -> patch_at l' h = patch_at l h).
Proof.
  intros Hok Hn Hf. pose proof Hok as [Hb (m & Hm & Hsize & Hiff) Hp Hflags]. cbv zeta.
  set (l' := with_patches _ _ l).
  assert (forall n' q, patches l' !! n' = Some q -> exists q', patches l !! n' = Some q' /\ patch_slot q' = patch_slot q) as Hback.
  { intros n' q. unfold l'. cbn. rewrite list_lookup_alter. case_decide as E; [subst n'; rewrite Hn; intros [= <-]; by exists p|by exists q]. }
  assert (forall n' q', patches l !! n' = Some q' -> exists q, patches l' !! n' = Some q /\ patch_slot q = patch_slot q') as Hforth.
  { intros n' q' Hq. unfold l'. cbn. rewrite list_lookup_alter, Hq. case_decide as E; [|by exists q']. subst n'. rewrite Hn in Hq. simplify_eq.
    exists (f q'). by rewrite Hn. }
  assert (patches_ok l') as Hok'.
  { split; [done| | |done].
    - exists m. split; [done|]. split; [by cbn; rewrite length_alter|]. intros h pos. rewrite Hiff. split; intros (? & q & Hq & <-).
      + apply Hforth in Hq as (q' & ? & ?). split; [done|]. by exists q'.
      + apply Hback in Hq as (q' & ? & ?). split; [done|]. by exists q'.
    - intros q [n' Hq]%list_elem_of_lookup_1. apply Hback in Hq as (q' & Hq & <-). apply Hp. by eapply list_elem_of_lookup_2. }
  split; [done|]. split.
  - apply patch_at_spec; [done|]. split; [|done]. apply (list_elem_of_lookup_2 _ n). unfold l'. cbn. by rewrite list_lookup_alter_eq, Hn.
  - intros h Hne. unfold patch_at. destruct (find_patch l h) as [[n' q]|] eqn:E.
    + apply find_patch_spec in E as [Hq Hs]; [|done]. assert (find_patch l' h = Some (n', q)) as ->; [|done].
      apply find_patch_spec; [done|]. split; [|done]. unfold l'. cbn. rewrite list_lookup_alter_ne; [done|]. intros ->.
      rewrite Hn in Hq. simplify_eq.
    + destruct (find_patch l' h) as [[n' q]|] eqn:E'; [|done]. exfalso. apply find_patch_spec in E' as [Hq <-]; [|done].
      apply Hback in Hq as (q' & Hq & Hs). assert (find_patch l (patch_slot q) = Some (n', q')) as E2 by by apply find_patch_spec.
      by rewrite E in E2.
Qed.

(** ** What the operations do to the slots *)

(** Slot [h] holds [c] afterwards, every other slot is as it was. *)
Definition slot_changes l l' (h : Z) (c : bool * holding) : Prop :=
  base_count l' = base_count l /\ slot_count l' = slot_count l /\ held_state l' h = Some c /\
  (forall h', h' <> h -> held_state l' h' = held_state l h').

Lemma slot_exists_range l h : slot_exists l h = true -> 0 <= h -> 1 <= h <= slot_count l.
Proof. unfold slot_exists. intros H ?. unbool. lia. Qed.

Lemma contains_exists l h : contains_slot l h = true -> slot_exists l h = true.
Proof. unfold contains_slot. by destruct (slot_exists l h). Qed.

Lemma slot_state_same l l' h :
  base_count l' = base_count l -> added l' = added l -> added_live l' = added_live l -> patch_at l' h = patch_at l h ->
  held_state l' h = held_state l h.
Proof. intros Hb Ha Hl Hp. unfold held_state, slot_exists, slot_count, added_place. by rewrite Hb, Ha, Hl, Hp. Qed.

(** A change of one slot keeps the counter right. *)
Lemma changed_ok l l' h c n :
  lineage_ok l -> patches_ok l' -> slot_exists l h = true -> 0 <= h ->
  slot_changes l l' h c -> n = live_count l + (if c.1 then 1 else 0) - (if contains_slot l h then 1 else 0) ->
  lineage_ok (with_live n l') /\ slot_changes l (with_live n l') h c.
Proof.
  intros [Hok Hsize Hlive] Hok' He H0 Hch ->. pose proof Hch as (Hb & Hc & Hh & Hrest).
  pose proof (slot_exists_range l h He H0) as Hrange.
  assert (forall n, slot_changes l (with_live n l') h c) as Hany by (intros n; exact Hch).
  split; [|done]. split.
  - destruct Hok'. by split.
  - by rewrite <- Hc in Hsize.
  - rewrite Hlive. change (slot_count (with_live _ l')) with (slot_count l'). cbn [live_count with_live]. rewrite Hc.
    rewrite (number_live_change (contains_slot (with_live _ l')) (contains_slot l) _ h); [|lia|].
    + rewrite (contains_state (with_live _ l') h) by (destruct Hok'; by split).
      change (held_state (with_live _ l') h) with (held_state l' h). rewrite Hh. destruct c as [b x]. cbn [fst].
      unfold u64. rewrite Z.mod_small; [done|].
      pose proof (number_live_range (contains_slot l) (Z.to_nat (slot_count l))).
      destruct (contains_slot l h) eqn:E; [|destruct b; lia].
      pose proof (number_live_change (fun h' => if h' =? h then false else contains_slot l h') (contains_slot l) (Z.to_nat (slot_count l)) h
        ltac:(lia) ltac:(intros h' Hne; cbv beta; by rewrite (proj2 (Z.eqb_neq h' h) Hne))) as Hone.
      cbv beta in Hone; rewrite Z.eqb_refl, E in Hone. pose proof (number_live_range (fun h' => if h' =? h then false else contains_slot l h') (Z.to_nat (slot_count l))).
      destruct b; lia.
    + intros h' Hne. rewrite !contains_state by (done || (destruct Hok'; by split)).
      change (held_state (with_live _ l') h') with (held_state l' h'). by rewrite Hrest.
Qed.

Lemma replaced_ok l l' h x :
  lineage_ok l -> patches_ok l' -> contains_slot l h = true -> 0 <= h -> slot_changes l l' h (true, x) ->
  live_count l' = live_count l -> lineage_ok l'.
Proof.
  intros Hl Hok' Hc H0 Hch Hlive.
  destruct (changed_ok l l' h (true, x) (live_count l) Hl Hok' (contains_exists l h Hc) H0 Hch) as [[Hp Hs Hn] _]; [rewrite Hc; cbn; lia|].
  split; [done|done|]. rewrite Hlive. destruct Hl as [_ _ Hn0]. cbn [with_live live_count] in Hn.
  pose proof (number_live_range (contains_slot l) (Z.to_nat (slot_count l))) as Hr. destruct Hok' as [? ? ? ?].
  pose proof (slot_exists_range l h (contains_exists l h Hc) H0). destruct Hch as (_ & Hcount & _).
  assert (slot_count l < 2 ^ 33) by (change (slot_count (with_live (live_count l) l')) with (slot_count l') in Hs; lia).
  unfold u64 in Hn. rewrite Z.mod_small in Hn by lia. exact Hn.
Qed.

(** A patch changes: the slot holds what the new patch says. *)
Lemma patch_changes (f : patch V -> patch V) l l1 n p :
  patches_ok l -> patches_ok l1 -> same_added l l1 -> slot_exists l (patch_slot p) = true ->
  1 <= patch_slot p <= base_count l -> patches l1 !! n = Some p -> patch_slot (f p) = patch_slot p ->
  (forall h, h <> patch_slot p -> patch_at l1 h = patch_at l h) ->
  let l' := with_patches (alter f n (patches l1)) (patch_index l1) l1 in
  patches_ok l' /\ slot_changes l l' (patch_slot p) (patch_live (f p), patched (patch_value (f p))).
Proof.
  intros Hok Hok1 (Hb & Ha & Hf & _) He Hrange Hn Hslot Hrest. cbv zeta.
  destruct (alter_patch_spec f l1 n p Hok1 Hn Hslot) as (Hok' & Hat & Hother). split; [done|].
  split; [done|]. split; [unfold slot_count; cbn; by rewrite Hb, Ha|]. split.
  - unfold held_state, slot_exists, slot_count in *. cbn [base_count added with_patches]. rewrite Hb, Ha, He. cbn [negb].
    rewrite (proj2 (Z.leb_le _ _)) by lia. fold (with_patches (alter f n (patches l1)) (patch_index l1) l1). by rewrite Hat.
  - intros h Hne. apply slot_state_same; [done..|]. by rewrite Hother, Hrest.
Qed.

(** An appended slot changes. *)
Lemma added_changes l h x live :
  patches_ok l -> slot_exists l h = true -> base_count l < h ->
  let l' := with_added (<[added_place l h := x]> (added l)) (<[added_place l h := live]> (added_live l)) l in
  patches_ok l' /\ slot_changes l l' h (live, appended x).
Proof.
  intros Hok He Hh. cbv zeta. pose proof Hok as [Hb Hi Hp Hl]. set (l' := with_added _ _ l).
  assert (slot_count l' = slot_count l) as Hc by (unfold slot_count, count; cbn; by rewrite length_insert).
  assert (added_place l h < length (added l))%nat as Hlt.
  { unfold slot_exists, slot_count, count, added_place in *. unbool. lia. }
  assert (patches_ok l') as Hok' by (split; [done|done|done|cbn; by rewrite !length_insert]).
  split; [done|]. split; [done|]. split; [done|]. split.
  - unfold held_state, slot_exists in *. rewrite Hc, He. cbn [negb]. change (base_count l') with (base_count l). rewrite (proj2 (Z.leb_gt _ _)) by lia.
    cbn [added added_live l' with_added]. change (added_place l' h) with (added_place l h).
    by rewrite !list_lookup_insert_eq by lia.
  - intros h' Hne. unfold held_state, slot_exists. rewrite Hc. change (base_count l') with (base_count l).
    change (patch_at l' h') with (patch_at l h'). destruct (negb _) eqn:En; [done|]. destruct (Z.leb_spec h' (base_count l)); [done|].
    cbn [added added_live l' with_added]. change (added_place l' h') with (added_place l h').
    rewrite !list_lookup_insert_ne; [done|unfold added_place; lia..].
Qed.

Lemma state_contained l h : patches_ok l -> contains_slot l h = true -> exists x, held_state l h = Some (true, x).
Proof. intros Hok. rewrite contains_state by done. destruct (held_state l h) as [[[] x]|]; [by exists x|done..]. Qed.

(** Changing the patch of a slot that is live, or was patched before. *)
Lemma change_patch_spec bound fetched a h (f : patch V -> patch V) l :
  lineage_ok l -> 0 <= h -> slot_exists l h = true -> (forall p, patch_slot (f p) = patch_slot p) ->
  exists st l', change_patch bound fetched a h f l = Some (st, l') /\
    (st <> success /\ l' = l \/
     st = success /\ patches_ok l' /\ live_count l' = live_count l /\
     exists p, (patch_at l h = Some p \/ patch_at l h = None /\ fetched = Some (patch_value p) /\ patch_live p = true) /\
       slot_changes l l' h (patch_live (f p), patched (patch_value (f p)))).
Proof.
  intros Hl H0 He Hf. pose proof (lineage_patches l Hl) as Hok. unfold change_patch.
  destruct (ensure_patch_spec bound fetched a h l Hok H0) as (st & n & l1 & -> & Hok1 & Hsame & Hcases); cbn [mbind option_bind].
  destruct Hcases as [[Hst ->]|(-> & Hrange & p & Hn & <- & Hold & Hrest)].
  - exists st, l. split; [by destruct st|by left].
  - destruct (patch_changes f l l1 n p Hok Hok1 Hsame He Hrange Hn (Hf p) Hrest) as [Hok' Hch].
    eexists _, _. split; [done|]. right. split; [done|]. split; [done|]. split; [apply Hsame|]. by exists p.
Qed.

Lemma state_appended l h live x : held_state l h = Some (live, appended x) -> base_count l < h.
Proof.
  unfold held_state. destruct (negb _); [done|]. destruct (Z.leb_spec h (base_count l)); [|done]. by destruct (patch_at l h).
Qed.

(** Retiring: the slot is dead, whatever it held; a refusal changes nothing. *)
Lemma retire_slot_spec bound fetched a h l :
  lineage_ok l -> 0 <= h ->
  exists st l', retire_slot bound fetched a h l = Some (st, l') /\
    (st <> success /\ l' = l \/
     st = success /\ contains_slot l h = true /\ lineage_ok l' /\ exists x, slot_changes l l' h (false, x) /\
       (forall y, x = appended y <-> held_state l h = Some (true, appended y))).
Proof.
  intros Hl H0. pose proof (lineage_patches l Hl) as Hok. unfold retire_slot.
  destruct (contains_slot l h) eqn:Hc; cbn [negb]; [|exists project_configuration_invalid, l; split; [done|by left]].
  pose proof (contains_exists l h Hc) as He. destruct (Z.leb_spec h (base_count l)) as [Hb|Hb].
  - destruct (change_patch_spec bound fetched a h (fun p => Patch (patch_slot p) (patch_value p) false) l Hl H0 He)
      as (st & l1 & -> & [[Hst ->]|(-> & Hok1 & Hlive & p & _ & Hch)]); [done|..]; cbn [mbind option_bind].
    + exists st, l. split; [by destruct st|by left].
    + eexists _, _. split; [done|]. right. do 2 (split; [done|]).
      destruct (changed_ok l l1 h _ (live_count l1 - 1) Hl Hok1 He H0 Hch) as [? ?]; [rewrite Hc, Hlive; cbn; lia|]. split; [done|].
      eexists. split; [done|]. intros y. split; [done|]. intros Hy. apply state_appended in Hy. lia.
  - destruct (Z.leb_spec (count (added_live l)) (Z.of_nat (added_place l h))) as [Hge|Hlt].
    { exists project_artifact_invalid, l. split; [done|by left]. }
    destruct (state_contained l h Hok Hc) as [x Hx]. destruct (added l !! added_place l h) as [y|] eqn:Ey.
    2:{ exfalso. apply lookup_ge_None in Ey. unfold count in Hlt. rewrite (added_flags l Hok) in Hlt. lia. }
    destruct (added_changes l h y false Hok He Hb) as [Hok1 Hch]. rewrite (list_insert_id (added l)) in Hok1, Hch by done.
    eexists _, _. split; [done|]. right. do 2 (split; [done|]).
    destruct (changed_ok l _ h _ (live_count l - 1) Hl Hok1 He H0 Hch) as [? ?]; [rewrite Hc; cbn; lia|]. split; [done|].
    eexists. split; [done|]. rewrite Hx. intros z. unfold held_state in Hx. rewrite He, (proj2 (Z.leb_gt _ _) Hb), Ey in Hx. cbn [negb] in Hx.
    destruct (added_live l !! _); by simplify_eq/=; split; intros; simplify_eq.
Qed.

(** A retired slot of the image has a patch, so that making one finds it. *)
Lemma ensure_retired fetched a h l :
  lineage_ok l -> 0 <= h -> slot_exists l h = true -> h <= base_count l -> contains_slot l h = false ->
  exists n p, ensure_patch true fetched a h l = Some (success, n, l) /\ patches l !! n = Some p /\ patch_slot p = h.
Proof.
  intros Hl H0 He Hb Hc. pose proof (lineage_patches l Hl) as Hok. rewrite contains_state in Hc by done.
  unfold held_state in Hc. rewrite He, (proj2 (Z.leb_le _ _) Hb) in Hc. cbn [negb] in Hc. unfold patch_at in Hc.
  pose proof (slot_exists_range l h He H0).
  destruct (find_patch l h) as [[n p]|] eqn:Ef; [|done]. pose proof Ef as [? ?]%find_patch_spec; [|done].
  exists n, p. split; [|done]. unfold ensure_patch. rewrite Ef, (proj2 (Z.eqb_neq h 0)), (proj2 (Z.ltb_ge _ _)) by lia. done.
Qed.

Lemma revive_patch_spec h l n p v :
  lineage_ok l -> slot_exists l h = true -> 1 <= h <= base_count l -> contains_slot l h = false ->
  patches l !! n = Some p -> patch_slot p = h ->
  lineage_ok (revive_patch n v l) /\ slot_changes l (revive_patch n v l) h (true, patched v).
Proof.
  intros Hl He Hb Hc Hn <-. pose proof (lineage_patches l Hl) as Hok.
  destruct (patch_changes (fun p => Patch (patch_slot p) v true) l l n p Hok Hok) as [Hok1 Hch]; [done..|].
  apply changed_ok with (1 := Hl) (2 := Hok1) (5 := Hch); [done|lia|]. rewrite Hc. cbn. lia.
Qed.

Lemma revive_added_spec h l x :
  lineage_ok l -> slot_exists l h = true -> base_count l < h -> contains_slot l h = false ->
  lineage_ok (revive_added h x l) /\ slot_changes l (revive_added h x l) h (true, appended x).
Proof.
  intros Hl He Hb Hc. pose proof (lineage_patches l Hl) as Hok. pose proof (base_range l Hok).
  destruct (added_changes l h x true Hok He Hb) as [Hok1 Hch].
  apply changed_ok with (1 := Hl) (2 := Hok1) (5 := Hch); [done|lia|]. rewrite Hc. cbn. lia.
Qed.

Lemma added_not_missing h l : patches_ok l -> slot_exists l h = true -> base_count l < h -> added_missing h l = false.
Proof.
  intros Hok He Hb. unfold added_missing, slot_exists, slot_count, count, added_place in *. rewrite (added_flags l Hok), orb_diag.
  unbool. apply Z.leb_gt. lia.
Qed.

(** A retired slot gets its value and is live again; with an image this cannot fail. *)
Lemma revive_slot_spec bound fetched a h v x l :
  lineage_ok l -> 0 <= h -> slot_exists l h = true -> contains_slot l h = false -> (bound = false -> base_count l = 0) ->
  exists l', revive_slot bound fetched a h v x l = Some (success, l') /\ lineage_ok l' /\
    slot_changes l l' h (true, if h <=? base_count l then patched v else appended x).
Proof.
  intros Hl H0 He Hc Hbound. pose proof (slot_exists_range l h He H0). unfold revive_slot. destruct (Z.leb_spec h (base_count l)).
  - destruct bound; [|by rewrite Hbound in *; [lia|]].
    destruct (ensure_retired fetched a h l) as (n & p & -> & Hn & Hp); [done..|]. cbn [mbind option_bind succeeded].
    eexists. split; [done|]. apply revive_patch_spec with (p := p); done || lia.
  - rewrite added_not_missing by (try apply lineage_patches; done). eexists. split; [done|]. by apply revive_added_spec.
Qed.

(** A slot at the end. *)
Lemma append_slot_spec x l :
  lineage_ok l -> slot_count l < maximum_handle ->
  let l' := append_slot x l in let l'' := with_live (live_count l' + 1) l' in
  lineage_ok l'' /\ base_count l'' = base_count l /\ slot_count l'' = slot_count l + 1 /\
  held_state l'' (slot_count l + 1) = Some (true, appended x) /\
  (forall h, h <> slot_count l + 1 -> held_state l'' h = held_state l h).
Proof.
  intros [Hok Hsize Hlive] Hroom. cbv zeta. set (l' := append_slot x l). pose proof Hok as [Hb Hi Hp Hf].
  assert (slot_count l' = slot_count l + 1) as Hc by (unfold slot_count, count; cbn; rewrite length_app; cbn; lia).
  assert (patches_ok l') as Hok' by (split; [done|done|done|cbn; rewrite !length_app; cbn; lia]).
  assert (0 <= count (added l)) as Hcount by (unfold count; lia).
  assert (added_place l (slot_count l + 1) = length (added l)) as Hplace by (unfold added_place, slot_count, count; lia).
  assert (held_state l' (slot_count l + 1) = Some (true, appended x)) as Hnew.
  { unfold held_state, slot_exists. rewrite Hc. change (base_count l') with (base_count l). unfold slot_count in *.
    rewrite (proj2 (Z.eqb_neq _ _)), (proj2 (Z.leb_le _ _)), (proj2 (Z.leb_gt _ _)) by lia. cbn [negb andb].
    change (added_place l' ?h) with (added_place l h). rewrite Hplace. unfold l'. cbn [append_slot with_added added added_live].
    rewrite <- Hf at 1. by rewrite !lookup_app_r, !Nat.sub_diag by lia. }
  assert (forall h, h <> slot_count l + 1 -> held_state l' h = held_state l h) as Hold.
  { intros h Hne. unfold held_state, slot_exists. rewrite Hc. change (base_count l') with (base_count l). change (patch_at l' h) with (patch_at l h).
    replace (h <=? slot_count l + 1) with (h <=? slot_count l) by (destruct (Z.leb_spec h (slot_count l + 1)), (Z.leb_spec h (slot_count l)); done || lia).
    destruct (negb _) eqn:En; [done|]. destruct (Z.leb_spec h (base_count l)); [done|]. change (added_place l' h) with (added_place l h).
    assert (added_place l h < length (added l))%nat by (unfold slot_count, count, added_place in *; unbool; lia).
    unfold l'. cbn [append_slot with_added added added_live]. by rewrite !lookup_app_l by lia. }
  split; [|by repeat split]. split.
  - destruct Hok'. by split.
  - change (slot_count (with_live _ l')) with (slot_count l'). unfold maximum_handle in Hroom. lia.
  - change (slot_count (with_live _ l')) with (slot_count l'). rewrite Hc. unfold slot_count in *.
    replace (Z.to_nat (base_count l + count (added l) + 1)) with (S (Z.to_nat (base_count l + count (added l)))) by lia.
    cbn [number_live]. rewrite Z2Nat.id by lia.
    assert (forall h, contains_slot (with_live (live_count l' + 1) l') h = match held_state l' h with Some (b, _) => b | None => false end) as Hcs.
    { intros h. rewrite contains_state by (destruct Hok'; by split). done. }
    rewrite Hcs, Hnew, (number_live_same _ (contains_slot l)).
    + cbn [live_count with_live append_slot with_added]. unfold u64, l'. cbn [append_slot with_added live_count]. rewrite Hlive.
      pose proof (number_live_range (contains_slot l) (Z.to_nat (base_count l + count (added l)))). rewrite Z.mod_small; lia.
    + intros h Hh. rewrite Hcs, Hold, contains_state by (done || lia). done.
Qed.
End Slots.
Arguments holding : clear implicits.

Section Project.
Context `{GraphBaseline B}.

(** ** The image *)

Record baseline_laws (b : B) : Prop := BaselineLaws {
  law_types : 0 <= baseline_type_count b <= maximum_handle;
  law_objects : 0 <= baseline_object_count b <= maximum_handle;
  law_links : 0 <= baseline_link_count b < 2 ^ 32;
  law_members : 0 <= baseline_member_count b <= u32_max;
  law_values : 0 <= baseline_object_construction_count b <= graph_object_construction_slot_mask;
  law_derived : 0 <= baseline_derived_count b <= maximum_payload;
  law_object_value : forall o v, baseline_object_value b o = Some v -> is_Some (baseline_object b o);
  law_type_words : forall t e, baseline_type b t = Some e -> 0 <= range_count (tv_members e) < 2 ^ 32;
  law_find_type : forall i, 0 <= baseline_find_type b i <= baseline_type_count b;
  law_find_object : forall i, 0 <= baseline_find_object b i <= baseline_object_count b;
  law_find_link : forall t, 0 <= baseline_find_link_target b t <= baseline_link_count b;
  law_link_target : forall t, baseline_find_link_target b t <> 0 ->
    exists r, baseline_link b (baseline_find_link_target b t) = Some r /\ link_target r = t;
  law_find_derived : forall c k n, ref_valid (baseline_find_derived b c k n) = true ->
    0 <= baseline_find_derived b c k n < 2 ^ 32 /\ ref_kind (baseline_find_derived b c k n) = ref_derived /\
    payload (baseline_find_derived b c k n) <= baseline_derived_count b /\
    baseline_derived b (baseline_find_derived b c k n) = Some (DerivedTypeRecord n c k)
}.

(** ** What slots hold *)

Implicit Types d : graph_delta B.

(** The entry of a live type, and whether the delta itself holds it. *)
Definition held_type d (t : type_handle) : option (type_view * bool) :=
  match held_state (type_part d) t with
  | Some (true, stored) => e ← fetched_type d t; Some (e, false)
  | Some (true, patched e) | Some (true, appended e) => Some (e, true)
  | _ => None
  end.

Definition held_object d (o : object_handle) : option (object_entry * option construction_value) :=
  match held_state (object_part d) o with
  | Some (true, stored) => e ← fetched_object d o; Some (e, b ← delta_baseline d; baseline_object_value b o)
  | Some (true, patched (e, v)) => Some (e, Some v)
  | Some (true, appended e) =>
      Some (e,
        if negb (non_default_initializer e) then if construction_slot e =? 0 then Some no_construction else None
        else if (construction_slot e <=? base_object_values d) || (base_object_values d + count (delta_object_values d) <? construction_slot e)
        then None
        else delta_object_values d !! Z.to_nat (construction_slot e - base_object_values d - 1))
  | _ => None
  end.

Definition held_link d (h : link_handle) : option link_record :=
  match held_state (link_part d) h with
  | Some (true, stored) => fetched_link d h
  | Some (true, patched l) | Some (true, appended l) => Some l
  | _ => None
  end.

Lemma slot_value_state {V A} (of_patch : V -> A) fetched (l : lineage V A) h :
  patches_ok l ->
  slot_value of_patch fetched l h =
  match held_state l h with
  | Some (true, stored) => fetched
  | Some (true, patched v) => Some (of_patch v)
  | Some (true, appended x) => Some x
  | _ => None
  end.
Proof.
  intros Hok. etransitivity; [|exact (value_state of_patch id fetched l h Hok)]. unfold slot_value.
  destruct (negb _), (h <=? base_count l); try done. by rewrite option_fmap_id.
Qed.

Lemma delta_type_held d t : patches_ok (type_part d) -> delta_type d t = fst <$> held_type d t.
Proof.
  intros Hok. unfold delta_type, held_type. rewrite slot_value_state by done.
  destruct (held_state _ _) as [[[] []]|]; try done. by destruct (fetched_type d t).
Qed.

Lemma delta_object_held d o : patches_ok (object_part d) -> delta_object d o = fst <$> held_object d o.
Proof.
  intros Hok. unfold delta_object, held_object. rewrite slot_value_state by done.
  destruct (held_state _ _) as [[[] [|[]|]]|]; try done. by destruct (fetched_object d o).
Qed.

Lemma delta_link_held d h : patches_ok (link_part d) -> delta_link d h = held_link d h.
Proof.
  intros Hok. unfold delta_link, held_link. rewrite slot_value_state by done.
  by destruct (held_state _ _) as [[[] []]|].
Qed.

(** The image answers for a stored slot, the delta's own records for the others. *)
Definition held_member {A} d (records : list A) (of_image : option A) (held : option (type_view * bool)) (m : member_index) : option A :=
  '(e, own) ← held;
  if negb (tv_defined e) || negb (member_valid m) || (range_count (tv_members e) <=? m) then None
  else if (own : bool) then local_member d records e m else of_image.

Lemma stored_test {V A} (l : lineage V A) t (e : type_view) (own : bool) (held : option (type_view * bool)) (fetched : option type_view)
    (of_patch of_added : _ -> type_view) :
  patches_ok l ->
  (held = match held_state l t with
    | Some (true, stored) => e ← fetched; Some (e, false)
    | Some (true, patched x) => Some (of_patch x, true)
    | Some (true, appended x) => Some (of_added x, true)
    | _ => None end) ->
  held = Some (e, own) -> (t <=? base_count l) && bool_decide (find_patch l t = None) = negb own.
Proof.
  intros Hok -> Hh. unfold held_state, patch_at in Hh. destruct (negb _); [done|].
  destruct (t <=? base_count l); cbn [andb].
  - destruct (find_patch l t) as [[n p]|]; cbn in Hh.
    + rewrite bool_decide_eq_false_2 by done. destruct (patch_live p); by simplify_eq.
    + rewrite bool_decide_eq_true_2 by done. destruct fetched; by simplify_eq/=.
  - destruct (added_live l !! _) as [[]|]; cbn in Hh; try done; destruct (added l !! _); by simplify_eq/=.
Qed.

Lemma delta_member_held d t m :
  patches_ok (type_part d) ->
  delta_member d t m = held_member d (delta_members d) (b ← delta_baseline d; baseline_member b t m) (held_type d t) m.
Proof.
  intros Hok. unfold delta_member, held_member. rewrite delta_type_held by done.
  destruct (held_type d t) as [[e own]|] eqn:Eh; cbn; [|done]. destruct (_ || _); [done|].
  rewrite (stored_test (type_part d) t e own (held_type d t) (fetched_type d t) id id Hok); [by destruct own|done..].
Qed.

Lemma delta_value_held d t m :
  patches_ok (type_part d) ->
  delta_member_value d t m =
  held_member d (delta_member_values d) (b ← delta_baseline d; baseline_member_value b t m) (held_type d t) m.
Proof.
  intros Hok. unfold delta_member_value, held_member. rewrite delta_type_held by done.
  destruct (held_type d t) as [[e own]|] eqn:Eh; cbn; [|done]. destruct (_ || _); [done|].
  rewrite (stored_test (type_part d) t e own (held_type d t) (fetched_type d t) id id Hok); [by destruct own|done..].
Qed.

Lemma delta_object_value_held d o :
  patches_ok (object_part d) -> 
  (forall b v, delta_baseline d = Some b -> baseline_object_value b o = Some v -> is_Some (baseline_object b o)) ->
  delta_object_value d o = '(_, v) ← held_object d o; v.
Proof.
  intros Hok Hread. unfold delta_object_value, held_object, delta_contains_object. rewrite contains_state by done.
  unfold held_state, patch_at. destruct (negb (slot_exists _ _)); [done|].
  destruct (o <=? base_count (object_part d)).
  - destruct (find_patch (object_part d) o) as [[n p]|]; cbn.
    + destruct (patch_live p); cbn; [|done]. by destruct (patch_value p).
    + unfold fetched_object. destruct (delta_baseline d) as [b|]; cbn; [|done].
      destruct (baseline_object b o) eqn:Eo; cbn; [done|]. destruct (baseline_object_value b o) as [v|] eqn:Ev; [|done].
      destruct (Hread b v eq_refl Ev) as [? Hsome]. by rewrite Eo in Hsome.
  - destruct (added_live (object_part d) !! _) as [[]|] eqn:El; cbn; [| |done]; by destruct (added (object_part d) !! _).
Qed.

(** ** The project that a delta stands for *)

(** A type with its members and their construction; no member is listed before the
    definition. *)
Record type_meaning := TypeMeaning {
  meaning_kind : Z;
  meaning_record_kind : Z;
  meaning_bases : Z;
  meaning_flags : Z;
  meaning_members : list (option (member_view * construction_value))
}.

(** Counts of slots; for a slot [None] is a retired or missing one, [Some None] one that
    the image does not answer for.  An identity and a link target keep their slot. *)
Record project := Project {
  p_types : Z;
  p_type : type_handle -> option (option type_meaning);
  p_type_of : identity_ref -> type_handle;
  p_objects : Z;
  p_object : object_handle -> option (option (type_ref * Z * construction_value));
  p_object_of : identity_ref -> object_handle;
  p_links : Z;
  p_link : link_handle -> option (option link_record);
  p_link_of : object_endpoint -> link_handle;
  p_derived_count : Z;
  p_derived : type_ref -> option derived_type_record
}.

Record project_eq (p q : project) : Prop := ProjectEq {
  eq_types : p_types p = p_types q;
  eq_type : forall t, 0 <= t -> p_type p t = p_type q t;
  eq_type_of : forall i, p_type_of p i = p_type_of q i;
  eq_objects : p_objects p = p_objects q;
  eq_object : forall o, 0 <= o -> p_object p o = p_object q o;
  eq_object_of : forall i, p_object_of p i = p_object_of q i;
  eq_links : p_links p = p_links q;
  eq_link : forall h, 0 <= h -> p_link p h = p_link q h;
  eq_link_of : forall t, endpoint_words t -> p_link_of p t = p_link_of q t;
  eq_derived_count : p_derived_count p = p_derived_count q;
  eq_derived : forall r, 0 <= r < 2 ^ 32 -> p_derived p r = p_derived q r
}.

#[export] Instance project_equivalence : Equivalence project_eq.
Proof.
  split.
  - intros p. by split.
  - intros p q []. split; intros; symmetry; auto.
  - intros p q r Hp Hq. split; intros; (etransitivity; [by apply Hp|by apply Hq]).
Qed.

(** The meaning of an entry, from the answers for its members. *)
Definition meaning_of (member : member_index -> option member_view) (value : member_index -> option construction_value) (e : type_view)
  : type_meaning :=
  TypeMeaning (tv_kind e) (tv_record_kind e) (range_count (tv_bases e)) (tv_flags e)
    (if tv_defined e
     then (fun m => x ← member m; v ← value m; Some (x, v)) <$> seqZ 0 (range_count (tv_members e)) else []).

Definition object_meaning (e : object_entry) (v : construction_value) : type_ref * Z * construction_value :=
  (object_type e, Z.land (state e) graph_object_flag_mask, v).

Definition project_of d : project := {|
  p_types := slot_count (type_part d);
  p_type t :=
    if delta_contains_type d t
    then Some (e ← delta_type d t; Some (meaning_of (delta_member d t) (delta_member_value d t) e)) else None;
  p_type_of := lineage_type d;
  p_objects := slot_count (object_part d);
  p_object o :=
    if delta_contains_object d o
    then Some (e ← delta_object d o; v ← delta_object_value d o; Some (object_meaning e v)) else None;
  p_object_of := lineage_object d;
  p_links := slot_count (link_part d);
  p_link h := if delta_contains_link d h then Some (delta_link d h) else None;
  p_link_of := lineage_link_target d;
  p_derived_count := delta_derived_count d;
  p_derived := derived_of d
|}.

(** The project of the image alone. *)
Definition image_project (b : B) : project := {|
  p_types := baseline_type_count b;
  p_type t :=
    if (1 <=? t) && (t <=? baseline_type_count b)
    then Some (e ← baseline_type b t; Some (meaning_of (baseline_member b t) (baseline_member_value b t) e)) else None;
  p_type_of i := if valid i && bool_decide (kind i = kind_type) then baseline_find_type b i else 0;
  p_objects := baseline_object_count b;
  p_object o :=
    if (1 <=? o) && (o <=? baseline_object_count b)
    then Some (e ← baseline_object b o; v ← baseline_object_value b o; Some (object_meaning e v)) else None;
  p_object_of i := if valid i && bool_decide (kind i = kind_object) then baseline_find_object b i else 0;
  p_links := baseline_link_count b;
  p_link h := if (1 <=? h) && (h <=? baseline_link_count b) then Some (baseline_link b h) else None;
  p_link_of := baseline_find_link_target b;
  p_derived_count := baseline_derived_count b;
  p_derived r :=
    if ref_valid r && bool_decide (ref_kind r = ref_derived) && (payload r <=? baseline_derived_count b)
    then baseline_derived b r else None
|}.

(** ** The operations, and what each means for a project *)

Inductive delta_op :=
| op_declare (i : identity_ref) (k : Z)
| op_define (t : type_handle) (k : Z) (definition : list member_view) (values : list construction_value)
| op_clear (t : type_handle)
| op_retire_type (t : type_handle)
| op_add_object (i : identity_ref) (t : type_ref) (flags : Z) (initial : construction_value)
| op_retire_object (o : object_handle)
| op_add_link (source target : object_endpoint)
| op_retire_link (h : link_handle)
| op_derive (c : type_ref) (k : derived_type_kind) (n : Z).

(** One call: its status, its handle (0 where it has none) and the delta afterwards. *)
Definition run_op (op : delta_op) (a : delta_allocations) d : option (server_status * Z * graph_delta B) :=
  let plain r := '(st, d) ← r; Some (st, 0, d) in
  match op with
  | op_declare i k => delta_declare_record i k a d
  | op_define t k definition values => plain (delta_define_record t k definition values a d)
  | op_clear t => plain (clear_definition t a d)
  | op_retire_type t => plain (retire_type t a d)
  | op_add_object i t flags initial => delta_add_object i t flags initial a d
  | op_retire_object o => plain (retire_object o a d)
  | op_add_link source target => delta_add_link source target a d
  | op_retire_link h => plain (retire_link h a d)
  | op_derive c k n => delta_derive c k n a d
  end.

(** The arguments are words. *)
Definition op_words (op : delta_op) : Prop :=
  match op with
  | op_declare _ _ => True
  | op_define t _ _ _ | op_clear t | op_retire_type t => 0 <= t
  | op_add_object _ _ flags _ => 0 <= flags < 2 ^ 32
  | op_retire_object o => 0 <= o
  | op_add_link source target => endpoint_words source /\ endpoint_words target
  | op_retire_link h => 0 <= h
  | op_derive _ _ _ => True
  end.

Definition with_type (t : type_handle) (x : option (option type_meaning)) (p : project) : project :=
  Project (Z.max (p_types p) t) (fun t' => if t' =? t then x else p_type p t') (p_type_of p) (p_objects p) (p_object p)
    (p_object_of p) (p_links p) (p_link p) (p_link_of p) (p_derived_count p) (p_derived p).
Definition with_type_of (i : identity_ref) (t : type_handle) (p : project) : project :=
  Project (p_types p) (p_type p) (fun j => if j =? i then t else p_type_of p j) (p_objects p) (p_object p)
    (p_object_of p) (p_links p) (p_link p) (p_link_of p) (p_derived_count p) (p_derived p).
Definition with_object (o : object_handle) x (p : project) : project :=
  Project (p_types p) (p_type p) (p_type_of p) (Z.max (p_objects p) o) (fun o' => if o' =? o then x else p_object p o')
    (p_object_of p) (p_links p) (p_link p) (p_link_of p) (p_derived_count p) (p_derived p).
Definition with_object_of (i : identity_ref) (o : object_handle) (p : project) : project :=
  Project (p_types p) (p_type p) (p_type_of p) (p_objects p) (p_object p)
    (fun j => if j =? i then o else p_object_of p j) (p_links p) (p_link p) (p_link_of p) (p_derived_count p) (p_derived p).
Definition with_link (h : link_handle) x (p : project) : project :=
  Project (p_types p) (p_type p) (p_type_of p) (p_objects p) (p_object p) (p_object_of p) (Z.max (p_links p) h)
    (fun h' => if h' =? h then x else p_link p h') (p_link_of p) (p_derived_count p) (p_derived p).
Definition with_link_of (t : object_endpoint) (h : link_handle) (p : project) : project :=
  Project (p_types p) (p_type p) (p_type_of p) (p_objects p) (p_object p) (p_object_of p) (p_links p) (p_link p)
    (fun t' => if decide (t' = t) then h else p_link_of p t') (p_derived_count p) (p_derived p).
Definition with_derived_type (r : type_ref) (x : derived_type_record) (p : project) : project :=
  Project (p_types p) (p_type p) (p_type_of p) (p_objects p) (p_object p) (p_object_of p) (p_links p) (p_link p) (p_link_of p)
    (Z.max (p_derived_count p) (payload r)) (fun r' => if r' =? r then Some x else p_derived p r').

Definition meaning_defined (m : type_meaning) : bool := negb (Z.land (meaning_flags m) graph_type_defined =? 0).

(** The effect of a call that succeeded with the handle [h]. *)
Definition spec_op (op : delta_op) (h : Z) (p : project) : project :=
  match op with
  | op_declare i k =>
      match p_type p h with
      | Some _ => p
      | None => with_type_of i h (with_type h (Some (Some (TypeMeaning record_number k 0 0 []))) p)
      end
  | op_define t k definition values =>
      match p_type p t with
      | Some (Some m) =>
          if meaning_defined m then p
          else with_type t (Some (Some (TypeMeaning (meaning_kind m) k 0
                 (Z.lor (Z.land (meaning_flags m) (0xffff - graph_type_polymorphic)) graph_type_defined)
                 (imap (fun i x => Some (x, construction_at values i)) definition)))) p
      | _ => p
      end
  | op_clear t =>
      match p_type p t with
      | Some (Some m) =>
          if meaning_defined m
          then with_type t (Some (Some (TypeMeaning (meaning_kind m) (meaning_record_kind m) 0 (Z.land (meaning_flags m) unflagged) []))) p
          else p
      | _ => p
      end
  | op_retire_type t => with_type t None p
  | op_add_object i t flags initial =>
      match p_object p h with
      | Some _ => p
      | None => with_object_of i h (with_object h (Some (Some (t, flags, initial))) p)
      end
  | op_retire_object o => with_object o None p
  | op_add_link source target =>
      match p_link p h with
      | Some _ => p
      | None => with_link_of target h (with_link h (Some (Some (LinkRecord source target))) p)
      end
  | op_retire_link l => with_link l None p
  | op_derive c k n => with_derived_type h (DerivedTypeRecord n c k) p
  end.

(** The handle of a call that succeeded: of the identity or the link target if there is
    one, or else the next slot. *)
Definition spec_handle (op : delta_op) (h : Z) (p : project) : Prop :=
  match op with
  | op_declare i _ => h = if p_type_of p i =? 0 then p_types p + 1 else p_type_of p i
  | op_add_object i _ _ _ => h = if p_object_of p i =? 0 then p_objects p + 1 else p_object_of p i
  | op_add_link _ target => h = if p_link_of p target =? 0 then p_links p + 1 else p_link_of p target
  | op_derive c k n =>
      0 <= h < 2 ^ 32 /\ ref_kind h = ref_derived /\ 1 <= payload h <= p_derived_count p + 1 /\
      (p_derived p h = None \/ p_derived p h = Some (DerivedTypeRecord n c k))
  | _ => h = 0
  end.

(** ** The invariant *)

Record identities_ok (b : B) (overlay : sparse_index) (tids oids : list identity_ref) : Prop := IdentitiesOk {
  overlay_map : exists m, sparse_ok m overlay /\ base.size m = (length tids + length oids)%nat /\
    (forall i x, m !! i = Some x <->
      (exists p, tids !! p = Some i /\ x = encode_location location_type (baseline_type_count b + Z.of_nat p + 1)) \/
      (exists p, oids !! p = Some i /\ x = encode_location location_object (baseline_object_count b + Z.of_nat p + 1)));
  overlay_types : forall i, i ∈ tids -> valid i = true /\ kind i = kind_type /\ baseline_find_type b i = 0;
  overlay_objects : forall i, i ∈ oids -> valid i = true /\ kind i = kind_object /\ baseline_find_object b i = 0
}.

(** Members and construction values of the delta's own records are in its own arenas. *)
Definition own_types_ok (l : lineage type_view type_view) (first last : Z) : Prop :=
  forall t e, (held_state l t = Some (true, patched e) \/ held_state l t = Some (true, appended e)) -> tv_defined e = true ->
    first <= range_begin (tv_members e) /\ 0 <= range_count (tv_members e) /\
    range_begin (tv_members e) + range_count (tv_members e) <= last.

Definition own_objects_ok (l : lineage (object_entry * construction_value) object_entry) (first last : Z) : Prop :=
  forall o e, held_state l o = Some (true, appended e) ->
    if negb (non_default_initializer e) then construction_slot e = 0 else first < construction_slot e <= last.

Record delta_links_ok (b : B) (l : lineage link_record link_record) (index : list link_target_index_slot) (n : Z) : Prop := DeltaLinksOk {
  link_map : exists m, keyed_ok vacant_link link_key LinkSlot mix64 m n index /\ base.size m = length (added l) /\
    (forall k h, m !! k = Some h <-> exists live x, held_state l h = Some (live, appended x) /\ link_target_key (link_target x) = k);
  link_own_added : forall h live x, held_state l h = Some (live, appended x) ->
    endpoint_words (link_target x) /\ link_target_key (link_target x) <> 0 /\ baseline_find_link_target b (link_target x) = 0;
  link_own_patched : forall h x, held_state l h = Some (true, patched x) ->
    endpoint_words (link_target x) /\ baseline_find_link_target b (link_target x) = h
}.

Definition delta_derived_limit (b : B) : nat := Z.to_nat (maximum_payload - baseline_derived_count b).
Definition delta_derived_index_of (base : Z) (s : derived_index_slot) : nat := Z.to_nat (payload (slot_type s) - base - 1).

Definition delta_derived_ok (b : B) (ts : list derived_type_record) (index : list derived_index_slot) : Prop :=
  dense_ok vacant_derived derived_occupied hash_derived (delta_slot_of (baseline_derived_count b)) (fun _ => True)
    (delta_derived_index_of (baseline_derived_count b)) (delta_derived_limit b) (key_of <$> ts) index /\
  (forall x, x ∈ ts -> ref_valid (baseline_find_derived b (child x) (derived_kind x) (derived_payload x)) = false).

Record delta_ok (b : B) d : Prop := DeltaOk {
  ok_baseline : delta_baseline d = Some b;
  ok_counts : base_members d = baseline_member_count b /\ base_object_values d = baseline_object_construction_count b /\
    base_derived d = baseline_derived_count b;
  ok_types : lineage_ok (type_part d) /\ base_count (type_part d) = baseline_type_count b /\
    slot_count (type_part d) <= maximum_handle /\ length (delta_type_identities d) = length (added (type_part d));
  ok_objects : lineage_ok (object_part d) /\ base_count (object_part d) = baseline_object_count b /\
    slot_count (object_part d) <= maximum_handle /\ length (delta_object_identities d) = length (added (object_part d));
  ok_links : lineage_ok (link_part d) /\ base_count (link_part d) = baseline_link_count b;
  ok_identities : identities_ok b (identity_overlay d) (delta_type_identities d) (delta_object_identities d);
  ok_members : length (delta_member_values d) = length (delta_members d) /\ delta_member_count d <= u32_max;
  ok_values : base_object_values d + count (delta_object_values d) <= graph_object_construction_slot_mask;
  ok_own_types : own_types_ok (type_part d) (base_members d) (delta_member_count d);
  ok_own_objects : own_objects_ok (object_part d) (base_object_values d) (base_object_values d + count (delta_object_values d));
  ok_link_index : delta_links_ok b (link_part d) (delta_link_index d) (delta_link_count d);
  ok_derived : delta_derived_ok b (delta_derived d) (delta_derived_index d)
}.
End Project.
