(* ===== verification/DeltaTypes.v ===== *)
(** The types of the delta: declaring, defining, clearing and retiring, each as its effect
    on the project the delta stands for. *)

From S2P Require Import Prelude ServerStatus HashIndex DenseIndex SparseIndex StringTable Identity GraphData GraphGrowth GraphTypes GraphRecords GraphLinks ImageBytes CompiledView GraphDelta DeltaProject.

Local Open Scope Z_scope.

Section Types.
Context `{GraphBaseline B} (b : B).
Implicit Types d : graph_delta B.

(** ** Identities *)

Section Identities.
Context (laws : baseline_laws b) (overlay : sparse_index) (tids oids : list identity_ref).
Context (Hok : identities_ok b overlay tids oids).
Context (Hroom : baseline_type_count b + count tids <= maximum_handle) (Horoom : baseline_object_count b + count oids <= maximum_handle).

Definition overlay_location (i : identity_ref) : Z := sparse_find overlay i.

Lemma overlay_type i p :
  tids !! p = Some i ->
  overlay_location i = encode_location location_type (baseline_type_count b + Z.of_nat p + 1) /\
  1 <= baseline_type_count b + Z.of_nat p + 1 <= maximum_handle.
Proof.
  intros Hi. destruct (overlay_map _ _ _ _ Hok) as (m & Hm & _ & Hiff). split.
  - unfold overlay_location. rewrite (sparse_find_spec m) by done.
    assert (m !! i = Some (encode_location location_type (baseline_type_count b + Z.of_nat p + 1))) as -> by (apply Hiff; left; eauto). done.
  - apply lookup_lt_Some in Hi. pose proof (law_types b laws). unfold count in Hroom. lia.
Qed.

Lemma overlay_object i p :
  oids !! p = Some i ->
  overlay_location i = encode_location location_object (baseline_object_count b + Z.of_nat p + 1) /\
  1 <= baseline_object_count b + Z.of_nat p + 1 <= maximum_handle.
Proof.
  intros Hi. destruct (overlay_map _ _ _ _ Hok) as (m & Hm & _ & Hiff). split.
  - unfold overlay_location. rewrite (sparse_find_spec m) by done.
    assert (m !! i = Some (encode_location location_object (baseline_object_count b + Z.of_nat p + 1))) as -> by (apply Hiff; right; eauto). done.
  - apply lookup_lt_Some in Hi. pose proof (law_objects b laws). unfold count in Horoom. lia.
Qed.

Lemma overlay_none i : i ∉ tids -> i ∉ oids -> overlay_location i = 0.
Proof.
  intros Ht Ho. destruct (overlay_map _ _ _ _ Hok) as (m & Hm & _ & Hiff). unfold overlay_location.
  rewrite (sparse_find_spec m) by done. destruct (m !! i) as [x|] eqn:E; [|done]. exfalso.
  apply Hiff in E as [(p & Hp%list_elem_of_lookup_2 & _)|(p & Hp%list_elem_of_lookup_2 & _)]; done.
Qed.
End Identities.

(** The overlay belongs to [d]. *)
Record ids_ok d : Prop := IdsOk {
  ids_laws : baseline_laws b;
  ids_baseline : delta_baseline d = Some b;
  ids_overlay : identities_ok b (identity_overlay d) (delta_type_identities d) (delta_object_identities d);
  ids_types : baseline_type_count b + count (delta_type_identities d) <= maximum_handle;
  ids_objects : baseline_object_count b + count (delta_object_identities d) <= maximum_handle
}.

Lemma delta_ids d : baseline_laws b -> delta_ok b d -> ids_ok d.
Proof.
  intros Hlaws Hok. destruct (ok_types b d Hok) as (_ & Hb & Hs & Hl), (ok_objects b d Hok) as (_ & Hb' & Hs' & Hl').
  unfold slot_count, count in *. split; [done|apply Hok|apply Hok|unfold count; lia..].
Qed.

(** Reading a location back. *)
Definition located (k : location_kind) (x : Z) : Z := if location_is k x then decode_location_slot x else 0.

Lemma located_encode k k' h :
  k <> location_none -> k' <> location_none -> 0 <= h <= maximum_handle ->
  located k' (encode_location k h) = if bool_decide (k = k') then h else 0.
Proof.
  intros Hk Hk' Hh. destruct (Z.eq_dec h 0) as [->|Hne].
  - assert (encode_location k 0 = 0) as -> by (unfold encode_location; by rewrite orb_true_r). unfold located. by destruct k', (bool_decide _).
  - destruct (location_decodes k k' h Hk ltac:(lia)) as (Hd & Hi & _). unfold located. rewrite Hi, Hd. done.
Qed.

Lemma lineage_location_spec d i :
  ids_ok d ->
  (forall p, delta_type_identities d !! p = Some i -> 0 <= baseline_type_count b + Z.of_nat p + 1 <= maximum_handle /\
    lineage_location d i = encode_location location_type (baseline_type_count b + Z.of_nat p + 1)) /\
  (forall p, delta_object_identities d !! p = Some i -> 0 <= baseline_object_count b + Z.of_nat p + 1 <= maximum_handle /\
    lineage_location d i = encode_location location_object (baseline_object_count b + Z.of_nat p + 1)) /\
  (i ∉ delta_type_identities d -> i ∉ delta_object_identities d ->
   lineage_location d i =
     (if negb (valid i) then 0
      else
        match kind i with
        | kind_type => encode_location location_type (baseline_find_type b i)
        | kind_object => encode_location location_object (baseline_find_object b i)
        | _ => 0
        end)).
Proof.
  intros [Hlaws Hb Hov Ht Ho]. unfold lineage_location. rewrite Hb. fold (overlay_location (identity_overlay d) i). split_and!.
  - intros p Hp. destruct (overlay_type Hlaws _ _ _ Hov Ht i p Hp) as [-> Hr].
    destruct (overlay_types _ _ _ _ Hov i) as (Hv & _ & _); [by eapply list_elem_of_lookup_2|].
    destruct (location_decodes location_type location_type _ ltac:(done) Hr) as (_ & _ & Hz).
    rewrite Hv, (proj2 (Z.eqb_neq _ 0)) by done. split; [lia|done].
  - intros p Hp. destruct (overlay_object Hlaws _ _ _ Hov Ho i p Hp) as [-> Hr].
    destruct (overlay_objects _ _ _ _ Hov i) as (Hv & _ & _); [by eapply list_elem_of_lookup_2|].
    destruct (location_decodes location_object location_type _ ltac:(done) Hr) as (_ & _ & Hz).
    rewrite Hv, (proj2 (Z.eqb_neq _ 0)) by done. split; [lia|done].
  - intros Hnin Hnin'. rewrite (overlay_none _ _ _ Hov i Hnin Hnin'). destruct (negb (valid i)); [done|]. cbn [negb Z.eqb].
    assert (forall k, encode_location k 0 = 0) as H0 by (intros k; unfold encode_location; by rewrite orb_true_r).
    destruct (kind i); try done.
    + destruct (Z.eqb_spec (baseline_find_type b i) 0) as [->|]; by rewrite ?H0.
    + destruct (Z.eqb_spec (baseline_find_object b i) 0) as [->|]; by rewrite ?H0.
Qed.

Lemma lineage_type_spec d i :
  ids_ok d ->
  (forall p, delta_type_identities d !! p = Some i -> lineage_type d i = baseline_type_count b + Z.of_nat p + 1) /\
  (i ∉ delta_type_identities d ->
   lineage_type d i = (if valid i && bool_decide (kind i = kind_type) then baseline_find_type b i else 0)).
Proof.
  intros Hids. pose proof (ids_laws d Hids) as Hlaws. change (lineage_type d i) with (located location_type (lineage_location d i)).
  destruct (lineage_location_spec d i Hids) as (Ht & Ho & Hn). split.
  - intros p Hp. destruct (Ht p Hp) as [Hr ->]. by rewrite located_encode.
  - intros Hnt. destruct (decide (i ∈ delta_object_identities d)) as [Hin|Hno].
    + destruct (overlay_objects _ _ _ _ (ids_overlay d Hids) i Hin) as (_ & Hk & _). apply list_elem_of_lookup in Hin as [p Hp].
      destruct (Ho p Hp) as [Hr ->]. by rewrite located_encode, Hk, andb_false_r.
    + rewrite (Hn Hnt Hno). pose proof (law_find_type b Hlaws i). pose proof (law_types b Hlaws).
      pose proof (law_find_object b Hlaws i). pose proof (law_objects b Hlaws).
      destruct (valid i); cbn [negb andb]; [|done]. destruct (kind i); try done; by rewrite located_encode by (done || lia).
Qed.

Lemma lineage_object_spec d i :
  ids_ok d ->
  (forall p, delta_object_identities d !! p = Some i -> lineage_object d i = baseline_object_count b + Z.of_nat p + 1) /\
  (i ∉ delta_object_identities d ->
   lineage_object d i = (if valid i && bool_decide (kind i = kind_object) then baseline_find_object b i else 0)).
Proof.
  intros Hids. pose proof (ids_laws d Hids) as Hlaws. change (lineage_object d i) with (located location_object (lineage_location d i)).
  destruct (lineage_location_spec d i Hids) as (Ht & Ho & Hn). split.
  - intros p Hp. destruct (Ho p Hp) as [Hr ->]. by rewrite located_encode.
  - intros Hno. destruct (decide (i ∈ delta_type_identities d)) as [Hin|Hnt].
    + destruct (overlay_types _ _ _ _ (ids_overlay d Hids) i Hin) as (_ & Hk & _). apply list_elem_of_lookup in Hin as [p Hp].
      destruct (Ht p Hp) as [Hr ->]. by rewrite located_encode, Hk, andb_false_r.
    + rewrite (Hn Hnt Hno). pose proof (law_find_type b Hlaws i). pose proof (law_types b Hlaws).
      pose proof (law_find_object b Hlaws i). pose proof (law_objects b Hlaws).
      destruct (valid i); cbn [negb andb]; [|done]. destruct (kind i); try done; by rewrite located_encode by (done || lia).
Qed.

(** The handle of an identity is a slot. *)
Lemma lineage_type_range d i :
  ids_ok d -> 0 <= lineage_type d i <= baseline_type_count b + count (delta_type_identities d).
Proof.
  intros Hids. destruct (lineage_type_spec d i Hids) as [Ht Hn]. pose proof (law_types b (ids_laws d Hids)). unfold count.
  destruct (decide (i ∈ delta_type_identities d)) as [[p Hp]%list_elem_of_lookup|Hnin].
  - rewrite (Ht p Hp). apply lookup_lt_Some in Hp. lia.
  - rewrite (Hn Hnin). pose proof (law_find_type b (ids_laws d Hids) i). destruct (_ && _); lia.
Qed.

Lemma lineage_object_range d i :
  ids_ok d -> 0 <= lineage_object d i <= baseline_object_count b + count (delta_object_identities d).
Proof.
  intros Hids. destruct (lineage_object_spec d i Hids) as [Ht Hn]. pose proof (law_objects b (ids_laws d Hids)). unfold count.
  destruct (decide (i ∈ delta_object_identities d)) as [[p Hp]%list_elem_of_lookup|Hnin].
  - rewrite (Ht p Hp). apply lookup_lt_Some in Hp. lia.
  - rewrite (Hn Hnin). pose proof (law_find_object b (ids_laws d Hids) i). destruct (_ && _); lia.
Qed.

(** Publishing a new identity. *)
Lemma publish_new d i k h allocated :
  ids_ok d -> valid i = true -> i ∉ delta_type_identities d -> i ∉ delta_object_identities d ->
  k <> location_none -> 1 <= h <= maximum_handle ->
  exists st d', publish_identity_location i k h allocated d = Some (st, d') /\
    (st <> success /\ d' = d \/
     st = success /\ exists overlay, d' = with_locations (delta_locations d) overlay d /\
       forall tids oids,
         (k = location_type /\ h = baseline_type_count b + count (delta_type_identities d) + 1 /\ kind i = kind_type /\
            baseline_find_type b i = 0 /\ tids = delta_type_identities d ++ [i] /\ oids = delta_object_identities d \/
          k = location_object /\ h = baseline_object_count b + count (delta_object_identities d) + 1 /\ kind i = kind_object /\
            baseline_find_object b i = 0 /\ tids = delta_type_identities d /\ oids = delta_object_identities d ++ [i]) ->
         identities_ok b overlay tids oids).
Proof.
  intros [Hlaws Hb Hov Ht Ho] Hv Hnt Hno Hk Hh. unfold publish_identity_location, bound. rewrite Hv, Hb.
  destruct (location_decodes k k h Hk Hh) as (_ & _ & Hz). rewrite (proj2 (Z.eqb_neq _ 0)) by done. cbn [negb orb].
  destruct Hov as [(m & Hm & Hsize & Hiff) Hts Hos]. pose proof (law_types b Hlaws). pose proof (law_objects b Hlaws).
  unfold count, maximum_handle in *.
  assert (m !! i = None) as Hmi.
  { destruct (m !! i) as [x|] eqn:E; [|done]. exfalso.
    apply Hiff in E as [(p & Hp%list_elem_of_lookup_2 & _)|(p & Hp%list_elem_of_lookup_2 & _)]; done. }
  destruct (sparse_insert_spec m (identity_overlay d) i (encode_location k h) allocated) as (st & ov & -> & Hcases); try done.
  { by intros ->. }
  { rewrite Hsize. lia. }
  cbn [mbind option_bind]. destruct Hcases as [(-> & -> & _)|(-> & Hm')].
  { exists io_error, d. split; [by destruct d|by left]. }
  eexists _, _. split; [done|]. right. split; [done|]. exists ov. split; [done|]. intros tids oids Hcases.
  assert (base.size (<[i := encode_location k h]> m) = S (base.size m)) as Hsize' by by apply map_size_insert_None.
  destruct Hcases as [(-> & -> & Hkind & Hf & -> & ->)|(-> & -> & Hkind & Hf & -> & ->)].
  - split; [|intros j [Hj| ->%list_elem_of_singleton]%elem_of_app; [by apply Hts|done]|done].
    eexists. split; [exact Hm'|]. split; [rewrite Hsize', length_app; cbn; lia|]. intros j x.
    rewrite lookup_insert_Some, Hiff. setoid_rewrite lookup_snoc_Some. split.
    + intros [[<- <-]|[Hne [(p & Hp & ->)|(p & Hp & ->)]]]; [left; exists (length (delta_type_identities d))|left; exists p|right; exists p];
        (split; [|done || f_equal; unfold count; lia]); eauto using lookup_lt_Some.
    + intros [(p & [[_ Hp]|[-> ->]] & ->)|(p & Hp & ->)]; [right|by left|right].
      * split; [|by left; exists p]. intros ->. by apply Hnt, (list_elem_of_lookup_2 _ p).
      * split; [|by right; exists p]. intros ->. by apply Hno, (list_elem_of_lookup_2 _ p).
  - split; [|done|intros j [Hj| ->%list_elem_of_singleton]%elem_of_app; [by apply Hos|done]].
    eexists. split; [exact Hm'|]. split; [rewrite Hsize', length_app; cbn; lia|]. intros j x.
    rewrite lookup_insert_Some, Hiff. setoid_rewrite lookup_snoc_Some. split.
    + intros [[<- <-]|[Hne [(p & Hp & ->)|(p & Hp & ->)]]]; [right; exists (length (delta_object_identities d))|left; exists p|right; exists p];
        (split; [|done || f_equal; unfold count; lia]); eauto using lookup_lt_Some.
    + intros [(p & Hp & ->)|(p & [[_ Hp]|[-> ->]] & ->)]; [right|right|by left].
      * split; [|by left; exists p]. intros ->. by apply Hnt, (list_elem_of_lookup_2 _ p).
      * split; [|by right; exists p]. intros ->. by apply Hno, (list_elem_of_lookup_2 _ p).
Qed.

(** ** The meaning of a type in terms of its slot *)

Lemma meaning_ext member value member' value' e :
  (forall m, 0 <= m < range_count (tv_members e) -> member m = member' m /\ value m = value' m) ->
  meaning_of member value e = meaning_of member' value' e.
Proof.
  intros Hext. unfold meaning_of. f_equal. destruct (tv_defined e); [|done].
  apply list_fmap_ext. intros i m Hm%list_elem_of_lookup_2%elem_of_seqZ. destruct (Hext m) as [-> ->]; [lia|done].
Qed.

(** The meaning of an entry of the image and of one of the delta. *)
Definition stored_meaning d (t : type_handle) (e : type_view) : type_meaning :=
  meaning_of (fun m => held_member d (delta_members d) (b ← delta_baseline d; baseline_member b t m) (Some (e, false)) m)
    (fun m => held_member d (delta_member_values d) (b ← delta_baseline d; baseline_member_value b t m) (Some (e, false)) m) e.
Definition own_meaning d (e : type_view) : type_meaning :=
  meaning_of (held_member d (delta_members d) None (Some (e, true))) (held_member d (delta_member_values d) None (Some (e, true))) e.

Lemma p_type_state d t :
  patches_ok (type_part d) ->
  p_type (project_of d) t =
  match held_state (type_part d) t with
  | Some (true, stored) => Some (e ← fetched_type d t; Some (stored_meaning d t e))
  | Some (true, patched e) | Some (true, appended e) => Some (Some (own_meaning d e))
  | _ => None
  end.
Proof.
  intros Hok. unfold project_of, delta_contains_type. cbn [p_type]. rewrite contains_state, delta_type_held by done.
  destruct (held_state (type_part d) t) as [[[] x]|] eqn:Es; [|done..].
  assert (forall e own, held_type d t = Some (e, own) ->
    meaning_of (delta_member d t) (delta_member_value d t) e =
    meaning_of (fun m => held_member d (delta_members d) (b ← delta_baseline d; baseline_member b t m) (Some (e, own)) m)
      (fun m => held_member d (delta_member_values d) (b ← delta_baseline d; baseline_member_value b t m) (Some (e, own)) m) e) as Hmeaning.
  { intros e own He. apply meaning_ext. intros m _. by rewrite delta_member_held, delta_value_held, He. }
  destruct x as [|e|e].
  - destruct (fetched_type d t) as [e|] eqn:Ef; unfold held_type; rewrite Es, Ef; cbn; [|done].
    unfold stored_meaning. rewrite (Hmeaning e false); [done|]. unfold held_type. by rewrite Es, Ef.
  - assert (held_type d t = Some (e, true)) as Eh by (unfold held_type; by rewrite Es). rewrite Eh. cbn. by rewrite (Hmeaning e true Eh).
  - assert (held_type d t = Some (e, true)) as Eh by (unfold held_type; by rewrite Es). rewrite Eh. cbn. by rewrite (Hmeaning e true Eh).
Qed.

(** Members in the arena keep their places when the arena grows. *)
Lemma local_member_prefix {A} d d' (xs ys : list A) e m :
  base_members d' = base_members d -> xs `prefix_of` ys ->
  range_begin (tv_members e) + range_count (tv_members e) <= base_members d + count xs -> m < range_count (tv_members e) ->
  local_member d' ys e m = local_member d xs e m.
Proof.
  intros Hb [zs ->] Hr Hm. unfold local_member, count in *. rewrite Hb. destruct (Z.ltb_spec (range_begin (tv_members e) + m) (base_members d)); [done|].
  apply lookup_app_l. lia.
Qed.

Definition within (e : type_view) (first last : Z) : Prop :=
  first <= range_begin (tv_members e) /\ 0 <= range_count (tv_members e) /\ range_begin (tv_members e) + range_count (tv_members e) <= last.

Lemma own_meaning_prefix d d' e :
  base_members d' = base_members d -> delta_members d `prefix_of` delta_members d' -> delta_member_values d `prefix_of` delta_member_values d' ->
  count (delta_member_values d) = count (delta_members d) ->
  (tv_defined e = true -> within e (base_members d) (delta_member_count d)) -> own_meaning d' e = own_meaning d e.
Proof.
  intros Hb Hm Hv Hl Hr. unfold own_meaning, meaning_of. f_equal. destruct (tv_defined e) eqn:Ed; [|done].
  destruct (Hr eq_refl) as (_ & _ & Hlast). unfold delta_member_count in Hlast.
  apply list_fmap_ext. intros i m Hi%list_elem_of_lookup_2%elem_of_seqZ. unfold held_member. cbn. rewrite Ed.
  rewrite (local_member_prefix d d' (delta_members d)), (local_member_prefix d d' (delta_member_values d)) by (done || lia). done.
Qed.

Lemma type_frame d d' t :
  patches_ok (type_part d) -> patches_ok (type_part d') -> held_state (type_part d') t = held_state (type_part d) t ->
  delta_baseline d' = delta_baseline d -> base_members d' = base_members d ->
  delta_members d `prefix_of` delta_members d' -> delta_member_values d `prefix_of` delta_member_values d' ->
  count (delta_member_values d) = count (delta_members d) -> own_types_ok (type_part d) (base_members d) (delta_member_count d) ->
  p_type (project_of d') t = p_type (project_of d) t.
Proof.
  intros Hok Hok' Hs Hb Hbm Hm Hv Hl Hown. rewrite !p_type_state by done. rewrite Hs.
  destruct (held_state (type_part d) t) as [[[] [|e|e]]|] eqn:Es; [|f_equal..|done|done|done|done]; f_equal.
  - unfold fetched_type. rewrite Hb. destruct (delta_baseline d) as [b'|] eqn:Eb; [|done]. cbn. destruct (baseline_type b' t) as [e|]; [|done]. cbn.
    f_equal. apply meaning_ext. intros m _. unfold held_member. cbn. by rewrite Hb, Eb.
  - apply own_meaning_prefix; try done. intros Hd. apply (Hown t e); [by left|done].
  - apply own_meaning_prefix; try done. intros Hd. apply (Hown t e); [by right|done].
Qed.

(** ** The operations *)

(** What a call does, in terms of the projects. *)
Definition step_ok d (op : delta_op) (st : server_status) (h : Z) d' : Prop :=
  delta_ok b d' /\
  (st = success -> spec_handle op h (project_of d) /\ project_eq (project_of d') (spec_op op h (project_of d))) /\
  (st <> success -> project_eq (project_of d') (project_of d)).

Lemma step_refused d op st h : delta_ok b d -> st <> success -> step_ok d op st h d.
Proof. intros Hok Hst. split; [done|]. split; [done|]. by intros _. Qed.

Lemma step_same d op h :
  delta_ok b d -> spec_handle op h (project_of d) -> spec_op op h (project_of d) = project_of d -> step_ok d op success h d.
Proof. intros Hok Hh Heq. split; [done|]. split; [|done]. intros _. by rewrite Heq. Qed.

(** The delta with other types, and its arena of members grown. *)
Definition with_type_slots l ms vs d : graph_delta B := with_type_part l (delta_type_identities d) (with_member_part ms vs d).

Lemma own_types_changed l l' t c first last last' :
  own_types_ok l first last -> last <= last' -> slot_changes l l' t c ->
  (forall e, (c = (true, patched e) \/ c = (true, appended e)) -> tv_defined e = true -> within e first last') ->
  own_types_ok l' first last'.
Proof.
  intros Hown Hle (_ & _ & Hh & Hrest) Hnew t' e He Hd. destruct (Z.eq_dec t' t) as [->|Hne].
  - rewrite Hh in He. apply Hnew; [|done]. destruct He as [He|He]; simplify_eq; eauto.
  - rewrite Hrest in He by done. destruct (Hown t' e He Hd) as (? & ? & ?). unfold within. lia.
Qed.

Lemma type_slot_changed d l ms vs t c :
  delta_ok b d -> lineage_ok l -> slot_changes (type_part d) l t c -> slot_exists (type_part d) t = true -> 0 <= t ->
  length (added l) = length (added (type_part d)) ->
  delta_members d `prefix_of` ms -> delta_member_values d `prefix_of` vs -> length vs = length ms ->
  base_members d + count ms <= u32_max ->
  (forall e, (c = (true, patched e) \/ c = (true, appended e)) -> tv_defined e = true -> within e (base_members d) (base_members d + count ms)) ->
  let d' := with_type_slots l ms vs d in
  delta_ok b d' /\ project_eq (project_of d') (with_type t (p_type (project_of d') t) (project_of d)).
Proof.
  intros Hok Hl Hch He H0 Hlen Hms Hvs Hlvs Hroom Hnew. cbv zeta. pose proof Hok as [Hb Hc (Ht & Htb & Hts & Htl) Ho Hln Hid (Hml & Hmc) Hv Hown Hoo Hli Hd].
  pose proof Hch as (Hbase & Hcount & Hh & Hrest). pose proof (slot_exists_range _ _ He H0) as Hrange.
  assert (delta_member_count d <= base_members d + count ms) as Hgrow.
  { unfold delta_member_count, count. apply prefix_length in Hms. lia. }
  split.
  - split; try done.
    + cbn [type_part with_type_slots with_type_part]. split; [done|]. split; [by rewrite Hbase|]. split; [by rewrite Hcount|]. by rewrite Hlen.
    + by apply (own_types_changed (type_part d) l t c _ (delta_member_count d)).
  - split; try done; cbn [p_types p_type with_type].
    + unfold project_of. cbn [p_types type_part with_type_slots with_type_part]. rewrite Hcount. lia.
    + intros t' _. destruct (Z.eqb_spec t' t) as [->|Hne]; [done|]. apply type_frame; try done; [apply Ht|apply Hl|by apply Hrest|].
      unfold count. by rewrite Hml.
Qed.

Lemma retire_type_step d t a :
  delta_ok b d -> 0 <= t -> exists st d', retire_type t a d = Some (st, d') /\ step_ok d (op_retire_type t) st 0 d'.
Proof.
  intros Hok H0. pose proof (ok_types b d Hok) as (Ht & _). unfold retire_type.
  destruct (retire_slot_spec (bound d) (fetched_type d t) a t (type_part d) Ht H0) as (st & l & -> & [[Hst ->]|(-> & Hc & Hl & x & Hch & _)]); cbn [mbind option_bind].
  - exists st, d. split; [by destruct d|]. by apply step_refused.
  - eexists _, _. split; [done|]. pose proof (ok_members b d Hok) as [Hml Hmc].
    assert (length (added l) = length (added (type_part d))) as Hlen.
    { destruct Hch as (Hbase & Hcount & _). unfold slot_count, count in Hcount. lia. }
    destruct (type_slot_changed d l (delta_members d) (delta_member_values d) t (false, x)) as [Hok' Heq]; try done.
    { by apply contains_exists. }
    { intros e [He|He]; done. }
    split; [exact Hok'|]. split; [|done]. intros _. split; [done|]. etransitivity; [exact Heq|].
    assert (p_type (project_of (with_type_slots l (delta_members d) (delta_member_values d) d)) t = None) as ->; [|done].
    rewrite p_type_state by (cbn; by apply Hl). cbn [type_part with_type_slots with_type_part]. destruct Hch as (_ & _ & -> & _). done.
Qed.

Lemma p_type_entry d t e :
  delta_type d t = Some e ->
  p_type (project_of d) t = Some (Some (meaning_of (delta_member d t) (delta_member_value d t) e)) /\
  contains_slot (type_part d) t = true.
Proof.
  intros He. assert (contains_slot (type_part d) t = true) as Hc.
  { unfold delta_type, slot_value in He. by destruct (contains_slot (type_part d) t). }
  split; [|done]. unfold project_of, delta_contains_type. cbn [p_type]. by rewrite Hc, He.
Qed.

(** What holds an entry of the delta: a patch or an appended slot. *)
Definition holds_entry (c : bool * holding type_view type_view) (e : type_view) : Prop := c = (true, patched e) \/ c = (true, appended e).

Lemma store_type_spec d t e a :
  delta_ok b d -> 0 <= t -> contains_slot (type_part d) t = true ->
  exists st l, store_type t e a d = Some (st, l) /\
    (st <> success /\ l = type_part d \/
     st = success /\ lineage_ok l /\ length (added l) = length (added (type_part d)) /\
     exists c, holds_entry c e /\ slot_changes (type_part d) l t c).
Proof.
  intros Hok H0 Hc. pose proof (ok_types b d Hok) as (Hl & _). pose proof (lineage_patches _ Hl) as Hp. unfold store_type.
  pose proof (contains_exists _ _ Hc) as He. destruct (Z.leb_spec t (base_count (type_part d))) as [Hle|Hgt].
  - destruct (change_patch_spec (bound d) (fetched_type d t) a t (fun p => Patch (patch_slot p) e (patch_live p)) (type_part d) Hl H0 He)
      as (st & l & -> & [[Hst ->]|(-> & Hok1 & Hlive & p & Hold & Hch)]); [done|..].
    + exists st, (type_part d). split; [done|by left].
    + exists success, l. split; [done|]. right. split; [done|]. cbn [patch_live patch_value] in Hch.
      assert (patch_live p = true) as Hpl.
      { destruct Hold as [Hp1|(_ & _ & ?)]; [|done]. rewrite contains_state in Hc by done. unfold held_state in Hc.
        by rewrite He, (proj2 (Z.leb_le _ _) Hle), Hp1 in Hc. }
      rewrite Hpl in Hch. split; [by apply (replaced_ok (type_part d) l t (patched e))|].
      split; [|exists (true, patched e); by split; [left|]].
      destruct Hch as (Hb & Hcount & _). unfold slot_count, count in Hcount. lia.
  - unfold slot_exists, slot_count in He. destruct (Z.leb_spec (count (added (type_part d))) (Z.of_nat (added_place (type_part d) t))) as [Hge|Hlt].
    { exfalso. unfold added_place, count in *. unbool. lia. }
    fold (slot_count (type_part d)) in He. fold (slot_exists (type_part d) t) in He.
    destruct (state_contained _ t Hp Hc) as [x Hx].
    assert (added_live (type_part d) !! added_place (type_part d) t = Some true) as Hlive.
    { unfold held_state in Hx. rewrite He, (proj2 (Z.leb_gt _ _) Hgt) in Hx. cbn [negb] in Hx.
      destruct (added_live (type_part d) !! _) as [[]|]; [done|by destruct (added (type_part d) !! _)|done]. }
    destruct (added_changes (type_part d) t e true Hp He Hgt) as [Hok1 Hch]. rewrite (list_insert_id (added_live _)) in Hok1, Hch by done.
    eexists _, _. split; [done|]. right. split; [done|]. split; [by apply (replaced_ok (type_part d) _ t (appended e))|].
    split; [cbn; by rewrite length_insert|]. exists (true, appended e). by split; [right|].
Qed.

Lemma p_type_held d t c e :
  patches_ok (type_part d) -> held_state (type_part d) t = Some c -> holds_entry c e ->
  p_type (project_of d) t = Some (Some (own_meaning d e)).
Proof. intros Hok Hs He. rewrite p_type_state, Hs by done. by destruct He as [-> | ->]. Qed.

(** Storing an entry in a live slot, the arena of members grown. *)
Lemma stored_step d t e l ms vs c :
  delta_ok b d -> 0 <= t -> contains_slot (type_part d) t = true -> lineage_ok l -> length (added l) = length (added (type_part d)) ->
  holds_entry c e -> slot_changes (type_part d) l t c ->
  delta_members d `prefix_of` ms -> delta_member_values d `prefix_of` vs -> length vs = length ms -> base_members d + count ms <= u32_max ->
  (tv_defined e = true -> within e (base_members d) (base_members d + count ms)) ->
  let d' := with_type_slots l ms vs d in
  delta_ok b d' /\ project_eq (project_of d') (with_type t (Some (Some (own_meaning d' e))) (project_of d)).
Proof.
  intros Hok H0 Hc Hl Hlen He Hch Hms Hvs Hlvs Hroom Hin. cbv zeta.
  destruct (type_slot_changed d l ms vs t c) as [Hok' Heq]; try done; [by apply contains_exists| |].
  { intros e' He' Hd. assert (e' = e) as ->; [|by apply Hin]. destruct He as [-> | ->], He' as [He'|He']; by simplify_eq. }
  split; [done|]. etransitivity; [exact Heq|].
  rewrite (p_type_held (with_type_slots l ms vs d) t c e); [done|apply Hl|apply Hch|done].
Qed.

Lemma clear_step d t a :
  delta_ok b d -> 0 <= t -> exists st d', clear_definition t a d = Some (st, d') /\ step_ok d (op_clear t) st 0 d'.
Proof.
  intros Hok H0. unfold clear_definition. destruct (delta_type d t) as [e|] eqn:Ee.
  2:{ exists project_configuration_invalid, d. split; [done|]. by apply step_refused. }
  destruct (p_type_entry d t e Ee) as [Hm Hc]. destruct (tv_defined e) eqn:Ed; cbn [negb].
  2:{ exists success, d. split; [done|]. apply step_same; [done|done|]. cbn [spec_op]. rewrite Hm. unfold meaning_defined. cbn [meaning_flags meaning_of].
      change (negb (Z.land (tv_flags e) graph_type_defined =? 0)) with (tv_defined e). by rewrite Ed. }
  set (e' := TypeView _ _ _ _ _). destruct (store_type_spec d t e' a Hok H0 Hc) as (st & l & -> & [[Hst ->]|(-> & Hl & Hlen & c & He & Hch)]); cbn [mbind option_bind].
  - exists st, d. split; [by destruct d|]. by apply step_refused.
  - eexists _, _. split; [done|]. pose proof (ok_members b d Hok) as [Hml Hmc].
    assert (tv_defined e' = false) as Hd'.
    { unfold tv_defined, e'. cbn [tv_flags]. rewrite <- Z.land_assoc. change (Z.land unflagged graph_type_defined) with 0. by rewrite Z.land_0_r. }
    destruct (stored_step d t e' l (delta_members d) (delta_member_values d) c) as [Hok' Heq]; try done.
    { by rewrite Hd'. }
    split; [exact Hok'|]. split; [|done]. intros _. split; [done|]. etransitivity; [exact Heq|].
    cbn [spec_op]. rewrite Hm. unfold meaning_defined. cbn [meaning_flags meaning_of meaning_kind meaning_record_kind].
    change (negb (Z.land (tv_flags e) graph_type_defined =? 0)) with (tv_defined e). rewrite Ed.
    unfold own_meaning, meaning_of. rewrite Hd'. done.
Qed.

(** *** Defining *)

Lemma compatible_loop_total d n r v :
  contains_loop d n r = true -> exists x, compatible_loop (S n) (derived_of d) r v = Some x.
Proof.
  revert r. induction n as [|n IH]; intros r; [done|]. cbn [contains_loop]. intros Hc. remember (S n) as k. cbn [compatible_loop]. subst k.
  destruct (derived_of d r) as [e|] eqn:Ee; [|done]. destruct (ref_kind r); try by eauto.
  destruct (derived_kind e); try by eauto.
  all: case_bool_decide as Hk; [by apply IH|]; cbn [compatible_loop]; destruct (ref_kind (child e)); by eauto.
Qed.

Lemma compatible_total d r v : delta_contains_ref d r = true -> exists x, delta_compatible d r v = Some x.
Proof.
  unfold delta_contains_ref, delta_compatible, construction_compatible. intros Hc. destruct (ref_valid r); [|done]. cbn [negb orb] in *.
  destruct (_ || _); [by eauto|]. case_bool_decide as Hk; [by apply compatible_loop_total|]. cbn [compatible_loop]. destruct (ref_kind r); by eauto.
Qed.

Lemma check_members_total d definition values i ms : exists x, delta_check_members d definition values i ms = Some x.
Proof.
  revert i. induction ms as [|m ms IH]; intros i; cbn [delta_check_members]; [by eauto|].
  destruct (delta_contains_ref d (mv_type m)) eqn:Hc; cbn [negb]; [|by rewrite orb_true_r; eauto]. rewrite orb_false_r.
  destruct (mv_name m =? 0); [by eauto|]. destruct (negb _); [by eauto|].
  destruct (compatible_total d (mv_type m) (construction_at values i) Hc) as [[] ->]; [|by eauto].
  destruct (_ && _); [by eauto|]. destruct (_ && _); [by eauto|]. apply IH.
Qed.

(** The members that a definition appends are those of its entry. *)
Lemma own_meaning_new d definition values xs vs e :
  delta_members d = xs ++ definition -> delta_member_values d = vs ++ imap (fun i _ => construction_at values i) definition ->
  length vs = length xs -> tv_defined e = true -> 0 <= count definition <= u32_max ->
  tv_members e = GraphRange (base_members d + count xs) (count definition) -> 0 <= base_members d ->
  own_meaning d e =
  TypeMeaning (tv_kind e) (tv_record_kind e) (range_count (tv_bases e)) (tv_flags e) (imap (fun i x => Some (x, construction_at values i)) definition).
Proof.
  intros Hm Hv Hl Hd Hc Hr Hb. unfold own_meaning, meaning_of. rewrite Hd, Hr. cbn [range_count]. f_equal.
  apply list_eq. intros i. rewrite list_lookup_fmap, list_lookup_imap. unfold count in *.
  destruct (Nat.lt_ge_cases i (length definition)) as [Hi|Hi].
  - destruct (lookup_lt_is_Some_2 definition i Hi) as [x Hx]. rewrite lookup_seqZ_lt, Hx by lia. cbn [fmap option_fmap option_map]. rewrite Z.add_0_l. f_equal.
    assert (forall A (records : list A) new p, records = p ++ new -> length p = length xs -> length new = length definition ->
      held_member d records None (Some (e, true)) (Z.of_nat i) = new !! i) as Hheld.
    { intros A records new p -> Hlp Hln. unfold held_member. cbn. rewrite Hd, Hr. cbn [range_count negb orb].
      unfold member_valid, no_member. unfold u32_max in *. rewrite (proj2 (Z.eqb_neq _ _)), (proj2 (Z.leb_gt _ _)) by lia. cbn [negb orb].
      unfold local_member. rewrite Hr. cbn [range_begin]. unfold count. rewrite (proj2 (Z.ltb_ge _ _)) by lia.
      rewrite lookup_app_r by lia. f_equal. lia. }
    rewrite (Hheld _ _ _ _ Hm eq_refl eq_refl), (Hheld _ _ _ _ Hv Hl) by by rewrite length_imap.
    rewrite list_lookup_imap, Hx. done.
  - by rewrite lookup_seqZ_ge, (lookup_ge_None_2 definition) by lia.
Qed.

(** The construction values that a definition appends. *)
Lemma appended_values values (definition : list member_view) (vs : list construction_value) :
  (values = [] \/ count values = count definition) ->
  (if bool_decide (values = []) then resize (length vs + length definition) no_construction vs else vs ++ values) =
  vs ++ imap (fun i _ => construction_at values i) definition.
Proof.
  intros Hv. destruct Hv as [->|Hc].
  - rewrite bool_decide_eq_true_2 by done. rewrite resize_ge by lia. f_equal. replace (_ - _)%nat with (length definition) by lia.
    apply list_eq. intros i. rewrite list_lookup_imap. destruct (Nat.lt_ge_cases i (length definition)) as [Hi|Hi].
    + rewrite lookup_replicate_2 by done. by destruct (lookup_lt_is_Some_2 definition i Hi) as [x ->].
    + by rewrite (lookup_ge_None_2 definition), lookup_ge_None_2 by (rewrite ?length_replicate; done).
  - assert (vs ++ values = vs ++ imap (fun i _ => construction_at values i) definition) as Heq.
    { f_equal. unfold count in Hc. apply list_eq. intros i. rewrite list_lookup_imap.
      destruct (Nat.lt_ge_cases i (length definition)) as [Hi|Hi].
      - destruct (lookup_lt_is_Some_2 definition i Hi) as [x ->]. destruct (lookup_lt_is_Some_2 values i) as [v Hv]; [lia|].
        cbn. unfold construction_at. by destruct values; rewrite Hv.
      - by rewrite (lookup_ge_None_2 definition), lookup_ge_None_2 by lia. }
    case_bool_decide as Hn; [|done]. rewrite <- Heq, Hn. subst values. cbn in Hc. unfold count in Hc. rewrite app_nil_r.
    replace (length definition) with O by (cbn in Hc; lia). rewrite Nat.add_0_r. apply resize_all.
Qed.

Lemma defined_lor x : negb (Z.land (Z.lor x graph_type_defined) graph_type_defined =? 0) = true.
Proof.
  apply negb_true_iff, Z.eqb_neq. intros Hz. apply (f_equal (fun z => Z.testbit z 0)) in Hz.
  rewrite Z.land_spec, Z.lor_spec in Hz. change (Z.testbit graph_type_defined 0) with true in Hz. by rewrite orb_true_r in Hz.
Qed.

Lemma define_step d t k definition values a :
  delta_ok b d -> baseline_laws b -> 0 <= t ->
  exists st d', delta_define_record t k definition values a d = Some (st, d') /\ step_ok d (op_define t k definition values) st 0 d'.
Proof.
  intros Hok Hlaws H0. pose proof (ok_members b d Hok) as [Hml Hmc]. destruct (ok_counts b d Hok) as (Hbm & _ & _).
  pose proof (law_members b Hlaws). unfold delta_define_record.
  assert (forall st, st <> success -> exists st' d', Some (st, d) = Some (st', d') /\ step_ok d (op_define t k definition values) st' 0 d') as Hrefuse.
  { intros st Hst. exists st, d. split; [done|]. by apply step_refused. }
  destruct (delta_type d t) as [e|] eqn:Ee; [|by apply Hrefuse]. destruct (p_type_entry d t e Ee) as [Hm Hc].
  destruct (negb (tv_kind e =? record_number) || _ || _ || _) eqn:Eg; [by apply Hrefuse|].
  destruct (check_members_total d definition values 0 definition) as [[] ->]; cbn [mbind option_bind negb]; [|by apply Hrefuse].
  assert (meaning_defined (meaning_of (delta_member d t) (delta_member_value d t) e) = tv_defined e) as Hmd by done.
  destruct (tv_defined e) eqn:Ed.
  { destruct (delta_same_definition _ _ _ _ _ _); [|by apply Hrefuse]. eexists _, _. split; [done|].
    apply step_same; [done|done|]. cbn [spec_op]. by rewrite Hm, Hmd. }
  destruct (_ || _) eqn:Ef in |- *; [by apply Hrefuse|].
  assert (with_member_part (delta_members d) (resize (length (delta_members d)) no_construction (delta_member_values d)) d = d) as ->.
  { rewrite <- Hml, resize_all. by destruct d. }
  destruct (appended_allocated a); cbn [negb]; [|by apply Hrefuse].
  set (e' := TypeView _ _ _ _ _). set (vs := if bool_decide _ then _ else _).
  assert (vs = delta_member_values d ++ imap (fun i _ => construction_at values i) definition) as Hvs.
  { unfold vs. rewrite length_app, <- Hml. apply appended_values. unbool.
    match goal with Hv : _ \/ _ |- _ => destruct Hv as [Hv%negb_false_iff%bool_decide_eq_true|Hv%negb_false_iff%Z.eqb_eq]; [by left|by right] end. }
  clearbody vs. destruct (store_type_spec d t e' a Hok H0 Hc) as (st & l & -> & [[Hst ->]|(-> & Hl & Hlen & c & He & Hch)]); cbn [mbind option_bind].
  { exists st. assert (succeeded st = false) as -> by by destruct st. exists d. split; [by destruct d|]. by apply step_refused. }
  cbn [succeeded]. eexists _, _. split; [done|]. unbool. unfold delta_member_count in *.
  assert (0 <= count (delta_members d) /\ 0 <= count definition) as [Hn0 Hn1] by (unfold count; lia).
  assert (tv_members e' = GraphRange (base_members d + count (delta_members d)) (count definition)) as Hrange.
  { unfold e', u32, delta_member_count, u32_max in *. cbn [tv_members]. rewrite !Z.mod_small by lia. done. }
  assert (count (delta_members d ++ definition) = count (delta_members d) + count definition) as Hcount by (unfold count; rewrite length_app; lia).
  assert (tv_defined e' = true) as Hd' by apply defined_lor.
  destruct (stored_step d t e' l (delta_members d ++ definition) vs c) as [Hok' Heq]; try done.
  { by apply prefix_app_r. }
  { rewrite Hvs. by apply prefix_app_r. }
  { rewrite Hvs, !length_app, length_imap. lia. }
  { lia. }
  { intros _. unfold within. rewrite Hrange. cbn [range_begin range_count]. lia. }
  split; [exact Hok'|]. split; [|done]. intros _. split; [done|]. etransitivity; [exact Heq|].
  cbn [spec_op]. rewrite Hm, Hmd. rewrite (own_meaning_new _ definition values (delta_members d) (delta_member_values d) e'); try done.
  change (base_members _) with (base_members d). lia.
Qed.

(** *** Declaring *)

(** A new type identity: what changes for identities. *)
Lemma new_type_identity d i overlay :
  ids_ok d -> i ∉ delta_type_identities d ->
  identities_ok b overlay (delta_type_identities d ++ [i]) (delta_object_identities d) ->
  baseline_type_count b + count (delta_type_identities d) + 1 <= maximum_handle ->
  forall d', delta_baseline d' = Some b -> identity_overlay d' = overlay -> delta_type_identities d' = delta_type_identities d ++ [i] ->
  delta_object_identities d' = delta_object_identities d ->
  (forall j, lineage_type d' j = if j =? i then baseline_type_count b + count (delta_type_identities d) + 1 else lineage_type d j) /\
  (forall j, lineage_object d' j = lineage_object d j).
Proof.
  intros Hids Hnin Hov Hroom d' Hb Ho Ht Hobj.
  assert (ids_ok d') as Hids'.
  { split; [apply Hids|done|by rewrite Ho, Ht, Hobj| |rewrite Hobj; apply Hids]. rewrite Ht. unfold count in *. rewrite length_app. cbn. lia. }
  split; intros j.
  - destruct (lineage_type_spec d' j Hids') as [Hin' Hn'], (lineage_type_spec d j Hids) as [Hin Hn]. rewrite Ht in Hin', Hn'.
    destruct (Z.eqb_spec j i) as [->|Hne].
    + rewrite (Hin' (length (delta_type_identities d))); [unfold count; lia|]. by rewrite lookup_app_r, Nat.sub_diag.
    + destruct (decide (j ∈ delta_type_identities d)) as [[p Hp]%list_elem_of_lookup|Hj].
      * rewrite (Hin p Hp), (Hin' p); [done|]. by apply lookup_app_l_Some.
      * rewrite (Hn Hj), Hn'; [done|]. intros [?| ->%list_elem_of_singleton]%elem_of_app; done.
  - destruct (lineage_object_spec d' j Hids') as [Hin' Hn'], (lineage_object_spec d j Hids) as [Hin Hn]. rewrite Hobj in Hin', Hn'.
    destruct (decide (j ∈ delta_object_identities d)) as [[p Hp]%list_elem_of_lookup|Hj].
    + by rewrite (Hin p Hp), (Hin' p Hp).
    + by rewrite (Hn Hj), (Hn' Hj).
Qed.

(** A type that is not contained has no meaning. *)
Lemma p_type_absent d t : contains_slot (type_part d) t = false -> p_type (project_of d) t = None.
Proof. intros Hc. unfold project_of, delta_contains_type. cbn [p_type]. by rewrite Hc. Qed.
Lemma p_type_contained d t : contains_slot (type_part d) t = true -> exists x, p_type (project_of d) t = Some x.
Proof. intros Hc. unfold project_of, delta_contains_type. cbn [p_type]. rewrite Hc. by eexists. Qed.

Lemma own_declared d k : own_meaning d (declared k) = TypeMeaning record_number k 0 0 [].
Proof. done. Qed.

Lemma delta_declare_new d i k a :
  baseline_laws b -> delta_ok b d -> valid i = true -> kind i = kind_type -> lineage_type d i = 0 ->
  slot_count (type_part d) < maximum_handle ->
  exists st h d', (let l := append_slot (declared k) (type_part d) in
      '(published, d) ← publish_identity_location i location_type (u32 (slot_count l)) (index_allocated a) d;
      if negb (succeeded published) then Some (published, 0, d)
      else Some (success, u32 (slot_count l), with_type_part (with_live (live_count l + 1) l) (delta_type_identities d ++ [i]) d))
    = Some (st, h, d') /\ step_ok d (op_declare i k) st h d'.
Proof.
  intros Hlaws Hok Hv Hk Hz Hroom. cbv zeta. pose proof (delta_ids d Hlaws Hok) as Hids. pose proof Hok as [Hb Hc (Ht & Htb & Hts & Htl) Ho Hln Hid (Hml & Hmc) Hvs Hown Hoo Hli Hd].
  destruct (append_slot_spec (declared k) (type_part d) Ht Hroom) as (Hl & Hbase & Hcount & Hnew & Hrest).
  set (l := append_slot (declared k) (type_part d)) in *. set (l' := with_live _ l) in *.
  assert (0 <= slot_count (type_part d)) as Hpos by (unfold slot_count, count; pose proof (law_types b Hlaws); lia).
  assert (u32 (slot_count l) = slot_count (type_part d) + 1) as ->.
  { change (slot_count l) with (slot_count l'). rewrite Hcount. apply Z.mod_small. unfold maximum_handle in *. lia. }
  assert (slot_count (type_part d) = baseline_type_count b + count (delta_type_identities d)) as Hsc by (unfold slot_count, count; lia).
  destruct (lineage_type_spec d i Hids) as [Hin Hn].
  assert (i ∉ delta_type_identities d) as Hnt.
  { intros [p Hp]%list_elem_of_lookup. rewrite (Hin p Hp) in Hz. pose proof (law_types b Hlaws). lia. }
  assert (i ∉ delta_object_identities d) as Hno.
  { intros Hino. destruct (overlay_objects _ _ _ _ Hid i Hino) as (_ & ? & _). congruence. }
  rewrite (Hn Hnt), Hv, Hk in Hz. cbn in Hz.
  destruct (publish_new d i location_type (slot_count (type_part d) + 1) (index_allocated a) Hids Hv Hnt Hno)
    as (st & d1 & -> & [[Hst ->]|(-> & ov & -> & Hov)]); [done|lia|..]; cbn [mbind option_bind].
  { exists st, 0, d. assert (succeeded st = false) as -> by by destruct st. split; [done|]. by apply step_refused. }
  cbn [succeeded negb]. eexists _, _, _. split; [done|].
  specialize (Hov (delta_type_identities d ++ [i]) (delta_object_identities d)).
  assert (identities_ok b ov (delta_type_identities d ++ [i]) (delta_object_identities d)) as Hov'.
  { apply Hov. left. split; [done|]. split; [lia|done]. }
  cbn [with_locations delta_type_identities]. set (d' := with_type_part l' _ _).
  destruct (new_type_identity d i ov Hids Hnt Hov') with (d' := d') as [Htype Hobject]; [lia|done..|].
  assert (delta_ok b d') as Hok'.
  { split; try done.
    - cbn [d' type_part with_type_part delta_type_identities]. split; [done|]. split; [by rewrite Hbase|]. split; [lia|].
      unfold l', l. cbn. rewrite !length_app. cbn. lia.
    - intros t' e He. destruct (Z.eq_dec t' (slot_count (type_part d) + 1)) as [->|Hne].
      + cbn [d' type_part with_type_part] in He. rewrite Hnew in He. destruct He as [He|He]; simplify_eq. done.
      + cbn [d' type_part with_type_part] in He. rewrite Hrest in He by done. by apply (Hown t'). }
  split; [exact Hok'|]. split; [|done]. intros _. cbn [spec_handle spec_op].
  assert (p_type_of (project_of d) i = 0) as Hpz by (cbn [p_type_of project_of]; rewrite (Hn Hnt), Hv, Hk; done).
  rewrite Hpz. split; [done|].
  assert (contains_slot (type_part d) (slot_count (type_part d) + 1) = false) as Hcn.
  { unfold contains_slot, slot_exists. by rewrite (proj2 (Z.leb_gt _ _)), andb_false_r by lia. }
  rewrite (p_type_absent d _ Hcn). split; try done; cbn [p_types p_type p_type_of with_type_of with_type].
  - cbn [project_of p_types]. change (type_part d') with l'. rewrite Hcount. lia.
  - intros t _. destruct (Z.eqb_spec t (slot_count (type_part d) + 1)) as [->|Hne].
    + rewrite (p_type_held d' _ (true, appended (declared k)) (declared k)); [done|apply Hl|done|by right].
    + apply type_frame; try done; [apply Ht|apply Hl|by apply Hrest|unfold count; by rewrite Hml].
  - intros j. cbn [project_of p_type_of]. rewrite Htype. by rewrite Hsc.
Qed.

Lemma changed_length {V A} (l l' : lineage V A) h c : slot_changes l l' h c -> length (added l') = length (added l).
Proof. intros (Hb & Hc & _). unfold slot_count, count in Hc. lia. Qed.

Lemma declare_step d i k a :
  baseline_laws b -> delta_ok b d ->
  exists st h d', delta_declare_record i k a d = Some (st, h, d') /\ step_ok d (op_declare i k) st h d'.
Proof.
  intros Hlaws Hok. pose proof (ok_types b d Hok) as (Ht & Htb & Hts & Htl). pose proof (delta_ids d Hlaws Hok) as Hids.
  assert (forall st, st <> success -> exists st' h d', Some (st, 0, d) = Some (st', h, d') /\ step_ok d (op_declare i k) st' h d') as Hrefuse.
  { intros st Hst. exists st, 0, d. split; [done|]. by apply step_refused. }
  unfold delta_declare_record. destruct (negb (valid i) || _ || _) eqn:Eg; [by apply Hrefuse|]. unbool.
  pose proof (lineage_type_range d i Hids) as Hrange.
  destruct (Z.eqb_spec (lineage_type d i) 0) as [Hz|Hnz]; cbn [negb].
  { destruct (Z.leb_spec maximum_handle (slot_count (type_part d))); [by apply Hrefuse|].
    destruct (appended_allocated a); cbn [negb]; [|by apply Hrefuse]. by apply delta_declare_new. }
  set (h := lineage_type d i) in *. assert (slot_exists (type_part d) h = true) as He.
  { unfold slot_exists, slot_count, count in *. rewrite (proj2 (Z.eqb_neq _ _)), (proj2 (Z.leb_le _ _)) by lia. done. }
  assert (spec_handle (op_declare i k) h (project_of d)) as Hh.
  { cbn [spec_handle project_of p_type_of]. fold h. by rewrite (proj2 (Z.eqb_neq _ _)). }
  destruct (delta_contains_type d h) eqn:Hc; unfold delta_contains_type in Hc.
  - destruct (delta_type d h) as [e|]; [|by apply Hrefuse]. destruct (_ || _); [by apply Hrefuse|].
    exists success, h, d. split; [done|]. apply step_same; [done|done|]. cbn [spec_op]. by destruct (p_type_contained d h Hc) as [x ->].
  - destruct (revive_slot_spec (bound d) (fetched_type d h) a h (declared k) (declared k) (type_part d)) as (l & -> & Hl & Hch); [done|lia|done|done| |].
    { unfold bound. by rewrite (ok_baseline b d Hok). }
    cbn [mbind option_bind succeeded]. eexists _, _, _. split; [done|]. pose proof (ok_members b d Hok) as [Hml Hmc].
    assert (holds_entry (true, if h <=? base_count (type_part d) then patched (declared k) else appended (declared k)) (declared k)) as Hhe.
    { destruct (_ <=? _); [by left|by right]. }
    destruct (type_slot_changed d l (delta_members d) (delta_member_values d) h _ Hok Hl Hch He) as [Hok' Heq]; try done; [lia|by eapply changed_length| |].
    { intros e' [He'|He'] Hd; destruct (_ <=? _) in He'; by simplify_eq. }
    split; [exact Hok'|]. split; [|done]. intros _. split; [done|]. etransitivity; [exact Heq|].
    rewrite (p_type_held (with_type_slots l _ _ d) h _ (declared k) (lineage_patches _ Hl) (proj1 (proj2 (proj2 Hch))) Hhe), own_declared.
    cbn [spec_op]. change (if succeeded success then h else 0) with h. rewrite (p_type_absent d h Hc). split; try done. intros j. cbn [p_type_of with_type with_type_of project_of].
    destruct (Z.eqb_spec j i) as [->|]; done.
Qed.
End Types.
