(* ===== verification/DeltaLinks.v ===== *)
(** The objects of the delta: adding and retiring, each as its effect on the project the
    delta stands for.

    The links and derived types of the delta: adding and retiring a link, and deriving a
    type, each as its effect on the project the delta stands for. *)

From S2P Require Import Prelude ServerStatus HashIndex StringTable Identity DenseIndex SparseIndex GraphData GraphGrowth GraphTypes GraphRecords GraphLinks ImageBytes CompiledView GraphDelta DeltaProject DeltaTypes.

Local Open Scope Z_scope.

Section Objects.
Context `{GraphBaseline B} (b : B).
Implicit Types d : graph_delta B.

(** ** The meaning of an object in terms of its slot *)

(** The construction value of an appended object. *)
Definition appended_value d (e : object_entry) : option construction_value :=
  if negb (non_default_initializer e) then if construction_slot e =? 0 then Some no_construction else None
  else if (construction_slot e <=? base_object_values d) || (base_object_values d + count (delta_object_values d) <? construction_slot e)
  then None
  else delta_object_values d !! Z.to_nat (construction_slot e - base_object_values d - 1).

Lemma p_object_state d o :
  baseline_laws b -> delta_baseline d = Some b -> patches_ok (object_part d) ->
  p_object (project_of d) o =
  match held_state (object_part d) o with
  | Some (true, stored) => Some (e ← baseline_object b o; v ← baseline_object_value b o; Some (object_meaning e v))
  | Some (true, patched (e, v)) => Some (Some (object_meaning e v))
  | Some (true, appended e) => Some (v ← appended_value d e; Some (object_meaning e v))
  | _ => None
  end.
Proof.
  intros Hlaws Hb Hok. unfold project_of, delta_contains_object. cbn [p_object].
  rewrite contains_state, delta_object_held, delta_object_value_held by (try done; intros b' v Hb'; rewrite Hb in Hb'; simplify_eq; by apply law_object_value).
  unfold held_object, fetched_object. rewrite Hb. cbn [mbind option_bind].
  destruct (held_state (object_part d) o) as [[[] [|[e v]|e]]|]; try done.
  by destruct (baseline_object b o).
Qed.

(** Values in the arena keep their places when the arena grows. *)
Lemma appended_value_prefix d d' e :
  base_object_values d' = base_object_values d -> delta_object_values d `prefix_of` delta_object_values d' ->
  (if negb (non_default_initializer e) then construction_slot e = 0
   else base_object_values d < construction_slot e <= base_object_values d + count (delta_object_values d)) ->
  appended_value d' e = appended_value d e.
Proof.
  intros Hb [zs Hz] Hr. unfold appended_value. rewrite Hb, Hz. destruct (negb _); [done|]. unfold count in *. rewrite length_app.
  rewrite (proj2 (Z.leb_gt _ _)), !(proj2 (Z.ltb_ge _ _)) by lia. cbn [orb]. apply lookup_app_l. lia.
Qed.

Lemma object_frame d d' o :
  baseline_laws b -> delta_baseline d = Some b -> delta_baseline d' = Some b ->
  patches_ok (object_part d) -> patches_ok (object_part d') -> held_state (object_part d') o = held_state (object_part d) o ->
  base_object_values d' = base_object_values d -> delta_object_values d `prefix_of` delta_object_values d' ->
  own_objects_ok (object_part d) (base_object_values d) (base_object_values d + count (delta_object_values d)) ->
  p_object (project_of d') o = p_object (project_of d) o.
Proof.
  intros Hlaws Hb Hb' Hok Hok' Hs Hbv Hp Hown. rewrite !p_object_state by done. rewrite Hs.
  destruct (held_state (object_part d) o) as [[[] [|[e v]|e]]|] eqn:Es; try done.
  rewrite (appended_value_prefix d d') by (try done; by apply (Hown o)). done.
Qed.

(** ** The operations *)

Lemma own_objects_changed l l' o c first last last' :
  own_objects_ok l first last -> last <= last' -> slot_changes l l' o c ->
  (forall e, c = (true, appended e) -> if negb (non_default_initializer e) then construction_slot e = 0 else first < construction_slot e <= last') ->
  own_objects_ok l' first last'.
Proof.
  intros Hown Hle (_ & _ & Hh & Hrest) Hnew o' e He. destruct (Z.eq_dec o' o) as [->|Hne].
  - rewrite Hh in He. apply Hnew. by simplify_eq.
  - rewrite Hrest in He by done. specialize (Hown o' e He). destruct (negb _); [done|lia].
Qed.

Definition with_object_slots l values d : graph_delta B := with_object_part l (delta_object_identities d) values d.

Lemma object_slot_changed d l values o c :
  baseline_laws b -> delta_ok b d -> lineage_ok l -> slot_changes (object_part d) l o c -> slot_exists (object_part d) o = true -> 0 <= o ->
  delta_object_values d `prefix_of` values -> base_object_values d + count values <= graph_object_construction_slot_mask ->
  (forall e, c = (true, appended e) ->
    if negb (non_default_initializer e) then construction_slot e = 0 else base_object_values d < construction_slot e <= base_object_values d + count values) ->
  let d' := with_object_slots l values d in
  delta_ok b d' /\ project_eq (project_of d') (with_object o (p_object (project_of d') o) (project_of d)).
Proof.
  intros Hlaws Hok Hl Hch He H0 Hvs Hroom Hnew. cbv zeta. pose proof Hok as [Hb Hc Ht (Ho & Hob & Hos & Hol) Hln Hid Hm Hv Hown Hoo Hli Hd].
  pose proof (changed_length _ _ _ _ Hch) as Hlen. pose proof Hch as (Hbase & Hcount & Hh & Hrest). pose proof (slot_exists_range _ _ He H0) as Hrange.
  split.
  - split; try done.
    + cbn [object_part with_object_slots with_object_part]. split; [done|]. split; [by rewrite Hbase|]. split; [by rewrite Hcount|]. by rewrite Hlen.
    + apply (own_objects_changed (object_part d) l o c _ (base_object_values d + count (delta_object_values d))); try done.
      cbn. unfold count. apply prefix_length in Hvs. lia.
  - split; try done; cbn [p_objects p_object with_object].
    + unfold project_of. cbn [p_objects object_part with_object_slots with_object_part]. rewrite Hcount. lia.
    + intros o' _. destruct (Z.eqb_spec o' o) as [->|Hne]; [done|]. apply object_frame; try done; [apply Ho|apply Hl|by apply Hrest].
Qed.

Lemma retire_object_step d o a :
  baseline_laws b -> delta_ok b d -> 0 <= o ->
  exists st d', retire_object o a d = Some (st, d') /\ step_ok b d (op_retire_object o) st 0 d'.
Proof.
  intros Hlaws Hok H0. pose proof (ok_objects b d Hok) as (Ho & _). unfold retire_object.
  destruct (retire_slot_spec (bound d) (fetched_object_patch d o) a o (object_part d) Ho H0) as (st & l & -> & [[Hst ->]|(-> & Hc & Hl & x & Hch & _)]); cbn [mbind option_bind].
  - exists st, d. split; [by destruct d|]. by apply step_refused.
  - eexists _, _. split; [done|].
    destruct (object_slot_changed d l (delta_object_values d) o (false, x)) as [Hok' Heq]; try done.
    { by apply contains_exists. }
    { apply (ok_values b d Hok). }
    split; [exact Hok'|]. split; [|done]. intros _. split; [done|]. etransitivity; [exact Heq|].
    assert (p_object (project_of (with_object_slots l (delta_object_values d) d)) o = None) as ->; [|done].
    rewrite p_object_state; [|done|apply (ok_baseline b d Hok)|apply Hl].
    cbn [object_part with_object_slots with_object_part]. destruct Hch as (_ & _ & -> & _). done.
Qed.

(** The new value and its slot. *)
Lemma new_object_value_spec d flags initial a values s :
  0 <= base_object_values d -> base_object_values d + count (delta_object_values d) <= graph_object_construction_slot_mask ->
  new_object_value flags initial a d = Some (values, s) ->
  delta_object_values d `prefix_of` values /\ base_object_values d + count values <= graph_object_construction_slot_mask /\
  0 <= s <= graph_object_construction_slot_mask /\
  (Z.land flags graph_object_non_default_initializer = 0 /\ s = 0 \/
   Z.land flags graph_object_non_default_initializer <> 0 /\ base_object_values d < s <= base_object_values d + count values /\
   values !! Z.to_nat (s - base_object_values d - 1) = Some initial).
Proof.
  intros H0 Hroom. unfold new_object_value. destruct (Z.eqb_spec (Z.land flags graph_object_non_default_initializer) 0) as [Hf|Hf].
  { intros [= <- <-]. split; [done|]. split; [done|]. split; [done|]. by left. }
  destruct (Z.leb_spec graph_object_construction_slot_mask (base_object_values d + count (delta_object_values d))); [done|].
  destruct (negb _); [done|]. intros [= <- <-]. unfold count in *. rewrite length_app. cbn [length].
  assert (u32 (base_object_values d + Z.of_nat (length (delta_object_values d) + 1)) = base_object_values d + Z.of_nat (length (delta_object_values d)) + 1) as ->.
  { unfold u32. change graph_object_construction_slot_mask with (2 ^ 30 - 1) in *. rewrite Z.mod_small; lia. }
  split; [by apply prefix_app_r|]. split; [lia|]. split; [lia|]. right. split; [done|]. split; [lia|].
  replace (Z.to_nat _) with (length (delta_object_values d)) by lia. by rewrite lookup_app_r, Nat.sub_diag.
Qed.

Lemma object_accepted_spec d i t flags initial :
  exists x, object_accepted d i t flags initial = Some x /\
    (x = true -> valid i = true /\ kind i = kind_object /\ Z.land flags (Z.lnot graph_object_flag_mask) = 0 /\
      (Z.land flags graph_object_non_default_initializer = 0 -> initial = no_construction)).
Proof.
  unfold object_accepted. destruct (_ || _) eqn:Eg; [by exists false|]. unbool.
  destruct (compatible_total d t initial) as [c ->]; [done|]. cbn [mbind option_bind]. eexists. split; [done|]. intros Ht. unbool.
  do 3 (split; [done|]). intros Hz. match goal with Hv : _ \/ _ |- _ => destruct Hv as [Hflag|Hnone] end.
  - by rewrite Hz in Hflag.
  - by apply negb_false_iff, bool_decide_eq_true in Hnone.
Qed.

(** The new entry of an object means what was asked for. *)
Lemma new_entry_meaning t flags s initial :
  0 <= flags < 2 ^ 32 -> Z.land flags (Z.lnot graph_object_flag_mask) = 0 -> 0 <= s <= graph_object_construction_slot_mask ->
  object_meaning (ObjectEntry t (Z.lor flags s)) initial = (t, flags, initial) /\
  construction_slot (ObjectEntry t (Z.lor flags s)) = s /\
  non_default_initializer (ObjectEntry t (Z.lor flags s)) = negb (Z.land flags graph_object_non_default_initializer =? 0).
Proof.
  intros Hf Hm Hs. destruct (object_state_parts flags s Hf Hm Hs) as (H1 & H2 & H3).
  unfold object_meaning, construction_slot, non_default_initializer. cbn [object_type state]. by rewrite H1, H2, H3.
Qed.

Lemma p_object_absent d o : contains_slot (object_part d) o = false -> p_object (project_of d) o = None.
Proof. intros Hc. unfold project_of, delta_contains_object. cbn [p_object]. by rewrite Hc. Qed.
Lemma p_object_contained d o : contains_slot (object_part d) o = true -> exists x, p_object (project_of d) o = Some x.
Proof. intros Hc. unfold project_of, delta_contains_object. cbn [p_object]. rewrite Hc. by eexists. Qed.

(** An appended object with a new value. *)
Lemma appended_meaning d d' t flags initial a values s :
  0 <= base_object_values d -> base_object_values d + count (delta_object_values d) <= graph_object_construction_slot_mask ->
  0 <= flags < 2 ^ 32 -> Z.land flags (Z.lnot graph_object_flag_mask) = 0 ->
  (Z.land flags graph_object_non_default_initializer = 0 -> initial = no_construction) ->
  new_object_value flags initial a d = Some (values, s) ->
  base_object_values d' = base_object_values d -> delta_object_values d' = values ->
  let e := ObjectEntry t (Z.lor flags s) in
  (if negb (non_default_initializer e) then construction_slot e = 0 else base_object_values d < construction_slot e <= base_object_values d + count values) /\
  (v ← appended_value d' e; Some (object_meaning e v)) = Some (t, flags, initial).
Proof.
  intros H0 Hroom Hf Hm Hz Hnew Hb Hv. cbv zeta. destruct (new_object_value_spec d flags initial a values s H0 Hroom Hnew) as (_ & _ & Hs & Hcases).
  destruct (new_entry_meaning t flags s initial Hf Hm Hs) as (Hmean & Hslot & Hnd). unfold appended_value. rewrite Hnd, Hslot, Hb, Hv.
  destruct Hcases as [[Hflag ->]|(Hflag & Hr & Hlook)].
  - rewrite Hflag. cbn [Z.eqb negb]. split; [done|]. cbn [mbind option_bind]. by rewrite <- (Hz Hflag), Hmean.
  - rewrite (proj2 (Z.eqb_neq _ 0) Hflag). cbn [negb]. split; [done|].
    rewrite (proj2 (Z.leb_gt _ _)), (proj2 (Z.ltb_ge _ _)) by lia. cbn [orb]. rewrite Hlook. cbn [mbind option_bind]. by rewrite Hmean.
Qed.

(** A new object identity: what changes for identities. *)
Lemma new_object_identity d i overlay :
  ids_ok b d -> i ∉ delta_object_identities d ->
  identities_ok b overlay (delta_type_identities d) (delta_object_identities d ++ [i]) ->
  baseline_object_count b + count (delta_object_identities d) + 1 <= maximum_handle ->
  forall d', delta_baseline d' = Some b -> identity_overlay d' = overlay -> delta_type_identities d' = delta_type_identities d ->
  delta_object_identities d' = delta_object_identities d ++ [i] ->
  (forall j, lineage_object d' j = if j =? i then baseline_object_count b + count (delta_object_identities d) + 1 else lineage_object d j) /\
  (forall j, lineage_type d' j = lineage_type d j).
Proof.
  intros Hids Hnin Hov Hroom d' Hb Ho Ht Hobj.
  assert (ids_ok b d') as Hids'.
  { split; [apply Hids|done|by rewrite Ho, Ht, Hobj|rewrite Ht; apply Hids|]. rewrite Hobj. unfold count in *. rewrite length_app. cbn. lia. }
  split; intros j.
  - destruct (lineage_object_spec b d' j Hids') as [Hin' Hn'], (lineage_object_spec b d j Hids) as [Hin Hn]. rewrite Hobj in Hin', Hn'.
    destruct (Z.eqb_spec j i) as [->|Hne].
    + rewrite (Hin' (length (delta_object_identities d))); [unfold count; lia|]. by rewrite lookup_app_r, Nat.sub_diag.
    + destruct (decide (j ∈ delta_object_identities d)) as [[p Hp]%list_elem_of_lookup|Hj].
      * rewrite (Hin p Hp), (Hin' p); [done|]. by apply lookup_app_l_Some.
      * rewrite (Hn Hj), Hn'; [done|]. intros [?| ->%list_elem_of_singleton]%elem_of_app; done.
  - destruct (lineage_type_spec b d' j Hids') as [Hin' Hn'], (lineage_type_spec b d j Hids) as [Hin Hn]. rewrite Ht in Hin', Hn'.
    destruct (decide (j ∈ delta_type_identities d)) as [[p Hp]%list_elem_of_lookup|Hj].
    + by rewrite (Hin p Hp), (Hin' p Hp).
    + by rewrite (Hn Hj), (Hn' Hj).
Qed.

Section Adding.
Context (d : graph_delta B) (i : identity_ref) (t : type_ref) (flags : Z) (initial : construction_value) (a : delta_allocations).
Context (laws : baseline_laws b) (Hok : delta_ok b d) (Hflags : 0 <= flags < 2 ^ 32).
Context (Hvalid : valid i = true) (Hkind : kind i = kind_object) (Hmask : Z.land flags (Z.lnot graph_object_flag_mask) = 0).
Context (Hinitial : Z.land flags graph_object_non_default_initializer = 0 -> initial = no_construction).

#[local] Definition adding : delta_op := op_add_object i t flags initial.

Lemma values_room : 0 <= base_object_values d /\ base_object_values d + count (delta_object_values d) <= graph_object_construction_slot_mask.
Proof. destruct (ok_counts b d Hok) as (_ & -> & _). pose proof (law_values b laws). split; [lia|]. destruct (ok_counts b d Hok) as (_ & <- & _). apply (ok_values b d Hok). Qed.

(** A retired object of the identity is live again. *)
Lemma revive_object_step values s l :
  let h := lineage_object d i in
  h <> 0 -> contains_slot (object_part d) h = false -> slot_exists (object_part d) h = true ->
  new_object_value flags initial a d = Some (values, s) -> lineage_ok l ->
  (exists c, slot_changes (object_part d) l h c /\
    (c = (true, patched (ObjectEntry t (Z.lor flags s), initial)) \/ c = (true, appended (ObjectEntry t (Z.lor flags s))))) ->
  step_ok b d adding success h (with_object_slots l values d).
Proof.
  cbv zeta. intros Hnz Hc He Hnew Hl (c & Hch & Hcases). destruct values_room as [H0 Hroom].
  destruct (new_object_value_spec d flags initial a values s H0 Hroom Hnew) as (Hpre & Hlast & Hs & _).
  destruct (appended_meaning d (with_object_slots l values d) t flags initial a values s) as [Hrange Hmeaning]; try done.
  pose proof (lineage_object_range b d i (delta_ids b d laws Hok)).
  destruct (object_slot_changed d l values (lineage_object d i) c) as [Hok' Heq]; try done; [lia| |].
  { intros e' ->. destruct Hcases as [?|?]; by simplify_eq. }
  split; [done|]. split; [|done]. intros _. split.
  { cbn [adding spec_handle project_of p_object_of]. by rewrite (proj2 (Z.eqb_neq _ _)). }
  etransitivity; [exact Heq|]. cbn [adding spec_op]. rewrite (p_object_absent d _ Hc).
  assert (p_object (project_of (with_object_slots l values d)) (lineage_object d i) = Some (Some (t, flags, initial))) as ->.
  { rewrite p_object_state; [|done|apply (ok_baseline b d Hok)|apply Hl]. cbn [object_part with_object_slots with_object_part].
    rewrite (proj1 (proj2 (proj2 Hch))). destruct Hcases as [-> | ->]; [|by rewrite Hmeaning].
    by destruct (new_entry_meaning t flags s initial Hflags Hmask Hs) as [-> _]. }
  split; try done. intros j. cbn [p_object_of with_object with_object_of project_of]. by destruct (Z.eqb_spec j i) as [->|].
Qed.

(** A new object at the end. *)
Lemma append_object_step values s :
  lineage_object d i = 0 -> slot_count (object_part d) < maximum_handle -> new_object_value flags initial a d = Some (values, s) ->
  exists st h d', (let l := append_slot (ObjectEntry t (Z.lor flags s)) (object_part d) in
      '(published, d) ← publish_identity_location i location_object (u32 (slot_count l)) (index_allocated a) d;
      if negb (succeeded published) then Some (published, 0, d)
      else Some (success, u32 (slot_count l), with_object_part (with_live (live_count l + 1) l) (delta_object_identities d ++ [i]) values d))
    = Some (st, h, d') /\ step_ok b d adding st h d'.
Proof.
  intros Hz Hroom Hnew. cbv zeta. pose proof (delta_ids b d laws Hok) as Hids.
  pose proof Hok as [Hb Hc Ht (Ho & Hob & Hos & Hol) Hln Hid Hm Hvs Hown Hoo Hli Hd]. destruct values_room as [H0 Hvroom].
  destruct (new_object_value_spec d flags initial a values s H0 Hvroom Hnew) as (Hpre & Hlast & Hs & _).
  set (e := ObjectEntry t (Z.lor flags s)). destruct (append_slot_spec e (object_part d) Ho Hroom) as (Hl & Hbase & Hcount & Hslot & Hrest).
  set (l := append_slot e (object_part d)) in *. set (l' := with_live _ l) in *. pose proof (law_objects b laws) as Hlaw.
  assert (slot_count (object_part d) = baseline_object_count b + count (delta_object_identities d)) as Hsc by (unfold slot_count, count; lia).
  assert (0 <= count (delta_object_identities d)) as Hpos by (unfold count; lia).
  assert (u32 (slot_count l) = slot_count (object_part d) + 1) as ->.
  { change (slot_count l) with (slot_count l'). rewrite Hcount. apply Z.mod_small. unfold maximum_handle in *. lia. }
  destruct (lineage_object_spec b d i Hids) as [Hin Hn].
  assert (i ∉ delta_object_identities d) as Hno by (intros [p Hp]%list_elem_of_lookup; rewrite (Hin p Hp) in Hz; lia).
  assert (i ∉ delta_type_identities d) as Hnt.
  { intros Hint. destruct (overlay_types _ _ _ _ Hid i Hint) as (_ & ? & _). congruence. }
  rewrite (Hn Hno), Hvalid, Hkind in Hz. cbn in Hz.
  destruct (publish_new b d i location_object (slot_count (object_part d) + 1) (index_allocated a) Hids Hvalid Hnt Hno)
    as (st & d1 & -> & [[Hst ->]|(-> & ov & -> & Hov)]); [done|lia|..]; cbn [mbind option_bind].
  { exists st, 0, d. assert (succeeded st = false) as -> by by destruct st. split; [done|]. by apply step_refused. }
  cbn [succeeded negb]. eexists _, _, _. split; [done|].
  assert (identities_ok b ov (delta_type_identities d) (delta_object_identities d ++ [i])) as Hov'.
  { apply Hov. right. split; [done|]. split; [lia|done]. }
  cbn [with_locations delta_object_identities]. set (d' := with_object_part l' _ _ _).
  destruct (new_object_identity d i ov Hids Hno Hov') with (d' := d') as [Hobject Htype]; [lia|done..|].
  destruct (appended_meaning d d' t flags initial a values s) as [Hrange Hmeaning]; try done. fold e in Hrange, Hmeaning.
  assert (delta_ok b d') as Hok'.
  { split; try done.
    - cbn [d' object_part with_object_part delta_object_identities]. split; [done|]. split; [by rewrite Hbase|]. split; [lia|].
      unfold l', l. cbn. rewrite !length_app. cbn. lia.
    - intros o' e' He. cbn [d' object_part with_object_part base_object_values delta_object_values with_locations] in *.
      destruct (Z.eq_dec o' (slot_count (object_part d) + 1)) as [->|Hne]; [rewrite Hslot in He; by simplify_eq|].
      rewrite Hrest in He by done. specialize (Hoo o' e' He). destruct (negb _); [done|]. apply prefix_length in Hpre. unfold count in *. lia. }
  split; [exact Hok'|]. split; [|done]. intros _. cbn [adding spec_handle spec_op].
  assert (p_object_of (project_of d) i = 0) as -> by (cbn [p_object_of project_of]; rewrite (Hn Hno), Hvalid, Hkind; done).
  split; [done|]. assert (contains_slot (object_part d) (slot_count (object_part d) + 1) = false) as Hcn.
  { unfold contains_slot, slot_exists. by rewrite (proj2 (Z.leb_gt _ _)), andb_false_r by lia. }
  rewrite (p_object_absent d _ Hcn). split; try done; cbn [p_objects p_object p_object_of with_object_of with_object].
  - cbn [project_of p_objects]. change (object_part d') with l'. rewrite Hcount. lia.
  - intros o _. destruct (Z.eqb_spec o (slot_count (object_part d) + 1)) as [->|Hne].
    + rewrite p_object_state; [|done|done|apply Hl]. change (object_part d') with l'. by rewrite Hslot, Hmeaning.
    + apply object_frame; try done; [apply Ho|apply Hl|by apply Hrest].
  - intros j. cbn [project_of p_object_of]. rewrite Hobject. by rewrite Hsc.
Qed.
End Adding.

Lemma add_object_step d i t flags initial a :
  baseline_laws b -> delta_ok b d -> 0 <= flags < 2 ^ 32 ->
  exists st h d', delta_add_object i t flags initial a d = Some (st, h, d') /\ step_ok b d (op_add_object i t flags initial) st h d'.
Proof.
  intros Hlaws Hok Hf. pose proof (ok_objects b d Hok) as (Ho & Hob & Hos & Hol).
  assert (forall st, st <> success -> exists st' h d', Some (st, 0, d) = Some (st', h, d') /\ step_ok b d (op_add_object i t flags initial) st' h d') as Hrefuse.
  { intros st Hst. exists st, 0, d. split; [done|]. by apply step_refused. }
  unfold delta_add_object. destruct (object_accepted_spec d i t flags initial) as ([] & -> & Hacc); cbn [mbind option_bind negb]; [|by apply Hrefuse].
  destruct (Hacc eq_refl) as (Hv & Hk & Hm & Hi). pose proof (lineage_object_range b d i (delta_ids b d Hlaws Hok)) as Hrange.
  destruct (Z.eqb_spec (lineage_object d i) 0) as [Hz|Hnz]; cbn [negb].
  { destruct (Z.leb_spec maximum_handle (slot_count (object_part d))); [by apply Hrefuse|].
    destruct (new_object_value flags initial a d) as [[values s]|] eqn:Hnew; [|by apply Hrefuse].
    destruct (appended_allocated a) eqn:Ea; cbn [negb]; [|by apply Hrefuse]. by apply (append_object_step d i t flags initial a). }
  assert (slot_exists (object_part d) (lineage_object d i) = true) as He.
  { unfold slot_exists, slot_count, count in *. rewrite (proj2 (Z.eqb_neq _ _)), (proj2 (Z.leb_le _ _)) by lia. done. }
  destruct (delta_contains_object d (lineage_object d i)) eqn:Hc; unfold delta_contains_object in Hc.
  { destruct (delta_object d (lineage_object d i)) as [e|], (delta_object_value d (lineage_object d i)) as [v|]; try by apply Hrefuse. destruct (_ || _); [by apply Hrefuse|].
    eexists _, _, _. split; [done|]. apply step_same; [done|cbn [spec_handle project_of p_object_of]; by rewrite (proj2 (Z.eqb_neq _ _))|].
    cbn [spec_op]. by destruct (p_object_contained d _ Hc) as [x ->]. }
  assert (bound d = true) as Hbd by (unfold bound; by rewrite (ok_baseline b d Hok)).
  destruct (Z.leb_spec (lineage_object d i) (base_count (object_part d))) as [Hle|Hgt].
  - rewrite Hbd. destruct (ensure_retired (fetched_object_patch d (lineage_object d i)) a (lineage_object d i) (object_part d)) as (n & p & -> & Hn & Hp); try done; [lia|].
    cbn [mbind option_bind succeeded negb]. assert (with_object_part (object_part d) (delta_object_identities d) (delta_object_values d) d = d) as -> by by destruct d.
    destruct (new_object_value flags initial a d) as [[values s]|] eqn:Hnew; [|by apply Hrefuse].
    eexists _, _, _. split; [done|]. destruct (revive_patch_spec (lineage_object d i) (object_part d) n p (ObjectEntry t (Z.lor flags s), initial)) as [Hl Hch]; try done; [lia|].
    apply (revive_object_step d i t flags initial a) with (s := s); try done. eexists. split; [exact Hch|by left].
  - rewrite added_not_missing by (done || apply Ho).
    destruct (new_object_value flags initial a d) as [[values s]|] eqn:Hnew; [|by apply Hrefuse].
    eexists _, _, _. split; [done|]. destruct (revive_added_spec (lineage_object d i) (object_part d) (ObjectEntry t (Z.lor flags s))) as [Hl Hch]; try done.
    apply (revive_object_step d i t flags initial a) with (s := s); try done. eexists. split; [exact Hch|by right].
Qed.
End Objects.

Section Links.
Context `{GraphBaseline B} (b : B).
Implicit Types d : graph_delta B.

(** ** Links *)

Lemma p_link_state d h :
  patches_ok (link_part d) ->
  p_link (project_of d) h =
  match held_state (link_part d) h with
  | Some (true, stored) => Some (fetched_link d h)
  | Some (true, patched x) | Some (true, appended x) => Some (Some x)
  | _ => None
  end.
Proof.
  intros Hok. unfold project_of, delta_contains_link. cbn [p_link]. rewrite contains_state, delta_link_held by done. unfold held_link.
  by destruct (held_state (link_part d) h) as [[[] []]|].
Qed.

Lemma p_link_absent d h : contains_slot (link_part d) h = false -> p_link (project_of d) h = None.
Proof. intros Hc. unfold project_of, delta_contains_link. cbn [p_link]. by rewrite Hc. Qed.
Lemma p_link_contained d h : contains_slot (link_part d) h = true -> exists x, p_link (project_of d) h = Some x.
Proof. intros Hc. unfold project_of, delta_contains_link. cbn [p_link]. rewrite Hc. by eexists. Qed.

Lemma link_frame d d' h :
  patches_ok (link_part d) -> patches_ok (link_part d') -> held_state (link_part d') h = held_state (link_part d) h ->
  delta_baseline d' = delta_baseline d -> p_link (project_of d') h = p_link (project_of d) h.
Proof. intros Hok Hok' Hs Hb. rewrite !p_link_state, Hs by done. unfold fetched_link. by rewrite Hb. Qed.

(** The key of a target that has one determines the target. *)
Lemma key_inj t t' :
  endpoint_words t -> endpoint_words t' -> link_target_key t <> 0 -> link_target_key t' = link_target_key t -> t' = t.
Proof.
  intros Hw Hw' Hk Heq. assert (forall x, link_target_key x <> 0 -> endpoint_object x <> 0 /\ endpoint_valid (endpoint_member x) = true) as Hnz.
  { intros x Hx. unfold link_target_key in Hx. destruct (endpoint_object x =? 0) eqn:Eo; [done|]. destruct (endpoint_valid _); [|done].
    apply Z.eqb_neq in Eo. done. }
  destruct (Hnz t Hk), (Hnz t' ltac:(by rewrite Heq)). by apply link_target_key_inj.
Qed.

Section Index.
Context (l : lineage link_record link_record) (index : list link_target_index_slot) (n : Z).
Context (Hok : delta_links_ok b l index n).

(** The handle of a target among the appended links. *)
Lemma local_target_added h live x :
  0 <= h -> held_state l h = Some (live, appended x) ->
  keyed_find vacant_link link_key slot_link mix64 index (link_target_key (link_target x)) = h.
Proof.
  intros H0 Hx. destruct (link_map _ _ _ _ Hok) as (m & Hm & _ & Hiff). destruct (link_own_added _ _ _ _ Hok h live x Hx) as (_ & Hk & _).
  rewrite (keyed_find_spec vacant_link link_key slot_link LinkSlot mix64 (fun _ _ => eq_refl) (fun _ _ => eq_refl) m n) by done.
  assert (m !! link_target_key (link_target x) = Some h) as -> by (apply Hiff; by exists live, x). done.
Qed.

Lemma local_target_none t :
  endpoint_words t -> (forall h live x, held_state l h = Some (live, appended x) -> link_target x <> t) ->
  keyed_find vacant_link link_key slot_link mix64 index (link_target_key t) = 0.
Proof.
  intros Ht Hnone. destruct (link_map _ _ _ _ Hok) as (m & Hm & _ & Hiff). destruct (Z.eq_dec (link_target_key t) 0) as [->|Hk]; [done|].
  rewrite (keyed_find_spec vacant_link link_key slot_link LinkSlot mix64 (fun _ _ => eq_refl) (fun _ _ => eq_refl) m n) by done.
  destruct (m !! link_target_key t) as [h|] eqn:E; [|done]. exfalso. apply Hiff in E as (live & x & Hx & Hkx).
  destruct (link_own_added _ _ _ _ Hok h live x Hx) as (Hw & _ & _). apply (Hnone h live x Hx). by apply key_inj.
Qed.

Lemma local_target_cases t :
  endpoint_words t ->
  let h := keyed_find vacant_link link_key slot_link mix64 index (link_target_key t) in
  h = 0 /\ (forall h' live x, held_state l h' = Some (live, appended x) -> link_target x <> t) \/
  exists live x, held_state l h = Some (live, appended x) /\ link_target x = t.
Proof.
  intros Ht. cbv zeta. destruct (link_map _ _ _ _ Hok) as (m & Hm & _ & Hiff). destruct (Z.eq_dec (link_target_key t) 0) as [Hz|Hk].
  - left. rewrite Hz. split; [done|]. intros h' live x Hx <-. by destruct (link_own_added _ _ _ _ Hok h' live x Hx) as (_ & ? & _).
  - rewrite (keyed_find_spec vacant_link link_key slot_link LinkSlot mix64 (fun _ _ => eq_refl) (fun _ _ => eq_refl) m n) by done.
    destruct (m !! link_target_key t) as [h|] eqn:E; cbn [default].
    + right. apply Hiff in E as (live & x & Hx & Hkx). exists live, x. split; [done|].
      destruct (link_own_added _ _ _ _ Hok h live x Hx) as (Hw & _ & _). by apply key_inj.
    + left. split; [done|]. intros h' live x Hx <-. assert (m !! link_target_key (link_target x) = Some h') as E' by (apply Hiff; by exists live, x).
      by rewrite E in E'.
Qed.
End Index.

(** The handle of a target: an appended link with that target, or the image's. *)
Lemma lineage_target_cases d t :
  baseline_laws b -> delta_ok b d -> endpoint_words t ->
  (exists live x, held_state (link_part d) (lineage_link_target d t) = Some (live, appended x) /\ link_target x = t) \/
  lineage_link_target d t = baseline_find_link_target b t /\
  (forall h' live x, held_state (link_part d) h' = Some (live, appended x) -> link_target x <> t).
Proof.
  intros Hlaws Hok Ht. unfold lineage_link_target, find_local_link_target. rewrite (ok_baseline b d Hok).
  destruct (local_target_cases _ _ _ (ok_link_index b d Hok) t Ht) as [[-> Hnone]|(live & x & Hx & Ht')]; [by right|].
  left. pose proof (state_appended _ _ _ _ Hx) as Hgt. destruct (ok_links b d Hok) as [Hl Hbase]. pose proof (law_links b Hlaws).
  rewrite (proj2 (Z.eqb_neq _ 0)) by lia. by exists live, x.
Qed.

Lemma links_slot_changed d l h c :
  delta_ok b d -> lineage_ok l -> slot_changes (link_part d) l h c -> slot_exists (link_part d) h = true -> 0 <= h ->
  (forall live x, c = (live, appended x) -> exists live' x', held_state (link_part d) h = Some (live', appended x') /\ link_target x = link_target x') ->
  (forall x, c = (true, patched x) -> endpoint_words (link_target x) /\ baseline_find_link_target b (link_target x) = h) ->
  (forall live x, held_state (link_part d) h = Some (live, appended x) -> exists live' x', c = (live', appended x')) ->
  let d' := with_link_part l (delta_link_index d) (delta_link_count d) d in
  delta_ok b d' /\ project_eq (project_of d') (with_link h (p_link (project_of d') h) (project_of d)).
Proof.
  intros Hok Hl Hch He H0 Happ Hpat Hback. cbv zeta. pose proof Hok as [Hb Hc Ht Ho [Hln Hlb] Hid Hm Hv Hown Hoo Hli Hd].
  pose proof (changed_length _ _ _ _ Hch) as Hlen. pose proof Hch as (Hbase & Hcount & Hh & Hrest). pose proof (slot_exists_range _ _ He H0) as Hrange.
  split.
  - split; try done.
    + cbn [link_part with_link_part]. split; [done|]. by rewrite Hbase.
    + cbn [link_part with_link_part delta_link_index delta_link_count]. destruct Hli as [(m & Hmk & Hsize & Hiff) Hadd Hpatch]. split.
      * exists m. split; [done|]. split; [by rewrite Hlen|]. intros k h'. rewrite Hiff. destruct (Z.eq_dec h' h) as [->|Hne]; [|by rewrite Hrest].
        rewrite Hh. split; intros (live & x & Hx & Hk).
        -- destruct (Hback live x Hx) as (live' & x' & ->). destruct (Happ live' x' eq_refl) as (live2 & x2 & Hx2 & Ht2).
           exists live', x'. split; [done|]. rewrite Ht2. by simplify_eq.
        -- injection Hx as ->. destruct (Happ live x eq_refl) as (live2 & x2 & Hx2 & Ht2). exists live2, x2. split; [done|]. by rewrite <- Ht2.
      * intros h' live x Hx. destruct (Z.eq_dec h' h) as [->|Hne]; [|by apply (Hadd h' live); rewrite <- Hrest].
        rewrite Hh in Hx. injection Hx as ->. destruct (Happ live x eq_refl) as (live2 & x2 & Hx2 & ->). by apply (Hadd h live2).
      * intros h' x Hx. destruct (Z.eq_dec h' h) as [->|Hne]; [|by apply Hpatch; rewrite <- Hrest].
        rewrite Hh in Hx. injection Hx as ->. by apply Hpat.
  - split; try done; cbn [p_links p_link with_link].
    + unfold project_of. cbn [p_links link_part with_link_part]. rewrite Hcount. lia.
    + intros h' _. destruct (Z.eqb_spec h' h) as [->|Hne]; [done|]. apply link_frame; try done; [apply Hln|apply Hl|by apply Hrest].
Qed.

Lemma retire_link_step d h a :
  delta_ok b d -> 0 <= h -> exists st d', retire_link h a d = Some (st, d') /\ step_ok b d (op_retire_link h) st 0 d'.
Proof.
  intros Hok H0. pose proof (ok_links b d Hok) as (Hl & _). unfold retire_link.
  destruct (retire_slot_spec (bound d) (fetched_link d h) a h (link_part d) Hl H0) as (st & l & -> & [[Hst ->]|(-> & Hc & Hl' & x & Hch & Hx)]); cbn [mbind option_bind].
  - exists st, d. split; [by destruct d|]. by apply step_refused.
  - eexists _, _. split; [done|].
    destruct (links_slot_changed d l h (false, x)) as [Hok' Heq]; try done.
    { by apply contains_exists. }
    { intros live y [= <- ->]. exists true, y. split; [by apply Hx|done]. }
    { intros live y Hy. assert (live = true) as ->.
      { rewrite contains_state in Hc by apply Hl. rewrite Hy in Hc. done. }
      exists false, y. f_equal. by apply Hx. }
    split; [exact Hok'|]. split; [|done]. intros _. split; [done|]. etransitivity; [exact Heq|].
    assert (p_link (project_of (with_link_part l (delta_link_index d) (delta_link_count d) d)) h = None) as ->; [|done].
    rewrite p_link_state by apply Hl'. cbn [link_part with_link_part]. destruct Hch as (_ & _ & -> & _). done.
Qed.

(** Another table for the same targets. *)
Lemma links_reindexed d index m :
  delta_ok b d ->
  keyed_ok vacant_link link_key LinkSlot mix64 m (delta_link_count d) (delta_link_index d) -> base.size m = length (added (link_part d)) ->
  (forall k h, m !! k = Some h <-> exists live x, held_state (link_part d) h = Some (live, appended x) /\ link_target_key (link_target x) = k) ->
  keyed_ok vacant_link link_key LinkSlot mix64 m (delta_link_count d) index ->
  let d' := with_link_part (link_part d) index (delta_link_count d) d in
  delta_ok b d' /\ project_eq (project_of d') (project_of d).
Proof.
  intros Hok Hmk Hsize Hiff Hm. cbv zeta. assert (delta_links_ok b (link_part d) index (delta_link_count d)) as Hli'.
  { destruct (ok_link_index b d Hok) as [_ Hadd Hpat]. split; [|done|done]. by exists m. }
  pose proof Hok as [Hb Hc Ht Ho Hln Hid Hmm Hv Hown Hoo Hli Hd].
  split; [by split|]. split; try done. intros t Hw. cbn [p_link_of project_of]. unfold lineage_link_target, find_local_link_target.
  cbn [delta_link_index with_link_part delta_baseline].
  assert (keyed_find vacant_link link_key slot_link mix64 index (link_target_key t) =
          keyed_find vacant_link link_key slot_link mix64 (delta_link_index d) (link_target_key t)) as ->; [|done].
  destruct (Z.eq_dec (link_target_key t) 0) as [->|Hk]; [done|].
  by rewrite !(keyed_find_spec vacant_link link_key slot_link LinkSlot mix64 (fun _ _ => eq_refl) (fun _ _ => eq_refl) m (delta_link_count d)) by auto.
Qed.

(** What follows the same project. *)
Lemma step_from d d1 op st h d' :
  project_eq (project_of d1) (project_of d) -> step_ok b d1 op st h d' ->
  (spec_handle op h (project_of d1) -> spec_handle op h (project_of d)) ->
  (project_eq (spec_op op h (project_of d1)) (spec_op op h (project_of d))) -> step_ok b d op st h d'.
Proof.
  intros Heq (Hok & Hs & Hf) Hh Hspec. split; [done|]. split.
  - intros Hst. destruct (Hs Hst) as [? ?]. split; [by apply Hh|]. by etransitivity.
  - intros Hst. etransitivity; [by apply Hf|done].
Qed.

(** A retired link of the target is live again. *)
Lemma revive_link_step d source target l c :
  baseline_laws b -> delta_ok b d -> endpoint_words target ->
  let h := lineage_link_target d target in
  let x := LinkRecord source target in
  h <> 0 -> contains_slot (link_part d) h = false -> slot_exists (link_part d) h = true -> 0 <= h -> lineage_ok l ->
  slot_changes (link_part d) l h c -> c = (true, if h <=? base_count (link_part d) then patched x else appended x) ->
  step_ok b d (op_add_link source target) success h (with_link_part l (delta_link_index d) (delta_link_count d) d).
Proof.
  cbv zeta. intros Hlaws Hok Hw Hnz Hc He H0 Hl Hch ->. destruct (ok_links b d Hok) as [Hln Hlb].
  pose proof (lineage_target_cases d target Hlaws Hok Hw) as Hcases. set (h := lineage_link_target d target) in *.
  assert (delta_ok b (with_link_part l (delta_link_index d) (delta_link_count d) d) /\
    project_eq (project_of (with_link_part l (delta_link_index d) (delta_link_count d) d))
      (with_link h (p_link (project_of (with_link_part l (delta_link_index d) (delta_link_count d) d)) h) (project_of d))) as [Hok' Heq].
  { apply links_slot_changed with (c := (true, if h <=? base_count (link_part d) then patched (LinkRecord source target) else appended (LinkRecord source target))); try done.
    - intros live x Hx. destruct (Z.leb_spec h (base_count (link_part d))); [done|]. injection Hx as <- <-.
      destruct Hcases as [(live & x & Hx & Ht)|[Hh _]]; [by exists live, x|]. exfalso. pose proof (law_find_link b Hlaws target). lia.
    - intros x Hx. destruct (Z.leb_spec h (base_count (link_part d))); [|done]. injection Hx as <-. split; [done|].
      destruct Hcases as [(live & x & Hx & _)|[-> _]]; [apply state_appended in Hx; lia|done].
    - intros live x Hx. apply state_appended in Hx. rewrite (proj2 (Z.leb_gt _ _) Hx). by eauto. }
  split; [done|]. split; [|done]. intros _. split; [cbn [spec_handle project_of p_link_of]; fold h; by rewrite (proj2 (Z.eqb_neq _ _))|].
  etransitivity; [exact Heq|]. cbn [spec_op]. rewrite (p_link_absent d h Hc).
  assert (p_link (project_of (with_link_part l (delta_link_index d) (delta_link_count d) d)) h = Some (Some (LinkRecord source target))) as ->.
  { rewrite p_link_state by apply Hl. cbn [link_part with_link_part]. rewrite (proj1 (proj2 (proj2 Hch))). by destruct (_ <=? _). }
  split; try done. intros t Hwt. cbn [p_link_of with_link with_link_of project_of]. by destruct (decide (t = target)) as [->|].
Qed.

(** A new link at the end. *)
Lemma append_link_step d source target :
  baseline_laws b -> delta_ok b d -> endpoint_words target -> lineage_link_target d target = 0 -> link_target_key target <> 0 ->
  slot_count (link_part d) < maximum_handle -> (2 * S (length (added (link_part d))) <= length (delta_link_index d))%nat ->
  exists st h d', (let l := append_slot (LinkRecord source target) (link_part d) in
      index ← keyed_insert vacant_link link_key LinkSlot mix64 (delta_link_index d) (link_target_key target) (u32 (slot_count l));
      Some (success, u32 (slot_count l), with_link_part (with_live (live_count l + 1) l) index (delta_link_count d + 1) d))
    = Some (st, h, d') /\ step_ok b d (op_add_link source target) st h d'.
Proof.
  intros Hlaws Hok Hw Hz Hk Hroom Hload. cbv zeta. pose proof Hok as [Hb Hc Ht Ho [Hln Hlb] Hid Hm Hvs Hown Hoo Hli Hd].
  destruct (append_slot_spec (LinkRecord source target) (link_part d) Hln Hroom) as (Hl & Hbase & Hcount & Hslot & Hrest).
  set (l := append_slot _ (link_part d)) in *. set (l' := with_live _ l) in *. pose proof (law_links b Hlaws) as Hlaw.
  assert (0 <= slot_count (link_part d)) as Hpos by (unfold slot_count, count; lia).
  assert (u32 (slot_count l) = slot_count (link_part d) + 1) as ->.
  { change (slot_count l) with (slot_count l'). rewrite Hcount. apply Z.mod_small. unfold maximum_handle in *. lia. }
  assert (baseline_find_link_target b target = 0 /\ forall h live x, held_state (link_part d) h = Some (live, appended x) -> link_target x <> target) as [Hbz Hnone].
  { destruct (lineage_target_cases d target Hlaws Hok Hw) as [(live & x & Hx & _)|[Hh Hn]]; [|by rewrite <- Hh]. apply state_appended in Hx. lia. }
  destruct Hli as [(m & Hmk & Hsize & Hiff) Hadd Hpat].
  assert (m !! link_target_key target = None) as Hmz.
  { destruct (m !! _) as [h|] eqn:E; [|done]. exfalso. apply Hiff in E as (live & x & Hx & Hkx). destruct (Hadd h live x Hx) as (Hwx & _ & _).
    apply (Hnone h live x Hx). by apply key_inj. }
  destruct (keyed_insert_spec vacant_link link_key LinkSlot mix64 (fun _ _ => eq_refl) m (delta_link_count d) (delta_link_index d)
    (link_target_key target) (slot_count (link_part d) + 1)) as (index & -> & Hmk'); [done|by rewrite Hsize|done|done|]. cbn [mbind option_bind].
  eexists _, _, _. split; [done|]. set (d' := with_link_part l' index _ d).
  assert (delta_ok b d') as Hok'.
  { split; try done. cbn [d' link_part with_link_part delta_link_index delta_link_count]. split.
    - exists (<[link_target_key target := slot_count (link_part d) + 1]> m). split; [done|]. split.
      { rewrite map_size_insert_None by done. unfold l', l. cbn. rewrite length_app. cbn. lia. }
      intros k h. rewrite lookup_insert_Some, Hiff. destruct (Z.eq_dec h (slot_count (link_part d) + 1)) as [->|Hne].
      + rewrite Hslot. split; [intros [[<- _]|[_ (live & x & Hx & _)]]; [by exists true, (LinkRecord source target)|]|].
        * unfold held_state, slot_exists in Hx. by rewrite (proj2 (Z.leb_gt _ _)), andb_false_r in Hx by lia.
        * intros (live & x & Hx & Hkx). injection Hx as <- <-. by left.
      + rewrite Hrest by done. split; [intros [[_ ?]|[_ ?]]; [lia|done]|]. intros (live & x & Hx & Hkx). right. split; [|by exists live, x].
        intros Heq. destruct (Hadd h live x Hx) as (Hwx & _ & _). apply (Hnone h live x Hx). apply key_inj; try done. by rewrite Hkx.
    - intros h live x Hx. destruct (Z.eq_dec h (slot_count (link_part d) + 1)) as [->|Hne].
      + rewrite Hslot in Hx. injection Hx as <- <-. done.
      + rewrite Hrest in Hx by done. by apply (Hadd h live).
    - intros h x Hx. destruct (Z.eq_dec h (slot_count (link_part d) + 1)) as [->|Hne]; [by rewrite Hslot in Hx|].
      rewrite Hrest in Hx by done. by apply Hpat. }
  split; [exact Hok'|]. split; [|done]. intros _. cbn [spec_handle spec_op].
  assert (p_link_of (project_of d) target = 0) as -> by done. split; [done|].
  assert (contains_slot (link_part d) (slot_count (link_part d) + 1) = false) as Hcn.
  { unfold contains_slot, slot_exists. by rewrite (proj2 (Z.leb_gt _ _)), andb_false_r by lia. }
  rewrite (p_link_absent d _ Hcn). split; try done; cbn [p_links p_link p_link_of with_link_of with_link].
  - cbn [project_of p_links]. change (link_part d') with l'. rewrite Hcount. lia.
  - intros h _. destruct (Z.eqb_spec h (slot_count (link_part d) + 1)) as [->|Hne].
    + rewrite p_link_state by apply Hl. change (link_part d') with l'. by rewrite Hslot.
    + apply link_frame; try done; [apply Hln|apply Hl|by apply Hrest].
  - intros t Hwt. cbn [project_of p_link_of]. unfold lineage_link_target, find_local_link_target. cbn [d' delta_link_index with_link_part delta_baseline].
    destruct (decide (t = target)) as [->|Hne].
    + pose proof (local_target_added l' index (delta_link_count d + 1) (ok_link_index b d' Hok') (slot_count (link_part d) + 1) true (LinkRecord source target)) as Hloc.
      cbn [link_target] in Hloc. rewrite Hloc by (done || lia). by rewrite (proj2 (Z.eqb_neq _ 0)) by lia.
    + destruct (Z.eq_dec (link_target_key t) 0) as [->|Hkt]; [done|].
      rewrite (keyed_find_spec vacant_link link_key slot_link LinkSlot mix64 (fun _ _ => eq_refl) (fun _ _ => eq_refl) _ _ _ _ Hmk') by done.
      rewrite (keyed_find_spec vacant_link link_key slot_link LinkSlot mix64 (fun _ _ => eq_refl) (fun _ _ => eq_refl) _ _ _ _ Hmk) by done.
      rewrite lookup_insert_ne; [done|]. intros Heq. apply Hne. symmetry. by apply key_inj.
Qed.

Lemma add_link_step d source target a :
  baseline_laws b -> delta_ok b d -> endpoint_words target ->
  exists st h d', delta_add_link source target a d = Some (st, h, d') /\ step_ok b d (op_add_link source target) st h d'.
Proof.
  intros Hlaws Hok Hw. pose proof (ok_links b d Hok) as (Hl & Hlb). pose proof (law_links b Hlaws) as Hlaw.
  assert (forall st, st <> success -> exists st' h d', Some (st, 0, d) = Some (st', h, d') /\ step_ok b d (op_add_link source target) st' h d') as Hrefuse.
  { intros st Hst. exists st, 0, d. split; [done|]. by apply step_refused. }
  unfold delta_add_link. destruct (delta_endpoint_type d source) as [ts|], (delta_endpoint_type d target) as [tt|]; try by apply Hrefuse.
  destruct (negb (delta_reference_compatible _ _ _)); [by apply Hrefuse|].
  pose proof (lineage_target_cases d target Hlaws Hok Hw) as Hcases. set (h := lineage_link_target d target) in *.
  destruct (Z.eqb_spec h 0) as [Hz|Hnz]; cbn [negb].
  - destruct (Z.leb_spec maximum_handle (slot_count (link_part d))); [by apply Hrefuse|].
    pose proof (ok_link_index b d Hok) as [(m & Hmk & Hsize & Hiff) _ _].
    assert (Z.of_nat (base.size m) < 2 ^ 61) as Hsmall.
    { rewrite Hsize. pose proof (lineage_size _ Hl) as Hs. unfold slot_count, count in Hs. lia. }
    destruct (keyed_capacity_spec vacant_link link_key LinkSlot mix64 eq_refl (fun _ _ => eq_refl) m (delta_link_count d) (delta_link_index d) (index_allocated a) Hmk Hsmall)
      as (st & index & -> & Hcap); cbn [mbind option_bind].
    destruct Hcap as [(-> & -> & _)|(-> & Hmk' & Hload)].
    { assert (with_link_part (link_part d) (delta_link_index d) (delta_link_count d) d = d) as -> by by destruct d. by apply Hrefuse. }
    destruct (links_reindexed d index m Hok Hmk Hsize Hiff Hmk') as [Hok1 Heq1]. set (d1 := with_link_part _ index _ d) in *.
    change (succeeded success) with true. cbn [negb].
    destruct (appended_allocated a); cbn [negb]; [|eexists _, _, _; by split; [done|split; [done|split]]].
    destruct (Z.eqb_spec (link_target_key target) 0) as [Hkz|Hkz]; [eexists _, _, _; by split; [done|split; [done|split]]|].
    destruct (append_link_step d1 source target Hlaws Hok1 Hw) as (st & h' & d' & Hrun & Hstep); try done.
    { etransitivity; [exact (eq_link_of _ _ Heq1 target Hw)|done]. }
    { cbn. by rewrite <- Hsize. }
    exists st, h', d'. split; [exact Hrun|]. apply (step_from d d1); [done|done| |].
    + cbn [spec_handle]. rewrite (eq_link_of _ _ Heq1 target Hw). done.
    + cbn [spec_op]. change (p_link (project_of d1) h') with (p_link (project_of d) h'). destruct (p_link (project_of d) h'); [done|].
      destruct Heq1. split; try done. cbn [with_link with_link_of p_link_of]. intros t Hwt. destruct (decide (t = target)); [done|auto].
  - pose proof (ok_identities b d Hok) as _. assert (slot_exists (link_part d) h = true /\ 0 <= h) as [He H0].
    { destruct Hcases as [(live & x & Hx & _)|[Hh _]].
      - pose proof (state_appended _ _ _ _ Hx). unfold held_state in Hx. destruct (slot_exists (link_part d) h); [|done]. split; [done|lia].
      - pose proof (law_find_link b Hlaws target). unfold slot_exists, slot_count, count in *.
        rewrite (proj2 (Z.eqb_neq _ _)), (proj2 (Z.leb_le _ _)) by lia. split; [done|lia]. }
    destruct (delta_contains_link d h) eqn:Hc; unfold delta_contains_link in Hc.
    + destruct (delta_link d h) as [x|]; [|by apply Hrefuse]. destruct (_ || _); [by apply Hrefuse|].
      eexists _, _, _. split; [done|]. apply step_same; [done|cbn [spec_handle project_of p_link_of]; fold h; by rewrite (proj2 (Z.eqb_neq _ _))|].
      cbn [spec_op]. by destruct (p_link_contained d h Hc) as [y ->].
    + destruct (revive_slot_spec (bound d) (fetched_link d h) a h (LinkRecord source target) (LinkRecord source target) (link_part d)) as (l & -> & Hl' & Hch); try done.
      { unfold bound. by rewrite (ok_baseline b d Hok). }
      cbn [mbind option_bind]. eexists _, _, _. split; [done|]. change (if succeeded success then h else 0) with h.
      by eapply revive_link_step.
Qed.

(** ** Derived types *)

Lemma delta_slot_parts (base : Z) (limit : nat) i (key : derived_key) :
  0 <= base <= maximum_payload -> limit = Z.to_nat (maximum_payload - base) -> (i < limit)%nat ->
  ref_kind (slot_type (delta_slot_of base i key)) = ref_derived /\ payload (slot_type (delta_slot_of base i key)) = base + Z.of_nat i + 1 /\
  ref_valid (slot_type (delta_slot_of base i key)) = true /\ 0 <= slot_type (delta_slot_of base i key) < 2 ^ 32.
Proof.
  intros Hb -> Hi. unfold delta_slot_of. cbn [slot_type]. change maximum_payload with (2 ^ 30 - 1) in *.
  assert (u32 (base + Z.of_nat i + 1) = base + Z.of_nat i + 1) as -> by (apply Z.mod_small; lia).
  apply make_ref_parts; [done|]. change maximum_payload with (2 ^ 30 - 1). lia.
Qed.

Section Derived.
Context (d : graph_delta B) (laws : baseline_laws b) (Hok : delta_ok b d).

Lemma derived_base : base_derived d = baseline_derived_count b /\ 0 <= baseline_derived_count b <= maximum_payload.
Proof. destruct (ok_counts b d Hok) as (_ & _ & ->). split; [done|apply (law_derived b laws)]. Qed.

Lemma own_slot_busy i (k : derived_key) : (i < delta_derived_limit b)%nat -> True -> derived_occupied (delta_slot_of (baseline_derived_count b) i k) = true.
Proof.
  intros Hi _. by destruct (delta_slot_parts _ (delta_derived_limit b) i k (law_derived b laws) eq_refl Hi) as (_ & _ & Hv & _).
Qed.
Lemma own_slot_index i (k : derived_key) :
  (i < delta_derived_limit b)%nat -> delta_derived_index_of (baseline_derived_count b) (delta_slot_of (baseline_derived_count b) i k) = i.
Proof.
  intros Hi. destruct (delta_slot_parts _ (delta_derived_limit b) i k (law_derived b laws) eq_refl Hi) as (_ & Hp & _).
  unfold delta_derived_index_of. rewrite Hp. lia.
Qed.
Lemma derived_limit_word : Z.of_nat (delta_derived_limit b) <= 2 ^ 32.
Proof. pose proof (law_derived b laws). unfold delta_derived_limit. change maximum_payload with (2 ^ 30 - 1) in *. lia. Qed.

(** A reference to the delta's own derived type at a position. *)
Definition own_derived (i : nat) : type_ref := make_ref ref_derived (u32 (baseline_derived_count b + Z.of_nat i + 1)).

Lemma own_derived_parts i :
  (i < delta_derived_limit b)%nat ->
  ref_kind (own_derived i) = ref_derived /\ payload (own_derived i) = baseline_derived_count b + Z.of_nat i + 1 /\
  ref_valid (own_derived i) = true /\ 0 <= own_derived i < 2 ^ 32.
Proof. intros Hi. exact (delta_slot_parts _ (delta_derived_limit b) i (0, pointer, 0) (law_derived b laws) eq_refl Hi). Qed.

Lemma derived_of_own i x : delta_derived d !! i = Some x -> (i < delta_derived_limit b)%nat -> derived_of d (own_derived i) = Some x.
Proof.
  intros Hx Hi. destruct (own_derived_parts i Hi) as (Hk & Hp & Hv & _). destruct derived_base as [Hb Hr]. apply lookup_lt_Some in Hx as Hlt.
  unfold derived_of, delta_derived_count, count. rewrite Hk, Hp, Hv, Hb. rewrite bool_decide_eq_true_2 by done.
  rewrite (proj2 (Z.eqb_neq _ 0)), (proj2 (Z.ltb_ge _ _)), (proj2 (Z.leb_gt _ _)) by lia. cbn [negb orb].
  replace (Z.to_nat _) with i by lia. done.
Qed.

Lemma derived_few : (length (delta_derived d) <= delta_derived_limit b)%nat.
Proof. destruct (ok_derived b d Hok) as [Hd _]. pose proof (dense_limit _ _ _ _ _ _ _ _ _ Hd) as Hl. by rewrite length_fmap in Hl. Qed.

(** The lookup among the delta's own types. *)
Lemma find_own_derived key :
  (forall i, key_of <$> (delta_derived d !! i) = Some key -> delta_find_derived d key (hash_derived key) (fingerprint (hash_derived key)) = own_derived i) /\
  (key ∉ key_of <$> delta_derived d -> delta_find_derived d key (hash_derived key) (fingerprint (hash_derived key)) = 0).
Proof.
  destruct (ok_derived b d Hok) as [Hd _]. destruct derived_base as [Hb Hr]. pose proof derived_few as Hfew.
  destruct (find_slot_spec vacant_derived derived_occupied hash_derived (delta_slot_of (baseline_derived_count b)) (fun _ => True)
    (delta_derived_index_of (baseline_derived_count b)) (delta_derived_limit b) own_slot_index
    (key_of <$> delta_derived d) (delta_derived_index d) key (delta_derived_matches d key (fingerprint (hash_derived key))) Hd) as [Hin Hout].
  { intros i k' Hk. pose proof Hk as Hk2. rewrite list_lookup_fmap in Hk2. destruct (delta_derived d !! i) as [x|] eqn:Ex; [|done]. apply lookup_lt_Some in Ex as Hlt.
    destruct (delta_slot_parts _ (delta_derived_limit b) i k' (law_derived b laws) eq_refl ltac:(lia)) as (Hkind & Hp & _).
    unfold delta_derived_matches, delta_derived_count, count. rewrite Hkind, Hp, Hb. replace (Z.to_nat _) with i by lia. rewrite Ex.
    rewrite (bool_decide_eq_true_2 (ref_derived = _)), (proj2 (Z.ltb_lt _ _)), (proj2 (Z.leb_le _ _)) by (done || lia).
    unfold delta_slot_of. cbn [derived_fingerprint]. injection Hk2 as <-.
    destruct (decide (key_of x = key)) as [->|Hne]; [by rewrite Z.eqb_refl, !bool_decide_eq_true_2|].
    by rewrite (bool_decide_eq_false_2 (key_of x = key)), andb_false_r by done. }
  unfold delta_find_derived. split.
  - intros i Hi. rewrite (Hin i) by by rewrite list_lookup_fmap. done.
  - intros Hn. by rewrite (Hout Hn).
Qed.

Definition derived_dense_ok keys index : Prop :=
  dense_ok vacant_derived derived_occupied hash_derived (delta_slot_of (baseline_derived_count b)) (fun _ => True)
    (delta_derived_index_of (baseline_derived_count b)) (delta_derived_limit b) keys index.

Lemma derived_capacity allocated :
  exists st index, delta_derived_capacity 1 allocated d = Some (st, index) /\
    (st = io_error /\ index = delta_derived_index d \/
     st = success /\ derived_dense_ok (key_of <$> delta_derived d) index /\ (2 * S (length (delta_derived d)) <= length index)%nat).
Proof.
  destruct (ok_derived b d Hok) as [Hd _]. destruct derived_base as [Hb Hr]. unfold delta_derived_capacity, count. rewrite Hb.
  rewrite <- (length_fmap key_of (delta_derived d)).
  destruct (dense_capacity_spec vacant_derived derived_occupied hash_derived (delta_slot_of (baseline_derived_count b)) (fun _ => True)
    (delta_derived_index_of (baseline_derived_count b)) (delta_derived_limit b) eq_refl own_slot_busy derived_limit_word
    (key_of <$> delta_derived d) (delta_derived_index d) allocated
    (insert_keys vacant_derived derived_occupied hash_derived (delta_slot_of (baseline_derived_count b)) 0 (key_of <$> delta_derived d))
    _ Hd (reflexivity _)) as (st & index & -> & [(-> & -> & _)|(-> & Hd' & Hload)]).
  { intros T. apply (insert_keys_slots _ _ _ _ _ (delta_derived_limit b) own_slot_index). apply (dense_limit _ _ _ _ _ _ _ _ _ Hd). }
  - exists io_error, (delta_derived_index d). split; [done|by left].
  - exists success, index. split; [done|]. right. split; [done|]. by rewrite length_fmap in Hload |- *.
Qed.

(** A reference that is there already. *)
Lemma derive_existing c k n h :
  0 <= h < 2 ^ 32 -> derived_of d h = Some (DerivedTypeRecord n c k) -> step_ok b d (op_derive c k n) success h d.
Proof.
  intros Hw Hh. assert (ref_kind h = ref_derived /\ 1 <= payload h <= delta_derived_count d) as [Hk Hp].
  { unfold derived_of in Hh. destruct (negb (ref_valid h) || _ || _ || _) eqn:Eg; [done|]. unbool. pose proof (payload_range h). split; [done|lia]. }
  split; [done|]. split; [|done]. intros _. split; [split_and!; [lia|lia|done|lia|cbn; lia|by right]|].
  split; try done; cbn [p_derived p_derived_count with_derived_type spec_op].
  - cbn [project_of p_derived_count]. lia.
  - intros r _. destruct (Z.eqb_spec r h) as [->|]; [by rewrite <- Hh|done].
Qed.

(** A new derived type at the end. *)
Lemma derive_new_step c k n index index' :
  derived_dense_ok (key_of <$> delta_derived d) index -> (c, k, n) ∉ key_of <$> delta_derived d ->
  ref_valid (baseline_find_derived b c k n) = false -> delta_derived_count d < maximum_payload ->
  insert_hashed vacant_derived derived_occupied index (hash_derived (c, k, n))
    (delta_slot_of (baseline_derived_count b) (length (key_of <$> delta_derived d)) (c, k, n)) = Some index' ->
  derived_dense_ok ((key_of <$> delta_derived d) ++ [(c, k, n)]) index' ->
  step_ok b d (op_derive c k n) success (own_derived (length (delta_derived d)))
    (with_derived_part (delta_derived d ++ [DerivedTypeRecord n c k]) index' d).
Proof.
  intros Hd Hnin Hbase Hroom Hins Hd'. destruct derived_base as [Hb Hr]. unfold delta_derived_count, count in Hroom. rewrite Hb in Hroom.
  assert (length (delta_derived d) < delta_derived_limit b)%nat as Hlt by (unfold delta_derived_limit; lia).
  destruct (own_derived_parts (length (delta_derived d)) Hlt) as (Hk & Hp & Hv & Hw).
  set (d' := with_derived_part _ index' d). pose proof Hok as [H1 H2 H3 H4 H5 H6 H7 H8 H9 H10 H11 [_ Hnb]].
  assert (delta_ok b d') as Hok'.
  { split; try done. split; [cbn [d' delta_derived with_derived_part]; by rewrite fmap_app|].
    intros x [Hx|Hx]%elem_of_app; [by apply Hnb|]. apply list_elem_of_singleton in Hx as ->. done. }
  split; [done|]. split; [|done]. intros _. cbn [spec_handle project_of p_derived_count]. unfold delta_derived_count, count. rewrite Hb.
  split.
  { split; [done|]. split; [done|]. split; [lia|]. left. cbn [project_of p_derived]. unfold derived_of, delta_derived_count, count. rewrite Hk, Hp, Hb.
    rewrite (proj2 (Z.ltb_lt _ _)) by lia. by rewrite orb_true_r. }
  split; try done; cbn [p_derived p_derived_count with_derived_type spec_op].
  - cbn [project_of p_derived_count]. unfold delta_derived_count, count. cbn [d' delta_derived with_derived_part base_derived].
    rewrite length_app, Hp, Hb. cbn. lia.
  - intros r Hrw. cbn [project_of p_derived]. unfold derived_of, delta_derived_count, count. cbn [d' delta_derived with_derived_part base_derived delta_baseline].
    rewrite length_app. cbn [length]. rewrite Hb. destruct (Z.eqb_spec r (own_derived (length (delta_derived d)))) as [->|Hne].
    + rewrite Hk, Hp, Hv, bool_decide_eq_true_2 by done. rewrite (proj2 (Z.eqb_neq _ 0)), (proj2 (Z.ltb_ge _ _)), (proj2 (Z.leb_gt _ _)) by lia. cbn [negb orb].
      replace (Z.to_nat _) with (length (delta_derived d)) by lia. by rewrite lookup_app_r, Nat.sub_diag.
    + destruct (ref_valid r) eqn:Hvr; [|done]. case_bool_decide as Hkr; [|done]. destruct (payload r =? 0); [done|]. cbn [negb orb].
      assert (payload r <> baseline_derived_count b + Z.of_nat (length (delta_derived d)) + 1) as Hpr.
      { intros Heq. apply Hne. apply ref_determined; try done; congruence. }
      destruct (Z.ltb_spec (baseline_derived_count b + Z.of_nat (length (delta_derived d) + 1)) (payload r)),
        (Z.ltb_spec (baseline_derived_count b + Z.of_nat (length (delta_derived d))) (payload r)); try done; try lia.
      destruct (Z.leb_spec (payload r) (baseline_derived_count b)); [done|]. apply lookup_app_l. lia.
Qed.
End Derived.

Lemma derive_step d c k n a :
  baseline_laws b -> delta_ok b d ->
  exists st h d', delta_derive c k n a d = Some (st, h, d') /\ step_ok b d (op_derive c k n) st h d'.
Proof.
  intros Hlaws Hok. destruct (derived_base d Hlaws Hok) as [Hb Hr].
  assert (forall st, st <> success -> exists st' h d', Some (st, 0, d) = Some (st', h, d') /\ step_ok b d (op_derive c k n) st' h d') as Hrefuse.
  { intros st Hst. exists st, 0, d. split; [done|]. by apply step_refused. }
  unfold delta_derive. destruct (_ || _); [by apply Hrefuse|]. destruct (find_own_derived d Hlaws Hok (c, k, n)) as [Hin Hnin].
  destruct (decide ((c, k, n) ∈ key_of <$> delta_derived d)) as [[i Hi]%list_elem_of_lookup|Hout].
  { rewrite list_lookup_fmap in Hi. rewrite (Hin i Hi). destruct (delta_derived d !! i) as [x|] eqn:Ex; [|done]. injection Hi as Hx.
    pose proof (lookup_lt_Some _ _ _ Ex). pose proof (derived_few d Hok).
    destruct (own_derived_parts Hlaws i ltac:(lia)) as (_ & _ & -> & Hw). eexists _, _, _. split; [done|].
    apply derive_existing; [done|done|]. rewrite (derived_of_own d Hlaws Hok i x Ex) by lia. destruct x as [x1 x2 x3]. unfold key_of in Hx. cbn in Hx. by simplify_eq. }
  rewrite (Hnin Hout). change (ref_valid 0) with false. cbn iota. rewrite (ok_baseline b d Hok).
  destruct (ref_valid (baseline_find_derived b c k n)) eqn:Hfound.
  { destruct (law_find_derived b Hlaws c k n Hfound) as (Hw & Hk & Hp & Hd). eexists _, _, _. split; [done|]. apply derive_existing; [done|done|].
    unfold derived_of, delta_derived_count, count. rewrite Hfound, Hk, Hb, (ok_baseline b d Hok), bool_decide_eq_true_2 by done.
    unfold ref_valid in Hfound. unbool. rewrite (proj2 (Z.eqb_neq _ 0)), (proj2 (Z.ltb_ge _ _)), (proj2 (Z.leb_le _ _)) by (done || lia). done. }
  destruct (Z.leb_spec maximum_payload (delta_derived_count d)) as [Hfull|Hroom]; [by apply Hrefuse|].
  destruct (derived_capacity d Hlaws Hok (index_allocated a)) as (st & index & -> & Hcap); cbn [mbind option_bind].
  destruct Hcap as [(-> & ->)|(-> & Hd & Hload)].
  { assert (with_derived_part (delta_derived d) (delta_derived_index d) d = d) as -> by by destruct d. by apply Hrefuse. }
  change (succeeded success) with true. cbn [negb].
  assert (delta_ok b (with_derived_part (delta_derived d) index d)) as Hok1.
  { destruct Hok as [H1 H2 H3 H4 H5 H6 H7 H8 H9 H10 H11 [_ H12]]. by split. }
  destruct (appended_allocated a); cbn [negb]; [|eexists _, _, _; by split; [done|split; [done|split]]].
  pose proof (derived_few d Hok) as Hfew.
  destruct (append_key_spec vacant_derived derived_occupied hash_derived (delta_slot_of (baseline_derived_count b)) (fun _ => True)
    (delta_derived_index_of (baseline_derived_count b)) (delta_derived_limit b) (own_slot_busy Hlaws) (own_slot_index Hlaws)
    (key_of <$> delta_derived d) index (c, k, n) Hd) as (index' & Hins & Hd'); try done.
  { by rewrite length_fmap. }
  { rewrite length_fmap. unfold delta_derived_count, count in Hroom. rewrite Hb in Hroom. unfold delta_derived_limit. lia. }
  assert (make_ref ref_derived (u32 (base_derived d + count (delta_derived d ++ [DerivedTypeRecord n c k]))) = own_derived (length (delta_derived d))) as Hout'.
  { unfold own_derived, count. rewrite length_app, Hb. cbn [length]. do 2 f_equal. lia. }
  cbn [delta_derived with_derived_part base_derived]. rewrite Hout'. unfold insert_derived_index.
  assert (DerivedSlot (fingerprint (hash_derived (c, k, n))) (own_derived (length (delta_derived d))) =
          delta_slot_of (baseline_derived_count b) (length (key_of <$> delta_derived d)) (c, k, n)) as -> by by rewrite length_fmap.
  rewrite Hins. cbn [mbind option_bind]. eexists _, _, _. split; [done|].
  by apply (derive_new_step d Hlaws Hok c k n index index').
Qed.
End Links.
