(* ===== verification/DeltaRefine.v ===== *)
(** Whole scripts of operations on a delta: every operation returns and keeps the invariant,
    its effect is that of the specification, and what a script leaves alone.

    The delta over a compiled image: the view answers what the delta asks of a compiled
    project, the image that was accepted satisfies the laws the delta relies on, and the
    theorems about builds over an image follow. *)

From S2P Require Import Prelude ServerStatus HashIndex StringTable Identity DenseIndex SparseIndex GraphData GraphGrowth GraphTypes GraphRecords GraphLinks ImageBytes CompiledView CompiledBounds CompiledProject GraphDelta DeltaProject DeltaTypes DeltaLinks.

Local Open Scope Z_scope.

Section Refine.
Context `{GraphBaseline B} (b : B) (laws : baseline_laws b).
Implicit Types d : graph_delta B.

(** ** A fresh delta over the image *)

Lemma number_live_all live n : (forall h, 1 <= h <= Z.of_nat n -> live h = true) -> number_live live n = Z.of_nat n.
Proof.
  induction n as [|n IH]; intros Hl; [done|]. cbn [number_live]. rewrite IH by (intros; apply Hl; lia). rewrite Hl by lia. lia.
Qed.

Section Fresh.
Context {V A : Type}.

Lemma fresh_state n h : held_state (no_lineage n : lineage V A) h = if negb (h =? 0) && (h <=? n) then Some (true, stored) else None.
Proof.
  unfold held_state, slot_exists, slot_count, no_lineage, patch_at, find_patch, count. cbn [added base_count length patches patch_index].
  rewrite Z.add_0_r. destruct (h =? 0); cbn [negb andb]; [done|]. destruct (h <=? n); cbn [negb]; [|done].
  rewrite (sparse_find_spec ∅) by apply sparse_ok_empty. by rewrite lookup_empty.
Qed.

Lemma fresh_stored n h c : held_state (no_lineage n : lineage V A) h = Some c -> c = (true, stored).
Proof. rewrite fresh_state. destruct (_ && _); by intros [= <-]. Qed.

Lemma fresh_patches n : 0 <= n < 2 ^ 32 -> patches_ok (no_lineage n : lineage V A).
Proof.
  intros Hn. split; [done| |intros p Hp; by apply not_elem_of_nil in Hp|done].
  exists ∅. split; [apply sparse_ok_empty|]. split; [done|]. intros h pos. rewrite lookup_empty. split; [done|]. intros (_ & p & Hp & _). done.
Qed.

Lemma fresh_lineage n : 0 <= n < 2 ^ 32 -> lineage_ok (no_lineage n : lineage V A).
Proof.
  intros Hn. pose proof (fresh_patches n Hn) as Hok.
  assert (slot_count (no_lineage n : lineage V A) = n) as Hc by (unfold slot_count, count; cbn; lia).
  split; [done|rewrite Hc; lia|]. rewrite Hc, number_live_all; [cbn; lia|].
  intros h Hh. rewrite contains_state, fresh_state by done. by rewrite (proj2 (Z.eqb_neq h 0)), (proj2 (Z.leb_le h n)) by lia.
Qed.
End Fresh.

Definition fresh_delta : graph_delta B :=
  GraphDelta (Some b) (baseline_member_count b) (baseline_object_construction_count b) (baseline_derived_count b) [] no_index
    (no_lineage (baseline_type_count b)) [] (no_lineage (baseline_object_count b)) [] (no_lineage (baseline_link_count b))
    [] [] [] [] 0 [] [].

Lemma bind_fresh : baseline_valid b = true -> bind_baseline b new_delta = (success, fresh_delta).
Proof. intros Hv. unfold bind_baseline. cbn. by rewrite Hv. Qed.

Lemma handle_word h : h <= maximum_handle -> h < 2 ^ 32.
Proof. unfold maximum_handle. lia. Qed.

Lemma fresh_delta_ok : delta_ok b fresh_delta.
Proof.
  pose proof (law_types b laws) as Ht. pose proof (law_objects b laws) as Ho. pose proof (law_links b laws) as Hl.
  assert (forall V A n, slot_count (no_lineage n : lineage V A) = n) as Hc by (intros; unfold slot_count, count; cbn; lia).
  split; cbn [fresh_delta delta_baseline base_members base_object_values base_derived type_part object_part link_part delta_type_identities delta_object_identities
    identity_overlay delta_members delta_member_values delta_object_values delta_link_index delta_link_count delta_derived delta_derived_index];
    rewrite ?Hc; try done.
  - split_and!; [apply fresh_lineage; pose proof (handle_word _ (proj2 Ht)); lia|done|lia|done].
  - split_and!; [apply fresh_lineage; pose proof (handle_word _ (proj2 Ho)); lia|done|lia|done].
  - by split; [apply fresh_lineage|].
  - split; [|intros i Hi; by apply not_elem_of_nil in Hi..]. exists ∅. split; [apply sparse_ok_empty|]. split; [done|].
    intros i x. rewrite lookup_empty. split; [done|]. intros [(p & Hp & _)|(p & Hp & _)]; done.
  - split; [done|]. unfold delta_member_count, count. cbn. pose proof (law_members b laws). lia.
  - unfold count. cbn. pose proof (law_values b laws). lia.
  - intros t e [He|He]; by apply fresh_stored in He.
  - intros o e He. by apply fresh_stored in He.
  - split.
    + exists ∅. split; [apply keyed_empty|]. split; [done|]. intros k h. rewrite lookup_empty. split; [done|].
      intros (live & x & Hx & _). by apply fresh_stored in Hx.
    + intros h live x Hx. by apply fresh_stored in Hx.
    + intros h x Hx. by apply fresh_stored in Hx.
  - split; [|intros x Hx; by apply not_elem_of_nil in Hx]. apply dense_empty.
Qed.

Lemma fresh_project : project_eq (project_of fresh_delta) (image_project b).
Proof.
  pose proof fresh_delta_ok as Hok. pose proof (delta_ids b fresh_delta laws Hok) as Hids.
  assert (forall n h, 0 <= h -> negb (h =? 0) && (h <=? n) = (1 <=? h) && (h <=? n)) as Hpos.
  { intros n h H0. by destruct (Z.leb_spec 1 h), (Z.eqb_spec h 0); try lia. }
  split; cbn [image_project p_types p_type p_type_of p_objects p_object p_object_of p_links p_link p_link_of p_derived_count p_derived].
  - cbn. unfold slot_count, count. cbn. lia.
  - intros t H0. rewrite p_type_state by apply Hok. change (type_part fresh_delta) with (no_lineage (baseline_type_count b) : lineage type_view type_view).
    rewrite fresh_state, Hpos by done. destruct (_ && _); [|done]. f_equal. unfold fetched_type. cbn [fresh_delta delta_baseline mbind option_bind].
    destruct (baseline_type b t) as [e|] eqn:Ee; [|done]. cbn. f_equal. unfold stored_meaning, meaning_of. f_equal. destruct (tv_defined e) eqn:Ed; [|done].
    pose proof (law_type_words b laws t e Ee). apply list_fmap_ext. intros i m Hm%list_elem_of_lookup_2%elem_of_seqZ. unfold held_member. cbn. rewrite Ed.
    unfold member_valid, no_member, u32_max. by rewrite (proj2 (Z.eqb_neq m _)), (proj2 (Z.leb_gt _ _)) by lia.
  - intros i. destruct (lineage_type_spec b fresh_delta i Hids) as [_ Hn]. apply Hn, not_elem_of_nil.
  - cbn. unfold slot_count, count. cbn. lia.
  - intros o H0. rewrite (p_object_state b); [|done|done|apply Hok]. change (object_part fresh_delta) with (no_lineage (baseline_object_count b) : lineage (object_entry * construction_value) object_entry).
    rewrite fresh_state, Hpos by done. by destruct (_ && _).
  - intros i. destruct (lineage_object_spec b fresh_delta i Hids) as [_ Hn]. apply Hn, not_elem_of_nil.
  - cbn. unfold slot_count, count. cbn. lia.
  - intros h H0. rewrite p_link_state by apply Hok. change (link_part fresh_delta) with (no_lineage (baseline_link_count b) : lineage link_record link_record).
    rewrite fresh_state, Hpos by done. by destruct (_ && _).
  - intros t Ht. destruct (lineage_target_cases b fresh_delta t laws Hok Ht) as [(live & x & Hx & _)|[Hh _]]; [|done]. by apply fresh_stored in Hx.
  - cbn. unfold delta_derived_count, count. cbn. lia.
  - intros r _. cbn [project_of p_derived]. unfold derived_of, delta_derived_count, count. cbn [fresh_delta base_derived delta_derived length delta_baseline].
    rewrite Z.add_0_r. unfold ref_valid. destruct (bool_decide (ref_kind r = ref_derived)) eqn:Ek; [|by rewrite andb_false_r; destruct (negb (negb _ && negb _))].
    destruct (bool_decide (ref_kind r = ref_invalid)); [done|]. cbn [negb andb]. pose proof (payload_range r).
    destruct (Z.eqb_spec (payload r) 0); [done|]. cbn [negb orb andb]. by destruct (Z.ltb_spec (baseline_derived_count b) (payload r)), (Z.leb_spec (payload r) (baseline_derived_count b)); try lia.
Qed.

(** ** One operation *)

Lemma run_op_step op a d :
  delta_ok b d -> op_words op -> exists st h d', run_op op a d = Some (st, h, d') /\ step_ok b d op st h d'.
Proof.
  intros Hok Hw.
  assert (forall r, (exists st d', r = Some (st, d') /\ step_ok b d op st 0 d') ->
    exists st h d', ('(st, d) ← r; Some (st, 0, d)) = Some (st, h, d') /\ step_ok b d op st h d') as Hplain.
  { intros r (st & d' & -> & Hs). by exists st, 0, d'. }
  destruct op; cbn [run_op op_words] in *; try apply Hplain.
  - by apply declare_step.
  - by apply define_step.
  - by apply clear_step.
  - by apply retire_type_step.
  - by apply add_object_step.
  - by apply retire_object_step.
  - by apply add_link_step; [..|apply Hw].
  - by apply retire_link_step.
  - by apply derive_step.
Qed.

(** ** Scripts *)

Fixpoint run_script (s : list (delta_op * delta_allocations)) d : option (list (server_status * Z) * graph_delta B) :=
  match s with
  | [] => Some ([], d)
  | (op, a) :: s =>
      '(st, h, d) ← run_op op a d;
      '(outs, d) ← run_script s d;
      Some ((st, h) :: outs, d)
  end.

(** The effects of the calls that succeeded, in their order. *)
Fixpoint replay (s : list (delta_op * delta_allocations)) (outs : list (server_status * Z)) (p : project) : project :=
  match s, outs with
  | (op, _) :: s, (st, h) :: outs => replay s outs (if succeeded st then spec_op op h p else p)
  | _, _ => p
  end.

(** Each call that succeeded answered the handle the specification says. *)
Fixpoint handles_right (s : list (delta_op * delta_allocations)) (outs : list (server_status * Z)) (p : project) : Prop :=
  match s, outs with
  | (op, _) :: s, (st, h) :: outs =>
      (st = success -> spec_handle op h p) /\ handles_right s outs (if succeeded st then spec_op op h p else p)
  | _, _ => True
  end.

Definition script_words (s : list (delta_op * delta_allocations)) : Prop := Forall (fun x => op_words x.1) s.

(** Equal projects have equal effects; a handle that is looked up is a word. *)
Lemma spec_op_eq op h p q : op_words op -> 0 <= h -> project_eq p q -> project_eq (spec_op op h p) (spec_op op h q).
Proof.
  intros Hw H0 Heq. destruct op; cbn [spec_op op_words] in *.
  - rewrite (eq_type _ _ Heq h H0). destruct (p_type q h); [done|]. destruct Heq.
    split; try done; cbn; intros; [congruence| |]; destruct (_ =? _); auto.
  - rewrite (eq_type _ _ Heq t Hw). destruct (p_type q t) as [[m|]|]; try done. destruct (meaning_defined m); [done|]. destruct Heq.
    split; try done; cbn; intros; [congruence|]; destruct (_ =? _); auto.
  - rewrite (eq_type _ _ Heq t Hw). destruct (p_type q t) as [[m|]|]; try done. destruct (meaning_defined m); [|done]. destruct Heq.
    split; try done; cbn; intros; [congruence|]; destruct (_ =? _); auto.
  - destruct Heq. split; try done; cbn; intros; [congruence|]; destruct (_ =? _); auto.
  - rewrite (eq_object _ _ Heq h H0). destruct (p_object q h); [done|]. destruct Heq.
    split; try done; cbn; intros; [congruence| |]; destruct (_ =? _); auto.
  - destruct Heq. split; try done; cbn; intros; [congruence|]; destruct (_ =? _); auto.
  - rewrite (eq_link _ _ Heq h H0). destruct (p_link q h); [done|]. destruct Heq.
    split; try done; cbn; intros; [congruence| |]; [destruct (_ =? _)|destruct (decide _)]; auto.
  - destruct Heq. split; try done; cbn; intros; [congruence|]; destruct (_ =? _); auto.
  - destruct Heq. split; try done; cbn; intros; [congruence|]; destruct (_ =? _); auto.
Qed.

Lemma spec_handle_eq op h p q : op_words op -> project_eq p q -> spec_handle op h p -> spec_handle op h q.
Proof.
  intros Hw Heq. destruct op; cbn [spec_handle op_words] in *; try done.
  - by rewrite (eq_type_of _ _ Heq), (eq_types _ _ Heq).
  - by rewrite (eq_object_of _ _ Heq), (eq_objects _ _ Heq).
  - by rewrite (eq_link_of _ _ Heq target) by apply Hw; rewrite (eq_links _ _ Heq).
  - intros (Hh & ? & ? & ?). by rewrite <- (eq_derived_count _ _ Heq), <- (eq_derived _ _ Heq h).
Qed.

Lemma target_nonneg d t : delta_ok b d -> endpoint_words t -> 0 <= lineage_link_target d t <= slot_count (link_part d).
Proof.
  intros Hok Ht. destruct (ok_links b d Hok) as [Hl Hb]. pose proof (law_links b laws). pose proof (law_find_link b laws t).
  destruct (lineage_target_cases b d t laws Hok Ht) as [(live & x & Hx & _)|[-> _]].
  - pose proof (state_appended _ _ _ _ Hx). unfold held_state in Hx. destruct (slot_exists _ _) eqn:He; [|done].
    pose proof (slot_exists_range _ _ He). lia.
  - unfold slot_count, count. lia.
Qed.

Lemma handle_nonneg op h d : delta_ok b d -> op_words op -> spec_handle op h (project_of d) -> 0 <= h.
Proof.
  intros Hok Hw. pose proof (delta_ids b d laws Hok) as Hids. destruct op; cbn [spec_handle op_words] in *; try lia.
  - intros ->. pose proof (lineage_type_range b d i Hids). destruct (ok_types b d Hok) as (_ & Hb & _). pose proof (law_types b laws).
    cbn [project_of p_type_of p_types]. destruct (_ =? _); [unfold slot_count, count; lia|lia].
  - intros ->. pose proof (lineage_object_range b d i Hids). destruct (ok_objects b d Hok) as (_ & Hb & _). pose proof (law_objects b laws).
    cbn [project_of p_object_of p_objects]. destruct (_ =? _); [unfold slot_count, count; lia|lia].
  - intros ->. pose proof (target_nonneg d target Hok (proj2 Hw)). cbn [project_of p_link_of p_links]. destruct (_ =? _); lia.
Qed.

(** A script returns, keeps the invariant, and its effects are those of the specification. *)
Lemma run_script_refines s d p :
  delta_ok b d -> script_words s -> project_eq (project_of d) p ->
  exists outs d', run_script s d = Some (outs, d') /\ delta_ok b d' /\ length outs = length s /\
    project_eq (project_of d') (replay s outs p) /\ handles_right s outs p.
Proof.
  revert d p. induction s as [|[op a] s IH]; intros d p Hok Hw Heq; [by exists [], d|].
  inversion Hw as [|? ? Hop Hs]; subst. cbn [fst] in Hop.
  destruct (run_op_step op a d Hok Hop) as (st & h & d1 & Hrun & Hok1 & Hsucc & Hfail).
  set (p' := if succeeded st then spec_op op h p else p).
  assert (project_eq (project_of d1) p' /\ (st = success -> spec_handle op h p)) as [Heq1 Hh].
  { unfold p'. destruct (decide (st = success)) as [->|Hst].
    - destruct (Hsucc eq_refl) as [Hh Hspec]. split; [|intros _; by eapply spec_handle_eq].
      etransitivity; [exact Hspec|]. apply spec_op_eq; [done|by apply (handle_nonneg op h d)|done].
    - split; [|done]. assert (succeeded st = false) as -> by by destruct st. etransitivity; [by apply Hfail|done]. }
  destruct (IH d1 p' Hok1 Hs Heq1) as (outs & d' & Hrest & Hok' & Hlen & Heq' & Hhs).
  exists ((st, h) :: outs), d'. cbn [run_script]. rewrite Hrun. cbn [mbind option_bind]. rewrite Hrest. cbn [mbind option_bind].
  split; [done|]. split; [done|]. split; [cbn; by rewrite Hlen|]. by split.
Qed.

(** ** What stays *)

(** Handles keep their identities and targets, references their meaning, and no slot is
    taken away. *)
Record keeps (p q : project) : Prop := Keeps {
  keeps_types : p_types p <= p_types q;
  keeps_type_of : forall i, p_type_of p i <> 0 -> p_type_of q i = p_type_of p i;
  keeps_objects : p_objects p <= p_objects q;
  keeps_object_of : forall i, p_object_of p i <> 0 -> p_object_of q i = p_object_of p i;
  keeps_links : p_links p <= p_links q;
  keeps_link_of : forall t, endpoint_words t -> p_link_of p t <> 0 -> p_link_of q t = p_link_of p t;
  keeps_derived : forall r x, 0 <= r < 2 ^ 32 -> p_derived p r = Some x -> p_derived q r = Some x
}.

Lemma keeps_refl p : keeps p p.
Proof. by split. Qed.

Lemma keeps_trans p q r : keeps p q -> keeps q r -> keeps p r.
Proof.
  intros Hp Hq. destruct Hp as [? Ht ? Ho ? Hl Hd], Hq as [? Ht' ? Ho' ? Hl' Hd']. split; try lia.
  - intros i Hi. rewrite Ht'; [by apply Ht|by rewrite Ht].
  - intros i Hi. rewrite Ho'; [by apply Ho|by rewrite Ho].
  - intros t Hw Hi. rewrite Hl'; [by apply Hl|done|by rewrite Hl].
  - auto.
Qed.

Lemma keeps_eq p q r : keeps p q -> project_eq r q -> keeps p r.
Proof.
  intros [Ht Hto Ho Hoo Hl Hlo Hd] [Et _ Eto Eo _ Eoo El _ Elo _ Ed]. split.
  - by rewrite Et.
  - intros i Hi. rewrite Eto. auto.
  - by rewrite Eo.
  - intros i Hi. rewrite Eoo. auto.
  - by rewrite El.
  - intros t Hw Hi. rewrite Elo by done. auto.
  - intros x y Hx Hy. rewrite Ed by done. auto.
Qed.

Lemma spec_op_keeps op h p : op_words op -> spec_handle op h p -> keeps p (spec_op op h p).
Proof.
  intros Hw Hh. destruct op; cbn [spec_op spec_handle] in *.
  - destruct (p_type p h); [apply keeps_refl|]. split; try done; cbn; [lia|]. intros j Hj.
    destruct (Z.eqb_spec j i) as [->|]; [|done]. by rewrite (proj2 (Z.eqb_neq _ _) Hj) in Hh.
  - destruct (p_type p t) as [[m|]|]; try apply keeps_refl. destruct (meaning_defined m); [apply keeps_refl|]. split; try done; cbn; lia.
  - destruct (p_type p t) as [[m|]|]; try apply keeps_refl. destruct (meaning_defined m); [|apply keeps_refl]. split; try done; cbn; lia.
  - split; try done; cbn; lia.
  - destruct (p_object p h); [apply keeps_refl|]. split; try done; cbn; [lia|]. intros j Hj.
    destruct (Z.eqb_spec j i) as [->|]; [|done]. by rewrite (proj2 (Z.eqb_neq _ _) Hj) in Hh.
  - split; try done; cbn; lia.
  - destruct (p_link p h); [apply keeps_refl|]. split; try done; cbn; [lia|]. intros t Ht Hj.
    destruct (decide (t = target)) as [->|]; [|done]. by rewrite (proj2 (Z.eqb_neq _ _) Hj) in Hh.
  - split; try done; cbn; lia.
  - split; try done. cbn. intros r x Hr Hx. destruct (Z.eqb_spec r h) as [->|]; [|done]. destruct Hh as (_ & _ & _ & [Hn|Hsame]); congruence.
Qed.

Lemma step_keeps op a d st h d' :
  delta_ok b d -> op_words op -> run_op op a d = Some (st, h, d') -> keeps (project_of d) (project_of d').
Proof.
  intros Hok Hw Hrun. destruct (run_op_step op a d Hok Hw) as (st2 & h2 & d2 & Hrun2 & _ & Hsucc & Hfail).
  rewrite Hrun in Hrun2. injection Hrun2 as <- <- <-. destruct (decide (st = success)) as [->|Hst].
  - destruct (Hsucc eq_refl) as [Hh Heq]. eapply keeps_eq; [|exact Heq]. by apply spec_op_keeps.
  - eapply keeps_eq; [apply keeps_refl|by apply Hfail].
Qed.

Lemma script_keeps s outs d d' :
  delta_ok b d -> script_words s -> run_script s d = Some (outs, d') -> keeps (project_of d) (project_of d') /\ delta_ok b d'.
Proof.
  revert outs d. induction s as [|[op a] s IH]; intros outs d Hok Hw Hrun; cbn [run_script] in Hrun.
  { injection Hrun as <- <-. split; [apply keeps_refl|done]. }
  inversion Hw as [|? ? Hop Hs]; subst. cbn [fst] in Hop.
  apply bind_Some in Hrun as ([[st h] d1] & Hop1 & Hrun). apply bind_Some in Hrun as ([outs1 d2] & Hrun & Heq). injection Heq as <- <-.
  destruct (run_op_step op a d Hok Hop) as (st2 & h2 & d3 & Hrun2 & Hok1 & _). rewrite Hop1 in Hrun2. injection Hrun2 as <- <- <-.
  destruct (IH outs1 d1 Hok1 Hs Hrun) as [Hk Hok']. split; [|done]. eapply keeps_trans; [|exact Hk]. by eapply step_keeps.
Qed.

(** ** Links of a delta *)

(** Every link that can be read is the link of its target, if the image's own index is complete. *)
Lemma link_of_its_target d h x :
  delta_ok b d -> 0 <= h ->
  (forall l r, 1 <= l <= baseline_link_count b -> baseline_link b l = Some r ->
    endpoint_words (link_target r) /\ baseline_find_link_target b (link_target r) = l) ->
  p_link (project_of d) h = Some (Some x) -> lineage_link_target d (link_target x) = h.
Proof.
  intros Hok H0 Hcomplete. destruct (ok_links b d Hok) as [Hl Hb]. rewrite p_link_state by apply Hl.
  pose proof (ok_link_index b d Hok) as Hli. pose proof (law_links b laws).
  assert (forall t, endpoint_words t -> baseline_find_link_target b t = h -> h <> 0 -> lineage_link_target d t = h) as Himage.
  { intros t Ht Hf Hnz. destruct (lineage_target_cases b d t laws Hok Ht) as [(live & y & Hy & <-)|[-> _]]; [|done].
    destruct (link_own_added _ _ _ _ Hli _ live y Hy) as (_ & _ & Hz). congruence. }
  destruct (held_state (link_part d) h) as [[[] [|y|y]]|] eqn:Es; try done.
  - intros [= Hx]. unfold fetched_link in Hx. rewrite (ok_baseline b d Hok) in Hx. cbn in Hx.
    unfold held_state in Es. destruct (slot_exists _ _) eqn:He; [|done]. pose proof (slot_exists_range _ _ He H0).
    destruct (Z.leb_spec h (base_count (link_part d))); [|cbn in Es; by destruct (added_live _ !! _), (added _ !! _)].
    destruct (Hcomplete h x) as [Hw Hf]; [lia|done|]. apply Himage; [done|done|lia].
  - intros [= ->]. destruct (link_own_patched _ _ _ _ Hli h x Es) as [Hw Hf]. apply Himage; [done|done|].
    intros ->. unfold held_state, slot_exists in Es. done.
  - intros [= ->]. pose proof (state_appended _ _ _ _ Es). destruct (link_own_added _ _ _ _ Hli h true x Es) as (Hw & _ & _).
    unfold lineage_link_target, find_local_link_target. rewrite (local_target_added b _ _ _ Hli h true x H0 Es).
    by rewrite (proj2 (Z.eqb_neq h 0)) by lia.
Qed.
(** ** The handle of a key *)

(** What a call answers a handle for. *)
Inductive handle_key :=
| key_type (i : identity_ref)
| key_object (i : identity_ref)
| key_link (target : object_endpoint)
| key_derived (c : type_ref) (k : derived_type_kind) (n : Z).

Definition op_key (op : delta_op) : option handle_key :=
  match op with
  | op_declare i _ => Some (key_type i)
  | op_add_object i _ _ _ => Some (key_object i)
  | op_add_link _ target => Some (key_link target)
  | op_derive c k n => Some (key_derived c k n)
  | _ => None
  end.

(** The lookup that [derive] makes first: in the delta, then in the image. *)
Definition found_derived d (c : type_ref) (k : derived_type_kind) (n : Z) : type_ref :=
  let own := delta_find_derived d (c, k, n) (hash_derived (c, k, n)) (fingerprint (hash_derived (c, k, n))) in
  if ref_valid own then own else match delta_baseline d with Some b => baseline_find_derived b c k n | None => 0 end.

Definition found_handle d (key : handle_key) : Z :=
  match key with
  | key_type i => lineage_type d i
  | key_object i => lineage_object d i
  | key_link target => lineage_link_target d target
  | key_derived c k n => found_derived d c k n
  end.

Definition key_words (key : handle_key) : Prop :=
  match key with key_link target => endpoint_words target | _ => True end.

(** The lookups answer the handle; a derived type also reads back from it. *)
Definition handle_found d (key : handle_key) (h : Z) : Prop :=
  h <> 0 /\ found_handle d key = h /\
  (match key with key_derived c k n => 0 <= h < 2 ^ 32 /\ derived_of d h = Some (DerivedTypeRecord n c k) | _ => True end : Prop).

Lemma found_derived_reads d c k n :
  delta_ok b d -> ref_valid (found_derived d c k n) = true ->
  0 <= found_derived d c k n < 2 ^ 32 /\ derived_of d (found_derived d c k n) = Some (DerivedTypeRecord n c k) /\
  (payload (found_derived d c k n) <= baseline_derived_count b -> baseline_find_derived b c k n = found_derived d c k n).
Proof.
  intros Hok. unfold found_derived. destruct (derived_base b d laws Hok) as [Hb Hr]. destruct (find_own_derived b d laws Hok (c, k, n)) as [Hin Hnin].
  destruct (decide ((c, k, n) ∈ key_of <$> delta_derived d)) as [[i Hi]%list_elem_of_lookup|Hout].
  - rewrite list_lookup_fmap in Hi. rewrite (Hin i Hi). destruct (delta_derived d !! i) as [x|] eqn:Ex; [|done]. injection Hi as Hx.
    pose proof (lookup_lt_Some _ _ _ Ex). pose proof (derived_few b d Hok).
    destruct (own_derived_parts b laws i ltac:(lia)) as (_ & Hp & -> & Hw). intros _. split; [done|]. split; [|rewrite Hp; lia].
    rewrite (derived_of_own b d laws Hok i x Ex) by lia. destruct x as [x1 x2 x3]. unfold key_of in Hx. cbn in Hx. by simplify_eq.
  - rewrite (Hnin Hout). change (ref_valid 0) with false. cbn iota. rewrite (ok_baseline b d Hok). intros Hfound.
    destruct (law_find_derived b laws c k n Hfound) as (Hw & Hk & Hp & Hd). split; [done|]. split; [|done].
    unfold derived_of, delta_derived_count, count. rewrite Hfound, Hk, Hb, (ok_baseline b d Hok), bool_decide_eq_true_2 by done.
    unfold ref_valid in Hfound. unbool. rewrite (proj2 (Z.eqb_neq _ 0)), (proj2 (Z.ltb_ge _ _)), (proj2 (Z.leb_le _ _)) by (done || lia). done.
Qed.

Lemma reads_found_derived d c k n h :
  delta_ok b d -> 0 <= h < 2 ^ 32 -> derived_of d h = Some (DerivedTypeRecord n c k) ->
  (payload h <= baseline_derived_count b -> baseline_find_derived b c k n = h) -> found_derived d c k n = h.
Proof.
  intros Hok Hw Hd Hbase. destruct (derived_base b d laws Hok) as [Hb Hr]. destruct (find_own_derived b d laws Hok (c, k, n)) as [Hin Hnin].
  unfold derived_of in Hd. destruct (_ || _) eqn:Eg in Hd; [done|]. apply orb_false_iff in Eg as [Eg Hgt].
  apply orb_false_iff in Eg as [[Hv Hk]%orb_false_iff Hz]. apply negb_false_iff in Hv, Hk. apply bool_decide_eq_true in Hk. unfold found_derived.
  rewrite Hb in Hd. destruct (Z.leb_spec (payload h) (baseline_derived_count b)) as [Hle|Hlt].
  - specialize (Hbase Hle). rewrite Hnin; [change (ref_valid 0) with false; cbn iota; by rewrite (ok_baseline b d Hok)|].
    intros (x & Hx & Hx2)%list_elem_of_fmap. destruct (ok_derived b d Hok) as [_ Hnone]. specialize (Hnone x Hx2).
    destruct x as [x1 x2 x3]. unfold key_of in Hx. cbn in Hx, Hnone. simplify_eq. congruence.
  - rewrite (Hin (Z.to_nat (payload h - baseline_derived_count b - 1))) by by rewrite Hd.
    apply lookup_lt_Some in Hd. pose proof (derived_few b d Hok).
    destruct (own_derived_parts b laws (Z.to_nat (payload h - baseline_derived_count b - 1)) ltac:(lia)) as (Hk' & Hp' & Hv' & Hw').
    rewrite Hv'. apply ref_determined; try done; [congruence|lia].
Qed.

Lemma keeps_found d d' key h :
  delta_ok b d -> delta_ok b d' -> keeps (project_of d) (project_of d') -> key_words key ->
  handle_found d key h -> handle_found d' key h.
Proof.
  intros Hok Hok' [_ Hto _ Hoo _ Hlo Hd] Hw (Hnz & Hf & Hread). cbn [project_of p_type_of p_object_of p_link_of p_derived] in *.
  split; [done|]. destruct key; cbn [found_handle key_words] in *.
  - split; [|done]. rewrite Hto; [done|by rewrite Hf].
  - split; [|done]. rewrite Hoo; [done|by rewrite Hf].
  - split; [|done]. rewrite Hlo; [done..|by rewrite Hf].
  - destruct Hread as [Hword Hread]. pose proof (Hd h _ Hword Hread) as Hread'. split; [|by split].
    destruct (ref_valid h) eqn:Hv; [|unfold derived_of in Hread; by rewrite Hv in Hread].
    rewrite <- Hf in Hv. destruct (found_derived_reads d c k n Hok Hv) as (_ & _ & Hbase). rewrite Hf in Hbase.
    by apply reads_found_derived.
Qed.

(** A slot past the last one is not there. *)
Lemma slot_fresh {V A} (l : lineage V A) h : slot_count l < h -> contains_slot l h = false.
Proof. intros Hh. unfold contains_slot, slot_exists. by rewrite (proj2 (Z.leb_gt _ _)), andb_false_r by lia. Qed.

Lemma derive_answer d c k n a h d' :
  delta_ok b d -> delta_derive c k n a d = Some (success, h, d') ->
  ref_valid (found_derived d c k n) = true /\ found_derived d c k n = h \/
  h = own_derived b (length (delta_derived d)) /\ (length (delta_derived d) < delta_derived_limit b)%nat.
Proof.
  intros Hok. destruct (derived_base b d laws Hok) as [Hb Hr]. unfold delta_derive, found_derived. destruct (_ || _); [discriminate|].
  cbv zeta. generalize (delta_find_derived d (c, k, n) (hash_derived (c, k, n)) (fingerprint (hash_derived (c, k, n)))) as own.
  generalize (match delta_baseline d with Some b => baseline_find_derived b c k n | None => 0 end) as stored. intros stored own.
  destruct (ref_valid own) eqn:Hown; [intros [= <- <-]; by left|].
  destruct (ref_valid stored) eqn:Hstored; [intros [= <- <-]; by left|].
  destruct (Z.leb_spec maximum_payload (delta_derived_count d)); [discriminate|]. intros ([st index] & Hcap & Hrest)%bind_Some.
  destruct (negb (succeeded st)) eqn:Hst; [injection Hrest as -> <- <-; discriminate|].
  destruct (appended_allocated a); cbn [negb] in Hrest; [|discriminate].
  apply bind_Some in Hrest as (index' & _ & [= <- _]). right. cbn [base_derived delta_derived with_derived_part].
  unfold delta_derived_count, count in *. unfold own_derived, delta_derived_limit. rewrite Hb in *.
  rewrite length_app. cbn [length]. split; [do 2 f_equal; lia|lia].
Qed.

(** A call that succeeded: what it answered is found. *)
Lemma answer_found op a d h d' key :
  delta_ok b d -> op_words op -> op_key op = Some key -> run_op op a d = Some (success, h, d') -> handle_found d' key h.
Proof.
  intros Hok Hw Hkey Hrun. destruct (run_op_step op a d Hok Hw) as (st & h2 & d2 & Hrun2 & Hok' & Hsucc & _).
  rewrite Hrun in Hrun2. injection Hrun2 as <- <- <-. destruct (Hsucc eq_refl) as [Hh Heq]. clear Hsucc.
  destruct (ok_types b d Hok) as ([_ _ _] & Htb & _), (ok_objects b d Hok) as ([_ _ _] & Hob & _), (ok_links b d Hok) as ([_ _ _] & Hlb).
  pose proof (law_types b laws). pose proof (law_objects b laws). pose proof (law_links b laws).
  destruct op; cbn [op_key] in Hkey; try done; injection Hkey as <-; cbn [spec_handle spec_op op_words] in Hh, Heq, Hw.
  - pose proof (eq_type_of _ _ Heq i) as Hfound. cbn [project_of p_type_of p_types p_type] in Hh, Hfound.
    destruct (Z.eqb_spec (lineage_type d i) 0) as [Hz|Hz].
    + unfold delta_contains_type in Hfound. rewrite (slot_fresh _ h) in Hfound by lia. cbn in Hfound. rewrite Z.eqb_refl in Hfound.
      unfold slot_count, count in Hh. split; [lia|by split].
    + split; [lia|]. split; [cbn [found_handle]|done]. destruct (delta_contains_type d h); cbn in Hfound; [congruence|]. by rewrite Z.eqb_refl in Hfound.
  - pose proof (eq_object_of _ _ Heq i) as Hfound. cbn [project_of p_object_of p_objects p_object] in Hh, Hfound.
    destruct (Z.eqb_spec (lineage_object d i) 0) as [Hz|Hz].
    + unfold delta_contains_object in Hfound. rewrite (slot_fresh _ h) in Hfound by lia. cbn in Hfound. rewrite Z.eqb_refl in Hfound.
      unfold slot_count, count in Hh. split; [lia|by split].
    + split; [lia|]. split; [cbn [found_handle]|done]. destruct (delta_contains_object d h); cbn in Hfound; [congruence|]. by rewrite Z.eqb_refl in Hfound.
  - pose proof (eq_link_of _ _ Heq target (proj2 Hw)) as Hfound. cbn [project_of p_link_of p_links p_link] in Hh, Hfound.
    destruct (Z.eqb_spec (lineage_link_target d target) 0) as [Hz|Hz].
    + unfold delta_contains_link in Hfound. rewrite (slot_fresh _ h) in Hfound by lia. cbn in Hfound. rewrite decide_True in Hfound by done.
      unfold slot_count, count in Hh. split; [lia|by split].
    + split; [lia|]. split; [cbn [found_handle]|done]. destruct (delta_contains_link d h); cbn in Hfound; [congruence|]. by rewrite decide_True in Hfound.
  - destruct Hh as (Hword & Hk & Hp & _). pose proof (eq_derived _ _ Heq h Hword) as Hread. cbn in Hread. rewrite Z.eqb_refl in Hread.
    split; [intros ->; by cbn in Hk|]. split; [|by split]. cbn [found_handle]. apply reads_found_derived; try done.
    destruct (derive_answer d c k n a h d' Hok Hrun) as [[Hv <-]|[-> Hlt]]; [by apply found_derived_reads|].
    destruct (own_derived_parts b laws _ Hlt) as (_ & -> & _ & _). lia.
Qed.

Lemma key_words_op op key : op_words op -> op_key op = Some key -> key_words key.
Proof. destruct op; cbn; intros ? [= <-]; cbn; tauto. Qed.

(** Every handle that a script was answered is found at its end. *)
Lemma script_found s outs d d' i op a h key :
  delta_ok b d -> script_words s -> run_script s d = Some (outs, d') ->
  s !! i = Some (op, a) -> outs !! i = Some (success, h) -> op_key op = Some key -> handle_found d' key h.
Proof.
  revert outs d i. induction s as [|[op1 a1] s IH]; intros outs d i Hok Hw Hrun Hi Hout Hkey; [done|].
  inversion Hw as [|? ? Hop Hs]; subst. cbn [fst] in Hop. cbn [run_script] in Hrun.
  apply bind_Some in Hrun as ([[st h1] d1] & Hop1 & Hrun). apply bind_Some in Hrun as ([outs1 d2] & Hrun & Heq). injection Heq as <- <-.
  destruct (run_op_step op1 a1 d Hok Hop) as (st2 & h2 & d3 & Hrun2 & Hok1 & _). rewrite Hop1 in Hrun2. injection Hrun2 as <- <- <-.
  destruct i as [|i]; cbn in Hi, Hout; [|by apply (IH outs1 d1 i)].
  injection Hi as -> ->. injection Hout as -> ->. destruct (script_keeps s outs1 d1 d2 Hok1 Hs Hrun) as [Hk Hok2].
  apply (keeps_found d1 d2); [done|done|done|exact (key_words_op _ key Hop Hkey)|exact (answer_found _ _ d h d1 key Hok Hop Hkey Hop1)].
Qed.
End Refine.

(** ** The view as a baseline *)

(** A read outside the image, which [queries_in_bounds] excludes, counts as no answer. *)
#[export] Instance compiled_baseline : GraphBaseline compiled_view := {|
  baseline_valid := view_valid;
  baseline_type_count := type_count_value;
  baseline_member_count v := section_count (section v sec_members);
  baseline_object_count := object_count_value;
  baseline_object_construction_count v := section_count (section v sec_object_construction);
  baseline_link_count := link_count_value;
  baseline_derived_count v := section_count (section v sec_derived_types);
  baseline_type v t := mjoin (view_type v t);
  baseline_object v o := mjoin (view_object v o);
  baseline_object_value v o := mjoin (view_object_construction v o);
  baseline_link v h := mjoin (view_link v h);
  baseline_type_identity v t := default 0 (view_type_identity v t);
  baseline_object_identity v o := default 0 (view_object_identity v o);
  baseline_find_type v i := default 0 (view_find_type v i);
  baseline_find_object v i := default 0 (view_find_object v i);
  baseline_member v t m := mjoin (view_member v t m);
  baseline_member_value v t m := mjoin (view_member_construction v t m);
  baseline_derived v r := mjoin (view_derived v r);
  baseline_find_derived v c k n := default 0 (view_find_derived v c k n);
  baseline_find_link_target v t := default 0 (view_find_link_target v t)
|}.

Section Image.
Context (v : compiled_view) (Hv : view_ok v).

Lemma join_some {A} (x : option (option A)) a : mjoin x = Some a -> x = Some (Some a).
Proof. by destruct x as [[]|]; [intros [= ->]|..]. Qed.

Lemma type_from_raw_bound raw : 0 <= raw -> 0 <= type_from_raw v raw <= type_count_value v.
Proof. pose proof (ok_type_count v Hv). unfold type_from_raw. destruct (_ && _) eqn:E; unbool; lia. Qed.

Lemma object_from_raw_bound raw : 0 <= raw -> 0 <= object_from_raw v raw <= object_count_value v.
Proof. pose proof (ok_object_count v Hv). unfold object_from_raw. destruct (_ && _) eqn:E; unbool; lia. Qed.

Lemma link_count_bound : 0 <= link_count_value v < 2 ^ 32.
Proof.
  pose proof (ok_link_bound v Hv). rewrite <- (ok_link_count v Hv) in *.
  destruct (ok_section v Hv sec_links) as (? & ? & _ & _ & _ & ? & _). unfold u32_max in *. lia.
Qed.

Lemma link_from_raw_bound raw : 0 <= raw -> 0 <= link_from_raw v raw <= link_count_value v.
Proof. pose proof link_count_bound. unfold link_from_raw. destruct (_ && _) eqn:E; unbool; lia. Qed.

Lemma location_slot_nonneg w : 0 <= graph_location_slot w.
Proof. apply Z.land_nonneg. by right. Qed.

Lemma find_type_bound i t : view_find_type v i = Some t -> 0 <= t <= type_count_value v.
Proof.
  pose proof (ok_type_count v Hv). unfold view_find_type. intros (b & _ & H1)%bind_Some. destruct (_ || _); [simplify_eq; lia|].
  apply bind_Some in H1 as (r & _ & (w & _ & H1)%bind_Some). destruct (negb _); simplify_eq; [lia|].
  apply type_from_raw_bound, location_slot_nonneg.
Qed.

Lemma find_object_bound i o : view_find_object v i = Some o -> 0 <= o <= object_count_value v.
Proof.
  pose proof (ok_object_count v Hv). unfold view_find_object. intros (b & _ & H1)%bind_Some. destruct (_ || _); [simplify_eq; lia|].
  apply bind_Some in H1 as (r & _ & (w & _ & H1)%bind_Some). destruct (negb _); simplify_eq; [lia|].
  apply object_from_raw_bound, location_slot_nonneg.
Qed.

Lemma find_link_target_bound t h : view_find_link_target v t = Some h -> 0 <= h <= link_count_value v.
Proof.
  pose proof link_count_bound. unfold view_find_link_target. destruct (_ || _); [intros [= <-]; lia|].
  intros Hf. destruct (decide (h = 0)) as [->|Hh]; [lia|].
  apply find_in_default_accepted in Hf as (raw & Hraw & Hf); [|done]. cbv zeta in Hf. destruct (_ =? 0); [done|].
  apply bind_Some in Hf as ([r|] & _ & Hf); [|done]. case_bool_decide; simplify_eq. apply link_from_raw_bound. lia.
Qed.

Lemma type_ref_from_raw_word raw : 0 <= raw < 2 ^ 32 -> 0 <= type_ref_from_raw v raw < 2 ^ 32.
Proof. intros Hr. unfold type_ref_from_raw. destruct (_ =? 0); [lia|]. destruct (ref_kind raw); try destruct (_ <? payload raw); lia. Qed.

Lemma type_ref_from_raw_derived raw :
  ref_kind (type_ref_from_raw v raw) = ref_derived -> payload (type_ref_from_raw v raw) <= section_count (section v sec_derived_types).
Proof.
  unfold type_ref_from_raw. destruct (_ =? 0); [done|]. destruct (ref_kind raw) eqn:Ek; [done|..].
  - destruct (_ <? _); [done|]. congruence.
  - destruct (_ <? _); [done|]. congruence.
  - destruct (Z.ltb_spec (section_count (section v sec_derived_types)) (payload raw)); [done|lia].
Qed.

Lemma find_derived_bound c k n r :
  view_find_derived v c k n = Some r -> r <> 0 ->
  0 <= r < 2 ^ 32 /\ ref_kind r = ref_derived /\ payload r <= section_count (section v sec_derived_types).
Proof.
  unfold view_find_derived. destruct (_ || _); [by intros [= <-]|]. intros Hf Hr.
  apply find_in_default_accepted in Hf as (raw & Hraw & Hf); [|done]. cbv zeta in Hf.
  case_bool_decide as Hk; [|done]. apply bind_Some in Hf as ([d|] & _ & Hf); [|done]. case_bool_decide; simplify_eq.
  split; [apply type_ref_from_raw_word; lia|]. split; [done|by apply type_ref_from_raw_derived].
Qed.

(** What an accepted image promises to the delta. *)
Lemma compiled_laws : baseline_laws v.
Proof.
  pose proof (ok_member_count v Hv). pose proof (ok_object_construction v Hv). pose proof (ok_derived_count v Hv).
  assert (forall k, 0 <= section_count (section v k)) as Hnn.
  { intros k. destruct (ok_section v Hv k) as (? & ? & _ & _ & _ & ? & _). lia. }
  split; cbn [compiled_baseline baseline_type_count baseline_member_count baseline_object_count baseline_object_construction_count
    baseline_link_count baseline_derived_count baseline_type baseline_object baseline_object_value baseline_link baseline_find_type
    baseline_find_object baseline_find_link_target baseline_derived baseline_find_derived].
  - apply (ok_type_count v Hv).
  - apply (ok_object_count v Hv).
  - apply link_count_bound.
  - pose proof (Hnn sec_members). lia.
  - pose proof (Hnn sec_object_construction). lia.
  - pose proof (Hnn sec_derived_types). lia.
  - intros o x Ho%join_some. unfold view_object_construction in Ho. apply bind_Some in Ho as ([e|] & -> & Ho); [by eexists|done].
  - intros t e He%join_some. apply (view_type_fields v t e He).
  - intros i. destruct (view_find_type_some v Hv i) as [t Ht]. rewrite Ht. by apply find_type_bound in Ht.
  - intros i. destruct (view_find_object_some v Hv i) as [o Ho]. rewrite Ho. by apply find_object_bound in Ho.
  - intros t. destruct (view_find_link_target_some v Hv t) as [h Hh]. rewrite Hh. by apply find_link_target_bound in Hh.
  - intros t. destruct (view_find_link_target_some v Hv t) as [h Hh]. rewrite Hh. cbn. intros Hnz.
    destruct (find_link_target_sound v t h Hh Hnz) as (r & -> & Hr). by exists r.
  - intros c k n. destruct (view_find_derived_some v Hv c k n) as [r Hr]. rewrite Hr. cbn. intros Hvalid.
    assert (r <> 0) as Hnz by by intros ->. destruct (find_derived_bound c k n r Hr Hnz) as (? & ? & ?).
    split; [done|]. split; [done|]. split; [done|]. by rewrite (find_derived_sound v c k n r Hr Hnz).
Qed.

Lemma compiled_valid : view_valid v = true.
Proof. unfold view_valid. rewrite (ok_bytes v Hv). by apply bool_decide_eq_true_2; eauto. Qed.
End Image.

(** ** Builds over an image *)

(** A delta that is bound to the image, and the calls of a build. *)
Definition run_build (v : compiled_view) (s : list (delta_op * delta_allocations))
  : option (list (server_status * Z) * graph_delta compiled_view) :=
  let '(st, d) := bind_baseline v new_delta in
  if succeeded st then run_script s d else None.

Lemma build_script image v s :
  bind image = Some (image_success, v) -> baseline_laws v /\ delta_ok v (fresh_delta v) /\ run_build v s = run_script s (fresh_delta v).
Proof.
  intros Hv%bound_view_ok. pose proof (compiled_laws v Hv) as Hlaws. split; [done|]. split; [by apply fresh_delta_ok|].
  unfold run_build. by rewrite (bind_fresh v) by by apply compiled_valid.
Qed.

Lemma build_ok image v s outs d :
  bind image = Some (image_success, v) -> script_words s -> run_build v s = Some (outs, d) -> baseline_laws v /\ delta_ok v d.
Proof.
  intros Hv Hs Hb. destruct (build_script image v s Hv) as (Hlaws & Hok & Heq). rewrite Heq in Hb.
  split; [done|]. by apply (script_keeps v Hlaws s outs (fresh_delta v) d).
Qed.

(** ** A build over the sample image *)

(** [struct B { int& x; }; B z; z.x = y.x;] on top of the image, then the calls that retire,
    and those that find what was retired. *)
Definition all_allocated : delta_allocations := DeltaAllocations true true true true.
Definition type_b : identity_ref := make 4 kind_type.
Definition object_z : identity_ref := make 5 kind_object.
Definition int_ref_type : type_ref := make_ref ref_derived 1.
Definition sample_script : list (delta_op * delta_allocations) := (fun op => (op, all_allocated)) <$> [
  op_derive int_type lvalue_reference 0;
  op_declare type_b 1;
  op_define 2 1 [MemberView 2 int_ref_type 1] [];
  op_add_object object_z (make_ref ref_named 2) 0 no_construction;
  op_add_link (ObjectEndpoint 1 0) (ObjectEndpoint 2 0);
  op_retire_type 1;
  op_retire_link 1;
  op_add_link (ObjectEndpoint 1 0) (ObjectEndpoint 2 0);
  op_declare type_a 1;
  op_define 1 1 [MemberView 2 int_type 1] [];
  op_add_link (ObjectEndpoint 1 0) (ObjectEndpoint 2 0);
  op_derive int_type lvalue_reference 0
].

Definition sample_built : option (list (server_status * Z) * graph_delta compiled_view) := Eval vm_compute in run_build sample_view sample_script.
Definition sample_outs : list (server_status * Z) := Eval vm_compute in default [] (fst <$> sample_built).
Definition sample_delta : graph_delta compiled_view := Eval vm_compute in default new_delta (snd <$> sample_built).

Lemma sample_build : run_build sample_view sample_script = Some (sample_outs, sample_delta).
Proof. vm_compute. reflexivity. Qed.

Lemma sample_words : script_words sample_script.
Proof. unfold script_words, sample_script, endpoint_words. repeat constructor; vm_compute; intuition congruence. Qed.

(** ** The claims *)

(** C27: A build over any accepted image, with any calls in any order and any allocations
    that fail, runs to its end; the project that the delta then stands for is the image's
    with the effects of the calls that succeeded and of no other, and each of those answered
    the handle of its identity, of its link target or of the next slot. *)
Theorem delta_refines (image : list byte) (v : compiled_view) (s : list (delta_op * delta_allocations)) :
  bind image = Some (image_success, v) -> script_words s ->
  exists outs d, run_build v s = Some (outs, d) /\ length outs = length s /\
    project_eq (project_of d) (replay s outs (image_project v)) /\ handles_right s outs (image_project v).
Proof.
  intros Hv Hs. destruct (build_script image v s Hv) as (Hlaws & Hok & ->).
  destruct (run_script_refines v Hlaws s (fresh_delta v) (image_project v) Hok Hs (fresh_project v Hlaws))
    as (outs & d & Hrun & _ & Hl & Hp & Hh). by exists outs, d.
Qed.

Lemma delta_refines_witness :
  exists outs d, run_build sample_view sample_script = Some (outs, d) /\ length outs = length sample_script /\
    project_eq (project_of d) (replay sample_script outs (image_project sample_view)) /\
    handles_right sample_script outs (image_project sample_view).
Proof. apply (delta_refines sample_image); [apply sample_bound|apply sample_words]. Defined.

(** After any build the counters of live types, objects and links are the numbers of
    slots that the delta says are there. *)
Theorem delta_counts (image : list byte) (v : compiled_view) (s : list (delta_op * delta_allocations)) outs d :
  bind image = Some (image_success, v) -> script_words s -> run_build v s = Some (outs, d) ->
  live_count (type_part d) = number_live (delta_contains_type d) (Z.to_nat (slot_count (type_part d))) /\
  live_count (object_part d) = number_live (delta_contains_object d) (Z.to_nat (slot_count (object_part d))) /\
  live_count (link_part d) = number_live (delta_contains_link d) (Z.to_nat (slot_count (link_part d))).
Proof.
  intros Hv Hs Hb. destruct (build_ok image v s outs d Hv Hs Hb) as [_ Hok].
  destruct (ok_types v d Hok) as ([_ _ Ht] & _), (ok_objects v d Hok) as ([_ _ Ho] & _), (ok_links v d Hok) as ([_ _ Hl] & _).
  by split_and!.
Qed.

Lemma delta_counts_witness : live_count (type_part sample_delta) = 2 /\ number_live (delta_contains_type sample_delta) 2 = 2.
Proof.
  pose proof (delta_counts sample_image sample_view sample_script sample_outs sample_delta sample_bound sample_words sample_build) as [H _].
  assert (live_count (type_part sample_delta) = 2) as H2 by (vm_compute; reflexivity). split; [exact H2|]. rewrite H2 in H.
  symmetry. exact H.
Defined.

(** C28: Every handle that a call of a build answered is what the lookup of its identity, its
    link target or its derived type answers when the build is over, whatever was retired,
    revived or appended since; a derived type reads back from it as it was asked for. *)
Theorem answered_handles_found (image : list byte) (v : compiled_view) (s : list (delta_op * delta_allocations)) outs d i op a h key :
  bind image = Some (image_success, v) -> script_words s -> run_build v s = Some (outs, d) ->
  s !! i = Some (op, a) -> outs !! i = Some (success, h) -> op_key op = Some key -> handle_found d key h.
Proof.
  intros Hv Hs Hb. destruct (build_script image v s Hv) as (Hlaws & Hok & Heq). rewrite Heq in Hb.
  by apply (script_found v Hlaws s outs (fresh_delta v) d i).
Qed.

Lemma answered_handles_found_witness :
  handle_found sample_delta (key_derived int_type lvalue_reference 0) int_ref_type /\
  handle_found sample_delta (key_link (ObjectEndpoint 2 0)) 1.
Proof.
  split.
  - apply (answered_handles_found sample_image sample_view sample_script sample_outs sample_delta 0
      (op_derive int_type lvalue_reference 0) all_allocated); [apply sample_bound|apply sample_words|apply sample_build|reflexivity..].
  - apply (answered_handles_found sample_image sample_view sample_script sample_outs sample_delta 4
      (op_add_link (ObjectEndpoint 1 0) (ObjectEndpoint 2 0)) all_allocated); [apply sample_bound|apply sample_words|apply sample_build|reflexivity..].
Defined.

(** The image's own index of link targets answers each of its links, as the writer of the
    image makes it. *)
Definition link_index_complete (v : compiled_view) : Prop :=
  forall l r, 1 <= l <= link_count_value v -> view_link v l = Some (Some r) ->
    endpoint_words (link_target r) /\ view_find_link_target v (link_target r) = Some l.

(** C29: After any build over an image whose index of link targets is complete, no two live
    links have the same target, and a live link is found by its target. *)
Theorem delta_link_unique (image : list byte) (v : compiled_view) (s : list (delta_op * delta_allocations)) outs d h h' x x' :
  bind image = Some (image_success, v) -> link_index_complete v -> script_words s -> run_build v s = Some (outs, d) ->
  0 <= h -> 0 <= h' -> delta_link d h = Some x -> delta_link d h' = Some x' -> link_target x = link_target x' ->
  h = h' /\ lineage_link_target d (link_target x) = h.
Proof.
  intros Hv Hc Hs Hb H0 H0' Hx Hx' Heq. destruct (build_ok image v s outs d Hv Hs Hb) as [Hlaws Hok].
  assert (forall h x, 0 <= h -> delta_link d h = Some x -> lineage_link_target d (link_target x) = h) as Hfound.
  { intros h1 x1 H1 Hx1. apply (link_of_its_target v Hlaws d h1 x1 Hok H1).
    - intros l r Hl Hr%join_some. destruct (Hc l r Hl Hr) as [Hw Hf]. split; [done|]. cbn. by rewrite Hf.
    - cbn [project_of p_link]. unfold delta_contains_link. destruct (contains_slot (link_part d) h1) eqn:Hcs; [by rewrite Hx1|].
      unfold delta_link, slot_value in Hx1. by rewrite Hcs in Hx1. }
  split; [|by apply Hfound]. rewrite <- (Hfound h x), <- (Hfound h' x') by done. by rewrite Heq.
Qed.

Lemma delta_link_unique_witness : lineage_link_target sample_delta (ObjectEndpoint 2 0) = 1.
Proof.
  assert (link_index_complete sample_view) as Hc.
  { intros l r Hl. exfalso. assert (link_count_value sample_view = 0) as Hz by (vm_compute; reflexivity). rewrite Hz in Hl. lia. }
  exact (proj2 (delta_link_unique sample_image sample_view sample_script sample_outs sample_delta 1 1
    (LinkRecord (ObjectEndpoint 1 0) (ObjectEndpoint 2 0)) (LinkRecord (ObjectEndpoint 1 0) (ObjectEndpoint 2 0))
    sample_bound Hc sample_words sample_build ltac:(lia) ltac:(lia) ltac:(vm_compute; reflexivity) ltac:(vm_compute; reflexivity) eq_refl)).
Defined.

(** What the calls of the sample answered: the link cannot be made while the type of its
    source is retired; afterwards it, the type and the reference have their handles again. *)
Example sample_answers :
  sample_outs = [(success, int_ref_type); (success, 2); (success, 0); (success, 2); (success, 1); (success, 0); (success, 0);
    (project_configuration_invalid, 0); (success, 1); (success, 0); (success, 1); (success, int_ref_type)].
Proof. vm_compute. reflexivity. Qed.
