(* ===== verification/ProjectView.v ===== *)
(** What the runtime asks of a bound project image, as an interface: the counts and the
    records of types, bases, members, derived types and objects.  It is implemented by
    the view over a compiled image and by the semantic graph itself, whose records the
    image stores. *)

From S2P Require Import Prelude Identity DenseIndex GraphData GraphGrowth GraphTypes GraphRecords Graph ImageBytes CompiledView.

Local Open Scope Z_scope.

(** [None] is the return of [false]. *)
Class ProjectView (V : Type) := {
  project_valid : V -> bool;
  type_count : V -> Z;
  member_count : V -> Z;
  base_count : V -> Z;
  derived_type_count : V -> Z;
  object_count : V -> Z;
  project_type : V -> type_handle -> option type_view;
  project_base_at : V -> Z -> option base_view;
  project_member_at : V -> Z -> option member_view;
  project_derived : V -> type_ref -> option derived_type_record;
  project_object : V -> object_handle -> option object_entry
}.

(** [type_at] and [object_at]. *)
Definition project_type_at `{ProjectView V} (v : V) (index : Z) : type_handle :=
  if index <? type_count v then u32 (index + 1) else 0.
Definition project_object_at `{ProjectView V} (v : V) (index : Z) : object_handle :=
  if index <? object_count v then u32 (index + 1) else 0.

(** What the runtime relies on of a view: counts fit the handles, words are unsigned, members lie in their array, and the members of two
    types, and their bases, are disjoint ranges. *)
Record project_laws `{ProjectView V} (v : V) : Prop := ProjectLaws {
  type_count_range : 0 <= type_count v <= maximum_handle;
  member_count_range : 0 <= member_count v;
  base_count_range : 0 <= base_count v;
  derived_type_count_range : 0 <= derived_type_count v <= maximum_payload;
  object_count_range : 0 <= object_count v <= maximum_handle;
  payloads_unsigned r d : project_derived v r = Some d -> 0 <= derived_payload d;
  member_index_bound i m : project_member_at v i = Some m -> i < member_count v;
  base_handles_unsigned i b : project_base_at v i = Some b -> 0 <= bv_type b;
  type_ranges t e :
    project_type v t = Some e -> tv_defined e = true ->
    0 <= range_begin (tv_members e) /\ 0 <= range_count (tv_members e) /\
    0 <= range_begin (tv_bases e) /\ 0 <= range_count (tv_bases e);
  ranges_disjoint t t' e e' :
    project_type v t = Some e -> project_type v t' = Some e' -> 1 <= t -> 1 <= t' -> t <> t' ->
    tv_defined e = true -> tv_defined e' = true ->
    ranges_apart (tv_members e) (tv_members e') /\ ranges_apart (tv_bases e) (tv_bases e')
}.

(** ** The view over an image *)

#[export] Instance compiled_project_view : ProjectView compiled_view := {
  project_valid := view_valid;
  type_count := type_count_value;
  member_count v := section_count (section v sec_members);
  base_count v := section_count (section v sec_bases);
  derived_type_count v := section_count (section v sec_derived_types);
  object_count := object_count_value;
  project_type v t := mjoin (view_type v t);
  project_base_at v i := mjoin (view_base_at v i);
  project_member_at v i := mjoin (view_member_at v i);
  project_derived v r := mjoin (view_derived v r);
  project_object v o := mjoin (view_object v o)
}.

(** ** The semantic graph *)

Definition record_kind_number (k : graph_record_kind) : Z :=
  match k with struct_type => 1 | class_type => 2 | union_type => 3 end.
Definition member_access_number (a : graph_member_access) : Z :=
  match a with public_access => 1 | protected_access => 2 | private_access => 3 end.

#[export] Instance graph_view : ProjectView graph := {
  project_valid _ := true;
  type_count g := count (types g);
  member_count g := count (member_records g);
  base_count g := count (base_records g);
  derived_type_count g := count (derived_types g);
  object_count g := count (objects g);
  project_type g t :=
    (fun e => TypeView (entry_members e) (entry_bases e) 1 (record_kind_number (record_kind e)) (entry_flags e))
      <$> find_entry g t;
  project_base_at g i :=
    (fun b => BaseView (base_type b) (member_access_number (base_access b)) (base_flags b))
      <$> base_records g !! Z.to_nat i;
  project_member_at g i :=
    (fun m => MemberView (member_name m) (member_type m) (member_access_number (member_access m)))
      <$> member_records g !! Z.to_nat i;
  project_derived := derived;
  project_object := find_object_entry
}.

Lemma derived_count_bound (g : graph) : derived_ok g -> count (derived_types g) <= maximum_payload.
Proof.
  intros Hd. pose proof (dense_limit _ _ _ _ _ _ _ _ _ (derived_indexed g Hd)) as Hl.
  rewrite length_fmap in Hl. unfold count. destruct (length (derived_types g)) as [|n]; [done|].
  pose proof (derived_limit_spec n Hl). lia.
Qed.

(** A graph that a program can build satisfies the laws. *)
Lemma graph_project_laws (g : graph) : graph_ok g -> graph_words g -> project_laws g.
Proof.
  intros [Hd Hr Ho _ _ _] [Hpw Hbw]. split; cbn [type_count member_count base_count derived_type_count object_count graph_view].
  - split; [apply count_at_least|apply (types_bound g Hr)].
  - apply count_at_least.
  - apply count_at_least.
  - split; [apply count_at_least|by apply derived_count_bound].
  - split; [apply count_at_least|apply (objects_bound g Ho)].
  - intros r d Hr'. cbn in Hr'. unfold derived in Hr'. rewrite Forall_lookup in Hpw.
    destruct (_ || _) in Hr'; [done|]. by eapply Hpw.
  - intros i m (m0 & Hm & ->)%fmap_Some. apply lookup_lt_Some in Hm. unfold count. lia.
  - intros i b (b0 & Hb & ->)%fmap_Some. rewrite Forall_lookup in Hbw. by apply (Hbw _ _ Hb).
  - intros t e (e0 & He & ->)%fmap_Some Hdef. unfold find_entry in He. destruct (contains_type g t); [|done].
    destruct (entries_ok g Hr _ _ He Hdef) as [Hm Hb _ _]. cbn. lia.
  - intros t t' e e' (e0 & He & ->)%fmap_Some (e0' & He' & ->)%fmap_Some Ht Ht' Hne Hdef Hdef'.
    unfold find_entry, contains_type in He, He'.
    destruct (negb (t =? 0) && _) eqn:Et; [|done]. destruct (negb (t' =? 0) && _) eqn:Et'; [|done]. unbool.
    unfold at_handle in He, He'. cbn. apply (definitions_apart g Hr _ _ _ _ He He'); [|done..].
    lia.
Qed.
