(* ===== verification/RuntimeLayout.v ===== *)
(** The ABI-derived layout of a project (project/runtime/runtime_layout.hpp and .cpp,
    project/abi/abi_layout.hpp and .cpp): sizes, alignments and offsets of every type the
    objects reach, and the place of every object in shared memory.  The builder is a
    state transformer over the layout; the project is seen through [ProjectView]. *)

From S2P Require Import Prelude Identity GraphData GraphTypes CompiledView ProjectView.

Local Open Scope Z_scope.

(** ** The ABI (abi_layout.hpp, server_configuration.hpp) *)

Inductive abi_target := windows_x64 | posix_x64 | windows_x86.

#[export] Instance abi_target_eq_dec : EqDecision abi_target.
Proof. solve_decision. Defined.

Record server_abi_configuration := AbiConfiguration { abi_target_value : abi_target; abi_pack : Z }.

Record abi_properties := AbiProperties {
  pointer_size : Z;
  pointer_alignment : Z;
  reference_size : Z;
  reference_alignment : Z
}.

(** Every enumerator has properties; the fall-through of the switch is for other bytes. *)
Definition abi_layout_properties (t : abi_target) : abi_properties :=
  match t with
  | windows_x86 => AbiProperties 4 4 4 4
  | windows_x64 | posix_x64 => AbiProperties 8 8 8 8
  end.

Definition valid_abi_layout_key (abi : server_abi_configuration) : bool :=
  existsb (Z.eqb (abi_pack abi)) [1; 2; 4; 8; 16].

(** A key of two fields, as [server_abi_configuration] has them ([make_abi_layout_key]). *)
Definition abi_layout_compatible (key configuration : server_abi_configuration) : bool :=
  valid_abi_layout_key key && bool_decide (abi_target_value key = abi_target_value configuration) &&
  (abi_pack key =? abi_pack configuration).

Definition is_windows (t : abi_target) : bool := bool_decide (t = windows_x86) || bool_decide (t = windows_x64).

(** ** Values and results *)

Inductive runtime_layout_result :=
| layout_success | layout_invalid_input | layout_unsupported_type | layout_overflow | layout_failed.

#[export] Instance runtime_layout_result_eq_dec : EqDecision runtime_layout_result.
Proof. solve_decision. Defined.

Record runtime_value_layout := ValueLayout { value_size : Z; value_alignment : Z }.

#[export] Instance runtime_value_layout_eq_dec : EqDecision runtime_value_layout.
Proof. solve_decision. Defined.

Definition no_value : runtime_value_layout := ValueLayout 0 0.

Definition invalid_offset : Z := size_max.
Definition pending_offset : Z := invalid_offset - 1.
Definition invalid_record_offset : Z := u32_max.

Definition align_up (value alignment : Z) : option Z :=
  if (alignment =? 0) || negb (Z.land alignment (alignment - 1) =? 0) then None
  else
    let mask := alignment - 1 in
    if size_max - mask <? value then None
    else Some (Z.land (value + mask) (Z.lnot mask)).

(** A success with its value, or the result that is not one. *)
Definition intrinsic_layout (t : intrinsic_type) (target : abi_target)
  : runtime_layout_result + runtime_value_layout :=
  let properties := abi_layout_properties target in
  let windows := is_windows target in
  match t with
  | bool_type | char_type | signed_char | unsigned_char | char8_type => inr (ValueLayout 1 1)
  | wchar_type => inr (if windows then ValueLayout 2 2 else ValueLayout 4 4)
  | char16_type | signed_short | unsigned_short => inr (ValueLayout 2 2)
  | char32_type | signed_int | unsigned_int | float_type => inr (ValueLayout 4 4)
  | signed_long | unsigned_long => inr (if windows then ValueLayout 4 4 else ValueLayout 8 8)
  | signed_long_long | unsigned_long_long | double_type => inr (ValueLayout 8 8)
  | nullptr_type => inr (ValueLayout (pointer_size properties) (pointer_alignment properties))
  | long_double_type => inr (if windows then ValueLayout 8 8 else ValueLayout 16 16)
  | void_type => inl layout_unsupported_type
  | ty_none => inl layout_invalid_input
  end.

(** ** The layout and its builder *)

Inductive slot_state := slot_empty | slot_visiting | slot_ready.

#[export] Instance slot_state_eq_dec : EqDecision slot_state.
Proof. solve_decision. Defined.

Record layout_slot := LayoutSlot {
  slot_size : Z;
  slot_alignment : Z;
  slot_status : slot_state;
  empty_record : bool
}.

Definition new_slot : layout_slot := LayoutSlot 0 0 slot_empty false.

Record runtime_layout := RuntimeLayout {
  type_slots : list layout_slot;
  derived_slots : list layout_slot;
  member_offsets : list Z;
  base_offsets : list Z;
  object_offsets : list Z;
  unconnected_intrinsic_offsets : list Z;
  unconnected_type_offsets : list Z;
  unconnected_derived_offsets : list Z;
  unconnected_types : list type_ref;
  target_value : abi_target;
  size_value : Z;
  alignment_value : Z;
  prepared_value : bool
}.

(** [reset]. *)
Definition reset_layout : runtime_layout :=
  RuntimeLayout [] [] [] [] [] (replicate 22 invalid_offset) [] [] [] windows_x64 0 1 false.

Record builder := Builder {
  output : runtime_layout;
  base_marks : list Z;
  base_mark_generation : Z
}.

(** A step of the builder: [None] is an access out of bounds or a recursion without end;
    [inl] is the result of a step that failed. *)
Definition step (A : Type) : Type := builder -> option ((runtime_layout_result + A) * builder).

Definition ret {A} (a : A) : step A := fun s => Some (inr a, s).
Definition fail {A} (r : runtime_layout_result) : step A := fun s => Some (inl r, s).
Definition bind_step {A B} (m : step A) (f : A -> step B) : step B := fun s =>
  match m s with
  | None => None
  | Some (inl r, s) => Some (inl r, s)
  | Some (inr a, s) => f a s
  end.
Definition modify (f : builder -> builder) : step unit := fun s => Some (inr tt, f s).
Definition read_state {A} (f : builder -> A) : step A := fun s => Some (inr (f s), s).

Declare Scope step_scope.
Delimit Scope step_scope with step.
Notation "'let!' x := m 'in' k" := (bind_step m (fun x => k)) (at level 10, x binder, k at level 200) : step_scope.
Notation "'do!' m 'in' k" := (bind_step m (fun _ => k)) (at level 10, k at level 200) : step_scope.

Local Open Scope step_scope.

Definition require (b : bool) (r : runtime_layout_result) : step unit := if b then ret tt else fail r.
(** A value that is there, or the result of the missing one. *)
Definition expect {A} (o : option A) (r : runtime_layout_result) : step A :=
  match o with Some a => ret a | None => fail r end.
(** An element of a vector; out of bounds there is none. *)
Definition element {A} (f : builder -> list A) (index : Z) : step A := fun s =>
  if index <? 0 then None
  else match f s !! Z.to_nat index with Some a => Some (inr a, s) | None => None end.
(** A step after whose failure the state is repaired. *)
Definition on_failure {A} (m : step A) (repair : builder -> builder) : step A := fun s =>
  match m s with
  | Some (inl r, s) => Some (inl r, repair s)
  | other => other
  end.

Definition update_output (f : runtime_layout -> runtime_layout) (s : builder) : builder :=
  Builder (f (output s)) (base_marks s) (base_mark_generation s).

Definition with_type_slots v (l : runtime_layout) : runtime_layout :=
  RuntimeLayout v (derived_slots l) (member_offsets l) (base_offsets l) (object_offsets l)
    (unconnected_intrinsic_offsets l) (unconnected_type_offsets l) (unconnected_derived_offsets l)
    (unconnected_types l) (target_value l) (size_value l) (alignment_value l) (prepared_value l).
Definition with_derived_slots v (l : runtime_layout) : runtime_layout :=
  RuntimeLayout (type_slots l) v (member_offsets l) (base_offsets l) (object_offsets l)
    (unconnected_intrinsic_offsets l) (unconnected_type_offsets l) (unconnected_derived_offsets l)
    (unconnected_types l) (target_value l) (size_value l) (alignment_value l) (prepared_value l).
Definition with_member_offsets v (l : runtime_layout) : runtime_layout :=
  RuntimeLayout (type_slots l) (derived_slots l) v (base_offsets l) (object_offsets l)
    (unconnected_intrinsic_offsets l) (unconnected_type_offsets l) (unconnected_derived_offsets l)
    (unconnected_types l) (target_value l) (size_value l) (alignment_value l) (prepared_value l).
Definition with_base_offsets v (l : runtime_layout) : runtime_layout :=
  RuntimeLayout (type_slots l) (derived_slots l) (member_offsets l) v (object_offsets l)
    (unconnected_intrinsic_offsets l) (unconnected_type_offsets l) (unconnected_derived_offsets l)
    (unconnected_types l) (target_value l) (size_value l) (alignment_value l) (prepared_value l).
Definition with_object_offsets v (l : runtime_layout) : runtime_layout :=
  RuntimeLayout (type_slots l) (derived_slots l) (member_offsets l) (base_offsets l) v
    (unconnected_intrinsic_offsets l) (unconnected_type_offsets l) (unconnected_derived_offsets l)
    (unconnected_types l) (target_value l) (size_value l) (alignment_value l) (prepared_value l).
Definition with_unconnected i t d us (l : runtime_layout) : runtime_layout :=
  RuntimeLayout (type_slots l) (derived_slots l) (member_offsets l) (base_offsets l) (object_offsets l)
    i t d us (target_value l) (size_value l) (alignment_value l) (prepared_value l).
Definition with_size size alignment (l : runtime_layout) : runtime_layout :=
  RuntimeLayout (type_slots l) (derived_slots l) (member_offsets l) (base_offsets l) (object_offsets l)
    (unconnected_intrinsic_offsets l) (unconnected_type_offsets l) (unconnected_derived_offsets l)
    (unconnected_types l) (target_value l) size alignment (prepared_value l).
Definition with_prepared (l : runtime_layout) : runtime_layout :=
  RuntimeLayout (type_slots l) (derived_slots l) (member_offsets l) (base_offsets l) (object_offsets l)
    (unconnected_intrinsic_offsets l) (unconnected_type_offsets l) (unconnected_derived_offsets l)
    (unconnected_types l) (target_value l) (size_value l) (alignment_value l) true.

Definition set_type_slot (t : type_handle) (v : layout_slot) : builder -> builder :=
  update_output (fun l => with_type_slots (<[Z.to_nat (t - 1) := v]> (type_slots l)) l).
Definition set_derived_slot (r : type_ref) (v : layout_slot) : builder -> builder :=
  update_output (fun l => with_derived_slots (<[Z.to_nat (payload r - 1) := v]> (derived_slots l)) l).
Definition set_member_offset (i offset : Z) : builder -> builder :=
  update_output (fun l => with_member_offsets (<[Z.to_nat i := offset]> (member_offsets l)) l).
Definition set_base_offset (i offset : Z) : builder -> builder :=
  update_output (fun l => with_base_offsets (<[Z.to_nat i := offset]> (base_offsets l)) l).
Definition set_object_offset (i offset : Z) : builder -> builder :=
  update_output (fun l => with_object_offsets (<[Z.to_nat i := offset]> (object_offsets l)) l).

Definition slot_value (s : layout_slot) : runtime_value_layout := ValueLayout (slot_size s) (slot_alignment s).

(** A reference into one of the three vectors of unconnected offsets; [None] is the
    return of [invalid_input]. *)
Inductive unconnected_place := place_intrinsic (i : nat) | place_type (i : nat) | place_derived (i : nat).

Definition unconnected_place_of (l : runtime_layout) (r : type_ref) : option unconnected_place :=
  match ref_kind r with
  | ref_intrinsic =>
      if Z.of_nat (length (unconnected_intrinsic_offsets l)) <=? payload r then None
      else Some (place_intrinsic (Z.to_nat (payload r)))
  | ref_named =>
      if (payload r =? 0) || (Z.of_nat (length (unconnected_type_offsets l)) <? payload r) then None
      else Some (place_type (Z.to_nat (payload r - 1)))
  | ref_derived =>
      if (payload r =? 0) || (Z.of_nat (length (unconnected_derived_offsets l)) <? payload r) then None
      else Some (place_derived (Z.to_nat (payload r - 1)))
  | ref_invalid => None
  end.

Definition get_unconnected (l : runtime_layout) (p : unconnected_place) : option Z :=
  match p with
  | place_intrinsic i => unconnected_intrinsic_offsets l !! i
  | place_type i => unconnected_type_offsets l !! i
  | place_derived i => unconnected_derived_offsets l !! i
  end.

Definition set_unconnected (p : unconnected_place) (offset : Z) (l : runtime_layout) : runtime_layout :=
  let i := unconnected_intrinsic_offsets l in
  let t := unconnected_type_offsets l in
  let d := unconnected_derived_offsets l in
  match p with
  | place_intrinsic n => with_unconnected (<[n := offset]> i) t d (unconnected_types l) l
  | place_type n => with_unconnected i (<[n := offset]> t) d (unconnected_types l) l
  | place_derived n => with_unconnected i t (<[n := offset]> d) (unconnected_types l) l
  end.

Definition push_unconnected (r : type_ref) (l : runtime_layout) : runtime_layout :=
  with_unconnected (unconnected_intrinsic_offsets l) (unconnected_type_offsets l)
    (unconnected_derived_offsets l) (unconnected_types l ++ [r]) l.

(** ** The builder *)

Section Builder.
Context `{ProjectView V} (project : V) (abi : server_abi_configuration).
(** Whether the vector of marks, and the worklist at a given length, can be allocated. *)
Context (marks_allocated : bool) (worklist_allocated : nat -> bool).

Definition require_unconnected (r : type_ref) : step unit :=
  if negb (ref_valid r) then fail layout_invalid_input
  else
    let! l := read_state output in
    let! p := expect (unconnected_place_of l r) layout_invalid_input in
    match get_unconnected l p with
    | None => fun _ => None
    | Some offset =>
        if negb (offset =? invalid_offset) then ret tt
        else if worklist_allocated (length (unconnected_types l))
        then modify (update_output (fun l => push_unconnected r (set_unconnected p pending_offset l)))
        else fail layout_failed
    end.

Definition store_unconnected_offset (r : type_ref) (value : Z) : step unit :=
  let! l := read_state output in
  let! p := expect (unconnected_place_of l r) layout_invalid_input in
  match get_unconnected l p with
  | None => fun _ => None
  | Some offset =>
      if negb (offset =? pending_offset) || (pending_offset <=? value) then fail layout_invalid_input
      else modify (update_output (set_unconnected p value))
  end.

Definition bv_virtual (b : base_view) : bool := negb (Z.land (bv_flags b) graph_base_flag_mask =? 0).

(** The marks of one record with several bases: their vector on first use, and a new
    generation; its number is the result. *)
Definition next_generation : step Z :=
  let! slots := read_state (fun s => length (type_slots (output s))) in
  let! marks := read_state (fun s => length (base_marks s)) in
  do! (if (marks =? slots)%nat then ret tt
       else if marks_allocated then modify (fun s => Builder (output s) (replicate slots 0) 0)
       else fail layout_failed) in
  do! modify (fun s =>
    let generation := u32 (base_mark_generation s + 1) in
    if generation =? 0 then Builder (output s) (replicate (length (base_marks s)) 0) 1
    else Builder (output s) (base_marks s) generation) in
  read_state base_mark_generation.

Fixpoint mark_bases (begin local : Z) (n : nat) (base_mark : Z) : step unit :=
  match n with
  | O => ret tt
  | S n =>
      let! base := expect (project_base_at project (begin + local)) layout_invalid_input in
      let! slots := read_state (fun s => Z.of_nat (length (type_slots (output s)))) in
      do! require (negb (bv_type base =? 0) && (bv_type base <=? slots)) layout_invalid_input in
      do! require (negb (bv_virtual base)) layout_unsupported_type in
      let! mark := element base_marks (bv_type base - 1) in
      do! require (negb (mark =? base_mark)) layout_invalid_input in
      do! modify (fun s =>
        Builder (output s) (<[Z.to_nat (bv_type base - 1) := base_mark]> (base_marks s)) (base_mark_generation s)) in
      mark_bases begin (local + 1) n base_mark
  end.

Definition effective_alignment (v : runtime_value_layout) : Z := Z.min (value_alignment v) (abi_pack abi).

Definition entry_is_record (t : type_view) : bool := tv_kind t =? 1.
Definition entry_is_union (t : type_view) : bool := tv_record_kind t =? record_kind_number union_type.

(** The pass over the bases: the first polymorphic one and the alignment. *)
Fixpoint visit_bases (resolve_record : type_handle -> step runtime_value_layout) (begin local : Z) (n : nat)
    (primary : option Z) (alignment : Z) : step (option Z * Z) :=
  match n with
  | O => ret (primary, alignment)
  | S n =>
      let! offset := element (fun s => base_offsets (output s)) (begin + local) in
      do! require (offset =? invalid_record_offset) layout_invalid_input in
      let! base := expect (project_base_at project (begin + local)) layout_invalid_input in
      do! require (negb (bv_virtual base)) layout_unsupported_type in
      let! slots := read_state (fun s => Z.of_nat (length (type_slots (output s)))) in
      do! require (negb (bv_type base =? 0) && (bv_type base <=? slots)) layout_invalid_input in
      let! value := resolve_record (bv_type base) in
      let! slot := element (fun s => type_slots (output s)) (bv_type base - 1) in
      do! require (negb (empty_record slot)) layout_unsupported_type in
      do! require (negb (effective_alignment value =? 0)) layout_invalid_input in
      let! entry := expect (project_type project (bv_type base)) layout_invalid_input in
      do! require (tv_defined entry && entry_is_record entry && negb (entry_is_union entry))
        layout_invalid_input in
      visit_bases resolve_record begin (local + 1) n
        (if tv_polymorphic entry && bool_decide (primary = None) then Some local else primary)
        (Z.max alignment (effective_alignment value))
  end.

(** The pass over the members: the alignment. *)
Fixpoint visit_members (resolve : type_ref -> step runtime_value_layout) (begin local : Z) (n : nat)
    (alignment : Z) : step Z :=
  match n with
  | O => ret alignment
  | S n =>
      let! offsets := read_state (fun s => member_offsets (output s)) in
      do! require (begin + local <? Z.of_nat (length offsets)) layout_invalid_input in
      let! offset := element (fun s => member_offsets (output s)) (begin + local) in
      do! require (offset =? invalid_record_offset) layout_invalid_input in
      let! member := expect (project_member_at project (begin + local)) layout_invalid_input in
      let! value := resolve (mv_type member) in
      do! require (negb (effective_alignment value =? 0)) layout_invalid_input in
      visit_members resolve begin (local + 1) n (Z.max alignment (effective_alignment value))
  end.

(** The lambda [place_base]: the cursor after the base. *)
Definition place_base (resolve_record : type_handle -> step runtime_value_layout) (begin count local cursor : Z)
  : step Z :=
  do! require (local <? count) layout_invalid_input in
  let! offset := element (fun s => base_offsets (output s)) (begin + local) in
  do! require (offset =? invalid_record_offset) layout_invalid_input in
  let! base := expect (project_base_at project (begin + local)) layout_invalid_input in
  do! require (negb (bv_virtual base)) layout_unsupported_type in
  let! value := resolve_record (bv_type base) in
  let! aligned := expect (align_up cursor (effective_alignment value)) layout_overflow in
  do! require (aligned <? invalid_record_offset) layout_overflow in
  do! modify (set_base_offset (begin + local) aligned) in
  expect (add_u64 aligned (value_size value)) layout_overflow.

(** The loops that place the other bases of a record with a primary base: those whose
    type is polymorphic, or those whose type is not. *)
Fixpoint place_bases_of (resolve_record : type_handle -> step runtime_value_layout) (begin count : Z)
    (primary : Z) (polymorphic : bool) (local : Z) (n : nat) (cursor : Z) : step Z :=
  match n with
  | O => ret cursor
  | S n =>
      if (local =? primary) && polymorphic
      then place_bases_of resolve_record begin count primary polymorphic (local + 1) n cursor
      else
        let! base := expect (project_base_at project (begin + local)) layout_invalid_input in
        let! entry := expect (project_type project (bv_type base)) layout_invalid_input in
        do! require (tv_defined entry) layout_invalid_input in
        let! cursor :=
          (if Bool.eqb (tv_polymorphic entry) polymorphic
           then place_base resolve_record begin count local cursor else ret cursor) in
        place_bases_of resolve_record begin count primary polymorphic (local + 1) n cursor
  end.

(** The loop that places the bases of a record without a primary base. *)
Fixpoint place_bases (resolve_record : type_handle -> step runtime_value_layout) (begin count local : Z)
    (n : nat) (cursor : Z) : step Z :=
  match n with
  | O => ret cursor
  | S n =>
      let! cursor := place_base resolve_record begin count local cursor in
      place_bases resolve_record begin count (local + 1) n cursor
  end.

(** The loop that places the members of a record with bases or a table pointer. *)
Fixpoint place_members (resolve : type_ref -> step runtime_value_layout) (begin local : Z) (n : nat)
    (cursor : Z) : step Z :=
  match n with
  | O => ret cursor
  | S n =>
      let! member := expect (project_member_at project (begin + local)) layout_invalid_input in
      let! value := resolve (mv_type member) in
      let! aligned := expect (align_up cursor (effective_alignment value)) layout_overflow in
      do! require (aligned <? invalid_record_offset) layout_overflow in
      do! modify (set_member_offset (begin + local) aligned) in
      let! cursor := expect (add_u64 aligned (value_size value)) layout_overflow in
      place_members resolve begin (local + 1) n cursor
  end.

(** The cursor behind the bases. *)
Definition place_all_bases (resolve_record : type_handle -> step runtime_value_layout) (entry : type_view)
    (primary : option Z) (own_vfptr : bool) (alignment : Z) : step Z :=
  let begin := range_begin (tv_bases entry) in
  let count := range_count (tv_bases entry) in
  match primary with
  | Some primary =>
      let! base := expect (project_base_at project (begin + primary)) layout_invalid_input in
      do! require (negb (bv_virtual base)) layout_unsupported_type in
      let! value := resolve_record (bv_type base) in
      let! offset := element (fun s => base_offsets (output s)) (begin + primary) in
      do! require (offset =? invalid_record_offset) layout_invalid_input in
      do! modify (set_base_offset (begin + primary) 0) in
      let! cursor :=
        place_bases_of resolve_record begin count primary true 0 (Z.to_nat count) (value_size value) in
      place_bases_of resolve_record begin count primary false 0 (Z.to_nat count) cursor
  | None =>
      let! cursor :=
        (if own_vfptr
         then expect (align_up (pointer_size (abi_layout_properties (abi_target_value abi))) alignment)
                layout_overflow
         else ret 0) in
      place_bases resolve_record begin count 0 (Z.to_nat count) cursor
  end.

(** The end of both record layouts: the size is rounded up and the slot is ready. *)
Definition finish_record (t : type_handle) (raw_size alignment : Z) (empty : bool) : step runtime_value_layout :=
  let! size := expect (align_up (if raw_size =? 0 then 1 else raw_size) alignment) layout_overflow in
  do! require (size <=? u32_max) layout_overflow in
  do! modify (set_type_slot t (LayoutSlot size alignment slot_ready empty)) in
  ret (ValueLayout size alignment).

Definition resolve_windows_class_record (resolve : type_ref -> step runtime_value_layout)
    (resolve_record : type_handle -> step runtime_value_layout) (t : type_handle) (entry : type_view)
  : step runtime_value_layout :=
  let properties := abi_layout_properties (abi_target_value abi) in
  let base_begin := range_begin (tv_bases entry) in
  let base_count := range_count (tv_bases entry) in
  do! require (is_windows (abi_target_value abi)) layout_unsupported_type in
  let! offsets := read_state (fun s => Z.of_nat (length (base_offsets (output s)))) in
  do! require ((base_begin <=? offsets) && (base_count <=? offsets - base_begin)) layout_invalid_input in
  do! (if 1 <? base_count
       then let! base_mark := next_generation in mark_bases base_begin 0 (Z.to_nat base_count) base_mark
       else ret tt) in
  let! visited := visit_bases resolve_record base_begin 0 (Z.to_nat base_count) None 1 in
  let primary := visited.1 in
  let! alignment := visit_members resolve (range_begin (tv_members entry)) 0
    (Z.to_nat (range_count (tv_members entry))) visited.2 in
  do! require (negb (bool_decide (is_Some primary)) || tv_polymorphic entry) layout_invalid_input in
  let own_vfptr := tv_polymorphic entry && bool_decide (primary = None) in
  let vfptr_alignment := Z.min (pointer_alignment properties) (abi_pack abi) in
  do! require (negb own_vfptr || negb (vfptr_alignment =? 0)) layout_invalid_input in
  let alignment := if own_vfptr then Z.max alignment vfptr_alignment else alignment in
  let! cursor := place_all_bases resolve_record entry primary own_vfptr alignment in
  let! cursor := place_members resolve (range_begin (tv_members entry)) 0
    (Z.to_nat (range_count (tv_members entry))) cursor in
  finish_record t cursor alignment false.

(** The loop over the members of a record without bases: the cursor, the size of a union
    and the alignment. *)
Fixpoint plain_members (resolve : type_ref -> step runtime_value_layout) (is_union : bool) (begin local : Z)
    (n : nat) (cursor union_size alignment : Z) : step (Z * Z * Z) :=
  match n with
  | O => ret (cursor, union_size, alignment)
  | S n =>
      let! offsets := read_state (fun s => member_offsets (output s)) in
      do! require (begin + local <? Z.of_nat (length offsets)) layout_invalid_input in
      let! offset := element (fun s => member_offsets (output s)) (begin + local) in
      do! require (offset =? invalid_record_offset) layout_invalid_input in
      let! member := expect (project_member_at project (begin + local)) layout_invalid_input in
      let! value := resolve (mv_type member) in
      let effective := effective_alignment value in
      do! require (negb (effective =? 0)) layout_invalid_input in
      let alignment := Z.max alignment effective in
      if is_union then
        do! modify (set_member_offset (begin + local) 0) in
        plain_members resolve is_union begin (local + 1) n cursor (Z.max union_size (value_size value)) alignment
      else
        let! aligned := expect (align_up cursor effective) layout_overflow in
        do! require (aligned <? invalid_record_offset) layout_overflow in
        do! modify (set_member_offset (begin + local) aligned) in
        let! cursor := expect (add_u64 aligned (value_size value)) layout_overflow in
        plain_members resolve is_union begin (local + 1) n cursor union_size alignment
  end.

Definition resolve_plain_record (resolve : type_ref -> step runtime_value_layout) (t : type_handle)
    (entry : type_view) (is_union : bool) : step runtime_value_layout :=
  let! sizes := plain_members resolve is_union (range_begin (tv_members entry)) 0
    (Z.to_nat (range_count (tv_members entry))) 0 0 1 in
  finish_record t (if is_union then sizes.1.2 else sizes.1.1) sizes.2
    (negb is_union && (range_count (tv_members entry) =? 0)).

(** The body of [resolve_record]. *)
Definition record_body (resolve : type_ref -> step runtime_value_layout)
    (resolve_record : type_handle -> step runtime_value_layout) (t : type_handle) : step runtime_value_layout :=
  let! slots := read_state (fun s => Z.of_nat (length (type_slots (output s)))) in
  do! require (negb (t =? 0) && (t <=? slots)) layout_invalid_input in
  let! slot := element (fun s => type_slots (output s)) (t - 1) in
  if bool_decide (slot_status slot = slot_ready) then ret (slot_value slot)
  else if bool_decide (slot_status slot = slot_visiting) then fail layout_invalid_input
  else
    let! entry := expect (project_type project t) layout_invalid_input in
    do! require (entry_is_record entry) layout_invalid_input in
    do! require (tv_defined entry) layout_unsupported_type in
    let is_union := entry_is_union entry in
    do! require ((1 <=? tv_record_kind entry) && (tv_record_kind entry <=? 3)) layout_invalid_input in
    let plain := (range_count (tv_bases entry) =? 0) && negb (tv_polymorphic entry) in
    do! require (negb is_union || plain) layout_invalid_input in
    do! modify (set_type_slot t
      (LayoutSlot (slot_size slot) (slot_alignment slot) slot_visiting (empty_record slot))) in
    on_failure
      (if plain then resolve_plain_record resolve t entry is_union
       else resolve_windows_class_record resolve resolve_record t entry)
      (set_type_slot t new_slot).

(** The switch over the kind of a derived type. *)
Definition derived_value (resolve : type_ref -> step runtime_value_layout) (d : derived_type_record)
  : step runtime_value_layout :=
  let properties := abi_layout_properties (abi_target_value abi) in
  match derived_kind d with
  | const_qualified | volatile_qualified => resolve (child d)
  | pointer => ret (ValueLayout (pointer_size properties) (pointer_alignment properties))
  | lvalue_reference | rvalue_reference =>
      do! require_unconnected (child d) in
      ret (ValueLayout (reference_size properties) (reference_alignment properties))
  | bounded_array =>
      do! require (negb (derived_payload d =? 0)) layout_invalid_input in
      let! value := resolve (child d) in
      let! bytes := expect (multiply_u64 (value_size value) (derived_payload d)) layout_overflow in
      ret (ValueLayout bytes (value_alignment value))
  | unbounded_array => fail layout_unsupported_type
  end.

Definition mark_derived (r : type_ref) (state : slot_state) (s : builder) : builder :=
  match derived_slots (output s) !! Z.to_nat (payload r - 1) with
  | Some slot =>
      set_derived_slot r (LayoutSlot (slot_size slot) (slot_alignment slot) state (empty_record slot)) s
  | None => s
  end.

(** The body of [resolve_derived]. *)
Definition derived_body (resolve : type_ref -> step runtime_value_layout) (r : type_ref)
  : step runtime_value_layout :=
  let! slots := read_state (fun s => Z.of_nat (length (derived_slots (output s)))) in
  do! require (bool_decide (ref_kind r = ref_derived) && negb (payload r =? 0) && (payload r <=? slots))
    layout_invalid_input in
  let! slot := element (fun s => derived_slots (output s)) (payload r - 1) in
  if bool_decide (slot_status slot = slot_ready) then ret (slot_value slot)
  else if bool_decide (slot_status slot = slot_visiting) then fail layout_invalid_input
  else
    let! d := expect (project_derived project r) layout_invalid_input in
    do! modify (mark_derived r slot_visiting) in
    on_failure
      (let! resolved := derived_value resolve d in
       do! require (value_size resolved <=? u32_max) layout_overflow in
       do! modify (set_derived_slot r
         (LayoutSlot (value_size resolved) (value_alignment resolved) slot_ready (empty_record slot))) in
       ret resolved)
      (mark_derived r slot_empty).

(** The body of [resolve]. *)
Definition reference_body (resolve_record : type_handle -> step runtime_value_layout)
    (resolve_derived : type_ref -> step runtime_value_layout) (r : type_ref) : step runtime_value_layout :=
  if negb (ref_valid r) then fail layout_invalid_input
  else match ref_kind r with
  | ref_intrinsic =>
      if intrinsic_number nullptr_type <? payload r then fail layout_invalid_input
      else match intrinsic_layout (intrinsic_of_number (payload r)) (abi_target_value abi) with
      | inr value => ret value
      | inl result => fail result
      end
  | ref_named =>
      if (payload r =? 0) || (type_count project <? payload r) then fail layout_invalid_input
      else resolve_record (project_type_at project (payload r - 1))
  | ref_derived => resolve_derived r
  | ref_invalid => fail layout_invalid_input
  end.

(** The mutual recursion. *)
Fixpoint resolve (fuel : nat) (r : type_ref) {struct fuel} : step runtime_value_layout :=
  match fuel with
  | O => fun _ => None
  | S fuel => reference_body (resolve_record fuel) (resolve_derived fuel) r
  end
with resolve_record (fuel : nat) (t : type_handle) {struct fuel} : step runtime_value_layout :=
  match fuel with
  | O => fun _ => None
  | S fuel => record_body (resolve fuel) (resolve_record fuel) t
  end
with resolve_derived (fuel : nat) (r : type_ref) {struct fuel} : step runtime_value_layout :=
  match fuel with
  | O => fun _ => None
  | S fuel => derived_body (resolve fuel) r
  end.

(** Enough for every recursion: a nested call of [resolve_record] or [resolve_derived]
    that does not return at once fills an empty slot. *)
Definition layout_fuel : nat :=
  2 * (Z.to_nat (type_count project) + Z.to_nat (derived_type_count project)) + 3.

Abbreviation resolve_type := (resolve layout_fuel).

(** The first loop of [build_layout]: the types of the objects. *)
Fixpoint resolve_objects (index : Z) (n : nat) : step unit :=
  match n with
  | O => ret tt
  | S n =>
      let handle := project_object_at project index in
      do! require (negb (handle =? 0)) layout_invalid_input in
      let! object := expect (project_object project handle) layout_invalid_input in
      do! resolve_type (object_type object) in
      resolve_objects (index + 1) n
  end.

(** The growing worklist of unconnected types: there are no more of them than references
    to them. *)
Fixpoint resolve_unconnected (fuel : nat) (index : nat) : step unit :=
  match fuel with
  | O => fun _ => None
  | S fuel =>
      let! types := read_state (fun s => unconnected_types (output s)) in
      match types !! index with
      | None => ret tt
      | Some r => do! resolve_type r in resolve_unconnected fuel (S index)
      end
  end.

Definition unconnected_fuel : nat :=
  22 + Z.to_nat (type_count project) + Z.to_nat (derived_type_count project) + 1.

(** The placement of one value: its offset, the cursor and the alignment behind it. *)
Definition place_value (r : type_ref) (store : Z -> step unit) (cursor alignment : Z) : step (Z * Z) :=
  let! value := resolve_type r in
  let! aligned := expect (align_up cursor (value_alignment value)) layout_overflow in
  do! store aligned in
  let! cursor := expect (add_u64 aligned (value_size value)) layout_overflow in
  ret (cursor, Z.max alignment (value_alignment value)).

Fixpoint place_unconnected (rs : list type_ref) (cursor alignment : Z) : step (Z * Z) :=
  match rs with
  | [] => ret (cursor, alignment)
  | r :: rs =>
      let! placed := place_value r (store_unconnected_offset r) cursor alignment in
      place_unconnected rs placed.1 placed.2
  end.

Fixpoint place_objects (index : Z) (n : nat) (cursor alignment : Z) : step (Z * Z) :=
  match n with
  | O => ret (cursor, alignment)
  | S n =>
      let handle := project_object_at project index in
      do! require (negb (handle =? 0)) layout_invalid_input in
      let! object := expect (project_object project handle) layout_invalid_input in
      let! placed := place_value (object_type object)
        (fun aligned => modify (set_object_offset index aligned)) cursor alignment in
      place_objects (index + 1) n placed.1 placed.2
  end.

Definition build_layout : step unit :=
  let objects := Z.to_nat (object_count project) in
  do! resolve_objects 0 objects in
  do! resolve_unconnected unconnected_fuel 0 in
  let! unconnected := read_state (fun s => unconnected_types (output s)) in
  let! placed := place_unconnected unconnected 0 1 in
  let! placed := place_objects 0 objects placed.1 placed.2 in
  let! final_size := expect (align_up placed.1 placed.2) layout_overflow in
  modify (update_output (with_size final_size placed.2)).

(** The vectors of [prepare_runtime_layout]. *)
Definition new_layout : runtime_layout :=
  let types := Z.to_nat (type_count project) in
  let derived := Z.to_nat (derived_type_count project) in
  RuntimeLayout (replicate types new_slot) (replicate derived new_slot)
    (replicate (Z.to_nat (member_count project)) invalid_record_offset)
    (replicate (Z.to_nat (base_count project)) invalid_record_offset)
    (replicate (Z.to_nat (object_count project)) 0)
    (replicate 22 invalid_offset) (replicate types invalid_offset) (replicate derived invalid_offset)
    [] (abi_target_value abi) 0 1 false.

Definition with_target (t : abi_target) (l : runtime_layout) : runtime_layout :=
  RuntimeLayout (type_slots l) (derived_slots l) (member_offsets l) (base_offsets l) (object_offsets l)
    (unconnected_intrinsic_offsets l) (unconnected_type_offsets l) (unconnected_derived_offsets l)
    (unconnected_types l) t (size_value l) (alignment_value l) (prepared_value l).

(** Whether the vectors can be allocated; the result and the layout afterwards. *)
Definition prepare_runtime_layout (allocated : bool) : option (runtime_layout_result * runtime_layout) :=
  if negb (project_valid project) || negb (valid_abi_layout_key abi)
  then Some (layout_invalid_input, reset_layout)
  else if object_count project =? 0
  then Some (layout_success, with_prepared (with_target (abi_target_value abi) reset_layout))
  else if negb allocated then Some (layout_failed, reset_layout)
  else
    match build_layout (Builder new_layout [] 0) with
    | None => None
    | Some (inl result, _) => Some (result, reset_layout)
    | Some (inr _, s) => Some (layout_success, with_prepared (output s))
    end.
End Builder.

(** ** Queries of a layout *)

Definition layout_value (l : runtime_layout) (r : type_ref) : option runtime_value_layout :=
  if negb (prepared_value l) || negb (ref_valid r) then None
  else
    let ready (slots : list layout_slot) :=
      if (payload r =? 0) || (Z.of_nat (length slots) <? payload r) then None
      else match slots !! Z.to_nat (payload r - 1) with
      | Some slot => if bool_decide (slot_status slot = slot_ready) then Some (slot_value slot) else None
      | None => None
      end in
    match ref_kind r with
    | ref_intrinsic =>
        if intrinsic_number nullptr_type <? payload r then None
        else match intrinsic_layout (intrinsic_of_number (payload r)) (target_value l) with
        | inr value => Some value
        | inl _ => None
        end
    | ref_named => ready (type_slots l)
    | ref_derived => ready (derived_slots l)
    | ref_invalid => None
    end.

Definition unconnected_offset (l : runtime_layout) (r : type_ref) : option Z :=
  if negb (prepared_value l) || negb (ref_valid r) then None
  else
    p ← unconnected_place_of l r;
    value ← get_unconnected l p;
    if (value =? invalid_offset) || (value =? pending_offset) then None else Some value.

Definition layout_type (l : runtime_layout) (t : type_handle) : option runtime_value_layout :=
  if (t =? 0) || (Z.of_nat (length (type_slots l)) <? t) then None
  else
    slot ← type_slots l !! Z.to_nat (t - 1);
    if bool_decide (slot_status slot = slot_ready) then Some (slot_value slot) else None.

(** An offset of a member or of a base, and of an object. *)
Definition record_offset_at (offsets : list Z) (index : Z) : option Z :=
  offset ← offsets !! Z.to_nat index; if offset =? invalid_record_offset then None else Some offset.
Definition layout_member_offset (l : runtime_layout) (index : Z) : option Z :=
  record_offset_at (member_offsets l) index.
Definition layout_base_offset (l : runtime_layout) (index : Z) : option Z :=
  record_offset_at (base_offsets l) index.
Definition offset_of_object (offsets : list Z) (o : object_handle) : option Z :=
  if o =? 0 then None else offsets !! Z.to_nat (o - 1).
Definition layout_object_offset (l : runtime_layout) (o : object_handle) : option Z :=
  offset_of_object (object_offsets l) o.

(** ** The resident index (runtime_binding_index) *)

Record runtime_binding_index := BindingIndex {
  intrinsic_sizes : list Z;
  binding_object_offsets : list Z;
  binding_member_offsets : list Z;
  binding_base_offsets : list Z
}.

Definition binding_object_offset (b : runtime_binding_index) (o : object_handle) : option Z :=
  offset_of_object (binding_object_offsets b) o.
Definition binding_member_offset (b : runtime_binding_index) (index : Z) : option Z :=
  record_offset_at (binding_member_offsets b) index.
Definition binding_base_offset (b : runtime_binding_index) (index : Z) : option Z :=
  record_offset_at (binding_base_offsets b) index.
Definition binding_intrinsic_size (b : runtime_binding_index) (t : intrinsic_type) : option Z :=
  let index := intrinsic_number t in
  if index =? 0 then None
  else
    size ← intrinsic_sizes b !! Z.to_nat index;
    if size =? 0 then None else Some size.

(** The loop over the intrinsic types of [release_bindings]. *)
Fixpoint release_sizes (target : abi_target) (ts : list intrinsic_type) : option (list Z) :=
  match ts with
  | [] => Some []
  | t :: ts =>
      match intrinsic_layout t target with
      | inl layout_unsupported_type => cons 0 <$> release_sizes target ts
      | inl _ => None
      | inr value =>
          if (value_size value =? 0) || (255 <? value_size value) then None
          else cons (u8 (value_size value)) <$> release_sizes target ts
      end
  end.

(** The index, and the layout whose vectors were moved into it; [None] is the return of
    [false]. *)
Definition release_bindings (l : runtime_layout) : option (runtime_binding_index * runtime_layout) :=
  if negb (prepared_value l) then None
  else
    sizes ← release_sizes (target_value l) (drop 1 intrinsic_types);
    Some (BindingIndex (0 :: sizes) (object_offsets l) (member_offsets l) (base_offsets l),
      with_base_offsets [] (with_member_offsets [] (with_object_offsets [] l))).
