(* ===== verification/RuntimeRules.v ===== *)
(** The rules of native layout, independent of the builder
    (project/runtime/runtime_layout.cpp): what rounding up means, how fields that are
    placed one after the other lie, and the program logic of the builder's steps.

    What a finished layout promises (project/runtime/runtime_layout.cpp): the native rules
    that every ready slot obeys, as relations between a layout and the project, and the
    order on layouts along which the builder moves. *)

From S2P Require Import Prelude GraphData CompiledView ProjectView RuntimeLayout Identity GraphGrowth GraphTypes GraphRecords.

Local Open Scope Z_scope.

(** ** Rounding up *)

Definition round_up (value alignment : Z) : Z := (value + alignment - 1) / alignment * alignment.

Lemma round_up_spec v a : 0 < a -> v <= round_up v a < v + a /\ round_up v a mod a = 0.
Proof.
  intros Ha. unfold round_up. rewrite Z_mod_mult.
  pose proof (Z.div_mod (v + a - 1) a). pose proof (Z.mod_pos_bound (v + a - 1) a). lia.
Qed.

Lemma round_up_0 a : 0 < a -> round_up 0 a = 0.
Proof. intros. unfold round_up. rewrite Z.div_small by lia. done. Qed.

(** A word whose bits do not meet those of its predecessor is a power of two. *)
Lemma land_pred_pow2 a : 0 < a -> Z.land a (a - 1) = 0 -> a = 2 ^ Z.log2 a.
Proof.
  intros Ha H. destruct (Z.log2_spec a Ha) as [Hlo Hhi]. set (k := Z.log2 a) in *.
  assert (0 <= k) by apply Z.log2_nonneg. destruct (decide (a = 2 ^ k)) as [|Hne]; [done|].
  assert (Z.testbit a k = true) as H1 by (apply Z.bit_log2; done).
  assert (Z.testbit (a - 1) k = true) as H2.
  { replace k with (Z.log2 (a - 1)) by (apply Z.log2_unique; lia). apply Z.bit_log2. lia. }
  apply (f_equal (fun x => Z.testbit x k)) in H. rewrite Z.land_spec, H1, H2, Z.bits_0 in H. done.
Qed.

Lemma align_up_spec v a r :
  0 <= v -> 0 <= a -> align_up v a = Some r -> 0 < a /\ r = round_up v a /\ r <= size_max.
Proof.
  intros Hv Ha. unfold align_up. destruct (_ || _) eqn:E; [done|]. unbool.
  destruct (Z.ltb_spec (size_max - (a - 1)) v) as [|Hle]; [done|]. intros [= <-].
  assert (0 < a) as Hpos by lia. pose proof (land_pred_pow2 a Hpos ltac:(done)) as Hp.
  assert (0 <= Z.log2 a) by apply Z.log2_nonneg. set (k := Z.log2 a) in *.
  assert (Z.land (v + (a - 1)) (Z.lnot (a - 1)) = round_up v a) as Heq.
  { assert (a - 1 = Z.ones k) as -> by (rewrite Z.ones_equiv; lia). rewrite <- Z.ldiff_land.
    rewrite Z.ldiff_ones_r, Z.shiftl_mul_pow2, Z.shiftr_div_pow2 by lia.
    unfold round_up. rewrite <- Hp. f_equal. f_equal. rewrite Z.ones_equiv. lia. }
  split; [done|]. split; [done|]. rewrite Heq. destruct (round_up_spec v a Hpos). lia.
Qed.

(** ** Fields one after the other *)

(** A field is its size and its alignment. *)
Abbreviation field := (Z * Z)%type.

Fixpoint placed (cursor : Z) (fs : list field) : list Z :=
  match fs with
  | [] => []
  | f :: fs => round_up cursor f.2 :: placed (round_up cursor f.2 + f.1) fs
  end.

Fixpoint placed_end (cursor : Z) (fs : list field) : Z :=
  match fs with
  | [] => cursor
  | f :: fs => placed_end (round_up cursor f.2 + f.1) fs
  end.

Lemma placed_length cursor fs : length (placed cursor fs) = length fs.
Proof. revert cursor. induction fs as [|f fs IH]; intros c; cbn; [done|]. by rewrite IH. Qed.

Lemma placed_app cursor fs gs : placed cursor (fs ++ gs) = placed cursor fs ++ placed (placed_end cursor fs) gs.
Proof. revert cursor. induction fs as [|f fs IH]; intros c; cbn; [done|]. by rewrite IH. Qed.

Lemma placed_end_app cursor fs gs : placed_end cursor (fs ++ gs) = placed_end (placed_end cursor fs) gs.
Proof. revert cursor. induction fs as [|f fs IH]; intros c; cbn; [done|]. by rewrite IH. Qed.

Definition field_ok (f : field) : Prop := 0 <= f.1 /\ 0 < f.2.

Lemma placed_end_le cursor fs : Forall field_ok fs -> cursor <= placed_end cursor fs.
Proof.
  revert cursor. induction fs as [|f fs IH]; intros c Hf; cbn; [lia|].
  apply Forall_cons in Hf as [[Hs Ha] Hf]. destruct (round_up_spec c f.2 Ha). specialize (IH (round_up c f.2 + f.1) Hf). lia.
Qed.

(** Every field is aligned and lies between the start and the end. *)
Lemma placed_bounds cursor fs i f o :
  Forall field_ok fs -> fs !! i = Some f -> placed cursor fs !! i = Some o ->
  cursor <= o /\ o mod f.2 = 0 /\ o + f.1 <= placed_end cursor fs.
Proof.
  revert cursor i. induction fs as [|g fs IH]; intros c i Hf Hi Ho; [done|].
  apply Forall_cons in Hf as [[Hs Ha] Hf]. destruct (round_up_spec c g.2 Ha) as [Hr Hm].
  destruct i as [|i]; cbn in *; simplify_eq.
  - split; [lia|]. split; [done|]. by apply placed_end_le.
  - destruct (IH _ _ Hf Hi Ho) as (? & ? & ?). split; [lia|done].
Qed.

(** A later field starts behind an earlier one. *)
Lemma placed_ordered cursor fs i j f o o' :
  Forall field_ok fs -> (i < j)%nat -> fs !! i = Some f -> placed cursor fs !! i = Some o ->
  placed cursor fs !! j = Some o' -> o + f.1 <= o'.
Proof.
  revert cursor i j. induction fs as [|g fs IH]; intros c i j Hf Hij Hi Ho Ho'; [done|].
  apply Forall_cons in Hf as [[Hs Ha] Hf]. destruct j as [|j]; [lia|]. cbn in Ho'.
  destruct i as [|i]; cbn in Hi, Ho; simplify_eq.
  - apply lookup_lt_Some in Ho' as Hlt. rewrite placed_length in Hlt.
    destruct (lookup_lt_is_Some_2 fs j Hlt) as [h Hh].
    destruct (placed_bounds _ _ _ _ _ Hf Hh Ho') as (? & _). lia.
  - eapply (IH _ i j); [done|lia|done..].
Qed.

(** ** A logic of builder steps *)

(** The step returns, and a success satisfies [Q]; a failure ends the construction. *)
Definition wp {A} (m : step A) (s : builder) (Q : A -> builder -> Prop) : Prop :=
  exists o s', m s = Some (o, s') /\ (forall a, o = inr a -> Q a s').

Section Logic.
Context {A B : Type}.
Implicit Types (Q : A -> builder -> Prop).

Lemma wp_ret (a : A) s Q : Q a s -> wp (ret a) s Q.
Proof. intros H. exists (inr a), s. split; [done|]. by intros ? [= <-]. Qed.

Lemma wp_fail r s Q : wp (fail r) s Q.
Proof. by exists (inl r), s. Qed.

Lemma wp_bind (m : step A) (f : A -> step B) s (Q : B -> builder -> Prop) :
  wp m s (fun a s => wp (f a) s Q) -> wp (bind_step m f) s Q.
Proof.
  intros (o & s' & Hm & Hf). unfold wp, bind_step. rewrite Hm. destruct o as [r|a].
  - by exists (inl r), s'.
  - by apply Hf.
Qed.

Lemma wp_mono (m : step A) s Q Q' : wp m s Q -> (forall a s', Q a s' -> Q' a s') -> wp m s Q'.
Proof. intros (o & s' & Hm & HQ) Himp. exists o, s'. split; [done|]. intros a Ha. by apply Himp, HQ. Qed.

Lemma wp_expect (o : option A) r s Q : (forall a, o = Some a -> Q a s) -> wp (expect o r) s Q.
Proof. intros H. destruct o as [a|]; [by apply wp_ret, H|by apply wp_fail]. Qed.

Lemma wp_read (f : builder -> A) s Q : Q (f s) s -> wp (read_state f) s Q.
Proof. intros H. exists (inr (f s)), s. split; [done|]. by intros ? [= <-]. Qed.

Lemma wp_element (f : builder -> list A) i s Q :
  0 <= i < Z.of_nat (length (f s)) -> (forall a, f s !! Z.to_nat i = Some a -> Q a s) -> wp (element f i) s Q.
Proof.
  intros Hi H. destruct (lookup_lt_is_Some_2 (f s) (Z.to_nat i)) as [a Ha]; [lia|].
  unfold wp, element. rewrite (proj2 (Z.ltb_ge _ _)), Ha by lia. exists (inr a), s. split; [done|].
  intros ? [= <-]. by apply H.
Qed.

Lemma wp_on_failure (m : step A) repair s Q : wp m s Q -> wp (on_failure m repair) s Q.
Proof.
  intros (o & s' & Hm & HQ). unfold wp, on_failure. rewrite Hm. destruct o as [r|a].
  - by exists (inl r), (repair s').
  - exists (inr a), s'. by split.
Qed.
End Logic.

Lemma wp_require b r s (Q : unit -> builder -> Prop) : (b = true -> Q tt s) -> wp (require b r) s Q.
Proof. intros H. destruct b; [by apply wp_ret, H|by apply wp_fail]. Qed.

Lemma wp_modify f s (Q : unit -> builder -> Prop) : Q tt (f s) -> wp (modify f) s Q.
Proof. intros H. exists (inr tt), (f s). split; [done|]. by intros ? [= <-]. Qed.

(** One step of a monadic program. *)
Ltac step_one :=
  match goal with
  | |- wp (bind_step _ _) _ _ => apply wp_bind
  | |- wp (require _ _) _ _ => apply wp_require; intros ?
  | |- wp (expect _ _) _ _ => apply wp_expect; intros ? ?
  | |- wp (read_state _) _ _ => apply wp_read
  | |- wp (modify _) _ _ => apply wp_modify
  | |- wp (ret _) _ _ => apply wp_ret
  | |- wp (fail _) _ _ => apply wp_fail
  end.
Ltac steps := repeat (step_one; cbv beta).

(** ** Values of references *)

(** The value of a reference while a layout is being built. *)
Definition laid (l : runtime_layout) (r : type_ref) (v : runtime_value_layout) : Prop :=
  layout_value (with_prepared l) r = Some v.

Definition value_ok (v : runtime_value_layout) : Prop := 0 < value_size v <= u32_max /\ 0 < value_alignment v.

Definition slot_filled (slots : list layout_slot) (i : nat) : Prop :=
  exists s, slots !! i = Some s /\ slot_status s <> slot_empty.

(** The record of a handle has been visited. *)
Definition filled (l : runtime_layout) (t : type_handle) : Prop :=
  1 <= t /\ slot_filled (type_slots l) (Z.to_nat (t - 1)).

Lemma payload_nonneg r : 0 <= payload r.
Proof. unfold payload. apply Z.land_nonneg. right. done. Qed.

Lemma laid_named l r v :
  ref_kind r = ref_named -> (laid l r v <-> ref_valid r = true /\ layout_type l (payload r) = Some v).
Proof.
  intros Hk. unfold laid, layout_value, layout_type. cbn [prepared_value with_prepared negb orb].
  rewrite Hk. destruct (ref_valid r); cbn [negb orb]; [|by split; [|intros [? _]]].
  cbn [type_slots with_prepared]. destruct (_ || _); [by split; [|intros [_ ?]]|].
  destruct (type_slots l !! _) as [s|]; cbn; tauto.
Qed.

Lemma laid_derived l r v :
  ref_kind r = ref_derived ->
  (laid l r v <-> ref_valid r = true /\ payload r <= Z.of_nat (length (derived_slots l)) /\
    exists s, derived_slots l !! Z.to_nat (payload r - 1) = Some s /\ slot_status s = slot_ready /\ v = slot_value s).
Proof.
  intros Hk. unfold laid, layout_value. cbn [prepared_value with_prepared negb orb].
  rewrite Hk. destruct (ref_valid r) eqn:Hv; cbn [negb orb]; [|by split; [|intros [? _]]].
  assert (payload r <> 0) as Hp.
  { unfold ref_valid in Hv. unbool. lia. }
  cbn [derived_slots with_prepared]. rewrite (proj2 (Z.eqb_neq _ _) Hp). cbn [orb].
  destruct (Z.ltb_spec (Z.of_nat (length (derived_slots l))) (payload r)); [split; [done|lia]|].
  destruct (derived_slots l !! _) as [s|]; [|naive_solver].
  case_bool_decide; naive_solver.
Qed.

Lemma laid_intrinsic l r v :
  ref_kind r = ref_intrinsic ->
  (laid l r v <-> ref_valid r = true /\ payload r <= intrinsic_number nullptr_type /\
    intrinsic_layout (intrinsic_of_number (payload r)) (target_value l) = inr v).
Proof.
  intros Hk. unfold laid, layout_value. cbn [prepared_value with_prepared negb orb target_value].
  rewrite Hk. destruct (ref_valid r) eqn:Hv; cbn [negb orb]; [|by split; [|intros [? _]]].
  destruct (Z.ltb_spec (intrinsic_number nullptr_type) (payload r)); [split; [done|lia]|].
  destruct (intrinsic_layout _ _); naive_solver.
Qed.

Lemma layout_type_spec l t v :
  1 <= t ->
  (layout_type l t = Some v <->
   exists s, type_slots l !! Z.to_nat (t - 1) = Some s /\ slot_status s = slot_ready /\ v = slot_value s).
Proof.
  intros Ht. unfold layout_type. rewrite (proj2 (Z.eqb_neq _ _)) by lia. cbn [orb].
  destruct (Z.ltb_spec (Z.of_nat (length (type_slots l))) t) as [Hlt|Hle].
  - split; [done|]. intros (s & Hs & _). apply lookup_lt_Some in Hs. lia.
  - destruct (type_slots l !! _) as [s|]; [|naive_solver]. cbn. case_bool_decide; naive_solver.
Qed.

Lemma intrinsic_layout_ok t target v : intrinsic_layout t target = inr v -> value_ok v.
Proof. destruct t, target; cbn; intros [= <-]; split; cbn; unfold u32_max; lia. Qed.

(** ** The rules *)

Section Rules.
Context `{ProjectView V} (project : V) (abi : server_abi_configuration).

(** A field of a record: the pack of the ABI limits its alignment. *)
Definition field_of (v : runtime_value_layout) : field := (value_size v, effective_alignment abi v).

(** The largest alignment of some fields. *)
Definition widest (start : Z) (vs : list runtime_value_layout) : Z :=
  foldl (fun a v => Z.max a (effective_alignment abi v)) start vs.

Definition largest (start : Z) (vs : list runtime_value_layout) : Z :=
  foldl (fun a v => Z.max a (value_size v)) start vs.

(** The members at [begin], ... have the given values. *)
Definition members_at (l : runtime_layout) (begin : Z) (vs : list runtime_value_layout) : Prop :=
  forall j v, vs !! j = Some v ->
  exists m, project_member_at project (begin + Z.of_nat j) = Some m /\ laid l (mv_type m) v.

(** A base of a record: whether its type is polymorphic, and its value. *)
Abbreviation laid_base := (bool * runtime_value_layout)%type.

Definition base_at (l : runtime_layout) (i : Z) (b : laid_base) : Prop :=
  exists base entry, project_base_at project i = Some base /\ bv_virtual base = false /\
    1 <= bv_type base /\ bv_type base <= Z.of_nat (length (type_slots l)) /\
    layout_type l (bv_type base) = Some b.2 /\
    project_type project (bv_type base) = Some entry /\ tv_defined entry = true /\ tv_polymorphic entry = b.1.

Definition bases_at (l : runtime_layout) (begin : Z) (bs : list laid_base) : Prop :=
  forall j b, bs !! j = Some b -> base_at l (begin + Z.of_nat j) b.

(** The bases that pass a test on their position and on whether they are polymorphic. *)
Fixpoint selected (keep : Z -> bool -> bool) (local : Z) (bs : list laid_base) : list (Z * runtime_value_layout) :=
  match bs with
  | [] => []
  | b :: bs => (if keep local b.1 then [(local, b.2)] else []) ++ selected keep (local + 1) bs
  end.

(** Polymorphic bases lie before the others. *)
Definition base_order (bs : list laid_base) : list (Z * runtime_value_layout) :=
  selected (fun _ p => p) 0 bs ++ selected (fun _ p => negb p) 0 bs.

(** Offsets of a vector, at positions behind [begin]. *)
Definition offsets_at (offsets : list Z) (begin : Z) (positions places : list Z) : Prop :=
  Forall2 (fun i o => offsets !! Z.to_nat (begin + i) = Some o) positions places.

Definition positions (n : nat) : list Z := Z.of_nat <$> seq 0 n.

(** The layout of a record with the given bases and members: a union is as large as its
    largest member; the fields of a class follow the table pointer, which only a class
    without a polymorphic base has of its own. *)
Definition own_pointer (entry : type_view) (bs : list laid_base) : bool :=
  tv_polymorphic entry && negb (existsb fst bs).

Definition record_alignment (entry : type_view) (bs : list laid_base) (ms : list runtime_value_layout) : Z :=
  let alignment := widest 1 (map snd bs ++ ms) in
  if own_pointer entry bs
  then Z.max alignment (Z.min (pointer_alignment (abi_layout_properties (abi_target_value abi))) (abi_pack abi))
  else alignment.

Definition record_header (entry : type_view) (bs : list laid_base) (ms : list runtime_value_layout) : Z :=
  if own_pointer entry bs
  then round_up (pointer_size (abi_layout_properties (abi_target_value abi))) (record_alignment entry bs ms)
  else 0.

Definition record_fields (bs : list laid_base) (ms : list runtime_value_layout) : list field :=
  field_of <$> map snd (base_order bs) ++ ms.

Definition record_size (entry : type_view) (bs : list laid_base) (ms : list runtime_value_layout) : Z :=
  let raw := if entry_is_union entry then largest 0 ms
             else placed_end (record_header entry bs ms) (record_fields bs ms) in
  round_up (if raw =? 0 then 1 else raw) (record_alignment entry bs ms).

Record record_facts (l : runtime_layout) (slot : layout_slot) (entry : type_view) (bs : list laid_base)
    (ms : list runtime_value_layout) : Prop := RecordFacts {
  facts_entry : tv_defined entry = true /\ entry_is_record entry = true;
  facts_counts : length bs = Z.to_nat (range_count (tv_bases entry)) /\
    length ms = Z.to_nat (range_count (tv_members entry));
  facts_bases : bases_at l (range_begin (tv_bases entry)) bs;
  facts_members : members_at l (range_begin (tv_members entry)) ms;
  facts_alignment : slot_alignment slot = record_alignment entry bs ms;
  facts_size : slot_size slot = record_size entry bs ms /\ slot_size slot <= u32_max;
  facts_union : entry_is_union entry = true ->
    bs = [] /\ offsets_at (member_offsets l) (range_begin (tv_members entry)) (positions (length ms))
      (replicate (length ms) 0);
  facts_class : entry_is_union entry = false ->
    let places := placed (record_header entry bs ms) (record_fields bs ms) in
    offsets_at (base_offsets l) (range_begin (tv_bases entry)) (map fst (base_order bs))
      (take (length (base_order bs)) places) /\
    offsets_at (member_offsets l) (range_begin (tv_members entry)) (positions (length ms))
      (drop (length (base_order bs)) places)
}.

Definition record_rule (l : runtime_layout) (t : type_handle) (slot : layout_slot) : Prop :=
  exists entry bs ms, project_type project t = Some entry /\ record_facts l slot entry bs ms.

(** The layout of a derived type. *)
Definition place_used (l : runtime_layout) (p : unconnected_place) : Prop :=
  exists o, get_unconnected l p = Some o /\ o <> invalid_offset.
Definition place_taken (l : runtime_layout) (r : type_ref) : Prop :=
  exists p, unconnected_place_of l r = Some p /\ place_used l p.

Definition derived_facts (l : runtime_layout) (d : derived_type_record) (v : runtime_value_layout) : Prop :=
  let properties := abi_layout_properties (abi_target_value abi) in
  match derived_kind d with
  | const_qualified | volatile_qualified => laid l (child d) v
  | pointer => v = ValueLayout (pointer_size properties) (pointer_alignment properties)
  | lvalue_reference | rvalue_reference =>
      v = ValueLayout (reference_size properties) (reference_alignment properties) /\ place_taken l (child d)
  | bounded_array =>
      exists w, laid l (child d) w /\
        v = ValueLayout (value_size w * derived_payload d) (value_alignment w)
  | unbounded_array => False
  end.

Definition derived_rule (l : runtime_layout) (n : Z) (slot : layout_slot) : Prop :=
  exists r d, ref_kind r = ref_derived /\ payload r = n /\ project_derived project r = Some d /\
    derived_facts l d (slot_value slot).

(** ** Well-formed layouts *)

(** The number of unconnected places in use. *)
Definition in_use (offsets : list Z) : nat := length (filter (fun o => o <> invalid_offset) offsets).
Definition taken (l : runtime_layout) : nat :=
  in_use (unconnected_intrinsic_offsets l) + in_use (unconnected_type_offsets l) +
  in_use (unconnected_derived_offsets l).

Record sized (l : runtime_layout) : Prop := Sized {
  sized_types : Z.of_nat (length (type_slots l)) = type_count project;
  sized_derived : Z.of_nat (length (derived_slots l)) = derived_type_count project;
  sized_members : Z.of_nat (length (member_offsets l)) = member_count project;
  sized_bases : Z.of_nat (length (base_offsets l)) = base_count project;
  sized_objects : Z.of_nat (length (object_offsets l)) = object_count project;
  sized_intrinsic_places : length (unconnected_intrinsic_offsets l) = 22%nat;
  sized_type_places : Z.of_nat (length (unconnected_type_offsets l)) = type_count project;
  sized_derived_places : Z.of_nat (length (unconnected_derived_offsets l)) = derived_type_count project;
  sized_target : target_value l = abi_target_value abi
}.

Record slots_ok (l : runtime_layout) : Prop := SlotsOk {
  types_ok i s : type_slots l !! i = Some s -> slot_status s = slot_ready ->
    value_ok (slot_value s) /\ record_rule l (Z.of_nat i + 1) s;
  derived_slots_ok i s : derived_slots l !! i = Some s -> slot_status s = slot_ready ->
    value_ok (slot_value s) /\ derived_rule l (Z.of_nat i + 1) s
}.

Record worklist_ok (l : runtime_layout) : Prop := WorklistOk {
  worklist_length : length (unconnected_types l) = taken l;
  worklist_pending p o : get_unconnected l p = Some o ->
    o = invalid_offset \/ o = pending_offset /\
      exists r, r ∈ unconnected_types l /\ unconnected_place_of l r = Some p
}.

Record layout_ok (l : runtime_layout) : Prop := LayoutOk {
  ok_sized : sized l;
  ok_slots : slots_ok l;
  ok_worklist : worklist_ok l
}.

(** ** The order of construction *)

(** The record is being visited. *)
Definition visiting (l : runtime_layout) (t : type_handle) : Prop :=
  1 <= t /\ exists s, type_slots l !! Z.to_nat (t - 1) = Some s /\ slot_status s = slot_visiting.

Definition derived_visiting (l : runtime_layout) (i : nat) : Prop :=
  exists s, derived_slots l !! i = Some s /\ slot_status s = slot_visiting.

(** What is being built. *)
Inductive opened := open_record (t : type_handle) | open_derived (i : nat).

(** From [l] to [l'] slots are filled and places are taken, ready slots and the offsets of
    the fields of filled records stay; those of the record [open] are being written. *)
Record extends (open : option opened) (l l' : runtime_layout) : Prop := Extends {
  extends_types i s : type_slots l !! i = Some s -> slot_status s = slot_ready -> type_slots l' !! i = Some s;
  extends_derived i s : derived_slots l !! i = Some s -> slot_status s = slot_ready -> derived_slots l' !! i = Some s;
  extends_filled i : (slot_filled (type_slots l) i -> slot_filled (type_slots l') i) /\
    (slot_filled (derived_slots l) i -> slot_filled (derived_slots l') i);
  extends_visiting t : visiting l t -> Some (open_record t) <> open -> visiting l' t;
  extends_derived_visiting i : derived_visiting l i -> Some (open_derived i) <> open -> derived_visiting l' i;
  extends_lengths : length (type_slots l') = length (type_slots l) /\
    length (derived_slots l') = length (derived_slots l) /\
    length (member_offsets l') = length (member_offsets l) /\
    length (base_offsets l') = length (base_offsets l) /\
    length (unconnected_intrinsic_offsets l') = length (unconnected_intrinsic_offsets l) /\
    length (unconnected_type_offsets l') = length (unconnected_type_offsets l) /\
    length (unconnected_derived_offsets l') = length (unconnected_derived_offsets l);
  extends_target : target_value l' = target_value l;
  extends_places p : place_used l p -> place_used l' p;
  extends_worklist : unconnected_types l `prefix_of` unconnected_types l';
  extends_members t e i : filled l t -> Some (open_record t) <> open -> project_type project t = Some e -> tv_defined e = true ->
    0 <= i < range_count (tv_members e) ->
    member_offsets l' !! Z.to_nat (range_begin (tv_members e) + i) =
    member_offsets l !! Z.to_nat (range_begin (tv_members e) + i);
  extends_bases t e i : filled l t -> Some (open_record t) <> open -> project_type project t = Some e -> tv_defined e = true ->
    0 <= i < range_count (tv_bases e) ->
    base_offsets l' !! Z.to_nat (range_begin (tv_bases e) + i) =
    base_offsets l !! Z.to_nat (range_begin (tv_bases e) + i)
}.
End Rules.
