(* ===== verification/RuntimeOrder.v ===== *)
(** The construction order of layouts (project/runtime/runtime_layout.cpp): what the
    values, the rules and the well-formedness of a layout keep when slots are filled,
    places are taken and offsets of an open record are written.

    The offsets that the builder writes (project/runtime/runtime_layout.cpp): writing a
    list of places into a vector, and an open record whose fields are being placed. *)

From S2P Require Import Prelude Identity GraphData GraphGrowth GraphTypes GraphRecords CompiledView ProjectView RuntimeLayout RuntimeRules.

Local Open Scope Z_scope.

Lemma unconnected_place_lengths l l' r :
  length (unconnected_intrinsic_offsets l') = length (unconnected_intrinsic_offsets l) ->
  length (unconnected_type_offsets l') = length (unconnected_type_offsets l) ->
  length (unconnected_derived_offsets l') = length (unconnected_derived_offsets l) ->
  unconnected_place_of l' r = unconnected_place_of l r.
Proof. intros H1 H2 H3. unfold unconnected_place_of. by rewrite H1, H2, H3. Qed.

(** A slot that is empty. *)
Abbreviation empty_slot := (fun s => slot_status s = slot_empty).

Definition empty_count (slots : list layout_slot) : nat := length (filter empty_slot slots).

#[local] Arguments empty_count : simpl never.

(** The measure of the recursion. *)
Definition empties (l : runtime_layout) : nat := empty_count (type_slots l) + empty_count (derived_slots l).

Lemma empty_count_cons s slots :
  empty_count (s :: slots) = ((if decide (slot_status s = slot_empty) then 1 else 0) + empty_count slots)%nat.
Proof. unfold empty_count. rewrite filter_cons. by case_decide. Qed.

Lemma empty_count_kept slots slots' :
  length slots' = length slots ->
  (forall i, slot_filled slots i -> slot_filled slots' i) ->
  (empty_count slots' <= empty_count slots)%nat.
Proof.
  revert slots'. induction slots as [|s slots IH]; intros [|s' slots'] Hlen Hkept; [done|done|done|].
  rewrite !empty_count_cons. pose proof (IH slots' ltac:(cbn in Hlen; lia) (fun i => Hkept (S i))) as Hle.
  repeat case_decide; try lia. destruct (Hkept O) as (s0 & Hs0 & ?); [by exists s|]. cbn in Hs0. by simplify_eq.
Qed.

Lemma empty_count_fill slots i s s' :
  slots !! i = Some s -> slot_status s = slot_empty -> slot_status s' <> slot_empty ->
  S (empty_count (<[i := s']> slots)) = empty_count slots.
Proof.
  intros Hi Hs Hs'. revert i Hi. induction slots as [|s0 slots IH]; intros [|i] Hi; try done; cbn in Hi |- *;
    rewrite !empty_count_cons.
  - simplify_eq. by rewrite decide_False, decide_True by done.
  - specialize (IH i Hi). unfold insert in *. case_decide; lia.
Qed.

Lemma empties_fill_type l i s s' :
  type_slots l !! i = Some s -> slot_status s = slot_empty -> slot_status s' <> slot_empty ->
  S (empties (with_type_slots (<[i := s']> (type_slots l)) l)) = empties l.
Proof. intros Hi Hs Hs'. unfold empties. rewrite <- (empty_count_fill _ _ _ s' Hi) by done. done. Qed.

Lemma empties_fill_derived l i s s' :
  derived_slots l !! i = Some s -> slot_status s = slot_empty -> slot_status s' <> slot_empty ->
  S (empties (with_derived_slots (<[i := s']> (derived_slots l)) l)) = empties l.
Proof. intros Hi Hs Hs'. unfold empties. rewrite <- (empty_count_fill _ _ _ s' Hi) by done. cbn. lia. Qed.

Lemma empty_count_replicate n : empty_count (replicate n new_slot) = n.
Proof. induction n as [|n IH]; [done|]. cbn [replicate]. rewrite empty_count_cons, IH. by rewrite decide_True. Qed.

Section Order.
Context `{ProjectView V} (project : V) (abi : server_abi_configuration).
Local Abbreviation extends := (extends project).
Local Abbreviation record_facts := (record_facts project abi).
Implicit Types (l : runtime_layout) (open : option opened).

Lemma filled_extends open l l' t : extends open l l' -> filled l t -> filled l' t.
Proof. intros Hx [Ht Hs]. split; [done|]. by apply Hx. Qed.

Lemma extends_refl open l : extends open l l.
Proof. by split. Qed.

Lemma extends_trans open l1 l2 l3 : extends open l1 l2 -> extends open l2 l3 -> extends open l1 l3.
Proof.
  intros H12 H23. pose proof H12 as [A1 A2 C1 C2 C3 A3 A4 A5 A6 A7 A8]. pose proof H23 as [B1 B2 D1 D2 D3 B3 B4 B5 B6 B7 B8].
  split; try (intuition congruence); try (by eauto).
  - intros i. split; intros Hi; by apply D1, C1.
  - by etrans.
  - intros t e i Hf Ho Ht He Hi. rewrite (B7 t e i) by (try done; by eapply filled_extends). by apply A7 with t.
  - intros t e i Hf Ho Ht He Hi. rewrite (B8 t e i) by (try done; by eapply filled_extends). by apply A8 with t.
Qed.

Lemma extends_weaken open l l' : extends None l l' -> extends open l l'.
Proof. intros [A1 A2 C1 C2 C3 A3 A4 A5 A6 A7 A8]. split; try done; [intros t Hv _; by apply C2|intros i Hv _; by apply C3|..];
  intros t e i Hf _; [by apply A7|by apply A8]. Qed.

Lemma empties_extends open l l' : extends open l l' -> (empties l' <= empties l)%nat.
Proof.
  intros Hx. destruct (extends_lengths _ _ _ _ Hx) as (L1 & L2 & _). unfold empties.
  pose proof (empty_count_kept _ _ L1 (fun i => proj1 (extends_filled _ _ _ _ Hx i))).
  pose proof (empty_count_kept _ _ L2 (fun i => proj2 (extends_filled _ _ _ _ Hx i))). lia.
Qed.

(** ** What stays *)

Lemma place_extends open l l' r : extends open l l' -> unconnected_place_of l' r = unconnected_place_of l r.
Proof. intros Hx. destruct (extends_lengths _ _ _ _ Hx) as (_ & _ & _ & _ & H1 & H2 & H3). by apply unconnected_place_lengths. Qed.

Lemma layout_type_extends open l l' t v : extends open l l' -> layout_type l t = Some v -> layout_type l' t = Some v.
Proof.
  intros Hx. destruct (extends_lengths _ _ _ _ Hx) as (L & _). unfold layout_type. rewrite L.
  destruct (_ || _); [done|]. destruct (type_slots l !! _) as [s|] eqn:Hs; [|done]. cbn.
  case_bool_decide as Hr; [|done]. intros [= <-]. rewrite (extends_types _ _ _ _ Hx _ _ Hs) by congruence.
  cbn. by rewrite bool_decide_eq_true_2.
Qed.

Lemma laid_extends open l l' r v : extends open l l' -> laid l r v -> laid l' r v.
Proof.
  intros Hx. destruct (extends_lengths _ _ _ _ Hx) as (_ & L & _). destruct (ref_kind r) eqn:Hk.
  - unfold laid, layout_value. rewrite Hk. by destruct (_ || _).
  - rewrite !laid_intrinsic by done. by rewrite (extends_target _ _ _ _ Hx).
  - rewrite !laid_named by done. intros [? ?]. split; [done|]. by eapply layout_type_extends.
  - rewrite !laid_derived, L by done. intros (? & ? & s & Hs & Hr & Hv). do 2 (split; [done|]).
    exists s. split; [|done]. apply Hx; [done|congruence].
Qed.

Lemma base_at_extends open l l' i b : extends open l l' -> base_at project l i b -> base_at project l' i b.
Proof.
  intros Hx (base & e & Hb & Hv & Ht & Hle & Hl & He). exists base, e.
  destruct (extends_lengths _ _ _ _ Hx) as (L & _). rewrite L. split_and!; try done; try apply He.
  by eapply layout_type_extends.
Qed.

Lemma bases_at_extends open l l' begin bs : extends open l l' -> bases_at project l begin bs -> bases_at project l' begin bs.
Proof. intros Hx Hb j b Hj. by eapply base_at_extends, Hb. Qed.

Lemma members_at_extends open l l' begin vs :
  extends open l l' -> members_at project l begin vs -> members_at project l' begin vs.
Proof.
  intros Hx Hm j v Hj. destruct (Hm j v Hj) as (m & Hp & Hl). exists m. split; [done|]. by eapply laid_extends.
Qed.

Lemma selected_bound keep local bs i v :
  (i, v) ∈ selected keep local bs -> local <= i < local + Z.of_nat (length bs).
Proof.
  revert local. induction bs as [|b bs IH]; intros local; cbn; [by intros ?%not_elem_of_nil|].
  rewrite elem_of_app. intros [Hin|Hin]; [|specialize (IH _ Hin); lia].
  destruct (keep local b.1); [|by apply not_elem_of_nil in Hin]. apply list_elem_of_singleton in Hin. simplify_eq. lia.
Qed.

Lemma base_order_bound bs i : i ∈ map fst (base_order bs) -> 0 <= i < Z.of_nat (length bs).
Proof.
  unfold base_order. intros ([i' v] & -> & Hin)%list_elem_of_fmap. cbn.
  apply elem_of_app in Hin as [Hin|Hin]; apply selected_bound in Hin; lia.
Qed.

Lemma positions_bound n i : i ∈ positions n -> 0 <= i < Z.of_nat n.
Proof. unfold positions. intros (j & -> & Hj)%list_elem_of_fmap. apply elem_of_seq in Hj. lia. Qed.

Lemma offsets_at_kept offsets offsets' begin ixs os :
  (forall i, i ∈ ixs -> offsets' !! Z.to_nat (begin + i) = offsets !! Z.to_nat (begin + i)) ->
  offsets_at offsets begin ixs os -> offsets_at offsets' begin ixs os.
Proof.
  intros Hk Ho. unfold offsets_at in *. induction Ho as [|i o ixs os Hi Ho IH]; constructor.
  - rewrite Hk; [done|by left].
  - apply IH. intros j Hj. apply Hk. by right.
Qed.

Lemma record_facts_extends open l l' t slot entry bs ms :
  extends open l l' -> filled l t -> Some (open_record t) <> open -> project_type project t = Some entry ->
  record_facts l slot entry bs ms -> record_facts l' slot entry bs ms.
Proof.
  intros Hx Hf Ho Ht [He [Hc1 Hc2] Hb Hm Ha Hs Hu Hcl]. destruct He as [Hd Hrec].
  assert (forall i, i ∈ positions (length ms) -> 0 <= i < range_count (tv_members entry)) as Hpm.
  { intros i Hi%positions_bound. lia. }
  split; try done.
  - by eapply bases_at_extends.
  - by eapply members_at_extends.
  - intros Hun. destruct (Hu Hun) as [Hnil Hoff]. split; [done|]. eapply offsets_at_kept; [|done].
    intros i Hi. by apply (extends_members _ _ _ _ Hx t entry); [..|apply Hpm].
  - intros Hun. destruct (Hcl Hun) as [Hob Hom]. split; (eapply offsets_at_kept; [|done]); intros i Hi.
    + apply base_order_bound in Hi. apply (extends_bases _ _ _ _ Hx t entry); try done. lia.
    + by apply (extends_members _ _ _ _ Hx t entry); [..|apply Hpm].
Qed.

Lemma record_facts_same_offsets open l l' slot entry bs ms :
  extends open l l' -> member_offsets l' = member_offsets l -> base_offsets l' = base_offsets l ->
  record_facts l slot entry bs ms -> record_facts l' slot entry bs ms.
Proof.
  intros Hx Hm Hb [He Hc Hbs Hms Ha Hs Hu Hcl]. split; rewrite ?Hm, ?Hb; try done.
  - by eapply bases_at_extends.
  - by eapply members_at_extends.
Qed.

(** A record that was not filled may be written. *)
Lemma extends_close t l l' : extends (Some (open_record t)) l l' -> ~ filled l t -> extends None l l'.
Proof.
  intros [A1 A2 C1 C2 C3 A3 A4 A5 A6 A7 A8] Hn. split; try done.
  - intros t' Hv _. apply C2; [done|]. intros [= ->]. apply Hn. destruct Hv as (Ht & s & Hs & Hv).
    split; [done|]. exists s. split; [done|congruence].
  - intros i Hv _. by apply C3.
  - intros t' e i Hf _. apply A7; [done|congruence].
  - intros t' e i Hf _. apply A8; [done|congruence].
Qed.

Lemma extends_close_derived i l l' :
  extends (Some (open_derived i)) l l' -> ~ slot_filled (derived_slots l) i -> extends None l l'.
Proof.
  intros [A1 A2 C1 C2 C3 A3 A4 A5 A6 A7 A8] Hn. split; try done.
  - intros t' Hv _. by apply C2.
  - intros j Hv _. apply C3; [done|]. intros [= ->]. apply Hn. destruct Hv as (s & Hs & Hv).
    exists s. split; [done|congruence].
  - intros t' e j Hf _. by apply A7.
  - intros t' e j Hf _. by apply A8.
Qed.

Lemma place_taken_extends open l l' r : extends open l l' -> place_taken l r -> place_taken l' r.
Proof.
  intros Hx (p & Hp & Hu). exists p. rewrite (place_extends _ _ _ _ Hx). split; [done|]. by apply Hx.
Qed.

Lemma derived_facts_extends open l l' d v :
  extends open l l' -> derived_facts abi l d v -> derived_facts abi l' d v.
Proof.
  intros Hx. unfold derived_facts. destruct (derived_kind d); try done; try (by apply (laid_extends open)).
  - intros [? ?]. split; [done|]. by eapply place_taken_extends.
  - intros [? ?]. split; [done|]. by eapply place_taken_extends.
  - intros (w & Hw & ?). exists w. split; [|done]. by eapply laid_extends.
Qed.

Lemma record_rule_extends open l l' t slot :
  extends open l l' -> filled l t -> Some (open_record t) <> open -> record_rule project abi l t slot -> record_rule project abi l' t slot.
Proof.
  intros Hx Hf Ho (entry & bs & ms & Ht & Hfacts). exists entry, bs, ms. split; [done|].
  by eapply record_facts_extends.
Qed.

Lemma derived_rule_extends open l l' n slot :
  extends open l l' -> derived_rule project abi l n slot -> derived_rule project abi l' n slot.
Proof.
  intros Hx (r & d & Hk & Hp & Hd & Hfacts). exists r, d. do 3 (split; [done|]). by eapply derived_facts_extends.
Qed.

(** A slot that is ready was ready before, or obeys its rule. *)
Lemma slots_ok_extends open l l' :
  extends open l l' -> slots_ok project abi l ->
  (forall i s, type_slots l' !! i = Some s -> slot_status s = slot_ready ->
     type_slots l !! i = Some s /\ Some (open_record (Z.of_nat i + 1)) <> open \/
     value_ok (slot_value s) /\ record_rule project abi l' (Z.of_nat i + 1) s) ->
  (forall i s, derived_slots l' !! i = Some s -> slot_status s = slot_ready ->
     derived_slots l !! i = Some s \/
     value_ok (slot_value s) /\ derived_rule project abi l' (Z.of_nat i + 1) s) ->
  slots_ok project abi l'.
Proof.
  intros Hx [Ht Hd] Hn1 Hn2. split.
  - intros i s Hi Hr. destruct (Hn1 i s Hi Hr) as [[Hi' Ho]|Hnew]; [|done].
    destruct (Ht i s Hi' Hr) as [Hv Hrule]. split; [done|].
    apply (record_rule_extends open l); [done| |done|done].
    split; [lia|]. exists s. replace (Z.to_nat (Z.of_nat i + 1 - 1)) with i by lia. split; [done|congruence].
  - intros i s Hi Hr. destruct (Hn2 i s Hi Hr) as [Hi'|Hnew]; [|done].
    destruct (Hd i s Hi' Hr) as [Hv Hrule]. split; [done|]. by apply (derived_rule_extends open l).
Qed.

Lemma laid_value_ok l r v : slots_ok project abi l -> laid l r v -> value_ok v.
Proof.
  intros Hok Hl. destruct (ref_kind r) eqn:Hk.
  - unfold laid, layout_value in Hl. rewrite Hk in Hl. by destruct (_ || _) in Hl.
  - apply laid_intrinsic in Hl as (_ & _ & Hl); [|done]. by eapply intrinsic_layout_ok.
  - apply laid_named in Hl as (Hv & Hl); [|done]. pose proof (payload_nonneg r).
    assert (payload r <> 0) by (unfold ref_valid in Hv; unbool; lia).
    apply layout_type_spec in Hl as (s & Hs & Hr & ->); [|lia]. by apply (types_ok _ _ _ Hok _ _ Hs).
  - apply laid_derived in Hl as (_ & _ & s & Hs & Hr & ->); [|done]. by apply (derived_slots_ok _ _ _ Hok _ _ Hs).
Qed.
End Order.

(** ** Writing places *)

Fixpoint write_at (offsets : list Z) (begin : Z) (ixs places : list Z) : list Z :=
  match ixs, places with
  | i :: ixs, o :: places => write_at (<[Z.to_nat (begin + i) := o]> offsets) begin ixs places
  | _, _ => offsets
  end.

Lemma write_at_length offsets begin ixs places : length (write_at offsets begin ixs places) = length offsets.
Proof.
  revert offsets places. induction ixs as [|i ixs IH]; intros offsets [|o places]; cbn; try done.
  by rewrite IH, length_insert.
Qed.

Lemma write_at_app offsets begin ixs ixs' places places' :
  length ixs = length places ->
  write_at offsets begin (ixs ++ ixs') (places ++ places') =
  write_at (write_at offsets begin ixs places) begin ixs' places'.
Proof.
  revert offsets places. induction ixs as [|i ixs IH]; intros offsets [|o places] Hl; try done.
  cbn. apply IH. cbn in Hl. lia.
Qed.

Lemma write_at_other offsets begin ixs places j :
  (forall i, i ∈ ixs -> Z.to_nat (begin + i) <> j) -> write_at offsets begin ixs places !! j = offsets !! j.
Proof.
  revert offsets places. induction ixs as [|i ixs IH]; intros offsets [|o places] Hj; try done.
  cbn. rewrite IH by (intros i' Hi'; apply Hj; by right). apply list_lookup_insert_ne, Hj. by left.
Qed.

Lemma write_at_offsets offsets begin ixs places :
  0 <= begin -> NoDup ixs -> length ixs = length places ->
  (forall i, i ∈ ixs -> 0 <= i /\ begin + i < Z.of_nat (length offsets)) ->
  offsets_at (write_at offsets begin ixs places) begin ixs places.
Proof.
  intros Hb Hnd. revert offsets places. induction Hnd as [|i ixs Hni Hnd IH]; intros offsets [|o places] Hl Hin; try done.
  - constructor.
  - cbn. constructor.
    + destruct (Hin i) as [? ?]; [by left|]. rewrite write_at_other.
      * apply list_lookup_insert_eq. lia.
      * intros i' Hi' Heq. destruct (Hin i') as [? ?]; [by right|]. assert (i' = i) as -> by lia. done.
    + apply IH; [cbn in Hl; lia|]. intros i' Hi'. rewrite length_insert. apply Hin. by right.
Qed.

Lemma positions_S n : positions (S n) = 0 :: ((fun i => 1 + i) <$> positions n).
Proof.
  unfold positions. cbn [seq]. rewrite <- seq_shift, fmap_cons. f_equal.
  rewrite <- !list_fmap_compose. apply list_fmap_ext. intros _ x _. cbn. lia.
Qed.

Lemma positions_length n : length (positions n) = n.
Proof. unfold positions. by rewrite length_fmap, length_seq. Qed.

Lemma positions_NoDup n : NoDup (positions n).
Proof. unfold positions. apply NoDup_fmap_2_strong; [|apply NoDup_seq]. intros. lia. Qed.

Lemma offsets_at_shift offsets begin ixs places :
  offsets_at offsets begin ((fun i => 1 + i) <$> ixs) places <-> offsets_at offsets (begin + 1) ixs places.
Proof.
  unfold offsets_at. rewrite Forall2_fmap_l.
  split; intros Hf; (eapply Forall2_impl; [exact Hf|]); cbn; intros i o <-; f_equal; lia.
Qed.

Lemma offsets_at_cons offsets begin n o places :
  offsets !! Z.to_nat begin = Some o -> offsets_at offsets (begin + 1) (positions n) places ->
  offsets_at offsets begin (positions (S n)) (o :: places).
Proof.
  intros Ho Hp. rewrite positions_S. constructor; [by rewrite Z.add_0_r|]. by apply offsets_at_shift.
Qed.

Lemma write_at_shift offsets begin ixs places :
  write_at offsets (begin + 1) ixs places = write_at offsets begin ((fun i => 1 + i) <$> ixs) places.
Proof.
  revert offsets places. induction ixs as [|i ixs IH]; intros offsets [|o places]; try done.
  cbn. rewrite IH. by replace (begin + 1 + i) with (begin + (1 + i)) by lia.
Qed.

(** ** Open records *)

Section Open.
Context `{ProjectView V} (project : V) (abi : server_abi_configuration) (laws : project_laws project).
Local Abbreviation extends := (extends project).
Local Abbreviation layout_ok := (layout_ok project abi).

Lemma visiting_filled l t : visiting l t -> filled l t.
Proof. intros (Ht & s & Hs & Hv). split; [done|]. exists s. split; [done|congruence]. Qed.

(** A record that is visited is not ready. *)
Lemma visiting_not_ready l t i s :
  visiting l t -> type_slots l !! i = Some s -> slot_status s = slot_ready -> Some (open_record (Z.of_nat i + 1)) <> Some (open_record t).
Proof.
  intros (Ht & s' & Hs' & Hv) Hi Hr [= <-]. replace (Z.to_nat (Z.of_nat i + 1 - 1)) with i in Hs' by lia. congruence.
Qed.

(** A layout that differs in the offsets of fields only. *)
Lemma sized_offsets l ms bs :
  length ms = length (member_offsets l) -> length bs = length (base_offsets l) ->
  sized project abi l -> sized project abi (with_base_offsets bs (with_member_offsets ms l)).
Proof. intros Hm Hb [? ? ? ? ? ? ? ? ?]. split; cbn; try done; congruence. Qed.

Lemma offsets_extend l t entry ms bs :
  filled l t -> project_type project t = Some entry -> tv_defined entry = true ->
  length ms = length (member_offsets l) -> length bs = length (base_offsets l) ->
  (forall j, ~ (range_begin (tv_members entry) <= Z.of_nat j < range_begin (tv_members entry) + range_count (tv_members entry)) ->
     ms !! j = member_offsets l !! j) ->
  (forall j, ~ (range_begin (tv_bases entry) <= Z.of_nat j < range_begin (tv_bases entry) + range_count (tv_bases entry)) ->
     bs !! j = base_offsets l !! j) ->
  extends (Some (open_record t)) l (with_base_offsets bs (with_member_offsets ms l)).
Proof.
  intros [Ht _] He Hd Hm Hb Hms Hbs. split; cbn; try done.
  - intros t' e i [Ht' _] Hne He' Hd' Hi. destruct (type_ranges project laws t' e He' Hd') as (? & _).
    destruct (ranges_disjoint project laws t t' entry e) as [Hap _]; try done; [congruence|].
    apply Hms. destruct Hap; lia.
  - intros t' e i [Ht' _] Hne He' Hd' Hi. destruct (type_ranges project laws t' e He' Hd') as (_ & _ & ? & _).
    destruct (ranges_disjoint project laws t t' entry e) as [_ Hap]; try done; [congruence|].
    apply Hbs. destruct Hap; lia.
Qed.

Lemma offsets_layout_ok l t entry ms bs :
  layout_ok l -> visiting l t -> project_type project t = Some entry -> tv_defined entry = true ->
  length ms = length (member_offsets l) -> length bs = length (base_offsets l) ->
  (forall j, ~ (range_begin (tv_members entry) <= Z.of_nat j < range_begin (tv_members entry) + range_count (tv_members entry)) ->
     ms !! j = member_offsets l !! j) ->
  (forall j, ~ (range_begin (tv_bases entry) <= Z.of_nat j < range_begin (tv_bases entry) + range_count (tv_bases entry)) ->
     bs !! j = base_offsets l !! j) ->
  layout_ok (with_base_offsets bs (with_member_offsets ms l)).
Proof.
  intros [Hsz Hsl Hw] Hv He Hd Hm Hb Hms Hbs. split.
  - by apply sized_offsets.
  - eapply (slots_ok_extends project abi (Some (open_record t)) l); [|done| |by left].
    + by eapply offsets_extend; [apply visiting_filled|..].
    + intros i s Hi Hr. left. split; [done|]. by eapply visiting_not_ready.
  - by destruct Hw.
Qed.

(** The record [t] is being laid out, with at most [n] empty slots left. *)
Record building (t : type_handle) (n : nat) (l : runtime_layout) : Prop := Building {
  building_ok : layout_ok l;
  building_visiting : visiting l t;
  building_empties : (empties l <= n)%nat
}.

Lemma building_extends t n l l' : building t n l -> layout_ok l' -> extends None l l' -> building t n l'.
Proof.
  intros [_ Hv He] Hok Hx. split; [done| |].
  - by apply (extends_visiting _ _ _ _ Hx).
  - pose proof (empties_extends _ _ _ _ Hx). lia.
Qed.

(** One offset of the open record. *)
Lemma building_member t n s entry i o :
  building t n (output s) -> project_type project t = Some entry -> tv_defined entry = true ->
  range_begin (tv_members entry) <= i < range_begin (tv_members entry) + range_count (tv_members entry) ->
  building t n (output (set_member_offset i o s)) /\ extends (Some (open_record t)) (output s) (output (set_member_offset i o s)).
Proof.
  intros [Hok Hv He] Hp Hd Hi. pose proof (type_ranges project laws t entry Hp Hd) as (Hb & _).
  assert (output (set_member_offset i o s) =
    with_base_offsets (base_offsets (output s))
      (with_member_offsets (<[Z.to_nat i := o]> (member_offsets (output s))) (output s))) as -> by done.
  assert (forall j, ~ (range_begin (tv_members entry) <= Z.of_nat j <
    range_begin (tv_members entry) + range_count (tv_members entry)) ->
    <[Z.to_nat i := o]> (member_offsets (output s)) !! j = member_offsets (output s) !! j) as Hj.
  { intros j Hj. apply list_lookup_insert_ne. lia. }
  split; [split; [|done..]|].
  - eapply offsets_layout_ok; [done|exact Hv|done|done|by rewrite length_insert|done..].
  - eapply offsets_extend; [by apply visiting_filled|done|done|by rewrite length_insert|done..].
Qed.
End Open.
