(* ===== verification/RuntimeRecords.v ===== *)
(** The loops over the members and bases of a record
    (project/runtime/runtime_layout.cpp): what they compute, given what the recursive
    calls promise.

    The layout of one record (project/runtime/runtime_layout.cpp): the order of its bases,
    the passes that place them, and the slot that is ready afterwards. *)

From S2P Require Import Prelude Identity GraphData GraphGrowth GraphTypes GraphRecords CompiledView ProjectView RuntimeLayout RuntimeRules RuntimeOrder.

Local Open Scope Z_scope.

Lemma wp_returns {A} (m : step A) a s Q : m s = Some (inr a, s) -> Q a s -> wp m s Q.
Proof. intros Hm HQ. exists (inr a), s. split; [done|]. by intros ? [= <-]. Qed.

Section Members.
Context `{ProjectView V} (project : V) (abi : server_abi_configuration) (laws : project_laws project).
Context (pack_positive : 0 < abi_pack abi).
Local Abbreviation extends := (extends project).
Local Abbreviation layout_ok := (layout_ok project abi).
Local Abbreviation building := (building project abi).
Local Abbreviation field_of := (field_of abi).
Local Abbreviation widest := (widest abi).

(** ** What a recursive call promises *)

(** It computes the value of its argument and only fills slots. *)
Definition computes {A} (f : A -> step runtime_value_layout) (pre : A -> Prop)
    (value : runtime_layout -> A -> runtime_value_layout -> Prop) (n : nat) : Prop :=
  forall a s, pre a -> layout_ok (output s) -> (empties (output s) <= n)%nat ->
  wp (f a) s (fun v s' => layout_ok (output s') /\ extends None (output s) (output s') /\ value (output s') a v).

(** It returns at once what is laid out already. *)
Definition recalls {A} (f : A -> step runtime_value_layout) (pre : A -> Prop)
    (value : runtime_layout -> A -> runtime_value_layout -> Prop) : Prop :=
  forall a s v, pre a -> sized project abi (output s) -> value (output s) a v -> f a s = Some (inr v, s).

Abbreviation any_reference := (fun _ : type_ref => True).
Definition laid_type (l : runtime_layout) (t : type_handle) (v : runtime_value_layout) : Prop := layout_type l t = Some v.
Abbreviation type_number := (fun t : type_handle => 0 <= t).

Lemma effective_positive v : value_ok v -> 0 < effective_alignment abi v.
Proof. intros [_ Ha]. unfold effective_alignment. lia. Qed.

Lemma field_of_ok v : value_ok v -> field_ok (field_of v).
Proof. intros Hv. split; cbn; [destruct Hv; lia|by apply effective_positive]. Qed.

(** A step of placing: the aligned cursor and the cursor behind the field. *)
Lemma aligned_spec v cursor aligned :
  value_ok v -> 0 <= cursor -> align_up cursor (effective_alignment abi v) = Some aligned ->
  aligned = round_up cursor (effective_alignment abi v) /\ cursor <= aligned.
Proof.
  intros Hv Hc Ha. pose proof (effective_positive v Hv) as Hp.
  destruct (align_up_spec cursor (effective_alignment abi v) aligned Hc ltac:(lia) Ha) as (_ & -> & _). split; [done|].
  destruct (round_up_spec cursor (effective_alignment abi v) Hp). lia.
Qed.

Lemma add_u64_spec a b c : add_u64 a b = Some c -> c = a + b.
Proof. unfold add_u64. destruct (_ <? _); [done|]. by intros [= <-]. Qed.

Lemma members_at_cons l begin m v vs :
  project_member_at project begin = Some m -> laid l (mv_type m) v -> members_at project l (begin + 1) vs ->
  members_at project l begin (v :: vs).
Proof.
  intros Hm Hl Hvs [|j] w Hj; cbn in Hj; simplify_eq.
  - exists m. split; [by rewrite Z.add_0_r|done].
  - destruct (Hvs j w Hj) as (m' & Hm' & Hl'). exists m'. split; [|done]. rewrite <- Hm'. f_equal. lia.
Qed.

Lemma members_at_uncons l begin v vs :
  members_at project l begin (v :: vs) ->
  (exists m, project_member_at project begin = Some m /\ laid l (mv_type m) v) /\ members_at project l (begin + 1) vs.
Proof.
  intros Hm. split.
  - destruct (Hm O v eq_refl) as (m & Hp & Hl). exists m. by rewrite Z.add_0_r in Hp.
  - intros j w Hj. destruct (Hm (S j) w Hj) as (m & Hp & Hl). exists m. split; [|done]. rewrite <- Hp. f_equal. lia.
Qed.

Lemma bases_at_cons l begin b bs :
  base_at project l begin b -> bases_at project l (begin + 1) bs -> bases_at project l begin (b :: bs).
Proof.
  intros Hb Hbs [|j] w Hj; cbn in Hj; simplify_eq.
  - by rewrite Z.add_0_r.
  - specialize (Hbs j w Hj). by replace (begin + Z.of_nat (S j)) with (begin + 1 + Z.of_nat j) by lia.
Qed.

Lemma bases_at_uncons l begin b bs :
  bases_at project l begin (b :: bs) -> base_at project l begin b /\ bases_at project l (begin + 1) bs.
Proof.
  intros Hb. split.
  - specialize (Hb O b eq_refl). by rewrite Z.add_0_r in Hb.
  - intros j w Hj. specialize (Hb (S j) w Hj). by replace (begin + 1 + Z.of_nat j) with (begin + Z.of_nat (S j)) by lia.
Qed.

Section Loops.
Context (resolve : type_ref -> step runtime_value_layout) (resolve_record : type_handle -> step runtime_value_layout).
Context (n : nat) (resolve_computes : computes resolve any_reference laid n).
Context (record_computes : computes resolve_record type_number laid_type n).
Context (resolve_recalls : recalls resolve any_reference laid).
Context (record_recalls : recalls resolve_record type_number laid_type).
Context (t : type_handle) (entry : type_view).
Context (is_entry : project_type project t = Some entry) (is_defined : tv_defined entry = true).

Abbreviation member_begin := (range_begin (tv_members entry)).
Abbreviation base_begin := (range_begin (tv_bases entry)).

Definition member_untouched (local : Z) (l l' : runtime_layout) : Prop :=
  forall i, 0 <= i < local ->
  member_offsets l' !! Z.to_nat (member_begin + i) = member_offsets l !! Z.to_nat (member_begin + i).

(** A recursive call leaves the offsets of the open record. *)
Lemma open_untouched k l l' :
  building t n l -> extends None l l' -> k <= range_count (tv_members entry) -> member_untouched k l l'.
Proof.
  intros Hb Hx Hk i Hi. apply (extends_members _ _ _ _ Hx t entry); try done; [|lia].
  by apply visiting_filled, (building_visiting _ _ _ _ _ Hb).
Qed.

(** ** A record without bases *)

Lemma plain_members_spec is_union k local cursor us al s :
  building t n (output s) -> 0 <= local -> local + Z.of_nat k <= range_count (tv_members entry) -> 0 <= cursor ->
  wp (plain_members project abi resolve is_union member_begin local k cursor us al) s (fun r s' => exists vs,
    length vs = k /\ Forall value_ok vs /\ building t n (output s') /\ extends (Some (open_record t)) (output s) (output s') /\
    members_at project (output s') (member_begin + local) vs /\ member_untouched local (output s) (output s') /\
    r = (if is_union then cursor else placed_end cursor (field_of <$> vs),
         if is_union then largest us vs else us, widest al vs) /\
    offsets_at (member_offsets (output s')) (member_begin + local) (positions k)
      (if is_union then replicate k 0 else placed cursor (field_of <$> vs))).
Proof.
  revert local cursor us al s. induction k as [|k IH]; intros local cursor us al s Hb Hl Hk Hc.
  { cbn [plain_members]. steps. exists []. split_and!; try done; [by destruct is_union|].
    by destruct is_union; constructor. }
  pose proof (type_ranges project laws t entry is_entry is_defined) as (Hmb & _).
  cbn [plain_members]. steps. unbool.
  apply wp_element; [lia|]. intros off Hoff. steps.
  eapply wp_mono; [apply resolve_computes; [done|apply Hb|apply Hb]|]. cbn beta.
  intros v s1 (Hok1 & Hx1 & Hv1).
  pose proof (building_extends _ _ _ _ _ _ Hb Hok1 Hx1) as Hb1.
  assert (value_ok v) as Hval by (by eapply laid_value_ok; [apply Hok1|]). steps.
  set (place := if is_union then 0 else round_up cursor (effective_alignment abi v)).
  set (s2 := set_member_offset (member_begin + local) place s1).
  destruct (building_member project abi laws t n s1 entry (member_begin + local) place Hb1 is_entry is_defined) as [Hb2 Hx2]; [lia|].
  fold s2 in Hb2, Hx2.
  assert (forall cursor' us', 0 <= cursor' ->
    cursor' = (if is_union then cursor else place + value_size v) ->
    us' = (if is_union then Z.max us (value_size v) else us) ->
    wp (plain_members project abi resolve is_union member_begin (local + 1) k cursor' us'
      (Z.max al (effective_alignment abi v))) s2 (fun r s' => exists vs,
    length vs = S k /\ Forall value_ok vs /\ building t n (output s') /\ extends (Some (open_record t)) (output s) (output s') /\
    members_at project (output s') (member_begin + local) vs /\ member_untouched local (output s) (output s') /\
    r = (if is_union then cursor else placed_end cursor (field_of <$> vs),
         if is_union then largest us vs else us, widest al vs) /\
    offsets_at (member_offsets (output s')) (member_begin + local) (positions (S k))
      (if is_union then replicate (S k) 0 else placed cursor (field_of <$> vs)))) as Hrest.
  { intros cursor' us' Hc' Ecur Eus. eapply wp_mono; [apply (IH (local + 1)); [done|lia..]|].
    cbn beta. intros r s3 (vs & Hlen & Hvs & Hb3 & Hx3 & Hm3 & Hu3 & -> & Ho3).
    assert (member_offsets (output s2) !! Z.to_nat (member_begin + local) = Some place) as Hown.
    { cbn. apply list_lookup_insert_eq. pose proof (extends_lengths _ _ _ _ Hx1). lia. }
    exists (v :: vs). split; [cbn; lia|]. split; [by constructor|]. split; [done|].
    split. { eapply extends_trans; [by apply extends_weaken, Hx1|]. by eapply extends_trans. }
    split. { replace (member_begin + (local + 1)) with (member_begin + local + 1) in Hm3 by lia.
      eapply members_at_cons; [done| |done]. eapply laid_extends; [exact Hx3|]. eapply laid_extends; [exact Hx2|done]. }
    split. { intros i Hi. rewrite (Hu3 i) by lia. cbn. rewrite list_lookup_insert_ne by lia.
      apply (open_untouched (local + 1) _ _ Hb Hx1); lia. }
    split. { subst cursor' us'. by destruct is_union. }
    replace (if is_union then replicate (S k) 0 else placed cursor (field_of <$> v :: vs))
      with (place :: (if is_union then replicate k 0 else placed cursor' (field_of <$> vs)))
      by (subst cursor'; by destruct is_union).
    apply offsets_at_cons; [rewrite (Hu3 local) by lia; done|].
    by replace (member_begin + local + 1) with (member_begin + (local + 1)) by lia. }
  destruct is_union; cbn [place] in *.
  - steps. by apply Hrest.
  - steps. match goal with Ha : align_up _ _ = Some _ |- _ => apply (aligned_spec v) in Ha as [-> Hle]; [|done..] end.
    match goal with Ha : add_u64 _ _ = Some _ |- _ => apply add_u64_spec in Ha as -> end.
    apply Hrest; try done. destruct Hval. lia.
Qed.

(** ** The passes over a record with bases *)

Lemma visit_members_spec k local al s :
  building t n (output s) -> 0 <= local -> local + Z.of_nat k <= range_count (tv_members entry) ->
  wp (visit_members project abi resolve member_begin local k al) s (fun al' s' => exists vs,
    length vs = k /\ Forall value_ok vs /\ building t n (output s') /\ extends None (output s) (output s') /\
    members_at project (output s') (member_begin + local) vs /\ al' = widest al vs).
Proof.
  revert local al s. induction k as [|k IH]; intros local al s Hb Hl Hk; cbn [visit_members].
  { steps. exists []. split_and!; done. }
  pose proof (type_ranges project laws t entry is_entry is_defined) as (Hmb & _).
  steps. unbool. apply wp_element; [lia|]. intros off Hoff. steps.
  eapply wp_mono; [apply resolve_computes; [done|apply Hb|apply Hb]|]. cbn beta.
  intros v s1 (Hok1 & Hx1 & Hv1).
  pose proof (building_extends _ _ _ _ _ _ Hb Hok1 Hx1) as Hb1.
  assert (value_ok v) as Hval by (by eapply laid_value_ok; [apply Hok1|]). steps.
  eapply wp_mono; [apply (IH (local + 1)); [done|lia..]|]. cbn beta.
  intros al' s2 (vs & Hlen & Hvs & Hb2 & Hx2 & Hm2 & ->). exists (v :: vs).
  split; [cbn; lia|]. split; [by constructor|]. split; [done|]. split; [by eapply extends_trans|]. split; [|done].
  eapply members_at_cons; [done|by eapply laid_extends|].
  by replace (member_begin + local + 1) with (member_begin + (local + 1)) by lia.
Qed.

(** The first polymorphic base. *)
Fixpoint first_polymorphic (primary : option Z) (local : Z) (bs : list (bool * runtime_value_layout)) : option Z :=
  match bs with
  | [] => primary
  | b :: bs => first_polymorphic (if b.1 && bool_decide (primary = None) then Some local else primary) (local + 1) bs
  end.

Context (bases_in_range : base_begin + range_count (tv_bases entry) <= base_count project).

Lemma visit_bases_spec k local primary al s :
  building t n (output s) -> 0 <= local -> local + Z.of_nat k <= range_count (tv_bases entry) ->
  wp (visit_bases project abi resolve_record base_begin local k primary al) s (fun r s' => exists bs,
    length bs = k /\ Forall value_ok (map snd bs) /\ building t n (output s') /\ extends None (output s) (output s') /\
    bases_at project (output s') (base_begin + local) bs /\
    r = (first_polymorphic primary local bs, widest al (map snd bs))).
Proof.
  revert local primary al s. induction k as [|k IH]; intros local primary al s Hb Hl Hk; cbn [visit_bases].
  { steps. exists []. split_and!; done. }
  pose proof (type_ranges project laws t entry is_entry is_defined) as (_ & _ & Hbb & _).
  pose proof (sized_bases _ _ _ (ok_sized _ _ _ (building_ok _ _ _ _ _ Hb))).
  steps. apply wp_element; [lia|]. intros off Hoff. steps. unbool.
  pose proof (base_handles_unsigned project laws _ _ ltac:(eassumption)).
  eapply wp_mono; [apply record_computes; [done|apply Hb|apply Hb]|]. cbn beta.
  intros v s1 (Hok1 & Hx1 & Hv1).
  pose proof (building_extends _ _ _ _ _ _ Hb Hok1 Hx1) as Hb1.
  pose proof (extends_lengths _ _ _ _ Hx1) as (Hl1 & _).
  assert (value_ok v) as Hval.
  { unfold laid_type in Hv1. apply layout_type_spec in Hv1 as (sl & Hs & Hr & ->); [|lia].
    by apply (types_ok _ _ _ (ok_slots _ _ _ Hok1) _ _ Hs). }
  steps. apply wp_element; [lia|]. intros sl Hsl. steps. unbool.
  eapply wp_mono; [apply (IH (local + 1)); [done|lia..]|]. cbn beta.
  intros r s2 (bs & Hlen & Hvs & Hb2 & Hx2 & Hbs2 & ->).
  match goal with He : project_type project _ = Some ?e, Hp : project_base_at project _ = Some ?base |- _ =>
    exists ((tv_polymorphic e, v) :: bs) end.
  split; [cbn; lia|]. split; [by constructor|]. split; [done|]. split; [by eapply extends_trans|]. split; [|done].
  apply bases_at_cons; [|by replace (base_begin + local + 1) with (base_begin + (local + 1)) by lia].
  eapply base_at_extends; [exact Hx2|]. do 2 eexists. split_and!; try done; lia.
Qed.

(** ** Placing *)

Definition write_bases (ixs places : list Z) : builder -> builder :=
  update_output (fun l => with_base_offsets (write_at (base_offsets l) base_begin ixs places) l).
Definition write_members (begin : Z) (ixs places : list Z) : builder -> builder :=
  update_output (fun l => with_member_offsets (write_at (member_offsets l) begin ixs places) l).

Lemma write_bases_app ixs ixs' places places' s :
  length ixs = length places ->
  write_bases ixs' places' (write_bases ixs places s) = write_bases (ixs ++ ixs') (places ++ places') s.
Proof. intros Hl. unfold write_bases, update_output. cbn. by rewrite write_at_app. Qed.

Lemma write_bases_sized ixs places s : sized project abi (output s) -> sized project abi (output (write_bases ixs places s)).
Proof. intros [? ? ? ? ? ? ? ? ?]. split; cbn; try done. by rewrite write_at_length. Qed.

Lemma place_base_spec local cursor b s :
  sized project abi (output s) -> base_at project (output s) (base_begin + local) b -> value_ok b.2 ->
  0 <= local < range_count (tv_bases entry) -> 0 <= cursor ->
  wp (place_base project abi resolve_record base_begin (range_count (tv_bases entry)) local cursor) s
    (fun c s' => c = round_up cursor (effective_alignment abi b.2) + value_size b.2 /\
      s' = write_bases [local] [round_up cursor (effective_alignment abi b.2)] s).
Proof.
  intros Hsz (base & e & Hbase & Hvirt & Ht & Hle & Hv & He) Hval Hl Hc. unfold place_base.
  pose proof (type_ranges project laws t entry is_entry is_defined) as (_ & _ & Hbb & _).
  pose proof (sized_bases _ _ _ Hsz).
  steps. apply wp_element; [lia|]. intros off Hoff. steps.
  match goal with Hp : project_base_at project _ = Some ?x |- _ => assert (x = base) as -> by congruence end.
  eapply wp_returns; [apply record_recalls; [cbn; lia|done|exact Hv]|]. steps.
  match goal with Ha : align_up _ _ = Some _ |- _ => apply (aligned_spec b.2) in Ha as [-> Hle']; [|done..] end.
  match goal with Ha : add_u64 _ _ = Some _ |- _ => apply add_u64_spec in Ha as -> end. done.
Qed.

(** The passes place the selected bases one after the other. *)
Lemma place_bases_of_spec primary pol local bs cursor s :
  let sel := selected (fun i p => Bool.eqb p pol && negb ((i =? primary) && pol)) local bs in
  sized project abi (output s) -> bases_at project (output s) (base_begin + local) bs -> Forall value_ok (map snd bs) ->
  0 <= local -> local + Z.of_nat (length bs) <= range_count (tv_bases entry) -> 0 <= cursor ->
  wp (place_bases_of project abi resolve_record base_begin (range_count (tv_bases entry)) primary pol local
      (length bs) cursor) s
    (fun c s' => c = placed_end cursor (field_of <$> map snd sel) /\
      s' = write_bases (map fst sel) (placed cursor (field_of <$> map snd sel)) s).
Proof.
  cbv zeta. revert local cursor s. induction bs as [|b bs IH]; intros local cursor s Hsz Hbs Hval Hl Hk Hc.
  { cbn. steps. split; [done|]. by destruct s as [[] ? ?]. }
  apply Forall_cons in Hval as [Hval Hvals]. apply bases_at_uncons in Hbs as [Hb Hbs].
  replace (base_begin + local + 1) with (base_begin + (local + 1)) in Hbs by lia.
  cbn [length place_bases_of selected]. cbn [length] in Hk.
  destruct ((local =? primary) && pol) eqn:Eskip.
  { cbn [negb]. rewrite andb_false_r. apply IH; try done; lia. }
  cbn [negb]. rewrite andb_true_r. steps. pose proof Hb as (base & e & Hbase & _ & _ & _ & _ & He & _ & Hpoly).
  match goal with Hp : project_base_at project _ = Some ?x |- _ => assert (x = base) as -> by congruence end.
  match goal with Hp : project_type project (bv_type base) = Some ?x |- _ => assert (x = e) as -> by congruence end.
  rewrite Hpoly. destruct (Bool.eqb b.1 pol).
  - eapply wp_mono; [apply (place_base_spec local cursor b); try done; lia|]. intros c s1 [-> ->]. cbn beta.
    destruct (round_up_spec cursor (effective_alignment abi b.2) (effective_positive _ Hval)).
    eapply wp_mono; [apply (IH (local + 1)); try done; [by apply write_bases_sized|lia|lia|destruct Hval; lia]|].
    intros c s2 [-> ->]. split; [done|]. by rewrite write_bases_app.
  - steps. apply IH; try done; lia.
Qed.

Lemma place_bases_spec local bs cursor s :
  let sel := selected (fun _ _ => true) local bs in
  sized project abi (output s) -> bases_at project (output s) (base_begin + local) bs -> Forall value_ok (map snd bs) ->
  0 <= local -> local + Z.of_nat (length bs) <= range_count (tv_bases entry) -> 0 <= cursor ->
  wp (place_bases project abi resolve_record base_begin (range_count (tv_bases entry)) local (length bs) cursor) s
    (fun c s' => c = placed_end cursor (field_of <$> map snd sel) /\
      s' = write_bases (map fst sel) (placed cursor (field_of <$> map snd sel)) s).
Proof.
  cbv zeta. revert local cursor s. induction bs as [|b bs IH]; intros local cursor s Hsz Hbs Hval Hl Hk Hc.
  { cbn. steps. split; [done|]. by destruct s as [[] ? ?]. }
  apply Forall_cons in Hval as [Hval Hvals]. apply bases_at_uncons in Hbs as [Hb Hbs].
  replace (base_begin + local + 1) with (base_begin + (local + 1)) in Hbs by lia.
  cbn [length place_bases selected]. cbn [length] in Hk. steps.
  eapply wp_mono; [apply (place_base_spec local cursor b); try done; lia|]. intros c s1 [-> ->]. cbn beta.
  destruct (round_up_spec cursor (effective_alignment abi b.2) (effective_positive _ Hval)).
  eapply wp_mono; [apply (IH (local + 1)); try done; [by apply write_bases_sized|lia|lia|destruct Hval; lia]|].
  intros c s2 [-> ->]. split; [done|]. by rewrite write_bases_app.
Qed.

Lemma place_members_spec local vs cursor s :
  sized project abi (output s) -> members_at project (output s) (member_begin + local) vs -> Forall value_ok vs ->
  0 <= cursor ->
  wp (place_members project abi resolve member_begin local (length vs) cursor) s
    (fun c s' => c = placed_end cursor (field_of <$> vs) /\
      s' = write_members (member_begin + local) (positions (length vs)) (placed cursor (field_of <$> vs)) s).
Proof.
  revert local cursor s. induction vs as [|v vs IH]; intros local cursor s Hsz Hm Hval Hc.
  { cbn. steps. split; [done|]. by destruct s as [[] ? ?]. }
  apply Forall_cons in Hval as [Hval Hvals]. apply members_at_uncons in Hm as [(m & Hm & Hv) Hms].
  replace (member_begin + local + 1) with (member_begin + (local + 1)) in Hms by lia.
  cbn [length place_members]. steps.
  match goal with Hp : project_member_at project _ = Some ?x |- _ => assert (x = m) as -> by congruence end.
  eapply wp_returns; [by apply resolve_recalls|]. steps.
  match goal with Ha : align_up _ _ = Some _ |- _ => apply (aligned_spec v) in Ha as [-> Hle]; [|done..] end.
  match goal with Ha : add_u64 _ _ = Some _ |- _ => apply add_u64_spec in Ha as -> end.
  eapply wp_mono; [apply (IH (local + 1)); try done; [|destruct Hval; lia]|].
  - destruct Hsz. split; cbn; try done. by rewrite length_insert.
  - intros c s2 [-> ->]. split; [done|]. cbn [length]. rewrite positions_S. unfold write_members, update_output. cbn.
    rewrite Z.add_0_r, <- write_at_shift. by replace (member_begin + local + 1) with (member_begin + (local + 1)) by lia.
Qed.
End Loops.
End Members.

(** ** The order of bases *)

Abbreviation laid_base := (bool * runtime_value_layout)%type.

Lemma selected_ext keep keep' local bs :
  (forall i p, keep i p = keep' i p) -> selected keep local bs = selected keep' local bs.
Proof. intros He. revert local. induction bs as [|b bs IH]; intros local; cbn; [done|]. by rewrite He, IH. Qed.

Lemma selected_keeps keep keep' local (bs : list laid_base) :
  (forall i p, local <= i -> keep i p = keep' i p) -> selected keep local bs = selected keep' local bs.
Proof.
  revert local. induction bs as [|b bs IH]; intros local He; cbn; [done|].
  rewrite (He local) by lia. rewrite (IH (local + 1)); [done|]. intros i p Hi. apply He. lia.
Qed.

Lemma selected_spec keep local bs i v :
  (i, v) ∈ selected keep local bs -> exists p, bs !! Z.to_nat (i - local) = Some (p, v) /\ keep i p = true.
Proof.
  revert local. induction bs as [|b bs IH]; intros local; cbn; [by intros ?%not_elem_of_nil|].
  rewrite elem_of_app. intros [Hin|Hin].
  - destruct (keep local b.1) eqn:Hk; [|by apply not_elem_of_nil in Hin]. apply list_elem_of_singleton in Hin. simplify_eq.
    exists b.1. rewrite Z.sub_diag. by destruct b.
  - pose proof (selected_bound _ _ _ _ _ Hin) as Hb. destruct (IH _ Hin) as (p & Hp & Hk). exists p. split; [|done].
    by replace (Z.to_nat (i - local)) with (S (Z.to_nat (i - (local + 1)))) by lia.
Qed.

Lemma selected_NoDup keep local bs : NoDup (map fst (selected keep local bs)).
Proof.
  revert local. induction bs as [|b bs IH]; intros local; cbn; [constructor|].
  destruct (keep local b.1); cbn; [|apply IH]. constructor; [|apply IH].
  intros ([i v] & Heq & Hin)%list_elem_of_fmap. cbn in Heq. subst i. apply selected_bound in Hin. lia.
Qed.

Lemma base_order_NoDup bs : NoDup (map fst (base_order bs)).
Proof.
  unfold base_order. rewrite map_app. apply NoDup_app. split; [apply selected_NoDup|]. split; [|apply selected_NoDup].
  intros i ([i1 v] & -> & H1)%list_elem_of_fmap ([i2 w] & Heq & H2)%list_elem_of_fmap. cbn in Heq. subst i2.
  apply selected_spec in H1 as (p & Hp & Hk). apply selected_spec in H2 as (q & Hq & Hk').
  rewrite Hp in Hq. by simplify_eq.
Qed.

Lemma base_order_values bs v : v ∈ map snd (base_order bs) -> v ∈ map snd bs.
Proof.
  unfold base_order. rewrite map_app. intros [Hin|Hin]%elem_of_app;
    apply list_elem_of_fmap in Hin as ([i w] & -> & Hin); apply selected_spec in Hin as (p & Hp & _);
    apply list_elem_of_fmap; exists (p, w); (split; [done|]); by eapply list_elem_of_lookup_2.
Qed.

Lemma first_polymorphic_kept p local bs : first_polymorphic (Some p) local bs = Some p.
Proof.
  revert local. induction bs as [|b bs IH]; intros local; cbn; [done|]. rewrite andb_false_r. apply IH.
Qed.

Lemma first_polymorphic_none local bs :
  first_polymorphic None local bs = None ->
  existsb fst bs = false /\ selected (fun _ p => p) local bs = [] /\
  selected (fun _ p => negb p) local bs = selected (fun _ _ => true) local bs.
Proof.
  revert local. induction bs as [|b bs IH]; intros local; cbn; [done|].
  rewrite andb_true_r. destruct b.1; [by rewrite first_polymorphic_kept|]. intros Hn.
  destruct (IH _ Hn) as (He & Hs & Ht). by rewrite He, Hs, Ht.
Qed.

Lemma first_polymorphic_some local bs p :
  first_polymorphic None local bs = Some p ->
  existsb fst bs = true /\ local <= p /\ exists v, bs !! Z.to_nat (p - local) = Some (true, v) /\
  selected (fun _ q => q) local bs =
    (p, v) :: selected (fun i q => Bool.eqb q true && negb ((i =? p) && true)) local bs.
Proof.
  revert local. induction bs as [|b bs IH]; intros local; cbn; [done|].
  rewrite andb_true_r. destruct b as [q v]. cbn. destruct q; cbn.
  - rewrite first_polymorphic_kept. intros [= <-]. split; [done|]. split; [lia|].
    exists v. rewrite Z.sub_diag, Z.eqb_refl. split; [done|]. cbn. f_equal.
    apply selected_keeps. intros i q Hi. destruct (Z.eqb_spec i local); [lia|]. by destruct q.
  - intros Hf. destruct (IH _ Hf) as (He & Hp & w & Hw & Hs). split; [done|]. split; [lia|].
    exists w. rewrite Hs. split; [|done].
    by replace (Z.to_nat (p - local)) with (S (Z.to_nat (p - (local + 1)))) by lia.
Qed.

(** ** Alignments *)

Section Records.
Context `{ProjectView V} (project : V) (abi : server_abi_configuration) (laws : project_laws project).
Context (pack_positive : 0 < abi_pack abi).
Local Abbreviation extends := (extends project).
Local Abbreviation layout_ok := (layout_ok project abi).
Local Abbreviation building := (building project abi).
Local Abbreviation field_of := (field_of abi).
Local Abbreviation widest := (widest abi).

Lemma widest_le start vs : start <= widest start vs.
Proof.
  unfold RuntimeRules.widest. revert start. induction vs as [|v vs IH]; intros start; cbn; [lia|].
  specialize (IH (Z.max start (effective_alignment abi v))). lia.
Qed.

Lemma widest_app start vs ws : widest start (vs ++ ws) = widest (widest start vs) ws.
Proof. apply foldl_app. Qed.

Lemma largest_le start vs : start <= largest start vs.
Proof.
  unfold largest. revert start. induction vs as [|v vs IH]; intros start; cbn; [lia|].
  specialize (IH (Z.max start (value_size v))). lia.
Qed.

Lemma record_alignment_positive entry bs ms : 1 <= record_alignment abi entry bs ms.
Proof.
  unfold record_alignment. pose proof (widest_le 1 (map snd bs ++ ms)). destruct (own_pointer _ _); lia.
Qed.

Lemma pointer_size_positive t : 0 < pointer_size (abi_layout_properties t).
Proof. by destruct t. Qed.

Lemma record_header_nonneg entry bs ms : 0 <= record_header abi entry bs ms.
Proof.
  unfold record_header. destruct (own_pointer _ _); [|lia]. pose proof (pointer_size_positive (abi_target_value abi)).
  pose proof (record_alignment_positive entry bs ms).
  destruct (round_up_spec (pointer_size (abi_layout_properties (abi_target_value abi))) (record_alignment abi entry bs ms)); lia.
Qed.

Lemma fields_ok vs : Forall value_ok vs -> Forall field_ok (field_of <$> vs).
Proof. intros Hv. apply Forall_fmap. eapply Forall_impl; [exact Hv|]. intros v Hok. by apply field_of_ok. Qed.

Lemma record_fields_ok bs ms :
  Forall value_ok (map snd bs) -> Forall value_ok ms -> Forall field_ok (record_fields abi bs ms).
Proof.
  intros Hb Hm. apply fields_ok, Forall_app. split; [|done].
  rewrite Forall_forall in Hb |- *. intros v Hv. by apply Hb, base_order_values.
Qed.

(** ** The generation of the marks *)

Lemma next_generation_spec marks_allocated s :
  wp (next_generation marks_allocated) s (fun _ s' =>
    output s' = output s /\ length (base_marks s') = length (type_slots (output s))).
Proof.
  unfold next_generation. steps. destruct (Nat.eqb_spec (length (base_marks s)) (length (type_slots (output s)))).
  - steps. destruct (_ =? 0); cbn; by rewrite ?length_replicate.
  - destruct marks_allocated; steps. destruct (_ =? 0); cbn; by rewrite ?length_replicate.
Qed.

Lemma mark_bases_spec begin local k mark s :
  length (base_marks s) = length (type_slots (output s)) ->
  wp (mark_bases project begin local k mark) s (fun _ s' => output s' = output s).
Proof.
  revert local s. induction k as [|k IH]; intros local s Hl; cbn [mark_bases]; steps; [done|]. unbool.
  pose proof (base_handles_unsigned project laws _ _ ltac:(eassumption)).
  apply wp_element; [lia|]. intros m Hm. steps.
  eapply wp_mono; [apply IH; cbn; by rewrite length_insert|]. done.
Qed.
End Records.
