(* ===== verification/RuntimeRecursion.v ===== *)
(** The bodies of the recursion (project/runtime/runtime_layout.cpp): the layout of a
    record with and without bases, of a derived type and of a reference, each given what
    the recursive calls promise.

    The recursion of the layout builder (project/runtime/runtime_layout.cpp): derived types,
    references and the worklist of unconnected types; with enough fuel the recursion
    returns, and what it lays out obeys the rules. *)

From S2P Require Import Prelude Identity GraphData GraphGrowth GraphTypes GraphRecords CompiledView ProjectView RuntimeLayout RuntimeRules RuntimeOrder RuntimeRecords.

Local Open Scope Z_scope.

Section Bodies.
Context `{ProjectView V} (project : V) (abi : server_abi_configuration) (laws : project_laws project).
Context (pack_positive : 0 < abi_pack abi).
Context (marks_allocated : bool) (worklist_allocated : nat -> bool).
Local Abbreviation extends := (extends project).
Local Abbreviation layout_ok := (layout_ok project abi).
Local Abbreviation building := (building project abi).
Local Abbreviation field_of := (field_of abi).
Local Abbreviation widest := (widest abi).
Local Abbreviation record_facts := (record_facts project abi).
Local Abbreviation any_reference := (fun _ : type_ref => True).
Local Abbreviation type_number := (fun t : type_handle => 0 <= t).

Section Record.
Context (resolve : type_ref -> step runtime_value_layout) (resolve_record : type_handle -> step runtime_value_layout).
Context (n : nat) (resolve_computes : computes project abi resolve any_reference laid n).
Context (record_computes : computes project abi resolve_record type_number laid_type n).
Context (resolve_recalls : recalls project abi resolve any_reference laid).
Context (record_recalls : recalls project abi resolve_record type_number laid_type).
Context (t : type_handle) (entry : type_view).
Context (is_entry : project_type project t = Some entry) (is_defined : tv_defined entry = true).

Local Abbreviation bases_in_range := (range_begin (tv_bases entry) + range_count (tv_bases entry) <= base_count project).

Local Abbreviation member_begin := (range_begin (tv_members entry)).
Local Abbreviation base_begin := (range_begin (tv_bases entry)).
Local Abbreviation write_bases := (write_bases entry).
Local Abbreviation order bs := (base_order bs).
Local Abbreviation order_fields bs := (field_of <$> map snd (base_order bs)).

(** ** The bases *)

Lemma place_all_bases_spec bs own alignment s :
  bases_in_range ->
  sized project abi (output s) -> bases_at project (output s) base_begin bs -> Forall value_ok (map snd bs) ->
  length bs = Z.to_nat (range_count (tv_bases entry)) -> 1 <= alignment ->
  own = tv_polymorphic entry && negb (existsb fst bs) ->
  let header := if own then round_up (pointer_size (abi_layout_properties (abi_target_value abi))) alignment else 0 in
  wp (place_all_bases project abi resolve_record entry (first_polymorphic None 0 bs) own alignment) s
    (fun c s' => c = placed_end header (order_fields bs) /\
      s' = write_bases (map fst (order bs)) (placed header (order_fields bs)) s).
Proof.
  intros Hrange Hsz Hbs Hval Hlen Hal Hown header. unfold place_all_bases, base_order.
  pose proof (type_ranges project laws t entry is_entry is_defined) as (_ & _ & Hbb & Hbc).
  pose proof (sized_bases _ _ _ Hsz) as Hsb.
  destruct (first_polymorphic None 0 bs) as [p|] eqn:Hp.
  - destruct (first_polymorphic_some _ _ _ Hp) as (Hex & Hp0 & v & Hv & ->).
    rewrite Hex, andb_false_r in Hown. subst own. cbn in header. subst header.
    rewrite Z.sub_0_r in Hv. pose proof (Hbs _ _ Hv) as Hb.
    rewrite Z2Nat.id in Hb by done. pose proof Hb as (base & e & Hbase & Hvirt & Ht & Hle & Hlaid & _). cbn [snd] in Hlaid.
    assert (value_ok v) as Hvok.
    { rewrite Forall_forall in Hval. apply Hval, list_elem_of_fmap. exists (true, v). split; [done|].
      by eapply list_elem_of_lookup_2. }
    steps. match goal with Hq : project_base_at project _ = Some ?x |- _ => assert (x = base) as -> by congruence end.
    eapply wp_returns; [apply record_recalls; [cbn; lia|done|exact Hlaid]|]. steps.
    apply lookup_lt_Some in Hv as Hplt. apply wp_element; [lia|]. intros off Hoff. steps.
    set (s1 := set_base_offset (base_begin + p) 0 s).
    assert (s1 = write_bases [p] [0] s) as Hs1 by done. rewrite <- Hlen.
    assert (sized project abi (output s1)) as Hsz1 by (rewrite Hs1; by apply write_bases_sized).
    assert (bases_at project (output s1) (base_begin + 0) bs) as Hbs1 by by rewrite Z.add_0_r.
    pose proof Hvok as [[Hv0 _] _].
    eapply wp_mono; [eapply (place_bases_of_spec project abi laws); try done; lia|]. cbn beta. intros c2 s2 [-> ->].
    set (sel1 := selected (fun i q => Bool.eqb q true && negb ((i =? p) && true)) 0 bs).
    assert (Forall field_ok (field_of <$> map snd sel1)) as Hf1.
    { apply fields_ok; [done|]. rewrite Forall_forall in Hval |- *. intros w Hw. apply Hval.
      apply list_elem_of_fmap in Hw as ([i w'] & -> & Hin). apply selected_spec in Hin as (q & Hq & _).
      apply list_elem_of_fmap. exists (q, w'). split; [done|]. by eapply list_elem_of_lookup_2. }
    pose proof (placed_end_le (value_size v) _ Hf1) as Hle1.
    eapply wp_mono; [eapply (place_bases_of_spec project abi laws); try done; [by apply write_bases_sized|lia..]|].
    cbn beta. intros c3 s3 [-> ->].
    rewrite (selected_ext (fun i q => Bool.eqb q false && negb ((i =? p) && false)) (fun _ q => negb q))
      by (intros i q; rewrite andb_false_r; by destruct q).
    rewrite Hs1, !write_bases_app by by rewrite ?length_app, ?placed_length, ?length_fmap, ?length_map.
    rewrite !map_app, placed_end_app, placed_app. cbn -[write_bases].
    by rewrite round_up_0 by (by apply effective_positive).
  - destruct (first_polymorphic_none _ _ Hp) as (Hex & -> & ->). rewrite <- Hlen, app_nil_l.
    assert (bases_at project (output s) (base_begin + 0) bs) as Hbs1 by by rewrite Z.add_0_r.
    destruct own eqn:Eown; steps.
    + pose proof (pointer_size_positive (abi_target_value abi)) as Hps.
      match goal with Ha : align_up _ _ = Some _ |- _ => apply align_up_spec in Ha as (_ & -> & _); [|lia..] end.
      assert (0 <= header) as Hh by (destruct (round_up_spec (pointer_size (abi_layout_properties (abi_target_value abi))) alignment); lia).
      eapply (place_bases_spec project abi laws); try done; lia.
    + eapply (place_bases_spec project abi laws); try done; lia.
Qed.

(** ** The finished record *)

Definition ready_slot (v : runtime_value_layout) (empty : bool) : layout_slot :=
  LayoutSlot (value_size v) (value_alignment v) slot_ready empty.

(** The fields are placed in [s2] and the slot is ready. *)
Definition record_done (s : builder) (v : runtime_value_layout) (s' : builder) : Prop :=
  exists s2 bs ms empty, building t n (output s2) /\ extends (Some (open_record t)) (output s) (output s2) /\
    s' = set_type_slot t (ready_slot v empty) s2 /\ value_ok v /\
    record_facts (output s2) (ready_slot v empty) entry bs ms.

Lemma finish_record_spec raw alignment empty s :
  0 <= raw -> 1 <= alignment ->
  wp (finish_record t raw alignment empty) s (fun v s' =>
    v = ValueLayout (round_up (if raw =? 0 then 1 else raw) alignment) alignment /\ value_ok v /\
    s' = set_type_slot t (ready_slot v empty) s).
Proof.
  intros Hr Ha. unfold finish_record. assert (1 <= if raw =? 0 then 1 else raw) as Hraw by (destruct (Z.eqb_spec raw 0); lia).
  steps. unbool. match goal with Hx : align_up _ _ = Some _ |- _ => apply align_up_spec in Hx as (_ & -> & _); [|lia..] end.
  destruct (round_up_spec (if raw =? 0 then 1 else raw) alignment); [lia|].
  split; [done|]. split; [|done]. split; cbn; lia.
Qed.

Lemma plain_record_spec s :
  building t n (output s) -> entry_is_record entry = true -> range_count (tv_bases entry) = 0 ->
  tv_polymorphic entry = false ->
  wp (resolve_plain_record project abi resolve t entry (entry_is_union entry)) s (record_done s).
Proof.
  intros Hb Hrec Hnb Hpoly. unfold resolve_plain_record.
  pose proof (type_ranges project laws t entry is_entry is_defined) as (_ & Hmc & _).
  steps. eapply wp_mono; [apply (plain_members_spec project abi laws pack_positive resolve n resolve_computes t entry); try done; lia|].
  cbn beta. intros r s2 (ms & Hlen & Hms & Hb2 & Hx2 & Hm2 & _ & -> & Ho2). rewrite Z.add_0_r in *. cbn [fst snd].
  pose proof (fields_ok abi pack_positive ms Hms) as Hf. pose proof (placed_end_le 0 _ Hf). pose proof (largest_le 0 ms).
  pose proof (widest_le abi 1 ms).
  eapply wp_mono; [apply finish_record_spec; [destruct (entry_is_union entry); lia|lia]|].
  cbn beta. intros v s3 (Hv & Hok & ->). exists s2, [], ms. eexists. split; [done|]. split; [done|]. split; [done|].
  split; [done|].
  assert (own_pointer entry [] = false) as Hown by (unfold own_pointer; by rewrite Hpoly).
  assert (record_alignment abi entry [] ms = widest 1 ms) as Hal by (unfold record_alignment; by rewrite Hown).
  assert (record_header abi entry [] ms = 0) as Hhd by (unfold record_header; by rewrite Hown).
  split; cbn [slot_size slot_alignment ready_slot].
  - done.
  - by rewrite Hnb, Hlen.
  - by intros j b Hj.
  - done.
  - by rewrite Hal, Hv.
  - unfold record_size. rewrite Hal, Hhd. subst v. split; [by destruct (entry_is_union entry)|apply Hok].
  - intros Hu. rewrite Hu in Ho2. split; [done|]. by rewrite Hlen.
  - intros Hu. rewrite Hu in Ho2. rewrite Hhd, Hlen. split; [constructor|done].
Qed.

Lemma members_bound l ms :
  members_at project l member_begin ms -> forall i, i ∈ positions (length ms) ->
  0 <= i /\ member_begin + i < member_count project.
Proof.
  intros Hm i Hi%positions_bound. split; [lia|]. destruct (lookup_lt_is_Some_2 ms (Z.to_nat i)) as [v Hv]; [lia|].
  destruct (Hm _ _ Hv) as (m & Hp & _). rewrite Z2Nat.id in Hp by lia.
  by apply (member_index_bound project laws) in Hp.
Qed.

(** The state after the placement of all fields. *)
Lemma placed_building s bs ms places places' :
  bases_in_range ->
  building t n (output s) -> bases_at project (output s) base_begin bs -> members_at project (output s) member_begin ms ->
  length bs = Z.to_nat (range_count (tv_bases entry)) -> length ms = Z.to_nat (range_count (tv_members entry)) ->
  length places = length (order bs) -> length places' = length ms ->
  let s' := write_members member_begin (positions (length ms)) places' (write_bases (map fst (order bs)) places s) in
  building t n (output s') /\ extends (Some (open_record t)) (output s) (output s') /\
  offsets_at (base_offsets (output s')) base_begin (map fst (order bs)) places /\
  offsets_at (member_offsets (output s')) member_begin (positions (length ms)) places'.
Proof.
  intros Hrange Hb Hbs Hms Hlb Hlm Hp Hp' s'. pose proof Hb as [Hok Hv He].
  pose proof (type_ranges project laws t entry is_entry is_defined) as (Hmb & Hmc & Hbb & Hbc).
  pose proof (ok_sized _ _ _ Hok) as Hsz.
  assert (output s' = with_base_offsets (write_at (base_offsets (output s)) base_begin (map fst (order bs)) places)
    (with_member_offsets (write_at (member_offsets (output s)) member_begin (positions (length ms)) places') (output s))) as Hs' by done.
  assert (forall j, ~ (member_begin <= Z.of_nat j < member_begin + range_count (tv_members entry)) ->
    write_at (member_offsets (output s)) member_begin (positions (length ms)) places' !! j = member_offsets (output s) !! j) as Hmo.
  { intros j Hj. apply write_at_other. intros i Hi%positions_bound. lia. }
  assert (forall j, ~ (base_begin <= Z.of_nat j < base_begin + range_count (tv_bases entry)) ->
    write_at (base_offsets (output s)) base_begin (map fst (order bs)) places !! j = base_offsets (output s) !! j) as Hbo.
  { intros j Hj. apply write_at_other. intros i Hi%base_order_bound. lia. }
  split; [|split; [|split]].
  - rewrite Hs'. split; [|done..].
    eapply (offsets_layout_ok project abi laws _ t entry); try done; by rewrite write_at_length.
  - rewrite Hs'. eapply (offsets_extend project laws _ t entry); try done;
      [by apply visiting_filled|by rewrite write_at_length..].
  - rewrite Hs'. cbn. apply write_at_offsets; [done|apply base_order_NoDup|by rewrite length_map|].
    intros i Hi%base_order_bound. pose proof (sized_bases _ _ _ Hsz). lia.
  - rewrite Hs'. cbn. apply write_at_offsets; [done|apply positions_NoDup|by rewrite positions_length|].
    intros i Hi. pose proof (sized_members _ _ _ Hsz). pose proof (members_bound _ _ Hms i Hi). lia.
Qed.

(** The bases of the record, before they are placed. *)
Lemma visited_bases_spec s :
  bases_in_range -> building t n (output s) ->
  wp (if 1 <? range_count (tv_bases entry)
      then let! base_mark := next_generation marks_allocated in
        mark_bases project base_begin 0 (Z.to_nat (range_count (tv_bases entry))) base_mark
      else ret tt)%step s (fun _ s1 =>
  wp (visit_bases project abi resolve_record base_begin 0 (Z.to_nat (range_count (tv_bases entry))) None 1) s1
    (fun r s' => exists bs,
      length bs = Z.to_nat (range_count (tv_bases entry)) /\ Forall value_ok (map snd bs) /\
      building t n (output s') /\ extends None (output s) (output s') /\
      bases_at project (output s') base_begin bs /\
      r = (first_polymorphic None 0 bs, widest 1 (map snd bs)))).
Proof.
  intros Hrange Hb. pose proof (type_ranges project laws t entry is_entry is_defined) as (_ & _ & Hbb & Hbc).
  assert (forall s', output s' = output s -> wp (visit_bases project abi resolve_record base_begin 0
    (Z.to_nat (range_count (tv_bases entry))) None 1) s' (fun r s' => exists bs,
      length bs = Z.to_nat (range_count (tv_bases entry)) /\ Forall value_ok (map snd bs) /\
      building t n (output s') /\ extends None (output s) (output s') /\
      bases_at project (output s') base_begin bs /\
      r = (first_polymorphic None 0 bs, widest 1 (map snd bs)))) as Hvisit.
  { intros s' Hs'. rewrite <- Hs' in *.
    eapply wp_mono; [apply (visit_bases_spec project abi laws resolve_record n record_computes t entry); try done; lia|].
    cbn beta. intros r s2 (bs & Hl & Hv & Hb2 & Hx & Hbs & ->). rewrite Z.add_0_r in Hbs. by exists bs. }
  destruct (1 <? range_count (tv_bases entry)).
  - steps. eapply wp_mono; [apply next_generation_spec|]. cbn beta. intros g s1 [Ho Hl].
    eapply wp_mono; [by apply mark_bases_spec; [done|rewrite Ho]|]. cbn beta. intros _ s2 Ho2. apply Hvisit. congruence.
  - steps. by apply Hvisit.
Qed.

Lemma class_record_spec s :
  building t n (output s) -> entry_is_record entry = true -> entry_is_union entry = false ->
  wp (resolve_windows_class_record project abi marks_allocated resolve resolve_record t entry) s (record_done s).
Proof.
  intros Hb Hrec Hun. unfold resolve_windows_class_record.
  pose proof (type_ranges project laws t entry is_entry is_defined) as (Hmb & Hmc & Hbb & Hbc).
  steps. unbool. pose proof (sized_bases _ _ _ (ok_sized _ _ _ (building_ok _ _ _ _ _ Hb))).
  assert bases_in_range as Hrange by lia.
  eapply wp_mono; [by apply visited_bases_spec|]. cbn beta. intros _ s1 Hvisit. steps.
  eapply wp_mono; [exact Hvisit|]. cbn beta. intros r s2 (bs & Hlb & Hvb & Hb2 & Hx2 & Hbs & ->). cbn [fst snd]. steps.
  eapply wp_mono; [apply (visit_members_spec project abi laws resolve n resolve_computes t entry); try done; lia|].
  cbn beta. intros al s3 (ms & Hlm & Hvm & Hb3 & Hx3 & Hms & ->). rewrite Z.add_0_r in Hms. steps.
  assert (Bool.eqb (existsb fst bs) (bool_decide (is_Some (first_polymorphic None 0 bs))) = true) as Hprim.
  { destruct (first_polymorphic None 0 bs) as [p|] eqn:Ep.
    - destruct (first_polymorphic_some _ _ _ Ep) as (-> & _). done.
    - destruct (first_polymorphic_none _ _ Ep) as (-> & _). done. }
  apply eqb_prop in Hprim.
  assert (tv_polymorphic entry && bool_decide (first_polymorphic None 0 bs = None) = own_pointer entry bs) as Hown.
  { unfold own_pointer. rewrite Hprim. f_equal. by destruct (first_polymorphic None 0 bs). }
  rewrite Hown.
  assert ((if own_pointer entry bs then Z.max (widest (widest 1 (map snd bs)) ms)
    (Z.min (pointer_alignment (abi_layout_properties (abi_target_value abi))) (abi_pack abi))
    else widest (widest 1 (map snd bs)) ms) = record_alignment abi entry bs ms) as ->.
  { unfold record_alignment. by rewrite widest_app. }
  pose proof (record_alignment_positive abi pack_positive entry bs ms) as Hal.
  pose proof (record_header_nonneg abi pack_positive entry bs ms) as Hhd.
  apply (bases_at_extends _ _ _ _ _ _ Hx3) in Hbs.
  eapply wp_mono; [apply (place_all_bases_spec bs); try done; apply Hb3|].
  fold (record_header abi entry bs ms). cbn beta zeta. intros c s4 [-> ->]. rewrite <- Hlm.
  assert (Forall field_ok (order_fields bs)) as Hfo.
  { apply fields_ok; [done|]. rewrite Forall_forall in Hvb |- *. intros v Hv. by apply Hvb, base_order_values. }
  pose proof (placed_end_le (record_header abi entry bs ms) _ Hfo) as Hle.
  set (s4 := write_bases (map fst (order bs)) (placed (record_header abi entry bs ms) (order_fields bs)) s3).
  steps.   eapply wp_mono; [apply (place_members_spec project abi pack_positive resolve resolve_recalls entry 0 ms)|].
  { apply write_bases_sized, Hb3. }
  { by rewrite Z.add_0_r. }
  { done. }
  { lia. }
  cbn beta. intros c s5 [-> ->]. rewrite Z.add_0_r.
  destruct (placed_building s3 bs ms (placed (record_header abi entry bs ms) (order_fields bs))
    (placed (placed_end (record_header abi entry bs ms) (order_fields bs)) (field_of <$> ms)))
    as (Hb5 & Hx5 & Hob & Hom); try done.
  { by rewrite placed_length, length_fmap, length_map. }
  { by rewrite placed_length, length_fmap. }
  pose proof (placed_end_le (placed_end (record_header abi entry bs ms) (order_fields bs)) _
    (fields_ok abi pack_positive ms Hvm)).
  eapply wp_mono; [apply finish_record_spec; lia|]. cbn beta. intros v s6 (Hv & Hok & ->).
  exists (write_members member_begin (positions (length ms))
    (placed (placed_end (record_header abi entry bs ms) (order_fields bs)) (field_of <$> ms)) s4), bs, ms, false.
  split; [done|]. split; [eapply extends_trans; [|exact Hx5]; apply extends_weaken; by eapply extends_trans|].
  split; [done|]. split; [done|].
  assert (record_fields abi bs ms = order_fields bs ++ (field_of <$> ms)) as Hfields by (unfold record_fields; by rewrite fmap_app).
  assert (length (order bs) = length (placed (record_header abi entry bs ms) (order_fields bs))) as Hlo
    by by rewrite placed_length, length_fmap, length_map.
  split; cbn [slot_size slot_alignment ready_slot].
  - done.
  - done.
  - by eapply bases_at_extends.
  - by eapply members_at_extends.
  - by rewrite Hv.
  - split; [|apply Hok]. rewrite Hv. unfold record_size. by rewrite Hun, Hfields, placed_end_app.
  - congruence.
  - intros _. rewrite Hfields, placed_app, Hlo, take_app_length, drop_app_length. done.
Qed.
End Record.

(** ** The slot of a record *)

Lemma set_type_slot_sized t slot s : sized project abi (output s) -> sized project abi (output (set_type_slot t slot s)).
Proof. intros [? ? ? ? ? ? ? ? ?]. split; cbn; try done. by rewrite length_insert. Qed.

Lemma set_type_slot_extends open t slot slot0 s :
  1 <= t -> type_slots (output s) !! Z.to_nat (t - 1) = Some slot0 -> slot_status slot0 <> slot_ready ->
  slot_status slot <> slot_empty -> open = Some (open_record t) \/ slot_status slot0 = slot_empty ->
  extends open (output s) (output (set_type_slot t slot s)).
Proof.
  intros Ht Hs Hr He Ho. split; cbn; try done.
  - intros i s' Hi Hr'. rewrite list_lookup_insert_ne; [done|]. intros <-. congruence.
  - intros i. split; [|done]. intros (s' & Hi & He'). unfold slot_filled.
    destruct (decide (Z.to_nat (t - 1) = i)) as [<-|Hne].
    + exists slot. split; [|done]. apply list_lookup_insert_eq. by eapply lookup_lt_Some.
    + exists s'. split; [|done]. by rewrite list_lookup_insert_ne.
  - intros t' (Ht' & s' & Hs' & Hv) Hne. split; [done|]. exists s'. split; [|done]. cbn.
    rewrite list_lookup_insert_ne; [done|]. intros Heq. assert (t = t') as <- by lia.
    destruct Ho as [->|Ho]; [done|]. congruence.
  - by rewrite length_insert.
Qed.

Lemma begin_visit t n slot0 s :
  1 <= t -> layout_ok (output s) -> (empties (output s) <= S n)%nat ->
  type_slots (output s) !! Z.to_nat (t - 1) = Some slot0 -> slot_status slot0 = slot_empty ->
  let s' := set_type_slot t (LayoutSlot (slot_size slot0) (slot_alignment slot0) slot_visiting (empty_record slot0)) s in
  building t n (output s') /\ extends None (output s) (output s').
Proof.
  intros Ht [Hsz Hsl Hw] He Hs Hempty s'.
  assert (extends None (output s) (output s')) as Hx.
  { eapply set_type_slot_extends; try done; [congruence|by right]. }
  split; [|done]. split.
  - split; [by apply set_type_slot_sized| |by destruct Hw].
    apply (slots_ok_extends project abi None (output s)); [done..| |by left].
    intros i sl Hi Hr. left. split; [|done]. cbn in Hi.
    apply list_lookup_insert_Some in Hi as [(_ & <- & _)|[_ Hi]]; done.
  - split; [done|]. eexists. split; [cbn; apply list_lookup_insert_eq; by eapply lookup_lt_Some|done].
  - assert (S (empties (output s')) = empties (output s)) by by apply (empties_fill_type _ _ slot0). lia.
Qed.

Lemma end_visit t n entry s s' v :
  1 <= t -> project_type project t = Some entry -> record_done n t entry s v s' ->
  layout_ok (output s') /\ extends (Some (open_record t)) (output s) (output s') /\ laid_type (output s') t v.
Proof.
  intros Ht He (s2 & bs & ms & empty & [[Hsz Hsl Hw] Hv Hn] & Hx & -> & Hok & Hfacts).
  pose proof Hv as (_ & slot0 & Hs & Hvis).
  assert (extends (Some (open_record t)) (output s2) (output (set_type_slot t (ready_slot v empty) s2))) as Hx2.
  { eapply set_type_slot_extends; try done; [congruence|by left]. }
  assert (slot_value (ready_slot v empty) = v) as Hval by by destruct v.
  split; [split|].
  - by apply set_type_slot_sized.
  - apply (slots_ok_extends project abi (Some (open_record t)) (output s2)); [done..| |by left].
    intros i sl Hi Hr. cbn in Hi. apply list_lookup_insert_Some in Hi as [(<- & <- & _)|[Hne Hi]].
    + right. rewrite Hval. split; [done|]. exists entry, bs, ms.
      replace (Z.of_nat (Z.to_nat (t - 1)) + 1) with t by lia. split; [done|].
      by eapply record_facts_same_offsets.
    + left. split; [done|]. intros [= Heq]. apply Hne. lia.
  - by destruct Hw.
  - split; [by eapply extends_trans|]. apply layout_type_spec; [done|]. exists (ready_slot v empty).
    split; [|by rewrite Hval]. cbn. apply list_lookup_insert_eq. by eapply lookup_lt_Some.
Qed.

(** A record whose slot is not empty is not laid out again. *)
Lemma record_body_spec n resolve resolve_record :
  (forall m, n = S m -> computes project abi resolve any_reference laid m /\
     computes project abi resolve_record type_number laid_type m /\
     recalls project abi resolve any_reference laid /\ recalls project abi resolve_record type_number laid_type) ->
  computes project abi (record_body project abi marks_allocated resolve resolve_record) type_number laid_type n.
Proof.
  intros Hrec t s Ht Hok He. unfold record_body. steps. unbool. pose proof (ok_sized _ _ _ Hok) as Hsz.
  apply wp_element; [lia|]. intros slot Hs. case_bool_decide as Hready.
  { steps. split; [done|]. split; [apply extends_refl|]. apply layout_type_spec; [lia|]. by exists slot. }
  case_bool_decide as Hvisit; [steps|].
  assert (slot_status slot = slot_empty) as Hempty by by destruct (slot_status slot).
  steps. rename a into entry. unbool. destruct n as [|m].
  { pose proof (empties_fill_type _ _ _ (LayoutSlot 0 0 slot_ready false) Hs Hempty ltac:(done)). lia. }
  destruct (Hrec m eq_refl) as (Hc1 & Hc2 & Hr1 & Hr2).
  destruct (begin_visit t m slot s) as [Hb1 Hx1]; try done; [lia|].
  apply wp_on_failure. eapply (wp_mono _ _ (record_done m t entry _)).
  - destruct ((range_count (tv_bases entry) =? 0) && negb (tv_polymorphic entry)) eqn:Eplain.
    + unbool. by apply plain_record_spec.
    + apply class_record_spec; try done.
      match goal with Hu : _ \/ _ |- _ => by destruct Hu as [?%negb_true_iff|] end.
  - cbn beta. intros v s3 Hdone. assert (1 <= t) as Ht1 by lia.
    destruct (end_visit t m entry _ s3 v Ht1 ltac:(done) Hdone) as (Hok3 & Hx3 & Hl3).
    split; [done|]. split; [|done]. apply (extends_close project t).
    + eapply extends_trans; [by apply extends_weaken, Hx1|done].
    + intros [_ (s0 & Hs0 & Hne)]. congruence.
Qed.

Lemma record_body_recalls resolve resolve_record :
  recalls project abi (record_body project abi marks_allocated resolve resolve_record) type_number laid_type.
Proof.
  intros t s v Ht Hsz Hl. unfold laid_type in Hl. unfold record_body.
  destruct (decide (t = 0)) as [->|Hne]; [done|].
  apply layout_type_spec in Hl as (slot & Hs & Hr & ->); [|lia]. apply lookup_lt_Some in Hs as Hlt.
  unfold bind_step, read_state, require, element. rewrite (proj2 (Z.eqb_neq t 0)), (proj2 (Z.leb_le t _)) by lia. cbn.
  rewrite (proj2 (Z.ltb_ge _ _)), Hs by lia. by rewrite bool_decide_eq_true_2.
Qed.
End Bodies.

(** ** Places of unconnected types *)

#[export] Instance unconnected_place_eq_dec : EqDecision unconnected_place.
Proof. solve_decision. Defined.

#[local] Arguments in_use : simpl never.

Lemma in_use_cons o offsets :
  in_use (o :: offsets) = ((if decide (o <> invalid_offset) then 1 else 0) + in_use offsets)%nat.
Proof. unfold in_use. rewrite filter_cons. by case_decide. Qed.

Lemma in_use_take offsets i o :
  offsets !! i = Some invalid_offset -> o <> invalid_offset -> in_use (<[i := o]> offsets) = S (in_use offsets).
Proof.
  intros Hi Ho. revert i Hi. induction offsets as [|x offsets IH]; intros i Hi; [done|]. destruct i as [|i]; cbn in Hi.
  - injection Hi as ->. change (<[O := o]> (invalid_offset :: offsets)) with (o :: offsets).
    rewrite !in_use_cons. by rewrite decide_True, decide_False by naive_solver.
  - change (<[S i := o]> (x :: offsets)) with (x :: <[i := o]> offsets). rewrite !in_use_cons, (IH i Hi). lia.
Qed.

Lemma in_use_le offsets : (in_use offsets <= length offsets)%nat.
Proof. apply length_filter. Qed.

Lemma in_use_replicate n : in_use (replicate n invalid_offset) = O.
Proof. induction n as [|n IH]; [done|]. cbn [replicate]. rewrite in_use_cons, IH. by rewrite decide_False by naive_solver. Qed.

Lemma place_of_get l r p : unconnected_place_of l r = Some p -> exists o, get_unconnected l p = Some o.
Proof.
  unfold unconnected_place_of. pose proof (payload_nonneg r) as Hp. destruct (ref_kind r); [done| | |].
  - destruct (Z.leb_spec (Z.of_nat (length (unconnected_intrinsic_offsets l))) (payload r)); [done|].
    intros [= <-]. cbn. apply lookup_lt_is_Some. lia.
  - destruct (_ || _) eqn:E; [done|]. unbool. intros [= <-]. cbn. apply lookup_lt_is_Some. lia.
  - destruct (_ || _) eqn:E; [done|]. unbool. intros [= <-]. cbn. apply lookup_lt_is_Some. lia.
Qed.

Lemma get_set_unconnected l p p' o o0 :
  get_unconnected l p = Some o0 ->
  get_unconnected (set_unconnected p o l) p' = if bool_decide (p' = p) then Some o else get_unconnected l p'.
Proof.
  intros Hg. case_bool_decide as E.
  - subst p'. destruct p; cbn in *; apply list_lookup_insert_eq; by eapply lookup_lt_Some.
  - destruct p, p'; cbn; try done; apply list_lookup_insert_ne; congruence.
Qed.

Lemma taken_set l p o :
  get_unconnected l p = Some invalid_offset -> o <> invalid_offset -> taken (set_unconnected p o l) = S (taken l).
Proof.
  intros Hg Ho. unfold taken. destruct p; cbn in *; rewrite in_use_take by done; lia.
Qed.

Lemma set_unconnected_place l p o r : unconnected_place_of (set_unconnected p o l) r = unconnected_place_of l r.
Proof. destruct p; apply unconnected_place_lengths; cbn; by rewrite ?length_insert. Qed.

(** Everything but the places. *)
Lemma set_unconnected_rest p o l :
  let l' := set_unconnected p o l in
  type_slots l' = type_slots l /\ derived_slots l' = derived_slots l /\ member_offsets l' = member_offsets l /\
  base_offsets l' = base_offsets l /\ object_offsets l' = object_offsets l /\ target_value l' = target_value l /\
  unconnected_types l' = unconnected_types l /\
  length (unconnected_intrinsic_offsets l') = length (unconnected_intrinsic_offsets l) /\
  length (unconnected_type_offsets l') = length (unconnected_type_offsets l) /\
  length (unconnected_derived_offsets l') = length (unconnected_derived_offsets l).
Proof. destruct p; cbn; by rewrite ?length_insert. Qed.

Section Recursion.
Context `{ProjectView V} (project : V) (abi : server_abi_configuration) (laws : project_laws project).
Context (pack_positive : 0 < abi_pack abi).
Context (marks_allocated : bool) (worklist_allocated : nat -> bool).
Local Abbreviation extends := (extends project).
Local Abbreviation layout_ok := (layout_ok project abi).
Local Abbreviation any_reference := (fun _ : type_ref => True).
Local Abbreviation type_number := (fun t : type_handle => 0 <= t).
Local Abbreviation require_unconnected := (require_unconnected worklist_allocated).
Local Abbreviation derived_value := (derived_value abi worklist_allocated).
Local Abbreviation derived_body := (derived_body project abi worklist_allocated).

(** A place is taken: the type is behind the others in the worklist. *)
Lemma take_place_extends l r p :
  unconnected_place_of l r = Some p -> get_unconnected l p = Some invalid_offset ->
  layout_ok l ->
  let l' := push_unconnected r (set_unconnected p pending_offset l) in
  layout_ok l' /\ extends None l l' /\ get_unconnected l' p = Some pending_offset.
Proof.
  intros Hp Hg [Hsz Hsl [Hlen Hpend]] l'.
  destruct (set_unconnected_rest p pending_offset l) as (R1 & R2 & R3 & R4 & R5 & R6 & R7 & R8 & R9 & R10).
  assert (forall p', get_unconnected l' p' = if bool_decide (p' = p) then Some pending_offset else get_unconnected l p') as Hget.
  { intros p'. rewrite <- (get_set_unconnected _ _ _ _ _ Hg). by destruct p'. }
  assert (extends None l l') as Hx.
  { split; cbn; rewrite ?R1, ?R2, ?R3, ?R4, ?R5, ?R6; try done.
    - intros t Hv _. unfold visiting in *. cbn. by rewrite R1.
    - intros i Hv _. unfold derived_visiting in *. cbn. by rewrite R2.
    - intros p' (o & Hp' & Ho). unfold place_used. rewrite Hget. case_bool_decide; [by eexists|by exists o].
    - rewrite R7. by apply prefix_app_r. }
  split; [|split; [done|by rewrite Hget, bool_decide_eq_true_2]]. split.
  - destruct Hsz. split; cbn; congruence.
  - apply (slots_ok_extends project abi None l); [done..| |]; intros i s; cbn; rewrite ?R1, ?R2; intros Hi Hr; by left.
  - split.
    + cbn. rewrite length_app, R7, Hlen. change (taken l') with (taken (set_unconnected p pending_offset l)).
      rewrite taken_set by done. cbn. lia.
    + intros p' o. rewrite Hget. case_bool_decide as E.
      * intros [= <-]. right. split; [done|]. exists r. subst p'. split; [cbn; apply elem_of_app; right; by left|].
        by rewrite (place_extends _ _ _ _ _ Hx).
      * intros Ho. destruct (Hpend _ _ Ho) as [|(Hpo & r' & Hr' & Hpr)]; [by left|]. right. split; [done|]. exists r'.
        split; [cbn; rewrite R7; apply elem_of_app; by left|]. by rewrite (place_extends _ _ _ _ _ Hx).
Qed.

Lemma require_unconnected_spec r s :
  layout_ok (output s) ->
  wp (require_unconnected r) s (fun _ s' =>
    layout_ok (output s') /\ extends None (output s) (output s') /\ place_taken (output s') r).
Proof.
  intros Hok. unfold RuntimeLayout.require_unconnected. destruct (ref_valid r); cbn [negb]; [|apply wp_fail].
  steps. rename a into p. match goal with Hp : unconnected_place_of _ _ = Some p |- _ => rename Hp into Hpl end.
  destruct (place_of_get _ _ _ Hpl) as [o Ho]. rewrite Ho.
  destruct (Z.eqb_spec o invalid_offset) as [->|Hne]; cbn [negb].
  - destruct (worklist_allocated _); [|apply wp_fail]. steps.
    destruct (take_place_extends _ _ _ Hpl Ho Hok) as (Hok' & Hx & Hg). cbn. split; [done|]. split; [done|].
    exists p. rewrite (place_extends _ _ _ _ _ Hx). split; [done|]. by exists pending_offset.
  - steps. split; [done|]. split; [apply extends_refl|]. exists p. split; [done|]. by exists o.
Qed.

(** ** Derived types *)

Section Derived.
Context (resolve : type_ref -> step runtime_value_layout) (n : nat).
Context (resolve_computes : computes project abi resolve any_reference laid n).

Lemma multiply_u64_spec a b c : multiply_u64 a b = Some c -> c = a * b.
Proof. unfold multiply_u64. destruct (_ && _); [done|]. by intros [= <-]. Qed.

Lemma derived_value_spec d s :
  layout_ok (output s) -> (empties (output s) <= n)%nat -> 0 <= derived_payload d ->
  wp (derived_value resolve d) s (fun v s' =>
    layout_ok (output s') /\ extends None (output s) (output s') /\
    0 < value_size v /\ 0 < value_alignment v /\ derived_facts abi (output s') d v).
Proof.
  intros Hok Hn Hpay. unfold RuntimeLayout.derived_value, derived_facts.
  assert (0 < pointer_size (abi_layout_properties (abi_target_value abi)) /\
    0 < pointer_alignment (abi_layout_properties (abi_target_value abi)) /\
    0 < reference_size (abi_layout_properties (abi_target_value abi)) /\
    0 < reference_alignment (abi_layout_properties (abi_target_value abi))) as (Hp1 & Hp2 & Hp3 & Hp4)
    by by destruct (abi_target_value abi).
  assert (forall v s', layout_ok (output s') -> laid (output s') (child d) v -> value_ok v) as Hval.
  { intros v s' [_ Hsl _]. by apply (laid_value_ok project abi). }
  destruct (derived_kind d).
  1,2: eapply wp_mono; [by apply resolve_computes|]; cbn beta; intros v s' (Hok' & Hx & Hl);
    destruct (Hval _ _ Hok' Hl) as [[? _] ?]; by split_and!.
  - steps. split; [done|]. split; [apply extends_refl|]. cbn. split_and!; [lia|lia|done].
  - steps. eapply wp_mono; [by apply require_unconnected_spec|]. cbn beta. intros _ s' (Hok' & Hx & Ht). steps.
    split; [done|]. split; [done|]. cbn. split_and!; [lia|lia|done|done].
  - steps. eapply wp_mono; [by apply require_unconnected_spec|]. cbn beta. intros _ s' (Hok' & Hx & Ht). steps.
    split; [done|]. split; [done|]. cbn. split_and!; [lia|lia|done|done].
  - steps. eapply wp_mono; [by apply resolve_computes|]. cbn beta. intros v s' (Hok' & Hx & Hl). steps.
    destruct (Hval _ _ Hok' Hl) as [[? _] ?].
    match goal with Hm : multiply_u64 _ _ = Some _ |- _ => apply multiply_u64_spec in Hm as -> end.
    split; [done|]. split; [done|]. cbn. split_and!; [nia|done|]. by exists v.
  - apply wp_fail.
Qed.
End Derived.

Definition derived_index (r : type_ref) : nat := Z.to_nat (payload r - 1).

Lemma set_derived_slot_extends open r slot slot0 s :
  derived_slots (output s) !! derived_index r = Some slot0 -> slot_status slot0 <> slot_ready ->
  slot_status slot <> slot_empty -> open = Some (open_derived (derived_index r)) \/ slot_status slot0 = slot_empty ->
  extends open (output s) (output (set_derived_slot r slot s)).
Proof.
  intros Hs Hr He Ho. unfold derived_index in *. split; cbn; try done.
  - intros i s' Hi Hr'. rewrite list_lookup_insert_ne; [done|]. intros <-. congruence.
  - intros i. split; [done|]. intros (s' & Hi & He'). unfold slot_filled.
    destruct (decide (Z.to_nat (payload r - 1) = i)) as [<-|Hne].
    + exists slot. split; [|done]. apply list_lookup_insert_eq. by eapply lookup_lt_Some.
    + exists s'. split; [|done]. by rewrite list_lookup_insert_ne.
  - intros i (s' & Hs' & Hv) Hne. exists s'. split; [|done]. cbn.
    rewrite list_lookup_insert_ne; [done|]. intros <-. destruct Ho as [->|Ho]; [done|]. congruence.
  - by rewrite length_insert.
Qed.

Lemma set_derived_slot_sized r slot s : sized project abi (output s) -> sized project abi (output (set_derived_slot r slot s)).
Proof. intros [? ? ? ? ? ? ? ? ?]. split; cbn; try done. by rewrite length_insert. Qed.

Lemma begin_derived r n slot0 s :
  layout_ok (output s) -> (empties (output s) <= S n)%nat ->
  derived_slots (output s) !! derived_index r = Some slot0 -> slot_status slot0 = slot_empty ->
  let s' := mark_derived r slot_visiting s in
  layout_ok (output s') /\ extends None (output s) (output s') /\ (empties (output s') <= n)%nat /\
  derived_visiting (output s') (derived_index r).
Proof.
  intros [Hsz Hsl Hw] He Hs Hempty. cbv zeta.
  set (marked := LayoutSlot (slot_size slot0) (slot_alignment slot0) slot_visiting (empty_record slot0)).
  assert (mark_derived r slot_visiting s = set_derived_slot r marked s) as ->.
  { unfold mark_derived. unfold derived_index in Hs. by rewrite Hs. }
  set (s' := set_derived_slot r marked s).
  assert (extends None (output s) (output s')) as Hx.
  { eapply set_derived_slot_extends; try done; [congruence|by right]. }
  split; [|split; [done|split]].
  - split; [by apply set_derived_slot_sized| |by destruct Hw].
    apply (slots_ok_extends project abi None (output s)); [done..|by left|].
    intros i sl Hi Hr. left. cbn in Hi.
    apply list_lookup_insert_Some in Hi as [(_ & <- & _)|[_ Hi]]; done.
  - assert (S (empties (output s')) = empties (output s)) by by apply (empties_fill_derived _ _ slot0). lia.
  - eexists. split; [cbn; apply list_lookup_insert_eq; by eapply lookup_lt_Some|done].
Qed.

Lemma end_derived r d v b s :
  ref_kind r = ref_derived -> payload r <> 0 -> project_derived project r = Some d -> layout_ok (output s) ->
  derived_visiting (output s) (derived_index r) -> value_ok v -> derived_facts abi (output s) d v ->
  let s' := set_derived_slot r (LayoutSlot (value_size v) (value_alignment v) slot_ready b) s in
  layout_ok (output s') /\ extends (Some (open_derived (derived_index r))) (output s) (output s') /\ laid (output s') r v.
Proof.
  intros Hk Hp Hd [Hsz Hsl Hw] (slot0 & Hs & Hvis) Hv Hfacts s'. pose proof (payload_nonneg r) as Hp0.
  assert (extends (Some (open_derived (derived_index r))) (output s) (output s')) as Hx.
  { eapply set_derived_slot_extends; try done; [congruence|by left]. }
  assert (slot_value (LayoutSlot (value_size v) (value_alignment v) slot_ready b) = v) as Hval by by destruct v.
  apply lookup_lt_Some in Hs as Hlt. unfold derived_index in Hlt.
  split; [split|split; [done|]].
  - by apply set_derived_slot_sized.
  - apply (slots_ok_extends project abi (Some (open_derived (derived_index r))) (output s)); [done..|by left|].
    intros i sl Hi Hr. cbn in Hi. apply list_lookup_insert_Some in Hi as [(<- & <- & _)|[Hne Hi]]; [right|by left].
    rewrite Hval. split; [done|]. exists r, d. split; [done|]. split; [lia|]. split; [done|].
    rewrite Hval. by eapply derived_facts_extends.
  - by destruct Hw.
  - apply laid_derived; [done|]. split; [|split].
    + unfold ref_valid. rewrite Hk, bool_decide_eq_false_2 by done. cbn. by apply negb_true_iff, Z.eqb_neq.
    + cbn. rewrite length_insert. lia.
    + eexists. split; [cbn; by apply list_lookup_insert_eq|]. by split.
Qed.

Lemma derived_body_spec n resolve :
  (forall m, n = S m -> computes project abi resolve any_reference laid m) ->
  computes project abi (derived_body resolve) any_reference laid n.
Proof.
  intros Hrec r s _ Hok He. unfold RuntimeLayout.derived_body. pose proof (payload_nonneg r).
  steps. unbool. apply wp_element; [lia|]. intros slot Hs.
  match goal with Hk : ref_kind r = ref_derived |- _ => rename Hk into Hkind end.
  case_bool_decide as Hready.
  { steps. split; [done|]. split; [apply extends_refl|]. apply laid_derived; [done|].
    split; [|split; [done|by exists slot]]. unfold ref_valid. rewrite Hkind, bool_decide_eq_false_2 by done.
    by apply negb_true_iff, Z.eqb_neq. }
  case_bool_decide as Hvisit; [steps|].
  assert (slot_status slot = slot_empty) as Hempty by by destruct (slot_status slot).
  steps. rename a into d. destruct n as [|m].
  { pose proof (empties_fill_derived _ _ _ (LayoutSlot 0 0 slot_ready false) Hs Hempty ltac:(done)). lia. }
  destruct (begin_derived r m slot s) as (Hok1 & Hx1 & He1 & Hv1); try done.
  apply wp_on_failure. steps.
  eapply wp_mono; [apply (derived_value_spec resolve m (Hrec m eq_refl)); try done; by eapply payloads_unsigned|].
  cbn beta. intros v s2 (Hok2 & Hx2 & Hs0 & Ha0 & Hfacts). steps. unbool.
  assert (derived_visiting (output s2) (derived_index r)) as Hv2 by by apply (extends_derived_visiting _ _ _ _ Hx2).
  destruct (end_derived r d v (empty_record slot) s2) as (Hok3 & Hx3 & Hl3); try done.
  split; [done|]. split; [|done]. apply (extends_close_derived project (derived_index r)).
  - eapply extends_trans; [by apply extends_weaken, Hx1|]. eapply extends_trans; [by apply extends_weaken, Hx2|done].
  - intros (s0 & Hs' & Hne). unfold derived_index in Hs'. congruence.
Qed.

Lemma derived_body_recalls resolve :
  recalls project abi (derived_body resolve) (fun r => ref_kind r = ref_derived) laid.
Proof.
  intros r s v Hk Hsz Hl. apply laid_derived in Hl as (Hv & Hle & slot & Hs & Hr & ->); [|done].
  unfold ref_valid in Hv. unbool. pose proof (payload_nonneg r).
  unfold RuntimeLayout.derived_body, bind_step, read_state, require, element.
  rewrite bool_decide_eq_true_2, (proj2 (Z.eqb_neq (payload r) 0)), (proj2 (Z.leb_le (payload r) _)) by done. cbn.
  rewrite (proj2 (Z.ltb_ge _ _)), Hs by lia. by rewrite bool_decide_eq_true_2.
Qed.

(** ** References *)

Lemma type_at_handle r :
  payload r <> 0 -> payload r <= type_count project -> project_type_at project (payload r - 1) = payload r.
Proof.
  intros Hp Hle. pose proof (payload_nonneg r). pose proof (type_count_range project laws) as Hr. unfold project_type_at.
  rewrite (proj2 (Z.ltb_lt _ _)) by lia. replace (payload r - 1 + 1) with (payload r) by lia.
  apply Z.mod_small. assert (maximum_handle < 2 ^ 32) by done. lia.
Qed.

Lemma reference_body_spec n resolve_record resolve_derived :
  computes project abi resolve_record type_number laid_type n ->
  computes project abi resolve_derived any_reference laid n ->
  computes project abi (reference_body project abi resolve_record resolve_derived) any_reference laid n.
Proof.
  intros Hrec Hder r s _ Hok He. unfold reference_body. pose proof (payload_nonneg r).
  destruct (ref_valid r) eqn:Hv; cbn [negb]; [|apply wp_fail]. destruct (ref_kind r) eqn:Hk.
  - apply wp_fail.
  - destruct (Z.ltb_spec (intrinsic_number nullptr_type) (payload r)); [apply wp_fail|].
    destruct (intrinsic_layout _ _) as [f|v] eqn:Ei; [apply wp_fail|]. steps.
    split; [done|]. split; [apply extends_refl|]. apply laid_intrinsic; [done|].
    by rewrite (sized_target _ _ _ (ok_sized _ _ _ Hok)).
  - destruct (_ || _) eqn:E; [apply wp_fail|]. unbool.
    rewrite type_at_handle by done. eapply wp_mono; [by apply Hrec|]. cbn beta. intros v s' (Hok' & Hx & Hl).
    split; [done|]. split; [done|]. by apply laid_named.
  - by apply Hder.
Qed.

Lemma reference_body_recalls resolve_record resolve_derived :
  recalls project abi resolve_record type_number laid_type ->
  recalls project abi resolve_derived (fun r => ref_kind r = ref_derived) laid ->
  recalls project abi (reference_body project abi resolve_record resolve_derived) any_reference laid.
Proof.
  intros Hrec Hder r s v _ Hsz Hl. unfold reference_body. pose proof (payload_nonneg r).
  destruct (ref_kind r) eqn:Hk.
  - unfold laid, layout_value in Hl. rewrite Hk in Hl. by destruct (_ || _) in Hl.
  - apply laid_intrinsic in Hl as (-> & Hle & Hi); [|done]. cbn [negb].
    rewrite (proj2 (Z.ltb_ge _ _)) by done. by rewrite <- (sized_target _ _ _ Hsz), Hi.
  - apply laid_named in Hl as (Hv & Ht); [|done]. rewrite Hv. cbn [negb].
    unfold ref_valid in Hv. unbool. pose proof (sized_types _ _ _ Hsz) as Hst.
    pose proof Ht as Ht2. apply layout_type_spec in Ht2 as (slot & Hs & _); [|lia]. apply lookup_lt_Some in Hs.
    rewrite (proj2 (Z.eqb_neq (payload r) 0)), (proj2 (Z.ltb_ge _ _)) by lia. cbn [orb].
    rewrite type_at_handle by lia. by apply Hrec.
  - rewrite (proj1 (proj1 (laid_derived _ _ _ Hk) Hl)). cbn [negb]. by apply Hder.
Qed.

(** ** The recursion *)

Local Abbreviation resolve := (resolve project abi marks_allocated worklist_allocated).
Local Abbreviation resolve_record := (resolve_record project abi marks_allocated worklist_allocated).
Local Abbreviation resolve_derived := (resolve_derived project abi marks_allocated worklist_allocated).

Lemma resolve_S fuel : resolve (S fuel) = reference_body project abi (resolve_record fuel) (resolve_derived fuel).
Proof. reflexivity. Qed.
Lemma resolve_record_S fuel : resolve_record (S fuel) = record_body project abi marks_allocated (resolve fuel) (resolve_record fuel).
Proof. reflexivity. Qed.
Lemma resolve_derived_S fuel : resolve_derived (S fuel) = derived_body (resolve fuel).
Proof. reflexivity. Qed.

Lemma record_recalls fuel : recalls project abi (resolve_record (S fuel)) type_number laid_type.
Proof. rewrite resolve_record_S. apply record_body_recalls. Qed.

Lemma derived_recalls fuel : recalls project abi (resolve_derived (S fuel)) (fun r => ref_kind r = ref_derived) laid.
Proof. rewrite resolve_derived_S. apply derived_body_recalls. Qed.

Lemma resolve_recalls fuel : recalls project abi (resolve (S (S fuel))) any_reference laid.
Proof. rewrite resolve_S. apply reference_body_recalls; [apply record_recalls|apply derived_recalls]. Qed.

(** Two calls for every slot that is still empty, and one more. *)
Lemma recursion_computes fuel n :
  ((2 * n + 2 <= fuel)%nat -> computes project abi (resolve fuel) any_reference laid n) /\
  ((2 * n + 1 <= fuel)%nat -> computes project abi (resolve_record fuel) type_number laid_type n) /\
  ((2 * n + 1 <= fuel)%nat -> computes project abi (resolve_derived fuel) any_reference laid n).
Proof.
  revert n. induction fuel as [|fuel IH]; intros n; [split_and!; lia|]. split_and!; intros Hf.
  - rewrite resolve_S. apply reference_body_spec; apply IH; lia.
  - rewrite resolve_record_S. apply (record_body_spec project abi laws pack_positive).
    intros m ->. destruct fuel as [|[|fuel]]; [lia|lia|].
    split; [apply (IH m); lia|]. split; [apply (IH m); lia|]. split; [apply resolve_recalls|apply record_recalls].
  - rewrite resolve_derived_S. apply derived_body_spec. intros m ->. apply (IH m). lia.
Qed.
End Recursion.
