(* ===== verification/RuntimeBuild.v ===== *)
(** The passes of [build_layout] (project/runtime/runtime_layout.cpp): first every type the
    objects and references reach is laid out, then the unconnected values and the objects
    are placed one behind the other. *)

From S2P Require Import Prelude Identity GraphData GraphGrowth GraphTypes GraphRecords CompiledView ProjectView RuntimeLayout RuntimeRules RuntimeOrder RuntimeRecords RuntimeRecursion.

Local Open Scope Z_scope.

Section Build.
Context `{ProjectView V} (project : V) (abi : server_abi_configuration) (laws : project_laws project).
Context (pack_positive : 0 < abi_pack abi).
Context (marks_allocated : bool) (worklist_allocated : nat -> bool).
Local Abbreviation extends := (extends project).
Local Abbreviation layout_ok := (layout_ok project abi).
Local Abbreviation resolve_type := (resolve project abi marks_allocated worklist_allocated (layout_fuel project)).

(** ** Laying out *)

Lemma empties_bound l : sized project abi l ->
  (empties l <= Z.to_nat (type_count project) + Z.to_nat (derived_type_count project))%nat.
Proof.
  intros Hsz. unfold empties, empty_count. pose proof (sized_types _ _ _ Hsz). pose proof (sized_derived _ _ _ Hsz).
  pose proof (length_filter empty_slot (type_slots l)). pose proof (length_filter empty_slot (derived_slots l)). lia.
Qed.

Lemma resolve_type_spec r s :
  layout_ok (output s) ->
  wp (resolve_type r) s (fun v s' => layout_ok (output s') /\ extends None (output s) (output s') /\ laid (output s') r v).
Proof.
  intros Hok. pose proof (empties_bound _ (ok_sized _ _ _ Hok)).
  apply (proj1 (recursion_computes project abi laws pack_positive marks_allocated worklist_allocated (layout_fuel project)
    (empties (output s))) ltac:(unfold layout_fuel; lia)); done.
Qed.

Lemma resolve_type_recalls r s v :
  sized project abi (output s) -> laid (output s) r v -> resolve_type r s = Some (inr v, s).
Proof.
  intros Hsz Hl. destruct (layout_fuel project) as [|[|f]] eqn:Ef; [unfold layout_fuel in Ef; lia..|].
  by apply (resolve_recalls project abi laws marks_allocated worklist_allocated f r s v).
Qed.

(** The object at a position is laid out. *)
Definition object_laid (l : runtime_layout) (i : Z) (v : runtime_value_layout) : Prop :=
  exists e, project_object project (i + 1) = Some e /\ laid l (object_type e) v.

Lemma object_at_handle i : 0 <= i < object_count project -> project_object_at project i = i + 1.
Proof.
  intros Hi. unfold project_object_at. rewrite (proj2 (Z.ltb_lt _ _)) by lia.
  pose proof (object_count_range project laws). assert (maximum_handle < 2 ^ 32) by done. apply Z.mod_small. lia.
Qed.

Lemma object_laid_extends open l l' i v : extends open l l' -> object_laid l i v -> object_laid l' i v.
Proof. intros Hx (e & He & Hl). exists e. split; [done|]. by eapply laid_extends. Qed.

Lemma resolve_objects_spec k index s :
  layout_ok (output s) -> 0 <= index -> index + Z.of_nat k <= object_count project ->
  wp (resolve_objects project abi marks_allocated worklist_allocated index k) s (fun _ s' =>
    layout_ok (output s') /\ extends None (output s) (output s') /\
    exists vs, length vs = k /\ forall j v, vs !! j = Some v -> object_laid (output s') (index + Z.of_nat j) v).
Proof.
  revert index s. induction k as [|k IH]; intros index s Hok Hi Hk; cbn [resolve_objects].
  { steps. split; [done|]. split; [apply extends_refl|]. by exists []. }
  steps. rewrite object_at_handle in * by lia. rename a into e.
  eapply wp_mono; [by apply resolve_type_spec|]. cbn beta. intros v s1 (Hok1 & Hx1 & Hl1).
  eapply wp_mono; [apply (IH (index + 1)); [done|lia..]|]. cbn beta. intros _ s2 (Hok2 & Hx2 & vs & Hlen & Hvs).
  split; [done|]. split; [by eapply extends_trans|]. exists (v :: vs). split; [cbn; lia|].
  intros [|j] w Hj; cbn in Hj.
  - simplify_eq. rewrite Z.add_0_r. apply (object_laid_extends _ _ _ _ _ Hx2). by exists e.
  - replace (index + Z.of_nat (S j)) with (index + 1 + Z.of_nat j) by lia. by apply Hvs.
Qed.

Lemma worklist_bound l : layout_ok l ->
  (length (unconnected_types l) + 1 <= unconnected_fuel project)%nat.
Proof.
  intros [Hsz _ [-> _]]. unfold taken, unconnected_fuel.
  pose proof (in_use_le (unconnected_intrinsic_offsets l)). pose proof (in_use_le (unconnected_type_offsets l)).
  pose proof (in_use_le (unconnected_derived_offsets l)).
  pose proof (sized_intrinsic_places _ _ _ Hsz). pose proof (sized_type_places _ _ _ Hsz).
  pose proof (sized_derived_places _ _ _ Hsz). lia.
Qed.

(** The first types of the worklist are laid out. *)
Definition worklist_laid (l : runtime_layout) (k : nat) : Prop :=
  forall j r, (j < k)%nat -> unconnected_types l !! j = Some r -> exists v, laid l r v.

Lemma resolve_unconnected_spec fuel index s :
  layout_ok (output s) -> (unconnected_fuel project <= fuel + index)%nat ->
  (index <= length (unconnected_types (output s)))%nat -> worklist_laid (output s) index ->
  wp (resolve_unconnected project abi marks_allocated worklist_allocated fuel index) s (fun _ s' =>
    layout_ok (output s') /\ extends None (output s) (output s') /\
    worklist_laid (output s') (length (unconnected_types (output s')))).
Proof.
  revert index s. induction fuel as [|fuel IH]; intros index s Hok Hf Hi Hw; cbn [resolve_unconnected].
  { pose proof (worklist_bound _ Hok). lia. }
  steps. destruct (unconnected_types (output s) !! index) as [r|] eqn:Hr.
  - steps. eapply wp_mono; [by apply resolve_type_spec|]. cbn beta. intros v s1 (Hok1 & Hx1 & Hl1).
    pose proof (extends_worklist _ _ _ _ Hx1) as Hp. apply lookup_lt_Some in Hr as Hlt.
    eapply wp_mono; [apply (IH (S index)); [done|lia| |]|].
    + apply prefix_length in Hp. lia.
    + intros j r' Hj Hr'. destruct (decide (j = index)) as [->|Hne].
      * rewrite (prefix_lookup_Some _ _ _ _ Hr Hp) in Hr'. simplify_eq. by exists v.
      * destruct (lookup_lt_is_Some_2 (unconnected_types (output s)) j) as [r2 Hr2]; [lia|].
        rewrite (prefix_lookup_Some _ _ _ _ Hr2 Hp) in Hr'. simplify_eq.
        destruct (Hw j r' ltac:(lia) Hr2) as [w Hl]. exists w. by eapply laid_extends.
    + cbn beta. intros _ s2 (Hok2 & Hx2 & Hw2). split; [done|]. split; [by eapply extends_trans|done].
  - steps. split; [done|]. split; [apply extends_refl|]. apply lookup_ge_None in Hr.
    intros j r Hj. apply Hw. lia.
Qed.

(** ** Placing *)

Definition area (v : runtime_value_layout) : field := (value_size v, value_alignment v).
Definition area_alignment (start : Z) (vs : list runtime_value_layout) : Z :=
  foldl (fun a v => Z.max a (value_alignment v)) start vs.

(** A layout that differs in its places and the offsets of objects only. *)
Record same_types (l l' : runtime_layout) : Prop := SameTypes {
  same_slots : type_slots l' = type_slots l /\ derived_slots l' = derived_slots l;
  same_fields : member_offsets l' = member_offsets l /\ base_offsets l' = base_offsets l;
  same_worklist : unconnected_types l' = unconnected_types l;
  same_target : target_value l' = target_value l;
  same_lengths : length (object_offsets l') = length (object_offsets l) /\
    length (unconnected_intrinsic_offsets l') = length (unconnected_intrinsic_offsets l) /\
    length (unconnected_type_offsets l') = length (unconnected_type_offsets l) /\
    length (unconnected_derived_offsets l') = length (unconnected_derived_offsets l)
}.

Lemma same_types_trans l1 l2 l3 : same_types l1 l2 -> same_types l2 l3 -> same_types l1 l3.
Proof. intros [] []. split; intuition congruence. Qed.

Lemma same_types_sized l l' : same_types l l' -> sized project abi l -> sized project abi l'.
Proof. intros [[? ?] [? ?] ? ? (? & ? & ? & ?)] []. split; congruence. Qed.

Lemma same_types_laid l l' r v : same_types l l' -> laid l' r v <-> laid l r v.
Proof.
  intros [[H1 H2] _ _ H3 _]. unfold laid, layout_value. cbn [prepared_value with_prepared type_slots derived_slots target_value].
  by rewrite H1, H2, H3.
Qed.

Lemma same_types_place l l' r : same_types l l' -> unconnected_place_of l' r = unconnected_place_of l r.
Proof. intros [_ _ _ _ (_ & ? & ? & ?)]. by apply unconnected_place_lengths. Qed.

Lemma same_types_extends l l' : same_types l l' -> (forall p, place_used l p -> place_used l' p) -> extends None l l'.
Proof.
  intros [[H1 H2] [H3 H4] H5 H6 (_ & H7 & H8 & H9)] Hp. split; rewrite ?H1, ?H2, ?H3, ?H4, ?H5, ?H6, ?H7, ?H8, ?H9; try done.
  - intros t Hv _. unfold visiting in *. by rewrite H1.
  - intros i Hv _. unfold derived_visiting in *. by rewrite H2.
Qed.

Lemma same_types_set_unconnected p o l : same_types l (set_unconnected p o l).
Proof.
  destruct (set_unconnected_rest p o l) as (? & ? & ? & ? & R & ? & ? & ? & ? & ?).
  split; [done|done|done|done|]. by rewrite R.
Qed.

Lemma place_value_spec r v store cursor al s Q :
  sized project abi (output s) -> laid (output s) r v -> value_ok v -> 0 <= cursor ->
  (forall aligned, aligned = round_up cursor (value_alignment v) -> cursor <= aligned ->
     wp (store aligned) s (fun _ s' => Q (aligned + value_size v, Z.max al (value_alignment v)) s')) ->
  wp (place_value project abi marks_allocated worklist_allocated r store cursor al) s Q.
Proof.
  intros Hsz Hl [Hv Ha] Hc Hstore. unfold place_value. steps.
  eapply wp_returns; [by apply resolve_type_recalls|]. steps.
  match goal with Hx : align_up _ _ = Some _ |- _ => apply align_up_spec in Hx as (_ & -> & _); [|lia..] end.
  destruct (round_up_spec cursor (value_alignment v) Ha).
  eapply wp_mono; [apply Hstore; [done|lia]|]. cbn beta. intros _ s' HQ. steps.
  match goal with Hx : add_u64 _ _ = Some _ |- _ => apply add_u64_spec in Hx as -> end. done.
Qed.

Lemma store_unconnected_spec r value s :
  wp (store_unconnected_offset r value) s (fun _ s' => exists p,
    unconnected_place_of (output s) r = Some p /\ get_unconnected (output s) p = Some pending_offset /\
    value < pending_offset /\ s' = update_output (set_unconnected p value) s).
Proof.
  unfold store_unconnected_offset. steps. rename a into p.
  match goal with Hp : unconnected_place_of _ _ = Some p |- _ => destruct (place_of_get _ _ _ Hp) as [o Ho] end.
  rewrite Ho. destruct (Z.eqb_spec o pending_offset) as [->|]; cbn [negb orb]; [|apply wp_fail].
  destruct (Z.leb_spec pending_offset value); [apply wp_fail|]. steps. by exists p.
Qed.

(** Places that are not pending stay. *)
Definition stores (l l' : runtime_layout) : Prop :=
  forall p o, get_unconnected l p = Some o -> o <> pending_offset -> get_unconnected l' p = Some o.

Definition stored_at (l : runtime_layout) (r : type_ref) (o : Z) : Prop :=
  exists p, unconnected_place_of l r = Some p /\ get_unconnected l p = Some o /\ o < pending_offset.

Lemma place_unconnected_spec rs vs cursor al s :
  sized project abi (output s) -> Forall2 (laid (output s)) rs vs -> Forall value_ok vs -> 0 <= cursor ->
  wp (place_unconnected project abi marks_allocated worklist_allocated rs cursor al) s (fun r s' =>
    r = (placed_end cursor (area <$> vs), area_alignment al vs) /\
    same_types (output s) (output s') /\ stores (output s) (output s') /\
    Forall2 (stored_at (output s')) rs (placed cursor (area <$> vs))).
Proof.
  intros Hsz Hl Hv Hc. revert vs Hv cursor al s Hsz Hl Hc. induction rs as [|r rs IH]; intros vs Hv cursor al s Hsz Hl Hc.
  { apply Forall2_nil_inv_l in Hl as ->. cbn. steps. split; [done|]. split; [done|]. split; [by intros p o|constructor]. }
  apply Forall2_cons_inv_l in Hl as (v & vs' & Hlv & Hl & ->). apply Forall_cons in Hv as [Hv Hvs].
  cbn [place_unconnected]. apply wp_bind, (place_value_spec r v); try done. intros aligned -> Hle.
  eapply wp_mono; [apply store_unconnected_spec|]. cbn beta. intros _ s1 (p & Hp & Hg & Hlt & ->).
  set (s1 := update_output (set_unconnected p (round_up cursor (value_alignment v))) s).
  assert (same_types (output s) (output s1)) as Hsame by apply same_types_set_unconnected.
  assert (stores (output s) (output s1)) as Hst.
  { intros p' o Hp' Ho. cbn. rewrite (get_set_unconnected _ _ _ _ _ Hg). by case_bool_decide; [congruence|]. }
  eapply wp_mono; [apply (IH vs' Hvs); cbn [fst snd]|].
  - by apply (same_types_sized (output s)).
  - eapply Forall2_impl; [exact Hl|]. intros r' v' Hl'. by apply (same_types_laid _ _ _ _ Hsame).
  - destruct Hv. lia.
  - cbn beta. intros res s2 (-> & Hsame2 & Hst2 & Hall). split; [done|]. split; [by eapply same_types_trans|].
    split; [intros p' o Hp' Ho; by apply Hst2; [apply Hst|]|]. cbn. constructor; [|done].
    exists p. rewrite (same_types_place _ _ _ Hsame2), (same_types_place _ _ _ Hsame). split; [done|]. split; [|done].
    apply Hst2; [|lia]. cbn. by rewrite (get_set_unconnected _ _ _ _ _ Hg), bool_decide_eq_true_2.
Qed.

(** Object offsets do not touch the places. *)
Definition same_places (l l' : runtime_layout) : Prop := forall p, get_unconnected l' p = get_unconnected l p.

Lemma place_objects_spec vs index cursor al s :
  sized project abi (output s) -> (forall j v, vs !! j = Some v -> object_laid (output s) (index + Z.of_nat j) v) ->
  Forall value_ok vs -> 0 <= cursor -> 0 <= index -> index + Z.of_nat (length vs) <= object_count project ->
  wp (place_objects project abi marks_allocated worklist_allocated index (length vs) cursor al) s (fun r s' =>
    r = (placed_end cursor (area <$> vs), area_alignment al vs) /\
    same_types (output s) (output s') /\ same_places (output s) (output s') /\
    (forall j, 0 <= j < index -> object_offsets (output s') !! Z.to_nat j = object_offsets (output s) !! Z.to_nat j) /\
    (forall j o, placed cursor (area <$> vs) !! j = Some o ->
       object_offsets (output s') !! Z.to_nat (index + Z.of_nat j) = Some o)).
Proof.
  intros Hsz Hl Hv. revert index cursor al s Hsz Hl. induction Hv as [|v vs Hv Hvs IH]; intros index cursor al s Hsz Hl Hc Hi Hk.
  { cbn. steps. by split_and!. }
  cbn [length place_objects] in *. steps. rewrite object_at_handle in * by lia. rename a into e.
  destruct (Hl O v eq_refl) as (e' & He' & Hlv). rewrite Z.add_0_r in He'.
  match goal with He : project_object project _ = Some e |- _ => rewrite He in He' end. injection He' as <-.
  apply (place_value_spec (object_type e) v); try done. intros aligned -> Hle. steps.
  set (s1 := set_object_offset index (round_up cursor (value_alignment v)) s).
  assert (same_types (output s) (output s1)) as Hsame by (split; try done; cbn; by rewrite length_insert).
  eapply wp_mono; [apply (IH (index + 1)); cbn [fst snd]|].
  - by apply (same_types_sized (output s)).
  - intros j w Hj. destruct (Hl (S j) w Hj) as (e2 & He2 & Hl2). exists e2. split.
    + rewrite <- He2. f_equal. lia.
    + by apply (same_types_laid _ _ _ _ Hsame).
  - destruct Hv. lia.
  - lia.
  - lia.
  - cbn beta. intros r s2 (-> & Hsame2 & Hpl2 & Hbefore & Hat). split; [done|]. split; [by eapply same_types_trans|].
    split; [intros p; by rewrite Hpl2|]. pose proof (sized_objects _ _ _ Hsz). split.
    + intros j Hj. rewrite Hbefore by lia. cbn. apply list_lookup_insert_ne. lia.
    + intros [|j] o Ho; cbn in Ho.
      * injection Ho as <-. rewrite Z.add_0_r, Hbefore by lia. cbn. apply list_lookup_insert_eq. lia.
      * rewrite <- (Hat j o Ho). f_equal. lia.
Qed.

(** ** The whole layout *)

(** The layout of a project: every slot obeys its rule, and the unconnected values and then
    the objects lie one behind the other. *)
Record built (l : runtime_layout) (us vs : list runtime_value_layout) : Prop := Built {
  built_sized : sized project abi l;
  built_slots : slots_ok project abi l;
  built_values : Forall value_ok (us ++ vs);
  built_unconnected : Forall2 (laid l) (unconnected_types l) us;
  built_unconnected_places : Forall2 (stored_at l) (unconnected_types l) (placed 0 (area <$> us));
  built_closed p : place_used l p -> exists r, r ∈ unconnected_types l /\ unconnected_place_of l r = Some p;
  built_object_count : Z.of_nat (length vs) = object_count project;
  built_objects j v : vs !! j = Some v -> object_laid l (Z.of_nat j) v;
  built_object_places : object_offsets l = placed (placed_end 0 (area <$> us)) (area <$> vs);
  built_alignment : alignment_value l = area_alignment 1 (us ++ vs);
  built_size : size_value l = round_up (placed_end 0 (area <$> us ++ vs)) (area_alignment 1 (us ++ vs))
}.

Lemma areas_ok vs : Forall value_ok vs -> Forall field_ok (area <$> vs).
Proof. intros Hv. apply Forall_fmap. eapply Forall_impl; [exact Hv|]. intros v [? ?]. split; cbn; lia. Qed.

Lemma area_alignment_le start vs : start <= area_alignment start vs.
Proof.
  unfold area_alignment. revert start. induction vs as [|v vs IH]; intros start; cbn; [lia|].
  specialize (IH (Z.max start (value_alignment v))). lia.
Qed.

Lemma built_prepared l us vs : built l us vs -> built (with_prepared l) us vs.
Proof.
  intros [Hsz Hsl Hv Hu Hp Hc Hn Ho Hop Ha Hs].
  assert (same_types l (with_prepared l)) as Hsame by done.
  assert (extends None l (with_prepared l)) as Hx by by apply same_types_extends.
  split; try done.
  - by eapply same_types_sized.
  - apply (slots_ok_extends project abi None l); [done..|by left|by left].
Qed.

Lemma worklist_values l : worklist_laid l (length (unconnected_types l)) ->
  exists us, Forall2 (laid l) (unconnected_types l) us.
Proof.
  intros Hw. assert (forall r, r ∈ unconnected_types l -> exists v, laid l r v) as Hall.
  { intros r (j & Hj)%list_elem_of_lookup. apply (Hw j r); [by eapply lookup_lt_Some|done]. }
  clear Hw. induction (unconnected_types l) as [|r rs IH]; [by exists []|].
  destruct (Hall r) as [v Hv]; [by left|]. destruct IH as [us Hus]; [intros r' Hr'; apply Hall; by right|].
  exists (v :: us). by constructor.
Qed.

(** The placed layout, seen from the one that was laid out. *)
Lemma placed_layout_ok l1 l2 us :
  layout_ok l1 -> same_types l1 l2 -> stores l1 l2 -> Forall2 (stored_at l2) (unconnected_types l1) us ->
  extends None l1 l2 /\
  forall p, place_used l2 p -> exists r, r ∈ unconnected_types l1 /\ unconnected_place_of l2 r = Some p.
Proof.
  intros [Hsz Hsl [Hlen Hpend]] Hsame Hst Hall.
  assert (forall r, r ∈ unconnected_types l1 -> exists o, stored_at l2 r o) as Hstored.
  { intros r (j & Hj)%list_elem_of_lookup. destruct (Forall2_lookup_l _ _ _ _ _ Hall Hj) as (o & _ & Ho). by exists o. }
  assert (pending_offset < invalid_offset) as Hlt by done.
  split.
  - apply same_types_extends; [done|]. intros p (o & Ho & Hne).
    destruct (Hpend p o Ho) as [->|(-> & r & Hr & Hp)]; [done|].
    destruct (Hstored r Hr) as (o & p' & Hp' & Ho' & Hlto). rewrite (same_types_place _ _ _ Hsame) in Hp'.
    simplify_eq. exists o. split; [done|lia].
  - intros p (o & Ho & Hne). destruct (get_unconnected l1 p) as [o1|] eqn:Ho1.
    + destruct (Hpend p o1 Ho1) as [->|(-> & r & Hr & Hp)].
      * pose proof (Hst p _ Ho1 ltac:(done)). congruence.
      * exists r. split; [done|]. by rewrite (same_types_place _ _ _ Hsame).
    + destruct Hsame as [_ _ _ _ (_ & L1 & L2 & L3)].
      exfalso. destruct p; cbn in Ho, Ho1; apply lookup_lt_Some in Ho; apply lookup_ge_None in Ho1; lia.
Qed.

(** The passes together: [l2] is laid out, [l3] has its unconnected values placed, [l4] its
    objects. *)
Lemma built_intro l2 l3 l4 us vs final :
  layout_ok l2 -> same_types l2 l3 -> stores l2 l3 -> Forall2 (laid l2) (unconnected_types l2) us ->
  Forall2 (stored_at l3) (unconnected_types l2) (placed 0 (area <$> us)) ->
  same_types l3 l4 -> same_places l3 l4 -> Forall value_ok us -> Forall value_ok vs ->
  Z.of_nat (length vs) = object_count project ->
  (forall j v, vs !! j = Some v -> object_laid l2 (Z.of_nat j) v) ->
  (forall j o, placed (placed_end 0 (area <$> us)) (area <$> vs) !! j = Some o -> object_offsets l4 !! j = Some o) ->
  align_up (placed_end (placed_end 0 (area <$> us)) (area <$> vs)) (area_alignment (area_alignment 1 us) vs) = Some final ->
  built (with_size final (area_alignment (area_alignment 1 us) vs) l4) us vs.
Proof.
  intros Hok Hsame3 Hst Hus Hall Hsame4 Hpl Huv Hvv Hlen Hvs Hat Hfinal.
  set (l5 := with_size final (area_alignment (area_alignment 1 us) vs) l4).
  destruct (placed_layout_ok l2 l3 _ Hok Hsame3 Hst Hall) as [Hx3 Hclosed].
  assert (same_types l3 l5) as Hsame5 by by destruct Hsame4.
  assert (same_places l3 l5) as Hpl5 by (intros p; rewrite <- Hpl; by destruct p).
  assert (extends None l2 l5) as Hx.
  { eapply extends_trans; [exact Hx3|]. apply same_types_extends; [done|]. intros p (o & Ho & Hne). exists o. by rewrite Hpl5. }
  assert (same_types l2 l5) as Hsame by by eapply same_types_trans.
  assert (sized project abi l5) as Hsz by (by apply (same_types_sized l2), Hok).
  destruct Hsame as [[Ht Hd] _ Hw _ _].
  pose proof (placed_end_le 0 _ (areas_ok _ Huv)) as Hle1.
  pose proof (placed_end_le (placed_end 0 (area <$> us)) _ (areas_ok _ Hvv)) as Hle2.
  pose proof (area_alignment_le 1 us). pose proof (area_alignment_le (area_alignment 1 us) vs).
  apply align_up_spec in Hfinal as (_ & -> & _); [|lia..].
  assert (area_alignment (area_alignment 1 us) vs = area_alignment 1 (us ++ vs)) as Hal by (unfold area_alignment; by rewrite foldl_app).
  split.
  - done.
  - apply (slots_ok_extends project abi None l2); [done|apply Hok| |]; intros i s; rewrite ?Ht, ?Hd; by left.
  - by apply Forall_app.
  - rewrite Hw. eapply Forall2_impl; [exact Hus|]. intros r v. by apply (laid_extends project None).
  - rewrite Hw. eapply Forall2_impl; [exact Hall|]. intros r o (p & Hp & Ho & Hlt). exists p.
    by rewrite Hpl5, (same_types_place _ _ _ Hsame5).
  - intros p (o & Ho & Hne). rewrite Hpl5 in Ho. destruct (Hclosed p) as (r & Hr & Hp); [by exists o|].
    exists r. by rewrite Hw, (same_types_place _ _ _ Hsame5).
  - done.
  - intros j v Hj. eapply object_laid_extends; [exact Hx|]. by apply Hvs.
  - apply list_eq_same_length with (length vs); [by rewrite placed_length, length_fmap| |].
    + pose proof (sized_objects _ _ _ Hsz). lia.
    + intros j o o' _ Ho Ho'. apply Hat in Ho'. cbn in Ho. congruence.
  - done.
  - cbn. by rewrite Hal, fmap_app, placed_end_app.
Qed.

Lemma build_layout_spec s :
  layout_ok (output s) -> unconnected_types (output s) = [] ->
  wp (build_layout project abi marks_allocated worklist_allocated) s (fun _ s' => exists us vs, built (output s') us vs).
Proof.
  intros Hok Hnil. unfold build_layout. pose proof (object_count_range project laws) as Hoc. steps.
  eapply wp_mono; [apply resolve_objects_spec; [done|lia|lia]|]. cbn beta. intros _ s1 (Hok1 & Hx1 & vs & Hlen & Hvs). steps.
  eapply wp_mono; [apply resolve_unconnected_spec; [done|lia|lia|]|].
  { intros j r Hj. lia. }
  cbn beta. intros _ s2 (Hok2 & Hx2 & Hw2). steps.
  destruct (worklist_values _ Hw2) as [us Hus].
  assert (Forall value_ok us) as Husv.
  { rewrite Forall_forall. intros v (j & Hj)%list_elem_of_lookup.
    destruct (Forall2_lookup_r _ _ _ _ _ Hus Hj) as (r & _ & Hl). by apply (laid_value_ok project abi _ _ _ (ok_slots _ _ _ Hok2) Hl). }
  eapply wp_mono; [apply (place_unconnected_spec _ us); try done; apply Hok2|]. cbn beta.
  intros r3 s3 (-> & Hsame3 & Hst3 & Hall3). cbn [fst snd]. steps.
  destruct (placed_layout_ok _ _ _ Hok2 Hsame3 Hst3 Hall3) as [Hx3 Hclosed3].
  assert (forall j v, vs !! j = Some v -> object_laid (output s3) (0 + Z.of_nat j) v) as Hvs3.
  { intros j v Hj. eapply object_laid_extends; [exact Hx3|]. eapply object_laid_extends; [exact Hx2|]. by apply Hvs. }
  assert (Forall value_ok vs) as Hvsv.
  { rewrite Forall_forall. intros v (j & Hj)%list_elem_of_lookup. destruct (Hvs j v Hj) as (e & _ & Hl).
    apply (laid_value_ok project abi (output s1) (object_type e)); [apply Hok1|done]. }
  pose proof (placed_end_le 0 _ (areas_ok _ Husv)) as Hle1.
  rewrite <- Hlen. eapply wp_mono; [apply (place_objects_spec vs); try done; [by eapply same_types_sized, Hok2|lia]|].
  cbn beta. intros r4 s4 (-> & Hsame4 & Hpl4 & _ & Hat4). cbn [fst snd]. steps.
  match goal with Hx : align_up _ _ = Some ?r |- _ => rename r into final; rename Hx into Hfinal end.
  exists us, vs. apply (built_intro (output s2) (output s3) (output s4)); try done.
  - lia.
  - intros j v Hj. eapply object_laid_extends; [exact Hx2|]. by apply Hvs.
  - intros j o Ho. rewrite <- (Hat4 j o Ho). f_equal. lia.
Qed.
End Build.
