(* ===== verification/RuntimeProject.v ===== *)
(** The promises of [prepare_runtime_layout] (project/runtime/runtime_layout.cpp): it
    returns for every project, a prepared layout obeys the native rules, its areas and the
    fields of its records do not overlap, and every reference has a value to refer to.

    The fields of one record (project/runtime/runtime_layout.cpp): in a prepared layout the
    bases and members of a class are aligned, lie inside it and do not overlap. *)

From S2P Require Import Prelude Identity GraphData GraphGrowth GraphTypes GraphRecords Graph CompiledView ProjectView RuntimeLayout RuntimeRules RuntimeOrder RuntimeRecords RuntimeRecursion RuntimeBuild.

Local Open Scope Z_scope.

(** ** The start and the end *)

Section Prepare.
Context `{ProjectView V} (project : V) (abi : server_abi_configuration) (laws : project_laws project).
Context (marks_allocated : bool) (worklist_allocated : nat -> bool) (allocated : bool).
Local Abbreviation prepare := (prepare_runtime_layout project abi marks_allocated worklist_allocated allocated).

Lemma valid_key_positive : valid_abi_layout_key abi = true -> 0 < abi_pack abi.
Proof.
  unfold valid_abi_layout_key. rewrite existsb_exists. intros (x & Hin & Hx). apply Z.eqb_eq in Hx. rewrite Hx.
  cbn in Hin. lia.
Qed.

Lemma new_layout_ok : layout_ok project abi (new_layout project abi).
Proof.
  pose proof (type_count_range project laws). pose proof (derived_type_count_range project laws).
  pose proof (object_count_range project laws). pose proof (member_count_range project laws). pose proof (base_count_range project laws).
  split.
  - split; cbn [new_layout type_slots derived_slots member_offsets base_offsets object_offsets unconnected_intrinsic_offsets
      unconnected_type_offsets unconnected_derived_offsets target_value]; rewrite ?length_replicate; try done; lia.
  - split; cbn; intros i s [-> _]%lookup_replicate; done.
  - split.
    + unfold taken. cbn [new_layout unconnected_types unconnected_intrinsic_offsets unconnected_type_offsets unconnected_derived_offsets].
      by rewrite !in_use_replicate.
    + intros p o Hp. left. destruct p;
      cbn [get_unconnected new_layout unconnected_intrinsic_offsets unconnected_type_offsets unconnected_derived_offsets] in Hp;
      by apply lookup_replicate in Hp as [-> _].
Qed.

(** Every way the preparation ends. *)
Lemma prepare_cases : exists st l, prepare = Some (st, l) /\
  (l = reset_layout \/
   object_count project = 0 /\ st = layout_success /\ l = with_prepared (with_target (abi_target_value abi) reset_layout) \/
   st = layout_success /\ 0 < abi_pack abi /\ exists us vs l', built project abi l' us vs /\ l = with_prepared l').
Proof.
  unfold prepare_runtime_layout. destruct (_ || _) eqn:Ev; [do 2 eexists; split; [done|by left]|].
  apply orb_false_iff in Ev as [_ Hkey%negb_false_iff]. pose proof (valid_key_positive Hkey) as Hpack.
  destruct (Z.eqb_spec (object_count project) 0) as [Hz|Hz]; [do 2 eexists; split; [done|right; by left]|].
  destruct allocated; cbn [negb]; [|do 2 eexists; split; [done|by left]].
  destruct (build_layout_spec project abi laws Hpack marks_allocated worklist_allocated (Builder (new_layout project abi) [] 0))
    as (o & s' & -> & Hpost); [apply new_layout_ok|done|].
  destruct o as [r|u]; [do 2 eexists; split; [done|by left]|].
  destruct (Hpost u eq_refl) as (us & vs & Hb). do 2 eexists. split; [done|]. right; right. split; [done|]. split; [done|].
  by exists us, vs, (output s').
Qed.

(** A prepared layout of a project with objects was built. *)
Lemma prepared_built st l :
  prepare = Some (st, l) -> prepared_value l = true -> object_count project <> 0 ->
  0 < abi_pack abi /\ exists us vs, built project abi l us vs.
Proof.
  intros Hp Hl Hz. destruct prepare_cases as (st' & l' & Hp' & Hcases). rewrite Hp in Hp'. simplify_eq.
  destruct Hcases as [->|[[? _]|(_ & Hpack & us & vs & l0 & Hb & ->)]]; [done|done|]. split; [done|]. exists us, vs.
  by apply built_prepared.
Qed.

Lemma laid_prepared l r v : prepared_value l = true -> laid l r v <-> layout_value l r = Some v.
Proof. intros Hp. unfold laid. by assert (with_prepared l = l) as -> by (destruct l; cbn in *; by subst). Qed.

(** ** References to the same type *)

Definition same_reference (r r' : type_ref) : Prop := ref_kind r = ref_kind r' /\ payload r = payload r'.

Lemma same_place_reference l r r' p :
  unconnected_place_of l r = Some p -> unconnected_place_of l r' = Some p -> same_reference r r'.
Proof.
  unfold unconnected_place_of, same_reference. pose proof (payload_nonneg r). pose proof (payload_nonneg r').
  destruct (ref_kind r), (ref_kind r'); intros Hx Hy; repeat case_match; unbool; simplify_eq; split; try done; lia.
Qed.

Lemma same_reference_value l r r' : same_reference r r' -> layout_value l r = layout_value l r'.
Proof. intros [Hk Hp]. unfold layout_value, ref_valid. by rewrite Hk, Hp. Qed.

Lemma same_reference_place l r r' : same_reference r r' -> unconnected_place_of l r = unconnected_place_of l r'.
Proof. intros [Hk Hp]. unfold unconnected_place_of. by rewrite Hk, Hp. Qed.
End Prepare.

(** ** What is placed where *)

(** The owner of an area of shared memory. *)
Inductive area_owner := owner_object (o : object_handle) | owner_unconnected (r : type_ref).

Definition same_owner (a b : area_owner) : Prop :=
  match a, b with
  | owner_object o, owner_object o' => o = o'
  | owner_unconnected r, owner_unconnected r' => same_reference r r'
  | _, _ => False
  end.

Section Areas.
Context `{ProjectView V} (project : V) (abi : server_abi_configuration) (laws : project_laws project).

(** The offset and the value of an area. *)
Definition owner_area (l : runtime_layout) (a : area_owner) : option (Z * runtime_value_layout) :=
  match a with
  | owner_object o =>
      if (1 <=? o) && (o <=? object_count project) then
        e ← project_object project o; v ← layout_value l (object_type e); offset ← layout_object_offset l o;
        Some (offset, v)
      else None
  | owner_unconnected r =>
      offset ← unconnected_offset l r; v ← layout_value l r; Some (offset, v)
  end.

Lemma unconnected_offset_spec l r o :
  prepared_value l = true ->
  (unconnected_offset l r = Some o <-> ref_valid r = true /\ exists p, unconnected_place_of l r = Some p /\
    get_unconnected l p = Some o /\ o <> invalid_offset /\ o <> pending_offset).
Proof.
  intros Hp. unfold unconnected_offset. rewrite Hp. destruct (ref_valid r); cbn; [|by split; [|intros [? _]]].
  destruct (unconnected_place_of l r) as [p|]; cbn; [|naive_solver].
  destruct (get_unconnected l p) as [o'|] eqn:Eo; cbn; [|naive_solver].
  destruct (Z.eqb_spec o' invalid_offset), (Z.eqb_spec o' pending_offset); cbn; naive_solver.
Qed.

(** The position of an owner in the order of placement. *)
Lemma owner_position l us vs a o v :
  built project abi l us vs -> prepared_value l = true -> owner_area l a = Some (o, v) ->
  exists i, (us ++ vs) !! i = Some v /\ placed 0 (area <$> us ++ vs) !! i = Some o /\
    match a with
    | owner_object h => i = (length us + Z.to_nat (h - 1))%nat /\ 1 <= h
    | owner_unconnected r => (i < length us)%nat /\ exists r', unconnected_types l !! i = Some r' /\ same_reference r r'
    end.
Proof.
  intros Hb Hp Ha. rewrite fmap_app, placed_app. destruct a as [h|r]; cbn in Ha.
  - destruct ((1 <=? h) && (h <=? object_count project)) eqn:E; [|done]. unbool.
    destruct (project_object project h) as [e|] eqn:He; [|done]. cbn in Ha.
    destruct (layout_value l (object_type e)) as [w|] eqn:Hw; [|done]. cbn in Ha.
    destruct (layout_object_offset l h) as [off|] eqn:Ho; [|done]. cbn in Ha. simplify_eq.
    pose proof (built_object_count _ _ _ _ _ Hb) as Hcount.
    destruct (lookup_lt_is_Some_2 vs (Z.to_nat (h - 1))) as [w Hv]; [lia|].
    destruct (built_objects _ _ _ _ _ Hb _ _ Hv) as (e' & He' & Hl').
    replace (Z.of_nat (Z.to_nat (h - 1)) + 1) with h in He' by lia. rewrite He in He'. injection He' as <-.
    apply (proj1 (laid_prepared _ _ _ Hp)) in Hl'. assert (w = v) as -> by congruence.
    unfold layout_object_offset, offset_of_object in Ho. rewrite (proj2 (Z.eqb_neq h 0)) in Ho by lia.
    rewrite (built_object_places _ _ _ _ _ Hb) in Ho.
    exists (length us + Z.to_nat (h - 1))%nat. split; [by rewrite lookup_app_r, Nat.add_sub_swap, Nat.sub_diag by lia|].
    split; [|by split]. rewrite lookup_app_r by (rewrite placed_length, length_fmap; lia).
    rewrite placed_length, length_fmap, Nat.add_sub_swap, Nat.sub_diag by lia. done.
  - destruct (unconnected_offset l r) as [off|] eqn:Ho; [|done]. cbn in Ha.
    destruct (layout_value l r) as [w|] eqn:Hw; [|done]. cbn in Ha. simplify_eq.
    apply unconnected_offset_spec in Ho as (Hv & p & Hpl & Hg & Hi & Hpe); [|done].
    destruct (built_closed _ _ _ _ _ Hb p) as (r' & Hr' & Hp'); [by exists o|].
    pose proof (same_place_reference _ _ _ _ Hpl Hp') as Hsame. apply list_elem_of_lookup in Hr' as [i Hr'].
    destruct (Forall2_lookup_l _ _ _ _ _ (built_unconnected _ _ _ _ _ Hb) Hr') as (w & Hw' & Hl').
    destruct (Forall2_lookup_l _ _ _ _ _ (built_unconnected_places _ _ _ _ _ Hb) Hr') as (o' & Ho' & p' & Hp2 & Hg' & _).
    simplify_eq. apply lookup_lt_Some in Hw' as Hlt.
    apply (proj1 (laid_prepared _ _ _ Hp)) in Hl'. rewrite (same_reference_value _ _ _ Hsame) in Hw. assert (w = v) as -> by congruence.
    exists i. split; [by rewrite lookup_app_l|]. split; [|split; [done|by exists r']].
    by rewrite lookup_app_l by (rewrite placed_length, length_fmap; lia).
Qed.

(** Different positions of one list of fields do not overlap. *)
Lemma placed_apart cursor fs i j f g o o' :
  Forall field_ok fs -> i <> j -> fs !! i = Some f -> fs !! j = Some g ->
  placed cursor fs !! i = Some o -> placed cursor fs !! j = Some o' -> o + f.1 <= o' \/ o' + g.1 <= o.
Proof.
  intros Hf Hne Hi Hj Ho Ho'. destruct (decide (i < j)%nat) as [Hlt|Hge].
  - left. by eapply (placed_ordered cursor fs i j).
  - right. eapply (placed_ordered cursor fs j i); try done. lia.
Qed.

Lemma area_alignment_ge start vs v : v ∈ vs -> value_alignment v <= area_alignment start vs.
Proof.
  unfold area_alignment. intros Hin. revert start. induction Hin as [v vs|v w vs _ IH]; intros start; cbn.
  - pose proof (area_alignment_le (Z.max start (value_alignment v)) vs) as Hle. unfold area_alignment in Hle. lia.
  - apply IH.
Qed.

Lemma built_area l us vs a o v :
  built project abi l us vs -> prepared_value l = true -> owner_area l a = Some (o, v) ->
  0 <= o /\ o mod value_alignment v = 0 /\ o + value_size v <= size_value l /\
  value_alignment v <= alignment_value l /\ 0 < value_size v.
Proof.
  intros Hb Hp Ha. destruct (owner_position _ _ _ _ _ _ Hb Hp Ha) as (i & Hv & Ho & _).
  pose proof (built_values _ _ _ _ _ Hb) as Hvals. pose proof (areas_ok _ Hvals) as Hok.
  destruct (placed_bounds 0 (area <$> us ++ vs) i (area v) o) as (H0 & Hm & Hle); [done|by rewrite list_lookup_fmap, Hv|done|].
  rewrite (built_size _ _ _ _ _ Hb), (built_alignment _ _ _ _ _ Hb). pose proof (area_alignment_le 1 (us ++ vs)).
  destruct (round_up_spec (placed_end 0 (area <$> us ++ vs)) (area_alignment 1 (us ++ vs))) as [? _]; [lia|].
  apply list_elem_of_lookup_2 in Hv. pose proof (area_alignment_ge 1 _ _ Hv). rewrite Forall_forall in Hvals.
  destruct (Hvals v Hv). cbn in Hm, Hle. split_and!; try done; lia.
Qed.

Lemma built_areas_apart l us vs a b o v o' v' :
  built project abi l us vs -> prepared_value l = true ->
  owner_area l a = Some (o, v) -> owner_area l b = Some (o', v') -> ~ same_owner a b ->
  o + value_size v <= o' \/ o' + value_size v' <= o.
Proof.
  intros Hb Hp Ha Hb' Hne. destruct (owner_position _ _ _ _ _ _ Hb Hp Ha) as (i & Hv & Ho & Hi).
  destruct (owner_position _ _ _ _ _ _ Hb Hp Hb') as (j & Hv' & Ho' & Hj).
  pose proof (areas_ok _ (built_values _ _ _ _ _ Hb)) as Hok.
  apply (placed_apart 0 (area <$> us ++ vs) i j (area v) (area v')); try done; [|by rewrite list_lookup_fmap, ?Hv, ?Hv'..].
  intros <-. apply Hne. destruct a as [h|r], b as [h'|r']; cbn.
  - lia.
  - lia.
  - lia.
  - destruct Hi as (_ & r1 & E1 & [? ?]), Hj as (_ & r2 & E2 & [? ?]). split; congruence.
Qed.
End Areas.

(** ** The promises *)

(** C30: the preparation returns for every project: the recursion over nested, derived and
    inherited types ends, the growing worklist is exhausted and no vector is accessed out
    of bounds.  Either the layout is prepared, or it is reset. *)
Theorem layout_returns `{ProjectView V} (project : V) abi marks_allocated worklist_allocated allocated :
  project_laws project ->
  exists st l, prepare_runtime_layout project abi marks_allocated worklist_allocated allocated = Some (st, l) /\
    (prepared_value l = true /\ st = layout_success \/ l = reset_layout).
Proof.
  intros laws. destruct (prepare_cases project abi laws marks_allocated worklist_allocated allocated) as (st & l & -> & Hc).
  exists st, l. split; [done|]. destruct Hc as [->|[(_ & -> & ->)|(-> & _ & us & vs & l' & _ & ->)]]; [by right|by left..].
Qed.

(** C31: in a prepared layout every object's type has a value, every record that has one obeys
    the rules of the ABI - the order of its bases, the pointer to its table, the padding and
    offsets of its fields, its size and alignment - and so does every derived type. *)
Theorem layout_obeys_abi `{ProjectView V} (project : V) abi marks_allocated worklist_allocated allocated st l :
  project_laws project ->
  prepare_runtime_layout project abi marks_allocated worklist_allocated allocated = Some (st, l) ->
  prepared_value l = true -> object_count project <> 0 ->
  (forall o, 1 <= o <= object_count project -> exists e v o',
     project_object project o = Some e /\ layout_value l (object_type e) = Some v /\
     layout_object_offset l o = Some o') /\
  (forall t v, 1 <= t -> layout_type l t = Some v -> exists slot, slot_value slot = v /\ record_rule project abi l t slot) /\
  (forall r v, ref_kind r = ref_derived -> layout_value l r = Some v ->
     exists slot, slot_value slot = v /\ derived_rule project abi l (payload r) slot).
Proof.
  intros laws Hprep Hp Hz. destruct (prepared_built project abi laws _ _ _ _ _ Hprep Hp Hz) as (_ & us & vs & Hb).
  split; [|split].
  - intros o Ho. pose proof (built_object_count _ _ _ _ _ Hb) as Hcount.
    destruct (lookup_lt_is_Some_2 vs (Z.to_nat (o - 1))) as [v Hv]; [lia|].
    destruct (built_objects _ _ _ _ _ Hb _ _ Hv) as (e & He & Hl). replace (Z.of_nat (Z.to_nat (o - 1)) + 1) with o in He by lia.
    pose proof (sized_objects _ _ _ (built_sized _ _ _ _ _ Hb)).
    destruct (lookup_lt_is_Some_2 (object_offsets l) (Z.to_nat (o - 1))) as [o' Ho']; [lia|].
    exists e, v, o'. split; [done|]. split; [by apply (laid_prepared l)|].
    unfold layout_object_offset, offset_of_object. by rewrite (proj2 (Z.eqb_neq o 0)) by lia.
  - intros t v Ht Hl. apply layout_type_spec in Hl as (slot & Hs & Hr & ->); [|done]. exists slot. split; [done|].
    destruct (types_ok _ _ _ (built_slots _ _ _ _ _ Hb) _ _ Hs Hr) as [_ Hrule].
    by replace (Z.of_nat (Z.to_nat (t - 1)) + 1) with t in Hrule by lia.
  - intros r v Hk Hl. apply (laid_prepared l) in Hl; [|done]. apply laid_derived in Hl as (Hv & _ & slot & Hs & Hr & ->); [|done].
    exists slot. split; [done|]. destruct (derived_slots_ok _ _ _ (built_slots _ _ _ _ _ Hb) _ _ Hs Hr) as [_ Hrule].
    pose proof (payload_nonneg r). unfold ref_valid in Hv. unbool.
    by replace (Z.of_nat (Z.to_nat (payload r - 1)) + 1) with (payload r) in Hrule by lia.
Qed.

(** C32: the areas of a prepared layout - one per object and one per type that a reference
    needs a value of - are aligned, lie inside the shared memory and do not overlap. *)
Theorem layout_separates `{ProjectView V} (project : V) abi marks_allocated worklist_allocated allocated st l :
  project_laws project ->
  prepare_runtime_layout project abi marks_allocated worklist_allocated allocated = Some (st, l) ->
  prepared_value l = true -> object_count project <> 0 ->
  (forall a o v, owner_area project l a = Some (o, v) ->
     0 <= o /\ o mod value_alignment v = 0 /\ o + value_size v <= size_value l /\
     value_alignment v <= alignment_value l /\ 0 < value_size v) /\
  (forall a b o v o' v', owner_area project l a = Some (o, v) -> owner_area project l b = Some (o', v') ->
     ~ same_owner a b -> o + value_size v <= o' \/ o' + value_size v' <= o).
Proof.
  intros laws Hprep Hp Hz. destruct (prepared_built project abi laws _ _ _ _ _ Hprep Hp Hz) as (_ & us & vs & Hb).
  split; intros; [by eapply built_area|by eapply built_areas_apart].
Qed.

(** references are never left without a referent: the type that a laid out reference
    refers to has a value and an area of its own in the shared memory. *)
Theorem references_have_areas `{ProjectView V} (project : V) abi marks_allocated worklist_allocated allocated st l r v :
  project_laws project ->
  prepare_runtime_layout project abi marks_allocated worklist_allocated allocated = Some (st, l) ->
  prepared_value l = true -> object_count project <> 0 ->
  ref_kind r = ref_derived -> layout_value l r = Some v ->
  exists r' d, payload r' = payload r /\ project_derived project r' = Some d /\
    (derived_kind d = lvalue_reference \/ derived_kind d = rvalue_reference ->
     v = ValueLayout (reference_size (abi_layout_properties (abi_target_value abi)))
           (reference_alignment (abi_layout_properties (abi_target_value abi))) /\
     exists o w, owner_area project l (owner_unconnected (child d)) = Some (o, w)).
Proof.
  intros laws Hprep Hp Hz Hk Hl. destruct (prepared_built project abi laws _ _ _ _ _ Hprep Hp Hz) as (_ & us & vs & Hb).
  apply (laid_prepared l) in Hl; [|done]. apply laid_derived in Hl as (Hv & _ & slot & Hs & Hr & ->); [|done].
  destruct (derived_slots_ok _ _ _ (built_slots _ _ _ _ _ Hb) _ _ Hs Hr) as [_ (r' & d & Hk' & Hpay & Hd & Hfacts)].
  pose proof (payload_nonneg r). unfold ref_valid in Hv. unbool. exists r', d. split; [lia|]. split; [done|].
  intros Hkind. assert (slot_value slot = ValueLayout (reference_size (abi_layout_properties (abi_target_value abi)))
    (reference_alignment (abi_layout_properties (abi_target_value abi))) /\ place_taken l (child d)) as [Hval (p & Hpl & Hu)].
  { unfold derived_facts in Hfacts. by destruct Hkind as [E|E]; rewrite E in Hfacts. }
  split; [done|]. destruct (built_closed _ _ _ _ _ Hb p Hu) as (r1 & Hr1 & Hp1).
  pose proof (same_place_reference _ _ _ _ Hpl Hp1) as Hsame. apply list_elem_of_lookup in Hr1 as [i Hi].
  destruct (Forall2_lookup_l _ _ _ _ _ (built_unconnected _ _ _ _ _ Hb) Hi) as (w & _ & Hlw).
  destruct (Forall2_lookup_l _ _ _ _ _ (built_unconnected_places _ _ _ _ _ Hb) Hi) as (o & _ & p' & Hp' & Hg & Hlt).
  apply (laid_prepared l) in Hlw; [|done]. rewrite <- (same_reference_value _ _ _ Hsame) in Hlw. simplify_eq.
  exists o, w. unfold owner_area. assert (pending_offset < invalid_offset) by done.
  assert (unconnected_offset l (child d) = Some o) as ->; [|by cbn; rewrite Hlw].
  apply unconnected_offset_spec; [done|]. split.
  - unfold layout_value in Hlw. destruct (ref_valid (child d)); [done|]. by rewrite orb_true_r in Hlw.
  - exists p. split_and!; try done; lia.
Qed.

(** the resident index that outlives a prepared layout answers as the layout did: the
    same offsets of objects, members and bases, and the sizes of the intrinsic types of the
    target; the layout keeps no offsets. *)
Theorem bindings_answer_alike l :
  prepared_value l = true ->
  exists b l', release_bindings l = Some (b, l') /\
    (forall o, binding_object_offset b o = layout_object_offset l o) /\
    (forall i, binding_member_offset b i = layout_member_offset l i) /\
    (forall i, binding_base_offset b i = layout_base_offset l i) /\
    (forall t, binding_intrinsic_size b t =
       match intrinsic_layout t (target_value l) with inr v => Some (value_size v) | inl _ => None end) /\
    object_offsets l' = [] /\ member_offsets l' = [] /\ base_offsets l' = [].
Proof.
  intros Hp. unfold release_bindings. rewrite Hp. cbn [negb].
  destruct (release_sizes (target_value l) (drop 1 intrinsic_types)) as [sizes|] eqn:Es;
    [|by destruct (target_value l)].
  do 2 eexists. split; [done|]. do 3 (split; [done|]). split; [|done].
  intros t. unfold binding_intrinsic_size. cbn [intrinsic_sizes].
  assert (sizes = default [] (release_sizes (target_value l) (drop 1 intrinsic_types))) as -> by by rewrite Es.
  clear Es. by destruct t, (target_value l).
Qed.

(** ** A sample *)

Definition sample_abi : server_abi_configuration := AbiConfiguration windows_x64 8.
Definition every_length (n : nat) : bool := true.
Definition sample_layout : runtime_layout :=
  match prepare_runtime_layout sample_graph sample_abi true every_length true with
  | Some (_, l) => l | None => reset_layout
  end.

Lemma sample_prepared :
  prepare_runtime_layout sample_graph sample_abi true every_length true = Some (layout_success, sample_layout).
Proof. by vm_compute. Qed.

Lemma sample_laws : project_laws sample_graph.
Proof. apply graph_project_laws; [apply reachable_graph_ok|apply reachable_words]; apply sample_reachable_graph. Qed.

(** Another target has no layout for records with bases. *)
Example sample_posix :
  prepare_runtime_layout sample_graph (AbiConfiguration posix_x64 8) true every_length true =
  Some (layout_unsupported_type, reset_layout).
Proof. by vm_compute. Qed.

Lemma layout_returns_witness :
  exists st l, prepare_runtime_layout sample_graph sample_abi true every_length true = Some (st, l) /\
    (prepared_value l = true /\ st = layout_success \/ l = reset_layout).
Proof. apply layout_returns. apply sample_laws. Defined.

Lemma layout_obeys_abi_witness :
  layout_type sample_layout 2 = Some (ValueLayout 16 8) /\
  exists slot, slot_value slot = ValueLayout 16 8 /\ record_rule sample_graph sample_abi sample_layout 2 slot.
Proof.
  split; [by vm_compute|].
  destruct (layout_obeys_abi sample_graph sample_abi true every_length true layout_success sample_layout)
    as (_ & Hrecords & _); [apply sample_laws|apply sample_prepared|by vm_compute|by vm_compute|].
  apply Hrecords; by vm_compute.
Defined.

Lemma layout_separates_witness :
  owner_area sample_graph sample_layout (owner_object 1) = Some (4, ValueLayout 8 4) /\
  owner_area sample_graph sample_layout (owner_unconnected int_ref) = Some (0, ValueLayout 4 4) /\
  (4 + 8 <= 0 \/ 0 + 4 <= 4).
Proof.
  split; [by vm_compute|]. split; [by vm_compute|].
  destruct (layout_separates sample_graph sample_abi true every_length true layout_success sample_layout)
    as (_ & Hapart); [apply sample_laws|apply sample_prepared|by vm_compute|by vm_compute|].
  apply (Hapart (owner_object 1) (owner_unconnected int_ref) 4 (ValueLayout 8 4) 0 (ValueLayout 4 4));
    [by vm_compute|by vm_compute|by intros []].
Defined.

Lemma references_have_areas_witness :
  exists r' d, payload r' = 2 /\ project_derived sample_graph r' = Some d /\
    (derived_kind d = lvalue_reference \/ derived_kind d = rvalue_reference ->
     ValueLayout 8 8 = ValueLayout 8 8 /\
     exists o w, owner_area sample_graph sample_layout (owner_unconnected (child d)) = Some (o, w)).
Proof.
  apply (references_have_areas sample_graph sample_abi true every_length true layout_success sample_layout
    (make_ref ref_derived 2) (ValueLayout 8 8));
    [apply sample_laws|apply sample_prepared|by vm_compute..].
Defined.

Lemma bindings_answer_alike_witness :
  exists b l', release_bindings sample_layout = Some (b, l') /\
    (forall o, binding_object_offset b o = layout_object_offset sample_layout o) /\
    (forall i, binding_member_offset b i = layout_member_offset sample_layout i) /\
    (forall i, binding_base_offset b i = layout_base_offset sample_layout i) /\
    (forall t, binding_intrinsic_size b t =
       match intrinsic_layout t (target_value sample_layout) with inr v => Some (value_size v) | inl _ => None end) /\
    object_offsets l' = [] /\ member_offsets l' = [] /\ base_offsets l' = [].
Proof. apply bindings_answer_alike. by vm_compute. Defined.

(** A base or a member of a record, by its position. *)
Inductive record_field := field_base (i : Z) | field_member (i : Z).

Lemma map_fmap {A B} (f : A -> B) (xs : list A) : map f xs = f <$> xs.
Proof. done. Qed.

Lemma selected_complete keep local (bs : list laid_base) j b :
  bs !! j = Some b -> keep (local + Z.of_nat j) b.1 = true -> (local + Z.of_nat j, b.2) ∈ selected keep local bs.
Proof.
  revert local j. induction bs as [|c bs IH]; intros local j Hj Hk; [done|]. cbn. apply elem_of_app. destruct j as [|j].
  - cbn in Hj. simplify_eq. left. rewrite Z.add_0_r in *. rewrite Hk. by left.
  - right. specialize (IH (local + 1) j Hj).
    replace (local + Z.of_nat (S j)) with (local + 1 + Z.of_nat j) in * by lia. by apply IH.
Qed.

Lemma base_order_complete bs j b : bs !! j = Some b -> (Z.of_nat j, b.2) ∈ base_order bs.
Proof.
  intros Hj. unfold base_order. apply elem_of_app. destruct b as [[] v].
  - left. by apply (selected_complete _ 0 bs j (true, v)).
  - right. by apply (selected_complete _ 0 bs j (false, v)).
Qed.

Section Fields.
Context `{ProjectView V} (project : V) (abi : server_abi_configuration) (laws : project_laws project).
Context (pack_positive : 0 < abi_pack abi).

Definition field_place (l : runtime_layout) (entry : type_view) (f : record_field) : option (Z * runtime_value_layout) :=
  match f with
  | field_base i =>
      if (0 <=? i) && (i <? range_count (tv_bases entry)) then
        base ← project_base_at project (range_begin (tv_bases entry) + i);
        v ← layout_type l (bv_type base);
        offset ← layout_base_offset l (range_begin (tv_bases entry) + i); Some (offset, v)
      else None
  | field_member i =>
      if (0 <=? i) && (i <? range_count (tv_members entry)) then
        member ← project_member_at project (range_begin (tv_members entry) + i);
        v ← layout_value l (mv_type member);
        offset ← layout_member_offset l (range_begin (tv_members entry) + i); Some (offset, v)
      else None
  end.

Section Record.
Context (l : runtime_layout) (slot : layout_slot) (entry : type_view) (bs : list laid_base) (ms : list runtime_value_layout).
Context (l_prepared : prepared_value l = true) (l_ok : slots_ok project abi l) (facts : record_facts project abi l slot entry bs ms).
Context (is_class : entry_is_union entry = false).

Local Abbreviation order := (base_order bs).
Local Abbreviation fields := (record_fields abi bs ms).
Local Abbreviation places := (placed (record_header abi entry bs ms) fields).

Lemma facts_values : Forall value_ok (map snd bs) /\ Forall value_ok ms.
Proof.
  split; rewrite Forall_forall; intros v (j & Hj)%list_elem_of_lookup.
  - rewrite map_fmap, list_lookup_fmap in Hj. destruct (bs !! j) as [b|] eqn:Hb; [|done]. cbn in Hj. simplify_eq.
    destruct (facts_bases _ _ _ _ _ _ _ facts _ _ Hb) as (base & e & _ & _ & Ht & _ & Hl & _).
    apply layout_type_spec in Hl as (s & Hs & Hr & ->); [|done]. by apply (types_ok _ _ _ l_ok _ _ Hs).
  - destruct (facts_members _ _ _ _ _ _ _ facts _ _ Hj) as (m & _ & Hl). by apply (laid_value_ok project abi l (mv_type m)).
Qed.

Lemma facts_fields_ok : Forall field_ok fields.
Proof. destruct facts_values. by apply record_fields_ok. Qed.

(** The end of the fields is inside the record. *)
Lemma fields_end : placed_end (record_header abi entry bs ms) fields <= slot_size slot /\ slot_size slot <= u32_max.
Proof.
  destruct (facts_size _ _ _ _ _ _ _ facts) as [Hsize Hle]. split; [|done]. rewrite Hsize. unfold record_size. rewrite is_class.
  pose proof (record_alignment_positive abi pack_positive entry bs ms).
  destruct (round_up_spec (if placed_end (record_header abi entry bs ms) fields =? 0 then 1
    else placed_end (record_header abi entry bs ms) fields) (record_alignment abi entry bs ms)) as [? _]; [lia|].
  destruct (Z.eqb_spec (placed_end (record_header abi entry bs ms) fields) 0); lia.
Qed.

Lemma field_bounds k v o :
  fields !! k = Some (field_of abi v) -> places !! k = Some o -> value_ok v ->
  0 <= o /\ o mod effective_alignment abi v = 0 /\ o + value_size v <= slot_size slot /\ o <> invalid_record_offset.
Proof.
  intros Hk Ho [Hv _]. destruct (placed_bounds _ _ _ _ _ facts_fields_ok Hk Ho) as (H0 & Hm & Hle). cbn in Hm, Hle.
  pose proof (record_header_nonneg abi pack_positive entry bs ms). destruct fields_end. unfold invalid_record_offset.
  split_and!; try done; lia.
Qed.

(** The position of a field in the order of placement. *)
Definition field_position (f : record_field) (k : nat) : Prop :=
  match f with
  | field_base i => map fst order !! k = Some i
  | field_member i => 0 <= i /\ k = (length order + Z.to_nat i)%nat
  end.

Lemma field_position_inj f g k : field_position f k -> field_position g k -> f = g.
Proof.
  destruct f as [i|i], g as [j|j]; cbn; intros Hf Hg; [congruence| | |f_equal; lia];
    [destruct Hg as [_ ->]; apply lookup_lt_Some in Hf|destruct Hf as [_ ->]; apply lookup_lt_Some in Hg];
    rewrite length_map in *; lia.
Qed.

Lemma field_placed f :
  match f with
  | field_base i => 0 <= i < range_count (tv_bases entry)
  | field_member i => 0 <= i < range_count (tv_members entry)
  end ->
  exists k o v, field_position f k /\ field_place l entry f = Some (o, v) /\ value_ok v /\
    fields !! k = Some (field_of abi v) /\ places !! k = Some o.
Proof.
  destruct (facts_counts _ _ _ _ _ _ _ facts) as [Hcb Hcm]. destruct (facts_class _ _ _ _ _ _ _ facts is_class) as [Hob Hom].
  destruct facts_values as [Hvb Hvm]. rewrite Forall_forall in Hvb, Hvm.
  assert (length places = (length order + length ms)%nat) as Hlen.
  { rewrite placed_length. unfold record_fields. by rewrite length_fmap, length_app, length_map. }
  destruct f as [i|i]; intros Hi; cbn [field_place field_position].
  - destruct (lookup_lt_is_Some_2 bs (Z.to_nat i)) as [b Hb]; [lia|].
    pose proof (base_order_complete _ _ _ Hb) as Hin. rewrite Z2Nat.id in Hin by lia.
    apply list_elem_of_lookup in Hin as [k Hk]. apply lookup_lt_Some in Hk as Hlt.
    assert (map fst order !! k = Some i) as Hki by by rewrite map_fmap, list_lookup_fmap, Hk.
    destruct (Forall2_lookup_l _ _ _ _ _ Hob Hki) as (o & Ho & Hoff).
    rewrite lookup_take_lt in Ho by done.
    assert (fields !! k = Some (field_of abi b.2)) as Hfk.
    { unfold record_fields. rewrite fmap_app, lookup_app_l by by rewrite length_fmap, length_map.
      by rewrite list_lookup_fmap, map_fmap, list_lookup_fmap, Hk. }
    assert (value_ok b.2) as Hval.
    { apply Hvb, list_elem_of_fmap. exists b. split; [done|]. by eapply list_elem_of_lookup_2. }
    exists k, o, b.2. split; [done|]. split; [|done].
    destruct (facts_bases _ _ _ _ _ _ _ facts _ _ Hb) as (base & e & Hbase & _ & _ & _ & Hl & _). rewrite Z2Nat.id in Hbase by lia.
    rewrite (proj2 (Z.leb_le 0 i)), (proj2 (Z.ltb_lt i _)), Hbase by lia. cbn. rewrite Hl. cbn.
    unfold layout_base_offset, record_offset_at. rewrite Hoff. cbn.
    destruct (field_bounds _ _ _ Hfk Ho Hval) as (_ & _ & _ & Hne). by rewrite (proj2 (Z.eqb_neq _ _)).
  - destruct (lookup_lt_is_Some_2 ms (Z.to_nat i)) as [v Hv]; [lia|].
    assert (positions (length ms) !! Z.to_nat i = Some i) as Hpi.
    { unfold positions. rewrite list_lookup_fmap, lookup_seq_lt by lia. cbn. f_equal. lia. }
    destruct (Forall2_lookup_l _ _ _ _ _ Hom Hpi) as (o & Ho & Hoff). rewrite lookup_drop in Ho.
    assert (fields !! (length order + Z.to_nat i)%nat = Some (field_of abi v)) as Hfk.
    { unfold record_fields. rewrite fmap_app, lookup_app_r by (rewrite length_fmap, length_map; lia).
      rewrite length_fmap, length_map, Nat.add_sub_swap, Nat.sub_diag by lia. cbn. by rewrite list_lookup_fmap, Hv. }
    assert (value_ok v) as Hval by by apply Hvm; eapply list_elem_of_lookup_2.
    exists (length order + Z.to_nat i)%nat, o, v. split; [split; [lia|done]|]. split; [|done].
    destruct (facts_members _ _ _ _ _ _ _ facts _ _ Hv) as (m & Hm & Hl). rewrite Z2Nat.id in Hm by lia.
    apply (laid_prepared l) in Hl; [|done].
    rewrite (proj2 (Z.leb_le 0 i)), (proj2 (Z.ltb_lt i _)), Hm by lia. cbn. rewrite Hl. cbn.
    unfold layout_member_offset, record_offset_at. rewrite Hoff. cbn.
    destruct (field_bounds _ _ _ Hfk Ho Hval) as (_ & _ & _ & Hne). by rewrite (proj2 (Z.eqb_neq _ _)).
Qed.

Lemma field_place_range f o v : field_place l entry f = Some (o, v) ->
  match f with
  | field_base i => 0 <= i < range_count (tv_bases entry)
  | field_member i => 0 <= i < range_count (tv_members entry)
  end.
Proof. destruct f as [i|i]; cbn [field_place]; destruct ((0 <=? i) && _) eqn:E; try done; intros _; unbool; lia. Qed.

Lemma field_inside f o v : field_place l entry f = Some (o, v) ->
  0 <= o /\ o mod effective_alignment abi v = 0 /\ o + value_size v <= slot_size slot.
Proof.
  intros Hf. destruct (field_placed f (field_place_range _ _ _ Hf)) as (k & o' & v' & _ & Hf' & Hv & Hk & Ho).
  rewrite Hf in Hf'. simplify_eq. destruct (field_bounds _ _ _ Hk Ho Hv) as (? & ? & ? & _). done.
Qed.

Lemma fields_disjoint f g o v o' v' :
  field_place l entry f = Some (o, v) -> field_place l entry g = Some (o', v') -> f <> g ->
  o + value_size v <= o' \/ o' + value_size v' <= o.
Proof.
  intros Hf Hg Hne. destruct (field_placed f (field_place_range _ _ _ Hf)) as (k & o1 & v1 & Hp & Hf' & _ & Hk & Ho).
  destruct (field_placed g (field_place_range _ _ _ Hg)) as (k' & o2 & v2 & Hp' & Hg' & _ & Hk' & Ho').
  rewrite Hf in Hf'. rewrite Hg in Hg'. simplify_eq.
  apply (placed_apart (record_header abi entry bs ms) fields k k' (field_of abi v1) (field_of abi v2)); try done; [apply facts_fields_ok|].
  intros <-. by apply Hne, (field_position_inj f g k).
Qed.
End Record.
End Fields.

(** C33: the bases and members of a laid out class each have a value and an offset that is
    aligned as far as the pack of the ABI asks for, lie inside the class, and no two of them
    overlap. *)
Theorem class_fields_apart `{ProjectView V} (project : V) abi marks_allocated worklist_allocated allocated st l t entry whole :
  project_laws project ->
  prepare_runtime_layout project abi marks_allocated worklist_allocated allocated = Some (st, l) ->
  prepared_value l = true -> object_count project <> 0 ->
  1 <= t -> layout_type l t = Some whole -> project_type project t = Some entry -> entry_is_union entry = false ->
  (forall i, 0 <= i < range_count (tv_bases entry) -> is_Some (field_place project l entry (field_base i))) /\
  (forall i, 0 <= i < range_count (tv_members entry) -> is_Some (field_place project l entry (field_member i))) /\
  (forall f o v, field_place project l entry f = Some (o, v) ->
     0 <= o /\ o mod effective_alignment abi v = 0 /\ o + value_size v <= value_size whole) /\
  (forall f g o v o' v', field_place project l entry f = Some (o, v) -> field_place project l entry g = Some (o', v') ->
     f <> g -> o + value_size v <= o' \/ o' + value_size v' <= o).
Proof.
  intros laws Hprep Hp Hz Ht Hl He Hc. destruct (prepared_built project abi laws _ _ _ _ _ Hprep Hp Hz) as (Hpack & us & vs & Hb).
  pose proof (built_slots _ _ _ _ _ Hb) as Hok. apply layout_type_spec in Hl as (slot & Hs & Hr & ->); [|done].
  destruct (types_ok _ _ _ Hok _ _ Hs Hr) as [_ (entry' & bs & ms & He' & Hfacts)].
  replace (Z.of_nat (Z.to_nat (t - 1)) + 1) with t in He' by lia. rewrite He in He'. injection He' as <-.
  split; [|split; [|split]].
  - intros i Hi. destruct (field_placed project abi Hpack l slot entry bs ms Hp Hok Hfacts Hc (field_base i) Hi) as (k & o & v & _ & -> & _). done.
  - intros i Hi. destruct (field_placed project abi Hpack l slot entry bs ms Hp Hok Hfacts Hc (field_member i) Hi) as (k & o & v & _ & -> & _). done.
  - intros f o v. by apply (field_inside project abi Hpack l slot entry bs ms).
  - intros f g o v o' v'. by apply (fields_disjoint project abi Hpack l slot entry bs ms).
Qed.

Definition sample_class : type_view := TypeView (GraphRange 1 1) (GraphRange 0 1) 1 1 1.

Lemma class_fields_apart_witness :
  field_place sample_graph sample_layout sample_class (field_base 0) = Some (0, ValueLayout 8 4) /\
  field_place sample_graph sample_layout sample_class (field_member 0) = Some (8, ValueLayout 8 8) /\
  (0 + 8 <= 8 \/ 8 + 8 <= 0).
Proof.
  split; [by vm_compute|]. split; [by vm_compute|].
  destruct (class_fields_apart sample_graph sample_abi true every_length true layout_success sample_layout 2 sample_class
    (ValueLayout 16 8)) as (_ & _ & _ & Hapart);
    [apply sample_laws|apply sample_prepared|by vm_compute..|].
  apply (Hapart (field_base 0) (field_member 0) 0 (ValueLayout 8 4) 8 (ValueLayout 8 8)); [by vm_compute|by vm_compute|done].
Defined.
