(* ===== verification/Outcome.v ===== *)
(** Computations that answer, or refuse with a result code: the queries of a bound image
    and of the runtime memory. *)

From S2P Require Import Prelude.

Local Open Scope Z_scope.

(** An answer or the result that is not a success; [None] is an access out of bounds or a
    loop without end. *)
Definition outcome (R A : Type) : Type := option (R + A).

Definition answer {R A} (a : A) : outcome R A := Some (inr a).
Definition refuse {R A} (r : R) : outcome R A := Some (inl r).
Definition bind_query {R A B} (m : outcome R A) (f : A -> outcome R B) : outcome R B :=
  match m with None => None | Some (inl r) => Some (inl r) | Some (inr a) => f a end.
Definition guard_query {R} (b : bool) (r : R) : outcome R unit := if b then answer tt else refuse r.
(** A query of the image whose missing answer is the result [r]. *)
Definition ask {R A} (o : option (option A)) (r : R) : outcome R A :=
  match o with None => None | Some None => refuse r | Some (Some a) => answer a end.
(** A handle; zero is the missing one. *)
Definition ask_handle {R} (o : option Z) (r : R) : outcome R Z :=
  match o with None => None | Some h => if h =? 0 then refuse r else answer h end.

Declare Scope outcome_scope.
Delimit Scope outcome_scope with outcome.
Notation "'let?' x := m 'in' k" := (bind_query m (fun x => k)) (at level 10, x binder, k at level 200) : outcome_scope.
Notation "'do?' m 'in' k" := (bind_query m (fun _ => k)) (at level 10, k at level 200) : outcome_scope.

(** ** What a computation answers *)

(** The computation ends, and an answer satisfies [Q]. *)
Definition answers {R A} (m : outcome R A) (Q : A -> Prop) : Prop :=
  exists o, m = Some o /\ forall a, o = inr a -> Q a.

Lemma answers_answer {R A} (a : A) Q : Q a -> answers (R:=R) (answer a) Q.
Proof. intros H. exists (inr a). split; [done|]. by intros ? [= <-]. Qed.

Lemma answers_refuse {R A} (r : R) (Q : A -> Prop) : answers (refuse r) Q.
Proof. by exists (inl r). Qed.

Lemma answers_bind {R A B} (m : outcome R A) (f : A -> outcome R B) Q :
  answers m (fun a => answers (f a) Q) -> answers (bind_query m f) Q.
Proof.
  intros (o & -> & Hf). destruct o as [r|a]; cbn; [by exists (inl r)|]. by apply Hf.
Qed.

Lemma answers_mono {R A} (m : outcome R A) (Q Q' : A -> Prop) : answers m Q -> (forall a, Q a -> Q' a) -> answers m Q'.
Proof. intros (o & -> & H) Himp. exists o. split; [done|]. intros a Ha. by apply Himp, H. Qed.

Lemma answers_guard {R} b (r : R) (Q : unit -> Prop) : (b = true -> Q tt) -> answers (guard_query b r) Q.
Proof. intros H. destruct b; [by apply answers_answer, H|apply answers_refuse]. Qed.

Lemma answers_ask {R A} (o : option (option A)) (r : R) (Q : A -> Prop) :
  is_Some o -> (forall a, o = Some (Some a) -> Q a) -> answers (ask o r) Q.
Proof. intros [[a|] ->] H; [by apply answers_answer, H|apply answers_refuse]. Qed.

Lemma answers_handle {R} (o : option Z) (r : R) (Q : Z -> Prop) :
  is_Some o -> (forall h, o = Some h -> h <> 0 -> Q h) -> answers (ask_handle o r) Q.
Proof.
  intros [h ->] H. cbn. destruct (Z.eqb_spec h 0); [apply answers_refuse|]. by apply answers_answer, H.
Qed.

Ltac outcome_steps :=
  repeat match goal with
  | |- answers (bind_query _ _) _ => apply answers_bind; cbv beta
  | |- answers (answer _) _ => apply answers_answer
  | |- answers (refuse _) _ => apply answers_refuse
  | |- answers (guard_query _ _) _ => apply answers_guard; intros ?
  end.

(** ** Answers taken apart *)

Lemma bind_answer {R A B} (m : outcome R A) (f : A -> outcome R B) b :
  bind_query m f = answer b -> exists a, m = answer a /\ f a = answer b.
Proof. destruct m as [[r|a]|]; [done| |done]. by exists a. Qed.

Lemma guard_answer {R} c (r : R) u : guard_query c r = answer u -> c = true.
Proof. by destruct c. Qed.

Lemma handle_answer {R} (o : option Z) (r : R) h : ask_handle o r = answer h -> o = Some h /\ h <> 0.
Proof. destruct o as [x|]; [|done]. cbn. destruct (Z.eqb_spec x 0); [done|]. by intros [= <-]. Qed.

(** Taking a computation that answers apart. *)
Ltac answered H :=
  repeat match type of H with
  | bind_query (guard_query _ _) _ = answer _ =>
      let u := fresh in let G := fresh "Hguard" in
      apply bind_answer in H as (u & G & H); apply guard_answer in G; clear u
  | bind_query _ _ = answer _ => let a := fresh "a" in let E := fresh "Ha" in apply bind_answer in H as (a & E & H)
  end.
