(* ===== verification/RuntimeQuery.v ===== *)
(** Reading one value by its name (project/runtime/runtime_query.cpp): the object is found
    through the scopes of the compiled image, its members through the bases of their
    classes, references through the runtime memory. *)

From S2P Require Import Prelude TextLines StringTable Identity GraphData ImageBytes CompiledView ProjectView RuntimeLayout RuntimeValue Outcome.

Local Open Scope Z_scope.
Local Open Scope outcome_scope.

Record resolved_member := ResolvedMember { member_place : Z; member_place_type : type_ref }.

Inductive member_search_result := member_none | member_found (m : resolved_member) | member_ambiguous | member_invalid.

Definition query (A : Type) : Type := outcome runtime_query_result A.

Section Query.
Context (v : compiled_view) (bindings : runtime_binding_index) (runtime_base : Z) (runtime : list byte).

Definition runtime_size : Z := Z.of_nat (length runtime).

Definition read_native_bits (offset size : Z) : query Z :=
  if (size =? 0) || (8 <? size) || (runtime_size <? offset) || (runtime_size - offset <? size)
  then refuse query_invalid_runtime
  else match bytes_at runtime offset size with Some bs => answer (le_value bs) | None => None end.

(** The address stored at [offset], as an offset into the runtime. *)
Definition follow_reference (offset : Z) : query Z :=
  if (runtime_size <? offset) || (runtime_size - offset <? 8) then refuse query_invalid_runtime
  else
    match read_u64 runtime offset with
    | None => None
    | Some target =>
        if target <? runtime_base then refuse query_invalid_runtime
        else if runtime_size <=? target - runtime_base then refuse query_invalid_runtime
        else answer (target - runtime_base)
    end.

Fixpoint normalize_loop (n : nat) (type : type_ref) (offset : Z) : query (type_ref * Z) :=
  match n with
  | O => refuse query_invalid_runtime
  | S n =>
      if negb (ref_valid type) then refuse query_invalid_runtime
      else if negb (bool_decide (ref_kind type = ref_derived)) then answer (type, offset)
      else
        let? d := ask (view_derived v type) query_invalid_runtime in
        match derived_kind d with
        | const_qualified | volatile_qualified => normalize_loop n (child d) offset
        | lvalue_reference | rvalue_reference =>
            let? target := follow_reference offset in normalize_loop n (child d) target
        | pointer | bounded_array | unbounded_array => answer (type, offset)
        end
  end.

Definition normalize_location (type : type_ref) (offset : Z) : query (type_ref * Z) :=
  normalize_loop (S (S (Z.to_nat (section_count (section v sec_derived_types))))) type offset.

(** ** Members of a class and of its bases *)

Section Bases.
Context (search : type_handle -> option member_search_result).

(** The loop over the bases. *)
Fixpoint search_bases (global : Z) (n : nat) (state : option resolved_member) : option member_search_result :=
  match n with
  | O => Some (match state with Some m => member_found m | None => member_none end)
  | S n =>
      match view_base_at v global with
      | None => None
      | Some None => Some member_invalid
      | Some (Some base) =>
          if bv_virtual base then Some member_invalid
          else
            match binding_base_offset bindings global with
            | None => Some member_invalid
            | Some base_offset =>
                match search (bv_type base) with
                | None => None
                | Some member_invalid => Some member_invalid
                | Some member_ambiguous => Some member_ambiguous
                | Some member_none => search_bases (global + 1) n state
                | Some (member_found candidate) =>
                    match add_u64 base_offset (member_place candidate) with
                    | None => Some member_invalid
                    | Some combined =>
                        match state with
                        | Some _ => Some member_ambiguous
                        | None =>
                            search_bases (global + 1) n
                              (Some (ResolvedMember combined (member_place_type candidate)))
                        end
                    end
                end
            end
      end
  end.
End Bases.

(** [fuel] is the depth that is left: [type_count + 1 - depth]. *)
Fixpoint find_member_recursive (fuel : nat) (type : type_handle) (name : string_id) : option member_search_result :=
  match fuel with
  | O => Some member_invalid
  | S fuel =>
      if type =? 0 then Some member_invalid
      else
        match view_type v type with
        | None => None
        | Some None => Some member_invalid
        | Some (Some entry) =>
            if negb (tv_defined entry) then Some member_invalid
            else
              match view_find_member v type name with
              | None => None
              | Some member =>
                  if member_valid member then
                    match view_member v type member with
                    | None => None
                    | Some None => Some member_invalid
                    | Some (Some record) =>
                        match binding_member_offset bindings (range_begin (tv_members entry) + member) with
                        | None => Some member_invalid
                        | Some member_offset => Some (member_found (ResolvedMember member_offset (mv_type record)))
                        end
                    end
                  else
                    search_bases (fun base => find_member_recursive fuel base name)
                      (range_begin (tv_bases entry)) (Z.to_nat (range_count (tv_bases entry))) None
              end
        end
  end.

(** ** Objects *)

Definition scope_separator : list byte := str "::".

Fixpoint resolve_scopes (fuel : nat) (parent : identity_ref) (rest : list byte) : query object_handle :=
  match fuel with
  | O => None
  | S fuel =>
      let separator := find_text scope_separator rest in
      let component := match separator with Some n => take n rest | None => rest end in
      do? guard_query (negb (bool_decide (component = []))) query_invalid_input in
      let? string := ask_handle (find_string v component) query_not_found in
      let k := match separator with None => kind_object | Some _ => kind_namespace_scope end in
      match view_find_identity v parent string k with
      | None => None
      | Some found =>
          do? guard_query (valid found) query_not_found in
          match separator with
          | None => ask_handle (view_find_object v found) query_not_found
          | Some n =>
              let rest := drop (n + 2) rest in
              do? guard_query (negb (bool_decide (rest = []))) query_invalid_input in
              resolve_scopes fuel found rest
          end
      end
  end.

Definition resolve_object (qualified : list byte) : query object_handle :=
  let qualified := if bool_decide (take 2 qualified = scope_separator) then drop 2 qualified else qualified in
  do? guard_query (negb (bool_decide (qualified = []))) query_invalid_input in
  match view_identity_root v with
  | None => None
  | Some parent =>
      do? guard_query (valid parent) query_invalid_runtime in
      resolve_scopes (S (length qualified)) parent qualified
  end.

(** ** The value *)

Definition member_separator : list byte := str ".".

(** The loop over the members of the name. *)
Fixpoint resolve_members (fuel : nat) (rest : list byte) (type : type_ref) (offset : Z) : query (type_ref * Z) :=
  match fuel with
  | O => None
  | S fuel =>
      let next := find_text member_separator rest in
      let component := match next with Some n => take n rest | None => rest end in
      do? guard_query (negb (bool_decide (component = []))) query_invalid_input in
      let? location := normalize_location type offset in
      do? guard_query (bool_decide (ref_kind location.1 = ref_named)) query_unsupported_type in
      let owner := view_type_at v (payload location.1 - 1) in
      do? guard_query (negb (owner =? 0)) query_invalid_runtime in
      let? string := ask_handle (find_string v component) query_not_found in
      match find_member_recursive (S (Z.to_nat (type_count_value v))) owner string with
      | None => None
      | Some member_none => refuse query_not_found
      | Some member_ambiguous => refuse query_invalid_input
      | Some member_invalid => refuse query_invalid_runtime
      | Some (member_found member) =>
          match add_u64 location.2 (member_place member) with
          | None => refuse query_invalid_runtime
          | Some place =>
              do? guard_query (place <? runtime_size) query_invalid_runtime in
              match next with
              | None => answer (member_place_type member, place)
              | Some n => resolve_members fuel (drop (n + 1) rest) (member_place_type member) place
              end
          end
      end
  end.

Definition read_value (type : type_ref) (offset : Z) : query runtime_value :=
  let? location := normalize_location type offset in
  do? guard_query (bool_decide (ref_kind location.1 = ref_intrinsic)) query_unsupported_type in
  let t := intrinsic_of_number (payload location.1) in
  match binding_intrinsic_size bindings t with
  | None => refuse query_unsupported_type
  | Some size =>
      do? guard_query (size <=? 8) query_unsupported_type in
      let? bits := read_native_bits location.2 size in
      answer (RuntimeValue (intrinsic_number t) size 0 0 bits)
  end.

Definition get_runtime_value (name : list byte) : query runtime_value :=
  do? guard_query (view_valid v && negb (bool_decide (name = []))) query_invalid_input in
  let dot := find_text member_separator name in
  let? object := resolve_object (match dot with Some n => take n name | None => name end) in
  let? record := ask (view_object v object) query_invalid_runtime in
  match binding_object_offset bindings object with
  | None => refuse query_invalid_runtime
  | Some offset =>
      match dot with
      | None => read_value (object_type record) offset
      | Some n =>
          let members := drop (n + 1) name in
          do? guard_query (negb (bool_decide (members = []))) query_invalid_input in
          let? location := resolve_members (S (length members)) members (object_type record) offset in
          read_value location.1 location.2
      end
  end.
End Query.
