(* ===== verification/QueryBounds.v ===== *)
(** Reading a value by its name (project/runtime/runtime_query.cpp) on an image that was
    bound: the query always ends, reads only bytes of the image and of the runtime
    memory, and its value is the bytes it found.

    Which member a name means (find_member_recursive of project/runtime/runtime_query.cpp):
    the search through the bases against the rule of the language, that a member hides
    those of the bases below it and that the one that is left has to be unique. *)

From S2P Require Import Prelude TextLines StringTable Identity GraphData ImageBytes CompiledView CompiledBounds CompiledProject ProjectView RuntimeLayout RuntimeQuery RuntimeValue Outcome.

Local Open Scope Z_scope.

Section Bounds.
Context (v : compiled_view) (Hv : view_ok v).
Context (bindings : runtime_binding_index) (runtime_base : Z) (runtime : list byte).

(** Offsets are unsigned words. *)
Record bindings_words : Prop := BindingsWords {
  object_offsets_words : Forall (fun o => 0 <= o) (binding_object_offsets bindings);
  member_offsets_words : Forall (fun o => 0 <= o) (binding_member_offsets bindings);
  base_offsets_words : Forall (fun o => 0 <= o) (binding_base_offsets bindings);
  intrinsic_sizes_words : Forall (fun o => 0 <= o) (intrinsic_sizes bindings)
}.
Context (Hw : bindings_words).

Lemma record_offset_word offsets i o :
  Forall (fun o => 0 <= o) offsets -> record_offset_at offsets i = Some o -> 0 <= o.
Proof.
  intros Hall. unfold record_offset_at. destruct (offsets !! _) as [x|] eqn:Hx; [|done]. cbn.
  destruct (_ =? _); [done|]. intros [= <-]. rewrite Forall_lookup in Hall. by eapply Hall.
Qed.

Lemma binding_object_unsigned object offset : binding_object_offset bindings object = Some offset -> 0 <= offset.
Proof.
  unfold binding_object_offset, offset_of_object. destruct (_ =? 0); [done|].
  pose proof (object_offsets_words Hw) as Hall. rewrite Forall_lookup in Hall. apply Hall.
Qed.

Lemma binding_size_positive t size : binding_intrinsic_size bindings t = Some size -> 0 < size.
Proof.
  unfold binding_intrinsic_size. destruct (_ =? 0); [done|].
  destruct (intrinsic_sizes bindings !! _) as [x|] eqn:Ex; [|done]. cbn.
  destruct (Z.eqb_spec x 0); [done|]. intros [= <-]. pose proof (intrinsic_sizes_words Hw) as Hall.
  rewrite Forall_lookup in Hall. pose proof (Hall _ _ Ex). lia.
Qed.

Lemma view_type_at_unsigned index : 0 <= view_type_at v index.
Proof. unfold view_type_at. destruct (_ <? _); [apply Z.mod_pos_bound|]; lia. Qed.

Lemma view_base_handle i b : view_base_at v i = Some (Some b) -> 0 <= bv_type b.
Proof.
  unfold view_base_at. destruct (_ <=? _); [done|]. intros H.
  apply bind_Some in H as (record & _ & H). apply bind_Some in H as (raw & Hraw & H). apply get_u32_word in Hraw.
  do 3 (apply bind_Some in H as (? & _ & H)). destruct (_ && _); [|done]. simplify_eq. cbn.
  unfold type_from_raw. destruct (_ && _); lia.
Qed.

Lemma view_object_handle i o : view_find_object v i = Some o -> 0 <= o.
Proof.
  unfold view_find_object. intros H. apply bind_Some in H as (b & _ & H). destruct (_ || _); [by simplify_eq|].
  apply bind_Some in H as (record & _ & H). apply bind_Some in H as (location & Hl & H). simplify_eq.
  destruct (negb _); [done|]. unfold object_from_raw, graph_location_slot. destruct (_ && _); [|done].
  apply Z.land_nonneg. by right.
Qed.

Lemma view_type_bases t e : view_type v t = Some (Some e) -> 0 <= range_begin (tv_bases e).
Proof.
  unfold view_type. destruct (_ || _); [done|]. intros Ho.
  do 8 (apply bind_Some in Ho as (? & ? & Ho)). simplify_eq. cbn. by eapply get_u32_word.
Qed.

Lemma follow_reference_spec offset : 0 <= offset ->
  answers (follow_reference runtime_base runtime offset) (fun target => 0 <= target < runtime_size runtime).
Proof.
  intros H0. unfold follow_reference. destruct (_ || _) eqn:E; [apply answers_refuse|]. unbool. unfold runtime_size in *.
  destruct (read_u64_some runtime offset) as (target & -> & _); [lia..|].
  destruct (Z.ltb_spec target runtime_base); [apply answers_refuse|].
  destruct (Z.leb_spec (Z.of_nat (length runtime)) (target - runtime_base)); [apply answers_refuse|].
  apply answers_answer. lia.
Qed.

Lemma normalize_loop_spec n type offset : 0 <= offset ->
  answers (normalize_loop v runtime_base runtime n type offset) (fun location => 0 <= location.2).
Proof.
  revert type offset. induction n as [|n IH]; intros type offset H0; cbn [normalize_loop]; [apply answers_refuse|].
  destruct (negb (ref_valid type)); [apply answers_refuse|].
  destruct (negb _); [by apply answers_answer|]. apply answers_bind.
  apply answers_ask; [by apply view_derived_some|]. intros d _.
  destruct (derived_kind d); try (by apply IH); try (by apply answers_answer).
  all: apply answers_bind; eapply answers_mono; [by apply follow_reference_spec|]; cbn; intros target [? _]; by apply IH.
Qed.

(** A search ends, and what it finds has an unsigned place. *)
Definition search_ok (r : option member_search_result) : Prop :=
  exists s, r = Some s /\ forall m, s = member_found m -> 0 <= member_place m.

Lemma search_refused s : (forall m, s <> member_found m) -> search_ok (Some s).
Proof. intros H. exists s. split; [done|]. intros m E. by destruct (H m). Qed.

Lemma search_found m : 0 <= member_place m -> search_ok (Some (member_found m)).
Proof. intros H. eexists. split; [done|]. by intros ? [= <-]. Qed.

Lemma search_bases_spec search n global state :
  (forall base, 0 <= base -> search_ok (search base)) -> 0 <= global ->
  (forall m, state = Some m -> 0 <= member_place m) ->
  search_ok (search_bases v bindings search global n state).
Proof.
  intros IH. revert global state. induction n as [|n IHn]; intros global state Hg Hs; cbn [search_bases].
  { destruct state as [m|]; [by apply search_found, Hs|by apply search_refused]. }
  destruct (view_base_at_some v Hv global Hg) as ([base|] & Hbase); rewrite Hbase; [|by apply search_refused].
  destruct (bv_virtual base); [by apply search_refused|].
  destruct (binding_base_offset _ _) as [o|] eqn:Ho; [|by apply search_refused].
  destruct (IH (bv_type base)) as (r & -> & Hr); [by eapply view_base_handle|].
  destruct r as [|c| |]; [apply IHn; [lia|done]| |by apply search_refused..].
  destruct (add_u64 o (member_place c)) as [combined|] eqn:Ec; [|by apply search_refused].
  destruct state; [by apply search_refused|]. apply IHn; [lia|]. intros ? [= <-]. cbn.
  unfold add_u64 in Ec. destruct (_ <? _); [done|]. injection Ec as <-.
  pose proof (Hr c eq_refl). pose proof (record_offset_word _ _ _ (base_offsets_words Hw) Ho). lia.
Qed.

Lemma find_member_spec fuel type name : 0 <= type -> search_ok (find_member_recursive v bindings fuel type name).
Proof.
  revert type. induction fuel as [|fuel IH]; intros type Ht; cbn [find_member_recursive]; [by apply search_refused|].
  destruct (type =? 0); [by apply search_refused|].
  destruct (view_type_some v Hv type Ht) as ([entry|] & He); rewrite He; [|by apply search_refused].
  destruct (negb (tv_defined entry)); [by apply search_refused|].
  destruct (view_find_member_some v Hv type name Ht) as (m & Hm). rewrite Hm.
  destruct (member_valid m) eqn:Hval.
  - destruct (find_member_sound v type name m Hv Hm) as (e & r & _ & _ & Hrange & _).
    { unfold member_valid in Hval. by apply negb_true_iff, Z.eqb_neq in Hval. }
    destruct (view_member_some v Hv type m Ht) as ([record|] & ->); [lia| |by apply search_refused].
    destruct (binding_member_offset _ _) as [o|] eqn:Ho; [|by apply search_refused]. apply search_found. cbn.
    eapply record_offset_word; [apply (member_offsets_words Hw)|exact Ho].
  - apply search_bases_spec; [done| |done]. by eapply view_type_bases.
Qed.

Lemma find_text_bound pattern text n :
  pattern <> [] -> find_text pattern text = Some n -> (n + length pattern <= length text)%nat.
Proof.
  intros Hp. revert n. induction text as [|c text IH]; intros n; cbn [find_text]; case_bool_decide as E.
  - by destruct pattern.
  - done.
  - intros [= <-]. apply (f_equal length) in E. rewrite length_take in E. lia.
  - destruct (find_text pattern text) as [k|]; [|done]. cbn. intros [= <-]. specialize (IH k eq_refl). cbn. lia.
Qed.

Lemma resolve_scopes_spec fuel parent rest :
  (length rest < fuel)%nat -> answers (resolve_scopes v fuel parent rest) (fun object => 0 <= object).
Proof.
  revert parent rest. induction fuel as [|fuel IH]; intros parent rest Hf; [lia|]. cbn [resolve_scopes]. outcome_steps.
  apply answers_handle; [by apply find_string_some|]. intros string _ _. cbv beta.
  destruct (view_find_identity_some v Hv parent string
    match find_text scope_separator rest with Some _ => kind_namespace_scope | None => kind_object end) as (found & ->).
  destruct (find_text scope_separator rest) as [n|] eqn:En; outcome_steps.
  - apply IH. apply find_text_bound in En; [|done]. cbn in En. rewrite length_drop. lia.
  - apply answers_handle; [by apply view_find_object_some|]. intros object Ho _. by eapply view_object_handle.
Qed.

Lemma resolve_object_spec qualified : answers (resolve_object v qualified) (fun object => 0 <= object).
Proof.
  unfold resolve_object. outcome_steps. destruct (identity_from_raw_some v Hv 1) as (root & Hroot & _).
  unfold view_identity_root. rewrite Hroot. outcome_steps. apply resolve_scopes_spec. lia.
Qed.

Lemma resolve_members_spec fuel rest type offset :
  (length rest < fuel)%nat -> 0 <= offset ->
  answers (resolve_members v bindings runtime_base runtime fuel rest type offset) (fun location => 0 <= location.2).
Proof.
  revert rest type offset. induction fuel as [|fuel IH]; intros rest type offset Hf H0; [lia|].
  cbn [resolve_members]. outcome_steps. eapply answers_mono; [by apply normalize_loop_spec|]. cbv beta. intros location Hl.
  outcome_steps. apply answers_handle; [by apply find_string_some|]. intros string _ _. cbv beta.
  pose proof (view_type_at_unsigned (payload location.1 - 1)) as Ht.
  destruct (find_member_spec (S (Z.to_nat (type_count_value v))) _ string Ht) as (r & -> & Hr).
  destruct r as [|m| |]; outcome_steps.
  destruct (add_u64 location.2 (member_place m)) as [place|] eqn:Ep; outcome_steps.
  assert (0 <= place) as Hplace.
  { unfold add_u64 in Ep. destruct (_ <? _); [done|]. injection Ep as <-. pose proof (Hr m eq_refl). lia. }
  destruct (find_text member_separator rest) as [n|] eqn:En; outcome_steps; [|done].
  apply IH; [|done]. apply find_text_bound in En; [|done]. cbn in En. rewrite length_drop. lia.
Qed.

(** The value that is read is that of bytes inside the runtime memory. *)
Definition value_at (value : runtime_value) : Prop :=
  let size := value_size value in
  (exists t, value_type value = intrinsic_number t /\ binding_intrinsic_size bindings t = Some size) /\
  0 < size <= 8 /\ value_reserved16 value = 0 /\ value_reserved32 value = 0 /\
  exists offset bs, bytes_at runtime offset size = Some bs /\ value_bits value = le_value bs.

Lemma read_value_spec type offset : 0 <= offset -> answers (read_value v bindings runtime_base runtime type offset) value_at.
Proof.
  intros H0. unfold read_value. outcome_steps. eapply answers_mono; [by apply normalize_loop_spec|]. cbv beta. intros location Hl.
  outcome_steps. destruct (binding_intrinsic_size _ _) as [size|] eqn:Es; outcome_steps. unbool.
  pose proof (binding_size_positive _ _ Es) as Hs.
  unfold read_native_bits. destruct (_ || _) eqn:E; outcome_steps. unbool. unfold runtime_size in *.
  destruct (bytes_at_some runtime location.2 size) as (bs & Hbs & _); [lia..|]. rewrite Hbs. outcome_steps.
  split; [by eexists|]. split; [cbn; lia|]. do 2 (split; [done|]). by exists location.2, bs.
Qed.

Lemma get_runtime_value_spec name : answers (get_runtime_value v bindings runtime_base runtime name) value_at.
Proof.
  unfold get_runtime_value. outcome_steps. eapply answers_mono; [apply resolve_object_spec|]. cbv beta. intros object Ho.
  outcome_steps. apply answers_ask; [by apply view_object_some|]. intros record _. cbv beta.
  destruct (binding_object_offset bindings object) as [offset|] eqn:Eo; outcome_steps.
  pose proof (binding_object_unsigned _ _ Eo) as Hoff.
  destruct (find_text member_separator name) as [n|]; [|by apply read_value_spec]. outcome_steps.
  eapply answers_mono; [apply resolve_members_spec; [lia|done]|]. cbv beta. intros location Hl. by apply read_value_spec.
Qed.
End Bounds.

(** reading a value by name ends for every accepted image, every name and every content
    of the runtime memory, and touches only bytes of the two; a value it answers has the
    size of its type and is the bytes at a place inside the runtime memory. *)
Theorem runtime_query_in_bounds (image : list byte) (v : compiled_view) bindings base runtime name :
  bind image = Some (image_success, v) -> bindings_words bindings ->
  exists r, get_runtime_value v bindings base runtime name = Some r /\
    forall value, r = inr value -> value_at bindings runtime value.
Proof. intros Hv%bound_view_ok Hw. by apply get_runtime_value_spec. Qed.

(** The image of [struct A { int x; }; A y;] with [y] at 16 and [x] at 4. *)
Definition sample_bindings : runtime_binding_index := BindingIndex (replicate 21 4) [16] [4] [].
Definition sample_runtime : list byte := replicate 20 x00 ++ [x2a; x01; x00; x00].

Lemma sample_bindings_words : bindings_words sample_bindings.
Proof. split; repeat constructor; done. Qed.

Example sample_query :
  get_runtime_value sample_view sample_bindings 4096 sample_runtime (str "::y.x") =
  Some (inr (RuntimeValue 12 4 0 0 298)).
Proof. vm_compute. reflexivity. Qed.

Lemma runtime_query_in_bounds_witness :
  value_at sample_bindings sample_runtime (RuntimeValue 12 4 0 0 298).
Proof.
  destruct (runtime_query_in_bounds sample_image sample_view sample_bindings 4096 sample_runtime (str "::y.x")
    sample_bound sample_bindings_words) as (r & Hr & Hv).
  apply Hv. assert (Some r = Some (inr (RuntimeValue 12 4 0 0 298))) as H.
  { rewrite <- Hr. vm_compute. reflexivity. }
  injection H as ->. reflexivity.
Defined.

Section Members.
Context (v : compiled_view) (bindings : runtime_binding_index) (name : string_id).

(** A way from a class to a member of the name: the bases it goes through, the place of the
    member and its type. A class that has the member itself offers no way below it. *)
Inductive member_way : type_handle -> list Z -> Z -> type_ref -> Prop :=
| way_here t e m r place :
    view_type v t = Some (Some e) -> view_find_member v t name = Some m -> member_valid m = true ->
    view_member v t m = Some (Some r) ->
    binding_member_offset bindings (range_begin (tv_members e) + m) = Some place ->
    member_way t [] place (mv_type r)
| way_base t e m i steps place type :
    view_type v t = Some (Some e) -> view_find_member v t name = Some m -> member_valid m = false ->
    way_through (range_begin (tv_bases e)) (range_begin (tv_bases e) + range_count (tv_bases e)) (i :: steps) place type ->
    member_way t (i :: steps) place type
(** A way whose first base is one of the records from [first] to [last]. *)
with way_through : Z -> Z -> list Z -> Z -> type_ref -> Prop :=
| way_step first last i b offset steps place type :
    first <= i < last -> view_base_at v i = Some (Some b) -> bv_virtual b = false ->
    binding_base_offset bindings i = Some offset -> member_way (bv_type b) steps place type ->
    way_through first last (i :: steps) (offset + place) type.

(** What a result says of the ways there are. *)
Definition says (ways : list Z -> Z -> type_ref -> Prop) (r : member_search_result) : Prop :=
  match r with
  | member_none => forall steps place type, ~ ways steps place type
  | member_found m =>
      exists steps, ways steps (member_place m) (member_place_type m) /\
        forall steps' place type, ways steps' place type -> steps' = steps
  | member_ambiguous =>
      exists steps place type steps' place' type',
        ways steps place type /\ ways steps' place' type' /\ steps <> steps'
  | member_invalid => True
  end.

Definition selected (state : option resolved_member) : member_search_result :=
  match state with Some m => member_found m | None => member_none end.

Lemma way_through_split first middle last steps place type :
  way_through first last steps place type -> middle = last - 1 ->
  way_through first middle steps place type \/ way_through middle last steps place type.
Proof.
  intros H ->. inversion H; subst. destruct (decide (i = last - 1)) as [->|]; [right|left]; econstructor; eauto; lia.
Qed.

Lemma way_through_mono first last first' last' steps place type :
  way_through first last steps place type -> first' <= first -> last <= last' -> way_through first' last' steps place type.
Proof. intros H ??. inversion H; subst. econstructor; eauto. lia. Qed.

(** The ways through one base are those of its class. *)
Lemma way_through_one i b offset steps place type :
  view_base_at v i = Some (Some b) -> binding_base_offset bindings i = Some offset ->
  way_through i (i + 1) steps place type ->
  exists rest inner, steps = i :: rest /\ place = offset + inner /\ member_way (bv_type b) rest inner type.
Proof.
  intros Hb Ho H. inversion H; subst. assert (i0 = i) as -> by lia. simplify_eq. eauto.
Qed.

Lemma says_same (ways ways' : list Z -> Z -> type_ref -> Prop) r :
  (forall steps place type, ways steps place type <-> ways' steps place type) -> says ways r -> says ways' r.
Proof. intros H. destruct r; cbn; try done; by setoid_rewrite H. Qed.

Lemma view_type_base_count t e : view_type v t = Some (Some e) -> 0 <= range_count (tv_bases e).
Proof.
  unfold view_type. destruct (_ || _); [done|]. intros Ho.
  do 8 (apply bind_Some in Ho as (? & ? & Ho)). simplify_eq. cbn. by eapply get_u32_word.
Qed.

Lemma search_bases_says search first n global state r :
  (forall base s, search base = Some s -> says (member_way base) s) -> first <= global ->
  says (way_through first global) (selected state) ->
  search_bases v bindings search global n state = Some r -> says (way_through first (global + Z.of_nat n)) r.
Proof.
  intros Hsearch. revert global state. induction n as [|n IH]; intros global state Hg Hs; cbn [search_bases].
  { intros [= <-]. by replace (global + Z.of_nat 0) with global by lia. }
  replace (global + Z.of_nat (S n)) with (global + 1 + Z.of_nat n) by lia.
  destruct (view_base_at v global) as [[b|]|] eqn:Hb; [|by intros [= <-]|done].
  destruct (bv_virtual b) eqn:Hvirtual; [by intros [= <-]|].
  destruct (binding_base_offset bindings global) as [offset|] eqn:Ho; [|by intros [= <-]].
  destruct (search (bv_type b)) as [s|] eqn:Hr; [|done]. apply Hsearch in Hr.
  assert (forall steps place type, way_through first (global + 1) steps place type ->
    way_through first global steps place type \/
    exists rest inner, steps = global :: rest /\ place = offset + inner /\ member_way (bv_type b) rest inner type) as Hsplit.
  { intros steps place type H. apply (way_through_split _ global) in H as [H|H]; [by left| |lia]. right.
    by eapply way_through_one. }
  assert (forall rest place type, member_way (bv_type b) rest place type ->
    way_through first (global + 1) (global :: rest) (offset + place) type) as Hinto.
  { intros rest place type H. econstructor; [lia|done..]. }
  assert (forall rest place type, ~ way_through first global (global :: rest) place type) as Hnew.
  { intros rest place type H. inversion H; subst. lia. }
  destruct s as [|c| |]; [|destruct (add_u64 _ _) as [combined|] eqn:Ec; [|by intros [= <-]]| |by intros [= <-]].
  - apply IH; [lia|]. destruct state as [m|]; cbn in Hs, Hr |- *.
    + destruct Hs as (steps & Hw & Hu). exists steps. split; [eapply way_through_mono; [done|lia..]|].
      intros steps' place type [H|(rest & inner & -> & -> & H)]%Hsplit; [by eapply Hu|by destruct (Hr _ _ _ H)].
    + intros steps place type [H|(rest & inner & -> & -> & H)]%Hsplit; [by eapply Hs|by eapply Hr].
  - assert (combined = offset + member_place c) as ->.
    { unfold add_u64 in Ec. destruct (_ <? _); by simplify_eq. }
    destruct Hr as (rest & Hc & Hu). destruct state as [m|]; cbn in Hs.
    + intros [= <-]. destruct Hs as (steps & Hw & _). cbn. do 3 eexists. exists (global :: rest). do 2 eexists.
      split; [eapply way_through_mono; [exact Hw|lia..]|].
      split; [eapply way_through_mono; [by apply Hinto|lia..]|]. intros ->. by eapply Hnew.
    + apply IH; [lia|]. cbn. exists (global :: rest). split; [by apply Hinto|].
      intros steps' place type [H|(rest' & inner & -> & -> & H)]%Hsplit; [by destruct (Hs _ _ _ H)|].
      f_equal. by eapply Hu.
  - intros [= <-]. destruct Hr as (s1 & p1 & t1 & s2 & p2 & t2 & H1 & H2 & Hne). cbn.
    exists (global :: s1), (offset + p1), t1, (global :: s2), (offset + p2), t2.
    split; [eapply way_through_mono; [by apply Hinto|lia..]|].
    split; [eapply way_through_mono; [by apply Hinto|lia..]|]. congruence.
Qed.

Lemma find_member_says fuel t r :
  view_ok v -> find_member_recursive v bindings fuel t name = Some r -> says (member_way t) r.
Proof.
  intros Hv. revert t r. induction fuel as [|fuel IH]; intros t r; cbn [find_member_recursive]; [by intros [= <-]|].
  destruct (t =? 0); [by intros [= <-]|].
  destruct (view_type v t) as [[e|]|] eqn:He; [|by intros [= <-]|done].
  destruct (negb (tv_defined e)); [by intros [= <-]|].
  destruct (view_find_member v t name) as [m|] eqn:Hm; [|done].
  destruct (member_valid m) eqn:Hvalid.
  - destruct (view_member v t m) as [[record|]|] eqn:Hr; [|by intros [= <-]|done].
    destruct (binding_member_offset _ _) as [place|] eqn:Ho; [|by intros [= <-]]. intros [= <-]. cbn.
    exists []. split; [by econstructor|]. intros steps p type H. inversion H; subst; [done|]; congruence.
  - intros H. assert (0 <= range_count (tv_bases e)) by (by eapply view_type_base_count).
    eapply (search_bases_says _ (range_begin (tv_bases e))) in H; [|intros; by eapply IH|lia|].
    + rewrite Z2Nat.id in H by lia. revert H. apply says_same. intros steps place type.
      destruct steps as [|i steps]; [split; intros Hw; inversion Hw; congruence|].
      split; intros Hw; [by eapply way_base|]. inversion Hw; subst. by replace e with e0 by congruence.
    + cbn. intros steps place type Hw. inversion Hw; lia.
Qed.
End Members.

(** For every accepted image, the member that a name means is the one at the end of the
    only way from the class through its bases, hidden members left out, and its place is the
    sum of the offsets on that way; that there is none means there is no way, and that the
    name is ambiguous means there are two. *)
Theorem member_search_exact image v bindings fuel t name r :
  bind image = Some (image_success, v) ->
  find_member_recursive v bindings fuel t name = Some r -> says (member_way v bindings name t) r.
Proof. intros Hv%bound_view_ok. by apply find_member_says. Qed.

Lemma member_search_exact_witness :
  says (member_way sample_view sample_bindings 2 1) (member_found (ResolvedMember 4 int_type)).
Proof. apply (member_search_exact sample_image _ _ 2 1 2); [apply sample_bound|vm_compute; reflexivity]. Defined.
