(* ===== verification/RuntimeIc.v ===== *)
(** The scalars of a runtime image by their semantic paths (project/runtime/runtime_ic.cpp):
    a path of scopes and an object, then of members, resolved against the compiled image and
    the bindings; reading such a scalar and writing it. *)

From S2P Require Import Prelude StringTable Identity GraphData ImageBytes CompiledView ProjectView RuntimeLayout Outcome.

Local Open Scope Z_scope.
Local Open Scope outcome_scope.

Inductive runtime_ic_result :=
| ic_success | ic_invalid_input | ic_not_found | ic_unsupported_type | ic_type_mismatch | ic_invalid_runtime.

#[export] Instance runtime_ic_result_eq_dec : EqDecision runtime_ic_result.
Proof. solve_decision. Defined.

Record runtime_ic_path_view := PathView { path_object : list (list byte); path_members : list (list byte) }.

Definition runtime_ic_target_const : Z := 0x01.
Definition runtime_ic_target_default : Z := 0x02.

Record runtime_ic_scalar_target := ScalarTarget {
  target_offset : Z;
  target_type : intrinsic_type;
  target_size : Z;
  target_flags : Z
}.

(** The array of sixteen bytes holds the value in its first [scalar_size]. *)
Record runtime_ic_scalar_value := ScalarValue {
  scalar_type : intrinsic_type;
  scalar_size : Z;
  scalar_bytes : list byte
}.

Definition scalar_capacity : Z := 16.
Definition no_scalar_bytes : list byte := replicate 16 x00.

Record resolved_member := ResolvedMember {
  member_offset : Z;
  member_type : type_ref;
  member_default : bool
}.

Inductive member_search_result := member_none | member_found (m : resolved_member) | member_ambiguous | member_invalid.

Section Ic.
Context (v : compiled_view) (bindings : runtime_binding_index).

(** [strip_cv]: the type below its qualifiers and whether one of them was [const]; a chain
    that does not end is refused. *)
Fixpoint strip_loop (n : nat) (type : type_ref) (constant : bool) : option (option (type_ref * bool)) :=
  match n with
  | O => Some None
  | S n =>
      if negb (bool_decide (ref_kind type = ref_derived)) then Some (Some (type, constant))
      else
        match view_derived v type with
        | None => None
        | Some None => Some None
        | Some (Some d) =>
            match derived_kind d with
            | const_qualified => strip_loop n (child d) true
            | volatile_qualified => strip_loop n (child d) constant
            | pointer | lvalue_reference | rvalue_reference | bounded_array | unbounded_array =>
                Some (Some (type, constant))
            end
        end
  end.

Definition strip_cv (type : type_ref) (constant : bool) : option (option (type_ref * bool)) :=
  strip_loop (S (Z.to_nat (section_count (section v sec_derived_types)))) type constant.

Section Bases.
Context (search : type_handle -> option member_search_result).

(** The loop over the bases. *)
Fixpoint search_bases (global : Z) (n : nat) (state : option resolved_member) : option member_search_result :=
  match n with
  | O => Some (match state with Some m => member_found m | None => member_none end)
  | S n =>
      match view_base_at v global with
      | None => None
      | Some None => Some member_invalid
      | Some (Some base) =>
          if bv_virtual base then Some member_invalid
          else
            match binding_base_offset bindings global with
            | None => Some member_invalid
            | Some base_offset =>
                match search (bv_type base) with
                | None => None
                | Some member_invalid => Some member_invalid
                | Some member_ambiguous => Some member_ambiguous
                | Some member_none => search_bases (global + 1) n state
                | Some (member_found candidate) =>
                    match add_u64 base_offset (member_offset candidate) with
                    | None => Some member_invalid
                    | Some combined =>
                        match state with
                        | Some _ => Some member_ambiguous
                        | None =>
                            search_bases (global + 1) n
                              (Some (ResolvedMember combined (member_type candidate) (member_default candidate)))
                        end
                    end
                end
            end
      end
  end.
End Bases.

(** [fuel] is the depth that is left: [type_count + 1 - depth]. *)
Fixpoint find_member_recursive (fuel : nat) (type : type_handle) (name : string_id) : option member_search_result :=
  match fuel with
  | O => Some member_invalid
  | S fuel =>
      if type =? 0 then Some member_invalid
      else
        match view_type v type with
        | None => None
        | Some None => Some member_invalid
        | Some (Some entry) =>
            if negb (tv_defined entry) then Some member_invalid
            else
              match view_find_member v type name with
              | None => None
              | Some member =>
                  if member_valid member then
                    match view_member v type member with
                    | None => None
                    | Some None => Some member_invalid
                    | Some (Some record) =>
                        match view_member_construction v type member with
                        | None => None
                        | Some None => Some member_invalid
                        | Some (Some construction) =>
                            match binding_member_offset bindings (range_begin (tv_members entry) + member) with
                            | None => Some member_invalid
                            | Some offset =>
                                Some (member_found (ResolvedMember offset (mv_type record)
                                  (bool_decide (construction = no_construction))))
                            end
                        end
                    end
                  else
                    search_bases (fun base => find_member_recursive fuel base name)
                      (range_begin (tv_bases entry)) (Z.to_nat (range_count (tv_bases entry))) None
              end
        end
  end.

(** The loop over the components of an object's name. *)
Fixpoint resolve_components (parent : identity_ref) (components : list (list byte))
  : outcome runtime_ic_result object_handle :=
  match components with
  | [] => refuse ic_not_found
  | component :: rest =>
      do? guard_query (negb (bool_decide (component = []))) ic_invalid_input in
      let? name := ask_handle (find_string v component) ic_not_found in
      let last := bool_decide (rest = []) in
      match view_find_identity v parent name (if last then kind_object else kind_namespace_scope) with
      | None => None
      | Some found =>
          do? guard_query (valid found) ic_not_found in
          if last then ask_handle (view_find_object v found) ic_not_found
          else resolve_components found rest
      end
  end.

Definition resolve_object (components : list (list byte)) : outcome runtime_ic_result object_handle :=
  do? guard_query (negb (bool_decide (components = []))) ic_invalid_input in
  match view_identity_root v with
  | None => None
  | Some parent =>
      do? guard_query (valid parent) ic_invalid_runtime in
      resolve_components parent components
  end.

(** What the loop over the members has found so far. *)
Record place := Place {
  place_offset : Z;
  place_type : type_ref;
  place_constant : bool;
  place_default : bool
}.

Definition resolve_member (runtime_size : Z) (component : list byte) (p : place) : outcome runtime_ic_result place :=
  do? guard_query (negb (bool_decide (component = []))) ic_invalid_input in
  let? stripped := ask (strip_cv (place_type p) (place_constant p)) ic_invalid_runtime in
  do? guard_query (bool_decide (ref_kind stripped.1 = ref_named)) ic_unsupported_type in
  do? guard_query (negb (payload stripped.1 =? 0)) ic_invalid_runtime in
  let owner := view_type_at v (payload stripped.1 - 1) in
  do? guard_query (negb (owner =? 0)) ic_invalid_runtime in
  let? name := ask_handle (find_string v component) ic_not_found in
  match find_member_recursive (S (Z.to_nat (type_count_value v))) owner name with
  | None => None
  | Some member_none => refuse ic_not_found
  | Some member_ambiguous => refuse ic_invalid_input
  | Some member_invalid => refuse ic_invalid_runtime
  | Some (member_found member) =>
      match add_u64 (place_offset p) (member_offset member) with
      | None => refuse ic_invalid_runtime
      | Some location =>
          do? guard_query (location <? runtime_size) ic_invalid_runtime in
          answer (Place location (member_type member) stripped.2 (member_default member))
      end
  end.

Fixpoint resolve_members (runtime_size : Z) (components : list (list byte)) (p : place) : outcome runtime_ic_result place :=
  match components with
  | [] => answer p
  | component :: rest =>
      let? p := resolve_member runtime_size component p in
      resolve_members runtime_size rest p
  end.

(** The scalar at a place: the last part of [resolve_runtime_ic_scalar]. *)
Definition scalar_at (runtime_size : Z) (p : place) : outcome runtime_ic_result runtime_ic_scalar_target :=
  let? stripped := ask (strip_cv (place_type p) (place_constant p)) ic_invalid_runtime in
  match ref_kind stripped.1 with
  | ref_derived | ref_named => refuse ic_unsupported_type
  | ref_invalid => refuse ic_invalid_runtime
  | ref_intrinsic =>
      let t := intrinsic_of_number (payload stripped.1) in
      match binding_intrinsic_size bindings t with
      | None => refuse ic_invalid_runtime
      | Some size =>
          if (size =? 0) || (scalar_capacity <? size) || (runtime_size <? place_offset p) ||
             (runtime_size - place_offset p <? size)
          then refuse ic_invalid_runtime
          else
            answer (ScalarTarget (place_offset p) t size
              (Z.lor (if stripped.2 then runtime_ic_target_const else 0)
                     (if place_default p then runtime_ic_target_default else 0)))
      end
  end.

Definition resolve_runtime_ic_scalar (runtime_size : Z) (path : runtime_ic_path_view)
  : outcome runtime_ic_result runtime_ic_scalar_target :=
  do? guard_query (view_valid v && negb (runtime_size =? 0) && negb (bool_decide (path_object path = []))) ic_invalid_input in
  let? object := resolve_object (path_object path) in
  let? record := ask (view_object v object) ic_invalid_runtime in
  match binding_object_offset bindings object with
  | None => refuse ic_invalid_runtime
  | Some offset =>
      do? guard_query (offset <? runtime_size) ic_invalid_runtime in
      let? p := resolve_members runtime_size (path_members path)
                  (Place offset (object_type record) false (negb (non_default_initializer record))) in
      scalar_at runtime_size p
  end.

Definition snapshot_runtime_ic_scalar (runtime : list byte) (path : runtime_ic_path_view)
  : outcome runtime_ic_result runtime_ic_scalar_value :=
  let? target := resolve_runtime_ic_scalar (Z.of_nat (length runtime)) path in
  match bytes_at runtime (target_offset target) (target_size target) with
  | None => None
  | Some bs =>
      match store_bytes no_scalar_bytes 0 bs with
      | None => None
      | Some bytes => answer (ScalarValue (target_type target) (target_size target) bytes)
      end
  end.

(** The runtime memory afterwards. *)
Definition reset_runtime_ic_scalar (runtime : list byte) (path : runtime_ic_path_view) (value : runtime_ic_scalar_value)
  : outcome runtime_ic_result (list byte) :=
  do? guard_query (negb (bool_decide (scalar_type value = ty_none) || (scalar_size value =? 0) ||
                         (scalar_capacity <? scalar_size value))) ic_invalid_input in
  let? target := resolve_runtime_ic_scalar (Z.of_nat (length runtime)) path in
  do? guard_query (bool_decide (target_type target = scalar_type value) && (target_size target =? scalar_size value))
    ic_type_mismatch in
  match bytes_at (scalar_bytes value) 0 (scalar_size value) with
  | None => None
  | Some bs => match store_bytes runtime (target_offset target) bs with None => None | Some runtime => answer runtime end
  end.
End Ic.
