(* ===== verification/IcScalar.v ===== *)
(** Scalars by their paths: the resolution ends inside the image and the runtime memory, it
    finds the member that a query by name finds, and writing a scalar changes what reading
    it answers and nothing else. *)

From S2P Require Import Prelude StringTable Identity GraphData ImageBytes CompiledView CompiledBounds CompiledProject ProjectView RuntimeLayout Outcome RuntimeQuery QueryBounds RuntimeIc.

Local Open Scope Z_scope.

Section Scalars.
Context (v : compiled_view) (Hv : view_ok v).
Context (bindings : runtime_binding_index) (Hw : bindings_words bindings).

Lemma strip_cv_some type constant : is_Some (strip_cv v type constant).
Proof.
  unfold strip_cv. generalize (S (Z.to_nat (section_count (section v sec_derived_types)))) as n. intros n.
  revert type constant. induction n as [|n IH]; intros type constant; cbn [strip_loop]; [by eexists|].
  destruct (negb _); [by eexists|]. destruct (view_derived_some v Hv type) as ([d|] & ->); [|by eexists].
  destruct (derived_kind d); eauto.
Qed.

(** The search is the one of a query by name, with the initializer of the member read on the
    way: it ends, and its answer is the query's. *)
Definition erase (r : member_search_result) : RuntimeQuery.member_search_result :=
  match r with
  | member_none => RuntimeQuery.member_none
  | member_found m => RuntimeQuery.member_found (RuntimeQuery.ResolvedMember (member_offset m) (member_type m))
  | member_ambiguous => RuntimeQuery.member_ambiguous
  | member_invalid => RuntimeQuery.member_invalid
  end.

Definition agrees (r : option member_search_result) (q : option RuntimeQuery.member_search_result) : Prop :=
  exists s, r = Some s /\ (s = member_invalid \/ q = Some (erase s)).

Definition erase_state (state : option resolved_member) : option RuntimeQuery.resolved_member :=
  (fun m => RuntimeQuery.ResolvedMember (member_offset m) (member_type m)) <$> state.

Lemma agrees_invalid q : agrees (Some member_invalid) q.
Proof. eexists. split; [done|]. by left. Qed.

Lemma agrees_same s : agrees (Some s) (Some (erase s)).
Proof. eexists. split; [done|]. by right. Qed.

Lemma search_bases_agrees search search' n global state :
  (forall base, 0 <= base -> agrees (search base) (search' base)) -> 0 <= global ->
  agrees (search_bases v bindings search global n state)
    (RuntimeQuery.search_bases v bindings search' global n (erase_state state)).
Proof.
  intros IH. revert global state. induction n as [|n IHn]; intros global state Hg;
    cbn [search_bases RuntimeQuery.search_bases].
  { destruct state as [m|]; [apply (agrees_same (member_found m))|apply (agrees_same member_none)]. }
  destruct (view_base_at_some v Hv global Hg) as ([base|] & Hbase); rewrite Hbase; [|apply agrees_invalid].
  destruct (bv_virtual base); [apply agrees_invalid|].
  destruct (binding_base_offset _ _) as [o|]; [|apply agrees_invalid].
  destruct (IH (bv_type base)) as (r & -> & Hr); [by eapply view_base_handle|].
  destruct Hr as [->| ->]; [apply agrees_invalid|].
  destruct r as [|c| |]; cbn [erase]; [apply IHn; lia| |apply (agrees_same member_ambiguous)|apply agrees_invalid].
  cbn [RuntimeQuery.member_place]. destruct (add_u64 o (member_offset c)); [|apply agrees_invalid].
  destruct state as [m|]; cbn; [apply (agrees_same member_ambiguous)|].
  apply (IHn _ (Some (ResolvedMember _ _ _))). lia.
Qed.

Lemma find_member_agrees fuel type name : 0 <= type ->
  agrees (find_member_recursive v bindings fuel type name)
    (RuntimeQuery.find_member_recursive v bindings fuel type name).
Proof.
  revert type. induction fuel as [|fuel IH]; intros type Ht;
    cbn [find_member_recursive RuntimeQuery.find_member_recursive]; [apply agrees_invalid|].
  destruct (type =? 0); [apply agrees_invalid|].
  destruct (view_type_some v Hv type Ht) as ([entry|] & He); rewrite He; [|apply agrees_invalid].
  destruct (negb (tv_defined entry)) eqn:Hdefined; [apply agrees_invalid|].
  destruct (view_find_member_some v Hv type name Ht) as (m & Hm). rewrite Hm.
  destruct (member_valid m) eqn:Hvalid.
  - destruct (find_member_sound v type name m Hv Hm) as (e & r & He' & _ & Hrange & _).
    { unfold member_valid in Hvalid. by apply negb_true_iff, Z.eqb_neq in Hvalid. }
    destruct (view_member_some v Hv type m Ht) as ([record|] & ->); [lia| |apply agrees_invalid].
    destruct (view_member_construction_some v Hv type m Ht) as ([c|] & ->); [lia| |apply agrees_invalid].
    destruct (binding_member_offset _ _) as [o|]; [|apply agrees_invalid].
    apply (agrees_same (member_found (ResolvedMember _ _ _))).
  - apply (search_bases_agrees _ _ _ _ None); [done|]. by eapply view_type_bases.
Qed.

Lemma find_member_place fuel type name m : 0 <= type ->
  find_member_recursive v bindings fuel type name = Some (member_found m) -> 0 <= member_offset m.
Proof.
  intros Ht H. destruct (find_member_agrees fuel type name Ht) as (s & Hs & Hq). rewrite H in Hs. injection Hs as <-.
  destruct Hq as [|Hq]; [done|]. destruct (find_member_spec v Hv bindings Hw fuel type name Ht) as (q & Hq' & Hplace).
  rewrite Hq in Hq'. injection Hq' as <-. exact (Hplace _ eq_refl).
Qed.

Lemma resolve_components_spec parent components : answers (resolve_components v parent components) (fun o => 0 <= o).
Proof.
  revert parent. induction components as [|c rest IH]; intros parent; cbn [resolve_components]; outcome_steps.
  apply answers_handle; [by apply find_string_some|]. intros name _ _. cbv beta zeta.
  destruct (view_find_identity_some v Hv parent name
    (if bool_decide (rest = []) then kind_object else kind_namespace_scope)) as (found & ->). outcome_steps.
  destruct (bool_decide (rest = [])); [|by apply IH]. apply answers_handle; [by apply view_find_object_some|].
  intros o Ho _. by eapply view_object_handle.
Qed.

Lemma scalar_object_spec components : answers (resolve_object v components) (fun o => 0 <= o).
Proof.
  unfold resolve_object. outcome_steps. destruct (identity_from_raw_some v Hv 1) as (root & Hroot & _).
  unfold view_identity_root. rewrite Hroot. outcome_steps. apply resolve_components_spec.
Qed.

Lemma resolve_member_spec size component p : 0 <= place_offset p ->
  answers (resolve_member v bindings size component p) (fun p => 0 <= place_offset p).
Proof.
  intros H0. unfold resolve_member. outcome_steps. apply answers_ask; [apply strip_cv_some|]. intros stripped _. cbv beta zeta.
  outcome_steps. apply answers_handle; [by apply find_string_some|]. intros name _ _. cbv beta.
  assert (0 <= view_type_at v (payload stripped.1 - 1)) as Ht by apply view_type_at_unsigned.
  destruct (find_member_agrees (S (Z.to_nat (type_count_value v))) _ name Ht) as (r & Hr & _). rewrite Hr.
  destruct r as [|m| |]; outcome_steps. destruct (add_u64 (place_offset p) (member_offset m)) as [location|] eqn:Ep; outcome_steps.
  cbn. unfold add_u64 in Ep. destruct (_ <? _); [done|]. injection Ep as <-.
  pose proof (find_member_place _ _ _ _ Ht Hr). lia.
Qed.

Lemma scalar_members_spec size components p : 0 <= place_offset p ->
  answers (resolve_members v bindings size components p) (fun p => 0 <= place_offset p).
Proof.
  revert p. induction components as [|c rest IH]; intros p H0; cbn [resolve_members]; outcome_steps; [done|].
  eapply answers_mono; [by apply resolve_member_spec|]. cbv beta. intros p' H. by apply IH.
Qed.

(** The target is a scalar inside the runtime memory. *)
Definition target_inside (size : Z) (t : runtime_ic_scalar_target) : Prop :=
  binding_intrinsic_size bindings (target_type t) = Some (target_size t) /\ 0 <= target_offset t /\
  0 < target_size t <= scalar_capacity /\ target_offset t + target_size t <= size.

Lemma resolve_scalar_spec size path : answers (resolve_runtime_ic_scalar v bindings size path) (target_inside size).
Proof.
  unfold resolve_runtime_ic_scalar. outcome_steps. eapply answers_mono; [apply scalar_object_spec|]. cbv beta. intros object Ho.
  outcome_steps. apply answers_ask; [by apply view_object_some|]. intros record _. cbv beta.
  destruct (binding_object_offset bindings object) as [offset|] eqn:Eo; outcome_steps.
  eapply answers_mono; [apply scalar_members_spec; by eapply binding_object_unsigned|]. cbv beta. intros p Hp.
  unfold scalar_at. outcome_steps. apply answers_ask; [apply strip_cv_some|]. intros stripped _. cbv beta.
  destruct (ref_kind stripped.1); outcome_steps. cbv zeta.
  destruct (binding_intrinsic_size _ _) as [n|] eqn:En; outcome_steps.
  destruct (_ || _) eqn:E; outcome_steps. unbool. split; [done|]. cbn in *. split; [done|].
  assert (0 < n) by (by eapply binding_size_positive). lia.
Qed.

(** The bytes of a value of the given size in their array. *)
Definition padded (bs : list byte) : list byte := bs ++ replicate (16 - length bs) x00.

Lemma store_padded bs : (length bs <= 16)%nat -> store_bytes no_scalar_bytes 0 bs = Some (padded bs).
Proof.
  intros H. unfold store_bytes, no_scalar_bytes. rewrite length_replicate, !(proj2 (Z.leb_le _ _)) by lia.
  by rewrite drop_replicate.
Qed.

Lemma snapshot_reads runtime path target bs :
  resolve_runtime_ic_scalar v bindings (Z.of_nat (length runtime)) path = Some (inr target) ->
  bytes_at runtime (target_offset target) (target_size target) = Some bs ->
  snapshot_runtime_ic_scalar v bindings runtime path =
    Some (inr (ScalarValue (target_type target) (target_size target) (padded bs))).
Proof.
  intros Ht Hbs. unfold snapshot_runtime_ic_scalar. rewrite Ht. cbn [bind_query]. rewrite Hbs.
  destruct (resolve_scalar_spec (Z.of_nat (length runtime)) path) as (o & Ho & Hin). rewrite Ht in Ho. injection Ho as <-.
  specialize (Hin _ eq_refl) as (_ & _ & Hsize & _). apply bytes_at_length in Hbs as [Hl _]. unfold scalar_capacity in *.
  rewrite store_padded by lia. done.
Qed.

Lemma snapshot_ends runtime path : is_Some (snapshot_runtime_ic_scalar v bindings runtime path).
Proof.
  destruct (resolve_scalar_spec (Z.of_nat (length runtime)) path) as (o & Ho & Hin).
  destruct o as [r|target]; [unfold snapshot_runtime_ic_scalar; rewrite Ho; by eexists|].
  specialize (Hin _ eq_refl) as (_ & ? & ? & ?).
  destruct (bytes_at_some runtime (target_offset target) (target_size target)) as (bs & Hbs & _); [lia..|].
  rewrite (snapshot_reads _ _ _ _ Ho Hbs). by eexists.
Qed.

(** A write that is accepted stores the first bytes of the value at the target. *)
Lemma reset_stores runtime path value :
  length (scalar_bytes value) = 16%nat ->
  answers (reset_runtime_ic_scalar v bindings runtime path value) (fun runtime' =>
    exists target, resolve_runtime_ic_scalar v bindings (Z.of_nat (length runtime)) path = Some (inr target) /\
      target_type target = scalar_type value /\ target_size target = scalar_size value /\
      target_inside (Z.of_nat (length runtime)) target /\
      store_bytes runtime (target_offset target) (take (Z.to_nat (scalar_size value)) (scalar_bytes value)) = Some runtime').
Proof.
  intros Hl. unfold reset_runtime_ic_scalar. outcome_steps.
  destruct (resolve_scalar_spec (Z.of_nat (length runtime)) path) as (o & Ho & Hin). rewrite Ho.
  destruct o as [r|target]; [apply answers_refuse|]. specialize (Hin _ eq_refl). apply answers_answer. outcome_steps. unbool.
  destruct Hin as (Hsize & Hoff & Hcap & Hend). unfold scalar_capacity in *.
  destruct (bytes_at_some (scalar_bytes value) 0 (scalar_size value)) as (bs & Hbs & Hlen); [lia..|].
  rewrite Hbs. assert (bs = take (Z.to_nat (scalar_size value)) (scalar_bytes value)) as ->.
  { unfold bytes_at in Hbs. destruct (_ && _); [|done]. by injection Hbs. }
  destruct (store_bytes_some runtime (target_offset target) (take (Z.to_nat (scalar_size value)) (scalar_bytes value)))
    as (runtime' & Hs); [lia..|]. rewrite Hs. apply answers_answer. exists target. split; [done|]. split; [done|]. split; [lia|].
  split; [|done]. split; [done|]. unfold scalar_capacity. lia.
Qed.
End Scalars.

(** For every accepted image and every memory, resolving, reading and writing a scalar by
    its path end without an access outside the image or the memory; the scalar that is
    resolved has the size of its type and lies inside the memory. *)
Theorem scalars_in_bounds image v bindings runtime path value :
  bind image = Some (image_success, v) -> bindings_words bindings -> length (scalar_bytes value) = 16%nat ->
  answers (resolve_runtime_ic_scalar v bindings (Z.of_nat (length runtime)) path)
    (target_inside bindings (Z.of_nat (length runtime))) /\
  is_Some (snapshot_runtime_ic_scalar v bindings runtime path) /\
  is_Some (reset_runtime_ic_scalar v bindings runtime path value).
Proof.
  intros Hv%bound_view_ok Hw Hl. split; [by apply resolve_scalar_spec|]. split; [by apply snapshot_ends|].
  destruct (reset_stores v Hv bindings Hw runtime path value Hl) as (o & -> & _). by eexists.
Qed.

(** C39: Writing a scalar is read back: after an accepted write the path answers the value
    that was written, the memory has the same length and the same bytes outside of the
    scalar, and the paths of all scalars beside it answer what they answered before. *)
Theorem reset_reads_back image v bindings runtime path value runtime' :
  bind image = Some (image_success, v) -> bindings_words bindings -> length (scalar_bytes value) = 16%nat ->
  reset_runtime_ic_scalar v bindings runtime path value = Some (inr runtime') ->
  snapshot_runtime_ic_scalar v bindings runtime' path =
    Some (inr (ScalarValue (scalar_type value) (scalar_size value)
      (padded (take (Z.to_nat (scalar_size value)) (scalar_bytes value))))) /\
  length runtime' = length runtime /\
  exists target, resolve_runtime_ic_scalar v bindings (Z.of_nat (length runtime)) path = Some (inr target) /\
    (forall offset size, offset + size <= target_offset target \/ target_offset target + target_size target <= offset ->
      bytes_at runtime' offset size = bytes_at runtime offset size) /\
    (forall path' target', resolve_runtime_ic_scalar v bindings (Z.of_nat (length runtime)) path' = Some (inr target') ->
      target_offset target' + target_size target' <= target_offset target \/
      target_offset target + target_size target <= target_offset target' ->
      snapshot_runtime_ic_scalar v bindings runtime' path' = snapshot_runtime_ic_scalar v bindings runtime path').
Proof.
  intros Hv%bound_view_ok Hw Hl Hreset. destruct (reset_stores v Hv bindings Hw runtime path value Hl) as (o & Ho & Hs).
  rewrite Hreset in Ho. injection Ho as <-. destruct (Hs _ eq_refl) as (target & Ht & Htype & Hsize & Hin & Hstore). clear Hs.
  destruct Hin as (_ & Hoff & Hcap & Hend). unfold scalar_capacity in *.
  pose proof (store_bytes_length _ _ _ _ Hstore) as Hlen. pose proof (store_bytes_read _ _ _ _ Hstore) as Hread.
  assert (Z.of_nat (length (take (Z.to_nat (scalar_size value)) (scalar_bytes value))) = scalar_size value) as Hn
    by (rewrite length_take; lia). rewrite Hn in Hread.
  split; [|split; [done|]].
  { rewrite <- Htype, <- Hsize. rewrite <- Hsize in Hread. eapply snapshot_reads; [done|done|by rewrite Hlen|done]. }
  exists target. split; [done|].
  assert (forall offset size, offset + size <= target_offset target \/ target_offset target + target_size target <= offset ->
      bytes_at runtime' offset size = bytes_at runtime offset size) as Hother.
  { intros offset size Hd. eapply store_bytes_other; [done|]. rewrite Hn. lia. }
  split; [done|]. intros path' target' Ht' Hd.
  unfold snapshot_runtime_ic_scalar. rewrite Hlen, Ht'. cbn [bind_query]. by rewrite Hother.
Qed.

Lemma scalars_in_bounds_witness :
  is_Some (snapshot_runtime_ic_scalar sample_view sample_bindings sample_runtime (PathView [str "y"] [str "x"])).
Proof.
  apply (scalars_in_bounds sample_image sample_view sample_bindings sample_runtime (PathView [str "y"] [str "x"])
    (ScalarValue signed_int 4 no_scalar_bytes)); [apply sample_bound|apply sample_bindings_words|reflexivity].
Defined.

Definition sample_scalar : runtime_ic_scalar_value := ScalarValue signed_int 4 ([x01; x02; x03; x04] ++ replicate 12 x05).

Lemma reset_reads_back_witness :
  snapshot_runtime_ic_scalar sample_view sample_bindings (replicate 20 x00 ++ [x01; x02; x03; x04]) (PathView [str "y"] [str "x"]) =
  Some (inr (ScalarValue signed_int 4 (padded [x01; x02; x03; x04]))).
Proof.
  apply (reset_reads_back sample_image sample_view sample_bindings sample_runtime (PathView [str "y"] [str "x"])
    sample_scalar); [apply sample_bound|apply sample_bindings_words|reflexivity|vm_compute; reflexivity].
Defined.
