(* ===== verification/RuntimeIcCodec.v ===== *)
(** The binary image of initial conditions (project/runtime/runtime_ic_codec.hpp and .cpp):
    a plan gives every distinct path component a local number and every part its place, the
    encoder fills the parts, and a view over such an image checks it and answers from it.
    An output span is the image; what a failing encoder leaves in it is not kept, as its
    callers discard it. *)

From S2P Require Import Prelude Crc64 HashIndex StringTable GraphData ImageBytes CompiledView Outcome RuntimeIc.

Local Open Scope Z_scope.
Local Open Scope outcome_scope.

Definition runtime_ic_binary_format_version : Z := 1.
Definition runtime_ic_binary_header_size : Z := 128.
Definition runtime_ic_binary_string_record_size : Z := 8.
Definition runtime_ic_binary_record_size : Z := 24.

Inductive runtime_ic_codec_result :=
| codec_success | codec_invalid_input | codec_invalid_image | codec_unsupported_value | codec_overflow | codec_failed.

#[export] Instance runtime_ic_codec_result_eq_dec : EqDecision runtime_ic_codec_result.
Proof. solve_decision. Defined.

Record runtime_ic_record_source := RecordSource {
  source_path : runtime_ic_path_view;
  source_value : runtime_ic_scalar_value
}.

Record runtime_ic_native_record_source := NativeRecord {
  native_object_begin : Z;
  native_object_count : Z;
  native_member_count : Z;
  native_member_begin : Z;
  native_value : runtime_ic_scalar_value
}.

Definition image_magic : list byte := str "CWICV4" ++ [x00; x00].
Definition endian_marker : Z := 0x01020304.
Definition header_payload_crc_offset : Z := 112.
Definition header_reserved_offset : Z := 120.

Definition u16_max : Z := 2 ^ 16 - 1.

Definition align8 (value : Z) : Z := Z.ldiff (u64 (value + 7)) 7.

Definition valid_scalar (s : runtime_ic_scalar_value) : bool :=
  negb (bool_decide (scalar_type s = ty_none)) && negb (bool_decide (scalar_type s = void_type)) &&
  negb (bool_decide (scalar_type s = nullptr_type)) &&
  (intrinsic_number (scalar_type s) <=? intrinsic_number nullptr_type) &&
  negb (scalar_size s =? 0) && (scalar_size s <=? scalar_capacity).

Definition next_power_of_two (value : Z) : Z :=
  if value <=? 8 then 8
  else
    let smeared := foldl (fun v shift => Z.lor v (Z.shiftr v shift)) (value - 1) [1; 2; 4; 8; 16; 32] in
    if smeared =? size_max then 0 else smeared + 1.

(** ** The plan *)

Record string_slot := StringSlot { slot_hash : Z; slot_id : Z }.

Definition vacant_slot : string_slot := StringSlot 0 0.
Definition slot_occupied (s : string_slot) : bool := negb (slot_id s =? 0).
#[export] Instance string_slot_inhabited : Inhabited string_slot := populate vacant_slot.

Record runtime_ic_binary_plan := Plan {
  plan_strings : list (list byte);
  plan_string_index : list string_slot;
  plan_source_string_to_local : list Z;
  plan_string_bytes : Z;
  plan_value_bytes : Z;
  plan_string_records_offset : Z;
  plan_components_offset : Z;
  plan_records_offset : Z;
  plan_string_bytes_offset : Z;
  plan_values_offset : Z;
  plan_size : Z;
  plan_component_count : Z;
  plan_record_count : Z
}.

Definition plan_string_count (p : runtime_ic_binary_plan) : Z := u32 (Z.of_nat (length (plan_strings p))).

Definition new_plan (index : list string_slot) (to_local : list Z) : runtime_ic_binary_plan :=
  Plan [] index to_local 0 0 0 0 0 0 0 0 0 0.

Definition find_string_id (p : runtime_ic_binary_plan) (value : list byte) : Z :=
  let T := plan_string_index p in
  if bool_decide (T = []) then 0
  else
    let hash := hash_text value in
    let matches s :=
      (slot_hash s =? hash) && (slot_id s <=? Z.of_nat (length (plan_strings p))) &&
      bool_decide (plan_strings p !! Z.to_nat (slot_id s - 1) = Some value) in
    match probe (S:=string_slot) vacant_slot T (rejects slot_occupied matches) (length T) (home T hash) with
    | None => 0
    | Some position => slot_id (T !!! position)
    end.

(** The vector was reserved for all components, so that [push_back] does not allocate. *)
Definition append_string (p : runtime_ic_binary_plan) (value : list byte)
  : outcome runtime_ic_codec_result runtime_ic_binary_plan :=
  do? guard_query (negb (bool_decide (value = []))) codec_invalid_input in
  if negb (find_string_id p value =? 0) then answer p
  else
    do? guard_query (Z.of_nat (length (plan_strings p)) <? u32_max) codec_overflow in
    match add_u64 (plan_string_bytes p) (Z.of_nat (length value)) with
    | None => refuse codec_overflow
    | Some string_bytes =>
        do? guard_query (string_bytes <=? u32_max) codec_overflow in
        let id := u32 (Z.of_nat (length (plan_strings p)) + 1) in
        match insert_slot (S:=string_slot) vacant_slot slot_occupied slot_hash (plan_string_index p) (StringSlot (hash_text value) id) with
        | None => refuse codec_failed
        | Some index =>
            answer (Plan (plan_strings p ++ [value]) index (plan_source_string_to_local p) string_bytes (plan_value_bytes p)
              (plan_string_records_offset p) (plan_components_offset p) (plan_records_offset p)
              (plan_string_bytes_offset p) (plan_values_offset p) (plan_size p) (plan_component_count p)
              (plan_record_count p))
        end
    end.

Fixpoint append_strings (p : runtime_ic_binary_plan) (values : list (list byte))
  : outcome runtime_ic_codec_result runtime_ic_binary_plan :=
  match values with
  | [] => answer p
  | value :: values => let? p := append_string p value in append_strings p values
  end.

Fixpoint append_records (p : runtime_ic_binary_plan) (records : list runtime_ic_record_source)
  : outcome runtime_ic_codec_result runtime_ic_binary_plan :=
  match records with
  | [] => answer p
  | record :: records =>
      let? p := append_strings p (path_object (source_path record)) in
      let? p := append_strings p (path_members (source_path record)) in
      append_records p records
  end.

(** The sums over the records: their components and the bytes of their values. *)
Definition count_record (components values object_count member_count size : Z) : option (Z * Z) :=
  next ← add_u64 components object_count;
  components ← add_u64 next member_count;
  if u32_max <? components then None
  else
    values ← add_u64 values size;
    if u32_max <? values then None else Some (components, values).

Fixpoint count_records (records : list runtime_ic_record_source) (components values : Z)
  : outcome runtime_ic_codec_result (Z * Z) :=
  match records with
  | [] => answer (components, values)
  | record :: records =>
      let path := source_path record in
      do? guard_query (negb (bool_decide (path_object path = [])) && valid_scalar (source_value record)) codec_invalid_input in
      match count_record components values (Z.of_nat (length (path_object path))) (Z.of_nat (length (path_members path)))
              (scalar_size (source_value record)) with
      | None => refuse codec_overflow
      | Some (components, values) => count_records records components values
      end
  end.

(** The end of both preparations: the place of every part. *)
Definition place_parts (p : runtime_ic_binary_plan) (component_count value_bytes record_count : Z)
  : outcome runtime_ic_codec_result runtime_ic_binary_plan :=
  match multiply_u64 (Z.of_nat (length (plan_strings p))) runtime_ic_binary_string_record_size,
        multiply_u64 component_count 4, multiply_u64 record_count runtime_ic_binary_record_size with
  | Some string_records_bytes, Some components_bytes, Some records_bytes =>
      let string_records_offset := runtime_ic_binary_header_size in
      let components_offset := align8 (u64 (string_records_offset + string_records_bytes)) in
      let records_offset := align8 (u64 (components_offset + components_bytes)) in
      let string_bytes_offset := align8 (u64 (records_offset + records_bytes)) in
      let values_offset := align8 (u64 (string_bytes_offset + plan_string_bytes p)) in
      match add_u64 values_offset value_bytes with
      | None => refuse codec_overflow
      | Some total =>
          do? guard_query (total <=? size_max) codec_overflow in
          answer (Plan (plan_strings p) (plan_string_index p) (plan_source_string_to_local p) (plan_string_bytes p)
            value_bytes string_records_offset components_offset records_offset string_bytes_offset values_offset
            total (u32 component_count) (u32 record_count))
      end
  | _, _, _ => refuse codec_overflow
  end.

(** [reserved]: the index and the vector of strings could be allocated. *)
Definition prepare_runtime_ic_binary (reserved : bool) (records : list runtime_ic_record_source)
  : outcome runtime_ic_codec_result runtime_ic_binary_plan :=
  let count := Z.of_nat (length records) in
  do? guard_query (negb (bool_decide (records = []))) codec_invalid_input in
  do? guard_query (count <=? u32_max) codec_overflow in
  let? totals := count_records records 0 0 in
  let desired_slots :=
    if size_max / 2 <? totals.1 then 0 else next_power_of_two (u64 (totals.1 * 2)) in
  do? guard_query (negb (desired_slots =? 0)) codec_overflow in
  do? guard_query reserved codec_failed in
  let? p := append_records (new_plan (replicate (Z.to_nat desired_slots) vacant_slot) []) records in
  place_parts p totals.1 totals.2 count.

(** ** The encoder *)

Definition store (o : option (list byte)) : outcome runtime_ic_codec_result (list byte) :=
  match o with None => None | Some image => answer image end.

(** Words of the given widths, written one behind the other from [offset] on. *)
Fixpoint write_words (image : list byte) (offset : Z) (words : list (nat * Z)) : option (list byte) :=
  match words with
  | [] => Some image
  | (width, value) :: words =>
      image ← store_bytes image offset (le_bytes width value);
      write_words image (offset + Z.of_nat width) words
  end.

(** The header behind the magic number; its checksum is zero at first. *)
Definition header_words (p : runtime_ic_binary_plan) (size : Z) : list (nat * Z) :=
  [(4%nat, runtime_ic_binary_format_version); (4%nat, endian_marker); (4%nat, runtime_ic_binary_header_size);
   (4%nat, runtime_ic_binary_string_record_size); (4%nat, 4); (4%nat, runtime_ic_binary_record_size);
   (8%nat, size); (4%nat, plan_string_count p); (4%nat, plan_component_count p); (4%nat, plan_record_count p);
   (4%nat, 0); (8%nat, plan_string_bytes p); (8%nat, plan_value_bytes p); (8%nat, plan_string_records_offset p);
   (8%nat, plan_components_offset p); (8%nat, plan_records_offset p); (8%nat, plan_string_bytes_offset p);
   (8%nat, plan_values_offset p); (8%nat, 0); (8%nat, 0)].

Definition write_header (p : runtime_ic_binary_plan) : outcome runtime_ic_codec_result (list byte) :=
  let? image := store (store_bytes (replicate (Z.to_nat (plan_size p)) x00) 0 image_magic) in
  store (write_words image 8 (header_words p (plan_size p))).

(** The loop over the strings; [checked]: a text longer than a word is refused. *)
Fixpoint write_strings (p : runtime_ic_binary_plan) (checked : bool) (index : Z) (strings : list (list byte)) (cursor : Z) (image : list byte)
  : outcome runtime_ic_codec_result (Z * list byte) :=
  match strings with
  | [] => answer (cursor, image)
  | text :: strings =>
      let size := Z.of_nat (length text) in
      do? guard_query (negb (checked && (u32_max <? size))) codec_overflow in
      let record := plan_string_records_offset p + index * runtime_ic_binary_string_record_size in
      let? image := store (write_words image record [(4%nat, cursor); (4%nat, size)]) in
      let? image := store (store_bytes image (plan_string_bytes_offset p + cursor) text) in
      write_strings p checked (index + 1) strings (u32 (cursor + u32 size)) image
  end.

Section Components.
Context {C : Type} (find : Z -> C -> Z) (p : runtime_ic_binary_plan).

(** The loop over the components of a path: their numbers, zero for one that is refused. *)
Fixpoint write_components (components : list C) (cursor : Z) (image : list byte)
  : outcome runtime_ic_codec_result (Z * list byte) :=
  match components with
  | [] => answer (cursor, image)
  | component :: components =>
      let id := find cursor component in
      do? guard_query (negb (id =? 0)) codec_invalid_input in
      let? image := store (write_u32 image (plan_components_offset p + cursor * 4) id) in
      write_components components (u32 (cursor + 1)) image
  end.

(** One record: its components, its words and its value; the cursors afterwards. *)
Definition write_record (index : Z) (object members : list C) (value : runtime_ic_scalar_value)
    (component_cursor value_cursor : Z) (image : list byte)
  : outcome runtime_ic_codec_result (Z * Z * list byte) :=
  let? written := write_components object component_cursor image in
  let '(member_begin, image) := written in
  let? written := write_components members member_begin image in
  let '(component_end, image) := written in
  let? image := store (write_words image (plan_records_offset p + index * runtime_ic_binary_record_size)
    [(4%nat, component_cursor); (2%nat, Z.of_nat (length object)); (2%nat, Z.of_nat (length members));
     (4%nat, member_begin); (4%nat, value_cursor); (2%nat, scalar_size value);
     (1%nat, intrinsic_number (scalar_type value)); (1%nat, 0); (4%nat, 0)]) in
  match bytes_at (scalar_bytes value) 0 (scalar_size value) with
  | None => None
  | Some bs =>
      let? image := store (store_bytes image (plan_values_offset p + value_cursor) bs) in
      answer (component_end, u32 (value_cursor + scalar_size value), image)
  end.

(** The loop over the records; [parts]: the components of a record and its value, nothing
    for a record that is refused. *)
Fixpoint write_records {R} (parts : R -> option (list C * list C * runtime_ic_scalar_value)) (index : Z) (records : list R)
    (component_cursor value_cursor : Z) (image : list byte)
  : outcome runtime_ic_codec_result (Z * Z * list byte) :=
  match records with
  | [] => answer (component_cursor, value_cursor, image)
  | record :: records =>
      match parts record with
      | None => refuse codec_invalid_input
      | Some (object, members, value) =>
          let? written := write_record index object members value component_cursor value_cursor image in
          let '(component_cursor, value_cursor, image) := written in
          write_records parts (index + 1) records component_cursor value_cursor image
      end
  end.
End Components.

(** The comparison of the cursors with the plan, then the checksum of what follows the header. *)
Definition finish_image (p : runtime_ic_binary_plan) (string_cursor component_cursor value_cursor : Z) (image : list byte)
  : outcome runtime_ic_codec_result (list byte) :=
  do? guard_query ((component_cursor =? plan_component_count p) && (value_cursor =? plan_value_bytes p) &&
                   (string_cursor =? plan_string_bytes p)) codec_invalid_input in
  store (write_u64 image header_payload_crc_offset
    (persistence_crc64 native (drop (Z.to_nat runtime_ic_binary_header_size) image))).

Definition source_parts (r : runtime_ic_record_source) : option (list (list byte) * list (list byte) * runtime_ic_scalar_value) :=
  let path := source_path r in
  if negb (bool_decide (path_object path = [])) && (Z.of_nat (length (path_object path)) <=? u16_max) &&
     (Z.of_nat (length (path_members path)) <=? u16_max) && valid_scalar (source_value r)
  then Some (path_object path, path_members path, source_value r)
  else None.

(** The output has [output_size] bytes. *)
Definition encode_runtime_ic_binary (records : list runtime_ic_record_source) (p : runtime_ic_binary_plan) (output_size : Z)
  : outcome runtime_ic_codec_result (list byte) :=
  do? guard_query ((Z.of_nat (length records) =? plan_record_count p) && negb (plan_size p =? 0) &&
                   (output_size =? plan_size p)) codec_invalid_input in
  let? image := write_header p in
  let? written := write_strings p true 0 (plan_strings p) 0 image in
  let '(string_cursor, image) := written in
  let? written := write_records (fun _ => find_string_id p) p source_parts 0 records 0 0 image in
  let '(component_cursor, value_cursor, image) := written in
  finish_image p string_cursor component_cursor value_cursor image.

(** ** From a snapshot of the bound image *)

Section Native.
Context (v : compiled_view).

(** The loop over the string numbers of the snapshot. *)
Fixpoint append_source_strings (p : runtime_ic_binary_plan) (components : list string_id)
  : outcome runtime_ic_codec_result runtime_ic_binary_plan :=
  match components with
  | [] => answer p
  | id :: components =>
      match plan_source_string_to_local p !! Z.to_nat id with
      | None => refuse codec_invalid_input
      | Some local =>
          do? guard_query (negb (id =? 0)) codec_invalid_input in
          if negb (local =? 0) then append_source_strings p components
          else
            do? guard_query (Z.of_nat (length (plan_strings p)) <? u32_max) codec_overflow in
            match view_string v id with
            | None => None
            | Some text =>
                let size := Z.of_nat (length text) in
                do? guard_query (negb (bool_decide (text = [])) && (plan_string_bytes p <=? u64 (u32_max - size)))
                  codec_invalid_input in
                let strings := plan_strings p ++ [text] in
                append_source_strings
                  (Plan strings (plan_string_index p)
                    (<[Z.to_nat id := u32 (Z.of_nat (length strings))]> (plan_source_string_to_local p))
                    (u64 (plan_string_bytes p + size)) (plan_value_bytes p) (plan_string_records_offset p)
                    (plan_components_offset p) (plan_records_offset p) (plan_string_bytes_offset p)
                    (plan_values_offset p) (plan_size p) (plan_component_count p) (plan_record_count p))
                  components
            end
      end
  end.

(** The components of a record are inside the vector. *)
Definition native_record_valid (components : list string_id) (r : runtime_ic_native_record_source) : bool :=
  negb (native_object_count r =? 0) &&
  (native_object_begin r + native_object_count r <=? Z.of_nat (length components)) &&
  (native_member_begin r + native_member_count r <=? Z.of_nat (length components)) && valid_scalar (native_value r).

Fixpoint count_native_records (components : list string_id) (records : list runtime_ic_native_record_source) (count values : Z)
  : outcome runtime_ic_codec_result (Z * Z) :=
  match records with
  | [] => answer (count, values)
  | r :: records =>
      do? guard_query (native_record_valid components r) codec_invalid_input in
      match count_record count values (native_object_count r) (native_member_count r) (scalar_size (native_value r)) with
      | None => refuse codec_invalid_input
      | Some (count, values) => count_native_records components records count values
      end
  end.

(** [reserved]: both vectors could be allocated. *)
Definition prepare_runtime_ic_binary_native (reserved : bool) (components : list string_id)
    (records : list runtime_ic_native_record_source) : outcome runtime_ic_codec_result runtime_ic_binary_plan :=
  let count := Z.of_nat (length records) in
  do? guard_query (view_valid v && negb (bool_decide (records = [])) && (count <=? u32_max)) codec_invalid_input in
  do? guard_query reserved codec_failed in
  let? p := append_source_strings (new_plan [] (replicate (Z.to_nat (string_count_value v + 1)) 0)) components in
  let? totals := count_native_records components records 0 0 in
  place_parts p totals.1 totals.2 count.

(** [write_component]: zero is a refusal. *)
Definition local_id (p : runtime_ic_binary_plan) (cursor : Z) (id : string_id) : Z :=
  if id =? 0 then 0
  else
    match plan_source_string_to_local p !! Z.to_nat id with
    | None => 0
    | Some local => if plan_component_count p <=? cursor then 0 else local
    end.

Definition sublist {A} (begin count : Z) (components : list A) : list A :=
  take (Z.to_nat count) (drop (Z.to_nat begin) components).

Definition native_parts (components : list string_id) (r : runtime_ic_native_record_source)
  : option (list string_id * list string_id * runtime_ic_scalar_value) :=
  if native_record_valid components r
  then Some (sublist (native_object_begin r) (native_object_count r) components,
             sublist (native_member_begin r) (native_member_count r) components, native_value r)
  else None.

Definition encode_runtime_ic_binary_native (components : list string_id) (records : list runtime_ic_native_record_source)
    (p : runtime_ic_binary_plan) (output_size : Z) : outcome runtime_ic_codec_result (list byte) :=
  do? guard_query (view_valid v && (Z.of_nat (length records) =? plan_record_count p) &&
                   (Z.of_nat (length (plan_source_string_to_local p)) =? string_count_value v + 1) &&
                   negb (plan_size p =? 0) && (output_size =? plan_size p)) codec_invalid_input in
  let? image := write_header p in
  let? written := write_strings p false 0 (plan_strings p) 0 image in
  let '(string_cursor, image) := written in
  let? written := write_records (local_id p) p (native_parts components) 0 records 0 0 image in
  let '(component_cursor, value_cursor, image) := written in
  finish_image p string_cursor component_cursor value_cursor image.
End Native.

(** ** The view over an image *)

(** Pointers are offsets into the image; no image is the view before [bind]. *)
Record runtime_ic_binary_view := IcView {
  ic_image : option (list byte);
  ic_string_records : Z;
  ic_components : Z;
  ic_records : Z;
  ic_string_bytes : Z;
  ic_values : Z;
  ic_string_count : Z;
  ic_component_count : Z;
  ic_record_count : Z;
  ic_string_bytes_size : Z;
  ic_values_size : Z
}.

Record runtime_ic_binary_record_view := IcRecord {
  record_object_begin : Z;
  record_object_count : Z;
  record_member_count : Z;
  record_member_begin : Z;
  record_type : intrinsic_type;
  record_value : list byte
}.

Definition loaded {A} (o : option A) : outcome runtime_ic_codec_result A :=
  match o with None => None | Some a => answer a end.

Section Bind.
Context (image : list byte).

Definition ic_header_valid : option bool :=
  version ← read_u32 image 8;
  endian ← read_u32 image 12;
  header_size ← read_u32 image 16;
  string_record_size ← read_u32 image 20;
  component_size ← read_u32 image 24;
  record_size ← read_u32 image 28;
  size ← read_u64 image 32;
  reserved ← read_u32 image 52;
  reserved' ← read_u64 image header_reserved_offset;
  Some ((version =? runtime_ic_binary_format_version) && (endian =? endian_marker) &&
        (header_size =? runtime_ic_binary_header_size) &&
        (string_record_size =? runtime_ic_binary_string_record_size) && (component_size =? 4) &&
        (record_size =? runtime_ic_binary_record_size) && (size =? Z.of_nat (length image)) &&
        (reserved =? 0) && (reserved' =? 0)).

(** The counts and offsets of the header, as the view they would give; [None] inside if they
    do not agree with each other and with the size of the image. *)
Definition ic_layout : option (option runtime_ic_binary_view) :=
  string_count ← read_u32 image 40;
  component_count ← read_u32 image 44;
  record_count ← read_u32 image 48;
  string_bytes_count ← read_u64 image 56;
  value_bytes_count ← read_u64 image 64;
  string_records_at ← read_u64 image 72;
  components_at ← read_u64 image 80;
  records_at ← read_u64 image 88;
  string_bytes_at ← read_u64 image 96;
  values_at ← read_u64 image 104;
  Some (string_records_bytes ← multiply_u64 string_count runtime_ic_binary_string_record_size;
        components_bytes ← multiply_u64 component_count 4;
        records_bytes ← multiply_u64 record_count runtime_ic_binary_record_size;
        let expected_components := align8 (u64 (runtime_ic_binary_header_size + string_records_bytes)) in
        let expected_records := align8 (u64 (expected_components + components_bytes)) in
        let expected_string_bytes := align8 (u64 (expected_records + records_bytes)) in
        let expected_values := align8 (u64 (expected_string_bytes + string_bytes_count)) in
        if negb (string_records_at =? runtime_ic_binary_header_size) || negb (components_at =? expected_components) ||
           negb (records_at =? expected_records) || negb (string_bytes_at =? expected_string_bytes) ||
           negb (values_at =? expected_values)
        then None
        else
          expected_size ← add_u64 expected_values value_bytes_count;
          if negb (expected_size =? Z.of_nat (length image)) then None
          else Some (IcView (Some image) string_records_at components_at records_at string_bytes_at values_at
                       string_count component_count record_count string_bytes_count value_bytes_count)).

(** The loop over the string records: every text begins where the one before ends. *)
Fixpoint check_strings (w : runtime_ic_binary_view) (n : nat) (index cursor : Z) : option (option Z) :=
  match n with
  | O => Some (Some cursor)
  | S n =>
      let record := ic_string_records w + index * runtime_ic_binary_string_record_size in
      offset ← read_u32 image record;
      size ← read_u32 image (record + 4);
      if (size =? 0) || negb (offset =? cursor) || (ic_string_bytes_size w <? offset) ||
         (ic_string_bytes_size w - offset <? size)
      then Some None
      else check_strings w n (index + 1) (u32 (cursor + size))
  end.

Fixpoint check_components (w : runtime_ic_binary_view) (n : nat) (index : Z) : option bool :=
  match n with
  | O => Some true
  | S n =>
      id ← read_u32 image (ic_components w + index * 4);
      if (id =? 0) || (ic_string_count w <? id) then Some false else check_components w n (index + 1)
  end.

Definition record_type_valid (type : Z) : bool :=
  negb (type =? 0) && (type <=? intrinsic_number nullptr_type) && negb (type =? intrinsic_number void_type) &&
  negb (type =? intrinsic_number nullptr_type).

(** The loop over the records; the cursors at the end. *)
Fixpoint check_records (w : runtime_ic_binary_view) (n : nat) (index component_cursor value_cursor : Z)
  : option (option (Z * Z)) :=
  match n with
  | O => Some (Some (component_cursor, value_cursor))
  | S n =>
      let record := ic_records w + index * runtime_ic_binary_record_size in
      object_begin ← read_u32 image record;
      object_count ← read_u16 image (record + 4);
      member_count ← read_u16 image (record + 6);
      member_begin ← read_u32 image (record + 8);
      value_offset ← read_u32 image (record + 12);
      value_size ← read_u16 image (record + 16);
      type ← read_u8 image (record + 18);
      flags ← read_u8 image (record + 19);
      reserved ← read_u32 image (record + 20);
      if (object_count =? 0) || negb (object_begin =? component_cursor) ||
         negb (member_begin =? u32 (object_begin + object_count)) || negb (value_offset =? value_cursor) ||
         negb (flags =? 0) || negb (reserved =? 0) || negb (record_type_valid type) || (value_size =? 0) ||
         (scalar_capacity <? value_size)
      then Some None
      else
        let record_components := object_count + member_count in
        if (ic_component_count w <? component_cursor) || (ic_component_count w - component_cursor <? record_components) ||
           (ic_values_size w <? value_cursor) || (ic_values_size w - value_cursor <? value_size)
        then Some None
        else check_records w n (index + 1) (u32 (component_cursor + record_components)) (u32 (value_cursor + value_size))
  end.

Definition refuse_unless (o : option bool) : outcome runtime_ic_codec_result unit :=
  let? b := loaded o in guard_query b codec_invalid_image.

Definition ic_bind : outcome runtime_ic_codec_result runtime_ic_binary_view :=
  do? guard_query ((runtime_ic_binary_header_size <=? Z.of_nat (length image)) && bool_decide (take 8 image = image_magic))
    codec_invalid_image in
  do? refuse_unless ic_header_valid in
  let? w := ask ic_layout codec_invalid_image in
  let? stored := loaded (read_u64 image header_payload_crc_offset) in
  do? guard_query (stored =? persistence_crc64 native (drop (Z.to_nat runtime_ic_binary_header_size) image)) codec_invalid_image in
  let? string_cursor := ask (check_strings w (Z.to_nat (ic_string_count w)) 0 0) codec_invalid_image in
  do? guard_query (string_cursor =? ic_string_bytes_size w) codec_invalid_image in
  do? refuse_unless (check_components w (Z.to_nat (ic_component_count w)) 0) in
  let? cursors := ask (check_records w (Z.to_nat (ic_record_count w)) 0 0 0) codec_invalid_image in
  do? guard_query ((cursors.1 =? ic_component_count w) && (cursors.2 =? ic_values_size w)) codec_invalid_image in
  answer w.
End Bind.

Definition ic_string (w : runtime_ic_binary_view) (id : Z) : option (list byte) :=
  match ic_image w with
  | None => Some []
  | Some image =>
      if (id =? 0) || (ic_string_count w <? id) then Some []
      else
        let record := ic_string_records w + (id - 1) * runtime_ic_binary_string_record_size in
        offset ← read_u32 image record;
        size ← read_u32 image (record + 4);
        if (ic_string_bytes_size w <? offset) || (ic_string_bytes_size w - offset <? size) then Some []
        else bytes_at image (ic_string_bytes w + offset) size
  end.

Definition ic_component (w : runtime_ic_binary_view) (index : Z) : option Z :=
  match ic_image w with
  | None => Some 0
  | Some image =>
      if ic_component_count w <=? index then Some 0 else read_u32 image (ic_components w + index * 4)
  end.

Definition ic_record (w : runtime_ic_binary_view) (index : Z) : option (option runtime_ic_binary_record_view) :=
  match ic_image w with
  | None => Some None
  | Some image =>
      if ic_record_count w <=? index then Some None
      else
        let record := ic_records w + index * runtime_ic_binary_record_size in
        value_offset ← read_u32 image (record + 12);
        value_size ← read_u16 image (record + 16);
        if (ic_values_size w <? value_offset) || (ic_values_size w - value_offset <? value_size) then Some None
        else
          object_begin ← read_u32 image record;
          object_count ← read_u16 image (record + 4);
          member_count ← read_u16 image (record + 6);
          member_begin ← read_u32 image (record + 8);
          type ← read_u8 image (record + 18);
          value ← bytes_at image (ic_values w + value_offset) value_size;
          Some (Some (IcRecord object_begin object_count member_count member_begin (intrinsic_of_number type) value))
  end.
