(* ===== verification/IcEncode.v ===== *)
(** The parts of a binary image of initial conditions as one list of bytes: regions that are
    filled from their beginning, and what the encoder's stores do to them.

    What the encoder of initial conditions writes: the parts of the image as functions of
    the strings and of the records with their local numbers. *)

From S2P Require Import Prelude GraphData ImageBytes CompiledView Outcome RuntimeIc RuntimeIcCodec Crc64.

Local Open Scope Z_scope.

(** ** Regions *)

(** A region of [n] bytes whose beginning is written. *)
Definition fill (n : Z) (bs : list byte) : list byte := bs ++ replicate (Z.to_nat n - length bs) x00.

Definition blen (bs : list byte) : Z := Z.of_nat (length bs).

Lemma blen_app a b : blen (a ++ b) = blen a + blen b.
Proof. unfold blen. rewrite length_app. lia. Qed.

Lemma blen_nonneg a : 0 <= blen a.
Proof. unfold blen. lia. Qed.

Lemma blen_le_bytes n v : blen (le_bytes n v) = Z.of_nat n.
Proof. unfold blen. by rewrite le_bytes_length. Qed.

Lemma blen_fill n bs : blen bs <= n -> blen (fill n bs) = n.
Proof. unfold blen, fill. rewrite length_app, length_replicate. lia. Qed.

(** Regions one behind the other. *)
Definition regions (rs : list (Z * list byte)) : list byte := rs ≫= fun r => fill r.1 r.2.

Definition room (rs : list (Z * list byte)) : Z := foldr (fun r n => r.1 + n) 0 rs.

Definition fits (rs : list (Z * list byte)) : Prop := Forall (fun r => blen r.2 <= r.1) rs.

Lemma regions_app l1 l2 : regions (l1 ++ l2) = regions l1 ++ regions l2.
Proof. unfold regions. by rewrite bind_app. Qed.

Lemma room_app l1 l2 : room (l1 ++ l2) = room l1 + room l2.
Proof. unfold room. induction l1; cbn; lia. Qed.

Lemma blen_regions rs : fits rs -> blen (regions rs) = room rs.
Proof.
  induction 1 as [|r rs Hr _ IH]; [done|].
  change (regions (r :: rs)) with (fill r.1 r.2 ++ regions rs). by rewrite blen_app, blen_fill, IH.
Qed.

(** A store behind the written part of a region. *)
Lemma store_region l1 n done l2 offset bs :
  fits l1 -> offset = room l1 + blen done -> blen done + blen bs <= n ->
  store_bytes (regions (l1 ++ (n, done) :: l2)) offset bs = Some (regions (l1 ++ (n, done ++ bs) :: l2)).
Proof.
  intros Hl1 -> Hn. pose proof (blen_regions l1 Hl1) as Hlen. pose proof (blen_nonneg done). pose proof (blen_nonneg bs).
  rewrite !regions_app. change (regions ((n, done) :: l2)) with (fill n done ++ regions l2).
  change (regions ((n, done ++ bs) :: l2)) with (fill n (done ++ bs) ++ regions l2).
  assert (fill n done = done ++ replicate (length bs) x00 ++ replicate (Z.to_nat n - length (done ++ bs)) x00) as E.
  { unfold fill. rewrite <- replicate_add. f_equal. f_equal. rewrite length_app. unfold blen in *. lia. }
  unfold fill at 2. rewrite E. clear E. generalize (replicate (Z.to_nat n - length (done ++ bs)) x00). intros rest.
  unfold store_bytes. rewrite <- Hlen. unfold blen in *.
  rewrite !(proj2 (Z.leb_le _ _)); [|rewrite ?length_app, ?length_replicate; lia..]. cbn [andb]. f_equal.
  replace (Z.to_nat (Z.of_nat (length (regions l1)) + Z.of_nat (length done)))
    with (length (regions l1 ++ done)) by (rewrite length_app; lia).
  rewrite <- !app_assoc. rewrite (app_assoc _ done). rewrite take_app_length.
  rewrite drop_app_add', drop_app_length' by (rewrite ?length_replicate; done).
  by rewrite <- !app_assoc.
Qed.

(** A load inside the written part of a region. *)
Lemma load_region l1 n pre bs post l2 offset size :
  fits l1 -> blen (pre ++ bs ++ post) <= n -> offset = room l1 + blen pre -> size = blen bs ->
  bytes_at (regions (l1 ++ (n, pre ++ bs ++ post) :: l2)) offset size = Some bs.
Proof.
  intros Hl1 Hn -> ->. rewrite regions_app.
  change (regions ((n, pre ++ bs ++ post) :: l2)) with (fill n (pre ++ bs ++ post) ++ regions l2). unfold fill.
  rewrite <- !app_assoc. rewrite (app_assoc _ pre). apply bytes_at_app; [|done].
  fold (blen (regions l1 ++ pre)). by rewrite blen_app, blen_regions.
Qed.

(** ** Words *)

Definition word_bytes (words : list (nat * Z)) : list byte := words ≫= fun w => le_bytes w.1 w.2.

Lemma blen_word_bytes words : blen (word_bytes words) = foldr (fun w n => Z.of_nat w.1 + n) 0 words.
Proof. induction words as [|[w v] words IH]; [done|].
  change (word_bytes ((w, v) :: words)) with (le_bytes w v ++ word_bytes words). by rewrite blen_app, blen_le_bytes, IH. Qed.

Lemma write_words_region l1 n words done l2 offset :
  fits l1 -> offset = room l1 + blen done -> blen done + blen (word_bytes words) <= n ->
  write_words (regions (l1 ++ (n, done) :: l2)) offset words = Some (regions (l1 ++ (n, done ++ word_bytes words) :: l2)).
Proof.
  intros Hl1. revert done offset. induction words as [|[w v] words IH]; intros done offset Ho Hn; cbn [write_words].
  { by rewrite app_nil_r. }
  change (word_bytes ((w, v) :: words)) with (le_bytes w v ++ word_bytes words) in *. rewrite blen_app in Hn.
  pose proof (blen_nonneg (word_bytes words)).
  rewrite store_region; [|done..|lia]. cbn [mbind option_bind]. rewrite IH; [by rewrite app_assoc|..].
  - rewrite blen_app, blen_le_bytes. lia.
  - rewrite blen_app. lia.
Qed.

(** The word at a place among others. *)
Lemma word_bytes_split words i w v :
  words !! i = Some (w, v) -> word_bytes words = word_bytes (take i words) ++ le_bytes w v ++ word_bytes (drop (S i) words).
Proof.
  intros H. rewrite <- (take_drop_middle words i (w, v)) at 1 by done. unfold word_bytes. by rewrite bind_app.
Qed.

Lemma read_word words i w v l1 n pre post l2 offset :
  words !! i = Some (w, v) -> fits l1 -> blen (pre ++ word_bytes words ++ post) <= n ->
  offset = room l1 + blen pre + blen (word_bytes (take i words)) ->
  bytes_at (regions (l1 ++ (n, pre ++ word_bytes words ++ post) :: l2)) offset (Z.of_nat w) = Some (le_bytes w v).
Proof.
  intros Hi Hl1 Hn ->. rewrite (word_bytes_split _ _ _ _ Hi) in *.
  rewrite <- (app_assoc _ _ post), <- (app_assoc _ _ post), (app_assoc pre) in *.
  apply load_region; [done|done|rewrite blen_app; lia|by rewrite blen_le_bytes].
Qed.

(** ** The contents of an image *)

(** A record with the local numbers of its components. *)
Record ic_entry := Entry {
  entry_object : list Z;
  entry_members : list Z;
  entry_value : runtime_ic_scalar_value
}.

Definition count {A} (l : list A) : Z := Z.of_nat (length l).

Lemma counts_nonneg {A} (l : list A) : 0 <= count l.
Proof. unfold count. lia. Qed.

Lemma count_cons {A} (x : A) l : count (x :: l) = 1 + count l.
Proof. unfold count. cbn. lia. Qed.

Lemma counts_app {A} (l m : list A) : count (l ++ m) = count l + count m.
Proof. unfold count. rewrite length_app. lia. Qed.

Definition entry_components (e : ic_entry) : Z := count (entry_object e) + count (entry_members e).

Definition text_bytes (strings : list (list byte)) : list byte := strings ≫= id.
Definition component_bytes (ids : list Z) : list byte := ids ≫= le_bytes 4.
Definition scalar_content (s : runtime_ic_scalar_value) : list byte := take (Z.to_nat (scalar_size s)) (scalar_bytes s).

Fixpoint string_records (cursor : Z) (strings : list (list byte)) : list byte :=
  match strings with
  | [] => []
  | text :: strings => word_bytes [(4%nat, cursor); (4%nat, blen text)] ++ string_records (cursor + blen text) strings
  end.

Definition record_words (components values : Z) (e : ic_entry) : list (nat * Z) :=
  [(4%nat, components); (2%nat, count (entry_object e)); (2%nat, count (entry_members e));
   (4%nat, components + count (entry_object e)); (4%nat, values); (2%nat, scalar_size (entry_value e));
   (1%nat, intrinsic_number (scalar_type (entry_value e))); (1%nat, 0); (4%nat, 0)].

Fixpoint record_bytes (components values : Z) (es : list ic_entry) : list byte :=
  match es with
  | [] => []
  | e :: es =>
      word_bytes (record_words components values e) ++
      record_bytes (components + entry_components e) (values + scalar_size (entry_value e)) es
  end.

Definition entries_ids (es : list ic_entry) : list Z := es ≫= fun e => entry_object e ++ entry_members e.
Definition entries_values (es : list ic_entry) : list byte := es ≫= fun e => scalar_content (entry_value e).

Lemma blen_string_records cursor strings : blen (string_records cursor strings) = 8 * count strings.
Proof.
  revert cursor. induction strings as [|t ts IH]; intros cursor; [done|]. cbn [string_records].
  rewrite blen_app, IH, count_cons, blen_word_bytes. cbn. lia.
Qed.

Lemma blen_component_bytes ids : blen (component_bytes ids) = 4 * count ids.
Proof.
  induction ids as [|i ids IH]; [done|]. change (component_bytes (i :: ids)) with (le_bytes 4 i ++ component_bytes ids).
  rewrite blen_app, IH, blen_le_bytes, count_cons. lia.
Qed.

Lemma blen_record_bytes components values es : blen (record_bytes components values es) = 24 * count es.
Proof.
  revert components values. induction es as [|e es IH]; intros components values; [done|]. cbn [record_bytes].
  rewrite blen_app, IH, blen_word_bytes, count_cons. cbn. lia.
Qed.

(** A value that its array can hold. *)
Definition scalar_ok (s : runtime_ic_scalar_value) : Prop :=
  valid_scalar s = true /\ 0 <= scalar_size s /\ length (scalar_bytes s) = 16%nat.

Lemma scalar_ok_size s : scalar_ok s -> 0 < scalar_size s <= 16.
Proof. intros (H & H0 & _). unfold valid_scalar, scalar_capacity in H. unbool. lia. Qed.

Lemma blen_scalar_content s : scalar_ok s -> blen (scalar_content s) = scalar_size s.
Proof.
  intros H. pose proof (scalar_ok_size s H). destruct H as (_ & _ & Hl). unfold blen, scalar_content.
  rewrite length_take. lia.
Qed.

Lemma scalar_content_read s : scalar_ok s -> bytes_at (scalar_bytes s) 0 (scalar_size s) = Some (scalar_content s).
Proof.
  intros H. pose proof (scalar_ok_size s H). destruct H as (_ & _ & Hl). unfold bytes_at, scalar_content.
  by rewrite !(proj2 (Z.leb_le _ _)) by lia.
Qed.

(** ** The stores *)

Section Encode.
Context (p : runtime_ic_binary_plan).

Definition ic_parts (h sr c r sb vb : list byte) : list (Z * list byte) :=
  [(runtime_ic_binary_header_size, h);
   (plan_components_offset p - plan_string_records_offset p, sr);
   (plan_records_offset p - plan_components_offset p, c);
   (plan_string_bytes_offset p - plan_records_offset p, r);
   (plan_values_offset p - plan_string_bytes_offset p, sb);
   (plan_size p - plan_values_offset p, vb)].

(** The parts of the plan are one behind the other. *)
Record plan_placed : Prop := Placed {
  placed_header : plan_string_records_offset p = runtime_ic_binary_header_size;
  placed_components : plan_string_records_offset p <= plan_components_offset p;
  placed_records : plan_components_offset p <= plan_records_offset p;
  placed_string_bytes : plan_records_offset p <= plan_string_bytes_offset p;
  placed_values : plan_string_bytes_offset p <= plan_values_offset p;
  placed_end : plan_values_offset p <= plan_size p
}.
Context (Hp : plan_placed).

(** The written beginnings of the first [k] parts. *)
Ltac parts_store l1 :=
  destruct Hp; apply (store_region l1); [repeat constructor; cbn; lia|cbn in *; lia|cbn in *; lia].

Ltac parts_words l1 :=
  destruct Hp; apply (write_words_region l1); [repeat constructor; cbn; lia|cbn in *; lia|cbn in *; lia].

Lemma store_header h sr c r sb vb offset bs :
  offset = blen h -> blen h + blen bs <= runtime_ic_binary_header_size ->
  store_bytes (regions (ic_parts h sr c r sb vb)) offset bs = Some (regions (ic_parts (h ++ bs) sr c r sb vb)).
Proof. intros. apply (store_region []); [constructor|cbn in *; lia|cbn in *; lia]. Qed.

Lemma words_header h sr c r sb vb offset words :
  offset = blen h -> blen h + blen (word_bytes words) <= runtime_ic_binary_header_size ->
  write_words (regions (ic_parts h sr c r sb vb)) offset words = Some (regions (ic_parts (h ++ word_bytes words) sr c r sb vb)).
Proof. intros. apply (write_words_region []); [constructor|cbn in *; lia|cbn in *; lia]. Qed.

Lemma words_string_records h sr c r sb vb offset words :
  blen h <= runtime_ic_binary_header_size -> offset = plan_string_records_offset p + blen sr ->
  blen sr + blen (word_bytes words) <= plan_components_offset p - plan_string_records_offset p ->
  write_words (regions (ic_parts h sr c r sb vb)) offset words = Some (regions (ic_parts h (sr ++ word_bytes words) c r sb vb)).
Proof. intros. parts_words [(runtime_ic_binary_header_size, h)]. Qed.

Lemma store_components h sr c r sb vb offset bs :
  blen h <= runtime_ic_binary_header_size -> blen sr <= plan_components_offset p - plan_string_records_offset p ->
  offset = plan_components_offset p + blen c -> blen c + blen bs <= plan_records_offset p - plan_components_offset p ->
  store_bytes (regions (ic_parts h sr c r sb vb)) offset bs = Some (regions (ic_parts h sr (c ++ bs) r sb vb)).
Proof.
  intros. parts_store [(runtime_ic_binary_header_size, h); (plan_components_offset p - plan_string_records_offset p, sr)].
Qed.

Lemma words_records h sr c r sb vb offset words :
  blen h <= runtime_ic_binary_header_size -> blen sr <= plan_components_offset p - plan_string_records_offset p ->
  blen c <= plan_records_offset p - plan_components_offset p ->
  offset = plan_records_offset p + blen r ->
  blen r + blen (word_bytes words) <= plan_string_bytes_offset p - plan_records_offset p ->
  write_words (regions (ic_parts h sr c r sb vb)) offset words = Some (regions (ic_parts h sr c (r ++ word_bytes words) sb vb)).
Proof.
  intros. parts_words [(runtime_ic_binary_header_size, h); (plan_components_offset p - plan_string_records_offset p, sr);
    (plan_records_offset p - plan_components_offset p, c)].
Qed.

Lemma store_string_bytes h sr c r sb vb offset bs :
  blen h <= runtime_ic_binary_header_size -> blen sr <= plan_components_offset p - plan_string_records_offset p ->
  blen c <= plan_records_offset p - plan_components_offset p ->
  blen r <= plan_string_bytes_offset p - plan_records_offset p ->
  offset = plan_string_bytes_offset p + blen sb -> blen sb + blen bs <= plan_values_offset p - plan_string_bytes_offset p ->
  store_bytes (regions (ic_parts h sr c r sb vb)) offset bs = Some (regions (ic_parts h sr c r (sb ++ bs) vb)).
Proof.
  intros. parts_store [(runtime_ic_binary_header_size, h); (plan_components_offset p - plan_string_records_offset p, sr);
    (plan_records_offset p - plan_components_offset p, c); (plan_string_bytes_offset p - plan_records_offset p, r)].
Qed.

Lemma store_values h sr c r sb vb offset bs :
  blen h <= runtime_ic_binary_header_size -> blen sr <= plan_components_offset p - plan_string_records_offset p ->
  blen c <= plan_records_offset p - plan_components_offset p ->
  blen r <= plan_string_bytes_offset p - plan_records_offset p ->
  blen sb <= plan_values_offset p - plan_string_bytes_offset p ->
  offset = plan_values_offset p + blen vb -> blen vb + blen bs <= plan_size p - plan_values_offset p ->
  store_bytes (regions (ic_parts h sr c r sb vb)) offset bs = Some (regions (ic_parts h sr c r sb (vb ++ bs))).
Proof.
  intros. parts_store [(runtime_ic_binary_header_size, h); (plan_components_offset p - plan_string_records_offset p, sr);
    (plan_records_offset p - plan_components_offset p, c); (plan_string_bytes_offset p - plan_records_offset p, r);
    (plan_values_offset p - plan_string_bytes_offset p, sb)].
Qed.

(** ** The loops *)

Lemma write_strings_spec checked index strings cursor h sr c r sb vb :
  blen h <= runtime_ic_binary_header_size -> blen sr = 8 * index ->
  blen c <= plan_records_offset p - plan_components_offset p ->
  blen r <= plan_string_bytes_offset p - plan_records_offset p ->
  blen sb = cursor -> cursor + blen (text_bytes strings) <= u32_max ->
  blen sr + 8 * count strings <= plan_components_offset p - plan_string_records_offset p ->
  cursor + blen (text_bytes strings) <= plan_values_offset p - plan_string_bytes_offset p ->
  write_strings p checked index strings cursor (regions (ic_parts h sr c r sb vb)) =
    answer (cursor + blen (text_bytes strings),
      regions (ic_parts h (sr ++ string_records cursor strings) c r (sb ++ text_bytes strings) vb)).
Proof.
  intros Hh Hsr Hc Hr. revert index cursor sr sb Hsr.
  induction strings as [|t ts IH]; intros index cursor sr sb Hsr Hsb Hmax Hrecords Htexts; cbn [write_strings].
  { unfold text_bytes. cbn. by rewrite !app_nil_r, Z.add_0_r. }
  change (text_bytes (t :: ts)) with (t ++ text_bytes ts) in *. rewrite blen_app in *. rewrite count_cons in *.
  pose proof (blen_nonneg t). pose proof (blen_nonneg (text_bytes ts)). pose proof (blen_nonneg sb). fold (blen t).
  pose proof (counts_nonneg ts). unfold u32_max in *.
  rewrite (proj2 (Z.ltb_ge _ _)) by lia. rewrite andb_false_r. cbn [negb guard_query answer bind_query].
  unfold runtime_ic_binary_string_record_size. rewrite (words_string_records h sr c r sb vb); [|lia|lia|].
  2: { rewrite blen_word_bytes. cbn. lia. }
  cbn [store answer bind_query]. rewrite store_string_bytes; [|done| |done|done|lia|lia].
  2: { rewrite blen_app, blen_word_bytes. cbn. lia. }
  cbn [store answer bind_query]. unfold u32. rewrite (Z.mod_small (blen t)), Z.mod_small by lia.
  rewrite IH; [|rewrite blen_app, blen_word_bytes; cbn; lia|rewrite blen_app; lia|lia| |lia].
  2: { rewrite blen_app, blen_word_bytes. cbn. lia. }
  cbn [string_records]. by rewrite Z.add_assoc, <- !app_assoc.
Qed.

Section Records.
Context {C : Type} (find : Z -> C -> Z) (limit : Z).

(** The numbers that the encoder finds for the components of a path, below [limit]. *)
Definition finds (components : list C) (ids : list Z) : Prop :=
  Forall2 (fun component id => (forall cursor, cursor < limit -> find cursor component = id) /\ id <> 0) components ids.

Lemma finds_count components ids : finds components ids -> count components = count ids.
Proof. unfold count. by intros ->%Forall2_length. Qed.

Lemma write_components_spec components ids cursor h sr c r sb vb :
  finds components ids -> 0 <= cursor -> cursor + count ids <= limit ->
  blen h <= runtime_ic_binary_header_size -> blen sr <= plan_components_offset p - plan_string_records_offset p ->
  blen c = 4 * cursor -> 4 * (cursor + count ids) <= plan_records_offset p - plan_components_offset p ->
  cursor + count ids <= u32_max ->
  write_components find p components cursor (regions (ic_parts h sr c r sb vb)) =
    answer (cursor + count ids, regions (ic_parts h sr (c ++ component_bytes ids) r sb vb)).
Proof.
  intros Hf H0 Hlimit Hh Hsr. revert cursor c H0 Hlimit.
  induction Hf as [|x i xs ids [Hx Hi] _ IH]; intros cursor c H0 Hlimit Hc Hfit Hmax; cbn [write_components].
  { change (component_bytes []) with (@nil byte). change (count []) with 0. by rewrite app_nil_r, Z.add_0_r. }
  rewrite count_cons in *. pose proof (counts_nonneg ids). unfold u32_max in *. rewrite Hx by lia.
  rewrite (proj2 (Z.eqb_neq _ _)) by done. cbn [negb guard_query answer bind_query].
  unfold write_u32. rewrite store_components; [|done|done|lia|rewrite blen_le_bytes; lia].
  cbn [store answer bind_query]. unfold u32. rewrite Z.mod_small by lia.
  rewrite IH; [|lia|lia|rewrite blen_app, blen_le_bytes; lia|lia|lia].
  change (component_bytes (i :: ids)) with (le_bytes 4 i ++ component_bytes ids). by rewrite app_assoc, Z.add_assoc.
Qed.

(** What is left of the parts has room for the records. *)
Record records_fit (es : list ic_entry) (c r vb : list byte) : Prop := RecordsFit {
  fit_components : blen c + 4 * count (entries_ids es) <= plan_records_offset p - plan_components_offset p;
  fit_records : blen r + 24 * count es <= plan_string_bytes_offset p - plan_records_offset p;
  fit_values : blen vb + blen (entries_values es) <= plan_size p - plan_values_offset p
}.

Lemma write_record_spec index object members e components values h sr c r sb vb :
  finds object (entry_object e) -> finds members (entry_members e) -> scalar_ok (entry_value e) ->
  blen h <= runtime_ic_binary_header_size -> blen sr <= plan_components_offset p - plan_string_records_offset p ->
  blen sb <= plan_values_offset p - plan_string_bytes_offset p -> records_fit [e] c r vb ->
  0 <= components -> components + entry_components e <= limit -> components + entry_components e <= u32_max ->
  0 <= values -> values + scalar_size (entry_value e) <= u32_max ->
  blen c = 4 * components -> blen r = 24 * index -> blen vb = values ->
  write_record find p index object members (entry_value e) components values (regions (ic_parts h sr c r sb vb)) =
    answer (components + entry_components e, values + scalar_size (entry_value e),
      regions (ic_parts h sr (c ++ component_bytes (entry_object e ++ entry_members e))
        (r ++ word_bytes (record_words components values e)) sb (vb ++ scalar_content (entry_value e)))).
Proof.
  intros Ho Hm Hs Hh Hsr Hsb [Hc Hr Hvb] Hc0 Hlimit Hcmax Hv0 Hvmax Hlc Hlr Hlv. unfold entry_components in *.
  pose proof (counts_nonneg (entry_object e)). pose proof (counts_nonneg (entry_members e)).
  unfold entries_ids, entries_values in *. cbn in Hc, Hr, Hvb. rewrite app_nil_r in Hc, Hvb. rewrite counts_app in Hc.
  change (count [e]) with 1 in Hr. rewrite blen_scalar_content in Hvb by done. pose proof (scalar_ok_size _ Hs). unfold u32_max in *.
  unfold write_record.
  rewrite (write_components_spec object (entry_object e)); [|done|lia..|done|done|lia|lia|unfold u32_max; lia].
  cbn [answer bind_query].
  rewrite (write_components_spec members (entry_members e));
    [|done|lia|lia|done|done|rewrite blen_app, blen_component_bytes; lia|lia|unfold u32_max; lia].
  cbn [answer bind_query]. unfold runtime_ic_binary_record_size.
  fold (count object) (count members). rewrite (finds_count _ _ Ho), (finds_count _ _ Hm).
  fold (record_words components values e).
  assert (blen (word_bytes (record_words components values e)) = 24) as Hw by (rewrite blen_word_bytes; cbn; lia).
  rewrite words_records; [|done|done|rewrite !blen_app, !blen_component_bytes; lia|lia|lia].
  cbn [store answer bind_query]. rewrite scalar_content_read by done.
  rewrite store_values; [|done|done|rewrite !blen_app, !blen_component_bytes; lia|rewrite blen_app; lia|done|lia|].
  2: { rewrite blen_scalar_content by done. lia. }
  cbn [store answer bind_query]. unfold u32. rewrite Z.mod_small by lia.
  unfold component_bytes. rewrite bind_app, app_assoc, Z.add_assoc. done.
Qed.

(** The records and their entries. *)
Definition entry_of {R} (parts : R -> option (list C * list C * runtime_ic_scalar_value)) (r : R) (e : ic_entry) : Prop :=
  exists object members, parts r = Some (object, members, entry_value e) /\
    finds object (entry_object e) /\ finds members (entry_members e) /\ scalar_ok (entry_value e).

Lemma write_records_spec {R} (parts : R -> option (list C * list C * runtime_ic_scalar_value))
    records es index components values h sr c r sb vb :
  Forall2 (entry_of parts) records es ->
  blen h <= runtime_ic_binary_header_size -> blen sr <= plan_components_offset p - plan_string_records_offset p ->
  blen sb <= plan_values_offset p - plan_string_bytes_offset p -> records_fit es c r vb ->
  0 <= components -> components + count (entries_ids es) <= limit -> components + count (entries_ids es) <= u32_max ->
  0 <= values -> values + blen (entries_values es) <= u32_max ->
  blen c = 4 * components -> blen r = 24 * index -> blen vb = values ->
  write_records find p parts index records components values (regions (ic_parts h sr c r sb vb)) =
    answer (components + count (entries_ids es), values + blen (entries_values es),
      regions (ic_parts h sr (c ++ component_bytes (entries_ids es)) (r ++ record_bytes components values es) sb
        (vb ++ entries_values es))).
Proof.
  intros Hes Hh Hsr Hsb. revert index components values c r vb.
  induction Hes as [|x e xs es Hx _ IH]; intros index components values c r vb Hfit Hc0 Hlimit Hcmax Hv0 Hvmax Hlc Hlr Hlv;
    cbn [write_records].
  { change (count (entries_ids [])) with 0. change (blen (entries_values [])) with 0.
    change (component_bytes (entries_ids [])) with (@nil byte). change (entries_values []) with (@nil byte).
    cbn [record_bytes]. by rewrite !app_nil_r, !Z.add_0_r. }
  destruct Hx as (object & members & -> & Ho & Hm & Hs). destruct Hfit as [Hc Hr Hvb].
  change (entries_ids (e :: es)) with ((entry_object e ++ entry_members e) ++ entries_ids es) in *.
  change (entries_values (e :: es)) with (scalar_content (entry_value e) ++ entries_values es) in *.
  rewrite blen_app, counts_app in *. rewrite blen_scalar_content, ?count_cons in * by done.
  assert (count (entry_object e ++ entry_members e) = entry_components e) as He by apply counts_app. rewrite He in *.
  pose proof (counts_nonneg (entries_ids es)). pose proof (blen_nonneg (entries_values es)). pose proof (counts_nonneg es).
  pose proof (scalar_ok_size _ Hs). pose proof (counts_nonneg (entry_object e ++ entry_members e)).
  rewrite (write_record_spec index object members e); [|done..| |lia|lia|lia|lia|lia|lia|lia|lia].
  2: { split; [unfold entries_ids; cbn; rewrite app_nil_r, He; lia|change (count [e]) with 1; lia|].
       unfold entries_values. cbn. rewrite app_nil_r, blen_scalar_content by done. lia. }
  cbn [answer bind_query]. rewrite IH; [|split|lia|lia|lia|lia|lia| | |].
  - unfold component_bytes. rewrite !bind_app. cbn [record_bytes]. by rewrite <- !app_assoc, !Z.add_assoc.
  - rewrite blen_app, blen_component_bytes. lia.
  - rewrite blen_app, blen_word_bytes. cbn. lia.
  - rewrite blen_app, blen_scalar_content by done. lia.
  - rewrite blen_app, blen_component_bytes. lia.
  - rewrite blen_app, blen_word_bytes. cbn. lia.
  - rewrite blen_app, blen_scalar_content by done. lia.
Qed.
End Records.
End Encode.
