(* ===== verification/IcBind.v ===== *)
(** The whole image of initial conditions: a plan that fits its contents makes the encoder
    write them, and the view accepts what was written and reads it back.

    The view of initial conditions: what it accepts and reads of an image that the encoder
    wrote. *)

From S2P Require Import Prelude Crc64 GraphData ImageBytes CompiledView Outcome RuntimeIc RuntimeIcCodec IcEncode.

Local Open Scope Z_scope.
Local Open Scope outcome_scope.

Lemma multiply_small l r : 0 <= l <= u32_max -> 0 <= r <= 24 -> multiply_u64 l r = Some (l * r).
Proof.
  intros Hl Hr. unfold multiply_u64. destruct (Z.eqb_spec l 0); [done|]. cbn [negb andb].
  assert (24 <= size_max / l) by (apply Z.div_le_lower_bound; unfold size_max, u32_max in *; lia).
  by rewrite (proj2 (Z.ltb_ge _ _)) by lia.
Qed.

(** ** The image of a plan *)

(** The header with its checksum. *)
Definition checked_words (p : runtime_ic_binary_plan) (crc : Z) : list (nat * Z) :=
  take 18 (header_words p (plan_size p)) ++ [(8%nat, crc); (8%nat, 0)].
Definition ic_header (p : runtime_ic_binary_plan) (crc : Z) : list byte := image_magic ++ word_bytes (checked_words p crc).

Section Image.
Context (p : runtime_ic_binary_plan) (es : list ic_entry).

Definition filled (h : list byte) : list (Z * list byte) :=
  ic_parts p h (string_records 0 (plan_strings p)) (component_bytes (entries_ids es)) (record_bytes 0 0 es)
    (text_bytes (plan_strings p)) (entries_values es).
Definition payload : list byte := regions (tail (filled [])).
Definition checksum : Z := persistence_crc64 native payload.
Definition ic_format : list byte := regions (filled (ic_header p checksum)).

(** The plan is the one of these contents. *)
Record plan_of : Prop := PlanOf {
  of_placed : plan_placed p;
  of_component_count : plan_component_count p = count (entries_ids es);
  of_record_count : plan_record_count p = count es;
  of_string_bytes : plan_string_bytes p = blen (text_bytes (plan_strings p));
  of_value_bytes : plan_value_bytes p = blen (entries_values es);
  of_strings_fit : 8 * count (plan_strings p) <= plan_components_offset p - plan_string_records_offset p;
  of_components_fit : 4 * count (entries_ids es) <= plan_records_offset p - plan_components_offset p;
  of_records_fit : 24 * count es <= plan_string_bytes_offset p - plan_records_offset p;
  of_texts_fit : blen (text_bytes (plan_strings p)) <= plan_values_offset p - plan_string_bytes_offset p;
  of_values_fit : blen (entries_values es) = plan_size p - plan_values_offset p;
  of_string_count_bound : count (plan_strings p) <= u32_max;
  of_component_bound : count (entries_ids es) <= u32_max;
  of_record_bound : count es <= u32_max;
  of_text_bound : blen (text_bytes (plan_strings p)) <= u32_max;
  of_value_bound : blen (entries_values es) <= u32_max;
  of_components_at : plan_components_offset p = align8 (u64 (runtime_ic_binary_header_size + count (plan_strings p) * 8));
  of_records_at : plan_records_offset p = align8 (u64 (plan_components_offset p + count (entries_ids es) * 4));
  of_string_bytes_at : plan_string_bytes_offset p = align8 (u64 (plan_records_offset p + count es * 24));
  of_values_at :
    plan_values_offset p = align8 (u64 (plan_string_bytes_offset p + blen (text_bytes (plan_strings p))));
  of_size_bound : plan_size p <= size_max
}.
Context (Hp : plan_of).

Lemma blen_header crc : blen (ic_header p crc) = runtime_ic_binary_header_size.
Proof. unfold ic_header. rewrite blen_app, blen_word_bytes. reflexivity. Qed.

Lemma filled_fits h : blen h <= runtime_ic_binary_header_size -> fits (filled h).
Proof.
  intros Hh. destruct Hp. unfold filled, ic_parts, fits.
  repeat constructor; cbn [fst snd]; rewrite ?blen_string_records, ?blen_component_bytes, ?blen_record_bytes; lia.
Qed.

Lemma format_split crc : regions (filled (ic_header p crc)) = ic_header p crc ++ payload.
Proof.
  change (fill runtime_ic_binary_header_size (ic_header p crc) ++ payload = ic_header p crc ++ payload).
  unfold fill. pose proof (blen_header crc) as H. unfold blen in H.
  replace (Z.to_nat runtime_ic_binary_header_size - length (ic_header p crc))%nat with 0%nat by lia.
  by rewrite app_nil_r.
Qed.

Lemma blen_format crc : blen (regions (filled (ic_header p crc))) = plan_size p.
Proof.
  rewrite blen_regions by (apply filled_fits; rewrite blen_header; lia). destruct Hp as [[]].
  unfold filled, ic_parts, room. cbn. unfold runtime_ic_binary_header_size in *. lia.
Qed.

Lemma format_tail crc : drop (Z.to_nat runtime_ic_binary_header_size) (regions (filled (ic_header p crc))) = payload.
Proof.
  rewrite format_split. pose proof (blen_header crc) as H. unfold blen in H.
  replace (Z.to_nat runtime_ic_binary_header_size) with (length (ic_header p crc)) by lia. apply drop_app_length.
Qed.

(** ** The encoder *)

Lemma regions_blank rs : Forall (fun r => 0 <= r.1) rs ->
  regions ((fun r => (r.1, [])) <$> rs) = replicate (Z.to_nat (room rs)) x00.
Proof.
  induction 1 as [|r rs Hr Hrs IH]; [done|]. rewrite fmap_cons.
  change (regions ((r.1, []) :: ((fun r => (r.1, [])) <$> rs)))
    with (fill r.1 [] ++ regions ((fun r => (r.1, [])) <$> rs)). rewrite IH.
  assert (0 <= room rs) by (clear IH; unfold room; induction Hrs; cbn in *; lia).
  change (room (r :: rs)) with (r.1 + room rs). unfold fill. rewrite Z2Nat.inj_add, replicate_add by lia.
  cbn. by rewrite Nat.sub_0_r.
Qed.

Lemma write_header_spec :
  write_header p =
    answer (regions (ic_parts p (image_magic ++ word_bytes (header_words p (plan_size p))) [] [] [] [] [])).
Proof.
  unfold write_header. destruct Hp as [[]].
  assert (replicate (Z.to_nat (plan_size p)) x00 = regions (ic_parts p [] [] [] [] [] [])) as ->.
  { transitivity (replicate (Z.to_nat (room (ic_parts p [] [] [] [] [] []))) x00).
    { f_equal. f_equal. unfold ic_parts, room. cbn. unfold runtime_ic_binary_header_size in *. lia. }
    symmetry. apply (regions_blank (ic_parts p [] [] [] [] [] [])).
    unfold ic_parts. repeat constructor; cbn; unfold runtime_ic_binary_header_size in *; lia. }
  rewrite store_header by done. cbn [store answer bind_query app].
  rewrite words_header; [done|done|]. rewrite blen_word_bytes. done.
Qed.

(** The checksum takes the place of the zero that was written first. *)
Lemma store_over pre old post bs offset :
  offset = blen pre -> length old = length bs ->
  store_bytes (pre ++ old ++ post) offset bs = Some (pre ++ bs ++ post).
Proof.
  intros -> Hl. unfold store_bytes, blen. rewrite !length_app.
  rewrite !(proj2 (Z.leb_le _ _)) by lia. cbn [andb]. rewrite Nat2Z.id, take_app_length.
  by rewrite drop_app_add', drop_app_length' by (rewrite ?length_replicate; lia).
Qed.

Lemma header_checksum_place crc :
  ic_header p crc = (image_magic ++ word_bytes (take 18 (header_words p (plan_size p)))) ++ le_bytes 8 crc ++ le_bytes 8 0.
Proof. unfold ic_header, checked_words, word_bytes. rewrite bind_app, <- app_assoc. reflexivity. Qed.

Lemma finish_spec :
  finish_image p (blen (text_bytes (plan_strings p))) (count (entries_ids es)) (blen (entries_values es))
    (regions (filled (ic_header p 0))) = answer ic_format.
Proof.
  unfold finish_image. rewrite (of_component_count Hp), (of_value_bytes Hp), (of_string_bytes Hp), !Z.eqb_refl.
  cbn [andb guard_query answer bind_query]. rewrite format_tail. unfold ic_format. rewrite !format_split.
  fold checksum. rewrite !header_checksum_place. unfold write_u64. rewrite <- !(app_assoc _ _ payload).
  rewrite store_over; [done| |done]. rewrite blen_app, blen_word_bytes. reflexivity.
Qed.

(** Both encoders write the image of the plan. *)
Lemma encode_spec {C R} (find : Z -> C -> Z) (parts : R -> option (list C * list C * runtime_ic_scalar_value)) records checked :
  Forall2 (entry_of find (count (entries_ids es)) parts) records es ->
  (let? image := write_header p in
   let? written := write_strings p checked 0 (plan_strings p) 0 image in
   let '(string_cursor, image) := written in
   let? written := write_records find p parts 0 records 0 0 image in
   let '(component_cursor, value_cursor, image) := written in
   finish_image p string_cursor component_cursor value_cursor image) = answer ic_format.
Proof.
  intros Hes. rewrite write_header_spec. cbn [answer bind_query].
  assert (blen (image_magic ++ word_bytes (header_words p (plan_size p))) = runtime_ic_binary_header_size) as Hh.
  { rewrite blen_app, blen_word_bytes. done. }
  pose proof Hp as [Hplaced]. pose proof Hplaced as [].
  rewrite write_strings_spec; try done; try (change (blen []) with 0); try lia.
  cbn [answer bind_query app]. rewrite Z.add_0_l.
  rewrite (write_records_spec p Hplaced find (count (entries_ids es)) parts records es);
    try done; try (change (blen []) with 0); try lia.
  - cbn [answer bind_query app]. rewrite !Z.add_0_l. apply finish_spec.
  - rewrite blen_string_records. lia.
  - split; change (blen []) with 0; lia.
Qed.
End Image.

Lemma string_records_app cursor a b :
  string_records cursor (a ++ b) = string_records cursor a ++ string_records (cursor + blen (text_bytes a)) b.
Proof.
  revert cursor. induction a as [|t a IH]; intros cursor.
  { cbn. by rewrite Z.add_0_r. }
  cbn [string_records app]. rewrite IH. change (text_bytes (t :: a)) with (t ++ text_bytes a).
  by rewrite blen_app, Z.add_assoc, <- !app_assoc.
Qed.

Lemma record_bytes_app c v a b :
  record_bytes c v (a ++ b) =
    record_bytes c v a ++ record_bytes (c + count (entries_ids a)) (v + foldr (fun e n => scalar_size (entry_value e) + n) 0 a) b.
Proof.
  revert c v. induction a as [|e a IH]; intros c v.
  { cbn [record_bytes app foldr]. change (count (entries_ids [])) with 0. by rewrite !Z.add_0_r. }
  cbn [record_bytes app foldr]. rewrite IH. change (entries_ids (e :: a)) with ((entry_object e ++ entry_members e) ++ entries_ids a).
  rewrite !counts_app, <- !app_assoc, <- !Z.add_assoc. unfold entry_components. by rewrite <- !Z.add_assoc.
Qed.

(** A word that fits its width is read back. *)
Lemma word_read w v : 0 <= v < 2 ^ (8 * Z.of_nat w) -> le_value (le_bytes w v) = v.
Proof. intros H. rewrite le_value_bytes. by apply Z.mod_small. Qed.

Lemma persistence_crc64_range mode bytes : 0 <= persistence_crc64 mode bytes < 2 ^ 64.
Proof. rewrite persistence_crc64_ref. unfold crc_ref. by apply crc_ref_fold_range. Qed.

Section Accepted.
Context (p : runtime_ic_binary_plan) (es : list ic_entry) (Hp : plan_of p es).

(** Contents that the encoders write. *)
Record contents_ok : Prop := ContentsOk {
  ok_strings : Forall (fun t => t <> []) (plan_strings p);
  ok_ids : Forall (fun i => 0 < i <= count (plan_strings p)) (entries_ids es);
  ok_entries : Forall (fun e => entry_object e <> [] /\ count (entry_object e) <= u16_max /\
    count (entry_members e) <= u16_max /\ scalar_ok (entry_value e)) es
}.
Context (Hc : contents_ok).

Let image := ic_format p es.

Lemma header_word i w v offset :
  checked_words p (checksum p es) !! i = Some (w, v) ->
  offset = 8 + blen (word_bytes (take i (checked_words p (checksum p es)))) ->
  bytes_at image offset (Z.of_nat w) = Some (le_bytes w v).
Proof.
  intros Hi ->. unfold image, ic_format, filled, ic_parts, ic_header.
  rewrite <- (app_nil_r (word_bytes (checked_words p (checksum p es)))).
  apply (read_word _ i w v []); [done|constructor| |done]. rewrite app_nil_r. 
  by rewrite <- (blen_header p (checksum p es)).
Qed.

Lemma header_u32 i v offset :
  checked_words p (checksum p es) !! i = Some (4%nat, v) -> 0 <= v < 2 ^ 32 ->
  offset = 8 + blen (word_bytes (take i (checked_words p (checksum p es)))) -> read_u32 image offset = Some v.
Proof. intros Hi Hv Ho. unfold read_u32. pose proof (header_word i 4 v offset Hi Ho) as E. change (Z.of_nat 4) with 4 in E. rewrite E. change (Some (le_value (le_bytes 4 v)) = Some v). by rewrite word_read. Qed.

Lemma header_u64 i v offset :
  checked_words p (checksum p es) !! i = Some (8%nat, v) -> 0 <= v < 2 ^ 64 ->
  offset = 8 + blen (word_bytes (take i (checked_words p (checksum p es)))) -> read_u64 image offset = Some v.
Proof. intros Hi Hv Ho. unfold read_u64. pose proof (header_word i 8 v offset Hi Ho) as E. change (Z.of_nat 8) with 8 in E. rewrite E. change (Some (le_value (le_bytes 8 v)) = Some v). by rewrite word_read. Qed.

Lemma plan_bounds :
  0 <= count (plan_strings p) <= u32_max /\ 0 <= count (entries_ids es) <= u32_max /\ 0 <= count es <= u32_max /\
  0 <= blen (text_bytes (plan_strings p)) <= u32_max /\ 0 <= blen (entries_values es) <= u32_max /\
  128 <= plan_components_offset p <= plan_records_offset p /\
  plan_records_offset p <= plan_string_bytes_offset p <= plan_values_offset p /\
  plan_values_offset p <= plan_size p <= size_max /\ plan_string_records_offset p = 128 /\
  plan_string_count p = count (plan_strings p) /\ plan_component_count p = count (entries_ids es) /\
  plan_record_count p = count es /\ plan_string_bytes p = blen (text_bytes (plan_strings p)) /\
  plan_value_bytes p = blen (entries_values es).
Proof.
  destruct Hp as [[]]. assert (plan_string_count p = count (plan_strings p)).
  { unfold plan_string_count, u32. rewrite Z.mod_small; [done|]. unfold u32_max, count in *. lia. } unfold runtime_ic_binary_header_size in *.
  pose proof (counts_nonneg (plan_strings p)). pose proof (counts_nonneg (entries_ids es)). pose proof (counts_nonneg es).
  pose proof (blen_nonneg (text_bytes (plan_strings p))). pose proof (blen_nonneg (entries_values es)). lia.
Qed.

Ltac word_bound := first [unfold size_max, u32_max in *; lia | split; vm_compute; congruence].
Ltac header_32 i o :=
  erewrite (header_u32 i _ o); [|reflexivity|word_bound|by rewrite blen_word_bytes]; cbn [mbind option_bind].
Ltac header_64 i o :=
  erewrite (header_u64 i _ o); [|reflexivity|word_bound|by rewrite blen_word_bytes]; cbn [mbind option_bind].

Lemma format_size : Z.of_nat (length image) = plan_size p.
Proof. apply (blen_format p es Hp). Qed.

Lemma header_accepted : ic_header_valid image = Some true.
Proof.
  pose proof plan_bounds. pose proof format_size. unfold ic_header_valid.
  header_32 0%nat 8. header_32 1%nat 12. header_32 2%nat 16. header_32 3%nat 20. header_32 4%nat 24.
  header_32 5%nat 28. header_64 6%nat 32. header_32 10%nat 52. header_64 19%nat header_reserved_offset.
  by rewrite H0, !Z.eqb_refl.
Qed.

(** The view of the image. *)
Definition format_view : runtime_ic_binary_view :=
  IcView (Some image) 128 (plan_components_offset p) (plan_records_offset p) (plan_string_bytes_offset p)
    (plan_values_offset p) (count (plan_strings p)) (count (entries_ids es)) (count es)
    (blen (text_bytes (plan_strings p))) (blen (entries_values es)).

Lemma layout_accepted : ic_layout image = Some (Some format_view).
Proof.
  pose proof plan_bounds. pose proof format_size. pose proof (of_values_fit p es Hp) as Hfit. unfold ic_layout.
  header_32 7%nat 40. header_32 8%nat 44. header_32 9%nat 48. header_64 11%nat 56. header_64 12%nat 64.
  header_64 13%nat 72. header_64 14%nat 80. header_64 15%nat 88. header_64 16%nat 96. header_64 17%nat 104.
  destruct H as (? & ? & ? & ? & ? & ? & ? & ? & -> & -> & -> & -> & -> & ->).
  rewrite !multiply_small by (unfold runtime_ic_binary_string_record_size, runtime_ic_binary_record_size; lia).
  cbn [mbind option_bind]. unfold runtime_ic_binary_string_record_size, runtime_ic_binary_record_size.
  rewrite <- (of_components_at p es Hp), <- (of_records_at p es Hp), <- (of_string_bytes_at p es Hp), <- (of_values_at p es Hp).
  rewrite !Z.eqb_refl. cbn [negb orb]. unfold add_u64. rewrite (proj2 (Z.ltb_ge _ _)) by lia.
  cbn [mbind option_bind]. rewrite H0. rewrite (proj2 (Z.eqb_eq _ _)) by lia. done.
Qed.
(** ** Loads from the parts *)

Definition prefix (k : nat) : list (Z * list byte) := take k (filled p es (ic_header p (checksum p es))).

Lemma prefix_fits k : fits (prefix k).
Proof. unfold fits, prefix. apply Forall_take. apply filled_fits; [done|]. by rewrite blen_header. Qed.

(** The content [pre ++ bs ++ post] of part [k], which begins at [start]. *)
Lemma load_part k n pre bs post start offset size :
  filled p es (ic_header p (checksum p es)) !! k = Some (n, pre ++ bs ++ post) ->
  start = room (prefix k) -> offset = start + blen pre -> size = blen bs -> bytes_at image offset size = Some bs.
Proof.
  intros Hk -> -> ->. unfold image, ic_format. rewrite <- (take_drop_middle _ _ _ Hk).
  apply load_region; [apply prefix_fits| |done|done].
  assert (fits (filled p es (ic_header p (checksum p es)))) as Hfits by (apply filled_fits; [done|by rewrite blen_header]).
  unfold fits in Hfits. rewrite Forall_lookup in Hfits. apply (Hfits _ _ Hk).
Qed.

Lemma room_prefix : room (prefix 1) = 128 /\ room (prefix 2) = plan_components_offset p /\
  room (prefix 3) = plan_records_offset p /\ room (prefix 4) = plan_string_bytes_offset p /\
  room (prefix 5) = plan_values_offset p.
Proof.
  pose proof plan_bounds. unfold prefix, filled, ic_parts, room. cbn [take foldr fst]. 
  unfold runtime_ic_binary_header_size. lia.
Qed.

Lemma load_word words i w v k n pre post start offset :
  filled p es (ic_header p (checksum p es)) !! k = Some (n, pre ++ word_bytes words ++ post) ->
  words !! i = Some (w, v) -> start = room (prefix k) ->
  offset = start + blen pre + blen (word_bytes (take i words)) -> 0 <= v < 2 ^ (8 * Z.of_nat w) ->
  le_value <$> bytes_at image offset (Z.of_nat w) = Some v.
Proof.
  intros Hk Hi -> -> Hv. rewrite (word_bytes_split _ _ _ _ Hi), <- (app_assoc _ _ post), <- (app_assoc _ _ post), (app_assoc pre) in Hk.
  rewrite (load_part _ _ _ _ _ _ _ _ Hk eq_refl) by (rewrite ?blen_app, ?blen_le_bytes; lia).
  cbn [fmap option_fmap option_map]. by rewrite word_read.
Qed.

Lemma string_record_loads a t b :
  plan_strings p = a ++ t :: b ->
  read_u32 image (128 + count a * 8) = Some (blen (text_bytes a)) /\
  read_u32 image (128 + count a * 8 + 4) = Some (blen t) /\
  bytes_at image (plan_string_bytes_offset p + blen (text_bytes a)) (blen t) = Some t.
Proof.
  intros E. destruct room_prefix as (R1 & R2 & R3 & R4 & R5). pose proof plan_bounds as Hb.
  assert (text_bytes (plan_strings p) = text_bytes a ++ t ++ text_bytes b) as Et.
  { rewrite E. unfold text_bytes. by rewrite bind_app. }
  assert (blen (text_bytes (plan_strings p)) = blen (text_bytes a) + (blen t + blen (text_bytes b))) as El
    by (rewrite Et, !blen_app; done).
  pose proof (blen_nonneg (text_bytes a)). pose proof (blen_nonneg t). pose proof (blen_nonneg (text_bytes b)).
  assert (filled p es (ic_header p (checksum p es)) !! 1%nat = Some (plan_components_offset p - plan_string_records_offset p,
    string_records 0 a ++ word_bytes [(4%nat, blen (text_bytes a)); (4%nat, blen t)] ++
    string_records (blen (text_bytes a) + blen t) b)) as Hrecord.
  { unfold filled. rewrite E, string_records_app, Z.add_0_l. reflexivity. }
  unfold u32_max in *.
  split; [|split].
  - eapply (load_word _ 0 4 _ _ _ _ _ _ _ Hrecord); [done|done| |lia]. rewrite blen_string_records, R1. rewrite blen_word_bytes. cbn [take foldr]. lia.
  - eapply (load_word _ 1 4 _ _ _ _ _ _ _ Hrecord); [done|done| |lia]. rewrite blen_string_records, R1. rewrite blen_word_bytes. cbn [take foldr fst]. lia.
  - eapply (load_part 4 (plan_values_offset p - plan_string_bytes_offset p) (text_bytes a) t (text_bytes b) (room (prefix 4)));
      [|done|by rewrite R4|done]. unfold filled. by rewrite Et.
Qed.

Lemma component_loads a i b :
  entries_ids es = a ++ i :: b -> 0 <= i < 2 ^ 32 ->
  read_u32 image (plan_components_offset p + count a * 4) = Some i.
Proof.
  intros E Hi. destruct room_prefix as (R1 & R2 & R3 & R4 & R5).
  apply (load_word [(4%nat, i)] 0 4 i 2 (plan_records_offset p - plan_components_offset p) (component_bytes a) (component_bytes b)
    (room (prefix 2))); [|done|done| |done].
  - unfold filled. rewrite E. unfold component_bytes. rewrite bind_app. reflexivity.
  - rewrite blen_component_bytes, R2. rewrite blen_word_bytes. cbn [take foldr]. lia.
Qed.

(** The bytes of the values of the first records. *)
Lemma entries_values_size a : Forall (fun e => scalar_ok (entry_value e)) a ->
  foldr (fun e n => scalar_size (entry_value e) + n) 0 a = blen (entries_values a).
Proof.
  induction 1 as [|e a He _ IH]; [done|].
  change (entries_values (e :: a)) with (scalar_content (entry_value e) ++ entries_values a).
  rewrite blen_app, blen_scalar_content by done. cbn. lia.
Qed.

Lemma entries_scalars : Forall (fun e => scalar_ok (entry_value e)) es.
Proof. eapply Forall_impl; [apply (ok_entries Hc)|]. cbv beta. tauto. Qed.

Lemma record_load a e b i w v offset :
  es = a ++ e :: b -> record_words (count (entries_ids a)) (blen (entries_values a)) e !! i = Some (w, v) ->
  0 <= v < 2 ^ (8 * Z.of_nat w) ->
  offset = plan_records_offset p + count a * 24 +
    blen (word_bytes (take i (record_words (count (entries_ids a)) (blen (entries_values a)) e))) ->
  le_value <$> bytes_at image offset (Z.of_nat w) = Some v.
Proof.
  intros E Hi Hv ->. destruct room_prefix as (R1 & R2 & R3 & R4 & R5).
  pose proof entries_scalars as Hs. rewrite E in Hs. apply Forall_app in Hs as [Hs _].
  eapply (load_word _ i w v 3 (plan_string_bytes_offset p - plan_records_offset p) (record_bytes 0 0 a)
    _ (room (prefix 3))); [|exact Hi|done| |done].
  - unfold filled. rewrite (f_equal (record_bytes 0 0) E), record_bytes_app, entries_values_size, !Z.add_0_l by done. reflexivity.
  - rewrite blen_record_bytes, R3. lia.
Qed.

Lemma value_load a e b :
  es = a ++ e :: b ->
  bytes_at image (plan_values_offset p + blen (entries_values a)) (scalar_size (entry_value e)) =
    Some (scalar_content (entry_value e)).
Proof.
  intros E. destruct room_prefix as (R1 & R2 & R3 & R4 & R5).
  pose proof entries_scalars as Hs. rewrite E in Hs. apply Forall_app in Hs as [_ [Hs _]%Forall_cons].
  apply (load_part 5 (plan_size p - plan_values_offset p) (entries_values a) _ (entries_values b) (room (prefix 5)));
    [|done|by rewrite R5|by rewrite blen_scalar_content].
  unfold filled. rewrite (f_equal entries_values E). unfold entries_values at 1. rewrite bind_app. reflexivity.
Qed.

(** ** The checks *)

Lemma check_strings_accepted a b :
  plan_strings p = a ++ b ->
  check_strings image format_view (length b) (count a) (blen (text_bytes a)) =
    Some (Some (blen (text_bytes (plan_strings p)))).
Proof.
  revert a. induction b as [|t b IH]; intros a E; cbn [check_strings length]; [by rewrite E, app_nil_r|].
  destruct (string_record_loads a t b E) as (H1 & H2 & _). pose proof plan_bounds as Hb.
  cbn [ic_string_records format_view]. unfold runtime_ic_binary_string_record_size. rewrite H1. cbn [mbind option_bind].
  rewrite H2. cbn [mbind option_bind ic_string_bytes_size format_view].
  assert (t <> []) as Ht.
  { pose proof (ok_strings Hc) as Hall. rewrite E in Hall. apply Forall_app in Hall as [_ Hall]. by inversion Hall. }
  assert (0 < blen t) by (destruct t; [done|unfold blen; cbn; lia]).
  assert (text_bytes (plan_strings p) = text_bytes a ++ t ++ text_bytes b) as Et.
  { rewrite E. unfold text_bytes. by rewrite bind_app. }
  assert (blen (text_bytes (plan_strings p)) = blen (text_bytes a) + (blen t + blen (text_bytes b))) as El
    by (rewrite Et, !blen_app; done).
  pose proof (blen_nonneg (text_bytes a)). pose proof (blen_nonneg (text_bytes b)). unfold u32_max in *.
  rewrite (proj2 (Z.eqb_neq _ _)), Z.eqb_refl, !(proj2 (Z.ltb_ge _ _)) by lia. cbn [negb orb].
  unfold u32. rewrite Z.mod_small by lia.
  specialize (IH (a ++ [t])). rewrite <- (app_assoc a) in IH. specialize (IH E).
  rewrite counts_app in IH. change (count [t]) with 1 in IH.
  replace (blen (text_bytes (a ++ [t]))) with (blen (text_bytes a) + blen t) in IH; [exact IH|].
  unfold text_bytes at 2. rewrite bind_app, blen_app. cbn. by rewrite app_nil_r.
Qed.

Lemma check_components_accepted a b :
  entries_ids es = a ++ b -> check_components image format_view (length b) (count a) = Some true.
Proof.
  revert a. induction b as [|i b IH]; intros a E; cbn [check_components length]; [done|].
  pose proof plan_bounds as Hb. unfold u32_max in *.
  assert (0 < i <= count (plan_strings p)) as Hi.
  { pose proof (ok_ids Hc) as Hall. rewrite E in Hall. apply Forall_app in Hall as [_ Hall]. by inversion Hall. }
  cbn [ic_components format_view]. rewrite (component_loads a i b E) by lia. cbn [mbind option_bind ic_string_count format_view].
  rewrite (proj2 (Z.eqb_neq _ _)), (proj2 (Z.ltb_ge _ _)) by lia. cbn [orb].
  specialize (IH (a ++ [i])). rewrite <- (app_assoc a) in IH. specialize (IH E).
  rewrite counts_app in IH. exact IH.
Qed.

Lemma record_fields a e b :
  es = a ++ e :: b ->
  let at_ k := plan_records_offset p + count a * 24 + k in
  read_u32 image (at_ 0) = Some (count (entries_ids a)) /\ read_u16 image (at_ 4) = Some (count (entry_object e)) /\
  read_u16 image (at_ 6) = Some (count (entry_members e)) /\
  read_u32 image (at_ 8) = Some (count (entries_ids a) + count (entry_object e)) /\
  read_u32 image (at_ 12) = Some (blen (entries_values a)) /\ read_u16 image (at_ 16) = Some (scalar_size (entry_value e)) /\
  read_u8 image (at_ 18) = Some (intrinsic_number (scalar_type (entry_value e))) /\
  read_u8 image (at_ 19) = Some 0 /\ read_u32 image (at_ 20) = Some 0.
Proof.
  intros E at_. pose proof (ok_entries Hc) as Hall. rewrite E in Hall.
  apply Forall_app in Hall as [_ [(_ & Ho & Hm & Hs) _]%Forall_cons]. pose proof (scalar_ok_size _ Hs).
  pose proof (counts_nonneg (entry_object e)). pose proof (counts_nonneg (entry_members e)).
  pose proof (counts_nonneg (entries_ids a)). pose proof (blen_nonneg (entries_values a)). pose proof plan_bounds as Hb.
  assert (count (entries_ids es) = count (entries_ids a) + (count (entry_object e) + count (entry_members e) + count (entries_ids b))) as Hids.
  { rewrite E at 1. unfold entries_ids. rewrite bind_app, bind_cons, !counts_app. done. }
  assert (blen (entries_values es) = blen (entries_values a) + (blen (scalar_content (entry_value e)) + blen (entries_values b))) as Hvalues.
  { rewrite E at 1. unfold entries_values. rewrite bind_app, bind_cons, !blen_app. done. }
  pose proof (counts_nonneg (entries_ids b)). pose proof (blen_nonneg (entries_values b)).
  pose proof (blen_nonneg (scalar_content (entry_value e))). unfold u32_max, u16_max in *.
  assert (0 <= intrinsic_number (scalar_type (entry_value e)) < 2 ^ 8) by (destruct (scalar_type (entry_value e)); done).
  unfold at_. repeat split.
  - apply (record_load a e b 0 4 _ _ E eq_refl); [lia|]. by rewrite blen_word_bytes.
  - apply (record_load a e b 1 2 _ _ E eq_refl); [lia|]. by rewrite blen_word_bytes.
  - apply (record_load a e b 2 2 _ _ E eq_refl); [lia|]. by rewrite blen_word_bytes.
  - apply (record_load a e b 3 4 _ _ E eq_refl); [lia|]. by rewrite blen_word_bytes.
  - apply (record_load a e b 4 4 _ _ E eq_refl); [lia|]. by rewrite blen_word_bytes.
  - apply (record_load a e b 5 2 _ _ E eq_refl); [lia|]. by rewrite blen_word_bytes.
  - apply (record_load a e b 6 1 _ _ E eq_refl); [lia|]. by rewrite blen_word_bytes.
  - apply (record_load a e b 7 1 _ _ E eq_refl); [lia|]. by rewrite blen_word_bytes.
  - apply (record_load a e b 8 4 _ _ E eq_refl); [lia|]. by rewrite blen_word_bytes.
Qed.

Lemma scalar_type_valid s : valid_scalar s = true -> record_type_valid (intrinsic_number (scalar_type s)) = true.
Proof. unfold valid_scalar. intros H. unbool. by destruct (scalar_type s). Qed.

Lemma check_records_accepted a b :
  es = a ++ b ->
  check_records image format_view (length b) (count a) (count (entries_ids a)) (blen (entries_values a)) =
    Some (Some (count (entries_ids es), blen (entries_values es))).
Proof.
  revert a. induction b as [|e b IH]; intros a E; cbn [check_records length].
  { by rewrite E, app_nil_r at 1 2. }
  destruct (record_fields a e b E) as (R1 & R2 & R3 & R4 & R5 & R6 & R7 & R8 & R9).
  rewrite Z.add_0_r in R1. cbn [ic_records format_view]. unfold runtime_ic_binary_record_size.
  rewrite R1, R2, R3, R4, R5, R6, R7, R8, R9. cbn [mbind option_bind ic_component_count ic_values_size format_view].
  pose proof (ok_entries Hc) as Hall. rewrite E in Hall.
  apply Forall_app in Hall as [_ [(Hne & Ho & Hm & Hs) _]%Forall_cons]. pose proof (scalar_ok_size _ Hs).
  assert (0 < count (entry_object e)) by (destruct (entry_object e); [done|unfold count; cbn; lia]).
  pose proof (counts_nonneg (entry_members e)). pose proof plan_bounds as Hb.
  pose proof (counts_nonneg (entries_ids a)). pose proof (blen_nonneg (entries_values a)).
  assert (count (entries_ids es) = count (entries_ids a) + (count (entry_object e) + count (entry_members e) + count (entries_ids b))) as Hids.
  { rewrite E at 1. unfold entries_ids. rewrite bind_app, bind_cons, !counts_app. done. }
  assert (blen (entries_values es) = blen (entries_values a) + (scalar_size (entry_value e) + blen (entries_values b))) as Hvalues.
  { rewrite E at 1. unfold entries_values. rewrite bind_app, bind_cons, !blen_app, blen_scalar_content; done. }
  pose proof (counts_nonneg (entries_ids b)). pose proof (blen_nonneg (entries_values b)).
  unfold u32_max, u16_max, scalar_capacity in *. unfold u32. rewrite !Z.mod_small by lia.
  rewrite scalar_type_valid by apply Hs.
  rewrite (proj2 (Z.eqb_neq (count (entry_object e)) 0)), (proj2 (Z.eqb_neq (scalar_size (entry_value e)) 0)), !Z.eqb_refl, !(proj2 (Z.ltb_ge _ _)) by lia. cbn [negb orb].
  specialize (IH (a ++ [e])). rewrite <- (app_assoc a) in IH. specialize (IH E).
  rewrite counts_app in IH. change (count [e]) with 1 in IH.
  replace (count (entries_ids (a ++ [e]))) with (count (entries_ids a) + (count (entry_object e) + count (entry_members e))) in IH.
  2: { unfold entries_ids at 2. rewrite bind_app, counts_app. cbn. by rewrite app_nil_r, counts_app. }
  replace (blen (entries_values (a ++ [e]))) with (blen (entries_values a) + scalar_size (entry_value e)) in IH; [exact IH|].
  unfold entries_values at 2. rewrite bind_app, blen_app. cbn. by rewrite app_nil_r, blen_scalar_content.
Qed.

Lemma bind_accepts : ic_bind image = answer format_view.
Proof.
  unfold ic_bind. rewrite format_size. pose proof plan_bounds as Hb.
  assert (take 8 image = image_magic) as Hmagic.
  { unfold image, ic_format. rewrite format_split by done. unfold ic_header. rewrite <- !app_assoc. exact (take_app_length image_magic _). }
  rewrite Hmagic, bool_decide_eq_true_2 by done. unfold runtime_ic_binary_header_size at 1.
  rewrite (proj2 (Z.leb_le _ _)) by lia. cbn [andb guard_query answer bind_query]. unfold refuse_unless.
  rewrite header_accepted. cbn [loaded answer bind_query guard_query]. rewrite layout_accepted. cbn [ask answer bind_query].
  assert (read_u64 image header_payload_crc_offset = Some (checksum p es)) as ->.
  { apply (header_u64 18); [reflexivity| |by rewrite blen_word_bytes].
    unfold checksum. apply persistence_crc64_range. }
  cbn [loaded answer bind_query]. unfold image at 1, ic_format. rewrite format_tail. fold (checksum p es).
  rewrite Z.eqb_refl. cbn [guard_query answer bind_query]. cbn [ic_string_count ic_component_count ic_record_count format_view].
  unfold count at 1. rewrite Nat2Z.id. pose proof (check_strings_accepted [] (plan_strings p) eq_refl) as H1.
  change (count []) with 0 in H1. change (blen (text_bytes [])) with 0 in H1. rewrite H1.
  cbn [ask answer bind_query ic_string_bytes_size format_view]. rewrite Z.eqb_refl. cbn [guard_query answer bind_query].
  unfold count at 1. rewrite Nat2Z.id. pose proof (check_components_accepted [] (entries_ids es) eq_refl) as H2.
  change (count []) with 0 in H2. rewrite H2. cbn [loaded answer bind_query guard_query].
  unfold count at 1. rewrite Nat2Z.id. pose proof (check_records_accepted [] es eq_refl) as H3.
  change (count []) with 0 in H3. change (count (entries_ids [])) with 0 in H3. change (blen (entries_values [])) with 0 in H3.
  rewrite H3. cbn [ask answer bind_query fst snd ic_values_size format_view]. by rewrite !Z.eqb_refl.
Qed.

(** ** The queries *)

Lemma text_bytes_split a t b : blen (text_bytes (a ++ t :: b)) = blen (text_bytes a) + (blen t + blen (text_bytes b)).
Proof. unfold text_bytes. by rewrite bind_app, bind_cons, !blen_app. Qed.

Lemma string_read a t b : plan_strings p = a ++ t :: b -> ic_string format_view (count a + 1) = Some t.
Proof.
  intros E. destruct (string_record_loads _ _ _ E) as (H1 & H2 & H3).
  pose proof (f_equal count E) as Hn. rewrite counts_app, count_cons in Hn. pose proof (counts_nonneg b). pose proof (counts_nonneg a).
  pose proof (f_equal (fun l => blen (text_bytes l)) E) as El. cbv beta in El. rewrite text_bytes_split in El.
  pose proof (blen_nonneg t). pose proof (blen_nonneg (text_bytes b)).
  unfold ic_string, format_view. cbn [ic_image ic_string_count ic_string_records ic_string_bytes_size ic_string_bytes].
  rewrite (proj2 (Z.eqb_neq _ _)), (proj2 (Z.ltb_ge _ _)) by lia. cbn [orb]. unfold runtime_ic_binary_string_record_size.
  rewrite Z.add_simpl_r. rewrite H1. cbn [mbind option_bind]. rewrite H2. cbn [mbind option_bind].
  rewrite !(proj2 (Z.ltb_ge _ _)) by lia. exact H3.
Qed.

Lemma component_read a i b : entries_ids es = a ++ i :: b -> ic_component format_view (count a) = Some i.
Proof.
  intros E. unfold ic_component, format_view. cbn [ic_image ic_component_count ic_components].
  pose proof (f_equal count E) as Hn. rewrite counts_app, count_cons in Hn. pose proof (counts_nonneg b).
  rewrite (proj2 (Z.leb_gt _ _)) by lia. apply (component_loads a i b E).
  pose proof (ok_ids Hc) as Hall. rewrite E in Hall. apply Forall_app in Hall as [_ [Hi _]%Forall_cons].
  pose proof plan_bounds. unfold u32_max in *. lia.
Qed.

Lemma record_read a e b :
  es = a ++ e :: b ->
  ic_record format_view (count a) = Some (Some (IcRecord (count (entries_ids a)) (count (entry_object e)) (count (entry_members e))
    (count (entries_ids a) + count (entry_object e)) (scalar_type (entry_value e)) (scalar_content (entry_value e)))).
Proof.
  intros E. destruct (record_fields a e b E) as (R1 & R2 & R3 & R4 & R5 & R6 & R7 & R8 & R9). rewrite Z.add_0_r in R1.
  pose proof (f_equal count E) as Hn. rewrite counts_app, count_cons in Hn. pose proof (counts_nonneg b).
  pose proof entries_scalars as Hs. rewrite E in Hs. apply Forall_app in Hs as [_ [Hs _]%Forall_cons].
  assert (blen (entries_values es) = blen (entries_values a) + (scalar_size (entry_value e) + blen (entries_values b))) as Hvalues.
  { rewrite E at 1. unfold entries_values. rewrite bind_app, bind_cons, !blen_app, blen_scalar_content; done. }
  pose proof (blen_nonneg (entries_values b)). pose proof (scalar_ok_size _ Hs).
  unfold ic_record, format_view. cbn [ic_image ic_record_count ic_records ic_values_size ic_values].
  rewrite (proj2 (Z.leb_gt _ _)) by lia. unfold runtime_ic_binary_record_size.
  rewrite R5. cbn [mbind option_bind]. rewrite R6. cbn [mbind option_bind]. rewrite !(proj2 (Z.ltb_ge _ _)) by lia. cbn [orb].
  rewrite R1, R2, R3, R4, R7. cbn [mbind option_bind]. rewrite (value_load a e b E). cbn [mbind option_bind].
  by replace (intrinsic_of_number _) with (scalar_type (entry_value e)) by (by destruct (scalar_type (entry_value e))).
Qed.
End Accepted.
