(* ===== verification/IcRoundtrip.v ===== *)
(** The plan of an image of initial conditions: the index finds the local number of every
    string, and the parts are placed where the contents fit.

    Initial conditions through their binary image: what is prepared, encoded and bound is
    read back, from the paths of a snapshot and from its numbers of strings alike.

    Initial conditions of a snapshot that names strings by their numbers in the bound image:
    their binary image holds the strings themselves. *)

From S2P Require Import Prelude Crc64 HashIndex StringTable GraphData ImageBytes CompiledView CompiledBounds CompiledProject Outcome RuntimeIc RuntimeIcCodec IcEncode IcBind.

Local Open Scope Z_scope.
Local Open Scope outcome_scope.

(** ** Powers of two *)

(** Bit [i] of [v] is the disjunction of the bits of [n] from [i] on, [w] of them. *)
Definition smeared (n w v : Z) : Prop :=
  0 <= v /\ forall i, 0 <= i -> Z.testbit v i = true <-> exists j, i <= j < i + w /\ Z.testbit n j = true.

Lemma smeared_step n w v : 0 <= w -> smeared n w v -> smeared n (w * 2) (Z.lor v (Z.shiftr v w)).
Proof.
  intros Hw [H0 H]. split; [apply Z.lor_nonneg; split; [done|]; by apply Z.shiftr_nonneg|].
  intros i Hi. rewrite Z.lor_spec, Z.shiftr_spec, orb_true_iff, (H i), (H (i + w)) by lia. split.
  - intros [(j & Hj & Hb)|(j & Hj & Hb)]; exists j; (split; [lia|done]).
  - intros (j & Hj & Hb). destruct (Z.lt_ge_cases j (i + w)); [left|right]; exists j; (split; [lia|done]).
Qed.

Lemma smeared_all n v : 0 < n < 2 ^ 64 -> smeared n 64 v -> v = 2 ^ (Z.log2 n + 1) - 1.
Proof.
  intros Hn [H0 H]. pose proof (Z.log2_nonneg n). assert (Z.log2 n < 64) by (apply Z.log2_lt_pow2; lia).
  replace (2 ^ (Z.log2 n + 1) - 1) with (Z.ones (Z.log2 n + 1)) by (rewrite Z.ones_equiv; lia).
  apply Z.bits_inj'. intros i Hi. apply eq_true_iff_eq. rewrite (H i Hi). split.
  - intros (j & Hj & Hb). destruct (Z.lt_ge_cases (Z.log2 n) j) as [Hlt|]; [by rewrite Z.bits_above_log2 in Hb by lia|].
    apply Z.ones_spec_low. lia.
  - intros Hb. destruct (Z.lt_ge_cases (Z.log2 n) i) as [Hlt|]; [by rewrite Z.ones_spec_high in Hb by lia|].
    exists (Z.log2 n). split; [lia|]. apply Z.bit_log2. lia.
Qed.

Lemma next_power_of_two_spec value :
  0 <= value <= 2 ^ 63 -> exists k, 3 <= k <= 63 /\ next_power_of_two value = 2 ^ k /\ value <= 2 ^ k.
Proof.
  intros Hv. unfold next_power_of_two. destruct (Z.leb_spec value 8); [by exists 3|]. cbn [foldl].
  match goal with |- context [?v =? size_max] => assert (smeared (value - 1) 64 v) as Hs end.
  { apply (smeared_step _ 32); [lia|]. apply (smeared_step _ 16); [lia|]. apply (smeared_step _ 8); [lia|].
    apply (smeared_step _ 4); [lia|]. apply (smeared_step _ 2); [lia|]. apply (smeared_step _ 1); [lia|].
    split; [lia|]. intros i Hi. split; [intros Hb; exists i; (split; [lia|done])|].
    intros (j & Hj & Hb). by replace i with j by lia. }
  apply smeared_all in Hs; [|lia]. rewrite Hs. clear Hs.
  assert (3 <= Z.log2 (value - 1)) by (apply Z.log2_le_pow2; lia).
  assert (Z.log2 (value - 1) < 63) by (apply Z.log2_lt_pow2; lia).
  assert (2 ^ (Z.log2 (value - 1) + 1) <= 2 ^ 63) by (apply Z.pow_le_mono_r; lia).
  rewrite (proj2 (Z.eqb_neq _ _)) by (unfold size_max; lia). exists (Z.log2 (value - 1) + 1).
  split; [lia|]. split; [lia|]. pose proof (Z.log2_spec (value - 1)). rewrite <- Z.add_1_r in *. lia.
Qed.

(** ** Places *)

Lemma align8_bounds v : 0 <= v -> v + 7 < 2 ^ 64 -> v <= align8 v <= v + 7.
Proof.
  intros H0 H. unfold align8, u64. rewrite Z.mod_small by lia.
  change 7 with (Z.ones 3) at 2 4. rewrite Z.ldiff_ones_r by lia.
  rewrite Z.shiftl_mul_pow2, Z.shiftr_div_pow2 by lia. change (2 ^ 3) with 8.
  pose proof (Z.div_mod (v + 7) 8). pose proof (Z.mod_pos_bound (v + 7) 8). lia.
Qed.

Lemma place_parts_spec p0 es :
  plan_string_bytes p0 = blen (text_bytes (plan_strings p0)) ->
  count (plan_strings p0) <= u32_max -> count (entries_ids es) <= u32_max -> count es <= u32_max ->
  blen (text_bytes (plan_strings p0)) <= u32_max -> blen (entries_values es) <= u32_max ->
  exists p, place_parts p0 (count (entries_ids es)) (blen (entries_values es)) (count es) = answer p /\
    plan_of p es /\ plan_strings p = plan_strings p0 /\ plan_string_index p = plan_string_index p0 /\
    plan_source_string_to_local p = plan_source_string_to_local p0.
Proof.
  intros Hbytes Hs Hi He Ht Hv. pose proof (counts_nonneg (plan_strings p0)). pose proof (counts_nonneg (entries_ids es)).
  pose proof (counts_nonneg es). pose proof (blen_nonneg (text_bytes (plan_strings p0))). pose proof (blen_nonneg (entries_values es)).
  unfold u32_max in *. unfold place_parts. fold (count (plan_strings p0)).
  unfold runtime_ic_binary_string_record_size, runtime_ic_binary_record_size. rewrite !multiply_small by (unfold u32_max; lia).
  set (co := align8 (u64 (runtime_ic_binary_header_size + count (plan_strings p0) * 8))).
  set (ro := align8 (u64 (co + count (entries_ids es) * 4))).
  set (so := align8 (u64 (ro + count es * 24))).
  set (vo := align8 (u64 (so + plan_string_bytes p0))).
  assert (128 + count (plan_strings p0) * 8 <= co <= 128 + count (plan_strings p0) * 8 + 7) as Hco.
  { unfold co, u64, runtime_ic_binary_header_size. rewrite Z.mod_small by lia. apply align8_bounds; lia. }
  assert (co + count (entries_ids es) * 4 <= ro <= co + count (entries_ids es) * 4 + 7) as Hro.
  { unfold ro, u64. rewrite Z.mod_small by lia. apply align8_bounds; lia. }
  assert (ro + count es * 24 <= so <= ro + count es * 24 + 7) as Hso.
  { unfold so, u64. rewrite Z.mod_small by lia. apply align8_bounds; lia. }
  assert (so + plan_string_bytes p0 <= vo <= so + plan_string_bytes p0 + 7) as Hvo.
  { unfold vo, u64. rewrite Z.mod_small by lia. apply align8_bounds; lia. }
  unfold add_u64, size_max. rewrite (proj2 (Z.ltb_ge _ _)), (proj2 (Z.leb_le _ _)) by lia. cbn [guard_query answer bind_query].
  eexists. split; [done|]. split; [|done]. unfold u32. rewrite !Z.mod_small by lia.
  split; cbn -[text_bytes]; fold co ro so vo; unfold u32_max, size_max, runtime_ic_binary_header_size in *; try lia; try done.
  - split; cbn -[text_bytes]; unfold runtime_ic_binary_header_size; lia.
  - unfold vo. by rewrite Hbytes.
Qed.

(** ** The index of the strings *)

Definition slots_of (strings : list (list byte)) : list string_slot :=
  imap (fun i t => StringSlot (hash_text t) (Z.of_nat i + 1)) strings.

Lemma slots_of_snoc strings t :
  slots_of (strings ++ [t]) = slots_of strings ++ [StringSlot (hash_text t) (count strings + 1)].
Proof. unfold slots_of. rewrite imap_app. cbn. by rewrite Nat.add_0_r. Qed.

Lemma slots_of_elem s strings :
  s ∈ slots_of strings <-> exists i t, strings !! i = Some t /\ s = StringSlot (hash_text t) (Z.of_nat i + 1).
Proof.
  unfold slots_of. split.
  - intros (i & Hi)%list_elem_of_lookup. rewrite list_lookup_imap in Hi.
    destruct (strings !! i) as [t|] eqn:Ht; [|done]. cbn in Hi. injection Hi as <-. by exists i, t.
  - intros (i & t & Hi & ->). apply list_elem_of_lookup. exists i. by rewrite list_lookup_imap, Hi.
Qed.

Record index_ok (p : runtime_ic_binary_plan) : Prop := IndexOk {
  index_table : table_ok vacant_slot slot_occupied slot_hash (plan_string_index p);
  index_entries : entries slot_occupied (plan_string_index p) ≡ₚ slots_of (plan_strings p);
  index_distinct : NoDup (plan_strings p);
  index_nonempty : Forall (fun t => t <> []) (plan_strings p);
  index_bytes : plan_string_bytes p = blen (text_bytes (plan_strings p));
  index_bound : count (plan_strings p) <= u32_max /\ plan_string_bytes p <= u32_max
}.

Definition index_room (p : runtime_ic_binary_plan) (n : Z) : Prop := count (plan_strings p) + n < count (plan_string_index p).

Lemma index_has_room p n :
  index_ok p -> 0 <= n -> index_room p n -> has_room vacant_slot slot_occupied (plan_string_index p).
Proof.
  intros Hok Hn Hroom. apply entries_room. rewrite (index_entries p Hok). unfold slots_of. rewrite length_imap.
  unfold index_room, count in Hroom. lia.
Qed.

(** A string that is in the plan is found with its number, another one is not. *)
Lemma find_string_id_spec p value n :
  index_ok p -> 0 <= n -> index_room p n ->
  (forall i, plan_strings p !! i = Some value -> find_string_id p value = Z.of_nat i + 1) /\
  (value ∉ plan_strings p -> find_string_id p value = 0).
Proof.
  intros Hok Hn Hroom. pose proof (index_table p Hok) as Ht. pose proof (index_has_room p n Hok Hn Hroom) as Hhas.
  pose proof (index_entries p Hok) as He. unfold find_string_id. set (T := plan_string_index p) in *.
  rewrite bool_decide_eq_false_2 by (intros E; unfold index_room in Hroom; fold T in Hroom; rewrite E in Hroom;
    pose proof (counts_nonneg (plan_strings p)); change (count []) with 0 in Hroom; lia).
  set (matches := fun s => _). rewrite home_mod by apply Ht.
  destruct (search_spec vacant_slot slot_occupied slot_hash T matches (Z.to_nat (u64 (hash_text value))) Ht Hhas)
    as (x & Hprobe & Hx).
  { intros s _ Hm. unfold matches in Hm. unfold home_of. unbool. congruence. }
  cbv zeta. rewrite Hprobe. change (T !!! (x mod length T)%nat) with (cell vacant_slot T x).
  assert (forall i, plan_strings p !! i = Some value -> matches (StringSlot (hash_text value) (Z.of_nat i + 1)) = true) as Hmatch.
  { intros i Hi. unfold matches. cbn [slot_hash slot_id]. pose proof (lookup_lt_Some _ _ _ Hi).
    rewrite Z.eqb_refl, (proj2 (Z.leb_le _ _)) by lia. cbn [andb]. apply bool_decide_eq_true_2.
    by replace (Z.to_nat (Z.of_nat i + 1 - 1)) with i by lia. }
  destruct Hx as [[Hbusy Hm]|[Hfree [Hnone _]]].
  - assert (plan_strings p !! Z.to_nat (slot_id (cell vacant_slot T x) - 1) = Some value /\ slot_id (cell vacant_slot T x) <> 0 /\
      exists i, slot_id (cell vacant_slot T x) = Z.of_nat i + 1) as (Hlookup & Hid & i & Hi).
    { unfold matches in Hm. unbool. split; [done|]. unfold busy, slot_occupied in Hbusy. unbool. split; [done|].
      assert (cell vacant_slot T x ∈ entries slot_occupied T) as Hin.
      { apply (elem_of_entries vacant_slot slot_occupied); [by eapply sized_pos, Ht|]. exists x. split; [done|].
        unfold busy, slot_occupied. by rewrite (proj2 (Z.eqb_neq _ _)). }
      rewrite He, slots_of_elem in Hin. destruct Hin as (i & t & _ & ->). by exists i. }
    rewrite Hi in Hlookup |- *. replace (Z.to_nat (Z.of_nat i + 1 - 1)) with i in Hlookup by lia. split.
    + intros j Hj. pose proof (NoDup_lookup _ _ _ _ (index_distinct p Hok) Hlookup Hj). lia.
    + intros Hnot. destruct Hnot. by eapply list_elem_of_lookup_2.
  - assert (slot_id (cell vacant_slot T x) = 0) as ->.
    { unfold busy, slot_occupied in Hfree. destruct (Z.eqb_spec (slot_id (cell vacant_slot T x)) 0); [done|]. by destruct Hfree. }
    split; [|done]. intros i Hi. exfalso. specialize (Hmatch i Hi).
    rewrite Hnone in Hmatch; [done|]. rewrite He. apply slots_of_elem. by exists i, value.
Qed.

(** ** Appending *)

Lemma append_string_spec p value n :
  index_ok p -> 1 <= n -> index_room p n ->
  answers (append_string p value) (fun p' =>
    index_ok p' /\ index_room p' (n - 1) /\ value ∈ plan_strings p' /\ plan_strings p ⊆ plan_strings p' /\ value <> []).
Proof.
  intros Hok Hn Hroom. unfold append_string. outcome_steps. unbool.
  destruct (find_string_id_spec p value n Hok) as [Hfound Hmissing]; [lia|done|].
  destruct (decide (value ∈ plan_strings p)) as [Hin|Hnew].
  { pose proof Hin as (i & Hi)%list_elem_of_lookup. rewrite (Hfound i Hi), (proj2 (Z.eqb_neq _ _)) by lia. cbn [negb].
    apply answers_answer. split; [done|]. split; [unfold index_room in *; lia|done]. }
  rewrite (Hmissing Hnew). cbn [negb Z.eqb]. outcome_steps. fold (count (plan_strings p)) (blen value) in *.
  pose proof (index_bytes p Hok) as Hb. pose proof (blen_nonneg (text_bytes (plan_strings p))). pose proof (blen_nonneg value).
  destruct (add_u64 _ _) as [bytes|] eqn:Eb; outcome_steps. unfold add_u64 in Eb. destruct (size_max - _ <? _); [done|]. injection Eb as <-.
  pose proof (counts_nonneg (plan_strings p)). unfold u32_max in *. unbool. unfold u32. rewrite Z.mod_small by lia.
  destruct (insert_slot_spec vacant_slot slot_occupied slot_hash (plan_string_index p)
    (StringSlot (hash_text value) (count (plan_strings p) + 1))) as (T' & -> & HT & Hl & He).
  { apply (index_table p Hok). } { by eapply index_has_room; [| |apply Hroom]; [|lia]. }
  { unfold slot_occupied. cbn. rewrite (proj2 (Z.eqb_neq _ _)); [done|lia]. }
  apply answers_answer. split; [split; cbn [plan_string_index plan_strings plan_string_bytes]|].
  - done.
  - rewrite He, slots_of_snoc, (index_entries p Hok). by rewrite Permutation_app_comm.
  - apply NoDup_app. split; [apply (index_distinct p Hok)|]. split; [|apply NoDup_singleton].
    intros x Hx ->%list_elem_of_singleton. done.
  - apply Forall_app. split; [apply (index_nonempty p Hok)|by constructor].
  - unfold text_bytes. rewrite bind_app, blen_app. cbn. rewrite app_nil_r. fold (text_bytes (plan_strings p)). by rewrite Hb.
  - rewrite counts_app. change (count [value]) with 1. unfold u32_max. lia.
  - unfold index_room in *. cbn [plan_string_index plan_strings]. rewrite counts_app. change (count [value]) with 1.
    unfold count in *. rewrite Hl. split; [lia|]. split; [set_solver|]. split; [set_solver|done].
Qed.

Lemma append_strings_spec values p n :
  index_ok p -> count values <= n -> index_room p n ->
  answers (append_strings p values) (fun p' =>
    index_ok p' /\ index_room p' (n - count values) /\ values ⊆ plan_strings p' /\ plan_strings p ⊆ plan_strings p').
Proof.
  revert p n. induction values as [|value values IH]; intros p n Hok Hn Hroom; cbn [append_strings]; outcome_steps.
  { change (count []) with 0. rewrite Z.sub_0_r. split; [done|]. split; [done|set_solver]. }
  rewrite count_cons in *. pose proof (counts_nonneg values).
  eapply answers_mono; [eapply (append_string_spec p value n); [done|lia|done]|].
  intros p' (Hok' & Hroom' & Hin & Hsub & _).
  eapply answers_mono; [eapply (IH p' (n - 1)); [done|lia|done]|]. cbv beta. intros p'' (Hok'' & Hroom'' & Hin' & Hsub').
  split; [done|]. split; [by replace (n - (1 + count values)) with (n - 1 - count values) by lia|]. set_solver.
Qed.

Definition source_components (r : runtime_ic_record_source) : list (list byte) :=
  path_object (source_path r) ++ path_members (source_path r).

Lemma append_records_spec records p n :
  index_ok p -> count (records ≫= source_components) <= n -> index_room p n ->
  answers (append_records p records) (fun p' =>
    index_ok p' /\ index_room p' (n - count (records ≫= source_components)) /\
    (records ≫= source_components) ⊆ plan_strings p' /\ plan_strings p ⊆ plan_strings p').
Proof.
  revert p n. induction records as [|r records IH]; intros p n Hok Hn Hroom; cbn [append_records]; outcome_steps.
  { change (count ([] ≫= source_components)) with 0. rewrite Z.sub_0_r. split; [done|]. split; [done|]. split; [set_solver|done]. }
  rewrite bind_cons, counts_app in *. unfold source_components in Hn at 1. unfold source_components at 1 3. rewrite counts_app in *.
  set (rest := count (records ≫= source_components)) in *.
  pose proof (counts_nonneg (path_object (source_path r))). pose proof (counts_nonneg (path_members (source_path r))).
  pose proof (counts_nonneg (records ≫= source_components)) as Hrest. fold rest in Hrest.
  eapply answers_mono; [eapply (append_strings_spec (path_object (source_path r)) p n); [done|lia|done]|].
  intros p1 (Hok1 & Hroom1 & Hin1 & Hsub1). outcome_steps.
  eapply answers_mono; [eapply (append_strings_spec (path_members (source_path r)) p1); [done| |done]; lia|].
  intros p2 (Hok2 & Hroom2 & Hin2 & Hsub2).
  eapply answers_mono; [eapply (IH p2); [done| |done]; lia|]. cbv beta. intros p3 (Hok3 & Hroom3 & Hin3 & Hsub3).
  split; [done|]. split; [match goal with H : index_room p3 ?a |- index_room p3 ?b => by replace b with a by lia end|].
  set_solver.
Qed.

(** ** Reading an image *)

(** [n] components from [begin] on, as texts. *)
Definition decode_path (w : runtime_ic_binary_view) (begin : Z) (n : nat) : option (list (list byte)) :=
  mapM (fun i => id ← ic_component w (begin + Z.of_nat i); ic_string w id) (seq 0 n).

Definition decode_record (w : runtime_ic_binary_view) (index : Z)
  : option (list (list byte) * list (list byte) * intrinsic_type * list byte) :=
  found ← ic_record w index;
  r ← found;
  object ← decode_path w (record_object_begin r) (Z.to_nat (record_object_count r));
  members ← decode_path w (record_member_begin r) (Z.to_nat (record_member_count r));
  Some (object, members, record_type r, record_value r).

(** A local number and the string it stands for. *)
Definition names (strings : list (list byte)) (i : Z) (name : list byte) : Prop :=
  0 < i /\ strings !! Z.to_nat (i - 1) = Some name.

Lemma count_nat {A} (l : list A) : Z.to_nat (count l) = length l.
Proof. apply Nat2Z.id. Qed.

Section Decode.
Context (p : runtime_ic_binary_plan) (es : list ic_entry) (Hp : plan_of p es) (Hc : contents_ok p es).

Lemma decode_path_spec ids texts a b :
  entries_ids es = a ++ ids ++ b -> Forall2 (names (plan_strings p)) ids texts ->
  decode_path (format_view p es) (count a) (length ids) = Some texts.
Proof.
  intros E Hnames. unfold decode_path. apply mapM_Some_2, Forall2_same_length_lookup.
  split; [by rewrite length_seq, (Forall2_length _ _ _ Hnames)|]. intros k j text Hj Ht.
  apply lookup_seq in Hj as [-> Hk]. destruct (Forall2_lookup_r _ _ _ _ _ Hnames Ht) as (i & Hi & Hpos & Hs).
  rewrite <- (take_drop_middle _ _ _ Hi), <- app_assoc, (app_assoc a) in E.
  pose proof (component_read p es Hp Hc _ _ _ E) as Hread.
  assert (count (a ++ take k ids) = count a + Z.of_nat (0 + k)) as Hcount by (rewrite counts_app; unfold count; rewrite length_take; lia).
  rewrite Hcount in Hread. rewrite Hread. cbn [mbind option_bind].
  pose proof (lookup_lt_Some _ _ _ Hs). pose proof (take_drop_middle _ _ _ Hs) as Hm.
  rewrite <- (string_read p es Hp _ _ _ (eq_sym Hm)). f_equal. unfold count. rewrite length_take. lia.
Qed.

Lemma decode_record_spec a e b object members :
  es = a ++ e :: b -> Forall2 (names (plan_strings p)) (entry_object e) object ->
  Forall2 (names (plan_strings p)) (entry_members e) members ->
  decode_record (format_view p es) (count a) =
    Some (object, members, scalar_type (entry_value e), scalar_content (entry_value e)).
Proof.
  intros E Ho Hm. unfold decode_record. rewrite (record_read p es Hp Hc a e b E). cbn [mbind option_bind].
  cbn [record_object_begin record_object_count record_member_begin record_member_count record_type record_value].
  assert (entries_ids es = entries_ids a ++ entry_object e ++ (entry_members e ++ entries_ids b)) as Eids.
  { rewrite E at 1. unfold entries_ids. rewrite bind_app, bind_cons, <- !app_assoc. done. }
  rewrite !count_nat, (decode_path_spec _ _ _ _ Eids Ho). cbn [mbind option_bind].
  rewrite (app_assoc (entries_ids a)) in Eids. rewrite <- counts_app.
  by rewrite (decode_path_spec _ _ _ _ Eids Hm).
Qed.
End Decode.

(** ** From paths *)

(** The values of the sources are in arrays of sixteen bytes; their sizes are unsigned. *)
Definition arrays_ok (records : list runtime_ic_record_source) : Prop :=
  Forall (fun r => 0 <= scalar_size (source_value r) /\ length (scalar_bytes (source_value r)) = 16%nat) records.

Definition entries_of (p : runtime_ic_binary_plan) (records : list runtime_ic_record_source) : list ic_entry :=
  (fun r => Entry (find_string_id p <$> path_object (source_path r)) (find_string_id p <$> path_members (source_path r))
     (source_value r)) <$> records.

Definition source_values (records : list runtime_ic_record_source) : list byte :=
  records ≫= fun r => scalar_content (source_value r).

Lemma entries_of_ids p records : entries_ids (entries_of p records) = find_string_id p <$> (records ≫= source_components).
Proof.
  induction records as [|r records IH]; [done|]. unfold entries_ids, entries_of in *. rewrite fmap_cons, !bind_cons, fmap_app, IH.
  cbn [entry_object entry_members]. unfold source_components. by rewrite fmap_app.
Qed.

Lemma entries_of_values p records : entries_values (entries_of p records) = source_values records.
Proof.
  induction records as [|r records IH]; [done|]. unfold entries_values, source_values, entries_of in *.
  by rewrite fmap_cons, !bind_cons, IH.
Qed.

Lemma count_fmap {A B} (f : A -> B) l : count (f <$> l) = count l.
Proof. unfold count. by rewrite length_fmap. Qed.

Definition source_valid (r : runtime_ic_record_source) : Prop :=
  path_object (source_path r) <> [] /\ scalar_ok (source_value r).

Lemma count_records_spec records c v :
  arrays_ok records -> 0 <= c -> 0 <= v ->
  answers (count_records records c v) (fun totals =>
    totals.1 = c + count (records ≫= source_components) /\ totals.2 = v + blen (source_values records) /\
    (c <= u32_max -> totals.1 <= u32_max) /\ (v <= u32_max -> totals.2 <= u32_max) /\ Forall source_valid records).
Proof.
  intros Harrays. revert c v. induction Harrays as [|r records [Hsize Hl] _ IH]; intros c v Hc Hv; cbn [count_records].
  { apply answers_answer. cbn [fst snd]. change (count ([] ≫= source_components)) with 0.
    change (blen (source_values [])) with 0. rewrite !Z.add_0_r. done. }
  outcome_steps. unbool. fold (count (path_object (source_path r))) (count (path_members (source_path r))).
  destruct (count_record _ _ _ _ _) as [[c' v']|] eqn:E; [|apply answers_refuse].
  assert (scalar_ok (source_value r)) as Hok by done.
  assert (c' = c + count (source_components r) /\ v' = v + scalar_size (source_value r) /\ c' <= u32_max /\ v' <= u32_max)
    as (-> & -> & Hcmax & Hvmax).
  { unfold count_record, add_u64 in E. unfold source_components. rewrite counts_app.
    repeat match type of E with
    | context [if ?b then None else _] => destruct b eqn:?; [done|]; cbn [mbind option_bind] in E
    end.
    simplify_eq. unbool. lia. }
  pose proof (counts_nonneg (source_components r)).
  eapply answers_mono; [apply IH; lia|]. cbv beta. intros totals (T1 & T2 & T3 & T4 & Hall).
  rewrite bind_cons, counts_app. change (source_values (r :: records)) with (scalar_content (source_value r) ++ source_values records).
  rewrite blen_app, blen_scalar_content by done. split; [lia|]. split; [lia|]. split; [auto|]. split; [auto|]. by constructor.
Qed.

(** A plan that was prepared: its strings are the components, each found with its number. *)
Record prepared (records : list runtime_ic_record_source) (p : runtime_ic_binary_plan) : Prop := Prepared {
  prepared_plan : plan_of p (entries_of p records);
  prepared_index : index_ok p;
  prepared_room : index_room p 0;
  prepared_components : (records ≫= source_components) ⊆ plan_strings p;
  prepared_sources : Forall source_valid records
}.

Lemma find_same p p' value :
  plan_strings p' = plan_strings p -> plan_string_index p' = plan_string_index p ->
  find_string_id p' value = find_string_id p value.
Proof. intros Hs Hi. unfold find_string_id. by rewrite Hs, Hi. Qed.

Lemma new_index_ok k : 3 <= k <= 63 ->
  index_ok (new_plan (replicate (Z.to_nat (2 ^ k)) vacant_slot) []).
Proof.
  intros Hk. destruct (vacant_table vacant_slot slot_occupied slot_hash eq_refl k) as [Ht He]; [lia|].
  split; cbn [plan_string_index plan_strings plan_string_bytes new_plan]; [done|by rewrite He|constructor|constructor|done|done].
Qed.

Lemma index_ok_same p p' :
  plan_strings p' = plan_strings p -> plan_string_index p' = plan_string_index p ->
  plan_string_bytes p' = blen (text_bytes (plan_strings p')) -> index_ok p -> index_ok p'.
Proof.
  intros Hs Hi Hb [H1 H2 H3 H4 H5 H6]. split; rewrite ?Hs, ?Hi; try done; [by rewrite Hb, Hs|].
  by rewrite Hb, Hs, <- H5.
Qed.

Lemma prepare_spec reserved records :
  arrays_ok records -> answers (prepare_runtime_ic_binary reserved records) (prepared records).
Proof.
  intros Harrays. unfold prepare_runtime_ic_binary. outcome_steps. unbool.
  eapply answers_mono; [by apply count_records_spec|]. cbv beta. intros totals (T1 & T2 & T3 & T4 & Hall).
  rewrite Z.add_0_l in T1, T2. pose proof (counts_nonneg (records ≫= source_components)).
  pose proof (blen_nonneg (source_values records)). unfold u32_max in *.
  rewrite (proj2 (Z.ltb_ge _ _)) by (change (size_max / 2) with (2 ^ 63 - 1); lia).
  unfold u64. rewrite Z.mod_small by lia.
  destruct (next_power_of_two_spec (totals.1 * 2)) as (k & Hk & -> & Hle); [lia|]. outcome_steps.
  eapply answers_mono; [apply (append_records_spec records _ (count (records ≫= source_components)));
    [by apply new_index_ok|lia|]|].
  { unfold index_room. cbn [plan_strings plan_string_index new_plan]. unfold count at 3. rewrite length_replicate.
    change (count []) with 0. assert (2 ^ 3 <= 2 ^ k) by (apply Z.pow_le_mono_r; lia). lia. }
  cbv beta. intros p0 (Hok & Hroom & Hin & _). rewrite Z.sub_diag in Hroom.
  destruct (index_bound p0 Hok) as [Hs Hb]. pose proof (index_bytes p0 Hok) as Hbytes.
  assert (count (entries_ids (entries_of p0 records)) = count (records ≫= source_components)) as Hids
    by by rewrite entries_of_ids, count_fmap.
  assert (count (entries_of p0 records) = count records) as Hcount by apply count_fmap.
  destruct (place_parts_spec p0 (entries_of p0 records)) as (p & Hplace & Hplan & Es & Ei & _); [done|done|..].
  { rewrite Hids. unfold u32_max. lia. }
  { rewrite Hcount. unfold u32_max, count. lia. }
  { by rewrite <- Hbytes. }
  { rewrite entries_of_values. unfold u32_max. lia. }
  rewrite Hids, Hcount, entries_of_values, <- T1, <- T2 in Hplace. fold (count records). rewrite Hplace. apply answers_answer.
  assert (entries_of p records = entries_of p0 records) as Ee.
  { unfold entries_of. apply list_fmap_ext. intros i r _. f_equal; apply list_fmap_ext; intros; by apply find_same. }
  split; [by rewrite Ee| | |by rewrite Es|done].
  - eapply index_ok_same; [done|done| |done]. apply (of_string_bytes _ _ Hplan).
  - unfold index_room. by rewrite Es, Ei.
Qed.

Definition paths_short (records : list runtime_ic_record_source) : Prop :=
  Forall (fun r => count (path_object (source_path r)) <= u16_max /\ count (path_members (source_path r)) <= u16_max) records.

Section Prepared.
Context (records : list runtime_ic_record_source) (p : runtime_ic_binary_plan) (Hp : prepared records p).
Context (Hshort : paths_short records).

Lemma found_names t : t ∈ plan_strings p -> names (plan_strings p) (find_string_id p t) t /\ find_string_id p t <= count (plan_strings p).
Proof.
  intros (i & Hi)%list_elem_of_lookup. destruct (find_string_id_spec p t 0) as [Hf _]; [apply Hp|lia|apply Hp|].
  rewrite (Hf i Hi). pose proof (lookup_lt_Some _ _ _ Hi). split; [|unfold count; lia]. split; [lia|].
  by replace (Z.to_nat (Z.of_nat i + 1 - 1)) with i by lia.
Qed.

Lemma record_components r t : r ∈ records -> t ∈ source_components r -> t ∈ plan_strings p.
Proof.
  intros Hr Ht. apply (prepared_components _ _ Hp). apply list_elem_of_bind. by exists r.
Qed.

Lemma components_names ts : ts ⊆ plan_strings p -> Forall2 (names (plan_strings p)) (find_string_id p <$> ts) ts.
Proof.
  intros Hts. apply Forall2_fmap_l. apply Forall_Forall2_diag, Forall_forall. intros t Ht. by apply found_names, Hts.
Qed.

Lemma components_finds limit ts : ts ⊆ plan_strings p -> finds (fun _ => find_string_id p) limit ts (find_string_id p <$> ts).
Proof.
  intros Hts. apply Forall2_fmap_r. apply Forall_Forall2_diag, Forall_forall. intros t Ht.
  destruct (found_names t) as [[H _] _]; [by apply Hts|]. split; [done|lia].
Qed.

Lemma record_parts r : r ∈ records ->
  path_object (source_path r) ⊆ plan_strings p /\ path_members (source_path r) ⊆ plan_strings p.
Proof.
  intros Hr. split; intros t Ht; apply (record_components r t Hr); unfold source_components; apply elem_of_app; auto.
Qed.

Lemma sources_entries limit :
  Forall2 (entry_of (fun _ => find_string_id p) limit source_parts) records (entries_of p records).
Proof.
  apply Forall2_fmap_r. apply Forall_Forall2_diag, Forall_forall. intros r Hr.
  destruct (record_parts r Hr) as [Ho Hm].
  pose proof (prepared_sources _ _ Hp) as Hall. rewrite Forall_forall in Hall. destruct (Hall r Hr) as [Hne Hs].
  pose proof Hshort as Hlen. unfold paths_short in Hlen. rewrite Forall_forall in Hlen. destruct (Hlen r Hr) as [Hlo Hlm].
  exists (path_object (source_path r)), (path_members (source_path r)). split; [|split; [|split]].
  - unfold source_parts. fold (count (path_object (source_path r))) (count (path_members (source_path r))).
    rewrite bool_decide_eq_false_2, !(proj2 (Z.leb_le _ _)) by done. cbn [negb andb entry_value].
    by destruct Hs as [-> _].
  - by apply components_finds.
  - by apply components_finds.
  - done.
Qed.

Lemma prepared_contents : contents_ok p (entries_of p records).
Proof.
  split.
  - apply (index_nonempty p), Hp.
  - rewrite entries_of_ids. apply Forall_fmap, Forall_forall. intros t Ht. cbn.
    destruct (found_names t) as [[H _] Hle]; [by apply (prepared_components _ _ Hp)|]. lia.
  - apply Forall_fmap, Forall_forall. intros r Hr. unfold compose. cbn [entry_object entry_members entry_value].
    pose proof (prepared_sources _ _ Hp) as Hall. rewrite Forall_forall in Hall. destruct (Hall r Hr) as [Hne Hs].
    pose proof Hshort as Hlen. unfold paths_short in Hlen. rewrite Forall_forall in Hlen. destruct (Hlen r Hr) as [Hlo Hlm].
    rewrite !count_fmap. split; [by intros ?%fmap_nil_inv|done].
Qed.

Lemma prepared_decodes i r :
  records !! i = Some r ->
  decode_record (format_view p (entries_of p records)) (Z.of_nat i) =
    Some (path_object (source_path r), path_members (source_path r), scalar_type (source_value r), scalar_content (source_value r)).
Proof.
  intros Hi. assert (r ∈ records) as Hr by by eapply list_elem_of_lookup_2.
  destruct (record_parts r Hr) as [Ho Hm]. pose proof (lookup_lt_Some _ _ _ Hi).
  pose proof (take_drop_middle _ _ _ Hi) as E. apply (f_equal (entries_of p)) in E.
  unfold entries_of at 1 in E. rewrite fmap_app, fmap_cons in E.
  set (e := Entry _ _ _) in E.
  assert (count ((fun r => Entry (find_string_id p <$> path_object (source_path r)) (find_string_id p <$> path_members (source_path r))
     (source_value r)) <$> take i records) = Z.of_nat i) as <-.
  { rewrite count_fmap. unfold count. rewrite length_take. lia. }
  rewrite (decode_record_spec p _ (prepared_plan _ _ Hp) prepared_contents _ e _ _ _ (eq_sym E)
    (components_names _ Ho) (components_names _ Hm)). done.
Qed.
End Prepared.

(** What is prepared is encoded as its image, which the view accepts. *)
Lemma prepared_image records p :
  prepared records p -> paths_short records ->
  encode_runtime_ic_binary records p (plan_size p) = Some (inr (ic_format p (entries_of p records))) /\
  ic_bind (ic_format p (entries_of p records)) = Some (inr (format_view p (entries_of p records))).
Proof.
  intros Hp Hshort. pose proof (prepared_plan _ _ Hp) as Hplan. pose proof (prepared_contents records p Hp Hshort) as Hcontents.
  split; [|by apply bind_accepts].
  unfold encode_runtime_ic_binary. fold (count records). rewrite (of_record_count _ _ Hplan). unfold entries_of at 1.
  rewrite count_fmap, !Z.eqb_refl. pose proof (placed_end p (of_placed _ _ Hplan)). pose proof (plan_bounds _ _ Hplan).
  rewrite (proj2 (Z.eqb_neq (plan_size p) 0)) by lia. cbn [negb andb guard_query answer bind_query].
  apply (encode_spec p (entries_of p records) Hplan (fun _ => find_string_id p) source_parts records true).
  by apply sources_entries.
Qed.

(** A snapshot goes through its binary image: whenever the preparation of a plan
    succeeds and no path is longer than its 16-bit count can say, the encoder fills exactly
    the planned size without leaving the output, the view accepts the image, and every
    record is read back with its path, its type and the bytes of its value. *)
Theorem ic_binary_roundtrip reserved records p :
  arrays_ok records -> paths_short records -> prepare_runtime_ic_binary reserved records = Some (inr p) ->
  exists image w, encode_runtime_ic_binary records p (plan_size p) = Some (inr image) /\
    Z.of_nat (length image) = plan_size p /\ ic_bind image = Some (inr w) /\
    ic_record_count w = Z.of_nat (length records) /\
    forall i r, records !! i = Some r ->
      decode_record w (Z.of_nat i) =
        Some (path_object (source_path r), path_members (source_path r), scalar_type (source_value r),
              scalar_content (source_value r)).
Proof.
  intros Harrays Hshort Hprepare. destruct (prepare_spec reserved records Harrays) as (o & Ho & Hp).
  rewrite Hprepare in Ho. injection Ho as <-. specialize (Hp _ eq_refl). pose proof (prepared_plan _ _ Hp) as Hplan.
  exists (ic_format p (entries_of p records)), (format_view p (entries_of p records)).
  destruct (prepared_image records p Hp Hshort) as [Hencode Hbind]. split; [done|]. split; [by apply format_size|].
  split; [done|]. split; [cbn; apply count_fmap|]. intros i r. by apply prepared_decodes.
Qed.

(** Two records that share components. *)
Definition sample_records : list runtime_ic_record_source :=
  [RecordSource (PathView [str "a"; str "y"] [str "x"; str "a"])
     (ScalarValue signed_int 4 ([x01; x02; x03; x04] ++ replicate 12 x00));
   RecordSource (PathView [str "y"] []) (ScalarValue bool_type 1 (x01 :: replicate 15 x00))].

Lemma ic_binary_roundtrip_witness :
  match prepare_runtime_ic_binary true sample_records with
  | Some (inr p) =>
      exists image w, encode_runtime_ic_binary sample_records p (plan_size p) = Some (inr image) /\
        ic_bind image = Some (inr w) /\
        decode_record w 0 = Some ([str "a"; str "y"], [str "x"; str "a"], signed_int, [x01; x02; x03; x04])
  | _ => False
  end.
Proof.
  destruct (prepare_runtime_ic_binary true sample_records) as [[r|p]|] eqn:E; [vm_compute in E; discriminate E| |vm_compute in E; discriminate E].
  destruct (ic_binary_roundtrip true sample_records p) as (image & w & H1 & _ & H2 & _ & H3).
  - repeat constructor; discriminate.
  - repeat constructor; discriminate.
  - exact E.
  - exists image, w. split; [exact H1|]. split; [exact H2|]. exact (H3 0%nat _ eq_refl).
Defined.

Section Native.
Context (v : compiled_view) (Hv : view_ok v).

Lemma string_count_unsigned : 0 <= string_count_value v.
Proof.
  rewrite <- (ok_string_core v Hv). destruct (ok_section v Hv sec_string_core) as (last & Hfits).
  unfold section_fits in Hfits. destruct_and?. naive_solver lia.
Qed.

Lemma view_string_size id text : view_string v id = Some text -> blen text < 2 ^ 32.
Proof.
  unfold view_string. destruct (_ || _); [by intros [= <-]|].
  intros (record & _ & (offset & _ & (size & Hsize & H)%bind_Some)%bind_Some)%bind_Some.
  apply get_u32_word in Hsize. cbv zeta in H. destruct (_ || _); [by simplify_eq|].
  unfold get_text in H. apply bind_Some in H as (data & _ & (image & _ & H)%bind_Some).
  apply bytes_at_length in H as [Hl _]. unfold blen. lia.
Qed.

(** The number of a string in the plan, if it has one. *)
Record strings_ok (p : runtime_ic_binary_plan) : Prop := StringsOk {
  local_length : Z.of_nat (length (plan_source_string_to_local p)) = string_count_value v + 1;
  local_names : forall id local, plan_source_string_to_local p !! id = Some local -> local <> 0 ->
    exists text, view_string v (Z.of_nat id) = Some text /\ names (plan_strings p) local text /\ local <= count (plan_strings p);
  strings_nonempty : Forall (fun t => t <> []) (plan_strings p);
  strings_bytes : plan_string_bytes p = blen (text_bytes (plan_strings p));
  strings_bound : count (plan_strings p) <= u32_max /\ plan_string_bytes p <= u32_max
}.

Definition known (p : runtime_ic_binary_plan) (id : string_id) : Prop :=
  id <> 0 /\ exists local, plan_source_string_to_local p !! Z.to_nat id = Some local /\ local <> 0.

Lemma names_snoc strings i name t : names strings i name -> names (strings ++ [t]) i name.
Proof. intros [H0 H]. split; [done|]. by apply lookup_app_l_Some. Qed.

Lemma append_source_strings_spec p components :
  Forall (fun id => 0 <= id) components -> strings_ok p ->
  answers (append_source_strings v p components) (fun p' =>
    strings_ok p' /\ Forall (known p') components /\ forall id, known p id -> known p' id).
Proof.
  intros Hpos. revert p. induction Hpos as [|id components Hid _ IH]; intros p Hok; cbn [append_source_strings].
  { by apply answers_answer. }
  destruct (plan_source_string_to_local p !! Z.to_nat id) as [local|] eqn:Hl; [|apply answers_refuse].
  outcome_steps. unbool. destruct (Z.eqb_spec local 0) as [->|Hlocal]; cbn [negb].
  2: { eapply answers_mono; [by apply IH|]. cbv beta. intros p' (Hok' & Hall & Hmono). split; [done|]. split; [|done].
       constructor; [|done]. apply Hmono. split; [done|]. by exists local. }
  outcome_steps. destruct (view_string_some v Hv id Hid) as (text & Ht). rewrite Ht. outcome_steps. unbool.
  fold (blen text) in *. fold (count (plan_strings p)) in *. pose proof (view_string_size id text Ht). pose proof (blen_nonneg text).
  pose proof (blen_nonneg (text_bytes (plan_strings p))). pose proof (counts_nonneg (plan_strings p)).
  pose proof (strings_bytes p Hok) as Hb. unfold u32_max, u64 in *. rewrite Z.mod_small in * by lia.
  fold (count (plan_strings p ++ [text])). rewrite counts_app. change (count [text]) with 1.
  unfold u32. rewrite !Z.mod_small by lia.
  pose proof (lookup_lt_Some _ _ _ Hl) as Hlt.
  match goal with |- answers (append_source_strings v ?q _) _ => assert (strings_ok q) as Hq end.
  { split; cbn [plan_source_string_to_local plan_strings plan_string_bytes].
    - rewrite length_insert. apply (local_length p Hok).
    - intros i l Hi Hne. apply list_lookup_insert_Some in Hi as [(<- & <- & _)|(Hi & Hlookup)].
      + exists text. rewrite Z2Nat.id by lia. split; [done|]. rewrite counts_app. change (count [text]) with 1. split; [|lia].
        split; [lia|]. rewrite lookup_app_r by (unfold count; lia). unfold count.
        by replace (Z.to_nat (Z.of_nat (length (plan_strings p)) + 1 - 1) - length (plan_strings p))%nat with 0%nat by lia.
      + destruct (local_names p Hok i l Hlookup Hne) as (t & ? & ? & ?). exists t. split; [done|].
        split; [by apply names_snoc|]. rewrite counts_app. pose proof (counts_nonneg [text]). lia.
    - apply Forall_app. split; [apply (strings_nonempty p Hok)|by constructor].
    - unfold text_bytes. rewrite bind_app, blen_app. cbn. rewrite app_nil_r. fold (text_bytes (plan_strings p)). by rewrite Hb.
    - rewrite counts_app. change (count [text]) with 1. unfold u32_max. lia. }
  eapply answers_mono; [by apply IH|]. cbv beta. intros p' (Hok' & Hall & Hmono). split; [done|].
  assert (forall i, known p i \/ i = id -> known p' i) as Hknown.
  { intros i Hi. apply Hmono. destruct Hi as [[Hne (l & Hll & Hl0)]| ->].
    - split; [done|]. cbn. destruct (decide (Z.to_nat i = Z.to_nat id)) as [E|E].
      + exists (count (plan_strings p) + 1). rewrite E, list_lookup_insert_eq by done. split; [done|lia].
      + exists l. by rewrite list_lookup_insert_ne.
    - split; [done|]. cbn. exists (count (plan_strings p) + 1). rewrite list_lookup_insert_eq by done. split; [done|lia]. }
  split; [constructor; [by apply Hknown; right|done]|]. intros i Hi. apply Hknown. by left.
Qed.

(** ** The records *)

(** The fields of a record have their widths, its value is in an array of sixteen bytes. *)
Definition native_fields (r : runtime_ic_native_record_source) : Prop :=
  0 <= native_object_begin r /\ 0 <= native_member_begin r /\ 0 <= native_object_count r <= u16_max /\
  0 <= native_member_count r <= u16_max /\ 0 <= scalar_size (native_value r) /\ length (scalar_bytes (native_value r)) = 16%nat.

Section Source.
Context (components : list string_id) (records : list runtime_ic_native_record_source).

Definition object_of (r : runtime_ic_native_record_source) : list string_id :=
  sublist (native_object_begin r) (native_object_count r) components.
Definition members_of (r : runtime_ic_native_record_source) : list string_id :=
  sublist (native_member_begin r) (native_member_count r) components.

Definition local_of (p : runtime_ic_binary_plan) (id : string_id) : Z :=
  default 0 (plan_source_string_to_local p !! Z.to_nat id).

Definition native_entries (p : runtime_ic_binary_plan) (rs : list runtime_ic_native_record_source) : list ic_entry :=
  (fun r => Entry (local_of p <$> object_of r) (local_of p <$> members_of r) (native_value r)) <$> rs.

Lemma count_sublist begin n : 0 <= begin -> 0 <= n -> begin + n <= count components -> count (sublist begin n components) = n.
Proof. intros. unfold sublist, count in *. rewrite length_take, length_drop. lia. Qed.

Lemma sublist_incl begin n : sublist begin n components ⊆ components.
Proof.
  intros x Hx. unfold sublist in Hx. apply (subseteq_take _ _) in Hx. by apply (subseteq_drop _ _) in Hx.
Qed.

(** A record that both loops accept. *)
Definition native_ok (r : runtime_ic_native_record_source) : Prop :=
  native_fields r /\ native_record_valid components r = true.

Lemma native_counts r : native_ok r ->
  count (object_of r) = native_object_count r /\ count (members_of r) = native_member_count r /\
  0 < native_object_count r /\ scalar_ok (native_value r).
Proof.
  intros [(? & ? & ? & ? & ? & ?) Hvalid]. unfold native_record_valid in Hvalid. fold (count components) in Hvalid. unbool.
  split; [by apply count_sublist; lia|]. split; [by apply count_sublist; lia|]. split; [lia|done].
Qed.

Lemma count_native_records_spec p rs c n :
  Forall native_fields rs -> 0 <= c -> 0 <= n ->
  answers (count_native_records components rs c n) (fun totals =>
    totals.1 = c + count (entries_ids (native_entries p rs)) /\
    totals.2 = n + blen (entries_values (native_entries p rs)) /\
    (c <= u32_max -> totals.1 <= u32_max) /\ (n <= u32_max -> totals.2 <= u32_max) /\ Forall native_ok rs).
Proof.
  intros Hfields. revert c n. induction Hfields as [|r rs Hr _ IH]; intros c n Hc Hn; cbn [count_native_records].
  { apply answers_answer. cbn [fst snd]. change (count (entries_ids (native_entries p []))) with 0.
    change (blen (entries_values (native_entries p []))) with 0. rewrite !Z.add_0_r. done. }
  outcome_steps. assert (native_ok r) as Hok by done. destruct (native_counts r Hok) as (Ho & Hm & Hpos & Hs).
  destruct (count_record _ _ _ _ _) as [[c' n']|] eqn:E; [|apply answers_refuse].
  assert (c' = c + (native_object_count r + native_member_count r) /\ n' = n + scalar_size (native_value r) /\
    c' <= u32_max /\ n' <= u32_max) as (-> & -> & Hcmax & Hnmax).
  { unfold count_record, add_u64 in E.
    repeat match type of E with
    | context [if ?b then None else _] => destruct b eqn:?; [done|]; cbn [mbind option_bind] in E
    end.
    simplify_eq. unbool. lia. }
  pose proof (counts_nonneg (members_of r)). pose proof (scalar_ok_size _ Hs).
  eapply answers_mono; [apply IH; lia|]. cbv beta. intros totals (T1 & T2 & T3 & T4 & Hall).
  unfold native_entries. rewrite fmap_cons. fold (native_entries p rs). unfold entries_ids, entries_values. rewrite !bind_cons.
  cbn [entry_object entry_members entry_value]. fold (entries_ids (native_entries p rs)) (entries_values (native_entries p rs)).
  rewrite !counts_app, !count_fmap, blen_app, blen_scalar_content by done.
  split; [lia|]. split; [lia|]. split; [auto|]. split; [auto|]. by constructor.
Qed.

(** A plan that was prepared from the snapshot. *)
Record native_prepared (p : runtime_ic_binary_plan) : Prop := NativePrepared {
  native_plan : plan_of p (native_entries p records);
  native_strings : strings_ok p;
  native_known : Forall (known p) components;
  native_records : Forall native_ok records
}.

Lemma prepare_native_spec reserved :
  Forall (fun id => 0 <= id) components -> Forall native_fields records -> 0 <= string_count_value v ->
  answers (prepare_runtime_ic_binary_native v reserved components records) native_prepared.
Proof.
  intros Hids Hfields Hcount. unfold prepare_runtime_ic_binary_native. outcome_steps. unbool.
  eapply answers_mono; [apply append_source_strings_spec; [done|]|].
  { split; cbn [plan_source_string_to_local plan_strings plan_string_bytes new_plan]; [|intros i l|constructor|done|done].
    - rewrite length_replicate. lia.
    - intros [-> _]%lookup_replicate. done. }
  cbv beta. intros p0 (Hok & Hknown & _). outcome_steps.
  eapply answers_mono; [apply (count_native_records_spec p0 records 0 0); [done|lia|lia]|].
  cbv beta. intros totals (T1 & T2 & T3 & T4 & Hall). rewrite Z.add_0_l in T1, T2.
  destruct (strings_bound p0 Hok) as [Hs Hb]. pose proof (strings_bytes p0 Hok) as Hbytes.
  assert (count (native_entries p0 records) = count records) as Hn by apply count_fmap.
  destruct (place_parts_spec p0 (native_entries p0 records)) as (p & Hplace & Hplan & Es & Ei & El); [done|done|..].
  { rewrite <- T1. unfold u32_max in *. lia. }
  { rewrite Hn. done. }
  { by rewrite <- Hbytes. }
  { rewrite <- T2. unfold u32_max in *. lia. }
  rewrite Hn, <- T1, <- T2 in Hplace. fold (count records). rewrite Hplace. apply answers_answer.
  assert (native_entries p records = native_entries p0 records) as Ee by (unfold native_entries, local_of; by rewrite El).
  split; [by rewrite Ee| | |done].
  - destruct Hok as [L1 L2 L3 L4 L5]. split; rewrite ?Es, ?El; try done.
    + rewrite <- Es. apply (of_string_bytes _ _ Hplan).
    + rewrite (of_string_bytes _ _ Hplan), Es, <- L4. done.
  - unfold known. by rewrite El.
Qed.

(** ** Encoding and reading back *)

Section Prepared.
Context (p : runtime_ic_binary_plan) (Hp : native_prepared p).

Lemma known_local id : id ∈ components ->
  id <> 0 /\ plan_source_string_to_local p !! Z.to_nat id = Some (local_of p id) /\ local_of p id <> 0.
Proof.
  intros Hid. pose proof (native_known p Hp) as Hall. rewrite Forall_forall in Hall.
  destruct (Hall id Hid) as (Hne & local & Hl & Hlocal). unfold local_of. by rewrite Hl.
Qed.

Lemma components_named (Hpos : Forall (fun id => 0 <= id) components) id : id ∈ components ->
  exists text, view_string v id = Some text /\ names (plan_strings p) (local_of p id) text /\
    local_of p id <= count (plan_strings p).
Proof.
  intros Hid. destruct (known_local id Hid) as (_ & Hl & Hne). rewrite Forall_forall in Hpos.
  pose proof (local_names p (native_strings p Hp) _ _ Hl Hne) as H. by rewrite Z2Nat.id in H by auto.
Qed.

Lemma sublists_named (Hpos : Forall (fun id => 0 <= id) components) ids : ids ⊆ components ->
  exists texts, Forall2 (fun id text => view_string v id = Some text) ids texts /\
    Forall2 (names (plan_strings p)) (local_of p <$> ids) texts.
Proof.
  induction ids as [|id ids IH]; intros Hsub; [by exists []|].
  destruct IH as (texts & H1 & H2); [set_solver|].
  destruct (components_named Hpos id) as (text & Ht & Hn & _); [set_solver|]. exists (text :: texts).
  rewrite fmap_cons. split; by constructor.
Qed.

Lemma native_finds ids : ids ⊆ components -> finds (local_id p) (plan_component_count p) ids (local_of p <$> ids).
Proof.
  intros Hsub. apply Forall2_fmap_r. apply Forall_Forall2_diag, Forall_forall. intros id Hid.
  destruct (known_local id (Hsub id Hid)) as (Hne & Hl & Hlocal). split; [|done]. intros cursor Hcursor.
  unfold local_id. rewrite (proj2 (Z.eqb_neq _ _)), Hl by done. by rewrite (proj2 (Z.leb_gt _ _)).
Qed.

Lemma native_record r : r ∈ records -> native_ok r.
Proof. intros Hr. pose proof (native_records p Hp) as Hall. rewrite Forall_forall in Hall. by apply Hall. Qed.

Lemma native_sources :
  Forall2 (entry_of (local_id p) (count (entries_ids (native_entries p records))) (native_parts components)) records
    (native_entries p records).
Proof.
  rewrite <- (of_component_count _ _ (native_plan p Hp)). apply Forall2_fmap_r.
  apply Forall_Forall2_diag, Forall_forall. intros r Hr. pose proof (native_record r Hr) as Hok.
  destruct (native_counts r Hok) as (_ & _ & _ & Hs). exists (object_of r), (members_of r).
  split; [unfold native_parts; by rewrite (proj2 Hok)|].
  split; [apply native_finds, sublist_incl|]. split; [apply native_finds, sublist_incl|done].
Qed.

Lemma native_contents (Hpos : Forall (fun id => 0 <= id) components) : contents_ok p (native_entries p records).
Proof.
  split; [apply (strings_nonempty p), Hp| |].
  - unfold entries_ids, native_entries. apply Forall_bind, Forall_fmap, Forall_forall. intros r Hr. unfold compose.
    cbn [entry_object entry_members]. rewrite <- fmap_app. apply Forall_fmap, Forall_forall. intros id Hid. unfold compose.
    destruct (components_named Hpos id) as (text & _ & [? _] & ?); [|lia].
    apply elem_of_app in Hid as [Hid|Hid]; by eapply sublist_incl.
  - apply Forall_fmap, Forall_forall. intros r Hr. unfold compose. cbn [entry_object entry_members entry_value].
    destruct (native_counts r (native_record r Hr)) as (Ho & Hm & Hpos' & Hs).
    destruct (native_record r Hr) as [(_ & _ & Hoc & Hmc & _) _]. rewrite !count_fmap, Ho, Hm.
    split; [|by split; [lia|split; [lia|done]]]. intros H%fmap_nil_inv. rewrite H in Ho. change (count []) with 0 in Ho. lia.
Qed.

Lemma native_decodes (Hpos : Forall (fun id => 0 <= id) components) i r :
  records !! i = Some r ->
  exists object members,
    Forall2 (fun id text => view_string v id = Some text) (object_of r) object /\
    Forall2 (fun id text => view_string v id = Some text) (members_of r) members /\
    decode_record (format_view p (native_entries p records)) (Z.of_nat i) =
      Some (object, members, scalar_type (native_value r), scalar_content (native_value r)).
Proof.
  intros Hi. destruct (sublists_named Hpos (object_of r)) as (object & Ho & Hno); [apply sublist_incl|].
  destruct (sublists_named Hpos (members_of r)) as (members & Hm & Hnm); [apply sublist_incl|].
  exists object, members. split; [done|]. split; [done|]. pose proof (lookup_lt_Some _ _ _ Hi).
  pose proof (take_drop_middle _ _ _ Hi) as E. apply (f_equal (native_entries p)) in E.
  unfold native_entries at 1 in E. rewrite fmap_app, fmap_cons in E. set (e := Entry _ _ _) in E.
  assert (count (native_entries p (take i records)) = Z.of_nat i) as <-.
  { unfold native_entries. rewrite count_fmap. unfold count. rewrite length_take. lia. }
  apply (decode_record_spec p _ (native_plan p Hp) (native_contents Hpos) _ e _ _ _ (eq_sym E) Hno Hnm).
Qed.
End Prepared.
End Source.
End Native.

(** A prepared snapshot is encoded, and the view accepts the image. *)
Lemma native_image v reserved components records p :
  view_ok v -> Forall (fun id => 0 <= id) components -> Forall native_fields records ->
  prepare_runtime_ic_binary_native v reserved components records = Some (inr p) ->
  let image := ic_format p (native_entries components p records) in
  native_prepared v components records p /\
  encode_runtime_ic_binary_native v components records p (plan_size p) = Some (inr image) /\
  ic_bind image = Some (inr (format_view p (native_entries components p records))).
Proof.
  intros Hv Hpos Hfields Hprepare.
  destruct (prepare_native_spec v Hv components records reserved Hpos Hfields) as (o & Ho & Hp); [by apply string_count_unsigned|].
  rewrite Hprepare in Ho. injection Ho as <-. specialize (Hp _ eq_refl). pose proof (native_plan _ _ _ _ Hp) as Hplan.
  pose proof (native_contents v components records p Hp Hpos) as Hcontents.
  split; [done|]. split; [|by apply bind_accepts].
  unfold encode_runtime_ic_binary_native. fold (count records). rewrite (of_record_count _ _ Hplan). unfold native_entries at 1.
  rewrite count_fmap, (local_length v p (native_strings _ _ _ _ Hp)), !Z.eqb_refl.
  pose proof (placed_end p (of_placed _ _ Hplan)). pose proof (plan_bounds _ _ Hplan).
  assert (view_valid v = true) as ->.
  { unfold prepare_runtime_ic_binary_native in Hprepare. by destruct (view_valid v). }
  rewrite (proj2 (Z.eqb_neq (plan_size p) 0)) by lia. cbn [negb andb guard_query answer bind_query].
  apply (encode_spec p (native_entries components p records) Hplan (local_id p) (native_parts components) records false).
  by apply (native_sources v).
Qed.

(** The production path: a snapshot of an accepted image, whose paths are numbers of
    that image's strings, goes through its binary image; whenever the preparation succeeds
    the encoder fills exactly the planned size without leaving the output, the view accepts
    the image, and every record is read back with the strings its numbers stand for, its
    type and the bytes of its value. *)
Theorem ic_native_roundtrip compiled v reserved components records p :
  bind compiled = Some (image_success, v) -> Forall (fun id => 0 <= id) components -> Forall native_fields records ->
  prepare_runtime_ic_binary_native v reserved components records = Some (inr p) ->
  exists image w, encode_runtime_ic_binary_native v components records p (plan_size p) = Some (inr image) /\
    Z.of_nat (length image) = plan_size p /\ ic_bind image = Some (inr w) /\
    ic_record_count w = Z.of_nat (length records) /\
    forall i r, records !! i = Some r -> exists object members,
      Forall2 (fun id text => view_string v id = Some text) (object_of components r) object /\
      Forall2 (fun id text => view_string v id = Some text) (members_of components r) members /\
      decode_record w (Z.of_nat i) = Some (object, members, scalar_type (native_value r), scalar_content (native_value r)).
Proof.
  intros Hv%bound_view_ok Hpos Hfields Hprepare.
  destruct (native_image v reserved components records p Hv Hpos Hfields Hprepare) as (Hp & Hencode & Hbind).
  eexists _, _. split; [exact Hencode|]. split; [by apply format_size, (native_plan _ _ _ _ Hp)|]. split; [exact Hbind|].
  split; [cbn; apply count_fmap|]. intros i r. by apply (native_decodes v).
Qed.

(** The object [y] and its member [x] of the sample image, whose strings have the numbers 3 and 2. *)
Definition sample_native : list runtime_ic_native_record_source :=
  [NativeRecord 0 1 1 1 (ScalarValue signed_int 4 ([x01; x02; x03; x04] ++ replicate 12 x00))].

Lemma ic_native_roundtrip_witness :
  match prepare_runtime_ic_binary_native sample_view true [3; 2] sample_native with
  | Some (inr p) =>
      exists image w, encode_runtime_ic_binary_native sample_view [3; 2] sample_native p (plan_size p) = Some (inr image) /\
        ic_bind image = Some (inr w) /\ exists object members,
        Forall2 (fun id text => view_string sample_view id = Some text) [3] object /\
        Forall2 (fun id text => view_string sample_view id = Some text) [2] members /\
        decode_record w 0 = Some (object, members, signed_int, [x01; x02; x03; x04])
  | _ => False
  end.
Proof.
  destruct (prepare_runtime_ic_binary_native sample_view true [3; 2] sample_native) as [[r|p]|] eqn:E;
    [vm_compute in E; discriminate E| |vm_compute in E; discriminate E].
  destruct (ic_native_roundtrip sample_image sample_view true [3; 2] sample_native p) as (image & w & H1 & _ & H2 & _ & H3).
  - apply sample_bound.
  - repeat constructor; discriminate.
  - repeat constructor; discriminate.
  - exact E.
  - exists image, w. split; [exact H1|]. split; [exact H2|]. exact (H3 0%nat _ eq_refl).
Defined.
