(* ===== verification/IcBounds.v ===== *)
(** The view of initial conditions on images of arbitrary bytes: where the check stays
    inside the image, and an image on which it does not.

    What the view of initial conditions knows about the contents of an image that it has
    accepted: every text, component and record is there and has the form that a reset
    relies on. *)

From S2P Require Import Prelude Crc64 GraphData ImageBytes CompiledView Outcome RuntimeIc RuntimeIcCodec IcEncode IcBind IcRoundtrip.

Local Open Scope Z_scope.
Local Open Scope outcome_scope.

Section Bounds.
Context (image : list byte).

(** The parts of a view are inside the image, one behind the other. *)
Record layout_ok (w : runtime_ic_binary_view) : Prop := LayoutOk {
  layout_image : ic_image w = Some image;
  layout_counts : 0 <= ic_string_count w < 2 ^ 32 /\ 0 <= ic_component_count w < 2 ^ 32 /\ 0 <= ic_record_count w < 2 ^ 32;
  layout_sizes : 0 <= ic_string_bytes_size w /\ 0 <= ic_values_size w;
  layout_string_records : 0 <= ic_string_records w /\ ic_string_records w + 8 * ic_string_count w <= ic_components w;
  layout_components : ic_components w + 4 * ic_component_count w <= ic_records w;
  layout_records : ic_records w + 24 * ic_record_count w <= ic_string_bytes w;
  layout_string_bytes : ic_string_bytes w + ic_string_bytes_size w <= ic_values w;
  layout_values : ic_values w + ic_values_size w = Z.of_nat (length image)
}.

Ltac reads :=
  repeat match goal with
  | |- context [read_u8 image ?o] => destruct (read_u8_some image o) as (? & -> & ?); [unfold header_reserved_offset, header_payload_crc_offset in *; lia..|]; cbn [mbind option_bind]
  | |- context [read_u16 image ?o] => destruct (read_u16_some image o) as (? & -> & ?); [unfold header_reserved_offset, header_payload_crc_offset in *; lia..|]; cbn [mbind option_bind]
  | |- context [read_u32 image ?o] => destruct (read_u32_some image o) as (? & -> & ?); [unfold header_reserved_offset, header_payload_crc_offset in *; lia..|]; cbn [mbind option_bind]
  | |- context [read_u64 image ?o] => destruct (read_u64_some image o) as (? & -> & ?); [unfold header_reserved_offset, header_payload_crc_offset in *; lia..|]; cbn [mbind option_bind]
  end.

Lemma ic_header_valid_some : 128 <= Z.of_nat (length image) -> is_Some (ic_header_valid image).
Proof. intros Hl. unfold ic_header_valid. reads. by eexists. Qed.

(** The texts end before the 64-bit words do. *)
Definition texts_bounded : Prop := forall size, read_u64 image 56 = Some size -> size < 2 ^ 63.

Lemma ic_layout_some :
  128 <= Z.of_nat (length image) -> texts_bounded ->
  exists o, ic_layout image = Some o /\ forall w, o = Some w -> layout_ok w.
Proof.
  intros Hl Htexts. unfold ic_layout, texts_bounded in *.
  destruct (read_u32_some image 40) as (ns & -> & Hns); [lia..|]. destruct (read_u32_some image 44) as (nc & -> & Hnc); [lia..|].
  destruct (read_u32_some image 48) as (nr & -> & Hnr); [lia..|].
  destruct (read_u64_some image 56) as (texts & E & Ht); [lia..|]. specialize (Htexts texts E). rewrite E.
  destruct (read_u64_some image 64) as (values & -> & Hv); [lia..|]. destruct (read_u64_some image 72) as (srs & -> & _); [lia..|].
  destruct (read_u64_some image 80) as (cs & -> & _); [lia..|]. destruct (read_u64_some image 88) as (rs & -> & _); [lia..|].
  destruct (read_u64_some image 96) as (sb & -> & _); [lia..|]. destruct (read_u64_some image 104) as (vs & -> & _); [lia..|].
  cbn [mbind option_bind]. eexists. split; [done|]. intros w.
  rewrite !multiply_small by (unfold u32_max, runtime_ic_binary_string_record_size, runtime_ic_binary_record_size; lia).
  cbn [mbind option_bind]. unfold runtime_ic_binary_string_record_size, runtime_ic_binary_record_size.
  set (co := align8 (u64 (runtime_ic_binary_header_size + ns * 8))). set (ro := align8 (u64 (co + nc * 4))).
  set (so := align8 (u64 (ro + nr * 24))). set (vo := align8 (u64 (so + texts))).
  assert (128 + ns * 8 <= co <= 128 + ns * 8 + 7) as Hco.
  { unfold co, u64, runtime_ic_binary_header_size. rewrite Z.mod_small by lia. apply align8_bounds; lia. }
  assert (co + nc * 4 <= ro <= co + nc * 4 + 7) as Hro.
  { unfold ro, u64. rewrite Z.mod_small by lia. apply align8_bounds; lia. }
  assert (ro + nr * 24 <= so <= ro + nr * 24 + 7) as Hso.
  { unfold so, u64. rewrite Z.mod_small by lia. apply align8_bounds; lia. }
  assert (so + texts <= vo <= so + texts + 7) as Hvo.
  { unfold vo, u64. rewrite Z.mod_small by lia. apply align8_bounds; lia. }
  destruct (_ || _) eqn:Hat; [done|]. intros (size & Hsize & Hw)%bind_Some. unfold add_u64 in Hsize.
  destruct (size_max - values <? vo); [done|]. injection Hsize as <-.
  destruct (vo + values =? Z.of_nat (length image)) eqn:Hend; [|done]. injection Hw as <-. unbool.
  unfold runtime_ic_binary_header_size in *.
  split; cbn [ic_image ic_string_records ic_components ic_records ic_string_bytes ic_values ic_string_count
    ic_component_count ic_record_count ic_string_bytes_size ic_values_size]; [done|lia..].
Qed.

Lemma layout_texts view : ic_layout image = Some (Some view) -> read_u64 image 56 = Some (ic_string_bytes_size view).
Proof.
  unfold ic_layout. intros H. do 10 (apply bind_Some in H as (? & ? & H)). injection H as H.
  do 3 (apply bind_Some in H as (? & _ & H)). cbv zeta in H. destruct (_ || _) in H; [done|].
  apply bind_Some in H as (size & _ & H). destruct (negb _); [done|]. by injection H as <-.
Qed.

(** ** The loops of the check *)

Context (w : runtime_ic_binary_view) (Hw : layout_ok w).

Lemma check_strings_some n index cursor :
  0 <= index -> index + Z.of_nat n <= ic_string_count w -> is_Some (check_strings image w n index cursor).
Proof.
  destruct Hw. revert index cursor. induction n as [|n IH]; intros index cursor Hi Hn; cbn [check_strings]; [by eexists|].
  unfold runtime_ic_binary_string_record_size. reads. destruct (_ || _); [by eexists|]. apply IH; lia.
Qed.

Lemma check_components_some n index :
  0 <= index -> index + Z.of_nat n <= ic_component_count w -> is_Some (check_components image w n index).
Proof.
  destruct Hw. revert index. induction n as [|n IH]; intros index Hi Hn; cbn [check_components]; [by eexists|].
  reads. destruct (_ || _); [by eexists|]. apply IH; lia.
Qed.

Lemma check_records_some n index components values :
  0 <= index -> index + Z.of_nat n <= ic_record_count w -> is_Some (check_records image w n index components values).
Proof.
  destruct Hw. revert index components values.
  induction n as [|n IH]; intros index components values Hi Hn; cbn [check_records]; [by eexists|].
  unfold runtime_ic_binary_record_size. reads. do 2 (destruct (_ || _); [by eexists|]). apply IH; lia.
Qed.

(** ** The queries *)

Lemma ic_string_some id : 0 <= id -> is_Some (ic_string w id).
Proof.
  intros H0. destruct Hw. unfold ic_string. rewrite layout_image0. destruct (_ || _) eqn:E; [by eexists|]. unbool.
  unfold runtime_ic_binary_string_record_size. reads. destruct (_ || _) eqn:E'; [by eexists|]. unbool.
  match goal with |- is_Some (bytes_at _ ?o ?n) => destruct (bytes_at_some image o n) as (bs & -> & _) end; [lia..|by eexists].
Qed.

Lemma ic_component_some index : 0 <= index -> is_Some (ic_component w index).
Proof.
  intros H0. destruct Hw. unfold ic_component. rewrite layout_image0. destruct (Z.leb_spec (ic_component_count w) index); [by eexists|].
  reads. by eexists.
Qed.

Lemma ic_record_some index : 0 <= index -> is_Some (ic_record w index).
Proof.
  intros H0. destruct Hw. unfold ic_record. rewrite layout_image0. destruct (Z.leb_spec (ic_record_count w) index); [by eexists|].
  unfold runtime_ic_binary_record_size. reads. destruct (_ || _) eqn:E'; [by eexists|]. unbool. reads.
  match goal with |- context [bytes_at image ?o ?n] => destruct (bytes_at_some image o n) as (bs & -> & _) end; [lia..|by eexists].
Qed.
End Bounds.

Lemma answers_loaded {A} (o : option A) Q : is_Some o -> (forall a, o = Some a -> Q a) -> answers (loaded o) Q.
Proof. intros [a ->] H. by apply answers_answer, H. Qed.

Lemma ic_bind_bounds image :
  texts_bounded image -> answers (ic_bind image) (layout_ok image).
Proof.
  intros Htexts. unfold ic_bind. outcome_steps. unbool. unfold runtime_ic_binary_header_size in *.
  unfold refuse_unless. outcome_steps. apply answers_loaded; [by apply ic_header_valid_some|]. intros b _. outcome_steps.
  destruct (ic_layout_some image) as (o & -> & Hw); [done|done|]. apply answers_ask; [by eexists|]. intros w [= ->].
  specialize (Hw w eq_refl). pose proof Hw as [? ? ? ? ? ? ? ?]. outcome_steps.
  destruct (read_u64_some image header_payload_crc_offset) as (crc & -> & _); [unfold header_payload_crc_offset; lia..|].
  apply answers_loaded; [by eexists|]. intros stored _.
  outcome_steps. apply answers_ask; [apply (check_strings_some image w Hw); lia|]. intros cursor _. outcome_steps.
  apply answers_loaded; [apply (check_components_some image w Hw); lia|]. intros b' _. outcome_steps.
  apply answers_ask; [apply (check_records_some image w Hw); lia|]. intros cursors _. by outcome_steps.
Qed.

(** The header of two strings in an image of 136 bytes, whose texts are as long as the words allow. *)
Definition wrapping_words (crc : Z) : list (nat * Z) :=
  [(4%nat, 1); (4%nat, endian_marker); (4%nat, 128); (4%nat, 8); (4%nat, 4); (4%nat, 24); (8%nat, 136); (4%nat, 2);
   (4%nat, 0); (4%nat, 0); (4%nat, 0); (8%nat, 2 ^ 64 - 16); (8%nat, 8); (8%nat, 128); (8%nat, 144); (8%nat, 144);
   (8%nat, 144); (8%nat, 128); (8%nat, crc); (8%nat, 0)].
Definition wrapping_payload : list byte := word_bytes [(4%nat, 0); (4%nat, 5)].
Definition wrapping_image : list byte :=
  image_magic ++ word_bytes (wrapping_words (persistence_crc64 native wrapping_payload)) ++ wrapping_payload.

(** C40: Binding an image of initial conditions ends inside the image, for every image whose
    header gives its texts less than 2^63 bytes, and then every query of the view ends
    inside the image; a header whose sum of sizes wraps around passes the comparison of the
    sizes, and the check of the string records then reads behind the end of the image. *)
Theorem ic_bind_in_bounds :
  (forall image, texts_bounded image -> exists r : runtime_ic_codec_result + runtime_ic_binary_view, ic_bind image = Some r /\
    forall w, r = inr w ->
      (forall id, 0 <= id -> is_Some (ic_string w id)) /\ (forall index, 0 <= index -> is_Some (ic_component w index)) /\
      (forall index, 0 <= index -> is_Some (ic_record w index))) /\
  (length wrapping_image = 136%nat /\ ic_bind wrapping_image = None).
Proof.
  split; [|split; vm_compute; reflexivity]. intros image Htexts. destruct (ic_bind_bounds image Htexts) as (r & Hr & Hok).
  exists r. split; [done|]. intros w Hw. specialize (Hok w Hw). split; [|split].
  - apply (ic_string_some image w Hok).
  - apply (ic_component_some image w Hok).
  - apply (ic_record_some image w Hok).
Qed.

Lemma sample_texts_bounded : texts_bounded wrapping_payload.
Proof. intros size H. vm_compute in H. discriminate H. Qed.

Lemma ic_bind_in_bounds_witness : exists r, ic_bind wrapping_payload = Some r.
Proof.
  destruct (proj1 ic_bind_in_bounds wrapping_payload sample_texts_bounded) as (r & Hr & _). by exists r.
Defined.

(** A record whose path lies inside the components and whose value is a scalar's. *)
Record record_sound (w : runtime_ic_binary_view) (r : runtime_ic_binary_record_view) : Prop := RecordSound {
  sound_object : 0 <= record_object_begin r /\ 0 < record_object_count r;
  sound_members : record_member_begin r = record_object_begin r + record_object_count r /\ 0 <= record_member_count r;
  sound_end : record_member_begin r + record_member_count r <= ic_component_count w;
  sound_type : record_type r <> ty_none;
  sound_value : 0 < Z.of_nat (length (record_value r)) <= scalar_capacity
}.

Record contents_sound (w : runtime_ic_binary_view) : Prop := ContentsSound {
  sound_strings : forall id, 0 < id <= ic_string_count w -> exists text, ic_string w id = Some text /\ text <> [];
  sound_components : forall index, 0 <= index < ic_component_count w ->
    exists id, ic_component w index = Some id /\ 0 < id <= ic_string_count w;
  sound_records : forall index, 0 <= index < ic_record_count w ->
    exists r, ic_record w index = Some (Some r) /\ record_sound w r
}.

(** Words are in range wherever they are read. *)
Lemma read_word_range (n : nat) image offset x :
  le_value <$> bytes_at image offset (Z.of_nat n) = Some x -> 0 <= x < 2 ^ (8 * Z.of_nat n).
Proof.
  intros (bs & Hbs & ->)%fmap_Some. apply bytes_at_length in Hbs as [Hl _]. pose proof (le_value_range bs).
  by replace n with (length bs) by lia.
Qed.

Lemma read_u8_word image offset x : read_u8 image offset = Some x -> 0 <= x < 2 ^ 8.
Proof. apply (read_word_range 1). Qed.
Lemma read_u16_word image offset x : read_u16 image offset = Some x -> 0 <= x < 2 ^ 16.
Proof. apply (read_word_range 2). Qed.
Lemma read_u32_word image offset x : read_u32 image offset = Some x -> 0 <= x < 2 ^ 32.
Proof. apply (read_word_range 4). Qed.

Section Contents.
Context (image : list byte) (w : runtime_ic_binary_view) (Hw : layout_ok image w).

(** ** What the loops have checked *)

Lemma checked_string n index cursor c k :
  check_strings image w n index cursor = Some (Some c) -> 0 <= k < Z.of_nat n ->
  exists offset size, read_u32 image (ic_string_records w + (index + k) * 8) = Some offset /\
    read_u32 image (ic_string_records w + (index + k) * 8 + 4) = Some size /\
    0 < size /\ 0 <= offset /\ offset + size <= ic_string_bytes_size w.
Proof.
  revert index cursor k. induction n as [|n IH]; intros index cursor k H Hk; [lia|]. cbn [check_strings] in H.
  apply bind_Some in H as (offset & Ho & (size & Hs & H)%bind_Some).
  destruct (_ || _) eqn:E; [done|]. pose proof (read_u32_word _ _ _ Ho). pose proof (read_u32_word _ _ _ Hs). unbool.
  destruct (Z.eq_dec k 0) as [->|Hne].
  - rewrite Z.add_0_r. exists offset, size. split; [done|]. split; [done|]. lia.
  - destruct (IH _ _ (k - 1) H) as (o & s & Hr); [lia|]. exists o, s.
    by replace (index + 1 + (k - 1)) with (index + k) in * by lia.
Qed.

Lemma checked_component n index k :
  check_components image w n index = Some true -> 0 <= k < Z.of_nat n ->
  exists id, read_u32 image (ic_components w + (index + k) * 4) = Some id /\ 0 < id <= ic_string_count w.
Proof.
  revert index k. induction n as [|n IH]; intros index k H Hk; [lia|]. cbn [check_components] in H.
  apply bind_Some in H as (id & Hid & H). destruct (_ || _) eqn:E; [done|]. pose proof (read_u32_word _ _ _ Hid). unbool.
  destruct (Z.eq_dec k 0) as [->|Hne].
  - rewrite Z.add_0_r. exists id. split; [done|]. lia.
  - destruct (IH _ (k - 1) H) as (i & Hr); [lia|]. exists i.
    by replace (index + 1 + (k - 1)) with (index + k) in * by lia.
Qed.

Lemma type_known type : record_type_valid type = true -> 0 <= type -> intrinsic_of_number type <> ty_none.
Proof.
  unfold record_type_valid. intros H H0. unbool. change (intrinsic_number nullptr_type) with 21 in *.
  assert (exists n, type = Z.of_nat n /\ (n < 22)%nat) as (n & -> & Hn) by (exists (Z.to_nat type); lia).
  do 22 (destruct n as [|n]; [first [lia|vm_compute; discriminate]|]). lia.
Qed.

Lemma checked_record n index components values c k :
  check_records image w n index components values = Some (Some c) -> 0 <= components -> 0 <= values -> 0 <= index ->
  index + Z.of_nat n <= ic_record_count w -> 0 <= k < Z.of_nat n ->
  exists r, ic_record w (index + k) = Some (Some r) /\ record_sound w r.
Proof.
  revert index components values k. induction n as [|n IH]; intros index components values k H Hc Hv Hi Hn Hk; [lia|].
  cbn [check_records] in H.
  apply bind_Some in H as (ob & Hob & (oc & Hoc & (mc & Hmc & (mb & Hmb & H)%bind_Some)%bind_Some)%bind_Some).
  apply bind_Some in H as (vo & Hvo & (vs & Hvs & (ty & Hty & H)%bind_Some)%bind_Some).
  apply bind_Some in H as (fl & _ & (re & _ & H)%bind_Some). unfold runtime_ic_binary_record_size, scalar_capacity in *.
  destruct (_ || _) eqn:E; [done|]. cbv zeta in H. destruct (_ || _) eqn:E2 in H; [done|].
  pose proof (read_u32_word _ _ _ Hob). pose proof (read_u16_word _ _ _ Hoc). pose proof (read_u16_word _ _ _ Hmc).
  pose proof (read_u16_word _ _ _ Hvs). pose proof (read_u8_word _ _ _ Hty). unbool. pose proof (layout_counts image w Hw).
  subst ob mb vo. unfold u32 in Hmb, H. rewrite !Z.mod_small in Hmb by lia.
  destruct (Z.eq_dec k 0) as [->|Hne].
  - rewrite Z.add_0_r. unfold ic_record. rewrite (layout_image image w Hw), (proj2 (Z.leb_gt _ _)) by lia.
    unfold runtime_ic_binary_record_size. rewrite Hvo, Hvs. cbn [mbind option_bind].
    rewrite !(proj2 (Z.ltb_ge _ _)) by lia. cbn [orb]. rewrite Hob, Hoc, Hmc, Hmb, Hty. cbn [mbind option_bind].
    pose proof (layout_string_bytes image w Hw). pose proof (layout_values image w Hw). pose proof (layout_sizes image w Hw).
    pose proof (layout_string_records image w Hw). pose proof (layout_components image w Hw). pose proof (layout_records image w Hw).
    destruct (bytes_at_some image (ic_values w + values) vs) as (bs & -> & Hl); [lia..|]. cbn [mbind option_bind].
    eexists. split; [done|]. split; cbn; try lia; [by apply type_known; [|lia]|unfold scalar_capacity; lia].
  - destruct (IH _ _ _ (k - 1) H) as (r & Hr); [by apply Z.mod_pos_bound|by apply Z.mod_pos_bound|lia..|].
    exists r. by replace (index + 1 + (k - 1)) with (index + k) in * by lia.
Qed.
End Contents.

Lemma bind_checked image w :
  texts_bounded image -> ic_bind image = Some (inr w) ->
  layout_ok image w /\ (exists c, check_strings image w (Z.to_nat (ic_string_count w)) 0 0 = Some (Some c)) /\
  check_components image w (Z.to_nat (ic_component_count w)) 0 = Some true /\
  exists c, check_records image w (Z.to_nat (ic_record_count w)) 0 0 0 = Some (Some c).
Proof.
  intros Htexts Hbind. split.
  { destruct (ic_bind_bounds image Htexts) as (o & Ho & Hok). rewrite Hbind in Ho. injection Ho as <-. by apply Hok. }
  unfold ic_bind, refuse_unless in Hbind.
  destruct (_ && _); [|done]. cbn [guard_query answer bind_query] in Hbind.
  destruct (ic_header_valid image) as [[|]|]; try done. cbn [loaded guard_query answer bind_query] in Hbind.
  destruct (ic_layout image) as [[w'|]|]; try done. cbn [ask answer bind_query] in Hbind.
  destruct (read_u64 image header_payload_crc_offset) as [crc|]; [|done]. cbn [loaded answer bind_query] in Hbind.
  destruct (crc =? _); [|done]. cbn [guard_query answer bind_query] in Hbind.
  destruct (check_strings _ _ _ _ _) as [[c|]|] eqn:Es; try done. cbn [ask answer bind_query] in Hbind.
  destruct (c =? _); [|done]. cbn [guard_query answer bind_query] in Hbind.
  destruct (check_components _ _ _ _) as [[|]|] eqn:Ec; try done. cbn [loaded guard_query answer bind_query] in Hbind.
  destruct (check_records _ _ _ _ _ _) as [[c'|]|] eqn:Er; try done. cbn [ask answer bind_query] in Hbind.
  destruct (_ && _); [|done]. injection Hbind as ->. rewrite Es, Ec, Er. split; [by eexists|]. split; [done|by eexists].
Qed.

Lemma bind_contents image w : texts_bounded image -> ic_bind image = Some (inr w) -> contents_sound w.
Proof.
  intros Htexts Hbind. destruct (bind_checked image w Htexts Hbind) as (Hw & (c & Hs) & Hc & c' & Hr).
  pose proof (layout_counts image w Hw). split.
  - intros id Hid. destruct (checked_string image w _ _ _ _ (id - 1) Hs) as (o & n & Ho & Hn & ? & ? & ?); [lia|].
    unfold ic_string. rewrite (layout_image image w Hw), (proj2 (Z.eqb_neq id 0)), (proj2 (Z.ltb_ge _ _)) by lia. cbn [orb].
    unfold runtime_ic_binary_string_record_size. rewrite Z.add_0_l in Ho, Hn. rewrite Ho, Hn. cbn [mbind option_bind].
    rewrite !(proj2 (Z.ltb_ge _ _)) by lia. cbn [orb].
    pose proof (layout_string_bytes image w Hw). pose proof (layout_values image w Hw). pose proof (layout_sizes image w Hw).
    pose proof (layout_string_records image w Hw). pose proof (layout_components image w Hw). pose proof (layout_records image w Hw).
    destruct (bytes_at_some image (ic_string_bytes w + o) n) as (bs & -> & Hl); [lia..|]. exists bs. split; [done|]. intros ->. cbn in Hl. lia.
  - intros index Hi. destruct (checked_component image w _ _ index Hc) as (id & Hid & ?); [lia|]. exists id.
    unfold ic_component. rewrite (layout_image image w Hw), (proj2 (Z.leb_gt _ _)) by lia. done.
  - intros index Hi. rewrite <- (Z.add_0_l index). apply (checked_record image w Hw _ _ _ _ _ _ Hr); lia.
Qed.
