(* ===== verification/RuntimeIcReset.v ===== *)
(** Writing initial conditions back (project/runtime/runtime_ic_reset.cpp): every record is
    resolved and checked before the first byte is written.  The records come from paths or
    from a bound binary image, whose resolution keeps the states of the path before. *)

From S2P Require Import Prelude StringTable GraphData Identity ImageBytes CompiledView ProjectView RuntimeLayout RuntimeValue Outcome RuntimeIc RuntimeIcCodec.

Local Open Scope Z_scope.
Local Open Scope outcome_scope.

(** ** Exclusions by options *)

Definition target_constant (t : runtime_ic_scalar_target) : bool :=
  negb (Z.land (target_flags t) runtime_ic_target_const =? 0).
Definition target_default_value (t : runtime_ic_scalar_target) : bool :=
  negb (Z.land (target_flags t) runtime_ic_target_default =? 0).

Definition reset_target_excluded (t : runtime_ic_scalar_target) (options : Z) : bool :=
  if has_option options reset_ic_constants && target_constant t then true
  else if has_option options reset_ic_variables && negb (target_constant t) then true
  else has_option options reset_ic_defaults && target_default_value t.

Record runtime_ic_reset_stats := ResetStats { stats_records : Z; stats_bytes : Z }.

Definition map_result (r : runtime_ic_result) : runtime_ic_reset_result :=
  match r with
  | ic_success => reset_success
  | ic_invalid_input => reset_invalid_input
  | ic_not_found => reset_not_found
  | ic_unsupported_type => reset_unsupported_type
  | ic_type_mismatch => reset_type_mismatch
  | ic_invalid_runtime => reset_invalid_runtime
  end.

Definition mapped {A} (m : outcome runtime_ic_result A) : outcome runtime_ic_reset_result A :=
  match m with None => None | Some (inl r) => refuse (map_result r) | Some (inr a) => answer a end.

Definition reset_store (o : option (list byte)) : outcome runtime_ic_reset_result (list byte) :=
  match o with None => None | Some runtime => answer runtime end.

(** ** Records with paths *)

Record reset_write := ResetWrite { write_offset : Z; write_size : Z; write_bytes : list byte }.

Record reset_plan := ResetPlan { plan_writes : list reset_write; plan_bytes : Z }.

Section Reset.
Context (v : compiled_view) (bindings : runtime_binding_index).

(** [room]: the vector of writes has room or could grow. *)
Definition append_write (room : bool) (runtime_size : Z) (path : runtime_ic_path_view) (value : runtime_ic_scalar_value)
    (options : Z) (plan : reset_plan) : outcome runtime_ic_reset_result reset_plan :=
  let? target := mapped (resolve_runtime_ic_scalar v bindings runtime_size path) in
  if reset_target_excluded target options then answer plan
  else
    do? guard_query (negb (bool_decide (scalar_type value = ty_none) || (scalar_size value =? 0) ||
                           (scalar_capacity <? scalar_size value))) reset_invalid_input in
    do? guard_query (bool_decide (target_type target = scalar_type value) && (target_size target =? scalar_size value))
      reset_type_mismatch in
    do? guard_query (negb ((runtime_size <? target_offset target) || (runtime_size - target_offset target <? target_size target)))
      reset_invalid_runtime in
    do? guard_query (plan_bytes plan <=? size_max - target_size target) reset_failed in
    match bytes_at (scalar_bytes value) 0 (scalar_size value) with
    | None => None
    | Some bs =>
        let? bytes := reset_store (store_bytes no_scalar_bytes 0 bs) in
        do? guard_query room reset_failed in
        answer (ResetPlan (plan_writes plan ++ [ResetWrite (target_offset target) (target_size target) bytes])
                  (plan_bytes plan + target_size target))
    end.

Fixpoint append_writes (runtime_size : Z) (records : list runtime_ic_record_source) (options : Z) (plan : reset_plan)
  : outcome runtime_ic_reset_result reset_plan :=
  match records with
  | [] => answer plan
  | record :: records =>
      let? plan := append_write true runtime_size (source_path record) (source_value record) options plan in
      append_writes runtime_size records options plan
  end.

Fixpoint apply_writes (writes : list reset_write) (runtime : list byte) : outcome runtime_ic_reset_result (list byte) :=
  match writes with
  | [] => answer runtime
  | write :: writes =>
      match bytes_at (write_bytes write) 0 (write_size write) with
      | None => None
      | Some bs =>
          let? runtime := reset_store (store_bytes runtime (write_offset write) bs) in
          apply_writes writes runtime
      end
  end.

Definition publish_stats (writes : Z) (bytes : Z) : runtime_ic_reset_stats := ResetStats (u32 writes) bytes.

(** The memory and the statistics of a reset that succeeds; a refused one writes nothing. *)
Definition reset_runtime_ic_records (reserved : bool) (runtime : list byte) (records : list runtime_ic_record_source) (options : Z)
  : outcome runtime_ic_reset_result (list byte * runtime_ic_reset_stats) :=
  let count := Z.of_nat (length records) in
  do? guard_query (view_valid v && negb (bool_decide (runtime = [])) && valid_reset_ic_options options &&
                   negb (bool_decide (records = [])) && (count <=? u32_max)) reset_invalid_input in
  do? guard_query reserved reset_failed in
  let? plan := append_writes (Z.of_nat (length runtime)) records options (ResetPlan [] 0) in
  let? runtime := apply_writes (plan_writes plan) runtime in
  answer (runtime, publish_stats (Z.of_nat (length (plan_writes plan))) (plan_bytes plan)).

(** ** Records of a binary image *)

Section Binary.
Context (w : runtime_ic_binary_view).

(** The strings of the image, from number [local] on, as strings of the project. *)
Fixpoint translate_loop (n : nat) (local : Z) : outcome runtime_ic_reset_result (list string_id) :=
  match n with
  | O => answer []
  | S n =>
      do? guard_query (local <=? u32_max) reset_invalid_image in
      match ic_string w local with
      | None => None
      | Some text =>
          do? guard_query (negb (bool_decide (text = []))) reset_invalid_image in
          let? current := ask_handle (find_string v text) reset_not_found in
          let? rest := translate_loop n (local + 1) in
          answer (current :: rest)
      end
  end.

(** Number zero has no string. *)
Definition translate_binary_strings (resized : bool) : outcome runtime_ic_reset_result (list string_id) :=
  do? guard_query (ic_string_count w <? size_max) reset_failed in
  do? guard_query resized reset_failed in
  let? rest := translate_loop (Z.to_nat (ic_string_count w)) 1 in
  answer (0 :: rest).

Fixpoint same_loop (n : nat) (left right : Z) : option bool :=
  match n with
  | O => Some true
  | S n =>
      l ← ic_component w (u32 left);
      r ← ic_component w (u32 right);
      if negb (l =? r) then Some false else same_loop n (left + 1) (right + 1)
  end.

Definition same_binary_components (left_begin left_count right_begin right_count : Z) : option bool :=
  if negb (left_count =? right_count) then Some false else same_loop (Z.to_nat left_count) left_begin right_begin.

Fixpoint prefix_loop (n : nat) (left right : Z) : option nat :=
  match n with
  | O => Some O
  | S n =>
      l ← ic_component w (u32 left);
      r ← ic_component w (u32 right);
      if l =? r then S <$> prefix_loop n (left + 1) (right + 1) else Some O
  end.

Definition binary_common_prefix (left_begin left_count right_begin right_count : Z) : option nat :=
  prefix_loop (Z.to_nat (Z.min left_count right_count)) left_begin right_begin.

Context (translation : list string_id) (runtime_size : Z).

(** The string of the project that a component stands for. *)
Definition translated (index : Z) : outcome runtime_ic_reset_result string_id :=
  match ic_component w (u32 index) with
  | None => None
  | Some local =>
      do? guard_query (negb (local =? 0)) reset_invalid_image in
      match translation !! Z.to_nat local with
      | None => refuse reset_invalid_image
      | Some name => if name =? 0 then refuse reset_not_found else answer name
      end
  end.

(** The loop over [n] components of an object's name. *)
Fixpoint resolve_binary_components (n : nat) (parent : identity_ref) (index : Z) : outcome runtime_ic_reset_result object_handle :=
  match n with
  | O => refuse reset_invalid_image
  | S n =>
      let? name := translated index in
      let last := bool_decide (n = O) in
      match view_find_identity v parent name (if last then kind_object else kind_namespace_scope) with
      | None => None
      | Some found =>
          do? guard_query (valid found) reset_not_found in
          if last then ask_handle (view_find_object v found) reset_not_found
          else resolve_binary_components n found (index + 1)
      end
  end.

(** [binary_resolve_state] has the fields of [RuntimeIc.place]; the file repeats two
    functions of runtime_ic.cpp under these names. *)
Definition strip_binary_cv : type_ref -> bool -> option (option (type_ref * bool)) := strip_cv v.
Definition find_binary_member_recursive : nat -> type_handle -> string_id -> option member_search_result :=
  find_member_recursive v bindings.

Definition resolve_binary_object (component_begin component_count : Z) : outcome runtime_ic_reset_result place :=
  do? guard_query (negb (component_count =? 0)) reset_invalid_image in
  match view_identity_root v with
  | None => None
  | Some parent =>
      do? guard_query (valid parent) reset_invalid_runtime in
      let? object := resolve_binary_components (Z.to_nat component_count) parent component_begin in
      let? entry := ask (view_object v object) reset_invalid_runtime in
      match binding_object_offset bindings object with
      | None => refuse reset_invalid_runtime
      | Some offset =>
          do? guard_query (offset <? runtime_size) reset_invalid_runtime in
          answer (Place offset (object_type entry) false (negb (non_default_initializer entry)))
      end
  end.

Definition resolve_binary_member_step (name : string_id) (state : place) : outcome runtime_ic_reset_result place :=
  let? stripped := ask (strip_binary_cv (place_type state) (place_constant state)) reset_invalid_runtime in
  do? guard_query (bool_decide (ref_kind stripped.1 = ref_named)) reset_unsupported_type in
  do? guard_query (negb (payload stripped.1 =? 0)) reset_invalid_runtime in
  let owner := view_type_at v (payload stripped.1 - 1) in
  do? guard_query (negb (owner =? 0)) reset_invalid_runtime in
  match find_binary_member_recursive (S (Z.to_nat (type_count_value v))) owner name with
  | None => None
  | Some member_none => refuse reset_not_found
  | Some member_ambiguous => refuse reset_invalid_input
  | Some member_invalid => refuse reset_invalid_runtime
  | Some (member_found member) =>
      match add_u64 (place_offset state) (member_offset member) with
      | None => refuse reset_invalid_runtime
      | Some location =>
          do? guard_query (location <? runtime_size) reset_invalid_runtime in
          answer (Place location (member_type member) stripped.2 (member_default member))
      end
  end.

(** The target and whether the options exclude it. *)
Definition finish_binary_scalar (record : runtime_ic_binary_record_view) (state : place) (options : Z)
  : outcome runtime_ic_reset_result (runtime_ic_scalar_target * bool) :=
  let? target := mapped (scalar_at v bindings runtime_size state) in
  if reset_target_excluded target options then answer (target, true)
  else
    let size := Z.of_nat (length (record_value record)) in
    do? guard_query (negb ((size =? 0) || (scalar_capacity <? size))) reset_invalid_image in
    do? guard_query (bool_decide (record_type record = target_type target) && (size =? target_size target)) reset_type_mismatch in
    answer (target, false).

Record binary_reset_write := BinaryWrite { binary_offset : Z; binary_record : Z; binary_size : Z }.

Record binary_reset_plan := BinaryPlan { binary_writes : list binary_reset_write; binary_bytes : Z }.

(** The vector was reserved for all records. *)
Definition append_binary_write (index : Z) (target : runtime_ic_scalar_target) (plan : binary_reset_plan)
  : outcome runtime_ic_reset_result binary_reset_plan :=
  do? guard_query ((index <=? u32_max) && (binary_bytes plan <=? size_max - target_size target)) reset_failed in
  answer (BinaryPlan (binary_writes plan ++ [BinaryWrite (target_offset target) (u32 index) (target_size target)])
            (binary_bytes plan + target_size target)).

(** The members from [index] on, each from the state before it; [rooms]: the vector of
    states could grow. *)
Fixpoint extend_prefix (rooms : bool) (n : nat) (index : Z) (prefix : list place) : outcome runtime_ic_reset_result (list place) :=
  match n with
  | O => answer prefix
  | S n =>
      let? name := translated index in
      match last prefix with
      | None => None
      | Some state =>
          let? state := resolve_binary_member_step name state in
          do? guard_query rooms reset_failed in
          extend_prefix rooms n (index + 1) (prefix ++ [state])
      end
  end.

(** The states of the record's path that can be kept from the one before. *)
Definition kept_prefix (rooms : bool) (previous : option runtime_ic_binary_record_view) (record : runtime_ic_binary_record_view)
    (prefix : list place) : outcome runtime_ic_reset_result (nat * list place) :=
  let? same :=
    match previous with
    | None => answer false
    | Some p =>
        match same_binary_components (record_object_begin p) (record_object_count p)
                (record_object_begin record) (record_object_count record) with
        | None => None
        | Some same => answer same
        end
    end in
  if same
  then
    match previous with
    | None => None
    | Some p =>
        match binary_common_prefix (record_member_begin p) (record_member_count p)
                (record_member_begin record) (record_member_count record) with
        | None => None
        | Some common => answer (common, prefix)
        end
    end
  else
    let? state := resolve_binary_object (record_object_begin record) (record_object_count record) in
    do? guard_query rooms reset_failed in
    answer (O, [state]).

(** The loop over the records. *)
Fixpoint plan_binary_records (rooms : bool) (options : Z) (n : nat) (index : Z)
    (previous : option runtime_ic_binary_record_view) (prefix : list place) (plan : binary_reset_plan)
  : outcome runtime_ic_reset_result binary_reset_plan :=
  match n with
  | O => answer plan
  | S n =>
      let? record := ask (ic_record w index) reset_invalid_image in
      let? kept := kept_prefix rooms previous record prefix in
      let '(common, prefix) := kept in
      do? guard_query (common + 1 <=? length prefix)%nat reset_invalid_runtime in
      let? prefix := extend_prefix rooms (Z.to_nat (record_member_count record) - common)
                       (record_member_begin record + Z.of_nat common) (take (common + 1) prefix) in
      match last prefix with
      | None => None
      | Some state =>
          let? finished := finish_binary_scalar record state options in
          let? plan := if finished.2 then answer plan else append_binary_write index finished.1 plan in
          plan_binary_records rooms options n (index + 1) (Some record) prefix plan
      end
  end.

(** A record that does not have the planned size ends the loop. *)
Fixpoint apply_binary_plan (writes : list binary_reset_write) (runtime : list byte)
  : outcome runtime_ic_reset_result (list byte) :=
  match writes with
  | [] => answer runtime
  | write :: writes =>
      match ic_record w (binary_record write) with
      | None => None
      | Some None => answer runtime
      | Some (Some record) =>
          if negb (Z.of_nat (length (record_value record)) =? binary_size write) then answer runtime
          else
            let? runtime := reset_store (store_bytes runtime (binary_offset write) (record_value record)) in
            apply_binary_plan writes runtime
      end
  end.
End Binary.

(** [resized], [reserved] and [rooms]: the vectors of the translation, of the writes and of
    the states could be allocated. *)
Definition reset_runtime_ic_binary (resized reserved rooms : bool) (runtime : list byte) (w : runtime_ic_binary_view) (options : Z)
  : outcome runtime_ic_reset_result (list byte * runtime_ic_reset_stats) :=
  do? guard_query (view_valid v && negb (bool_decide (runtime = [])) && valid_reset_ic_options options &&
                   bool_decide (is_Some (ic_image w)) && negb (ic_record_count w =? 0) && (ic_record_count w <=? u32_max))
    reset_invalid_input in
  let? translation := translate_binary_strings w resized in
  do? guard_query reserved reset_failed in
  let? plan := plan_binary_records w translation (Z.of_nat (length runtime)) rooms options (Z.to_nat (ic_record_count w)) 0 None []
                 (BinaryPlan [] 0) in
  let? runtime := apply_binary_plan w (binary_writes plan) runtime in
  answer (runtime, publish_stats (Z.of_nat (length (binary_writes plan))) (binary_bytes plan)).
End Reset.
