(* ===== verification/IcResetRecords.v ===== *)
(** The plan of a reset from a binary image: keeping the states of the path before finds
    what resolving every path from its beginning finds.

    A reset from a binary image is the reset from the records that the image stands for. *)

From S2P Require Import Prelude RuntimeValue StringTable Identity GraphData ImageBytes CompiledView CompiledBounds CompiledProject ProjectView RuntimeLayout Outcome RuntimeQuery QueryBounds RuntimeIc IcScalar RuntimeIcCodec IcRoundtrip IcBounds RuntimeIcReset.

Local Open Scope Z_scope.
Local Open Scope outcome_scope.

(** ** The plan without kept states *)

Section Plain.
Context (v : compiled_view) (bindings : runtime_binding_index) (w : runtime_ic_binary_view).
Context (translation : list string_id) (size : Z).

Abbreviation translated := (translated w translation).
Abbreviation member_step := (resolve_binary_member_step v bindings size).
Abbreviation binary_object := (resolve_binary_object v bindings w translation size).

(** One member of a path. *)
Definition step_at (index : Z) (state : place) : outcome runtime_ic_reset_result place :=
  let? name := translated index in member_step name state.

Fixpoint resolve_binary_path (n : nat) (index : Z) (state : place) : outcome runtime_ic_reset_result place :=
  match n with
  | O => answer state
  | S n => let? state := step_at index state in resolve_binary_path n (index + 1) state
  end.

(** A record from the beginning of its path. *)
Definition resolve_binary_record (r : runtime_ic_binary_record_view) : outcome runtime_ic_reset_result place :=
  let? state := binary_object (record_object_begin r) (record_object_count r) in
  resolve_binary_path (Z.to_nat (record_member_count r)) (record_member_begin r) state.

Definition plan_record (options index : Z) (r : runtime_ic_binary_record_view) (state : place) (plan : binary_reset_plan)
  : outcome runtime_ic_reset_result binary_reset_plan :=
  let? finished := finish_binary_scalar v bindings size r state options in
  if finished.2 then answer plan else append_binary_write index finished.1 plan.

Fixpoint plan_each (options : Z) (n : nat) (index : Z) (plan : binary_reset_plan)
  : outcome runtime_ic_reset_result binary_reset_plan :=
  match n with
  | O => answer plan
  | S n =>
      let? r := ask (ic_record w index) reset_invalid_image in
      let? state := resolve_binary_record r in
      let? plan := plan_record options index r state plan in
      plan_each options n (index + 1) plan
  end.

(** ** States along a path *)

(** [rest] are the states after the members from [index] on. *)
Fixpoint follows (index : Z) (state : place) (rest : list place) : Prop :=
  match rest with
  | [] => True
  | s :: rest => step_at index state = answer s /\ follows (index + 1) s rest
  end.

Definition final (state : place) (rest : list place) : place := default state (last rest).

Lemma final_cons s t rest : final s (t :: rest) = final t rest.
Proof. unfold final. rewrite last_cons. by destruct (last rest). Qed.

Lemma final_snoc s rest t : final s (rest ++ [t]) = t.
Proof. unfold final. by rewrite last_snoc. Qed.

Lemma last_states s rest : last (s :: rest) = Some (final s rest).
Proof. unfold final. rewrite last_cons. by destruct (last rest). Qed.

Lemma follows_snoc index s rest t :
  follows index s rest -> step_at (index + Z.of_nat (length rest)) (final s rest) = answer t -> follows index s (rest ++ [t]).
Proof.
  revert index s. induction rest as [|r rest IH]; intros index s Hf Ht; cbn in *.
  - by rewrite Z.add_0_r in Ht.
  - destruct Hf as [Hr Hf]. split; [done|]. apply IH; [done|]. rewrite final_cons in Ht.
    by replace (index + 1 + Z.of_nat (length rest)) with (index + Z.pos (Pos.of_succ_nat (length rest))) by lia.
Qed.

(** A path whose first states are known continues from the last of them. *)
Lemma path_continues index s rest n :
  follows index s rest -> (length rest <= n)%nat ->
  resolve_binary_path n index s =
    resolve_binary_path (n - length rest) (index + Z.of_nat (length rest)) (final s rest).
Proof.
  revert index s n. induction rest as [|r rest IH]; intros index s n Hf Hn.
  - cbn. by rewrite Nat.sub_0_r, Z.add_0_r.
  - destruct n as [|n]; [cbn in Hn; lia|]. destruct Hf as [Hr Hf]. cbn [resolve_binary_path]. rewrite Hr. cbn [answer bind_query].
    rewrite IH by (done || cbn in Hn; lia). rewrite final_cons. cbn [length]. f_equal. lia.
Qed.

(** Two places of the image with the same components. *)
Definition same_at (n : nat) (left right : Z) : Prop :=
  forall i : nat, (i < n)%nat -> translated (left + Z.of_nat i) = translated (right + Z.of_nat i).

Lemma same_at_tail n left right : same_at (S n) left right -> same_at n (left + 1) (right + 1).
Proof.
  intros H i Hi. specialize (H (S i)). rewrite Nat2Z.inj_succ in H.
  replace (left + 1 + Z.of_nat i) with (left + Z.succ (Z.of_nat i)) by lia.
  replace (right + 1 + Z.of_nat i) with (right + Z.succ (Z.of_nat i)) by lia. apply H. lia.
Qed.

Lemma same_at_head n left right : same_at (S n) left right -> translated left = translated right.
Proof. intros H. specialize (H O). rewrite !Z.add_0_r in H. apply H. lia. Qed.

Lemma same_at_cons n left right :
  translated left = translated right -> same_at n (left + 1) (right + 1) -> same_at (S n) left right.
Proof.
  intros H0 H [|i] Hi; [by rewrite !Z.add_0_r|]. rewrite Nat2Z.inj_succ.
  replace (left + Z.succ (Z.of_nat i)) with (left + 1 + Z.of_nat i) by lia.
  replace (right + Z.succ (Z.of_nat i)) with (right + 1 + Z.of_nat i) by lia. apply H. lia.
Qed.

Lemma follows_same left right s rest : same_at (length rest) left right -> follows left s rest -> follows right s rest.
Proof.
  revert left right s. induction rest as [|r rest IH]; intros left right s Hsame Hf; [done|].
  destruct Hf as [Hr Hf]. split; [|by eapply IH; [apply same_at_tail|]].
  unfold step_at in *. by rewrite <- (same_at_head _ _ _ Hsame).
Qed.

Lemma follows_take k index s rest : follows index s rest -> follows index s (take k rest).
Proof.
  revert k index s. induction rest as [|r rest IH]; intros [|k] index s Hf; try done.
  destruct Hf as [Hr Hf]. split; [done|]. by apply IH.
Qed.

(** ** The comparisons *)

Context (image : list byte) (Hw : layout_ok image w).

Lemma component_at index : is_Some (ic_component w (u32 index)).
Proof. apply (ic_component_some image w Hw). unfold u32. by apply Z.mod_pos_bound. Qed.

Lemma same_loop_spec n left right :
  exists b, same_loop w n left right = Some b /\ (b = true -> same_at n left right).
Proof.
  revert left right. induction n as [|n IH]; intros left right; cbn [same_loop].
  { exists true. split; [done|]. intros _ i Hi. lia. }
  destruct (component_at left) as [l Hl], (component_at right) as [r Hr]. rewrite Hl, Hr. cbn [mbind option_bind].
  destruct (Z.eqb_spec l r) as [->|]; cbn [negb]; [|by exists false].
  destruct (IH (left + 1) (right + 1)) as (b & -> & Hb). exists b. split; [done|]. intros Htrue.
  apply same_at_cons; [|by apply Hb]. unfold RuntimeIcReset.translated. by rewrite Hl, Hr.
Qed.

Lemma prefix_loop_spec n left right :
  exists k, prefix_loop w n left right = Some k /\ (k <= n)%nat /\ same_at k left right.
Proof.
  revert left right. induction n as [|n IH]; intros left right; cbn [prefix_loop].
  { exists O. split; [done|]. split; [lia|]. intros i Hi. lia. }
  destruct (component_at left) as [l Hl], (component_at right) as [r Hr]. rewrite Hl, Hr. cbn [mbind option_bind].
  destruct (Z.eqb_spec l r) as [->|].
  2: { exists O. split; [done|]. split; [lia|]. intros i Hi. lia. }
  destruct (IH (left + 1) (right + 1)) as (k & -> & Hk & Hsame). exists (S k). split; [done|]. split; [lia|].
  apply same_at_cons; [|done]. unfold RuntimeIcReset.translated. by rewrite Hl, Hr.
Qed.

Lemma components_same n parent left right :
  same_at n left right ->
  resolve_binary_components v w translation n parent left = resolve_binary_components v w translation n parent right.
Proof.
  revert parent left right. induction n as [|n IH]; intros parent left right Hsame; [done|].
  cbn [resolve_binary_components]. rewrite (same_at_head _ _ _ Hsame). destruct (translated right) as [[r|name]|]; try done.
  cbn [bind_query]. destruct (view_find_identity _ _ _ _) as [found|]; [|done].
  destruct (valid found); [|done]. cbn [guard_query answer bind_query].
  destruct (bool_decide (n = O)); [done|]. by apply IH, same_at_tail.
Qed.

Lemma object_same lb lc rb rc :
  same_binary_components w lb lc rb rc = Some true -> binary_object lb lc = binary_object rb rc.
Proof.
  unfold same_binary_components. destruct (Z.eqb_spec lc rc) as [->|]; cbn [negb]; [|done]. intros H.
  destruct (same_loop_spec (Z.to_nat rc) lb rb) as (b & Hb & Hsame). rewrite H in Hb. injection Hb as <-.
  unfold resolve_binary_object. destruct (rc =? 0); [done|]. cbn [negb guard_query answer bind_query].
  destruct (view_identity_root v) as [parent|]; [|done]. by rewrite (components_same _ parent _ _ (Hsame eq_refl)).
Qed.

(** ** The loop over the records *)

(** The states of a record's path. *)
Definition states_of (r : runtime_ic_binary_record_view) (prefix : list place) : Prop :=
  exists s rest, prefix = s :: rest /\ binary_object (record_object_begin r) (record_object_count r) = answer s /\
    length rest = Z.to_nat (record_member_count r) /\ follows (record_member_begin r) s rest.

Definition kept (previous : option runtime_ic_binary_record_view) (prefix : list place) : Prop :=
  match previous with None => True | Some p => states_of p prefix end.

(** What extending gives, next to what the path gives. *)
Definition extends (o : outcome runtime_ic_reset_result place) (e : outcome runtime_ic_reset_result (list place))
    (Q : list place -> Prop) : Prop :=
  match o with
  | None => e = None
  | Some (inl r) => e = refuse r
  | Some (inr s) => exists prefix, e = answer prefix /\ last prefix = Some s /\ Q prefix
  end.

Lemma extend_spec n index s rest :
  follows index s rest ->
  extends (resolve_binary_path n (index + Z.of_nat (length rest)) (final s rest))
    (extend_prefix v bindings w translation size true n (index + Z.of_nat (length rest)) (s :: rest))
    (fun prefix => exists rest', prefix = s :: rest' /\ length rest' = (length rest + n)%nat /\ follows index s rest').
Proof.
  revert rest. induction n as [|n IH]; intros rest Hf; cbn [resolve_binary_path extend_prefix].
  { cbn. exists (s :: rest). split; [done|]. split; [apply last_states|]. exists rest. split; [done|]. split; [lia|done]. }
  destruct (step_at _ _) as [[r|t]|] eqn:E; unfold step_at in E; rewrite last_states;
    destruct (translated (index + Z.of_nat (length rest))) as [[r'|name]|] eqn:Et; cbn [bind_query] in *;
    rewrite ?E; try (by simplify_eq).
  cbn [guard_query answer bind_query].
  replace (index + Z.of_nat (length rest) + 1) with (index + Z.of_nat (length (rest ++ [t])))
    by (rewrite length_app; cbn; lia).
  assert (follows index s (rest ++ [t])) as Hf'.
  { apply follows_snoc; [done|]. unfold step_at. by rewrite Et. }
  specialize (IH (rest ++ [t]) Hf'). rewrite final_snoc in IH. change ((s :: rest) ++ [t]) with (s :: (rest ++ [t])).
  unfold extends in *. destruct (resolve_binary_path _ _ _) as [[r|u]|]; [done| |done].
  destruct IH as (prefix & ? & ? & rest' & ? & Hl & ?). exists prefix. split; [done|]. split; [done|]. exists rest'.
  split; [done|]. split; [|done]. rewrite Hl, length_app. cbn. lia.
Qed.

(** The comparison with the record before. *)
Lemma compared previous r :
  let same_as p :=
    same_binary_components w (record_object_begin p) (record_object_count p) (record_object_begin r) (record_object_count r) in
  let compare :=
    match previous with
    | None => answer false
    | Some p => match same_as p with None => None | Some same => answer (R:=runtime_ic_reset_result) same end
    end in
  compare = answer false \/ exists p, previous = Some p /\ compare = answer true /\ same_as p = Some true.
Proof.
  cbv zeta. destruct previous as [p|]; [|by left].
  destruct (same_binary_components _ _ _ _ _) as [[|]|] eqn:E; [right; by exists p|by left|].
  exfalso. unfold same_binary_components in E. destruct (negb _); [done|].
  destruct (same_loop_spec (Z.to_nat (record_object_count p)) (record_object_begin p) (record_object_begin r)) as (b & Hb & _).
  by rewrite E in Hb.
Qed.

(** The states of the next record. *)
Definition advance (previous : option runtime_ic_binary_record_view) (r : runtime_ic_binary_record_view) (prefix : list place)
  : outcome runtime_ic_reset_result (list place) :=
  let? k := kept_prefix v bindings w translation size true previous r prefix in
  let '(common, prefix) := k in
  do? guard_query (common + 1 <=? length prefix)%nat reset_invalid_runtime in
  extend_prefix v bindings w translation size true (Z.to_nat (record_member_count r) - common)
    (record_member_begin r + Z.of_nat common) (take (common + 1) prefix).

(** Extending what was kept resolves the record. *)
Lemma record_states previous prefix r :
  kept previous prefix ->
  extends (resolve_binary_record r)
    (advance previous r prefix)
    (states_of r).
Proof.
  intros Hkept. unfold advance, kept_prefix, resolve_binary_record.
  destruct (compared previous r) as [-> |(p & -> & -> & Hobject)]; cbn [answer bind_query].
  - destruct (binary_object _ _) as [[e|s]|] eqn:Eo; cbn [bind_query]; [done| |done].
    cbn [guard_query answer bind_query length Nat.leb Nat.add]. rewrite Nat.sub_0_r.
    pose proof (extend_spec (Z.to_nat (record_member_count r)) (record_member_begin r) s [] I) as H.
    cbn [length Z.of_nat] in H. change (final s []) with s in H. rewrite Z.add_0_r in H |- *.
    change (take 1 [s]) with [s].
    unfold extends in *. destruct (resolve_binary_path _ _ _) as [[e|u]|]; [done| |done].
    destruct H as (q & ? & ? & rest & ? & Hl & Hf). exists q. split; [done|]. split; [done|]. by exists s, rest.
  - destruct Hkept as (s & rest & -> & Hs & Hl & Hf). rewrite (object_same _ _ _ _ Hobject) in Hs. rewrite Hs. cbn [answer bind_query].
    unfold binary_common_prefix.
    destruct (prefix_loop_spec (Z.to_nat (Z.min (record_member_count p) (record_member_count r))) (record_member_begin p) (record_member_begin r))
      as (k & -> & Hk & Hsame). cbn [answer bind_query].
    assert (length (take k rest) = k) as Hlk by (rewrite length_take; lia).
    rewrite (proj2 (Nat.leb_le _ _)) by (cbn; lia). cbn [guard_query answer bind_query].
    assert (follows (record_member_begin r) s (take k rest)) as Hf'.
    { apply (follows_same (record_member_begin p)); [by rewrite Hlk|]. by apply follows_take. }
    rewrite (path_continues _ s (take k rest)) by (done || lia). rewrite Hlk.
    rewrite Nat.add_1_r. change (take (S k) (s :: rest)) with (s :: take k rest).
    pose proof (extend_spec (Z.to_nat (record_member_count r) - k) _ s (take k rest) Hf') as H. rewrite Hlk in H.
    unfold extends in *. destruct (resolve_binary_path _ _ _) as [[e|u]|]; [done| |done].
    destruct H as (q & ? & ? & rest' & ? & Hl' & Hf''). exists q. split; [done|]. split; [done|]. exists s, rest'.
    split; [done|]. split; [done|]. split; [lia|done].
Qed.

Lemma plan_spec options n index previous prefix plan :
  kept previous prefix ->
  plan_binary_records v bindings w translation size true options n index previous prefix plan =
    plan_each options n index plan.
Proof.
  revert index previous prefix plan. induction n as [|n IH]; intros index previous prefix plan Hkept; [done|].
  cbn [plan_binary_records plan_each]. destruct (ask _ _) as [[e|r]|]; cbn [bind_query]; [done| |done].
  pose proof (record_states previous prefix r Hkept) as H. unfold extends, advance in H.
  destruct (kept_prefix _ _ _ _ _ _ _ _ _) as [[e|[common q]]|]; cbn [bind_query] in *;
    [|destruct (guard_query (R:=runtime_ic_reset_result) _ _) as [[e|[]]|]; cbn [bind_query] in *|];
    destruct (resolve_binary_record r) as [[e'|s]|]; cbn [bind_query]; try done.
  all: try (destruct H as (? & ? & ?); done). all: try by injection H as ->.
  - by rewrite H.
  - destruct H as (q' & -> & Hlast & Hstates). cbn [answer bind_query]. rewrite Hlast. unfold plan_record.
    destruct (finish_binary_scalar _ _ _ _ _ _) as [[e|finished]|]; cbn [bind_query]; [done| |done].
    destruct (if finished.2 then _ else _) as [[e|plan']|]; cbn [bind_query]; [done| |done]. by apply IH.
  - by rewrite H.
Qed.
End Plain.

(** ** Results of one kind as results of the other *)

Lemma mapped_bind {A B} (m : outcome runtime_ic_result A) (f : A -> outcome runtime_ic_result B) :
  mapped (bind_query m f) = bind_query (mapped m) (fun a => mapped (f a)).
Proof. by destruct m as [[r|a]|]. Qed.

Lemma mapped_guard b r : mapped (guard_query b r) = guard_query b (map_result r).
Proof. by destruct b. Qed.

Lemma mapped_ask {A} (o : option (option A)) r : mapped (ask o r) = ask o (map_result r).
Proof. by destruct o as [[a|]|]. Qed.

Lemma mapped_handle o r : mapped (ask_handle o r) = ask_handle o (map_result r).
Proof. destruct o as [h|]; [|done]. cbn. by destruct (h =? 0). Qed.

Lemma bind_assoc {R A B C} (m : outcome R A) (f : A -> outcome R B) (g : B -> outcome R C) :
  bind_query (bind_query m f) g = bind_query m (fun a => bind_query (f a) g).
Proof. by destruct m as [[r|a]|]. Qed.

Lemma bind_ext {R A B} (m : outcome R A) (f g : A -> outcome R B) :
  (forall a, f a = g a) -> bind_query m f = bind_query m g.
Proof. intros H. by destruct m as [[r|a]|]; cbn. Qed.

(** ** Records of an image *)

Definition decode_source (w : runtime_ic_binary_view) (index : Z) : option runtime_ic_record_source :=
  '(object, members, type, bytes) ← decode_record w index;
  Some (RecordSource (PathView object members) (ScalarValue type (Z.of_nat (length bytes)) (padded bytes))).

Definition decode_sources (w : runtime_ic_binary_view) : option (list runtime_ic_record_source) :=
  mapM (fun i => decode_source w (Z.of_nat i)) (seq 0 (Z.to_nat (ic_record_count w))).

Lemma mapM_of_fmap {A B C} (f : A -> B) (g : B -> option C) l : mapM g (f <$> l) = mapM (g ∘ f) l.
Proof. induction l as [|x l IH]; [done|]. rewrite fmap_cons. cbn [mapM]. by rewrite IH. Qed.

Lemma decode_path_cons w begin n :
  decode_path w begin (S n) =
    text ← (id ← ic_component w begin; ic_string w id); texts ← decode_path w (begin + 1) n; Some (text :: texts).
Proof.
  unfold decode_path. cbn [seq mapM]. rewrite Z.add_0_r. destruct (ic_component w begin ≫= _) as [text|]; [|done]. cbn [mbind option_bind].
  rewrite <- fmap_S_seq, mapM_of_fmap. f_equal. apply mapM_ext. intros i. unfold compose.
  by replace (begin + Z.of_nat (S i)) with (begin + 1 + Z.of_nat i) by lia.
Qed.

(** Every accepted image decodes. *)
Lemma decode_path_some w begin n :
  contents_sound w -> 0 <= begin -> begin + Z.of_nat n <= ic_component_count w -> is_Some (decode_path w begin n).
Proof.
  intros Hc. revert begin. induction n as [|n IH]; intros begin H0 Hend; [by exists []|]. rewrite decode_path_cons.
  destruct (sound_components w Hc begin) as (id & -> & Hid); [lia|]. cbn [mbind option_bind].
  destruct (sound_strings w Hc id Hid) as (text & -> & _). cbn [mbind option_bind].
  destruct (IH (begin + 1)) as [texts ->]; [lia..|]. by eexists.
Qed.

Lemma decode_sources_some w : contents_sound w -> is_Some (decode_sources w).
Proof.
  intros Hc. apply mapM_is_Some, Forall_forall. intros i Hi%elem_of_seq.
  change (is_Some (decode_source w (Z.of_nat i))). unfold decode_source, decode_record.
  destruct (sound_records w Hc (Z.of_nat i)) as (r & -> & []); [lia|]. cbn [mbind option_bind].
  destruct (decode_path_some w (record_object_begin r) (Z.to_nat (record_object_count r))) as [o ->]; [done|lia..|].
  destruct (decode_path_some w (record_member_begin r) (Z.to_nat (record_member_count r))) as [m ->]; [done|lia..|]. by eexists.
Qed.

Section Records.
Context (v : compiled_view) (Hv : view_ok v) (bindings : runtime_binding_index) (Hb : bindings_words bindings) (size : Z).

(** The place of a path, before its type is looked at. *)
Definition resolve_place (path : runtime_ic_path_view) : outcome runtime_ic_result place :=
  let? object := resolve_object v (path_object path) in
  let? record := ask (view_object v object) ic_invalid_runtime in
  match binding_object_offset bindings object with
  | None => refuse ic_invalid_runtime
  | Some offset =>
      do? guard_query (offset <? size) ic_invalid_runtime in
      resolve_members v bindings size (path_members path)
        (Place offset (object_type record) false (negb (non_default_initializer record)))
  end.

Lemma resolve_scalar_place path :
  resolve_runtime_ic_scalar v bindings size path =
    do? guard_query (view_valid v && negb (size =? 0) && negb (bool_decide (path_object path = []))) ic_invalid_input in
    let? p := resolve_place path in scalar_at v bindings size p.
Proof.
  unfold resolve_runtime_ic_scalar, resolve_place. apply bind_ext. intros _. rewrite bind_assoc. apply bind_ext. intros object.
  rewrite bind_assoc. apply bind_ext. intros record. destruct (binding_object_offset _ _); [|done]. by rewrite bind_assoc.
Qed.

Section Image.
Context (image : list byte) (w : runtime_ic_binary_view) (Hw : layout_ok image w) (Hc : contents_sound w).
Context (rest : list string_id) (Ht : translate_loop v w (Z.to_nat (ic_string_count w)) 1 = answer rest).

Lemma translate_loop_spec n local ids k :
  translate_loop v w n local = answer ids -> (k < n)%nat ->
  exists text name, ic_string w (local + Z.of_nat k) = Some text /\ text <> [] /\
    find_string v text = Some name /\ name <> 0 /\ ids !! k = Some name.
Proof.
  revert local ids k. induction n as [|n IH]; intros local ids k H Hk; [lia|]. cbn [translate_loop] in H.
  destruct (local <=? u32_max); [|done]. cbn [guard_query answer bind_query] in H.
  destruct (ic_string w local) as [text|] eqn:Es; [|done].
  case_bool_decide as Htext; [done|]. cbn [negb guard_query answer bind_query] in H.
  destruct (find_string v text) as [name|] eqn:Ef; [|done]. cbn [ask_handle] in H.
  destruct (Z.eqb_spec name 0); [done|]. cbn [answer bind_query] in H.
  destruct (translate_loop v w n (local + 1)) as [[r|names]|] eqn:El; try done. injection H as <-.
  destruct k as [|k]; [exists text, name; by rewrite Z.add_0_r|].
  destruct (IH _ _ k El) as (text' & name' & H); [lia|]. exists text', name'.
  by replace (local + 1 + Z.of_nat k) with (local + Z.of_nat (S k)) in H by lia.
Qed.

(** A component is a text of the image that the project knows. *)
Lemma translated_text index :
  0 <= index < ic_component_count w ->
  exists text name, (id ← ic_component w index; ic_string w id) = Some text /\ text <> [] /\
    find_string v text = Some name /\ name <> 0 /\ translated w (0 :: rest) index = answer name.
Proof.
  intros Hi. destruct (sound_components w Hc index Hi) as (id & Hid & Hrange). pose proof (layout_counts image w Hw).
  destruct (translate_loop_spec _ _ _ (Z.to_nat (id - 1)) Ht) as (text & name & Hs & Htext & Hf & Hn & Hl); [lia|].
  replace (1 + Z.of_nat (Z.to_nat (id - 1))) with id in Hs by lia. exists text, name. rewrite Hid. cbn [mbind option_bind].
  split; [done|]. split; [done|]. split; [done|]. split; [done|]. unfold translated, u32.
  rewrite Z.mod_small, Hid, (proj2 (Z.eqb_neq id 0)) by lia. cbn [negb guard_query answer bind_query].
  replace (Z.to_nat id) with (S (Z.to_nat (id - 1))) by lia. cbn [lookup list_lookup]. setoid_rewrite Hl.
  by rewrite (proj2 (Z.eqb_neq name 0)).
Qed.

Lemma decode_path_length begin n texts : decode_path w begin n = Some texts -> length texts = n.
Proof. unfold decode_path. intros H%length_mapM. by rewrite length_seq in H. Qed.

(** The first component of a path, in both ways to read it. *)
Lemma path_head begin n texts :
  decode_path w begin (S n) = Some texts -> 0 <= begin -> begin + Z.of_nat (S n) <= ic_component_count w ->
  exists text name texts', texts = text :: texts' /\ decode_path w (begin + 1) n = Some texts' /\
    text <> [] /\ find_string v text = Some name /\ name <> 0 /\ translated w (0 :: rest) begin = answer name.
Proof.
  intros H H0 Hend. rewrite decode_path_cons in H. apply bind_Some in H as (text & Htext & (texts' & Hd & [= <-])%bind_Some).
  destruct (translated_text begin) as (t & name & E & Hrest); [lia|]. rewrite Htext in E. injection E as <-.
  by exists text, name, texts'.
Qed.

Lemma components_resolved n parent begin texts :
  n <> O -> decode_path w begin n = Some texts -> 0 <= begin -> begin + Z.of_nat n <= ic_component_count w ->
  resolve_binary_components v w (0 :: rest) n parent begin = mapped (resolve_components v parent texts).
Proof.
  revert parent begin texts. induction n as [|n IH]; intros parent begin texts Hn H H0 Hend; [done|].
  destruct (path_head begin n texts H H0 Hend) as (text & name & texts' & -> & Hd & Htext & Hf & Hname & Htr).
  cbn [resolve_components resolve_binary_components]. rewrite Htr, (bool_decide_false (text = [])), Hf by done.
  cbn [negb guard_query ask_handle answer bind_query]. rewrite (proj2 (Z.eqb_neq name 0)) by done. cbn [answer bind_query].
  pose proof (decode_path_length _ _ _ Hd) as Hl.
  replace (bool_decide (n = O)) with (bool_decide (texts' = []))
    by (apply bool_decide_ext; rewrite <- length_zero_iff_nil; lia).
  destruct (view_find_identity _ _ _ _) as [found|]; [|done]. rewrite mapped_bind, mapped_guard. apply bind_ext. intros _.
  case_bool_decide as Hlast; [by rewrite mapped_handle|]. apply IH; [|done|lia|lia].
  intros ->. by apply Hlast, length_zero_iff_nil.
Qed.

Lemma object_resolved begin n texts :
  0 < n -> decode_path w begin (Z.to_nat n) = Some texts -> 0 <= begin -> begin + n <= ic_component_count w ->
  resolve_binary_object v bindings w (0 :: rest) size begin n = mapped (resolve_place (PathView texts [])).
Proof.
  intros Hn Hd H0 Hend. unfold resolve_binary_object, resolve_place, resolve_object. cbn [path_object path_members].
  pose proof (decode_path_length _ _ _ Hd) as Hl.
  rewrite (proj2 (Z.eqb_neq n 0)), (bool_decide_false (texts = [])) by (try intros ->; cbn in *; lia). cbn [negb guard_query answer bind_query].
  destruct (view_identity_root v) as [parent|]; [|done].
  rewrite (components_resolved _ parent begin texts) by (done || lia).
  rewrite !bind_assoc, !mapped_bind, mapped_guard. apply bind_ext. intros _. apply bind_ext. intros object.
  rewrite mapped_bind, mapped_ask. apply bind_ext. intros entry. destruct (binding_object_offset _ _); [|done].
  by rewrite mapped_bind, mapped_guard.
Qed.

Lemma member_resolved text name p :
  text <> [] -> find_string v text = Some name -> name <> 0 ->
  resolve_binary_member_step v bindings size name p = mapped (resolve_member v bindings size text p).
Proof.
  intros Htext Hf Hname. unfold resolve_binary_member_step, find_binary_member_recursive, strip_binary_cv, resolve_member. rewrite (bool_decide_false (text = [])) by done.
  cbn [negb guard_query answer bind_query]. rewrite mapped_bind, mapped_ask. apply bind_ext. intros stripped.
  rewrite mapped_bind, mapped_guard. apply bind_ext. intros _. rewrite mapped_bind, mapped_guard. apply bind_ext. intros _.
  cbv zeta. rewrite mapped_bind, mapped_guard. apply bind_ext. intros _. rewrite Hf. cbn [ask_handle].
  rewrite (proj2 (Z.eqb_neq name 0)) by done. cbn [answer bind_query].
  destruct (find_member_recursive _ _ _ _ _) as [[|m| |]|]; try done. destruct (add_u64 _ _); [|done].
  by rewrite mapped_bind, mapped_guard.
Qed.

Lemma path_resolved n begin texts p :
  decode_path w begin n = Some texts -> 0 <= begin -> begin + Z.of_nat n <= ic_component_count w ->
  resolve_binary_path v bindings w (0 :: rest) size n begin p = mapped (resolve_members v bindings size texts p).
Proof.
  revert begin texts p. induction n as [|n IH]; intros begin texts p H H0 Hend.
  { by injection H as <-. }
  destruct (path_head begin n texts H H0 Hend) as (text & name & texts' & -> & Hd & Htext & Hf & Hname & Htr).
  cbn [resolve_members resolve_binary_path]. unfold step_at. rewrite Htr. cbn [answer bind_query].
  rewrite (member_resolved text name) by done. rewrite mapped_bind. apply bind_ext. intros p'. apply IH; [done|lia|lia].
Qed.

Lemma record_resolved r object members :
  record_sound w r -> decode_path w (record_object_begin r) (Z.to_nat (record_object_count r)) = Some object ->
  decode_path w (record_member_begin r) (Z.to_nat (record_member_count r)) = Some members ->
  resolve_binary_record v bindings w (0 :: rest) size r = mapped (resolve_place (PathView object members)).
Proof.
  intros [] Ho Hm. unfold resolve_binary_record. rewrite (object_resolved _ _ object) by (done || lia).
  unfold resolve_place. cbn [path_object path_members resolve_members].
  rewrite !mapped_bind, bind_assoc. apply bind_ext. intros handle.
  rewrite !mapped_bind, bind_assoc. apply bind_ext. intros entry.
  destruct (binding_object_offset _ _); [|done]. rewrite !mapped_bind, bind_assoc. apply bind_ext. intros _.
  cbn [mapped answer bind_query]. apply path_resolved; [done|lia|lia].
Qed.
(** ** The plans *)

(** A write that copies the value of a record, and one that holds its bytes. *)
Definition same_write (b : binary_reset_write) (r : reset_write) : Prop :=
  binary_offset b = write_offset r /\ binary_size b = write_size r /\
  exists record, ic_record w (binary_record b) = Some (Some record) /\
    Z.of_nat (length (record_value record)) = write_size r /\
    bytes_at (write_bytes r) 0 (write_size r) = Some (record_value record).

Definition same_plan (b : binary_reset_plan) (r : reset_plan) : Prop :=
  binary_bytes b = plan_bytes r /\ Forall2 same_write (binary_writes b) (plan_writes r).

Definition same_outcome {A B} (R : A -> B -> Prop) (a : outcome runtime_ic_reset_result A) (b : outcome runtime_ic_reset_result B) : Prop :=
  match a, b with
  | None, None => True
  | Some (inl x), Some (inl y) => x = y
  | Some (inr x), Some (inr y) => R x y
  | _, _ => False
  end.

Lemma same_bind {A B C} (S : B -> C -> Prop) (m : outcome runtime_ic_reset_result A) f g :
  (forall a, m = answer a -> same_outcome S (f a) (g a)) -> same_outcome S (bind_query m f) (bind_query m g).
Proof. destruct m as [[r|a]|]; cbn; auto. Qed.

Lemma same_bind_related {A B C D} (R : A -> B -> Prop) (S : C -> D -> Prop) m n f g :
  same_outcome R m n -> (forall a b, R a b -> same_outcome S (f a) (g b)) -> same_outcome S (bind_query m f) (bind_query n g).
Proof. destruct m as [[r|a]|], n as [[r'|b]|]; cbn; try done; auto. Qed.

Context (Hvalid : view_valid v = true) (Hsize : size <> 0).

Lemma bytes_at_padded bs : (length bs <= 16)%nat -> bytes_at (padded bs) 0 (Z.of_nat (length bs)) = Some bs.
Proof.
  intros Hl. change (padded bs) with ([] ++ bs ++ replicate (16 - length bs) x00). by apply bytes_at_app.
Qed.

Lemma mapped_scalar_target path target :
  mapped (resolve_runtime_ic_scalar v bindings size path) = answer target -> target_inside bindings size target.
Proof.
  destruct (resolve_scalar_spec v Hv bindings Hb size path) as (o & Ho & Hin). rewrite Ho. destruct o as [r|t]; [done|].
  intros [= <-]. by apply Hin.
Qed.

Lemma record_planned options index r object members plan plan' :
  0 <= index < ic_record_count w -> ic_record w index = Some (Some r) -> record_sound w r ->
  decode_path w (record_object_begin r) (Z.to_nat (record_object_count r)) = Some object ->
  decode_path w (record_member_begin r) (Z.to_nat (record_member_count r)) = Some members ->
  same_plan plan plan' ->
  same_outcome same_plan
    (let? state := resolve_binary_record v bindings w (0 :: rest) size r in plan_record v bindings size options index r state plan)
    (append_write v bindings true size (PathView object members)
       (ScalarValue (record_type r) (Z.of_nat (length (record_value r))) (padded (record_value r))) options plan').
Proof.
  intros Hi Hr Hs Ho Hm [Hbytes Hwrites]. rewrite (record_resolved r object members) by done. unfold append_write.
  assert (forall target, mapped (let? p := resolve_place (PathView object members) in scalar_at v bindings size p) = answer target ->
    target_inside bindings size target) as Hinside.
  { intros target. pose proof (mapped_scalar_target (PathView object members) target) as H. rewrite resolve_scalar_place, Hvalid in H.
    rewrite (proj2 (Z.eqb_neq size 0)) in H by done. cbn [path_object] in H. rewrite (bool_decide_false (object = [])) in H; [exact H|].
    intros ->. apply decode_path_length in Ho. pose proof (sound_object w r Hs). cbn in Ho. lia. }
  rewrite resolve_scalar_place, Hvalid, (proj2 (Z.eqb_neq size 0)) by done. cbn [path_object].
  rewrite (bool_decide_false (object = [])).
  2: { intros ->. apply decode_path_length in Ho. pose proof (sound_object w r Hs). cbn in Ho. lia. }
  cbn [negb andb guard_query answer bind_query]. rewrite mapped_bind in *. rewrite bind_assoc. unfold plan_record, finish_binary_scalar.
  destruct (mapped (resolve_place _)) as [[e|p]|]; cbn [bind_query] in *; [done| |done]. rewrite bind_assoc.
  apply same_bind. intros target Htarget. specialize (Hinside target Htarget). destruct Hinside as (_ & Hoff & Hcap & Hend).
  destruct (reset_target_excluded target options); [by split|]. cbv zeta.
  pose proof (sound_value w r Hs) as Hvalue. unfold scalar_capacity in *. cbn [scalar_type scalar_size scalar_bytes].
  rewrite (proj2 (Z.eqb_neq (Z.of_nat (length (record_value r))) 0)), !(proj2 (Z.ltb_ge _ _)) by lia.
  rewrite (bool_decide_false (record_type r = ty_none)) by apply (sound_type w r Hs).
  cbn [negb orb guard_query answer bind_query]. rewrite bind_assoc.
  replace (bool_decide (target_type target = record_type r) && (target_size target =? Z.of_nat (length (record_value r))))
    with (bool_decide (record_type r = target_type target) && (Z.of_nat (length (record_value r)) =? target_size target))
    by (rewrite Z.eqb_sym; f_equal; apply bool_decide_ext; by split; intros ->).
  apply same_bind. intros [] Hguard. cbn [answer bind_query snd fst]. unfold append_binary_write.
  pose proof (layout_counts image w Hw). rewrite (proj2 (Z.leb_le index u32_max)), Hbytes by (unfold u32_max; lia). cbn [andb].
  apply same_bind. intros [] _. rewrite bytes_at_padded by lia. rewrite store_padded by lia.
  cbn [reset_store guard_query answer bind_query].
  unfold guard_query in Hguard. destruct (_ && _) eqn:Eguard in Hguard; [|done]. unbool.
  split; cbn; [done|]. apply Forall2_app; [done|]. constructor; [|constructor].
  split; [done|]. split; [done|]. exists r. cbn. unfold u32. rewrite Z.mod_small by (unfold u32_max in *; lia).
  split; [done|]. split; [lia|]. match goal with H : Z.of_nat _ = target_size _ |- _ => rewrite <- H end. rewrite bytes_at_padded by lia. done.
Qed.
Lemma decode_source_spec k source :
  0 <= k < ic_record_count w -> decode_source w k = Some source ->
  exists r object members, ic_record w k = Some (Some r) /\ record_sound w r /\
    decode_path w (record_object_begin r) (Z.to_nat (record_object_count r)) = Some object /\
    decode_path w (record_member_begin r) (Z.to_nat (record_member_count r)) = Some members /\
    source = RecordSource (PathView object members)
      (ScalarValue (record_type r) (Z.of_nat (length (record_value r))) (padded (record_value r))).
Proof.
  intros Hk H. destruct (sound_records w Hc k Hk) as (r & Hr & Hs). unfold decode_source, decode_record in H. rewrite Hr in H.
  cbn [mbind option_bind] in H. apply bind_Some in H as ([[[o m] t] bs] & H & [= <-]).
  apply bind_Some in H as (object & Ho & (members & Hm & [= <- <- <- <-])%bind_Some). by exists r, object, members.
Qed.

Lemma records_planned options n k sources plan plan' :
  Z.of_nat k + Z.of_nat n <= ic_record_count w ->
  mapM (fun i => decode_source w (Z.of_nat i)) (seq k n) = Some sources -> same_plan plan plan' ->
  same_outcome same_plan (plan_each v bindings w (0 :: rest) size options n (Z.of_nat k) plan)
    (append_writes v bindings size sources options plan').
Proof.
  revert k sources plan plan'. induction n as [|n IH]; intros k sources plan plan' Hn H Hplan.
  { injection H as <-. done. }
  cbn [seq mapM] in H. apply bind_Some in H as (source & Hsource & (sources' & Hsources & [= <-])%bind_Some).
  destruct (decode_source_spec (Z.of_nat k) source) as (r & object & members & Hr & Hs & Ho & Hm & ->); [lia|done|].
  cbn [plan_each append_writes source_path source_value]. rewrite Hr. cbn [ask answer bind_query]. rewrite <- bind_assoc.
  eapply same_bind_related; [apply record_planned; (done || lia)|]. intros p p' Hp.
  replace (Z.of_nat k + 1) with (Z.of_nat (S k)) by lia. apply IH; [lia|done|done].
Qed.

Lemma plans_applied ws ws' runtime :
  Forall2 same_write ws ws' -> apply_binary_plan w ws runtime = apply_writes ws' runtime.
Proof.
  intros H. revert runtime. induction H as [|b r ws ws' (Ho & Hs & record & Hr & Hl & Hbytes) _ IH]; intros runtime; [done|].
  cbn [apply_binary_plan apply_writes]. rewrite Hr, Hbytes, Hs, Hl, Z.eqb_refl, Ho. cbn [negb]. by apply bind_ext.
Qed.
End Image.
End Records.

Lemma binary_reset_records v bindings image w runtime options ids :
  view_ok v -> bindings_words bindings -> texts_bounded image -> ic_bind image = Some (inr w) ->
  translate_binary_strings v w true = answer ids ->
  exists sources, decode_sources w = Some sources /\ Z.of_nat (length sources) = ic_record_count w /\
    reset_runtime_ic_binary v bindings true true true runtime w options =
      reset_runtime_ic_records v bindings true runtime sources options.
Proof.
  intros Hv Hb Htexts Hbind Htranslate.
  pose proof (bind_contents image w Htexts Hbind) as Hc. destruct (bind_checked image w Htexts Hbind) as (Hw & _).
  pose proof (layout_counts image w Hw).
  destruct (decode_sources_some w Hc) as [sources Hsources].
  exists sources. split; [done|]. assert (Z.of_nat (length sources) = ic_record_count w) as Hlen.
  { unfold decode_sources in Hsources. apply length_mapM in Hsources. rewrite length_seq in Hsources. lia. }
  split; [done|]. unfold reset_runtime_ic_binary, reset_runtime_ic_records.
  rewrite (layout_image image w Hw), (bool_decide_true (is_Some (Some image))), Hlen, andb_true_r by done.
  replace (negb (ic_record_count w =? 0)) with (negb (bool_decide (sources = []))).
  2: { f_equal. case_bool_decide as E; symmetry; [rewrite E in Hlen; cbn in Hlen; lia|].
       apply Z.eqb_neq. intros E'. apply E, length_zero_iff_nil. lia. }
  destruct (_ && _) eqn:Eguard; [|done]. cbn [guard_query answer bind_query]. unbool.
  unfold translate_binary_strings in *. destruct (_ <? _) in Htranslate |- *; [|done].
  cbn [guard_query answer bind_query] in Htranslate |- *.
  destruct (translate_loop v w _ 1) as [[r|rest]|] eqn:Eloop; try done. cbn [answer bind_query].
  rewrite (plan_spec v bindings w (0 :: rest) (Z.of_nat (length runtime)) image Hw) by done.
  assert (Z.of_nat (length runtime) <> 0) as Hsize.
  { intros E. match goal with H : runtime <> [] |- _ => apply H, length_zero_iff_nil end. lia. }
  pose proof (records_planned v Hv bindings Hb (Z.of_nat (length runtime)) image w Hw Hc rest Eloop ltac:(done) Hsize options
    (Z.to_nat (ic_record_count w)) 0 sources (BinaryPlan [] 0) (ResetPlan [] 0) ltac:(lia) Hsources (conj eq_refl (Forall2_nil_2 _ _ _))) as H'.
  destruct (plan_each _ _ _ _ _ _ _ _ _) as [[e|p]|], (append_writes _ _ _ _ _ _) as [[e'|p']|]; try done; cbn in *; [by subst|].
  destruct H' as [-> Hwrites]. rewrite (plans_applied w _ _ runtime Hwrites). apply bind_ext. intros memory.
  by rewrite (Forall2_length _ _ _ Hwrites).
Qed.

(** C36: A reset from a binary image is a reset from the records that the image stands for:
    every accepted image of initial conditions decodes to records with paths, and if the
    project knows all of its strings then writing it back gives the memory, the statistics
    or the refusal that writing back those records gives.  The shared beginnings of paths
    that the loop keeps do not change a single outcome. *)
Theorem binary_reset_is_records_reset compiled v bindings image w runtime options ids :
  bind compiled = Some (image_success, v) -> bindings_words bindings -> texts_bounded image -> ic_bind image = Some (inr w) ->
  translate_binary_strings v w true = answer ids ->
  exists sources, decode_sources w = Some sources /\ Z.of_nat (length sources) = ic_record_count w /\
    reset_runtime_ic_binary v bindings true true true runtime w options =
      reset_runtime_ic_records v bindings true runtime sources options.
Proof. intros Hv%bound_view_ok. by apply binary_reset_records. Qed.

(** One scalar of the sample image, in a binary image of its own. *)
Definition restored_records : list runtime_ic_record_source :=
  [RecordSource (PathView [str "y"] [str "x"]) (ScalarValue signed_int 4 (padded [x01; x02; x03; x04]))].
Definition restored_image : list byte :=
  Eval vm_compute in
    match prepare_runtime_ic_binary true restored_records with
    | Some (inr p) => match encode_runtime_ic_binary restored_records p (plan_size p) with Some (inr image) => image | _ => [] end
    | _ => []
    end.

Lemma restored_texts_bounded : texts_bounded restored_image.
Proof. intros size H. vm_compute in H. injection H as <-. done. Qed.

Lemma binary_reset_is_records_reset_witness :
  match ic_bind restored_image with
  | Some (inr w) =>
      exists sources, decode_sources w = Some sources /\
        reset_runtime_ic_binary sample_view sample_bindings true true true sample_runtime w 0 =
          reset_runtime_ic_records sample_view sample_bindings true sample_runtime sources 0
  | _ => False
  end.
Proof.
  destruct (ic_bind restored_image) as [[r|w]|] eqn:E; [vm_compute in E; discriminate E| |vm_compute in E; discriminate E].
  destruct (translate_binary_strings sample_view w true) as [[r|ids]|] eqn:Et.
  - vm_compute in E. injection E as <-. vm_compute in Et. discriminate Et.
  - destruct (binary_reset_is_records_reset sample_image sample_view sample_bindings restored_image w sample_runtime 0 ids)
      as (sources & H1 & _ & H2).
    + apply sample_bound.
    + apply sample_bindings_words.
    + exact restored_texts_bounded.
    + exact E.
    + exact Et.
    + exists sources. split; [exact H1|exact H2].
  - vm_compute in E. injection E as <-. vm_compute in Et. discriminate Et.
Defined.
