(* ===== verification/IcRestore.v ===== *)
(** From a snapshot back into the runtime memory: scalars that were read from one memory are
    written into another through a binary image, and are read there as they were. *)

From S2P Require Import Prelude Crc64 HashIndex StringTable GraphData Identity ImageBytes CompiledView CompiledBounds CompiledProject ProjectView RuntimeLayout RuntimeValue Outcome RuntimeQuery QueryBounds RuntimeIc IcScalar RuntimeIcCodec IcEncode IcBind IcRoundtrip IcBounds RuntimeIcReset IcResetRecords.

Local Open Scope Z_scope.
Local Open Scope outcome_scope.

(** ** Writes that carry the bytes of another memory *)

Lemma store_bytes_lookup image offset bs image' i :
  store_bytes image offset bs = Some image' ->
  image' !! i =
    if decide (offset <= Z.of_nat i < offset + Z.of_nat (length bs)) then bs !! (i - Z.to_nat offset)%nat else image !! i.
Proof.
  unfold store_bytes. destruct (_ && _) eqn:E; [|done]. intros [= <-]. unbool.
  assert (length (take (Z.to_nat offset) image) = Z.to_nat offset) as Hl by (rewrite length_take; lia).
  case_decide.
  - rewrite lookup_app_r by lia. rewrite lookup_app_l by lia. by rewrite Hl.
  - destruct (decide (i < Z.to_nat offset)%nat).
    + rewrite lookup_app_l by lia. by rewrite lookup_take_lt by lia.
    + rewrite lookup_app_r by lia. rewrite lookup_app_r by lia. rewrite lookup_drop. f_equal. lia.
Qed.

Lemma bytes_at_lookup image offset size bs i :
  bytes_at image offset size = Some bs -> offset <= Z.of_nat i < offset + size -> bs !! (i - Z.to_nat offset)%nat = image !! i.
Proof.
  unfold bytes_at. intros H Hi. split_match. unbool. rewrite lookup_take_lt by lia. rewrite lookup_drop. f_equal. lia.
Qed.

(** Memories of the same length with the same bytes at a place. *)
Lemma bytes_at_same (A B : list byte) offset size :
  length A = length B -> (forall i, offset <= Z.of_nat i < offset + size -> A !! i = B !! i) ->
  bytes_at A offset size = bytes_at B offset size.
Proof.
  intros Hl H. unfold bytes_at. rewrite Hl. destruct (_ && _) eqn:E; [|done]. unbool. f_equal. apply list_eq. intros i.
  destruct (decide (i < Z.to_nat size)%nat); [|rewrite !lookup_ge_None_2; [done|..]; rewrite length_take; lia].
  rewrite !lookup_take_lt, !lookup_drop by lia. apply H. lia.
Qed.

Definition write_from (A : list byte) (wr : reset_write) : Prop :=
  exists bs, bytes_at A (write_offset wr) (write_size wr) = Some bs /\ bytes_at (write_bytes wr) 0 (write_size wr) = Some bs.

Definition within (i : nat) (wr : reset_write) : Prop :=
  write_offset wr <= Z.of_nat i < write_offset wr + write_size wr.

Lemma apply_from A ws B :
  length B = length A -> Forall (write_from A) ws ->
  exists B', apply_writes ws B = answer B' /\ length B' = length A /\
    forall i, (Exists (within i) ws -> B' !! i = A !! i) /\ (~ Exists (within i) ws -> B' !! i = B !! i).
Proof.
  intros Hl Hws. revert B Hl. induction Hws as [|wr ws (bs & Ha & Hw) _ IH]; intros B Hl.
  { exists B. split; [done|]. split; [done|]. intros i. split; [by intros ?%Exists_nil|done]. }
  pose proof (bytes_at_length _ _ _ _ Ha) as (Hlen & H0 & Hend).
  cbn [apply_writes]. rewrite Hw. destruct (store_bytes_some B (write_offset wr) bs) as (B1 & Hstore); [lia..|].
  rewrite Hstore. cbn [reset_store answer bind_query]. pose proof (store_bytes_length _ _ _ _ Hstore) as Hl1.
  destruct (IH B1) as (B' & Happly & Hl' & HB'); [lia|]. exists B'. split; [done|]. split; [done|]. intros i.
  pose proof (store_bytes_lookup _ _ _ _ i Hstore) as Hi. destruct (HB' i) as [Hin Hout].
  assert (within i wr -> B1 !! i = A !! i) as Hhead.
  { intros Hwithin. unfold within in Hwithin. rewrite decide_True in Hi by lia. rewrite Hi. by eapply bytes_at_lookup. }
  split.
  - intros [Hwr|Htail]%Exists_cons; [|by apply Hin].
    destruct (decide (Exists (within i) ws)) as [Htail|Htail]; [by apply Hin|]. rewrite (Hout Htail). by apply Hhead.
  - intros Hnot. rewrite Exists_cons in Hnot. rewrite Hout by tauto. rewrite decide_False in Hi; [done|].
    intros Hwithin. apply Hnot. left. unfold within. lia.
Qed.

(** ** Writing a snapshot back *)

Section Restore.
Context (v : compiled_view) (Hv : view_ok v) (bindings : runtime_binding_index) (Hb : bindings_words bindings).
Context (A : list byte).

Abbreviation resolve := (resolve_runtime_ic_scalar v bindings (Z.of_nat (length A))).

(** A record whose value was read from the memory. *)
Definition snapshot_of (r : runtime_ic_record_source) : Prop :=
  snapshot_runtime_ic_scalar v bindings A (source_path r) = Some (inr (source_value r)).

Lemma snapshot_parts r :
  snapshot_of r ->
  exists target bs, resolve (source_path r) = answer target /\ target_inside bindings (Z.of_nat (length A)) target /\
    bytes_at A (target_offset target) (target_size target) = Some bs /\ Z.of_nat (length bs) = target_size target /\
    source_value r = ScalarValue (target_type target) (target_size target) (padded bs).
Proof.
  unfold snapshot_of. intros H. destruct (resolve_scalar_spec v Hv bindings Hb (Z.of_nat (length A)) (source_path r)) as (o & Ho & Hin).
  destruct o as [e|target]; [unfold snapshot_runtime_ic_scalar in H; by rewrite Ho in H|]. specialize (Hin _ eq_refl).
  pose proof Hin as (_ & H0 & Hs & Hend).
  destruct (bytes_at_some A (target_offset target) (target_size target)) as (bs & Hbs & Hl); [lia..|].
  exists target, bs. split; [done|]. split; [done|]. split; [done|]. split; [done|].
  rewrite (snapshot_reads v Hv bindings Hb A (source_path r) target bs Ho Hbs) in H. by injection H as <-.
Qed.

Lemma snapshot_content r target bs :
  Z.of_nat (length bs) = target_size target ->
  source_value r = ScalarValue (target_type target) (target_size target) (padded bs) -> scalar_content (source_value r) = bs.
Proof.
  intros Hl ->. unfold scalar_content, padded. cbn [scalar_size scalar_bytes].
  replace (Z.to_nat (target_size target)) with (length bs) by lia. apply take_app_length.
Qed.

(** The write that a record leads to. *)
Definition write_of (r : runtime_ic_record_source) (wr : reset_write) : Prop :=
  exists target, resolve (source_path r) = answer target /\ write_offset wr = target_offset target /\
    write_size wr = target_size target /\ write_from A wr.

Lemma no_exclusion target : reset_target_excluded target 0 = false.
Proof. unfold reset_target_excluded, has_option. by rewrite !Z.land_0_l. Qed.

Lemma append_snapshot r plan :
  snapshot_of r -> source_valid r -> plan_bytes plan + 16 <= size_max ->
  exists wr, append_write v bindings true (Z.of_nat (length A)) (source_path r) (source_value r) 0 plan =
      answer (ResetPlan (plan_writes plan ++ [wr]) (plan_bytes plan + write_size wr)) /\
    write_of r wr /\ write_size wr <= 16.
Proof.
  intros Hr [_ (Hvalid & _ & _)] Hbytes. destruct (snapshot_parts r Hr) as (target & bs & Ht & (Hsize & H0 & Hcap & Hend) & Hbs & Hl & Hvalue).
  unfold scalar_capacity in *. unfold append_write. rewrite Ht. cbn [mapped answer bind_query]. rewrite no_exclusion, Hvalue in *.
  unfold valid_scalar in Hvalid. cbn [scalar_type scalar_size scalar_bytes] in *. unbool.
  rewrite (bool_decide_false (target_type target = ty_none)) by done.
  rewrite (bool_decide_true (target_type target = target_type target)), Z.eqb_refl by done.
  rewrite (proj2 (Z.eqb_neq _ 0)), !(proj2 (Z.ltb_ge _ _)) by (unfold scalar_capacity; lia).
  rewrite (proj2 (Z.leb_le _ _)) by lia. cbn [negb orb andb guard_query answer bind_query].
  rewrite <- Hl, bytes_at_padded, store_padded by lia. cbn [reset_store answer bind_query].
  exists (ResetWrite (target_offset target) (Z.of_nat (length bs)) (padded bs)). cbn [write_size].
  split; [done|]. split; [|lia]. exists target. split; [done|]. split; [done|]. split; [cbn; lia|].
  exists bs. cbn [write_offset write_size write_bytes]. rewrite Hl. split; [done|]. rewrite <- Hl. apply bytes_at_padded. lia.
Qed.

Lemma append_snapshots records plan :
  Forall snapshot_of records -> Forall source_valid records -> plan_bytes plan + 16 * Z.of_nat (length records) <= size_max ->
  exists ws bytes, append_writes v bindings (Z.of_nat (length A)) records 0 plan = answer (ResetPlan (plan_writes plan ++ ws) bytes) /\
    Forall2 write_of records ws.
Proof.
  intros Hall. revert plan. induction Hall as [|r records Hr _ IH]; intros plan Hvalid Hbytes; cbn [append_writes].
  { exists [], (plan_bytes plan). rewrite app_nil_r. split; [by destruct plan|constructor]. }
  apply Forall_cons in Hvalid as [Hsource Hvalid]. cbn [length] in Hbytes.
  destruct (append_snapshot r plan Hr Hsource) as (wr & -> & Hwr & Hsize); [lia|]. cbn [answer bind_query].
  destruct (IH (ResetPlan (plan_writes plan ++ [wr]) (plan_bytes plan + write_size wr)) Hvalid) as (ws & bytes & -> & Hws);
    [cbn; lia|]. exists (wr :: ws), bytes. cbn. rewrite <- app_assoc. split; [done|by constructor].
Qed.

(** A place of the memory that no record stands for. *)
Definition untouched (records : list runtime_ic_record_source) (i : nat) : Prop :=
  forall r target, r ∈ records -> resolve (source_path r) = answer target ->
    ~ (target_offset target <= Z.of_nat i < target_offset target + target_size target).

Lemma reset_snapshots B records :
  length B = length A -> records <> [] -> A <> [] -> view_valid v = true -> Z.of_nat (length records) <= u32_max ->
  Forall snapshot_of records -> Forall source_valid records ->
  exists B' stats, reset_runtime_ic_records v bindings true B records 0 = answer (B', stats) /\
    stats_records stats = Z.of_nat (length records) /\ length B' = length A /\
    (forall r, r ∈ records -> snapshot_runtime_ic_scalar v bindings B' (source_path r) = Some (inr (source_value r))) /\
    (forall i, untouched records i -> B' !! i = B !! i).
Proof.
  intros Hl Hne HA Hvalid Hcount Hsnap Hsources. unfold reset_runtime_ic_records.
  rewrite Hvalid, (bool_decide_false (records = [])), (proj2 (Z.leb_le _ _)), Hl by done.
  rewrite (bool_decide_false (B = [])) by (intros ->; by apply HA, length_zero_iff_nil). cbn [negb andb].
  change (valid_reset_ic_options 0) with true. cbn [andb guard_query answer bind_query].
  destruct (append_snapshots records (ResetPlan [] 0) Hsnap Hsources) as (ws & bytes & -> & Hws);
    [unfold u32_max, size_max in *; cbn; lia|].
  cbn [answer bind_query plan_writes app plan_bytes].
  destruct (apply_from A ws B Hl) as (B' & -> & Hl' & HB').
  { eapply Forall2_Forall_r; [exact Hws|]. apply Forall_forall. by intros r _ wr (target & _ & _ & _ & Hfrom). }
  rewrite (Forall2_length _ _ _ Hws) in Hcount |- *. exists B'. eexists. split; [done|].
  split; [cbn; unfold u32, u32_max in *; rewrite Z.mod_small by lia; done|]. split; [done|]. split.
  - intros r Hr. pose proof Hsnap as Hall. rewrite Forall_forall in Hall.
    destruct (snapshot_parts r (Hall r Hr)) as (target & bs & Ht & _ & Hbs & _ & ->).
    apply list_elem_of_lookup in Hr as [k Hk]. destruct (Forall2_lookup_l _ _ _ _ _ Hws Hk) as (wr & Hwr & target' & Ht' & Ho & Hs & _).
    rewrite Ht in Ht'. injection Ht' as <-.
    apply (snapshot_reads v Hv bindings Hb B'); [by rewrite Hl'|]. rewrite (bytes_at_same B' A); [done|done|].
    intros i Hi. apply HB'. apply list_elem_of_lookup_2 in Hwr. apply Exists_exists. exists wr. split; [done|]. unfold within. lia.
  - intros i Hi. apply HB'. intros (wr & [k Hk]%list_elem_of_lookup & Hwithin)%Exists_exists.
    destruct (Forall2_lookup_r _ _ _ _ _ Hws Hk) as (r & Hr & target & Ht & Ho & Hs & _).
    apply (Hi r target); [by eapply list_elem_of_lookup_2|done|]. unfold within in Hwithin. lia.
Qed.
End Restore.

(** ** The strings of a snapshot are the project's *)

Section Known.
Context (v : compiled_view) (bindings : runtime_binding_index) (size : Z).

Definition known_text (text : list byte) : Prop := exists name, find_string v text = Some name /\ name <> 0.

Lemma components_known parent components object :
  resolve_components v parent components = answer object -> Forall known_text components.
Proof.
  revert parent. induction components as [|c rest IH]; intros parent H; [constructor|]. cbn [resolve_components] in H.
  answered H. apply handle_answer in Ha as [Hf Hne]. constructor; [by exists a|].
  destruct (view_find_identity _ _ _ _) as [found|]; [|done]. answered H. case_bool_decide as Hlast; [by subst|by eapply IH].
Qed.

Lemma members_known components p q : resolve_members v bindings size components p = answer q -> Forall known_text components.
Proof.
  revert p. induction components as [|c rest IH]; intros p H; [constructor|]. cbn [resolve_members] in H. answered H.
  constructor; [|by eapply IH]. unfold resolve_member in Ha. cbv zeta in Ha. answered Ha. apply handle_answer in Ha1 as [Hf Hne].
  by eexists.
Qed.

Lemma path_known path target :
  resolve_runtime_ic_scalar v bindings size path = answer target -> Forall known_text (path_object path ++ path_members path).
Proof.
  unfold resolve_runtime_ic_scalar. intros H. answered H. apply Forall_app. split.
  - unfold resolve_object in Ha. answered Ha. destruct (view_identity_root v) as [parent|]; [|done]. answered Ha. by eapply components_known.
  - destruct (binding_object_offset _ _) as [offset|]; [|done]. answered H. by eapply members_known.
Qed.

(** Texts that the project knows are translated. *)
Lemma translate_known (w : runtime_ic_binary_view) :
  0 <= ic_string_count w <= u32_max ->
  (forall id, 0 < id <= ic_string_count w -> exists text, ic_string w id = Some text /\ text <> [] /\ known_text text) ->
  exists ids, translate_binary_strings v w true = answer ids.
Proof.
  intros Hcount Hknown. unfold translate_binary_strings. rewrite (proj2 (Z.ltb_lt _ _)) by (unfold u32_max, size_max in *; lia).
  cbn [guard_query answer bind_query].
  assert (forall n local, 0 < local -> local + Z.of_nat n = ic_string_count w + 1 ->
    exists ids, translate_loop v w n local = answer ids) as Hloop.
  { induction n as [|n IH]; intros local H0 Hend; [by eexists|]. cbn [translate_loop].
    rewrite (proj2 (Z.leb_le _ _)) by lia. cbn [guard_query answer bind_query].
    destruct (Hknown local) as (text & -> & Htext & name & Hf & Hne); [lia|]. rewrite bool_decide_false, Hf by done.
    cbn [negb guard_query ask_handle answer bind_query]. rewrite (proj2 (Z.eqb_neq name 0)) by done. cbn [answer bind_query].
    destruct (IH (local + 1)) as (ids & ->); [lia|lia|]. by eexists. }
  destruct (Hloop (Z.to_nat (ic_string_count w)) 1) as (ids & ->); [lia|lia|]. by eexists.
Qed.
End Known.

(** The strings of a plan are components of its records. *)
Lemma append_string_from p value p' : append_string p value = answer p' -> plan_strings p' ⊆ value :: plan_strings p.
Proof.
  unfold append_string. intros H. answered H. destruct (find_string_id p value =? 0); cbn [negb] in H; [|injection H as <-; set_solver]. answered H.
  destruct (add_u64 _ _) as [bytes|]; [|done]. answered H. cbv zeta in H. destruct (insert_slot _ _ _ _ _); [|done].
  injection H as <-. cbn [plan_strings]. set_solver.
Qed.

Lemma append_strings_from values p p' : append_strings p values = answer p' -> plan_strings p' ⊆ values ++ plan_strings p.
Proof.
  revert p. induction values as [|value values IH]; intros p H; cbn [append_strings] in H; [by injection H as <-|].
  answered H. apply append_string_from in Ha. apply IH in H. set_solver.
Qed.

Lemma append_records_from records p p' :
  append_records p records = answer p' -> plan_strings p' ⊆ (records ≫= source_components) ++ plan_strings p.
Proof.
  revert p. induction records as [|r records IH]; intros p H; cbn [append_records] in H; [by injection H as <-|].
  answered H. apply append_strings_from in Ha, Ha0. apply IH in H. rewrite bind_cons. unfold source_components at 1. set_solver.
Qed.

Lemma place_parts_strings p0 c n k p : place_parts p0 c n k = answer p -> plan_strings p = plan_strings p0.
Proof.
  unfold place_parts. do 3 (destruct (multiply_u64 _ _); [|done]). cbv zeta. destruct (add_u64 _ _); [|done].
  intros H. answered H. by injection H as <-.
Qed.

Lemma prepared_from reserved records p :
  prepare_runtime_ic_binary reserved records = answer p -> plan_strings p ⊆ records ≫= source_components.
Proof.
  unfold prepare_runtime_ic_binary. intros H. cbv zeta in H. answered H. apply place_parts_strings in H. rewrite H.
  apply append_records_from in Ha0. cbn [plan_strings new_plan] in Ha0. by rewrite app_nil_r in Ha0.
Qed.

(** ** The whole way *)

Section Way.
Context (v : compiled_view) (Hv : view_ok v) (bindings : runtime_binding_index) (Hb : bindings_words bindings).
Context (A : list byte) (records : list runtime_ic_record_source) (p : runtime_ic_binary_plan).
Context (Hsnap : Forall (snapshot_of v bindings A) records) (Hshort : paths_short records).
Context (reserved : bool) (Hprepare : prepare_runtime_ic_binary reserved records = Some (inr p)).

Let image := ic_format p (entries_of p records).
Let w := format_view p (entries_of p records).

Lemma snapshot_arrays : arrays_ok records.
Proof.
  eapply Forall_impl; [exact Hsnap|]. intros r Hr.
  destruct (snapshot_parts v Hv bindings Hb A r Hr) as (target & bs & _ & (_ & _ & Hcap & _) & _ & Hl & ->).
  unfold scalar_capacity in *. cbn. unfold padded. rewrite length_app, length_replicate. lia.
Qed.

Lemma snapshot_prepared : prepared records p.
Proof.
  destruct (prepare_spec reserved records snapshot_arrays) as (o & Ho & Hp). rewrite Hprepare in Ho. injection Ho as <-. by apply Hp.
Qed.

Lemma snapshot_layout : ic_layout image = Some (Some w).
Proof. apply layout_accepted, (prepared_plan _ _ snapshot_prepared). Qed.

Lemma snapshot_texts_bounded : texts_bounded image.
Proof.
  intros size H. rewrite (layout_texts image w snapshot_layout) in H. injection H as <-.
  pose proof (plan_bounds _ _ (prepared_plan _ _ snapshot_prepared)). unfold u32_max in *. cbn. lia.
Qed.

(** The strings are known, because every path was resolved. *)
Lemma snapshot_translated : exists ids, translate_binary_strings v w true = answer ids.
Proof.
  pose proof snapshot_prepared as Hp. pose proof (prepared_contents records p Hp Hshort) as Hc.
  pose proof (plan_bounds _ _ (prepared_plan _ _ Hp)). apply translate_known; [cbn; lia|].
  cbn [ic_string_count format_view w]. intros id Hid.
  destruct (lookup_lt_is_Some_2 (plan_strings p) (Z.to_nat (id - 1))) as [text Ht]; [unfold count in *; lia|].
  exists text. pose proof (take_drop_middle _ _ _ Ht) as E. split; [|split].
  - unfold w. rewrite <- (string_read p (entries_of p records) (prepared_plan _ _ Hp) _ _ _ (eq_sym E)). f_equal.
    unfold count in *. rewrite length_take. lia.
  - pose proof (ok_strings _ _ Hc) as Hall. rewrite Forall_forall in Hall. eapply Hall, list_elem_of_lookup_2, Ht.
  - apply list_elem_of_lookup_2 in Ht. apply (prepared_from _ _ _ Hprepare) in Ht.
    apply list_elem_of_bind in Ht as (r & Hin & Hr). pose proof Hsnap as Hall. rewrite Forall_forall in Hall.
    destruct (snapshot_parts v Hv bindings Hb A r (Hall r Hr)) as (target & bs & Ht & _).
    apply path_known in Ht. rewrite Forall_forall in Ht. by apply Ht.
Qed.

Lemma snapshot_decoded : decode_sources w = Some records.
Proof.
  pose proof snapshot_prepared as Hp. unfold decode_sources, w.
  assert (Z.to_nat (ic_record_count (format_view p (entries_of p records))) = length records) as ->.
  { cbn. unfold entries_of. by rewrite count_fmap, count_nat. }
  apply mapM_Some_2, Forall2_same_length_lookup. split; [by rewrite length_seq|]. intros k j r Hj Hr.
  apply lookup_seq in Hj as [-> Hk]. unfold decode_source. cbn [Nat.add].
  rewrite (prepared_decodes records p Hp Hshort k r Hr). cbn [mbind option_bind].
  pose proof Hsnap as Hall. rewrite Forall_forall in Hall.
  destruct (snapshot_parts v Hv bindings Hb A r (Hall r ltac:(by eapply list_elem_of_lookup_2))) as (target & bs & _ & _ & _ & Hl & E).
  rewrite (snapshot_content r target bs Hl E), Hl. rewrite E. cbn [scalar_type]. destruct r as [[object members] value]. cbn in *. by rewrite E.
Qed.
End Way.

Lemma snapshot_needs v bindings A r : snapshot_of v bindings A r -> view_valid v = true /\ A <> [].
Proof.
  unfold snapshot_of, snapshot_runtime_ic_scalar, resolve_runtime_ic_scalar. intros H.
  apply bind_answer in H as (t & Ht & _). apply bind_answer in Ht as (u & G & _). apply guard_answer in G. unbool.
  split; [done|]. by intros ->.
Qed.

(** Initial conditions survive the way through their file: scalars that were read from
    one memory of an accepted image are prepared, encoded and bound; writing the bound image
    into another memory of the same size succeeds, every path then reads there what it read
    in the first memory, and no byte outside of the scalars has changed. *)
Theorem snapshot_restored compiled v bindings A B records reserved p :
  bind compiled = Some (image_success, v) -> bindings_words bindings -> length B = length A ->
  Forall (snapshot_of v bindings A) records -> paths_short records ->
  prepare_runtime_ic_binary reserved records = Some (inr p) ->
  exists image w B' stats,
    encode_runtime_ic_binary records p (plan_size p) = Some (inr image) /\ ic_bind image = Some (inr w) /\
    reset_runtime_ic_binary v bindings true true true B w 0 = Some (inr (B', stats)) /\
    stats_records stats = Z.of_nat (length records) /\ length B' = length B /\
    (forall r, r ∈ records -> snapshot_runtime_ic_scalar v bindings B' (source_path r) = Some (inr (source_value r))) /\
    (forall i, untouched v bindings A records i -> B' !! i = B !! i).
Proof.
  intros Hv%bound_view_ok Hb Hl Hsnap Hshort Hprepare.
  pose proof (snapshot_prepared v Hv bindings Hb A records p Hsnap reserved Hprepare) as Hp.
  destruct (prepared_image records p Hp Hshort) as [Hencode Hbind]. eexists _, _.
  destruct (snapshot_translated v Hv bindings Hb A records p Hsnap Hshort reserved Hprepare) as (ids & Hids).
  destruct (binary_reset_records v bindings _ _ B 0 ids Hv Hb
    (snapshot_texts_bounded v Hv bindings Hb A records p Hsnap reserved Hprepare) Hbind Hids) as (sources & Hd & Hlen & Hreset).
  rewrite (snapshot_decoded v Hv bindings Hb A records p Hsnap Hshort reserved Hprepare) in Hd. injection Hd as <-.
  assert (records <> []) as Hne by (intros ->; unfold prepare_runtime_ic_binary in Hprepare; done).
  destruct records as [|r records'] eqn:E; [done|]. rewrite <- E in *.
  destruct (snapshot_needs v bindings A r) as [Hvalid HA]; [rewrite E in Hsnap; by apply Forall_inv in Hsnap|].
  destruct (reset_snapshots v Hv bindings Hb A B records Hl Hne HA Hvalid) as (B' & stats & H1 & H2 & H3 & H4 & H5); [|done|apply (prepared_sources _ _ Hp)|].
  { pose proof (plan_bounds _ _ (prepared_plan _ _ Hp)). rewrite Hlen. cbn. lia. }
  exists B', stats. rewrite Hreset, Hl. split; [exact Hencode|]. split; [exact Hbind|]. do 4 (split; [done|]). done.
Qed.

Lemma snapshot_restored_witness :
  match prepare_runtime_ic_binary true restored_records with
  | Some (inr p) =>
      exists image w B' stats,
        encode_runtime_ic_binary restored_records p (plan_size p) = Some (inr image) /\ ic_bind image = Some (inr w) /\
        reset_runtime_ic_binary sample_view sample_bindings true true true sample_runtime w 0 = Some (inr (B', stats)) /\
        snapshot_runtime_ic_scalar sample_view sample_bindings B' (PathView [str "y"] [str "x"]) =
          Some (inr (ScalarValue signed_int 4 (padded [x01; x02; x03; x04])))
  | _ => False
  end.
Proof.
  destruct (prepare_runtime_ic_binary true restored_records) as [[r|p]|] eqn:E; [vm_compute in E; discriminate E| |vm_compute in E; discriminate E].
  destruct (snapshot_restored sample_image sample_view sample_bindings (replicate 20 x00 ++ [x01; x02; x03; x04]) sample_runtime
    restored_records true p) as (image & w & B' & stats & H1 & H2 & H3 & _ & _ & H4 & _).
  - apply sample_bound.
  - apply sample_bindings_words.
  - reflexivity.
  - constructor; [vm_compute; reflexivity|constructor].
  - repeat constructor; discriminate.
  - exact E.
  - exists image, w, B', stats. split; [exact H1|]. split; [exact H2|]. split; [exact H3|]. apply (H4 (RecordSource _ _)). left.
Defined.
