(* ===== verification/RuntimeIcSnapshot.v ===== *)
(** The snapshot of a whole project (project/runtime/runtime_ic_snapshot.cpp): every object is
    walked through its type, and every scalar on the way becomes a record of its path and its
    value.  The file holds the traversal twice, with texts and with numbers of strings as the
    components of a path; here both are one traversal over the type of components. *)

From S2P Require Import Prelude StringTable Identity GraphData ImageBytes CompiledView ProjectView RuntimeLayout Outcome RuntimeIc RuntimeIcCodec.

Local Open Scope Z_scope.
Local Open Scope outcome_scope.

Inductive runtime_ic_snapshot_result :=
| snapshot_success | snapshot_invalid_input | snapshot_invalid_runtime | snapshot_overflow | snapshot_failed.

Record runtime_ic_snapshot_stats := SnapshotStats {
  stats_objects : Z;
  stats_scalars : Z;
  skipped_structural : Z;
  skipped_unaddressable : Z
}.

Definition count_object (s : runtime_ic_snapshot_stats) : runtime_ic_snapshot_stats :=
  SnapshotStats (u32 (stats_objects s + 1)) (stats_scalars s) (skipped_structural s) (skipped_unaddressable s).
Definition count_scalar (s : runtime_ic_snapshot_stats) : runtime_ic_snapshot_stats :=
  SnapshotStats (stats_objects s) (u32 (stats_scalars s + 1)) (skipped_structural s) (skipped_unaddressable s).
Definition count_structural (s : runtime_ic_snapshot_stats) : runtime_ic_snapshot_stats :=
  SnapshotStats (stats_objects s) (stats_scalars s) (u32 (skipped_structural s + 1)) (skipped_unaddressable s).
Definition count_unaddressable (s : runtime_ic_snapshot_stats) : runtime_ic_snapshot_stats :=
  SnapshotStats (stats_objects s) (stats_scalars s) (skipped_structural s) (u32 (skipped_unaddressable s + 1)).

(** What is found below the qualifiers of a type. *)
Inductive type_shape := shape_intrinsic (t : intrinsic_type) | shape_named (type : type_handle) | shape_structural.

Section Snapshot.
Context (v : compiled_view) (bindings : runtime_binding_index) (runtime : list byte).

(** [component]: what the vector of components keeps of a name and its text. *)
Context {C : Type} (component : string_id -> list byte -> C).

(** A component with its text, which the native traversal keeps beside it. *)
Abbreviation path_part := (C * list byte)%type.

(** The vectors of components and of records can grow to these sizes; the paths too. *)
Context (component_room record_room path_room : nat -> bool).

(** The components and records of the build state; the record type of both files has the
    same fields. *)
Record snapshot_state := SnapshotState {
  snap_components : list C;
  snap_records : list runtime_ic_native_record_source;
  snap_stats : runtime_ic_snapshot_stats
}.

Definition with_stats (f : runtime_ic_snapshot_stats -> runtime_ic_snapshot_stats) (s : snapshot_state) : snapshot_state :=
  SnapshotState (snap_components s) (snap_records s) (f (snap_stats s)).

Definition snapshot_outcome : Type -> Type := outcome runtime_ic_snapshot_result.

(** ** The path of an object *)

(** The loop from the object to the root: the parts in reverse, and the identity it ends at. *)
Fixpoint path_loop (n : nat) (root identity : identity_ref) (reverse : list path_part)
  : snapshot_outcome (identity_ref * list path_part) :=
  match n with
  | O => answer (identity, reverse)
  | S n =>
      if identity =? root then answer (identity, reverse)
      else
        match view_identity_name v identity with
        | None => None
        | Some name =>
            match view_string v name with
            | None => None
            | Some text =>
                do? guard_query (negb (name =? 0) && negb (bool_decide (text = []))) snapshot_invalid_runtime in
                do? guard_query (path_room (length reverse)) snapshot_failed in
                match view_identity_parent v identity with
                | None => None
                | Some parent =>
                    do? guard_query (valid parent) snapshot_invalid_runtime in
                    path_loop n root parent (reverse ++ [(component name text, text)])
                end
            end
        end
  end.

Definition make_object_path (object : object_handle) : snapshot_outcome (list path_part) :=
  match view_identity_root v, view_object_identity v object with
  | Some root, Some identity =>
      do? guard_query (valid root && valid identity) snapshot_invalid_runtime in
      let? walked := path_loop (S (Z.to_nat (identity_count_value v))) root identity [] in
      let '(reached, reverse) := walked in
      do? guard_query (reached =? root) snapshot_invalid_runtime in
      do? guard_query (negb (bool_decide (reverse = []))) snapshot_invalid_runtime in
      do? guard_query (Z.of_nat (length reverse) <=? u16_max) snapshot_overflow in
      do? guard_query (path_room (length reverse)) snapshot_failed in
      answer (rev reverse)
  | _, _ => None
  end.

(** ** One scalar *)

Section Object.
(** The path of the object that is walked, and its place among the components. *)
Context (object_path : list path_part) (object_begin object_count : Z).

Definition part_texts (path : list path_part) : list (list byte) := path.*2.

Definition emit_scalar (offset : Z) (type : intrinsic_type) (inherited_path : bool) (member_path : list path_part)
    (s : snapshot_state) : snapshot_outcome snapshot_state :=
  let runtime_size := Z.of_nat (length runtime) in
  do? guard_query (negb (bool_decide (type = ty_none))) snapshot_invalid_runtime in
  match (if bool_decide (type = void_type) || bool_decide (type = nullptr_type) then None
         else binding_intrinsic_size bindings type) with
  | None => answer (with_stats count_structural s)
  | Some size =>
      if (size =? 0) || (scalar_capacity <? size) then answer (with_stats count_structural s)
      else
        do? guard_query (negb ((runtime_size <? offset) || (runtime_size - offset <? size))) snapshot_invalid_runtime in
        let? addressable :=
          if inherited_path
          then
            match resolve_runtime_ic_scalar v bindings runtime_size (PathView (part_texts object_path) (part_texts member_path)) with
            | None => None
            | Some (inl _) => answer false
            | Some (inr target) =>
                answer ((target_offset target =? offset) && bool_decide (target_type target = type) && (target_size target =? size))
            end
          else answer true in
        if negb addressable then answer (with_stats count_unaddressable s)
        else
          let components := Z.of_nat (length (snap_components s)) in
          do? guard_query (negb ((u16_max <? Z.of_nat (length member_path)) || (u32_max <? components) ||
                                 (u32_max <=? Z.of_nat (length (snap_records s))))) snapshot_overflow in
          do? guard_query (component_room (length (snap_components s) + length member_path)) snapshot_failed in
          match bytes_at runtime offset size with
          | None => None
          | Some bs =>
              match store_bytes no_scalar_bytes 0 bs with
              | None => None
              | Some bytes =>
                  do? guard_query (record_room (length (snap_records s))) snapshot_failed in
                  answer (with_stats count_scalar
                    (SnapshotState (snap_components s ++ member_path.*1)
                       (snap_records s ++
                          [NativeRecord object_begin object_count (u16 (Z.of_nat (length member_path))) (u32 components)
                             (ScalarValue type size bytes)])
                       (snap_stats s)))
              end
          end
  end.

(** ** The traversal *)

(** The loop over the qualifiers of a type. *)
Fixpoint shape_loop (n : nat) (type : type_ref) : snapshot_outcome type_shape :=
  match n with
  | O => refuse snapshot_invalid_runtime
  | S n =>
      match ref_kind type with
      | ref_intrinsic => answer (shape_intrinsic (intrinsic_of_number (payload type)))
      | ref_named =>
          do? guard_query (negb (payload type =? 0)) snapshot_invalid_runtime in
          let named := view_type_at v (payload type - 1) in
          do? guard_query (negb (named =? 0)) snapshot_invalid_runtime in
          answer (shape_named named)
      | ref_derived =>
          let? d := ask (view_derived v type) snapshot_invalid_runtime in
          match derived_kind d with
          | const_qualified | volatile_qualified => shape_loop n (child d)
          | pointer | lvalue_reference | rvalue_reference | bounded_array | unbounded_array => answer shape_structural
          end
      | ref_invalid => refuse snapshot_invalid_runtime
      end
  end.

Section Loops.
Context (walk_record : type_handle -> Z -> bool -> list path_part -> snapshot_state -> snapshot_outcome snapshot_state).
Context (walk_type : type_ref -> Z -> bool -> list path_part -> snapshot_state -> snapshot_outcome snapshot_state).

(** The loop over the bases. *)
Fixpoint walk_bases (offset : Z) (member_path : list path_part) (n : nat) (global : Z) (s : snapshot_state)
  : snapshot_outcome snapshot_state :=
  match n with
  | O => answer s
  | S n =>
      let? base := ask (view_base_at v global) snapshot_invalid_runtime in
      if bv_virtual base then walk_bases offset member_path n (global + 1) (with_stats count_structural s)
      else
        match binding_base_offset bindings global with
        | None => refuse snapshot_invalid_runtime
        | Some base_offset =>
            match add_u64 offset base_offset with
            | None => refuse snapshot_invalid_runtime
            | Some location =>
                let? s := walk_record (bv_type base) location true member_path s in
                walk_bases offset member_path n (global + 1) s
            end
        end
  end.

(** The loop over the members; the name of a member is on the path while its type is walked.
    The number 0 has the empty text: testing both, as the native traversal does, refuses what
    testing the text refuses. *)
Fixpoint walk_members (type : type_handle) (begin offset : Z) (inherited_path : bool) (member_path : list path_part)
    (n : nat) (local : Z) (s : snapshot_state) : snapshot_outcome snapshot_state :=
  match n with
  | O => answer s
  | S n =>
      let? member := ask (view_member v type local) snapshot_invalid_runtime in
      match view_string v (mv_name member) with
      | None => None
      | Some text =>
          do? guard_query (negb (mv_name member =? 0) && negb (bool_decide (text = []))) snapshot_invalid_runtime in
          match binding_member_offset bindings (begin + local) with
          | None => refuse snapshot_invalid_runtime
          | Some member_offset =>
              match add_u64 offset member_offset with
              | None => refuse snapshot_invalid_runtime
              | Some location =>
                  do? guard_query (path_room (length member_path)) snapshot_failed in
                  let? s := walk_type (mv_type member) location inherited_path
                              (member_path ++ [(component (mv_name member) text, text)]) s in
                  walk_members type begin offset inherited_path member_path n (local + 1) s
              end
          end
      end
  end.
End Loops.

(** [fuel] is the depth that is left: [type_count + derived_type_count + 2 - depth]. *)
Fixpoint walk_record (fuel : nat) (type : type_handle) (offset : Z) (inherited_path : bool) (member_path : list path_part)
    (s : snapshot_state) {struct fuel} : snapshot_outcome snapshot_state :=
  match fuel with
  | O => refuse snapshot_invalid_runtime
  | S fuel =>
      do? guard_query (negb (type =? 0)) snapshot_invalid_runtime in
      let? entry := ask (view_type v type) snapshot_invalid_runtime in
      do? guard_query (tv_defined entry) snapshot_invalid_runtime in
      let? s := walk_bases (walk_record fuel) offset member_path (Z.to_nat (range_count (tv_bases entry)))
                  (range_begin (tv_bases entry)) s in
      walk_members (walk_type fuel) type (range_begin (tv_members entry)) offset inherited_path member_path
        (Z.to_nat (range_count (tv_members entry))) 0 s
  end
with walk_type (fuel : nat) (type : type_ref) (offset : Z) (inherited_path : bool) (member_path : list path_part)
    (s : snapshot_state) {struct fuel} : snapshot_outcome snapshot_state :=
  match fuel with
  | O => refuse snapshot_invalid_runtime
  | S fuel =>
      do? guard_query (ref_valid type) snapshot_invalid_runtime in
      let? shape := shape_loop (S (Z.to_nat (section_count (section v sec_derived_types)))) type in
      match shape with
      | shape_intrinsic t => emit_scalar offset t inherited_path member_path s
      | shape_named named => walk_record fuel named offset inherited_path member_path s
      | shape_structural => answer (with_stats count_structural s)
      end
  end.
End Object.

Definition depth_limit : nat :=
  Z.to_nat (type_count_value v + section_count (section v sec_derived_types) + 2).

Definition walk_object (object : object_handle) (s : snapshot_state) : snapshot_outcome snapshot_state :=
  let? entry := ask (view_object v object) snapshot_invalid_runtime in
  match binding_object_offset bindings object with
  | None => refuse snapshot_invalid_runtime
  | Some offset =>
      do? guard_query (offset <? Z.of_nat (length runtime)) snapshot_invalid_runtime in
      let? object_path := make_object_path object in
      let begin := length (snap_components s) in
      do? guard_query (Z.of_nat begin <=? u32_max) snapshot_overflow in
      do? guard_query (component_room (begin + length object_path)) snapshot_failed in
      let records := length (snap_records s) in
      let? s := walk_type object_path (u32 (Z.of_nat begin)) (u16 (Z.of_nat (length object_path))) depth_limit
                  (object_type entry) offset false []
                  (SnapshotState (snap_components s ++ object_path.*1) (snap_records s) (snap_stats s)) in
      let components := if (length (snap_records s) =? records)%nat then take begin (snap_components s) else snap_components s in
      answer (with_stats count_object (SnapshotState components (snap_records s) (snap_stats s)))
  end.

(** The loop over the objects. *)
Fixpoint walk_objects (n : nat) (index : Z) (s : snapshot_state) : snapshot_outcome snapshot_state :=
  match n with
  | O => answer s
  | S n =>
      let object := view_object_at v index in
      do? guard_query (negb (object =? 0)) snapshot_invalid_runtime in
      let? s := walk_object object s in
      walk_objects n (index + 1) s
  end.

(** [reserved]: the vectors could be reserved. *)
Definition snapshot_project (reserved : bool) : snapshot_outcome snapshot_state :=
  do? guard_query (view_valid v && negb (bool_decide (runtime = []))) snapshot_invalid_input in
  do? guard_query reserved snapshot_failed in
  walk_objects (Z.to_nat (object_count_value v)) 0 (SnapshotState [] [] (SnapshotStats 0 0 0 0)).
End Snapshot.

Arguments SnapshotState {_} _ _ _.
Arguments snap_components {_} _.
Arguments snap_records {_} _.
Arguments snap_stats {_} _.

(** ** The snapshot with texts *)

Definition text_component (name : string_id) (text : list byte) : list byte := text.

(** The loop that turns the places of a record into spans. *)
Fixpoint publish_records (components : list (list byte)) (records : list runtime_ic_native_record_source)
  : snapshot_outcome (list runtime_ic_record_source) :=
  match records with
  | [] => answer []
  | r :: records =>
      let size := Z.of_nat (length components) in
      do? guard_query (negb ((size <? native_object_begin r + native_object_count r) ||
                             (size <? native_member_begin r + native_member_count r))) snapshot_invalid_runtime in
      let? rest := publish_records components records in
      answer (RecordSource
                (PathView (sublist (native_object_begin r) (native_object_count r) components)
                          (sublist (native_member_begin r) (native_member_count r) components))
                (native_value r) :: rest)
  end.

Section Services.
Context (v : compiled_view) (bindings : runtime_binding_index) (runtime : list byte).
Context (component_room record_room path_room : nat -> bool).

(** [published]: the vector of the output could be reserved. *)
Definition snapshot_runtime_ic_project (reserved published : bool)
  : snapshot_outcome (list runtime_ic_record_source * runtime_ic_snapshot_stats) :=
  let? s := snapshot_project v bindings runtime text_component component_room record_room path_room reserved in
  do? guard_query published snapshot_failed in
  let? records := publish_records (snap_components s) (snap_records s) in
  answer (records, snap_stats s).

(** ** The snapshot with numbers of strings *)

Definition native_component (name : string_id) (text : list byte) : string_id := name.

Definition native_object_path := make_object_path v native_component path_room.
Definition native_emit_scalar := emit_scalar (C:=string_id) v bindings runtime component_room record_room.
Definition native_walk_record := walk_record v bindings runtime native_component component_room record_room path_room.
Definition native_walk_type := walk_type v bindings runtime native_component component_room record_room path_room.
Definition native_walk_object := walk_object v bindings runtime native_component component_room record_room path_room.
Definition snapshot_runtime_ic_project_native := snapshot_project v bindings runtime native_component component_room record_room path_room.

(** What a failure of the codec is for the snapshot. *)
Definition codec_failure (r : runtime_ic_codec_result) : runtime_ic_snapshot_result :=
  match r with
  | codec_success => snapshot_success
  | codec_overflow => snapshot_overflow
  | codec_invalid_input | codec_invalid_image | codec_unsupported_value => snapshot_invalid_runtime
  | codec_failed => snapshot_failed
  end.

Definition encoded {A} (m : outcome runtime_ic_codec_result A) : snapshot_outcome A :=
  match m with None => None | Some (inl r) => refuse (codec_failure r) | Some (inr a) => answer a end.

(** [prepared] and [assigned]: the vectors of the plan and of the image could be allocated. *)
Definition snapshot_runtime_ic_binary (reserved prepared assigned : bool)
  : snapshot_outcome (list byte * runtime_ic_snapshot_stats) :=
  let? s := snapshot_runtime_ic_project_native reserved in
  let? p := encoded (prepare_runtime_ic_binary_native v prepared (snap_components s) (snap_records s)) in
  do? guard_query assigned snapshot_failed in
  let? image := encoded (encode_runtime_ic_binary_native v (snap_components s) (snap_records s) p (plan_size p)) in
  answer (image, snap_stats s).
End Services.
