(* ===== verification/IcSnapshot.v ===== *)
(** The snapshot of a project: walking every object ends inside the image and the memory, and
    what it records is read by its path. *)

From S2P Require Import Prelude StringTable GraphData Identity ImageBytes CompiledView CompiledBounds CompiledProject ProjectView RuntimeLayout Outcome RuntimeQuery QueryBounds RuntimeIc IcScalar RuntimeIcCodec RuntimeIcSnapshot.

Local Open Scope Z_scope.
Local Open Scope outcome_scope.

(** ** Images whose names are found *)

(** What the indices of an image promise: a string is found by its text, an identity by its
    parent and its name, an object by its identity, a member by its name; what an object or a
    namespace lies in is the root or a namespace. *)
Record self_naming (v : compiled_view) : Prop := SelfNaming {
  string_named id text : 0 <= id -> view_string v id = Some text -> text <> [] -> find_string v text = Some id;
  identity_named i p name :
    view_identity_parent v i = Some p -> valid p = true -> view_identity_name v i = Some name -> name <> 0 ->
    view_find_identity v p name (kind i) = Some i;
  identity_scoped i p :
    view_identity_parent v i = Some p -> valid p = true -> kind i = kind_object \/ kind i = kind_namespace_scope ->
    view_identity_root v = Some p \/ kind p = kind_namespace_scope;
  object_named o i : 0 <= o -> view_object_identity v o = Some i -> valid i = true -> kind i = kind_object /\ view_find_object v i = Some o;
  object_found o i : view_find_object v i = Some o -> o <> 0 -> view_object_identity v o = Some i;
  member_named t m r :
    0 <= t -> 0 <= m -> view_member v t m = Some (Some r) ->
    view_find_member v t (mv_name r) = Some m /\ exists c, view_member_construction v t m = Some (Some c)
}.

Section Names.
Context (v : compiled_view) (Hv : view_ok v).

Lemma string_zero : view_string v 0 = Some [].
Proof. done. Qed.

Lemma identity_name_unsigned i name : view_identity_name v i = Some name -> 0 <= name.
Proof.
  unfold view_identity_name. intros (j & _ & H)%bind_Some. destruct (_ || _); [by simplify_eq|].
  apply bind_Some in H as (record & _ & H). apply bind_Some in H as (raw & Hraw & H). simplify_eq.
  apply (string_from_raw_range v). by eapply get_u32_word.
Qed.

Lemma member_name_unsigned t m r : view_member v t m = Some (Some r) -> 0 <= mv_name r.
Proof.
  unfold view_member. intros ([e|] & _ & H)%bind_Some; [|done]. do 2 (destruct (_ : bool) in H; [done|]).
  unfold read_member in H. apply bind_Some in H as (record & _ & H). apply bind_Some in H as (raw & Hraw & H).
  do 3 (apply bind_Some in H as (? & _ & H)). destruct (_ && _) in H; [|done]. simplify_eq. cbn.
  apply (string_from_raw_range v). by eapply get_u32_word.
Qed.

(** The way from an identity up to the root, as the texts of the names on it. *)
Inductive ascends (root : identity_ref) : identity_ref -> list (list byte) -> Prop :=
| ascends_root : ascends root root []
| ascends_step i name text p ups :
    i <> root -> view_identity_name v i = Some name -> view_string v name = Some text -> name <> 0 -> text <> [] ->
    view_identity_parent v i = Some p -> valid p = true -> ascends root p ups -> ascends root i (text :: ups).

Lemma ascends_unique root i ups ups' : ascends root i ups -> ascends root i ups' -> ups = ups'.
Proof.
  intros H. revert ups'. induction H; inversion 1; simplify_eq; try done. f_equal. by auto.
Qed.

(** ** Paths up and paths down *)

Lemma fmap_rev {A B} (f : A -> B) l : f <$> rev l = rev (f <$> l).
Proof. induction l as [|x l IH]; [done|]. cbn. by rewrite fmap_app, IH. Qed.

Context {C : Type} (component : string_id -> list byte -> C) (path_room : nat -> bool).

(** A part of a path: a component with the text of a string of the image. *)
Definition part_ok (part : C * list byte) : Prop :=
  exists name, part = (component name part.2, part.2) /\ 0 < name /\ part.2 <> [] /\ view_string v name = Some part.2.

(** A component of such a part. *)
Definition component_ok (c : C) : Prop := exists text, part_ok (c, text).

Lemma components_ok path : Forall part_ok path -> Forall component_ok path.*1.
Proof. intros H. apply Forall_fmap. eapply Forall_impl; [exact H|]. intros [c text] Hp. by exists text. Qed.

Lemma path_loop_spec n root identity reverse :
  answers (path_loop v component path_room n root identity reverse) (fun walked =>
    exists ups, walked.2 = reverse ++ ups /\ Forall part_ok ups /\ (walked.1 = root -> ascends root identity ups.*2)).
Proof.
  revert identity reverse. induction n as [|n IH]; intros identity reverse; cbn [path_loop].
  { apply answers_answer. exists []. rewrite app_nil_r. split; [done|]. split; [done|]. cbn. intros ->. constructor. }
  destruct (Z.eqb_spec identity root) as [->|Hne].
  { apply answers_answer. exists []. rewrite app_nil_r. split; [done|]. split; [done|]. constructor. }
  destruct (view_identity_name_some v Hv identity) as (name & Hname). rewrite Hname.
  pose proof (identity_name_unsigned _ _ Hname). destruct (view_string_some v Hv name) as (text & Htext); [done|]. rewrite Htext.
  outcome_steps. unbool. destruct (view_identity_parent_some v Hv identity) as (parent & Hparent). rewrite Hparent. outcome_steps.
  eapply answers_mono; [apply IH|]. cbv beta. intros walked (ups & -> & Hups & Hasc).
  exists ((component name text, text) :: ups). rewrite <- app_assoc. split; [done|]. split.
  - constructor; [|done]. exists name. cbn. split; [done|]. split; [lia|done].
  - intros Hr. cbn. econstructor; try done. by apply Hasc.
Qed.

(** The path of an object: its parts, and the way up from its identity. *)
Definition object_path_of (object : object_handle) (path : list (C * list byte)) : Prop :=
  Forall part_ok path /\ path <> [] /\ Z.of_nat (length path) <= u16_max /\
  exists root i, view_identity_root v = Some root /\ valid root = true /\ view_object_identity v object = Some i /\
    valid i = true /\ ascends root i (rev path.*2).

Lemma make_object_path_spec object : 0 <= object ->
  answers (make_object_path v component path_room object) (object_path_of object).
Proof.
  intros H0. unfold make_object_path. destruct (identity_from_raw_some v Hv 1) as (root & Hroot & _).
  fold (view_identity_root v) in Hroot. rewrite Hroot. destruct (view_object_identity_some v Hv object H0) as (i & Hi). rewrite Hi.
  outcome_steps. unbool. eapply answers_mono; [apply path_loop_spec|]. cbv beta. intros [reached reverse] (ups & E & Hups & Hasc).
  cbn [fst snd app] in *. subst reverse. outcome_steps. unbool. split; [by apply Forall_rev|].
  split; [intros E; apply (f_equal (@length _)) in E; rewrite length_rev in E; by destruct ups|].
  split; [by rewrite length_rev|]. exists root, i. do 4 (split; [done|]). rewrite fmap_rev, rev_involutive. by apply Hasc.
Qed.

Lemma parent_valid i p : view_identity_parent v i = Some p -> valid p = true -> valid i = true.
Proof.
  unfold view_identity_parent. intros (j & Hj & H)%bind_Some Hp.
  destruct (valid j) eqn:Ej; [|cbn in H; by injection H as <-].
  apply identity_from_raw_same in Hj as <-; [done|]. by intros ->.
Qed.

Section Named.
Context (Hn : self_naming v).

(** From the root down the way that leads up. *)
Lemma ascends_descends root i ups rest :
  view_identity_root v = Some root -> ascends root i ups -> i = root \/ kind i = kind_namespace_scope -> rest <> [] ->
  resolve_components v root (rev ups ++ rest) = resolve_components v i rest.
Proof.
  intros Hroot Hasc. revert rest. induction Hasc as [|i name text p ups Hne Hname Htext Hname0 Htext0 Hparent Hp _ IH];
    intros rest Hkind Hrest; [done|].
  destruct Hkind as [|Hkind]; [done|]. cbn [rev]. rewrite <- app_assoc. rewrite IH; [..|done].
  2: { destruct (identity_scoped v Hn i p) as [E|]; [done..|by right| |by right]. left. rewrite Hroot in E. by injection E. }
  cbn [app resolve_components]. rewrite bool_decide_false, (string_named v Hn name text) by (done || by eapply identity_name_unsigned).
  cbn [negb guard_query ask_handle answer bind_query]. rewrite (proj2 (Z.eqb_neq name 0)), (bool_decide_false (rest = [])) by done.
  cbn [answer bind_query]. pose proof (identity_named v Hn i p name Hparent Hp Hname Hname0) as Hfind. rewrite Hkind in Hfind.
  rewrite Hfind, (parent_valid i p) by done. done.
Qed.

Lemma object_path_resolved object path :
  0 < object -> object_path_of object path -> resolve_object v path.*2 = answer object.
Proof.
  intros Hobject (Hparts & Hne & _ & root & i & Hroot & Hrv & Hi & Hiv & Hasc). unfold resolve_object.
  rewrite bool_decide_false by (by destruct path). rewrite Hroot. cbn [negb guard_query answer bind_query]. rewrite Hrv.
  cbn [guard_query answer bind_query]. destruct (object_named v Hn object i ltac:(lia) Hi Hiv) as [Hkind Hfound].
  rewrite <- (rev_involutive path.*2). inversion Hasc as [E|j name text p ups Hne' Hname Htext Hname0 Htext0 Hparent Hp Hasc' E1 E2].
  { exfalso. destruct path as [|part path]; [done|]. by apply (app_cons_not_nil _ _ _) in H. }
  cbn [rev]. rewrite (ascends_descends root p); [|done|done| |done].
  2: { destruct (identity_scoped v Hn i p) as [E|]; [done..|by left| |by right]. left. rewrite Hroot in E. by injection E. }
  cbn [resolve_components]. rewrite bool_decide_false, (string_named v Hn name text) by (done || by eapply identity_name_unsigned).
  cbn [negb guard_query ask_handle answer bind_query]. rewrite (proj2 (Z.eqb_neq name 0)) by done. cbn [answer bind_query].
  rewrite (bool_decide_true ([] = [])) by done.
  pose proof (identity_named v Hn i p name Hparent Hp Hname Hname0) as Hfind. rewrite Hkind in Hfind. rewrite Hfind, Hiv.
  cbn [guard_query answer bind_query]. rewrite Hfound. cbn. by rewrite (proj2 (Z.eqb_neq object 0)) by lia.
Qed.

(** A path that is resolved is the one of its object. *)
Lemma components_ascend root p up components object :
  view_identity_root v = Some root -> resolve_components v p components = answer object -> ascends root p up -> valid p = true ->
  exists i, view_find_object v i = Some object /\ ascends root i (rev components ++ up).
Proof.
  intros Hroot. revert p up. induction components as [|c rest IH]; intros p up H Hup Hp; [done|]. cbn [resolve_components] in H.
  answered H. apply handle_answer in Ha as [Hfind Hname]. unbool.
  destruct (view_find_identity v p a _) as [found|] eqn:Ef; [|done]. answered H.
  assert (found <> 0) as Hfound by (intros ->; done).
  destruct (find_identity_sound v _ _ _ _ Ef Hfound) as (_ & Hkind & Hparent & Hid).
  apply find_string_sound in Hfind; [|done].
  assert (found <> root) as Hroot'.
  { intros ->. unfold view_identity_parent in Hparent. destruct (identity_from_raw v root) as [j|] eqn:Ej; [|done]. cbn in Hparent.
    unfold view_identity_root in Hroot. apply identity_from_raw_same in Hroot as ->; [|done].
    destruct (Z.eq_dec j 0) as [->|Hj]; [by injection Hparent as <-|]. apply identity_from_raw_same in Ej as ->; [|done].
    cbn in Hparent. by injection Hparent as <-. }
  assert (ascends root found (c :: up)) as Hasc by (econstructor; done).
  cbn [rev]. rewrite <- app_assoc. case_bool_decide as Hlast; [|by apply (IH found)].
  apply handle_answer in H as [H _]. subst rest. by exists found.
Qed.

Lemma object_path_exact object path components :
  resolve_object v components = answer object -> object <> 0 -> object_path_of object path -> path.*2 = components.
Proof.
  unfold resolve_object. intros H Hobject (_ & _ & _ & root & i & Hroot & Hrv & Hi & _ & Hasc). answered H. rewrite Hroot in H.
  answered H. destruct (components_ascend root root [] components object Hroot H) as (j & Hj & Hasc'); [constructor|done|].
  apply (object_found v Hn) in Hj; [|done]. rewrite Hi in Hj. injection Hj as <-. rewrite app_nil_r in Hasc'.
  pose proof (f_equal (@rev _) (ascends_unique _ _ _ _ Hasc Hasc')) as E. by rewrite !rev_involutive in E.
Qed.
End Named.
End Names.

(** ** What a traversal adds *)

Section Walk.
Context (v : compiled_view) (Hv : view_ok v) (bindings : runtime_binding_index) (Hb : bindings_words bindings).
Context (runtime : list byte).
Context {C : Type} (component : string_id -> list byte -> C).
Context (component_room record_room path_room : nat -> bool).
(** What is said of the values needs the names, what is said of the places does not. *)
Context (naming : Prop) (Hnaming : naming -> self_naming v).

Abbreviation size := (Z.of_nat (length runtime)).
Abbreviation part_ok := (part_ok v component).

(** A scalar as it was found: the path of its object and the one of its members. *)
Record found_scalar := FoundScalar {
  found_object : list (C * list byte);
  found_members : list (C * list byte);
  found_value : runtime_ic_scalar_value
}.

Definition found_path (e : found_scalar) : runtime_ic_path_view := PathView (found_object e).*2 (found_members e).*2.

(** The type of a null pointer has a size, but its values are no initial conditions. *)
Definition recordable (t : intrinsic_type) : Prop := t <> ty_none /\ t <> void_type /\ t <> nullptr_type.

Definition found_ok (e : found_scalar) : Prop :=
  Forall part_ok (found_object e) /\ Forall part_ok (found_members e) /\ found_object e <> [] /\
  Z.of_nat (length (found_object e)) <= u16_max /\ Z.of_nat (length (found_members e)) <= u16_max /\
  0 < scalar_size (found_value e) <= scalar_capacity /\ length (scalar_bytes (found_value e)) = 16%nat /\
  recordable (scalar_type (found_value e)) /\
  (naming -> snapshot_runtime_ic_scalar v bindings runtime (found_path e) = answer (found_value e)).

(** The components hold a path at a place. *)
Definition holds (components : list C) (begin : Z) (path : list (C * list byte)) : Prop :=
  0 <= begin /\ begin + Z.of_nat (length path) <= Z.of_nat (length components) /\
  sublist begin (Z.of_nat (length path)) components = path.*1.

Definition placed (components : list C) (r : runtime_ic_native_record_source) (e : found_scalar) : Prop :=
  native_object_count r = Z.of_nat (length (found_object e)) /\ native_member_count r = Z.of_nat (length (found_members e)) /\
  holds components (native_object_begin r) (found_object e) /\ holds components (native_member_begin r) (found_members e) /\
  native_value r = found_value e.

(** The scalars are counted. *)
Definition tallied (s : snapshot_state (C:=C)) : Prop :=
  stats_scalars (snap_stats s) = Z.of_nat (length (snap_records s)) /\ Z.of_nat (length (snap_records s)) <= u32_max.

Definition added (s s' : snapshot_state (C:=C)) : Prop :=
  exists cs rs es, snap_components s' = snap_components s ++ cs /\ snap_records s' = snap_records s ++ rs /\
    Forall2 (placed (snap_components s')) rs es /\ Forall found_ok es /\ (tallied s -> tallied s') /\
    Forall (component_ok v component) cs.

(** Inside of one object. *)
Definition grown (s s' : snapshot_state (C:=C)) : Prop :=
  added s s' /\ stats_objects (snap_stats s') = stats_objects (snap_stats s).

Lemma holds_app components more begin path : holds components begin path -> holds (components ++ more) begin path.
Proof.
  intros (H0 & Hend & Hs). split; [done|]. split; [rewrite length_app; lia|]. rewrite <- Hs. unfold sublist.
  rewrite drop_app_le by lia. rewrite take_app_le; [done|]. rewrite length_drop. lia.
Qed.

Lemma holds_end components path : holds (components ++ path.*1) (Z.of_nat (length components)) path.
Proof.
  split; [lia|]. split; [rewrite length_app, length_fmap; lia|]. unfold sublist.
  rewrite !Nat2Z.id, drop_app_length. apply take_ge. by rewrite length_fmap.
Qed.

Lemma placed_more components more r e : placed components r e -> placed (components ++ more) r e.
Proof. intros (? & ? & ? & ? & ?). split; [done|]. split; [done|]. split; [by apply holds_app|]. by split; [apply holds_app|]. Qed.

Lemma added_components s s' cs :
  snap_components s' = snap_components s ++ cs -> snap_records s' = snap_records s ->
  stats_scalars (snap_stats s') = stats_scalars (snap_stats s) -> Forall (component_ok v component) cs -> added s s'.
Proof.
  intros Hc Hr Hs Hok. exists cs, [], []. rewrite app_nil_r. do 4 (split; [done || constructor|]). unfold tallied. by rewrite Hr, Hs.
Qed.

Lemma added_trans s1 s2 s3 : added s1 s2 -> added s2 s3 -> added s1 s3.
Proof.
  intros (cs & rs & es & Hc & Hr & Hp & Hg & Ht & Hok) (cs' & rs' & es' & Hc' & Hr' & Hp' & Hg' & Ht' & Hok').
  exists (cs ++ cs'), (rs ++ rs'), (es ++ es'). split; [by rewrite Hc', Hc, app_assoc|]. split; [by rewrite Hr', Hr, app_assoc|].
  split.
  - apply Forall2_app; [|done]. eapply Forall2_impl; [exact Hp|]. intros r e H. rewrite Hc'. by apply placed_more.
  - split; [by apply Forall_app|]. split; [auto|by apply Forall_app].
Qed.

Lemma walk_unchanged s s' :
  snap_components s' = snap_components s -> snap_records s' = snap_records s ->
  stats_scalars (snap_stats s') = stats_scalars (snap_stats s) -> stats_objects (snap_stats s') = stats_objects (snap_stats s) ->
  grown s s'.
Proof. intros Hc Hr Hs Ho. split; [|done]. apply (added_components s s' []); [by rewrite app_nil_r|done..]. Qed.

Lemma walk_grown s1 s2 s3 : grown s1 s2 -> grown s2 s3 -> grown s1 s3.
Proof. intros [H1 E1] [H2 E2]. split; [by eapply added_trans|congruence]. Qed.

Lemma grown_components s s' begin path : grown s s' -> holds (snap_components s) begin path -> holds (snap_components s') begin path.
Proof. intros [(cs & rs & es & -> & _) _] H. by apply holds_app. Qed.

Lemma grown_structural s : grown s (with_stats count_structural s).
Proof. by apply walk_unchanged. Qed.
Lemma grown_unaddressable s : grown s (with_stats count_unaddressable s).
Proof. by apply walk_unchanged. Qed.

(** ** Types *)

Definition shape_of (type : type_ref) (shape : type_shape) : Prop :=
  shape_loop v (S (Z.to_nat (section_count (section v sec_derived_types)))) type = answer shape.

Definition shape_matches (ty : type_ref) (shape : type_shape) : Prop :=
  match shape with
  | shape_intrinsic t => ref_kind ty = ref_intrinsic /\ t = intrinsic_of_number (payload ty)
  | shape_named named => ref_kind ty = ref_named /\ payload ty <> 0 /\ named = view_type_at v (payload ty - 1) /\ named <> 0
  | shape_structural => ref_kind ty = ref_derived
  end.

(** The loop over the qualifiers is the one of the resolution. *)
Lemma shape_stripped type shape constant : shape_of type shape ->
  exists ty c, strip_cv v type constant = Some (Some (ty, c)) /\ shape_matches ty shape.
Proof.
  unfold shape_of, strip_cv. generalize (S (Z.to_nat (section_count (section v sec_derived_types)))) as n. intros n.
  revert type constant. induction n as [|n IH]; intros type constant H; cbn [shape_loop] in H; [done|]. cbn [strip_loop].
  destruct (ref_kind type) eqn:Ek.
  - done.
  - injection H as <-. rewrite bool_decide_false by done. by eexists _, _.
  - answered H. unbool. injection H as <-. rewrite bool_decide_false by done. eexists _, _. split; [done|]. by repeat split.
  - rewrite bool_decide_true by done. cbn [negb]. answered H. destruct (view_derived v type) as [[d|]|]; [|done..]. injection Ha as <-.
    destruct (derived_kind d); [by apply IH..| | | | |]; injection H as <-; by eexists _, _.
Qed.

Lemma shape_loop_ends type : answers (shape_loop v (S (Z.to_nat (section_count (section v sec_derived_types)))) type) (fun shape =>
  match shape with shape_named named => 0 <= named | _ => True end).
Proof.
  generalize (S (Z.to_nat (section_count (section v sec_derived_types)))) as n. intros n. revert type.
  induction n as [|n IH]; intros type; cbn [shape_loop]; outcome_steps.
  destruct (ref_kind type); outcome_steps; [done|cbn; apply view_type_at_unsigned|].
  apply answers_ask; [by apply view_derived_some|]. intros d _. cbv beta. destruct (derived_kind d); outcome_steps; auto.
Qed.

(** ** One object *)

Section Object.
Context (object_path : list (C * list byte)) (object_begin : Z) (start : place).
Context (Hparts : Forall part_ok object_path) (Hne : object_path <> []) (Hshort : Z.of_nat (length object_path) <= u16_max).
(** The paths below the object are resolved from its place. *)
Context (Hstart : naming -> forall members,
  resolve_runtime_ic_scalar v bindings size (PathView object_path.*2 members) =
    bind_query (resolve_members v bindings size members start) (scalar_at v bindings size)).

Abbreviation object_count := (Z.of_nat (length object_path)).
Abbreviation emit_scalar := (emit_scalar v bindings runtime component_room record_room object_path object_begin object_count).
Abbreviation walk_bases := (walk_bases v bindings).
Abbreviation walk_members := (walk_members v bindings component path_room).
Abbreviation walk_record := (walk_record v bindings runtime component component_room record_room path_room object_path object_begin object_count).
Abbreviation walk_type := (walk_type v bindings runtime component component_room record_room path_room object_path object_begin object_count).

(** The members lead from the object to a place with this offset and type, in every memory
    that the place lies in. *)
Definition reaches (members : list (C * list byte)) (offset : Z) (type : type_ref) : Prop :=
  exists c d, forall size, offset < size -> resolve_members v bindings size members.*2 start = answer (Place offset type c d).

(** What is known of a place whose path needs no search through bases. *)
Definition direct (inherited : bool) (members : list (C * list byte)) (offset : Z) (shape : type_shape) : Prop :=
  naming -> inherited = false -> exists type, reaches members offset type /\ shape_of type shape.

Definition ready (s : snapshot_state (C:=C)) : Prop := holds (snap_components s) object_begin object_path.

Lemma emit_scalar_spec offset type inherited members s :
  0 <= offset -> Forall part_ok members -> ready s -> direct inherited members offset (shape_intrinsic type) ->
  answers (emit_scalar offset type inherited members s) (grown s).
Proof.
  intros H0 Hmembers Hready Hdirect. unfold RuntimeIcSnapshot.emit_scalar. cbv zeta. outcome_steps.
  destruct (_ || _) eqn:Etype in |- *; [apply answers_answer, grown_structural|].
  destruct (binding_intrinsic_size bindings type) as [n|] eqn:En; [|apply answers_answer, grown_structural].
  destruct (_ || _) eqn:Esize in |- *; [apply answers_answer, grown_structural|]. unfold scalar_capacity in *. unbool. outcome_steps. unbool.
  assert (0 < n) as Hn by (by eapply binding_size_positive).
  destruct (bytes_at_some runtime offset n) as (bs & Hbs & Hl); [lia..|]. rewrite Hbs, store_padded by lia.
  set (value := ScalarValue type n (padded bs)).
  assert (answers (if inherited then match resolve_runtime_ic_scalar v bindings size
      (PathView (part_texts object_path) (part_texts members)) with
      | None => None
      | Some (inl _) => answer false
      | Some (inr target) => answer ((target_offset target =? offset) && bool_decide (target_type target = type) && (target_size target =? n))
      end else answer true : snapshot_outcome bool) (fun addressable => addressable = true -> naming ->
        snapshot_runtime_ic_scalar v bindings runtime (PathView object_path.*2 members.*2) = answer value)) as Hpath.
  { destruct inherited.
    - destruct (resolve_scalar_spec v Hv bindings Hb size (PathView object_path.*2 members.*2)) as (o & Ho & _).
      unfold part_texts. rewrite Ho. destruct o as [r|target]; apply answers_answer; [done|]. intros E _. unbool.
      destruct target as [o t k f]; cbn in *; subst. by rewrite (snapshot_reads v Hv bindings Hb runtime _ _ bs Ho Hbs).
    - apply answers_answer. intros _ Hn'. destruct (Hdirect Hn' eq_refl) as (ty & (c & d & Hreach) & Hshape).
      destruct (shape_stripped _ _ c Hshape) as (ty' & c' & Hstrip & Hk & Ht).
      eapply (snapshot_reads v Hv bindings Hb runtime _ (ScalarTarget offset type n _)); [|done].
      rewrite Hstart, Hreach by (done || lia). cbn [bind_query answer]. unfold scalar_at. cbn [place_type place_constant place_offset].
      rewrite Hstrip. cbn [ask bind_query answer fst snd]. rewrite Hk, <- Ht, En.
      rewrite (proj2 (Z.eqb_neq n 0)), !(proj2 (Z.ltb_ge _ _)) by (unfold scalar_capacity; lia). done. }
  eapply answers_mono; [exact Hpath|]. cbv beta. intros addressable Hread. destruct addressable; cbn [negb];
    [|apply answers_answer, grown_unaddressable]. outcome_steps. unbool. outcome_steps.
  unfold u32_max, u16_max in *. unfold u32, u16. rewrite !Z.mod_small by lia.
  split; [|done]. exists members.*1, [NativeRecord object_begin object_count (Z.of_nat (length members)) (Z.of_nat (length (snap_components s))) value],
    [FoundScalar object_path members value]. cbn [with_stats snap_components snap_records snap_stats]. do 2 (split; [done|]). split; [|split; [|split; [|by apply components_ok]]].
  - constructor; [|constructor]. split; [done|]. split; [done|]. cbn. split; [by apply holds_app|]. by split; [apply holds_end|].
  - constructor; [|constructor]. do 3 (split; [done|]). split; [done|]. unfold u16_max. split; [done|]. cbn. unfold scalar_capacity.
    split; [lia|]. split; [unfold padded; rewrite length_app, length_replicate; lia|]. split; [by split|by apply Hread].
  - intros [Ht Hc]. unfold tallied. cbn. unfold u32, u32_max in *. rewrite length_app. cbn [length]. rewrite Z.mod_small by lia. lia.
Qed.

(** ** The traversal of a type *)

Lemma binding_base_unsigned i o : binding_base_offset bindings i = Some o -> 0 <= o.
Proof. apply record_offset_word, (base_offsets_words _ Hb). Qed.

Lemma binding_member_unsigned i o : binding_member_offset bindings i = Some o -> 0 <= o.
Proof. apply record_offset_word, (member_offsets_words _ Hb). Qed.

Lemma resolve_members_app size left right p :
  resolve_members v bindings size (left ++ right) p =
    bind_query (resolve_members v bindings size left p) (resolve_members v bindings size right).
Proof.
  revert p. induction left as [|c left IH]; intros p; [done|]. cbn [app resolve_members].
  destruct (resolve_member _ _ _ c p) as [[r|q]|]; cbn; [done|apply IH|done].
Qed.

Lemma reaches_member members offset type owner m entry name text record construction delta location :
  self_naming v -> reaches members offset type -> shape_of type (shape_named owner) -> 0 <= offset ->
  view_type v owner = Some (Some entry) -> tv_defined entry = true -> member_valid m = true ->
  view_find_member v owner name = Some m -> view_member v owner m = Some (Some record) ->
  view_member_construction v owner m = Some (Some construction) -> find_string v text = Some name -> name <> 0 -> text <> [] ->
  binding_member_offset bindings (range_begin (tv_members entry) + m) = Some delta -> 0 <= delta ->
  add_u64 offset delta = Some location ->
  reaches (members ++ [(component name text, text)]) location (mv_type record).
Proof.
  intros Hn (c & d & Hreach) Hshape H0 Hentry Hdefined Hvalid Hfind Hmember Hconstruction Hstring Hname Htext Hoffset Hm0 Hadd.
  destruct (shape_stripped _ _ c Hshape) as (ty & c' & Hstrip & Hk & Hp & -> & Howner).
  eexists c', _. intros size' Hsize. assert (location = offset + delta) as Hl.
  { unfold add_u64 in Hadd. destruct (_ <? _); [done|]. by injection Hadd. }
  rewrite fmap_app, resolve_members_app, Hreach by lia. cbn [fmap list_fmap resolve_members bind_query answer].
  unfold resolve_member. rewrite bool_decide_false by done. cbn [negb guard_query answer bind_query place_type place_constant place_offset].
  rewrite Hstrip. cbn [ask bind_query answer fst snd]. rewrite bool_decide_true by done. cbn [guard_query answer bind_query].
  rewrite (proj2 (Z.eqb_neq (payload ty) 0)), (proj2 (Z.eqb_neq (view_type_at v (payload ty - 1)) 0)) by done.
  cbn [negb guard_query answer bind_query]. rewrite Hstring. cbn [ask_handle]. rewrite (proj2 (Z.eqb_neq name 0)) by done.
  cbn [answer bind_query find_member_recursive]. rewrite (proj2 (Z.eqb_neq (view_type_at v (payload ty - 1)) 0)) by done.
  rewrite Hentry, Hdefined. cbn [negb]. rewrite Hfind, Hvalid, Hmember, Hconstruction, Hoffset. cbn [RuntimeIc.member_offset]. rewrite Hadd.
  rewrite (proj2 (Z.ltb_lt _ _)) by done. done.
Qed.

Lemma grown_ready s s' : grown s s' -> ready s -> ready s'.
Proof. apply grown_components. Qed.

(** What both walks promise with a given fuel. *)
Definition records_walked (fuel : nat) : Prop := forall type offset inherited members s,
  0 <= type -> 0 <= offset -> Forall part_ok members -> ready s -> direct inherited members offset (shape_named type) ->
  answers (walk_record fuel type offset inherited members s) (grown s).
Definition types_walked (fuel : nat) : Prop := forall type offset inherited members s,
  0 <= offset -> Forall part_ok members -> ready s ->
  (naming -> inherited = false -> reaches members offset type) ->
  answers (walk_type fuel type offset inherited members s) (grown s).

Lemma walk_bases_spec fuel offset members n global s :
  records_walked fuel -> 0 <= offset -> Forall part_ok members -> 0 <= global -> ready s ->
  answers (walk_bases (walk_record fuel) offset members n global s) (grown s).
Proof.
  intros Hwalk H0 Hmembers. revert global s. induction n as [|n IH]; intros global s Hg Hready; cbn [RuntimeIcSnapshot.walk_bases].
  { apply answers_answer. by apply walk_unchanged. }
  outcome_steps. apply answers_ask; [by apply view_base_at_some|]. intros base Hbase. cbv beta.
  destruct (bv_virtual base).
  { eapply answers_mono; [apply IH; [lia|done]|]. intros s' Hs. eapply walk_grown; [apply grown_structural|done]. }
  destruct (binding_base_offset bindings global) as [o|] eqn:Eo; [|apply answers_refuse].
  pose proof (binding_base_unsigned _ _ Eo).
  destruct (add_u64 offset o) as [location|] eqn:El; [|apply answers_refuse].
  assert (0 <= location). { unfold add_u64 in El. destruct (_ <? _); [done|]. injection El as <-. lia. }
  outcome_steps. eapply answers_mono; [apply Hwalk; [by eapply view_base_handle|done..|by intros _]|]. cbv beta. intros s1 Hs1.
  eapply answers_mono; [apply IH; [lia|by eapply grown_ready]|]. intros s2 Hs2. by eapply walk_grown.
Qed.

Lemma walk_members_spec fuel type entry offset inherited members n local s :
  types_walked fuel -> 0 <= type -> 0 <= offset -> Forall part_ok members ->
  view_type v type = Some (Some entry) -> tv_defined entry = true -> direct inherited members offset (shape_named type) ->
  0 <= local -> ready s ->
  answers (walk_members (walk_type fuel) type (range_begin (tv_members entry)) offset inherited members n local s) (grown s).
Proof.
  intros Hwalk Ht H0 Hmembers Hentry Hdefined Hdirect. revert local s.
  induction n as [|n IH]; intros local s Hlocal Hready; cbn [RuntimeIcSnapshot.walk_members].
  { apply answers_answer. by apply walk_unchanged. }
  outcome_steps. apply answers_ask; [by apply view_member_some|]. intros member Hmember. cbv beta.
  pose proof (member_name_unsigned v _ _ _ Hmember). destruct (view_string_some v Hv (mv_name member)) as (text & Htext); [done|].
  rewrite Htext. outcome_steps. unbool.
  destruct (binding_member_offset bindings (range_begin (tv_members entry) + local)) as [o|] eqn:Eo; [|apply answers_refuse].
  pose proof (binding_member_unsigned _ _ Eo).
  destruct (add_u64 offset o) as [location|] eqn:El; [|apply answers_refuse].
  assert (0 <= location). { pose proof El as E. unfold add_u64 in E. destruct (_ <? _); [done|]. injection E as <-. lia. }
  outcome_steps. eapply answers_mono; [apply Hwalk; [done| |done|]|].
  - apply Forall_app. split; [done|]. constructor; [|constructor]. exists (mv_name member). cbn. split; [done|]. split; [lia|done].
  - intros Hn Hi. destruct (Hdirect Hn Hi) as (ty & Hreach & Hshape). destruct (member_named v (Hnaming Hn) _ _ _ Ht Hlocal Hmember) as (Hfind & k & Hk).
    assert (member_valid local = true) as Hvalid.
    { unfold view_member in Hmember. rewrite Hentry in Hmember. cbn in Hmember. rewrite Hdefined in Hmember. by destruct (member_valid local). }
    eapply reaches_member; [by apply Hnaming|exact Hreach|exact Hshape|done|exact Hentry|done|exact Hvalid|exact Hfind|exact Hmember|
      exact Hk|by apply (string_named v (Hnaming Hn))|done|done|exact Eo|done|exact El].
  - cbv beta. intros s1 Hs1. eapply answers_mono; [apply IH; [lia|by eapply grown_ready]|]. intros s2 Hs2. by eapply walk_grown.
Qed.

Lemma walks fuel : records_walked fuel /\ types_walked fuel.
Proof.
  induction fuel as [|fuel [IHr IHt]]; split; intros type offset inherited members s.
  - intros. apply answers_refuse.
  - intros. apply answers_refuse.
  - intros Ht H0 Hmembers Hready Hdirect. cbn [RuntimeIcSnapshot.walk_record]. outcome_steps.
    apply answers_ask; [by apply view_type_some|]. intros entry Hentry. cbv beta. outcome_steps.
    eapply answers_mono; [apply walk_bases_spec; [done..|by eapply view_type_bases|done]|]. cbv beta. intros s1 Hs1.
    eapply answers_mono; [apply walk_members_spec; try done; by eapply grown_ready|]. intros s2 Hs2. by eapply walk_grown.
  - intros H0 Hmembers Hready Hdirect. cbn [RuntimeIcSnapshot.walk_type]. outcome_steps.
    destruct (shape_loop_ends type) as (o & Ho & Hnamed). rewrite Ho. destruct o as [r|shape]; [apply answers_refuse|].
    apply answers_answer. specialize (Hnamed _ eq_refl).
    destruct shape as [t|named|]; [apply emit_scalar_spec|apply IHr|apply answers_answer, grown_structural]; try done;
      intros Hn Hi; exists type; split; auto.
Qed.

End Object.

(** ** The traversal of the project *)

Abbreviation walk_object := (walk_object v bindings runtime component component_room record_room path_room).
Abbreviation walk_objects := (walk_objects v bindings runtime component component_room record_room path_room).

Context (Hvalid : view_valid v = true) (Hne : runtime <> []).

Lemma object_members_resolved object path entry offset members :
  self_naming v -> 0 < object -> object_path_of v component object path -> view_object v object = Some (Some entry) ->
  binding_object_offset bindings object = Some offset -> offset < size ->
  resolve_runtime_ic_scalar v bindings size (PathView path.*2 members) =
    bind_query (resolve_members v bindings size members (Place offset (object_type entry) false (negb (non_default_initializer entry))))
      (scalar_at v bindings size).
Proof.
  intros Hn Hobject Hpath Hentry Hoffset Hsize. unfold resolve_runtime_ic_scalar. cbn [path_object path_members].
  rewrite Hvalid, (proj2 (Z.eqb_neq size 0)) by (by destruct runtime).
  rewrite bool_decide_false by (destruct Hpath as (_ & Hp & _); by destruct path).
  cbn [negb andb guard_query answer bind_query]. rewrite (object_path_resolved v component Hn object path) by done.
  cbn [answer bind_query]. rewrite Hentry. cbn [ask answer bind_query]. rewrite Hoffset, (proj2 (Z.ltb_lt _ _)) by done. done.
Qed.

(** The components of an object without scalars are dropped again. *)
Lemma kept_components s0 s s1 cs :
  snap_components s = snap_components s0 ++ cs -> snap_records s = snap_records s0 ->
  stats_scalars (snap_stats s) = stats_scalars (snap_stats s0) -> Forall (component_ok v component) cs -> added s s1 ->
  let components := if (length (snap_records s1) =? length (snap_records s0))%nat
                    then take (length (snap_components s0)) (snap_components s1) else snap_components s1 in
  added s0 (with_stats count_object (SnapshotState components (snap_records s1) (snap_stats s1))).
Proof.
  intros Hc Hr Hs Hok Hadded. pose proof (added_trans _ _ _ (added_components s0 s cs Hc Hr Hs Hok) Hadded) as Hall. cbv zeta.
  destruct Hall as (cs' & rs & es & Hc' & Hr' & Hp & Hg & Ht & Hok'). destruct (Nat.eqb_spec (length (snap_records s1)) (length (snap_records s0))) as [E|E].
  - assert (rs = []) as ->. { rewrite Hr', length_app in E. apply nil_length_inv. lia. }
    apply Forall2_nil_inv_l in Hp as ->. rewrite Hc', take_app_length. exists [], [], [].
    cbn [snap_components snap_records with_stats snap_stats]. rewrite Hr', !app_nil_r in *.
    do 4 (split; [done || constructor|]). split; [|constructor]. intros [H1 H2]%Ht. rewrite Hr' in H1, H2. done.
  - exists cs', rs, es. do 4 (split; [done|]). by split.
Qed.

Definition objects_counted (n : Z) (s s' : snapshot_state (C:=C)) : Prop :=
  stats_objects (snap_stats s) + n <= u32_max -> 0 <= stats_objects (snap_stats s) ->
  stats_objects (snap_stats s') = stats_objects (snap_stats s) + n.

Lemma walk_object_spec object s : 0 < object ->
  answers (walk_object object s) (fun s' => added s s' /\ objects_counted 1 s s').
Proof.
  intros H0. unfold RuntimeIcSnapshot.walk_object. outcome_steps. apply answers_ask; [apply view_object_some; [done|lia]|]. intros entry Hentry.
  cbv beta. destruct (binding_object_offset bindings object) as [offset|] eqn:Eo; [|apply answers_refuse]. outcome_steps. unbool.
  eapply answers_mono; [apply make_object_path_spec; [done|lia]|]. cbv beta. intros path Hpath. cbv zeta. outcome_steps. unbool.
  pose proof Hpath as (Hparts & Hp & Hshort & _). unfold u16, u32. unfold u16_max, u32_max in *. rewrite !Z.mod_small by lia.
  set (s0 := SnapshotState (snap_components s ++ path.*1) (snap_records s) (snap_stats s)).
  assert (holds (snap_components s0) (Z.of_nat (length (snap_components s))) path) as Hready by apply holds_end.
  eapply answers_mono.
  { apply (walks path (Z.of_nat (length (snap_components s))) (Place offset (object_type entry) false (negb (non_default_initializer entry))));
      [done|done|by unfold u16_max| |by eapply binding_object_unsigned|done|exact Hready|].
    - intros Hn%Hnaming members. apply (object_members_resolved object); [done|lia|done..].
    - intros _ _. by eexists false, _. }
  cbv beta. intros s1 [Hadded Hobjects]. outcome_steps. split.
  - eapply (kept_components s s0); [done..| |done]. by apply components_ok.
  - unfold objects_counted. cbn. rewrite Hobjects. cbn. unfold u32, u32_max. intros. rewrite Z.mod_small by lia. done.
Qed.

Lemma walk_objects_spec n index s : 0 <= index ->
  answers (walk_objects n index s) (fun s' => added s s' /\ objects_counted (Z.of_nat n) s s').
Proof.
  revert index s. induction n as [|n IH]; intros index s H0; cbn [RuntimeIcSnapshot.walk_objects].
  { apply answers_answer. split; [apply (added_components s s []); [by rewrite app_nil_r|done..]|]. unfold objects_counted. lia. }
  cbv zeta. outcome_steps. unbool. assert (0 <= view_object_at v index).
  { unfold view_object_at. destruct (_ <? _); [apply Z.mod_pos_bound|]; lia. }
  eapply answers_mono; [apply walk_object_spec; lia|]. cbv beta. intros s1 [Ha Ea].
  eapply answers_mono; [apply IH; lia|]. cbv beta. intros s2 [Ha2 Ea2]. split; [by eapply added_trans|].
  unfold objects_counted in *. lia.
Qed.
End Walk.

Lemma snapshot_project_spec v bindings runtime {C} (component : string_id -> list byte -> C) component_room record_room path_room reserved :
  view_ok v -> bindings_words bindings ->
  answers (snapshot_project v bindings runtime component component_room record_room path_room reserved) (fun s =>
    exists es, Forall2 (placed (snap_components s)) (snap_records s) es /\ Forall (found_ok v bindings runtime component (self_naming v)) es /\
      tallied s /\ stats_objects (snap_stats s) = object_count_value v /\ Forall (component_ok v component) (snap_components s)).
Proof.
  intros Hv Hb. unfold snapshot_project. outcome_steps. unbool. eapply answers_mono; [by apply (walk_objects_spec v Hv bindings Hb runtime component component_room record_room path_room (self_naming v))|].
  cbv beta. intros s [(cs & rs & es & Hc & Hr & Hp & Hg & Ht & Hok) Ho]. cbn [snap_components snap_records app] in *. subst.
  exists es. do 2 (split; [done|]). split; [apply Ht; by split|]. split; [|done].
  pose proof (ok_object_count v Hv). unfold objects_counted in Ho. cbn in Ho. rewrite Ho; [lia| |done].
  unfold u32_max, maximum_handle in *. lia.
Qed.
