(* ===== verification/IcSnapshotExact.v ===== *)
(** The snapshot of a project holds every scalar that a path leads to.

    The initial conditions of a whole project: a memory is snapshot into a binary image, the
    image is written into another memory, and every scalar reads there as it did. *)

From S2P Require Import Prelude RuntimeValue StringTable Identity GraphData ImageBytes CompiledView CompiledBounds CompiledProject ProjectView RuntimeLayout Outcome RuntimeQuery QueryBounds RuntimeIc IcScalar RuntimeIcCodec IcEncode IcBind IcRoundtrip IcBounds RuntimeIcReset IcResetRecords IcRestore RuntimeIcSnapshot IcSnapshot.

Local Open Scope Z_scope.
Local Open Scope outcome_scope.

Lemma answers_elim {R A} (m : outcome R A) Q a : answers m Q -> m = answer a -> Q a.
Proof. intros (o & -> & H) [= ->]. by apply H. Qed.

Lemma add_u64_sum a b c : add_u64 a b = Some c -> c = a + b /\ a <= size_max - b.
Proof. unfold add_u64. destruct (Z.ltb_spec (size_max - b) a); [done|]. by intros [= <-]. Qed.

(** A member that is found through the bases was found in one of them. *)
Lemma search_bases_from v bindings search n global state m :
  search_bases v bindings search global n state = Some (member_found m) ->
  state = Some m \/
  exists k base o candidate, global <= k < global + Z.of_nat n /\ view_base_at v k = Some (Some base) /\ bv_virtual base = false /\
    binding_base_offset bindings k = Some o /\ search (bv_type base) = Some (member_found candidate) /\
    add_u64 o (member_offset candidate) = Some (member_offset m) /\ member_type m = member_type candidate.
Proof.
  revert global state. induction n as [|n IH]; intros global state H; cbn [search_bases] in H.
  { left. by destruct state; simplify_eq. }
  destruct (view_base_at v global) as [[base|]|] eqn:Hbase; [|done..]. destruct (bv_virtual base) eqn:Hvirtual; [done|].
  destruct (binding_base_offset bindings global) as [o|] eqn:Ho; [|done].
  destruct (search (bv_type base)) as [[|c| |]|] eqn:Hsearch; try done.
  - destruct (IH _ _ H) as [|(k & b & o' & c & Hk & Hrest)]; [by left|]. right. exists k, b, o', c. split; [lia|done].
  - destruct (add_u64 o (member_offset c)) as [combined|] eqn:Ec; [|done]. destruct state as [m'|]; [done|].
    destruct (IH _ _ H) as [[= <-]|(k & b & o' & c' & Hk & Hrest)]; right.
    + exists global, base, o, c. by split; [lia|].
    + exists k, b, o', c'. split; [lia|done].
Qed.

(** The two readings of a member agree. *)
Lemma member_at_same v t m e record r :
  view_type v t = Some (Some e) -> view_member v t m = Some (Some record) ->
  view_member_at v (range_begin (tv_members e) + m) = Some (Some r) -> record = r.
Proof.
  intros He. unfold view_member, view_member_at. rewrite He. cbn [mbind option_bind].
  destruct (_ || _); [done|]. destruct (_ <=? _); [done|]. unfold read_member.
  destruct (record_at _ _ _ _) as [a|]; [|done]. cbn [mbind option_bind].
  destruct (get_u32 v a) as [name|]; [|done]. cbn [mbind option_bind]. destruct (get_u32 v (a + 4)) as [ty|]; [|done]. cbn [mbind option_bind].
  destruct (get_u8 v (a + 8)) as [access|]; [|done]. cbn [mbind option_bind].
  destruct (get_zero_bytes v (a + 9) 3) as [zeros|]; [|done]. cbn [mbind option_bind].
  repeat case_match; congruence.
Qed.

Section Finds.
Context (v : compiled_view) (Hv : view_ok v) (bindings : runtime_binding_index) (Hb : bindings_words bindings).
Context (runtime : list byte).
Context {C : Type} (component : string_id -> list byte -> C).
Context (component_room record_room path_room : nat -> bool).

Abbreviation size := (Z.of_nat (length runtime)).
Abbreviation part_ok := (part_ok v component).

Section Object.
Context (object_path : list (C * list byte)) (object_begin : Z).
Context (Hparts : Forall part_ok object_path) (Hne : object_path <> []) (Hshort : Z.of_nat (length object_path) <= u16_max).

Abbreviation object_count := (Z.of_nat (length object_path)).
Abbreviation emit_scalar := (emit_scalar v bindings runtime component_room record_room object_path object_begin object_count).
Abbreviation walk_bases := (walk_bases v bindings).
Abbreviation walk_members := (walk_members v bindings component path_room).
Abbreviation walk_record := (walk_record v bindings runtime component component_room record_room path_room object_path object_begin object_count).
Abbreviation walk_type := (walk_type v bindings runtime component component_room record_room path_room object_path object_begin object_count).

(** The path of the object is among the components; the records of other objects come first. *)
Context (before : nat).
Definition ready (s : snapshot_state (C:=C)) : Prop :=
  IcSnapshot.ready object_path object_begin s /\ (before <= length (snap_records s))%nat.

(** What was found stays found. *)
Definition extends (s s' : snapshot_state (C:=C)) : Prop :=
  exists cs rs, snap_components s' = snap_components s ++ cs /\ snap_records s' = snap_records s ++ rs.

Lemma snapshot_extends_refl s : extends s s.
Proof. exists [], []. by rewrite !app_nil_r. Qed.

Lemma snapshot_extends_trans s1 s2 s3 : extends s1 s2 -> extends s2 s3 -> extends s1 s3.
Proof.
  intros (cs & rs & Hc & Hr) (cs' & rs' & Hc' & Hr'). exists (cs ++ cs'), (rs ++ rs').
  by rewrite Hc', Hr', Hc, Hr, !app_assoc.
Qed.

Lemma added_extends P s s' : added v bindings runtime component P s s' -> extends s s'.
Proof. intros (cs & rs & es & Hc & Hr & _). by exists cs, rs. Qed.

Lemma extends_ready s s' : extends s s' -> ready s -> ready s'.
Proof.
  intros (cs & rs & Hc & Hr) [H Hl]. split; [|rewrite Hr, length_app; lia]. unfold IcSnapshot.ready. rewrite Hc. by apply holds_app.
Qed.

(** Walks that succeed extend the state; nothing is asked of the names for that. *)
Lemma record_extends fuel type offset inherited members s s' :
  walk_record fuel type offset inherited members s = answer s' ->
  0 <= type -> 0 <= offset -> Forall part_ok members -> ready s -> extends s s'.
Proof.
  intros H. intros. match goal with R : ready s |- _ => destruct R as [Hready _] end.
  eapply added_extends. eapply answers_elim; [|exact H].
  eapply answers_mono; [apply (walks v Hv bindings Hb runtime component component_room record_room path_room False (False_ind _)
    object_path object_begin (Place 0 0 false false)); try done; by intros []|]. by intros ? [].
Qed.

Lemma type_extends fuel type offset inherited members s s' :
  walk_type fuel type offset inherited members s = answer s' ->
  0 <= offset -> Forall part_ok members -> ready s -> extends s s'.
Proof.
  intros H. intros. match goal with R : ready s |- _ => destruct R as [Hready _] end.
  eapply added_extends. eapply answers_elim; [|exact H].
  eapply answers_mono; [apply (walks v Hv bindings Hb runtime component component_room record_room path_room False (False_ind _)
    object_path object_begin (Place 0 0 false false)); try done; by intros []|]. by intros ? [].
Qed.

(** One base. *)
Lemma bases_step fuel offset members n global s s' :
  walk_bases (walk_record fuel) offset members (S n) global s = answer s' -> 0 <= offset -> Forall part_ok members -> ready s ->
  exists base s1, view_base_at v global = Some (Some base) /\ extends s s1 /\
    walk_bases (walk_record fuel) offset members n (global + 1) s1 = answer s' /\
    (bv_virtual base = false -> exists o, binding_base_offset bindings global = Some o /\ 0 <= o /\ offset + o <= size_max /\
      walk_record fuel (bv_type base) (offset + o) true members s = answer s1).
Proof.
  intros H H0 Hmembers Hready. cbn [RuntimeIcSnapshot.walk_bases] in H. apply bind_answer in H as (base & Hbase & H).
  destruct (view_base_at v global) as [[b|]|] eqn:Eb; [|done..]. injection Hbase as ->. exists base.
  destruct (bv_virtual base); [eexists; split; [done|]; split; [|by split; [exact H|]]; by exists [], []; rewrite !app_nil_r|].
  destruct (binding_base_offset bindings global) as [o|] eqn:Eo; [|done]. pose proof (binding_base_unsigned _ Hb _ _ Eo).
  destruct (add_u64 offset o) as [location|] eqn:El; [|done]. apply add_u64_sum in El as [-> ?]. answered H.
  exists a. split; [done|]. split; [eapply record_extends; [exact Ha|by eapply view_base_handle|lia|done..]|]. split; [done|].
  intros _. exists o. split; [done|]. split; [done|]. by split; [lia|].
Qed.

Lemma bases_extend fuel offset members n global s s' :
  walk_bases (walk_record fuel) offset members n global s = answer s' -> 0 <= offset -> Forall part_ok members -> ready s -> extends s s'.
Proof.
  intros H H0 Hmembers. revert global s H. induction n as [|n IH]; intros global s H Hready.
  { injection H as ->. apply snapshot_extends_refl. }
  apply bases_step in H as (base & s1 & _ & Hext & H & _); [|done..].
  eapply snapshot_extends_trans; [exact Hext|]. eapply IH; [exact H|]. by eapply extends_ready.
Qed.

Lemma bases_walked fuel offset members n global s s' k base :
  walk_bases (walk_record fuel) offset members n global s = answer s' -> 0 <= offset -> Forall part_ok members -> ready s ->
  global <= k < global + Z.of_nat n -> view_base_at v k = Some (Some base) -> bv_virtual base = false ->
  exists o s1 s1', binding_base_offset bindings k = Some o /\ 0 <= o /\ offset + o <= size_max /\
    walk_record fuel (bv_type base) (offset + o) true members s1 = answer s1' /\ ready s1 /\ extends s1' s'.
Proof.
  intros H H0 Hmembers Hready Hk Hbase Hvirtual. revert global s H Hready Hk. induction n as [|n IH]; intros global s H Hready Hk; [lia|].
  apply bases_step in H as (b & s1 & Eb & Hext & H & Hwalk); [|done..]. pose proof (extends_ready _ _ Hext Hready).
  destruct (decide (k = global)) as [->|Hne']; [|by apply (IH _ _ H); [|lia]].
  rewrite Eb in Hbase. injection Hbase as ->. destruct (Hwalk Hvirtual) as (o & Ho & ? & ? & Hw). exists o, s, s1.
  do 4 (split; [done|]). split; [done|]. by eapply bases_extend.
Qed.

(** One member. *)
Lemma members_step fuel type begin offset inherited members n local s s' :
  walk_members (walk_type fuel) type begin offset inherited members (S n) local s = answer s' ->
  0 <= offset -> Forall part_ok members -> ready s ->
  exists member text o s1, view_member v type local = Some (Some member) /\ part_ok (component (mv_name member) text, text) /\
    view_string v (mv_name member) = Some text /\
    binding_member_offset bindings (begin + local) = Some o /\ 0 <= o /\ offset + o <= size_max /\
    walk_type fuel (mv_type member) (offset + o) inherited (members ++ [(component (mv_name member) text, text)]) s = answer s1 /\
    extends s s1 /\ walk_members (walk_type fuel) type begin offset inherited members n (local + 1) s1 = answer s'.
Proof.
  intros H H0 Hmembers Hready. cbn [RuntimeIcSnapshot.walk_members] in H. apply bind_answer in H as (member & Hm & H).
  destruct (view_member v type local) as [[b|]|] eqn:Eb; [|done..]. injection Hm as ->.
  destruct (view_string v (mv_name member)) as [text|] eqn:Et; [|done]. answered H. unbool.
  destruct (binding_member_offset bindings (begin + local)) as [o|] eqn:Eo; [|done]. pose proof (binding_member_unsigned _ Hb _ _ Eo).
  destruct (add_u64 offset o) as [location|] eqn:El; [|done]. apply add_u64_sum in El as [-> ?]. answered H.
  assert (part_ok (component (mv_name member) text, text)) as Hpart.
  { exists (mv_name member). cbn. pose proof (member_name_unsigned v _ _ _ Eb). split; [done|]. split; [lia|done]. }
  exists member, text, o, a. do 5 (split; [done|]). split; [lia|]. split; [done|]. split; [|done].
  eapply type_extends; [exact Ha|lia| |done]. apply Forall_app. by split; [|constructor].
Qed.

Lemma members_extend fuel type begin offset inherited members n local s s' :
  walk_members (walk_type fuel) type begin offset inherited members n local s = answer s' ->
  0 <= offset -> Forall part_ok members -> ready s -> extends s s'.
Proof.
  intros H H0 Hmembers. revert local s H. induction n as [|n IH]; intros local s H Hready.
  { injection H as ->. apply snapshot_extends_refl. }
  apply members_step in H as (member & text & o & s1 & _ & _ & _ & _ & _ & _ & _ & Hext & H); [|done..].
  eapply snapshot_extends_trans; [exact Hext|]. eapply IH; [exact H|]. by eapply extends_ready.
Qed.

Lemma members_walked fuel type begin offset inherited members n local s s' k member :
  walk_members (walk_type fuel) type begin offset inherited members n local s = answer s' ->
  0 <= offset -> Forall part_ok members -> ready s ->
  local <= k < local + Z.of_nat n -> view_member v type k = Some (Some member) ->
  exists text o s1 s1', part_ok (component (mv_name member) text, text) /\ view_string v (mv_name member) = Some text /\
    binding_member_offset bindings (begin + k) = Some o /\ 0 <= o /\
    walk_type fuel (mv_type member) (offset + o) inherited (members ++ [(component (mv_name member) text, text)]) s1 = answer s1' /\
    ready s1 /\ extends s1' s'.
Proof.
  intros H H0 Hmembers Hready Hk Hmember. revert local s H Hready Hk. induction n as [|n IH]; intros local s H Hready Hk; [lia|].
  apply members_step in H as (m & text & o & s1 & Em & Hpart & Ht & Ho & ? & ? & Hw & Hext & H); [|done..].
  pose proof (extends_ready _ _ Hext Hready). destruct (decide (k = local)) as [->|Hne']; [|by apply (IH _ _ H); [|lia]].
  rewrite Em in Hmember. injection Hmember as ->. exists text, o, s, s1. do 6 (split; [done|]). by eapply members_extend.
Qed.

(** The walk of a type comes to the member that the search by its name finds. *)
Lemma member_walked fuel' fuel type name m offset inherited members s s' :
  find_member_recursive v bindings fuel' type name = Some (member_found m) ->
  walk_record fuel type offset inherited members s = answer s' ->
  0 <= type -> 0 <= offset -> Forall part_ok members -> ready s ->
  exists fuel2 inherited2 text s1 s1', part_ok (component name text, text) /\ view_string v name = Some text /\ 0 <= member_offset m /\
    walk_type fuel2 (member_type m) (offset + member_offset m) inherited2 (members ++ [(component name text, text)]) s1 = answer s1' /\
    ready s1 /\ extends s1' s'.
Proof.
  revert fuel type m offset inherited s s'. induction fuel' as [|fuel' IH]; intros fuel type m offset inherited s s' Hfind Hwalk Ht H0 Hmembers Hready;
    [done|]. cbn [find_member_recursive] in Hfind.
  destruct (type =? 0); [done|]. destruct (view_type v type) as [[entry|]|] eqn:He; [|done..].
  destruct (tv_defined entry) eqn:Hdefined; [|done]. cbn [negb] in Hfind.
  destruct (view_find_member v type name) as [k|] eqn:Ek; [|done].
  destruct fuel as [|fuel]; [done|]. cbn [RuntimeIcSnapshot.walk_record] in Hwalk. answered Hwalk. rewrite He in Ha. injection Ha as <-.
  rename a0 into a, Ha0 into Ha. assert (extends s a) as Hext by by eapply bases_extend. pose proof (extends_ready _ _ Hext Hready).
  assert (extends a s') as Hext' by by eapply members_extend.
  destruct (member_valid k) eqn:Hvalid.
  - destruct (find_member_sound v type name k Hv Ek) as (e & r & He' & _ & Hrange & Hat & <-).
    { unfold member_valid in Hvalid. by apply negb_true_iff, Z.eqb_neq in Hvalid. }
    rewrite He in He'. injection He' as <-. destruct (view_member v type k) as [[record|]|] eqn:Hrecord; [|done..].
    assert (record = r) as ->.
    { eapply member_at_same; [exact He|exact Hrecord|exact Hat]. }
    destruct (view_member_construction v type k) as [[c|]|]; [|done..].
    destruct (members_walked _ _ _ _ _ _ _ _ _ _ k r Hwalk) as (text & o & s1 & s1' & Hpart & Htext & Ho & ? & Hw & Hr1 & Hx); [done..|lia|done|].
    rewrite Ho in Hfind. injection Hfind as <-. cbn. exists fuel, inherited, text, s1, s1'. done.
  - destruct (search_bases_from _ _ _ _ _ _ _ Hfind) as [|(g & base & o & candidate & Hg & Hbase & Hvirtual & Ho & Hsearch & Hadd & Htype)]; [done|].
    destruct (bases_walked _ _ _ _ _ _ _ g base Ha) as (o' & s1 & s1' & Ho' & ? & _ & Hw & Hr1 & Hx); [done..|].
    rewrite Ho in Ho'. injection Ho' as <-. apply add_u64_sum in Hadd as [-> _].
    destruct (IH _ _ _ _ _ _ _ Hsearch Hw) as (fuel2 & i2 & text & s2 & s2' & Hpart & Htext & Hm0 & Hw2 & Hr2 & Hx2);
      [by eapply view_base_handle|lia|done..|].
    exists fuel2, i2, text, s2, s2'. split; [done|]. split; [done|]. split; [lia|]. rewrite Htype, Z.add_assoc. split; [done|].
    split; [done|]. eapply snapshot_extends_trans; [exact Hx2|]. by eapply snapshot_extends_trans.
Qed.

(** A scalar at the end of a path is recorded under this path. *)
Definition recorded (s : snapshot_state (C:=C)) (members : list (list byte)) (target : runtime_ic_scalar_target) : Prop :=
  exists r path bs, r ∈ drop before (snap_records s) /\ path.*2 = members /\ Forall part_ok path /\
    bytes_at runtime (target_offset target) (target_size target) = Some bs /\
    placed (snap_components s) r (FoundScalar object_path path (ScalarValue (target_type target) (target_size target) (padded bs))).

Lemma recorded_extends s s' members target : extends s s' -> recorded s members target -> recorded s' members target.
Proof.
  intros (cs & rs & Hc & Hr) (r & path & bs & Hin & Hp & Hok & Hbs & Hplaced). exists r, path, bs. rewrite Hc, Hr, drop_app.
  split; [apply elem_of_app; by left|].
  do 3 (split; [done|]). by apply placed_more.
Qed.

Lemma emit_recorded offset type inherited members s s' target :
  emit_scalar offset type inherited members s = answer s' -> ready s -> Forall part_ok members ->
  resolve_runtime_ic_scalar v bindings size (PathView object_path.*2 members.*2) = answer target ->
  target_offset target = offset -> target_type target = type -> recordable type -> recorded s' members.*2 target.
Proof.
  intros H Hready Hmembers Htarget <- <- (Hnone & Hvoid & Hnull).
  pose proof (answers_elim _ _ _ (resolve_scalar_spec v Hv bindings Hb size _) Htarget) as (Hsize & H0 & Hcap & Hend).
  unfold RuntimeIcSnapshot.emit_scalar in H. cbv zeta in H. unfold scalar_capacity in *.
  rewrite !bool_decide_false in H by done. cbn [negb guard_query orb answer bind_query] in H.
  rewrite Hsize, (proj2 (Z.eqb_neq (target_size target) 0)), !(proj2 (Z.ltb_ge _ _)) in H by (unfold scalar_capacity; lia).
  cbn [negb guard_query orb answer bind_query] in H.
  assert (forall A (f : bool -> snapshot_outcome A), bind_query (if inherited then match resolve_runtime_ic_scalar v bindings size
      (PathView (part_texts object_path) (part_texts members)) with
      | None => None
      | Some (inl _) => answer false
      | Some (inr target') => answer ((target_offset target' =? target_offset target) &&
          bool_decide (target_type target' = target_type target) && (target_size target' =? target_size target))
      end else answer true : snapshot_outcome bool) f = f true) as Haddressable.
  { intros A f. destruct inherited; [|done]. unfold part_texts. rewrite Htarget. cbn [answer bind_query]. by rewrite !Z.eqb_refl, bool_decide_true. }
  rewrite Haddressable in H. cbn [negb] in H. answered H. unbool.
  destruct (bytes_at_some runtime (target_offset target) (target_size target)) as (bs & Hbs & Hl); [lia..|].
  rewrite Hbs, store_padded in H by lia. answered H. injection H as <-.
  unfold u32_max, u16_max in *. unfold u32, u16. rewrite !Z.mod_small by lia.
  eexists _, members, bs. cbn [with_stats snap_components snap_records snap_stats].
  destruct Hready as [Hready Hbefore]. rewrite drop_app_le by done.
  split; [apply elem_of_app; right; by apply list_elem_of_singleton|]. do 3 (split; [done|]). split; [done|]. split; [done|]. cbn.
  split; [by apply holds_app|]. by split; [apply holds_end|].
Qed.

Lemma type_recorded components fuel type offset inherited members s s' c d q target :
  walk_type fuel type offset inherited members s = answer s' ->
  resolve_members v bindings size components (Place offset type c d) = answer q -> scalar_at v bindings size q = answer target ->
  resolve_runtime_ic_scalar v bindings size (PathView object_path.*2 (members.*2 ++ components)) = answer target ->
  recordable (target_type target) -> 0 <= offset -> Forall part_ok members -> ready s ->
  recorded s' (members.*2 ++ components) target.
Proof.
  revert fuel type offset inherited members s s' c d. induction components as [|text rest IH];
    intros fuel type offset inherited members s s' c d Hwalk Hmembers Hscalar Hwhole Hrec H0 Hok Hready;
    (destruct fuel as [|fuel]; [done|]); cbn [RuntimeIcSnapshot.walk_type] in Hwalk; answered Hwalk; rename a into shape;
    destruct (shape_stripped v _ _ c Ha) as (ty & c' & Hstrip & Hmatch); cbn [resolve_members] in Hmembers.
  - injection Hmembers as <-. unfold scalar_at in Hscalar. cbn [place_type place_constant place_offset] in Hscalar.
    rewrite Hstrip in Hscalar. cbn [ask answer bind_query fst snd] in Hscalar.
    destruct shape as [t|named|]; [|by destruct Hmatch as [Hk _]; rewrite Hk in Hscalar|by cbn in Hmatch; rewrite Hmatch in Hscalar].
    destruct Hmatch as [Hk Ht]. rewrite Hk in Hscalar. cbv zeta in Hscalar. rewrite <- Ht in Hscalar.
    destruct (binding_intrinsic_size bindings t) as [n|]; [|done]. destruct (_ || _) in Hscalar; [done|]. injection Hscalar as <-.
    rewrite app_nil_r in *. by eapply emit_recorded.
  - answered Hmembers. rename a into place. unfold resolve_member in Ha0. cbn [place_type place_constant place_offset] in Ha0.
    rewrite Hstrip in Ha0. cbn [ask answer bind_query fst snd] in Ha0. answered Ha0. apply handle_answer in Ha1 as [Hstring Hname].
    unbool. destruct shape as [t|named|]; [by destruct Hmatch; congruence| |by cbn in Hmatch; congruence].
    destruct Hmatch as (_ & _ & -> & _). apply find_string_sound in Hstring; [|done].
    destruct (find_member_recursive _ _ _ _ _) as [[|m| |]|] eqn:Hfind; [done| |done..].
    destruct (add_u64 offset (member_offset m)) as [location|] eqn:El; [|done]. apply add_u64_sum in El as [-> _]. answered Ha0.
    injection Ha0 as <-.
    destruct (member_walked _ _ _ _ _ _ _ _ _ _ Hfind Hwalk) as (fuel2 & i2 & text' & s1 & s1' & Hpart & Htext & Hm0 & Hw & Hr1 & Hx);
      [apply view_type_at_unsigned|done..|]. rewrite Hstring in Htext. injection Htext as <-.
    eapply recorded_extends; [exact Hx|].
    replace (members.*2 ++ text :: rest) with ((members ++ [(component a text, text)]).*2 ++ rest)
      by (by rewrite fmap_app, <- app_assoc).
    eapply IH; [exact Hw|exact Hmembers|exact Hscalar| |done|lia| |done].
    + by rewrite fmap_app, <- app_assoc.
    + apply Forall_app. by split; [|constructor].
Qed.
End Object.

(** ** The traversal of the project *)

Context (Hvalid : view_valid v = true) (Hne : runtime <> []) (Hn : self_naming v).

Abbreviation walk_object := (walk_object v bindings runtime component component_room record_room path_room).
Abbreviation walk_objects := (walk_objects v bindings runtime component component_room record_room path_room).

(** A scalar of the memory among the records. *)
Definition recorded_path (s : snapshot_state (C:=C)) (path : runtime_ic_path_view) (target : runtime_ic_scalar_target) : Prop :=
  exists r e bs, r ∈ snap_records s /\ placed (snap_components s) r e /\ found_path e = path /\
    Forall part_ok (found_object e) /\ Forall part_ok (found_members e) /\
    bytes_at runtime (target_offset target) (target_size target) = Some bs /\
    found_value e = ScalarValue (target_type target) (target_size target) (padded bs).

Lemma object_recorded object s s' names members target :
  walk_object object s = answer s' -> 0 < object -> resolve_object v names = answer object ->
  resolve_runtime_ic_scalar v bindings size (PathView names members) = answer target -> recordable (target_type target) ->
  recorded_path s' (PathView names members) target.
Proof.
  intros Hwalk H0 Hobject Htarget Hrec. unfold RuntimeIcSnapshot.walk_object in Hwalk.
  apply bind_answer in Hwalk as (entry & He & Hwalk). destruct (view_object v object) as [[e|]|] eqn:Hentry; [|done..]. injection He as ->.
  destruct (binding_object_offset bindings object) as [offset|] eqn:Eo; [|done]. answered Hwalk. rename a into path, a0 into s1. unbool.
  pose proof (answers_elim _ _ _ (make_object_path_spec v Hv component path_room object ltac:(lia)) Ha) as Hpath.
  pose proof Hpath as (Hparts & Hp & Hshort & _). unfold u16, u32 in Ha0. unfold u16_max, u32_max in *. rewrite !Z.mod_small in Ha0 by lia.
  pose proof (object_path_exact v component Hn _ _ _ Hobject ltac:(lia) Hpath) as <-.
  pose proof Htarget as Hmembers. rewrite (object_members_resolved v bindings runtime component Hvalid Hne object path entry offset) in Hmembers by (done || lia).
  apply bind_answer in Hmembers as (q & Hmembers & Hscalar).
  destruct (type_recorded path (Z.of_nat (length (snap_components s))) Hparts Hp Hshort (length (snap_records s)) members _ _ _ _ _ _ _ _ _ _ _
    Ha0 Hmembers Hscalar Htarget Hrec) as (r & extra & bs & Hin & Hextra & Hok & Hbs & Hplaced);
    [by eapply binding_object_unsigned|done|by split; [apply holds_end|]|].
  injection Hwalk as <-. destruct (Nat.eqb_spec (length (snap_records s1)) (length (snap_records s))) as [E|E].
  { rewrite drop_ge in Hin by lia. by apply elem_of_nil in Hin. }
  exists r, (FoundScalar path extra (ScalarValue (target_type target) (target_size target) (padded bs))), bs.
  cbn [with_stats snap_components snap_records]. split; [by eapply subseteq_drop|]. split; [done|]. unfold found_path. cbn in *. by rewrite Hextra.
Qed.

Lemma recorded_path_extends s s' path target : extends s s' -> recorded_path s path target -> recorded_path s' path target.
Proof.
  intros (cs & rs & Hc & Hr) (r & e & bs & Hin & Hplaced & Hrest). exists r, e, bs. rewrite Hc, Hr.
  split; [apply elem_of_app; by left|]. split; [by apply placed_more|done].
Qed.

Lemma objects_recorded n index s s' object names members target :
  walk_objects n index s = answer s' -> 0 <= index -> (exists k, index <= k < index + Z.of_nat n /\ view_object_at v k = object) ->
  resolve_object v names = answer object ->
  resolve_runtime_ic_scalar v bindings size (PathView names members) = answer target -> recordable (target_type target) ->
  recorded_path s' (PathView names members) target.
Proof.
  revert index s. induction n as [|n IH]; intros index s Hwalk H0 (k & Hk & Hat) Hobject Htarget Hrec; [lia|].
  cbn [RuntimeIcSnapshot.walk_objects] in Hwalk. answered Hwalk. unbool.
  destruct (decide (k = index)) as [->|Hne']; [|eapply IH; [exact Hwalk|lia| |done..]; exists k; split; [lia|done]].
  rewrite Hat in *. assert (0 <= object). { rewrite <- Hat. unfold view_object_at. destruct (_ <? _); [apply Z.mod_pos_bound|]; lia. }
  eapply recorded_path_extends; [|eapply object_recorded; [exact Ha|lia|done..]].
  eapply added_extends, (answers_elim _ _ _ (walk_objects_spec v Hv bindings Hb runtime component component_room record_room path_room False
    (False_ind _) Hvalid Hne n (index + 1) a ltac:(lia)) Hwalk).
Qed.
End Finds.

Lemma project_recorded v bindings runtime {C} (component : string_id -> list byte -> C) component_room record_room path_room reserved s path target :
  view_ok v -> bindings_words bindings -> self_naming v ->
  snapshot_project v bindings runtime component component_room record_room path_room reserved = answer s ->
  resolve_runtime_ic_scalar v bindings (Z.of_nat (length runtime)) path = answer target -> recordable (target_type target) ->
  recorded_path v runtime component s path target.
Proof.
  intros Hv Hb Hn Hsnap Htarget Hrec. unfold snapshot_project in Hsnap. answered Hsnap. unbool.
  pose proof Htarget as Hres. unfold resolve_runtime_ic_scalar in Hres. answered Hres. rename a into object. clear Hres.
  destruct path as [names members]. cbn [path_object] in Ha.
  assert (0 < object <= object_count_value v) as Hobject.
  { assert (0 <= object) by exact (answers_elim _ _ _ (scalar_object_spec v Hv names) Ha).
    destruct (view_object v object) as [[e|]|] eqn:E; [|done..]. unfold view_object in E. destruct (_ || _) eqn:Er in E; [done|]. unbool. lia. }
  eapply (objects_recorded v Hv bindings Hb runtime component component_room record_room path_room); [done..| | | |exact Ha|exact Htarget|exact Hrec];
    [exact Hsnap|done|]. exists (object - 1). pose proof (ok_object_count v Hv). unfold maximum_handle in *. split; [lia|].
  unfold view_object_at. rewrite (proj2 (Z.ltb_lt _ _)) by lia. unfold u32. rewrite Z.mod_small by lia. lia.
Qed.

(** A value that is read is recorded. *)
Lemma read_recorded v bindings runtime {C} (component : string_id -> list byte -> C) component_room record_room path_room reserved s path value :
  view_ok v -> bindings_words bindings -> self_naming v ->
  snapshot_project v bindings runtime component component_room record_room path_room reserved = answer s ->
  snapshot_runtime_ic_scalar v bindings runtime path = answer value -> recordable (scalar_type value) ->
  exists i r e, snap_records s !! i = Some r /\ placed (snap_components s) r e /\ found_path e = path /\ found_value e = value /\
    Forall (part_ok v component) (found_object e) /\ Forall (part_ok v component) (found_members e).
Proof.
  intros Hv Hb Hn Hsnap Hread Hrec. pose proof Hread as E. unfold snapshot_runtime_ic_scalar in E.
  apply bind_answer in E as (target & Htarget & _).
  pose proof (answers_elim _ _ _ (resolve_scalar_spec v Hv bindings Hb _ _) Htarget) as (_ & H0 & Hcap & Hend).
  destruct (bytes_at_some runtime (target_offset target) (target_size target)) as (bs & Hbs & _); [lia..|].
  rewrite (snapshot_reads v Hv bindings Hb runtime _ _ _ Htarget Hbs) in Hread. injection Hread as <-.
  destruct (project_recorded _ _ _ _ _ _ _ _ _ _ _ Hv Hb Hn Hsnap Htarget Hrec) as (r & e & bs' & Hin & Hplaced & Hpath & Hpo & Hpm & Hbs' & Hvalue).
  rewrite Hbs in Hbs'. injection Hbs' as <-. apply list_elem_of_lookup in Hin as [i Hi]. by exists i, r, e.
Qed.

Lemma placed_same {C} (components : list C) r e e' :
  placed components r e -> placed components r e' ->
  (found_object e).*1 = (found_object e').*1 /\ (found_members e).*1 = (found_members e').*1 /\ found_value e = found_value e'.
Proof.
  intros (Ho & Hm & (_ & _ & Eo) & (_ & _ & Em) & Ev) (Ho' & Hm' & (_ & _ & Eo') & (_ & _ & Em') & Ev').
  rewrite <- Ho in Eo. rewrite <- Ho' in Eo'. rewrite <- Hm in Em. rewrite <- Hm' in Em'.
  split; [by rewrite <- Eo|]. split; [by rewrite <- Em|]. by rewrite <- Ev.
Qed.

(** ** The snapshot with texts *)

Definition published {C} (e : found_scalar (C:=C)) : runtime_ic_record_source := RecordSource (found_path e) (found_value e).

Lemma text_parts v path : Forall (part_ok v text_component) path -> path.*1 = path.*2.
Proof. induction 1 as [|[c t] path (name & E & _) _ IH]; [done|]. cbn in *. injection E as ->. by rewrite IH. Qed.

Lemma publish_records_spec v bindings runtime naming components records es :
  Forall2 (placed components) records es -> Forall (found_ok v bindings runtime text_component naming) es ->
  publish_records components records = answer (published <$> es).
Proof.
  intros H. induction H as [|r e records es (Hoc & Hmc & (_ & Ho & Eo) & (_ & Hm & Em) & Ev) _ IH]; intros Hok; [done|].
  apply Forall_cons in Hok as [(Hpo & Hpm & _) Hok]. cbn [publish_records]. rewrite Hoc, Hmc, !(proj2 (Z.ltb_ge _ _)) by lia.
  cbn [orb negb guard_query answer bind_query]. rewrite IH by done. cbn [answer bind_query]. unfold published at 2. cbn.
  unfold found_path. by rewrite Eo, Em, Ev, (text_parts v _ Hpo), (text_parts v _ Hpm).
Qed.

Lemma project_snapshot_found v bindings runtime component_room record_room path_room reserved allocated records stats :
  view_ok v -> bindings_words bindings ->
  snapshot_runtime_ic_project v bindings runtime component_room record_room path_room reserved allocated = answer (records, stats) ->
  exists s es, snapshot_project v bindings runtime text_component component_room record_room path_room reserved = answer s /\
    Forall2 (placed (snap_components s)) (snap_records s) es /\ Forall (found_ok v bindings runtime text_component (self_naming v)) es /\
    records = published <$> es /\ stats = snap_stats s /\ tallied s /\ stats_objects stats = object_count_value v.
Proof.
  intros Hv Hb H. unfold snapshot_runtime_ic_project in H. answered H. rename a into s. injection H as -> <-.
  destruct (answers_elim _ _ _ (snapshot_project_spec v bindings runtime text_component component_room record_room path_room reserved Hv Hb) Ha)
    as (es & Hp & Hok & Ht & Ho & _).
  rewrite (publish_records_spec _ _ _ _ _ _ _ Hp Hok) in Ha0. injection Ha0 as <-. by exists s, es.
Qed.

(** C35: For an image whose names are found, the snapshot of a project is exact: it holds the
    scalars of the memory that a path leads to, each with this path and with the value that
    reading the path answers, and nothing else but what has the type of a null pointer is left
    out.  The counters of the snapshot are the number of its records and of the objects. *)
Theorem project_snapshot_exact compiled v bindings runtime component_room record_room path_room reserved allocated records stats :
  bind compiled = Some (image_success, v) -> bindings_words bindings -> self_naming v ->
  snapshot_runtime_ic_project v bindings runtime component_room record_room path_room reserved allocated = Some (inr (records, stats)) ->
  (forall r, r ∈ records <->
    snapshot_runtime_ic_scalar v bindings runtime (source_path r) = Some (inr (source_value r)) /\ recordable (scalar_type (source_value r))) /\
  stats_scalars stats = Z.of_nat (length records) /\ stats_objects stats = object_count_value v.
Proof.
  intros Hv%bound_view_ok Hb Hn H.
  destruct (project_snapshot_found _ _ _ _ _ _ _ _ _ _ Hv Hb H) as (s & es & Hsnap & Hp & Hok & -> & -> & [Ht _] & Ho).
  split; [|split; [|done]]; [|by rewrite length_fmap, <- (Forall2_length _ _ _ Hp)]. intros r. split.
  - intros (e & -> & He)%list_elem_of_fmap. rewrite Forall_forall in Hok.
    destruct (Hok e He) as (_ & _ & _ & _ & _ & _ & _ & Hrec & Hread). by split; [apply Hread|].
  - intros [Hread Hrec]. destruct (read_recorded _ _ _ _ _ _ _ _ _ _ _ Hv Hb Hn Hsnap Hread Hrec) as (i & n & e & Hi & Hplaced & Hpath & Hvalue & Hpo & Hpm).
    destruct (Forall2_lookup_l _ _ _ _ _ Hp Hi) as (e' & He' & Hplaced').
    apply list_elem_of_fmap. exists e'. split; [|by eapply list_elem_of_lookup_2].
    rewrite Forall_lookup in Hok. destruct (Hok _ _ He') as (Hpo' & Hpm' & _).
    destruct (placed_same _ _ _ _ Hplaced Hplaced') as (Eo & Em & Ee).
    rewrite (text_parts v _ Hpo), (text_parts v _ Hpo') in Eo. rewrite (text_parts v _ Hpm), (text_parts v _ Hpm') in Em.
    destruct r as [path value]. cbn in *. subst. unfold published, found_path. by rewrite Eo, Em, <- Ee.
Qed.

(** *** The names of the small image are found *)

(** Evaluating the reads of the small image that a hypothesis starts with. *)
Ltac sample_reads H :=
  repeat match type of H with
  | (?m ≫= _) = _ => let r := eval vm_compute in m in change m with r in H; cbn [mbind option_bind] in H
  end.

Lemma sample_identity i j : identity_from_raw sample_view i = Some j -> valid j = true -> i = j /\ i ∈ [root; type_a; object_y].
Proof.
  unfold identity_from_raw. intros H Hj. destruct (_ || _) eqn:E in H; [by injection H as <-|].
  change (identity_count_value sample_view) with (Z.of_nat 3) in E. unbool.
  assert (0 <= slot i) by (apply Z.land_nonneg; by right).
  assert (slot i = 1 \/ slot i = 2 \/ slot i = 3) as [Es|[Es|Es]] by lia; rewrite Es in *;
    sample_reads H; match type of H with context [?a =? i] => destruct (Z.eqb_spec a i) as [<-|]; injection H as <-; [|done] end; (split; [done|]); vm_compute; set_solver.
Qed.

Lemma sample_self_naming : self_naming sample_view.
Proof.
  split.
  - intros id text H0 H Ht. unfold view_string in H. destruct (_ || _) eqn:E in H; [by injection H as <-|].
    change (string_count_value sample_view) with (Z.of_nat 3) in E. unbool.
    assert (id = 1 \/ id = 2 \/ id = 3) as [->|[->| ->]] by lia; vm_compute in H; injection H as <-; done.
  - intros i p name Hp Hvalid Hname Hne.
    assert (i ∈ [root; type_a; object_y]) as Hi.
    { pose proof (parent_valid sample_view i p Hp Hvalid) as Hi. unfold view_identity_parent in Hp.
      destruct (identity_from_raw sample_view i) as [j|] eqn:Ej; [|done]. cbn in Hp.
      destruct (valid j) eqn:Hj; [|by cbn in Hp; injection Hp as <-]. by eapply sample_identity. }
    repeat (apply elem_of_cons in Hi as [->|Hi]); [..|by apply elem_of_nil in Hi]; vm_compute in Hp, Hname; simplify_eq; done.
  - intros i p Hp Hvalid _.
    assert (i ∈ [root; type_a; object_y]) as Hi.
    { pose proof (parent_valid sample_view i p Hp Hvalid) as Hi. unfold view_identity_parent in Hp.
      destruct (identity_from_raw sample_view i) as [j|] eqn:Ej; [|done]. cbn in Hp.
      destruct (valid j) eqn:Hj; [|by cbn in Hp; injection Hp as <-]. by eapply sample_identity. }
    repeat (apply elem_of_cons in Hi as [->|Hi]); [..|by apply elem_of_nil in Hi]; vm_compute in Hp; simplify_eq; by left.
  - intros o i H0 Ho Hi. unfold view_object_identity in Ho. destruct (_ || _) eqn:E in Ho; [by injection Ho as <-|].
    change (object_count_value sample_view) with 1 in E. unbool. assert (o = 1) as -> by lia. vm_compute in Ho. by injection Ho as <-.
  - intros o i Ho Hne. unfold view_find_object in Ho. apply bind_Some in Ho as (b & Hb & Ho).
    destruct b; [|by injection Ho as <-]. unfold view_identity_valid in Hb. apply fmap_Some in Hb as (j & Hj & Hvalid).
    destruct (sample_identity _ _ Hj (eq_sym Hvalid)) as [<- Hi].
    repeat (apply elem_of_cons in Hi as [->|Hi]); [..|by apply elem_of_nil in Hi]; vm_compute in Ho; simplify_eq; done.
  - intros t m r Ht Hm H. unfold view_member in H. apply bind_Some in H as ([e|] & He & H); [|done].
    unfold view_type in He. destruct (_ || _) eqn:E in He; [done|]. change (type_count_value sample_view) with 1 in E. unbool.
    assert (t = 1) as -> by lia. vm_compute in He. injection He as <-. destruct (_ || _) eqn:Em in H; [done|]. cbn in Em. unbool.
    assert (m = 0) as -> by lia. vm_compute in H. injection H as <-. split; [done|]. by eexists.
Qed.

Definition all_room : nat -> bool := fun _ => true.

Lemma project_snapshot_exact_witness :
  match snapshot_runtime_ic_project sample_view sample_bindings sample_runtime all_room all_room all_room true true with
  | Some (inr (records, stats)) =>
      length records = 1%nat /\
      (forall r, r ∈ records <->
        snapshot_runtime_ic_scalar sample_view sample_bindings sample_runtime (source_path r) = Some (inr (source_value r)) /\
        recordable (scalar_type (source_value r)))
  | _ => False
  end.
Proof.
  destruct (snapshot_runtime_ic_project sample_view sample_bindings sample_runtime all_room all_room all_room true true)
    as [[r|[records stats]]|] eqn:E; [vm_compute in E; discriminate E| |vm_compute in E; discriminate E].
  split; [vm_compute in E; injection E as <- _; reflexivity|].
  apply (project_snapshot_exact sample_image sample_view sample_bindings sample_runtime all_room all_room all_room true true records stats);
    [apply sample_bound|apply sample_bindings_words|apply sample_self_naming|exact E].
Defined.

(** The strings of a native plan are strings of the snapshot's components. *)
Lemma append_source_strings_from v p components p' :
  append_source_strings v p components = answer p' ->
  Forall (fun t => t ∈ plan_strings p \/ exists id, id ∈ components /\ view_string v id = Some t) (plan_strings p').
Proof.
  revert p. induction components as [|id components IH]; intros p H; cbn [append_source_strings] in H.
  { injection H as <-. apply Forall_forall. by left. }
  destruct (_ !! Z.to_nat id) as [local|]; [|done]. answered H. destruct (negb (local =? 0)).
  { eapply Forall_impl; [by apply IH|]. intros t [|(i & Hi & Ht)]; [by left|]. right. exists i. split; [by right|done]. }
  answered H. destruct (view_string v id) as [text|] eqn:Et; [|done]. answered H.
  eapply Forall_impl; [by apply IH|]. cbn [plan_strings]. intros t [[|Ht%list_elem_of_singleton]%elem_of_app|(i & Hi & Ht)].
  - by left.
  - subst. right. exists id. split; [by left|done].
  - right. exists i. split; [by right|done].
Qed.

Lemma native_strings_from v reserved components records p :
  prepare_runtime_ic_binary_native v reserved components records = answer p ->
  Forall (fun t => exists id, id ∈ components /\ view_string v id = Some t) (plan_strings p).
Proof.
  unfold prepare_runtime_ic_binary_native. intros H. cbv zeta in H. answered H. apply place_parts_strings in H. rewrite H.
  eapply Forall_impl; [by eapply append_source_strings_from|]. cbn. intros t [Ht|Ht]; [by apply elem_of_nil in Ht|done].
Qed.

Section Native.
Context (v : compiled_view) (Hv : view_ok v) (bindings : runtime_binding_index) (Hb : bindings_words bindings).
Context (A : list byte) (components : list string_id) (records : list runtime_ic_native_record_source).
Context (es : list (found_scalar (C:=string_id))) (naming : Prop).
Context (Hplaced : Forall2 (placed components) records es).
Context (Hfound : Forall (found_ok v bindings A native_component naming) es).
Context (Hcomponents : Forall (component_ok v native_component) components) (Hnaming : naming).

Lemma components_unsigned : Forall (fun id => 0 <= id) components.
Proof.
  eapply Forall_impl; [exact Hcomponents|]. intros id (text & name & E & H & _). cbn in E. injection E as ->. unfold native_component. lia.
Qed.

Lemma records_fields : Forall native_fields records.
Proof.
  apply Forall_lookup. intros i r Hr. destruct (Forall2_lookup_l _ _ _ _ _ Hplaced Hr) as (e & He & Ho & Hm & (? & _) & (? & _) & Ev).
  rewrite Forall_lookup in Hfound. destruct (Hfound _ _ He) as (_ & _ & _ & ? & ? & ? & Hl & _).
  unfold native_fields. rewrite Ho, Hm, Ev. do 2 (split; [done|]). split; [lia|]. split; [lia|]. by split; [lia|].
Qed.

Lemma parts_named path texts :
  Forall (part_ok v native_component) path -> Forall2 (fun id text => view_string v id = Some text) path.*1 texts -> texts = path.*2.
Proof.
  intros H. revert texts. induction H as [|[id text] path (name & E & _ & _ & Ht) _ IH]; intros texts H.
  { by apply Forall2_nil_inv_l in H as ->. }
  cbn in *. injection E as ->. apply Forall2_cons_inv_l in H as (t & texts' & Hname & H & ->).
  unfold native_component in *. rewrite Hname in Ht. injection Ht as ->. by rewrite (IH _ H).
Qed.

Lemma parts_same path path' :
  Forall (part_ok v native_component) path -> Forall (part_ok v native_component) path' -> path.*1 = path'.*1 -> path.*2 = path'.*2.
Proof.
  intros H H' E. symmetry. apply parts_named; [done|]. rewrite E. clear -H'. induction H' as [|[id text] path' (name & E & _ & _ & Ht) _ IH]; [constructor|].
  cbn in *. injection E as ->. by constructor.
Qed.

Section Prepared.
Context (reserved : bool) (p : runtime_ic_binary_plan).
Context (Hprepare : prepare_runtime_ic_binary_native v reserved components records = answer p).

Let image := ic_format p (native_entries components p records).
Let w := format_view p (native_entries components p records).

Lemma prepared_native : native_prepared v components records p.
Proof. by apply (native_image v reserved components records p Hv components_unsigned records_fields Hprepare). Qed.

Lemma native_layout : ic_layout image = Some (Some w).
Proof. apply layout_accepted, (native_plan _ _ _ _ prepared_native). Qed.

Lemma native_texts_bounded : texts_bounded image.
Proof.
  intros size H. rewrite (layout_texts image w native_layout) in H. injection H as <-.
  pose proof (plan_bounds _ _ (native_plan _ _ _ _ prepared_native)). unfold u32_max in *. cbn. lia.
Qed.

(** Every record is read back with the path and the value of its scalar. *)
Lemma native_decoded : decode_sources w = Some (published <$> es).
Proof.
  unfold decode_sources, w.
  assert (Z.to_nat (ic_record_count (format_view p (native_entries components p records))) = length records) as ->.
  { cbn. unfold native_entries. by rewrite count_fmap, count_nat. }
  apply mapM_Some_2, Forall2_same_length_lookup. split; [by rewrite length_seq, length_fmap, (Forall2_length _ _ _ Hplaced)|].
  intros k j r Hj Hr. apply lookup_seq in Hj as [-> Hk]. cbn [Nat.add].
  apply list_lookup_fmap_Some in Hr as (e & -> & He).
  destruct (Forall2_lookup_r _ _ _ _ _ Hplaced He) as (n & Hn & Ho & Hm & (_ & _ & Eo) & (_ & _ & Em) & Ev).
  pose proof Hfound as Hall. rewrite Forall_lookup in Hall. destruct (Hall _ _ He) as (Hpo & Hpm & _ & _ & _ & Hsize & Hl & Hrec & Hread).
  destruct (native_decodes v Hv components records p prepared_native components_unsigned k n Hn) as (object & members & Hobject & Hmembers & Hd).
  unfold object_of in Hobject. unfold members_of in Hmembers. rewrite Ho, Eo in Hobject. rewrite Hm, Em in Hmembers.
  apply parts_named in Hobject as ->; [|done]. apply parts_named in Hmembers as ->; [|done].
  unfold decode_source. rewrite Hd. cbn [mbind option_bind]. rewrite Ev. unfold published, found_path. f_equal. f_equal.
  destruct (snapshot_parts v Hv bindings Hb A (published e) (Hread Hnaming)) as (target & bs & _ & _ & _ & Hbs & Evalue).
  pose proof (snapshot_content (published e) target bs Hbs Evalue) as Ec. cbn [source_value published] in Ec, Evalue.
  rewrite Ec, Hbs. by rewrite Evalue.
Qed.

Lemma native_translated : self_naming v -> exists ids, translate_binary_strings v w true = answer ids.
Proof.
  intros Hn. pose proof prepared_native as Hp. pose proof (native_plan _ _ _ _ Hp) as Hplan.
  pose proof (plan_bounds _ _ Hplan). apply (translate_known v); [cbn; lia|].
  cbn [ic_string_count format_view w]. intros id Hid.
  destruct (lookup_lt_is_Some_2 (plan_strings p) (Z.to_nat (id - 1))) as [text Ht]; [unfold count in *; lia|].
  exists text. pose proof (take_drop_middle _ _ _ Ht) as E. split.
  { unfold w. rewrite <- (string_read p (native_entries components p records) Hplan _ _ _ (eq_sym E)). f_equal.
    unfold count in *. rewrite length_take. lia. }
  pose proof (strings_nonempty v p (native_strings _ _ _ _ Hp)) as Hall. rewrite Forall_forall in Hall.
  apply list_elem_of_lookup_2 in Ht. split; [by apply Hall|].
  pose proof (native_strings_from _ _ _ _ _ Hprepare) as Hfrom. rewrite Forall_forall in Hfrom.
  destruct (Hfrom _ Ht) as (name & Hin & Hname). pose proof components_unsigned as Hpos. rewrite Forall_forall in Hpos.
  exists name. split; [apply (string_named v Hn); [by apply Hpos|done|by apply Hall]|]. intros ->.
  change (Some [] = Some text) in Hname. injection Hname as <-. by apply (Hall _ Ht).
Qed.
End Prepared.
End Native.

Lemma published_valid v bindings A naming es :
  Forall (found_ok v bindings A native_component naming) es -> Forall source_valid (published <$> es).
Proof.
  intros Hok. apply Forall_fmap. eapply Forall_impl; [exact Hok|].
  intros e (_ & _ & Hne & _ & _ & Hsize & Hlength & (H1 & H2 & H3) & _).
  change (source_valid (published e)). unfold source_valid, published, found_path. cbn [source_path source_value path_object].
  split; [by destruct (found_object e)|]. split; [|split; [cbn; lia|done]]. unfold valid_scalar, scalar_capacity in *. cbn.
  rewrite !bool_decide_false, (proj2 (Z.eqb_neq _ 0)), (proj2 (Z.leb_le _ 16)) by (done || lia).
  by destruct (scalar_type (found_value e)).
Qed.

(** ** The whole snapshot ends *)

Lemma binary_snapshot_spec v bindings A component_room record_room path_room reserved allocated assigned :
  view_ok v -> bindings_words bindings ->
  answers (snapshot_runtime_ic_binary v bindings A component_room record_room path_room reserved allocated assigned) (fun result =>
    exists s p, snapshot_project v bindings A native_component component_room record_room path_room reserved = answer s /\
      prepare_runtime_ic_binary_native v allocated (snap_components s) (snap_records s) = answer p /\
      result = (ic_format p (native_entries (snap_components s) p (snap_records s)), snap_stats s)).
Proof.
  intros Hv Hb. unfold snapshot_runtime_ic_binary, snapshot_runtime_ic_project_native. outcome_steps.
  destruct (snapshot_project_spec v bindings A native_component component_room record_room path_room reserved Hv Hb) as (o & Ho & Hs).
  rewrite Ho. destruct o as [r|s]; [apply answers_refuse|]. destruct (Hs s eq_refl) as (es & Hp & Hok & _ & _ & Hc).
  apply answers_answer. outcome_steps.
  pose proof (components_unsigned v (snap_components s) Hc) as Hpos. pose proof (records_fields v bindings A _ _ _ _ Hp Hok) as Hfields.
  destruct (prepare_native_spec v Hv _ _ allocated Hpos Hfields) as (o & Hprepare & _); [by apply string_count_unsigned|].
  rewrite Hprepare. destruct o as [r|p]; [apply answers_refuse|]. apply answers_answer. outcome_steps.
  destruct (native_image v allocated _ _ p Hv Hpos Hfields Hprepare) as (_ & Hencode & _). rewrite Hencode.
  apply answers_answer. outcome_steps. by exists s, p.
Qed.

(** For every accepted image, every prepared index and every memory, the snapshot of the
    project ends without an access outside of the image, of the memory or of what it has
    written, with texts and as a binary image. *)
Theorem project_snapshots_in_bounds compiled v bindings A component_room record_room path_room reserved allocated assigned :
  bind compiled = Some (image_success, v) -> bindings_words bindings ->
  is_Some (snapshot_runtime_ic_project v bindings A component_room record_room path_room reserved allocated) /\
  is_Some (snapshot_runtime_ic_binary v bindings A component_room record_room path_room reserved allocated assigned).
Proof.
  intros Hv%bound_view_ok Hb. split.
  - unfold snapshot_runtime_ic_project.
    destruct (snapshot_project_spec v bindings A text_component component_room record_room path_room reserved Hv Hb) as (o & Ho & Hs).
    rewrite Ho. destruct o as [r|s]; [by eexists|]. destruct (Hs s eq_refl) as (es & Hp & Hok & _). cbn [bind_query].
    destruct allocated; cbn [guard_query answer bind_query refuse]; [|by eexists]. rewrite (publish_records_spec _ _ _ _ _ _ _ Hp Hok). by eexists.
  - destruct (binary_snapshot_spec v bindings A component_room record_room path_room reserved allocated assigned Hv Hb) as (o & -> & _).
    by eexists.
Qed.

(** C34: The initial conditions of a project survive the way through their file.  For an image
    whose names are found: the snapshot of a memory is an image that is accepted; writing it
    into any memory of the same size succeeds, and afterwards every path that leads to a scalar
    reads what it read in the first memory, and no byte outside of the scalars has changed. *)
Theorem project_restored compiled v bindings A B component_room record_room path_room reserved allocated assigned image stats :
  bind compiled = Some (image_success, v) -> bindings_words bindings -> self_naming v -> length B = length A ->
  snapshot_runtime_ic_binary v bindings A component_room record_room path_room reserved allocated assigned = Some (inr (image, stats)) ->
  exists w B' reset, ic_bind image = Some (inr w) /\
    reset_runtime_ic_binary v bindings true true true B w 0 = Some (inr (B', reset)) /\
    stats_records reset = stats_scalars stats /\ length B' = length A /\
    (forall path value, recordable (scalar_type value) -> snapshot_runtime_ic_scalar v bindings A path = Some (inr value) ->
      snapshot_runtime_ic_scalar v bindings B' path = Some (inr value)) /\
    (forall i, (forall path target, resolve_runtime_ic_scalar v bindings (Z.of_nat (length A)) path = Some (inr target) ->
        ~ (target_offset target <= Z.of_nat i < target_offset target + target_size target)) -> B' !! i = B !! i).
Proof.
  intros Hv%bound_view_ok Hb Hn Hl H.
  destruct (answers_elim _ _ _ (binary_snapshot_spec v bindings A _ _ _ _ _ _ Hv Hb) H) as (s & p & Hsnap & Hprepare & [= -> ->]).
  destruct (answers_elim _ _ _ (snapshot_project_spec v bindings A native_component _ _ _ _ Hv Hb) Hsnap) as (es & Hp & Hok & [Ht Hcount] & _ & Hc).
  pose proof (components_unsigned v (snap_components s) Hc) as Hpos. pose proof (records_fields v bindings A _ _ _ _ Hp Hok) as Hfields.
  destruct (native_image v allocated _ _ p Hv Hpos Hfields Hprepare) as (Hprepared & _ & Hbind).
  destruct (native_translated v Hv bindings A _ _ es _ Hp Hok Hc allocated p Hprepare Hn) as (ids & Hids).
  destruct (binary_reset_records v bindings _ _ B 0 ids Hv Hb
    (native_texts_bounded v Hv bindings A _ _ es _ Hp Hok Hc allocated p Hprepare) Hbind Hids) as (sources & Hd & Hlen & Hreset).
  rewrite (native_decoded v Hv bindings Hb A _ _ es _ Hp Hok Hc Hn allocated p Hprepare) in Hd. injection Hd as <-.
  assert (Forall (snapshot_of v bindings A) (published <$> es)) as Hall.
  { apply Forall_fmap. eapply Forall_impl; [exact Hok|]. by intros e (_ & _ & _ & _ & _ & _ & _ & _ & Hread); apply Hread. }
  pose proof (published_valid _ _ _ _ _ Hok) as Hvalid.
  unfold snapshot_project in Hsnap. pose proof Hsnap as Hguards. answered Hguards. unbool.
  destruct (reset_snapshots v Hv bindings Hb A B (published <$> es)) as (B' & reset & Hwritten & Hrecords & Hlength & Hread & Hrest); [done| |done|done| |done|done|].
  { intros E. apply fmap_nil_inv in E as ->. apply Forall2_nil_inv_r in Hp. unfold prepare_runtime_ic_binary_native in Hprepare.
    by rewrite Hp, andb_false_r in Hprepare. }
  { by rewrite length_fmap, <- (Forall2_length _ _ _ Hp). }
  eexists _, B', reset. split; [exact Hbind|]. split; [by rewrite Hreset|].
  split; [by rewrite Hrecords, length_fmap, <- (Forall2_length _ _ _ Hp)|]. split; [done|]. split.
  - intros path value Hrec Hvalue. apply (Hread (RecordSource path value)).
    destruct (read_recorded _ _ _ _ _ _ _ _ _ _ _ Hv Hb Hn Hsnap Hvalue Hrec) as (i & n & e & Hi & Hplaced & Hpath & Hfound & Hpo & Hpm).
    destruct (Forall2_lookup_l _ _ _ _ _ Hp Hi) as (e' & He' & Hplaced'). apply list_elem_of_fmap. exists e'. split; [|by eapply list_elem_of_lookup_2].
    rewrite Forall_lookup in Hok. destruct (Hok _ _ He') as (Hpo' & Hpm' & _).
    destruct (placed_same _ _ _ _ Hplaced Hplaced') as (Eo & Em & Ee).
    apply (parts_same v) in Eo, Em; [|done..]. subst path value. unfold published, found_path. by rewrite Eo, Em, <- Ee.
  - intros i Hi. apply Hrest. intros r target _ Htarget. by eapply Hi.
Qed.

Lemma project_snapshots_in_bounds_witness :
  is_Some (snapshot_runtime_ic_project sample_view sample_bindings sample_runtime all_room all_room all_room true true) /\
  is_Some (snapshot_runtime_ic_binary sample_view sample_bindings sample_runtime all_room all_room all_room true true true).
Proof. apply (project_snapshots_in_bounds sample_image); [apply sample_bound|apply sample_bindings_words]. Defined.

(** The bytes of the first memory come back into one that is zero. *)
Lemma project_restored_witness :
  match snapshot_runtime_ic_binary sample_view sample_bindings sample_runtime all_room all_room all_room true true true with
  | Some (inr (image, stats)) =>
      exists w B' reset, ic_bind image = Some (inr w) /\
        reset_runtime_ic_binary sample_view sample_bindings true true true (replicate 24 x00) w 0 = Some (inr (B', reset)) /\
        snapshot_runtime_ic_scalar sample_view sample_bindings B' (PathView [str "y"] [str "x"]) =
          Some (inr (ScalarValue signed_int 4 (padded [x2a; x01; x00; x00])))
  | _ => False
  end.
Proof.
  destruct (snapshot_runtime_ic_binary sample_view sample_bindings sample_runtime all_room all_room all_room true true true)
    as [[r|[image stats]]|] eqn:E; [vm_compute in E; discriminate E| |vm_compute in E; discriminate E].
  destruct (project_restored sample_image sample_view sample_bindings sample_runtime (replicate 24 x00) all_room all_room all_room
    true true true image stats) as (w & B' & reset & H1 & H2 & _ & _ & H3 & _).
  - apply sample_bound.
  - apply sample_bindings_words.
  - apply sample_self_naming.
  - reflexivity.
  - exact E.
  - exists w, B', reset. split; [exact H1|]. split; [exact H2|]. apply H3; [repeat split; discriminate|]. vm_compute. reflexivity.
Defined.
