(* ===== verification/RuntimeIcText.v ===== *)
(** Initial conditions as a text (project/runtime/runtime_ic_codec.cpp): one line for every
    scalar, its path and its value, written by the encoder and read line by line.

    Writing initial conditions back from a text (project/runtime/runtime_ic_reset.cpp): the
    reader of the text plans one write for every line, and nothing is written before the
    last line was accepted. *)

From S2P Require Import Prelude RuntimeValue JsonText JsonWriter Identity TextLines GraphData ImageBytes CompiledView ProjectView RuntimeLayout Outcome RuntimeIc RuntimeIcCodec RuntimeIcReset.

Local Open Scope Z_scope.
Local Open Scope outcome_scope.

(** The conversions of floating-point numbers in <charconv>: the digits of [max_digits10] in
    general format, and the whole token read back.  A number is its four or eight bytes. *)
Class FloatText := {
  float_to_chars : list byte -> option (list byte);
  float_from_chars : Z -> list byte -> option (list byte)
}.

Definition is_text_blank (b : byte) : bool := is_char b " " || is_char b x09 || is_char b x0d.

Definition text_path_component (value : list byte) : bool :=
  negb (bool_decide (value = [])) &&
  forallb (fun c => negb (is_char c ":" || is_char c "." || is_char c "=" || is_char c x0d || is_char c x0a ||
                          is_char c x09 || is_char c " ")) value.

Fixpoint trim_text_front (value : list byte) : list byte :=
  match value with
  | [] => []
  | b :: rest => if is_text_blank b then trim_text_front rest else value
  end.

(** The loop at the back is the loop at the front of the reversed text. *)
Definition trim (value : list byte) : list byte := rev (trim_text_front (rev (trim_text_front value))).

(** ** Scalars *)

Definition to_s64 (v : Z) : Z := if v <? 2 ^ 63 then v else v - 2 ^ 64.

Definition load_unsigned (value : runtime_ic_scalar_value) : option Z :=
  le_value <$> bytes_at (scalar_bytes value) 0 (Z.min (scalar_size value) 8).

Definition load_signed (value : runtime_ic_scalar_value) : option Z :=
  raw ← load_unsigned value;
  let bits := scalar_size value * 8 in
  if 64 <=? bits then Some (to_s64 raw)
  else
    let sign := Z.shiftl 1 (bits - 1) in
    Some (to_s64 (if negb (Z.land raw sign =? 0) then Z.lor raw (u64 (Z.shiftl size_max bits)) else raw)).

Section Encode.
Context `{FloatText}.

(** [room]: the string can grow to this content; a string that cannot is discarded. *)
Context (room : list byte -> bool).

Definition extend_output (text output : list byte) : outcome runtime_ic_codec_result (list byte) :=
  do? guard_query (room (output ++ text)) codec_failed in answer (output ++ text).

Definition append_number (value : Z) (output : list byte) : outcome runtime_ic_codec_result (list byte) :=
  do? guard_query (length (to_chars value) <=? 96)%nat codec_unsupported_value in extend_output (to_chars value) output.

Definition append_float (value : runtime_ic_scalar_value) (size : Z) (output : list byte)
  : outcome runtime_ic_codec_result (list byte) :=
  do? guard_query (scalar_size value =? size) codec_unsupported_value in
  match bytes_at (scalar_bytes value) 0 size with
  | None => None
  | Some number =>
      match float_to_chars number with
      | None => refuse codec_unsupported_value
      | Some text => extend_output text output
      end
  end.

Definition append_scalar (value : runtime_ic_scalar_value) (output : list byte)
  : outcome runtime_ic_codec_result (list byte) :=
  do? guard_query (valid_scalar value) codec_invalid_input in
  match scalar_type value with
  | bool_type =>
      do? guard_query (scalar_size value =? 1) codec_unsupported_value in
      match read_u8 (scalar_bytes value) 0 with
      | None => None
      | Some raw =>
          do? guard_query (raw <=? 1) codec_unsupported_value in
          extend_output (if raw =? 0 then str "false" else str "true") output
      end
  | signed_char | signed_short | signed_int | signed_long | signed_long_long =>
      do? guard_query (scalar_size value <=? 8) codec_unsupported_value in
      match load_signed value with None => None | Some number => append_number number output end
  | char_type | unsigned_char | wchar_type | char8_type | char16_type | char32_type | unsigned_short | unsigned_int
  | unsigned_long | unsigned_long_long =>
      do? guard_query (scalar_size value <=? 8) codec_unsupported_value in
      match load_unsigned value with None => None | Some number => append_number number output end
  | float_type => append_float value 4 output
  | double_type | long_double_type => append_float value 8 output
  | ty_none | void_type | nullptr_type => refuse codec_unsupported_value
  end.

(** The loops over the components of a path. *)
Fixpoint append_components (separator : list byte) (components : list (list byte)) (output : list byte)
  : outcome runtime_ic_codec_result (list byte) :=
  match components with
  | [] => answer output
  | component :: components =>
      do? guard_query (text_path_component component) codec_invalid_input in
      let? output := extend_output separator output in
      let? output := extend_output component output in
      append_components separator components output
  end.

Definition text_line (record : runtime_ic_record_source) (output : list byte) : outcome runtime_ic_codec_result (list byte) :=
  let path := source_path record in
  do? guard_query (negb (bool_decide (path_object path = [])) && valid_scalar (source_value record)) codec_invalid_input in
  let? output := append_components (str "::") (path_object path) output in
  let? output := append_components (str ".") (path_members path) output in
  let? output := extend_output (str " = ") output in
  let? output := append_scalar (source_value record) output in
  extend_output [x0a] output.

Fixpoint text_lines (records : list runtime_ic_record_source) (output : list byte) : outcome runtime_ic_codec_result (list byte) :=
  match records with
  | [] => answer output
  | record :: records => let? output := text_line record output in text_lines records output
  end.

(** [reserved]: the estimate could be reserved. *)
Definition encode_runtime_ic_text (reserved : bool) (records : list runtime_ic_record_source)
  : outcome runtime_ic_codec_result (list byte) :=
  do? guard_query (negb (bool_decide (records = []))) codec_invalid_input in
  do? guard_query reserved codec_failed in
  text_lines records [].
End Encode.

(** ** Reading *)

(** A callback and its context; [None] is an access out of bounds in it. *)
Section Parse.
Context {State : Type} (callback : State -> list byte -> list byte -> option (State * bool)).

(** One line: whether the loop goes on. *)
Definition parse_line (line : list byte) (context : State) : option (State * bool) :=
  let blank := match line with [] => true | c :: _ => is_char c "#" end in
  if blank then Some (context, true)
  else
    match find_byte "=" 0 line with
    | None => Some (context, false)
    | Some separator =>
        match find_byte "=" (separator + 1) line with
        | Some _ => Some (context, false)
        | None =>
            let path := trim (substr 0 separator line) in
            let value := trim (drop (separator + 1) line) in
            if negb (starts_with (str "::") path) || (length path <=? 2)%nat || bool_decide (value = [])
            then Some (context, false)
            else callback context path value
        end
    end.

(** The loop over the lines; the result and the number of the line that is refused. *)
Fixpoint parse_text (fuel : nat) (text : list byte) (line_number begin : nat) (context : State)
  : option (State * (runtime_ic_codec_result * nat)) :=
  match fuel with
  | O => None
  | S fuel =>
      if (length text <? begin)%nat then Some (context, (codec_success, O))
      else
        let line_number := (line_number + 1)%nat in
        let newline := find_byte x0a begin text in
        let line_end := default (length text) newline in
        match parse_line (trim (substr begin (line_end - begin) text)) context with
        | None => None
        | Some (context, false) => Some (context, (codec_invalid_image, line_number))
        | Some (context, true) =>
            match newline with
            | None => Some (context, (codec_success, O))
            | Some newline => parse_text fuel text line_number (newline + 1) context
            end
        end
  end.

Definition parse_runtime_ic_text (text : list byte) (context : State) : option (State * (runtime_ic_codec_result * nat)) :=
  parse_text (length text + 2) text 0 0 context.
End Parse.

(** ** Scalars of a text *)

Definition parse_unsigned (text : list byte) (maximum : Z) : option Z :=
  if bool_decide (text = []) then None
  else value ← from_chars uint64 text; if value <=? maximum then Some value else None.

Definition parse_signed (text : list byte) (minimum maximum : Z) : option Z :=
  if bool_decide (text = []) then None
  else value ← from_chars int64 text; if (minimum <=? value) && (value <=? maximum) then Some value else None.

Definition unsigned_maximum (size : Z) : Z := if 8 <=? size then size_max else Z.shiftl 1 (size * 8) - 1.
Definition signed_minimum (size : Z) : Z := if 8 <=? size then - 2 ^ 63 else - Z.shiftl 1 (size * 8 - 1).
Definition signed_maximum (size : Z) : Z := if 8 <=? size then 2 ^ 63 - 1 else Z.shiftl 1 (size * 8 - 1) - 1.

Definition store_scalar (type : intrinsic_type) (size : Z) (bs : list byte) : outcome runtime_ic_codec_result runtime_ic_scalar_value :=
  let? bytes := store (store_bytes no_scalar_bytes 0 bs) in answer (ScalarValue type size bytes).

Section ParseScalar.
Context `{FloatText}.

(** The first [size] bytes of a 64-bit word. *)
Definition store_word (type : intrinsic_type) (size : Z) (value : option Z) : outcome runtime_ic_codec_result runtime_ic_scalar_value :=
  match value with
  | None => refuse codec_invalid_image
  | Some value => store_scalar type size (take (Z.to_nat size) (le_bytes 8 (u64 value)))
  end.

Definition parse_float (type : intrinsic_type) (size width : Z) (text : list byte)
  : outcome runtime_ic_codec_result runtime_ic_scalar_value :=
  do? guard_query (size =? width) codec_unsupported_value in
  match float_from_chars width text with
  | None => refuse codec_invalid_image
  | Some number => store_scalar type size number
  end.

Definition parse_runtime_ic_text_scalar (type : intrinsic_type) (size : Z) (text : list byte)
  : outcome runtime_ic_codec_result runtime_ic_scalar_value :=
  let text := trim text in
  do? guard_query (negb ((size =? 0) || (scalar_capacity <? size) || bool_decide (text = []))) codec_invalid_input in
  match type with
  | bool_type =>
      do? guard_query (size =? 1) codec_unsupported_value in
      if bool_decide (text = str "true") || bool_decide (text = str "1") then store_scalar type size [x01]
      else if bool_decide (text = str "false") || bool_decide (text = str "0") then store_scalar type size [x00]
      else refuse codec_invalid_image
  | signed_char | signed_short | signed_int | signed_long | signed_long_long =>
      do? guard_query (size <=? 8) codec_unsupported_value in
      store_word type size (parse_signed text (signed_minimum size) (signed_maximum size))
  | char_type | unsigned_char | wchar_type | char8_type | char16_type | char32_type | unsigned_short | unsigned_int
  | unsigned_long | unsigned_long_long =>
      do? guard_query (size <=? 8) codec_unsupported_value in
      store_word type size (parse_unsigned text (unsigned_maximum size))
  | float_type => parse_float type size 4 text
  | double_type | long_double_type => parse_float type size 8 text
  | ty_none | void_type | nullptr_type => refuse codec_unsupported_value
  end.
End ParseScalar.

(** ** Paths *)

Section Path.
(** [room]: the vector can grow to these components. *)
Context (room : list (list byte) -> bool).

Definition append_component (output : list (list byte)) (component : list byte) : option (list (list byte)) :=
  if bool_decide (component = []) then None
  else if room (output ++ [component]) then Some (output ++ [component]) else None.

(** The loop over the components of a part of the path; [accepted]: what else is asked of
    one of them. *)
Fixpoint split_components (fuel : nat) (separator : list byte) (accepted : list byte -> bool) (text : list byte) (begin : nat)
    (output : list (list byte)) : option (option (list (list byte))) :=
  match fuel with
  | O => None
  | S fuel =>
      let found := find_text_from separator begin text in
      let finish := default (length text) found in
      let component := substr begin (finish - begin) text in
      if negb (accepted component) then Some None
      else
        match append_component output component with
        | None => Some None
        | Some output =>
            match found with
            | None => Some (Some output)
            | Some found =>
                let begin := (found + length separator)%nat in
                if (length text <=? begin)%nat then Some None
                else split_components fuel separator accepted text begin output
            end
        end
  end.

(** The object and the members; [None] inside for a text that is not a path. *)
Definition parse_text_path (text : list byte) : option (option (list (list byte) * list (list byte))) :=
  if negb (starts_with (str "::") text) || (length text <=? 2)%nat then Some None
  else
    let text := drop 2 text in
    let member_separator := find_byte "." 0 text in
    let object_text := match member_separator with None => text | Some n => substr 0 n text end in
    if bool_decide (object_text = []) then Some None
    else
      match split_components (S (length object_text)) (str "::") (fun _ => true) object_text 0 [] with
      | None => None
      | Some None => Some None
      | Some (Some object) =>
          match member_separator with
          | None => Some (Some (object, []))
          | Some n =>
              let member_text := drop (n + 1) text in
              if bool_decide (member_text = []) then Some None
              else
                match split_components (S (length member_text)) (str ".")
                        (fun component => negb (bool_decide (component = []) || bool_decide (is_Some (find_text (str "::") component))))
                        member_text 0 [] with
                | None => None
                | Some None => Some None
                | Some (Some members) => Some (Some (object, members))
                end
          end
      end.
End Path.

(** ** The reset *)

Record text_reset_context := TextContext {
  context_plan : reset_plan;
  context_records : Z;
  context_result : runtime_ic_reset_result
}.

Section TextReset.
Context `{FloatText} (v : compiled_view) (bindings : runtime_binding_index).

(** [path_room] and [write_room]: the vectors of components and of writes can grow. *)
Context (path_room : list (list byte) -> bool) (write_room : list reset_write -> bool).

Definition scalar_result (r : runtime_ic_codec_result) : runtime_ic_reset_result :=
  if bool_decide (r = codec_unsupported_value) then reset_unsupported_type else reset_invalid_image.

(** What [text_record] does to the plan. *)
Definition plan_text_record (runtime_size : Z) (options : Z) (path_text value_text : list byte) (plan : reset_plan)
  : outcome runtime_ic_reset_result reset_plan :=
  let? path := ask (parse_text_path path_room path_text) reset_invalid_image in
  let path := PathView path.1 path.2 in
  let? target := mapped (resolve_runtime_ic_scalar v bindings runtime_size path) in
  if reset_target_excluded target options then answer plan
  else
    match parse_runtime_ic_text_scalar (target_type target) (target_size target) value_text with
    | None => None
    | Some (inl r) => refuse (scalar_result r)
    | Some (inr value) =>
        append_write v bindings (write_room (plan_writes plan)) runtime_size path value options plan
    end.

(** The callback. *)
Definition text_record (runtime_size options : Z) (context : text_reset_context) (path_text value_text : list byte)
  : option (text_reset_context * bool) :=
  let records := u32 (context_records context + 1) in
  match plan_text_record runtime_size options path_text value_text (context_plan context) with
  | None => None
  | Some (inl r) => Some (TextContext (context_plan context) records r, false)
  | Some (inr plan) => Some (TextContext plan records reset_success, true)
  end.

(** The memory and the statistics of a reset that succeeds; the line that is refused comes
    with the other results. *)
Definition reset_runtime_ic_text (reserved : bool) (runtime text : list byte) (options : Z)
  : outcome (runtime_ic_reset_result * nat) (list byte * runtime_ic_reset_stats) :=
  do? guard_query (view_valid v && negb (bool_decide (runtime = [])) && valid_reset_ic_options options &&
                   negb (bool_decide (text = []))) (reset_invalid_input, O) in
  do? guard_query reserved (reset_failed, O) in
  match parse_runtime_ic_text (text_record (Z.of_nat (length runtime)) options) text
          (TextContext (ResetPlan [] 0) 0 reset_success) with
  | None => None
  | Some (context, (parsed, error_line)) =>
      if negb (bool_decide (parsed = codec_success))
      then refuse (if bool_decide (context_result context = reset_success) then reset_invalid_image else context_result context,
                   error_line)
      else
        do? guard_query (negb (context_records context =? 0)) (reset_invalid_input, error_line) in
        match apply_writes (plan_writes (context_plan context)) runtime with
        | None => None
        | Some (inl r) => refuse (r, error_line)
        | Some (inr runtime) =>
            answer (runtime, publish_stats (Z.of_nat (length (plan_writes (context_plan context))))
                               (plan_bytes (context_plan context)))
        end
  end.
End TextReset.
