(* ===== verification/IcText.v ===== *)
(** Scalars as texts: what the encoder writes for a value is one word of a line, and it is
    read back as the bytes of the value.

    A text of initial conditions line by line: reading with index arithmetic is reading the
    lines, a path that was written is taken apart again, and a written line reaches the
    callback as its path and its value.

    Initial conditions through their text: a snapshot that was written as a text is written
    back from it, and no text makes the reset leave its bounds. *)

From S2P Require Import Prelude RuntimeValue JsonText JsonParser JsonWriter JsonRoundtrip Identity TextLines GraphData ImageBytes CompiledView CompiledBounds CompiledProject ProjectView RuntimeLayout Outcome RuntimeQuery QueryBounds RuntimeIc IcScalar RuntimeIcCodec IcEncode IcRoundtrip RuntimeIcReset IcResetRecords IcRestore RuntimeIcText.

Local Open Scope Z_scope.
Local Open Scope outcome_scope.

(** A byte that may be anywhere in a path or a value. *)
Definition carried_byte (b : byte) : bool := negb (is_text_blank b || is_char b x0a || is_char b "=").

Definition carried_text (t : list byte) : Prop := t <> [] /\ Forall (fun b => carried_byte b = true) t.

(** A number that is not one: all bits of the exponent, some of the fraction. *)
Definition is_nan (number : list byte) : bool :=
  let v := le_value number in
  let '(exponent, fraction) := if (length number =? 4)%nat then (0x7f800000, 0x7fffff) else (0x7ff0000000000000, 0xfffffffffffff) in
  (Z.land v exponent =? exponent) && negb (Z.land v fraction =? 0).

(** What <charconv> promises: the digits of [max_digits10] identify a number, the text of a
    number has no separator in it, and a number that is read has its width. *)
Class FloatTextLaws `{FloatText} : Prop := {
  float_reads_back number text :
    (length number = 4 \/ length number = 8)%nat -> is_nan number = false -> float_to_chars number = Some text ->
    float_from_chars (Z.of_nat (length number)) text = Some number;
  float_carried number text : float_to_chars number = Some text -> carried_text text;
  float_width width text number : float_from_chars width text = Some number -> Z.of_nat (length number) = width
}.

(** ** Bytes of words *)

Lemma le_bytes_value bs : le_bytes (length bs) (le_value bs) = bs.
Proof.
  induction bs as [|b bs IH]; [done|]. cbn [length le_bytes le_value]. pose proof (bz_range b) as Hb.
  assert (0 <= le_value bs) as H0 by apply le_value_range.
  assert (Z.lor (bz b) (Z.shiftl (le_value bs) 8) = bz b + le_value bs * 2 ^ 8) as ->.
  { rewrite Z.shiftl_mul_pow2, Z.lor_comm by lia. rewrite lor_disjoint; lia. }
  f_equal.
  - change 0xff with (2 ^ 8 - 1). rewrite land_ones_mod by lia. rewrite Z.mod_add by lia. rewrite Z.mod_small by lia. apply zb_bz.
  - rewrite Z.shiftr_div_pow2, Z.div_add, Z.div_small, Z.add_0_l by lia. done.
Qed.

Lemma le_bytes_mod n v w : v mod 2 ^ (8 * Z.of_nat n) = w mod 2 ^ (8 * Z.of_nat n) -> le_bytes n v = le_bytes n w.
Proof. intros H. by rewrite <- (le_bytes_value (le_bytes n v)), <- (le_bytes_value (le_bytes n w)), !le_value_bytes, !le_bytes_length, H. Qed.

Lemma take_le_bytes k n v : (k <= n)%nat -> take k (le_bytes n v) = le_bytes k v.
Proof.
  revert n v. induction k as [|k IH]; intros n v H; [done|]. destruct n as [|n]; [lia|]. cbn. by rewrite IH by lia.
Qed.

(** A word of which the first bytes are kept. *)
Lemma store_word_bytes bs value :
  (length bs <= 8)%nat -> u64 value mod 2 ^ (8 * Z.of_nat (length bs)) = le_value bs ->
  take (length bs) (le_bytes 8 (u64 value)) = bs.
Proof.
  intros Hl Hv. rewrite take_le_bytes by done. rewrite <- (le_bytes_value bs) at 2. apply le_bytes_mod. rewrite Hv.
  symmetry. apply Z.mod_small. apply le_value_range.
Qed.

(** ** Sign extension *)

Lemma sign_bit raw n : 0 <= n -> 0 <= raw < 2 ^ (n + 1) -> (Z.land raw (2 ^ n) =? 0) = (raw <? 2 ^ n).
Proof.
  intros Hn Hr. rewrite Z.pow_add_r in Hr by lia. assert (0 < 2 ^ n) by (apply Z.pow_pos_nonneg; lia).
  destruct (Z.ltb_spec raw (2 ^ n)) as [Hlow|Hhigh].
  - apply Z.eqb_eq, Z.bits_inj'. intros i Hi. rewrite Z.land_spec, Z.bits_0, pow2_testbit by lia.
    destruct (Z.eqb_spec n i) as [<-|]; [|apply andb_false_r]. by rewrite (testbit_high n raw) by lia.
  - apply Z.eqb_neq. intros H0. assert (Z.testbit (Z.land raw (2 ^ n)) n = true) as Hbit; [|by rewrite H0, Z.bits_0 in Hbit].
    rewrite Z.land_spec, pow2_testbit, Z.eqb_refl, andb_true_r by lia. apply Z.testbit_true; [done|].
    by replace (raw / 2 ^ n) with 1 by (apply (Z.div_unique raw (2 ^ n) 1 (raw - 2 ^ n)); lia).
Qed.

Lemma extended raw bits :
  0 < bits < 64 -> 0 <= raw < 2 ^ bits -> Z.lor raw (u64 (Z.shiftl size_max bits)) = raw + (2 ^ 64 - 2 ^ bits).
Proof.
  intros Hb Hr. assert (u64 (Z.shiftl size_max bits) = (2 ^ (64 - bits) - 1) * 2 ^ bits) as ->.
  { assert (2 ^ (64 - bits) * 2 ^ bits = 2 ^ 64) as E by (rewrite <- Z.pow_add_r by lia; f_equal; lia).
    assert (2 ^ bits <= 2 ^ 64) by (apply Z.pow_le_mono_r; lia).
    unfold u64, size_max. rewrite Z.shiftl_mul_pow2 by lia. symmetry. apply (Z.mod_unique _ _ (2 ^ bits - 1)); nia. }
  rewrite Z.lor_comm, lor_disjoint by lia.
  assert (2 ^ (64 - bits) * 2 ^ bits = 2 ^ 64) as E by (rewrite <- Z.pow_add_r by lia; f_equal; lia). lia.
Qed.

(** ** Words of a line *)

Lemma trim_front_plain t : Forall (fun b => is_text_blank b = false) t -> trim_text_front t = t.
Proof. intros [|b l Hb _]; [done|]. cbn. by rewrite Hb. Qed.

Lemma trim_plain t : Forall (fun b => is_text_blank b = false) t -> trim t = t.
Proof.
  intros Ht. unfold trim. rewrite (trim_front_plain t Ht), trim_front_plain; [apply rev_involutive|]. by apply Forall_rev.
Qed.

Lemma carried_plain t : carried_text t -> Forall (fun b => is_text_blank b = false) t.
Proof. intros [_ H]. eapply Forall_impl; [exact H|]. cbn. intros b Hb. unfold carried_byte in Hb. unbool. tauto. Qed.

Lemma digits_carried z : 0 <= z -> carried_text (decimal z).
Proof.
  intros Hz. destruct (decimal_spec z Hz) as (_ & [Hne Hd] & _). split; [done|]. eapply Forall_impl; [exact Hd|].
  cbn. intros b. by destruct b.
Qed.

Lemma number_carried z : carried_text (to_chars z).
Proof.
  unfold to_chars. destruct (Z.ltb_spec z 0).
  - destruct (digits_carried (- z)) as [_ H']; [lia|]. split; [done|]. by constructor.
  - by apply digits_carried.
Qed.

(** ** Numbers *)

Section Numbers.
Context (s : runtime_ic_scalar_value) (Hs : scalar_ok s) (Hsize : scalar_size s <= 8).

Lemma content_length : Z.of_nat (length (scalar_content s)) = scalar_size s.
Proof. pose proof (blen_scalar_content s Hs) as H. exact H. Qed.

Lemma loaded_unsigned : load_unsigned s = Some (le_value (scalar_content s)).
Proof. unfold load_unsigned. rewrite Z.min_l by lia. by rewrite (scalar_content_read s Hs). Qed.

Lemma content_value : 0 <= le_value (scalar_content s) < 2 ^ (8 * scalar_size s).
Proof. pose proof (le_value_range (scalar_content s)) as H. by rewrite content_length in H. Qed.

Lemma store_content value :
  u64 value mod 2 ^ (8 * scalar_size s) = le_value (scalar_content s) ->
  store_word (scalar_type s) (scalar_size s) (Some value) =
    answer (ScalarValue (scalar_type s) (scalar_size s) (padded (scalar_content s))).
Proof.
  intros Hv. pose proof content_length as Hl. unfold store_word, store_scalar.
  replace (Z.to_nat (scalar_size s)) with (length (scalar_content s)) by lia.
  rewrite store_word_bytes; [|lia|by rewrite Hl]. rewrite store_padded by lia. done.
Qed.

Lemma unsigned_reads : parse_unsigned (to_chars (le_value (scalar_content s))) (unsigned_maximum (scalar_size s)) =
  Some (le_value (scalar_content s)).
Proof.
  pose proof content_value as Hv. pose proof (scalar_ok_size s Hs). unfold parse_unsigned.
  rewrite bool_decide_false by apply number_carried.
  assert (2 ^ (8 * scalar_size s) <= 2 ^ 64) by (apply Z.pow_le_mono_r; lia).
  rewrite from_to_chars; [|unfold representable; cbn; rewrite !(proj2 (Z.leb_le _ _)); [done|lia..]|cbn; lia].
  cbn [mbind option_bind]. rewrite (proj2 (Z.leb_le _ _)); [done|]. unfold unsigned_maximum, size_max.
  destruct (Z.leb_spec 8 (scalar_size s)); [lia|]. rewrite Z.shiftl_1_l, Z.mul_comm. lia.
Qed.

(** The number of the bytes, with their sign. *)
Lemma loaded_signed :
  exists value, load_signed s = Some value /\
    - 2 ^ (8 * scalar_size s - 1) <= value < 2 ^ (8 * scalar_size s - 1) /\
    value mod 2 ^ (8 * scalar_size s) = le_value (scalar_content s).
Proof.
  pose proof content_value as Hv. pose proof (scalar_ok_size s Hs). unfold load_signed. rewrite loaded_unsigned. cbn [mbind option_bind].
  set (raw := le_value (scalar_content s)) in *. rewrite (Z.mul_comm (scalar_size s)).
  set (bits := 8 * scalar_size s) in *. assert (8 <= bits <= 64) as Hbits by lia.
  assert (2 ^ bits = 2 * 2 ^ (bits - 1)) as Hp by (rewrite <- Z.pow_succ_r by lia; f_equal; lia).
  assert (0 < 2 ^ (bits - 1)) by (apply Z.pow_pos_nonneg; lia).
  destruct (Z.leb_spec 64 bits).
  { assert (bits = 64) as E by lia. rewrite E in *. eexists. split; [done|]. unfold to_s64.
    change (2 ^ (64 - 1)) with (2 ^ 63) in *. destruct (Z.ltb_spec raw (2 ^ 63)).
    - split; [lia|]. by apply Z.mod_small.
    - split; [lia|]. symmetry. apply (Z.mod_unique _ _ (-1)); lia. }
  eexists. split; [done|]. rewrite Z.shiftl_1_l.
  assert (raw < 2 ^ 63 /\ 2 ^ bits <= 2 ^ 63) as [Hr63 Hb63].
  { assert (2 ^ bits <= 2 ^ 63) by (apply Z.pow_le_mono_r; lia). lia. }
  rewrite sign_bit by (rewrite ?Z.sub_add; lia). destruct (Z.ltb_spec raw (2 ^ (bits - 1))); cbn [negb]; unfold to_s64.
  - rewrite (proj2 (Z.ltb_lt _ _)) by lia. split; [lia|]. by apply Z.mod_small.
  - rewrite extended by lia. assert (2 ^ bits <= 2 ^ 62 \/ bits = 63) as [?| E].
    { destruct (Z.eq_dec bits 63); [by right|left]. apply Z.pow_le_mono_r; lia. }
    + rewrite (proj2 (Z.ltb_ge _ _)) by lia. split; [lia|]. symmetry. apply (Z.mod_unique _ _ (-1)); lia.
    + rewrite (proj2 (Z.ltb_ge _ _)) by lia. split; [lia|]. symmetry. apply (Z.mod_unique _ _ (-1)); lia.
Qed.

Lemma signed_reads value :
  - 2 ^ (8 * scalar_size s - 1) <= value < 2 ^ (8 * scalar_size s - 1) ->
  parse_signed (to_chars value) (signed_minimum (scalar_size s)) (signed_maximum (scalar_size s)) = Some value.
Proof.
  intros Hv. pose proof (scalar_ok_size s Hs). unfold parse_signed. rewrite bool_decide_false by apply number_carried.
  assert (2 ^ (8 * scalar_size s - 1) <= 2 ^ 63) by (apply Z.pow_le_mono_r; lia).
  rewrite from_to_chars; [|unfold representable; cbn; rewrite !(proj2 (Z.leb_le _ _)); [done|lia..]|done].
  cbn [mbind option_bind]. unfold signed_minimum, signed_maximum. rewrite Z.shiftl_1_l, (Z.mul_comm _ 8).
  destruct (Z.leb_spec 8 (scalar_size s)).
  - replace (8 * scalar_size s - 1) with 63 in Hv by lia. by rewrite !(proj2 (Z.leb_le _ _)) by lia.
  - by rewrite !(proj2 (Z.leb_le _ _)) by lia.
Qed.
End Numbers.

(** ** One value *)

(** A floating-point value that is a number. *)
Definition scalar_number (s : runtime_ic_scalar_value) : Prop :=
  match scalar_type s with
  | float_type | double_type | long_double_type => is_nan (scalar_content s) = false
  | _ => True
  end.

Section Value.
Context `{FloatTextLaws} (room : list byte -> bool) (s : runtime_ic_scalar_value) (Hs : scalar_ok s).

(** The text of a value: one word, which reads back as the bytes of the value. *)
Definition text_of (t : list byte) : Prop :=
  carried_text t /\
  (scalar_number s -> parse_runtime_ic_text_scalar (scalar_type s) (scalar_size s) t =
    answer (ScalarValue (scalar_type s) (scalar_size s) (padded (scalar_content s)))).

Definition appends (output : list byte) (o : outcome runtime_ic_codec_result (list byte)) (Q : list byte -> Prop) : Prop :=
  answers o (fun output' => exists t, output' = output ++ t /\ Q t).

Lemma appends_extended t output (Q : list byte -> Prop) : Q t -> appends output (extend_output room t output) Q.
Proof. intros HQ. unfold extend_output. apply answers_bind, answers_guard. intros _. apply answers_answer. by exists t. Qed.

(** The guards of the reader for a word and a size. *)
Lemma word_accepted t :
  carried_text t ->
  trim t = t /\ negb ((scalar_size s =? 0) || (scalar_capacity <? scalar_size s) || bool_decide (t = [])) = true.
Proof.
  intros Ht. split; [by apply trim_plain, carried_plain|]. pose proof (scalar_ok_size s Hs). unfold scalar_capacity.
  rewrite (proj2 (Z.eqb_neq _ _)), (proj2 (Z.ltb_ge _ _)), bool_decide_false by (lia || apply Ht). done.
Qed.

Lemma unsigned_text :
  scalar_size s <= 8 -> 
  store_word (scalar_type s) (scalar_size s) (parse_unsigned (to_chars (le_value (scalar_content s))) (unsigned_maximum (scalar_size s))) =
    answer (ScalarValue (scalar_type s) (scalar_size s) (padded (scalar_content s))).
Proof.
  intros Hsize. rewrite unsigned_reads by done. apply store_content; [done|done|]. pose proof (content_value s Hs) as Hv.
  pose proof (scalar_ok_size s Hs). assert (2 ^ (8 * scalar_size s) <= 2 ^ 64) by (apply Z.pow_le_mono_r; lia).
  unfold u64. rewrite !Z.mod_small by (rewrite ?Z.mod_small; lia). done.
Qed.

Lemma signed_text value :
  scalar_size s <= 8 -> - 2 ^ (8 * scalar_size s - 1) <= value < 2 ^ (8 * scalar_size s - 1) ->
  value mod 2 ^ (8 * scalar_size s) = le_value (scalar_content s) ->
  store_word (scalar_type s) (scalar_size s) (parse_signed (to_chars value) (signed_minimum (scalar_size s)) (signed_maximum (scalar_size s))) =
    answer (ScalarValue (scalar_type s) (scalar_size s) (padded (scalar_content s))).
Proof.
  intros Hsize Hv Hm. rewrite signed_reads by done. apply store_content; [done|done|]. rewrite <- Hm. unfold u64.
  pose proof (scalar_ok_size s Hs). apply Z.mod_mod_divide. exists (2 ^ (64 - 8 * scalar_size s)).
  rewrite <- Z.pow_add_r by lia. f_equal. lia.
Qed.

(** What the reader does for a type, below its first guard. *)
Definition reads_with (read : list byte -> outcome runtime_ic_codec_result runtime_ic_scalar_value) : Prop :=
  forall t, parse_runtime_ic_text_scalar (scalar_type s) (scalar_size s) t =
    do? guard_query (negb ((scalar_size s =? 0) || (scalar_capacity <? scalar_size s) || bool_decide (trim t = []))) codec_invalid_input in
    read (trim t).

Lemma word_read_with read t : reads_with read -> carried_text t -> parse_runtime_ic_text_scalar (scalar_type s) (scalar_size s) t = read t.
Proof. intros Hread Ht. rewrite Hread. by destruct (word_accepted t Ht) as [-> ->]. Qed.

Lemma written_number load value read output :
  reads_with (fun t => do? guard_query (scalar_size s <=? 8) codec_unsupported_value in store_word (scalar_type s) (scalar_size s) (read t)) ->
  (scalar_size s <= 8 -> load = Some value /\
    store_word (scalar_type s) (scalar_size s) (read (to_chars value)) =
      answer (ScalarValue (scalar_type s) (scalar_size s) (padded (scalar_content s)))) ->
  appends output
    (do? guard_query (scalar_size s <=? 8) codec_unsupported_value in
     match load with None => None | Some number => append_number room number output end) text_of.
Proof.
  intros Hread Hvalue. apply answers_bind, answers_guard. intros Hsize. destruct Hvalue as [-> Hstore]; [lia|].
  apply answers_bind, answers_guard. intros _. apply appends_extended. split; [apply number_carried|]. intros _.
  rewrite (word_read_with _ _ Hread) by apply number_carried. by rewrite Hsize.
Qed.

Lemma unsigned_spec output :
  reads_with (fun t => do? guard_query (scalar_size s <=? 8) codec_unsupported_value in
    store_word (scalar_type s) (scalar_size s) (parse_unsigned t (unsigned_maximum (scalar_size s)))) ->
  appends output
    (do? guard_query (scalar_size s <=? 8) codec_unsupported_value in
     match load_unsigned s with None => None | Some number => append_number room number output end) text_of.
Proof.
  intros Hread. apply (written_number _ (le_value (scalar_content s)) _ _ Hread). intros Hsize.
  split; [by apply loaded_unsigned|by apply unsigned_text].
Qed.

Lemma signed_spec output :
  reads_with (fun t => do? guard_query (scalar_size s <=? 8) codec_unsupported_value in
    store_word (scalar_type s) (scalar_size s) (parse_signed t (signed_minimum (scalar_size s)) (signed_maximum (scalar_size s)))) ->
  appends output
    (do? guard_query (scalar_size s <=? 8) codec_unsupported_value in
     match load_signed s with None => None | Some number => append_number room number output end) text_of.
Proof.
  intros Hread. destruct (decide (scalar_size s <= 8)) as [Hsize|Hsize].
  - destruct (loaded_signed s Hs Hsize) as (value & Hload & Hv & Hm). apply (written_number _ value _ _ Hread). intros _.
    split; [done|by apply signed_text].
  - rewrite (proj2 (Z.leb_gt _ _)) by lia. apply answers_refuse.
Qed.

Lemma float_spec width output :
  (width = 4 \/ width = 8) -> reads_with (parse_float (scalar_type s) (scalar_size s) width) ->
  (scalar_number s -> is_nan (scalar_content s) = false) ->
  appends output (append_float room s width output) text_of.
Proof.
  intros Hwidth Hread Hnumber. unfold append_float. apply answers_bind, answers_guard. intros Heq%Z.eqb_eq.
  rewrite <- Heq, (scalar_content_read s Hs).
  destruct (float_to_chars (scalar_content s)) as [t|] eqn:Et; [|apply answers_refuse]. apply appends_extended.
  pose proof (float_carried _ _ Et) as Ht. split; [done|]. intros Hn.
  pose proof (blen_scalar_content s Hs) as Hl. unfold blen in Hl.
  rewrite (word_read_with _ _ Hread Ht). unfold parse_float. rewrite Heq, Z.eqb_refl.
  cbn [guard_query answer bind_query]. assert (length (scalar_content s) = 4 \/ length (scalar_content s) = 8)%nat as Hl48 by lia.
  rewrite <- Heq, <- Hl. rewrite (float_reads_back _ _ Hl48 (Hnumber Hn) Et).
  unfold store_scalar. by rewrite store_padded by lia.
Qed.

Lemma bool_text t :
  scalar_type s = bool_type -> scalar_size s = 1 -> (scalar_content s = [x00] /\ t = str "false" \/ scalar_content s = [x01] /\ t = str "true") ->
  text_of t.
Proof.
  intros Htype Hsize Hc. assert (carried_text t) as Ht.
  { destruct Hc as [[_ ->]|[_ ->]]; (split; [done|by repeat constructor]). }
  split; [done|]. intros _. unfold parse_runtime_ic_text_scalar. destruct (word_accepted t Ht) as [-> ->]. rewrite Htype, Hsize.
  by destruct Hc as [[-> ->]|[-> ->]].
Qed.

Lemma content_byte raw : scalar_size s = 1 -> read_u8 (scalar_bytes s) 0 = Some raw -> raw <= 1 ->
  scalar_content s = [if raw =? 0 then x00 else x01].
Proof.
  intros Hsize Hraw Hle. pose proof (scalar_content_read s Hs) as Hc. rewrite Hsize in Hc. unfold read_u8 in Hraw. rewrite Hc in Hraw.
  injection Hraw as <-. pose proof (bytes_at_length _ _ _ _ Hc) as [Hl _].
  destruct (scalar_content s) as [|b [|c l]]; cbn in Hl; try lia. cbn in *. rewrite Z.lor_0_r in *. pose proof (bz_range b).
  rewrite <- (zb_bz b). destruct (Z.eqb_spec (bz b) 0) as [->|]; [done|]. by replace (bz b) with 1 by lia.
Qed.

Lemma append_scalar_spec output : appends output (append_scalar room s output) text_of.
Proof.
  unfold append_scalar. apply answers_bind, answers_guard. intros _.
  destruct (scalar_type s) eqn:Etype; try apply answers_refuse;
    try (apply unsigned_spec; intros t; unfold parse_runtime_ic_text_scalar; by rewrite Etype);
    try (apply signed_spec; intros t; unfold parse_runtime_ic_text_scalar; by rewrite Etype);
    try (apply float_spec; [by auto|intros t; unfold parse_runtime_ic_text_scalar; by rewrite Etype|
           unfold scalar_number; by rewrite Etype]).
  apply answers_bind, answers_guard. intros Hsize%Z.eqb_eq.
  destruct (read_u8_some (scalar_bytes s) 0) as (raw & Hraw & _); [lia|destruct Hs as (_ & _ & ->); lia|]. rewrite Hraw.
  apply answers_bind, answers_guard. intros Hle%Z.leb_le. apply appends_extended. apply bool_text; [done|done|].
  rewrite (content_byte raw Hsize Hraw Hle). destruct (raw =? 0); [by left|by right].
Qed.
End Value.

(** ** A conversion that keeps the promise *)

(** A number as two letters for each of its bytes. *)
Definition letter (z : Z) : byte := zb (97 + z).
Definition letters (number : list byte) : list byte := number ≫= fun b => [letter (bz b / 16); letter (bz b mod 16)].
Fixpoint from_letters (text : list byte) : list byte :=
  match text with
  | high :: low :: text => zb ((bz high - 97) * 16 + (bz low - 97)) :: from_letters text
  | _ => []
  end.

Definition letter_floats : FloatText := {|
  float_to_chars number := if bool_decide (number = []) then None else Some (letters number);
  float_from_chars width text :=
    let number := from_letters text in if Z.of_nat (length number) =? width then Some number else None
|}.

Lemma letters_read number : from_letters (letters number) = number.
Proof.
  induction number as [|b number IH]; [done|].
  change (zb ((bz (letter (bz b / 16)) - 97) * 16 + (bz (letter (bz b mod 16)) - 97)) :: from_letters (letters number) = b :: number).
  rewrite IH. f_equal. pose proof (bz_range b). pose proof (Z.div_mod (bz b) 16 ltac:(done)). pose proof (Z.mod_pos_bound (bz b) 16 ltac:(done)).
  unfold letter. rewrite !bz_zb_small by lia. rewrite <- (zb_bz b) at 3. f_equal. lia.
Qed.

Lemma letter_carried z : 0 <= z < 16 -> carried_byte (letter z) = true.
Proof.
  intros Hz. assert (exists n, z = Z.of_nat n /\ (n < 16)%nat) as (n & -> & Hn) by (exists (Z.to_nat z); lia).
  do 16 (destruct n as [|n]; [done|]). lia.
Qed.

#[export] Instance letter_floats_laws : @FloatTextLaws letter_floats.
Proof.
  split.
  - intros number text _ _ H. cbn [float_to_chars float_from_chars letter_floats] in *. case_bool_decide; [done|]. injection H as <-.
    by rewrite letters_read, Z.eqb_refl.
  - intros number text H. cbn [float_to_chars letter_floats] in H. case_bool_decide as Hne; [done|]. injection H as <-.
    split; [by destruct number|]. apply Forall_bind, Forall_forall. intros b _.
    pose proof (bz_range b). pose proof (Z.div_mod (bz b) 16 ltac:(done)). pose proof (Z.mod_pos_bound (bz b) 16 ltac:(done)).
    repeat constructor; apply letter_carried; lia.
  - intros width text number H. cbn [float_from_chars letter_floats] in H. cbv zeta in H.
    destruct (Z.eqb_spec (Z.of_nat (length (from_letters text))) width); [|done]. by injection H as <-.
Qed.

(** ** Reading by lines *)

Section Lines.
Context {State : Type} (callback : State -> list byte -> list byte -> option (State * bool)).

Fixpoint read_text (n : nat) (ls : list (list byte)) (context : State) : option (State * (runtime_ic_codec_result * nat)) :=
  match ls with
  | [] => Some (context, (codec_success, O))
  | l :: ls =>
      match parse_line callback (trim l) context with
      | None => None
      | Some (context, false) => Some (context, (codec_invalid_image, (n + 1)%nat))
      | Some (context, true) => read_text (n + 1) ls context
      end
  end.

Lemma substr_line before l after : substr (length before) (length l) (before ++ l ++ after) = l.
Proof. unfold substr. by rewrite drop_app_length, take_app_length. Qed.

Lemma parse_text_reads fuel before rest n context :
  (length rest + 1 < fuel)%nat ->
  parse_text callback fuel (before ++ rest) n (length before) context = read_text n (lines rest) context.
Proof.
  revert before rest n context. induction fuel as [|fuel IH]; intros before rest n context Hf; [lia|].
  cbn [parse_text]. rewrite (proj2 (Nat.ltb_ge _ _)) by (rewrite length_app; lia).
  unfold find_byte. rewrite drop_app_length. pose proof (find_from_spec x0a (length before) rest) as Hfind.
  destruct (find_from x0a (length before) rest) as [m|].
  - destruct Hfind as (l & after & -> & -> & Hl). rewrite lines_cons by done. cbn [from_option id read_text].
    replace (length before + length l - length before)%nat with (length l) by lia. rewrite substr_line.
    destruct (parse_line _ _ _) as [[context' [|]]|]; try done.
    replace (before ++ l ++ x0a :: after) with ((before ++ l ++ [x0a]) ++ after) by by rewrite <- !app_assoc.
    assert (length before + length l + 1 = length (before ++ l ++ [x0a]))%nat as -> by (rewrite !length_app; cbn; lia).
    apply IH. rewrite length_app in Hf. cbn in Hf. lia.
  - rewrite lines_one by done. cbn [from_option id read_text]. rewrite length_app.
    replace (length before + length rest - length before)%nat with (length rest) by lia.
    pose proof (substr_line before rest []) as E. rewrite app_nil_r in E. rewrite E.
    by destruct (parse_line _ _ _) as [[context' [|]]|].
Qed.

Lemma parse_reads text context : parse_runtime_ic_text callback text context = read_text 0 (lines text) context.
Proof. apply (parse_text_reads _ []). cbn. lia. Qed.
End Lines.

(** ** Trimming *)

Lemma trim_ends t f l :
  head t = Some f -> last t = Some l -> is_text_blank f = false -> is_text_blank l = false -> trim t = t.
Proof.
  intros Hf Hl Bf Bl. destruct t as [|b t]; [done|]. injection Hf as ->. unfold trim. cbn [trim_text_front]. rewrite Bf.
  rewrite <- (rev_involutive (f :: t)) in Hl. destruct (rev (f :: t)) as [|c r] eqn:E; [done|].
  cbn [rev] in Hl. rewrite last_snoc in Hl. injection Hl as ->. cbn [trim_text_front]. rewrite Bl, <- E. apply rev_involutive.
Qed.

Lemma trim_front_blank b t : is_text_blank b = true -> trim (b :: t) = trim t.
Proof. intros Hb. unfold trim. cbn [trim_text_front]. by rewrite Hb. Qed.

Lemma trim_back_blank t b f :
  head t = Some f -> is_text_blank f = false -> is_text_blank b = true -> trim (t ++ [b]) = trim t.
Proof.
  intros Hf Bf Bb. destruct t as [|c t]; [done|]. injection Hf as ->. unfold trim. cbn [app trim_text_front]. rewrite Bf.
  change (f :: t ++ [b]) with ((f :: t) ++ [b]). rewrite rev_app_distr. cbn [rev app trim_text_front]. by rewrite Bb.
Qed.

(** ** Components of a path *)

Lemma find_text_absent p ps t : Forall (fun b => b <> p) t -> find_text (p :: ps) t = None.
Proof.
  induction 1 as [|b t Hb _ IH]; [done|]. cbn [find_text length take]. rewrite bool_decide_false by (by intros [= ->]).
  by rewrite IH.
Qed.

Lemma find_text_first p ps t rest : Forall (fun b => b <> p) t -> find_text (p :: ps) (t ++ (p :: ps) ++ rest) = Some (length t).
Proof.
  induction 1 as [|b t Hb _ IH].
  - cbn [app length]. cbn [find_text length]. rewrite bool_decide_true; [done|]. cbn [take]. f_equal. apply take_app_length.
  - cbn [app find_text length take]. rewrite bool_decide_false by (by intros [= ->]). cbn [app] in IH. by rewrite IH.
Qed.

Definition component_ok (c : list byte) : Prop := text_path_component c = true.

Lemma component_bytes_ok c : component_ok c ->
  c <> [] /\ Forall (fun b => carried_byte b = true /\ b <> ":"%byte /\ b <> "."%byte) c.
Proof.
  unfold component_ok, text_path_component. intros H. apply andb_true_iff in H as [Hne Hall]. unbool. split; [done|].
  apply Forall_forall. intros b Hb. rewrite forallb_forall in Hall. specialize (Hall b (proj1 (list_elem_of_In _ _) Hb)).
  apply negb_true_iff in Hall. unbool. unfold carried_byte, is_text_blank.
  repeat match goal with H : is_char _ _ = false |- _ => rewrite H end. split; [done|].
  split; intros ->; done.
Qed.

Definition after_separators (separator : list byte) (components : list (list byte)) : list byte :=
  components ≫= fun c => separator ++ c.

Section Split.
Context (p : byte) (ps : list byte) (accepted : list byte -> bool).

Definition splits (c : list byte) : Prop := c <> [] /\ accepted c = true /\ Forall (fun b => b <> p) c.

Lemma split_joined fuel before c components output :
  splits c -> Forall splits components ->
  (length components < fuel)%nat ->
  split_components (fun _ => true) fuel (p :: ps) accepted
    (before ++ c ++ after_separators (p :: ps) components) (length before) output =
    Some (Some (output ++ c :: components)).
Proof.
  intros Hc Hall. revert fuel before c output Hc. induction Hall as [|d components Hd _ IH]; intros fuel before c output (Hne & Hacc & Hp) Hf;
    (destruct fuel as [|fuel]; [cbn in Hf; lia|]); cbn [split_components]; unfold find_text_from, append_component;
    rewrite drop_app_length.
  - change (after_separators (p :: ps) []) with (@nil byte). rewrite app_nil_r, find_text_absent by done. cbn [fmap option_fmap option_map from_option id].
    rewrite length_app. replace (length before + length c - length before)%nat with (length c) by lia.
    pose proof (substr_line before c []) as E. rewrite app_nil_r in E.
    rewrite E, Hacc, bool_decide_false by done. done.
  - change (after_separators (p :: ps) (d :: components)) with (((p :: ps) ++ d) ++ after_separators (p :: ps) components).
    rewrite <- (app_assoc (p :: ps)). rewrite find_text_first by done. cbn [fmap option_fmap option_map from_option id].
    replace (length before + length c - length before)%nat with (length c) by lia. rewrite substr_line, Hacc, bool_decide_false by done. cbn [negb].
    rewrite (proj2 (Nat.leb_gt _ _)).
    2: { rewrite !length_app. destruct Hd as [Hd _]. destruct d; [done|]. cbn. lia. }
    replace (before ++ c ++ (p :: ps) ++ d ++ after_separators (p :: ps) components)
      with ((before ++ c ++ (p :: ps)) ++ d ++ after_separators (p :: ps) components) by by rewrite <- !app_assoc.
    assert (length before + length c + length (p :: ps) = length (before ++ c ++ (p :: ps)))%nat as -> by (rewrite !length_app; lia).
    rewrite IH by (done || cbn in Hf; lia). by rewrite <- app_assoc.
Qed.
End Split.

(** ** Whole paths *)

Definition path_text (path : runtime_ic_path_view) : list byte :=
  after_separators (str "::") (path_object path) ++ after_separators (str ".") (path_members path).

Definition path_ok (path : runtime_ic_path_view) : Prop :=
  path_object path <> [] /\ Forall component_ok (path_object path) /\ Forall component_ok (path_members path).

Lemma after_length separator components :
  Forall (fun c => c <> []) components -> (length components <= length (after_separators separator components))%nat.
Proof.
  induction 1 as [|c components Hc _ IH]; [done|]. change (after_separators separator (c :: components)) with ((separator ++ c) ++ after_separators separator components).
  rewrite !length_app. destruct c; [done|]. cbn. lia.
Qed.

Lemma component_splits p accepted c : component_ok c -> (p = ":"%byte \/ p = "."%byte) -> (component_ok c -> accepted c = true) -> splits p accepted c.
Proof.
  intros Hc Hp Hacc. destruct (component_bytes_ok c Hc) as [Hne Hall]. split; [done|]. split; [by apply Hacc|].
  eapply Forall_impl; [exact Hall|]. cbn. intros b (_ & ? & ?). by destruct Hp as [-> | ->].
Qed.

Lemma object_no_dot c components :
  Forall component_ok (c :: components) -> Forall (fun b => is_char b "." = false) (c ++ after_separators (str "::") components).
Proof.
  assert (forall d, component_ok d -> Forall (fun b => is_char b "." = false) d) as Hone.
  { intros d Hd. destruct (component_bytes_ok d Hd) as [_ Hall]. eapply Forall_impl; [exact Hall|]. cbn. intros b (_ & _ & Hb).
    destruct (is_char b ".") eqn:E; [|done]. by apply is_char_spec in E. }
  intros [Hc Hall]%Forall_cons. apply Forall_app. split; [by apply Hone|]. unfold after_separators.
  apply Forall_bind. eapply Forall_impl; [exact Hall|]. intros d Hd. apply Forall_app. split; [by repeat constructor|by apply Hone].
Qed.

Lemma member_accepted c : component_ok c ->
  negb (bool_decide (c = []) || bool_decide (is_Some (find_text (str "::") c))) = true.
Proof.
  intros Hc. destruct (component_bytes_ok c Hc) as [Hne Hall]. rewrite bool_decide_false by done.
  change (str "::") with [":"%byte; ":"%byte]. rewrite find_text_absent; [|eapply Forall_impl; [exact Hall|]; cbn; tauto].
  by rewrite bool_decide_false by (intros [? ?]; done).
Qed.

Lemma path_reads path : path_ok path ->
  parse_text_path (fun _ => true) (path_text path) = Some (Some (path_object path, path_members path)).
Proof.
  destruct path as [object members]. intros (Hne & Ho & Hm). cbn [path_object path_members] in *.
  destruct object as [|c object]; [done|]. pose proof (object_no_dot c object Ho) as Hdot.
  apply Forall_cons in Ho as [Hc Ho]. destruct (component_bytes_ok c Hc) as [Hcne _].
  set (O := c ++ after_separators (str "::") object) in *.
  assert (path_text (PathView (c :: object) members) = str "::" ++ (O ++ after_separators (str ".") members)) as ->.
  { unfold path_text, O. cbn [path_object path_members].
    change (after_separators (str "::") (c :: object)) with ((str "::" ++ c) ++ after_separators (str "::") object).
    by rewrite <- !app_assoc. }
  assert (O <> []) as HO by (unfold O; by destruct c).
  assert (split_components (fun _ => true) (S (length O)) (str "::") (fun _ => true) O 0 [] = Some (Some (c :: object))) as Hobject.
  { apply (split_joined ":" [":"%byte] (fun _ => true) _ [] c object []).
    - by apply component_splits; [|left|].
    - eapply Forall_impl; [exact Ho|]. intros d Hd. by apply component_splits; [|left|].
    - pose proof (after_length (str "::") object) as Hl. unfold O. rewrite length_app.
      assert (Forall (fun c => c <> []) object) as Hall
        by (eapply Forall_impl; [exact Ho|]; intros d Hd; by apply component_bytes_ok).
      specialize (Hl Hall). lia. }
  unfold parse_text_path, starts_with. rewrite bool_decide_true by apply take_app_length. cbn [negb orb].
  rewrite (proj2 (Nat.leb_gt _ _)) by (rewrite !length_app; destruct O; [done|cbn; lia]).
  change (drop 2 (str "::" ++ ?x)) with x. unfold find_byte. rewrite drop_0.
  destruct members as [|m members].
  - change (after_separators (str ".") []) with (@nil byte). rewrite app_nil_r, find_absent by done.
    by rewrite bool_decide_false, Hobject by done.
  - apply Forall_cons in Hm as [Hm Hms]. set (M := m ++ after_separators (str ".") members).
    change (after_separators (str ".") (m :: members)) with ("."%byte :: M).
    destruct (component_bytes_ok m Hm) as [Hmne _]. assert (M <> []) as HM by (unfold M; by destruct m).
    rewrite find_first by done. rewrite Nat.add_0_l. unfold substr. rewrite drop_0, take_app_length.
    rewrite bool_decide_false, Hobject by done.
    replace (drop (length O + 1) (O ++ "."%byte :: M)) with M.
    2: { rewrite <- drop_drop, drop_app_length. done. }
    rewrite bool_decide_false by done.
    rewrite (split_joined "." [] _ _ [] m members []); [done|..].
    + apply component_splits; [done|by right|]. apply member_accepted.
    + eapply Forall_impl; [exact Hms|]. intros d Hd. apply component_splits; [done|by right|]. apply member_accepted.
    + pose proof (after_length (str ".") members) as Hl. unfold M. rewrite length_app.
      assert (Forall (fun c => c <> []) members) as Hall
        by (eapply Forall_impl; [exact Hms|]; intros d Hd; by apply component_bytes_ok).
      specialize (Hl Hall). lia.
Qed.

(** ** Written lines *)

Definition written_line (path : runtime_ic_path_view) (t : list byte) : list byte := path_text path ++ str " = " ++ t.

Lemma after_carried separator components :
  Forall (fun b => carried_byte b = true) separator -> Forall component_ok components ->
  Forall (fun b => carried_byte b = true) (after_separators separator components).
Proof.
  intros Hs Hall. apply Forall_bind. eapply Forall_impl; [exact Hall|]. intros c Hc. apply Forall_app. split; [done|].
  destruct (component_bytes_ok c Hc) as [_ H]. eapply Forall_impl; [exact H|]. cbn. tauto.
Qed.

Lemma path_carried path : path_ok path -> Forall (fun b => carried_byte b = true) (path_text path).
Proof. intros (_ & Ho & Hm). apply Forall_app. split; by apply after_carried; [repeat constructor|]. Qed.

Lemma path_begins path : path_ok path -> exists rest, path_text path = str "::" ++ rest /\ rest <> [].
Proof.
  destruct path as [[|c object] members]; intros (Hne & Ho & _); [done|]. cbn [path_object] in *.
  apply Forall_cons in Ho as [Hc _]. destruct (component_bytes_ok c Hc) as [Hcne _].
  exists (c ++ after_separators (str "::") object ++ after_separators (str ".") members).
  split; [|by destruct c]. unfold path_text. cbn [path_object path_members].
  change (after_separators (str "::") (c :: object)) with ((str "::" ++ c) ++ after_separators (str "::") object). by rewrite <- !app_assoc.
Qed.

Lemma carried_no b t : Forall (fun b => carried_byte b = true) t -> carried_byte b = false -> Forall (fun c => is_char c b = false) t.
Proof.
  intros Ht Hb. eapply Forall_impl; [exact Ht|]. cbn. intros c Hc. destruct (is_char c b) eqn:E; [|done].
  apply is_char_spec in E as ->. congruence.
Qed.

Lemma last_byte (t : list byte) : t <> [] -> exists b, last t = Some b /\ b ∈ t.
Proof. intros H. destruct (exists_last H) as (l & b & ->). exists b. rewrite last_snoc. split; [done|]. set_solver. Qed.

Lemma trim_word t : Forall (fun b => carried_byte b = true) t -> trim t = t.
Proof.
  intros H. apply trim_plain. eapply Forall_impl; [exact H|]. cbn. intros b Hb. unfold carried_byte in Hb. unbool. tauto.
Qed.

Section Written.
Context (path : runtime_ic_path_view) (t : list byte) (Hpath : path_ok path) (Ht : carried_text t).

Lemma line_trimmed : trim (written_line path t) = written_line path t.
Proof.
  destruct (path_begins path Hpath) as (rest & E & _). destruct Ht as [Hne Hall]. destruct (last_byte t Hne) as (b & Hb & Hin).
  apply (trim_ends _ ":"%byte b).
  - unfold written_line. by rewrite E.
  - unfold written_line. by rewrite app_assoc, last_app, Hb.
  - done.
  - rewrite Forall_forall in Hall. specialize (Hall b Hin). unfold carried_byte in Hall. unbool. tauto.
Qed.

Lemma line_found : find_byte "=" 0 (written_line path t) = Some (length (path_text path) + 1)%nat.
Proof.
  unfold find_byte, written_line. rewrite drop_0. change (str " = ") with [" "%byte; "="%byte; " "%byte].
  change ([" "%byte; "="%byte; " "%byte] ++ t) with ([" "%byte] ++ "="%byte :: " "%byte :: t). rewrite app_assoc.
  rewrite find_first; [by rewrite length_app|]. apply Forall_app. split; [|by repeat constructor].
  by apply carried_no; [apply path_carried|].
Qed.

Lemma line_parts :
  take (length (path_text path) + 1) (written_line path t) = path_text path ++ [" "%byte] /\
  drop (length (path_text path) + 2) (written_line path t) = " "%byte :: t.
Proof.
  unfold written_line. change (str " = ") with ([" "%byte] ++ ["="%byte] ++ [" "%byte]). split.
  - rewrite <- !app_assoc. rewrite (app_assoc (path_text path)).
    replace (length (path_text path) + 1)%nat with (length (path_text path ++ [" "%byte])) by (rewrite length_app; done).
    apply take_app_length.
  - rewrite <- drop_drop, drop_app_length. done.
Qed.

Lemma parse_written {State} (callback : State -> list byte -> list byte -> option (State * bool)) context :
  parse_line callback (trim (written_line path t)) context = callback context (path_text path) t.
Proof.
  destruct (path_begins path Hpath) as (rest & E & Hrest). rewrite line_trimmed. unfold parse_line.
  assert ((match written_line path t with [] => true | c :: _ => is_char c "#" end) = false) as ->.
  { unfold written_line. by rewrite E. }
  rewrite line_found. destruct line_parts as [Hleft Hright]. unfold substr. rewrite drop_0, Hleft.
  rewrite <- Nat.add_assoc. cbn [Nat.add]. rewrite Hright. unfold find_byte. rewrite Hright.
  rewrite find_absent by (constructor; [done|]; apply carried_no; [apply Ht|done]).
  rewrite trim_front_blank, (trim_word t) by (done || apply Ht).
  rewrite (trim_back_blank (path_text path) " " ":") by (done || by rewrite E). rewrite (trim_word _ (path_carried path Hpath)).
  unfold starts_with. rewrite E, bool_decide_true by apply take_app_length. cbn [negb orb].
  rewrite (proj2 (Nat.leb_gt _ _)) by (rewrite length_app; destruct rest; [done|cbn; lia]).
  by rewrite bool_decide_false by apply Ht.
Qed.

Lemma line_one : Forall (fun b => is_char b x0a = false) (written_line path t).
Proof.
  unfold written_line. rewrite !Forall_app. split; [by apply carried_no; [apply path_carried|]|].
  split; [by repeat constructor|]. apply carried_no; [apply Ht|done].
Qed.
End Written.

(** ** What the encoder writes *)

Section Encoded.
Context `{FloatTextLaws} (room : list byte -> bool).

(** The text that stands for a record. *)
Definition record_text (r : runtime_ic_record_source) (t : list byte) : Prop :=
  path_ok (source_path r) /\ text_of (source_value r) t /\ scalar_ok (source_value r).

Lemma append_components_spec separator components output :
  answers (append_components room separator components output) (fun output' =>
    output' = output ++ after_separators separator components /\ Forall component_ok components).
Proof.
  revert output. induction components as [|c components IH]; intros output; cbn [append_components]; unfold extend_output; outcome_steps.
  { split; [|constructor]. by rewrite app_nil_r. }
  eapply answers_mono; [apply IH|]. cbv beta. intros output' [-> Hall]. split; [|by constructor].
  change (after_separators separator (c :: components)) with ((separator ++ c) ++ after_separators separator components).
  by rewrite <- !app_assoc.
Qed.

Lemma text_line_spec r output :
  (0 <= scalar_size (source_value r) /\ length (scalar_bytes (source_value r)) = 16%nat) ->
  answers (text_line room r output) (fun output' => exists t, record_text r t /\ output' = output ++ written_line (source_path r) t ++ [x0a]).
Proof.
  intros [Hsize Harray]. unfold text_line. outcome_steps. unbool. assert (scalar_ok (source_value r)) as Hs by done.
  eapply answers_mono; [apply append_components_spec|]. cbv beta. intros ? [-> Ho]. outcome_steps.
  eapply answers_mono; [apply append_components_spec|]. cbv beta. intros ? [-> Hm]. unfold extend_output at 1. outcome_steps.
  eapply answers_mono; [apply (append_scalar_spec room _ Hs)|]. cbv beta. intros ? (t & -> & Ht). unfold extend_output. outcome_steps.
  exists t. split; [by split|]. unfold written_line, path_text. by rewrite <- !app_assoc.
Qed.

Lemma text_lines_spec records output :
  Forall (fun r => 0 <= scalar_size (source_value r) /\ length (scalar_bytes (source_value r)) = 16%nat) records ->
  answers (text_lines room records output) (fun output' => exists ts, Forall2 record_text records ts /\
    output' = output ++ concat (zip_with (fun r t => written_line (source_path r) t ++ [x0a]) records ts)).
Proof.
  intros Hall. revert output. induction Hall as [|r records Hr _ IH]; intros output; cbn [text_lines]; outcome_steps.
  { exists []. split; [constructor|]. by rewrite app_nil_r. }
  eapply answers_mono; [by apply text_line_spec|]. cbv beta. intros ? (t & Ht & ->).
  eapply answers_mono; [apply IH|]. cbv beta. intros ? (ts & Hts & ->). exists (t :: ts). split; [by constructor|].
  cbn. by rewrite <- !app_assoc.
Qed.

(** Reading what was written calls back with every record. *)
Fixpoint call_back {State} (callback : State -> list byte -> list byte -> option (State * bool)) (n : nat)
    (records : list (list byte * list byte)) (context : State) : option (State * (runtime_ic_codec_result * nat)) :=
  match records with
  | [] => Some (context, (codec_success, O))
  | (path, value) :: records =>
      match callback context path value with
      | None => None
      | Some (context, false) => Some (context, (codec_invalid_image, (n + 1)%nat))
      | Some (context, true) => call_back callback (n + 1) records context
      end
  end.

Lemma written_reads {State} (callback : State -> list byte -> list byte -> option (State * bool)) n records ts context :
  Forall2 record_text records ts ->
  read_text callback n (lines (concat (zip_with (fun r t => written_line (source_path r) t ++ [x0a]) records ts))) context =
    call_back callback n (zip_with (fun r t => (path_text (source_path r), t)) records ts) context.
Proof.
  intros Hts. revert n context. induction Hts as [|r t records ts (Hp & [Ht _] & _) _ IH]; intros n context; [done|].
  cbn [zip_with concat]. rewrite <- app_assoc. cbn [app]. rewrite lines_cons by by apply line_one.
  cbn [read_text call_back]. rewrite parse_written by done.
  destruct (callback _ _ _) as [[context' [|]]|]; [|done|done]. apply IH.
Qed.
End Encoded.

Section Restore.
Context `{FloatTextLaws}.
Context (v : compiled_view) (Hv : view_ok v) (bindings : runtime_binding_index) (Hb : bindings_words bindings).
Context (A : list byte).

Abbreviation size := (Z.of_nat (length A)).
Abbreviation plan_text := (plan_text_record v bindings (fun _ => true) (fun _ => true) size 0).
Abbreviation record_callback := (text_record v bindings (fun _ => true) (fun _ => true) size 0).

(** A line plans what its record plans. *)
Lemma text_planned r t plan :
  snapshot_of v bindings A r -> record_text r t -> scalar_number (source_value r) ->
  plan_text (path_text (source_path r)) t plan =
    append_write v bindings true size (source_path r) (source_value r) 0 plan.
Proof.
  intros Hr (Hp & [_ Ht] & _) Hn. destruct (snapshot_parts v Hv bindings Hb A r Hr) as (target & bs & Htarget & _ & _ & Hl & Hvalue).
  specialize (Ht Hn). rewrite (snapshot_content r target bs Hl Hvalue), Hvalue in Ht. cbn [scalar_type scalar_size] in Ht.
  unfold plan_text_record. rewrite (path_reads _ Hp). cbn [ask answer bind_query fst snd].
  assert (PathView (path_object (source_path r)) (path_members (source_path r)) = source_path r) as -> by by destruct (source_path r).
  rewrite Htarget. cbn [mapped answer bind_query]. rewrite no_exclusion, Ht, Hvalue. done.
Qed.

Lemma text_calls n records ts plan plan' k :
  Forall (snapshot_of v bindings A) records -> Forall2 record_text records ts ->
  Forall (fun r => scalar_number (source_value r)) records -> 0 <= k -> k + Z.of_nat (length records) <= u32_max ->
  append_writes v bindings size records 0 plan = answer plan' ->
  call_back record_callback n (zip_with (fun r t => (path_text (source_path r), t)) records ts) (TextContext plan k reset_success) =
    Some (TextContext plan' (k + Z.of_nat (length records)) reset_success, (codec_success, O)).
Proof.
  intros Hsnap Hts. revert n plan k Hsnap. induction Hts as [|r t records ts Ht _ IH]; intros n plan k Hsnap Hnum Hk Hcount Hplan.
  { cbn in *. injection Hplan as <-. by rewrite Z.add_0_r. }
  apply Forall_cons in Hsnap as [Hr Hsnap]. apply Forall_cons in Hnum as [Hn Hnum]. cbn [zip_with call_back append_writes length] in *.
  apply bind_answer in Hplan as (plan1 & Happend & Hplan). unfold text_record. cbn [context_records context_plan].
  rewrite (text_planned r t plan Hr Ht Hn), Happend. cbn [answer]. unfold u32_max, u32 in *. rewrite Z.mod_small by lia.
  rewrite IH; [|done|done|lia|lia|done]. do 2 f_equal. f_equal. lia.
Qed.

Lemma text_reset_records B records ts text result :
  length B = length A -> Forall (snapshot_of v bindings A) records -> Forall2 record_text records ts ->
  Forall (fun r => scalar_number (source_value r)) records ->
  text = concat (zip_with (fun r t => written_line (source_path r) t ++ [x0a]) records ts) ->
  reset_runtime_ic_records v bindings true B records 0 = answer result ->
  reset_runtime_ic_text v bindings (fun _ => true) (fun _ => true) true B text 0 = answer result.
Proof.
  intros Hl Hsnap Hts Hnum -> Hreset. unfold reset_runtime_ic_records in Hreset. cbv zeta in Hreset.
  apply bind_answer in Hreset as ([] & Hguard & Hreset). apply guard_answer in Hguard. unbool. cbn [guard_query answer bind_query] in Hreset.
  rewrite Hl in Hreset. apply bind_answer in Hreset as (plan & Hplan & Hreset). apply bind_answer in Hreset as (B' & Happly & Hreset).
  unfold reset_runtime_ic_text.
  assert (concat (zip_with (fun r t => written_line (source_path r) t ++ [x0a]) records ts) <> []) as Htext.
  { destruct Hts as [|r t records ts]; [done|]. cbn. by destruct (written_line (source_path r) t). }
  rewrite (bool_decide_false (B = [])), (bool_decide_false (_ = [])) by done.
  repeat match goal with H : _ = true |- _ => rewrite H end. cbn [negb andb guard_query answer bind_query].
  rewrite parse_reads, (written_reads _ 0 records ts) by done. rewrite Hl.
  rewrite (text_calls 0 records ts _ plan 0) by (done || lia). rewrite bool_decide_true by done. cbn [negb].
  rewrite Z.add_0_l. cbn [context_records context_plan]. rewrite (proj2 (Z.eqb_neq _ 0)).
  2: { intros E. match goal with H : records <> [] |- _ => apply H, length_zero_iff_nil end. lia. }
  cbn [negb guard_query answer bind_query]. rewrite Happly. by injection Hreset as <-.
Qed.
End Restore.

(** C37: Initial conditions survive the way through a text: scalars that were read from one
    memory of an accepted image and encoded as a text are written back from that text into
    another memory of the same size; the reset succeeds, every path then reads there what it
    read in the first memory, whatever the type of the scalar, and no byte outside of the
    scalars has changed.  Of a floating-point value it is assumed that it is a number, and of
    <charconv> that the digits it writes identify one. *)
Theorem text_restored `{FloatTextLaws} compiled v bindings A B records room reserved text :
  bind compiled = Some (image_success, v) -> bindings_words bindings -> length B = length A ->
  Forall (snapshot_of v bindings A) records -> Forall (fun r => scalar_number (source_value r)) records ->
  Z.of_nat (length records) <= u32_max ->
  encode_runtime_ic_text room reserved records = Some (inr text) ->
  exists B' stats,
    reset_runtime_ic_text v bindings (fun _ => true) (fun _ => true) true B text 0 = Some (inr (B', stats)) /\
    stats_records stats = Z.of_nat (length records) /\ length B' = length B /\
    (forall r, r ∈ records -> snapshot_runtime_ic_scalar v bindings B' (source_path r) = Some (inr (source_value r))) /\
    (forall i, untouched v bindings A records i -> B' !! i = B !! i).
Proof.
  intros Hv%bound_view_ok Hb Hl Hsnap Hnum Hcount Hencode. unfold encode_runtime_ic_text in Hencode.
  destruct (bind_answer _ _ _ Hencode) as ([] & Hne & Hencode2). apply guard_answer in Hne.
  apply bind_answer in Hencode2 as ([] & _ & Hencode2). clear Hencode.
  assert (Forall (fun r => 0 <= scalar_size (source_value r) /\ length (scalar_bytes (source_value r)) = 16%nat) records) as Harrays
    by by eapply snapshot_arrays.
  destruct (text_lines_spec room records [] Harrays) as (o & Ho & Hspec). rewrite Hencode2 in Ho. injection Ho as <-.
  destruct (Hspec _ eq_refl) as (ts & Hts & ->). clear Hspec Hencode2.
  assert (Forall source_valid records) as Hsources.
  { eapply Forall2_Forall_l; [exact Hts|]. apply Forall_forall. intros t _ r (Hp & _ & Hs). split; [apply Hp|done]. }
  unbool. destruct records as [|r records'] eqn:E; [done|]. rewrite <- E in *.
  destruct (snapshot_needs v bindings A r) as [Hvalid HA]; [rewrite E in Hsnap; by apply Forall_inv in Hsnap|].
  destruct (reset_snapshots v Hv bindings Hb A B records Hl) as (B' & stats & H1 & H2 & H3 & H4 & H5); [by rewrite E|done..|].
  exists B', stats. rewrite Hl. split; [|done]. by eapply text_reset_records.
Qed.

(** The text of the sample scalar. *)
Definition sample_text : list byte := str "::y.x = 67305985" ++ [x0a].

Lemma text_restored_witness :
  exists B' stats,
    @reset_runtime_ic_text letter_floats sample_view sample_bindings (fun _ => true) (fun _ => true) true sample_runtime sample_text 0 =
      Some (inr (B', stats)) /\
    snapshot_runtime_ic_scalar sample_view sample_bindings B' (PathView [str "y"] [str "x"]) =
      Some (inr (ScalarValue signed_int 4 (padded [x01; x02; x03; x04]))).
Proof.
  destruct (@text_restored letter_floats letter_floats_laws sample_image sample_view sample_bindings (replicate 20 x00 ++ [x01; x02; x03; x04])
    sample_runtime restored_records (fun _ => true) true sample_text) as (B' & stats & H1 & _ & _ & H2 & _).
  - apply sample_bound.
  - apply sample_bindings_words.
  - reflexivity.
  - constructor; [vm_compute; reflexivity|constructor].
  - repeat constructor.
  - vm_compute. discriminate.
  - vm_compute. reflexivity.
  - exists B', stats. split; [exact H1|]. apply (H2 (RecordSource _ _)). left.
Defined.
