(* ===== verification/IcResetBounds.v ===== *)
(** No reset leaves its bounds: from records, from an accepted image and from any text, each
    ends and touches only the image, the text and the runtime memory. *)

From S2P Require Import Prelude JsonText JsonWriter TextLines GraphData Identity ImageBytes CompiledView CompiledBounds CompiledProject ProjectView RuntimeLayout RuntimeValue Outcome RuntimeQuery QueryBounds RuntimeIc IcScalar RuntimeIcCodec IcRoundtrip IcBounds RuntimeIcText RuntimeIcReset IcResetRecords IcText.

Local Open Scope Z_scope.
Local Open Scope outcome_scope.

Section Bounds.
Context (v : compiled_view) (Hv : view_ok v) (bindings : runtime_binding_index) (Hb : bindings_words bindings).
Context (size : Z).

(** A write inside the runtime memory, from bytes that are there. *)
Definition write_inside (wr : reset_write) : Prop :=
  0 <= write_offset wr /\ write_offset wr + write_size wr <= size /\
  exists bs, bytes_at (write_bytes wr) 0 (write_size wr) = Some bs.

Definition plan_inside (plan : reset_plan) : Prop := Forall write_inside (plan_writes plan).

Lemma apply_inside ws runtime :
  Z.of_nat (length runtime) = size -> Forall write_inside ws -> is_Some (apply_writes ws runtime).
Proof.
  intros Hl Hws. revert runtime Hl. induction Hws as [|wr ws (H0 & Hend & bs & Hbs) _ IH]; intros runtime Hl; [by eexists|].
  pose proof (bytes_at_length _ _ _ _ Hbs) as (Hlen & _). cbn [apply_writes]. rewrite Hbs.
  destruct (store_bytes_some runtime (write_offset wr) bs) as (runtime' & Hs); [lia..|]. rewrite Hs. cbn [reset_store answer bind_query].
  apply IH. by rewrite (store_bytes_length _ _ _ _ Hs).
Qed.

Lemma answers_mapped {A} (m : outcome runtime_ic_result A) Q : answers m Q -> answers (mapped m) Q.
Proof. intros (o & -> & Ho). destruct o as [r|a]; [apply answers_refuse|]. apply answers_answer. by apply Ho. Qed.

Definition value_array (value : runtime_ic_scalar_value) : Prop :=
  0 <= scalar_size value /\ length (scalar_bytes value) = 16%nat.

Lemma append_write_inside room path value options plan :
  value_array value -> plan_inside plan ->
  answers (append_write v bindings room size path value options plan) plan_inside.
Proof.
  intros [H0 Hl] Hplan. unfold append_write. apply answers_bind, answers_mapped.
  eapply answers_mono; [by apply resolve_scalar_spec|]. cbv beta. intros target (_ & Hoff & Hcap & Hend).
  destruct (reset_target_excluded _ _); outcome_steps; [done|]. unbool. unfold scalar_capacity in *.
  destruct (bytes_at_some (scalar_bytes value) 0 (scalar_size value)) as (bs & Hbs & Hlen); [lia..|]. rewrite Hbs.
  rewrite store_padded by lia.
  change (reset_store (Some (padded bs))) with (answer (R:=runtime_ic_reset_result) (padded bs)). outcome_steps. apply Forall_app. split; [done|]. constructor; [|constructor].
  split; [done|]. split; [done|]. exists bs. cbn [write_bytes write_size].
  replace (target_size target) with (Z.of_nat (length bs)) by lia. apply bytes_at_padded. lia.
Qed.

Lemma append_writes_inside records options plan :
  Forall (fun r => value_array (source_value r)) records -> plan_inside plan ->
  answers (append_writes v bindings size records options plan) plan_inside.
Proof.
  intros Hall. revert plan. induction Hall as [|r records Hr _ IH]; intros plan Hplan; cbn [append_writes]; outcome_steps; [done|].
  eapply answers_mono; [by apply append_write_inside|]. cbv beta. intros plan' Hplan'. by apply IH.
Qed.

(** ** Texts *)

Lemma find_text_from_at_least pattern from l n : find_text_from pattern from l = Some n -> (from <= n)%nat.
Proof. unfold find_text_from. intros (m & _ & ->)%fmap_Some. lia. Qed.

Lemma split_components_some room fuel separator accepted text begin output :
  separator <> [] -> (begin <= length text)%nat -> (length text - begin < fuel)%nat ->
  is_Some (split_components room fuel separator accepted text begin output).
Proof.
  intros Hsep. revert begin output. induction fuel as [|fuel IH]; intros begin output Hbegin Hf; [lia|]. cbn [split_components].
  destruct (negb _); [by eexists|]. destruct (append_component _ _ _); [|by eexists].
  destruct (find_text_from separator begin text) as [found|] eqn:E; [|by eexists]. apply find_text_from_at_least in E.
  destruct separator; [done|]. destruct (Nat.leb_spec (length text) (found + length (b :: separator))); [by eexists|].
  apply IH; cbn [length] in *; lia.
Qed.

Lemma parse_text_path_some room text : is_Some (parse_text_path room text).
Proof.
  unfold parse_text_path. destruct (_ || _); [by eexists|]. case_bool_decide; [by eexists|].
  match goal with |- context [split_components room ?f ?s ?a ?t 0 []] =>
    destruct (split_components_some room f s a t 0 []) as [[object|] ->]; [done|lia|lia| |by eexists] end.
  destruct (find_byte _ _ _) as [n|]; [|by eexists]. case_bool_decide; [by eexists|].
  match goal with |- context [split_components room ?f ?s ?a ?t 0 []] =>
    destruct (split_components_some room f s a t 0 []) as [[members|] ->]; [done|lia|lia| |by eexists] end.
  by eexists.
Qed.

Section Text.
Context `{FloatTextLaws}.

Lemma store_scalar_spec type n bs :
  (length bs <= 16)%nat -> 0 <= n -> answers (store_scalar type n bs) value_array.
Proof.
  intros Hl Hn. unfold store_scalar. rewrite store_padded by done. apply answers_answer. split; [done|].
  cbn. unfold padded. rewrite length_app, length_replicate. lia.
Qed.

Lemma store_word_spec type n value : 0 <= n <= 8 -> answers (store_word type n value) value_array.
Proof.
  intros Hn. destruct value as [value|]; [|apply answers_refuse]. apply store_scalar_spec; [|lia].
  rewrite length_take, le_bytes_length. lia.
Qed.

Lemma parse_float_spec type n width text :
  (width = 4 \/ width = 8) -> answers (parse_float type n width text) value_array.
Proof.
  intros Hw. unfold parse_float. outcome_steps. unbool. destruct (float_from_chars width text) as [number|] eqn:E; [|apply answers_refuse].
  apply float_width in E. apply store_scalar_spec; lia.
Qed.

Lemma parse_scalar_spec type n text : 0 <= n -> answers (parse_runtime_ic_text_scalar type n text) value_array.
Proof.
  intros Hn. unfold parse_runtime_ic_text_scalar. outcome_steps.
  destruct type; outcome_steps; unbool; try (apply parse_float_spec; lia); try (apply store_word_spec; lia).
  repeat case_match; try apply answers_refuse; by apply store_scalar_spec; [cbn; lia|].
Qed.

Context (path_room : list (list byte) -> bool) (write_room : list reset_write -> bool) (options : Z).

Lemma plan_text_inside path_text value_text plan :
  plan_inside plan ->
  answers (plan_text_record v bindings path_room write_room size options path_text value_text plan) plan_inside.
Proof.
  intros Hplan. unfold plan_text_record. outcome_steps. apply answers_ask; [apply parse_text_path_some|]. intros path _. cbv zeta.
  apply answers_bind, answers_mapped. eapply answers_mono; [by apply resolve_scalar_spec|]. cbv beta.
  intros target (_ & Hoff & Hcap & Hend). destruct (reset_target_excluded _ _); [by apply answers_answer|].
  destruct (parse_scalar_spec (target_type target) (target_size target) value_text) as (o & -> & Ho); [lia|].
  destruct o as [r|value]; [apply answers_refuse|]. apply append_write_inside; [by apply Ho|done].
Qed.

Definition context_inside (context : text_reset_context) : Prop := plan_inside (context_plan context).

Lemma text_record_inside context path_text value_text :
  context_inside context ->
  exists context' go, text_record v bindings path_room write_room size options context path_text value_text = Some (context', go) /\
    context_inside context'.
Proof.
  intros Hc. unfold text_record. destruct (plan_text_inside path_text value_text _ Hc) as (o & -> & Ho).
  destruct o as [r|plan]; eexists _, _; (split; [done|]); [done|]. by apply Ho.
Qed.

Lemma parse_line_inside line context :
  context_inside context ->
  exists context' go, parse_line (text_record v bindings path_room write_room size options) line context = Some (context', go) /\
    context_inside context'.
Proof.
  intros Hc. unfold parse_line. destruct (match line with [] => true | c :: _ => is_char c "#" end); [by exists context, true|].
  destruct (find_byte _ 0 line) as [separator|]; [|by exists context, false].
  destruct (find_byte _ _ line); [by exists context, false|]. destruct (_ || _); [by exists context, false|]. by apply text_record_inside.
Qed.

Lemma read_text_inside n ls context :
  context_inside context ->
  exists context' result, read_text (text_record v bindings path_room write_room size options) n ls context = Some (context', result) /\
    context_inside context'.
Proof.
  revert n context. induction ls as [|l ls IH]; intros n context Hc; cbn [read_text]; [by exists context, (codec_success, O)|].
  destruct (parse_line_inside (trim l) context Hc) as (context' & [|] & -> & Hc'); [by apply IH|].
  by exists context', (codec_invalid_image, (n + 1)%nat).
Qed.

Lemma text_reset_some reserved runtime text :
  Z.of_nat (length runtime) = size ->
  is_Some (reset_runtime_ic_text v bindings path_room write_room reserved runtime text options).
Proof.
  intros Hl. unfold reset_runtime_ic_text. destruct (_ && _); [|by eexists]. destruct reserved; [|by eexists].
  cbn [guard_query answer bind_query]. rewrite parse_reads, Hl.
  destruct (read_text_inside 0 (lines text) (TextContext (ResetPlan [] 0) 0 reset_success)) as (context & [parsed line] & -> & Hc); [constructor|].
  destruct (negb _); [by eexists|]. destruct (negb _); [|by eexists]. cbn [guard_query answer bind_query].
  destruct (apply_inside _ runtime Hl Hc) as [[r|memory] ->]; by eexists.
Qed.
End Text.

(** ** Records and images *)

Lemma records_reset_some reserved runtime records options :
  Z.of_nat (length runtime) = size -> Forall (fun r => value_array (source_value r)) records ->
  is_Some (reset_runtime_ic_records v bindings reserved runtime records options).
Proof.
  intros Hl Hall. unfold reset_runtime_ic_records. cbv zeta. destruct (_ && _); [|by eexists]. destruct reserved; [|by eexists].
  cbn [guard_query answer bind_query]. rewrite Hl.
  destruct (append_writes_inside records options (ResetPlan [] 0) Hall) as (o & -> & Ho); [constructor|].
  destruct o as [r|plan]; [by eexists|]. cbn [bind_query]. destruct (apply_inside _ runtime Hl (Ho plan eq_refl)) as [[r|memory] ->]; by eexists.
Qed.

Lemma resolve_place_some path : is_Some (resolve_place v bindings size path).
Proof.
  destruct (resolve_place v bindings size path) as [o|] eqn:E; [by eexists|exfalso]. revert E. unfold resolve_place.
  destruct (scalar_object_spec v Hv (path_object path)) as (o & -> & Ho). destruct o as [r|object]; [done|]. cbn [bind_query].
  specialize (Ho _ eq_refl). destruct (view_object_some v Hv object Ho) as ([entry|] & ->); [|done]. cbn [ask answer bind_query].
  destruct (binding_object_offset bindings object) as [offset|] eqn:Eo; [|done].
  destruct (offset <? size); [|done]. cbn [guard_query answer bind_query].
  destruct (scalar_members_spec v Hv bindings Hb size (path_members path)
    (Place offset (object_type entry) false (negb (non_default_initializer entry)))) as (q & -> & _); [|done].
  by eapply binding_object_unsigned.
Qed.

Section Image.
Context (image : list byte) (w : runtime_ic_binary_view) (Htexts : texts_bounded image) (Hbind : ic_bind image = Some (inr w)).

Lemma translate_some resized : is_Some (translate_binary_strings v w resized).
Proof.
  pose proof (bind_contents image w Htexts Hbind) as Hc. unfold translate_binary_strings.
  destruct (_ <? _); [|by eexists]. destruct resized; [|by eexists]. cbn [guard_query answer bind_query].
  assert (forall n local, 0 < local -> local + Z.of_nat n <= ic_string_count w + 1 -> is_Some (translate_loop v w n local)) as Hloop.
  { induction n as [|n IH]; intros local H0 Hend; [by eexists|]. cbn [translate_loop].
    destruct (local <=? u32_max); [|by eexists]. cbn [guard_query answer bind_query].
    destruct (sound_strings w Hc local) as (text & -> & _); [lia|]. destruct (negb _); [|by eexists].
    cbn [guard_query answer bind_query]. destruct (find_string_some v Hv text) as (name & ->). cbn [ask_handle].
    destruct (name =? 0); [by eexists|]. cbn [answer bind_query]. destruct (IH (local + 1)) as ([r|ids] & ->); [lia..|by eexists|by eexists]. }
  destruct (bind_checked image w Htexts Hbind) as (Hw & _). pose proof (layout_counts image w Hw).
  destruct (Hloop (Z.to_nat (ic_string_count w)) 1) as ([r|ids] & ->); [lia|lia|by eexists|by eexists].
Qed.

Lemma sources_arrays sources : decode_sources w = Some sources -> Forall (fun r => value_array (source_value r)) sources.
Proof.
  intros Hsources. pose proof (bind_contents image w Htexts Hbind) as Hc. apply Forall_forall. intros source [k Hk]%list_elem_of_lookup.
  unfold decode_sources in Hsources. apply mapM_Some_1 in Hsources.
  destruct (Forall2_lookup_r _ _ _ _ _ Hsources Hk) as (i & Hi & Hsource). apply lookup_seq in Hi as [-> Hi]. cbn [Nat.add] in Hsource.
  destruct (decode_source_spec w Hc (Z.of_nat k) source) as (r & object & members & _ & [] & _ & _ & ->); [lia|done|].
  unfold scalar_capacity in *. split; cbn; [lia|]. unfold padded. rewrite length_app, length_replicate. lia.
Qed.

(** Without room for the first state nothing is planned. *)
Lemma unkept_some ids n options plan :
  translate_binary_strings v w true = answer ids -> Z.of_nat n <= ic_record_count w ->
  exists o, plan_binary_records v bindings w ids size false options n 0 None [] plan = Some o /\ (n <> O -> exists r, o = inl r).
Proof.
  intros Hids Hn. destruct n as [|n]; [by eexists|]. pose proof (bind_contents image w Htexts Hbind) as Hc.
  destruct (bind_checked image w Htexts Hbind) as (Hw & _). cbn [plan_binary_records].
  destruct (sound_records w Hc 0) as (r & -> & Hr); [lia|]. cbn [ask answer bind_query kept_prefix]. pose proof Hr as [].
  unfold translate_binary_strings in Hids. apply bind_answer in Hids as (_ & _ & Hids). apply bind_answer in Hids as (_ & _ & Hids).
  apply bind_answer in Hids as (rest & Hrest & [= <-]).
  destruct (decode_path_some w (record_object_begin r) (Z.to_nat (record_object_count r)) Hc) as [texts Hd]; [lia|lia|].
  rewrite (object_resolved v bindings size image w Hw Hc rest Hrest _ _ texts) by (done || lia).
  destruct (resolve_place_some (PathView texts [])) as [[e|p] ->]; cbn; eexists; (split; [done|]); by eexists.
Qed.

Lemma image_reset_some resized reserved rooms runtime options :
  Z.of_nat (length runtime) = size -> is_Some (reset_runtime_ic_binary v bindings resized reserved rooms runtime w options).
Proof.
  intros Hl. destruct (translate_some true) as [o Hids].
  assert (forall ids, o = inr ids -> is_Some (reset_runtime_ic_binary v bindings true true true runtime w options)) as Hall.
  { intros ids ->. destruct (binary_reset_records v bindings image w runtime options ids Hv Hb Htexts Hbind Hids) as (sources & Hsources & _ & ->).
    apply records_reset_some; [done|by apply sources_arrays]. }
  destruct (bind_checked image w Htexts Hbind) as (Hw & _). pose proof (layout_counts image w Hw).
  unfold reset_runtime_ic_binary in *. destruct (_ && _) eqn:Hguard; [|by eexists]. cbn [guard_query answer bind_query] in *.
  destruct resized.
  2: { unfold translate_binary_strings. by destruct (_ <? _); eexists. }
  rewrite Hids in *. destruct o as [e|ids]; [by eexists|]. cbn [bind_query] in *. destruct reserved; [|by eexists]. cbn [guard_query answer bind_query] in *.
  destruct rooms; [by eapply Hall|]. rewrite Hl. unbool.
  destruct (unkept_some ids (Z.to_nat (ic_record_count w)) options (BinaryPlan [] 0) Hids) as (o & -> & Ho); [lia|].
  destruct Ho as [r ->]; [lia|]. by eexists.
Qed.
End Image.
End Bounds.

(** C38: Writing initial conditions back is safe whatever it is given: for every accepted
    image of a project and every runtime memory, a reset from records, from an accepted image
    of initial conditions or from an arbitrary text ends with a result, whichever allocations
    fail, and every read and write on the way lies inside the images and the memory. *)
Theorem resets_in_bounds `{FloatTextLaws} compiled v bindings runtime options :
  bind compiled = Some (image_success, v) -> bindings_words bindings ->
  (forall reserved records, Forall (fun r => value_array (source_value r)) records ->
     is_Some (reset_runtime_ic_records v bindings reserved runtime records options)) /\
  (forall image w resized reserved rooms, texts_bounded image -> ic_bind image = Some (inr w) ->
     is_Some (reset_runtime_ic_binary v bindings resized reserved rooms runtime w options)) /\
  (forall path_room write_room reserved text,
     is_Some (reset_runtime_ic_text v bindings path_room write_room reserved runtime text options)).
Proof.
  intros Hv%bound_view_ok Hb. split; [|split].
  - intros. by apply (records_reset_some v Hv bindings Hb (Z.of_nat (length runtime))).
  - intros. by eapply (image_reset_some v Hv bindings Hb (Z.of_nat (length runtime))).
  - intros. by apply (text_reset_some v Hv bindings Hb (Z.of_nat (length runtime))).
Qed.

Lemma resets_in_bounds_witness :
  is_Some (@reset_runtime_ic_text letter_floats sample_view sample_bindings (fun _ => true) (fun _ => true) true sample_runtime (str "::y.x = 7") 0).
Proof.
  apply (@resets_in_bounds letter_floats letter_floats_laws sample_image sample_view sample_bindings sample_runtime 0);
    [apply sample_bound|apply sample_bindings_words].
Defined.
