(* ===== verification/Preprocessor.v ===== *)
(** The object-like macro table (project/preprocessor/preprocessor.hpp and .cpp):
    an open-addressed table of bindings with removal by re-insertion, refined to a
    finite map, and the expansion loop with its cycle detection. *)

From S2P Require Import Prelude ServerStatus HashIndex StringTable.

Local Open Scope Z_scope.

Record define_slot := DefineSlot { name : Z; replacement : Z }.

Definition vacant_slot : define_slot := DefineSlot 0 0.
Definition defined_slot (s : define_slot) : bool := negb (name s =? 0).

#[export] Instance define_slot_inhabited : Inhabited define_slot := populate vacant_slot.

Record preprocessor := PreprocessorState {
  definitions : list define_slot;
  definition_count : Z
}.

Definition new_preprocessor : preprocessor := PreprocessorState [] 0.

Inductive expansion :=
| expansion_identifier (id : Z)
| expansion_empty.

Inductive transition_result :=
| transition_next (next : Z)
| transition_identifier
| transition_empty.

Definition hash_name (value : Z) : Z :=
  let value := Z.lxor value (Z.shiftr value 16) in
  let value := u32 (value * 0x7feb352d) in
  let value := Z.lxor value (Z.shiftr value 15) in
  let value := u32 (value * 0x846ca68b) in
  Z.lxor value (Z.shiftr value 16).

Definition slot_home (s : define_slot) : Z := hash_name (name s).

Section Operations.
Context {B : Type} `{BaselineStrings B}.
Context (strings : string_table B).

(** The loop of [position]: a vacant slot or the slot of [n]. *)
Definition position (p : preprocessor) (n : Z) : option nat :=
  match definitions p with
  | [] => Some 0%nat
  | _ =>
      probe vacant_slot (definitions p) (rejects defined_slot (fun s => name s =? n))
        (length (definitions p)) (home (definitions p) (hash_name n))
  end.

Definition ensure_capacity (additional : Z) (allocated : bool) (p : preprocessor)
  : option (server_status * preprocessor) :=
  if size_max - definition_count p <? additional then Some (io_error, p)
  else
    let required := definition_count p + additional in
    if negb (match definitions p with [] => true | _ => false end) &&
       (required <=? Z.of_nat (length (definitions p)) / 2)
    then Some (success, p)
    else
      match next_capacity required with
      | None => None
      | Some capacity =>
          if capacity =? 0 then Some (io_error, p)
          else if negb allocated then Some (io_error, p)
          else
            match insert_all vacant_slot defined_slot slot_home
                    (replicate (Z.to_nat capacity) vacant_slot)
                    (entries defined_slot (definitions p)) with
            | None => None
            | Some candidate =>
                Some (success, PreprocessorState candidate (definition_count p))
            end
      end.

Definition reset (p : preprocessor) : preprocessor :=
  PreprocessorState ((fun _ => vacant_slot) <$> definitions p) 0.

Definition define_impl (n r : Z) (allocated : bool) (p : preprocessor)
  : option (server_status * preprocessor) :=
  if negb (contains strings n) || (negb (r =? 0) && negb (contains strings r))
  then Some (project_configuration_invalid, p)
  else
    let insert :=
      match ensure_capacity 1 allocated p with
      | None => None
      | Some (prepared, p) =>
          if negb (succeeded prepared) then Some (prepared, p)
          else
            match position p n with
            | None => None
            | Some target =>
                Some (success,
                  PreprocessorState (<[target := DefineSlot n r]> (definitions p))
                    (definition_count p + 1))
            end
      end in
    match definitions p with
    | [] => insert
    | _ =>
        match position p n with
        | None => None
        | Some existing_position =>
            let existing := definitions p !!! existing_position in
            if defined_slot existing
            then Some (if replacement existing =? r then success
                       else project_configuration_invalid, p)
            else insert
        end
    end.

Definition define (n : Z) (allocated : bool) (p : preprocessor)
  : option (server_status * preprocessor) := define_impl n 0 allocated p.

Definition define_as (n r : Z) (allocated : bool) (p : preprocessor)
  : option (server_status * preprocessor) :=
  if r =? 0 then Some (project_configuration_invalid, p)
  else define_impl n r allocated p.

Definition undefine (n : Z) (p : preprocessor) : option (server_status * preprocessor) :=
  if negb (contains strings n) then Some (project_configuration_invalid, p)
  else
    match definitions p with
    | [] => Some (success, p)
    | _ =>
        match position p n with
        | None => None
        | Some found =>
            if negb (defined_slot (definitions p !!! found)) then Some (success, p)
            else
              match reinsert_from vacant_slot defined_slot slot_home
                      (length (definitions p)) (<[found := vacant_slot]> (definitions p))
                      (next_position (definitions p) found) with
              | None => None
              | Some ds => Some (success, PreprocessorState ds (definition_count p - 1))
              end
        end
    end.

Definition defined (n : Z) (p : preprocessor) : option bool :=
  if negb (contains strings n) || match definitions p with [] => true | _ => false end
  then Some false
  else
    match position p n with
    | None => None
    | Some found => Some (name (definitions p !!! found) =? n)
    end.

Definition transition (p : preprocessor) (n : Z) : option transition_result :=
  match definitions p with
  | [] => Some transition_identifier
  | _ =>
      match position p n with
      | None => None
      | Some found =>
          let slot := definitions p !!! found in
          Some (if negb (name slot =? n) then transition_identifier
                else if replacement slot =? 0 then transition_empty
                else transition_next (replacement slot))
      end
  end.

(** Tortoise and hare: [inl] is a finished expansion, [inr] the meeting point. *)
Fixpoint chase (fuel : nat) (p : preprocessor) (tortoise hare : Z)
  : option (expansion + Z) :=
  match fuel with
  | O => None
  | S fuel =>
      match transition p tortoise with
      | None => None
      | Some transition_identifier => Some (inl (expansion_identifier tortoise))
      | Some transition_empty => Some (inl expansion_empty)
      | Some (transition_next tortoise) =>
          match transition p hare with
          | None => None
          | Some transition_identifier => Some (inl (expansion_identifier hare))
          | Some transition_empty => Some (inl expansion_empty)
          | Some (transition_next hare) =>
              match transition p hare with
              | None => None
              | Some transition_identifier => Some (inl (expansion_identifier hare))
              | Some transition_empty => Some (inl expansion_empty)
              | Some (transition_next hare) =>
                  if tortoise =? hare then Some (inr tortoise)
                  else chase fuel p tortoise hare
              end
          end
      end
  end.

(** From the name and the meeting point to the entry of the cycle. *)
Fixpoint find_entry (fuel : nat) (p : preprocessor) (entry meeting : Z)
  : option (server_status * expansion) :=
  match fuel with
  | O => None
  | S fuel =>
      if entry =? meeting then Some (success, expansion_identifier entry)
      else
        match transition p entry, transition p meeting with
        | Some (transition_next entry), Some (transition_next meeting) =>
            find_entry fuel p entry meeting
        | Some _, Some _ => Some (project_configuration_invalid, expansion_identifier 0)
        | _, _ => None
        end
  end.

(** A chain of distinct names is no longer than the table. *)
Definition expansion_fuel (p : preprocessor) : nat := S (length (definitions p)).

Definition expand (n : Z) (p : preprocessor) : option (server_status * expansion) :=
  if negb (contains strings n)
  then Some (project_configuration_invalid, expansion_identifier 0)
  else
    match chase (expansion_fuel p) p n n with
    | None => None
    | Some (inl output) => Some (success, output)
    | Some (inr meeting) => find_entry (expansion_fuel p) p n meeting
    end.
End Operations.

(** ** Refinement to a finite map *)

Definition slot_of (b : Z * Z) : define_slot := DefineSlot b.1 b.2.

(** The table [p] holds the bindings [m]; replacement 0 is the empty one. *)
Record binds (p : preprocessor) (m : gmap Z Z) : Prop := Binds {
  binds_count : definition_count p = Z.of_nat (size m);
  binds_names : forall n r, m !! n = Some r -> n <> 0;
  binds_table :
    definitions p = [] /\ m = ∅ \/
    table_ok vacant_slot defined_slot slot_home (definitions p) /\
    (2 * size m <= length (definitions p))%nat /\ (8 <= length (definitions p))%nat /\
    entries defined_slot (definitions p) ≡ₚ slot_of <$> map_to_list m
}.

Lemma elem_of_bindings m s :
  s ∈ slot_of <$> map_to_list (m : gmap Z Z) <-> m !! name s = Some (replacement s).
Proof.
  rewrite list_elem_of_fmap. split.
  - intros ([n r] & -> & Hin). by apply elem_of_map_to_list in Hin.
  - intros Hm. exists (name s, replacement s). split; [by destruct s|].
    by apply elem_of_map_to_list.
Qed.

Lemma bindings_length (m : gmap Z Z) : length (slot_of <$> map_to_list m) = size m.
Proof. by rewrite length_fmap, length_map_to_list. Qed.

(** The slot [position] stops at: the binding of [n], or a vacant slot. *)
Lemma position_spec p m n :
  binds p m -> definitions p <> [] -> n <> 0 ->
  exists x, position p n = Some (x mod length (definitions p))%nat /\
    let slot := cell vacant_slot (definitions p) x in
    match m !! n with
    | Some r => slot = DefineSlot n r
    | None =>
        defined_slot slot = false /\
        exists j, (j < length (definitions p))%nat /\
          x = (Z.to_nat (u64 (hash_name n)) + j)%nat /\
          forall i, (i < j)%nat ->
            busy vacant_slot defined_slot (definitions p) (Z.to_nat (u64 (hash_name n)) + i)
    end.
Proof.
  intros Hb Hne Hn. destruct (binds_table _ _ Hb) as [[? _]|(Hok & Hload & Hmin & He)]; [done|].
  pose proof (sized_pos _ (proj1 Hok)) as Hpos.
  destruct (search_spec vacant_slot defined_slot slot_home (definitions p)
    (fun s => name s =? n) (Z.to_nat (u64 (hash_name n))) Hok) as (x & Hpr & Hx).
  { apply entries_room. rewrite He, bindings_length. lia. }
  { intros s _ Hs. unbool. unfold home_of, slot_home. by rewrite Hs. }
  exists x. split.
  { unfold position. rewrite home_mod by apply Hok. rewrite Hpr. by destruct (definitions p). }
  simpl. destruct Hx as [[Hbusy Hm]|(Hnb & Hnone & Hpath)].
  - unbool. assert (cell vacant_slot (definitions p) x ∈ entries defined_slot (definitions p))
      as Hin by (apply (elem_of_entries vacant_slot); eauto).
    rewrite He, elem_of_bindings, Hm in Hin. rewrite Hin.
    destruct (cell vacant_slot (definitions p) x). simpl in *. by subst.
  - destruct (m !! n) as [r|] eqn:Em.
    + exfalso. assert (DefineSlot n r ∈ entries defined_slot (definitions p)) as Hin.
      { rewrite He. by apply elem_of_bindings. }
      specialize (Hnone _ Hin). simpl in Hnone. by rewrite Z.eqb_refl in Hnone.
    + split; [by apply not_true_is_false|done].
Qed.

Lemma lookup_cell p x :
  definitions p !!! (x mod length (definitions p))%nat = cell vacant_slot (definitions p) x.
Proof. done. Qed.

Lemma binds_empty p m n : binds p m -> definitions p = [] -> m !! n = None.
Proof.
  intros Hb Hd. destruct (binds_table _ _ Hb) as [[_ ->]|(_ & _ & Hmin & _)]; [done|].
  rewrite Hd in Hmin. simpl in Hmin. lia.
Qed.

(** What one step of the expansion sees of the bindings. *)
Definition step_of (m : gmap Z Z) (n : Z) : transition_result :=
  match m !! n with
  | None => transition_identifier
  | Some r => if r =? 0 then transition_empty else transition_next r
  end.

Lemma transition_spec p m n : binds p m -> n <> 0 -> transition p n = Some (step_of m n).
Proof.
  intros Hb Hn. unfold transition, step_of.
  destruct (definitions p) as [|d ds] eqn:Ed; [by rewrite (binds_empty p m n)|].
  rewrite <- Ed. destruct (position_spec p m n Hb) as (x & -> & Hx); [by rewrite Ed|done|].
  rewrite lookup_cell. destruct (m !! n) as [r|]; simpl in Hx.
  - rewrite Hx. simpl. by rewrite Z.eqb_refl.
  - destruct Hx as [Hx _]. unfold defined_slot in Hx. unbool.
    rewrite Hx. by rewrite (proj2 (Z.eqb_neq 0 n)) by done.
Qed.

(** ** The operations as map updates *)

Section Refinement.
Context {B : Type} `{BaselineStrings B}.
Context (strings : string_table B).

Lemma contains_nonzero n : contains strings n = true -> n <> 0.
Proof. intros Hc ->. done. Qed.

Lemma ensure_capacity_spec p m allocated :
  binds p m ->
  exists st p', ensure_capacity 1 allocated p = Some (st, p') /\ binds p' m /\
    (st = io_error /\ (allocated = false \/ 2 ^ 62 <= Z.of_nat (size m)) \/
     st = success /\ definitions p' <> [] /\ (2 * S (size m) <= length (definitions p'))%nat).
Proof.
  intros Hb. unfold ensure_capacity. rewrite (binds_count _ _ Hb).
  destruct (Z.ltb_spec (size_max - Z.of_nat (size m)) 1).
  { eexists _, _. split; [done|]. split; [done|]. left. split; [done|]. right.
    unfold size_max in *. lia. }
  destruct (_ && _) eqn:Eg.
  { exists success, p. split; [done|]. split; [done|]. right. split; [done|]. unbool.
    split; [by destruct (definitions p)|].
    pose proof (Z.mul_div_le (Z.of_nat (length (definitions p))) 2). lia. }
  destruct (next_capacity_spec (Z.of_nat (size m) + 1)) as (c & -> & Hcap); [lia|].
  destruct (Z.eqb_spec c 0) as [->|Hnz].
  { eexists _, _. split; [done|]. split; [done|]. left. split; [done|]. right.
    destruct ((_ =? 0) || _) eqn:E; [unbool; lia|]. destruct Hcap as (j & Hj & Hz & _).
    pose proof (Z.pow_pos_nonneg 2 j). lia. }
  destruct allocated; simpl negb; cbn iota; [|eauto 10].
  destruct (_ || _); [done|]. destruct Hcap as (j & Hj & -> & Hle).
  destruct (vacant_table vacant_slot defined_slot slot_home eq_refl j) as [Hok He]; [lia|].
  assert (8 <= 2 ^ j) as H8 by (apply (Z.pow_le_mono_r 2 3 j); lia).
  assert (entries defined_slot (definitions p) ≡ₚ slot_of <$> map_to_list m) as Hp.
  { destruct (binds_table _ _ Hb) as [[-> ->]|(_ & _ & _ & ?)]; done. }
  destruct (insert_all_spec vacant_slot defined_slot slot_home
    (replicate (Z.to_nat (2 ^ j)) vacant_slot) (entries defined_slot (definitions p)) Hok)
    as (T' & -> & Hok' & Hl' & He').
  { apply entries_occupied. }
  { rewrite He, Hp, bindings_length, length_replicate. simpl. lia. }
  rewrite length_replicate in Hl'. rewrite He, app_nil_r, Hp in He'.
  exists success, (PreprocessorState T' (Z.of_nat (size m))). split; [done|].
  split; [split; simpl; [done|apply Hb|right; split_and!; done || lia]|].
  right. split; [done|]. simpl. split; [|lia]. intros ->. simpl in Hl'. lia.
Qed.

(** A new binding in the vacant slot [position] found. *)
Lemma insert_binds p m n r :
  binds p m -> definitions p <> [] -> n <> 0 -> m !! n = None ->
  (2 * S (size m) <= length (definitions p))%nat ->
  exists target, position p n = Some target /\
    binds (PreprocessorState (<[target := DefineSlot n r]> (definitions p))
             (definition_count p + 1)) (<[n := r]> m).
Proof.
  intros Hb Hne Hn Hm Hload. destruct (position_spec p m n Hb Hne Hn) as (x & Hpos & Hx).
  simpl in Hx. rewrite Hm in Hx. destruct Hx as (Hfree & j & Hj & -> & Hpath).
  destruct (binds_table _ _ Hb) as [[? _]|(Hok & _ & Hmin & He)]; [done|].
  pose proof (sized_pos _ (proj1 Hok)). eexists. split; [done|].
  assert (defined_slot (DefineSlot n r) = true) as Ho by by apply negb_true_iff, Z.eqb_neq.
  split; simpl.
  - rewrite map_size_insert_None, (binds_count _ _ Hb) by done. lia.
  - intros n' r' Hl. apply lookup_insert_Some in Hl as [[<- _]|[_ Hl]]; [done|]. by apply Hb in Hl.
  - right. rewrite length_insert, map_size_insert_None by done. split.
    { apply (linked_set vacant_slot defined_slot slot_home (definitions p) (DefineSlot n r));
        try done. unfold busy. by apply not_true_iff_false. }
    split; [done|]. split; [done|].
    rewrite (entries_vacant vacant_slot); [|done|by apply not_true_iff_false|done].
    rewrite He, map_to_list_insert by done. done.
Qed.

(** The only way a call fails on known names: no memory, or no larger table. *)
Definition exhausted (allocated : bool) (m : gmap Z Z) (st : server_status) : Prop :=
  st = io_error /\ (allocated = false \/ 2 ^ 62 <= Z.of_nat (size m)).

Lemma define_impl_spec p m n r allocated :
  binds p m ->
  exists st p', define_impl strings n r allocated p = Some (st, p') /\
    if negb (contains strings n) || (negb (r =? 0) && negb (contains strings r))
    then st = project_configuration_invalid /\ p' = p
    else match m !! n with
    | Some r' => st = (if r' =? r then success else project_configuration_invalid) /\ p' = p
    | None => st = success /\ binds p' (<[n := r]> m) \/ exhausted allocated m st /\ binds p' m
    end.
Proof.
  intros Hb. unfold define_impl. destruct (_ || _) eqn:Eg; [by eexists _, _|]. unbool.
  assert (n <> 0) as Hn by by apply contains_nonzero.
  assert (m !! n = None -> exists st p',
    match ensure_capacity 1 allocated p with
    | None => None
    | Some (prepared, p) =>
        if negb (succeeded prepared) then Some (prepared, p)
        else match position p n with
        | None => None
        | Some target =>
            Some (success, PreprocessorState (<[target := DefineSlot n r]> (definitions p))
                    (definition_count p + 1))
        end
    end = Some (st, p') /\
    (st = success /\ binds p' (<[n := r]> m) \/ exhausted allocated m st /\ binds p' m)) as Hins.
  { intros Hm. destruct (ensure_capacity_spec p m allocated Hb)
      as (st & p1 & -> & Hb1 & [[-> Hex]|(-> & Hne & Hload)]).
    { eexists _, _. split; [done|]. right. split; [by split|done]. }
    simpl. destruct (insert_binds p1 m n r) as (target & -> & Hb'); try done.
    eexists _, _. eauto. }
  destruct (definitions p) as [|d ds] eqn:Ed.
  - pose proof (binds_empty p m n Hb Ed) as Hm. rewrite Hm. by apply Hins.
  - rewrite <- Ed. destruct (position_spec p m n Hb) as (x & -> & Hx); [by rewrite Ed|done|].
    rewrite lookup_cell. simpl in Hx. destruct (m !! n) as [r'|].
    + rewrite Hx. unfold defined_slot. simpl. rewrite (proj2 (Z.eqb_neq n 0)) by done.
      by eexists _, _.
    + destruct Hx as [-> _]. by apply Hins.
Qed.

Lemma undefine_spec p m n :
  binds p m ->
  exists st p', undefine strings n p = Some (st, p') /\
    if contains strings n then st = success /\ binds p' (delete n m)
    else st = project_configuration_invalid /\ p' = p.
Proof.
  intros Hb. unfold undefine. destruct (contains strings n) eqn:Ec; simpl negb; cbn iota;
    [|by eexists _, _].
  assert (n <> 0) as Hn by by apply contains_nonzero.
  assert (m !! n = None -> binds p (delete n m)) as Hsame.
  { intros Hm. by rewrite delete_id. }
  destruct (definitions p) as [|d ds] eqn:Ed.
  { eexists _, _. split; [done|]. split; [done|]. by apply Hsame, (binds_empty p). }
  rewrite <- Ed. destruct (position_spec p m n Hb) as (x & -> & Hx); [by rewrite Ed|done|].
  rewrite lookup_cell. simpl in Hx. destruct (m !! n) as [r|] eqn:Em.
  2: { destruct Hx as [-> _]. eexists _, _. split; [done|]. split; [done|]. by apply Hsame. }
  assert (defined_slot (DefineSlot n r) = true) as Ho by by apply negb_true_iff, Z.eqb_neq.
  rewrite Hx, Ho. simpl negb. cbn iota.
  destruct (binds_table _ _ Hb) as [[? _]|(Hok & Hload & Hmin & He)]; [by rewrite Ed in *|].
  destruct (remove_spec vacant_slot defined_slot slot_home eq_refl (definitions p) x Hok)
    as (ds' & -> & Hok' & Hl' & He').
  { unfold busy. by rewrite Hx. }
  { apply entries_room. rewrite He, bindings_length. lia. }
  eexists _, _. split; [done|]. split; [done|].
  rewrite Hx, He in He'.
  assert (entries defined_slot ds' ≡ₚ slot_of <$> map_to_list (delete n m)) as He2.
  { apply (Permutation_cons_inv (a := DefineSlot n r)). rewrite He'.
    rewrite <- (insert_delete_id m n r Em) at 1.
    rewrite map_to_list_insert by by rewrite lookup_delete_eq. done. }
  assert (0 < size m)%nat.
  { rewrite <- bindings_length, <- He'. simpl. lia. }
  split; simpl.
  - rewrite map_size_delete_Some, (binds_count _ _ Hb) by by rewrite Em. lia.
  - intros n' r' Hl. apply lookup_delete_Some in Hl as [_ Hl]. by apply Hb in Hl.
  - right. rewrite Hl', map_size_delete_Some by by rewrite Em. split_and!; done || lia.
Qed.

Lemma defined_spec p m n :
  binds p m ->
  defined strings n p = Some (contains strings n && bool_decide (is_Some (m !! n))).
Proof.
  intros Hb. unfold defined. destruct (contains strings n) eqn:Ec; [|done]. simpl orb.
  assert (n <> 0) as Hn by by apply contains_nonzero.
  destruct (definitions p) as [|d ds] eqn:Ed.
  { rewrite (binds_empty p m n) by done. done. }
  rewrite <- Ed. destruct (position_spec p m n Hb) as (x & -> & Hx); [by rewrite Ed|done|].
  rewrite lookup_cell. simpl in Hx. f_equal. destruct (m !! n) as [r|]; simpl.
  - rewrite Hx. apply Z.eqb_refl.
  - destruct Hx as [Hx _]. unfold defined_slot in Hx. unbool. rewrite Hx.
    by rewrite (proj2 (Z.eqb_neq 0 n)) by done.
Qed.

Lemma reset_spec p m : binds p m -> binds (reset p) ∅.
Proof.
  intros Hb. split; simpl; [done|done|].
  destruct (binds_table _ _ Hb) as [[-> _]|(Hok & _ & Hmin & _)]; [by left|right].
  destruct Hok as [(k & Hk & Hl) _].
  assert ((fun _ => vacant_slot) <$> definitions p = replicate (Z.to_nat (2 ^ k)) vacant_slot)
    as ->.
  { rewrite <- Hl, Nat2Z.id. clear. induction (definitions p); simpl; [done|by f_equal]. }
  destruct (vacant_table vacant_slot defined_slot slot_home eq_refl k Hk) as [Hok He].
  split; [done|]. rewrite He, length_replicate, <- Hl, Nat2Z.id, map_size_empty.
  split; [lia|]. split; [done|]. by rewrite map_to_list_empty.
Qed.
End Refinement.

(** ** Expansion *)

Section Expansion.
Context (m : gmap Z Z).

(** The name reached after [k] nonempty replacements. *)
Fixpoint chain (k : nat) (n : Z) : option Z :=
  match k with
  | O => Some n
  | S k =>
      match step_of m n with
      | transition_next r => chain k r
      | _ => None
      end
  end.

(** The name is met again further along its own chain. *)
Definition recurs (n : Z) (t : nat) : Prop :=
  exists l, (0 < l)%nat /\ chain (t + l) n = chain t n.

(** What a name expands to: the end of its chain, or the entry of its cycle. *)
Inductive expands (n : Z) : expansion -> Prop :=
| expands_identifier k x :
    chain k n = Some x -> m !! x = None -> expands n (expansion_identifier x)
| expands_empty k x :
    chain k n = Some x -> m !! x = Some 0 -> expands n expansion_empty
| expands_cycle t x :
    (forall k, is_Some (chain k n)) -> chain t n = Some x -> recurs n t ->
    (forall t', (t' < t)%nat -> ~ recurs n t') -> expands n (expansion_identifier x).

Lemma chain_add a b n :
  chain (a + b) n = match chain a n with Some x => chain b x | None => None end.
Proof. revert n. induction a as [|a IH]; intros n; simpl; [done|]. by case_match. Qed.

Lemma chain_succ k n :
  chain (S k) n
  = match chain k n with
    | Some x => match step_of m x with transition_next r => Some r | _ => None end
    | None => None
    end.
Proof. rewrite <- Nat.add_1_r, chain_add. by destruct (chain k n). Qed.

Lemma chain_prefix a b n : (a <= b)%nat -> is_Some (chain b n) -> is_Some (chain a n).
Proof.
  intros Hab. replace b with (a + (b - a))%nat by lia. rewrite chain_add.
  destruct (chain a n); [by eexists|]. by intros [? ?].
Qed.

Lemma chain_shift a l n j :
  chain (a + l) n = chain a n -> chain (a + l + j) n = chain (a + j) n.
Proof. intros H. by rewrite (chain_add (a + l) j), (chain_add a j), H. Qed.

Lemma chain_period a l n c j :
  chain (a + l) n = chain a n -> chain (a + j + c * l) n = chain (a + j) n.
Proof.
  intros H. induction c as [|c IH]; [by rewrite Nat.add_0_r|].
  replace (a + j + S c * l)%nat with (a + l + (j + c * l))%nat by lia.
  rewrite (chain_shift a l) by done. rewrite <- IH. f_equal. lia.
Qed.

(** A chain that comes back never ends. *)
Lemma chain_forever a l n k :
  (0 < l)%nat -> chain (a + l) n = chain a n -> is_Some (chain a n) -> is_Some (chain k n).
Proof.
  intros Hl Hc Ha. induction k as [k IH] using lt_wf_ind.
  destruct (Nat.lt_ge_cases k (a + l)).
  - apply (chain_prefix k (a + l)); [lia|by rewrite Hc].
  - pose proof (chain_shift a l n (k - (a + l)) Hc) as H0.
    replace (a + l + (k - (a + l)))%nat with k in H0 by lia. rewrite H0. apply IH. lia.
Qed.

(** More steps than bindings: some name occurs twice. *)
Lemma chain_repeats n :
  is_Some (chain (S (size m)) n) ->
  exists a l, (0 < l)%nat /\ (a + l <= size m)%nat /\ chain (a + l) n = chain a n.
Proof.
  intros Hs. set (f := fun k => default 0 (chain k n)).
  assert (forall k, (k <= size m)%nat -> chain k n = Some (f k) /\ f k ∈ dom m) as Hf.
  { intros k Hk. destruct (chain_prefix (S k) (S (size m)) n ltac:(lia) Hs) as [y Hy].
    rewrite chain_succ in Hy. unfold f. destruct (chain k n) as [x|]; [|done]. split; [done|].
    simpl. apply elem_of_dom. unfold step_of in Hy. by destruct (m !! x). }
  destruct (decide (Exists (fun b => Exists (fun a => f a = f b) (seq 0 b)) (seq 0 (S (size m)))))
    as [He|Hn].
  - apply Exists_exists in He as (b & Hb & He). apply Exists_exists in He as (a & Ha & He).
    apply elem_of_seq in Hb, Ha. exists a, (b - a)%nat. split; [lia|]. split; [lia|].
    replace (a + (b - a))%nat with b by lia.
    destruct (Hf a) as [-> _]; [lia|]. destruct (Hf b) as [-> _]; [lia|]. by rewrite He.
  - exfalso. assert (NoDup (f <$> seq 0 (S (size m)))) as Hd.
    { apply NoDup_fmap_2_strong; [|apply NoDup_seq]. intros x y Hx Hy Hxy.
      apply elem_of_seq in Hx, Hy. destruct (Nat.lt_trichotomy x y) as [Hlt|[?|Hlt]]; [|done|].
      - destruct Hn. apply Exists_exists. exists y. split; [apply elem_of_seq; lia|].
        apply Exists_exists. exists x. split; [apply elem_of_seq; lia|done].
      - destruct Hn. apply Exists_exists. exists x. split; [apply elem_of_seq; lia|].
        apply Exists_exists. exists y. split; [apply elem_of_seq; lia|done]. }
    assert (list_to_set (f <$> seq 0 (S (size m))) ⊆ dom m) as Hsub.
    { intros y Hy. apply elem_of_list_to_set, list_elem_of_fmap in Hy as (k & -> & Hk).
      apply elem_of_seq in Hk. apply Hf. lia. }
    apply subseteq_size in Hsub. rewrite size_list_to_set, length_fmap, length_seq in Hsub by done.
    rewrite size_dom in Hsub. lia.
Qed.

(** Tortoise and hare meet within as many rounds as there are bindings. *)
Lemma chain_meets n :
  is_Some (chain (S (size m)) n) ->
  exists j, (1 <= j <= size m)%nat /\ chain (j + j) n = chain j n.
Proof.
  intros Hs. destruct (chain_repeats n Hs) as (a & l & Hl & Hb & Hc).
  pose proof (Nat.div_mod_eq (a + l) l) as Hd. pose proof (Nat.mod_upper_bound (a + l) l).
  set (q := ((a + l) / l)%nat) in *. exists (q * l)%nat.
  assert (a < q * l <= a + l)%nat as Hj by lia. split; [lia|].
  pose proof (chain_period a l n q (q * l - a) Hc) as Hp.
  by replace (a + (q * l - a))%nat with (q * l)%nat in Hp by lia.
Qed.

(** The first position where the chain meets its shift by the meeting distance is
    the entry of the cycle. *)
Lemma meeting_entry n j t :
  (0 < j)%nat -> chain (j + j) n = chain j n -> chain (t + j) n = chain t n ->
  (forall t', (t' < t)%nat -> chain (t' + j) n <> chain t' n) ->
  recurs n t /\ forall t', (t' < t)%nat -> ~ recurs n t'.
Proof.
  intros Hj Hm Ht Hmin. split; [by exists j|].
  intros t' Hlt (l & Hl & Hc). apply (Hmin t' Hlt).
  assert (chain (t' + j * l) n = chain t' n) as H1.
  { pose proof (chain_period t' l n j 0 Hc) as Hp. by rewrite !Nat.add_0_r in Hp. }
  assert (chain (t' + j + j * l) n = chain (t' + j) n) as H2 by by apply chain_period.
  rewrite <- H1, <- H2. assert (j <= t' + j * l)%nat by nia.
  pose proof (chain_shift j j n (t' + j * l - j) Hm) as H3.
  replace (j + (t' + j * l - j))%nat with (t' + j * l)%nat in H3 by lia.
  replace (j + j + (t' + j * l - j))%nat with (t' + j + j * l)%nat in H3 by lia.
  done.
Qed.

Lemma step_next_nonzero n r : step_of m n = transition_next r -> r <> 0.
Proof.
  unfold step_of. destruct (m !! n) as [r'|]; [|done]. destruct (Z.eqb_spec r' 0); [done|].
  by intros [= <-].
Qed.

Lemma chain_nonzero k n x : n <> 0 -> chain k n = Some x -> x <> 0.
Proof.
  revert n. induction k as [|k IH]; intros n Hn H; simpl in H; [by simplify_eq|].
  destruct (step_of m n) as [r| |] eqn:E; [|done|done]. apply step_next_nonzero in E.
  by apply (IH r).
Qed.

(** A terminal step ends the expansion. *)
Lemma chain_ends n k x :
  chain k n = Some x ->
  match step_of m x with
  | transition_identifier => expands n (expansion_identifier x)
  | transition_empty => expands n expansion_empty
  | transition_next r => chain (S k) n = Some r
  end.
Proof.
  intros H. rewrite chain_succ, H. unfold step_of. destruct (m !! x) as [r|] eqn:E.
  - destruct (Z.eqb_spec r 0) as [->|]; [by eapply expands_empty|done].
  - by eapply expands_identifier.
Qed.
End Expansion.

Section ExpansionLoops.
Context (p : preprocessor) (m : gmap Z Z) (Hbinds : binds p m) (n : Z) (Hn : n <> 0).

Lemma transition_chain k x : chain m k n = Some x -> transition p x = Some (step_of m x).
Proof. intros H. apply transition_spec; [done|]. by eapply chain_nonzero. Qed.

(** Round [i] of the loop: the tortoise is [i] and the hare [2 * i] steps along. *)
Lemma chase_spec fuel i x y :
  chain m i n = Some x -> chain m (i + i) n = Some y ->
  (forall j, (1 <= j <= i)%nat -> chain m (j + j) n <> chain m j n) ->
  (size m < i + fuel)%nat ->
  exists r, chase fuel p x y = Some r /\
    match r with
    | inl out => expands m n out
    | inr z => exists j, (1 <= j <= S (size m))%nat /\ chain m j n = Some z /\
        chain m (j + j) n = chain m j n
    end.
Proof.
  revert i x y. induction fuel as [|fuel IH]; intros i x y Hx Hy Hnot Hf.
  { exfalso. destruct (chain_meets m n) as (j & Hj & Hm).
    - apply (chain_prefix m (S (size m)) (i + i)); [lia|by rewrite Hy].
    - apply (Hnot j); [lia|done]. }
  cbn [chase]. rewrite (transition_chain i x Hx).
  pose proof (chain_ends m n i x Hx) as Hstep.
  destruct (step_of m x) as [x'| |]; [|by eexists|by eexists].
  rewrite (transition_chain (i + i) y Hy).
  pose proof (chain_ends m n (i + i) y Hy) as Hstep2.
  destruct (step_of m y) as [y'| |]; [|by eexists|by eexists].
  rewrite (transition_chain (S (i + i)) y' Hstep2).
  pose proof (chain_ends m n (S (i + i)) y' Hstep2) as Hstep3.
  destruct (step_of m y') as [y''| |]; [|by eexists|by eexists].
  replace (S (S (i + i))) with (S i + S i)%nat in Hstep3 by lia.
  destruct (Z.eqb_spec x' y'') as [<-|Hne].
  - eexists. split; [done|]. exists (S i). split; [|by rewrite Hstep3].
    destruct (decide (i <= size m)%nat); [lia|]. exfalso.
    destruct (chain_meets m n) as (j & Hj & Hm).
    + apply (chain_prefix m (S (size m)) (i + i)); [lia|by rewrite Hy].
    + apply (Hnot j); [lia|done].
  - apply (IH (S i)); [done|done| |lia]. intros j Hj.
    destruct (decide (j = S i)) as [->|]; [|apply Hnot; lia]. congruence.
Qed.

Lemma find_entry_spec fuel t j x y :
  (0 < j)%nat -> chain m (j + j) n = chain m j n -> is_Some (chain m j n) ->
  chain m t n = Some x -> chain m (t + j) n = Some y ->
  (forall t', (t' < t)%nat -> chain m (t' + j) n <> chain m t' n) ->
  (j < t + fuel)%nat ->
  exists z, find_entry fuel p x y = Some (success, expansion_identifier z) /\
    expands m n (expansion_identifier z).
Proof.
  intros Hj Hm Hs. revert t x y. induction fuel as [|fuel IH]; intros t x y Hx Hy Hnot Hf.
  { exfalso. apply (Hnot j); [lia|done]. }
  assert (forall k, is_Some (chain m k n)) as Hall.
  { intros k. by apply (chain_forever m j j). }
  cbn [find_entry]. destruct (Z.eqb_spec x y) as [<-|Hne].
  - exists x. split; [done|].
    destruct (meeting_entry m n j t) as [Hr Hmin]; [done|done|congruence|done|].
    by apply (expands_cycle m n t x).
  - destruct (Hall (S t)) as [x' Hx'], (Hall (S (t + j))) as [y' Hy'].
    rewrite (transition_chain t x Hx), (transition_chain (t + j) y Hy).
    pose proof Hx' as Hx2. pose proof Hy' as Hy2.
    rewrite chain_succ, Hx in Hx2. rewrite chain_succ, Hy in Hy2.
    destruct (step_of m x); [|done|done]. destruct (step_of m y); [|done|done]. simplify_eq.
    apply (IH (S t)); [done|done| |lia]. intros t' Ht'.
    destruct (decide (t' = t)) as [->|]; [congruence|apply Hnot; lia].
Qed.

Lemma fuel_enough : (S (size m) < expansion_fuel p)%nat \/ m = ∅.
Proof.
  unfold expansion_fuel. destruct (binds_table _ _ Hbinds) as [[_ ?]|(_ & ? & ? & _)]; [by right|].
  left. lia.
Qed.

Lemma expansion_spec :
  exists out, expands m n out /\
    match chase (expansion_fuel p) p n n with
    | None => None
    | Some (inl output) => Some (success, output)
    | Some (inr meeting) => find_entry (expansion_fuel p) p n meeting
    end = Some (success, out).
Proof.
  destruct (chase_spec (expansion_fuel p) 0 n n) as (r & -> & Hr); [done|done|lia| |].
  { destruct fuel_enough as [?| ->]; [lia|]. rewrite map_size_empty. unfold expansion_fuel. lia. }
  destruct r as [out|z]; [by exists out|]. destruct Hr as (j & Hj & Hz & Hm).
  destruct fuel_enough as [Hf| ->].
  - destruct (find_entry_spec (expansion_fuel p) 0 j n z) as (w & Hw & He); rewrite ?Hz.
    all: try done; try lia; try congruence.
    by exists (expansion_identifier w).
  - exfalso. assert (is_Some (chain ∅ 1 n)) as [? Hc].
    { apply (chain_prefix ∅ 1 j); [lia|by rewrite Hz]. }
    simpl in Hc. unfold step_of in Hc. by rewrite lookup_empty in Hc.
Qed.
End ExpansionLoops.

(** A name has one expansion. *)
Lemma expands_functional m n out out' : expands m n out -> expands m n out' -> out = out'.
Proof.
  assert (forall k x, chain m k n = Some x -> m !! x = None \/ m !! x = Some 0 ->
    forall k', is_Some (chain m k' n) -> (k' <= k)%nat) as Hend.
  { intros k x Hk Hx k' Hk'. destruct (Nat.le_gt_cases k' k) as [|Hlt]; [done|].
    destruct (chain_prefix m (S k) k' n Hlt Hk') as [y Hy]. rewrite chain_succ, Hk in Hy.
    unfold step_of in Hy. destruct Hx as [Hx|Hx]; by rewrite Hx in Hy. }
  assert (forall k x, chain m k n = Some x -> m !! x = None \/ m !! x = Some 0 ->
    ~ forall k', is_Some (chain m k' n)) as Hinf.
  { intros k x Hk Hx Hall. pose proof (Hend k x Hk Hx (S k) (Hall _)). lia. }
  assert (forall k x k' x', chain m k n = Some x -> m !! x = None \/ m !! x = Some 0 ->
    chain m k' n = Some x' -> m !! x' = None \/ m !! x' = Some 0 -> x = x') as Hsame.
  { intros k x k' x' Hk Hx Hk' Hx'.
    assert (k = k') as ->; [|congruence]. apply Nat.le_antisymm.
    - eapply (Hend k' x'); eauto.
    - eapply (Hend k x); eauto. }
  intros H1 H2.
  destruct H1 as [k x Hk Hx|k x Hk Hx|t x Hall Hx Hr Hmin];
    destruct H2 as [k' x' Hk' Hx'|k' x' Hk' Hx'|t' x' Hall' Hx' Hr' Hmin'].
  - f_equal. eapply (Hsame k x k' x'); auto.
  - assert (x = x') as -> by (eapply (Hsame k x k' x'); auto). congruence.
  - exfalso. eapply (Hinf k x); auto.
  - assert (x = x') as -> by (eapply (Hsame k x k' x'); auto). congruence.
  - done.
  - exfalso. eapply (Hinf k x); auto.
  - exfalso. eapply (Hinf k' x'); auto.
  - exfalso. eapply (Hinf k' x'); auto.
  - destruct (Nat.lt_trichotomy t t') as [Hlt|[->|Hlt]]; [by destruct (Hmin' t Hlt)| |].
    + congruence.
    + by destruct (Hmin t' Hlt).
Qed.

(** ** The contract of the preprocessor *)

Inductive macro_call :=
| call_reset
| call_define (n : Z)
| call_define_as (n r : Z)
| call_undefine (n : Z).

Definition apply_call {B} `{BaselineStrings B} (strings : string_table B) (c : macro_call)
    (allocated : bool) (p : preprocessor) : option (server_status * preprocessor) :=
  match c with
  | call_reset => Some (success, reset p)
  | call_define n => define strings n allocated p
  | call_define_as n r => define_as strings n r allocated p
  | call_undefine n => undefine strings n p
  end.

(** The same call on the map of bindings, where replacement 0 is the empty one. *)
Definition spec_define (n r : Z) (m : gmap Z Z) : server_status * gmap Z Z :=
  match m !! n with
  | Some r' => (if r' =? r then success else project_configuration_invalid, m)
  | None => (success, <[n := r]> m)
  end.

Definition spec_call (known : Z -> bool) (c : macro_call) (m : gmap Z Z)
  : server_status * gmap Z Z :=
  match c with
  | call_reset => (success, ∅)
  | call_define n =>
      if known n then spec_define n 0 m else (project_configuration_invalid, m)
  | call_define_as n r =>
      if negb (r =? 0) && known n && known r then spec_define n r m
      else (project_configuration_invalid, m)
  | call_undefine n =>
      if known n then (success, delete n m) else (project_configuration_invalid, m)
  end.

Lemma binds_new : binds new_preprocessor ∅.
Proof. split; [done|done|by left]. Qed.

(** C4: The macro table implements a finite map. From a table that holds the
    bindings [m], every call returns; it answers and leaves the bindings as the
    same call on the map does, whatever probing, growth and re-insertion it
    took; only when memory or the address space is exhausted does it report an
    I/O error, keeping [m]; and [defined] answers
    membership of the new bindings. *)
Theorem preprocessor_refines_map {B} `{BaselineStrings B} (strings : string_table B)
    (c : macro_call) (allocated : bool) (p : preprocessor) (m : gmap Z Z) :
  binds p m ->
  exists st p' m', apply_call strings c allocated p = Some (st, p') /\ binds p' m' /\
    ((st, m') = spec_call (contains strings) c m \/ exhausted allocated m st /\ m' = m) /\
    forall n, defined strings n p' = Some (contains strings n && bool_decide (is_Some (m' !! n))).
Proof.
  intros Hb.
  assert (forall st p' m', binds p' m' ->
    (st, m') = spec_call (contains strings) c m \/ exhausted allocated m st /\ m' = m ->
    apply_call strings c allocated p = Some (st, p') ->
    exists st p' m', apply_call strings c allocated p = Some (st, p') /\ binds p' m' /\
      ((st, m') = spec_call (contains strings) c m \/ exhausted allocated m st /\ m' = m) /\
      forall n, defined strings n p'
        = Some (contains strings n && bool_decide (is_Some (m' !! n)))) as Hdone.
  { intros st p' m' Hb' Hs Ha. exists st, p', m'. split_and!; try done.
    intros n. by apply defined_spec. }
  assert (forall n r st p', define_impl strings n r allocated p = Some (st, p') ->
    contains strings n = true -> (r =? 0) || contains strings r = true ->
    exists m', binds p' m' /\ ((st, m') = spec_define n r m \/
      exhausted allocated m st /\ m' = m)) as Hdef.
  { intros n r st p' Hd Hn Hr. destruct (define_impl_spec strings p m n r allocated Hb)
      as (st1 & p1 & Hd1 & Hcase). rewrite Hd in Hd1. simplify_eq.
    rewrite Hn in Hcase. simpl orb in Hcase. rewrite <- negb_orb, Hr in Hcase. simpl in Hcase.
    unfold spec_define. destruct (m !! n) as [r'|].
    - destruct Hcase as [-> ->]. exists m. auto.
    - destruct Hcase as [[-> ?]|[? ?]]; eauto 10. }
  destruct c as [|n|n r|n]; simpl in *.
  - eapply Hdone; [by eapply reset_spec|by left|done].
  - destruct (define_impl_spec strings p m n 0 allocated Hb) as (st & p' & Hd & Hcase).
    destruct (contains strings n) eqn:En.
    + destruct (Hdef n 0 st p' Hd En eq_refl) as (m' & Hb' & Hs). by eapply Hdone.
    + simpl in Hcase. destruct Hcase as [-> ->]. eapply Hdone; [done|by left|done].
  - unfold define_as in *. destruct (r =? 0) eqn:Er; simpl negb in *; cbn iota in *.
    { eapply Hdone; [done|by left|done]. }
    destruct (define_impl_spec strings p m n r allocated Hb) as (st & p' & Hd & Hcase).
    destruct (contains strings n) eqn:En, (contains strings r) eqn:Er'; rewrite ?Er in Hcase;
      simpl in *.
    + destruct (Hdef n r st p' Hd En) as (m' & Hb' & Hs); [by rewrite Er'; btauto|].
      by eapply Hdone.
    + destruct Hcase as [-> ->]. eapply Hdone; [done|by left|done].
    + destruct Hcase as [-> ->]. eapply Hdone; [done|by left|done].
    + destruct Hcase as [-> ->]. eapply Hdone; [done|by left|done].
  - destruct (undefine_spec strings p m n Hb) as (st & p' & Hu & Hcase).
    destruct (contains strings n).
    + destruct Hcase as [-> ?]. eapply Hdone; [done|by left|done].
    + destruct Hcase as [-> ->]. eapply Hdone; [done|by left|done].
Qed.

Lemma preprocessor_refines_map_witness :
  exists st p' m', apply_call example_table (call_define 1) true new_preprocessor = Some (st, p')
    /\ binds p' m' /\
    ((st, m') = spec_call (contains example_table) (call_define 1) ∅ \/ exhausted true ∅ st /\ m' = ∅) /\
    forall n, defined example_table n p'
      = Some (contains example_table n && bool_decide (is_Some (m' !! n))).
Proof. apply preprocessor_refines_map. apply binds_new. Defined.

(** Expansion of a known name always ends successfully, with its one expansion:
    the last name of its replacement chain, nothing when the chain ends in an empty
    replacement, and the entry of the cycle when the replacements loop. *)
Theorem expand_follows_chain {B} `{BaselineStrings B} (strings : string_table B)
    (n : Z) (p : preprocessor) (m : gmap Z Z) :
  binds p m -> contains strings n = true ->
  exists out, expand strings n p = Some (success, out) /\
    forall out', expands m n out' <-> out' = out.
Proof.
  intros Hb Hn. unfold expand. rewrite Hn. simpl negb. cbn iota.
  destruct (expansion_spec p m Hb n) as (out & He & Hrun); [by eapply contains_nonzero|].
  exists out. split; [exact Hrun|]. intros out'. split; [|by intros ->].
  intros H'. by eapply expands_functional.
Qed.

Lemma expand_follows_chain_witness :
  exists out, expand example_table 1 new_preprocessor = Some (success, out) /\
    forall out', expands ∅ 1 out' <-> out' = out.
Proof. apply expand_follows_chain; [apply binds_new|vm_compute; done]. Defined.
