(* ===== verification/LexicalToken.v ===== *)
(** The four-byte lexical token (project/frontend/lexical_token.hpp): the token
    kinds in the order of the enumeration, which is their code, and the packing of
    kind, source-start delta and source length into one 32-bit word. *)

From S2P Require Import Prelude.

Local Open Scope Z_scope.

(** The constructors of [enum class token_kind], those without a [pp_] or [kw_]
    prefix prefixed by [tk_]. *)
Inductive token_kind :=
  | tk_invalid | tk_identifier | pp_number | tk_character_literal | tk_string_literal
  | tk_raw_string_literal | tk_header_name_quoted | tk_header_name_angled | pp_include
  | pp_define | pp_undef | pp_if | pp_ifdef | pp_ifndef | pp_elif | pp_else | pp_endif
  | pp_line | pp_error | pp_pragma | pp_unknown | pp_defined | pp_end | kw_alignas
  | kw_alignof | kw_asm | kw_auto | kw_bool | kw_break | kw_case | kw_catch | kw_char
  | kw_char8_t | kw_char16_t | kw_char32_t | kw_class | kw_concept | kw_const
  | kw_consteval | kw_constexpr | kw_constinit | kw_const_cast | kw_continue
  | kw_co_await | kw_co_return | kw_co_yield | kw_decltype | kw_default | kw_delete
  | kw_do | kw_double | kw_dynamic_cast | kw_else | kw_enum | kw_explicit | kw_export
  | kw_extern | kw_false | kw_float | kw_for | kw_friend | kw_goto | kw_if | kw_inline
  | kw_int | kw_long | kw_mutable | kw_namespace | kw_new | kw_noexcept | kw_nullptr
  | kw_operator | kw_private | kw_protected | kw_public | kw_register
  | kw_reinterpret_cast | kw_requires | kw_return | kw_short | kw_signed | kw_sizeof
  | kw_static | kw_static_assert | kw_static_cast | kw_struct | kw_switch
  | kw_template | kw_this | kw_thread_local | kw_throw | kw_true | kw_try | kw_typedef
  | kw_typeid | kw_typename | kw_union | kw_unsigned | kw_using | kw_virtual | kw_void
  | kw_volatile | kw_wchar_t | kw_while | tk_l_brace | tk_r_brace | tk_l_bracket
  | tk_r_bracket | tk_l_paren | tk_r_paren | tk_semicolon | tk_colon | tk_scope
  | tk_comma | tk_dot | tk_ellipsis | tk_question | tk_hash | tk_hash_hash | tk_plus
  | tk_minus | tk_star | tk_slash | tk_percent | tk_caret | tk_ampersand | tk_pipe
  | tk_tilde | tk_exclamation | tk_assign | tk_less | tk_greater | tk_plus_plus
  | tk_minus_minus | tk_arrow | tk_arrow_star | tk_dot_star | tk_plus_assign
  | tk_minus_assign | tk_star_assign | tk_slash_assign | tk_percent_assign
  | tk_caret_assign | tk_ampersand_assign | tk_pipe_assign | tk_equal | tk_not_equal
  | tk_less_equal | tk_greater_equal | tk_logical_and | tk_logical_or | tk_shift_left
  | tk_shift_right | tk_shift_left_assign | tk_shift_right_assign | tk_spaceship.

(** The kinds by code. *)
Definition token_kinds : list token_kind :=
  [tk_invalid; tk_identifier; pp_number; tk_character_literal; tk_string_literal
    ; tk_raw_string_literal; tk_header_name_quoted; tk_header_name_angled; pp_include
    ; pp_define; pp_undef; pp_if; pp_ifdef; pp_ifndef; pp_elif; pp_else; pp_endif
    ; pp_line; pp_error; pp_pragma; pp_unknown; pp_defined; pp_end; kw_alignas
    ; kw_alignof; kw_asm; kw_auto; kw_bool; kw_break; kw_case; kw_catch; kw_char
    ; kw_char8_t; kw_char16_t; kw_char32_t; kw_class; kw_concept; kw_const
    ; kw_consteval; kw_constexpr; kw_constinit; kw_const_cast; kw_continue
    ; kw_co_await; kw_co_return; kw_co_yield; kw_decltype; kw_default; kw_delete
    ; kw_do; kw_double; kw_dynamic_cast; kw_else; kw_enum; kw_explicit; kw_export
    ; kw_extern; kw_false; kw_float; kw_for; kw_friend; kw_goto; kw_if; kw_inline
    ; kw_int; kw_long; kw_mutable; kw_namespace; kw_new; kw_noexcept; kw_nullptr
    ; kw_operator; kw_private; kw_protected; kw_public; kw_register
    ; kw_reinterpret_cast; kw_requires; kw_return; kw_short; kw_signed; kw_sizeof
    ; kw_static; kw_static_assert; kw_static_cast; kw_struct; kw_switch; kw_template
    ; kw_this; kw_thread_local; kw_throw; kw_true; kw_try; kw_typedef; kw_typeid
    ; kw_typename; kw_union; kw_unsigned; kw_using; kw_virtual; kw_void; kw_volatile
    ; kw_wchar_t; kw_while; tk_l_brace; tk_r_brace; tk_l_bracket; tk_r_bracket
    ; tk_l_paren; tk_r_paren; tk_semicolon; tk_colon; tk_scope; tk_comma; tk_dot
    ; tk_ellipsis; tk_question; tk_hash; tk_hash_hash; tk_plus; tk_minus; tk_star
    ; tk_slash; tk_percent; tk_caret; tk_ampersand; tk_pipe; tk_tilde; tk_exclamation
    ; tk_assign; tk_less; tk_greater; tk_plus_plus; tk_minus_minus; tk_arrow
    ; tk_arrow_star; tk_dot_star; tk_plus_assign; tk_minus_assign; tk_star_assign
    ; tk_slash_assign; tk_percent_assign; tk_caret_assign; tk_ampersand_assign
    ; tk_pipe_assign; tk_equal; tk_not_equal; tk_less_equal; tk_greater_equal
    ; tk_logical_and; tk_logical_or; tk_shift_left; tk_shift_right
    ; tk_shift_left_assign; tk_shift_right_assign; tk_spaceship].

Definition kind_code (k : token_kind) : Z :=
  match k with
  | tk_invalid => 0
  | tk_identifier => 1
  | pp_number => 2
  | tk_character_literal => 3
  | tk_string_literal => 4
  | tk_raw_string_literal => 5
  | tk_header_name_quoted => 6
  | tk_header_name_angled => 7
  | pp_include => 8
  | pp_define => 9
  | pp_undef => 10
  | pp_if => 11
  | pp_ifdef => 12
  | pp_ifndef => 13
  | pp_elif => 14
  | pp_else => 15
  | pp_endif => 16
  | pp_line => 17
  | pp_error => 18
  | pp_pragma => 19
  | pp_unknown => 20
  | pp_defined => 21
  | pp_end => 22
  | kw_alignas => 23
  | kw_alignof => 24
  | kw_asm => 25
  | kw_auto => 26
  | kw_bool => 27
  | kw_break => 28
  | kw_case => 29
  | kw_catch => 30
  | kw_char => 31
  | kw_char8_t => 32
  | kw_char16_t => 33
  | kw_char32_t => 34
  | kw_class => 35
  | kw_concept => 36
  | kw_const => 37
  | kw_consteval => 38
  | kw_constexpr => 39
  | kw_constinit => 40
  | kw_const_cast => 41
  | kw_continue => 42
  | kw_co_await => 43
  | kw_co_return => 44
  | kw_co_yield => 45
  | kw_decltype => 46
  | kw_default => 47
  | kw_delete => 48
  | kw_do => 49
  | kw_double => 50
  | kw_dynamic_cast => 51
  | kw_else => 52
  | kw_enum => 53
  | kw_explicit => 54
  | kw_export => 55
  | kw_extern => 56
  | kw_false => 57
  | kw_float => 58
  | kw_for => 59
  | kw_friend => 60
  | kw_goto => 61
  | kw_if => 62
  | kw_inline => 63
  | kw_int => 64
  | kw_long => 65
  | kw_mutable => 66
  | kw_namespace => 67
  | kw_new => 68
  | kw_noexcept => 69
  | kw_nullptr => 70
  | kw_operator => 71
  | kw_private => 72
  | kw_protected => 73
  | kw_public => 74
  | kw_register => 75
  | kw_reinterpret_cast => 76
  | kw_requires => 77
  | kw_return => 78
  | kw_short => 79
  | kw_signed => 80
  | kw_sizeof => 81
  | kw_static => 82
  | kw_static_assert => 83
  | kw_static_cast => 84
  | kw_struct => 85
  | kw_switch => 86
  | kw_template => 87
  | kw_this => 88
  | kw_thread_local => 89
  | kw_throw => 90
  | kw_true => 91
  | kw_try => 92
  | kw_typedef => 93
  | kw_typeid => 94
  | kw_typename => 95
  | kw_union => 96
  | kw_unsigned => 97
  | kw_using => 98
  | kw_virtual => 99
  | kw_void => 100
  | kw_volatile => 101
  | kw_wchar_t => 102
  | kw_while => 103
  | tk_l_brace => 104
  | tk_r_brace => 105
  | tk_l_bracket => 106
  | tk_r_bracket => 107
  | tk_l_paren => 108
  | tk_r_paren => 109
  | tk_semicolon => 110
  | tk_colon => 111
  | tk_scope => 112
  | tk_comma => 113
  | tk_dot => 114
  | tk_ellipsis => 115
  | tk_question => 116
  | tk_hash => 117
  | tk_hash_hash => 118
  | tk_plus => 119
  | tk_minus => 120
  | tk_star => 121
  | tk_slash => 122
  | tk_percent => 123
  | tk_caret => 124
  | tk_ampersand => 125
  | tk_pipe => 126
  | tk_tilde => 127
  | tk_exclamation => 128
  | tk_assign => 129
  | tk_less => 130
  | tk_greater => 131
  | tk_plus_plus => 132
  | tk_minus_minus => 133
  | tk_arrow => 134
  | tk_arrow_star => 135
  | tk_dot_star => 136
  | tk_plus_assign => 137
  | tk_minus_assign => 138
  | tk_star_assign => 139
  | tk_slash_assign => 140
  | tk_percent_assign => 141
  | tk_caret_assign => 142
  | tk_ampersand_assign => 143
  | tk_pipe_assign => 144
  | tk_equal => 145
  | tk_not_equal => 146
  | tk_less_equal => 147
  | tk_greater_equal => 148
  | tk_logical_and => 149
  | tk_logical_or => 150
  | tk_shift_left => 151
  | tk_shift_right => 152
  | tk_shift_left_assign => 153
  | tk_shift_right_assign => 154
  | tk_spaceship => 155
  end.

(** The kind with a given code; codes past the last kind name none. *)
Definition kind_of_code (code : Z) : token_kind :=
  match token_kinds !! Z.to_nat code with Some k => k | None => tk_invalid end.

Lemma kind_of_kind_code k : kind_of_code (kind_code k) = k.
Proof. by destruct k. Qed.

Lemma kind_code_range k : 0 <= kind_code k <= kind_code tk_spaceship.
Proof. by destruct k. Qed.

#[export] Instance token_kind_eq_dec : EqDecision token_kind.
Proof.
  refine (fun a b => cast_if (decide (kind_code a = kind_code b))).
  - abstract (rewrite <- (kind_of_kind_code a), <- (kind_of_kind_code b); congruence).
  - abstract congruence.
Defined.

Lemma kind_code_inj a b : kind_code a = kind_code b -> a = b.
Proof. intros H. rewrite <- (kind_of_kind_code a), <- (kind_of_kind_code b). by rewrite H. Qed.

(** ** The packed word *)

Definition delta_max : Z := 0x0000ffff.
Definition extended_delta : Z := delta_max.
Definition inline_delta_max : Z := delta_max - 1.
Definition length_max : Z := 0x000000ff.
Definition extended_length : Z := length_max.
Definition inline_length_max : Z := length_max - 1.
Definition kind_shift : Z := 24.
Definition delta_shift : Z := 8.
Definition delta_mask : Z := 0x0000ffff.
Definition length_mask : Z := 0x000000ff.

(** A word; 0 is the invalid token. *)
Definition make_token (kind : token_kind) (delta len : Z) : Z :=
  if (kind_code tk_invalid <? kind_code kind) && (kind_code kind <=? kind_code tk_spaceship) &&
     (delta <=? delta_max) && (len <=? length_max)
  then Z.lor (Z.lor (Z.shiftl (kind_code kind) kind_shift) (Z.shiftl delta delta_shift)) len
  else 0.

Definition token_code (word : Z) : Z := Z.shiftr word kind_shift.
Definition token_kind_of (word : Z) : token_kind := kind_of_code (token_code word).
Definition token_delta (word : Z) : Z := Z.land (Z.shiftr word delta_shift) delta_mask.
Definition token_length (word : Z) : Z := Z.land word length_mask.

Definition token_valid (word : Z) : bool :=
  (kind_code tk_invalid <? token_code word) && (token_code word <=? kind_code tk_spaceship).

Definition token_from_value (value : Z) : Z := if token_valid value then value else 0.

(** The fields of a packed word are the fields it was made of. *)
Lemma make_token_fields kind delta len :
  kind <> tk_invalid -> 0 <= delta <= delta_max -> 0 <= len <= length_max ->
  let word := make_token kind delta len in
  0 < word < 2 ^ 32 /\ token_valid word = true /\ token_kind_of word = kind /\
  token_delta word = delta /\ token_length word = len.
Proof.
  intros Hk Hd Hl word. pose proof (kind_code_range kind) as Hr.
  assert (kind_code kind <> 0) as Hk0.
  { intros E. apply Hk. by apply (kind_code_inj kind tk_invalid). }
  change (kind_code tk_spaceship) with 155 in Hr.
  unfold delta_max, length_max in *.
  assert (word = kind_code kind * 2 ^ 24 + delta * 2 ^ 8 + len) as Hw.
  { subst word. unfold make_token.
    change (kind_code tk_invalid) with 0. change (kind_code tk_spaceship) with 155.
    rewrite (proj2 (Z.ltb_lt _ _)), (proj2 (Z.leb_le _ 155)), (proj2 (Z.leb_le delta _)),
      (proj2 (Z.leb_le len _)) by (unfold delta_max, length_max; lia).
    simpl andb. cbn iota. unfold kind_shift, delta_shift.
    rewrite !Z.shiftl_mul_pow2 by lia.
    rewrite (lor_disjoint (kind_code kind) (delta * 2 ^ 8) 24) by lia.
    replace (kind_code kind * 2 ^ 24 + delta * 2 ^ 8)
      with ((kind_code kind * 2 ^ 16 + delta) * 2 ^ 8) by lia.
    rewrite lor_disjoint by lia. lia. }
  assert (token_code word = kind_code kind) as Hc.
  { unfold token_code, kind_shift. rewrite Z.shiftr_div_pow2 by lia. rewrite Hw. divlia. }
  split; [lia|]. split; [|split; [|split]].
  - unfold token_valid. rewrite Hc. change (kind_code tk_invalid) with 0.
    change (kind_code tk_spaceship) with 155. apply andb_true_iff. lia.
  - unfold token_kind_of. rewrite Hc. apply kind_of_kind_code.
  - unfold token_delta, delta_shift, delta_mask. rewrite Z.shiftr_div_pow2 by lia.
    rewrite (land_mask _ 16) by lia. rewrite Hw. divlia.
  - unfold token_length, length_mask. rewrite (land_mask _ 8) by lia. rewrite Hw. divlia.
Qed.
