(* ===== verification/LexicalStream.v ===== *)
(** The per-file lexical stream (project/frontend/lexical_stream.hpp and .cpp):
    growth of the two arrays, [reset] and [append] with every limit, and the
    theorem that the words are the encoding of exactly the appended tokens and the
    anchors those of its directives. *)

From S2P Require Import Prelude ServerStatus LexicalToken.

Local Open Scope Z_scope.

Record lexical_directive_anchor := Anchor {
  word_offset : Z;
  source_base : Z
}.

(** [words] and [directives] are the used parts of the two arrays. *)
Record lexical_stream := LexicalStreamState {
  source_file : Z;
  words : list Z;
  value_capacity : Z;
  directives : list lexical_directive_anchor;
  directive_capacity : Z;
  source_size : Z;
  last_source_offset : Z;
  tokens : Z
}.

Definition new_lexical_stream : lexical_stream := LexicalStreamState 0 [] 0 [] 0 0 0 0.

Definition directive_start (kind : token_kind) : bool :=
  match kind with
  | pp_include | pp_define | pp_undef | pp_if | pp_ifdef | pp_ifndef | pp_elif | pp_else
  | pp_endif | pp_line | pp_error | pp_pragma | pp_unknown => true
  | _ => false
  end.

Definition value_count (s : lexical_stream) : Z := Z.of_nat (length (words s)).
Definition directive_count (s : lexical_stream) : Z := Z.of_nat (length (directives s)).

(** The doubling loop of the two [reserve_] functions. *)
Fixpoint grow (fuel : nat) (capacity required : Z) : option Z :=
  match fuel with
  | O => None
  | S fuel =>
      if capacity <? required
      then if size_max / 2 <? capacity then Some required
           else grow fuel (capacity * 2) required
      else Some capacity
  end.

(** A nonzero capacity doubles at most 64 times. *)
Definition grow_fuel : nat := 65.

Definition set_words (ws : list Z) (capacity : Z) (s : lexical_stream) : lexical_stream :=
  LexicalStreamState (source_file s) ws capacity (directives s) (directive_capacity s)
    (source_size s) (last_source_offset s) (tokens s).

Definition set_directives (ds : list lexical_directive_anchor) (capacity : Z)
    (s : lexical_stream) : lexical_stream :=
  LexicalStreamState (source_file s) (words s) (value_capacity s) ds capacity
    (source_size s) (last_source_offset s) (tokens s).

Definition reserve_words (required : Z) (allocated : bool) (s : lexical_stream)
  : option (server_status * lexical_stream) :=
  if required <=? value_capacity s then Some (success, s)
  else
    let capacity := if value_capacity s =? 0 then 16 else value_capacity s in
    match grow grow_fuel capacity required with
    | None => None
    | Some capacity =>
        if negb allocated then Some (io_error, s)
        else Some (success, set_words (words s) capacity s)
    end.

Definition reserve_directives (required : Z) (allocated : bool) (s : lexical_stream)
  : option (server_status * lexical_stream) :=
  if required <=? directive_capacity s then Some (success, s)
  else
    let capacity := if directive_capacity s =? 0 then 8 else directive_capacity s in
    match grow grow_fuel capacity required with
    | None => None
    | Some capacity =>
        if negb allocated then Some (io_error, s)
        else Some (success, set_directives (directives s) capacity s)
    end.

Definition reset (file size : Z) (allocated : bool) (s : lexical_stream)
  : option (server_status * lexical_stream) :=
  if (file =? 0) || (u32_max <? size) then Some (project_configuration_invalid, s)
  else
    match reserve_words (size / 4 + 16) allocated s with
    | None => None
    | Some (reserved, s) =>
        if negb (succeeded reserved)
        then Some (reserved,
          LexicalStreamState 0 [] (value_capacity s) [] (directive_capacity s) 0 0 0)
        else Some (success,
          LexicalStreamState file [] (value_capacity s) [] (directive_capacity s) size 0 0)
    end.

(** The words of one token. *)
Definition token_words (kind : token_kind) (delta len : Z) : list Z :=
  let is_extended_delta := inline_delta_max <? delta in
  let is_extended_length := inline_length_max <? len in
  [make_token kind (if is_extended_delta then extended_delta else delta)
     (if is_extended_length then extended_length else len)] ++
  (if is_extended_delta then [delta] else []) ++
  (if is_extended_length then [len] else []).

(** [append]; the two booleans are the outcomes of the two allocations. *)
Definition append (kind : token_kind) (offset len : Z)
    (directives_allocated words_allocated : bool) (s : lexical_stream)
  : option (server_status * lexical_stream) :=
  if (source_file s =? 0) || bool_decide (kind = tk_invalid) || (source_size s <? offset) ||
     (source_size s - offset <? len) ||
     (negb (tokens s =? 0) && (offset <? last_source_offset s))
  then Some (project_configuration_invalid, s)
  else if tokens s =? u32_max then Some (io_error, s)
  else
    let delta := if tokens s =? 0 then offset else offset - last_source_offset s in
    let ws := token_words kind delta len in
    let required_words := Z.of_nat (length ws) in
    let header := hd 0 ws in
    if negb (token_valid header) || (size_max - required_words <? value_count s)
    then Some (io_error, s)
    else
      let is_directive := directive_start kind in
      let directive_reserved :=
        if is_directive then
          if (u32_max <? value_count s) || (directive_count s =? u32_max)
          then Some (io_error, s)
          else reserve_directives (directive_count s + 1) directives_allocated s
        else Some (success, s) in
      match directive_reserved with
      | None => None
      | Some (status, s) =>
          if negb (succeeded status) then Some (status, s)
          else
            match reserve_words (value_count s + required_words) words_allocated s with
            | None => None
            | Some (status, s) =>
                if negb (succeeded status) then Some (status, s)
                else
                  let ds :=
                    if is_directive
                    then directives s ++
                      [Anchor (u32 (value_count s))
                         (if tokens s =? 0 then 0 else last_source_offset s)]
                    else directives s in
                  Some (success,
                    LexicalStreamState (source_file s) (words s ++ ws) (value_capacity s)
                      ds (directive_capacity s) (source_size s) offset (tokens s + 1))
            end
      end.

(** ** The tokens a stream holds *)

Record token := Token { tok_kind : token_kind; tok_offset : Z; tok_length : Z }.

Fixpoint encode (base : Z) (ts : list token) : list Z :=
  match ts with
  | [] => []
  | t :: ts =>
      token_words (tok_kind t) (tok_offset t - base) (tok_length t) ++ encode (tok_offset t) ts
  end.

(** The place where the tokens [ts] end: the source offset of the last one. *)
Definition last_offset (base : Z) (ts : list token) : Z :=
  foldl (fun _ t => tok_offset t) base ts.

Fixpoint anchors (pos base : Z) (ts : list token) : list lexical_directive_anchor :=
  match ts with
  | [] => []
  | t :: ts =>
      (if directive_start (tok_kind t) then [Anchor pos base] else []) ++
      anchors (pos + Z.of_nat (length (token_words (tok_kind t) (tok_offset t - base)
                                         (tok_length t))))
        (tok_offset t) ts
  end.

(** Tokens inside a source of [size] bytes, in source order from [base]. *)
Fixpoint ordered (size base : Z) (ts : list token) : Prop :=
  match ts with
  | [] => True
  | t :: ts =>
      tok_kind t <> tk_invalid /\ base <= tok_offset t /\ 0 <= tok_length t /\
      tok_offset t + tok_length t <= size /\ ordered size (tok_offset t) ts
  end.

Record stream_holds (s : lexical_stream) (ts : list token) : Prop := StreamHolds {
  holds_file : source_file s <> 0;
  holds_size : 0 <= source_size s <= u32_max;
  holds_words : words s = encode 0 ts;
  holds_anchors : directives s = anchors 0 0 ts;
  holds_last : last_source_offset s = last_offset 0 ts;
  holds_count : tokens s = Z.of_nat (length ts);
  holds_order : ordered (source_size s) 0 ts;
  holds_capacity : value_count s <= value_capacity s <= size_max;
  holds_directive_capacity : directive_count s <= directive_capacity s <= size_max;
  holds_directive_count : directive_count s <= u32_max
}.

Lemma encode_app base ts us :
  encode base (ts ++ us) = encode base ts ++ encode (last_offset base ts) us.
Proof.
  revert base. induction ts as [|t ts IH]; intros base; [done|].
  cbn [app encode]. rewrite IH. by rewrite app_assoc.
Qed.

Lemma anchors_app pos base ts us :
  anchors pos base (ts ++ us)
  = anchors pos base ts ++
    anchors (pos + Z.of_nat (length (encode base ts))) (last_offset base ts) us.
Proof.
  revert pos base. induction ts as [|t ts IH]; intros pos base.
  { cbn [app anchors encode length]. by rewrite Z.add_0_r. }
  cbn [app anchors encode]. rewrite IH, <- app_assoc, length_app, Nat2Z.inj_add, Z.add_assoc.
  done.
Qed.

Lemma ordered_app size base ts us :
  ordered size base (ts ++ us) <-> ordered size base ts /\ ordered size (last_offset base ts) us.
Proof.
  revert base. induction ts as [|t ts IH]; intros base; simpl; [tauto|]. rewrite IH. tauto.
Qed.

Lemma last_offset_app base ts us :
  last_offset base (ts ++ us) = last_offset (last_offset base ts) us.
Proof. apply foldl_app. Qed.

Lemma last_offset_bounds size base ts :
  ordered size base ts -> base <= size -> base <= last_offset base ts <= size.
Proof.
  revert base. induction ts as [|t ts IH]; intros base; simpl; [lia|].
  intros (_ & Hb & Hl & Hs & Ho) Hsz. specialize (IH _ Ho). lia.
Qed.

Lemma length_token_words kind delta len : (1 <= length (token_words kind delta len) <= 3)%nat.
Proof. unfold token_words. repeat case_match; simpl; lia. Qed.

Lemma token_header kind delta len :
  kind <> tk_invalid -> 0 <= delta -> 0 <= len ->
  token_valid (hd 0 (token_words kind delta len)) = true.
Proof.
  intros Hk Hd Hl. unfold token_words. cbn [hd app]. apply make_token_fields; [done|..];
    case_match; unbool; unfold inline_delta_max, inline_length_max, extended_delta,
    extended_length, delta_max, length_max in *; lia.
Qed.

(** ** Growth *)

Lemma grow_spec k fuel capacity required :
  0 <= k -> 2 ^ k <= capacity <= size_max -> required <= size_max ->
  65 <= k + Z.of_nat fuel ->
  exists c, grow fuel capacity required = Some c /\ required <= c <= size_max.
Proof.
  revert k capacity. induction fuel as [|fuel IH]; intros k capacity Hk Hc Hr Hf; cbn [grow].
  { pose proof (Z.pow_le_mono_r 2 64 k). unfold size_max in *. lia. }
  destruct (Z.ltb_spec capacity required); [|exists capacity; split; [done|lia]].
  destruct (Z.ltb_spec (size_max / 2) capacity) as [Hh|Hh]; [exists required; split; [done|lia]|].
  apply (IH (k + 1)); [lia| |done|lia]. rewrite Z.pow_add_r by lia.
  change (size_max / 2) with (2 ^ 63 - 1) in Hh. unfold size_max in *. lia.
Qed.

Lemma reserve_words_spec required allocated s :
  0 <= value_capacity s <= size_max -> required <= size_max ->
  exists st c, reserve_words required allocated s = Some (st, set_words (words s) c s) /\
    value_capacity s <= c <= size_max /\
    (st = success /\ required <= c \/ st = io_error /\ allocated = false /\ c = value_capacity s).
Proof.
  intros Hc Hr. unfold reserve_words. destruct (Z.leb_spec required (value_capacity s)).
  { exists success, (value_capacity s). destruct s. simpl in *. split; [done|]. split; [lia|]. auto. }
  destruct (grow_spec 0 grow_fuel (if value_capacity s =? 0 then 16 else value_capacity s) required)
    as (c & -> & Hle); [lia| |done|done|].
  { destruct (Z.eqb_spec (value_capacity s) 0); unfold size_max in *; lia. }
  destruct allocated; simpl.
  - exists success, c. split; [done|]. split; [lia|]. left. split; [done|lia].
  - exists io_error, (value_capacity s). destruct s. simpl in *. split; [done|]. split; [lia|]. auto.
Qed.

Lemma reserve_directives_spec required allocated s :
  0 <= directive_capacity s <= size_max -> required <= size_max ->
  exists st c, reserve_directives required allocated s
      = Some (st, set_directives (directives s) c s) /\
    directive_capacity s <= c <= size_max /\
    (st = success /\ required <= c \/
     st = io_error /\ allocated = false /\ c = directive_capacity s).
Proof.
  intros Hc Hr. unfold reserve_directives. destruct (Z.leb_spec required (directive_capacity s)).
  { exists success, (directive_capacity s). destruct s. simpl in *. split; [done|].
    split; [lia|]. auto. }
  destruct (grow_spec 0 grow_fuel
    (if directive_capacity s =? 0 then 8 else directive_capacity s) required)
    as (c & -> & Hle); [lia| |done|done|].
  { destruct (Z.eqb_spec (directive_capacity s) 0); unfold size_max in *; lia. }
  destruct allocated; simpl.
  - exists success, c. split; [done|]. split; [lia|]. left. split; [done|lia].
  - exists io_error, (directive_capacity s). destruct s. simpl in *. split; [done|].
    split; [lia|]. auto.
Qed.

(** ** The operations keep the correspondence *)

(** A stream between files: only its capacities matter. *)
Definition storage_ok (s : lexical_stream) : Prop :=
  0 <= value_capacity s <= size_max /\ 0 <= directive_capacity s <= size_max.

Lemma new_storage_ok : storage_ok new_lexical_stream.
Proof. unfold storage_ok, size_max. simpl. lia. Qed.

Lemma holds_storage_ok s ts : stream_holds s ts -> storage_ok s.
Proof.
  intros Hs. pose proof (holds_capacity _ _ Hs). pose proof (holds_directive_capacity _ _ Hs).
  unfold storage_ok, value_count, directive_count in *. lia.
Qed.

Lemma stream_reset_spec file size allocated s :
  storage_ok s -> 0 <= size <= size_max ->
  exists st s', reset file size allocated s = Some (st, s') /\ storage_ok s' /\
    (st = success /\ stream_holds s' [] /\ source_file s' = file /\ source_size s' = size \/
     st = io_error /\ allocated = false /\ source_file s' = 0 \/
     st = project_configuration_invalid /\ (file = 0 \/ u32_max < size) /\ s' = s).
Proof.
  intros [Hc Hd] Hsz. unfold reset. destruct (_ || _) eqn:Eg.
  { eexists _, _. split; [done|]. split; [done|]. right. right. unbool. destruct Eg; unbool; auto. }
  unbool.
  destruct (reserve_words_spec (size / 4 + 16) allocated s)
    as (st & c & -> & Hle & [[-> Hreq]|(-> & Ha & ->)]);
    [lia|unfold size_max, u32_max in *; divlia| |]; simpl;
    eexists _, _; (split; [done|]); (split; [unfold storage_ok; simpl; lia|]).
  - left. split; [done|]. split; [|done].
    split; simpl; try done; unfold value_count, directive_count; simpl;
      unfold u32_max, size_max in *; lia.
  - auto.
Qed.

(** The guards of [append] as a proposition. *)
Definition acceptable (s : lexical_stream) (t : token) : Prop :=
  tok_kind t <> tk_invalid /\ tok_offset t + tok_length t <= source_size s /\
  last_source_offset s <= tok_offset t.

Definition append_exhausted (s : lexical_stream) (da wa : bool) : Prop :=
  da = false \/ wa = false \/ u32_max <= tokens s \/ size_max - 3 < value_count s \/
  u32_max < value_count s \/ u32_max <= directive_count s.

Lemma holds_set_words s ts c :
  stream_holds s ts -> value_capacity s <= c <= size_max ->
  stream_holds (set_words (words s) c s) ts.
Proof. intros [] Hc. split; try done. unfold value_count in *. simpl. lia. Qed.

Lemma holds_set_directives s ts c :
  stream_holds s ts -> directive_capacity s <= c <= size_max ->
  stream_holds (set_directives (directives s) c s) ts.
Proof. intros [] Hc. split; try done. unfold directive_count in *. simpl. lia. Qed.

Lemma reserve_for_directive s ts kind da :
  stream_holds s ts ->
  exists st s', (if directive_start kind then
      if (u32_max <? value_count s) || (directive_count s =? u32_max)
      then Some (io_error, s)
      else reserve_directives (directive_count s + 1) da s
    else Some (success, s)) = Some (st, s') /\ stream_holds s' ts /\
    source_size s' = source_size s /\ value_count s' = value_count s /\
    directive_count s' = directive_count s /\ tokens s' = tokens s /\
    (st = success /\
       (directive_start kind = true ->
        value_count s <= u32_max /\ directive_count s < u32_max /\
        directive_count s + 1 <= directive_capacity s') \/
     st = io_error /\ (da = false \/ u32_max < value_count s \/ u32_max <= directive_count s)).
Proof.
  intros Hs. destruct (directive_start kind).
  2: { exists success, s. repeat (split; [done|]). by left. }
  destruct (_ || _) eqn:E.
  { eexists _, _. split_and!; try done. right. split; [done|]. unbool. destruct E; unbool; lia. }
  unbool. pose proof (holds_directive_count _ _ Hs).
  destruct (reserve_directives_spec (directive_count s + 1) da s)
    as (st & c & -> & Hc & Hcase); [by apply (holds_storage_ok _ _ Hs)|unfold size_max, u32_max in *; lia|].
  eexists _, _. split; [done|]. split; [by apply holds_set_directives|].
  split; [done|]. split; [done|]. split; [done|]. split; [done|].
  destruct Hcase as [[-> ?]|(-> & ? & _)]; [left|right; auto].
  split; [done|]. intros _. simpl. lia.
Qed.

(** The new token written after all reservations. *)
Lemma written_holds s ts t :
  stream_holds s ts -> acceptable s t -> 0 <= tok_length t ->
  let delta := if tokens s =? 0 then tok_offset t else tok_offset t - last_source_offset s in
  let ws := token_words (tok_kind t) delta (tok_length t) in
  value_count s + Z.of_nat (length ws) <= value_capacity s ->
  (directive_start (tok_kind t) = true ->
    value_count s <= u32_max /\ directive_count s < u32_max /\
    directive_count s + 1 <= directive_capacity s) ->
  stream_holds
    (LexicalStreamState (source_file s) (words s ++ ws) (value_capacity s)
      (if directive_start (tok_kind t)
       then directives s ++ [Anchor (u32 (value_count s))
              (if tokens s =? 0 then 0 else last_source_offset s)]
       else directives s)
      (directive_capacity s) (source_size s) (tok_offset t) (tokens s + 1)) (ts ++ [t]).
Proof.
  intros Hs (Hk & Hfit & Hlast) Hlen delta ws Hw Hd.
  assert (delta = tok_offset t - last_offset 0 ts /\
    (if tokens s =? 0 then 0 else last_source_offset s) = last_offset 0 ts) as [Hdelta ->].
  { subst delta. rewrite (holds_last _ _ Hs), (holds_count _ _ Hs).
    destruct ts as [|t0 ts]; [simpl; split; [lia|done]|].
    rewrite (proj2 (Z.eqb_neq _ 0)) by (simpl; lia). done. }
  assert (directive_start (tok_kind t) = true -> u32 (value_count s) = value_count s) as Hu.
  { intros Hstart. destruct (Hd Hstart) as [Hmax _]. unfold u32, u32_max, value_count in *.
    apply Z.mod_small. lia. }
  assert (ws = encode (last_offset 0 ts) [t]) as Hws.
  { subst ws. rewrite Hdelta. simpl. by rewrite app_nil_r. }
  destruct Hs as [Hf Hsz Hwords Hanch Hl Hcnt Hord Hcap Hdcap Hdcnt].
  split; cbn [source_file words value_capacity directives directive_capacity source_size
    last_source_offset tokens]; unfold value_count, directive_count in *;
    cbn [words directives value_capacity directive_capacity].
  - done.
  - done.
  - by rewrite encode_app, Hwords, Hws.
  - rewrite anchors_app, Hanch. rewrite <- Hwords. cbn [anchors]. rewrite Z.add_0_l, app_nil_r.
    destruct (directive_start (tok_kind t)); [by rewrite Hu|by rewrite app_nil_r].
  - by rewrite last_offset_app.
  - rewrite length_app, Hcnt. simpl. lia.
  - apply ordered_app. split; [done|]. simpl. rewrite <- Hl. done.
  - rewrite length_app. lia.
  - destruct (directive_start (tok_kind t)); [|done]. rewrite length_app. simpl.
    destruct Hd as (_ & _ & ?); [done|]. lia.
  - destruct (directive_start (tok_kind t)); [|done]. rewrite length_app. simpl.
    destruct Hd as (_ & ? & _); [done|]. lia.
Qed.

Lemma append_spec s ts t da wa :
  stream_holds s ts -> 0 <= tok_offset t -> 0 <= tok_length t ->
  exists st s', append (tok_kind t) (tok_offset t) (tok_length t) da wa s = Some (st, s') /\
    source_size s' = source_size s /\
    (st = success /\ acceptable s t /\ stream_holds s' (ts ++ [t]) \/
     st = project_configuration_invalid /\ ~ acceptable s t /\ s' = s \/
     st = io_error /\ append_exhausted s da wa /\ stream_holds s' ts).
Proof.
  intros Hs Ho Hl. unfold append. destruct (_ || _) eqn:Eg.
  { eexists _, _. split; [done|]. split; [done|]. right. left. split; [done|]. split; [|done].
    intros (Hk & Hfit & Hlast). pose proof (holds_file _ _ Hs).
    repeat match goal with H : _ || _ = true |- _ => apply orb_true_iff in H as [H|H] end;
      unbool; lia || done. }
  unbool. assert (acceptable s t) as Hacc.
  { split; [done|]. split; [lia|]. rename H0 into Hord. destruct Hord as [Hz|Hz]; unbool; [|lia].
    rewrite (holds_last _ _ Hs). rewrite (holds_count _ _ Hs) in Hz.
    destruct ts; [done|simpl in Hz; lia]. }
  destruct (Z.eqb_spec (tokens s) u32_max) as [Hmax|Hmax].
  { eexists _, _. split; [done|]. split; [done|]. right. right. split; [done|].
    split; [|done]. unfold append_exhausted. lia. }
  set (delta := if tokens s =? 0 then tok_offset t else tok_offset t - last_source_offset s).
  assert (0 <= delta) as Hdelta.
  { subst delta. destruct Hacc as (_ & _ & ?). case_match; lia. }
  set (ws := token_words (tok_kind t) delta (tok_length t)).
  pose proof (length_token_words (tok_kind t) delta (tok_length t)) as Hws. fold ws in Hws.
  assert (token_valid (hd 0 ws) = true) as -> by (apply token_header; [apply Hacc|done|done]).
  simpl negb. cbn [orb].
  destruct (Z.ltb_spec (size_max - Z.of_nat (length ws)) (value_count s)).
  { eexists _, _. split; [done|]. split; [done|]. right. right. split; [done|].
    split; [|done]. unfold append_exhausted. lia. }
  destruct (reserve_for_directive s ts (tok_kind t) da Hs)
    as (st & s1 & -> & Hs1 & Hsz1 & Hv1 & Hd1 & Ht1 & Hcase).
  destruct Hcase as [[-> Hdir]|[-> Hex]].
  2: { eexists _, _. split; [done|]. split; [done|]. right. right. split; [done|].
       split; [|done]. unfold append_exhausted. tauto. }
  simpl negb. cbn iota. destruct (holds_storage_ok _ _ Hs1) as [Hc1 _].
  destruct (reserve_words_spec (value_count s1 + Z.of_nat (length ws)) wa s1)
    as (st & c & -> & Hc & [[-> Hfit]|(-> & Ha & ->)]); [done|lia| |].
  2: { eexists _, _. split; [done|]. split; [done|]. right. right. split; [done|].
       split; [unfold append_exhausted; tauto|by apply holds_set_words]. }
  simpl negb. cbn iota. eexists _, _. split; [done|]. split; [done|]. left.
  split; [done|]. split; [done|].
  assert (last_source_offset s1 = last_source_offset s) as Hl1
    by by rewrite (holds_last _ _ Hs), (holds_last _ _ Hs1).
  pose proof (written_holds (set_words (words s1) c s1) ts t) as Hw.
  cbn [set_words source_file words value_capacity directives directive_capacity source_size
    last_source_offset tokens] in Hw |- *.
  change (value_count (set_words (words s1) c s1)) with (value_count s1) in *.
  change (directive_count (set_words (words s1) c s1)) with (directive_count s1) in *.
  rewrite Ht1, Hl1 in *. apply Hw.
  - by apply holds_set_words.
  - destruct Hacc as (? & ? & ?). split; [done|]. simpl. rewrite Hl1. lia.
  - done.
  - done.
  - intros Hstart. rewrite Hv1, Hd1. by apply Hdir.
Qed.

(** ** Streams a lexer can produce *)

(** From some earlier content: a successful [reset], then calls of [append] with
    32-bit arguments, whatever they returned; [ts] are the tokens that were
    accepted. *)
Inductive produced : lexical_stream -> list token -> Prop :=
| produced_reset file size allocated s s' :
    storage_ok s -> 0 <= size -> reset file size allocated s = Some (success, s') ->
    produced s' []
| produced_append s ts t da wa st s' :
    produced s ts -> 0 <= tok_offset t -> 0 <= tok_length t ->
    append (tok_kind t) (tok_offset t) (tok_length t) da wa s = Some (st, s') ->
    produced s' (if succeeded st then ts ++ [t] else ts).

(** Appending tokens while memory lasts. *)
Fixpoint appended (s : lexical_stream) (ts : list token) : option lexical_stream :=
  match ts with
  | [] => Some s
  | t :: ts =>
      match append (tok_kind t) (tok_offset t) (tok_length t) true true s with
      | Some (success, s) => appended s ts
      | _ => None
      end
  end.

Lemma produced_appended s ts us s' :
  produced s ts -> Forall (fun t => 0 <= tok_offset t /\ 0 <= tok_length t) us ->
  appended s us = Some s' -> produced s' (ts ++ us).
Proof.
  intros Hp Hall. revert s ts Hp. induction Hall as [|t us [Ho Hl] _ IH]; intros s ts Hp.
  - intros [= ->]. by rewrite app_nil_r.
  - cbn [appended]. destruct (append _ _ _ _ _ _) as [[[] s1]|] eqn:Ea; try done.
    intros Hr. change (t :: us) with ([t] ++ us). rewrite app_assoc. eapply IH; [|exact Hr].
    by apply (produced_append s ts t true true success).
Qed.

Lemma produced_holds s ts : produced s ts -> stream_holds s ts.
Proof.
  induction 1 as [file size allocated s s' Hs Hsz Hr|s ts t da wa st s' _ IH Ho Hl Ha].
  - destruct (Z.leb_spec size u32_max).
    + destruct (stream_reset_spec file size allocated s Hs) as (st & s1 & Hr1 & _ & Hcase);
        [unfold size_max, u32_max in *; lia|].
      rewrite Hr in Hr1. simplify_eq.
      destruct Hcase as [(_ & ? & _)|[(? & _)|(? & _)]]; done.
    + exfalso. unfold reset in Hr. rewrite (proj2 (Z.ltb_lt _ _)), orb_true_r in Hr by done. done.
  - destruct (append_spec s ts t da wa IH Ho Hl) as (st1 & s1 & Ha1 & _ & Hcase).
    rewrite Ha in Ha1. simplify_eq.
    destruct Hcase as [(-> & _ & ?)|[(-> & _ & ->)|(-> & _ & ?)]]; done.
Qed.

(** After a reset, each [append] of a 32-bit token returns and does one of three
    things: it accepts the token exactly when it is valid, in source order and
    inside the source, and then the stream encodes one token more; it refuses it
    and leaves the stream unchanged; or it reports exhaustion and keeps the tokens
    accepted so far. *)
Theorem append_outcomes (s : lexical_stream) (ts : list token) (t : token) (da wa : bool) :
  produced s ts -> 0 <= tok_offset t -> 0 <= tok_length t ->
  words s = encode 0 ts /\ directives s = anchors 0 0 ts /\ tokens s = Z.of_nat (length ts) /\
  exists st s', append (tok_kind t) (tok_offset t) (tok_length t) da wa s = Some (st, s') /\
    (st = success /\ acceptable s t /\
       words s' = encode 0 (ts ++ [t]) /\ directives s' = anchors 0 0 (ts ++ [t]) \/
     st = project_configuration_invalid /\ ~ acceptable s t /\ s' = s \/
     st = io_error /\ append_exhausted s da wa /\
       words s' = words s /\ directives s' = directives s).
Proof.
  intros Hp Ho Hl. pose proof (produced_holds s ts Hp) as Hs.
  split; [apply Hs|]. split; [apply Hs|]. split; [apply Hs|].
  destruct (append_spec s ts t da wa Hs Ho Hl) as (st & s' & Ha & _ & Hcase).
  exists st, s'. split; [done|].
  destruct Hcase as [(-> & Hacc & Hs')|[?|(-> & Hex & Hs')]]; [left|by right; left|right; right].
  - split; [done|]. split; [done|]. split; apply Hs'.
  - split; [done|]. split; [done|].
    rewrite (holds_words _ _ Hs'), (holds_anchors _ _ Hs').
    by rewrite (holds_words _ _ Hs), (holds_anchors _ _ Hs).
Qed.

(** A stream for a file of 100000 bytes. *)
Definition example_stream : lexical_stream :=
  LexicalStreamState 1 [] 32768 [] 0 100000 0 0.

Lemma example_produced : produced example_stream [].
Proof.
  apply (produced_reset 1 100000 true new_lexical_stream); [apply new_storage_ok|lia|].
  vm_compute. done.
Qed.

Lemma append_outcomes_witness :
  words example_stream = encode 0 [] /\ directives example_stream = anchors 0 0 [] /\
  tokens example_stream = 0 /\
  exists st s', append pp_define 70000 300 true true example_stream = Some (st, s') /\
    (st = success /\ acceptable example_stream (Token pp_define 70000 300) /\
       words s' = encode 0 [Token pp_define 70000 300] /\
       directives s' = anchors 0 0 [Token pp_define 70000 300] \/
     st = project_configuration_invalid /\
       ~ acceptable example_stream (Token pp_define 70000 300) /\ s' = example_stream \/
     st = io_error /\ append_exhausted example_stream true true /\
       words s' = words example_stream /\ directives s' = directives example_stream).
Proof.
  apply (append_outcomes example_stream [] (Token pp_define 70000 300) true true);
    [apply example_produced|simpl; lia|simpl; lia].
Defined.
