(* ===== verification/FrontendInput.v ===== *)
(** The lexical-input stack (project/frontend/frontend_input.hpp and .cpp): frames
    suspended by includes, the token decoder, and the theorem that it reads back
    exactly the tokens that were appended to the stream, from the start of a file
    and from every directive anchor. *)

From S2P Require Import Prelude ServerStatus LexicalToken LexicalStream.

Local Open Scope Z_scope.

(** What the input relies on of a [lexical_generation]: which files are lexed, and
    their words. *)
Class LexicalWords (G : Type) := {
  lexical_contains : G -> Z -> bool;
  lexical_words : G -> Z -> list Z
}.

Definition frontend_include_depth_limit : nat := 256.

Record frontend_token := FrontendToken {
  ft_file : Z;
  ft_kind : token_kind;
  ft_offset : Z;
  ft_length : Z
}.

Definition no_token : frontend_token := FrontendToken 0 tk_invalid 0 0.

Record input_frame := InputFrame {
  frame_file : Z;
  frame_word_offset : Z;
  frame_source_offset : Z;
  frame_words : list Z
}.

(** The used part of the stack, innermost file first. *)
Definition frontend_input : Type := list input_frame.

Section Operations.
Context {G : Type} `{LexicalWords G} (lexical : G).

Definition enter (file : Z) (input : frontend_input) : server_status * frontend_input :=
  if negb (lexical_contains lexical file) ||
     (length input =? frontend_include_depth_limit)%nat
  then (project_configuration_invalid, input)
  else (success, InputFrame file 0 0 (lexical_words lexical file) :: input).

Definition start (root : Z) (input : frontend_input) : server_status * frontend_input :=
  enter root [].

Definition start_at (file offset base : Z) (input : frontend_input)
  : server_status * frontend_input :=
  if negb (lexical_contains lexical file) then (project_configuration_invalid, [])
  else
    let ws := lexical_words lexical file in
    if Z.of_nat (length ws) <=? offset then (project_configuration_invalid, [])
    else (success, [InputFrame file offset base ws]).
End Operations.

(** A word at the read position, and the position after it. *)
Definition read_word (ws : list Z) (pos : nat) : option (Z * nat) :=
  match ws !! pos with Some w => Some (w, S pos) | None => None end.

Definition next (input : frontend_input)
  : server_status * frontend_token * frontend_input :=
  let invalid := (project_configuration_invalid, no_token, input) in
  match input with
  | [] => invalid
  | current :: suspended =>
      let ws := frame_words current in
      match read_word ws (Z.to_nat (frame_word_offset current)) with
      | None => invalid
      | Some (value, pos) =>
          let header := token_from_value value in
          if negb (token_valid header) then invalid
          else
            match (if token_delta header =? extended_delta then read_word ws pos
                   else Some (token_delta header, pos)) with
            | None => invalid
            | Some (delta, pos) =>
                match (if token_length header =? extended_length then read_word ws pos
                       else Some (token_length header, pos)) with
                | None => invalid
                | Some (len, pos) =>
                    let first := frame_word_offset current =? 0 in
                    if negb first && (u32_max - frame_source_offset current <? delta)
                    then invalid
                    else
                      let source :=
                        if first then delta else frame_source_offset current + delta in
                      if u32_max <? Z.of_nat pos then invalid
                      else
                        (success,
                         FrontendToken (frame_file current) (token_kind_of header) source len,
                         InputFrame (frame_file current) (Z.of_nat pos) source ws :: suspended)
                end
            end
      end
  end.

Definition finished (input : frontend_input) : bool :=
  match input with
  | [] => false
  | current :: _ => frame_word_offset current =? Z.of_nat (length (frame_words current))
  end.

Definition leave (input : frontend_input) : server_status * frontend_input :=
  match input with
  | [] => (project_configuration_invalid, input)
  | _ :: suspended =>
      if negb (finished input) then (project_configuration_invalid, input)
      else (success, suspended)
  end.

Definition current_file (input : frontend_input) : Z :=
  match input with [] => 0 | current :: _ => frame_file current end.
Definition input_word_offset (input : frontend_input) : Z :=
  match input with [] => 0 | current :: _ => frame_word_offset current end.
Definition input_source_offset (input : frontend_input) : Z :=
  match input with [] => 0 | current :: _ => frame_source_offset current end.

(** [n] successful reads. *)
Fixpoint drain (n : nat) (input : frontend_input)
  : option (list frontend_token * frontend_input) :=
  match n with
  | O => Some ([], input)
  | S n =>
      match next input with
      | (success, t, input) =>
          match drain n input with
          | Some (ts, input) => Some (t :: ts, input)
          | None => None
          end
      | _ => None
      end
  end.

(** ** Decoding what was encoded *)

Definition in_file (file : Z) (t : token) : frontend_token :=
  FrontendToken file (tok_kind t) (tok_offset t) (tok_length t).

(** A frame stands between the words [pre] and the tokens [ts]. *)
Definition frame_at (file : Z) (pre : list Z) (base : Z) (ts : list token) : input_frame :=
  InputFrame file (Z.of_nat (length pre)) base (pre ++ encode base ts).

(** An inline field, or the escape and the word that follows. *)
Lemma read_field pre (ext : bool) v code marker post ws pos :
  code = (if ext then marker else v) -> (ext = false -> v <> marker) ->
  ws = pre ++ (if ext then [v] else []) ++ post -> pos = length pre ->
  (if code =? marker then read_word ws pos else Some (code, pos))
  = Some (v, length (pre ++ (if ext then [v] else []))).
Proof.
  intros -> Hne -> ->. destruct ext.
  - rewrite Z.eqb_refl. unfold read_word. simpl. rewrite list_lookup_middle by done.
    rewrite length_app. simpl. do 2 f_equal. lia.
  - rewrite (proj2 (Z.eqb_neq _ _)) by by apply Hne. by rewrite app_nil_r.
Qed.

Lemma next_reads file pre base t ts suspended size :
  (pre = [] -> base = 0) -> 0 <= base <= size -> size <= u32_max ->
  ordered size base (t :: ts) ->
  Z.of_nat (length (pre ++ encode base (t :: ts))) <= u32_max ->
  next (frame_at file pre base (t :: ts) :: suspended)
  = (success, in_file file t,
     frame_at file
       (pre ++ token_words (tok_kind t) (tok_offset t - base) (tok_length t))
       (tok_offset t) ts :: suspended).
Proof.
  intros Hpre Hbase Hsize (Hk & Hb & Hl & Hfit & _) Hlen. cbn [encode] in Hlen.
  unfold token_words in *. set (delta := tok_offset t - base) in *.
  set (len := tok_length t) in *. set (ed := inline_delta_max <? delta) in *.
  set (el := inline_length_max <? len) in *. set (post := encode (tok_offset t) ts) in *.
  set (d := if ed then extended_delta else delta) in *.
  set (l := if el then extended_length else len) in *.
  assert (ed = false -> delta <> extended_delta /\ delta <= delta_max) as Hed.
  { subst ed. intros. unbool. unfold inline_delta_max, extended_delta, delta_max in *. lia. }
  assert (el = false -> len <> extended_length /\ len <= length_max) as Hel.
  { subst el. intros. unbool. unfold inline_length_max, extended_length, length_max in *. lia. }
  destruct (make_token_fields (tok_kind t) d l) as (_ & Hval & Hkind & Hd & Hln); [done|..].
  { subst d. destruct ed; [unfold extended_delta, delta_max; lia|]. specialize (Hed eq_refl). lia. }
  { subst l. destruct el; [unfold extended_length, length_max; lia|]. specialize (Hel eq_refl). lia. }
  set (header := make_token (tok_kind t) d l) in *.
  unfold next, frame_at. cbn [frame_words frame_word_offset frame_source_offset frame_file].
  rewrite Nat2Z.id. unfold read_word at 1. cbn [encode]. unfold token_words.
  fold delta len ed el post d l header. cbn [app]. rewrite list_lookup_middle by done.
  unfold token_from_value. rewrite Hval, Hval. simpl negb. cbn iota.
  rewrite Hd, Hln, Hkind, <- (app_assoc _ _ post).
  rewrite (read_field (pre ++ [header]) ed delta d extended_delta
    ((if el then [len] else []) ++ post)); [|done|apply Hed| |].
  2: { by rewrite <- app_assoc. }
  2: { rewrite length_app. simpl. lia. }
  rewrite (read_field ((pre ++ [header]) ++ (if ed then [delta] else [])) el len l
    extended_length post); [|done|apply Hel|by rewrite <- !app_assoc|done].
  assert (negb (Z.of_nat (length pre) =? 0) && (u32_max - base <? delta) = false) as ->.
  { apply andb_false_iff. right. subst delta. lia. }
  assert ((if Z.of_nat (length pre) =? 0 then delta else base + delta) = tok_offset t) as ->.
  { subst delta. destruct pre; [rewrite Hpre in * by done; simpl; lia|]. simpl. lia. }
  rewrite <- !app_assoc in *. cbn [app] in *. rewrite (proj2 (Z.ltb_ge _ _)).
  - do 4 f_equal. by rewrite <- !app_assoc.
  - rewrite !length_app in *. simpl in *. rewrite !length_app in *. lia.
Qed.

Lemma drain_reads file pre base ts suspended size :
  (pre = [] -> base = 0) -> 0 <= base <= size -> size <= u32_max -> ordered size base ts ->
  Z.of_nat (length (pre ++ encode base ts)) <= u32_max ->
  drain (length ts) (frame_at file pre base ts :: suspended)
  = Some (in_file file <$> ts,
      frame_at file (pre ++ encode base ts) (last_offset base ts) [] :: suspended).
Proof.
  revert pre base. induction ts as [|t ts IH]; intros pre base Hpre Hbase Hsz Ho Hlen.
  { simpl. rewrite app_nil_r. done. }
  cbn [length drain]. rewrite (next_reads file pre base t ts suspended size) by done.
  cbn [encode] in *. rewrite app_assoc in Hlen. rewrite IH; try done.
  - by rewrite <- app_assoc.
  - intros E. apply app_nil in E as [_ E]. done.
  - destruct Ho as (_ & ? & ? & ? & _). lia.
  - by destruct Ho as (_ & _ & _ & _ & ?).
Qed.

Lemma frame_done file pre base suspended :
  finished (frame_at file pre base [] :: suspended) = true.
Proof. simpl. rewrite app_nil_r. apply Z.eqb_refl. Qed.

(** ** The contract *)

Section Contract.
Context {G : Type} `{LexicalWords G} (lexical : G).

(** Entering a lexed file, reading as many tokens as its lexer appended and
    leaving it delivers exactly those tokens, each with its kind, source offset and
    length, and resumes the including file where it was suspended. *)
Theorem file_reads_back (s : lexical_stream) (ts : list token) (file : Z)
    (input : frontend_input) :
  produced s ts -> Z.of_nat (length (words s)) <= u32_max ->
  lexical_contains lexical file = true -> lexical_words lexical file = words s ->
  (length input < frontend_include_depth_limit)%nat ->
  exists entered read,
    enter lexical file input = (success, entered) /\
    drain (length ts) entered = Some (in_file file <$> ts, read) /\
    finished read = true /\ leave read = (success, input).
Proof.
  intros Hp Hlen Hc Hw Hdepth. pose proof (produced_holds s ts Hp) as Hs.
  unfold enter. rewrite Hc, (proj2 (Nat.eqb_neq _ _)) by lia. simpl negb. cbn [orb].
  rewrite Hw, (holds_words _ _ Hs) in *.
  pose proof (drain_reads file [] 0 ts input (source_size s) ltac:(done)) as Hd.
  eexists _, _. split; [done|]. split.
  - apply Hd; [split; [done|apply (holds_size _ _ Hs)]|apply (holds_size _ _ Hs)
      |apply (holds_order _ _ Hs)|done].
  - split; [apply frame_done|]. unfold leave. by rewrite frame_done.
Qed.

(** The tokens from each directive on. *)
Fixpoint directive_suffixes (ts : list token) : list (list token) :=
  match ts with
  | [] => []
  | t :: rest =>
      (if directive_start (tok_kind t) then [t :: rest] else []) ++ directive_suffixes rest
  end.

(** Reading from the anchors of the suffix [ts] of a stream. *)
Lemma anchors_read file pre base ts size input ws :
  ws = pre ++ encode base ts -> (pre = [] -> base = 0) -> 0 <= base <= size ->
  size <= u32_max -> ordered size base ts -> Z.of_nat (length ws) <= u32_max ->
  lexical_contains lexical file = true -> lexical_words lexical file = ws ->
  Forall2 (fun a suffix => exists entered read,
      start_at lexical file (word_offset a) (source_base a) input = (success, entered) /\
      drain (length suffix) entered = Some (in_file file <$> suffix, read) /\
      finished read = true)
    (anchors (Z.of_nat (length pre)) base ts) (directive_suffixes ts).
Proof.
  intros Hws Hpre Hbase Hsz Ho Hlen Hc Hw. revert pre base Hws Hpre Hbase Ho.
  induction ts as [|t ts IH]; intros pre base Hws Hpre Hbase Ho; [constructor|].
  cbn [anchors directive_suffixes]. apply Forall2_app.
  - destruct (directive_start (tok_kind t)); [|constructor]. constructor; [|constructor].
    unfold start_at. rewrite Hc, Hw. simpl negb. cbn iota. cbn [word_offset source_base].
    pose proof (length_token_words (tok_kind t) (tok_offset t - base) (tok_length t)).
    rewrite (proj2 (Z.leb_gt _ _)).
    2: { rewrite Hws. cbn [encode]. rewrite !length_app. lia. }
    rewrite Hws in *. eexists _, _. split; [done|]. split; [|apply frame_done].
    by apply (drain_reads file pre base (t :: ts) [] size).
  - set (ws1 := token_words (tok_kind t) (tok_offset t - base) (tok_length t)).
    pose proof (length_token_words (tok_kind t) (tok_offset t - base) (tok_length t)) as Hl.
    fold ws1 in Hl. rewrite <- Nat2Z.inj_add, <- length_app.
    destruct Ho as (_ & ? & ? & ? & Ho). apply IH; [|intros E; apply app_nil in E as [_ E];
      rewrite E in Hl; simpl in Hl; lia|lia|done].
    rewrite Hws. cbn [encode]. fold ws1. by rewrite app_assoc.
Qed.

(** Every directive token of a file has exactly one anchor, in order, and
    starting at the anchor reads the stream from that directive token to the end
    of the file, without touching the tokens before it. *)
Theorem anchors_enter_directives (s : lexical_stream) (ts : list token) (file : Z)
    (input : frontend_input) :
  produced s ts -> Z.of_nat (length (words s)) <= u32_max ->
  lexical_contains lexical file = true -> lexical_words lexical file = words s ->
  Forall2 (fun a suffix => exists entered read,
      start_at lexical file (word_offset a) (source_base a) input = (success, entered) /\
      drain (length suffix) entered = Some (in_file file <$> suffix, read) /\
      finished read = true)
    (directives s) (directive_suffixes ts).
Proof.
  intros Hp Hlen Hc Hw. pose proof (produced_holds s ts Hp) as Hs.
  rewrite (holds_anchors _ _ Hs). rewrite (holds_words _ _ Hs) in *.
  apply (anchors_read file [] 0 ts (source_size s) input (encode 0 ts)); try done.
  - split; [done|apply (holds_size _ _ Hs)].
  - apply (holds_size _ _ Hs).
  - apply (holds_order _ _ Hs).
Qed.
End Contract.

(** A generation holding the streams of some files. *)
#[export] Instance file_words : LexicalWords (gmap Z (list Z)) := {
  lexical_contains g file := bool_decide (is_Some (g !! file));
  lexical_words g file := default [] (g !! file)
}.

Definition example_tokens : list token :=
  [Token kw_int 2 3; Token pp_define 70000 300].

Definition example_lexed : lexical_stream :=
  match append kw_int 2 3 true true example_stream with
  | Some (_, s) =>
      match append pp_define 70000 300 true true s with Some (_, s) => s | None => s end
  | None => example_stream
  end.

Lemma example_lexed_produced : produced example_lexed example_tokens.
Proof.
  destruct (append kw_int 2 3 true true example_stream) as [[st s1]|] eqn:E; [|done].
  apply (produced_append s1 [Token kw_int 2 3] (Token pp_define 70000 300) true true success);
    [|simpl; lia|simpl; lia|vm_compute in E; injection E as <- <-; vm_compute; done].
  apply (produced_append example_stream [] (Token kw_int 2 3) true true success);
    [apply example_produced|simpl; lia|simpl; lia|].
  cbn [tok_kind tok_offset tok_length]. rewrite E. vm_compute in E. by injection E as <- <-.
Qed.

Lemma file_reads_back_witness :
  exists entered read,
    enter ({[ 1 := words example_lexed ]} : gmap Z (list Z)) 1 [] = (success, entered) /\
    drain 2 entered = Some (in_file 1 <$> example_tokens, read) /\
    finished read = true /\ leave read = (success, []).
Proof.
  apply (file_reads_back ({[ 1 := words example_lexed ]} : gmap Z (list Z)) example_lexed
    example_tokens); [apply example_lexed_produced|vm_compute; done..|].
  unfold frontend_include_depth_limit. simpl. lia.
Defined.

Lemma anchors_enter_directives_witness :
  Forall2 (fun a suffix => exists entered read,
      start_at ({[ 1 := words example_lexed ]} : gmap Z (list Z)) 1 (word_offset a)
        (source_base a) [] = (success, entered) /\
      drain (length suffix) entered = Some (in_file 1 <$> suffix, read) /\
      finished read = true)
    (directives example_lexed) (directive_suffixes example_tokens).
Proof.
  apply anchors_enter_directives; [apply example_lexed_produced|vm_compute; done..].
Defined.
