(* ===== verification/LexerScan.v ===== *)
(** The scanners of the per-file lexer (the anonymous namespace of
    project/frontend/lexer.cpp): character classes, the keyword switch, the literal,
    number and punctuation scanners, each with the grammar of the text it takes.  A
    scanner that the code runs at a position of the source runs here on the
    remaining bytes, [drop position source]. *)

From Stdlib Require Import Sorting.Sorted.
From S2P Require Import Prelude ServerStatus LexicalToken.

Local Open Scope Z_scope.

(** ** Characters *)

Definition is_char (value literal : byte) : bool := bz value =? bz literal.

Definition in_range (value first last : byte) : bool :=
  (bz first <=? bz value) && (bz value <=? bz last).

Definition ascii_alpha (value : byte) : bool :=
  in_range value "a" "z" || in_range value "A" "Z".
Definition ascii_digit (value : byte) : bool := in_range value "0" "9".
Definition identifier_first (value : byte) : bool := ascii_alpha value || is_char value "_".
Definition identifier_next (value : byte) : bool := identifier_first value || ascii_digit value.
Definition horizontal_space (value : byte) : bool :=
  is_char value " " || is_char value x09 || is_char value x0b || is_char value x0c.

(** ** Keywords *)

Definition spelling_hash (value : list byte) : Z :=
  foldl (fun hash c => u32 (Z.lxor hash (bz c) * 16777619)) 2166136261 value.

(** The cases of the switch: hash constant, word, kind. *)
Definition keyword_cases : list (Z * (list byte * token_kind)) :=
  [(0x0b069958, (str "false", kw_false));
   (0x0bbde79e, (str "nullptr", kw_nullptr));
   (0x0c547726, (str "unsigned", kw_unsigned));
   (0x0dc628ce, (str "while", kw_while));
   (0x0f29c2a6, (str "and", tk_logical_and));
   (0x13251e95, (str "reinterpret_cast", kw_reinterpret_cast));
   (0x1472c0a0, (str "asm", kw_asm));
   (0x19a9984e, (str "typename", kw_typename));
   (0x1e54727d, (str "protected", kw_protected));
   (0x221ede24, (str "typedef", kw_typedef));
   (0x28999611, (str "new", kw_new));
   (0x29b19c8a, (str "not", tk_exclamation));
   (0x2d6871c0, (str "register", kw_register));
   (0x39386e06, (str "if", kw_if));
   (0x3b0333a9, (str "mutable", kw_mutable));
   (0x4288e94c, (str "catch", kw_catch));
   (0x437c3109, (str "bitand", tk_ampersand));
   (0x44e4e5f2, (str "const_cast", kw_const_cast));
   (0x48b5725f, (str "void", kw_void));
   (0x4db211e5, (str "true", kw_true));
   (0x4f06d367, (str "or_eq", tk_pipe_assign));
   (0x5807e43c, (str "char8_t", kw_char8_t));
   (0x5aa35603, (str "constexpr", kw_constexpr));
   (0x5d342984, (str "or", tk_logical_or));
   (0x5d967ebc, (str "virtual", kw_virtual));
   (0x605fdc91, (str "and_eq", tk_ampersand_assign));
   (0x61338257, (str "noexcept", kw_noexcept));
   (0x621cd814, (str "do", kw_do));
   (0x62cb0d0c, (str "private", kw_private));
   (0x664fd1d4, (str "const", kw_const));
   (0x676a80dc, (str "dynamic_cast", kw_dynamic_cast));
   (0x67c2444a, (str "delete", kw_delete));
   (0x68e79149, (str "explicit", kw_explicit));
   (0x694aaa0b, (str "template", kw_template));
   (0x69ce1407, (str "using", kw_using));
   (0x6ee13afd, (str "sizeof", kw_sizeof));
   (0x7a78762f, (str "throw", kw_throw));
   (0x801a266d, (str "char16_t", kw_char16_t));
   (0x816cb000, (str "enum", kw_enum));
   (0x85ee37bf, (str "return", kw_return));
   (0x8d911aa9, (str "xor_eq", tk_caret_assign));
   (0x9087ddb7, (str "extern", kw_extern));
   (0x923fa396, (str "auto", kw_auto));
   (0x92c2be20, (str "struct", kw_struct));
   (0x933b5bde, (str "default", kw_default));
   (0x93e05f71, (str "switch", kw_switch));
   (0x94e1036d, (str "volatile", kw_volatile));
   (0x95e97e5e, (str "int", kw_int));
   (0x9b2538b1, (str "case", kw_case));
   (0x9b8caa55, (str "requires", kw_requires));
   (0xa0eb0f08, (str "double", kw_double));
   (0xa3383d13, (str "concept", kw_concept));
   (0xa6c45d85, (str "float", kw_float));
   (0xa7226423, (str "static_cast", kw_static_cast));
   (0xa846fc93, (str "char32_t", kw_char32_t));
   (0xa84c031d, (str "char", kw_char));
   (0xa8953bd8, (str "typeid", kw_typeid));
   (0xab3e0bff, (str "class", kw_class));
   (0xac1db00e, (str "try", kw_try));
   (0xacf38390, (str "for", kw_for));
   (0xb1727e44, (str "continue", kw_continue));
   (0xb3d6d26d, (str "bitor", tk_pipe));
   (0xb5712015, (str "signed", kw_signed));
   (0xb7b4afbd, (str "not_eq", tk_not_equal));
   (0xba226bd5, (str "short", kw_short));
   (0xbdbf5bf0, (str "else", kw_else));
   (0xbeedb7f2, (str "compl", tk_tilde));
   (0xbef43ea5, (str "decltype", kw_decltype));
   (0xc2cb5034, (str "inline", kw_inline));
   (0xc2ecdf53, (str "long", kw_long));
   (0xc523b9f1, (str "wchar_t", kw_wchar_t));
   (0xc894953d, (str "bool", kw_bool));
   (0xc9101b72, (str "consteval", kw_consteval));
   (0xc919731f, (str "alignof", kw_alignof));
   (0xc9648178, (str "break", kw_break));
   (0xcace7aa0, (str "namespace", kw_namespace));
   (0xcba09f8d, (str "friend", kw_friend));
   (0xcc6bdb7e, (str "xor", tk_caret));
   (0xcc909380, (str "public", kw_public));
   (0xcd3c1aa1, (str "thread_local", kw_thread_local));
   (0xd27d73de, (str "co_return", kw_co_return));
   (0xd290c23b, (str "static", kw_static));
   (0xd34fd592, (str "co_await", kw_co_await));
   (0xda2bd281, (str "this", kw_this));
   (0xdbded6f4, (str "union", kw_union));
   (0xec3c3c7a, (str "alignas", kw_alignas));
   (0xf5a30fe6, (str "goto", kw_goto));
   (0xf6522276, (str "constinit", kw_constinit));
   (0xf874ca49, (str "co_yield", kw_co_yield));
   (0xfb080cb3, (str "export", kw_export));
   (0xfb9673de, (str "static_assert", kw_static_assert));
   (0xfbd4eefd, (str "operator", kw_operator))].

Definition keyword_kind (value : list byte) : token_kind :=
  match list_find (fun c => c.1 = spelling_hash value) keyword_cases with
  | Some (_, (_, (word, kind))) => if bool_decide (value = word) then kind else tk_identifier
  | None => tk_identifier
  end.

Definition directive_kind (value : list byte) : token_kind :=
  if bool_decide (value = str "include") then pp_include
  else if bool_decide (value = str "define") then pp_define
  else if bool_decide (value = str "undef") then pp_undef
  else if bool_decide (value = str "if") then pp_if
  else if bool_decide (value = str "ifdef") then pp_ifdef
  else if bool_decide (value = str "ifndef") then pp_ifndef
  else if bool_decide (value = str "elif") then pp_elif
  else if bool_decide (value = str "else") then pp_else
  else if bool_decide (value = str "endif") then pp_endif
  else if bool_decide (value = str "line") then pp_line
  else if bool_decide (value = str "error") then pp_error
  else if bool_decide (value = str "pragma") then pp_pragma
  else pp_unknown.

(** The words of the switch. *)
Definition keyword_table : list (list byte * token_kind) := snd <$> keyword_cases.

Lemma case_hashes : Forall (fun c => c.1 = spelling_hash c.2.1) keyword_cases.
Proof. repeat constructor. Qed.

Lemma case_words_distinct : NoDup (fst <$> keyword_table).
Proof. apply (bool_decide_unpack _). vm_compute. done. Qed.

Lemma case_hashes_distinct : NoDup (fst <$> keyword_cases).
Proof. apply (bool_decide_unpack _). vm_compute. done. Qed.

(** The hash switch recognises exactly the words of the keyword table: every
    word has its kind, so each of the hash constants is the hash of its word, and
    any other spelling, colliding or not, is an identifier. *)
Theorem keyword_switch_correct (value : list byte) :
  keyword_kind value
  = match list_find (fun row => row.1 = value) keyword_table with
    | Some (_, (_, kind)) => kind
    | None => tk_identifier
    end.
Proof.
  unfold keyword_kind. pose proof case_hashes as Hh. rewrite Forall_forall in Hh.
  destruct (list_find _ keyword_table) as [[i [w k]]|] eqn:Et.
  - apply list_find_Some in Et as (Hi & Hw & _). simpl in Hw. subst w.
    unfold keyword_table in Hi. rewrite list_lookup_fmap in Hi.
    destruct (keyword_cases !! i) as [[h [w k']]|] eqn:Ei; [|done]. simpl in Hi. simplify_eq.
    pose proof (Hh _ (list_elem_of_lookup_2 _ _ _ Ei)) as Hhash. simpl in Hhash.
    destruct (list_find _ keyword_cases) as [[j [h' [w' k']]]|] eqn:Ec.
    + apply list_find_Some in Ec as (Hj & Hhj & _). simpl in Hhj.
      assert (j = i) as ->.
      { apply (NoDup_lookup _ _ _ h case_hashes_distinct); rewrite list_lookup_fmap, ?Hj, ?Ei;
          simpl; congruence. }
      rewrite Ei in Hj. simplify_eq. by rewrite bool_decide_true.
    + rewrite list_find_None, Forall_forall in Ec. exfalso.
      by apply (Ec _ (list_elem_of_lookup_2 _ _ _ Ei)).
  - destruct (list_find _ keyword_cases) as [[j [h' [w' k']]]|] eqn:Ec; [|done].
    apply list_find_Some in Ec as (Hj & _ & _). rewrite bool_decide_false; [done|].
    intros ->. rewrite list_find_None, Forall_forall in Et. apply (Et (w', k')); [|done].
    unfold keyword_table. apply list_elem_of_fmap. exists (h', (w', k')).
    split; [done|by eapply list_elem_of_lookup_2].
Qed.

(** ** Positions *)

Definition newline_char (c : byte) : bool := is_char c x0a || is_char c x0d.

(** The length of the newline at the head of the remaining bytes. *)
Definition newline_prefix (l : list byte) : option nat :=
  match l with
  | [] => None
  | c :: l =>
      if is_char c x0a then Some 1%nat
      else if is_char c x0d then
        Some (match l with c :: _ => if is_char c x0a then 2%nat else 1%nat | [] => 1%nat end)
      else None
  end.

Definition newline_at (source : list byte) (position : nat) : option nat :=
  newline_prefix (drop position source).

Fixpoint starts_with (value l : list byte) : bool :=
  match value, l with
  | [], _ => true
  | _, [] => false
  | v :: value, c :: l => is_char c v && starts_with value l
  end.

Definition match_at (source : list byte) (position : nat) (value : list byte) : bool :=
  (position <=? length source)%nat && starts_with value (drop position source).

(** [while (position < source.size() && p(source[position])) ++position;] as the
    number of steps over the remaining bytes. *)
Fixpoint run_length (p : byte -> bool) (l : list byte) : nat :=
  match l with
  | [] => O
  | c :: l => if p c then S (run_length p l) else O
  end.

(** ** Literals *)

(** The loop of [scan_quoted] from [position], with the remaining bytes [l]; the
    number is the out-parameter [end]. *)
Fixpoint quoted_loop (quote : byte) (l : list byte) (position : nat) : server_status * nat :=
  match l with
  | [] => (project_configuration_invalid, O)
  | c :: rest =>
      if bool_decide (is_Some (newline_prefix l)) then (project_configuration_invalid, O)
      else if is_char c "\" then
        match rest with
        | [] => (project_configuration_invalid, O)
        | _ :: after =>
            if bool_decide (is_Some (newline_prefix rest)) then (unsupported, O)
            else quoted_loop quote after (position + 2)
        end
      else if is_char c quote then (success, (position + 1)%nat)
      else quoted_loop quote rest (position + 1)
  end.

Definition scan_quoted (source : list byte) (quote_position : nat) : server_status * nat :=
  quoted_loop (source !!! quote_position) (drop (quote_position + 1) source)
    (quote_position + 1).

(** The delimiter loop: the distance to the opening parenthesis, or nothing when
    the code returns an error. *)
Fixpoint delimiter_loop (l : list byte) (size : nat) : option nat :=
  match l with
  | [] => None
  | c :: rest =>
      if is_char c "(" then Some size
      else if (16 <=? size)%nat || is_char c ")" || is_char c "\" || horizontal_space c ||
              bool_decide (is_Some (newline_prefix l))
      then None
      else delimiter_loop rest (S size)
  end.

(** The search of the closing parenthesis. *)
Fixpoint raw_loop (delimiter l : list byte) (position : nat) : server_status * nat :=
  match l with
  | [] => (project_configuration_invalid, O)
  | c :: rest =>
      if is_char c ")" && starts_with delimiter rest &&
         starts_with [x22] (drop (length delimiter) rest)
      then (success, (position + 1 + length delimiter + 1)%nat)
      else raw_loop delimiter rest (position + 1)
  end.

Definition scan_raw_string (source : list byte) (raw_r_position : nat) : server_status * nat :=
  let quote_position := (raw_r_position + 1)%nat in
  if negb (starts_with [x22] (drop quote_position source))
  then (project_configuration_invalid, O)
  else
    let delimiter_begin := (quote_position + 1)%nat in
    match delimiter_loop (drop delimiter_begin source) 0 with
    | None => (project_configuration_invalid, O)
    | Some size =>
        let open := (delimiter_begin + size)%nat in
        raw_loop (slice delimiter_begin open source) (drop (open + 1) source) (open + 1)
    end.

Record literal_start := LiteralStart {
  literal_kind : token_kind;
  quote_position : nat;
  raw_r_position : nat
}.

Definition no_literal : literal_start := LiteralStart tk_invalid 0 0.

Definition detect_literal (source : list byte) (position : nat) : literal_start :=
  let quoted_kind at_position :=
    if is_char (source !!! at_position) x22
    then tk_string_literal else tk_character_literal in
  let at_quote at_position :=
    is_char (source !!! at_position) x22 || is_char (source !!! at_position) x27 in
  if (length source <=? position)%nat then no_literal
  else if is_char (source !!! position) x22
  then LiteralStart tk_string_literal position 0
  else if is_char (source !!! position) x27
  then LiteralStart tk_character_literal position 0
  else if match_at source position [x52; x22]
  then LiteralStart tk_raw_string_literal (position + 1) position
  else if match_at source position [x75; x38; x52; x22]
  then LiteralStart tk_raw_string_literal (position + 3) (position + 2)
  else if match_at source position [x75; x52; x22] ||
          match_at source position [x55; x52; x22] ||
          match_at source position [x4c; x52; x22]
  then LiteralStart tk_raw_string_literal (position + 2) (position + 1)
  else if match_at source position [x75; x38; x22] ||
          match_at source position [x75; x38; x27]
  then LiteralStart (quoted_kind (position + 2)%nat) (position + 2) 0
  else if (is_char (source !!! position) "u" || is_char (source !!! position) "U" ||
           is_char (source !!! position) "L") &&
          (position + 1 <? length source)%nat && at_quote (position + 1)%nat
  then LiteralStart (quoted_kind (position + 1)%nat) (position + 1) 0
  else no_literal.

(** ** Numbers *)

Definition exponent_char (c : byte) : bool :=
  is_char c "e" || is_char c "E" || is_char c "p" || is_char c "P".
Definition sign_char (c : byte) : bool := is_char c "+" || is_char c "-".
Definition number_char (c : byte) : bool :=
  identifier_next c || is_char c "." || is_char c x27.

(** The loop of [scan_pp_number]: the number of steps over the remaining bytes. *)
Fixpoint number_loop (previous : byte) (l : list byte) : nat :=
  match l with
  | [] => O
  | c :: l =>
      if number_char c then S (number_loop c l)
      else if sign_char c && exponent_char previous then S (number_loop c l)
      else O
  end.

Definition scan_pp_number (source : list byte) (position : nat) : nat :=
  let current := (position + 1)%nat in
  (current + number_loop (source !!! position) (drop current source))%nat.

(** ** Punctuation *)

Definition or_else {A} (a b : option A) : option A :=
  match a with Some _ => a | None => b end.

Definition punctuation (source : list byte) (position : nat) : option (token_kind * nat) :=
  let c := source !!! position in
  let one kind := Some (kind, 1%nat) in
  let two expected kind :=
    if starts_with [expected] (drop (position + 1) source) then Some (kind, 2%nat) else None in
  let three value kind :=
    if match_at source position value then Some (kind, 3%nat) else None in
  if is_char c "{" then one tk_l_brace
  else if is_char c "}" then one tk_r_brace
  else if is_char c "[" then one tk_l_bracket
  else if is_char c "]" then one tk_r_bracket
  else if is_char c "(" then one tk_l_paren
  else if is_char c ")" then one tk_r_paren
  else if is_char c ";" then one tk_semicolon
  else if is_char c "," then one tk_comma
  else if is_char c "?" then one tk_question
  else if is_char c "~" then one tk_tilde
  else if is_char c ":" then or_else (two ":"%byte tk_scope) (one tk_colon)
  else if is_char c "." then
    or_else (three (str "...") tk_ellipsis)
      (or_else (two "*"%byte tk_dot_star) (one tk_dot))
  else if is_char c "#" then or_else (two "#"%byte tk_hash_hash) (one tk_hash)
  else if is_char c "+" then
    or_else (two "+"%byte tk_plus_plus) (or_else (two "="%byte tk_plus_assign) (one tk_plus))
  else if is_char c "-" then
    or_else (three (str "->*") tk_arrow_star)
      (or_else (two "-"%byte tk_minus_minus)
        (or_else (two ">"%byte tk_arrow)
          (or_else (two "="%byte tk_minus_assign) (one tk_minus))))
  else if is_char c "*" then or_else (two "="%byte tk_star_assign) (one tk_star)
  else if is_char c "/" then or_else (two "="%byte tk_slash_assign) (one tk_slash)
  else if is_char c "%" then or_else (two "="%byte tk_percent_assign) (one tk_percent)
  else if is_char c "^" then or_else (two "="%byte tk_caret_assign) (one tk_caret)
  else if is_char c "&" then
    or_else (two "&"%byte tk_logical_and)
      (or_else (two "="%byte tk_ampersand_assign) (one tk_ampersand))
  else if is_char c "|" then
    or_else (two "|"%byte tk_logical_or)
      (or_else (two "="%byte tk_pipe_assign) (one tk_pipe))
  else if is_char c "!" then or_else (two "="%byte tk_not_equal) (one tk_exclamation)
  else if is_char c "=" then or_else (two "="%byte tk_equal) (one tk_assign)
  else if is_char c "<" then
    or_else (three (str "<=>") tk_spaceship)
      (or_else (three (str "<<=") tk_shift_left_assign)
        (or_else (two "<"%byte tk_shift_left)
          (or_else (two "="%byte tk_less_equal) (one tk_less))))
  else if is_char c ">" then
    or_else (three (str ">>=") tk_shift_right_assign)
      (or_else (two ">"%byte tk_shift_right)
        (or_else (two "="%byte tk_greater_equal) (one tk_greater)))
  else None.

(** The punctuators by decreasing length. *)
Definition punctuators : list (list byte * token_kind) :=
  [(str "...", tk_ellipsis); (str "->*", tk_arrow_star); (str "<=>", tk_spaceship);
   (str "<<=", tk_shift_left_assign); (str ">>=", tk_shift_right_assign);
   (str "::", tk_scope); (str ".*", tk_dot_star); (str "##", tk_hash_hash);
   (str "++", tk_plus_plus); (str "+=", tk_plus_assign); (str "--", tk_minus_minus);
   (str "->", tk_arrow); (str "-=", tk_minus_assign); (str "*=", tk_star_assign);
   (str "/=", tk_slash_assign); (str "%=", tk_percent_assign); (str "^=", tk_caret_assign);
   (str "&&", tk_logical_and); (str "&=", tk_ampersand_assign); (str "||", tk_logical_or);
   (str "|=", tk_pipe_assign); (str "!=", tk_not_equal); (str "==", tk_equal);
   (str "<<", tk_shift_left); (str "<=", tk_less_equal); (str ">>", tk_shift_right);
   (str ">=", tk_greater_equal);
   (str "{", tk_l_brace); (str "}", tk_r_brace); (str "[", tk_l_bracket);
   (str "]", tk_r_bracket); (str "(", tk_l_paren); (str ")", tk_r_paren);
   (str ";", tk_semicolon); (str ",", tk_comma); (str "?", tk_question);
   (str "~", tk_tilde); (str ":", tk_colon); (str ".", tk_dot); (str "#", tk_hash);
   (str "+", tk_plus); (str "-", tk_minus); (str "*", tk_star); (str "/", tk_slash);
   (str "%", tk_percent); (str "^", tk_caret); (str "&", tk_ampersand);
   (str "|", tk_pipe); (str "!", tk_exclamation); (str "=", tk_assign);
   (str "<", tk_less); (str ">", tk_greater)].

(** The first entry whose text the bytes start with. *)
Fixpoint first_entry (table : list (list byte * token_kind)) (l : list byte)
  : option (token_kind * nat) :=
  match table with
  | [] => None
  | (text, kind) :: table =>
      if starts_with text l then Some (kind, length text) else first_entry table l
  end.

Lemma punctuation_first source position c l :
  drop position source = c :: l ->
  punctuation source position = first_entry punctuators (c :: l).
Proof.
  intros Hd.
  assert (position < length source)%nat as Hlt.
  { apply (f_equal length) in Hd. rewrite length_drop in Hd. simpl in Hd. lia. }
  assert (source !!! position = c) as Hc.
  { apply list_lookup_total_correct. rewrite <- (Nat.add_0_r position), <- lookup_drop, Hd. done. }
  assert (drop (position + 1) source = l) as Hl by by rewrite <- drop_drop, Hd.
  unfold punctuation, match_at. rewrite Hc, Hl, Hd, (proj2 (Nat.leb_le _ _)) by lia.
  clear. destruct c; try reflexivity;
    unfold punctuators; cbn [first_entry starts_with str String.list_byte_of_string length];
    repeat match goal with
    | |- context [is_char ?a ?b] =>
        is_ground a;
        let v := eval vm_compute in (is_char a b) in change (is_char a b) with v; cbn [andb]
    end; cbn [or_else];
    destruct l as [|c l]; cbn; try reflexivity; repeat (case_match; try reflexivity).
Qed.

Lemma starts_with_prefix value l : starts_with value l = true <-> value `prefix_of` l.
Proof.
  revert l. induction value as [|v value IH]; intros l; simpl.
  { split; [intros _; apply prefix_nil|done]. }
  destruct l as [|c l].
  { split; [done|]. intros [k Hk]. done. }
  unfold is_char. rewrite bz_eqb, andb_true_iff, bool_decide_eq_true, IH. split.
  - intros [-> ?]. by apply prefix_cons.
  - intros Hp. split; [by apply prefix_cons_inv_1 in Hp|by eapply prefix_cons_inv_2].
Qed.

Definition longest_first (table : list (list byte * token_kind)) : Prop :=
  StronglySorted (fun a b => (length b.1 <= length a.1)%nat) table.

Lemma punctuators_sorted : longest_first punctuators.
Proof. unfold longest_first, punctuators. repeat constructor. Qed.

(** [n] bytes of [l] spell the longest punctuator at its head. *)
Definition longest_punctuator (l : list byte) (kind : token_kind) (n : nat) : Prop :=
  exists text, (text, kind) ∈ punctuators /\ text `prefix_of` l /\ length text = n /\
    forall other kind', (other, kind') ∈ punctuators -> other `prefix_of` l ->
      (length other <= n)%nat.

Lemma first_entry_spec table l :
  longest_first table ->
  match first_entry table l with
  | Some (kind, n) => exists text, (text, kind) ∈ table /\ text `prefix_of` l /\
      length text = n /\
      forall other kind', (other, kind') ∈ table -> other `prefix_of` l ->
        (length other <= n)%nat
  | None => forall text kind, (text, kind) ∈ table -> ~ text `prefix_of` l
  end.
Proof.
  induction 1 as [|[text kind] table Hs IH Hle]; simpl.
  { intros text kind H. by apply elem_of_nil in H. }
  destruct (starts_with text l) eqn:E.
  - apply starts_with_prefix in E. exists text. split; [apply list_elem_of_here|].
    split; [done|]. split; [done|]. intros other kind' [Heq|Hin]%elem_of_cons _.
    + by simplify_eq.
    + rewrite Forall_forall in Hle. apply (Hle _ Hin).
  - assert (~ text `prefix_of` l) as Hn by by rewrite <- starts_with_prefix, E.
    destruct (first_entry table l) as [[kind' n]|].
    + destruct IH as (text' & Hin & Hp & Hlen & Hmax). exists text'.
      split; [by apply list_elem_of_further|]. split; [done|]. split; [done|].
      intros other k [Heq|Ho]%elem_of_cons Hop; [by simplify_eq|by eapply Hmax].
    + intros other k [Heq|Ho]%elem_of_cons; [by simplify_eq|by eapply IH].
Qed.

(** Punctuation is scanned by maximal munch: a result is the longest of the 52
    punctuators that the source spells at the position, and there is no result
    exactly when it spells none. *)
Theorem punctuation_longest_match (source : list byte) (position : nat) :
  (position < length source)%nat ->
  match punctuation source position with
  | Some (kind, n) => longest_punctuator (drop position source) kind n
  | None => forall text kind, (text, kind) ∈ punctuators ->
      ~ text `prefix_of` drop position source
  end.
Proof.
  intros Hlt. destruct (drop position source) as [|c l] eqn:Hd.
  { apply (f_equal length) in Hd. rewrite length_drop in Hd. simpl in Hd. lia. }
  rewrite (punctuation_first source position c l Hd).
  apply (first_entry_spec punctuators (c :: l) punctuators_sorted).
Qed.

Lemma punctuation_longest_match_witness :
  match punctuation (str "a<<=b") 1 with
  | Some (kind, n) => longest_punctuator (drop 1 (str "a<<=b")) kind n
  | None => forall text kind, (text, kind) ∈ punctuators -> ~ text `prefix_of` drop 1 (str "a<<=b")
  end /\ punctuation (str "a<<=b") 1 = Some (tk_shift_left_assign, 3%nat).
Proof. split; [apply (punctuation_longest_match (str "a<<=b") 1); vm_compute; lia|done]. Defined.
