(* ===== verification/LexerText.v ===== *)
(** The texts of C++ tokens as grammars, independent of the scanners, and the
    lemmas that each scanner of project/frontend/lexer.cpp takes from the head of
    the remaining bytes a text of its grammar that cannot be extended. *)

From S2P Require Import Prelude ServerStatus LexicalToken LexerScan.

(** ** Characters and runs *)

Lemma is_char_eq c d : is_char c d = true <-> c = d.
Proof. unfold is_char. rewrite bz_eqb. apply bool_decide_eq_true. Qed.

Lemma is_char_ne c d : is_char c d = false <-> c <> d.
Proof. unfold is_char. rewrite bz_eqb. apply bool_decide_eq_false. Qed.

Lemma newline_prefix_some c l :
  bool_decide (is_Some (newline_prefix (c :: l))) = newline_char c.
Proof.
  unfold newline_char. simpl. destruct (is_char c x0a); [done|]. by destruct (is_char c x0d).
Qed.

(** The bytes do not go on with a character of the class. *)
Definition stops (p : byte -> bool) (l : list byte) : Prop :=
  match l with [] => True | c :: _ => p c = false end.

Lemma run_length_spec p l :
  exists a b, l = a ++ b /\ length a = run_length p l /\ Forall (fun c => p c = true) a /\
    stops p b.
Proof.
  induction l as [|c l (a & b & -> & Hlen & Ha & Hb)]; simpl.
  { exists [], []. done. }
  destruct (p c) eqn:E.
  - exists (c :: a), b. split; [done|]. simpl. rewrite Hlen. auto.
  - exists [], (c :: a ++ b). done.
Qed.

(** ** Identifiers *)

Inductive identifier_text : list byte -> Prop :=
| identifier_intro c l :
    identifier_first c = true -> Forall (fun c => identifier_next c = true) l ->
    identifier_text (c :: l).

(** ** Numbers *)

(** The preprocessing numbers of the standard's grammar. *)
Inductive number_text : list byte -> Prop :=
| number_digit d : ascii_digit d = true -> number_text [d]
| number_fraction d : ascii_digit d = true -> number_text ["."%byte; d]
| number_more l c : number_text l -> number_char c = true -> number_text (l ++ [c])
| number_exponent l e s :
    number_text (l ++ [e]) -> exponent_char e = true -> sign_char s = true ->
    number_text (l ++ [e; s]).

(** No number that ends with [previous] goes on with the bytes. *)
Definition number_stops (previous : byte) : list byte -> Prop :=
  stops (fun c => number_char c || sign_char c && exponent_char previous).

Lemma last_cons_default (c d : byte) l : List.last (c :: l) d = List.last l c.
Proof. revert c d. induction l as [|x l IH]; intros c d; [done|].
  change (List.last (x :: l) d = List.last (x :: l) c). by rewrite !IH. Qed.

Lemma number_loop_spec l pre previous :
  number_text (pre ++ [previous]) ->
  exists a b, l = a ++ b /\ length a = number_loop previous l /\
    number_text (pre ++ previous :: a) /\ number_stops (List.last a previous) b.
Proof.
  revert pre previous. induction l as [|c l IH]; intros pre previous Hn; simpl.
  { exists [], []. done. }
  assert (forall b, b = true -> number_text ((pre ++ [previous]) ++ [c]) ->
    exists a r, c :: l = a ++ r /\ length a = (if b then S (number_loop c l) else O) /\
      number_text (pre ++ previous :: a) /\ number_stops (List.last a previous) r) as Hgo.
  { intros b -> Hc. destruct (IH _ _ Hc) as (a & r & -> & Hlen & Ha & Hr).
    exists (c :: a), r. split; [done|]. split; [simpl; lia|].
    split; [by rewrite <- app_assoc in Ha|by rewrite last_cons_default]. }
  destruct (number_char c) eqn:Ec.
  { apply (Hgo true); [done|]. by apply number_more. }
  destruct (sign_char c && exponent_char previous) eqn:Es.
  { apply (Hgo true); [done|]. unbool. rewrite <- app_assoc. by apply number_exponent. }
  exists [], (c :: l). split; [done|]. split; [done|]. split; [done|].
  unfold number_stops, stops. simpl. by rewrite Ec, Es.
Qed.

(** ** Quoted literals *)

(** What stands between the quotes. *)
Inductive quoted_body (quote : byte) : list byte -> Prop :=
| quoted_nil : quoted_body quote []
| quoted_plain c l :
    newline_char c = false -> c <> "\"%byte -> c <> quote ->
    quoted_body quote l -> quoted_body quote (c :: l)
| quoted_escape c l :
    newline_char c = false -> quoted_body quote l -> quoted_body quote ("\"%byte :: c :: l).

(** Every failure of a literal scanner is one of these. *)
Definition scan_failure (status : server_status) : Prop :=
  status = project_configuration_invalid \/ status = unsupported.

Lemma quoted_loop_spec n quote l position :
  (length l <= n)%nat ->
  let (status, last) := quoted_loop quote l position in
  status = success /\
    (exists body rest, l = body ++ quote :: rest /\ quoted_body quote body /\
       last = (position + length body + 1)%nat) \/
  scan_failure status.
Proof.
  revert l position. induction n as [|n IH]; intros [|c l] position Hn; simpl in Hn; try lia;
    try (simpl; by right; left).
  cbn [quoted_loop]. rewrite newline_prefix_some.
  destruct (newline_char c) eqn:Enl; [by right; left|].
  destruct (is_char c "\") eqn:Eb.
  - apply is_char_eq in Eb as ->. destruct l as [|c l]; [by right; left|].
    rewrite newline_prefix_some. destruct (newline_char c) eqn:Ec; [by right; right|].
    simpl in Hn. specialize (IH l (position + 2)%nat ltac:(lia)).
    destruct (quoted_loop quote l (position + 2)) as [status last].
    destruct IH as [(-> & body & rest & -> & Hb & ->)|?]; [left|by right].
    split; [done|]. exists ("\"%byte :: c :: body), rest. split; [done|].
    split; [by constructor|]. simpl. lia.
  - apply is_char_ne in Eb. destruct (is_char c quote) eqn:Eq.
    + apply is_char_eq in Eq as ->. left. split; [done|]. exists [], l.
      split; [done|]. split; [constructor|]. simpl. lia.
    + apply is_char_ne in Eq. specialize (IH l (position + 1)%nat ltac:(lia)).
      destruct (quoted_loop quote l (position + 1)) as [status last].
      destruct IH as [(-> & body & rest & -> & Hb & ->)|?]; [left|by right].
      split; [done|]. exists (c :: body), rest. split; [done|].
      split; [by constructor|]. simpl. lia.
Qed.

(** ** Raw string literals *)

Definition delimiter_char (c : byte) : Prop :=
  c <> "("%byte /\ c <> ")"%byte /\ c <> "\"%byte /\ horizontal_space c = false /\
  newline_char c = false.

Definition raw_closing (delimiter : list byte) : list byte :=
  ")"%byte :: delimiter ++ [x22].

(** The body ends at the first place where the closing sequence stands. *)
Definition first_closing (delimiter body : list byte) : Prop :=
  forall before after,
    body ++ raw_closing delimiter = before ++ raw_closing delimiter ++ after -> after = [].

Lemma delimiter_loop_spec l size n :
  delimiter_loop l size = Some n ->
  exists d rest, l = d ++ "("%byte :: rest /\ n = (size + length d)%nat /\ Forall delimiter_char d /\
    (size + length d <= 16 \/ d = [])%nat.
Proof.
  revert size. induction l as [|c l IH]; intros size; [done|]. cbn [delimiter_loop].
  rewrite newline_prefix_some. destruct (is_char c "(") eqn:Eo.
  { apply is_char_eq in Eo as ->. intros [= <-]. exists [], l. simpl.
    split; [done|]. split; [lia|]. split; [constructor|auto]. }
  destruct (_ || _) eqn:E; [done|]. unbool. intros Hd.
  destruct (IH _ Hd) as (d & rest & -> & -> & Hall & Hle). exists (c :: d), rest.
  split; [done|]. split; [simpl; lia|]. split.
  - constructor; [|done]. unfold delimiter_char. rewrite <- !is_char_ne. done.
  - left. simpl. destruct Hle as [?| ->]; simpl; lia.
Qed.

Lemma raw_loop_spec delimiter l position :
  let (status, last) := raw_loop delimiter l position in
  status = success /\
    (exists body rest, l = body ++ raw_closing delimiter ++ rest /\
       first_closing delimiter body /\
       last = (position + length body + length (raw_closing delimiter))%nat) \/
  scan_failure status.
Proof.
  revert position. induction l as [|c l IH]; intros position; [by right; left|].
  cbn [raw_loop]. destruct (is_char c ")" && _ && _) eqn:E.
  - left. split; [done|]. unbool. rename select (is_char c ")" = true) into Ec.
    rename select (starts_with delimiter l = true) into Ed.
    apply is_char_eq in Ec as ->. apply starts_with_prefix in Ed as [rest ->].
    rename select (starts_with [x22] _ = true) into Eq. rewrite drop_app_length in Eq.
    apply starts_with_prefix in Eq as [rest' ->]. exists [], rest'.
    unfold raw_closing. split; [simpl; by rewrite <- app_assoc|].
    split; [|cbn [length]; rewrite length_app; simpl; lia].
    intros before after Heq. apply (f_equal length) in Heq. rewrite !length_app in Heq.
    simpl in Heq. destruct after; [done|]. simpl in Heq. lia.
  - specialize (IH (position + 1)%nat).
    destruct (raw_loop delimiter l (position + 1)) as [status last].
    destruct IH as [(-> & body & rest & -> & Hb & ->)|?]; [left|by right].
    split; [done|]. exists (c :: body), rest. split; [done|]. split; [|simpl; lia].
    intros [|b before] after Heq; [|simplify_eq/=; by eapply Hb].
    exfalso. assert (is_char c ")" && starts_with delimiter (body ++ raw_closing delimiter ++ rest)
      && starts_with [x22] (drop (length delimiter) (body ++ raw_closing delimiter ++ rest))
      = true) as Ht; [|congruence].
    rewrite (app_assoc body). unfold raw_closing in Heq at 2. simplify_eq/=.
    rename select (_ = _) into Heq. rewrite Heq, <- !app_assoc.
    rewrite (proj2 (starts_with_prefix _ _)) by by eexists. by rewrite drop_app_length.
Qed.

(** ** Recognising a literal by its first bytes *)

(** The encoding prefixes with the quote that follows. *)
Definition literal_openings : list (list byte * token_kind) :=
  [([x22], tk_string_literal); ([x27], tk_character_literal);
   ([x52; x22], tk_raw_string_literal); ([x75; x38; x52; x22], tk_raw_string_literal);
   ([x75; x52; x22], tk_raw_string_literal); ([x55; x52; x22], tk_raw_string_literal);
   ([x4c; x52; x22], tk_raw_string_literal);
   ([x75; x38; x22], tk_string_literal); ([x75; x38; x27], tk_character_literal);
   ([x75; x22], tk_string_literal); ([x75; x27], tk_character_literal);
   ([x55; x22], tk_string_literal); ([x55; x27], tk_character_literal);
   ([x4c; x22], tk_string_literal); ([x4c; x27], tk_character_literal)].

Definition opened_literal (position : nat) (entry : option (token_kind * nat)) : literal_start :=
  match entry with
  | None => no_literal
  | Some (kind, n) =>
      LiteralStart kind (position + (n - 1))
        (if bool_decide (kind = tk_raw_string_literal) then position + (n - 2) else 0)%nat
  end.

Lemma lookup_total_from (source l : list byte) position k :
  drop position source = l -> source !!! (position + k)%nat = l !!! k.
Proof. intros <-. by rewrite !list_lookup_total_alt, lookup_drop. Qed.

Lemma drop_ahead (source l : list byte) position k :
  drop position source = l -> drop (position + k) source = drop k l.
Proof. intros <-. by rewrite drop_drop. Qed.

Lemma length_from (source l : list byte) position :
  drop position source = l -> (position <= length source)%nat ->
  length source = (position + length l)%nat.
Proof. intros <- ?. rewrite length_drop. lia. Qed.

(** Closes the equation once the bytes that decide it are known. *)
Ltac literal_known := cbv -[Nat.add]; rewrite ?Nat.add_0_r; reflexivity.

Lemma detect_opening source position c l :
  drop position source = c :: l ->
  detect_literal source position = opened_literal position (first_entry literal_openings (c :: l)).
Proof.
  intros Hd. assert (length source = (position + S (length l)))%nat as Hlen.
  { apply (f_equal length) in Hd. rewrite length_drop in Hd. simpl in Hd. lia. }
  pose proof (lookup_total_from source _ position 0 Hd) as H0. rewrite Nat.add_0_r in H0.
  unfold detect_literal, match_at.
  rewrite Hlen, Hd, H0, !(lookup_total_from source _ position _ Hd).
  rewrite (proj2 (Nat.leb_gt _ _)), (proj2 (Nat.leb_le _ _)) by lia.
  replace (position + 1 <? position + S (length l))%nat with (1 <? S (length l))%nat
    by (destruct (Nat.ltb_spec 1 (S (length l)));
        [symmetry; apply Nat.ltb_lt; lia|symmetry; apply Nat.ltb_ge; lia]).
  clear. destruct c; try reflexivity; try literal_known;
    (destruct l as [|c l]; [reflexivity|]; destruct c; try reflexivity; try literal_known);
    (destruct l as [|c l]; [reflexivity|]; destruct c; try reflexivity; try literal_known);
    (destruct l as [|c l]; [reflexivity|]; destruct c; reflexivity).
Qed.

(** The text of a literal: its opening from the table, and then the quoted body, or
    the delimiter, the parenthesised raw body and the delimiter again. *)
Inductive literal_text : token_kind -> list byte -> Prop :=
| literal_quoted prefix quote kind body :
    (prefix ++ [quote], kind) ∈ literal_openings -> kind <> tk_raw_string_literal ->
    quoted_body quote body -> literal_text kind ((prefix ++ [quote]) ++ body ++ [quote])
| literal_raw prefix delimiter body :
    (prefix ++ [x22], tk_raw_string_literal) ∈ literal_openings ->
    (length delimiter <= 16)%nat -> Forall delimiter_char delimiter ->
    first_closing delimiter body ->
    literal_text tk_raw_string_literal
      ((prefix ++ [x22]) ++ delimiter ++ "("%byte :: body ++ raw_closing delimiter).

(** Choosing the scanner, as [tokenize] does. *)
Definition scan_literal (source : list byte) (literal : literal_start) : server_status * nat :=
  if bool_decide (literal_kind literal = tk_raw_string_literal)
  then scan_raw_string source (raw_r_position literal)
  else scan_quoted source (quote_position literal).

Lemma openings_end :
  Forall (fun e => e.1 = removelast e.1 ++ [List.last e.1 x00] /\ e.2 <> tk_invalid /\
    (e.2 = tk_raw_string_literal -> List.last e.1 x00 = x22 /\ (2 <= length e.1)%nat))
    literal_openings.
Proof. repeat constructor; simpl; try done; intros; simpl; lia. Qed.

Lemma first_entry_spec_in table l :
  match first_entry table l with
  | Some (kind, n) => exists text rest, (text, kind) ∈ table /\ l = text ++ rest /\ n = length text
  | None => forall text kind, (text, kind) ∈ table -> ~ text `prefix_of` l
  end.
Proof.
  induction table as [|[text kind] table IH]; simpl.
  { intros text kind H. by apply elem_of_nil in H. }
  destruct (starts_with text l) eqn:E.
  - apply starts_with_prefix in E as [rest ->]. exists text, rest.
    split; [apply list_elem_of_here|done].
  - assert (~ text `prefix_of` l) as Hn by by rewrite <- starts_with_prefix, E.
    destruct (first_entry table l) as [[kind' n]|].
    + destruct IH as (text' & rest & Hin & Hl). exists text', rest.
      split; [by apply list_elem_of_further|done].
    + intros other k [Heq|Ho]%elem_of_cons; [by simplify_eq|by eapply IH].
Qed.

(** No literal starts at the head of the bytes. *)
Definition no_literal_opening (l : list byte) : Prop :=
  forall opening kind, (opening, kind) ∈ literal_openings -> ~ opening `prefix_of` l.

Lemma scan_raw_spec source p prefix rest :
  drop p source = (prefix ++ [x22]) ++ rest -> (2 <= length (prefix ++ [x22]))%nat ->
  let (status, last) := scan_raw_string source (p + (length (prefix ++ [x22]) - 2)) in
  status = success /\
    (exists delimiter body rest',
       rest = delimiter ++ "("%byte :: body ++ raw_closing delimiter ++ rest' /\
       (length delimiter <= 16)%nat /\ Forall delimiter_char delimiter /\
       first_closing delimiter body /\
       last = (p + length (prefix ++ [x22]) + length delimiter + 1 + length body +
               length (raw_closing delimiter))%nat) \/
  scan_failure status.
Proof.
  intros Hd H2. unfold scan_raw_string. rewrite length_app in *. simpl in H2. cbn [length].
  replace (p + (length prefix + 1 - 2) + 1)%nat with (p + length prefix)%nat by lia.
  rewrite (drop_ahead source _ p _ Hd), <- app_assoc, drop_app_length.
  simpl starts_with. change (is_char x22 x22) with true. cbn [andb negb].
  replace (p + length prefix + 1)%nat with (p + length (prefix ++ [x22]))%nat
    by (rewrite length_app; simpl; lia).
  rewrite (drop_ahead source _ p _ Hd), drop_app_length.
  destruct (delimiter_loop rest 0) as [n|] eqn:Ed; [|by right; left].
  apply delimiter_loop_spec in Ed as (d & l & -> & -> & Hall & Hle). change (0 + length d)%nat with (length d).
  set (b := (p + length (prefix ++ [x22]))%nat).
  assert (slice b (b + length d) source = d) as ->.
  { unfold slice. subst b. rewrite (drop_ahead source _ p _ Hd), drop_app_length.
    replace (_ - _)%nat with (length d) by lia. apply take_app_length. }
  assert (drop (b + length d + 1) source = l) as Hl.
  { subst b. replace (p + length (prefix ++ [x22]) + length d + 1)%nat
      with (p + (length (prefix ++ [x22]) + (length d + 1)))%nat by lia.
    rewrite (drop_ahead source _ p _ Hd), <- drop_drop, drop_app_length, <- drop_drop,
      drop_app_length. done. }
  rewrite Hl.
  pose proof (raw_loop_spec d l (b + length d + 1)) as Hr.
  destruct (raw_loop d l (b + length d + 1)) as [status last].
  destruct Hr as [(-> & body & rest' & -> & Hb & ->)|?]; [left|by right].
  split; [done|]. exists d, body, rest'. split; [done|].
  split; [destruct Hle as [?| ->]; simpl in *; lia|]. split; [done|]. split; [done|].
  subst b. rewrite length_app. simpl. lia.
Qed.

Lemma scan_literal_spec source position c l :
  drop position source = c :: l ->
  let literal := detect_literal source position in
  literal_kind literal = tk_invalid /\ no_literal_opening (c :: l) \/
  literal_kind literal <> tk_invalid /\
  let (status, last) := scan_literal source literal in
  status = success /\
    (exists text rest, c :: l = text ++ rest /\ literal_text (literal_kind literal) text /\
       text <> [] /\ last = (position + length text)%nat) \/
  scan_failure status.
Proof.
  intros Hd literal. subst literal. rewrite (detect_opening _ _ _ _ Hd).
  pose proof (first_entry_spec_in literal_openings (c :: l)) as Hf.
  destruct (first_entry literal_openings (c :: l)) as [[kind n]|]; [right|by left].
  destruct Hf as (opening & rest & Hin & Hl & ->). rewrite Hl in Hd. simpl.
  pose proof openings_end as Hall. rewrite Forall_forall in Hall.
  destruct (Hall _ Hin) as (Hend & Hk & Hraw). simpl in Hend, Hk, Hraw. split; [done|].
  revert Hend Hraw. generalize (removelast opening) (List.last opening x00).
  intros prefix quote -> Hraw. unfold scan_literal. simpl.
  rewrite Hl. case_bool_decide as Ek.
  - subst kind. destruct (Hraw eq_refl) as [-> H2].
    pose proof (scan_raw_spec source position prefix rest Hd H2) as Hs.
    destruct (scan_raw_string source _) as [status last].
    destruct Hs as [(-> & d & body & rest' & -> & Hle & Hd' & Hb & ->)|?]; [left|by right].
    split; [done|].
    exists ((prefix ++ [x22]) ++ d ++ "("%byte :: body ++ raw_closing d), rest'.
    split; [change ("("%byte :: body ++ raw_closing d) with (["("%byte] ++ body ++ raw_closing d);
      by rewrite <- !app_assoc|].
    split; [by constructor|]. split; [by destruct prefix|].
    rewrite !length_app. cbn [length]. rewrite !length_app. lia.
  - unfold scan_quoted. rewrite length_app. simpl length.
    rewrite (lookup_total_from source _ position _ Hd).
    replace (length prefix + 1 - 1)%nat with (length prefix) by lia.
    rewrite <- app_assoc, lookup_total_app_r by lia. rewrite Nat.sub_diag. simpl.
    replace (position + length prefix + 1)%nat with (position + length (prefix ++ [quote]))%nat
      by (rewrite length_app; simpl; lia).
    rewrite (drop_ahead source _ position _ Hd), drop_app_length.
    pose proof (quoted_loop_spec (length rest) quote rest
      (position + length (prefix ++ [quote])) (le_n _)) as Hq.
    destruct (quoted_loop quote rest _) as [status last].
    destruct Hq as [(-> & body & rest' & -> & Hb & ->)|?]; [left|by right].
    split; [done|]. exists ((prefix ++ [quote]) ++ body ++ [quote]), rest'.
    split; [by rewrite <- !app_assoc|].
    split; [by constructor|]. split; [by destruct prefix|].
    rewrite !length_app. simpl. lia.
Qed.
