(* ===== verification/Lexer.v ===== *)
(** The per-file lexer (project/frontend/lexer.hpp and lexer.cpp): [tokenize] as
    rounds over the source, writing into a [lexical_stream]; the grammar of a source
    file as the pieces that follow each other; and the theorems that [tokenize]
    always returns and that an accepted file reads as the tokens of its pieces. *)

From S2P Require Import Prelude ServerStatus LexicalToken LexicalStream LexerScan LexerText.

Local Open Scope Z_scope.

Inductive lexical_error_reason :=
| reason_none
| unsupported_non_ascii
| unsupported_line_splice
| unterminated_block_comment
| unterminated_literal
| unterminated_header_name
| invalid_character.

Record lexical_error := LexicalError {
  error_offset : Z;
  error_length : Z;
  error_reason : lexical_error_reason
}.

Definition no_lexical_error : lexical_error := LexicalError 0 0 reason_none.

(** The flags of the loop. *)
Record lex_mode := Mode {
  line_start : bool;
  in_directive : bool;
  include_header_pending : bool
}.

Definition fresh_line : lex_mode := Mode true false false.

Record lex_state := LexState {
  position : nat;
  mode : lex_mode;
  output : lexical_stream
}.

(** A round goes on or returns from [tokenize]. *)
Inductive lex_step :=
| Continue (s : lex_state)
| Return (status : server_status) (error : lexical_error) (output : lexical_stream).

(** [allocated] gives the outcomes of the two allocations of an [append], by the
    number of tokens the stream already holds. *)
Section Tokenize.
Context (allocated : Z -> bool * bool) (source : list byte).

Definition emit (kind : token_kind) (offset len : nat) (out : lexical_stream)
  : option (server_status * lexical_stream) :=
  let (directives_allocated, words_allocated) := allocated (tokens out) in
  append kind (u32 (Z.of_nat offset)) (u32 (Z.of_nat len))
    directives_allocated words_allocated out.

(** [if (!succeeded(status)) return status;] after an [emit]. *)
Definition emit_then (kind : token_kind) (offset len : nat) (out : lexical_stream)
    (next : lexical_stream -> option lex_step) : option lex_step :=
  match emit kind offset len out with
  | None => None
  | Some (status, out) =>
      if succeeded status then next out else Some (Return status no_lexical_error out)
  end.

Definition fail (status : server_status) (offset len : nat) (reason : lexical_error_reason)
    (out : lexical_stream) : option lex_step :=
  Some (Return status (LexicalError (u32 (Z.of_nat offset)) (u32 (Z.of_nat len)) reason) out).

Definition go (position : nat) (m : lex_mode) (out : lexical_stream) : option lex_step :=
  Some (Continue (LexState position m out)).

(** A newline of [len] bytes, in the text or in a block comment. *)
Definition end_line (len : nat) (s : lex_state) (next : lex_state -> option lex_step)
  : option lex_step :=
  let past out := next (LexState (position s + len) fresh_line out) in
  if in_directive (mode s) then emit_then pp_end (position s) 0 (output s) past
  else past (output s).

(** The position where a line comment ends, or the extent of a line splice. *)
Fixpoint line_comment (l : list byte) (position : nat) : nat + nat * nat :=
  match l with
  | [] => inl position
  | c :: rest =>
      match (if is_char c "\" then newline_prefix rest else None) with
      | Some len => inr (position, (1 + len)%nat)
      | None =>
          if bool_decide (is_Some (newline_prefix l)) then inl position
          else line_comment rest (S position)
      end
  end.

Fixpoint block_comment (l : list byte) (s : lex_state) : option lex_step :=
  match l with
  | [] =>
      fail project_configuration_invalid
        (if (position s =? 0)%nat then 0 else position s - 1)%nat 1
        unterminated_block_comment (output s)
  | c :: rest =>
      if starts_with (str "*/") l
      then go (position s + 2) (mode s) (output s)
      else
        match newline_prefix l with
        | Some len =>
            end_line len s (fun s =>
              match len, rest with
              | 2%nat, _ :: rest => block_comment rest s
              | _, _ => block_comment rest s
              end)
        | None => block_comment rest (LexState (S (position s)) (mode s) (output s))
        end
  end.

Definition directive_round (s : lex_state) : option lex_step :=
  let name_begin :=
    (position s + 1 + run_length horizontal_space (drop (position s + 1) source))%nat in
  let name_end :=
    if (name_begin <? length source)%nat && identifier_first (source !!! name_begin)
    then (name_begin + 1 + run_length identifier_next (drop (name_begin + 1) source))%nat
    else name_begin in
  let name := slice name_begin name_end source in
  let kind := if (length name =? 0)%nat then pp_unknown else directive_kind name in
  emit_then kind (position s) (name_end - position s) (output s) (fun out =>
    go name_end (Mode false true (bool_decide (kind = pp_include))) out).

(** The position where a header name stops, and whether at its closing character. *)
Fixpoint header_loop (closing : byte) (l : list byte) (position : nat) : nat * bool :=
  match l with
  | [] => (position, false)
  | c :: rest =>
      if is_char c closing then (position, true)
      else if bool_decide (is_Some (newline_prefix l)) then (position, false)
      else header_loop closing rest (S position)
  end.

Definition header_round (closing : byte) (kind : token_kind) (s : lex_state)
  : option lex_step :=
  let start := position s in
  let (last, closed) := header_loop closing (drop (start + 1) source) (start + 1) in
  if closed
  then emit_then kind start (last + 1 - start) (output s) (fun out =>
    go (last + 1) (Mode (line_start (mode s)) (in_directive (mode s)) false) out)
  else fail project_configuration_invalid start (last - start) unterminated_header_name
         (output s).

(** Literals, identifiers, numbers and punctuation. *)
Definition token_round (s : lex_state) : option lex_step :=
  let start := position s in
  let value := source !!! start in
  let take_token kind len :=
    emit_then kind start len (output s) (fun out =>
      go (start + len) (Mode false (in_directive (mode s)) false) out) in
  let literal := detect_literal source start in
  if negb (bool_decide (literal_kind literal = tk_invalid)) then
    let (status, last) := scan_literal source literal in
    if negb (succeeded status)
    then fail status start (length source - start)
           (if bool_decide (status = unsupported)
            then unsupported_line_splice else unterminated_literal) (output s)
    else take_token (literal_kind literal) (last - start)%nat
  else if identifier_first value then
    let len := (1 + run_length identifier_next (drop (start + 1) source))%nat in
    let spelling := slice start (start + len) source in
    take_token
      (if in_directive (mode s) && bool_decide (spelling = str "defined")
       then pp_defined else keyword_kind spelling) len
  else if ascii_digit value ||
          is_char value "." && (start + 1 <? length source)%nat &&
            ascii_digit (source !!! (start + 1)%nat)
  then take_token pp_number (scan_pp_number source start - start)%nat
  else
    match punctuation source start with
    | Some (kind, len) => take_token kind len
    | None => fail project_configuration_invalid start 1 invalid_character (output s)
    end.

(** One round of the loop of [tokenize], at a position inside the source. *)
Definition lex_round (s : lex_state) : option lex_step :=
  let start := position s in
  let value := source !!! start in
  if 128 <=? bz value
  then fail unsupported start 1 unsupported_non_ascii (output s)
  else
    match newline_at source start with
    | Some len => end_line len s (fun s => Some (Continue s))
    | None =>
        if horizontal_space value then go (start + 1) (mode s) (output s)
        else
          match (if is_char value "\" && (start + 1 <? length source)%nat
                 then newline_at source (start + 1) else None) with
          | Some len => fail unsupported start (1 + len) unsupported_line_splice (output s)
          | None =>
              if match_at source start (str "//") then
                match line_comment (drop (start + 2) source) (start + 2) with
                | inl last => go last (mode s) (output s)
                | inr (at_splice, len) =>
                    fail unsupported at_splice len unsupported_line_splice (output s)
                end
              else if match_at source start (str "/*") then
                block_comment (drop (start + 2) source)
                  (LexState (start + 2) (mode s) (output s))
              else if line_start (mode s) && is_char value "#" then directive_round s
              else if include_header_pending (mode s) && is_char value x22
              then header_round x22 tk_header_name_quoted s
              else if include_header_pending (mode s) && is_char value "<"
              then header_round ">" tk_header_name_angled s
              else token_round s
          end
    end.

Fixpoint tokenize_loop (fuel : nat) (s : lex_state)
  : option (server_status * lexical_error * lexical_stream) :=
  match fuel with
  | O => None
  | S fuel =>
      if (position s <? length source)%nat then
        match lex_round s with
        | None => None
        | Some (Continue s) => tokenize_loop fuel s
        | Some (Return status error out) => Some (status, error, out)
        end
      else if in_directive (mode s) then
        match emit pp_end (length source) 0 (output s) with
        | None => None
        | Some (status, out) => Some (status, no_lexical_error, out)
        end
      else Some (success, no_lexical_error, output s)
  end.

(** Every round moves the position forward. *)
Definition tokenize_fuel : nat := S (length source).

Definition tokenize (file : Z) (reset_allocated : bool) (out : lexical_stream)
  : option (server_status * lexical_error * lexical_stream) :=
  match reset file (Z.of_nat (length source)) reset_allocated out with
  | None => None
  | Some (status, out) =>
      if negb (succeeded status) then Some (status, no_lexical_error, out)
      else tokenize_loop tokenize_fuel (LexState 0 fresh_line out)
  end.
End Tokenize.

Definition all_allocated : Z -> bool * bool := fun _ => (true, true).

Example lex_directive :
  (fun r => let '(st, _, out) := r in (st, words out, directives out)) <$>
    tokenize all_allocated (str "#include <a>
int x; // c
") 1 true new_lexical_stream
  = Some (success,
      encode 0 [Token pp_include 0 8; Token tk_header_name_angled 9 3; Token pp_end 12 0;
                Token kw_int 13 3; Token tk_identifier 17 1; Token tk_semicolon 18 1],
      [Anchor 0 0]).
Proof. vm_compute. reflexivity. Qed.

(** ** The grammar of a source file *)

Definition newline_text (nl rest : list byte) : Prop :=
  nl = [x0a] \/ nl = [x0d; x0a] \/ nl = [x0d] /\ stops (fun c => is_char c x0a) rest.

(** The end of the directive that a newline at [position] closes. *)
Definition closing (m : lex_mode) (position : nat) : list token :=
  if in_directive m then [Token pp_end (Z.of_nat position) 0] else [].

Definition has_newline (l : list byte) : bool := existsb newline_char l.

(** The comment stands at [position]; its first newline closes the directive. *)
Definition comment_tokens (m : lex_mode) (position : nat) (body : list byte) : list token :=
  if has_newline body
  then closing m (position + run_length (fun c => negb (newline_char c)) body) else [].

Definition source_token (kind : token_kind) (position : nat) (text : list byte) : token :=
  Token kind (Z.of_nat position) (Z.of_nat (length text)).

(** The text of a token that is neither a directive nor a header name, with the
    bytes that follow it: identifiers, numbers and punctuators are as long as they
    can be. *)
Inductive token_text (directive : bool) : token_kind -> list byte -> list byte -> Prop :=
| text_literal kind text rest :
    literal_text kind text -> token_text directive kind text rest
| text_identifier text rest :
    identifier_text text -> stops identifier_next rest -> no_literal_opening (text ++ rest) ->
    token_text directive
      (if directive && bool_decide (text = str "defined")
       then pp_defined else keyword_kind text) text rest
| text_number text rest :
    number_text text -> number_stops (List.last text x00) rest ->
    token_text directive pp_number text rest
| text_punctuator kind text rest :
    longest_punctuator (text ++ rest) kind (length text) ->
    (forall d l, ascii_digit d = true -> text ++ rest <> "."%byte :: d :: l) ->
    token_text directive kind text rest.

(** Bytes that are no comment, directive or header name in the mode. *)
Definition ordinary (m : lex_mode) (l : list byte) : Prop :=
  ~ str "//" `prefix_of` l /\ ~ str "/*" `prefix_of` l /\
  (line_start m = true -> ~ str "#" `prefix_of` l) /\
  (include_header_pending m = true -> ~ [x22] `prefix_of` l /\ ~ str "<" `prefix_of` l).

Inductive directive_name : list byte -> list byte -> Prop :=
| no_name rest :
    stops horizontal_space rest -> stops identifier_first rest -> directive_name [] rest
| some_name name rest :
    identifier_text name -> stops identifier_next rest -> directive_name name rest.

Definition name_kind (name : list byte) : token_kind :=
  match name with [] => pp_unknown | _ => directive_kind name end.

Definition header_quotes : list (byte * byte * token_kind) :=
  [(x22, x22, tk_header_name_quoted); ("<"%byte, ">"%byte, tk_header_name_angled)].

(** A piece of text at a position, the bytes after it, its tokens and the mode
    after it. *)
Inductive piece (m : lex_mode) (position : nat)
  : list byte -> list byte -> list token -> lex_mode -> Prop :=
| piece_space c rest :
    horizontal_space c = true -> piece m position [c] rest [] m
| piece_newline nl rest :
    newline_text nl rest -> piece m position nl rest (closing m position) fresh_line
| piece_line_comment body rest :
    Forall (fun c => newline_char c = false) body ->
    stops (fun c => negb (newline_char c)) rest ->
    (rest <> [] -> List.last body "/"%byte <> "\"%byte) ->
    piece m position (str "//" ++ body) rest [] m
| piece_block_comment body rest :
    (forall before after, body ++ str "*/" = before ++ str "*/" ++ after -> after = []) ->
    piece m position (str "/*" ++ body ++ str "*/") rest (comment_tokens m (position + 2) body)
      (if has_newline body then fresh_line else m)
| piece_directive blanks name rest :
    line_start m = true -> Forall (fun c => horizontal_space c = true) blanks ->
    directive_name name rest ->
    piece m position ("#"%byte :: blanks ++ name) rest
      [source_token (name_kind name) position ("#"%byte :: blanks ++ name)]
      (Mode false true (bool_decide (name_kind name = pp_include)))
| piece_header opening close kind body rest :
    include_header_pending m = true -> (opening, close, kind) ∈ header_quotes ->
    Forall (fun c => c <> close /\ newline_char c = false) body ->
    piece m position (opening :: body ++ [close]) rest
      [source_token kind position (opening :: body ++ [close])]
      (Mode (line_start m) (in_directive m) false)
| piece_token kind text rest :
    ordinary m (text ++ rest) -> token_text (in_directive m) kind text rest ->
    piece m position text rest [source_token kind position text]
      (Mode false (in_directive m) false).

(** A source read to its end; an open directive ends there. *)
Inductive lexes : lex_mode -> nat -> list byte -> list token -> Prop :=
| lexes_end m position : lexes m position [] (closing m position)
| lexes_piece m position text rest new m' ts :
    piece m position text rest new m' -> lexes m' (position + length text) rest ts ->
    lexes m position (text ++ rest) (new ++ ts).

(** ** Emission *)

(** The extent of a lexical error and the status it is reported with. *)
Definition lexical_failure (size : nat) (status : server_status) (error : lexical_error) : Prop :=
  0 <= error_offset error /\ 1 <= error_length error /\
  error_offset error + error_length error <= Z.of_nat size /\
  match error_reason error with
  | reason_none => False
  | unsupported_non_ascii | unsupported_line_splice => status = unsupported
  | _ => status = project_configuration_invalid
  end.

Section Rounds.
Context (allocated : Z -> bool * bool) (source : list byte).
Hypothesis source_fits : Z.of_nat (length source) <= u32_max.

(** An allocation failed or a limit of the stream was reached. *)
Definition exhausted_stream (out : lexical_stream) : Prop :=
  append_exhausted out (allocated (tokens out)).1 (allocated (tokens out)).2.

(** What [tokenize] returns with, when it does not succeed. *)
Definition failed (status : server_status) (error : lexical_error) : Prop :=
  status = io_error /\ error = no_lexical_error /\
    (exists out ts, produced out ts /\ exhausted_stream out) \/
  lexical_failure (length source) status error.

(** The stream of this source holds [ts], which lie before the position. *)
Record writing (position : nat) (out : lexical_stream) (ts : list token) : Prop := Writing {
  writing_produced : produced out ts;
  writing_size : source_size out = Z.of_nat (length source);
  writing_last : last_source_offset out <= Z.of_nat position;
  writing_inside : (position <= length source)%nat
}.

Lemma writing_later p q out ts :
  writing p out ts -> (p <= q <= length source)%nat -> writing q out ts.
Proof. intros [] ?. split; try done; lia. Qed.

Lemma u32_position n : (n <= length source)%nat -> u32 (Z.of_nat n) = Z.of_nat n.
Proof. intros. unfold u32, u32_max in *. apply Z.mod_small. lia. Qed.

Lemma emit_spec kind p len out ts :
  writing p out ts -> kind <> tk_invalid -> (p + len <= length source)%nat ->
  exists status out', emit allocated kind p len out = Some (status, out') /\
    (status = success /\ writing p out' (ts ++ [Token kind (Z.of_nat p) (Z.of_nat len)]) \/
     status = io_error /\ exhausted_stream out).
Proof.
  intros [Hp Hsz Hlast _] Hk Hfit. unfold emit, exhausted_stream.
  destruct (allocated (tokens out)) as [da wa]. rewrite !u32_position by lia.
  set (t := Token kind (Z.of_nat p) (Z.of_nat len)).
  destruct (append_spec out ts t da wa) as (status & out' & Ha & Hs' & Hcase);
    [by apply produced_holds|simpl; lia|simpl; lia|].
  exists status, out'. split; [done|].
  destruct Hcase as [(-> & _ & Hh)|[(-> & Hn & _)|(-> & ? & _)]]; [left| |right; done].
  - split; [done|]. split; [|by rewrite Hs'| |lia].
    + apply (produced_append out ts t da wa success out') in Hp; simpl; try lia; done.
    + rewrite (holds_last _ _ Hh), last_offset_app. simpl. lia.
  - exfalso. apply Hn. split; [done|]. simpl. split; lia.
Qed.

(** A round that starts with the tokens [ts] written: it returns from [tokenize]
    with a failure, or goes on with the tokens [new] and the new state. *)
Definition round_ok (ts : list token) (Post : list token -> lex_state -> Prop)
    (r : option lex_step) : Prop :=
  exists step, r = Some step /\
    match step with
    | Continue s => exists new, writing (position s) (output s) (ts ++ new) /\ Post new s
    | Return status error _ => failed status error
    end.

Lemma emit_then_spec kind p len out ts Post next :
  writing p out ts -> kind <> tk_invalid -> (p + len <= length source)%nat ->
  (forall out', writing p out' (ts ++ [Token kind (Z.of_nat p) (Z.of_nat len)]) ->
     round_ok ts Post (next out')) ->
  round_ok ts Post (emit_then allocated kind p len out next).
Proof.
  intros Hw Hk Hfit Hnext. unfold emit_then.
  destruct (emit_spec kind p len out ts Hw Hk Hfit) as (status & out' & -> & [[-> Ho]|[-> Hex]]).
  - by apply Hnext.
  - eexists. split; [done|]. left. split; [done|]. split; [done|].
    exists out, ts. split; [by destruct Hw|done].
Qed.

Lemma fail_spec status p len reason out ts Post :
  (p + len <= length source)%nat -> (1 <= len)%nat ->
  match reason with
  | reason_none => False
  | unsupported_non_ascii | unsupported_line_splice => status = unsupported
  | _ => status = project_configuration_invalid
  end ->
  round_ok ts Post (fail status p len reason out).
Proof.
  intros Hp Hl Hr. eexists. split; [done|]. right. unfold lexical_failure. simpl.
  rewrite !u32_position by lia. split; [lia|]. split; [lia|]. split; [lia|done].
Qed.

Lemma round_ok_mono ts pre (Post Post' : list token -> lex_state -> Prop) r :
  round_ok (ts ++ pre) Post' r -> (forall new s, Post' new s -> Post (pre ++ new) s) ->
  round_ok ts Post r.
Proof.
  intros (step & -> & Hs) Hmono. exists step. split; [done|]. destruct step as [s|]; [|done].
  destruct Hs as (new & Hw & Hp). exists (pre ++ new). rewrite app_assoc. auto.
Qed.

(** The round took a piece of the source. *)
Definition advances (s : lex_state) (new : list token) (s' : lex_state) : Prop :=
  exists text rest, drop (position s) source = text ++ rest /\ text <> [] /\
    piece (mode s) (position s) text rest new (mode s') /\
    position s' = (position s + length text)%nat.

Lemma drop_piece p text rest :
  drop p source = text ++ rest -> text <> [] -> (p + length text <= length source)%nat.
Proof.
  intros Hd Ht. apply (f_equal length) in Hd. rewrite length_drop, length_app in Hd.
  destruct text; [done|]. simpl in *. lia.
Qed.

Lemma go_piece s text rest new m' out ts :
  drop (position s) source = text ++ rest -> text <> [] ->
  piece (mode s) (position s) text rest new m' -> writing (position s) out (ts ++ new) ->
  round_ok ts (advances s) (go (position s + length text) m' out).
Proof.
  intros Hd Ht Hp Hw. pose proof (drop_piece _ _ _ Hd Ht) as Hle.
  eexists. split; [done|]. exists new. split.
  - eapply writing_later; [done|]. simpl. lia.
  - exists text, rest. done.
Qed.

Lemma emit_piece kind s text rest m' ts :
  writing (position s) (output s) ts -> drop (position s) source = text ++ rest ->
  text <> [] -> kind <> tk_invalid ->
  piece (mode s) (position s) text rest [source_token kind (position s) text] m' ->
  round_ok ts (advances s)
    (emit_then allocated kind (position s) (length text) (output s) (fun out =>
       go (position s + length text) m' out)).
Proof.
  intros Hw Hd Ht Hk Hp. apply emit_then_spec; [done|done|by eapply drop_piece|].
  intros out' Hw'. by eapply go_piece.
Qed.

Lemma end_line_spec len s ts Post next :
  writing (position s) (output s) ts ->
  (forall s', position s' = (position s + len)%nat -> mode s' = fresh_line ->
     writing (position s) (output s') (ts ++ closing (mode s) (position s)) ->
     round_ok ts Post (next s')) ->
  round_ok ts Post (end_line allocated len s next).
Proof.
  intros Hw Hnext. unfold end_line. unfold closing in Hnext.
  destruct (in_directive (mode s)).
  - apply emit_then_spec; [done|done|destruct Hw; lia|]. intros out' Hw'. by apply Hnext.
  - apply Hnext; [done|done|]. by rewrite app_nil_r.
Qed.

(** ** The rounds *)

Lemma newline_prefix_spec l len :
  newline_prefix l = Some len ->
  exists nl rest, l = nl ++ rest /\ newline_text nl rest /\ length nl = len.
Proof.
  unfold newline_text. destruct l as [|c l]; [done|]. simpl.
  destruct (is_char c x0a) eqn:En; [apply is_char_eq in En as ->; intros [= <-]|].
  { exists [x0a], l. auto. }
  destruct (is_char c x0d) eqn:Er; [apply is_char_eq in Er as ->; intros [= <-]|done].
  destruct l as [|d l]; [exists [x0d], []; naive_solver|].
  destruct (is_char d x0a) eqn:Ed.
  - apply is_char_eq in Ed as ->. exists [x0d; x0a], l. auto.
  - exists [x0d], (d :: l). naive_solver.
Qed.

Lemma newline_round s ts len :
  writing (position s) (output s) ts -> newline_at source (position s) = Some len ->
  round_ok ts (advances s) (end_line allocated len s (fun s => Some (Continue s))).
Proof.
  intros Hw Hn. apply newline_prefix_spec in Hn as (nl & rest & Hd & Hnl & <-).
  assert (nl <> []) as Hne by by destruct Hnl as [-> |[-> |[-> _]]].
  apply end_line_spec; [done|]. intros s' Hpos Hmode Hw'.
  eexists. split; [done|]. eexists. split.
  - eapply writing_later; [done|]. rewrite Hpos. pose proof (drop_piece _ _ _ Hd Hne). lia.
  - exists nl, rest. rewrite Hmode. split; [done|]. split; [done|]. split; [|done].
    by constructor.
Qed.

Lemma line_comment_spec l p :
  match line_comment l p with
  | inl last => exists body rest, l = body ++ rest /\ last = (p + length body)%nat /\
      Forall (fun c => newline_char c = false) body /\
      stops (fun c => negb (newline_char c)) rest /\
      (forall d, d <> "\"%byte -> rest <> [] -> List.last body d <> "\"%byte)
  | inr (q, len) => (p <= q /\ 1 <= len /\ q + len <= p + length l)%nat
  end.
Proof.
  revert p. induction l as [|c l IH]; intros p; cbn [line_comment].
  { exists [], []. simpl. split; [done|]. split; [lia|]. auto. }
  destruct (if is_char c "\" then newline_prefix l else None) as [len|] eqn:E.
  { destruct (is_char c "\"); [|done].
    apply newline_prefix_spec in E as (nl & rest & -> & _ & <-).
    simpl. rewrite length_app. lia. }
  rewrite newline_prefix_some. destruct (newline_char c) eqn:Ec.
  { exists [], (c :: l). simpl. rewrite Ec. split; [done|]. split; [lia|]. auto. }
  specialize (IH (S p)). destruct (line_comment l (S p)) as [last|[q len]]; [|simpl; lia].
  destruct IH as (body & rest & -> & -> & Hb & Hr & Hl). exists (c :: body), rest.
  split; [done|]. split; [simpl; lia|]. split; [by constructor|]. split; [done|].
  intros d Hd Hne. rewrite last_cons_default.
  destruct (decide (c = "\"%byte)) as [->|Hc]; [|by apply Hl].
  change (is_char "\" "\") with true in E. cbn iota in E.
  destruct body as [|b body]; [|rewrite last_cons_default; rewrite <- (last_cons_default b d);
    by apply Hl].
  exfalso. destruct rest as [|r rest]; [done|]. simpl in Hr. simpl in E.
  unfold newline_char in Hr. destruct (is_char r x0a); [done|]. by destruct (is_char r x0d).
Qed.

Definition comment_end : list byte := str "*/".

(** The first end of the comment stands right after the body. *)
Definition first_end (body : list byte) : Prop :=
  forall before after, body ++ comment_end = before ++ comment_end ++ after -> after = [].

Lemma first_end_nil : first_end [].
Proof.
  intros before after Heq. apply (f_equal length) in Heq. rewrite !length_app in Heq.
  simpl in Heq. destruct after; [done|]. simpl in Heq. lia.
Qed.

Lemma first_end_cons c body rest :
  starts_with comment_end (c :: body ++ comment_end ++ rest) = false ->
  first_end body -> first_end (c :: body).
Proof.
  intros Hs Hf [|b before] after Heq; [|injection Heq as _ Heq; by eapply Hf].
  apply not_true_iff_false in Hs. destruct Hs. apply starts_with_prefix.
  rewrite app_comm_cons, app_assoc. rewrite <- app_comm_cons.
  change ((c :: body) ++ comment_end = comment_end ++ after) in Heq.
  rewrite app_comm_cons, Heq. eexists. by rewrite <- app_assoc.
Qed.

Lemma newline_not_end c l : newline_char c = true -> starts_with comment_end (c :: l) = false.
Proof. by destruct c. Qed.

(** The rest of a comment entered at the state [s]. *)
Definition comment_rest (s : lex_state) (l : list byte) (new : list token) (s' : lex_state) : Prop :=
  exists body rest, l = body ++ comment_end ++ rest /\ first_end body /\
    position s' = (position s + length body + 2)%nat /\
    mode s' = (if has_newline body then fresh_line else mode s) /\
    new = comment_tokens (mode s) (position s) body.

Lemma comment_tokens_newline m p nl body :
  Forall (fun c => newline_char c = true) nl -> nl <> [] ->
  comment_tokens m p (nl ++ body) = closing m p /\ has_newline (nl ++ body) = true.
Proof.
  intros Hnl Hne. destruct nl as [|c nl]; [done|]. apply Forall_cons in Hnl as [Hc _].
  unfold comment_tokens, has_newline. simpl. rewrite Hc. simpl. by rewrite Nat.add_0_r.
Qed.

Lemma comment_tokens_fresh p body : comment_tokens fresh_line p body = [].
Proof. unfold comment_tokens, closing. simpl. by destruct (has_newline body). Qed.

(** A newline of the comment in front of what the recursion reads. *)
Lemma comment_rest_newline ts s s' nl l r :
  Forall (fun c => newline_char c = true) nl -> nl <> [] ->
  position s' = (position s + length nl)%nat -> mode s' = fresh_line ->
  round_ok (ts ++ closing (mode s) (position s)) (comment_rest s' l) r ->
  round_ok ts (comment_rest s (nl ++ l)) r.
Proof.
  intros Hnl Hne Hpos Hmode Hr. eapply round_ok_mono; [exact Hr|].
  intros new s2 (body & rest & -> & Hf & Hp2 & Hm2 & ->).
  destruct (comment_tokens_newline (mode s) (position s) nl body Hnl Hne) as [Ht Hn].
  exists (nl ++ body), rest. split; [by rewrite <- app_assoc|]. split; [|split; [|split]].
  - clear -Hnl Hf. induction Hnl as [|c nl Hc _ IH]; [done|].
    eapply (first_end_cons c (nl ++ body) []); [by apply newline_not_end|done].
  - rewrite Hp2, Hpos, length_app. lia.
  - rewrite Hn, Hm2, Hmode. by destruct (has_newline body).
  - rewrite Ht, Hmode, comment_tokens_fresh. by rewrite app_nil_r.
Qed.

Lemma block_comment_spec n l s ts :
  (length l <= n)%nat -> writing (position s) (output s) ts ->
  drop (position s) source = l -> (2 <= position s)%nat ->
  round_ok ts (comment_rest s l) (block_comment allocated l s).
Proof.
  revert l s ts. induction n as [|n IH]; intros [|c l] s ts Hn Hw Hd H2; simpl in Hn; try lia;
    try (cbn [block_comment]; rewrite (proj2 (Nat.eqb_neq _ _)) by lia;
         destruct Hw; apply fail_spec; [lia|lia|done]).
  pose proof (drop_piece (position s) [c] l Hd ltac:(done)) as Hin. simpl in Hin.
  cbn [block_comment]. change (str "*/") with comment_end.
  destruct (starts_with comment_end (c :: l)) eqn:Es.
  { apply starts_with_prefix in Es as [rest Hl]. rewrite Hl in Hd.
    pose proof (drop_piece _ _ _ Hd ltac:(done)) as Hle. simpl in Hle.
    eexists. split; [done|]. exists []. rewrite app_nil_r. split.
    - simpl. eapply writing_later; [done|lia].
    - exists [], rest. rewrite Hl. split; [done|]. split; [apply first_end_nil|].
      simpl. split; [lia|done]. }
  destruct (newline_prefix (c :: l)) as [len|] eqn:En.
  - apply newline_prefix_spec in En as (nl & rest & Hl & Hnl & <-).
    assert (nl <> [] /\ Forall (fun c => newline_char c = true) nl) as [Hne Hall].
    { destruct Hnl as [-> |[-> |[-> _]]]; (split; [done|by repeat constructor]). }
    rewrite Hl in Hd. apply end_line_spec; [done|]. intros s' Hpos Hmode Hw'.
    assert (match length nl, l with
            | 2%nat, _ :: rest => block_comment allocated rest s'
            | _, _ => block_comment allocated l s'
            end = block_comment allocated rest s') as ->.
    { destruct Hnl as [-> |[-> |[-> _]]]; simpl in Hl |- *; injection Hl as -> ->; done. }
    rewrite Hl. eapply comment_rest_newline; [done|done|done|done|].
    pose proof (drop_piece _ _ _ Hd Hne) as Hle.
    apply IH; [|by rewrite Hpos; eapply writing_later; [done|lia]| |lia].
    + apply (f_equal length) in Hl. rewrite length_app in Hl. destruct nl; [done|].
      simpl in Hl. lia.
    + by rewrite Hpos, (drop_ahead _ _ _ _ Hd), drop_app_length.
  - assert (newline_char c = false) as Hc.
    { rewrite <- (newline_prefix_some c l), En. done. }
    eapply (round_ok_mono ts []).
    { apply IH; [lia| | |simpl; lia].
      - rewrite app_nil_r. simpl. eapply writing_later; [done|lia].
      - simpl. replace (S (position s)) with (position s + 1)%nat by lia.
        by rewrite (drop_ahead _ _ _ _ Hd). }
    intros new s2 (body & rest & -> & Hf & Hp2 & Hm2 & ->).
    exists (c :: body), rest. split; [done|]. split; [by eapply first_end_cons|].
    simpl in Hp2. split; [simpl; lia|]. unfold comment_tokens, has_newline in *. simpl.
    rewrite Hc. simpl. split; [done|]. simpl. case_match; [|done]. f_equal. lia.
Qed.

Lemma block_comment_round s ts rest :
  writing (position s) (output s) ts -> drop (position s) source = str "/*" ++ rest ->
  round_ok ts (advances s)
    (block_comment allocated (drop (position s + 2) source)
       (LexState (position s + 2) (mode s) (output s))).
Proof.
  intros Hw Hd. pose proof (drop_piece _ _ _ Hd ltac:(done)) as Hle. simpl in Hle.
  assert (drop (position s + 2) source = rest) as Hrest
    by by rewrite (drop_ahead _ _ _ _ Hd).
  eapply (round_ok_mono ts []).
  { apply (block_comment_spec (length rest)); [by rewrite Hrest| |done|simpl; lia].
    rewrite app_nil_r. simpl. eapply writing_later; [done|lia]. }
  intros new s' (body & rest' & Hl & Hf & Hp & Hm & ->). rewrite Hrest in Hl. rewrite Hl in Hd.
  exists (str "/*" ++ body ++ comment_end), rest'. rewrite Hd, <- !app_assoc.
  split; [done|]. split; [done|]. split.
  - simpl in Hm. rewrite Hm. by apply piece_block_comment.
  - simpl in Hp. rewrite Hp, !length_app. simpl. lia.
Qed.

Lemma line_comment_round s ts rest :
  writing (position s) (output s) ts -> drop (position s) source = str "//" ++ rest ->
  round_ok ts (advances s)
    match line_comment (drop (position s + 2) source) (position s + 2) with
    | inl last => go last (mode s) (output s)
    | inr (at_splice, len) =>
        fail unsupported at_splice len unsupported_line_splice (output s)
    end.
Proof.
  intros Hw Hd. pose proof (drop_piece _ _ _ Hd ltac:(done)) as Hle. simpl in Hle.
  assert (drop (position s + 2) source = rest) as Hrest
    by by rewrite (drop_ahead _ _ _ _ Hd).
  assert (position s + 2 + length rest <= length source)%nat as Hlen.
  { rewrite <- Hrest, length_drop. lia. }
  rewrite Hrest. pose proof (line_comment_spec rest (position s + 2)) as Hc.
  destruct (line_comment rest (position s + 2)) as [last|[q len]].
  - destruct Hc as (body & rest' & -> & -> & Hb & Hr & Hl).
    replace (position s + 2 + length body)%nat
      with (position s + length (str "//" ++ body))%nat by (rewrite length_app; simpl; lia).
    apply (go_piece s (str "//" ++ body) rest' []).
    + by rewrite <- app_assoc.
    + done.
    + apply piece_line_comment; [done|done|]. by apply Hl.
    + by rewrite app_nil_r.
  - apply fail_spec; [lia|lia|done].
Qed.

Lemma slice_at p text rest : drop p source = text ++ rest -> slice p (p + length text) source = text.
Proof.
  intros Hd. unfold slice. rewrite Hd. replace (_ - _)%nat with (length text) by lia.
  apply take_app_length.
Qed.

(** The scan of the directive's name. *)
Lemma directive_name_spec p :
  (p <= length source)%nat ->
  exists name rest, drop p source = name ++ rest /\
    (stops horizontal_space (drop p source) -> directive_name name rest) /\
    (if (p <? length source)%nat && identifier_first (source !!! p)
     then p + 1 + run_length identifier_next (drop (p + 1) source) else p)%nat
    = (p + length name)%nat.
Proof.
  intros Hp. destruct (drop p source) as [|c l] eqn:Hd.
  { exists [], []. split; [done|]. split; [by constructor|].
    pose proof (length_from _ _ _ Hd Hp) as Hlen. simpl in Hlen.
    rewrite (proj2 (Nat.ltb_ge _ _)) by lia. simpl. lia. }
  pose proof (length_from _ _ _ Hd Hp) as Hlen. simpl in Hlen.
  rewrite (proj2 (Nat.ltb_lt _ _)) by lia.
  pose proof (lookup_total_from source _ p 0 Hd) as Hc. rewrite Nat.add_0_r in Hc.
  rewrite Hc, (drop_ahead _ _ _ _ Hd). simpl. rewrite drop_0.
  destruct (identifier_first c) eqn:Ef.
  - destruct (run_length_spec identifier_next l) as (a & b & -> & <- & Ha & Hb).
    exists (c :: a), b. split; [done|]. split; [|simpl; lia]. intros _. by repeat constructor.
  - exists [], (c :: l). split; [done|]. split; [by constructor|simpl; lia].
Qed.

Lemma directive_kind_valid name : directive_kind name <> tk_invalid.
Proof. unfold directive_kind. repeat case_bool_decide; done. Qed.

Lemma directive_round_spec s ts rest :
  writing (position s) (output s) ts -> drop (position s) source = "#"%byte :: rest ->
  line_start (mode s) = true ->
  round_ok ts (advances s) (directive_round allocated source s).
Proof.
  intros Hw Hd Hls. pose proof (drop_piece _ ["#"%byte] rest Hd ltac:(done)) as Hle. simpl in Hle.
  unfold directive_round. rewrite (drop_ahead _ _ _ _ Hd). cbn [drop]. rewrite ?drop_0.
  destruct (run_length_spec horizontal_space rest) as (blanks & l & -> & <- & Hblanks & Hl).
  set (p := (position s + 1 + length blanks)%nat).
  assert (drop p source = l) as Hp.
  { subst p. rewrite <- Nat.add_assoc, (drop_ahead _ _ _ _ Hd). simpl. apply drop_app_length. }
  assert (p <= length source)%nat as Hple.
  { subst p. pose proof (drop_piece _ ("#"%byte :: blanks) l Hd ltac:(done)). simpl in *. lia. }
  destruct (directive_name_spec p Hple) as (name & r & Hname & Hdn & ->).
  rewrite Hp in Hname, Hdn. specialize (Hdn Hl). rewrite Hname in Hp, Hd.
  rewrite (slice_at p name r Hp).
  assert ((if (length name =? 0)%nat then pp_unknown else directive_kind name) = name_kind name)
    as -> by by destruct name.
  set (text := "#"%byte :: blanks ++ name).
  replace (p + length name)%nat with (position s + length text)%nat
    by (subst p text; simpl; rewrite length_app; lia).
  replace (position s + length text - position s)%nat with (length text) by lia.
  eapply emit_piece; [done| |done| |by constructor].
  - rewrite Hd. subst text. simpl. by rewrite <- app_assoc.
  - destruct name; [done|]. apply directive_kind_valid.
Qed.

Lemma header_loop_spec close l p :
  let (last, closed) := header_loop close l p in
  (p <= last <= p + length l)%nat /\
  (closed = true -> exists body rest, l = body ++ close :: rest /\ last = (p + length body)%nat /\
     Forall (fun c => c <> close /\ newline_char c = false) body).
Proof.
  revert p. induction l as [|c l IH]; intros p; cbn [header_loop].
  { split; [simpl; lia|done]. }
  rewrite newline_prefix_some. destruct (is_char c close) eqn:Ec.
  { apply is_char_eq in Ec as ->. split; [simpl; lia|]. intros _. exists [], l. simpl.
    split; [done|]. split; [lia|constructor]. }
  apply is_char_ne in Ec. destruct (newline_char c) eqn:En; [split; [simpl; lia|done]|].
  specialize (IH (S p)). destruct (header_loop close l (S p)) as [last closed].
  destruct IH as [Hle Hc]. split; [simpl; lia|]. intros Ht.
  destruct (Hc Ht) as (body & rest & -> & -> & Hall). exists (c :: body), rest.
  split; [done|]. split; [simpl; lia|by repeat constructor].
Qed.

Lemma header_round_spec s ts opening close kind rest :
  writing (position s) (output s) ts -> drop (position s) source = opening :: rest ->
  include_header_pending (mode s) = true -> (opening, close, kind) ∈ header_quotes ->
  round_ok ts (advances s) (header_round allocated source close kind s).
Proof.
  intros Hw Hd Hpend Hq. pose proof (drop_piece _ [opening] rest Hd ltac:(done)) as Hle.
  simpl in Hle. unfold header_round. rewrite (drop_ahead _ _ _ _ Hd). cbn [drop]. rewrite ?drop_0.
  pose proof (length_from _ _ _ Hd ltac:(destruct Hw; lia)) as Hlen. simpl in Hlen.
  pose proof (header_loop_spec close rest (position s + 1)) as Hh.
  destruct (header_loop close rest (position s + 1)) as [last closed].
  destruct Hh as [Hlast Hc]. destruct closed.
  - destruct (Hc eq_refl) as (body & r & -> & -> & Hall).
    set (text := opening :: body ++ [close]).
    replace (position s + 1 + length body + 1)%nat with (position s + length text)%nat
      by (subst text; simpl; rewrite length_app; simpl; lia).
    replace (position s + length text - position s)%nat with (length text) by lia.
    eapply emit_piece; [done| |done| |by econstructor].
    + rewrite Hd. subst text. simpl. by rewrite <- app_assoc.
    + clear -Hq. unfold header_quotes in Hq.
      repeat (apply elem_of_cons in Hq as [Hq|Hq]; [by simplify_eq|]). by apply elem_of_nil in Hq.
  - apply fail_spec; [lia|lia|done].
Qed.

Lemma keyword_kind_valid text : keyword_kind text <> tk_invalid.
Proof.
  assert (Forall (fun c => c.2.2 <> tk_invalid) keyword_cases) as Hall
    by (repeat constructor; done).
  unfold keyword_kind. destruct (list_find _ keyword_cases) as [[i [h [w k]]]|] eqn:E; [|done].
  apply list_find_Some in E as (Hi & _ & _). rewrite Forall_lookup in Hall.
  specialize (Hall _ _ Hi). simpl in Hall. by case_bool_decide.
Qed.

Lemma punctuator_valid l kind n : longest_punctuator l kind n -> kind <> tk_invalid /\ (1 <= n)%nat.
Proof.
  assert (Forall (fun e => e.2 <> tk_invalid /\ (1 <= length e.1)%nat) punctuators) as Hall.
  { unfold punctuators. repeat constructor; simpl; done || lia. }
  intros (text & Hin & _ & <- & _). rewrite Forall_forall in Hall. apply (Hall _ Hin).
Qed.

Lemma number_spec p c l :
  drop p source = c :: l ->
  ascii_digit c = true \/ c = "."%byte /\ (exists d l', l = d :: l' /\ ascii_digit d = true) ->
  exists text rest, c :: l = text ++ rest /\ text <> [] /\
    (scan_pp_number source p = p + length text)%nat /\
    number_text text /\ number_stops (List.last text x00) rest.
Proof.
  intros Hd Hc. unfold scan_pp_number.
  pose proof (lookup_total_from source _ p 0 Hd) as Hl. rewrite Nat.add_0_r in Hl.
  rewrite Hl, (drop_ahead _ _ _ _ Hd). cbn [drop]. rewrite ?drop_0. simpl (_ !!! 0%nat).
  destruct Hc as [Hc|(-> & d & l' & -> & Hdig)].
  - destruct (number_loop_spec l [] c) as (a & b & -> & <- & Ht & Hs); [by constructor|].
    exists (c :: a), b. split; [done|]. split; [done|]. split; [simpl; lia|].
    rewrite last_cons_default. done.
  - destruct (number_loop_spec l' ["."%byte] d) as (a & b & -> & Ha & Ht & Hs); [by constructor|].
    exists ("."%byte :: d :: a), b. split; [done|]. split; [done|]. split.
    + cbn [number_loop]. unfold number_char, identifier_next. rewrite Hdig, orb_true_r. simpl.
      rewrite <- Ha. lia.
    + rewrite !last_cons_default. done.
Qed.

Lemma take_token s ts kind text rest :
  writing (position s) (output s) ts -> drop (position s) source = text ++ rest ->
  text <> [] -> kind <> tk_invalid ->
  ordinary (mode s) (text ++ rest) -> token_text (in_directive (mode s)) kind text rest ->
  round_ok ts (advances s)
    (emit_then allocated kind (position s) (length text) (output s) (fun out =>
       go (position s + length text) (Mode false (in_directive (mode s)) false) out)).
Proof. intros Hw Hd Ht Hk Ho Htext. eapply emit_piece; [done..|]. by apply piece_token. Qed.

Lemma identifier_round s ts c l :
  writing (position s) (output s) ts -> drop (position s) source = c :: l ->
  ordinary (mode s) (c :: l) -> no_literal_opening (c :: l) -> identifier_first c = true ->
  let len := (1 + run_length identifier_next l)%nat in
  let spelling := slice (position s) (position s + len) source in
  round_ok ts (advances s)
    (emit_then allocated
       (if in_directive (mode s) && bool_decide (spelling = str "defined")
        then pp_defined else keyword_kind spelling) (position s) len (output s) (fun out =>
       go (position s + len) (Mode false (in_directive (mode s)) false) out)).
Proof.
  intros Hw Hd Ho Hnl Hc len spelling.
  destruct (run_length_spec identifier_next l) as (a & b & -> & Ha & Hall & Hb).
  assert (len = length (c :: a)) as -> by (subst len; simpl; lia).
  subst spelling. rewrite (slice_at _ (c :: a) b Hd).
  apply (take_token s ts _ (c :: a) b); [done|done|done| |done|].
  - case_match; [done|apply keyword_kind_valid].
  - constructor; [by constructor|done|done].
Qed.

Lemma literal_round s ts c l :
  writing (position s) (output s) ts -> drop (position s) source = c :: l ->
  ordinary (mode s) (c :: l) ->
  literal_kind (detect_literal source (position s)) <> tk_invalid ->
  round_ok ts (advances s)
    (let (status, last) := scan_literal source (detect_literal source (position s)) in
     if negb (succeeded status)
     then fail status (position s) (length source - position s)
            (if bool_decide (status = unsupported)
             then unsupported_line_splice else unterminated_literal) (output s)
     else
       emit_then allocated (literal_kind (detect_literal source (position s))) (position s)
         (last - position s) (output s) (fun out =>
         go (position s + (last - position s))
           (Mode false (in_directive (mode s)) false) out)).
Proof.
  intros Hw Hd Ho Hk. pose proof (length_from _ _ _ Hd ltac:(destruct Hw; lia)) as Hlen.
  simpl in Hlen.
  destruct (scan_literal_spec source (position s) c l Hd) as [[? _]|[_ Hs]]; [done|].
  destruct (scan_literal source _) as [status last].
  destruct Hs as [(-> & text & rest & Hl & Htext & Hne & ->)|Hf].
  - simpl negb. cbn iota. rewrite Hl in *.
    replace (position s + length text - position s)%nat with (length text) by lia.
    apply (take_token s ts _ text rest); [done..|]. by apply text_literal.
  - assert (succeeded status = false) as -> by by destruct Hf as [-> | ->].
    simpl negb. cbn iota. apply fail_spec; [lia|lia|]. by destruct Hf as [-> | ->].
Qed.

Lemma token_round_spec s ts c l :
  writing (position s) (output s) ts -> drop (position s) source = c :: l ->
  ordinary (mode s) (c :: l) ->
  round_ok ts (advances s) (token_round allocated source s).
Proof.
  intros Hw Hd Ho. pose proof (length_from _ _ _ Hd ltac:(destruct Hw; lia)) as Hlen.
  simpl in Hlen. unfold token_round.
  pose proof (lookup_total_from source _ (position s) 0 Hd) as Hc. rewrite Nat.add_0_r in Hc.
  rewrite Hc, (drop_ahead _ _ _ _ Hd), (lookup_total_from source _ _ 1 Hd).
  cbn [drop]. rewrite ?drop_0. simpl (_ !!! 0%nat).
  case_bool_decide as Ek; simpl negb; cbn iota; [|by eapply literal_round].
  destruct (scan_literal_spec source (position s) c l Hd) as [[_ Hnl]|[? _]]; [|done].
  destruct (identifier_first c) eqn:Ef; [by apply (identifier_round s ts c l)|].
  destruct (_ || _) eqn:Enum.
  - destruct (number_spec (position s) c l Hd) as (text & rest & Hl & Hne & Hpos & Ht & Hs).
    { apply orb_true_iff in Enum as [?|Hn]; [by left|right]. unbool.
      rename select (is_char c "." = true) into Edot. apply is_char_eq in Edot.
      split; [done|]. destruct l as [|d l']; [simpl in *; lia|]. by exists d, l'. }
    rewrite Hpos. replace (position s + length text - position s)%nat with (length text) by lia.
    rewrite Hl in *. apply (take_token s ts pp_number text rest); [done..|]. by apply text_number.
  - pose proof (punctuation_first source (position s) c l Hd) as Hp. rewrite Hp.
    pose proof (first_entry_spec punctuators (c :: l) punctuators_sorted) as Hf.
    destruct (first_entry punctuators (c :: l)) as [[kind n]|].
    2: { apply fail_spec; [lia|lia|done]. }
    destruct (punctuator_valid (c :: l) kind n Hf) as [Hk Hn].
    pose proof Hf as (text & _ & [rest Hl] & <- & _). rewrite Hl in *.
    apply (take_token s ts kind text rest); [done|done|intros ->; simpl in Hn; lia|done|done|].
    apply text_punctuator; [done|]. intros d l' Hdig Heq.
    assert (c :: l = "."%byte :: d :: l') as [= -> ->] by congruence.
    apply orb_false_iff in Enum as [_ Enum].
    rewrite Heq in Enum. change (("."%byte :: d :: l') !!! 1%nat) with d in Enum.
    rewrite Hdig in Enum.
    rewrite (proj2 (Nat.ltb_lt _ _)) in Enum by (simpl in Hlen; lia). done.
Qed.

(** ** The loop *)

Lemma match_at_spec p value :
  match_at source p value = true -> exists rest, drop p source = value ++ rest.
Proof. unfold match_at. intros. unbool. by apply starts_with_prefix. Qed.

Lemma match_at_false p value :
  (p <= length source)%nat -> match_at source p value = false -> ~ value `prefix_of` drop p source.
Proof.
  unfold match_at. intros Hp Hm. rewrite (proj2 (Nat.leb_le _ _) Hp) in Hm. simpl in Hm.
  by rewrite <- starts_with_prefix, Hm.
Qed.

Lemma head_not_prefix (c d : byte) l : c <> d -> ~ [d] `prefix_of` (c :: l).
Proof. intros Hne Hp. by apply prefix_cons_inv_1 in Hp. Qed.

Lemma lex_round_spec s ts :
  writing (position s) (output s) ts -> (position s < length source)%nat ->
  round_ok ts (advances s) (lex_round allocated source s).
Proof.
  intros Hw Hlt. destruct (drop (position s) source) as [|c l] eqn:Hd.
  { apply (f_equal length) in Hd. rewrite length_drop in Hd. simpl in Hd. lia. }
  pose proof (lookup_total_from source _ (position s) 0 Hd) as Hc. rewrite Nat.add_0_r in Hc.
  unfold lex_round. rewrite Hc. simpl (_ !!! 0%nat).
  destruct (128 <=? bz c); [by apply fail_spec; [lia|lia|]|].
  destruct (newline_at source (position s)) as [len|] eqn:En; [by apply newline_round|].
  destruct (horizontal_space c) eqn:Eh.
  { apply (go_piece s [c] l []); [done|done|by constructor|by rewrite app_nil_r]. }
  destruct (if is_char c "\" && _ then _ else None) as [len|] eqn:Es.
  { destruct (is_char c "\" && _); [|done].
    apply newline_prefix_spec in Es as (nl & rest & Hr & Hnl & <-).
    apply fail_spec; [|lia|done].
    assert (nl <> []) as Hne by by destruct Hnl as [-> |[-> |[-> _]]].
    pose proof (drop_piece _ _ _ Hr Hne). lia. }
  destruct (match_at source (position s) (str "//")) eqn:Elc.
  { apply match_at_spec in Elc as [rest Hr]. by eapply line_comment_round. }
  destruct (match_at source (position s) (str "/*")) eqn:Ebc.
  { apply match_at_spec in Ebc as [rest Hr]. by eapply block_comment_round. }
  apply match_at_false in Elc, Ebc; [|lia..]. rewrite Hd in Elc, Ebc.
  destruct (line_start (mode s) && is_char c "#") eqn:Ed.
  { unbool. rename select (is_char c "#" = true) into Eh'. apply is_char_eq in Eh' as ->.
    by eapply directive_round_spec. }
  destruct (include_header_pending (mode s) && is_char c x22) eqn:Eq.
  { unbool. rename select (is_char c x22 = true) into Eh'. apply is_char_eq in Eh' as ->.
    eapply header_round_spec; [done|done|done|]. apply list_elem_of_here. }
  destruct (include_header_pending (mode s) && is_char c "<") eqn:Ea.
  { unbool. rename select (is_char c "<" = true) into Eh'. apply is_char_eq in Eh' as ->.
    eapply header_round_spec; [done|done|done|].
    apply list_elem_of_further, list_elem_of_here. }
  apply (token_round_spec s ts c l); [done|done|]. split; [done|]. split; [done|].
  split; [intros Hls|intros Hp; split];
    apply head_not_prefix, is_char_ne; rewrite ?Hls, ?Hp in *; done.
Qed.

Lemma tokenize_loop_spec fuel s ts :
  writing (position s) (output s) ts -> (length source < position s + fuel)%nat ->
  exists status error out, tokenize_loop allocated source fuel s = Some (status, error, out) /\
    (status = success /\ error = no_lexical_error /\
       (exists new, produced out (ts ++ new) /\
          lexes (mode s) (position s) (drop (position s) source) new) \/
     failed status error).
Proof.
  revert s ts. induction fuel as [|fuel IH]; intros s ts Hw Hf.
  { destruct Hw. lia. }
  cbn [tokenize_loop]. destruct (Nat.ltb_spec (position s) (length source)) as [Hlt|Hge].
  - destruct (lex_round_spec s ts Hw Hlt) as (step & -> & Hstep).
    destruct step as [s'|status error out].
    2: { eexists _, _, _. split; [done|]. by right. }
    destruct Hstep as (new & Hw' & text & rest & Hd & Hne & Hp & Hpos).
    destruct (IH s' (ts ++ new) Hw') as (status & error & out & -> & Hcase).
    { rewrite Hpos. destruct text; [done|]. simpl. lia. }
    eexists _, _, _. split; [done|]. destruct Hcase as [(-> & -> & new' & Hprod & Hlex)|?];
      [left|by right].
    split; [done|]. split; [done|]. exists (new ++ new'). split; [by rewrite app_assoc|].
    rewrite Hd. econstructor; [done|]. rewrite <- Hpos.
    rewrite Hpos, (drop_ahead _ _ _ _ Hd), drop_app_length in Hlex. by rewrite Hpos.
  - destruct Hw as [Hprod Hsz Hlast Hin].
    assert (position s = length source) as Heq by lia.
    assert (drop (position s) source = []) as -> by (apply drop_ge; lia).
    assert (writing (length source) (output s) ts) as Hw by (split; [done|done|lia|lia]).
    destruct (in_directive (mode s)) eqn:Ed.
    + destruct (emit_spec pp_end (length source) 0 (output s) ts Hw) as
        (status & out & -> & [[-> Ho]|[-> Hex]]); [done|lia| |].
      * eexists _, _, _. split; [done|]. left. split; [done|]. split; [done|].
        eexists. split; [apply Ho|]. rewrite Heq.
        pose proof (lexes_end (mode s) (length source)) as He.
        unfold closing in He. by rewrite Ed in He.
      * eexists _, _, _. split; [done|]. right. left. split; [done|]. split; [done|]. by exists (output s), ts.
    + eexists _, _, _. split; [done|]. left. split; [done|]. split; [done|]. exists [].
      rewrite app_nil_r. split; [done|]. pose proof (lexes_end (mode s) (position s)) as He.
      unfold closing in He. by rewrite Ed in He.
Qed.
End Rounds.

(** ** What [tokenize] does *)

(** Why a reset is refused. *)
Definition reset_refused (file : Z) (source : list byte) (reset_allocated : bool)
    (status : server_status) : Prop :=
  status = io_error /\ reset_allocated = false \/
  status = project_configuration_invalid /\ (file = 0 \/ u32_max < Z.of_nat (length source)).

Lemma tokenize_spec allocated source file reset_allocated out0 :
  storage_ok out0 -> Z.of_nat (length source) <= size_max ->
  exists status error out,
    tokenize allocated source file reset_allocated out0 = Some (status, error, out) /\
    (status = success /\ error = no_lexical_error /\
       (exists ts, produced out ts /\ lexes fresh_line 0 source ts) \/
     reset_refused file source reset_allocated status /\ error = no_lexical_error \/
     failed allocated source status error).
Proof.
  intros Hs Hsz. unfold tokenize.
  destruct (stream_reset_spec file (Z.of_nat (length source)) reset_allocated out0 Hs)
    as (status & out & Hr & _ & Hcase); [lia|].
  rewrite Hr. destruct Hcase as [(-> & Hh & _ & Hsize)|[(-> & ? & _)|(-> & ? & _)]].
  2, 3: eexists _, _, _; (split; [done|]); right; left; unfold reset_refused; auto.
  simpl negb. cbn iota.
  assert (Z.of_nat (length source) <= u32_max) as Hmax
    by (rewrite <- Hsize; apply (holds_size _ _ Hh)).
  destruct (tokenize_loop_spec allocated source Hmax (tokenize_fuel source)
    (LexState 0 fresh_line out) []) as (status & error & out' & -> & Hcase).
  - split; simpl; [|done|by rewrite (holds_last _ _ Hh)|lia].
    apply (produced_reset file (Z.of_nat (length source)) reset_allocated out0); [done|lia|done].
  - unfold tokenize_fuel. simpl. lia.
  - eexists _, _, _. split; [done|]. destruct Hcase as [(-> & -> & new & Hp & Hl)|?]; [left|auto].
    split; [done|]. split; [done|]. exists new. auto.
Qed.

Lemma tokenize_accepts allocated source file reset_allocated out0 error out :
  storage_ok out0 -> Z.of_nat (length source) <= size_max ->
  tokenize allocated source file reset_allocated out0 = Some (success, error, out) ->
  error = no_lexical_error /\ exists ts, produced out ts /\ lexes fresh_line 0 source ts.
Proof.
  intros Hs Hsz Ht.
  destruct (tokenize_spec allocated source file reset_allocated out0 Hs Hsz)
    as (status & error' & out' & Ht' & Hcase). rewrite Ht in Ht'. simplify_eq.
  destruct Hcase as [(_ & -> & ts & Hp)|[[[[? _]|[? _]] _]|[(? & _)|Hf]]]; try done.
  - split; [done|]. by exists ts.
  - destruct Hf as (_ & _ & _ & Hf). by destruct (error_reason error').
Qed.



(** C5: A source that [tokenize] accepts reads, piece by piece and to its end, as
    whitespace, comments, directives, header names, literals and longest
    identifiers, numbers and punctuators, and the stream encodes exactly the tokens
    of these pieces with their directive anchors. *)
Theorem tokenize_reads_source (allocated : Z -> bool * bool) (source : list byte) (file : Z)
    (reset_allocated : bool) (out0 out : lexical_stream) (error : lexical_error) :
  storage_ok out0 -> Z.of_nat (length source) <= size_max ->
  tokenize allocated source file reset_allocated out0 = Some (success, error, out) ->
  exists ts, lexes fresh_line 0 source ts /\
    words out = encode 0 ts /\ directives out = anchors 0 0 ts /\
    error = no_lexical_error.
Proof.
  intros Hs Hsz Ht.
  destruct (tokenize_accepts _ _ _ _ _ _ _ Hs Hsz Ht) as (-> & ts & Hp & Hl).
  exists ts. pose proof (produced_holds _ _ Hp) as Hh. split; [done|]. split_and!; [apply Hh..|done].
Qed.

(** ** Directives are bracketed *)

(** A reader of tokens: inside a directive, and just after an [include]. *)
Fixpoint bracketed (open after_include : bool) (ts : list token) : Prop :=
  match ts with
  | [] => open = false
  | t :: ts =>
      match tok_kind t with
      | pp_end => open = true /\ bracketed false false ts
      | tk_header_name_quoted | tk_header_name_angled =>
          open = true /\ after_include = true /\ bracketed true false ts
      | pp_defined => open = true /\ bracketed true false ts
      | kind =>
          if directive_start kind
          then open = false /\ bracketed true (bool_decide (kind = pp_include)) ts
          else bracketed open false ts
      end
  end.

(** Kinds that neither open, close nor belong to a directive. *)
Definition plain_kind (kind : token_kind) : bool :=
  match kind with
  | pp_end | tk_header_name_quoted | tk_header_name_angled | pp_defined => false
  | _ => negb (directive_start kind)
  end.

Lemma bracketed_plain open after t ts :
  plain_kind (tok_kind t) = true -> bracketed open after (t :: ts) <-> bracketed open false ts.
Proof. unfold plain_kind. simpl. by destruct (tok_kind t). Qed.

Lemma name_kind_start name : directive_start (name_kind name) = true.
Proof. destruct name; [done|]. unfold name_kind, directive_kind. repeat case_bool_decide; done. Qed.

Lemma bracketed_start after t ts :
  directive_start (tok_kind t) = true ->
  bracketed true (bool_decide (tok_kind t = pp_include)) ts -> bracketed false after (t :: ts).
Proof. simpl. by destruct (tok_kind t). Qed.

Lemma keyword_plain text : plain_kind (keyword_kind text) = true.
Proof.
  assert (Forall (fun c => plain_kind c.2.2 = true) keyword_cases) as Hall by repeat constructor.
  unfold keyword_kind. destruct (list_find _ keyword_cases) as [[i [h [w k]]]|] eqn:E; [|done].
  apply list_find_Some in E as (Hi & _ & _). rewrite Forall_lookup in Hall.
  specialize (Hall _ _ Hi). simpl in Hall. by case_bool_decide.
Qed.

Lemma token_text_plain directive kind text rest :
  token_text directive kind text rest ->
  plain_kind kind = true \/ kind = pp_defined /\ directive = true.
Proof.
  intros [kind' text' rest' Hl|text' rest' _ _ _|text' rest' _ _|kind' text' rest' Hp _].
  - left. assert (Forall (fun e => plain_kind e.2 = true) literal_openings) as Hall
      by repeat constructor. rewrite Forall_forall in Hall.
    destruct Hl as [prefix quote lk body Hin _ _|prefix d body Hin _ _ _]; apply (Hall _ Hin).
  - destruct directive; simpl; [|left; apply keyword_plain].
    case_bool_decide; [by right|left; apply keyword_plain].
  - by left.
  - left. assert (Forall (fun e => plain_kind e.2 = true) punctuators) as Hall
      by (unfold punctuators; repeat constructor). rewrite Forall_forall in Hall.
    destruct Hp as (t & Hin & _). apply (Hall _ Hin).
Qed.

(** The flags of the loop agree with the reader's state. *)
Definition mode_ok (m : lex_mode) (after : bool) : Prop :=
  (line_start m = true -> in_directive m = false) /\
  (include_header_pending m = true -> in_directive m = true /\ after = true).

Lemma fresh_ok after : mode_ok fresh_line after.
Proof. done. Qed.

Lemma bracketed_closing m p after ts :
  bracketed false (if in_directive m then false else after) ts ->
  bracketed (in_directive m) after (closing m p ++ ts).
Proof. unfold closing. by destruct (in_directive m). Qed.

Lemma piece_bracketed m p text rest new m' after ts :
  piece m p text rest new m' -> mode_ok m after ->
  (forall after', mode_ok m' after' -> bracketed (in_directive m') after' ts) ->
  bracketed (in_directive m) after (new ++ ts).
Proof.
  intros Hp Hok Hts. destruct Hp as [c rest _|nl rest _|body rest _ _ _|body rest _
    |blanks name rest Hls _ _|opening close kind body rest Hpend Hq _|kind text rest _ Htext].
  - by apply Hts.
  - apply bracketed_closing, Hts, fresh_ok.
  - by apply Hts.
  - unfold comment_tokens. destruct (has_newline body); [apply bracketed_closing|]; by apply Hts.
  - destruct Hok as [Hls' _]. rewrite (Hls' Hls).
    apply bracketed_start; [apply name_kind_start|]. apply Hts. split; [done|].
    simpl. intros ->. done.
  - destruct Hok as [Hls Hpend']. destruct (Hpend' Hpend) as [Hin ->]. clear Hpend'.
    cbn [in_directive] in Hts. rewrite Hin in *.
    assert (kind = tk_header_name_quoted \/ kind = tk_header_name_angled) as Hk.
    { apply elem_of_cons in Hq as [[= -> -> ->]|Hq]; [by left|].
      apply elem_of_cons in Hq as [[= -> -> ->]|Hq]; [by right|]. by apply elem_of_nil in Hq. }
    assert (bracketed true false ts) as Hb
      by (apply Hts; split; simpl; [intros Hl; by specialize (Hls Hl)|done]).
    simpl. by destruct Hk as [-> | ->].
  - cbn [in_directive] in Hts. assert (bracketed (in_directive m) false ts) as Hb
      by by apply Hts.
    destruct (token_text_plain _ _ _ _ Htext) as [Hk|[-> Hd]].
    + simpl app. by apply bracketed_plain.
    + rewrite Hd in *. done.
Qed.

Lemma lexes_bracketed m p l ts :
  lexes m p l ts -> forall after, mode_ok m after -> bracketed (in_directive m) after ts.
Proof.
  induction 1 as [m p|m p text rest new m' ts Hp _ IH]; intros after Hok.
  - rewrite <- (app_nil_r (closing m p)). apply bracketed_closing. done.
  - by eapply piece_bracketed.
Qed.

(** In the tokens of an accepted source every directive token is closed by one
    [pp_end] before the next directive token, at the latest at the end of the file;
    a [pp_end] and a [pp_defined] stand only inside a directive, and a header name
    only directly after an [include] token. *)
Theorem directives_bracketed (allocated : Z -> bool * bool) (source : list byte) (file : Z)
    (reset_allocated : bool) (out0 out : lexical_stream) (error : lexical_error) :
  storage_ok out0 -> Z.of_nat (length source) <= size_max ->
  tokenize allocated source file reset_allocated out0 = Some (success, error, out) ->
  exists ts, words out = encode 0 ts /\ tokens out = Z.of_nat (length ts) /\
    bracketed false false ts.
Proof.
  intros Hs Hsz Ht.
  destruct (tokenize_accepts _ _ _ _ _ _ _ Hs Hsz Ht) as (_ & ts & Hp & Hl).
  exists ts. pose proof (produced_holds _ _ Hp) as Hh.
  split; [apply Hh|]. split; [apply Hh|]. by apply (lexes_bracketed _ _ _ _ Hl).
Qed.

(** A file with a directive, a comment that ends it and a macro test. *)
Definition example_source : list byte := str "# include <a> /*
*/ x
#if defined(Y) // z".

Definition example_result : lexical_stream :=
  match tokenize all_allocated example_source 1 true new_lexical_stream with
  | Some (_, _, out) => out
  | None => new_lexical_stream
  end.

Lemma tokenize_reads_source_witness :
  exists ts, lexes fresh_line 0 example_source ts /\
    words example_result = encode 0 ts /\ directives example_result = anchors 0 0 ts /\
    no_lexical_error = no_lexical_error.
Proof.
  apply (tokenize_reads_source all_allocated example_source 1 true new_lexical_stream
    example_result no_lexical_error); [apply new_storage_ok|vm_compute; done|].
  vm_compute. reflexivity.
Defined.

Lemma directives_bracketed_witness :
  exists ts, words example_result = encode 0 ts /\
    tokens example_result = Z.of_nat (length ts) /\ bracketed false false ts.
Proof.
  apply (directives_bracketed all_allocated example_source 1 true new_lexical_stream
    example_result no_lexical_error); [apply new_storage_ok|vm_compute; done|].
  vm_compute. reflexivity.
Defined.
