(* ===== verification/LexedInput.v ===== *)
(** The lexer and the input stack together: a file that [tokenize] accepted is read
    back from its words as the tokens of its source. *)

From S2P Require Import Prelude ServerStatus LexicalToken LexicalStream FrontendInput.
From S2P Require Import LexerScan LexerText Lexer.

Local Open Scope Z_scope.

Section Lexed.
Context {G : Type} `{LexicalWords G} (lexical : G).

(** C7: Entering a file whose words are those of an accepted source reads the tokens
    of that source, each with its kind, offset and length, and nothing else. *)
Theorem lexed_file_reads_source (allocated : Z -> bool * bool) (source : list byte) (file : Z)
    (reset_allocated : bool) (out0 out : lexical_stream) (error : lexical_error)
    (input : frontend_input) :
  storage_ok out0 -> Z.of_nat (length source) <= size_max ->
  tokenize allocated source file reset_allocated out0 = Some (success, error, out) ->
  lexical_contains lexical file = true -> lexical_words lexical file = words out ->
  Z.of_nat (length (words out)) <= u32_max ->
  (length input < frontend_include_depth_limit)%nat ->
  exists ts entered read,
    lexes fresh_line 0 source ts /\ enter lexical file input = (success, entered) /\
    drain (length ts) entered = Some (in_file file <$> ts, read) /\
    finished read = true /\ leave read = (success, input).
Proof.
  intros Hs Hsz Ht Hc Hw Hlen Hdepth.
  destruct (tokenize_accepts _ _ _ _ _ _ _ Hs Hsz Ht) as (-> & ts & Hp & Hl).
  pose proof (produced_holds _ _ Hp) as Hh. rewrite (holds_words _ _ Hh) in *.
  exists ts. unfold enter. rewrite Hc, (proj2 (Nat.eqb_neq _ _)) by lia. simpl negb. cbn [orb].
  rewrite Hw. pose proof (drain_reads file [] 0 ts input (source_size out) ltac:(done)) as Hd.
  eexists _, _. split; [done|]. split; [done|]. split.
  - apply Hd; [split; [done|apply (holds_size _ _ Hh)]|apply (holds_size _ _ Hh)
      |apply (holds_order _ _ Hh)|done].
  - split; [apply frame_done|]. unfold leave. by rewrite frame_done.
Qed.
End Lexed.

Lemma lexed_file_reads_source_witness :
  exists ts entered read,
    lexes fresh_line 0 example_source ts /\
    enter ({[ 1 := words example_result ]} : gmap Z (list Z)) 1 [] = (success, entered) /\
    drain (length ts) entered = Some (in_file 1 <$> ts, read) /\
    finished read = true /\ leave read = (success, []).
Proof.
  apply (lexed_file_reads_source ({[ 1 := words example_result ]} : gmap Z (list Z))
    all_allocated example_source 1 true new_lexical_stream example_result no_lexical_error);
    [apply new_storage_ok|vm_compute; done|vm_compute; reflexivity|vm_compute; done..|].
  unfold frontend_include_depth_limit. simpl. lia.
Defined.
