(* ===== verification/DirectiveDecoder.v ===== *)
(** The decoder of one preprocessing directive (project/frontend/directive_decoder.hpp
    and .cpp), reading from the input stack, and its specification: which operands
    each directive accepts and what is recorded of them. *)

From S2P Require Import Prelude ServerStatus LexicalToken LexicalStream FrontendInput.

Local Open Scope Z_scope.

Record source_range := SourceRange { range_offset : Z; range_length : Z }.

Definition no_range : source_range := SourceRange 0 0.

Inductive directive_kind :=
| dk_invalid | dk_include | dk_define | dk_undef | dk_if | dk_ifdef | dk_ifndef
| dk_elif | dk_else | dk_endif | dk_line | dk_error | dk_pragma | dk_unknown.

#[export] Instance directive_kind_eq_dec : EqDecision directive_kind.
Proof. solve_decision. Defined.

Inductive include_form := form_none | form_quoted | form_angled.

#[export] Instance include_form_eq_dec : EqDecision include_form.
Proof. solve_decision. Defined.

Record directive_range := DirectiveRange {
  dr_file : Z;
  dr_word_offset : Z;
  dr_word_count : Z;
  dr_source : source_range
}.

Record include_directive := IncludeDirective {
  inc_form : include_form;
  inc_locator : source_range
}.

Record identifier_directive := IdentifierDirective {
  id_name : source_range;
  id_replacement : source_range
}.

Record preprocessing_directive := PreprocessingDirective {
  pd_kind : directive_kind;
  pd_range : directive_range;
  pd_include : include_directive;
  pd_identifier : identifier_directive
}.

Definition no_include : include_directive := IncludeDirective form_none no_range.
Definition no_identifier : identifier_directive := IdentifierDirective no_range no_range.
Definition no_directive : preprocessing_directive :=
  PreprocessingDirective dk_invalid (DirectiveRange 0 0 0 no_range) no_include no_identifier.

Definition decode_kind (kind : token_kind) : directive_kind :=
  match kind with
  | pp_include => dk_include
  | pp_define => dk_define
  | pp_undef => dk_undef
  | pp_if => dk_if
  | pp_ifdef => dk_ifdef
  | pp_ifndef => dk_ifndef
  | pp_elif => dk_elif
  | pp_else => dk_else
  | pp_endif => dk_endif
  | pp_line => dk_line
  | pp_error => dk_error
  | pp_pragma => dk_pragma
  | pp_unknown => dk_unknown
  | _ => dk_invalid
  end.

Definition decode_include_form (kind : token_kind) : include_form :=
  match kind with
  | tk_header_name_quoted => form_quoted
  | tk_header_name_angled => form_angled
  | _ => form_none
  end.

(** The local variables of the loop. *)
Record operands := Operands {
  argument_count : Z;
  direct_include : bool;
  the_include : include_directive;
  the_identifier : identifier_directive
}.

Definition no_operands : operands := Operands 0 false no_include no_identifier.

Definition token_range (t : frontend_token) : source_range :=
  SourceRange (ft_offset t) (ft_length t).

(** One operand token; nothing when the code returns an error. *)
Definition operand (kind : directive_kind) (current : frontend_token) (o : operands)
  : option operands :=
  let count := u32 (argument_count o + 1) in
  match kind with
  | dk_include =>
      if argument_count o =? 0 then
        let form := decode_include_form (ft_kind current) in
        if bool_decide (form = form_none)
        then Some (Operands count (direct_include o) (the_include o) (the_identifier o))
        else Some (Operands count true (IncludeDirective form (token_range current))
                     (the_identifier o))
      else if direct_include o then None
      else Some (Operands count (direct_include o) (the_include o) (the_identifier o))
  | dk_define =>
      if negb (bool_decide (ft_kind current = tk_identifier)) || (2 <=? argument_count o)
      then None
      else
        Some (Operands count (direct_include o) (the_include o)
          (if argument_count o =? 0
           then IdentifierDirective (token_range current) (id_replacement (the_identifier o))
           else IdentifierDirective (id_name (the_identifier o)) (token_range current)))
  | dk_undef | dk_ifdef | dk_ifndef =>
      if negb (bool_decide (ft_kind current = tk_identifier)) || negb (argument_count o =? 0)
      then None
      else
        Some (Operands count (direct_include o) (the_include o)
          (IdentifierDirective (token_range current) (id_replacement (the_identifier o))))
  | dk_else | dk_endif => None
  | _ => Some (Operands count (direct_include o) (the_include o) (the_identifier o))
  end.

(** The operand count checked at the end of the directive. *)
Definition count_accepted (kind : directive_kind) (count : Z) : bool :=
  match kind with
  | dk_define => negb ((count <? 1) || (2 <? count))
  | dk_undef | dk_ifdef | dk_ifndef => count =? 1
  | dk_else | dk_endif => count =? 0
  | _ => true
  end.

(** The loop after the directive token [first], which started at the word
    [word_begin] of [file]. *)
Fixpoint decode_loop (fuel : nat) (file word_begin : Z) (first : frontend_token)
    (kind : directive_kind) (o : operands) (input : frontend_input)
  : option (server_status * preprocessing_directive * frontend_input) :=
  match fuel with
  | O => None
  | S fuel =>
      let '(status, current, input) := next input in
      let invalid := Some (project_configuration_invalid, no_directive, input) in
      if negb (succeeded status) then Some (status, no_directive, input)
      else if negb (ft_file current =? file) then invalid
      else if bool_decide (ft_kind current = pp_end) then
        let word_end := input_word_offset input in
        if (word_end <? word_begin) || (ft_offset current <? ft_offset first) ||
           negb (count_accepted kind (argument_count o)) || (word_end - word_begin =? 0)
        then invalid
        else
          Some (success,
            PreprocessingDirective kind
              (DirectiveRange file word_begin (word_end - word_begin)
                (SourceRange (ft_offset first) (ft_offset current - ft_offset first)))
              (the_include o) (the_identifier o),
            input)
      else
        match operand kind current o with
        | None => invalid
        | Some o => decode_loop fuel file word_begin first kind o input
        end
  end.

(** Every token takes at least one word of the current file. *)
Definition decode_fuel (input : frontend_input) : nat :=
  match input with
  | [] => 1
  | current :: _ => S (length (frame_words current) - Z.to_nat (frame_word_offset current))
  end.

Definition decode (input : frontend_input)
  : option (server_status * preprocessing_directive * frontend_input) :=
  if match input with [] => true | _ => false end || finished input
  then Some (project_configuration_invalid, no_directive, input)
  else
    let file := current_file input in
    let word_begin := input_word_offset input in
    let fuel := decode_fuel input in
    let '(status, first, input) := next input in
    if negb (succeeded status) then Some (status, no_directive, input)
    else
      let kind := decode_kind (ft_kind first) in
      if bool_decide (kind = dk_invalid) || negb (ft_file first =? file)
      then Some (project_configuration_invalid, no_directive, input)
      else decode_loop fuel file word_begin first kind no_operands input.

(** ** Specification *)

Definition range_of (t : token) : source_range := SourceRange (tok_offset t) (tok_length t).

Definition is_identifier (t : token) : bool := bool_decide (tok_kind t = tk_identifier).

(** What a directive records of its operands; nothing when they do not fit. *)
Definition operands_spec (kind : directive_kind) (args : list token)
  : option (include_directive * identifier_directive) :=
  match kind with
  | dk_include =>
      match args with
      | [] => Some (no_include, no_identifier)
      | t :: more =>
          if bool_decide (decode_include_form (tok_kind t) = form_none)
          then Some (no_include, no_identifier)
          else
            match more with
            | [] => Some (IncludeDirective (decode_include_form (tok_kind t)) (range_of t),
                          no_identifier)
            | _ => None
            end
      end
  | dk_define =>
      match args with
      | [n] => if is_identifier n
               then Some (no_include, IdentifierDirective (range_of n) no_range) else None
      | [n; r] => if is_identifier n && is_identifier r
                  then Some (no_include, IdentifierDirective (range_of n) (range_of r)) else None
      | _ => None
      end
  | dk_undef | dk_ifdef | dk_ifndef =>
      match args with
      | [n] => if is_identifier n
               then Some (no_include, IdentifierDirective (range_of n) no_range) else None
      | _ => None
      end
  | dk_else | dk_endif =>
      match args with [] => Some (no_include, no_identifier) | _ => None end
  | _ => Some (no_include, no_identifier)
  end.

Fixpoint operands_from (kind : directive_kind) (o : operands) (args : list frontend_token)
  : option operands :=
  match args with
  | [] => Some o
  | t :: args =>
      match operand kind t o with
      | None => None
      | Some o => operands_from kind o args
      end
  end.

(** What the end of the directive records. *)
Definition accepted (kind : directive_kind) (o : option operands)
  : option (include_directive * identifier_directive) :=
  match o with
  | Some o => if count_accepted kind (argument_count o)
              then Some (the_include o, the_identifier o) else None
  | None => None
  end.

Lemma u32_count n : 0 <= n <= u32_max -> u32 n = n.
Proof. intros. unfold u32, u32_max in *. apply Z.mod_small. lia. Qed.

(** Directives that take any operands record none of them. *)
Definition takes_any (kind : directive_kind) : bool :=
  match kind with
  | dk_include | dk_define | dk_undef | dk_ifdef | dk_ifndef | dk_else | dk_endif => false
  | _ => true
  end.

Lemma operands_any kind o args :
  takes_any kind = true ->
  accepted kind (operands_from kind o args) = Some (the_include o, the_identifier o).
Proof.
  intros Hk. revert o. induction args as [|t args IH]; intros o.
  - by destruct kind.
  - cbn [operands_from]. assert (operand kind t o
      = Some (Operands (u32 (argument_count o + 1)) (direct_include o) (the_include o)
                (the_identifier o))) as -> by by destruct kind.
    by rewrite IH.
Qed.

(** An [include] that does not name a header ignores its operands. *)
Lemma operands_computed o args :
  0 < argument_count o -> argument_count o + Z.of_nat (length args) <= u32_max ->
  direct_include o = false ->
  accepted dk_include (operands_from dk_include o args)
  = Some (the_include o, the_identifier o).
Proof.
  revert o. induction args as [|t args IH]; intros o Hc Hl Hd; [done|].
  cbn [operands_from operand]. simpl in Hl.
  rewrite (proj2 (Z.eqb_neq _ 0)), Hd, u32_count by lia.
  rewrite IH; simpl; [done|lia|lia|done].
Qed.

Lemma operands_from_spec file kind args :
  Z.of_nat (length args) < u32_max ->
  accepted kind (operands_from kind no_operands (in_file file <$> args))
  = operands_spec kind args.
Proof.
  intros Hlen. destruct (takes_any kind) eqn:Hk.
  { rewrite operands_any by done. by destruct kind. }
  destruct args as [|t args]; [by destruct kind|]. unfold is_identifier.
  assert (forall kind, kind = dk_undef \/ kind = dk_ifdef \/ kind = dk_ifndef ->
    accepted kind (operands_from kind no_operands (in_file file <$> t :: args))
    = operands_spec kind (t :: args)) as Hone.
  { intros k Hk'. destruct Hk' as [-> |[-> | ->]];
      cbn [fmap list_fmap operands_from operand in_file ft_kind operands_spec];
      unfold is_identifier; case_bool_decide; (destruct args as [|u args]; [done|]);
      cbn [fmap list_fmap operands_from operand]; simpl; by rewrite ?orb_true_r. }
  destruct kind; try done; try (apply Hone; by auto); clear Hone.
  - cbn [fmap list_fmap operands_from operand in_file ft_kind operands_spec no_operands
      argument_count]. rewrite Z.eqb_refl. case_bool_decide as Hf.
    + rewrite operands_computed; [done|simpl; vm_compute; done| |done].
      rewrite length_fmap. cbn [argument_count]. rewrite u32_count by done. simpl in Hlen. lia.
    + destruct args as [|u args]; [done|]. done.
  - cbn [fmap list_fmap operands_from operand in_file ft_kind operands_spec no_operands
      argument_count]. rewrite Z.eqb_refl. unfold is_identifier. case_bool_decide; simpl.
    2: { by destruct args as [|u [|v args]]. }
    destruct args as [|u args]; [done|]. cbn [fmap list_fmap operands_from operand].
    simpl. case_bool_decide; simpl; [|by destruct args].
    destruct args as [|v args]; [done|].
    cbn [fmap list_fmap operands_from operand]. simpl. by rewrite orb_true_r.
Qed.

(** ** Reading the tokens of a stream *)

(** The reader stands in a file between the words [pre] and the tokens [ts]. *)
Record reading (size : Z) (pre : list Z) (base : Z) (ts : list token) : Prop := Reading {
  reading_first : pre = [] -> base = 0;
  reading_base : 0 <= base <= size;
  reading_size : size <= u32_max;
  reading_order : ordered size base ts;
  reading_words : Z.of_nat (length (pre ++ encode base ts)) <= u32_max
}.

Definition words_of (base : Z) (t : token) : list Z :=
  token_words (tok_kind t) (tok_offset t - base) (tok_length t).

Lemma reading_next file pre base t ts suspended size :
  reading size pre base (t :: ts) ->
  next (frame_at file pre base (t :: ts) :: suspended)
  = (success, in_file file t,
     frame_at file (pre ++ words_of base t) (tok_offset t) ts :: suspended) /\
  reading size (pre ++ words_of base t) (tok_offset t) ts.
Proof.
  intros [Hf Hb Hs Ho Hw]. split; [by apply (next_reads file pre base t ts suspended size)|].
  pose proof (length_token_words (tok_kind t) (tok_offset t - base) (tok_length t)) as Hl.
  destruct Ho as (_ & ? & ? & ? & Ho). split; try done; [|lia|].
  - intros E. apply app_nil in E as [_ E]. unfold words_of in E. rewrite E in Hl.
    simpl in Hl. lia.
  - cbn [encode] in Hw. unfold words_of. by rewrite <- app_assoc.
Qed.

Lemma frame_words_at file pre base ts :
  frame_words (frame_at file pre base ts) = pre ++ encode base ts.
Proof. done. Qed.

Lemma encode_length_ge base ts : (length ts <= length (encode base ts))%nat.
Proof.
  revert base. induction ts as [|t ts IH]; intros base; [simpl; lia|]. cbn [encode].
  pose proof (length_token_words (tok_kind t) (tok_offset t - base) (tok_length t)).
  specialize (IH (tok_offset t)). rewrite length_app. simpl. lia.
Qed.

Definition not_end (t : token) : Prop := tok_kind t <> pp_end.

(** The directive from [first] on, up to its end [e], as the decoder returns it. *)
Definition decoded (kind : directive_kind) (file word_begin word_end : Z) (first e : token)
    (ops : include_directive * identifier_directive) : preprocessing_directive :=
  PreprocessingDirective kind
    (DirectiveRange file word_begin (word_end - word_begin)
      (SourceRange (tok_offset first) (tok_offset e - tok_offset first)))
    ops.1 ops.2.

Lemma decode_loop_spec fuel file word_begin first kind o pre base args e rest suspended size :
  reading size pre base (args ++ e :: rest) -> Forall not_end args -> tok_kind e = pp_end ->
  (length args < fuel)%nat -> tok_offset first <= base -> word_begin < Z.of_nat (length pre) ->
  let result := decode_loop fuel file word_begin (in_file file first) kind o
    (frame_at file pre base (args ++ e :: rest) :: suspended) in
  let pre' := pre ++ encode base (args ++ [e]) in
  match accepted kind (operands_from kind o (in_file file <$> args)) with
  | Some ops =>
      result = Some (success,
        decoded kind file word_begin (Z.of_nat (length pre')) first e ops,
        frame_at file pre' (tok_offset e) rest :: suspended)
  | None => exists input, result = Some (project_configuration_invalid, no_directive, input)
  end.
Proof.
  revert fuel o pre base. induction args as [|t args IH]; intros [|fuel] o pre base Hr Hall He
    Hfuel Hfirst Hwb; simpl in Hfuel; try lia; cbn [app] in *; cbn [decode_loop].
  - destruct (reading_next file pre base e rest suspended size Hr) as [-> Hr'].
    pose proof (length_token_words (tok_kind e) (tok_offset e - base) (tok_length e)) as Hl.
    destruct (reading_order _ _ _ _ Hr) as (_ & Hb & _).
    simpl negb. cbn [in_file ft_file ft_kind ft_offset]. rewrite Z.eqb_refl, bool_decide_true by done.
    cbn [fmap list_fmap operands_from accepted encode frame_at input_word_offset frame_word_offset].
    simpl negb. cbn iota. rewrite app_nil_r. fold (words_of base e).
    set (pre' := pre ++ words_of base e).
    assert (Z.of_nat (length pre) < Z.of_nat (length pre')).
    { subst pre'. unfold words_of. rewrite length_app. lia. }
    rewrite (proj2 (Z.ltb_ge _ _)), (proj2 (Z.ltb_ge _ _)), (proj2 (Z.eqb_neq _ _)) by lia.
    cbn [orb]. rewrite orb_false_r. destruct (count_accepted kind (argument_count o)); [done|].
    simpl. by eexists.
  - destruct (reading_next file pre base t (args ++ e :: rest) suspended size Hr) as [-> Hr'].
    apply Forall_cons in Hall as [Ht Hall].
    pose proof (length_token_words (tok_kind t) (tok_offset t - base) (tok_length t)) as Hl.
    destruct (reading_order _ _ _ _ Hr) as (_ & Hb & _).
    simpl negb. cbn [in_file ft_file ft_kind ft_offset]. rewrite Z.eqb_refl, bool_decide_false by done.
    simpl negb. cbn iota. cbn [fmap list_fmap operands_from].
    change (FrontendToken file (tok_kind t) (tok_offset t) (tok_length t)) with (in_file file t).
    destruct (operand kind (in_file file t) o) as [o'|]; [|by eexists].
    specialize (IH fuel o' (pre ++ words_of base t) (tok_offset t) Hr' Hall He ltac:(lia) ltac:(lia)).
    cbn [encode]. fold (words_of base t). rewrite <- app_assoc in IH. apply IH.
    rewrite length_app. lia.
Qed.

(** The directive at the head of the tokens. *)
Lemma decode_spec file pre base first args e rest suspended size :
  reading size pre base (first :: args ++ e :: rest) ->
  directive_start (tok_kind first) = true -> Forall not_end args -> tok_kind e = pp_end ->
  let kind := decode_kind (tok_kind first) in
  let result := decode (frame_at file pre base (first :: args ++ e :: rest) :: suspended) in
  let pre' := pre ++ encode base (first :: args ++ [e]) in
  match operands_spec kind args with
  | Some ops =>
      result = Some (success,
        decoded kind file (Z.of_nat (length pre)) (Z.of_nat (length pre')) first e ops,
        frame_at file pre' (tok_offset e) rest :: suspended)
  | None => exists input, result = Some (project_configuration_invalid, no_directive, input)
  end.
Proof.
  intros Hr Hd Hall He kind result pre'. subst result. unfold decode.
  assert (S (length args) < length (encode base (first :: args ++ e :: rest)))%nat as Hge.
  { eapply Nat.lt_le_trans; [|apply encode_length_ge]. simpl. rewrite length_app. simpl. lia. }
  pose proof (length_token_words (tok_kind first) (tok_offset first - base) (tok_length first))
    as Hl.
  assert (finished (frame_at file pre base (first :: args ++ e :: rest) :: suspended) = false)
    as ->.
  { cbn [finished frame_at frame_word_offset frame_words]. apply Z.eqb_neq.
    rewrite length_app. lia. }
  cbn [orb]. destruct (reading_next file pre base first (args ++ e :: rest) suspended size Hr)
    as [-> Hr'].
  simpl negb. cbn [current_file input_word_offset frame_at frame_file frame_word_offset in_file
    ft_file ft_kind]. cbn iota. fold kind.
  rewrite Z.eqb_refl, bool_decide_false by (subst kind; by destruct (tok_kind first)).
  cbn [orb negb]. change (FrontendToken file (tok_kind first) (tok_offset first)
    (tok_length first)) with (in_file file first).
  pose proof (decode_loop_spec
    (decode_fuel (frame_at file pre base (first :: args ++ e :: rest) :: suspended)) file
    (Z.of_nat (length pre)) first kind no_operands (pre ++ words_of base first)
    (tok_offset first) args e rest suspended size Hr' Hall He) as Hloop.
  rewrite operands_from_spec in Hloop.
  2: { pose proof (reading_words _ _ _ _ Hr) as Hw. rewrite length_app in Hw. lia. }
  subst pre'. cbn [encode]. fold (words_of base first). rewrite app_assoc.
  apply Hloop; [|lia|rewrite length_app; unfold words_of; lia].
  unfold decode_fuel. cbn [frame_at frame_words frame_word_offset]. rewrite Nat2Z.id, length_app.
  lia.
Qed.

Lemma reading_suffix s before ts :
  stream_holds s (before ++ ts) -> Z.of_nat (length (words s)) <= u32_max ->
  words s = encode 0 before ++ encode (last_offset 0 before) ts /\
  reading (source_size s) (encode 0 before) (last_offset 0 before) ts.
Proof.
  intros Hs Hlen. pose proof (holds_order _ _ Hs) as Ho. apply ordered_app in Ho as [Ho1 Ho2].
  pose proof (holds_size _ _ Hs) as Hsz.
  assert (words s = encode 0 before ++ encode (last_offset 0 before) ts) as Hw
    by by rewrite (holds_words _ _ Hs), encode_app.
  split; [done|]. split; [|by apply last_offset_bounds; [|lia]|lia|done|by rewrite <- Hw].
  destruct before as [|t before]; [done|]. cbn [encode]. intros E. exfalso.
  apply app_nil in E as [E _].
  pose proof (length_token_words (tok_kind t) (tok_offset t - 0) (tok_length t)) as Hl.
  rewrite E in Hl. simpl in Hl. lia.
Qed.

(** ** The contract *)

Section Contract.
Context {G : Type} `{LexicalWords G} (lexical : G).

(** Entering a file at the anchor of one of its directives and decoding reads
    exactly the tokens of that directive: when its operands fit the directive, its
    kind, word range, source range and operand ranges are delivered and the input
    stands at the token after its end; otherwise it is refused as invalid. *)
Theorem anchored_directive_decodes (s : lexical_stream) (file : Z) (input : frontend_input)
    (before args rest : list token) (first e : token) :
  produced s (before ++ first :: args ++ e :: rest) ->
  directive_start (tok_kind first) = true -> Forall not_end args -> tok_kind e = pp_end ->
  Z.of_nat (length (words s)) <= u32_max ->
  lexical_contains lexical file = true -> lexical_words lexical file = words s ->
  let anchor := Anchor (Z.of_nat (length (encode 0 before))) (last_offset 0 before) in
  let word_end := Z.of_nat (length (encode 0 (before ++ first :: args ++ [e]))) in
  let kind := decode_kind (tok_kind first) in
  anchor ∈ directives s /\
  exists entered,
    start_at lexical file (word_offset anchor) (source_base anchor) input = (success, entered) /\
    match operands_spec kind args with
    | Some ops => exists after read,
        decode entered = Some (success,
          decoded kind file (word_offset anchor) word_end first e ops, after) /\
        drain (length rest) after = Some (in_file file <$> rest, read) /\ finished read = true
    | None => exists after,
        decode entered = Some (project_configuration_invalid, no_directive, after)
    end.
Proof.
  intros Hp Hd Hall He Hlen Hc Hw anchor word_end kind.
  pose proof (produced_holds _ _ Hp) as Hs.
  destruct (reading_suffix s before _ Hs Hlen) as [Hwords Hr]. split.
  { rewrite (holds_anchors _ _ Hs), anchors_app. apply elem_of_app. right.
    cbn [anchors]. rewrite Hd. apply elem_of_app. left. apply list_elem_of_singleton.
    by rewrite Z.add_0_l. }
  pose proof (decode_spec file _ _ first args e rest [] (source_size s) Hr Hd Hall He) as Hdec.
  eexists. split.
  { unfold start_at. rewrite Hc, Hw, Hwords. simpl negb. cbn iota.
    rewrite (proj2 (Z.leb_gt _ _)); [done|]. cbn [word_offset anchor].
    rewrite length_app.
    assert (0 < length (encode (last_offset 0 before) (first :: args ++ e :: rest)))%nat; [|lia].
    eapply Nat.lt_le_trans; [|apply encode_length_ge]. simpl. lia. }
  fold kind in Hdec. cbv zeta in Hdec. destruct (operands_spec kind args) as [ops|]; [|exact Hdec].
  assert (before ++ first :: args ++ e :: rest = (before ++ first :: args ++ [e]) ++ rest)
    as Heq by (rewrite <- app_assoc; simpl; by rewrite <- app_assoc).
  rewrite Heq in Hs. destruct (reading_suffix s _ _ Hs Hlen) as [_ Hr'].
  assert (encode 0 before ++ encode (last_offset 0 before) (first :: args ++ [e])
    = encode 0 (before ++ first :: args ++ [e])) as Henc by by rewrite encode_app.
  assert (last_offset 0 (before ++ first :: args ++ [e]) = tok_offset e) as Hlast.
  { rewrite app_comm_cons, app_assoc, last_offset_app. done. }
  rewrite Henc in Hdec. rewrite Hlast in Hr'.
  eexists _, _. split; [exact Hdec|].
  pose proof Hr' as [Hf Hb Hsz Ho Hwl]. split; [by eapply drain_reads|apply frame_done].
Qed.
End Contract.

(** ** Totality *)

(** Reading positions are unsigned. *)
Definition input_ok (input : frontend_input) : Prop :=
  Forall (fun f => 0 <= frame_word_offset f) input.

Lemma read_word_spec ws pos v pos' :
  read_word ws pos = Some (v, pos') -> pos' = S pos /\ (pos < length ws)%nat.
Proof.
  unfold read_word. destruct (ws !! pos) eqn:E; [|done]. intros [= -> <-].
  split; [done|]. by apply lookup_lt_Some in E.
Qed.

Lemma read_field_spec (b : bool) ws pos code v pos' :
  (if b then read_word ws pos else Some (code, pos)) = Some (v, pos') ->
  (pos <= pos')%nat /\ (pos <= length ws -> pos' <= length ws)%nat.
Proof.
  destruct b; [|intros [= _ ->]; lia]. intros Hr. apply read_word_spec in Hr as [-> ?]. lia.
Qed.

(** A successful read moves forward inside the current file. *)
Lemma next_progress input t input' :
  input_ok input -> next input = (success, t, input') ->
  input_ok input' /\ (decode_fuel input' < decode_fuel input)%nat.
Proof.
  intros Hok. destruct input as [|f suspended]; [done|].
  apply Forall_cons in Hok as [Hf Hok]. cbn [next].
  destruct (read_word _ _) as [[value pos]|] eqn:E1; [|done].
  apply read_word_spec in E1 as [-> Hlt]. case_match; [done|].
  destruct (if token_delta _ =? extended_delta then _ else _) as [[delta pos1]|] eqn:E2; [|done].
  destruct (if token_length _ =? extended_length then _ else _) as [[len pos2]|] eqn:E3; [|done].
  apply read_field_spec in E2, E3. case_match; [done|]. case_match; [done|].
  intros [= <- <-]. split; [constructor; [simpl; lia|done]|].
  unfold decode_fuel. cbn [frame_words frame_word_offset]. lia.
Qed.

Lemma decode_loop_total fuel file word_begin first kind o input :
  input_ok input -> (decode_fuel input <= fuel)%nat ->
  is_Some (decode_loop fuel file word_begin first kind o input).
Proof.
  revert o input. induction fuel as [|fuel IH]; intros o input Hok Hf.
  { unfold decode_fuel in Hf. destruct input; lia. }
  cbn [decode_loop]. destruct (next input) as [[status current] input'] eqn:En.
  destruct (succeeded status) eqn:Es; simpl negb; cbn iota; [|done].
  apply succeeded_spec in Es as ->. destruct (next_progress _ _ _ Hok En) as [Hok' Hlt].
  repeat case_match; try done. apply IH; [done|lia].
Qed.

(** [decode] returns on every input, and what it reports as a directive has a
    valid kind and a nonempty range of words. *)
Theorem decode_returns (input : frontend_input) :
  input_ok input ->
  exists status directive input', decode input = Some (status, directive, input') /\
    (status = success -> pd_kind directive <> dk_invalid /\
       0 < dr_word_count (pd_range directive)) /\
    (status <> success -> directive = no_directive).
Proof.
  intros Hok. unfold decode. destruct (_ || _); [by eexists _, _, _|].
  destruct (next input) as [[status first] input'] eqn:En.
  destruct (succeeded status) eqn:Es; simpl negb; cbn iota.
  2: { eexists _, _, _. split; [done|]. split; [|done]. intros ->. done. }
  apply succeeded_spec in Es as ->. destruct (next_progress _ _ _ Hok En) as [Hok' Hlt].
  destruct (_ || _) eqn:Eg; [by eexists _, _, _|]. unbool.
  set (kind := decode_kind (ft_kind first)) in *.
  destruct (decode_loop_total (decode_fuel input) (current_file input)
    (input_word_offset input) first kind no_operands input' Hok') as [[[st d] i] Hl]; [lia|].
  rewrite Hl. eexists _, _, _. split; [done|].
  revert Hl. generalize (decode_fuel input), no_operands. clear En Hok' Hlt. revert input'.
  intros input' fuel. revert input'. induction fuel as [|fuel IH]; intros input' o; [done|].
  cbn [decode_loop]. destruct (next input') as [[s c] i'].
  destruct (succeeded s) eqn:Es; simpl negb; cbn iota.
  2: { intros [= <- <- <-]. split; [|done]. intros ->. done. }
  case_match; [by intros [= <- <- <-]|]. case_match.
  - destruct (_ || _) eqn:Ec; [by intros [= <- <- <-]|]. intros [= <- <- <-]. unbool.
    split; [|done]. intros _. simpl. split; [done|lia].
  - destruct (operand kind c o) as [o'|]; [apply IH|by intros [= <- <- <-]].
Qed.

Lemma decode_returns_witness :
  exists status directive input', decode [InputFrame 1 0 0 (encode 0 [Token pp_else 0 5])]
      = Some (status, directive, input') /\
    (status = success -> pd_kind directive <> dk_invalid /\
       0 < dr_word_count (pd_range directive)) /\
    (status <> success -> directive = no_directive).
Proof. apply decode_returns. by repeat constructor. Defined.

Definition undef_tokens : list token := [Token pp_undef 0 6; Token tk_identifier 7 1; Token pp_end 8 0].

Definition undef_stream : lexical_stream :=
  default example_stream (appended example_stream undef_tokens).

Lemma undef_produced : produced undef_stream undef_tokens.
Proof.
  apply (produced_appended example_stream [] undef_tokens undef_stream example_produced).
  - repeat constructor; simpl; lia.
  - vm_compute. reflexivity.
Qed.

Lemma anchored_directive_decodes_witness :
  let anchor := Anchor 0 0 in
  anchor ∈ directives undef_stream /\
  exists entered,
    start_at ({[ 1 := words undef_stream ]} : gmap Z (list Z)) 1 0 0 [] = (success, entered) /\
    match operands_spec dk_undef [Token tk_identifier 7 1] with
    | Some ops => exists after read,
        decode entered = Some (success,
          decoded dk_undef 1 0 3 (Token pp_undef 0 6) (Token pp_end 8 0) ops, after) /\
        drain 0 after = Some ([], read) /\ finished read = true
    | None => exists after,
        decode entered = Some (project_configuration_invalid, no_directive, after)
    end.
Proof.
  apply (anchored_directive_decodes ({[ 1 := words undef_stream ]} : gmap Z (list Z))
    undef_stream 1 [] [] [Token tk_identifier 7 1] [] (Token pp_undef 0 6) (Token pp_end 8 0));
    [apply undef_produced|done|by repeat constructor|done|vm_compute; done..].
Defined.
