(* ===== verification/DirectiveExecutor.v ===== *)
(** The executor of preprocessing directives (project/frontend/directive_executor.hpp
    and .cpp): conditional groups with the floor of every file entry, macro
    definitions through the string table and the preprocessor, include requests; and
    the theorems that it evaluates well-nested files as the structured program they
    spell and that an entry never closes the groups of its includer. *)

From S2P Require Import Prelude ServerStatus StringTable Preprocessor DirectiveDecoder.

Local Open Scope Z_scope.

Definition directive_conditional_depth_limit : nat := 256.
Definition file_entry_limit : nat := 256.

Inductive execution_error_kind :=
| error_none
| malformed_operand
| invalid_macro_definition
| unsupported_directive
| invalid_include
| file_entry_mismatch
| unmatched_else
| duplicate_else
| unmatched_endif
| conditional_depth_exceeded
| unterminated_conditional.

Record execution_error := ExecutionError {
  ee_kind : execution_error_kind;
  ee_file : Z;
  ee_source : source_range
}.

Definition no_execution_error : execution_error := ExecutionError error_none 0 no_range.

Record include_request := IncludeRequest {
  ir_source : Z;
  ir_form : include_form;
  ir_locator : source_range
}.

(** The result of an execution: its kind is [include] when there is a request. *)
Definition execution_result : Type := option include_request.

Record conditional_frame := ConditionalFrame {
  cf_file : Z;
  cf_source : source_range;
  parent_active : bool;
  condition : bool;
  branch_active : bool;
  else_seen : bool
}.

Record file_entry_frame := FileEntry { fe_file : Z; conditional_floor : nat }.

(** The used parts of the two arrays, innermost first. *)
Record directive_executor (B : Type) := Executor {
  strings : string_table B;
  macros : preprocessor;
  conditionals : list conditional_frame;
  file_entries : list file_entry_frame
}.
Arguments Executor {B}.
Arguments strings {B}.
Arguments macros {B}.
Arguments conditionals {B}.
Arguments file_entries {B}.

(** The outcomes of the allocations of one execution. *)
Record memory := Memory {
  name_memory : allocation;
  replacement_memory : allocation;
  macro_memory : bool
}.

(** The bytes of a range of the source. *)
Definition range_view (source : list byte) (r : source_range) : option (list byte) :=
  let size := Z.of_nat (length source) in
  if (range_length r =? 0) || (size <? range_offset r) || (size - range_offset r <? range_length r)
  then None
  else Some (slice (Z.to_nat (range_offset r)) (Z.to_nat (range_offset r + range_length r)) source).

Section Operations.
Context {B : Type} `{BaselineStrings B}.

Definition executor_reset (x : directive_executor B) : directive_executor B :=
  Executor (strings x) (macros x) [] [].

Definition intern_range (source : list byte) (r : source_range) (a : allocation)
    (t : string_table B) : option (server_status * string_id * string_table B) :=
  match range_view source r with
  | None => Some (project_configuration_invalid, 0, t)
  | Some spelling => intern spelling a t
  end.

Definition active_in (frames : list conditional_frame) : bool :=
  match frames with [] => true | frame :: _ => branch_active frame end.

Definition active (x : directive_executor B) : bool := active_in (conditionals x).

(** The floor of the current entry, when it is an entry of the file. *)
Definition current_file_entry (file : Z) (x : directive_executor B) : option nat :=
  match file_entries x with
  | [] => None
  | entry :: _ =>
      if (file =? 0) || negb (fe_file entry =? file) then None
      else if (conditional_floor entry <=? length (conditionals x))%nat
      then Some (conditional_floor entry) else None
  end.

Definition enter_file (file : Z) (x : directive_executor B)
  : server_status * directive_executor B :=
  if (file =? 0) || (length (file_entries x) =? file_entry_limit)%nat
  then (project_configuration_invalid, x)
  else (success,
    Executor (strings x) (macros x) (conditionals x)
      (FileEntry file (length (conditionals x)) :: file_entries x)).

Definition execution : Type :=
  server_status * execution_result * execution_error * directive_executor B.

Definition fail (kind : execution_error_kind) (file : Z) (source : source_range)
    (x : directive_executor B) : execution :=
  (project_configuration_invalid, None, ExecutionError kind file source, x).

Definition done_with (status : server_status) (x : directive_executor B) : execution :=
  (status, None, no_execution_error, x).

Definition set_conditionals (frames : list conditional_frame) (x : directive_executor B)
  : directive_executor B := Executor (strings x) (macros x) frames (file_entries x).
Definition set_strings (t : string_table B) (x : directive_executor B) : directive_executor B :=
  Executor t (macros x) (conditionals x) (file_entries x).
Definition set_macros (p : preprocessor) (x : directive_executor B) : directive_executor B :=
  Executor (strings x) p (conditionals x) (file_entries x).

(** [None] is a probe loop that does not end. *)
Definition test_macro (spelling : list byte) (inverted : bool) (x : directive_executor B)
  : option bool :=
  let id := find (strings x) spelling in
  let known := if id =? 0 then Some false else defined (strings x) id (macros x) in
  match known with
  | None => None
  | Some condition => Some (if inverted then negb condition else condition)
  end.

Definition push_conditional (d : preprocessing_directive) (condition : bool)
    (x : directive_executor B) : directive_executor B :=
  set_conditionals
    (ConditionalFrame (dr_file (pd_range d)) (dr_source (pd_range d)) (active x) condition
       (active x && condition) false :: conditionals x) x.

Definition begin_conditional (d : preprocessing_directive) (source : list byte) (inverted : bool)
    (x : directive_executor B) : option execution :=
  if (length (conditionals x) =? directive_conditional_depth_limit)%nat
  then Some (fail conditional_depth_exceeded (dr_file (pd_range d)) (dr_source (pd_range d)) x)
  else if negb (active x) then Some (done_with success (push_conditional d false x))
  else
    match range_view source (id_name (pd_identifier d)) with
    | None =>
        Some (fail malformed_operand (dr_file (pd_range d)) (id_name (pd_identifier d)) x)
    | Some spelling =>
        match test_macro spelling inverted x with
        | None => None
        | Some condition => Some (done_with success (push_conditional d condition x))
        end
    end.

(** The frame that an [else] or [endif] of the directive's file belongs to. *)
Definition current_conditional (d : preprocessing_directive) (floor : nat)
    (x : directive_executor B) : option (conditional_frame * list conditional_frame) :=
  match conditionals x with
  | [] => None
  | frame :: frames =>
      if (length (conditionals x) <=? floor)%nat || negb (cf_file frame =? dr_file (pd_range d))
      then None else Some (frame, frames)
  end.

Definition begin_else (d : preprocessing_directive) (floor : nat) (x : directive_executor B)
  : execution :=
  match current_conditional d floor x with
  | None => fail unmatched_else (dr_file (pd_range d)) (dr_source (pd_range d)) x
  | Some (frame, frames) =>
      if else_seen frame
      then fail duplicate_else (dr_file (pd_range d)) (dr_source (pd_range d)) x
      else done_with success
        (set_conditionals
           (ConditionalFrame (cf_file frame) (cf_source frame) (parent_active frame)
              (condition frame) (parent_active frame && negb (condition frame)) true
            :: frames) x)
  end.

Definition end_conditional (d : preprocessing_directive) (floor : nat)
    (x : directive_executor B) : execution :=
  match current_conditional d floor x with
  | None => fail unmatched_endif (dr_file (pd_range d)) (dr_source (pd_range d)) x
  | Some (_, frames) => done_with success (set_conditionals frames x)
  end.

(** The end of a macro definition. *)
Definition defined_as (d : preprocessing_directive) (x : directive_executor B)
    (r : option (server_status * preprocessor)) : option execution :=
  match r with
  | None => None
  | Some (status, p) =>
      let x := set_macros p x in
      Some (if bool_decide (status = project_configuration_invalid)
            then fail invalid_macro_definition (dr_file (pd_range d)) (dr_source (pd_range d)) x
            else done_with status x)
  end.

Definition execute_define (d : preprocessing_directive) (source : list byte) (m : memory)
    (x : directive_executor B) : option execution :=
  let names := pd_identifier d in
  let malformed r x := Some (fail malformed_operand (dr_file (pd_range d)) r x) in
  match intern_range source (id_name names) (name_memory m) (strings x) with
  | None => None
  | Some (status, name, t) =>
      let x := set_strings t x in
      if negb (succeeded status) then malformed (id_name names) x
      else if range_length (id_replacement names) =? 0
      then defined_as d x (define (strings x) name (macro_memory m) (macros x))
      else
        match intern_range source (id_replacement names) (replacement_memory m) (strings x) with
        | None => None
        | Some (status, replacement, t) =>
            let x := set_strings t x in
            if negb (succeeded status) then malformed (id_replacement names) x
            else defined_as d x
                   (define_as (strings x) name replacement (macro_memory m) (macros x))
        end
  end.

Definition execute_undef (d : preprocessing_directive) (source : list byte)
    (x : directive_executor B) : option execution :=
  match range_view source (id_name (pd_identifier d)) with
  | None => Some (fail malformed_operand (dr_file (pd_range d)) (id_name (pd_identifier d)) x)
  | Some spelling =>
      let id := find (strings x) spelling in
      if id =? 0 then Some (done_with success x)
      else
        match undefine (strings x) id (macros x) with
        | None => None
        | Some (status, p) => Some (done_with status (set_macros p x))
        end
  end.

Definition execute_include (d : preprocessing_directive) (x : directive_executor B)
  : execution :=
  let inc := pd_include d in
  if bool_decide (inc_form inc = form_none) || (range_length (inc_locator inc) =? 0)
  then fail invalid_include (dr_file (pd_range d)) (dr_source (pd_range d)) x
  else (success, Some (IncludeRequest (dr_file (pd_range d)) (inc_form inc) (inc_locator inc)),
        no_execution_error, x).

(** The directives that act on macros and files, where they are active. *)
Definition execute_active (d : preprocessing_directive) (source : list byte) (m : memory)
    (x : directive_executor B) : option execution :=
  match pd_kind d with
  | dk_define => execute_define d source m x
  | dk_undef => execute_undef d source x
  | dk_include => Some (execute_include d x)
  | dk_line | dk_error | dk_pragma | dk_unknown =>
      Some (fail unsupported_directive (dr_file (pd_range d)) (dr_source (pd_range d)) x)
  | dk_invalid =>
      Some (fail malformed_operand (dr_file (pd_range d)) (dr_source (pd_range d)) x)
  | _ => Some (done_with project_configuration_invalid x)
  end.

Definition execute (d : preprocessing_directive) (source : list byte) (m : memory)
    (x : directive_executor B) : option execution :=
  match current_file_entry (dr_file (pd_range d)) x with
  | None =>
      Some (fail file_entry_mismatch (dr_file (pd_range d)) (dr_source (pd_range d)) x)
  | Some floor =>
      match pd_kind d with
      | dk_ifdef => begin_conditional d source false x
      | dk_ifndef => begin_conditional d source true x
      | dk_else => Some (begin_else d floor x)
      | dk_endif => Some (end_conditional d floor x)
      | dk_if | dk_elif =>
          Some (fail unsupported_directive (dr_file (pd_range d)) (dr_source (pd_range d)) x)
      | _ =>
          if negb (active x) then Some (done_with success x)
          else execute_active d source m x
      end
  end.

Definition finish_file (file : Z) (x : directive_executor B) : execution :=
  match current_file_entry file x with
  | None => fail file_entry_mismatch file no_range x
  | Some floor =>
      if (floor <? length (conditionals x))%nat then
        match conditionals x with
        | opening :: _ => fail unterminated_conditional (cf_file opening) (cf_source opening) x
        | [] => fail file_entry_mismatch file no_range x
        end
      else if negb (length (conditionals x) =? floor)%nat
      then fail file_entry_mismatch file no_range x
      else done_with success
        (Executor (strings x) (macros x) (conditionals x) (tl (file_entries x)))
  end.

(** [initialize_preprocessor]: the configured predefinitions in order. *)
Fixpoint initialize_preprocessor
    (predefines : list (list byte * list byte * memory)) (t : string_table B) (p : preprocessor)
  : option (server_status * string_table B * preprocessor) :=
  match predefines with
  | [] => Some (success, t, p)
  | (name, replacement, m) :: predefines =>
      match intern name (name_memory m) t with
      | None => None
      | Some (status, id, t) =>
          if negb (succeeded status) then Some (status, t, p)
          else
            match replacement with
            | [] =>
                match define t id (macro_memory m) p with
                | None => None
                | Some (status, p) =>
                    if negb (succeeded status) then Some (status, t, p)
                    else initialize_preprocessor predefines t p
                end
            | _ =>
                match intern replacement (replacement_memory m) t with
                | None => None
                | Some (status, rid, t) =>
                    if negb (succeeded status) then Some (status, t, p)
                    else
                      match define_as t id rid (macro_memory m) p with
                      | None => None
                      | Some (status, p) =>
                          if negb (succeeded status) then Some (status, t, p)
                          else initialize_preprocessor predefines t p
                      end
                end
            end
      end
  end.
End Operations.

(** ** Structured evaluation *)

(** A file whose conditional groups are well nested. *)
Inductive block :=
| Done
| Line (d : preprocessing_directive) (m : memory) (rest : block)
| IfGroup (opening closing : preprocessing_directive) (body rest : block)
| IfElse (opening middle closing : preprocessing_directive) (body alternative rest : block).

Definition no_memory : memory :=
  let none := Allocation false false false false in Memory none none false.

(** The directives of a file in the order in which they stand. *)
Fixpoint flatten (b : block) : list (preprocessing_directive * memory) :=
  match b with
  | Done => []
  | Line d m rest => (d, m) :: flatten rest
  | IfGroup opening closing body rest =>
      (opening, no_memory) :: flatten body ++ (closing, no_memory) :: flatten rest
  | IfElse opening middle closing body alternative rest =>
      (opening, no_memory) :: flatten body ++ (middle, no_memory) :: flatten alternative ++
      (closing, no_memory) :: flatten rest
  end.

Definition of_file (file : Z) (d : preprocessing_directive) : Prop :=
  dr_file (pd_range d) = file.

Definition is_opening (d : preprocessing_directive) : Prop :=
  pd_kind d = dk_ifdef \/ pd_kind d = dk_ifndef.

Definition is_line (d : preprocessing_directive) : Prop :=
  ~ is_opening d /\ pd_kind d <> dk_else /\ pd_kind d <> dk_endif.

Fixpoint well_nested (file : Z) (b : block) : Prop :=
  match b with
  | Done => True
  | Line d _ rest => of_file file d /\ is_line d /\ well_nested file rest
  | IfGroup opening closing body rest =>
      of_file file opening /\ is_opening opening /\
      of_file file closing /\ pd_kind closing = dk_endif /\
      well_nested file body /\ well_nested file rest
  | IfElse opening middle closing body alternative rest =>
      of_file file opening /\ is_opening opening /\
      of_file file middle /\ pd_kind middle = dk_else /\
      of_file file closing /\ pd_kind closing = dk_endif /\
      well_nested file body /\ well_nested file alternative /\ well_nested file rest
  end.

Section Evaluation.
Context {B : Type} `{BaselineStrings B}.
Context (source : list byte).

(** The outcome of executing several directives: the status of the last, the
    include requests, the error, and the state. *)
Definition outcome (S : Type) : Type :=
  server_status * list include_request * execution_error * S.

(** Goes on only after success. *)
Definition and_then {S} (r : option (outcome S)) (k : S -> option (outcome S))
  : option (outcome S) :=
  match r with
  | None => None
  | Some (status, requests, error, s) =>
      if negb (succeeded status) then Some (status, requests, error, s)
      else
        match k s with
        | None => None
        | Some (status, more, error, s) => Some (status, requests ++ more, error, s)
        end
  end.

Definition as_outcome (e : execution (B := B)) : outcome (directive_executor B) :=
  let '(status, result, error, x) := e in
  (status, match result with Some r => [r] | None => [] end, error, x).

Fixpoint run_directives (ds : list (preprocessing_directive * memory))
    (x : directive_executor B) : option (outcome (directive_executor B)) :=
  match ds with
  | [] => Some (success, [], no_execution_error, x)
  | (d, m) :: ds =>
      and_then (option_map as_outcome (execute d source m x)) (run_directives ds)
  end.

(** What conditionals test and lines change. *)
Definition macro_state : Type := string_table B * preprocessor.

Definition plain_executor (s : macro_state) : directive_executor B :=
  Executor s.1 s.2 [] [].

Definition plain_outcome (o : outcome (directive_executor B)) : outcome macro_state :=
  let '(status, requests, error, x) := o in (status, requests, error, (strings x, macros x)).

Definition line_outcome (active : bool) (d : preprocessing_directive) (m : memory)
    (s : macro_state) : option (outcome macro_state) :=
  match pd_kind d with
  | dk_if | dk_elif =>
      Some (plain_outcome (as_outcome (fail unsupported_directive (dr_file (pd_range d))
        (dr_source (pd_range d)) (plain_executor s))))
  | _ =>
      if active
      then option_map (fun e => plain_outcome (as_outcome e))
             (execute_active d source m (plain_executor s))
      else Some (success, [], no_execution_error, s)
  end.

(** The condition of an opening directive, or its error. *)
Definition opening_condition (active : bool) (depth : nat) (d : preprocessing_directive)
    (s : macro_state) : option (bool + outcome macro_state) :=
  let failed kind r :=
    Some (inr (project_configuration_invalid, [], ExecutionError kind (dr_file (pd_range d)) r, s)) in
  if (depth =? directive_conditional_depth_limit)%nat
  then failed conditional_depth_exceeded (dr_source (pd_range d))
  else if negb active then Some (inl false)
  else
    match range_view source (id_name (pd_identifier d)) with
    | None => failed malformed_operand (id_name (pd_identifier d))
    | Some spelling =>
        match test_macro spelling (bool_decide (pd_kind d = dk_ifndef)) (plain_executor s) with
        | None => None
        | Some condition => Some (inl condition)
        end
    end.

(** The meaning of a well-nested file: each group runs the part its condition
    selects, a part inside an unselected part changes nothing. *)
Fixpoint evaluate (active : bool) (depth : nat) (b : block) (s : macro_state)
  : option (outcome macro_state) :=
  match b with
  | Done => Some (success, [], no_execution_error, s)
  | Line d m rest => and_then (line_outcome active d m s) (evaluate active depth rest)
  | IfGroup opening _ body rest =>
      match opening_condition active depth opening s with
      | None => None
      | Some (inr failure) => Some failure
      | Some (inl condition) =>
          and_then (evaluate (active && condition) (S depth) body s)
            (evaluate active depth rest)
      end
  | IfElse opening _ _ body alternative rest =>
      match opening_condition active depth opening s with
      | None => None
      | Some (inr failure) => Some failure
      | Some (inl condition) =>
          and_then (evaluate (active && condition) (S depth) body s) (fun s =>
          and_then (evaluate (active && negb condition) (S depth) alternative s)
            (evaluate active depth rest))
      end
  end.

(** ** The frames around an execution *)

Definition with_frames (frames : list conditional_frame) (entries : list file_entry_frame)
    (x : directive_executor B) : directive_executor B :=
  Executor (strings x) (macros x) frames entries.

Definition frame_execution frames entries (e : execution (B := B)) : execution :=
  let '(status, result, error, x) := e in (status, result, error, with_frames frames entries x).

Lemma execute_active_frame d m frames entries x :
  execute_active d source m (with_frames frames entries x)
  = option_map (frame_execution frames entries) (execute_active d source m x).
Proof.
  unfold execute_active. destruct (pd_kind d); try done; cbn [option_map].
  - unfold execute_include. by case_match.
  - unfold execute_define. cbn [with_frames strings].
    destruct (intern_range _ _ _ _) as [[[status name] t]|]; [|done].
    destruct (negb _); [done|]. unfold defined_as. cbn [set_strings strings macros with_frames].
    destruct (range_length _ =? 0).
    + destruct (define _ _ _ _) as [[st p]|]; [|done]. simpl. by case_bool_decide.
    + destruct (intern_range _ _ _ _) as [[[st r] t']|]; [|done].
      destruct (negb _); [done|]. destruct (define_as _ _ _ _ _) as [[st' p]|]; [|done].
      simpl. by case_bool_decide.
  - unfold execute_undef. destruct (range_view _ _); [|done]. cbn [with_frames strings macros].
    destruct (_ =? 0); [done|]. by destruct (undefine _ _ _) as [[st p]|].
Qed.

Lemma and_then_ext {S} r (k k' : S -> option (outcome S)) :
  (forall s, k s = k' s) -> and_then r k = and_then r k'.
Proof. intros Hk. destruct r as [[[[st reqs] err] s]|]; [|done]. simpl. by rewrite Hk. Qed.

Lemma and_then_assoc {S} r (k k' : S -> option (outcome S)) :
  and_then (and_then r k) k' = and_then r (fun s => and_then (k s) k').
Proof.
  destruct r as [[[[st reqs] err] s]|]; [|done]. simpl. destruct (succeeded st) eqn:Es; simpl.
  2: { by rewrite Es. }
  destruct (k s) as [[[[st' more] err'] s']|]; [|done]. simpl.
  destruct (succeeded st'); simpl; [|done].
  destruct (k' s') as [[[[st'' more'] err''] s'']|]; [|done]. by rewrite app_assoc.
Qed.

Lemma and_then_done {S} (s : S) (k : S -> option (outcome S)) :
  and_then (Some (success, [], no_execution_error, s)) k = k s.
Proof. simpl. destruct (k s) as [[[[st more] err] s']|]; done. Qed.

Lemma run_app ds es x :
  run_directives (ds ++ es) x = and_then (run_directives ds x) (run_directives es).
Proof.
  revert x. induction ds as [|[d m] ds IH]; intros x.
  { cbn [app run_directives]. by rewrite and_then_done. }
  cbn [app run_directives]. rewrite and_then_assoc. by apply and_then_ext.
Qed.

(** A run that does what the evaluation says, and after success stands in the same
    groups and files as before. *)
Definition simulates (x : directive_executor B) (r : option (outcome macro_state))
    (run : option (outcome (directive_executor B))) : Prop :=
  match r with
  | None => run = None
  | Some (status, requests, error, s) => exists frames,
      run = Some (status, requests, error, Executor s.1 s.2 frames (file_entries x)) /\
      (status = success -> frames = conditionals x)
  end.

Definition with_state (s : macro_state) (x : directive_executor B) : directive_executor B :=
  Executor s.1 s.2 (conditionals x) (file_entries x).

Lemma simulates_then (x : directive_executor B) r run k k' :
  simulates x r run -> (forall s, simulates x (k s) (k' (with_state s x))) ->
  simulates x (and_then r k) (and_then run k').
Proof.
  intros Hr Hk. destruct r as [[[[st reqs] err] s]|]; simpl in *; [|by rewrite Hr].
  destruct Hr as (frames & -> & Hf). simpl. destruct (succeeded st) eqn:Es; simpl.
  - apply succeeded_spec in Es. rewrite (Hf Es). specialize (Hk s). unfold with_state in Hk.
    destruct (k s) as [[[[st' more] err'] s']|]; simpl in Hk.
    + destruct Hk as (frames' & -> & Hf'). by exists frames'.
    + by rewrite Hk.
  - by exists frames.
Qed.

(** A line changes the macros only. *)
Lemma line_simulates d m x file floor :
  of_file file d -> is_line d -> current_file_entry file x = Some floor ->
  simulates x (line_outcome (active x) d m (strings x, macros x))
    (option_map as_outcome (execute d source m x)).
Proof.
  intros Hf (Ho & He & Hn) Hc. unfold is_opening in Ho. unfold execute, line_outcome.
  unfold of_file in Hf. subst file. rewrite Hc.
  assert (forall e : option execution,
    simulates x (option_map (fun e => plain_outcome (as_outcome e)) e)
      (option_map as_outcome
        (option_map (frame_execution (conditionals x) (file_entries x)) e))) as Hsim.
  { intros [[[[st res] err] y]|]; [|done]. simpl. by exists (conditionals x). }
  pose proof (execute_active_frame d m (conditionals x) (file_entries x)
    (plain_executor (strings x, macros x))) as Hfr.
  assert (with_frames (conditionals x) (file_entries x) (plain_executor (strings x, macros x))
    = x) as Hx by by destruct x.
  rewrite Hx in Hfr.
  destruct (pd_kind d) eqn:Ek; try (exfalso; tauto);
    try (simpl; exists (conditionals x); by destruct x);
    (destruct (active x); simpl negb; cbn iota;
      [rewrite Hfr; apply Hsim|simpl; exists (conditionals x); by destruct x]).
Qed.

Lemma opening_simulates d x file floor :
  of_file file d -> is_opening d -> current_file_entry file x = Some floor ->
  match opening_condition (active x) (length (conditionals x)) d (strings x, macros x) with
  | None => execute d source no_memory x = None
  | Some (inl condition) =>
      execute d source no_memory x
      = Some (done_with success (push_conditional d condition x))
  | Some (inr failure) =>
      failure.1.1.1 <> success /\
      simulates x (Some failure) (option_map as_outcome (execute d source no_memory x))
  end.
Proof.
  intros Hf Ho Hc. unfold execute. unfold of_file in Hf. subst file. rewrite Hc.
  assert (forall inverted, inverted = bool_decide (pd_kind d = dk_ifndef) ->
    match opening_condition (active x) (length (conditionals x)) d (strings x, macros x) with
    | None => begin_conditional d source inverted x = None
    | Some (inl condition) => begin_conditional d source inverted x
        = Some (done_with success (push_conditional d condition x))
    | Some (inr failure) => failure.1.1.1 <> success /\
        simulates x (Some failure) (option_map as_outcome (begin_conditional d source inverted x))
    end) as Hb.
  { intros inverted ->. unfold opening_condition, begin_conditional.
    destruct (length (conditionals x) =? directive_conditional_depth_limit)%nat.
    { split; [done|]. exists (conditionals x). by destruct x. }
    destruct (active x); simpl negb; cbn iota; [|done].
    destruct (range_view source _) as [spelling|];
      [|split; [done|]; exists (conditionals x); by destruct x].
    change (test_macro spelling (bool_decide (pd_kind d = dk_ifndef))
      (plain_executor (strings x, macros x)))
      with (test_macro spelling (bool_decide (pd_kind d = dk_ifndef)) x).
    by destruct (test_macro spelling _ x). }
  destruct Ho as [Ho|Ho]; rewrite Ho in *; by apply Hb.
Qed.

Lemma entry_floor file (x : directive_executor B) floor frames :
  current_file_entry file x = Some floor -> (length (conditionals x) <= length frames)%nat ->
  (floor <= length (conditionals x))%nat /\
  forall s : macro_state, current_file_entry file (Executor s.1 s.2 frames (file_entries x)) = Some floor.
Proof.
  unfold current_file_entry. cbn [file_entries conditionals].
  destruct (file_entries x) as [|e es]; [done|]. destruct (_ || _); [done|].
  destruct (Nat.leb_spec (conditional_floor e) (length (conditionals x))); [|done].
  intros [= <-] Hle. split; [done|]. intros s. by rewrite (proj2 (Nat.leb_le _ _)) by lia.
Qed.

(** Entering and leaving the innermost group. *)
Definition in_group (frame : conditional_frame) (s : macro_state) (x : directive_executor B)
  : directive_executor B := Executor s.1 s.2 (frame :: conditionals x) (file_entries x).

Lemma run_closing d ds frame s x file floor :
  of_file file d -> pd_kind d = dk_endif -> cf_file frame = file ->
  current_file_entry file x = Some floor ->
  run_directives ((d, no_memory) :: ds) (in_group frame s x) = run_directives ds (with_state s x).
Proof.
  intros Hf Hk Hff Hc. unfold of_file in Hf. subst file.
  destruct (entry_floor _ x floor (frame :: conditionals x) Hc) as [Hle He]; [simpl; lia|].
  cbn [run_directives]. unfold execute, in_group. rewrite He, Hk.
  unfold end_conditional, current_conditional. cbn [conditionals].
  rewrite (proj2 (Nat.leb_gt _ _)) by (simpl; lia). rewrite Hff, Z.eqb_refl.
  simpl negb. cbn [orb]. cbn [option_map as_outcome done_with]. by rewrite and_then_done.
Qed.

(** The frame after its [else]. *)
Definition else_frame (frame : conditional_frame) : conditional_frame :=
  ConditionalFrame (cf_file frame) (cf_source frame) (parent_active frame)
    (condition frame) (parent_active frame && negb (condition frame)) true.

Lemma run_middle d ds frame s x file floor :
  of_file file d -> pd_kind d = dk_else -> cf_file frame = file -> else_seen frame = false ->
  current_file_entry file x = Some floor ->
  run_directives ((d, no_memory) :: ds) (in_group frame s x)
  = run_directives ds (in_group (else_frame frame) s x).
Proof.
  intros Hf Hk Hff Hels Hc. unfold of_file in Hf. subst file.
  destruct (entry_floor _ x floor (frame :: conditionals x) Hc) as [Hle He]; [simpl; lia|].
  cbn [run_directives]. unfold execute, in_group. rewrite He, Hk.
  unfold begin_else, current_conditional. cbn [conditionals].
  rewrite (proj2 (Nat.leb_gt _ _)) by (simpl; lia). rewrite Hff, Z.eqb_refl.
  simpl negb. cbn [orb]. rewrite Hels. cbn [option_map as_outcome done_with].
  by rewrite and_then_done.
Qed.

Lemma with_state_self (x : directive_executor B) : with_state (strings x, macros x) x = x.
Proof. by destruct x. Qed.

Lemma active_group frame s (x : directive_executor B) :
  active (in_group frame s x) = branch_active frame.
Proof. done. Qed.

(** Evaluation inside a group is evaluation of the executor that stands in it. *)
Lemma simulates_group frame s x r run :
  simulates (in_group frame s x) r run ->
  match r with
  | None => run = None
  | Some (status, requests, error, s') => exists frames,
      run = Some (status, requests, error, Executor s'.1 s'.2 frames (file_entries x)) /\
      (status = success -> frames = frame :: conditionals x)
  end.
Proof. done. Qed.

(** Leaves the group after its part and goes on. *)
Lemma simulates_part frame s x r run k k' :
  simulates (in_group frame s x) r run ->
  (forall s', simulates x (k s') (k' (in_group frame s' x))) ->
  simulates x (and_then r k) (and_then run k').
Proof.
  intros Hr Hk. apply simulates_group in Hr.
  destruct r as [[[[st reqs] err] s']|]; simpl; [|by rewrite Hr].
  destruct Hr as (frames & -> & Hf). simpl. destruct (succeeded st) eqn:Es; simpl.
  - apply succeeded_spec in Es. rewrite (Hf Es). specialize (Hk s'). unfold in_group in Hk.
    destruct (k s') as [[[[st' more] err'] s'']|]; simpl in Hk.
    + destruct Hk as (frames' & -> & Hf'). by exists frames'.
    + by rewrite Hk.
  - exists frames. split; [done|]. intros ->. done.
Qed.

(** The opening directive followed by the rest of the file. *)
Lemma simulates_opening d ds x file floor (k : bool -> option (outcome macro_state)) :
  of_file file d -> is_opening d -> current_file_entry file x = Some floor ->
  (forall condition,
     simulates x (k condition) (run_directives ds (push_conditional d condition x))) ->
  simulates x
    match opening_condition (active x) (length (conditionals x)) d (strings x, macros x) with
    | None => None
    | Some (inr failure) => Some failure
    | Some (inl condition) => k condition
    end (run_directives ((d, no_memory) :: ds) x).
Proof.
  intros Hf Ho Hc Hk. cbn [run_directives].
  pose proof (opening_simulates d x file floor Hf Ho Hc) as Hopen.
  destruct (opening_condition _ _ _ _) as [[condition|failure]|].
  - rewrite Hopen. cbn [option_map as_outcome done_with]. rewrite and_then_done. apply Hk.
  - destruct failure as [[[st reqs] err] s]. destruct Hopen as [Hst (frames & -> & Hfr)].
    simpl in Hst |- *. destruct (succeeded st) eqn:Es; [by apply succeeded_spec in Es|].
    by exists frames.
  - by rewrite Hopen.
Qed.

Lemma entry_group frame s file x floor :
  current_file_entry file x = Some floor -> current_file_entry file (in_group frame s x) = Some floor.
Proof. intros Hc. eapply (entry_floor file x floor (frame :: conditionals x) Hc). simpl. lia. Qed.

Lemma entry_state s file x floor :
  current_file_entry file x = Some floor -> current_file_entry file (with_state s x) = Some floor.
Proof. intros Hc. eapply (entry_floor file x floor (conditionals x) Hc). lia. Qed.

Definition opened_frame (d : preprocessing_directive) (condition : bool)
    (x : directive_executor B) : conditional_frame :=
  ConditionalFrame (dr_file (pd_range d)) (dr_source (pd_range d)) (active x) condition
    (active x && condition) false.

Lemma push_in_group d condition x :
  push_conditional d condition x = in_group (opened_frame d condition x) (strings x, macros x) x.
Proof. done. Qed.

Lemma evaluation_simulates b file x floor :
  well_nested file b -> current_file_entry file x = Some floor ->
  simulates x (evaluate (active x) (length (conditionals x)) b (strings x, macros x))
    (run_directives (flatten b) x).
Proof.
  revert x floor. induction b as [|d m rest IH|opening closing body IHb rest IHr
    |opening middle closing body IHb alternative IHa rest IHr]; intros x floor Hw Hc.
  - simpl. exists (conditionals x). by destruct x.
  - destruct Hw as (Hf & Hl & Hw). cbn [evaluate flatten run_directives].
    apply simulates_then; [by eapply line_simulates|]. intros [t p].
    apply (IH (with_state (t, p) x) floor Hw). by apply entry_state.
  - destruct Hw as (Hf & Ho & Hfc & Hkc & Hb & Hr). cbn [evaluate flatten].
    apply (simulates_opening opening _ x file floor
      (fun condition => and_then _ (evaluate (active x) (length (conditionals x)) rest)));
      [done..|].
    intros condition. rewrite run_app, push_in_group.
    apply (simulates_part (opened_frame opening condition x) (strings x, macros x) x).
    { apply (IHb (in_group (opened_frame opening condition x) (strings x, macros x) x) floor Hb).
       by apply entry_group. }
    intros [t p]. rewrite (run_closing closing _ _ _ x file floor) by done.
    apply (IHr (with_state (t, p) x) floor Hr). by apply entry_state.
  - destruct Hw as (Hf & Ho & Hfm & Hkm & Hfc & Hkc & Hb & Ha & Hr). cbn [evaluate flatten].
    apply (simulates_opening opening _ x file floor (fun condition => and_then _ (fun s =>
      and_then (evaluate (active x && negb condition) _ alternative s)
        (evaluate (active x) (length (conditionals x)) rest)))); [done..|].
    intros condition. rewrite run_app, push_in_group.
    apply (simulates_part (opened_frame opening condition x) (strings x, macros x) x).
    { apply (IHb (in_group (opened_frame opening condition x) (strings x, macros x) x) floor Hb).
       by apply entry_group. }
    intros [t p]. rewrite (run_middle middle _ _ _ x file floor), run_app by done.
    apply (simulates_part (else_frame (opened_frame opening condition x)) (t, p) x).
    { apply (IHa (in_group (else_frame (opened_frame opening condition x)) (t, p) x) floor Ha).
       by apply entry_group. }
    intros [t' p']. rewrite (run_closing closing _ _ _ x file floor) by done.
    apply (IHr (with_state (t', p') x) floor Hr). by apply entry_state.
Qed.

Lemma entered_file file (x : directive_executor B) :
  file <> 0 -> (length (file_entries x) < file_entry_limit)%nat ->
  let entered := Executor (strings x) (macros x) (conditionals x)
    (FileEntry file (length (conditionals x)) :: file_entries x) in
  enter_file file x = (success, entered) /\
  current_file_entry file entered = Some (length (conditionals x)).
Proof.
  intros Hf Hl. unfold enter_file, current_file_entry. cbn [file_entries fe_file conditional_floor conditionals].
  rewrite (proj2 (Z.eqb_neq file 0)), (proj2 (Nat.eqb_neq _ _)), Z.eqb_refl, Nat.leb_refl
    by (done || lia). done.
Qed.

(** C8: Entering a well-nested file, executing its directives in the order in which
    they stand and finishing it has exactly the effect of evaluating the file as a
    structured program, where each group runs the part its condition selects: the
    same status, error, include requests, strings and macros; and after a success
    the conditional groups and file entries are those from before the file. *)
Theorem well_nested_file_evaluates (file : Z) (b : block) (x : directive_executor B) :
  file <> 0 -> (length (file_entries x) < file_entry_limit)%nat -> well_nested file b ->
  exists entered, enter_file file x = (success, entered) /\
    match evaluate (active x) (length (conditionals x)) b (strings x, macros x) with
    | None => run_directives (flatten b) entered = None
    | Some (status, requests, error, (t, p)) => exists after,
        run_directives (flatten b) entered = Some (status, requests, error, after) /\
        strings after = t /\ macros after = p /\
        (status = success ->
           finish_file file after = done_with success (with_state (t, p) x))
    end.
Proof.
  intros Hf Hl Hw. destruct (entered_file file x Hf Hl) as [He Hc].
  eexists. split; [exact He|]. pose proof (evaluation_simulates b file _ _ Hw Hc) as Hs.
  cbn [strings macros conditionals] in Hs. unfold active in *. cbn [conditionals] in Hs.
  destruct (evaluate _ _ b _) as [[[[st reqs] err] [t p]]|]; [|exact Hs].
  destruct Hs as (frames & Hrun & Hfr). eexists. split; [exact Hrun|].
  split; [done|]. split; [done|]. intros Hst. rewrite (Hfr Hst). cbn [file_entries conditionals].
  unfold finish_file, current_file_entry.
  cbn [file_entries conditionals fe_file conditional_floor tl].
  rewrite (proj2 (Z.eqb_neq file 0)), Z.eqb_refl, Nat.leb_refl by done. cbn [orb negb].
  by rewrite Nat.ltb_irrefl, Nat.eqb_refl.
Qed.
End Evaluation.

(** ** File entries *)

Section Entries.
Context {B : Type} `{BaselineStrings B}.

(** The states from entering a file at [outer] on, while that entry lasts: any
    directives, nested files and finished nested files, whatever they returned. *)
Inductive inside (outer : directive_executor B) : directive_executor B -> Prop :=
| inside_enter file x : enter_file file outer = (success, x) -> inside outer x
| inside_execute d source m x status result error x' :
    inside outer x -> execute d source m x = Some (status, result, error, x') -> inside outer x'
| inside_nested file x status x' :
    inside outer x -> enter_file file x = (status, x') -> inside outer x'
| inside_finish file x status result error x' :
    inside outer x -> finish_file file x = (status, result, error, x') ->
    (length (file_entries outer) < length (file_entries x'))%nat -> inside outer x'.

(** The frames of the outer state lie untouched under those of the entry. *)
Record inside_inv (outer x : directive_executor B) : Prop := InsideInv {
  inside_frames : exists frames, conditionals x = frames ++ conditionals outer;
  inside_entries : exists entries entry,
    file_entries x = entries ++ entry :: file_entries outer /\
    conditional_floor entry = length (conditionals outer) /\
    Forall (fun e => (length (conditionals outer) <= conditional_floor e)%nat) entries
}.

(** An execution changes at most one frame, above the floor of the entry. *)
Lemma execute_frames d source m x status result error (x' : directive_executor B) :
  execute d source m x = Some (status, result, error, x') ->
  file_entries x' = file_entries x /\
  (conditionals x' = conditionals x \/
   (exists frame, conditionals x' = frame :: conditionals x) \/
   (exists floor frame frames, current_file_entry (dr_file (pd_range d)) x = Some floor /\
      conditionals x = frame :: frames /\ (floor <= length frames)%nat /\
      (conditionals x' = frames \/ exists frame', conditionals x' = frame' :: frames))).
Proof.
  unfold execute. destruct (current_file_entry (dr_file (pd_range d)) x) as [floor|] eqn:Ec;
    [|intros [= <- <- <- <-]; auto].
  assert (forall inverted, begin_conditional d source inverted x = Some (status, result, error, x') ->
    file_entries x' = file_entries x /\ (conditionals x' = conditionals x \/
      exists frame, conditionals x' = frame :: conditionals x)) as Hb.
  { intros inverted. unfold begin_conditional, push_conditional, done_with, fail.
    repeat case_match; intros; simplify_eq; simpl; eauto. }
  assert (execute_active d source m x = Some (status, result, error, x') ->
    file_entries x' = file_entries x /\ conditionals x' = conditionals x) as Ha.
  { intros He. pose proof (execute_active_frame source d m (conditionals x) (file_entries x) x) as Hf.
    assert (with_frames (conditionals x) (file_entries x) x = x) as Hx by by destruct x.
    rewrite Hx, He in Hf. simpl in Hf. injection Hf as ->. done. }
  assert (forall frame frames, current_conditional d floor x = Some (frame, frames) ->
    conditionals x = frame :: frames /\ (floor <= length frames)%nat) as Hcc.
  { intros frame frames. unfold current_conditional. destruct (conditionals x) as [|f fs]; [done|].
    destruct (_ || _) eqn:Eg; [done|]. intros [= <- <-]. unbool. split; [done|]. simpl in *. lia. }
  assert (forall r : option execution, r = Some (status, result, error, x') ->
    (if negb (active x) then Some (done_with success x) else execute_active d source m x) = r ->
    file_entries x' = file_entries x /\ conditionals x' = conditionals x) as Hline.
  { intros r -> . destruct (active x); simpl; [exact Ha|]. by intros [= <- <- <- <-]. }
  destruct (pd_kind d); try (intros Hr; destruct (Hline _ eq_refl Hr) as [? ?]; by auto);
    try (intros Hr; destruct (Hb _ Hr) as [? [?|?]]; by auto).
  all: try (intros [= <- <- <- <-]; by auto).
  - unfold begin_else. destruct (current_conditional d floor x) as [[frame frames]|] eqn:E;
      [|intros [= <- <- <- <-]; by auto].
    destruct (Hcc _ _ eq_refl) as [Hx Hle]. destruct (else_seen frame);
      intros [= <- <- <- <-]; [by auto|]. split; [done|]. right. right. simpl. eauto 10.
  - unfold end_conditional. destruct (current_conditional d floor x) as [[frame frames]|] eqn:E;
      [|intros [= <- <- <- <-]; by auto].
    destruct (Hcc _ _ eq_refl) as [Hx Hle]. intros [= <- <- <- <-].
    split; [done|]. right. right. simpl. eauto 10.
Qed.

Lemma floor_above outer x file floor :
  inside_inv outer x -> current_file_entry file x = Some floor ->
  (length (conditionals outer) <= floor)%nat.
Proof.
  intros [_ (entries & entry & He & Hfl & Hall)]. unfold current_file_entry. rewrite He.
  destruct entries as [|e entries]; cbn [app].
  - destruct (_ || _); [done|]. destruct (_ <=? _)%nat; [|done]. intros [= <-]. lia.
  - apply Forall_cons in Hall as [Hle _]. destruct (_ || _); [done|].
    destruct (_ <=? _)%nat; [|done]. by intros [= <-].
Qed.

(** A successful or refused finish changes no frame. *)
Lemma finish_frames file x status result error (x' : directive_executor B) :
  finish_file file x = (status, result, error, x') ->
  conditionals x' = conditionals x /\
  (x' = x \/ status = success /\ file_entries x' = tl (file_entries x) /\
     current_file_entry file x = Some (length (conditionals x))).
Proof.
  unfold finish_file. destruct (current_file_entry file x) as [floor|] eqn:Ec;
    [|intros [= <- <- <- <-]; auto].
  destruct (Nat.ltb_spec floor (length (conditionals x))).
  { destruct (conditionals x) eqn:Ex; intros [= <- <- <- <-]; rewrite ?Ex; auto. }
  destruct (Nat.eqb_spec (length (conditionals x)) floor) as [->|]; simpl;
    intros [= <- <- <- <-]; simpl; auto.
Qed.

Lemma inside_holds outer x : inside outer x -> inside_inv outer x.
Proof.
  induction 1 as [file x He|d source m x status result error x' _ IH He
    |file x status x' _ IH He|file x status result error x' _ IH Hf Hlt].
  - unfold enter_file in He. destruct (_ || _); [done|]. injection He as <-.
    split; [by exists []|]. exists [], (FileEntry file (length (conditionals outer))). done.
  - destruct (execute_frames _ _ _ _ _ _ _ _ He) as [Hen Hfr].
    pose proof IH as [[frames Hc] (entries & entry & Hes & Hfl & Hall)].
    split; [|exists entries, entry; by rewrite Hen]. destruct Hfr as [->|[[f ->]|Hfr]]; 
      [by exists frames|by exists (f :: frames); rewrite Hc|].
    destruct Hfr as (floor & frame & below & Hcur & Hcx & Hle & Hfr).
    pose proof (floor_above _ _ _ _ IH Hcur) as Habove.
    rewrite Hc in Hcx. destruct frames as [|f frames].
    { exfalso. simpl in Hcx. apply (f_equal length) in Hcx. simpl in Hcx. lia. }
    injection Hcx as -> Hcx. destruct Hfr as [->|[f' ->]]; [by exists frames|].
    exists (f' :: frames). by rewrite <- Hcx.
  - unfold enter_file in He. destruct IH as [[frames Hc] (entries & entry & Hes & Hfl & Hall)].
    destruct (_ || _); injection He as <- <-;
      [split; [by exists frames|by exists entries, entry]|]. split; [by exists frames|].
    exists (FileEntry file (length (conditionals x)) :: entries), entry.
    cbn [file_entries]. rewrite Hes. split; [done|]. split; [done|]. constructor; [|done].
    simpl. rewrite Hc, length_app. lia.
  - destruct (finish_frames _ _ _ _ _ _ Hf) as [Hc [->|(_ & Hes' & _)]]; [done|].
    destruct IH as [[frames Hcx] (entries & entry & Hes & Hfl & Hall)].
    split; [exists frames; by rewrite Hc|]. rewrite Hes' in Hlt |- *. rewrite Hes in Hlt |- *.
    destruct entries as [|e entries]; [simpl in Hlt; lia|]. simpl.
    apply Forall_cons in Hall as [_ Hall]. by exists entries, entry.
Qed.

(** C9: While a file entry lasts, no directive, no nested file and no error in it
    changes the conditional groups of the includer: they lie unchanged under those
    of the entry, and finishing the entry restores exactly them. *)
Theorem includer_groups_protected (outer x : directive_executor B) :
  inside outer x ->
  (exists frames, conditionals x = frames ++ conditionals outer) /\
  forall file result error x', finish_file file x = (success, result, error, x') ->
    file_entries x' = file_entries outer -> conditionals x' = conditionals outer.
Proof.
  intros Hi. pose proof (inside_holds _ _ Hi) as [Hf (entries & entry & Hes & Hfl & Hall)].
  split; [done|]. intros file result error x' Hfin Hen.
  destruct (finish_frames _ _ _ _ _ _ Hfin) as [Hc [->|(_ & Hes' & Hcur)]].
  { exfalso. rewrite Hes in Hen. apply (f_equal length) in Hen. rewrite length_app in Hen.
    simpl in Hen. lia. }
  rewrite Hes', Hes in Hen. destruct entries as [|e entries].
  2: { exfalso. apply (f_equal length) in Hen. simpl in Hen. rewrite length_app in Hen.
       simpl in Hen. lia. }
  unfold current_file_entry in Hcur. rewrite Hes in Hcur. simpl in Hcur.
  destruct (_ || _); [done|]. destruct (_ <=? _)%nat; [|done]. injection Hcur as Hcur.
  destruct Hf as [frames Hf]. rewrite Hc, Hf. rewrite Hf, length_app in Hcur.
  destruct frames; [done|]. simpl in Hcur. lia.
Qed.
End Entries.

(** ** Totality *)

Section Totality.
Context {B : Type} `{BaselineLaws B}.

(** The string table and the macro table satisfy their invariants. *)
Definition executor_ok (x : directive_executor B) : Prop :=
  (exists locals, table_inv (strings x) locals) /\ exists m, binds (macros x) m.

Lemma intern_range_returns source r a (t : string_table B) locals :
  table_inv t locals ->
  exists status id t', intern_range source r a t = Some (status, id, t') /\
    exists locals', table_inv t' locals'.
Proof.
  intros Hi. unfold intern_range. destruct (range_view source r) as [[|c v]|]; [| |by eauto 10].
  - simpl. by eauto 10.
  - destruct (intern_spec t locals (c :: v) a Hi) as (st & id & t' & -> & Hcase); [done|].
    eexists _, _, _. split; [done|]. destruct Hcase as [(_ & _ & _ & ->)|[(_ & _ & _ & _ & _ & ?)
      |(_ & _ & _ & ? & _)]]; eauto.
Qed.

Lemma define_impl_returns (t : string_table B) p n r allocated :
  (exists m, binds p m) ->
  exists status p', define_impl t n r allocated p = Some (status, p') /\ exists m, binds p' m.
Proof.
  intros [m Hb]. destruct (define_impl_spec t p m n r allocated Hb) as (st & p' & Hd & Hcase).
  exists st, p'. split; [done|]. destruct (_ || _); [destruct Hcase as [_ ->]; by eauto|].
  destruct (m !! n); [destruct Hcase as [_ ->]|destruct Hcase as [[_ ?]|[_ ?]]]; by eauto.
Qed.

Lemma execute_define_returns d source m (x : directive_executor B) :
  executor_ok x ->
  exists status error x', execute_define d source m x = Some (status, None, error, x') /\
    executor_ok x'.
Proof.
  intros [[locals Ht] Hp]. unfold execute_define.
  destruct (intern_range_returns source (id_name (pd_identifier d)) (name_memory m) _ _ Ht)
    as (st & id & t' & -> & Ht').
  destruct (succeeded st); simpl negb; cbn iota.
  2: { eexists _, _, _. split; [done|]. by split. }
  assert (forall y r, executor_ok y ->
    (exists status p', r = Some (status, p') /\ exists m, binds p' m) ->
    exists status error x', defined_as d y r = Some (status, None, error, x') /\
      executor_ok x') as Hdone.
  { intros y r [Hy _] (st' & p' & -> & Hp'). unfold defined_as.
    case_bool_decide; eexists _, _, _; (split; [done|]); by split. }
  destruct (range_length _ =? 0).
  - apply Hdone; [by split|]. by apply define_impl_returns.
  - destruct Ht' as [locals' Ht'].
    destruct (intern_range_returns source (id_replacement (pd_identifier d))
      (replacement_memory m) _ _ Ht') as (st' & rid & t'' & Hr & Ht'').
    cbn [set_strings strings]. rewrite Hr. destruct (succeeded st'); simpl negb; cbn iota.
    + apply Hdone; [by split|]. unfold define_as. cbn [set_strings strings macros].
      destruct (rid =? 0); [by eauto|]. by apply define_impl_returns.
    + eexists _, _, _. split; [done|]. by split.
Qed.

Lemma execute_active_returns d source m (x : directive_executor B) :
  executor_ok x ->
  exists status result error x', execute_active d source m x = Some (status, result, error, x') /\
    executor_ok x' /\ (is_Some result -> status = success /\ pd_kind d = dk_include).
Proof.
  intros Hok. unfold execute_active. destruct (pd_kind d) eqn:Ek;
    try (eexists _, _, _, _; split; [done|]; split; [done|]; by intros [? ?]).
  - unfold execute_include. case_match; eexists _, _, _, _; (split; [done|]); (split; [done|]);
      [by intros [? ?]|done].
  - destruct (execute_define_returns d source m x Hok) as (st & err & x' & -> & Hx').
    eexists _, _, _, _. split; [done|]. split; [done|]. by intros [? ?].
  - unfold execute_undef. destruct (range_view _ _) as [v|].
    2: { eexists _, _, _, _. split; [done|]. split; [done|]. by intros [? ?]. }
    destruct (_ =? 0).
    { eexists _, _, _, _. split; [done|]. split; [done|]. by intros [? ?]. }
    destruct Hok as [Ht [m' Hb]].
    destruct (undefine_spec (strings x) (macros x) m' (find (strings x) v) Hb)
      as (st & p' & -> & Hcase).
    eexists _, _, _, _. split; [done|]. split; [|by intros [? ?]]. split; [done|].
    destruct (contains _ _); [destruct Hcase as [_ ?]|destruct Hcase as [_ ->]]; by eauto.
Qed.

Lemma begin_conditional_returns d source inverted (x : directive_executor B) :
  executor_ok x ->
  exists status error x',
    begin_conditional d source inverted x = Some (status, None, error, x') /\
    strings x' = strings x /\ macros x' = macros x.
Proof.
  intros [Ht [m Hb]]. unfold begin_conditional. destruct (_ =? _)%nat; [by eauto 10|].
  destruct (active x); simpl negb; cbn iota; [|by eexists _, _, _].
  destruct (range_view _ _) as [v|]; [|by eauto 10].
  unfold test_macro. destruct (find (strings x) v =? 0); [by eexists _, _, _|].
  rewrite (defined_spec (strings x) (macros x) m _ Hb). by eexists _, _, _.
Qed.

(** Executing any directive returns and keeps the invariants of the string table
    and the macro table.  In an inactive branch nothing but the conditional groups
    changes and nothing is requested; an include request comes only from a
    successful [include] directive in an active branch. *)
Theorem execute_returns (d : preprocessing_directive) (source : list byte) (m : memory)
    (x : directive_executor B) :
  executor_ok x ->
  exists status result error x', execute d source m x = Some (status, result, error, x') /\
    executor_ok x' /\
    (active x = false -> strings x' = strings x /\ macros x' = macros x) /\
    (is_Some result -> status = success /\ pd_kind d = dk_include /\ active x = true).
Proof.
  intros Hok. unfold execute.
  assert (forall status (error : execution_error) (x' : directive_executor B),
    strings x' = strings x -> macros x' = macros x ->
    exists status' (result : execution_result) error' (x'' : directive_executor B),
      Some (status, None, error, x') = Some (status', result, error', x'') /\ executor_ok x'' /\
      (active x = false -> strings x'' = strings x /\ macros x'' = macros x) /\
      (is_Some result -> status' = success /\ pd_kind d = dk_include /\ active x = true)) as Hkeep.
  { intros status error x' Hs Hm. eexists _, _, _, _. split; [done|].
    split; [unfold executor_ok; by rewrite Hs, Hm|]. split; [done|]. by intros [? ?]. }
  destruct (current_file_entry _ _) as [floor|]; [|by apply Hkeep].
  assert (exists status' (result : execution_result) error' (x'' : directive_executor B),
    (if negb (active x) then Some (done_with success x) else execute_active d source m x)
      = Some (status', result, error', x'') /\ executor_ok x'' /\
    (active x = false -> strings x'' = strings x /\ macros x'' = macros x) /\
    (is_Some result -> status' = success /\ pd_kind d = dk_include /\ active x = true)) as Hline.
  { destruct (active x) eqn:Ea; simpl negb; cbn iota; [|by apply Hkeep].
    destruct (execute_active_returns d source m x Hok) as (st & res & err & x' & -> & Hx' & Hr).
    eexists _, _, _, _. split; [done|]. split; [done|]. split; [done|].
    intros Hres. destruct (Hr Hres). done. }
  destruct (pd_kind d) eqn:Ek; try exact Hline; try (by apply Hkeep).
  - destruct (begin_conditional_returns d source false x Hok) as (? & ? & ? & -> & ? & ?).
    by apply Hkeep.
  - destruct (begin_conditional_returns d source true x Hok) as (? & ? & ? & -> & ? & ?).
    by apply Hkeep.
  - unfold begin_else. repeat case_match; by apply Hkeep.
  - unfold end_conditional. repeat case_match; by apply Hkeep.
Qed.
End Totality.

(** ** A file:
    [#ifdef A], [#define B C], [#else], [#define A], [#endif]. *)

Definition example_text : list byte := str "A B C".

Definition example_directive (kind : directive_kind) (n r : source_range)
  : preprocessing_directive :=
  PreprocessingDirective kind (DirectiveRange 1 0 1 (SourceRange 0 1)) no_include
    (IdentifierDirective n r).

Definition plenty : memory := Memory allocated allocated true.

Definition example_block : block :=
  IfElse (example_directive dk_ifdef (SourceRange 0 1) no_range)
    (example_directive dk_else no_range no_range) (example_directive dk_endif no_range no_range)
    (Line (example_directive dk_define (SourceRange 2 1) (SourceRange 4 1)) plenty Done)
    (Line (example_directive dk_define (SourceRange 0 1) no_range) plenty Done) Done.

Definition example_executor : directive_executor (list (list byte)) :=
  Executor example_table new_preprocessor [] [].

Example example_defines_a :
  (fun o => let '(status, _, _, (t, p)) := o in (status, find t (str "A"), find t (str "B"),
     defined t (find t (str "A")) p)) <$>
    evaluate example_text true 0 example_block (example_table, new_preprocessor)
  = Some (success, 3, 0, Some true).
Proof. vm_compute. reflexivity. Qed.

Lemma well_nested_file_evaluates_witness :
  exists entered, enter_file 1 example_executor = (success, entered) /\
    match evaluate example_text true 0 example_block (example_table, new_preprocessor) with
    | None => run_directives example_text (flatten example_block) entered = None
    | Some (status, requests, error, (t, p)) => exists after,
        run_directives example_text (flatten example_block) entered
          = Some (status, requests, error, after) /\
        strings after = t /\ macros after = p /\
        (status = success ->
           finish_file 1 after = done_with success (with_state (t, p) example_executor))
    end.
Proof.
  apply (well_nested_file_evaluates example_text 1 example_block example_executor).
  - done.
  - unfold file_entry_limit. simpl. lia.
  - cbn. unfold of_file, is_line, is_opening. cbn.
    repeat split; first [done | by left | by intros [? | ?]].
Defined.

Definition example_entered : directive_executor (list (list byte)) :=
  (enter_file 1 example_executor).2.

Lemma includer_groups_protected_witness :
  (exists frames, conditionals example_entered = frames ++ conditionals example_executor) /\
  forall file result error x', finish_file file example_entered = (success, result, error, x') ->
    file_entries x' = file_entries example_executor ->
    conditionals x' = conditionals example_executor.
Proof.
  apply (includer_groups_protected example_executor example_entered).
  apply (inside_enter example_executor 1). reflexivity.
Defined.

Lemma example_executor_ok : executor_ok example_executor.
Proof.
  split; [|exists ∅; apply binds_new].
  apply reachable_inv, reach_bind, reach_new.
Qed.

Lemma execute_returns_witness :
  exists status result error x',
    execute (example_directive dk_define (SourceRange 2 1) (SourceRange 4 1)) example_text plenty
      example_executor = Some (status, result, error, x') /\ executor_ok x' /\
    (active example_executor = false ->
       strings x' = strings example_executor /\ macros x' = macros example_executor) /\
    (is_Some result -> status = success /\ dk_define = dk_include /\
       active example_executor = true).
Proof.
  apply (execute_returns (example_directive dk_define (SourceRange 2 1) (SourceRange 4 1))
    example_text plenty example_executor). apply example_executor_ok.
Defined.
