(* ===== verification/DiagnosticCatalog.v ===== *)
(** The diagnostic catalog (diagnostics/diagnostic_descriptor.hpp and
    diagnostic_registry.hpp, with the severities and domains of diagnostic.hpp):
    every descriptor, the registry and its lookup. *)

From S2P Require Import Prelude.

Local Open Scope Z_scope.

Inductive diagnostic_severity := note | warning | error | fatal.

#[export] Instance diagnostic_severity_eq_dec : EqDecision diagnostic_severity.
Proof. solve_decision. Defined.

Inductive diagnostic_domain :=
| domain_unknown | domain_server | domain_configuration | domain_license
| domain_authentication | domain_communication | domain_project | domain_source
| domain_parser | domain_build | domain_runtime | domain_persistence.

Record diagnostic_descriptor := Descriptor {
  descriptor_id : Z;
  descriptor_domain : diagnostic_domain;
  default_severity : diagnostic_severity;
  descriptor_name : list byte;
  descriptor_message : list byte
}.

Definition diagnostic_severity_name (severity : diagnostic_severity) : list byte :=
  match severity with
  | note => str "note"
  | warning => str "warning"
  | error => str "error"
  | fatal => str "fatal error"
  end.

Definition server_initialization_failed_d : diagnostic_descriptor :=
  Descriptor 1001 domain_server fatal (str "server.initialization_failed")
    (str "Server initialization failed").
Definition configuration_read_failed_d : diagnostic_descriptor :=
  Descriptor 1101 domain_configuration error (str "configuration.read_failed")
    (str "Server configuration could not be read").
Definition configuration_invalid_json_d : diagnostic_descriptor :=
  Descriptor 1102 domain_configuration error (str "configuration.invalid_json")
    (str "Server configuration contains invalid JSON").
Definition configuration_invalid_d : diagnostic_descriptor :=
  Descriptor 1103 domain_configuration error (str "configuration.invalid")
    (str "Server configuration is invalid").
Definition configuration_unsupported_version_d : diagnostic_descriptor :=
  Descriptor 1104 domain_configuration error (str "configuration.unsupported_version")
    (str "Server configuration version is unsupported").
Definition license_read_failed_d : diagnostic_descriptor :=
  Descriptor 1121 domain_license fatal (str "license.read_failed")
    (str "server.license could not be read").
Definition license_invalid_d : diagnostic_descriptor :=
  Descriptor 1122 domain_license fatal (str "license.invalid")
    (str "server.license is invalid").
Definition license_expired_d : diagnostic_descriptor :=
  Descriptor 1123 domain_license fatal (str "license.expired")
    (str "server.license has expired").
Definition server_lease_read_failed_d : diagnostic_descriptor :=
  Descriptor 1124 domain_license fatal (str "license.lease_read_failed")
    (str "server.lease could not be read").
Definition server_lease_invalid_d : diagnostic_descriptor :=
  Descriptor 1125 domain_license fatal (str "license.lease_invalid")
    (str "server.lease is invalid").
Definition server_lease_not_active_d : diagnostic_descriptor :=
  Descriptor 1126 domain_license fatal (str "license.lease_not_active")
    (str "server.lease is not active yet").
Definition server_lease_expired_d : diagnostic_descriptor :=
  Descriptor 1127 domain_license fatal (str "license.lease_expired")
    (str "server.lease has expired").
Definition server_identity_start_failed_d : diagnostic_descriptor :=
  Descriptor 1171 domain_server fatal (str "server.identity_start_failed")
    (str "Server identity could not be established").
Definition server_identity_unsupported_d : diagnostic_descriptor :=
  Descriptor 1172 domain_server fatal (str "server.identity_unsupported")
    (str "Server identity provider is not implemented on this platform").
Definition authentication_start_failed_d : diagnostic_descriptor :=
  Descriptor 1151 domain_authentication error (str "authentication.start_failed")
    (str "Authentication subsystem could not be started").
Definition authentication_unsupported_mode_d : diagnostic_descriptor :=
  Descriptor 1152 domain_authentication error (str "authentication.unsupported_mode")
    (str "Authentication mode is not implemented").
Definition server_demo_mode_d : diagnostic_descriptor :=
  Descriptor 1003 domain_server warning (str "server.demo_mode")
    (str "Server is running in DEMO mode").
Definition server_policy_denied_d : diagnostic_descriptor :=
  Descriptor 1002 domain_server error (str "server.policy_denied")
    (str "Server Policy denied the request").
Definition communication_start_failed_d : diagnostic_descriptor :=
  Descriptor 1201 domain_communication error (str "communication.start_failed")
    (str "Communication endpoint could not be started").
Definition communication_unsupported_transport_d : diagnostic_descriptor :=
  Descriptor 1202 domain_communication error (str "communication.unsupported_transport")
    (str "Communication transport is not implemented").
Definition project_already_loaded_d : diagnostic_descriptor :=
  Descriptor 2001 domain_project error (str "project.already_loaded")
    (str "A Project is already loaded").
Definition project_not_loaded_d : diagnostic_descriptor :=
  Descriptor 2002 domain_project error (str "project.not_loaded")
    (str "No Project is loaded").
Definition project_load_failed_d : diagnostic_descriptor :=
  Descriptor 2003 domain_project error (str "project.load_failed")
    (str "Project configuration could not be loaded").
Definition project_load_incomplete_d : diagnostic_descriptor :=
  Descriptor 2009 domain_project error (str "project.load_incomplete")
    (str "Project LOAD pipeline is incomplete").
Definition project_build_incomplete_d : diagnostic_descriptor :=
  Descriptor 2007 domain_project error (str "project.build_incomplete")
    (str "Project BUILD pipeline is incomplete").
Definition project_rebuild_incomplete_d : diagnostic_descriptor :=
  Descriptor 2008 domain_project error (str "project.rebuild_incomplete")
    (str "Project REBUILD pipeline is incomplete").
Definition project_startup_unsupported_d : diagnostic_descriptor :=
  Descriptor 2004 domain_project error (str "project.startup_unsupported")
    (str "Configured Project startup mode is not implemented").
Definition project_invalid_json_d : diagnostic_descriptor :=
  Descriptor 2005 domain_project error (str "project.invalid_json")
    (str "Project configuration contains invalid JSON").
Definition project_invalid_configuration_d : diagnostic_descriptor :=
  Descriptor 2006 domain_project error (str "project.invalid_configuration")
    (str "Project configuration is invalid").
Definition project_configuration_read_failed_d : diagnostic_descriptor :=
  Descriptor 2011 domain_project error (str "project.configuration_read_failed")
    (str "Project configuration input could not be read").
Definition project_configuration_cycle_d : diagnostic_descriptor :=
  Descriptor 2012 domain_project error (str "project.configuration_cycle")
    (str "Project configuration contains a recursive Project cycle").
Definition project_manifest_invalid_d : diagnostic_descriptor :=
  Descriptor 2013 domain_project error (str "project.manifest_invalid")
    (str "Persisted Project configuration manifest is invalid").
Definition project_manifest_io_failed_d : diagnostic_descriptor :=
  Descriptor 2014 domain_project error (str "project.manifest_io_failed")
    (str "Project configuration manifest I/O failed").
Definition project_manifest_missing_d : diagnostic_descriptor :=
  Descriptor 2015 domain_project error (str "project.manifest_missing")
    (str "Committed Project configuration manifest is missing").
Definition project_duplicate_construction_input_d : diagnostic_descriptor :=
  Descriptor 2016 domain_project error (str "project.duplicate_construction_input")
    (str "Project construction input is duplicated").
Definition project_lexical_error_d : diagnostic_descriptor :=
  Descriptor 2017 domain_parser error (str "project.lexical_error")
    (str "Project source contains a lexical error").
Definition project_configuration_depth_exceeded_d : diagnostic_descriptor :=
  Descriptor 2018 domain_project error (str "project.configuration_depth_exceeded")
    (str "Project configuration nesting depth exceeds the supported limit").
Definition project_preprocessing_error_d : diagnostic_descriptor :=
  Descriptor 2019 domain_parser error (str "project.preprocessing_error")
    (str "Project source preprocessing failed").
Definition project_rebuild_cleanup_failed_d : diagnostic_descriptor :=
  Descriptor 2020 domain_project error (str "project.rebuild_cleanup_failed")
    (str "REBUILD artifact cleanup failed").
Definition project_publish_cleanup_failed_d : diagnostic_descriptor :=
  Descriptor 2031 domain_project error (str "project.publish_cleanup_failed")
    (str "PUBLISH artifact cleanup failed").
Definition project_semantic_error_d : diagnostic_descriptor :=
  Descriptor 2025 domain_parser error (str "project.semantic_error")
    (str "Project source semantic construction failed").
Definition project_assign_invalid_d : diagnostic_descriptor :=
  Descriptor 2026 domain_project error (str "project.assign_invalid")
    (str "Project Assign input is invalid").
Definition project_compiled_invalid_d : diagnostic_descriptor :=
  Descriptor 2027 domain_project error (str "project.compiled_invalid")
    (str "Compiled Project artifact is invalid").
Definition project_compiled_io_failed_d : diagnostic_descriptor :=
  Descriptor 2028 domain_project error (str "project.compiled_io_failed")
    (str "Compiled Project artifact I/O failed").
Definition project_source_save_invalid_d : diagnostic_descriptor :=
  Descriptor 2023 domain_project error (str "project.source_save_invalid")
    (str "Committed Project SourceSave is invalid").
Definition project_source_save_io_failed_d : diagnostic_descriptor :=
  Descriptor 2024 domain_project error (str "project.source_save_io_failed")
    (str "Committed Project SourceSave I/O failed").
Definition project_database_invalid_d : diagnostic_descriptor :=
  Descriptor 2029 domain_project error (str "project.database_invalid")
    (str "Committed Project database is invalid").
Definition project_database_io_failed_d : diagnostic_descriptor :=
  Descriptor 2030 domain_project error (str "project.database_io_failed")
    (str "Committed Project database I/O failed").
Definition project_runtime_unsupported_d : diagnostic_descriptor :=
  Descriptor 2032 domain_project error (str "project.runtime_unsupported")
    (str "Configured Project Runtime mode is not implemented").
Definition project_runtime_failed_d : diagnostic_descriptor :=
  Descriptor 2033 domain_project error (str "project.runtime_failed")
    (str "Project Runtime/SHM publication failed").
Definition runtime_query_invalid_d : diagnostic_descriptor :=
  Descriptor 3001 domain_runtime error (str "runtime.query_invalid")
    (str "Runtime query is invalid").
Definition runtime_query_not_found_d : diagnostic_descriptor :=
  Descriptor 3002 domain_runtime error (str "runtime.query_not_found")
    (str "Runtime query target was not found").
Definition runtime_query_unsupported_d : diagnostic_descriptor :=
  Descriptor 3003 domain_runtime error (str "runtime.query_unsupported")
    (str "Runtime query target type is not supported").
Definition runtime_query_failed_d : diagnostic_descriptor :=
  Descriptor 3004 domain_runtime error (str "runtime.query_failed")
    (str "Runtime query could not read a valid Runtime value").
Definition runtime_ic_invalid_d : diagnostic_descriptor :=
  Descriptor 3011 domain_runtime error (str "runtime.ic_invalid")
    (str "Runtime IC image or request is invalid").
Definition runtime_ic_not_found_d : diagnostic_descriptor :=
  Descriptor 3012 domain_runtime error (str "runtime.ic_not_found")
    (str "Runtime IC file or semantic target was not found").
Definition runtime_ic_type_mismatch_d : diagnostic_descriptor :=
  Descriptor 3013 domain_runtime error (str "runtime.ic_type_mismatch")
    (str "Runtime IC value is incompatible with the current Runtime type").
Definition runtime_ic_failed_d : diagnostic_descriptor :=
  Descriptor 3014 domain_runtime error (str "runtime.ic_failed")
    (str "Runtime IC operation failed").
Definition runtime_ic_io_failed_d : diagnostic_descriptor :=
  Descriptor 3015 domain_persistence error (str "runtime.ic_io_failed")
    (str "Runtime IC file I/O failed").
Definition runtime_state_invalid_d : diagnostic_descriptor :=
  Descriptor 3021 domain_runtime error (str "runtime.state_invalid")
    (str "Runtime control request is invalid in the current Project state").

(** The registry; it leaves out [project_load_incomplete]. *)
Definition diagnostic_descriptors : list diagnostic_descriptor := [
  server_initialization_failed_d;
  configuration_read_failed_d;
  configuration_invalid_json_d;
  configuration_invalid_d;
  configuration_unsupported_version_d;
  license_read_failed_d;
  license_invalid_d;
  license_expired_d;
  server_lease_read_failed_d;
  server_lease_invalid_d;
  server_lease_not_active_d;
  server_lease_expired_d;
  server_identity_start_failed_d;
  server_identity_unsupported_d;
  authentication_start_failed_d;
  authentication_unsupported_mode_d;
  server_demo_mode_d;
  server_policy_denied_d;
  communication_start_failed_d;
  communication_unsupported_transport_d;
  project_already_loaded_d;
  project_not_loaded_d;
  project_load_failed_d;
  project_build_incomplete_d;
  project_rebuild_incomplete_d;
  project_configuration_read_failed_d;
  project_configuration_cycle_d;
  project_manifest_invalid_d;
  project_manifest_io_failed_d;
  project_manifest_missing_d;
  project_duplicate_construction_input_d;
  project_lexical_error_d;
  project_configuration_depth_exceeded_d;
  project_preprocessing_error_d;
  project_rebuild_cleanup_failed_d;
  project_publish_cleanup_failed_d;
  project_semantic_error_d;
  project_assign_invalid_d;
  project_compiled_invalid_d;
  project_compiled_io_failed_d;
  project_source_save_invalid_d;
  project_source_save_io_failed_d;
  project_database_invalid_d;
  project_database_io_failed_d;
  project_runtime_unsupported_d;
  project_runtime_failed_d;
  runtime_query_invalid_d;
  runtime_query_not_found_d;
  runtime_query_unsupported_d;
  runtime_query_failed_d;
  runtime_ic_invalid_d;
  runtime_ic_not_found_d;
  runtime_ic_type_mismatch_d;
  runtime_ic_failed_d;
  runtime_ic_io_failed_d;
  runtime_state_invalid_d;
  project_startup_unsupported_d;
  project_invalid_json_d;
  project_invalid_configuration_d
].

Fixpoint registry_find (id : Z) (l : list diagnostic_descriptor) : option diagnostic_descriptor :=
  match l with
  | [] => None
  | d :: l => if descriptor_id d =? id then Some d else registry_find id l
  end.

(** The compile-time gates of the header. *)
Definition diagnostic_ids_unique : bool :=
  bool_decide (NoDup (descriptor_id <$> diagnostic_descriptors)).
Definition diagnostic_names_unique : bool :=
  bool_decide (NoDup (descriptor_name <$> diagnostic_descriptors)).

Lemma catalog_gates : diagnostic_ids_unique = true /\ diagnostic_names_unique = true.
Proof. split; vm_compute; reflexivity. Qed.

Lemma registry_find_spec id l :
  NoDup (descriptor_id <$> l) ->
  forall d, registry_find id l = Some d <-> d ∈ l /\ descriptor_id d = id.
Proof.
  induction l as [|e l IH]; intros Hnd d; cbn [registry_find].
  { split; [done|]. intros [Hd _]. by apply elem_of_nil in Hd. }
  rewrite fmap_cons in Hnd. apply NoDup_cons in Hnd as [He Hnd]. rewrite elem_of_cons.
  destruct (Z.eqb_spec (descriptor_id e) id) as [Heq|Hne].
  - split; [intros [= <-]; split; [by left|done]|]. intros [[->|Hd] Hid]; [done|]. exfalso. apply He.
    rewrite Heq, <- Hid. by apply list_elem_of_fmap_2.
  - rewrite IH by done. split; [intros [? ?]; split; [by right|done]|].
    intros [[->|Hd] Hid]; done.
Qed.

(** A registered descriptor is found by its id; the one that is left out is not. *)
Lemma catalog_finds d :
  d ∈ diagnostic_descriptors -> registry_find (descriptor_id d) diagnostic_descriptors = Some d.
Proof.
  intros Hd. apply registry_find_spec; [|done].
  destruct catalog_gates as [H _]. by apply bool_decide_eq_true in H.
Qed.

(** The catalog is called complete, but a descriptor of it cannot be looked up. *)
Lemma catalog_incomplete :
  registry_find (descriptor_id project_load_incomplete_d) diagnostic_descriptors = None.
Proof. vm_compute. reflexivity. Qed.
