(* ===== verification/Diagnostics.v ===== *)
(** Diagnostic records, the source cache that turns offsets into lines and columns,
    and the collection with its presentation order (diagnostics/diagnostic.hpp,
    diagnostic_builder.hpp, diagnostic_source_cache.hpp and .cpp,
    diagnostic_collection.hpp and .cpp).  A path is its generic string. *)

From stdpp Require Import sorting.
From S2P Require Import Prelude DiagnosticCatalog.

Local Open Scope Z_scope.

Definition invalid_diagnostic_file_id : Z := 0xFFFFFFFF.

Record diagnostic_location := Location {
  location_file : list byte;
  location_offset : Z;
  location_length : Z;
  location_line : Z;
  location_column : Z;
  location_file_id : Z
}.

Definition no_location : diagnostic_location :=
  Location [] 0 0 0 0 invalid_diagnostic_file_id.

Record diagnostic_record := Record_ {
  record_id : Z;
  record_severity : diagnostic_severity;
  record_operation : Z;
  record_location : diagnostic_location;
  record_detail : list byte;
  record_message : list byte
}.

(** ** Building records *)

Definition diagnostic (d : diagnostic_descriptor) (operation : Z) : diagnostic_record :=
  Record_ (descriptor_id d) (default_severity d) operation no_location [] [].

Definition with_detail (value : list byte) (r : diagnostic_record) : diagnostic_record :=
  Record_ (record_id r) (record_severity r) (record_operation r) (record_location r) value
    (record_message r).

Definition with_location (value : diagnostic_location) (r : diagnostic_record)
  : diagnostic_record :=
  Record_ (record_id r) (record_severity r) (record_operation r) value (record_detail r)
    (record_message r).

(** ** The source cache *)

Definition newline : byte := x0a.
Definition carriage_return : byte := x0d.

Definition narrow_offset (value : Z) : Z := if u32_max <? value then u32_max else value.

Record diagnostic_source_file := SourceFile {
  file_id : Z;
  file_path : list byte;
  file_text : list byte;
  line_offsets : list Z
}.

(** The offsets of the lines after the first, from the byte at index [i] on. *)
Fixpoint line_offsets_from (i : Z) (text : list byte) : list Z :=
  match text with
  | [] => []
  | c :: rest =>
      if bool_decide (c = newline) && negb (bool_decide (rest = []))
      then narrow_offset (i + 1) :: line_offsets_from (i + 1) rest
      else line_offsets_from (i + 1) rest
  end.

Definition build_line_offsets (text : list byte) : list Z := 0 :: line_offsets_from 0 text.

Definition cache_add (path text : list byte) (files : list diagnostic_source_file) : Z * list diagnostic_source_file :=
  let id := u32 (Z.of_nat (length files)) in
  (id, files ++ [SourceFile id path text (build_line_offsets text)]).

Definition cache_find (id : Z) (files : list diagnostic_source_file) : option diagnostic_source_file :=
  files !! Z.to_nat id.

Definition is_line_end (c : byte) : bool :=
  bool_decide (c = newline) || bool_decide (c = carriage_return).

Fixpoint drop_line_ends (l : list byte) : list byte :=
  match l with
  | c :: rest => if is_line_end c then drop_line_ends rest else l
  | [] => []
  end.

(** Removes the line ends at the back. *)
Definition strip_line_ends (l : list byte) : list byte := reverse (drop_line_ends (reverse l)).

Definition line_text (id line : Z) (files : list diagnostic_source_file) : list byte :=
  match cache_find id files with
  | None => []
  | Some file =>
      if (line =? 0) || (Z.of_nat (length (line_offsets file)) <? line) then []
      else
        let begin := line_offsets file !!! Z.to_nat (line - 1) in
        let stop :=
          if line <? Z.of_nat (length (line_offsets file))
          then line_offsets file !!! Z.to_nat line
          else Z.of_nat (length (file_text file)) in
        strip_line_ends (slice (Z.to_nat begin) (Z.to_nat stop) (file_text file))
  end.

(** The index of the first element above [v] in a sorted list. *)
Fixpoint upper_bound (v : Z) (l : list Z) : nat :=
  match l with
  | x :: l => if x <=? v then S (upper_bound v l) else O
  | [] => O
  end.

Definition cache_locate (id offset length_ : Z) (files : list diagnostic_source_file) : diagnostic_location :=
  match cache_find id files with
  | None => Location [] (narrow_offset offset) (narrow_offset length_) 0 0 id
  | Some file =>
      let size := Z.of_nat (length (file_text file)) in
      let safe_offset := Z.min offset size in
      let position := upper_bound (narrow_offset safe_offset) (line_offsets file) in
      let line_index := (position - 1)%nat in
      let line_offset := line_offsets file !!! line_index in
      Location (file_path file) (narrow_offset safe_offset)
        (narrow_offset (Z.min length_ (size - safe_offset)))
        (narrow_offset (Z.of_nat line_index + 1))
        (narrow_offset (safe_offset - line_offset + 1)) id
  end.

(** ** Collections *)

Record diagnostic_collection := Collection {
  records : list diagnostic_record;
  sources : list diagnostic_source_file
}.

Definition empty_collection : diagnostic_collection := Collection [] [].

Definition emit (r : diagnostic_record) (d : diagnostic_collection) : diagnostic_collection :=
  Collection (records d ++ [r]) (sources d).

Definition add_source (path text : list byte) (d : diagnostic_collection)
  : Z * diagnostic_collection :=
  let (id, files) := cache_add path text (sources d) in (id, Collection (records d) files).

Definition has_errors (d : diagnostic_collection) : bool :=
  existsb (fun r => bool_decide (record_severity r = error) ||
                    bool_decide (record_severity r = fatal)) (records d).

Definition severity_value (s : diagnostic_severity) : Z :=
  match s with note => 0 | warning => 1 | error => 2 | fatal => 3 end.

(** Lexicographic comparison, which is that of strings of bytes and of tuples. *)
Fixpoint lexicographic {A} (compare : A -> A -> comparison) (l k : list A) : comparison :=
  match l, k with
  | [], [] => Eq
  | [], _ :: _ => Lt
  | _ :: _, [] => Gt
  | a :: l, b :: k =>
      match compare a b with Eq => lexicographic compare l k | c => c end
  end.

(** The tuple a record is sorted by, a number as a singleton and a string as its bytes. *)
Definition record_key (r : diagnostic_record) : list (list Z) :=
  let l := record_location r in
  [bz <$> location_file l; [location_line l]; [location_column l]; [location_offset l];
   [location_length l]; [record_id r]; [severity_value (record_severity r)];
   [record_operation r]; bz <$> record_message r; bz <$> record_detail r].

Definition key_compare : list (list Z) -> list (list Z) -> comparison :=
  lexicographic (lexicographic Z.compare).

(** Whether the key of [s] is not less than that of [r]. *)
Definition record_le (r s : diagnostic_record) : bool :=
  match key_compare (record_key s) (record_key r) with Lt => false | _ => true end.

Fixpoint insert_record (r : diagnostic_record) (l : list diagnostic_record)
  : list diagnostic_record :=
  match l with
  | [] => [r]
  | s :: l => if record_le r s then r :: s :: l else s :: insert_record r l
  end.

(** The stable sort. *)
Definition stable_sort (l : list diagnostic_record) : list diagnostic_record :=
  foldr insert_record [] l.

Definition sort_deterministic (d : diagnostic_collection) : diagnostic_collection :=
  Collection (stable_sort (records d)) (sources d).

(** ** Presentation order *)

(** A three-way comparison that orders a type totally. *)
Class TotalCompare {A} (compare : A -> A -> comparison) : Prop := {
  compare_same : forall a b, compare a b = Eq <-> a = b;
  compare_flip : forall a b, compare b a = CompOpp (compare a b);
  compare_trans : forall a b c, compare a b = Lt -> compare b c = Lt -> compare a c = Lt
}.

#[export] Instance Z_total_compare : TotalCompare Z.compare.
Proof.
  split.
  - apply Z.compare_eq_iff.
  - intros. apply Z.compare_antisym.
  - intros a b c. rewrite !Z.compare_lt_iff. lia.
Qed.

#[export] Instance lexicographic_total {A} (compare : A -> A -> comparison) :
  TotalCompare compare -> TotalCompare (lexicographic compare).
Proof.
  intros [Hs Hf Ht]. split.
  - induction a as [|a l IH]; intros [|b k]; try done. simpl.
    destruct (compare a b) eqn:E.
    + rewrite IH. apply Hs in E as ->. split; [by intros ->|by intros [= ->]].
    + split; [done|]. intros [= <- <-]. by rewrite (proj2 (Hs a a) eq_refl) in E.
    + split; [done|]. intros [= <- <-]. by rewrite (proj2 (Hs a a) eq_refl) in E.
  - induction a as [|a l IH]; intros [|b k]; try done. simpl. rewrite Hf.
    destruct (compare a b); simpl; [apply IH|done|done].
  - induction a as [|a l IH]; intros [|b k] [|c m]; try done. simpl.
    destruct (compare a b) eqn:Eab; [apply Hs in Eab as ->| |done].
    + destruct (compare b c); [apply IH|done|done].
    + intros _. destruct (compare b c) eqn:Ebc; [apply Hs in Ebc as <-| |done].
      * by rewrite Eab.
      * by rewrite (Ht _ _ _ Eab Ebc).
Qed.

#[export] Instance key_total : TotalCompare key_compare := _.

Definition key_le (a b : list (list Z)) : Prop := key_compare b a <> Lt.

#[export] Instance key_le_trans : Transitive key_le.
Proof.
  intros a b c Hab Hbc Hca. unfold key_le in *.
  destruct (key_compare b a) eqn:Eba; [apply compare_same in Eba as ->| |]; [done|done|].
  apply Hbc. apply (compare_trans (compare := key_compare) c a b); [done|]. by rewrite compare_flip, Eba.
Qed.

#[export] Instance key_le_antisym : AntiSymm (=) key_le.
Proof.
  intros a b Hab Hba. unfold key_le in *. rewrite (compare_flip (compare := key_compare) b a) in Hba.
  destruct (key_compare b a) eqn:E; [by apply compare_same in E|done|by destruct Hba].
Qed.

Lemma key_le_total a b : ~ key_le a b -> key_le b a.
Proof.
  unfold key_le. rewrite (compare_flip (compare := key_compare) b a). destruct (key_compare b a) eqn:E; simpl; try done.
  intros H. by destruct H.
Qed.

Lemma record_le_spec r s : record_le r s = true <-> key_le (record_key r) (record_key s).
Proof. unfold record_le, key_le. by destruct (key_compare _ _). Qed.

Lemma insert_record_perm r l : insert_record r l ≡ₚ r :: l.
Proof.
  induction l as [|s l IH]; [done|]. cbn [insert_record]. destruct (record_le r s); [done|].
  rewrite IH. apply Permutation_swap.
Qed.

Lemma stable_sort_perm l : stable_sort l ≡ₚ l.
Proof. induction l as [|r l IH]; [done|]. cbn. by rewrite insert_record_perm, IH. Qed.

Lemma insert_record_sorted r l :
  StronglySorted key_le (record_key <$> l) ->
  StronglySorted key_le (record_key <$> insert_record r l).
Proof.
  induction l as [|s l IH]; intros Hs; [by repeat constructor|]. cbn [insert_record].
  pose proof (StronglySorted_inv Hs) as [Hl Hall].
  destruct (record_le r s) eqn:E.
  - apply record_le_spec in E. cbn. constructor; [done|]. constructor; [done|].
    eapply Forall_impl; [exact Hall|]. intros k. by apply transitivity.
  - assert (key_le (record_key s) (record_key r)) as Hsr.
    { apply key_le_total. rewrite <- record_le_spec. by rewrite E. }
    cbn. constructor; [by apply IH|]. rewrite insert_record_perm. by constructor.
Qed.

Lemma stable_sort_sorted l : StronglySorted key_le (record_key <$> stable_sort l).
Proof. induction l as [|r l IH]; [constructor|]. cbn. by apply insert_record_sorted. Qed.

Lemma insert_record_stable k r l :
  StronglySorted key_le (record_key <$> l) ->
  filter (fun s => record_key s = k) (insert_record r l) =
  filter (fun s => record_key s = k) (r :: l).
Proof.
  induction l as [|s l IH]; intros Hs; [done|]. cbn [insert_record].
  destruct (record_le r s) eqn:E; [done|]. apply StronglySorted_inv in Hs as [Hl _].
  rewrite filter_cons, IH by done. rewrite !filter_cons.
  destruct (decide (record_key s = k)) as [Hk|], (decide (record_key r = k)) as [Hk'|]; try done.
  exfalso. assert (record_le r s = true); [|congruence]. apply record_le_spec. rewrite Hk, Hk'.
  unfold key_le. by rewrite (proj2 (compare_same (compare := key_compare) k k) eq_refl).
Qed.

Lemma stable_sort_stable k l :
  filter (fun s => record_key s = k) (stable_sort l) = filter (fun s => record_key s = k) l.
Proof.
  induction l as [|r l IH]; [done|].
  change (stable_sort (r :: l)) with (insert_record r (stable_sort l)).
  rewrite insert_record_stable by apply stable_sort_sorted.
  by rewrite !filter_cons, IH.
Qed.

Lemma fmap_injective_on {A B} (f : A -> B) (l k : list A) :
  (forall a b, a ∈ l -> b ∈ k -> f a = f b -> a = b) -> f <$> l = f <$> k -> l = k.
Proof.
  revert k. induction l as [|a l IH]; intros [|b k] Hf H; try done.
  injection H as Hab Hl. rewrite (Hf a b) by (by apply list_elem_of_here || done).
  rewrite (IH k); [done| |done]. intros x y Hx Hy. apply Hf; by apply list_elem_of_further.
Qed.

(** Sorting a collection keeps exactly its records, orders them by their keys and
    keeps the order of records with the same key; so the order in which workers
    emitted the records does not show: whatever the order, the keys come out the
    same, and so do the records when records with the same key are the same. *)
Theorem sort_deterministic_canonical (d : diagnostic_collection) :
  let sorted := records (sort_deterministic d) in
  sorted ≡ₚ records d /\ StronglySorted key_le (record_key <$> sorted) /\
  (forall k, filter (fun s => record_key s = k) sorted
             = filter (fun s => record_key s = k) (records d)) /\
  forall other, records other ≡ₚ records d ->
    record_key <$> records (sort_deterministic other) = record_key <$> sorted /\
    ((forall r s, r ∈ records d -> s ∈ records d -> record_key r = record_key s -> r = s) ->
     records (sort_deterministic other) = sorted).
Proof.
  cbn. split; [apply stable_sort_perm|]. split; [apply stable_sort_sorted|].
  split; [intros; apply stable_sort_stable|]. intros other Hperm.
  assert (record_key <$> stable_sort (records other) = record_key <$> stable_sort (records d)) as Hk.
  { apply (StronglySorted_unique key_le); [apply stable_sort_sorted|apply stable_sort_sorted|].
    by rewrite !stable_sort_perm, Hperm. }
  split; [done|]. intros Hinj. apply (fmap_injective_on record_key); [|done].
  intros r s Hr Hs. apply Hinj; [by rewrite <- Hperm, <- (stable_sort_perm (records other))
                                |by rewrite <- (stable_sort_perm (records d))].
Qed.

(** ** Lines and columns *)

(** The position after the first [n] bytes of a text, from a line and a column: a line
    ends after a newline, except after one that ends the text. *)
Fixpoint walk (text : list byte) (n : nat) (line column : Z) : Z * Z :=
  match n, text with
  | S n, c :: rest =>
      if bool_decide (c = newline) && negb (bool_decide (rest = []))
      then walk rest n (line + 1) 1
      else walk rest n line (column + 1)
  | _, _ => (line, column)
  end.

Lemma narrow_small v : v <= u32_max -> narrow_offset v = v.
Proof. intros. unfold narrow_offset. destruct (Z.ltb_spec u32_max v); [lia|done]. Qed.

Lemma line_offsets_from_range i text :
  i + Z.of_nat (length text) <= u32_max ->
  Forall (fun x => i < x < i + Z.of_nat (length text)) (line_offsets_from i text).
Proof.
  revert i. induction text as [|c rest IH]; intros i Hi; [constructor|].
  cbn [line_offsets_from length] in *.
  assert (Forall (fun x => i < x < i + Z.of_nat (S (length rest)))
    (line_offsets_from (i + 1) rest)) as Hr.
  { eapply Forall_impl; [apply IH; lia|]. intros x. simpl. lia. }
  destruct (_ && _) eqn:E; [|done]. constructor; [|done]. unbool.
  assert (length rest <> O) by (by destruct rest).
  rewrite narrow_small by lia. lia.
Qed.

Lemma upper_bound_none v l : Forall (fun x => v < x) l -> upper_bound v l = O.
Proof.
  destruct 1 as [|x l Hx]; [done|]. simpl. destruct (Z.leb_spec x v); [lia|done].
Qed.

(** Walking and searching the line offsets agree, from any position on. *)
Lemma walk_upper_bound text n i line column :
  i + Z.of_nat (length text) <= u32_max -> (n <= length text)%nat ->
  let k := upper_bound (i + Z.of_nat n) (line_offsets_from i text) in
  walk text n line column =
    (line + Z.of_nat k,
     match k with
     | O => column + Z.of_nat n
     | S j => i + Z.of_nat n - line_offsets_from i text !!! j + 1
     end).
Proof.
  revert i n line column. induction text as [|c rest IH]; intros i n line column Hi Hn.
  { destruct n; [|simpl in Hn; lia]. simpl. f_equal; lia. }
  destruct n as [|n].
  { intros k. assert (k = O) as ->; [|simpl; f_equal; lia].
    apply upper_bound_none. eapply Forall_impl; [by apply line_offsets_from_range|].
    intros x. simpl. lia. }
  cbn [walk line_offsets_from length] in *.
  replace (i + Z.of_nat (S n)) with (i + 1 + Z.of_nat n) by lia.
  destruct (_ && _) eqn:E.
  - rewrite narrow_small by lia. cbn [upper_bound].
    destruct (Z.leb_spec (i + 1) (i + 1 + Z.of_nat n)); [|lia].
    rewrite (IH (i + 1) n) by lia. cbv zeta.
    destruct (upper_bound _ (line_offsets_from (i + 1) rest)) as [|j]; simpl; f_equal; lia.
  - rewrite (IH (i + 1) n) by lia. cbv zeta.
    destruct (upper_bound _ (line_offsets_from (i + 1) rest)) as [|j]; simpl; f_equal; lia.
Qed.

Lemma walk_positive text n line column :
  1 <= line -> 1 <= column ->
  1 <= (walk text n line column).1 <= line + Z.of_nat n /\
  1 <= (walk text n line column).2 <= column + Z.of_nat n.
Proof.
  revert text line column. induction n as [|n IH]; intros [|c rest] line column Hl Hc;
    try (simpl; lia).
  cbn [walk]. destruct (_ && _).
  - specialize (IH rest (line + 1) 1). lia.
  - specialize (IH rest line (column + 1)). lia.
Qed.

(** The line offsets of a whole text, of which the walk is a view. *)
Lemma locate_walk text n :
  Z.of_nat (length text) <= u32_max -> (n <= length text)%nat ->
  let offsets := build_line_offsets text in
  let index := (upper_bound (Z.of_nat n) offsets - 1)%nat in
  walk text n 1 1 = (Z.of_nat index + 1, Z.of_nat n - offsets !!! index + 1).
Proof.
  intros Ht Hn offsets index. rewrite (walk_upper_bound text n 0) by lia.
  subst offsets index. unfold build_line_offsets. cbn [upper_bound].
  destruct (Z.leb_spec 0 (Z.of_nat n)); [|lia]. rewrite Nat.sub_succ, Nat.sub_0_r, Z.add_0_l.
  destruct (upper_bound _ (line_offsets_from 0 text)) as [|j]; simpl; f_equal; lia.
Qed.

(** A location in a source that was added carries the offset and length clipped
    to the text and the line and column that walking the text from 1:1 reaches;
    adding further sources changes no location; and an unknown source gives a
    location without position. *)
Theorem locate_walks (path text : list byte) (files later : list diagnostic_source_file) (offset length_ : Z) :
  Z.of_nat (length files) < u32_max -> Z.of_nat (length text) < u32_max -> 0 <= offset ->
  let (id, cache) := cache_add path text files in
  let clipped := Z.min offset (Z.of_nat (length text)) in
  let (line, column) := walk text (Z.to_nat clipped) 1 1 in
  id <> invalid_diagnostic_file_id /\
  (0 <= length_ ->
   cache_locate id offset length_ (cache ++ later) =
     Location path clipped (Z.min length_ (Z.of_nat (length text) - clipped)) line column id) /\
  forall unknown, Z.of_nat (length cache) <= unknown ->
    location_line (cache_locate unknown offset length_ cache) = 0 /\
    location_file (cache_locate unknown offset length_ cache) = [].
Proof.
  intros Hf Ht Ho. unfold cache_add. set (id := u32 (Z.of_nat (length files))).
  assert (id = Z.of_nat (length files)) as Hid.
  { unfold id, u32, u32_max in *. rewrite Z.mod_small; lia. }
  cbv zeta. set (clipped := Z.min offset (Z.of_nat (length text))).
  pose proof (locate_walk text (Z.to_nat clipped) ltac:(lia) ltac:(lia)) as Hw. cbv zeta in Hw.
  pose proof (walk_positive text (Z.to_nat clipped) 1 1 ltac:(lia) ltac:(lia)) as Hp.
  destruct (walk text (Z.to_nat clipped) 1 1) as [line column]. simpl in Hp.
  rewrite Z2Nat.id in Hw by lia. injection Hw as Hline Hcol.
  split; [unfold invalid_diagnostic_file_id, u32_max in *; lia|]. split.
  - intros Hl. unfold cache_locate, cache_find. rewrite <- app_assoc.
    rewrite lookup_app_r by lia. replace (Z.to_nat id - length files)%nat with O by lia.
    simpl. fold clipped. rewrite (narrow_small clipped) by lia. rewrite <- Hline, <- Hcol.
    rewrite !narrow_small by lia. done.
  - intros unknown Hu. unfold cache_locate, cache_find. rewrite lookup_ge_None_2; [done|]. lia.
Qed.

Lemma locate_walks_witness :
  let (id, cache) := cache_add (str "a.c") (str "int
x;
") [] in
  let clipped := Z.min 5 7 in
  let (line, column) := walk (str "int
x;
") (Z.to_nat clipped) 1 1 in
  id <> invalid_diagnostic_file_id /\
  (0 <= 1 ->
   cache_locate id 5 1 (cache ++ []) =
     Location (str "a.c") clipped (Z.min 1 (7 - clipped)) line column id) /\
  forall unknown, Z.of_nat (length cache) <= unknown ->
    location_line (cache_locate unknown 5 1 cache) = 0 /\
    location_file (cache_locate unknown 5 1 cache) = [].
Proof.
  apply (locate_walks (str "a.c") (str "int
x;
") [] [] 5 1); vm_compute; by try intros ?.
Defined.

(** ** The text of a line *)

Lemma upper_bound_below v l j x : l !! j = Some x -> (j < upper_bound v l)%nat -> x <= v.
Proof.
  revert j. induction l as [|y l IH]; intros j Hj; [done|]. cbn [upper_bound].
  destruct (Z.leb_spec y v); [|lia]. destruct j as [|j]; simpl in Hj; [naive_solver lia|].
  intros. apply (IH j); [done|lia].
Qed.

Lemma upper_bound_at v l x : l !! upper_bound v l = Some x -> v < x.
Proof.
  induction l as [|y l IH]; [done|]. cbn [upper_bound]. destruct (Z.leb_spec y v); [done|].
  simpl. naive_solver lia.
Qed.

Lemma upper_bound_length v l : (upper_bound v l <= length l)%nat.
Proof. induction l as [|y l IH]; [done|]. simpl. destruct (y <=? v); lia. Qed.

Lemma drop_line_ends_suffix l :
  exists n, drop_line_ends l = drop n l /\
    forall j c, l !! j = Some c -> (j < n)%nat -> is_line_end c = true.
Proof.
  induction l as [|c l (n & Hn & Hall)]; [by exists O|]. cbn [drop_line_ends].
  destruct (is_line_end c) eqn:Ec.
  - exists (S n). split; [done|]. intros [|j] d; simpl; [by intros [= <-]|].
    intros Hj ?. apply (Hall j); [done|lia].
  - exists O. split; [done|]. intros; lia.
Qed.

Lemma strip_line_ends_lookup l j c :
  l !! j = Some c -> is_line_end c = false -> strip_line_ends l !! j = Some c.
Proof.
  intros Hj Hc. unfold strip_line_ends. pose proof (lookup_lt_Some _ _ _ Hj) as Hlt.
  destruct (drop_line_ends_suffix (reverse l)) as (n & -> & Hall).
  assert (n <= length l - 1 - j)%nat as Hn.
  { destruct (decide (n <= length l - 1 - j)%nat) as [|Hn]; [done|].
    rewrite (Hall (length l - 1 - j)%nat c) in Hc; [done| |lia].
    rewrite reverse_lookup by lia. by replace (length l - S (length l - 1 - j))%nat with j by lia. }
  rewrite reverse_lookup by (rewrite length_drop, length_reverse; lia).
  rewrite length_drop, length_reverse, lookup_drop, reverse_lookup by lia.
  by replace (length l - S (n + (length l - n - S j)))%nat with j by lia.
Qed.

Lemma slice_lookup_at {A} (a b j : nat) (l : list A) :
  (a + j < b)%nat -> slice a b l !! j = l !! (a + j)%nat.
Proof. intros. unfold slice. by rewrite lookup_take, decide_True, lookup_drop by lia. Qed.

(** The line a location names contains the byte it locates, in its column. *)
Lemma line_text_at id files file n c :
  cache_find id files = Some file -> line_offsets file = build_line_offsets (file_text file) ->
  Z.of_nat (length (file_text file)) <= u32_max ->
  file_text file !! n = Some c -> is_line_end c = false ->
  let (line, column) := walk (file_text file) n 1 1 in
  line_text id line files !! Z.to_nat (column - 1) = Some c.
Proof.
  intros Hfile Hoff Hsize Hn Hc. pose proof (lookup_lt_Some _ _ _ Hn) as Hlt.
  rewrite locate_walk by lia. set (offsets := build_line_offsets (file_text file)) in *.
  assert (offsets !! O = Some 0) as H0 by done.
  set (k := upper_bound (Z.of_nat n) offsets).
  assert (0 < k)%nat as Hk by (unfold k; simpl; destruct (Z.leb_spec 0 (Z.of_nat n)); lia).
  pose proof (upper_bound_length (Z.of_nat n) offsets) as Hkl. fold k in Hkl.
  unfold line_text. rewrite Hfile, Hoff.
  destruct (Z.eqb_spec (Z.of_nat (k - 1) + 1) 0); [lia|].
  destruct (Z.ltb_spec (Z.of_nat (length offsets)) (Z.of_nat (k - 1) + 1)); [lia|]. cbn [orb].
  replace (Z.to_nat (Z.of_nat (k - 1) + 1 - 1)) with (k - 1)%nat by lia.
  replace (Z.to_nat (Z.of_nat (k - 1) + 1)) with k by lia.
  destruct (lookup_lt_is_Some_2 offsets (k - 1)) as [begin Hb]; [lia|].
  rewrite (list_lookup_total_correct _ _ _ Hb).
  pose proof (upper_bound_below (Z.of_nat n) offsets _ _ Hb ltac:(lia)) as Hbn.
  assert (0 <= begin) as Hb0.
  { destruct (k - 1)%nat as [|j] eqn:Ej; [rewrite Hb in H0; injection H0; lia|].
    pose proof (line_offsets_from_range 0 (file_text file) ltac:(lia)) as Hr.
    rewrite Forall_lookup in Hr. specialize (Hr j begin Hb). simpl in Hr. lia. }
  replace (Z.of_nat n - begin + 1 - 1) with (Z.of_nat n - begin) by lia.
  apply strip_line_ends_lookup; [|done]. rewrite slice_lookup_at.
  { by replace (Z.to_nat begin + Z.to_nat (Z.of_nat n - begin))%nat with n by lia. }
  destruct (Z.ltb_spec (Z.of_nat (k - 1) + 1) (Z.of_nat (length offsets))); [|lia].
  destruct (lookup_lt_is_Some_2 offsets k) as [stop Hs]; [lia|].
  rewrite (list_lookup_total_correct _ _ _ Hs).
  pose proof (upper_bound_at (Z.of_nat n) offsets stop Hs). lia.
Qed.
