(* ===== verification/DiagnosticFormatter.v ===== *)
(** The Clang-style presentation of diagnostics
    (diagnostics/diagnostic_formatter.hpp and .cpp): tab expansion, the caret line
    and the formatting of records. *)

From S2P Require Import Prelude JsonWriter DiagnosticCatalog Diagnostics.

Local Open Scope Z_scope.

Definition tab : byte := x09.
Definition space : byte := x20.
Definition tab_width : Z := 4.

(** The spaces of a tab in a column, in [uint32_t] arithmetic. *)
Definition tab_spaces (column : Z) : Z := tab_width - u32 (column - 1) mod tab_width.

Fixpoint expand_tabs_from (column : Z) (text : list byte) : list byte :=
  match text with
  | [] => []
  | ch :: text =>
      if bool_decide (ch = tab)
      then replicate (Z.to_nat (tab_spaces column)) space
             ++ expand_tabs_from (u32 (column + tab_spaces column)) text
      else ch :: expand_tabs_from (u32 (column + 1)) text
  end.

Definition expand_tabs (text : list byte) : list byte := expand_tabs_from 1 text.

Fixpoint prefix_width_from (width : Z) (text : list byte) : Z :=
  match text with
  | [] => width
  | ch :: text =>
      if bool_decide (ch = tab)
      then prefix_width_from (width + tab_spaces (u32 (width + 1))) text
      else prefix_width_from (width + 1) text
  end.

Definition expanded_prefix_width (text : list byte) (byte_count : Z) : Z :=
  prefix_width_from 0 (take (Z.to_nat (Z.min byte_count (Z.of_nat (length text)))) text).

(** The bytes from the front that do not end a line. *)
Fixpoint same_line (text : list byte) : list byte :=
  match text with
  | [] => []
  | c :: text => if is_line_end c then [] else c :: same_line text
  end.

Definition same_line_range_length (file : diagnostic_source_file)
    (location : diagnostic_location) : Z :=
  let size := Z.of_nat (length (file_text file)) in
  if (location_length location =? 0) || (size <=? location_offset location) then 0
  else
    let requested_end := Z.min size (location_offset location + location_length location) in
    Z.of_nat (length (same_line (slice (Z.to_nat (location_offset location))
                                   (Z.to_nat requested_end) (file_text file)))).

Definition write_location_prefix (location : diagnostic_location) : list byte :=
  (if negb (bool_decide (location_file location = [])) then location_file location
   else str "<unknown>")
  ++ (if negb (location_line location =? 0)
      then str ":" ++ decimal (location_line location)
             ++ (if negb (location_column location =? 0)
                 then str ":" ++ decimal (location_column location) else [])
      else []).

(** The caret line, without its newline. *)
Definition marker (raw_line : list byte) (file : diagnostic_source_file)
    (location : diagnostic_location) : list byte :=
  let raw_column := if location_column location =? 0 then 0 else location_column location - 1 in
  let caret_column := expanded_prefix_width raw_line raw_column in
  let raw_range := same_line_range_length file location in
  let expanded_end := expanded_prefix_width raw_line (raw_column + raw_range) in
  let expanded_length :=
    if caret_column <? expanded_end then expanded_end - caret_column else 1 in
  replicate (Z.to_nat caret_column) space ++ str "^"
  ++ (if (1 <? raw_range) && (1 <? expanded_length)
      then replicate (Z.to_nat (expanded_length - 1)) x7e else []).

Definition write_source (files : list diagnostic_source_file) (location : diagnostic_location)
  : list byte :=
  if (location_file_id location =? invalid_diagnostic_file_id) || (location_line location =? 0)
  then []
  else
    match cache_find (location_file_id location) files with
    | None => []
    | Some file =>
        let raw_line := line_text (location_file_id location) (location_line location) files in
        expand_tabs raw_line ++ [newline] ++ marker raw_line file location ++ [newline]
    end.

Definition format_record (files : list diagnostic_source_file)
    (registry : list diagnostic_descriptor) (r : diagnostic_record) : list byte :=
  write_location_prefix (record_location r)
  ++ str ": " ++ diagnostic_severity_name (record_severity r) ++ str ": "
  ++ (if negb (bool_decide (record_message r = [])) then record_message r
      else
        match registry_find (record_id r) registry with
        | Some d => descriptor_message d
        | None => str "Unknown diagnostic"
        end)
  ++ [newline]
  ++ write_source files (record_location r)
  ++ (if negb (bool_decide (record_detail r = []))
      then str "detail: " ++ record_detail r ++ [newline] else []).

Definition format_diagnostics (d : diagnostic_collection)
    (registry : list diagnostic_descriptor) : list byte :=
  records d ≫= format_record (sources d) registry.

(** ** Columns of the expanded line *)

Lemma tab_spaces_range column : 1 <= tab_spaces column <= 4.
Proof. unfold tab_spaces, tab_width. pose proof (Z.mod_pos_bound (u32 (column - 1)) 4 ltac:(lia)). lia. Qed.

Lemma tab_spaces_u32 column : tab_spaces (u32 column) = tab_spaces column.
Proof. unfold tab_spaces, u32. by rewrite Zminus_mod_idemp_l. Qed.

Lemma expand_tabs_from_u32 column text :
  expand_tabs_from (u32 column) text = expand_tabs_from column text.
Proof.
  destruct text as [|c text]; [done|]. cbn [expand_tabs_from]. rewrite tab_spaces_u32.
  unfold u32. by rewrite !Zplus_mod_idemp_l.
Qed.

Lemma expand_tabs_from_app column a b :
  expand_tabs_from column (a ++ b) =
  expand_tabs_from column a
    ++ expand_tabs_from (column + Z.of_nat (length (expand_tabs_from column a))) b.
Proof.
  revert column. induction a as [|c a IH]; intros column; [simpl; by rewrite Z.add_0_r|].
  cbn [expand_tabs_from app]. pose proof (tab_spaces_range column).
  destruct (bool_decide _).
  - rewrite !expand_tabs_from_u32, IH, <- app_assoc, length_app, length_replicate.
    do 3 f_equal. lia.
  - rewrite !expand_tabs_from_u32, IH. cbn [length app]. do 3 f_equal. lia.
Qed.

(** The width is the length of the expanded text. *)
Lemma prefix_width_from_spec width text :
  prefix_width_from width text
  = width + Z.of_nat (length (expand_tabs_from (width + 1) text)).
Proof.
  revert width. induction text as [|c text IH]; intros width; [simpl; lia|].
  cbn [prefix_width_from expand_tabs_from]. pose proof (tab_spaces_range (width + 1)).
  destruct (bool_decide _); rewrite IH, expand_tabs_from_u32; [rewrite tab_spaces_u32|].
  - rewrite length_app, length_replicate.
    replace (width + tab_spaces (width + 1) + 1) with (width + 1 + tab_spaces (width + 1)) by lia.
    lia.
  - cbn [length]. lia.
Qed.

Lemma expanded_prefix_width_spec a b :
  expanded_prefix_width (a ++ b) (Z.of_nat (length a)) = Z.of_nat (length (expand_tabs a)).
Proof.
  unfold expanded_prefix_width. rewrite length_app, Z.min_l, Nat2Z.id, take_app_length by lia.
  by rewrite prefix_width_from_spec.
Qed.

(** ** The marked source *)

Lemma same_line_prefix t : exists r, t = same_line t ++ r.
Proof.
  induction t as [|c t [r IH]]; [by exists []|]. cbn [same_line]. destruct (is_line_end c).
  - by exists (c :: t).
  - exists r. simpl. by f_equal.
Qed.

Lemma same_line_bytes t : Forall (fun c => is_line_end c = false) (same_line t).
Proof.
  induction t as [|c t IH]; [constructor|]. cbn [same_line].
  destruct (is_line_end c) eqn:E; by constructor.
Qed.

Lemma walk_add text a b line column :
  (a <= length text)%nat ->
  walk text (a + b) line column =
  let (line, column) := walk text a line column in walk (drop a text) b line column.
Proof.
  revert a line column. induction text as [|c rest IH]; intros a line column Ha.
  { simpl in Ha. by replace a with O by lia. }
  destruct a as [|a]; [done|]. cbn [plus walk drop length] in *. destruct (_ && _); apply IH; lia.
Qed.

Lemma walk_same_line text l n line column :
  length l = n -> Forall (fun c => is_line_end c = false) l ->
  walk (l ++ text) n line column = (line, column + Z.of_nat n).
Proof.
  intros <- Hl. revert column. induction Hl as [|c l Hc Hl IH]; intros column.
  { destruct text; simpl; f_equal; lia. }
  cbn [length app walk]. unfold is_line_end in Hc. apply orb_false_iff in Hc as [-> _].
  cbn [andb]. rewrite IH. f_equal. lia.
Qed.

(** A range on one line lies in the text of its line. *)
Lemma line_text_range id files file n marked rest :
  cache_find id files = Some file -> line_offsets file = build_line_offsets (file_text file) ->
  Z.of_nat (length (file_text file)) <= u32_max ->
  drop n (file_text file) = marked ++ rest -> (n < length (file_text file))%nat ->
  Forall (fun c => is_line_end c = false) marked ->
  let (line, column) := walk (file_text file) n 1 1 in
  forall j, (j < length marked)%nat ->
    line_text id line files !! (Z.to_nat (column - 1) + j)%nat = marked !! j.
Proof.
  intros Hfile Hoff Hsize Hdrop Hn Hm. pose proof (walk_positive (file_text file) n 1 1) as Hp.
  destruct (walk (file_text file) n 1 1) as [line column] eqn:Hw. simpl in Hp. intros j Hj.
  destruct (lookup_lt_is_Some_2 marked j Hj) as [c Hc]. rewrite Hc.
  assert (file_text file !! (n + j)%nat = Some c) as Ht.
  { rewrite <- lookup_drop, Hdrop, lookup_app_l by done. done. }
  pose proof (line_text_at id files file (n + j) c Hfile Hoff Hsize Ht) as Hl.
  rewrite Forall_lookup in Hm. specialize (Hl (Hm j c Hc)).
  rewrite walk_add, Hw, Hdrop in Hl by lia.
  rewrite <- (take_drop j marked), <- app_assoc in Hl.
  rewrite walk_same_line in Hl.
  - by replace (Z.to_nat (column - 1) + j)%nat with (Z.to_nat (column + Z.of_nat j - 1)) by lia.
  - rewrite length_take. lia.
  - apply Forall_take. by apply Forall_lookup.
Qed.

Lemma lookup_range_split {A} (l m : list A) n :
  (n <= length l)%nat -> (forall j, (j < length m)%nat -> l !! (n + j)%nat = m !! j) ->
  exists before after, l = before ++ m ++ after /\ length before = n.
Proof.
  intros Hn Hm. exists (take n l), (drop (length m) (drop n l)).
  split; [|rewrite length_take; lia].
  rewrite <- (take_drop n l) at 1. f_equal. rewrite <- (take_drop (length m) (drop n l)) at 1.
  f_equal. apply list_eq. intros j. destruct (decide (j < length m)%nat).
  - rewrite lookup_take, decide_True, lookup_drop by lia. by apply Hm.
  - rewrite lookup_take, decide_False, lookup_ge_None_2 by lia. done.
Qed.

(** The located part of a range that is on the line of its first byte. *)
Definition located (text : list byte) (offset length_ : Z) : list byte :=
  same_line (take (Z.to_nat length_) (drop (Z.to_nat offset) text)).

Lemma same_line_range_located file path line column id offset length_ :
  0 <= offset < Z.of_nat (length (file_text file)) -> 0 <= length_ ->
  same_line_range_length file
    (Location path offset (Z.min length_ (Z.of_nat (length (file_text file)) - offset))
       line column id)
  = Z.of_nat (length (located (file_text file) offset length_)).
Proof.
  intros Ho Hl. unfold same_line_range_length, located. cbn [location_length location_offset].
  destruct (Z.leb_spec (Z.of_nat (length (file_text file))) offset); [lia|]. rewrite orb_false_r.
  destruct (Z.eqb_spec (Z.min length_ (Z.of_nat (length (file_text file)) - offset)) 0).
  - replace length_ with 0 by lia. done.
  - do 3 f_equal. unfold slice.
    destruct (decide (length_ <= Z.of_nat (length (file_text file)) - offset)).
    + f_equal. lia.
    + rewrite !take_ge; [done| |]; rewrite length_drop; lia.
Qed.

Lemma expand_tabs_from_grows column text :
  (length text <= length (expand_tabs_from column text))%nat.
Proof.
  revert column. induction text as [|c text IH]; intros column; [done|]. cbn [expand_tabs_from].
  pose proof (tab_spaces_range column). destruct (bool_decide _).
  - rewrite length_app, length_replicate. specialize (IH (u32 (column + tab_spaces column))).
    simpl. lia.
  - simpl. specialize (IH (u32 (column + 1))). lia.
Qed.

(** The marker under a line of which [marked] is located in the column after [before]. *)
Lemma marker_spec before marked after file location :
  location_column location = Z.of_nat (length before) + 1 ->
  same_line_range_length file location = Z.of_nat (length marked) ->
  marker (before ++ marked ++ after) file location =
    replicate (length (expand_tabs before)) space ++ str "^" ++
      (if (length marked <=? 1)%nat then []
       else replicate (length (expand_tabs (before ++ marked))
                       - length (expand_tabs before) - 1) x7e).
Proof.
  intros Hcol Hrange. unfold marker. rewrite Hcol, Hrange. cbv zeta.
  destruct (Z.eqb_spec (Z.of_nat (length before) + 1) 0); [lia|].
  replace (Z.of_nat (length before) + 1 - 1) with (Z.of_nat (length before)) by lia.
  rewrite expanded_prefix_width_spec, Nat2Z.id.
  replace (Z.of_nat (length before) + Z.of_nat (length marked))
    with (Z.of_nat (length (before ++ marked))) by (rewrite length_app; lia).
  rewrite (app_assoc before), expanded_prefix_width_spec. do 2 f_equal.
  unfold expand_tabs. rewrite expand_tabs_from_app, length_app.
  set (more := expand_tabs_from _ marked).
  assert (length marked <= length more)%nat as Hmore by apply expand_tabs_from_grows.
  destruct (Nat.leb_spec (length marked) 1).
  - by destruct (Z.ltb_spec 1 (Z.of_nat (length marked))); [lia|].
  - destruct (Z.ltb_spec 1 (Z.of_nat (length marked))); [|lia].
    destruct (Z.ltb_spec (Z.of_nat (length (expand_tabs_from 1 before)))
      (Z.of_nat (length (expand_tabs_from 1 before) + length more))); [|lia].
    destruct (Z.ltb_spec 1 (Z.of_nat (length (expand_tabs_from 1 before) + length more)
      - Z.of_nat (length (expand_tabs_from 1 before)))); [|lia].
    cbn [andb]. f_equal. lia.
Qed.

(** C12: Presenting a located range prints its source line with tabs expanded and, below
    it, a caret exactly under the first byte of the range, followed by tildes up to
    the end of what the part of the range on this line expands to, when this part
    has more than one byte. *)
Theorem caret_marks_source (path text : list byte) (files later : list diagnostic_source_file)
    (offset length_ : Z) (c : byte) :
  Z.of_nat (length files) < u32_max -> Z.of_nat (length text) < u32_max -> 0 <= offset ->
  0 <= length_ -> text !! Z.to_nat offset = Some c -> is_line_end c = false ->
  let (id, cache) := cache_add path text files in
  let location := cache_locate id offset length_ (cache ++ later) in
  let marked := located text offset length_ in
  exists before after,
    line_text id (location_line location) (cache ++ later) = before ++ marked ++ after /\
    (before ++ marked ++ after) !! length before = Some c /\
    location_column location = Z.of_nat (length before) + 1 /\
    write_source (cache ++ later) location =
      expand_tabs (before ++ marked ++ after) ++ [newline] ++
      (replicate (length (expand_tabs before)) space ++ str "^" ++
       (if (length marked <=? 1)%nat then []
        else replicate (length (expand_tabs (before ++ marked))
                        - length (expand_tabs before) - 1) x7e)) ++ [newline].
Proof.
  intros Hf Ht Ho Hl Hc He. pose proof (lookup_lt_Some _ _ _ Hc) as Hlt.
  pose proof (locate_walks path text files later offset length_ Hf Ht Ho) as Hw.
  unfold cache_add in *. set (id := u32 (Z.of_nat (length files))) in *. cbv zeta in *.
  rewrite Z.min_l in Hw by lia.
  set (file := SourceFile id path text (build_line_offsets text)) in *.
  set (cache := files ++ [file]) in *.
  assert (cache_find id (cache ++ later) = Some file) as Hfind.
  { unfold cache_find, cache, id, u32, u32_max in *. rewrite Z.mod_small, Nat2Z.id by lia.
    by rewrite <- app_assoc, lookup_app_r, Nat.sub_diag by lia. }
  pose proof (line_text_at id (cache ++ later) file (Z.to_nat offset) c Hfind eq_refl
    ltac:(simpl; lia) Hc He) as Hat.
  destruct (same_line_prefix (take (Z.to_nat length_) (drop (Z.to_nat offset) text))) as [r Hr].
  fold (located text offset length_) in Hr. set (marked := located text offset length_) in *.
  assert (drop (Z.to_nat offset) text
    = marked ++ r ++ drop (Z.to_nat length_) (drop (Z.to_nat offset) text)) as Hd.
  { by rewrite app_assoc, <- Hr, take_drop. }
  pose proof (line_text_range id (cache ++ later) file (Z.to_nat offset) marked _ Hfind eq_refl
    ltac:(simpl; lia) Hd Hlt (same_line_bytes _)) as Hrange.
  pose proof (walk_positive text (Z.to_nat offset) 1 1 ltac:(lia) ltac:(lia)) as Hp.
  change (file_text file) with text in *.
  destruct (walk text (Z.to_nat offset) 1 1) as [line column]. simpl in Hp.
  destruct Hw as (Hid & Hloc & _). rewrite Hloc by done. cbn [location_line location_column].
  destruct (lookup_range_split (line_text id line (cache ++ later)) marked (Z.to_nat (column - 1)))
    as (before & after & Hraw & Hlen).
  { apply Nat.lt_le_incl. by apply lookup_lt_Some in Hat. }
  { done. }
  exists before, after. split; [done|]. rewrite Hraw in Hat.
  rewrite <- Hlen in Hat. split; [done|]. split; [lia|].
  unfold write_source. cbn [location_file_id location_line].
  rewrite (proj2 (Z.eqb_neq id _)), (proj2 (Z.eqb_neq line 0)) by (done || lia). cbn [orb].
  rewrite Hfind, Hraw. rewrite (marker_spec before marked after); [done| |].
  - cbn [location_column]. lia.
  - subst file. apply (same_line_range_located (SourceFile id path text _)); simpl; lia.
Qed.

(** A tab, an unknown name and a range over it. *)
Definition example_text : list byte := tab :: str "int x = undefined_name;".

Example example_excerpt :
  let (id, cache) := cache_add (str "a.cpp") example_text [] in
  write_source cache (cache_locate id 9 14 cache) =
    str "    int x = undefined_name;" ++ [newline] ++
    str "            ^~~~~~~~~~~~~~" ++ [newline].
Proof. vm_compute. reflexivity. Qed.

Lemma caret_marks_source_witness :
  let (id, cache) := cache_add (str "a.cpp") example_text [] in
  let location := cache_locate id 9 14 (cache ++ []) in
  let marked := located example_text 9 14 in
  exists before after,
    line_text id (location_line location) (cache ++ []) = before ++ marked ++ after /\
    (before ++ marked ++ after) !! length before = Some x75 /\
    location_column location = Z.of_nat (length before) + 1 /\
    write_source (cache ++ []) location =
      expand_tabs (before ++ marked ++ after) ++ [newline] ++
      (replicate (length (expand_tabs before)) space ++ str "^" ++
       (if (length marked <=? 1)%nat then []
        else replicate (length (expand_tabs (before ++ marked))
                        - length (expand_tabs before) - 1) x7e)) ++ [newline].
Proof.
  apply (caret_marks_source (str "a.cpp") example_text [] [] 9 14 x75);
    first [reflexivity | vm_compute; by try intros ?].
Defined.
