(* ===== verification/OutboundChannel.v ===== *)
(** The two queues between the transport threads and the control thread: the bounded
    outbound channel of a connection (communication/connection/outbound_channel.hpp
    and .cpp) and the request queue (communication/request_queue.hpp and .cpp).
    Every operation is one critical section of the code, so an execution is an
    interleaving of operations of any threads. *)

From S2P Require Import Prelude.

Local Open Scope Z_scope.

Module Outbound.

Record message (P : Type) := Message { estimated_bytes : Z; payload : P }.
Arguments Message {P}.
Arguments estimated_bytes {P}.
Arguments payload {P}.

Record outbound_write (P : Type) := Write { connection_sequence : Z; written_message : message P }.
Arguments Write {P}.
Arguments connection_sequence {P}.
Arguments written_message {P}.

Record channel (P : Type) := Channel {
  limit : Z;
  queue : list (message P);
  bytes : Z;
  is_closing : bool;
  next_sequence : Z;
  last_written : Z
}.
Arguments Channel {P}.
Arguments limit {P}.
Arguments queue {P}.
Arguments bytes {P}.
Arguments is_closing {P}.
Arguments next_sequence {P}.
Arguments last_written {P}.

Section Operations.
Context {P : Type}.
Implicit Types (c : channel P) (m : message P).

Definition new_channel (byte_limit : Z) : channel P := Channel byte_limit [] 0 false 1 0.

(** The open to closing transition; the queued output is discarded. *)
Definition discard c : channel P :=
  Channel (limit c) [] 0 true (next_sequence c) (last_written c).

Definition enqueue m c : bool * channel P :=
  if is_closing c then (false, c)
  else if (limit c <? estimated_bytes m) || (limit c - estimated_bytes m <? bytes c)
  then (false, discard c)
  else
    (true, Channel (limit c) (queue c ++ [m]) (u64 (bytes c + estimated_bytes m)) false
             (next_sequence c) (last_written c)).

(** The dequeue shared by [wait_next] and [try_next]. *)
Definition try_next c : option (outbound_write P) * channel P :=
  match is_closing c, queue c with
  | false, m :: rest =>
      (Some (Write (next_sequence c) m),
       Channel (limit c) rest (u64 (bytes c - estimated_bytes m)) false
         (u64 (next_sequence c + 1)) (last_written c))
  | _, _ => (None, c)
  end.

(** [None] while the writer sleeps. *)
Definition wait_next c : option (option (outbound_write P) * channel P) :=
  match is_closing c, queue c with
  | false, [] => None
  | _, _ => Some (try_next c)
  end.

Definition mark_written (sequence : Z) c : channel P :=
  if last_written c <? sequence
  then Channel (limit c) (queue c) (bytes c) (is_closing c) (next_sequence c) sequence
  else c.

(** The answer when the wait ends; [None] while it lasts and has not timed out. *)
Definition wait_until_written (sequence : Z) (timed_out : bool) c : option bool :=
  if (sequence <=? last_written c) || is_closing c || timed_out
  then Some (sequence <=? last_written c) else None.

Definition close c : bool * channel P :=
  if is_closing c then (false, c) else (true, discard c).

(** ** Executions *)

(** The calls of all threads, in the order of their critical sections. *)
Inductive channel_call :=
| call_enqueue (m : message P)
| call_next
| call_written (sequence : Z)
| call_close.

(** What a call accepted and what it delivered. *)
Definition channel_step (call : channel_call) c
  : list (message P) * list (outbound_write P) * channel P :=
  match call with
  | call_enqueue m =>
      let (accepted, c) := enqueue m c in (if accepted then [m] else [], [], c)
  | call_next =>
      let (write, c) := try_next c in ([], match write with Some w => [w] | None => [] end, c)
  | call_written sequence => ([], [], mark_written sequence c)
  | call_close => ([], [], (close c).2)
  end.

Fixpoint channel_run (calls : list channel_call) c
  : list (message P) * list (outbound_write P) * channel P :=
  match calls with
  | [] => ([], [], c)
  | call :: calls =>
      let '(accepted, delivered, c) := channel_step call c in
      let '(accepted', delivered', c) := channel_run calls c in
      (accepted ++ accepted', delivered ++ delivered', c)
  end.

(** The calls enqueue messages whose size is a size. *)
Definition sized_call (call : channel_call) : Prop :=
  match call with call_enqueue m => 0 <= estimated_bytes m | _ => True end.

Definition total_bytes (ms : list (message P)) : Z := foldr (fun m n => estimated_bytes m + n) 0 ms.

Lemma total_bytes_app ms ns : total_bytes (ms ++ ns) = total_bytes ms + total_bytes ns.
Proof.
  induction ms as [|m ms IH]; [done|].
  change (total_bytes ((m :: ms) ++ ns)) with (estimated_bytes m + total_bytes (ms ++ ns)).
  change (total_bytes (m :: ms)) with (estimated_bytes m + total_bytes ms). lia.
Qed.

Lemma total_bytes_nonneg ms : Forall (fun m => 0 <= estimated_bytes m) ms -> 0 <= total_bytes ms.
Proof. induction 1; simpl; lia. Qed.

(** The channel after [accepted] was accepted and [delivered] delivered, when it
    started with nothing queued and the sequence number [first]. *)
Record channel_inv (first : Z) (accepted : list (message P))
    (delivered : list (outbound_write P)) c : Prop := ChannelInv {
  inv_limit : 0 <= limit c <= size_max;
  inv_order : exists rest, accepted = (written_message <$> delivered) ++ rest /\
    (is_closing c = false -> rest = queue c);
  inv_closed : is_closing c = true -> queue c = [] /\ bytes c = 0;
  inv_bytes : bytes c = total_bytes (queue c) /\ bytes c <= limit c;
  inv_sizes : Forall (fun m => 0 <= estimated_bytes m) (queue c);
  inv_sequences : connection_sequence <$> delivered
    = (fun i => u64 (first + Z.of_nat i)) <$> seq 0 (length delivered);
  inv_next : next_sequence c = u64 (first + Z.of_nat (length delivered))
}.

Lemma discard_inv first accepted delivered c :
  channel_inv first accepted delivered c -> channel_inv first accepted delivered (discard c).
Proof.
  intros [Hl (rest & Ho & _) _ _ _ Hq Hn]. split; try done.
  - by exists rest.
  - simpl. split; [done|lia].
Qed.

Lemma enqueue_inv first accepted delivered c m :
  channel_inv first accepted delivered c -> 0 <= estimated_bytes m ->
  let (ok, c') := enqueue m c in
  channel_inv first (if ok then accepted ++ [m] else accepted) delivered c'.
Proof.
  intros Hi Hm. unfold enqueue. destruct (is_closing c) eqn:Ec; [done|].
  destruct (_ || _) eqn:Eg; [by apply discard_inv|]. unbool.
  destruct Hi as [Hl (rest & Ho & Hr) Hcl [Hb Hbl] Hsz Hq Hn].
  pose proof (total_bytes_nonneg _ Hsz).
  assert (u64 (bytes c + estimated_bytes m) = bytes c + estimated_bytes m) as Hu.
  { unfold u64, size_max in *. apply Z.mod_small. lia. }
  split; simpl; try done.
  - exists (rest ++ [m]). rewrite Ho, <- app_assoc. split; [done|]. intros _. by rewrite Hr.
  - rewrite Hu, total_bytes_app. simpl. lia.
  - apply Forall_app. by repeat constructor.
Qed.

Lemma try_next_inv first accepted delivered c :
  channel_inv first accepted delivered c ->
  let (write, c') := try_next c in
  channel_inv first accepted (delivered ++ match write with Some w => [w] | None => [] end) c'.
Proof.
  intros Hi. unfold try_next. destruct (is_closing c) eqn:Ec; [by rewrite app_nil_r|].
  destruct (queue c) as [|m q] eqn:Eq; [by rewrite app_nil_r|].
  destruct Hi as [Hl (rest & Ho & Hr) Hcl [Hb Hbl] Hsz Hq Hn]. rewrite Eq in *.
  apply Forall_cons in Hsz as [Hm Hsz]. pose proof (total_bytes_nonneg _ Hsz).
  simpl in Hb.
  assert (u64 (bytes c - estimated_bytes m) = total_bytes q) as Hu.
  { unfold u64, size_max in *. fold (total_bytes q) in Hb. rewrite Z.mod_small; lia. }
  split; simpl; try done.
  - exists q. rewrite fmap_app, <- app_assoc. simpl. rewrite Ho, Hr by done. done.
  - rewrite Hu. split; [done|]. fold (total_bytes q) in Hb. lia.
  - rewrite fmap_app, Hq, length_app. simpl. rewrite seq_app, fmap_app. simpl. by rewrite Hn.
  - rewrite Hn, length_app. simpl. unfold u64. rewrite Zplus_mod_idemp_l. f_equal. lia.
Qed.

Lemma mark_written_inv first accepted delivered c s :
  channel_inv first accepted delivered c -> channel_inv first accepted delivered (mark_written s c).
Proof. intros Hi. unfold mark_written. destruct (_ <? _); [|done]. by destruct Hi. Qed.

Lemma channel_step_inv first accepted delivered c call :
  channel_inv first accepted delivered c -> sized_call call ->
  let '(more, written, c') := channel_step call c in
  channel_inv first (accepted ++ more) (delivered ++ written) c'.
Proof.
  intros Hi Hs. destruct call as [m| |s|]; simpl in *.
  - pose proof (enqueue_inv _ _ _ _ m Hi Hs) as He. destruct (enqueue m c) as [[] c'];
      by rewrite ?app_nil_r.
  - pose proof (try_next_inv _ _ _ _ Hi) as He. destruct (try_next c) as [w c'].
    by rewrite app_nil_r.
  - rewrite !app_nil_r. by apply mark_written_inv.
  - rewrite !app_nil_r. unfold close. destruct (is_closing c); [done|]. by apply discard_inv.
Qed.

Lemma channel_run_inv calls first accepted delivered c :
  channel_inv first accepted delivered c -> Forall sized_call calls ->
  let '(more, written, c') := channel_run calls c in
  channel_inv first (accepted ++ more) (delivered ++ written) c'.
Proof.
  intros Hi Hs. revert accepted delivered c Hi. induction Hs as [|call calls Hc _ IH];
    intros accepted delivered c Hi; [simpl; by rewrite !app_nil_r|].
  cbn [channel_run]. pose proof (channel_step_inv _ _ _ _ call Hi Hc) as Hi'.
  destruct (channel_step call c) as [[more written] c'].
  specialize (IH _ _ _ Hi'). destruct (channel_run calls c') as [[more' written'] c''].
  by rewrite !app_assoc.
Qed.

Lemma new_channel_inv byte_limit :
  0 <= byte_limit <= size_max -> channel_inv 1 [] [] (new_channel byte_limit).
Proof. intros. split; simpl; try done; [by exists []|lia]. Qed.

Lemma u64_sequences n :
  Z.of_nat n <= size_max ->
  (fun i => u64 (1 + Z.of_nat i)) <$> seq 0 n = (fun i => 1 + Z.of_nat i) <$> seq 0 n.
Proof.
  intros Hn. apply list_fmap_ext. intros i x Hx. apply lookup_seq in Hx as [-> Hi].
  unfold u64, size_max in *. destruct (decide (1 + Z.of_nat i = 2 ^ 64)); [lia|].
  rewrite Z.mod_small; lia.
Qed.

(** C10: In every interleaving of producers, writer and closers on a channel, the
    delivered messages are the accepted ones in the order of acceptance without
    gaps, carrying the sequence numbers 1, 2, 3, and so on; what is queued is
    exactly what was accepted and not yet delivered until the channel closes; the
    byte counter is exactly the size of the queued messages and never exceeds the
    limit; and a closed channel is empty. *)
Theorem channel_delivers_in_order (byte_limit : Z) (calls : list channel_call) :
  0 <= byte_limit <= size_max -> Forall sized_call calls ->
  let '(accepted, delivered, c) := channel_run calls (new_channel byte_limit) in
  Z.of_nat (length delivered) <= size_max ->
  (exists rest, accepted = (written_message <$> delivered) ++ rest /\
     (is_closing c = false -> queue c = rest)) /\
  connection_sequence <$> delivered = (fun i => 1 + Z.of_nat i) <$> seq 0 (length delivered) /\
  bytes c = total_bytes (queue c) /\ 0 <= bytes c <= byte_limit /\
  (is_closing c = true -> queue c = []).
Proof.
  intros Hl Hs. pose proof (channel_run_inv calls 1 [] [] _ (new_channel_inv byte_limit Hl) Hs) as Hi.
  assert (limit (channel_run calls (new_channel byte_limit)).2 = byte_limit) as Hlim.
  { clear. change byte_limit with (limit (new_channel byte_limit)) at 2.
    generalize (new_channel byte_limit). induction calls as [|call calls IH]; intros c; [done|].
    cbn [channel_run]. destruct (channel_step call c) as [[a d] c'] eqn:E.
    assert (limit c' = limit c) as Hc'.
    { destruct call; simpl in E; unfold enqueue, try_next, mark_written, close in E;
        repeat case_match; simplify_eq/=; done. }
    specialize (IH c'). destruct (channel_run calls c') as [[a' d'] c'']. simpl in *. congruence. }
  destruct (channel_run calls (new_channel byte_limit)) as [[accepted delivered] c].
  simpl in Hi, Hlim. intros Hn.
  destruct Hi as [_ (rest & Ho & Hr) Hcl [Hb Hbl] Hsz Hq _]. rewrite Hlim in *.
  split; [|split; [|split; [done|split]]].
  - exists rest. split; [done|]. intros Hc. symmetry. by apply Hr.
  - by rewrite Hq, u64_sequences.
  - rewrite Hb in *. pose proof (total_bytes_nonneg _ Hsz). lia.
  - intros Hc. by apply Hcl.
Qed.
End Operations.

(** Two producers, a writer and an overflow that closes the channel. *)
Definition example_calls : list (channel_call (P := Z)) :=
  [call_enqueue (Message 60 1); call_enqueue (Message 30 2); call_next; call_written 1;
   call_enqueue (Message 70 3); call_next; call_enqueue (Message 90 4); call_next].

Lemma channel_delivers_in_order_witness :
  let '(accepted, delivered, c) := channel_run example_calls (new_channel 100) in
  Z.of_nat (length delivered) <= size_max ->
  (exists rest, accepted = (written_message <$> delivered) ++ rest /\
     (is_closing c = false -> queue c = rest)) /\
  connection_sequence <$> delivered = (fun i => 1 + Z.of_nat i) <$> seq 0 (length delivered) /\
  bytes c = total_bytes (queue c) /\ 0 <= bytes c <= 100 /\
  (is_closing c = true -> queue c = []).
Proof.
  apply (channel_delivers_in_order 100 example_calls); [unfold size_max; lia|].
  by repeat constructor.
Defined.
End Outbound.

Module Requests.

Record request_queue (R : Type) := RequestQueue { queued : list R; accepting : bool }.
Arguments RequestQueue {R}.
Arguments queued {R}.
Arguments accepting {R}.

Section Operations.
Context {R : Type}.
Implicit Types (q : request_queue R).

Definition new_request_queue : request_queue R := RequestQueue [] true.

Definition push (r : R) q : bool * request_queue R :=
  if negb (accepting q) then (false, q) else (true, RequestQueue (queued q ++ [r]) (accepting q)).

Definition stop_accepting_and_discard q : request_queue R := RequestQueue [] false.

(** [None] while the consumer sleeps; [Some None] when it learns of the stop. *)
Definition wait_pop q : option (option R * request_queue R) :=
  match queued q with
  | r :: rest => Some (Some r, RequestQueue rest (accepting q))
  | [] => if accepting q then None else Some (None, q)
  end.

(** The same with a deadline, which may have passed. *)
Definition wait_pop_until (passed : bool) q : option (option R * request_queue R) :=
  match queued q with
  | r :: rest => Some (Some r, RequestQueue rest (accepting q))
  | [] => if accepting q && negb passed then None else Some (None, q)
  end.

Inductive queue_call :=
| call_push (r : R)
| call_stop
| call_pop
| call_pop_until (passed : bool).

(** The requests a call accepted and those it delivered. *)
Definition queue_step (call : queue_call) q : list R * list R * request_queue R :=
  let popped r :=
    match r with
    | Some (Some r, q) => ([], [r], q)
    | Some (None, q) => ([], [], q)
    | None => ([], [], q)
    end in
  match call with
  | call_push r => let (ok, q) := push r q in (if ok then [r] else [], [], q)
  | call_stop => ([], [], stop_accepting_and_discard q)
  | call_pop => popped (wait_pop q)
  | call_pop_until passed => popped (wait_pop_until passed q)
  end.

Fixpoint queue_run (calls : list queue_call) q : list R * list R * request_queue R :=
  match calls with
  | [] => ([], [], q)
  | call :: calls =>
      let '(accepted, delivered, q) := queue_step call q in
      let '(accepted', delivered', q) := queue_run calls q in
      (accepted ++ accepted', delivered ++ delivered', q)
  end.

Definition queue_inv (accepted delivered : list R) q : Prop :=
  exists rest, accepted = delivered ++ rest /\
    (accepting q = true -> queued q = rest) /\ (accepting q = false -> queued q = []).

Lemma queue_step_inv accepted delivered q call :
  queue_inv accepted delivered q ->
  let '(more, popped, q') := queue_step call q in
  queue_inv (accepted ++ more) (delivered ++ popped) q' /\
  (accepting q = false -> accepting q' = false /\ more = [] /\ popped = []).
Proof.
  intros (rest & -> & Ho & Hc).
  assert (forall r : option (option R * request_queue R),
    r = match queued q with x :: xs => Some (Some x, RequestQueue xs (accepting q)) | [] => r end ->
    (queued q = [] -> r = None \/ r = Some (None, q)) ->
    let '(more, popped, q') := match r with
      | Some (Some r, q) => ([], [r], q) | Some (None, q) => ([], [], q) | None => ([], [], q) end in
    queue_inv ((delivered ++ rest) ++ more) (delivered ++ popped) q' /\
    (accepting q = false -> accepting q' = false /\ more = [] /\ popped = [])) as Hpop.
  { intros r Hr Hn. destruct (queued q) as [|x xs] eqn:Eq.
    - destruct (Hn eq_refl) as [-> | ->]; rewrite !app_nil_r; (split; [|done]);
        exists rest; by rewrite Eq.
    - rewrite Hr. destruct (accepting q) eqn:Ea; [|by specialize (Hc eq_refl)].
      split; [|done]. exists xs. rewrite app_nil_r, <- app_assoc. simpl.
      by rewrite <- Ho. }
  destruct call as [r| | |passed]; cbn [queue_step].
  - unfold push. destruct (accepting q) eqn:Ea; simpl.
    + split; [|done]. exists (rest ++ [r]). rewrite !app_nil_r, app_assoc. split; [done|].
      split; [|done]. intros _. by rewrite Ho.
    + rewrite !app_nil_r. split; [|done]. exists rest. by rewrite Ea.
  - rewrite !app_nil_r. split; [|done]. by exists rest.
  - apply (Hpop (wait_pop q)); unfold wait_pop; destruct (queued q), (accepting q); first [done | auto].
  - apply (Hpop (wait_pop_until passed q)); unfold wait_pop_until;
      destruct (queued q), (accepting q), passed; first [done | auto].
Qed.

Lemma queue_run_inv calls accepted delivered q :
  queue_inv accepted delivered q ->
  let '(more, popped, q') := queue_run calls q in
  queue_inv (accepted ++ more) (delivered ++ popped) q' /\
  (accepting q = false -> accepting q' = false /\ more = [] /\ popped = []).
Proof.
  revert accepted delivered q. induction calls as [|call calls IH]; intros accepted delivered q Hi.
  { simpl. by rewrite !app_nil_r. }
  cbn [queue_run]. pose proof (queue_step_inv _ _ _ call Hi) as Hs.
  destruct (queue_step call q) as [[more popped] q']. destruct Hs as [Hi' Hstop].
  specialize (IH _ _ _ Hi'). destruct (queue_run calls q') as [[more' popped'] q''].
  destruct IH as [Hi'' Hstop']. rewrite !app_assoc. split; [done|].
  intros Ha. destruct (Hstop Ha) as (Ha' & -> & ->). by apply Hstop'.
Qed.

(** In every interleaving of producers, consumers and a stop, the requests
    delivered are the accepted ones in the order of acceptance; before a stop
    everything else that was accepted is still queued; and once the acceptance was
    stopped, no request is accepted or delivered any more and no consumer sleeps. *)
Theorem queue_delivers_in_order (before after : list queue_call) :
  (let '(accepted, delivered, q) := queue_run before new_request_queue in
   exists rest, accepted = delivered ++ rest /\ (accepting q = true -> queued q = rest)) /\
  let stopped := (queue_run (before ++ [call_stop]) new_request_queue).2 in
  let '(accepted, delivered, q) := queue_run after stopped in
  accepted = [] /\ delivered = [] /\ wait_pop q = Some (None, q) /\
  forall passed, wait_pop_until passed q = Some (None, q).
Proof.
  assert (queue_inv [] [] new_request_queue) as Hn by by exists [].
  split.
  - pose proof (queue_run_inv before _ _ _ Hn) as Hi.
    destruct (queue_run before new_request_queue) as [[accepted delivered] q].
    destruct Hi as [(rest & Ha & Ho & _) _]. by exists rest.
  - assert (forall calls q, (queue_run (calls ++ [call_stop]) q).2 = RequestQueue [] false) as Hstop.
    { induction calls as [|call calls IH]; intros q; [done|]. cbn [app queue_run].
      destruct (queue_step call q) as [[a d] q']. specialize (IH q').
      by destruct (queue_run (calls ++ [call_stop]) q') as [[a' d'] q'']. }
    cbv zeta. rewrite Hstop.
    assert (queue_inv [] [] (RequestQueue [] false)) as Hi by by exists [].
    pose proof (queue_run_inv after _ _ _ Hi) as Hr.
    destruct (queue_run after (RequestQueue [] false)) as [[accepted delivered] q].
    destruct Hr as [(rest & _ & _ & Hq) Hs]. destruct (Hs eq_refl) as (Ha & -> & ->).
    specialize (Hq Ha). unfold wait_pop, wait_pop_until. rewrite Hq, Ha. done.
Qed.
End Operations.
End Requests.
