(* ===== verification/Connection.v ===== *)
(** One client connection (communication/connection/communication_connection.hpp and
    .cpp) with its session (communication/session/client_session.hpp and .cpp) and
    the messages it carries (communication/server_response.hpp and
    communication/protocol/protocol_contract.hpp).  Each method is one step; the
    wake-up of the transport is left out.  A [subscription_registration] is the identity of the
    publisher registration it unregisters when it is destroyed, if it has one, and
    an operation lists the registrations it destroyed. *)

From S2P Require Import Prelude ServerStatus DiagnosticCatalog Diagnostics OutboundChannel RuntimeValue.

Local Open Scope Z_scope.

Import Outbound.

(** ** Sessions *)

Inductive client_session_state := connected | logged_in_state.

#[export] Instance client_session_state_eq_dec : EqDecision client_session_state.
Proof. solve_decision. Defined.

Inductive client_session_login_result :=
| login_success | already_logged_in | login_invalid_request.

#[export] Instance login_result_eq_dec : EqDecision client_session_login_result.
Proof. solve_decision. Defined.

Definition max_name_size : Z := 128.

Record client_session := ClientSession {
  session_id : Z;
  session_state : client_session_state;
  client_name : list byte
}.

Definition new_client_session (id : Z) : client_session := ClientSession id connected [].

Definition session_logged_in (s : client_session) : bool :=
  bool_decide (session_state s = logged_in_state).

Definition login (name : list byte) (s : client_session)
  : client_session_login_result * client_session :=
  if session_logged_in s then (already_logged_in, s)
  else if (session_id s =? 0) || bool_decide (name = []) ||
          (max_name_size <? Z.of_nat (length name))
  then (login_invalid_request, s)
  else (login_success, ClientSession (session_id s) logged_in_state name).

(** The name of the identity; its origin is [tcp]. *)
Definition session_request_identity (s : client_session) : option (list byte) :=
  if session_logged_in s then Some (client_name s) else None.

(** ** Messages *)

Inductive project_state := unloaded | loaded | run_state | freeze_state.

#[export] Instance project_state_eq_dec : EqDecision project_state.
Proof. solve_decision. Defined.

Inductive response_payload_kind := payload_none | payload_state | payload_runtime_value.

Record server_response := ServerResponse {
  response_operation : Z;
  response_status : server_status;
  response_payload : response_payload_kind;
  response_state : project_state;
  response_value : runtime_value;
  response_diagnostics : diagnostic_collection
}.

Record client_action := ClientAction {
  action_from : list byte;
  action_arg : list byte;
  action_parameters : list byte
}.

Inductive outbound_payload :=
| protocol_response (request : Z) (result : server_response) (release_request_id : bool)
| server_state_action (old_state new_state : project_state)
| client_action_message (action : client_action)
| subscription_data (subscription sequence : Z) (data : list byte).

Definition size (l : list byte) : Z := Z.of_nat (length l).

Definition diagnostic_bytes (diagnostics : diagnostic_collection) : Z :=
  foldl (fun result record =>
    u64 (result + size (record_detail record) + size (record_message record) + 64))
    0 (records diagnostics).

Definition estimate_response_bytes (result : server_response) : Z :=
  u64 (96 + diagnostic_bytes (response_diagnostics result)).

(** ** Connections *)

(** A registration with its context, or a moved-from one. *)
Definition registration : Type := option Z.

Record connection := Connection {
  session : client_session;
  login_committed : bool;
  close_started : bool;
  outbound : channel outbound_payload;
  awaited_written_request : Z;
  awaited_written : bool;
  outstanding_requests : gset Z;
  subscriptions : list (Z * registration)
}.

Definition create (id byte_limit : Z) : connection :=
  Connection (new_client_session id) false false (new_channel byte_limit) 0 false ∅ [].

Definition set_outbound (c : channel outbound_payload) (x : connection) : connection :=
  Connection (session x) (login_committed x) (close_started x) c (awaited_written_request x)
    (awaited_written x) (outstanding_requests x) (subscriptions x).
Definition set_requests (r : gset Z) (x : connection) : connection :=
  Connection (session x) (login_committed x) (close_started x) (outbound x)
    (awaited_written_request x) (awaited_written x) r (subscriptions x).
Definition set_awaited (request : Z) (done : bool) (x : connection) : connection :=
  Connection (session x) (login_committed x) (close_started x) (outbound x)
    request done (outstanding_requests x) (subscriptions x).
Definition set_subscriptions (s : list (Z * registration)) (x : connection) : connection :=
  Connection (session x) (login_committed x) (close_started x) (outbound x)
    (awaited_written_request x) (awaited_written x) (outstanding_requests x) s.

Definition closing (x : connection) : bool := close_started x.

Definition make_request_identity (x : connection) : option (list byte) :=
  if negb (login_committed x) then None else session_request_identity (session x).

Definition commit_login (name : list byte) (x : connection)
  : client_session_login_result * connection :=
  if closing x then (login_invalid_request, x)
  else
    let (result, s) := login name (session x) in
    (result,
     Connection s (login_committed x || bool_decide (result = login_success)) (close_started x)
       (outbound x) (awaited_written_request x) (awaited_written x) (outstanding_requests x)
       (subscriptions x)).

Definition reserve_request (request : Z) (x : connection) : bool * connection :=
  if (request =? 0) || closing x then (false, x)
  else if bool_decide (request ∈ outstanding_requests x) then (false, x)
  else (true, set_requests ({[request]} ∪ outstanding_requests x) x).

Definition release_request (request : Z) (x : connection) : connection :=
  if request =? 0 then x else set_requests (outstanding_requests x ∖ {[request]}) x.

Definition request_outstanding (request : Z) (x : connection) : bool :=
  negb (request =? 0) && bool_decide (request ∈ outstanding_requests x).

Definition begin_close (x : connection) : bool * connection :=
  (negb (close_started x),
   Connection (session x) (login_committed x) true (close (outbound x)).2
     (awaited_written_request x) (awaited_written x) (outstanding_requests x) (subscriptions x)).

(** Enqueues and closes the connection when the channel refuses. *)
Definition enqueue_message (bytes : Z) (payload : outbound_payload) (x : connection)
  : bool * connection :=
  let (ok, c) := enqueue (Message (u64 bytes) payload) (outbound x) in
  let x := set_outbound c x in
  if negb ok then (false, (begin_close x).2) else (true, x).

Definition enqueue_response (request : Z) (result : server_response) (release : bool)
    (x : connection) : bool * connection :=
  enqueue_message (estimate_response_bytes result) (protocol_response request result release) x.

Definition enqueue_server_state (old_state new_state : project_state) (x : connection)
  : bool * connection :=
  if negb (login_committed x) then (false, x)
  else enqueue_message 64 (server_state_action old_state new_state) x.

Definition enqueue_client_action (action : client_action) (x : connection) : bool * connection :=
  if negb (login_committed x) then (false, x)
  else
    enqueue_message
      (64 + size (action_from action) + size (action_arg action) + size (action_parameters action))
      (client_action_message action) x.

Definition enqueue_subscription_data (subscription sequence : Z) (data : list byte)
    (x : connection) : bool * connection :=
  if negb (login_committed x) then (false, x)
  else enqueue_message (64 + size data) (subscription_data subscription sequence data) x.

(** The release of the request that a dequeued response answers. *)
Definition released_by (w : outbound_write outbound_payload) (x : connection) : connection :=
  match payload (written_message w) with
  | protocol_response request _ true => release_request request x
  | _ => x
  end.

Definition connection_try_next (x : connection)
  : option (outbound_write outbound_payload) * connection :=
  match try_next (outbound x) with
  | (None, c) => (None, set_outbound c x)
  | (Some w, c) => (Some w, released_by w (set_outbound c x))
  end.

Definition connection_wait_next (x : connection)
  : option (option (outbound_write outbound_payload) * connection) :=
  match wait_next (outbound x) with
  | None => None
  | Some (None, c) => Some (None, set_outbound c x)
  | Some (Some w, c) => Some (Some w, released_by w (set_outbound c x))
  end.

Definition connection_mark_written (w : outbound_write outbound_payload) (x : connection)
  : connection :=
  let x := set_outbound (mark_written (connection_sequence w) (outbound x)) x in
  match payload (written_message w) with
  | protocol_response request _ _ =>
      if awaited_written_request x =? request
      then set_awaited (awaited_written_request x) true x else x
  | _ => x
  end.

Definition arm_response_write_wait (request : Z) (x : connection) : connection :=
  set_awaited request false x.

(** The end of the wait; [None] while it lasts and has not timed out. *)
Definition wait_response_written (request : Z) (timed_out : bool) (x : connection)
  : option (bool * connection) :=
  let completed := (awaited_written_request x =? request) && awaited_written x in
  if completed || closing x || timed_out
  then Some (completed,
         if awaited_written_request x =? request then set_awaited 0 false x else x)
  else None.

(** The registrations that unregister when they are destroyed. *)
Definition unregistered (r : registration) : list Z :=
  match r with Some context => [context] | None => [] end.

Definition has_subscription (id : Z) (x : connection) : bool :=
  existsb (fun s => s.1 =? id) (subscriptions x).

(** Refused registrations are destroyed with the argument. *)
Definition add_subscription (id : Z) (r : registration) (x : connection)
  : bool * list Z * connection :=
  if (id =? 0) || closing x || has_subscription id x
  then (false, unregistered r, x)
  else (true, [], set_subscriptions (subscriptions x ++ [(id, r)]) x).

Fixpoint erase_subscription (id : Z) (l : list (Z * registration))
  : option (registration * list (Z * registration)) :=
  match l with
  | [] => None
  | s :: l =>
      if s.1 =? id then Some (s.2, l)
      else
        match erase_subscription id l with
        | Some (r, l) => Some (r, s :: l)
        | None => None
        end
  end.

Definition remove_subscription (id : Z) (x : connection) : bool * list Z * connection :=
  match erase_subscription id (subscriptions x) with
  | None => (false, [], x)
  | Some (r, l) => (true, unregistered r, set_subscriptions l x)
  end.

(** The registrations of a list of entries. *)
Definition held (l : list (Z * registration)) : list Z := l ≫= (fun s => unregistered s.2).

Definition teardown_subscriptions (x : connection) : list Z * connection :=
  (held (subscriptions x), set_subscriptions [] x).

(** ** Executions *)

Inductive connection_call :=
| call_login (name : list byte)
| call_reserve (request : Z)
| call_release (request : Z)
| call_response (request : Z) (result : server_response) (release : bool)
| call_state (old_state new_state : project_state)
| call_action (action : client_action)
| call_data (subscription sequence : Z) (data : list byte)
| call_next
| call_written (w : outbound_write outbound_payload)
| call_arm (request : Z)
| call_wait_response (request : Z) (timed_out : bool)
| call_begin_close
| call_add (id : Z) (r : registration)
| call_remove (id : Z)
| call_teardown.

(** What a call did: registrations handed over and destroyed, request ids reserved
    and freed, and whether it accepted or delivered anything. *)
Record effects := Effects {
  handed : list Z;
  destroyed : list Z;
  reserved : list Z;
  freed : list Z;
  progress : bool
}.

Definition no_effects : effects := Effects [] [] [] [] false.
Definition progressed (p : bool) : effects := Effects [] [] [] [] p.

(** The ids that left the set. *)
Definition freed_ids (x x' : connection) : list Z :=
  elements (outstanding_requests x ∖ outstanding_requests x').

Definition connection_step (call : connection_call) (x : connection) : effects * connection :=
  match call with
  | call_login name =>
      let (result, x) := commit_login name x in (progressed (bool_decide (result = login_success)), x)
  | call_reserve request =>
      let (ok, x) := reserve_request request x in
      (Effects [] [] (if ok then [request] else []) [] ok, x)
  | call_release request =>
      let x' := release_request request x in (Effects [] [] [] (freed_ids x x') false, x')
  | call_response request result release =>
      let (ok, x) := enqueue_response request result release x in (progressed ok, x)
  | call_state old_state new_state =>
      let (ok, x) := enqueue_server_state old_state new_state x in (progressed ok, x)
  | call_action action => let (ok, x) := enqueue_client_action action x in (progressed ok, x)
  | call_data subscription sequence data =>
      let (ok, x) := enqueue_subscription_data subscription sequence data x in (progressed ok, x)
  | call_next =>
      let (w, x') := connection_try_next x in
      (Effects [] [] [] (freed_ids x x') (bool_decide (is_Some w)), x')
  | call_written w => (no_effects, connection_mark_written w x)
  | call_arm request => (no_effects, arm_response_write_wait request x)
  | call_wait_response request timed_out =>
      (no_effects, match wait_response_written request timed_out x with
                   | Some (_, x) => x | None => x end)
  | call_begin_close => (no_effects, (begin_close x).2)
  | call_add id r =>
      let '(ok, gone, x) := add_subscription id r x in
      (Effects (unregistered r) gone [] [] ok, x)
  | call_remove id =>
      let '(_, gone, x) := remove_subscription id x in (Effects [] gone [] [] false, x)
  | call_teardown =>
      let (gone, x) := teardown_subscriptions x in (Effects [] gone [] [] false, x)
  end.

Definition both (a b : effects) : effects :=
  Effects (handed a ++ handed b) (destroyed a ++ destroyed b) (reserved a ++ reserved b)
    (freed a ++ freed b) (progress a || progress b).

Fixpoint connection_run (calls : list connection_call) (x : connection) : effects * connection :=
  match calls with
  | [] => (no_effects, x)
  | call :: calls =>
      let (e, x) := connection_step call x in
      let (e', x) := connection_run calls x in
      (both e e', x)
  end.

(** ** Sessions, channel and registry agree *)

Record connection_ok (x : connection) : Prop := ConnectionOk {
  ok_login : login_committed x = session_logged_in (session x);
  ok_name : session_logged_in (session x) = true ->
    client_name (session x) <> [] /\ size (client_name (session x)) <= max_name_size;
  ok_closing : close_started x = is_closing (outbound x);
  ok_subscriptions : NoDup (fst <$> subscriptions x);
  ok_requests : 0 ∉ outstanding_requests x
}.

Lemma create_ok id byte_limit : connection_ok (create id byte_limit).
Proof. split; try done. apply NoDup_nil_2. Qed.

(** The parts of a connection that only some operations change. *)
Definition same_requests (x x' : connection) : Prop :=
  outstanding_requests x' = outstanding_requests x.
Definition same_subscriptions (x x' : connection) : Prop := subscriptions x' = subscriptions x.

Lemma closing_closed {P} (c : channel P) : is_closing (close c).2 = true.
Proof. unfold close. by destruct (is_closing c) eqn:E. Qed.

Lemma enqueue_message_spec bytes p x :
  connection_ok x ->
  let (ok, x') := enqueue_message bytes p x in
  connection_ok x' /\ session x' = session x /\ login_committed x' = login_committed x /\
  same_requests x x' /\ same_subscriptions x x' /\
  (ok = true -> closing x' = false /\ closing x = false) /\
  (close_started x = true -> ok = false /\ close_started x' = true).
Proof.
  intros [Hl Hn Hc Hs Hr]. unfold enqueue_message, enqueue, closing.
  destruct (is_closing (outbound x)) eqn:Eo.
  - simpl. split; [split; try done; simpl; by rewrite closing_closed|]. done.
  - destruct (_ || _); simpl.
    + split; [done|]. rewrite Hc. done.
    + split; [by split|]. rewrite Hc. done.
Qed.

Lemma release_request_spec request x :
  connection_ok x -> connection_ok (release_request request x) /\
  session (release_request request x) = session x /\
  login_committed (release_request request x) = login_committed x /\
  close_started (release_request request x) = close_started x /\
  same_subscriptions x (release_request request x) /\
  outstanding_requests (release_request request x) ⊆ outstanding_requests x.
Proof.
  intros [Hl Hn Hc Hs Hr]. unfold release_request. destruct (request =? 0).
  { by repeat (split; [by split|]). }
  split; [split; try done; simpl; set_solver|]. do 4 (split; [done|]). simpl. set_solver.
Qed.

Lemma try_next_closing {P} (c : channel P) : is_closing (try_next c).2 = is_closing c.
Proof. unfold try_next. destruct (is_closing c) eqn:E; [done|]. by destruct (queue c). Qed.

Lemma connection_try_next_spec x :
  connection_ok x ->
  let (w, x') := connection_try_next x in
  connection_ok x' /\ session x' = session x /\ login_committed x' = login_committed x /\
  close_started x' = close_started x /\ same_subscriptions x x' /\
  outstanding_requests x' ⊆ outstanding_requests x /\
  (close_started x = true -> w = None).
Proof.
  intros Hok. unfold connection_try_next.
  pose proof (try_next_closing (outbound x)) as Hcl.
  destruct (try_next (outbound x)) as [[w|] c] eqn:En; simpl in Hcl.
  - assert (connection_ok (set_outbound c x)) as Hok'.
    { destruct Hok. split; try done. simpl. congruence. }
    assert (close_started x = true -> Some w = None) as Hw.
    { rewrite (ok_closing _ Hok). unfold try_next in En. by destruct (is_closing (outbound x)). }
    unfold released_by. destruct (payload (written_message w)) as [request result []| | |];
      try (by repeat (split; [done|])).
    destruct (release_request_spec request _ Hok') as (? & ? & ? & ? & ? & ?). done.
  - split; [|done]. destruct Hok. split; try done. simpl. congruence.
Qed.

Lemma erase_subscription_spec id l r l' :
  erase_subscription id l = Some (r, l') ->
  exists before after, l = before ++ (id, r) :: after /\ l' = before ++ after.
Proof.
  revert l'. induction l as [|s l IH]; intros l'; [done|]. cbn [erase_subscription].
  destruct (Z.eqb_spec s.1 id) as [<-|Hne].
  - intros [= <- <-]. exists [], l. by destruct s.
  - destruct (erase_subscription id l) as [[r' l1]|]; [|done]. intros [= -> <-].
    destruct (IH l1 eq_refl) as (before & after & -> & ->). by exists (s :: before), after.
Qed.

Lemma has_subscription_spec id x :
  has_subscription id x = false -> id ∉ fst <$> subscriptions x.
Proof.
  intros Hh Hin. apply list_elem_of_fmap in Hin as (s & -> & Hs).
  apply not_true_iff_false in Hh. destruct Hh. apply existsb_exists.
  exists s. split; [by apply list_elem_of_In|apply Z.eqb_refl].
Qed.

Lemma held_app l l' : held (l ++ l') = held l ++ held l'.
Proof. unfold held. by rewrite bind_app. Qed.

(** What a step keeps, releases and answers. *)
Record step_ok (x : connection) (e : effects) (x' : connection) : Prop := StepOk {
  step_keeps : connection_ok x';
  step_session : login_committed x = true -> session x' = session x;
  step_closing : close_started x = true -> close_started x' = true /\ progress e = false;
  step_registrations : held (subscriptions x) ++ handed e ≡ₚ destroyed e ++ held (subscriptions x');
  step_requests : elements (outstanding_requests x) ++ reserved e
    ≡ₚ freed e ++ elements (outstanding_requests x')
}.

Lemma freed_split (a b : gset Z) : b ⊆ a -> elements a ++ [] ≡ₚ elements (a ∖ b) ++ elements b.
Proof.
  intros Hs. rewrite app_nil_r, <- elements_disj_union by set_solver.
  apply elements_proper. rewrite difference_union. set_solver.
Qed.

(** A step that leaves subscriptions and requests alone. *)
Lemma step_ok_quiet x e x' :
  connection_ok x' -> (login_committed x = true -> session x' = session x) ->
  (close_started x = true -> close_started x' = true /\ progress e = false) ->
  same_subscriptions x x' -> same_requests x x' ->
  handed e = [] -> destroyed e = [] -> reserved e = [] -> freed e = [] ->
  step_ok x e x'.
Proof.
  intros Hok Hs Hc Hsub Hreq Hh Hd Hr Hf. split; try done.
  - by rewrite Hh, Hd, Hsub, app_nil_r.
  - by rewrite Hr, Hf, Hreq, app_nil_r.
Qed.

(** Enqueuing in whatever guard of the login. *)
Lemma enqueue_step bytes p guard x :
  connection_ok x ->
  let (ok, x') := if negb guard then (false, x) else enqueue_message bytes p x in
  step_ok x (progressed ok) x'.
Proof.
  intros Hok. destruct guard; simpl negb; cbn iota.
  2: { apply step_ok_quiet; try done; try congruence. }
  pose proof (enqueue_message_spec bytes p x Hok) as He.
  destruct (enqueue_message bytes p x) as [ok x'].
  destruct He as (Hok' & Hs & Hl & Hr & Hsub & _ & Hc).
  apply step_ok_quiet; try done; try congruence. intros Hx. destruct (Hc Hx) as [-> ?]. done.
Qed.

Lemma login_step name x :
  connection_ok x ->
  let (result, x') := commit_login name x in
  step_ok x (progressed (bool_decide (result = login_success))) x'.
Proof.
  intros Hok. unfold commit_login, closing. destruct (close_started x) eqn:Ec.
  { apply step_ok_quiet; try done; try congruence. }
  destruct (login name (session x)) as [result s] eqn:El.
  destruct Hok as [Hl Hn Hc Hs Hr]. unfold login in El.
  destruct (session_logged_in (session x)) eqn:Es.
  { injection El as <- <-. apply step_ok_quiet; try done; try congruence.
    split; simpl; [by rewrite Hl, Es|by rewrite Es|congruence|done|done]. }
  destruct (_ || _) eqn:Eg; injection El as <- <-.
  - apply step_ok_quiet; try done; try congruence.
    split; simpl; [by rewrite Hl, Es|by rewrite Es|congruence|done|done].
  - unbool. apply step_ok_quiet; try done; try congruence.
    split; simpl; [by rewrite orb_true_r| |congruence|done|done].
    intros _. unfold size. split; [done|lia].
Qed.

Lemma reserve_step request x :
  connection_ok x ->
  let (ok, x') := reserve_request request x in
  step_ok x (Effects [] [] (if ok then [request] else []) [] ok) x'.
Proof.
  intros Hok. unfold reserve_request, closing. destruct (_ || _) eqn:Eg.
  { apply step_ok_quiet; try done; try congruence. }
  unbool. case_bool_decide as Hin; [apply step_ok_quiet; try done; intros; congruence|].
  destruct Hok. split; simpl; try done.
  - split; try done. simpl. set_solver.
  - intros Hc. congruence.
  - by rewrite app_nil_r.
  - rewrite elements_union_singleton by done. by rewrite Permutation_app_comm.
Qed.

Lemma release_step request x :
  connection_ok x ->
  step_ok x (Effects [] [] [] (freed_ids x (release_request request x)) false)
    (release_request request x).
Proof.
  intros Hok. destruct (release_request_spec request x Hok) as (Hok' & Hs & Hl & Hc & Hsub & Hr).
  split; simpl; try done.
  - by rewrite Hc.
  - by rewrite Hsub, app_nil_r.
  - by apply freed_split.
Qed.

Lemma next_step x :
  connection_ok x ->
  let (w, x') := connection_try_next x in
  step_ok x (Effects [] [] [] (freed_ids x x') (bool_decide (is_Some w))) x'.
Proof.
  intros Hok. pose proof (connection_try_next_spec x Hok) as Hn.
  destruct (connection_try_next x) as [w x']. destruct Hn as (Hok' & Hs & Hl & Hc & Hsub & Hr & Hw).
  split; simpl; try done.
  - intros Hx. rewrite Hc. split; [done|]. by rewrite (Hw Hx).
  - by rewrite Hsub, app_nil_r.
  - by apply freed_split.
Qed.

Lemma add_step id r x :
  connection_ok x ->
  let '(ok, gone, x') := add_subscription id r x in
  step_ok x (Effects (unregistered r) gone [] [] ok) x'.
Proof.
  intros Hok. unfold add_subscription, closing. destruct (_ || _) eqn:Eg.
  { split; simpl; try done; [by rewrite Permutation_app_comm|by rewrite app_nil_r]. }
  unbool. apply has_subscription_spec in H0. destruct Hok. split; simpl; try done.
  - split; try done. simpl. rewrite fmap_app. apply NoDup_app. split; [done|].
    split; [|apply NoDup_singleton]. intros y Hy Hin. apply list_elem_of_singleton in Hin.
    by subst.
  - intros Hc. congruence.
  - rewrite held_app. unfold held at 3. simpl. by rewrite app_nil_r.
  - by rewrite app_nil_r.
Qed.

Lemma remove_step id x :
  connection_ok x ->
  let '(_, gone, x') := remove_subscription id x in step_ok x (Effects [] gone [] [] false) x'.
Proof.
  intros Hok. unfold remove_subscription.
  destruct (erase_subscription id (subscriptions x)) as [[r l]|] eqn:Ee.
  2: { apply step_ok_quiet; try done; try congruence. }
  apply erase_subscription_spec in Ee as (before & after & Hx & ->). destruct Hok.
  split; simpl; try done.
  - split; try done. simpl. rewrite Hx in *.
    rewrite fmap_app in *. simpl in *.
    apply NoDup_app in ok_subscriptions0 as (Hb & Hba & Ha).
    apply NoDup_cons in Ha as [_ Ha]. apply NoDup_app. split; [done|]. split; [|done].
    intros y Hy Hin. apply (Hba y Hy). by apply list_elem_of_further.
  - rewrite Hx, !held_app, app_nil_r. change (held ((id, r) :: after)) with (unregistered r ++ held after).
    by rewrite Permutation_app_swap_app.
  - by rewrite app_nil_r.
Qed.

Lemma connection_step_ok call x :
  connection_ok x -> let (e, x') := connection_step call x in step_ok x e x'.
Proof.
  intros Hok. destruct call as [name|request|request|request result release|old_state new_state
    |action|subscription sequence data| |w|request|request timed_out| |id r|id|]; cbn [connection_step].
  - pose proof (login_step name x Hok). by destruct (commit_login name x).
  - pose proof (reserve_step request x Hok). by destruct (reserve_request request x).
  - by apply release_step.
  - pose proof (enqueue_step (estimate_response_bytes result)
      (protocol_response request result release) true x Hok) as He. simpl negb in He.
    unfold enqueue_response. by destruct (enqueue_message _ _ x).
  - pose proof (enqueue_step 64 (server_state_action old_state new_state)
      (login_committed x) x Hok). unfold enqueue_server_state. destruct (negb (login_committed x)); [done|by destruct (enqueue_message _ _ x)].
  - pose proof (enqueue_step (64 + size (action_from action) + size (action_arg action) +
      size (action_parameters action)) (client_action_message action) (login_committed x) x Hok).
    unfold enqueue_client_action. destruct (negb (login_committed x)); [done|by destruct (enqueue_message _ _ x)].
  - pose proof (enqueue_step (64 + size data) (subscription_data subscription sequence data)
      (login_committed x) x Hok). unfold enqueue_subscription_data.
    destruct (negb (login_committed x)); [done|by destruct (enqueue_message _ _ x)].
  - pose proof (next_step x Hok). by destruct (connection_try_next x).
  - unfold connection_mark_written. apply step_ok_quiet; try done; try congruence.
    + destruct Hok. assert (forall s, is_closing (mark_written s (outbound x)) = is_closing (outbound x))
        as Hm by (intros s; unfold mark_written; by case_match).
      destruct (payload (written_message w)); try case_match; split; simpl; rewrite ?Hm; done.
    + intros _. destruct (payload (written_message w)); try case_match; done.
    + intros Hc. destruct (payload (written_message w)); try case_match; done.
    + destruct (payload (written_message w)); try case_match; done.
    + destruct (payload (written_message w)); try case_match; done.
  - apply step_ok_quiet; try done; try congruence. by destruct Hok.
  - unfold wait_response_written. destruct (_ || _); [|by apply step_ok_quiet].
    destruct (_ =? _); apply step_ok_quiet; try done; try congruence. by destruct Hok.
  - apply step_ok_quiet; try done; try congruence. destruct Hok. split; try done. simpl. by rewrite closing_closed.
  - pose proof (add_step id r x Hok). by destruct (add_subscription id r x) as [[ok gone] x'].
  - pose proof (remove_step id x Hok). by destruct (remove_subscription id x) as [[ok gone] x'].
  - destruct Hok. split; simpl; try done.
    + split; try done. apply NoDup_nil_2.
    + by rewrite !app_nil_r.
Qed.

Lemma both_step x e x' e' x'' : step_ok x e x' -> step_ok x' e' x'' ->
  login_committed x = true -> login_committed x' = true -> session x'' = session x.
Proof. intros H1 H2 Hl Hl'. rewrite (step_session _ _ _ H2 Hl'). by apply (step_session _ _ _ H1). Qed.

Lemma login_kept x e x' :
  connection_ok x -> step_ok x e x' -> login_committed x = true -> login_committed x' = true.
Proof.
  intros Hx H1 Hl. rewrite (ok_login _ (step_keeps _ _ _ H1)), (step_session _ _ _ H1 Hl).
  by rewrite <- (ok_login _ Hx).
Qed.

Lemma connection_run_ok calls x :
  connection_ok x -> let (e, x') := connection_run calls x in step_ok x e x'.
Proof.
  revert x. induction calls as [|call calls IH]; intros x Hok.
  { cbn [connection_run]. apply step_ok_quiet; try done. }
  cbn [connection_run]. pose proof (connection_step_ok call x Hok) as H1.
  destruct (connection_step call x) as [e x']. specialize (IH x' (step_keeps _ _ _ H1)).
  destruct (connection_run calls x') as [e' x'']. split; simpl.
  - apply IH.
  - intros Hl. apply (both_step x e x' e' x''); [done|done|done|by eapply login_kept].
  - intros Hc. destruct (step_closing _ _ _ H1 Hc) as [Hc' ->].
    destruct (step_closing _ _ _ IH Hc') as [Hc'' ->]. done.
  - rewrite app_assoc, (step_registrations _ _ _ H1), <- !app_assoc.
    by rewrite (step_registrations _ _ _ IH).
  - rewrite app_assoc, (step_requests _ _ _ H1), <- !app_assoc.
    by rewrite (step_requests _ _ _ IH).
Qed.


(** A login is final: once one succeeded in a sequence of calls on a new
    connection, no call changes the session, whose name is not empty and at most
    128 bytes long, and requests carry this name. *)
Theorem login_is_final (id byte_limit : Z) (before after : list connection_call) :
  let x := (connection_run before (create id byte_limit)).2 in
  let y := (connection_run after x).2 in
  make_request_identity x = (if login_committed x then Some (client_name (session x)) else None) /\
  (login_committed x = true ->
     login_committed y = true /\ session y = session x /\
     make_request_identity y = Some (client_name (session x)) /\
     client_name (session x) <> [] /\ size (client_name (session x)) <= max_name_size).
Proof.
  intros x y. subst x y.
  pose proof (connection_run_ok before _ (create_ok id byte_limit)) as H1.
  destruct (connection_run before (create id byte_limit)) as [e x]. simpl.
  pose proof (step_keeps _ _ _ H1) as Hx. pose proof (connection_run_ok after x Hx) as H2.
  destruct (connection_run after x) as [e' y]. simpl.
  pose proof (step_keeps _ _ _ H2) as Hy. pose proof (ok_login _ Hx) as Hlx.
  unfold make_request_identity, session_request_identity. split.
  { rewrite Hlx. by destruct (session_logged_in (session x)). }
  intros Hl. pose proof (login_kept x e' y Hx H2 Hl) as Hly.
  pose proof (step_session _ _ _ H2 Hl) as Hs. rewrite Hlx in Hl.
  split; [done|]. split; [done|]. rewrite Hly, Hs, Hl. split; [done|]. by apply (ok_name _ Hx).
Qed.

Lemma begin_close_step x : connection_ok x -> step_ok x no_effects (begin_close x).2.
Proof. apply (connection_step_ok call_begin_close). Qed.

(** Closing is final: after [begin_close] in any reachable state and any further
    calls, nothing is accepted or delivered any more: logins, requests,
    subscriptions and every kind of message are refused, the writer is told to
    stop, and no waiter for a written response sleeps. *)
Theorem closing_is_final (id byte_limit : Z) (before after : list connection_call) :
  let closed := (begin_close (connection_run before (create id byte_limit)).2).2 in
  let (e, x) := connection_run after closed in
  progress e = false /\ reserved e = [] /\
  (forall name, (commit_login name x).1 = login_invalid_request) /\
  (forall request, (reserve_request request x).1 = false) /\
  (forall bytes p, (enqueue_message bytes p x).1 = false) /\
  (exists c, wait_next (outbound x) = Some (None, c)) /\
  (forall i r, (add_subscription i r x).1.1 = false) /\
  (forall request timed_out, wait_response_written request timed_out x <> None).
Proof.
  intros closed. subst closed.
  pose proof (connection_run_ok before _ (create_ok id byte_limit)) as H1.
  destruct (connection_run before (create id byte_limit)) as [e0 x0]. cbn [snd].
  pose proof (begin_close_step x0 (step_keeps _ _ _ H1)) as H2.
  set (x1 := (begin_close x0).2) in *. assert (close_started x1 = true) as Hc1 by done.
  pose proof (connection_run_ok after x1 (step_keeps _ _ _ H2)) as H3.
  assert (reserved (connection_run after x1).1 = []) as Hres.
  { clear -Hc1 H2. pose proof (step_keeps _ _ _ H2) as Hok. clear H2. revert Hok Hc1. generalize x1.
    clear. induction after as [|call calls IH]; intros x Hok Hc; [done|]. cbn [connection_run].
    pose proof (connection_step_ok call x Hok) as Hs.
    assert (reserved (connection_step call x).1 = []) as Hr.
    { destruct call; cbn [connection_step]; try (by repeat case_match).
      unfold reserve_request, closing. rewrite Hc, orb_true_r. done. }
    destruct (connection_step call x) as [e x']. simpl in Hr.
    specialize (IH x' (step_keeps _ _ _ Hs) (proj1 (step_closing _ _ _ Hs Hc))).
    destruct (connection_run calls x') as [e' x'']. simpl in *. by rewrite Hr, IH. }
  destruct (connection_run after x1) as [e x]. simpl in Hres.
  destruct (step_closing _ _ _ H3 Hc1) as [Hc Hp]. pose proof (step_keeps _ _ _ H3) as Hx.
  pose proof (ok_closing _ Hx) as Ho. rewrite Hc in Ho.
  split; [done|]. split; [done|].
  unfold commit_login, reserve_request, add_subscription, wait_response_written, closing.
  rewrite Hc. split; [done|]. split; [by intros; rewrite orb_true_r|].
  split; [|split; [|split]].
  - intros bytes p. unfold enqueue_message, enqueue. by rewrite <- Ho.
  - exists (outbound x). unfold wait_next, try_next. by rewrite <- Ho.
  - intros i r. by rewrite orb_true_r.
  - intros request timed_out. by rewrite orb_true_r.
Qed.

(** ** Waiting for a written response *)

(** Calls other than those of the waiter itself. *)
Definition not_of_waiter (call : connection_call) : bool :=
  match call with call_arm _ | call_wait_response _ _ => false | _ => true end.

(** The writer reports that a response to the request was written. *)
Definition reports_write (request : Z) (call : connection_call) : bool :=
  match call with
  | call_written w =>
      match payload (written_message w) with
      | protocol_response answered _ _ => request =? answered
      | _ => false
      end
  | _ => false
  end.

Lemma enqueue_message_awaited bytes p x :
  let x' := (enqueue_message bytes p x).2 in
  awaited_written_request x' = awaited_written_request x /\ awaited_written x' = awaited_written x.
Proof. unfold enqueue_message. destruct (enqueue _ _) as [[] c]; done. Qed.

Lemma step_awaited call x :
  not_of_waiter call = true ->
  let x' := (connection_step call x).2 in
  awaited_written_request x' = awaited_written_request x /\
  awaited_written x' = awaited_written x || reports_write (awaited_written_request x) call.
Proof.
  intros Hq. pose proof enqueue_message_awaited as Hm.
  destruct call; try done; cbn [connection_step reports_write]; rewrite ?orb_false_r.
  - unfold commit_login. destruct (closing x); [done|]. by destruct (login name (session x)).
  - unfold reserve_request. destruct (_ || _); [done|]. by case_bool_decide.
  - cbn [snd]. unfold release_request. by destruct (request =? 0).
  - unfold enqueue_response. specialize (Hm (estimate_response_bytes result)
      (protocol_response request result release) x). by destruct (enqueue_message _ _ x).
  - unfold enqueue_server_state. destruct (login_committed x); [cbn [negb]|done].
    specialize (Hm 64 (server_state_action old_state new_state) x). by destruct (enqueue_message _ _ x).
  - unfold enqueue_client_action. destruct (login_committed x); [cbn [negb]|done].
    specialize (Hm (64 + size (action_from action) + size (action_arg action) +
      size (action_parameters action)) (client_action_message action) x). by destruct (enqueue_message _ _ x).
  - unfold enqueue_subscription_data. destruct (login_committed x); [cbn [negb]|done].
    specialize (Hm (64 + size data) (subscription_data subscription sequence data) x).
    by destruct (enqueue_message _ _ x).
  - unfold connection_try_next. destruct (try_next (outbound x)) as [[w|] c]; [|done]. simpl.
    unfold released_by, release_request. by repeat case_match.
  - unfold connection_mark_written. simpl. destruct (payload (written_message w)); try by rewrite orb_false_r.
    simpl. destruct (_ =? request); simpl; [by rewrite orb_true_r|by rewrite orb_false_r].
  - done.
  - unfold add_subscription. by destruct (_ || _).
  - unfold remove_subscription. by destruct (erase_subscription id (subscriptions x)) as [[? ?]|].
  - done.
Qed.

(** A wait for the response to a request, armed before any other calls, answers
    true exactly when the writer reported a written response to this request since;
    it lasts only while there was none, the connection is open and the time is not
    up, and its end disarms. *)
Theorem response_wait_reports_write (x : connection) (request : Z) (calls : list connection_call)
    (timed_out : bool) :
  forallb not_of_waiter calls = true ->
  let y := (connection_run calls (arm_response_write_wait request x)).2 in
  let reported := existsb (reports_write request) calls in
  wait_response_written request timed_out y =
    if reported || closing y || timed_out then Some (reported, set_awaited 0 false y) else None.
Proof.
  intros Hq.
  assert (forall z, awaited_written_request z = request ->
    let y := (connection_run calls z).2 in awaited_written_request y = request /\
    awaited_written y = awaited_written z || existsb (reports_write request) calls) as Hrun.
  { clear x. revert Hq. induction calls as [|call calls IH]; intros Hq z Hz; [by rewrite orb_false_r|].
    simpl in Hq. apply andb_true_iff in Hq as [H1 H2].
    destruct (step_awaited call z H1) as [Ha Hw]. cbn [connection_run existsb].
    destruct (connection_step call z) as [e z']. simpl in Ha, Hw. rewrite Hz in *.
    destruct (IH H2 z' Ha) as [Hy Hyw]. destruct (connection_run calls z') as [e' y].
    cbn [snd] in *. split; [done|]. by rewrite Hyw, Hw, orb_assoc. }
  destruct (Hrun (arm_response_write_wait request x) eq_refl) as [Hy Hw].
  cbv zeta. unfold wait_response_written. rewrite Hy, Hw, Z.eqb_refl. done.
Qed.

Lemma response_wait_reports_write_witness :
  let calls := [call_login (str "ann"); call_next; call_begin_close] in
  let y := (connection_run calls (arm_response_write_wait 5 (create 1 1000))).2 in
  let reported := existsb (reports_write 5) calls in
  wait_response_written 5 false y =
    if reported || closing y || false then Some (reported, set_awaited 0 false y) else None.
Proof.
  apply (response_wait_reports_write (create 1 1000) 5
    [call_login (str "ann"); call_next; call_begin_close] false). reflexivity.
Defined.
