(* ===== verification/Communication.v ===== *)
(** The registry of logged-in connections (communication/communication.hpp and .cpp:
    [register_connection], [unregister_connection], [publish_server_state],
    [route_client] and what [stop] does to connections).  The registry holds raw
    pointers, so connections live in a store and every operation follows the
    addresses; a dangling address is no result. *)

From S2P Require Import Prelude ServerStatus OutboundChannel Connection.

Local Open Scope Z_scope.

Record registry := Registry {
  objects : gmap Z connection;
  registered : list Z
}.

Record client_message := ClientMessage {
  message_login : list byte;
  message_arg : list byte;
  message_parameters : list byte
}.

Definition set_object (p : Z) (x : connection) (g : registry) : registry :=
  Registry (<[p := x]> (objects g)) (registered g).

(** The first registered address whose connection satisfies the test. *)
Fixpoint find_connection (test : Z -> connection -> bool) (store : gmap Z connection)
    (l : list Z) : option (option Z) :=
  match l with
  | [] => Some None
  | p :: l =>
      match store !! p with
      | None => None
      | Some x => if test p x then Some (Some p) else find_connection test store l
      end
  end.

Definition connection_id (x : connection) : Z := session_id (session x).

Definition register_connection (p : Z) (g : registry) : option (bool * registry) :=
  match objects g !! p with
  | None => None
  | Some x =>
      match find_connection (fun q y => (q =? p) || (connection_id y =? connection_id x))
              (objects g) (registered g) with
      | None => None
      | Some (Some _) => Some (false, g)
      | Some None => Some (true, Registry (objects g) (registered g ++ [p]))
      end
  end.

Fixpoint erase_first (p : Z) (l : list Z) : list Z :=
  match l with
  | [] => []
  | q :: l => if q =? p then l else q :: erase_first p l
  end.

(** With the registrations that the teardown destroyed. *)
Definition unregister_connection (id : Z) (g : registry) : option (list Z * registry) :=
  match find_connection (fun _ y => connection_id y =? id) (objects g) (registered g) with
  | None => None
  | Some None => Some ([], g)
  | Some (Some p) =>
      match objects g !! p with
      | None => None
      | Some x =>
          let (gone, x) := teardown_subscriptions x in
          Some (gone, Registry (<[p := x]> (objects g)) (erase_first p (registered g)))
      end
  end.

(** A loop over the registered connections: the number of visits that answer true. *)
Fixpoint visit (f : connection -> bool * connection) (l : list Z) (store : gmap Z connection)
  : option (nat * gmap Z connection) :=
  match l with
  | [] => Some (O, store)
  | p :: l =>
      match store !! p with
      | None => None
      | Some x =>
          let (ok, x) := f x in
          match visit f l (<[p := x]> store) with
          | None => None
          | Some (n, store) => Some ((if ok then S n else n), store)
          end
      end
  end.

Definition publish_server_state (old_state new_state : project_state) (g : registry)
  : option registry :=
  if bool_decide (old_state = new_state) then Some g
  else
    match visit (fun x =>
            if login_committed x then enqueue_server_state old_state new_state x else (false, x))
            (registered g) (objects g) with
    | None => None
    | Some (_, store) => Some (Registry store (registered g))
    end.

(** A logged-in, open connection that the message names. *)
Definition addressed (message : client_message) (x : connection) : bool :=
  negb (negb (login_committed x) || closing x) &&
  negb (negb (bool_decide (message_login message = [])) &&
        negb (bool_decide (client_name (session x) = message_login message))).

Definition action_of (from : list byte) (message : client_message) : client_action :=
  ClientAction from (message_arg message) (message_parameters message).

Definition route_client (sender : Z) (message : client_message) (g : registry)
  : option (nat * registry) :=
  match objects g !! sender with
  | None => None
  | Some s =>
      if negb (login_committed s) || closing s then Some (O, g)
      else
        match visit (fun x =>
                if addressed message x
                then enqueue_client_action (action_of (client_name (session s)) message) x
                else (false, x)) (registered g) (objects g) with
        | None => None
        | Some (n, store) => Some (n, Registry store (registered g))
        end
  end.

(** The part of [stop] that concerns the connections. *)
Definition stop_connections (g : registry) : option (list Z * registry) :=
  match visit (fun x => (true, (teardown_subscriptions (begin_close x).2).2))
          (registered g) (objects g) with
  | None => None
  | Some (_, store) =>
      Some (registered g ≫= (fun p => match objects g !! p with
                                      | Some x => held (subscriptions x)
                                      | None => [] end),
            Registry store [])
  end.

(** ** The registry *)

Record registry_ok (g : registry) : Prop := RegistryOk {
  ok_addresses : Forall (fun p => is_Some (objects g !! p)) (registered g);
  ok_distinct : NoDup (registered g)
}.

Definition ids_distinct (g : registry) : Prop :=
  forall p q x y, p ∈ registered g -> q ∈ registered g -> objects g !! p = Some x ->
    objects g !! q = Some y -> connection_id x = connection_id y -> p = q.

(** The answer of one visit. *)
Definition answers (f : connection -> bool * connection) (store : gmap Z connection) (p : Z)
  : bool := match store !! p with Some x => (f x).1 | None => false end.

Lemma visit_spec f l store :
  NoDup l -> Forall (fun p => is_Some (store !! p)) l ->
  exists store',
    visit f l store = Some (length (filter (fun p => answers f store p = true) l), store') /\
    (forall p x, p ∈ l -> store !! p = Some x -> store' !! p = Some (f x).2) /\
    (forall p, p ∉ l -> store' !! p = store !! p).
Proof.
  intros Hnd. revert store. induction Hnd as [|p l Hp Hnd IH]; intros store Hall.
  { exists store. split; [done|]. split; [|done]. intros p x Hp. by apply elem_of_nil in Hp. }
  apply Forall_cons in Hall as [[x Hx] Hall]. cbn [visit]. rewrite Hx, filter_cons.
  destruct (f x) as [ok x'] eqn:Ef.
  assert (answers f store p = ok) as Hans by (unfold answers; by rewrite Hx, Ef).
  assert (forall q, q ∈ l -> (<[p := x']> store) !! q = store !! q) as Hsame.
  { intros q Hq. apply lookup_insert_ne. by intros ->. }
  destruct (IH (<[p := x']> store)) as (store' & Hv & Hin & Hout).
  { rewrite Forall_forall in Hall |- *. intros q Hq. rewrite Hsame by done. by apply Hall. }
  assert (filter (fun q => answers f (<[p := x']> store) q = true) l
    = filter (fun q => answers f store q = true) l) as Hfil.
  { clear -Hsame. assert (forall q, q ∈ l -> answers f (<[p := x']> store) q = answers f store q) as Ha
      by (intros q Hq; unfold answers; by rewrite Hsame). clear Hsame. induction l as [|q l IHl]; [done|].
    rewrite !filter_cons, (Ha q) by apply list_elem_of_here.
    rewrite IHl; [done|]. intros r Hr. by apply Ha, list_elem_of_further. }
  rewrite Hv, Hfil. exists store'. split; [|split].
  - case_decide as Hdec; rewrite Hans in Hdec; by destruct ok.
  - intros q y [->|Hq]%elem_of_cons Hy.
    + rewrite Hout, lookup_insert_eq by done. rewrite Hx in Hy. injection Hy as <-. by rewrite Ef.
    + apply Hin; [done|]. by rewrite Hsame.
  - intros q [Hne Hq]%not_elem_of_cons. rewrite Hout by done. by apply lookup_insert_ne.
Qed.

(** A client message is delivered to exactly the registered, logged-in, open
    connections that it names, the sender among them when named; an empty login
    names all.  Each gets the action with the sender's name once, or closes when its
    channel refuses it; every other connection is untouched; and the result is the
    number of connections that accepted the action. *)
Theorem route_client_delivers (g : registry) (sender : Z) (s : connection)
    (message : client_message) :
  registry_ok g -> objects g !! sender = Some s ->
  let recipient x := login_committed s && negb (closing s) && login_committed x &&
    negb (closing x) && (bool_decide (message_login message = []) ||
                         bool_decide (client_name (session x) = message_login message)) in
  let action := ClientAction (client_name (session s)) (message_arg message)
                  (message_parameters message) in
  let accepted p := exists x, objects g !! p = Some x /\ recipient x = true /\
    (enqueue_client_action action x).1 = true in
  exists n g', route_client sender message g = Some (n, g') /\ registered g' = registered g /\
    (forall p x, p ∈ registered g -> objects g !! p = Some x ->
       objects g' !! p = Some (if recipient x then (enqueue_client_action action x).2 else x)) /\
    (forall p, p ∉ registered g -> objects g' !! p = objects g !! p) /\
    exists who, n = length who /\ NoDup who /\ forall p, p ∈ who <-> p ∈ registered g /\ accepted p.
Proof.
  intros [Hall Hnd] Hs recipient action accepted. unfold route_client. rewrite Hs.
  destruct (negb (login_committed s) || closing s) eqn:Eg.
  { assert (forall x, recipient x = false) as Hnone.
    { intros x. subst recipient. simpl.
      destruct (login_committed s), (closing s); simpl in Eg |- *; done. }
    eexists _, _. split; [done|]. split; [done|]. split; [intros p x _ Hx; by rewrite Hnone|].
    split; [done|]. exists []. split; [done|]. split; [apply NoDup_nil_2|]. intros p. split.
    - intros Hp. by apply elem_of_nil in Hp.
    - intros (_ & x & _ & Hr & _). by rewrite Hnone in Hr. }
  assert (forall x, addressed message x = recipient x) as Hrec.
  { intros x. unfold addressed. subst recipient. simpl. unbool. rewrite H, H0. simpl.
    by destruct (login_committed x), (closing x), (bool_decide (message_login message = [])),
      (bool_decide (client_name (session x) = message_login message)). }
  set (f := fun x => if addressed message x
    then enqueue_client_action (action_of (client_name (session s)) message) x else (false, x)).
  destruct (visit_spec f (registered g) (objects g) Hnd Hall) as (store & Hv & Hin & Hout).
  fold f. rewrite Hv. eexists _, _. split; [done|]. split; [done|]. split; [|split; [done|]].
  - intros p x Hp Hx. cbn [objects]. rewrite (Hin p x Hp Hx). unfold f. rewrite Hrec.
    by destruct (recipient x).
  - eexists. split; [done|]. split; [by apply NoDup_filter|]. intros p.
    rewrite list_elem_of_filter. unfold answers, accepted, f. split.
    + intros [Ha Hp]. split; [done|]. destruct (objects g !! p) as [x|]; [|done].
      exists x. split; [done|]. rewrite Hrec in Ha. by destruct (recipient x).
    + intros [Hp (x & Hx & Hr & Ha)]. split; [|done]. rewrite Hx, Hrec, Hr. done.
Qed.

(** A change of the project state is enqueued once to every registered,
    logged-in connection and to no other; the same state is not published. *)
Theorem server_state_published (g : registry) (old_state new_state : project_state) :
  registry_ok g ->
  exists g', publish_server_state old_state new_state g = Some g' /\
    registered g' = registered g /\
    (forall p x, p ∈ registered g -> objects g !! p = Some x ->
       objects g' !! p = Some (if bool_decide (old_state <> new_state) && login_committed x
                               then (enqueue_server_state old_state new_state x).2 else x)) /\
    (forall p, p ∉ registered g -> objects g' !! p = objects g !! p).
Proof.
  intros [Hall Hnd]. unfold publish_server_state. case_bool_decide as He.
  { eexists. split; [done|]. rewrite bool_decide_false by tauto. done. }
  set (f := fun x => if login_committed x then enqueue_server_state old_state new_state x
                     else (false, x)).
  destruct (visit_spec f (registered g) (objects g) Hnd Hall) as (store & Hv & Hin & Hout).
  rewrite Hv. eexists. split; [done|]. split; [done|]. split; [|done].
  intros p x Hp Hx. cbn [objects]. rewrite (Hin p x Hp Hx). unfold f.
  rewrite bool_decide_true by done. simpl. by destruct (login_committed x).
Qed.

(** Stopping closes every registered connection, tears its subscriptions down and
    empties the registry; afterwards no message is routed or published to any of
    them, whoever sends it. *)
Theorem stop_closes_all (g : registry) :
  registry_ok g ->
  exists gone g', stop_connections g = Some (gone, g') /\ registered g' = [] /\
    (forall p x, p ∈ registered g -> objects g !! p = Some x ->
       exists x', objects g' !! p = Some x' /\ closing x' = true /\ subscriptions x' = [] /\
         (forall context, context ∈ held (subscriptions x) -> context ∈ gone) /\
         (forall message, route_client p message g' = Some (O, g'))) /\
    (forall p, p ∉ registered g -> objects g' !! p = objects g !! p) /\
    forall old_state new_state, publish_server_state old_state new_state g' = Some g'.
Proof.
  intros [Hall Hnd]. unfold stop_connections.
  destruct (visit_spec (fun x => (true, (teardown_subscriptions (begin_close x).2).2))
    (registered g) (objects g) Hnd Hall) as (store & Hv & Hin & Hout).
  rewrite Hv. eexists _, _. split; [done|]. split; [done|]. split; [|split; [done|]].
  - intros p x Hp Hx. exists (teardown_subscriptions (begin_close x).2).2.
    cbn [objects]. rewrite (Hin p x Hp Hx). do 3 (split; [done|]). split.
    + intros context Hc. apply list_elem_of_bind. exists p. by rewrite Hx.
    + intros message. unfold route_client. cbn [objects]. rewrite (Hin p x Hp Hx).
      simpl. by rewrite orb_true_r.
  - intros old_state new_state. unfold publish_server_state. by case_bool_decide.
Qed.

(** ** Registration *)

Lemma find_connection_spec test store l :
  Forall (fun p => is_Some (store !! p)) l ->
  exists r, find_connection test store l = Some r /\
    match r with
    | Some p => p ∈ l /\ exists x, store !! p = Some x /\ test p x = true
    | None => forall p x, p ∈ l -> store !! p = Some x -> test p x = false
    end.
Proof.
  induction 1 as [|p l [x Hx] _ IH]; simpl.
  { exists None. split; [done|]. intros p x Hp. by apply elem_of_nil in Hp. }
  rewrite Hx. destruct (test p x) eqn:Et.
  { exists (Some p). split; [done|]. split; [apply list_elem_of_here|by exists x]. }
  destruct IH as (r & -> & Hr). exists r. split; [done|]. destruct r as [q|].
  - destruct Hr as [Hq Hy]. split; [by apply list_elem_of_further|done].
  - intros q y [->|Hq]%elem_of_cons Hy; [congruence|by eapply Hr].
Qed.

Lemma erase_first_elem p l q :
  NoDup l -> (q ∈ erase_first p l) <-> (q ∈ l /\ q <> p).
Proof.
  induction 1 as [|r l Hr Hnd IH]; simpl.
  { split; [intros H; by apply elem_of_nil in H|intros [H _]; by apply elem_of_nil in H]. }
  destruct (Z.eqb_spec r p) as [->|Hne]; rewrite !elem_of_cons.
  - split; [intros Hq; split; [by right|by intros ->]|intros [[->|?] ?]; done].
  - rewrite IH. split; [intros [->|[? ?]]; auto|intros [[->|?] ?]; auto].
Qed.

Lemma erase_first_NoDup p l : NoDup l -> NoDup (erase_first p l).
Proof.
  induction 1 as [|r l Hr Hnd IH]; simpl; [apply NoDup_nil_2|].
  destruct (r =? p); [done|]. constructor; [|done]. rewrite erase_first_elem by done. tauto.
Qed.

Lemma register_connection_spec g p x :
  registry_ok g -> ids_distinct g -> objects g !! p = Some x ->
  exists ok g', register_connection p g = Some (ok, g') /\ registry_ok g' /\ ids_distinct g' /\
    objects g' = objects g /\
    registered g' = registered g ++ (if ok then [p] else []) /\
    (ok = false <-> (p ∈ registered g) \/
       exists q y, q ∈ registered g /\ objects g !! q = Some y /\
         connection_id y = connection_id x).
Proof.
  intros Hok Hids Hx. pose proof Hok as [Hall Hnd]. unfold register_connection. rewrite Hx.
  destruct (find_connection_spec (fun q y => (q =? p) || (connection_id y =? connection_id x))
    (objects g) (registered g) Hall) as (r & -> & Hr). destruct r as [q|].
  - destruct Hr as (Hq & y & Hy & Ht). exists false, g. rewrite app_nil_r.
    do 5 (split; [done|]). split; [intros _|done]. apply orb_true_iff in Ht as [Ht|Ht]; unbool.
    + left. by subst.
    + right. by exists q, y.
  - eexists true, _. split; [done|]. split; [|split; [|split; [done|split; [done|split; [done|]]]]].
    + split; cbn [objects registered].
      { apply Forall_app. split; [done|]. by constructor. }
      apply NoDup_app. split; [done|]. split; [|apply NoDup_singleton].
      intros q Hq Hin. apply list_elem_of_singleton in Hin as ->.
      specialize (Hr p x Hq Hx). by rewrite Z.eqb_refl in Hr.
    + intros q q' y y' Hq Hq' Hy Hy' Heq. cbn [objects registered] in *.
      rewrite elem_of_app, list_elem_of_singleton in Hq, Hq'.
      destruct Hq as [Hq| ->], Hq' as [Hq'| ->]; [by eapply Hids| | |done].
      * rewrite Hx in Hy'. injection Hy' as <-. specialize (Hr q y Hq Hy). unbool. done.
      * rewrite Hx in Hy. injection Hy as <-. specialize (Hr q' y' Hq' Hy'). unbool. done.
    + intros [Hp|(q & y & Hq & Hy & Heq)].
      * specialize (Hr p x Hp Hx). by rewrite Z.eqb_refl in Hr.
      * specialize (Hr q y Hq Hy). unbool. done.
Qed.

Lemma unregister_connection_spec g id :
  registry_ok g -> ids_distinct g ->
  exists gone g', unregister_connection id g = Some (gone, g') /\ registry_ok g' /\
    ids_distinct g' /\ (forall q, objects g !! q = None -> objects g' !! q = None) /\
    forall q y, objects g !! q = Some y ->
      if bool_decide (q ∈ registered g) && (connection_id y =? id)
      then (q ∉ registered g') /\ objects g' !! q = Some (set_subscriptions [] y) /\
           gone = held (subscriptions y)
      else (q ∈ registered g' <-> q ∈ registered g) /\ objects g' !! q = Some y.
Proof.
  intros Hok Hids. pose proof Hok as [Hall Hnd]. unfold unregister_connection.
  destruct (find_connection_spec (fun _ y => connection_id y =? id) (objects g) (registered g) Hall)
    as (r & -> & Hr). destruct r as [q|].
  2: { exists [], g. do 4 (split; [done|]). intros q y Hy. destruct (_ && _) eqn:E; [|done].
       unbool. specialize (Hr q y ltac:(done) Hy). unbool. done. }
  destruct Hr as (Hq & y & Hy & Ht). unbool. rewrite Hy. simpl.
  eexists _, _. split; [done|]. split; [|split; [|split]]; cbn [objects registered].
  - split; cbn [objects registered]; [|by apply erase_first_NoDup].
    rewrite Forall_forall in Hall |- *. intros q' Hq'.
    apply erase_first_elem in Hq' as [Hq' Hne]; [|done]. rewrite lookup_insert_ne by done.
    by apply Hall.
  - intros a b ya yb Ha Hb Hya Hyb Heq. cbn [objects registered] in *.
    apply erase_first_elem in Ha as [Ha Hna], Hb as [Hb Hnb]; try done.
    rewrite lookup_insert_ne in Hya, Hyb by done. by eapply Hids.
  - intros q' Hq'. rewrite lookup_insert_ne; [done|]. intros ->. congruence.
  - intros q' y' Hy'. destruct (decide (q' = q)) as [->|Hne].
    + rewrite Hy in Hy'. injection Hy' as <-. rewrite bool_decide_true by done.
      rewrite (proj2 (Z.eqb_eq _ _)) by done. cbn [andb].
      split; [rewrite erase_first_elem by done; tauto|by rewrite lookup_insert_eq].
    + destruct (_ && _) eqn:E.
      { unbool. exfalso. apply Hne. eapply Hids; [done|done|done|done|congruence]. }
      split; [rewrite erase_first_elem by done; tauto|by rewrite lookup_insert_ne by done].
Qed.

(** The registry never holds an address or a session id twice.  Registering a
    connection is refused exactly when its address or its session id is registered,
    and otherwise adds it at the end; unregistering an id removes exactly the
    connection with this session id, if there is one, and tears its subscriptions
    down. *)
Theorem registry_stays_distinct (g : registry) (p : Z) (x : connection) (id : Z) :
  registry_ok g -> ids_distinct g -> objects g !! p = Some x ->
  (exists ok g', register_connection p g = Some (ok, g') /\ registry_ok g' /\ ids_distinct g' /\
     registered g' = registered g ++ (if ok then [p] else []) /\
     (ok = false <-> (p ∈ registered g) \/
        exists q y, q ∈ registered g /\ objects g !! q = Some y /\
          connection_id y = connection_id x)) /\
  (exists gone g', unregister_connection id g = Some (gone, g') /\ registry_ok g' /\
     ids_distinct g' /\
     forall q y, objects g !! q = Some y ->
       if bool_decide (q ∈ registered g) && (connection_id y =? id)
       then (q ∉ registered g') /\ objects g' !! q = Some (set_subscriptions [] y) /\
            gone = held (subscriptions y)
       else (q ∈ registered g' <-> q ∈ registered g) /\ objects g' !! q = Some y).
Proof.
  intros Hok Hids Hx. split.
  - destruct (register_connection_spec g p x Hok Hids Hx) as (ok & g' & ? & ? & ? & _ & ?).
    by exists ok, g'.
  - destruct (unregister_connection_spec g id Hok Hids) as (gone & g' & ? & ? & ? & _ & ?).
    by exists gone, g'.
Qed.

(** Two logged-in connections and one that is not. *)
Definition example_connection (id : Z) (name : list byte) : connection :=
  (commit_login name (create id 1000)).2.

Definition example_registry : registry :=
  Registry {[ 1 := example_connection 11 (str "ann"); 2 := example_connection 12 (str "bob");
              3 := create 13 1000 ]} [1; 2; 3].

Lemma example_registry_ok : registry_ok example_registry.
Proof.
  split; simpl.
  - repeat constructor; vm_compute; by eexists.
  - apply (bool_decide_unpack _). vm_compute. done.
Qed.

Lemma route_client_delivers_witness :
  let s := example_connection 11 (str "ann") in
  let message := ClientMessage [] (str "go") [] in
  let recipient x := login_committed s && negb (closing s) && login_committed x &&
    negb (closing x) && (bool_decide (message_login message = []) ||
                         bool_decide (client_name (session x) = message_login message)) in
  let action := ClientAction (client_name (session s)) (message_arg message)
                  (message_parameters message) in
  let accepted p := exists x, objects example_registry !! p = Some x /\ recipient x = true /\
    (enqueue_client_action action x).1 = true in
  exists n g', route_client 1 message example_registry = Some (n, g') /\
    registered g' = registered example_registry /\
    (forall p x, p ∈ registered example_registry -> objects example_registry !! p = Some x ->
       objects g' !! p = Some (if recipient x then (enqueue_client_action action x).2 else x)) /\
    (forall p, p ∉ registered example_registry -> objects g' !! p = objects example_registry !! p) /\
    exists who, n = length who /\ NoDup who /\
      forall p, p ∈ who <-> p ∈ registered example_registry /\ accepted p.
Proof.
  apply (route_client_delivers example_registry 1 (example_connection 11 (str "ann"))
    (ClientMessage [] (str "go") [])); [apply example_registry_ok|vm_compute; reflexivity].
Defined.

Lemma server_state_published_witness :
  exists g', publish_server_state loaded run_state example_registry = Some g' /\
    registered g' = registered example_registry /\
    (forall p x, p ∈ registered example_registry -> objects example_registry !! p = Some x ->
       objects g' !! p = Some (if bool_decide (loaded <> run_state) && login_committed x
                               then (enqueue_server_state loaded run_state x).2 else x)) /\
    (forall p, p ∉ registered example_registry -> objects g' !! p = objects example_registry !! p).
Proof. apply (server_state_published example_registry). apply example_registry_ok. Defined.

Definition single_registry : registry := Registry {[ 1 := create 11 1000 ]} [].

Lemma registry_stays_distinct_witness :
  (exists ok g', register_connection 1 single_registry = Some (ok, g') /\ registry_ok g' /\
     ids_distinct g' /\ registered g' = registered single_registry ++ (if ok then [1] else []) /\
     (ok = false <-> (1 ∈ registered single_registry) \/
        exists q y, q ∈ registered single_registry /\ objects single_registry !! q = Some y /\
          connection_id y = connection_id (create 11 1000))) /\
  (exists gone g', unregister_connection 11 single_registry = Some (gone, g') /\ registry_ok g' /\
     ids_distinct g' /\
     forall q y, objects single_registry !! q = Some y ->
       if bool_decide (q ∈ registered single_registry) && (connection_id y =? 11)
       then (q ∉ registered g') /\ objects g' !! q = Some (set_subscriptions [] y) /\
            gone = held (subscriptions y)
       else (q ∈ registered g' <-> q ∈ registered single_registry) /\ objects g' !! q = Some y).
Proof.
  apply (registry_stays_distinct single_registry 1 (create 11 1000) 11).
  - split; [by constructor|apply NoDup_nil_2].
  - intros p q x y Hp. by apply elem_of_nil in Hp.
  - vm_compute. reflexivity.
Defined.

Lemma stop_closes_all_witness :
  exists gone g', stop_connections example_registry = Some (gone, g') /\ registered g' = [] /\
    (forall p x, p ∈ registered example_registry -> objects example_registry !! p = Some x ->
       exists x', objects g' !! p = Some x' /\ closing x' = true /\ subscriptions x' = [] /\
         (forall context, context ∈ held (subscriptions x) -> context ∈ gone) /\
         (forall message, route_client p message g' = Some (O, g'))) /\
    (forall p, p ∉ registered example_registry -> objects g' !! p = objects example_registry !! p) /\
    forall old_state new_state, publish_server_state old_state new_state g' = Some g'.
Proof. apply (stop_closes_all example_registry). apply example_registry_ok. Defined.
