(* ===== verification/ServerState.v ===== *)
(** The state domain of the server: the project states and their transitions
    (server_state.hpp), the access policy (server_mode.hpp, server_policy.hpp and
    .cpp, communication/server_request.hpp), the lease (license/server_lease.hpp and
    .cpp) and the options of the initial-condition requests
    (project/runtime/runtime_ic.hpp). *)

From S2P Require Import Prelude ServerStatus RuntimeValue Connection.

Local Open Scope Z_scope.

Definition project_state_can_run (state : project_state) : bool :=
  bool_decide (state = loaded) || bool_decide (state = freeze_state).

Definition project_state_can_freeze (state : project_state) : bool :=
  bool_decide (state = run_state).

Definition project_state_can_unload (state : project_state) : bool :=
  bool_decide (state = loaded) || bool_decide (state = freeze_state).

Inductive server_mode := full | demo.

#[export] Instance server_mode_eq_dec : EqDecision server_mode.
Proof. solve_decision. Defined.

Inductive server_request_kind :=
| request_load | request_publish | request_build | request_unload | request_rebuild
| request_get_state | request_get_value | request_snap_ic | request_reset_ic
| request_run | request_freeze | request_shutdown.

#[export] Instance server_request_kind_eq_dec : EqDecision server_request_kind.
Proof. solve_decision. Defined.

Record server_request := ServerRequest {
  request_kind : server_request_kind;
  request_path : list byte;
  request_name : list byte;
  request_snap_options : Z;
  request_reset_options : Z
}.

Definition is_demo_mutation (request : server_request_kind) : bool :=
  match request with
  | request_publish | request_build | request_rebuild | request_reset_ic
  | request_run | request_freeze => true
  | request_load | request_unload | request_get_state | request_get_value
  | request_snap_ic | request_shutdown => false
  end.

Definition allows (mode : server_mode) (request : server_request_kind) : bool :=
  if bool_decide (mode = full) then true else negb (is_demo_mutation request).

(** Options are the bits of a byte. *)
Definition snap_ic_options_none : Z := 0.

Record server_lease := ServerLease {
  lease_id : list byte;
  not_before : Z;
  expires_at : Z;
  max_connections : Z;
  lease_loaded : bool
}.

Definition lease_clear (l : server_lease) : server_lease := ServerLease [] 0 0 0 false.

Definition lease_assign (id : list byte) (begin expiration connections : Z) : server_lease :=
  ServerLease id begin expiration connections true.

Definition valid_at (now : Z) (l : server_lease) : bool :=
  lease_loaded l && (not_before l <=? now) && (now <? expires_at l).
