(* ===== verification/Server.v ===== *)
(** The control thread of the server (server.hpp, server.cpp, server_context.hpp,
    communication/server_request_message.hpp, communication/control): the execution
    of requests against the project state, the control messages of connections and
    the control loop, interleaved with the transport threads.  The services of the
    project library are an interface. *)

From S2P Require Import Prelude ServerStatus DiagnosticCatalog Diagnostics OutboundChannel RuntimeValue.
From S2P Require Import Connection Communication ServerState.

Local Open Scope Z_scope.

Import Requests.

(** ** The project services *)

Inductive construction := construct_load | construct_publish | construct_build | construct_rebuild.

Inductive read_only_file :=
| file_opened (bytes : list byte) | file_not_found | file_empty | file_failed.

(** The services of the project library and of the file system, over resident projects
    [P] and the world [W] they read and change: files and shared memory.  A resident
    project has the size of its runtime and of its shared memory. *)
Class ProjectServices (P W : Type) := {
  resolve : list byte -> list byte -> list byte;
  construct_project : construction -> list byte -> Z -> diagnostic_collection -> W ->
    server_status * diagnostic_collection * option P * W;
  runtime_size : P -> Z;
  shm_size : P -> Z;
  get_runtime_value : P -> list byte -> W -> runtime_query_result * runtime_value;
  snapshot_runtime_ic_binary : P -> W -> option (list byte);
  create_file : list byte -> Z -> W -> bool * W;
  write_file : list byte -> list byte -> W -> bool * W;
  remove_file : list byte -> W -> W;
  open_file : list byte -> W -> read_only_file;
  bind_runtime_ic : list byte -> bool;
  reset_runtime_ic_binary : P -> list byte -> Z -> W -> runtime_ic_reset_result * W
}.

(** What the server relies on: a construction that succeeds returns a project. *)
Class ProjectLaws (P W : Type) `{ProjectServices P W} : Prop := {
  construct_returns : forall how path operation diagnostics w,
    let '(status, _, candidate, _) := construct_project how path operation diagnostics w in
    status = success -> is_Some candidate
}.

Section Execution.
Context {P W : Type} `{!ProjectServices P W}.

(** What the execution of requests reads and changes. *)
Record core := Core {
  running : bool;
  project_state_value : project_state;
  resident : option P;
  next_operation_value : Z;
  world : W
}.

Definition set_running (b : bool) (c : core) : core :=
  Core b (project_state_value c) (resident c) (next_operation_value c) (world c).
Definition set_project (s : project_state) (p : option P) (c : core) : core :=
  Core (running c) s p (next_operation_value c) (world c).
Definition set_world (w : W) (c : core) : core :=
  Core (running c) (project_state_value c) (resident c) (next_operation_value c) w.

Definition next_operation (c : core) : Z * core :=
  let value := next_operation_value c in
  let next := u64 (value + 1) in
  (value, Core (running c) (project_state_value c) (resident c) (if next =? 0 then 1 else next)
            (world c)).

(** The emission of a catalog diagnostic with a detail. *)
Definition report (d : diagnostic_descriptor) (operation : Z) (detail : list byte)
    (diagnostics : diagnostic_collection) : diagnostic_collection :=
  emit (with_detail detail (diagnostic d operation)) diagnostics.

Definition already_loaded_detail (how : construction) : list byte :=
  match how with
  | construct_load => str "UNLOAD the active Project before LOAD"
  | construct_publish => str "UNLOAD the active Project before PUBLISH"
  | construct_build => str "UNLOAD the active Project before BUILD"
  | construct_rebuild => str "UNLOAD the active Project before REBUILD"
  end.

(** The body that [load], [publish], [build] and [rebuild] share. *)
Definition construct (how : construction) (directory path : list byte) (operation : Z)
    (diagnostics : diagnostic_collection) (c : core)
  : server_status * diagnostic_collection * core :=
  match resident c with
  | Some _ =>
      (project_already_loaded,
       report project_already_loaded_d operation (already_loaded_detail how) diagnostics, c)
  | None =>
      let '(status, diagnostics, candidate, w) :=
        construct_project how (resolve directory path) operation diagnostics (world c) in
      let c := set_world w c in
      if negb (succeeded status)
      then (status, diagnostics, set_project unloaded None c)
      else (success, diagnostics, set_project loaded candidate c)
  end.

Definition load := construct construct_load.
Definition publish := construct construct_publish.
Definition build := construct construct_build.
Definition rebuild := construct construct_rebuild.

Definition unload (operation : Z) (diagnostics : diagnostic_collection) (c : core)
  : server_status * diagnostic_collection * core :=
  match resident c with
  | None =>
      (project_not_loaded,
       report project_not_loaded_d operation (str "UNLOAD requires an active Project") diagnostics, c)
  | Some _ =>
      if negb (project_state_can_unload (project_state_value c))
      then (runtime_state_invalid,
            report runtime_state_invalid_d operation (str "UNLOAD requires LOADED or FREEZE")
              diagnostics, c)
      else (success, diagnostics, set_project unloaded None c)
  end.

Definition run_project (operation : Z) (diagnostics : diagnostic_collection) (c : core)
  : server_status * diagnostic_collection * core :=
  match resident c with
  | None =>
      (project_not_loaded,
       report project_not_loaded_d operation (str "RUN requires an active Project") diagnostics, c)
  | Some _ =>
      if negb (project_state_can_run (project_state_value c))
      then (runtime_state_invalid,
            report runtime_state_invalid_d operation (str "RUN requires LOADED or FREEZE")
              diagnostics, c)
      else (success, diagnostics, set_project run_state (resident c) c)
  end.

Definition freeze_project (operation : Z) (diagnostics : diagnostic_collection) (c : core)
  : server_status * diagnostic_collection * core :=
  match resident c with
  | None =>
      (project_not_loaded,
       report project_not_loaded_d operation (str "FREEZE requires an active Project") diagnostics, c)
  | Some _ =>
      if negb (project_state_can_freeze (project_state_value c))
      then (runtime_state_invalid,
            report runtime_state_invalid_d operation (str "FREEZE requires RUN") diagnostics, c)
      else (success, diagnostics, set_project freeze_state (resident c) c)
  end.

Definition invalid_runtime_size (p : P) : bool :=
  (runtime_size p =? 0) || (shm_size p <? runtime_size p).

Definition snap_ic (directory path : list byte) (options operation : Z)
    (diagnostics : diagnostic_collection) (c : core)
  : server_status * diagnostic_collection * core :=
  if negb (options =? snap_ic_options_none)
  then (runtime_ic_invalid,
        report runtime_ic_invalid_d operation (str "SNAP_IC options are invalid") diagnostics, c)
  else
    match resident c with
    | None =>
        (project_not_loaded,
         report project_not_loaded_d operation (str "SNAP_IC requires an active Project")
           diagnostics, c)
    | Some p =>
        if bool_decide (path = [])
        then (runtime_ic_invalid,
              report runtime_ic_invalid_d operation (str "SNAP_IC requires a file path")
                diagnostics, c)
        else if invalid_runtime_size p
        then (runtime_ic_failed,
              report runtime_ic_failed_d operation (str "Runtime SHM size is invalid") diagnostics, c)
        else
          match snapshot_runtime_ic_binary p (world c) with
          | None =>
              (runtime_ic_failed,
               report runtime_ic_failed_d operation (str "SNAP_IC could not capture Runtime")
                 diagnostics, c)
          | Some image =>
              let target := resolve directory path in
              let failed w := (io_error,
                report runtime_ic_io_failed_d operation target diagnostics, set_world w c) in
              let (created, w) := create_file target (Z.of_nat (length image)) (world c) in
              if negb created then failed w
              else
                let (flushed, w) := write_file target image w in
                if negb flushed then failed (remove_file target w)
                else (success, diagnostics, set_world w c)
          end
    end.

(** The status and the diagnostic of a reset. *)
Definition reset_outcome (result : runtime_ic_reset_result) (target : list byte) (operation : Z)
    (diagnostics : diagnostic_collection) : server_status * diagnostic_collection :=
  match result with
  | reset_success => (success, diagnostics)
  | reset_invalid_input | reset_invalid_image =>
      (runtime_ic_invalid, report runtime_ic_invalid_d operation target diagnostics)
  | reset_not_found =>
      (runtime_ic_not_found, report runtime_ic_not_found_d operation target diagnostics)
  | reset_unsupported_type =>
      (unsupported,
       report runtime_ic_failed_d operation
         (str "RESET_IC encountered an unsupported Runtime type") diagnostics)
  | reset_type_mismatch =>
      (runtime_ic_type_mismatch, report runtime_ic_type_mismatch_d operation target diagnostics)
  | reset_invalid_runtime | reset_failed =>
      (runtime_ic_failed, report runtime_ic_failed_d operation target diagnostics)
  end.

Definition reset_ic (directory path : list byte) (options operation : Z)
    (diagnostics : diagnostic_collection) (c : core)
  : server_status * diagnostic_collection * core :=
  if negb (valid_reset_ic_options options)
  then (runtime_ic_invalid,
        report runtime_ic_invalid_d operation (str "RESET_IC options are invalid") diagnostics, c)
  else
    match resident c with
    | None =>
        (project_not_loaded,
         report project_not_loaded_d operation (str "RESET_IC requires an active Project")
           diagnostics, c)
    | Some p =>
        if bool_decide (path = [])
        then (runtime_ic_invalid,
              report runtime_ic_invalid_d operation (str "RESET_IC requires a file path")
                diagnostics, c)
        else
          let target := resolve directory path in
          match open_file target (world c) with
          | file_not_found =>
              (runtime_ic_not_found, report runtime_ic_not_found_d operation target diagnostics, c)
          | file_empty | file_failed =>
              (io_error, report runtime_ic_io_failed_d operation target diagnostics, c)
          | file_opened image =>
              if negb (bind_runtime_ic image)
              then (runtime_ic_invalid, report runtime_ic_invalid_d operation target diagnostics, c)
              else if invalid_runtime_size p
              then (runtime_ic_failed,
                    report runtime_ic_failed_d operation (str "Runtime SHM size is invalid")
                      diagnostics, c)
              else
                let (result, w) := reset_runtime_ic_binary p image options (world c) in
                (reset_outcome result target operation diagnostics, set_world w c)
          end
    end.

Definition no_value : runtime_value := RuntimeValue 0 0 0 0 0.

(** A fresh response of an operation. *)
Definition new_response (operation : Z) : server_response :=
  ServerResponse operation success payload_none unloaded no_value empty_collection.

(** A response without payload. *)
Definition status_response (operation : Z) (status : server_status)
    (diagnostics : diagnostic_collection) : server_response :=
  ServerResponse operation status payload_none unloaded no_value diagnostics.

Definition get_value (name : list byte) (operation : Z) (c : core) : server_response :=
  let failed d status detail :=
    status_response operation status (report d operation detail empty_collection) in
  match resident c with
  | None => failed project_not_loaded_d project_not_loaded (str "GET_VALUE requires an active Project")
  | Some p =>
      if shm_size p <? runtime_size p then failed runtime_query_failed_d project_runtime_failed name
      else
        match get_runtime_value p name (world c) with
        | (query_success, value) =>
            ServerResponse operation success payload_runtime_value unloaded value empty_collection
        | (query_invalid_input, _) => failed runtime_query_invalid_d runtime_query_invalid name
        | (query_not_found, _) => failed runtime_query_not_found_d runtime_query_not_found name
        | (query_unsupported_type, _) => failed runtime_query_unsupported_d unsupported name
        | (query_invalid_runtime, _) => failed runtime_query_failed_d project_runtime_failed name
        end
  end.

Definition sort_response (r : server_response) : server_response :=
  ServerResponse (response_operation r) (response_status r) (response_payload r)
    (response_state r) (response_value r) (sort_deterministic (response_diagnostics r)).

Definition execute (directory : list byte) (request : server_request) (c : core)
  : server_response * core :=
  let (operation, c) := next_operation c in
  let answer (r : server_status * diagnostic_collection * core) :=
    let '(status, diagnostics, c) := r in
    (sort_response (status_response operation status diagnostics), c) in
  let path := request_path request in
  match request_kind request with
  | request_load => answer (load directory path operation empty_collection c)
  | request_publish => answer (publish directory path operation empty_collection c)
  | request_build => answer (build directory path operation empty_collection c)
  | request_unload => answer (unload operation empty_collection c)
  | request_rebuild => answer (rebuild directory path operation empty_collection c)
  | request_get_state =>
      (sort_response (ServerResponse operation success payload_state (project_state_value c)
         no_value empty_collection), c)
  | request_snap_ic =>
      answer (snap_ic directory path (request_snap_options request) operation empty_collection c)
  | request_reset_ic =>
      answer (reset_ic directory path (request_reset_options request) operation empty_collection c)
  | request_run => answer (run_project operation empty_collection c)
  | request_freeze => answer (freeze_project operation empty_collection c)
  | request_get_value => (sort_response (get_value (request_name request) operation c), c)
  | request_shutdown => answer (success, empty_collection, set_running false c)
  end.

Definition execute_message (mode : server_mode) (directory : list byte) (request : server_request)
    (c : core) : server_response * core :=
  if allows mode (request_kind request) then execute directory request c
  else
    let (operation, c) := next_operation c in
    (sort_response (status_response operation access_denied
       (report server_policy_denied_d operation
          (str "Request is not allowed for this origin/client identity") empty_collection)), c).
End Execution.
Arguments core : clear implicits.

(** ** The project state machine *)

Section Machine.
Context {P W : Type} `{!ProjectServices P W, !ProjectLaws P W}.

(** No project is resident exactly when the state is unloaded. *)
Definition consistent (c : core P W) : Prop :=
  resident c = None <-> project_state_value c = unloaded.

Definition constructs (k : server_request_kind) : bool :=
  match k with
  | request_load | request_publish | request_build | request_rebuild => true
  | _ => false
  end.

Definition observes (k : server_request_kind) : bool :=
  match k with
  | request_get_state | request_get_value | request_snap_ic | request_reset_ic
  | request_shutdown => true
  | _ => false
  end.

(** The transitions of the project state that a request may make. *)
Inductive project_transition : server_request_kind -> project_state -> project_state -> Prop :=
| transition_construct k : constructs k = true -> project_transition k unloaded loaded
| transition_unload s : s = loaded \/ s = freeze_state -> project_transition request_unload s unloaded
| transition_run s : s = loaded \/ s = freeze_state -> project_transition request_run s run_state
| transition_freeze : project_transition request_freeze run_state freeze_state
| transition_observe k s : observes k = true -> project_transition k s s.

#[local] Hint Constructors project_transition : core.

Lemma succeeded_false status : succeeded status = false -> status <> success.
Proof. unfold succeeded. intros H. by apply bool_decide_eq_false in H. Qed.

(** What a lifecycle operation does to the state and the project. *)
Record operation_ok (k : server_request_kind) (c : core P W) (status : server_status)
    (c' : core P W) : Prop := OperationOk {
  op_consistent : consistent c';
  op_running : running c' = running c;
  op_success : status = success ->
    project_transition k (project_state_value c) (project_state_value c');
  op_failure : status <> success ->
    project_state_value c' = project_state_value c /\ resident c' = resident c
}.

(** Nothing happened, with a failure. *)
Lemma operation_refused k (c : core P W) status :
  consistent c -> status <> success -> operation_ok k c status c.
Proof. intros. by split. Qed.

(** Only the world changed. *)
Lemma operation_observed k (c : core P W) status w :
  consistent c -> observes k = true -> operation_ok k c status (set_world w c).
Proof. intros. split; simpl; auto. Qed.

Lemma construct_ok k how dir path operation diagnostics c :
  consistent c -> constructs k = true ->
  let '(status, _, c') := construct how dir path operation diagnostics c in
  operation_ok k c status c'.
Proof.
  intros Hc Hk. unfold construct. destruct (resident c) eqn:Er; [by apply operation_refused|].
  pose proof (construct_returns how (resolve dir path) operation diagnostics (world c)) as Hlaw.
  destruct (construct_project _ _ _ _ _) as [[[status diagnostics'] candidate] w].
  destruct (succeeded status) eqn:Es; simpl.
  - apply succeeded_spec in Es. destruct (Hlaw Es) as [p ->]. split; simpl; try done.
    intros _. rewrite (proj1 Hc Er). by constructor.
  - split; simpl; try done.
    + intros ->. by apply succeeded_false in Es.
    + intros _. by rewrite Er, (proj1 Hc Er).
Qed.

(** The two outcomes of a lifecycle request: no transition of it leaves this state, or
    it is taken. *)
Ltac refused :=
  split; [by apply operation_refused|];
  let s := fresh in let Hs := fresh in intros [s Hs]; inversion Hs; naive_solver.
Ltac allowed Es := split; [|done]; split; simpl; try done; intros _; rewrite Es; auto.

Lemma unload_ok operation diagnostics c :
  consistent c ->
  let '(status, _, c') := unload operation diagnostics c in
  operation_ok request_unload c status c' /\
  ((exists s, project_transition request_unload (project_state_value c) s) -> status = success).
Proof.
  intros Hc. unfold unload. destruct (resident c) eqn:Er.
  - unfold project_state_can_unload. destruct (project_state_value c) eqn:Es; simpl.
    1, 3: refused.
    all: allowed Es.
  - rewrite (proj1 Hc Er). refused.
Qed.

Lemma run_project_ok operation diagnostics c :
  consistent c ->
  let '(status, _, c') := run_project operation diagnostics c in
  operation_ok request_run c status c' /\
  ((exists s, project_transition request_run (project_state_value c) s) -> status = success).
Proof.
  intros Hc. unfold run_project. destruct (resident c) eqn:Er.
  - unfold project_state_can_run. destruct (project_state_value c) eqn:Es; simpl.
    1, 3: refused.
    all: allowed Es.
  - rewrite (proj1 Hc Er). refused.
Qed.

Lemma freeze_project_ok operation diagnostics c :
  consistent c ->
  let '(status, _, c') := freeze_project operation diagnostics c in
  operation_ok request_freeze c status c' /\
  ((exists s, project_transition request_freeze (project_state_value c) s) -> status = success).
Proof.
  intros Hc. unfold freeze_project. destruct (resident c) eqn:Er.
  - unfold project_state_can_freeze. destruct (project_state_value c) eqn:Es; simpl.
    1, 2, 4: refused.
    allowed Es.
  - rewrite (proj1 Hc Er). refused.
Qed.

Lemma snap_ic_ok dir path options operation diagnostics c :
  consistent c ->
  let '(status, _, c') := snap_ic dir path options operation diagnostics c in
  operation_ok request_snap_ic c status c'.
Proof.
  intros Hc. unfold snap_ic. destruct (negb _); [by apply operation_refused|].
  destruct (resident c); [|by apply operation_refused].
  case_bool_decide; [by apply operation_refused|].
  destruct (invalid_runtime_size _); [by apply operation_refused|].
  destruct (snapshot_runtime_ic_binary _ _); [|by apply operation_refused].
  destruct (create_file _ _ _) as [created w]. destruct created; simpl; [|by apply operation_observed].
  destruct (write_file _ _ _) as [flushed w']. destruct flushed; simpl; by apply operation_observed.
Qed.

Lemma reset_ic_ok dir path options operation diagnostics c :
  consistent c ->
  let '(status, _, c') := reset_ic dir path options operation diagnostics c in
  operation_ok request_reset_ic c status c'.
Proof.
  intros Hc. unfold reset_ic. destruct (negb _); [by apply operation_refused|].
  destruct (resident c); [|by apply operation_refused].
  case_bool_decide; [by apply operation_refused|].
  destruct (open_file _ _); try by apply operation_refused.
  destruct (negb _); [by apply operation_refused|].
  destruct (invalid_runtime_size _); [by apply operation_refused|].
  destruct (reset_runtime_ic_binary _ _ _ _) as [result w].
  destruct (reset_outcome _ _ _ _) as [status diagnostics']. by apply operation_observed.
Qed.

(** The answer of an operation that behaved. *)
Ltac answer_of lemma :=
  let H := fresh in
  pose proof lemma as H;
  match type of H with match ?x with _ => _ end => destruct x as [[? ?] ?] end;
  try (destruct H as [H ?]); destruct H; cbn; rewrite ?andb_true_r;
  do 6 (split; [done|]); intuition congruence.

(** The refinement, for the control loop. *)
Lemma requests_refine (m : server_mode) (dir : list byte) (request : server_request)
    (c : core P W) :
  consistent c ->
  let k := request_kind request in
  let (r, c') := execute_message m dir request c in
  consistent c' /\
  response_operation r = next_operation_value c /\
  running c' = running c && negb (bool_decide (k = request_shutdown)) /\
  (response_status r = success ->
     project_transition k (project_state_value c) (project_state_value c')) /\
  (response_status r <> success ->
     project_state_value c' = project_state_value c /\ resident c' = resident c) /\
  (response_payload r = payload_state ->
     response_state r = project_state_value c' /\
     project_state_value c' = project_state_value c) /\
  (if allows m k
   then k = request_unload \/ k = request_run \/ k = request_freeze ->
        (exists s, project_transition k (project_state_value c) s) -> response_status r = success
   else response_status r = access_denied /\ world c' = world c).
Proof.
  intros Hc k. subst k. unfold execute_message. destruct (allows m (request_kind request)) eqn:Ea.
  2: { unfold next_operation. cbn. split; [done|]. split; [done|]. split; [|done].
       destruct (request_kind request) eqn:Ek; rewrite ?andb_true_r; try done.
       unfold allows in Ea. by case_bool_decide. }
  unfold execute, load, publish, build, rebuild. destruct (next_operation c) as [operation c0] eqn:En.
  assert (operation = next_operation_value c /\ running c0 = running c /\
    project_state_value c0 = project_state_value c /\ resident c0 = resident c) as (-> & Hr & Hs & Hp)
    by (unfold next_operation in En; by injection En as <- <-).
  assert (consistent c0) as Hc0 by (unfold consistent; by rewrite Hs, Hp).
  rewrite <- Hr, <- Hs, <- Hp. generalize (next_operation_value c). intros op.
  clear Hc Hr Hs Hp En Ea. cbn [snd fst].
  destruct (request_kind request) eqn:Ek; rewrite ?andb_true_r.
  - answer_of (construct_ok request_load construct_load dir (request_path request) op empty_collection c0 Hc0 eq_refl).
  - answer_of (construct_ok request_publish construct_publish dir (request_path request) op empty_collection c0 Hc0 eq_refl).
  - answer_of (construct_ok request_build construct_build dir (request_path request) op empty_collection c0 Hc0 eq_refl).
  - answer_of (unload_ok op empty_collection c0 Hc0).
  - answer_of (construct_ok request_rebuild construct_rebuild dir (request_path request) op empty_collection c0 Hc0 eq_refl).
  - cbn. rewrite ?andb_true_r. do 3 (split; [done|]). split; [by constructor|]. naive_solver.
  - assert (forall r, response_payload r <> payload_state -> response_operation r = op ->
      consistent c0 /\ response_operation r = op /\ running c0 = running c0 /\
      (response_status r = success ->
         project_transition request_get_value (project_state_value c0) (project_state_value c0)) /\
      (response_status r <> success ->
         project_state_value c0 = project_state_value c0 /\ resident c0 = resident c0) /\
      (response_payload r = payload_state -> response_state r = project_state_value c0 /\
         project_state_value c0 = project_state_value c0) /\
      (request_get_value = request_unload \/ request_get_value = request_run \/
         request_get_value = request_freeze ->
       (exists s, project_transition request_get_value (project_state_value c0) s) ->
       response_status r = success)) as Hv
      by (intros r Hr Ho; split_and!; try done; [by constructor|naive_solver]).
    rewrite ?andb_true_r. apply Hv; unfold get_value; repeat case_match; done.
  - answer_of (snap_ic_ok dir (request_path request) (request_snap_options request) op
      empty_collection c0 Hc0).
  - answer_of (reset_ic_ok dir (request_path request) (request_reset_options request) op
      empty_collection c0 Hc0).
  - answer_of (run_project_ok op empty_collection c0 Hc0).
  - answer_of (freeze_project_ok op empty_collection c0 Hc0).
  - cbn. rewrite ?andb_false_r. do 3 (split; [done|]). split; [by constructor|]. naive_solver.
Qed.

(** C14: Requests refine the project state machine: the state is unloaded exactly when no
    project is resident; a request that succeeds makes a transition of its kind, and
    one that fails changes neither state nor project; RUN, FREEZE and UNLOAD succeed
    whenever the machine allows them; the demo mode denies every mutation without
    touching project or world; only SHUTDOWN stops the server; and a response that
    carries a state carries the current one. *)
Theorem requests_refine_machine (m : server_mode) (dir : list byte) (request : server_request)
    (c : core P W) :
  consistent c ->
  let k := request_kind request in
  let (r, c') := execute_message m dir request c in
  consistent c' /\
  response_operation r = next_operation_value c /\
  running c' = running c && negb (bool_decide (k = request_shutdown)) /\
  (response_status r = success ->
     project_transition k (project_state_value c) (project_state_value c')) /\
  (response_status r <> success ->
     project_state_value c' = project_state_value c /\ resident c' = resident c) /\
  (response_payload r = payload_state ->
     response_state r = project_state_value c' /\
     project_state_value c' = project_state_value c) /\
  (if allows m k
   then k = request_unload \/ k = request_run \/ k = request_freeze ->
        (exists s, project_transition k (project_state_value c) s) -> response_status r = success
   else response_status r = access_denied /\ world c' = world c).
Proof. apply requests_refine. Qed.
End Machine.

(** ** A small project library *)

(** Projects are their sizes; every construction of a nonempty path succeeds and every
    name has the value of its length. *)
Definition example_services : ProjectServices Z Z := {|
  resolve base path := base ++ path;
  construct_project how path operation diagnostics w :=
    if bool_decide (path = [])
    then (project_load_failed, report project_load_failed_d operation path diagnostics, None, w)
    else (success, diagnostics, Some 16, w + 1);
  runtime_size p := p;
  shm_size p := 4096;
  get_runtime_value p name w := (query_success, RuntimeValue 1 4 0 0 (Z.of_nat (length name)));
  snapshot_runtime_ic_binary p w := Some [x01];
  create_file path size w := (true, w);
  write_file path bytes w := (true, w + 1);
  remove_file path w := w;
  open_file path w := file_not_found;
  bind_runtime_ic bytes := true;
  reset_runtime_ic_binary p image options w := (reset_success, w)
|}.

Lemma example_laws : @ProjectLaws Z Z example_services.
Proof. split. intros how path operation diagnostics w. simpl. by case_bool_decide. Qed.

Definition example_core : core Z Z := Core true loaded (Some 16) 7 0.

Definition run_request : server_request := ServerRequest request_run [] [] 0 0.

Lemma requests_refine_machine_witness :
  let k := request_kind run_request in
  let (r, c') := @execute_message Z Z example_services full [] run_request example_core in
  consistent c' /\
  response_operation r = next_operation_value example_core /\
  running c' = running example_core && negb (bool_decide (k = request_shutdown)) /\
  (response_status r = success ->
     project_transition k (project_state_value example_core) (project_state_value c')) /\
  (response_status r <> success ->
     project_state_value c' = project_state_value example_core /\
     resident c' = resident example_core) /\
  (response_payload r = payload_state ->
     response_state r = project_state_value c' /\
     project_state_value c' = project_state_value example_core) /\
  (if allows full k
   then k = request_unload \/ k = request_run \/ k = request_freeze ->
        (exists s, project_transition k (project_state_value example_core) s) ->
        response_status r = success
   else response_status r = access_denied /\ world c' = world example_core).
Proof.
  apply (@requests_refine_machine Z Z example_services example_laws full [] run_request
    example_core). split; done.
Defined.
