(* ===== verification/ServerControl.v ===== *)
(** The control loop of the server (server.cpp: [run], [execute_login],
    [execute_connection_close], [execute_client], [shutdown];
    communication/server_request_message.hpp and communication/control), interleaved
    with the transport threads, and what clients learn of the project state. *)

From S2P Require Import Prelude ServerStatus DiagnosticCatalog Diagnostics OutboundChannel.
From S2P Require Import Connection Communication ServerState Server.

Local Open Scope Z_scope.

Import Outbound Requests.
Import Connection.

(** Where a response is presented: nowhere, on a console or to a connection. *)
Inductive request_origin :=
| origin_none
| origin_console
| origin_connection (p request : Z).

Inductive control_message :=
| request_message (request : server_request) (origin : request_origin)
| login_message (p : option Z) (request : Z) (name : list byte)
| close_message (p : option Z)
| client_control (p : option Z) (request : Z) (m : client_message).

Section Control.
Context {P W : Type} `{!ProjectServices P W}.

Record server := Server {
  server_core : core P W;
  communications : registry;
  requests : request_queue control_message;
  mode : server_mode;
  lease : server_lease;
  directory : list byte;
  console_output : list server_response;
  returned : bool
}.

Definition set_core (c : core P W) (s : server) : server :=
  Server c (communications s) (requests s) (mode s) (lease s) (directory s) (console_output s)
    (returned s).
Definition set_communications (g : registry) (s : server) : server :=
  Server (server_core s) g (requests s) (mode s) (lease s) (directory s) (console_output s)
    (returned s).
Definition set_queue (q : request_queue control_message) (s : server) : server :=
  Server (server_core s) (communications s) q (mode s) (lease s) (directory s)
    (console_output s) (returned s).
Definition set_console (l : list server_response) (s : server) : server :=
  Server (server_core s) (communications s) (requests s) (mode s) (lease s) (directory s) l
    (returned s).

Definition current_project_state (s : server) : project_state :=
  project_state_value (server_core s).

(** An operation on the connection at an address; none for a dangling one. *)
Definition update_connection (p : Z) (f : connection -> connection) (g : registry)
  : option registry :=
  match objects g !! p with
  | None => None
  | Some x => Some (set_object p (f x) g)
  end.

Definition on_connection (p : Z) (f : connection -> connection) (s : server) : option server :=
  match update_connection p f (communications s) with
  | None => None
  | Some g => Some (set_communications g s)
  end.

(** ** The origin of a request *)

Definition arm_written (origin : request_origin) (s : server) : option server :=
  match origin with
  | origin_connection p request => on_connection p (arm_response_write_wait request) s
  | _ => Some s
  end.

Definition present (origin : request_origin) (result : server_response) (s : server)
  : option server :=
  match origin with
  | origin_none => Some s
  | origin_console => Some (set_console (console_output s ++ [result]) s)
  | origin_connection p request =>
      on_connection p (fun x => (enqueue_response request result true x).2) s
  end.

(** The state after the wait is the same when it succeeds and when it times out. *)
Definition wait_written (origin : request_origin) (s : server) : option server :=
  match origin with
  | origin_connection p request =>
      on_connection p (fun x => match wait_response_written request true x with
                                | Some (_, x) => x | None => x end) s
  | _ => Some s
  end.

Definition and_step (m : option server) (k : server -> option server) : option server :=
  match m with None => None | Some s => k s end.

(** ** Messages *)

Definition publish_change (old_state new_state : project_state) (s : server) : option server :=
  match publish_server_state old_state new_state (communications s) with
  | None => None
  | Some g => Some (set_communications g s)
  end.

Definition handle_request (request : server_request) (origin : request_origin) (s : server)
  : option server :=
  let old_state := current_project_state s in
  let (result, c) := execute_message (mode s) (directory s) request (server_core s) in
  let stops := bool_decide (request_kind request = request_shutdown) in
  let s := set_core c s in
  and_step (if stops then arm_written origin s else Some s) (fun s =>
  and_step (present origin result s) (fun s =>
  and_step (if stops then wait_written origin s else Some s) (fun s =>
  publish_change old_state (current_project_state s) s))).

Definition execute_login (p : Z) (request : Z) (name : list byte) (s : server) : option server :=
  let (operation, c) := next_operation (server_core s) in
  let s := set_core c s in
  match objects (communications s) !! p with
  | None => None
  | Some x =>
      let (login, x) := commit_login name x in
      let g := set_object p x (communications s) in
      match (if bool_decide (login = login_success) then register_connection p g
             else Some (false, g)) with
      | None => None
      | Some (registered, g) =>
          let result :=
            if registered
            then ServerResponse operation success payload_state (current_project_state s)
                   no_value empty_collection
            else status_response operation communication_invalid_request empty_collection in
          on_connection p (fun x => (enqueue_response request result true x).2)
            (set_communications g s)
      end
  end.

Definition execute_connection_close (p : Z) (s : server) : option server :=
  match objects (communications s) !! p with
  | None => None
  | Some x =>
      match unregister_connection (connection_id x)
              (set_object p (begin_close x).2 (communications s)) with
      | None => None
      | Some (_, g) => Some (set_communications g s)
      end
  end.

Definition execute_client (p : Z) (request : Z) (message : client_message) (s : server)
  : option server :=
  let (operation, c) := next_operation (server_core s) in
  let s := set_core c s in
  match objects (communications s) !! p with
  | None => None
  | Some x =>
      let answer status s :=
        on_connection p (fun x =>
          (enqueue_response request (status_response operation status empty_collection) true x).2) s in
      if negb (login_committed x) || closing x then answer communication_invalid_request s
      else
        match route_client p message (communications s) with
        | None => None
        | Some (_, g) => answer success (set_communications g s)
        end
  end.

Definition handle_message (m : control_message) (s : server) : option server :=
  match m with
  | request_message request origin => handle_request request origin s
  | login_message (Some p) request name => execute_login p request name s
  | close_message (Some p) => execute_connection_close p s
  | client_control (Some p) request message => execute_client p request message s
  | login_message None _ _ | close_message None | client_control None _ _ => Some s
  end.

(** ** The control loop *)

Definition shutdown (s : server) : option server :=
  match stop_connections (communications s) with
  | None => None
  | Some (_, g) =>
      Some (Server (set_project unloaded None (set_running false (server_core s))) g
              (stop_accepting_and_discard (requests s)) (mode s) (lease_clear (lease s))
              (directory s) (console_output s) (returned s))
  end.

(** The end of [run]. *)
Definition return_from_run (s : server) : option server :=
  match shutdown s with
  | None => None
  | Some s =>
      Some (Server (server_core s) (communications s) (requests s) (mode s) (lease s)
              (directory s) (console_output s) true)
  end.

Definition stop_running (s : server) : server := set_core (set_running false (server_core s)) s.

(** One iteration of [run] with the readings of the clock before and after the wait and
    whether the deadline passed; a sleeping thread changes nothing. *)
Definition control_step (now : Z) (deadline_passed : bool) (popped_at : Z) (s : server)
  : option server :=
  if returned s then Some s
  else if negb (running (server_core s)) then return_from_run s
  else if negb (valid_at now (lease s)) then Some (stop_running s)
  else
    match wait_pop_until deadline_passed (requests s) with
    | None => Some s
    | Some (None, q) => Some (stop_running (set_queue q s))
    | Some (Some m, q) =>
        if negb (valid_at popped_at (lease s)) then Some (stop_running (set_queue q s))
        else handle_message m (set_queue q s)
    end.

(** ** Interleaving with the transport threads *)

Inductive action :=
| act_accept (p id byte_limit : Z)
| act_transport (p : Z) (call : connection_call)
| act_push (m : control_message)
| act_world (w : W)
| act_control (now : Z) (deadline_passed : bool) (popped_at : Z).

Definition step (a : action) (s : server) : option server :=
  match a with
  | act_accept p id byte_limit =>
      Some (set_communications (set_object p (create id byte_limit) (communications s)) s)
  | act_transport p call => on_connection p (fun x => (connection_step call x).2) s
  | act_push m => Some (set_queue (push m (requests s)).2 s)
  | act_world w => Some (set_core (set_world w (server_core s)) s)
  | act_control now deadline_passed popped_at => control_step now deadline_passed popped_at s
  end.

(** What a transport thread calls; its own responses carry no state. *)
Definition transport_call (call : connection_call) : Prop :=
  match call with
  | call_reserve _ | call_release _ | call_next | call_written _ | call_begin_close => True
  | call_response _ result _ => response_payload result <> payload_state
  | _ => False
  end.

Definition message_address (m : control_message) : option Z :=
  match m with
  | request_message _ (origin_connection p _) => Some p
  | request_message _ _ => None
  | login_message p _ _ | close_message p | client_control p _ _ => p
  end.

(** The threads name live connections and create new ones at free addresses. *)
Definition may (a : action) (s : server) : Prop :=
  match a with
  | act_accept p id byte_limit =>
      objects (communications s) !! p = None /\ 0 <= byte_limit <= size_max
  | act_transport p call => is_Some (objects (communications s) !! p) /\ transport_call call
  | act_push m => forall p, message_address m = Some p -> is_Some (objects (communications s) !! p)
  | act_world _ | act_control _ _ _ => True
  end.

(** The payloads that a step added to an open connection. *)
Definition sent (x x' : connection) : list outbound_payload :=
  payload <$> drop (length (queue (outbound x))) (queue (outbound x')).

Definition history : Type := Z -> list outbound_payload.

Definition extend (h : history) (s s' : server) : history := fun p =>
  h p ++ match objects (communications s) !! p, objects (communications s') !! p with
         | Some x, Some x' => sent x x'
         | _, _ => []
         end.

(** The state after [start], with everything that was sent to each connection. *)
Inductive reachable : history -> server -> Prop :=
| reach_start : forall s,
    communications s = Registry ∅ [] -> requests s = new_request_queue ->
    resident (server_core s) = None -> project_state_value (server_core s) = unloaded ->
    reachable (fun _ => []) s
| reach_step : forall h s a s',
    reachable h s -> may a s -> step a s = Some s' -> reachable (extend h s s') s'.
End Control.
Arguments server : clear implicits.

(** ** What connections receive *)

(** A connection that changed while [l] was enqueued to it: it is closed now, or it was
    open and its queue grew by exactly [l]. *)
Record grown (l : list outbound_payload) (x x' : connection) : Prop := Grown {
  grown_ok : connection_ok x';
  grown_id : connection_id x' = connection_id x;
  grown_login : login_committed x = true -> login_committed x' = true;
  grown_queue : closing x' = false ->
    closing x = false /\
    payload <$> queue (outbound x') = (payload <$> queue (outbound x)) ++ l
}.

Lemma grown_refl x : connection_ok x -> grown [] x x.
Proof. intros. split; try done. intros. by rewrite app_nil_r. Qed.

Lemma grown_trans l m x y z : grown l x y -> grown m y z -> grown (l ++ m) x z.
Proof.
  intros [Ho1 Hi1 Hl1 Hq1] [Ho2 Hi2 Hl2 Hq2]. split; [done|congruence|auto|].
  intros Hz. destruct (Hq2 Hz) as [Hy Hm]. destruct (Hq1 Hy) as [Hx Hl].
  split; [done|]. by rewrite Hm, Hl, app_assoc.
Qed.

(** A change that leaves the channel alone. *)
Lemma grown_same x x' :
  connection_ok x' -> connection_id x' = connection_id x -> outbound x' = outbound x ->
  (login_committed x = true -> login_committed x' = true) -> closing x' = closing x ->
  grown [] x x'.
Proof. intros Ho Hi Hc Hl Hcl. split; try done. rewrite Hcl, Hc, app_nil_r. done. Qed.

Lemma grown_closed l x x' :
  connection_ok x' -> connection_id x' = connection_id x ->
  (login_committed x = true -> login_committed x' = true) -> closing x' = true -> grown l x x'.
Proof. intros Ho Hi Hl Hc. split; try done. by rewrite Hc. Qed.

Lemma enqueue_message_grown bytes p x :
  connection_ok x -> grown [p] x (enqueue_message bytes p x).2.
Proof.
  intros Hok. pose proof (enqueue_message_spec bytes p x Hok) as Hs.
  unfold enqueue_message, enqueue in *. destruct (is_closing (outbound x)) eqn:Eo.
  { simpl in *. destruct Hs as (Ho & Hse & Hl & _). by apply grown_closed. }
  destruct (_ || _).
  { simpl in *. destruct Hs as (Ho & Hse & Hl & _). by apply grown_closed. }
  simpl in *. destruct Hs as (Ho & Hse & Hl & _). split; simpl; try done.
  intros Hc. split; [done|]. by rewrite fmap_app.
Qed.

Lemma commit_login_grown name x :
  connection_ok x ->
  let (result, x') := commit_login name x in
  grown [] x x' /\ (result = login_success -> login_committed x' = true).
Proof.
  intros Hok. pose proof (login_step name x Hok) as Hs. unfold commit_login in *.
  destruct (closing x) eqn:Ec; [by split; [apply grown_refl|]|].
  destruct (login name (session x)) as [result s] eqn:El. split.
  - apply grown_same; simpl; [apply Hs| |done|by intros ->|done].
    unfold connection_id. unfold login in El. repeat case_match; by injection El as <- <-.
  - intros ->. simpl. by rewrite orb_true_r.
Qed.

Lemma begin_close_grown l x : connection_ok x -> grown l x (begin_close x).2.
Proof.
  intros Hok. pose proof (begin_close_step x Hok) as Hs.
  apply grown_closed; [apply Hs|done|done|done].
Qed.

Lemma arm_grown request x : connection_ok x -> grown [] x (arm_response_write_wait request x).
Proof. intros Hok. apply grown_same; try done. by destruct Hok. Qed.

Lemma wait_grown request x :
  connection_ok x ->
  grown [] x (match wait_response_written request true x with Some (_, x) => x | None => x end).
Proof.
  intros Hok. unfold wait_response_written. rewrite orb_true_r.
  destruct (_ =? request); [|by apply grown_refl]. apply grown_same; try done. by destruct Hok.
Qed.

Lemma teardown_grown x : connection_ok x -> grown [] x (teardown_subscriptions x).2.
Proof.
  intros [Hl Hn Hc Hs Hr]. apply grown_same; try done. split; try done. simpl. apply NoDup_nil_2.
Qed.

Lemma grown_sent l x x' : grown l x x' -> closing x' = false -> sent x x' = l.
Proof.
  intros Hg Hc. destruct (grown_queue _ _ _ Hg Hc) as [_ Hq]. unfold sent.
  rewrite fmap_drop, Hq, <- (length_fmap payload), drop_app_length. done.
Qed.

(** ** Registries *)

(** Every connection is still there, grown by what [l] lists for it. *)
Definition all_grown (l : history) (g g' : registry) : Prop :=
  forall p, match objects g !! p, objects g' !! p with
            | Some x, Some x' => grown (l p) x x'
            | None, None => True
            | _, _ => False
            end.

Definition objects_ok (g : registry) : Prop :=
  forall p x, objects g !! p = Some x -> connection_ok x.

Definition nothing : history := fun _ => [].
Definition only (p : Z) (l : list outbound_payload) : history :=
  fun q => if bool_decide (q = p) then l else [].

Lemma all_grown_refl g : objects_ok g -> all_grown nothing g g.
Proof. intros Hok p. destruct (objects g !! p) eqn:E; [|done]. by apply grown_refl, (Hok p). Qed.

Lemma all_grown_trans l m g h k :
  all_grown l g h -> all_grown m h k -> all_grown (fun p => l p ++ m p) g k.
Proof.
  intros H1 H2 p. specialize (H1 p). specialize (H2 p).
  destruct (objects g !! p), (objects h !! p), (objects k !! p); try done. by eapply grown_trans.
Qed.

Lemma all_grown_ok l g g' : all_grown l g g' -> objects_ok g'.
Proof.
  intros H p x Hx. specialize (H p). rewrite Hx in H. destruct (objects g !! p); [|done]. apply H.
Qed.

Lemma all_grown_some l g g' p :
  all_grown l g g' -> is_Some (objects g !! p) <-> is_Some (objects g' !! p).
Proof.
  intros H. specialize (H p). destruct (objects g !! p), (objects g' !! p); try done.
Qed.

Lemma all_grown_set p l x' g x :
  objects_ok g -> objects g !! p = Some x -> grown l x x' ->
  all_grown (only p l) g (set_object p x' g).
Proof.
  intros Hok Hx Hg q. unfold only. simpl. destruct (decide (q = p)) as [->|Hne].
  - by rewrite Hx, lookup_insert_eq, bool_decide_true.
  - rewrite lookup_insert_ne, bool_decide_false by done. by apply all_grown_refl.
Qed.

(** What every visited connection gets from a loop over the registered ones. *)
Lemma visit_grown f (l : connection -> list outbound_payload) g n store :
  registry_ok g -> objects_ok g ->
  (forall x, connection_ok x -> grown (l x) x (f x).2) ->
  visit f (registered g) (objects g) = Some (n, store) ->
  all_grown (fun p => if bool_decide (p ∈ registered g)
                      then match objects g !! p with Some x => l x | None => [] end else [])
    g (Registry store (registered g)).
Proof.
  intros [Hall Hnd] Hok Hf Hv p.
  destruct (visit_spec f (registered g) (objects g) Hnd Hall) as (store' & Hv' & Hin & Hout).
  rewrite Hv in Hv'. injection Hv' as _ ->. cbn [objects]. case_bool_decide as Hp.
  - rewrite Forall_forall in Hall. destruct (Hall p Hp) as [x Hx]. rewrite Hx.
    rewrite (Hin p x Hp Hx). by apply Hf, (Hok p).
  - rewrite Hout by done. destruct (objects g !! p) eqn:E; [|done]. by apply grown_refl, (Hok p).
Qed.

Record registry_inv (g : registry) : Prop := RegistryInv {
  reg_ok : registry_ok g;
  reg_ids : ids_distinct g;
  reg_logged : forall p x, p ∈ registered g -> objects g !! p = Some x -> login_committed x = true;
  reg_objects : objects_ok g
}.

Lemma registry_inv_grown l g g' :
  all_grown l g g' -> registered g' = registered g -> registry_inv g -> registry_inv g'.
Proof.
  intros Hg Hr [[Hall Hnd] Hids Hlog Hok].
  assert (forall p x', objects g' !! p = Some x' -> exists x, objects g !! p = Some x /\
    grown (l p) x x') as Hback.
  { intros p x' Hx'. specialize (Hg p). rewrite Hx' in Hg.
    destruct (objects g !! p) as [x|]; [by exists x|done]. }
  split; [split| | |by eapply all_grown_ok]; rewrite ?Hr; try done.
  - rewrite Forall_forall in Hall |- *. intros p Hp. apply (all_grown_some l g g' p Hg). by apply Hall.
  - intros p q x y. rewrite Hr. intros Hp Hq Hx Hy Heq.
    destruct (Hback p x Hx) as (x0 & Hx0 & Gx), (Hback q y Hy) as (y0 & Hy0 & Gy).
    apply (Hids p q x0 y0); try done. by rewrite <- (grown_id _ _ _ Gx), <- (grown_id _ _ _ Gy).
  - intros p x Hp Hx. destruct (Hback p x Hx) as (x0 & Hx0 & Gx).
    apply (grown_login _ _ _ Gx). by apply (Hlog p).
Qed.

(** An operation on one connection. *)
Lemma update_connection_spec p f l g :
  objects_ok g -> is_Some (objects g !! p) -> (forall x, connection_ok x -> grown l x (f x)) ->
  exists g', update_connection p f g = Some g' /\ registered g' = registered g /\
    all_grown (only p l) g g'.
Proof.
  intros Hok [x Hx] Hf. unfold update_connection. rewrite Hx. eexists. split; [done|].
  split; [done|]. eapply all_grown_set; [done|done|]. by apply Hf, (Hok p).
Qed.

Lemma publish_spec old_state new_state g :
  registry_inv g ->
  exists g', publish_server_state old_state new_state g = Some g' /\ registered g' = registered g /\
    all_grown (fun p => if bool_decide (p ∈ registered g) && bool_decide (old_state <> new_state)
                        then [server_state_action old_state new_state] else []) g g'.
Proof.
  intros [Hok Hids Hlog Hobj]. unfold publish_server_state. case_bool_decide as Heq.
  { exists g. do 2 (split; [done|]). intros p. rewrite (bool_decide_false (_ <> _)) by naive_solver.
    rewrite andb_false_r. by apply all_grown_refl. }
  set (f := fun x => if login_committed x then enqueue_server_state old_state new_state x
                     else (false, x)).
  destruct (visit_spec f (registered g) (objects g)) as (store & Hv & _); [by apply Hok|by apply Hok|].
  rewrite Hv. eexists. split; [done|]. split; [done|].
  assert (forall x, connection_ok x ->
    grown (if login_committed x then [server_state_action old_state new_state] else []) x (f x).2)
    as Hf.
  { intros x Hx. unfold f, enqueue_server_state. destruct (login_committed x); [|by apply grown_refl].
    by apply enqueue_message_grown. }
  pose proof (visit_grown f _ g _ store Hok Hobj Hf Hv) as Hgrown. intros p. specialize (Hgrown p).
  simpl in *. rewrite (bool_decide_true (_ <> _)) by done. rewrite andb_true_r.
  case_bool_decide as Hp; [|done]. destruct (objects g !! p) as [x|] eqn:Hx; [|done].
  by rewrite (Hlog p x Hp Hx) in Hgrown.
Qed.

Lemma route_spec p m g :
  registry_inv g -> is_Some (objects g !! p) ->
  exists n g' l, route_client p m g = Some (n, g') /\ registered g' = registered g /\
    all_grown l g g' /\
    forall q, Forall (fun y => exists action, y = client_action_message action) (l q).
Proof.
  intros [Hok Hids Hlog Hobj] [x Hx]. unfold route_client. rewrite Hx. destruct (_ || _).
  { exists O, g, nothing. do 2 (split; [done|]). split; [by apply all_grown_refl|by constructor]. }
  set (action := action_of (client_name (session x)) m).
  set (f := fun y => if addressed m y then enqueue_client_action action y else (false, y)).
  destruct (visit_spec f (registered g) (objects g)) as (store & Hv & _); [by apply Hok|by apply Hok|].
  fold f. rewrite Hv. eexists _, _, _. split; [done|]. split; [done|].
  assert (forall y, connection_ok y ->
    grown (if addressed m y && login_committed y then [client_action_message action] else [])
      y (f y).2) as Hf.
  { intros y Hy. unfold f, enqueue_client_action. destruct (addressed m y); [|by apply grown_refl].
    destruct (login_committed y); [|by apply grown_refl]. by apply enqueue_message_grown. }
  split; [exact (visit_grown f _ g _ store Hok Hobj Hf Hv)|].
  intros q. simpl. case_bool_decide; [|constructor]. destruct (objects g !! q); [|constructor].
  destruct (_ && _); constructor; [by eexists|constructor].
Qed.

(** ** What clients are told *)

(** The project state after a payload, for a client that keeps track. *)
Definition tell (y : outbound_payload) (t : option project_state) : option project_state :=
  match y with
  | server_state_action _ new_state => Some new_state
  | protocol_response _ r _ =>
      match response_payload r with payload_state => Some (response_state r) | _ => t end
  | _ => t
  end.

Fixpoint told (t : option project_state) (l : list outbound_payload) : option project_state :=
  match l with [] => t | y :: l => told (tell y t) l end.

(** Every announced change starts from the state the client was told before. *)
Fixpoint follows (t : option project_state) (l : list outbound_payload) : Prop :=
  match l with
  | [] => True
  | y :: l =>
      match y with server_state_action old_state _ => t = Some old_state | _ => True end
      /\ follows (tell y t) l
  end.

Lemma told_app t l m : told t (l ++ m) = told (told t l) m.
Proof. revert t. induction l as [|y l IH]; intros t; simpl; auto. Qed.

Lemma follows_app t l m : follows t (l ++ m) <-> follows t l /\ follows (told t l) m.
Proof. revert t. induction l as [|y l IH]; intros t; simpl; [tauto|]. rewrite IH. tauto. Qed.

(** Payloads that say nothing about the state. *)
Definition silent (y : outbound_payload) : Prop :=
  match y with
  | server_state_action _ _ => False
  | protocol_response _ r _ => response_payload r <> payload_state
  | _ => True
  end.

Lemma silent_told t l : Forall silent l -> told t l = t /\ follows t l.
Proof.
  induction 1 as [|y l Hy _ [IH1 IH2]]; [done|]. simpl. assert (tell y t = t) as ->.
  { destruct y as [request r release| | |]; try done. simpl in Hy |- *. by destruct (response_payload r). }
  split; [done|]. split; [by destruct y|done].
Qed.

(** ** The invariant *)

Section Invariant.
Context {P W : Type} `{!ProjectServices P W, !ProjectLaws P W}.
Implicit Types (s : server P W) (h : history).

Definition known (g : registry) (m : control_message) : Prop :=
  forall p, message_address m = Some p -> is_Some (objects g !! p).

Record server_inv h s : Prop := ServerInv {
  inv_core : consistent (server_core s);
  inv_registry : registry_inv (communications s);
  inv_queue : Forall (known (communications s)) (queued (requests s));
  inv_fresh : forall p, objects (communications s) !! p = None -> h p = [];
  inv_told : forall p x, objects (communications s) !! p = Some x -> closing x = false ->
    follows None (h p) /\
    (exists delivered, h p = delivered ++ (payload <$> queue (outbound x))) /\
    (p ∈ registered (communications s) -> told None (h p) = Some (current_project_state s))
}.

(** A step of the control thread that sends [l]; [t] is what a client was told before. *)
Record control_ok (l : history) s s' : Prop := ControlOk {
  ctl_core : consistent (server_core s');
  ctl_registry : registry_inv (communications s');
  ctl_queue : Forall (known (communications s')) (queued (requests s'));
  ctl_grown : all_grown l (communications s) (communications s');
  ctl_told : forall p x t, objects (communications s') !! p = Some x -> closing x = false ->
    (p ∈ registered (communications s) -> t = Some (current_project_state s)) ->
    follows t (l p) /\
    (p ∈ registered (communications s') -> told t (l p) = Some (current_project_state s'))
}.

Lemma control_ok_inv h s s' l :
  server_inv h s -> control_ok l s s' -> server_inv (extend h s s') s'.
Proof.
  intros [Hc Hr Hq Hf Ht] [Hc' Hr' Hq' Hg Ht']. split; try done.
  - intros p Hp. pose proof (Hg p) as Hgp. unfold extend. rewrite Hp in *.
    destruct (objects (communications s) !! p) eqn:E; [done|]. by rewrite Hf.
  - intros p x' Hx' Hcl. pose proof (Hg p) as Hgp. unfold extend. rewrite Hx' in *.
    destruct (objects (communications s) !! p) as [x|] eqn:Hx; [|done].
    rewrite (grown_sent _ _ _ Hgp Hcl).
    destruct (grown_queue _ _ _ Hgp Hcl) as [Hclx Hqueue].
    destruct (Ht p x Hx Hclx) as (Hfol & (delivered & Hdel) & Htold).
    destruct (Ht' p x' (told None (h p)) Hx' Hcl Htold) as [Hfol' Htold'].
    rewrite follows_app, told_app. split; [done|]. split; [|done].
    exists delivered. by rewrite Hdel, Hqueue, app_assoc.
Qed.

(** A step that says nothing about the state and leaves it alone. *)
Lemma control_ok_silent l s s' :
  consistent (server_core s') -> registry_inv (communications s) ->
  registered (communications s') = registered (communications s) ->
  Forall (known (communications s)) (queued (requests s')) ->
  all_grown l (communications s) (communications s') ->
  current_project_state s' = current_project_state s -> (forall p, Forall silent (l p)) ->
  control_ok l s s'.
Proof.
  intros Hc Hi Hr Hq Hg Hs Hl. split; try done.
  - by eapply registry_inv_grown.
  - eapply Forall_impl; [exact Hq|]. intros m Hm p Hp.
    apply (all_grown_some _ _ _ p Hg). by apply Hm.
  - intros p x t Hx Hcl Hreg. destruct (silent_told t (l p) (Hl p)) as [-> Hfol].
    split; [done|]. rewrite Hr, Hs. done.
Qed.

Lemma known_grown l g g' m : all_grown l g g' -> known g m -> known g' m.
Proof. intros Hg Hm p Hp. apply (all_grown_some _ _ _ p Hg). by apply Hm. Qed.

Lemma all_known_grown l g g' ms :
  all_grown l g g' -> Forall (known g) ms -> Forall (known g') ms.
Proof. intros Hg Hms. eapply Forall_impl; [exact Hms|]. intros m. by apply (known_grown l). Qed.

(** What the origin of a request receives. *)
Definition origin_gets (origin : request_origin) (r : server_response) : history :=
  match origin with
  | origin_connection p request => only p [protocol_response request r true]
  | _ => nothing
  end.

Definition origin_known (g : registry) (origin : request_origin) : Prop :=
  match origin with origin_connection p _ => is_Some (objects g !! p) | _ => True end.

(** The parts of the server that presenting does not touch. *)
Record presented (l : history) s s' : Prop := Presented {
  pre_core : server_core s' = server_core s;
  pre_queue : requests s' = requests s;
  pre_registered : registered (communications s') = registered (communications s);
  pre_grown : all_grown l (communications s) (communications s')
}.

Lemma on_connection_presented p f l s :
  objects_ok (communications s) -> is_Some (objects (communications s) !! p) ->
  (forall x, connection_ok x -> grown l x (f x)) ->
  exists s', on_connection p f s = Some s' /\ presented (only p l) s s'.
Proof.
  intros Hok Hp Hf. unfold on_connection.
  destruct (update_connection_spec p f l _ Hok Hp Hf) as (g' & -> & Hr & Hg).
  eexists. split; [done|]. by split.
Qed.

Lemma presented_refl s : objects_ok (communications s) -> presented nothing s s.
Proof. intros. split; try done. by apply all_grown_refl. Qed.

(** Steps of the answer to a request. *)
Lemma presented_trans l m s s1 s2 :
  presented l s s1 -> presented m s1 s2 -> presented (fun p => l p ++ m p) s s2.
Proof.
  intros [Hc Hq Hr Hg] [Hc' Hq' Hr' Hg']. split; try congruence. by eapply all_grown_trans.
Qed.

Lemma presented_ext l m s s' : (forall p, l p = m p) -> presented l s s' -> presented m s s'.
Proof. intros He [Hc Hq Hr Hg]. split; try done. intros p. rewrite <- He. apply Hg. Qed.

Lemma only_nil p q : only p [] q = [].
Proof. unfold only. by case_bool_decide. Qed.

Lemma arm_written_presented origin s :
  objects_ok (communications s) -> origin_known (communications s) origin ->
  exists s', arm_written origin s = Some s' /\ presented nothing s s'.
Proof.
  intros Hok Ho. destruct origin as [| |p request]; simpl in *;
    [eexists; split; [done|by apply presented_refl]..|].
  destruct (on_connection_presented p (arm_response_write_wait request) [] s Hok Ho) as (s' & Hs & Hp).
  { intros x. apply arm_grown. }
  exists s'. split; [done|]. eapply presented_ext; [|exact Hp]. apply only_nil.
Qed.

Lemma wait_written_presented origin s :
  objects_ok (communications s) -> origin_known (communications s) origin ->
  exists s', wait_written origin s = Some s' /\ presented nothing s s'.
Proof.
  intros Hok Ho. destruct origin as [| |p request]; simpl in *;
    [eexists; split; [done|by apply presented_refl]..|].
  destruct (on_connection_presented p (fun x => match wait_response_written request true x with
    | Some (_, x) => x | None => x end) [] s Hok Ho) as (s' & Hs & Hp).
  { intros x. apply wait_grown. }
  exists s'. split; [done|]. eapply presented_ext; [|exact Hp]. apply only_nil.
Qed.

Lemma present_presented origin r s :
  objects_ok (communications s) -> origin_known (communications s) origin ->
  exists s', present origin r s = Some s' /\ presented (origin_gets origin r) s s'.
Proof.
  intros Hok Ho. destruct origin as [| |p request]; simpl in *.
  1, 2: eexists; split; [done|]; split; try done; by apply all_grown_refl.
  apply on_connection_presented; [done|done|]. intros x. apply enqueue_message_grown.
Qed.

Lemma presented_objects l s s' : presented l s s' -> objects_ok (communications s').
Proof. intros [_ _ _ Hg]. by eapply all_grown_ok. Qed.

Lemma presented_known l s s' origin :
  presented l s s' -> origin_known (communications s) origin ->
  origin_known (communications s') origin.
Proof.
  intros [_ _ _ Hg]. destruct origin as [| |p request]; try done. apply (all_grown_some _ _ _ p Hg).
Qed.

(** The three calls around a response. *)
Lemma answer_presented (stops : bool) origin r s :
  objects_ok (communications s) -> origin_known (communications s) origin ->
  exists s1 s2 s3,
    (if stops then arm_written origin s else Some s) = Some s1 /\
    present origin r s1 = Some s2 /\
    (if stops then wait_written origin s2 else Some s2) = Some s3 /\
    presented (origin_gets origin r) s s3.
Proof.
  intros Hok Ho.
  assert (exists s1, (if stops then arm_written origin s else Some s) = Some s1 /\
    presented nothing s s1) as (s1 & -> & H1).
  { destruct stops; [by apply arm_written_presented|]. eexists. split; [done|by apply presented_refl]. }
  destruct (present_presented origin r s1) as (s2 & E2 & H2);
    [by eapply presented_objects|by eapply presented_known|].
  pose proof (presented_trans _ _ _ _ _ H1 H2) as H12.
  assert (exists s3, (if stops then wait_written origin s2 else Some s2) = Some s3 /\
    presented nothing s2 s3) as (s3 & E3 & H3).
  { destruct stops; [apply wait_written_presented; [by eapply presented_objects|]|].
    - by eapply presented_known.
    - eexists. split; [done|]. apply presented_refl. by eapply presented_objects. }
  exists s1, s2, s3. do 3 (split; [done|]).
  eapply presented_ext; [|exact (presented_trans _ _ _ _ _ H12 H3)].
  intros p. simpl. by rewrite app_nil_r.
Qed.

Lemma origin_gets_told origin r p t old_state new_state :
  (response_payload r = payload_state -> response_state r = new_state /\ new_state = old_state) ->
  follows t (origin_gets origin r p) /\
  (t = Some old_state -> told t (origin_gets origin r p) = Some old_state).
Proof.
  intros Hr. destruct origin as [| |q request]; simpl; [done|done|]. unfold only.
  case_bool_decide; [|done]. simpl. split; [done|]. intros ->.
  destruct (response_payload r); try done. destruct (Hr eq_refl) as [-> ->]. done.
Qed.

(** What the control thread needs to know of the server before a message. *)
Record ready s : Prop := Ready {
  ready_core : consistent (server_core s);
  ready_registry : registry_inv (communications s);
  ready_queue : Forall (known (communications s)) (queued (requests s))
}.

Lemma handle_request_ok request origin s :
  ready s -> origin_known (communications s) origin ->
  exists s' l, handle_request request origin s = Some s' /\ control_ok l s s'.
Proof.
  intros [Hc Hr Hq] Ho. unfold handle_request.
  pose proof (requests_refine (mode s) (directory s) request (server_core s) Hc) as Hm.
  cbv zeta in Hm. destruct (execute_message _ _ _ _) as [r c].
  destruct Hm as (Hc' & _ & _ & _ & _ & Hpay & _).
  set (stops := bool_decide (request_kind request = request_shutdown)).
  destruct (answer_presented stops origin r (set_core c s)) as (s1 & s2 & s3 & E1 & E2 & E3 & H3);
    [apply Hr|done|].
  rewrite E1. cbn [and_step]. rewrite E2. cbn [and_step]. rewrite E3. cbn [and_step].
  destruct H3 as [Hcore Hqueue Hreg Hgrown]. cbn in Hcore, Hqueue, Hreg, Hgrown.
  unfold publish_change.
  assert (registry_inv (communications s3)) as Hr3 by by eapply registry_inv_grown.
  set (old_state := current_project_state s). set (new_state := current_project_state s3).
  assert (new_state = project_state_value c) as Hnew
    by (unfold new_state, current_project_state; by rewrite Hcore).
  destruct (publish_spec old_state new_state _ Hr3) as (g & -> & Hgr & Hpub).
  pose proof (all_grown_trans _ _ _ _ _ Hgrown Hpub) as Hall. simpl in Hall.
  eexists _, _. split; [done|]. split; cbn; [by rewrite Hcore| | |exact Hall|].
  - exact (registry_inv_grown _ _ _ Hpub Hgr Hr3).
  - rewrite Hqueue. exact (all_known_grown _ _ _ _ Hall Hq).
  - intros p x t Hx Hcl Ht. cbn. rewrite Hgr, Hreg. unfold current_project_state. cbn.
    rewrite Hcore, <- Hnew. fold old_state in Ht.
    destruct (origin_gets_told origin r p t old_state new_state) as [Hf Htold];
      [by rewrite Hnew|].
    rewrite follows_app, told_app.
    destruct (decide (p ∈ registered (communications s))) as [Hp|Hp].
    + rewrite (bool_decide_true (p ∈ _)) by done. rewrite (Htold (Ht Hp)). cbn [andb].
      case_bool_decide as Hne; simpl; [done|]. split; [done|]. intros _.
      destruct (decide (old_state = new_state)) as [<-|Hd]; [done|by destruct Hne].
    + by rewrite (bool_decide_false (p ∈ _)) by done.
Qed.

Lemma all_grown_objects l g g' k :
  all_grown l g g' -> objects k = objects g' -> all_grown l g k.
Proof. intros Hg Hh p. rewrite Hh. apply Hg. Qed.

Lemma all_grown_ext l m g g' : (forall p, l p = m p) -> all_grown l g g' -> all_grown m g g'.
Proof. intros He Hg p. rewrite <- He. apply Hg. Qed.

Lemma only_app p l m q : only p l q ++ only p m q = only p (l ++ m) q.
Proof. unfold only. by case_bool_decide. Qed.

Lemma execute_login_ok p request name s :
  ready s -> is_Some (objects (communications s) !! p) ->
  exists s' l, execute_login p request name s = Some s' /\ control_ok l s s'.
Proof.
  intros [Hc Hr Hq] [x Hx]. unfold execute_login. cbn [next_operation]. cbn.
  rewrite Hx. pose proof (reg_objects _ Hr p x Hx) as Hxok.
  pose proof (commit_login_grown name x Hxok) as Hlogin.
  destruct (commit_login name x) as [result x1]. destruct Hlogin as [Hg1 Hsuc].
  set (g1 := set_object p x1 (communications s)).
  assert (all_grown (only p []) (communications s) g1) as Hall1
    by (eapply all_grown_set; [apply Hr|done|done]).
  assert (registry_inv g1) as Hr1 by by eapply registry_inv_grown.
  assert (objects g1 !! p = Some x1) as Hx1 by apply lookup_insert_eq.
  assert (exists ok g2,
    (if bool_decide (result = login_success) then register_connection p g1 else Some (false, g1))
      = Some (ok, g2) /\ registry_inv g2 /\ objects g2 = objects g1 /\
    registered g2 = registered g1 ++ (if ok then [p] else [])) as (ok & g2 & -> & Hr2 & Ho2 & Hreg2).
  { case_bool_decide as Hres; [|exists false, g1; by rewrite app_nil_r].
    destruct (register_connection_spec g1 p x1) as (ok & g2 & ? & Hok2 & Hids2 & Ho2 & Hreg2 & _);
      [apply Hr1|apply Hr1|done|].
    exists ok, g2. split; [done|]. split; [|done]. split; try done.
    - intros q y Hqr. rewrite Ho2. rewrite Hreg2 in Hqr. intros Hy.
      apply elem_of_app in Hqr as [Hqr|Hqr]; [by apply (reg_logged _ Hr1 q)|].
      destruct ok; [|by apply elem_of_nil in Hqr]. apply list_elem_of_singleton in Hqr as ->.
      rewrite Hx1 in Hy. injection Hy as <-. by apply Hsuc.
    - intros q y. rewrite Ho2. apply Hr1. }
  set (answer := if ok then _ else _).
  pose proof (all_grown_objects _ _ _ g2 Hall1 Ho2) as Hall2.
  unfold on_connection. cbn.
  destruct (update_connection_spec p (fun x => (enqueue_response request answer true x).2)
    [protocol_response request answer true] g2) as (g3 & -> & Hreg3 & Hall3).
  { apply Hr2. } { rewrite Ho2, Hx1. by eexists. } { intros y. apply enqueue_message_grown. }
  pose proof (all_grown_trans _ _ _ _ _ Hall2 Hall3) as Hall.
  apply (all_grown_ext _ (only p [protocol_response request answer true])) in Hall;
    [|intros q; apply only_app].
  eexists _, _. split; [done|]. split; cbn; [done| | |exact Hall|].
  - exact (registry_inv_grown _ _ _ Hall3 Hreg3 Hr2).
  - exact (all_known_grown _ _ _ _ Hall Hq).
  - intros q y t Hy Hcl Ht. rewrite Hreg3, Hreg2, elem_of_app. unfold only.
    case_bool_decide as Hqp.
    + subst q. simpl. split; [done|]. subst answer. destruct ok; simpl; [done|].
      intros [Hp|Hp]; [by apply Ht|by apply elem_of_nil in Hp].
    + simpl. split; [done|]. intros [Hp|Hp]; [by apply Ht|].
      destruct ok; [by apply list_elem_of_singleton in Hp|by apply elem_of_nil in Hp].
Qed.

Lemma execute_client_ok p request message s :
  ready s -> is_Some (objects (communications s) !! p) ->
  exists s' l, execute_client p request message s = Some s' /\ control_ok l s s'.
Proof.
  intros [Hc Hr Hq] Hp. pose proof Hp as [x Hx]. unfold execute_client. cbn. rewrite Hx.
  assert (forall operation status s0, server_core s0 = (next_operation (server_core s)).2 ->
    requests s0 = requests s -> registered (communications s0) = registered (communications s) ->
    forall l, all_grown l (communications s) (communications s0) -> (forall q, Forall silent (l q)) ->
    exists s' l, on_connection p (fun x => (enqueue_response request
      (status_response operation status empty_collection) true x).2) s0 = Some s' /\
      control_ok l s s') as Hanswer.
  { intros operation status s0 Hcore Hqueue Hreg l Hl Hsilent.
    destruct (on_connection_presented p (fun x => (enqueue_response request
      (status_response operation status empty_collection) true x).2)
      [protocol_response request (status_response operation status empty_collection) true] s0)
      as (s' & -> & Hs').
    { by eapply all_grown_ok. } { by apply (all_grown_some _ _ _ p Hl). }
    { intros y. apply enqueue_message_grown. }
    destruct Hs' as [Hc' Hq' Hr' Hg']. eexists _, _. split; [done|].
    apply (control_ok_silent (fun q => l q ++ only p [protocol_response request
      (status_response operation status empty_collection) true] q)).
    - rewrite Hc', Hcore. done.
    - done.
    - congruence.
    - by rewrite Hq', Hqueue.
    - by eapply all_grown_trans.
    - unfold current_project_state. by rewrite Hc', Hcore.
    - intros q. apply Forall_app. split; [done|]. unfold only. case_bool_decide; by repeat constructor. }
  destruct (_ || _).
  - apply (Hanswer _ _ (set_core (next_operation (server_core s)).2 s) eq_refl eq_refl eq_refl nothing);
      [by apply all_grown_refl, Hr|by constructor].
  - destruct (route_spec p message (communications s) Hr Hp) as (n & g' & l & -> & Hreg & Hl & Hact).
    apply (Hanswer _ _ (set_communications g' (set_core (next_operation (server_core s)).2 s))
      eq_refl eq_refl Hreg l); [done|].
    intros q. eapply Forall_impl; [apply Hact|]. by intros y [action ->].
Qed.

Lemma execute_connection_close_ok p s :
  ready s -> is_Some (objects (communications s) !! p) ->
  exists s' l, execute_connection_close p s = Some s' /\ control_ok l s s'.
Proof.
  intros [Hc Hr Hq] [x Hx]. unfold execute_connection_close. rewrite Hx.
  pose proof (reg_objects _ Hr p x Hx) as Hxok.
  set (g1 := set_object p (begin_close x).2 (communications s)).
  assert (all_grown (only p []) (communications s) g1) as Hall1
    by (eapply all_grown_set; [apply Hr|done|by apply begin_close_grown]).
  assert (registry_inv g1) as Hr1 by by eapply registry_inv_grown.
  destruct (unregister_connection_spec g1 (connection_id x) (reg_ok _ Hr1) (reg_ids _ Hr1))
    as (gone & g2 & -> & Hok2 & Hids2 & Hnone & Hsome).
  assert (all_grown nothing g1 g2) as Hall2.
  { intros q. destruct (objects g1 !! q) as [y|] eqn:Hy; [|by rewrite (Hnone q Hy)].
    pose proof (reg_objects _ Hr1 q y Hy) as Hyok. specialize (Hsome q y Hy).
    destruct (_ && _); [destruct Hsome as (_ & -> & _)|destruct Hsome as (_ & ->)].
    - by apply teardown_grown.
    - by apply grown_refl. }
  assert (forall q, q ∈ registered g2 -> q ∈ registered (communications s)) as Hsub.
  { intros q Hq2. destruct (objects g1 !! q) as [y|] eqn:Hy.
    - specialize (Hsome q y Hy). destruct (_ && _); [by destruct Hsome|].
      destruct Hsome as [Hiff _]. by apply Hiff in Hq2.
    - destruct Hok2 as [Hf _]. rewrite Forall_forall in Hf. destruct (Hf q Hq2) as [? Hz].
      by rewrite (Hnone q Hy) in Hz. }
  pose proof (all_grown_trans _ _ _ _ _ Hall1 Hall2) as Hall.
  apply (all_grown_ext _ nothing) in Hall.
  2: { intros q. by rewrite only_nil. }
  eexists _, nothing. split; [done|]. split; cbn; [done| | |done|].
  - split; [done|done| |by eapply all_grown_ok]. intros q y Hq2 Hy.
    specialize (Hall q). rewrite Hy in Hall.
    destruct (objects (communications s) !! q) as [y0|] eqn:Hy0; [|done].
    apply (grown_login _ _ _ Hall). by apply (reg_logged _ Hr q y0); [apply Hsub|].
  - exact (all_known_grown _ _ _ _ Hall Hq).
  - intros q y t Hy Hcl Ht. split; [done|]. intros Hq2. by apply Ht, Hsub.
Qed.

Lemma handle_message_ok m s :
  ready s -> known (communications s) m ->
  exists s' l, handle_message m s = Some s' /\ control_ok l s s'.
Proof.
  intros Hr Hm.
  assert (exists s' l, Some s = Some s' /\ control_ok l s s') as Hnone.
  { exists s, nothing. split; [done|]. apply control_ok_silent; try apply Hr; try done.
    by apply all_grown_refl, Hr. }
  destruct m as [request origin|[p|] request name|[p|]|[p|] request message]; cbn [handle_message];
    try exact Hnone.
  - apply handle_request_ok; [done|]. destruct origin; try done. by apply Hm.
  - apply execute_login_ok; [done|]. by apply Hm.
  - apply execute_connection_close_ok; [done|]. by apply Hm.
  - apply execute_client_ok; [done|]. by apply Hm.
Qed.

Lemma wait_pop_until_spec passed (q : request_queue control_message) r q' :
  wait_pop_until passed q = Some (r, q') ->
  queued q = match r with Some m => [m] | None => [] end ++ queued q'.
Proof.
  unfold wait_pop_until. destruct (queued q) as [|m rest] eqn:E.
  - destruct (_ && _); [done|]. by intros [= <- <-].
  - by intros [= <- <-].
Qed.

(** What is left when [run] returned. *)
Record closed_down (g : registry) s : Prop := ClosedDown {
  down_project : resident (server_core s) = None;
  down_state : current_project_state s = unloaded;
  down_registered : registered (communications s) = [];
  down_queue : accepting (requests s) = false /\ queued (requests s) = [];
  down_closed : forall p x, p ∈ registered g -> objects g !! p = Some x ->
    exists x', objects (communications s) !! p = Some x' /\ closing x' = true
}.

Lemma return_from_run_ok s :
  ready s ->
  exists s', return_from_run s = Some s' /\ control_ok nothing s s' /\ returned s' = true /\
    closed_down (communications s) s'.
Proof.
  intros [Hc Hr Hq]. unfold return_from_run, shutdown, stop_connections.
  set (f := fun x => (true, (teardown_subscriptions (begin_close x).2).2)).
  destruct (visit_spec f (registered (communications s)) (objects (communications s)))
    as (store & Hv & Hin & _); [by apply Hr|by apply Hr|].
  rewrite Hv. eexists. split; [done|].
  assert (forall x, connection_ok x -> grown [] x (f x).2) as Hf.
  { intros x Hx. apply (grown_trans [] [] _ (begin_close x).2); [by apply begin_close_grown|].
    apply teardown_grown. by eapply grown_ok, (begin_close_grown []). }
  pose proof (visit_grown f (fun _ => []) _ _ store (reg_ok _ Hr) (reg_objects _ Hr) Hf Hv) as Hall.
  apply (all_grown_ext _ nothing) in Hall.
  2: { intros p. case_bool_decide; [by destruct (objects _ !! p)|done]. }
  apply (all_grown_objects _ _ _ (Registry store [])) in Hall; [|done].
  split; [|split; [done|split; try done; cbn]].
  - split; cbn; [done| |constructor|done|].
    + split; [by split; [constructor|apply NoDup_nil_2]| |by intros p x Hp; apply elem_of_nil in Hp
             |by eapply all_grown_ok].
      intros p q x y Hp. by apply elem_of_nil in Hp.
    + intros p x t _ _ _. split; [done|]. intros Hp. by apply elem_of_nil in Hp.
  - intros p x Hp Hx. exists (f x).2. split; [by apply Hin|done].
Qed.

Lemma server_inv_ready h s : server_inv h s -> ready s.
Proof. by intros [? ? ? ? ?]. Qed.

Lemma quiet_control_ok s s' :
  ready s -> server_core s' = server_core s \/ server_core s' = set_running false (server_core s) ->
  communications s' = communications s ->
  Forall (known (communications s)) (queued (requests s')) ->
  control_ok nothing s s'.
Proof.
  intros [Hc Hr Hq] Hcore Hcomm Hqueue.
  apply control_ok_silent; rewrite ?Hcomm; try done; try by apply all_grown_refl, Hr.
  - by destruct Hcore as [-> | ->].
  - unfold current_project_state. by destruct Hcore as [-> | ->].
Qed.

Lemma control_step_ok now passed popped_at h s :
  server_inv h s ->
  exists s', control_step now passed popped_at s = Some s' /\ server_inv (extend h s s') s'.
Proof.
  intros Hi. pose proof (server_inv_ready _ _ Hi) as Hready.
  assert (exists s' l, control_step now passed popped_at s = Some s' /\ control_ok l s s')
    as (s' & l & Hs & Hok).
  2: { exists s'. split; [done|]. by eapply control_ok_inv. }
  unfold control_step. destruct (returned s).
  { exists s, nothing. split; [done|]. apply quiet_control_ok; auto. by apply Hready. }
  destruct (negb (running _)).
  { destruct (return_from_run_ok s Hready) as (s' & ? & ? & _). by exists s', nothing. }
  destruct (negb (valid_at _ _)).
  { eexists _, nothing. split; [done|]. apply quiet_control_ok; auto. by apply Hready. }
  destruct (wait_pop_until passed (requests s)) as [[[m|] q]|] eqn:Ew.
  - apply wait_pop_until_spec in Ew. pose proof (ready_queue _ Hready) as Hq. rewrite Ew in Hq.
    simpl in Hq. apply Forall_cons in Hq as [Hm Hq].
    destruct (negb (valid_at _ _)).
    { eexists _, nothing. split; [done|]. apply quiet_control_ok; auto. }
    destruct (handle_message_ok m (set_queue q s)) as (s' & l & Hs & [? ? ? ? Ht]); [|done|].
    { destruct Hready. by split. }
    exists s', l. split; [done|]. by split.
  - apply wait_pop_until_spec in Ew. simpl in Ew. eexists _, nothing. split; [done|].
    apply quiet_control_ok; auto. simpl. rewrite <- Ew. by apply Hready.
  - exists s, nothing. split; [done|]. apply quiet_control_ok; auto. by apply Hready.
Qed.

(** ** Transport threads *)

(** A call of a transport thread takes payloads from the front of the queue or adds
    silent ones. *)
Definition transported x x' : Prop :=
  connection_ok x' /\ connection_id x' = connection_id x /\
  login_committed x' = login_committed x /\
  (closing x' = false -> closing x = false /\ Forall silent (sent x x') /\
     exists gone rest, payload <$> queue (outbound x) = gone ++ rest /\
       payload <$> queue (outbound x') = rest ++ sent x x').

Lemma sent_same_queue x x' : queue (outbound x') = queue (outbound x) -> sent x x' = [].
Proof. intros Hq. unfold sent. by rewrite Hq, drop_all. Qed.

Lemma transported_same x x' :
  connection_ok x' -> connection_id x' = connection_id x ->
  login_committed x' = login_committed x -> closing x' = closing x ->
  queue (outbound x') = queue (outbound x) -> transported x x'.
Proof.
  intros Ho Hi Hl Hc Hq. split; [done|]. split; [done|]. split; [done|]. intros Hcl.
  rewrite (sent_same_queue _ _ Hq), Hq. split; [congruence|]. split; [constructor|].
  exists [], (payload <$> queue (outbound x)). by rewrite app_nil_r.
Qed.

Lemma transported_grown l x x' :
  grown l x x' -> Forall silent l -> login_committed x' = login_committed x -> transported x x'.
Proof.
  intros Hg Hl Hlog. split; [apply Hg|]. split; [apply Hg|]. split; [done|]. intros Hc.
  rewrite (grown_sent _ _ _ Hg Hc). destruct (grown_queue _ _ _ Hg Hc) as [? ?].
  split; [done|]. split; [done|]. by exists [], (payload <$> queue (outbound x)).
Qed.

Lemma released_by_fields w x :
  connection_id (released_by w x) = connection_id x /\
  login_committed (released_by w x) = login_committed x /\
  closing (released_by w x) = closing x /\ outbound (released_by w x) = outbound x.
Proof.
  unfold released_by, release_request. destruct (payload (written_message w)) as [r ? []| | |];
    try done. by destruct (r =? 0).
Qed.

Lemma try_next_transported x : connection_ok x -> transported x (connection_try_next x).2.
Proof.
  intros Hok. pose proof (connection_step_ok call_next x Hok) as Hs. cbn [connection_step] in Hs.
  destruct (connection_try_next x) as [w x'] eqn:E. pose proof (step_keeps _ _ _ Hs) as Hok'.
  unfold connection_try_next, try_next in E. cbn [snd].
  destruct (is_closing (outbound x)) eqn:Ec; [injection E as <- <-; by apply transported_same|].
  destruct (queue (outbound x)) as [|m q] eqn:Eq; [injection E as <- <-; by apply transported_same|].
  injection E as <- <-. destruct (released_by_fields (Write (next_sequence (outbound x)) m)
    (set_outbound (Channel (limit (outbound x)) q (u64 (bytes (outbound x) - estimated_bytes m))
      false (u64 (next_sequence (outbound x) + 1)) (last_written (outbound x))) x))
    as (Hi & Hl & Hc & Hout).
  split; [done|]. split; [by rewrite Hi|]. split; [by rewrite Hl|]. rewrite Hc. intros Hcl.
  split; [done|]. unfold sent. rewrite Hout, Eq. simpl.
  rewrite drop_ge by lia. split; [constructor|]. exists [payload m], (payload <$> q).
  by rewrite app_nil_r.
Qed.

Lemma transport_step_ok call x :
  connection_ok x -> transport_call call -> transported x (connection_step call x).2.
Proof.
  intros Hok Hcall. assert (connection_ok (connection_step call x).2) as Hok'.
  { pose proof (connection_step_ok call x Hok) as Hs. destruct (connection_step call x). apply Hs. }
  destruct call; try done; cbn [connection_step] in *.
  - unfold reserve_request in *. destruct (_ || _); [by apply transported_same|].
    case_bool_decide; by apply transported_same.
  - unfold release_request in *. destruct (request =? 0); by apply transported_same.
  - unfold enqueue_response in *.
    pose proof (enqueue_message_grown (estimate_response_bytes result)
      (protocol_response request result release) x Hok) as Hg.
    pose proof (enqueue_message_spec (estimate_response_bytes result)
      (protocol_response request result release) x Hok) as Hs.
    destruct (enqueue_message _ _ x) as [ok x']. simpl in *.
    apply (transported_grown _ _ _ Hg); [by repeat constructor|apply Hs].
  - pose proof (try_next_transported x Hok). by destruct (connection_try_next x).
  - unfold connection_mark_written in *. simpl in *.
    assert (forall c : channel outbound_payload, queue (mark_written (connection_sequence w) c) = queue c)
      as Hq by (intros c; unfold mark_written; by destruct (_ <? _)).
    destruct (payload (written_message w)); try destruct (_ =? _);
      apply transported_same; try done; apply Hq.
Qed.

Lemma sent_refl x : sent x x = [].
Proof. by apply sent_same_queue. Qed.

(** Steps that leave the connections alone. *)
Lemma extend_same h s s' p :
  objects (communications s') !! p = objects (communications s) !! p -> extend h s s' p = h p.
Proof.
  intros Hp. unfold extend. rewrite Hp. destruct (objects (communications s) !! p); [|apply app_nil_r].
  by rewrite sent_refl, app_nil_r.
Qed.

(** A new connection at a free address. *)
Lemma accept_inv h s p id byte_limit :
  let s' := set_communications (set_object p (create id byte_limit) (communications s)) s in
  server_inv h s -> objects (communications s) !! p = None -> server_inv (extend h s s') s'.
Proof.
  cbv zeta.
  intros Hi Hnew. destruct Hi as [Hc [[Hall Hnd] Hids Hlog Hok] Hq Hf Ht].
  assert (forall q, q <> p -> extend h s (set_communications
    (set_object p (create id byte_limit) (communications s)) s) q = h q) as Hsame
    by (intros q Hne; apply extend_same; simpl; by apply lookup_insert_ne).
  assert (p ∉ registered (communications s)) as Hp.
  { intros Hp. rewrite Forall_forall in Hall. destruct (Hall p Hp). congruence. }
  assert (forall q, is_Some (objects (communications s) !! q) ->
    is_Some (objects (set_object p (create id byte_limit) (communications s)) !! q)) as Hsome.
  { intros q Hq'. simpl. destruct (decide (q = p)) as [->|Hne];
      [rewrite lookup_insert_eq; by eexists|by rewrite lookup_insert_ne by done]. }
  split; cbn; [done| | | |].
  + split; [split; [|done]|..]; cbn.
    * eapply Forall_impl; [exact Hall|]. intros q. apply Hsome.
    * intros q r x y Hqr Hrr. cbn. rewrite !lookup_insert_ne by (intros ->; done). by apply Hids.
    * intros q x Hqr. cbn. rewrite lookup_insert_ne by (intros ->; done). by apply Hlog.
    * intros q x. cbn. destruct (decide (q = p)) as [->|Hne].
      -- rewrite lookup_insert_eq. intros [= <-]. apply create_ok.
      -- rewrite lookup_insert_ne by done. apply Hok.
  + eapply Forall_impl; [exact Hq|]. intros m Hm q Hmq. by apply Hsome, Hm.
  + intros q. destruct (decide (q = p)) as [->|Hne]; [by rewrite lookup_insert_eq|].
    rewrite lookup_insert_ne by done. rewrite Hsame by done. apply Hf.
  + intros q x. destruct (decide (q = p)) as [->|Hne].
    * rewrite lookup_insert_eq. intros [= <-] _. unfold extend. rewrite Hnew, app_nil_r, (Hf p Hnew).
      split; [done|]. split; [by exists []|done].
    * rewrite lookup_insert_ne by done. rewrite Hsame by done. apply Ht.
Qed.

Lemma transport_inv h s p x call :
  let s' := set_communications (set_object p (connection_step call x).2 (communications s)) s in
  server_inv h s -> objects (communications s) !! p = Some x -> transport_call call ->
  server_inv (extend h s s') s'.
Proof.
  cbv zeta.
  intros Hi Hx Hcall. destruct Hi as [Hc [[Hall Hnd] Hids Hlog Hok] Hq Hf Ht].
  set (x' := (connection_step call x).2) in *. set (g' := set_object p x' (communications s)).
  destruct (transport_step_ok call x (Hok p x Hx) Hcall) as (Hok' & Hid & Hl & Hqueue). fold x' in Hok', Hid, Hl, Hqueue.
  assert (forall q, q <> p -> objects g' !! q = objects (communications s) !! q) as Hne
    by (intros q Hne; simpl; by apply lookup_insert_ne).
  assert (objects g' !! p = Some x') as Hxp by apply lookup_insert_eq.
  assert (forall q, is_Some (objects (communications s) !! q) -> is_Some (objects g' !! q)) as Hsome.
  { intros q Hq'. destruct (decide (q = p)) as [->|]; [rewrite Hxp; by eexists|by rewrite Hne]. }
  assert (forall q y', objects g' !! q = Some y' -> exists y, objects (communications s) !! q = Some y /\
    connection_id y' = connection_id y /\ login_committed y' = login_committed y) as Hback.
  { intros q y'. destruct (decide (q = p)) as [->|]; [rewrite Hxp; intros [= <-]; by exists x|].
    rewrite Hne by done. intros Hy. by exists y'. }
  split; cbn [server_core communications requests set_communications]; [done| | | |].
  + split; [split; [|done]|..]; cbn [registered set_object].
    * eapply Forall_impl; [exact Hall|]. intros q. apply Hsome.
    * intros q r y z Hqr Hrr Hy Hz Heq. destruct (Hback q y Hy) as (y0 & Hy0 & Hiy & _).
      destruct (Hback r z Hz) as (z0 & Hz0 & Hiz & _). eapply Hids; try done. congruence.
    * intros q y Hqr Hy. destruct (Hback q y Hy) as (y0 & Hy0 & _ & ->). by eapply Hlog.
    * intros q y. destruct (decide (q = p)) as [->|]; [rewrite Hxp; by intros [= <-]|].
      rewrite Hne by done. apply Hok.
  + eapply Forall_impl; [exact Hq|]. intros m Hm q Hmq. by apply Hsome, Hm.
  + intros q Hq'. destruct (decide (q = p)) as [->|]; [congruence|].
    rewrite extend_same by (by apply Hne). apply Hf. by rewrite <- Hne.
  + intros q y. destruct (decide (q = p)) as [->|].
    * rewrite Hxp. intros [= <-] Hcl. destruct (Hqueue Hcl) as (Hclx & Hsil & gone & rest & Hqx & Hqx').
      destruct (Ht p x Hx Hclx) as (Hfol & (delivered & Hdel) & Htold).
      unfold extend. cbn [communications set_communications]. rewrite Hx. fold g'. rewrite Hxp.
      destruct (silent_told (told None (h p)) (sent x x') Hsil) as [Hsame Hfol'].
      rewrite follows_app, told_app, Hsame. split; [done|]. split; [|done].
      exists (delivered ++ gone). by rewrite Hdel, Hqx, Hqx', !app_assoc.
    * rewrite Hne by done. rewrite extend_same by (by apply Hne). apply Ht.
Qed.

Lemma step_inv a h s s' :
  server_inv h s -> may a s -> step a s = Some s' -> server_inv (extend h s s') s'.
Proof.
  intros Hi Hmay Hstep. destruct a as [p id byte_limit|p call|m|w|now passed popped_at];
    cbn [step may] in *.
  - injection Hstep as <-. by apply accept_inv, Hmay.
  - unfold on_connection, update_connection in Hstep. destruct Hmay as [[x Hx] Hcall].
    rewrite Hx in Hstep. injection Hstep as <-. by apply transport_inv.
  - injection Hstep as <-. destruct Hi as [Hc Hr Hq Hf Ht].
    split; cbn [server_core communications requests set_queue]; [done|done| | |].
    + unfold push. destruct (negb _); [done|]. simpl. apply Forall_app. by repeat constructor.
    + intros p Hp. rewrite extend_same by done. by apply Hf.
    + intros p x Hx Hcl. rewrite extend_same by done. by apply Ht.
  - injection Hstep as <-. destruct Hi as [Hc Hr Hq Hf Ht].
    split; cbn [server_core communications requests set_core]; [done|done|done| |].
    + intros p Hp. rewrite extend_same by done. by apply Hf.
    + intros p x Hx Hcl. rewrite extend_same by done. by apply Ht.
  - destruct (control_step_ok now passed popped_at h s Hi) as (s2 & Hs2 & Hi2). congruence.
Qed.

Lemma server_reachable_inv h s : reachable h s -> server_inv h s.
Proof.
  induction 1 as [s Hg Hq Hp Hs|h s a s' Hr IH Hmay Hstep]; [|by eapply step_inv].
  split; rewrite ?Hg, ?Hq; [by split| |constructor|done|].
  - split; [split; [constructor|apply NoDup_nil_2]|..]; cbn.
    + intros p q x y Hpr. by apply elem_of_nil in Hpr.
    + intros p x Hpr. by apply elem_of_nil in Hpr.
    + intros p x Hx. cbn in Hx. by rewrite lookup_empty in Hx.
  - intros p x Hx. cbn in Hx. by rewrite lookup_empty in Hx.
Qed.

(** C13: Every client can keep track of the project state.  In any interleaving of the
    control thread with transport threads, what was sent to a registered connection
    that is still open - what it received, followed by what is queued - announces
    the changes of the project state one by one, each from the state told before,
    and ends with the current state: no change is lost, repeated or reordered. *)
Theorem clients_track_state (h : history) (s : server P W) (p : Z) (x : connection) :
  reachable h s -> p ∈ registered (communications s) ->
  objects (communications s) !! p = Some x -> closing x = false ->
  follows None (h p) /\
  (exists received, h p = received ++ (payload <$> queue (outbound x))) /\
  told None (h p) = Some (current_project_state s).
Proof.
  intros Hr Hp Hx Hc. destruct (inv_told _ _ (server_reachable_inv h s Hr) p x Hx Hc) as (? & ? & ?).
  by split_and!; auto.
Qed.

End Invariant.

(** ** A run of a small server *)

Definition start_lease : server_lease := ServerLease (str "lease") 0 1000 4 true.

Definition started : server Z Z :=
  Server (Core true unloaded None 1 0) (Registry ∅ []) new_request_queue full start_lease [] [] false.

Definition load_request : server_request := ServerRequest request_load (str "p") [] 0 0.

(** A client logs in, a project is loaded and run, and the client takes a message. *)
Definition example_actions : list (action (W := Z)) :=
  [act_accept 1 7 100000; act_push (login_message (Some 1) 1 (str "ann")); act_control 1 false 1;
   act_push (request_message load_request origin_console); act_control 2 false 2;
   act_transport 1 call_next;
   act_push (request_message run_request (origin_connection 1 2)); act_control 3 false 3].

Fixpoint run_actions (l : list (action (W := Z))) (h : history) (s : server Z Z)
  : option (history * server Z Z) :=
  match l with
  | [] => Some (h, s)
  | a :: l =>
      match @step Z Z example_services a s with
      | None => None
      | Some s' => run_actions l (extend h s s') s'
      end
  end.

Definition example_server : server Z Z :=
  match run_actions example_actions (fun _ => []) started with Some (_, s) => s | None => started end.

Definition example_history : history :=
  match run_actions example_actions (fun _ => []) started with Some (h, _) => h | None => fun _ => [] end.

(** A sufficient test of [may]. *)
Definition alive (g : registry) (p : Z) : bool := bool_decide (is_Some (objects g !! p)).

Definition may_check (a : action (W := Z)) (s : server Z Z) : bool :=
  match a with
  | act_accept p id byte_limit =>
      negb (alive (communications s) p) && (0 <=? byte_limit) && (byte_limit <=? size_max)
  | act_transport p call =>
      alive (communications s) p && match call with call_next => true | _ => false end
  | act_push m => match message_address m with
                  | Some p => alive (communications s) p | None => true end
  | act_world _ | act_control _ _ _ => true
  end.

Lemma may_check_spec a s : may_check a s = true -> may a s.
Proof.
  destruct a as [p id byte_limit|p call|m|w|now passed popped_at]; cbn [may_check may]; try done;
    intros H; unbool; unfold alive in *; unbool.
  - split; [by apply eq_None_not_Some|lia].
  - split; [done|]. by destruct call.
  - intros p Hp. rewrite Hp in H. by apply bool_decide_eq_true in H.
Qed.

Fixpoint all_may (l : list (action (W := Z))) (s : server Z Z) : bool :=
  match l with
  | [] => true
  | a :: l =>
      may_check a s &&
      match @step Z Z example_services a s with None => true | Some s' => all_may l s' end
  end.

Lemma run_actions_reachable l h s h' s' :
  @reachable Z Z example_services h s -> all_may l s = true -> run_actions l h s = Some (h', s') ->
  @reachable Z Z example_services h' s'.
Proof.
  revert h s. induction l as [|a l IH]; intros h s Hr Hmay Hrun; cbn [run_actions all_may] in *.
  { by injection Hrun as <- <-. }
  apply andb_true_iff in Hmay as [Hmay Hrest]. destruct (step a s) as [s1|] eqn:Es; [|done].
  apply (IH _ _ (reach_step _ _ _ _ Hr (may_check_spec _ _ Hmay) Es) Hrest Hrun).
Qed.

Lemma example_reachable : @reachable Z Z example_services example_history example_server.
Proof.
  apply (run_actions_reachable example_actions (fun _ => []) started).
  - by apply reach_start.
  - vm_compute. reflexivity.
  - vm_compute. reflexivity.
Qed.

Definition example_client : connection :=
  match objects (communications example_server) !! 1 with Some x => x | None => create 0 0 end.

Example example_told :
  told None (example_history 1) = Some run_state /\
  length (example_history 1) = 4%nat /\ current_project_state example_server = run_state.
Proof. vm_compute. done. Qed.

Lemma clients_track_state_witness :
  follows None (example_history 1) /\
  (exists received, example_history 1 =
     received ++ (payload <$> queue (outbound example_client))) /\
  told None (example_history 1) = Some (current_project_state example_server).
Proof.
  apply (@clients_track_state Z Z example_services example_laws example_history example_server 1
    example_client); [apply example_reachable| |vm_compute; reflexivity|vm_compute; reflexivity].
  apply (bool_decide_unpack _). vm_compute. done.
Defined.

