(* ===== verification/Base64.v ===== *)
(** Base64 as the JSON protocol uses it for binary parameters
    (communication/protocol/json_protocol.cpp: [base64_value], [decode_base64] and
    [append_base64]), and the theorem that the decoder accepts exactly what the
    encoder writes. *)

From S2P Require Import Prelude JsonText.

Local Open Scope Z_scope.

(** ** The code *)

Definition base64_value (value : byte) : Z :=
  if (bz "A"%byte <=? bz value) && (bz value <=? bz "Z"%byte) then bz value - bz "A"%byte
  else if (bz "a"%byte <=? bz value) && (bz value <=? bz "z"%byte)
  then bz value - bz "a"%byte + 26
  else if (bz "0"%byte <=? bz value) && (bz value <=? bz "9"%byte)
  then bz value - bz "0"%byte + 52
  else if is_char value "+" then 62
  else if is_char value "/" then 63
  else -1.

(** The loop of [decode_base64] over an input whose size is a multiple of four; the
    output of a rejected input is the part decoded before. *)
Fixpoint decode_quads (input output : list byte) : bool * list byte :=
  match input with
  | c0 :: c1 :: c2 :: c3 :: rest =>
      let last := bool_decide (rest = []) in
      let v0 := base64_value c0 in
      let v1 := base64_value c1 in
      if (v0 <? 0) || (v1 <? 0) then (false, output)
      else
        let pad2 := is_char c2 "=" in
        let pad3 := is_char c3 "=" in
        if pad2 && negb pad3 then (false, output)
        else if (pad2 || pad3) && negb last then (false, output)
        else
          let v2 := if pad2 then 0 else base64_value c2 in
          let v3 := if pad3 then 0 else base64_value c3 in
          if (v2 <? 0) || (v3 <? 0) then (false, output)
          else
            let bits :=
              Z.lor (Z.lor (Z.lor (u32 (Z.shiftl v0 18)) (u32 (Z.shiftl v1 12)))
                (u32 (Z.shiftl v2 6))) v3 in
            let output := output ++ [zb (Z.land (Z.shiftr bits 16) 0xFF)] in
            let output := if pad2 then output else output ++ [zb (Z.land (Z.shiftr bits 8) 0xFF)] in
            let output := if pad3 then output else output ++ [zb (Z.land bits 0xFF)] in
            if pad2 && negb (Z.land v1 0x0F =? 0) then (false, output)
            else if pad3 && negb pad2 && negb (Z.land v2 0x03 =? 0) then (false, output)
            else decode_quads rest output
  | _ => (true, output)
  end.

Definition decode_base64 (input : list byte) : bool * list byte :=
  if bool_decide (input = []) then (true, [])
  else if negb (length input mod 4 =? 0)%nat then (false, [])
  else decode_quads input [].

Definition base64_alphabet : list byte :=
  str "ABCDEFGHIJKLMNOPQRSTUVWXYZabcdefghijklmnopqrstuvwxyz0123456789+/".

(** One round of [append_base64]: [remaining] bytes are left, of which [a], [b] and
    [c] are the first, zero where there is none. *)
Definition base64_group (remaining : nat) (a b c : Z) : list byte :=
  let bits := Z.lor (Z.lor (u32 (Z.shiftl a 16)) (u32 (Z.shiftl b 8))) c in
  [ base64_alphabet !!! Z.to_nat (Z.land (Z.shiftr bits 18) 0x3F);
    base64_alphabet !!! Z.to_nat (Z.land (Z.shiftr bits 12) 0x3F);
    if (1 <? remaining)%nat
    then base64_alphabet !!! Z.to_nat (Z.land (Z.shiftr bits 6) 0x3F) else "="%byte;
    if (2 <? remaining)%nat
    then base64_alphabet !!! Z.to_nat (Z.land bits 0x3F) else "="%byte ].

Fixpoint append_base64 (input output : list byte) : list byte :=
  match input with
  | [] => output
  | [a] => output ++ base64_group 1 (bz a) 0 0
  | [a; b] => output ++ base64_group 2 (bz a) (bz b) 0
  | a :: b :: c :: rest =>
      append_base64 rest (output ++ base64_group (length input) (bz a) (bz b) (bz c))
  end.

(** ** Digits *)

Lemma base64_value_range c : -1 <= base64_value c < 64.
Proof. by destruct c. Qed.

Lemma base64_value_char c : 0 <= base64_value c -> base64_alphabet !!! Z.to_nat (base64_value c) = c.
Proof. by destruct c; try done; intros H; exfalso; vm_compute in H. Qed.

Lemma pad_value c : is_char c "=" = true -> base64_value c = -1.
Proof. by destruct c. Qed.

Definition digit (v : Z) : byte := base64_alphabet !!! Z.to_nat v.

Lemma digit_spec v : 0 <= v < 64 -> base64_value (digit v) = v /\ is_char (digit v) "=" = false.
Proof.
  intros Hv.
  assert (forallb (fun n => (base64_value (digit (Z.of_nat n)) =? Z.of_nat n) &&
    negb (is_char (digit (Z.of_nat n)) "=")) (seq 0 64) = true) as H by (by vm_compute).
  rewrite forallb_forall in H. specialize (H (Z.to_nat v)).
  rewrite Z2Nat.id in H by lia. rewrite andb_true_iff, Z.eqb_eq, negb_true_iff in H.
  apply H, in_seq. lia.
Qed.

(** ** The bits of a group as arithmetic *)

Lemma encode_bits a b c :
  0 <= a < 256 -> 0 <= b < 256 -> 0 <= c < 256 ->
  Z.lor (Z.lor (u32 (Z.shiftl a 16)) (u32 (Z.shiftl b 8))) c = a * 65536 + b * 256 + c.
Proof.
  intros. unfold u32. rewrite !Z.shiftl_mul_pow2, !Z.mod_small by lia.
  rewrite (lor_disjoint a (b * 2 ^ 8) 16) by lia.
  replace (a * 2 ^ 16 + b * 2 ^ 8) with ((a * 256 + b) * 2 ^ 8) by lia.
  rewrite lor_disjoint by lia. lia.
Qed.

Lemma decode_bits v0 v1 v2 v3 :
  0 <= v0 < 64 -> 0 <= v1 < 64 -> 0 <= v2 < 64 -> 0 <= v3 < 64 ->
  Z.lor (Z.lor (Z.lor (u32 (Z.shiftl v0 18)) (u32 (Z.shiftl v1 12))) (u32 (Z.shiftl v2 6))) v3
  = v0 * 262144 + v1 * 4096 + v2 * 64 + v3.
Proof.
  intros. unfold u32. rewrite !Z.shiftl_mul_pow2, !Z.mod_small by lia.
  rewrite (lor_disjoint v0 (v1 * 2 ^ 12) 18) by lia.
  replace (v0 * 2 ^ 18 + v1 * 2 ^ 12) with ((v0 * 64 + v1) * 2 ^ 12) by lia.
  rewrite (lor_disjoint _ (v2 * 2 ^ 6) 12) by lia.
  replace ((v0 * 64 + v1) * 2 ^ 12 + v2 * 2 ^ 6) with ((v0 * 4096 + v1 * 64 + v2) * 2 ^ 6) by lia.
  rewrite lor_disjoint by lia. lia.
Qed.

Lemma group_digits remaining a b c :
  0 <= a < 256 -> 0 <= b < 256 -> 0 <= c < 256 ->
  base64_group remaining a b c =
  [ digit (a / 4); digit (a mod 4 * 16 + b / 16);
    if (1 <? remaining)%nat then digit (b mod 16 * 4 + c / 64) else "="%byte;
    if (2 <? remaining)%nat then digit (c mod 64) else "="%byte ].
Proof.
  intros. unfold base64_group. rewrite encode_bits by done.
  rewrite !(land_mask _ 6) by lia. rewrite !Z.shiftr_div_pow2 by lia.
  change (2 ^ 18) with 262144. change (2 ^ 12) with 4096. change (2 ^ 6) with 64.
  change (_ !!! Z.to_nat ?v) with (digit v).
  assert (forall v w, v = w -> digit v = digit w) as Hd by by intros ?? ->.
  repeat (apply f_equal2; [apply Hd; divlia|]).
  apply f_equal2; [case_match; [apply Hd; divlia|done]|].
  apply f_equal2; [case_match; [apply Hd; divlia|done]|done].
Qed.

(** ** Encoding *)

(** The encoding of the bytes of one group, and of all. *)
Lemma append_base64_app input output :
  append_base64 input output = output ++ append_base64 input [].
Proof.
  remember (length input) as n eqn:Hn. revert input output Hn.
  induction n as [n IH] using lt_wf_ind. intros [|a [|b [|c rest]]] output ->; simpl.
  - by rewrite app_nil_r.
  - done.
  - done.
  - rewrite (IH (length rest)), (IH (length rest) ltac:(simpl; lia) rest (base64_group _ _ _ _))
      by (simpl; lia || done). by rewrite <- app_assoc.
Qed.

Lemma encode_three a b c rest :
  append_base64 (a :: b :: c :: rest) [] =
  digit (bz a / 4) :: digit (bz a mod 4 * 16 + bz b / 16) ::
  digit (bz b mod 16 * 4 + bz c / 64) :: digit (bz c mod 64) :: append_base64 rest [].
Proof.
  cbn [append_base64]. rewrite append_base64_app. byte_ranges. by rewrite group_digits.
Qed.

Lemma encode_two a b :
  append_base64 [a; b] [] =
  [digit (bz a / 4); digit (bz a mod 4 * 16 + bz b / 16); digit (bz b mod 16 * 4); "="%byte].
Proof.
  cbn [append_base64]. byte_ranges. rewrite group_digits by lia. simpl.
  by rewrite Z.add_0_r.
Qed.

Lemma encode_one a :
  append_base64 [a] [] = [digit (bz a / 4); digit (bz a mod 4 * 16); "="%byte; "="%byte].
Proof.
  cbn [append_base64]. byte_ranges. rewrite group_digits by lia. simpl.
  by rewrite Z.add_0_r.
Qed.

Lemma encode_length input : (length (append_base64 input []) mod 4 = 0)%nat.
Proof.
  remember (length input) as n eqn:Hn. revert input Hn.
  induction n as [n IH] using lt_wf_ind. intros [|a [|b [|c rest]]] ->; try done.
  rewrite encode_three. cbn [length].
  change (S (S (S (S (length (append_base64 rest [])))))) with (4 + length (append_base64 rest []))%nat.
  rewrite Nat.Div0.add_mod, (IH (length rest)) by (simpl; lia || done). done.
Qed.

(** A property of the digits and of the padding holds of every character written. *)
Lemma base64_chars (P : byte -> bool) bytes :
  forallb P base64_alphabet = true -> P "="%byte = true ->
  forallb P (append_base64 bytes []) = true.
Proof.
  intros Ha Hpad. assert (forall v, 0 <= v < 64 -> P (digit v) = true) as Hd.
  { intros v Hv. unfold digit. rewrite forallb_forall in Ha. apply Ha, list_elem_of_In.
    apply list_elem_of_lookup_2 with (Z.to_nat v). apply list_lookup_lookup_total_lt.
    change (length base64_alphabet) with 64%nat. lia. }
  remember (length bytes) as n eqn:Hn. revert bytes Hn.
  induction n as [n IH] using lt_wf_ind. intros [|a [|b [|c rest]]] ->; [done|..];
    rewrite ?encode_one, ?encode_two, ?encode_three; cbn [forallb]; byte_ranges;
    rewrite !Hd, ?Hpad by divlia; [done..|]. cbn [andb]. apply (IH (length rest)); simpl; lia || done.
Qed.

(** ** Decoding *)

Lemma low_bits v n m : m = 2 ^ n - 1 -> 0 <= n -> (Z.land v m =? 0) = (v mod 2 ^ n =? 0).
Proof. intros. by rewrite (land_mask _ n). Qed.

(** What one round of the decoder adds, by the digits of its group. *)
Lemma quad_step c0 c1 c2 c3 rest output :
  0 <= base64_value c0 -> 0 <= base64_value c1 ->
  decode_quads (c0 :: c1 :: c2 :: c3 :: rest) output =
  let v0 := base64_value c0 in let v1 := base64_value c1 in
  let v2 := base64_value c2 in let v3 := base64_value c3 in
  let first := zb (v0 * 4 + v1 / 16) in
  let second := zb (v1 mod 16 * 16 + v2 / 4) in
  if is_char c2 "=" then
    if negb (is_char c3 "=") || negb (bool_decide (rest = [])) then (false, output)
    else (v1 mod 16 =? 0, output ++ [first])
  else if is_char c3 "=" then
    if negb (bool_decide (rest = [])) || (v2 <? 0) then (false, output)
    else (v2 mod 4 =? 0, output ++ [first; second])
  else if (v2 <? 0) || (v3 <? 0) then (false, output)
  else decode_quads rest (output ++ [first; second; zb (v2 mod 4 * 64 + v3)]).
Proof.
  intros H0 H1. cbn [decode_quads].
  pose proof (base64_value_range c0). pose proof (base64_value_range c1).
  pose proof (base64_value_range c2). pose proof (base64_value_range c3).
  rewrite (proj2 (Z.ltb_ge (base64_value c0) 0)), (proj2 (Z.ltb_ge (base64_value c1) 0)) by done.
  assert (forall v2 v3, 0 <= v2 < 64 -> 0 <= v3 < 64 ->
    let bits := Z.lor (Z.lor (Z.lor (u32 (Z.shiftl (base64_value c0) 18))
      (u32 (Z.shiftl (base64_value c1) 12))) (u32 (Z.shiftl v2 6))) v3 in
    zb (Z.land (Z.shiftr bits 16) 0xFF) = zb (base64_value c0 * 4 + base64_value c1 / 16) /\
    zb (Z.land (Z.shiftr bits 8) 0xFF) = zb (base64_value c1 mod 16 * 16 + v2 / 4) /\
    zb (Z.land bits 0xFF) = zb (v2 mod 4 * 64 + v3)) as Hbits.
  { intros v2 v3 Hv2 Hv3 bits. subst bits. rewrite decode_bits by lia.
    rewrite !(land_mask _ 8), !Z.shiftr_div_pow2 by lia.
    change (2 ^ 16) with 65536. change (2 ^ 8) with 256.
    split_and!; f_equal; divlia. }
  cbn [orb]. destruct (is_char c2 "=") eqn:E2, (is_char c3 "=") eqn:E3; cbn [andb orb negb].
  - destruct (Hbits 0 0) as [-> _]; [lia..|].
    change (0 <? 0) with false. cbn [orb]. case_bool_decide; subst; cbn [negb]; [|done].
    rewrite (low_bits _ 4) by lia. change (2 ^ 4) with 16. by destruct (_ =? 0).
  - done.
  - case_bool_decide; subst; cbn [negb orb]; [|done]. change (0 <? 0) with false.
    destruct (Z.ltb_spec (base64_value c2) 0); cbn [orb]; [done|].
    destruct (Hbits (base64_value c2) 0) as (-> & -> & _); [lia..|].
    rewrite (low_bits _ 2), <- app_assoc by lia. change (2 ^ 2) with 4. by destruct (_ =? 0).
  - destruct (Z.ltb_spec (base64_value c2) 0); [done|].
    destruct (Z.ltb_spec (base64_value c3) 0); [done|]. cbn [orb].
    destruct (Hbits (base64_value c2) (base64_value c3)) as (-> & -> & ->); [lia..|].
    by rewrite <- !app_assoc.
Qed.

Lemma zb_is v a : v = bz a -> zb v = a.
Proof. intros ->. apply zb_bz. Qed.

(** Evaluate the step of the decoder on digits the encoder wrote. *)
Ltac decode_step :=
  byte_ranges;
  repeat match goal with
  | |- context [digit ?v] =>
      lazymatch goal with
      | _ : base64_value (digit v) = v /\ _ |- _ => fail
      | _ => pose proof (digit_spec v ltac:(divlia))
      end
  end;
  destruct_and?; rewrite quad_step by (match goal with H : _ = _ |- _ => rewrite H end; divlia);
  cbv zeta;
  repeat match goal with
  | H : base64_value (digit _) = _ |- _ => rewrite H; clear H
  | H : is_char (digit _) "=" = false |- _ => rewrite H; clear H
  end;
  change (is_char "=" "=") with true;
  rewrite ?bool_decide_eq_true_2 by done; cbn [negb orb];
  rewrite ?(proj2 (Z.ltb_ge _ _)) by divlia; cbn [orb].

(** Decoding an encoding restores the bytes. *)
Lemma decode_quads_encoded bytes output :
  decode_quads (append_base64 bytes []) output = (true, output ++ bytes).
Proof.
  remember (length bytes) as n eqn:Hn. revert bytes output Hn.
  induction n as [n IH] using lt_wf_ind. intros [|a [|b [|c rest]]] output ->.
  - by rewrite app_nil_r.
  - rewrite encode_one. decode_step. rewrite (proj2 (Z.eqb_eq _ _)) by divlia.
    by rewrite (zb_is _ a) by divlia.
  - rewrite encode_two. decode_step. rewrite (proj2 (Z.eqb_eq _ _)) by divlia.
    by rewrite (zb_is _ a), (zb_is _ b) by divlia.
  - rewrite encode_three. decode_step.
    rewrite (IH (length rest)), (zb_is _ a), (zb_is _ b), (zb_is _ c) by (divlia || simpl; lia || done).
    by rewrite <- app_assoc.
Qed.

(** What is accepted is an encoding. *)
Lemma digit_value c : 0 <= base64_value c -> digit (base64_value c) = c.
Proof. apply base64_value_char. Qed.

Lemma pad_char c : is_char c "=" = true -> c = "="%byte.
Proof. by intros ?%is_char_spec. Qed.

Lemma digit_is v c : 0 <= base64_value c -> v = base64_value c -> digit v = c.
Proof. intros ? ->. by apply digit_value. Qed.

Lemma quads_accepted input output result :
  (length input mod 4 = 0)%nat -> decode_quads input output = (true, result) ->
  exists bytes, result = output ++ bytes /\ append_base64 bytes [] = input.
Proof.
  remember (length input) as n eqn:Hn. revert input output Hn.
  induction n as [n IH] using lt_wf_ind. intros [|c0 [|c1 [|c2 [|c3 rest]]]] output -> Hl Hd;
    try (by vm_compute in Hl).
  { exists []. simplify_eq/=. by rewrite app_nil_r. }
  destruct (Z.ltb_spec (base64_value c0) 0) as [H0|H0].
  { cbn [decode_quads] in Hd. rewrite (proj2 (Z.ltb_lt _ _)) in Hd by done. done. }
  destruct (Z.ltb_spec (base64_value c1) 0) as [H1|H1].
  { cbn [decode_quads] in Hd. rewrite (proj2 (Z.ltb_lt (base64_value c1) _)), orb_true_r in Hd
      by done. done. }
  rewrite quad_step in Hd by done. cbv zeta in Hd.
  pose proof (base64_value_range c0). pose proof (base64_value_range c1).
  pose proof (base64_value_range c2). pose proof (base64_value_range c3).
  destruct (is_char c2 "=") eqn:E2; [|destruct (is_char c3 "=") eqn:E3].
  - destruct (_ || _) eqn:E; [done|]. unbool. simplify_eq/=. unbool.
    eexists [_]. split; [done|]. rewrite encode_one, (pad_char c2), (pad_char c3) by done.
    rewrite bz_zb_small by divlia. f_equal; [|f_equal]; apply digit_is; divlia.
  - destruct (_ || _) eqn:E; [done|]. unbool. simplify_eq/=. unbool.
    eexists [_; _]. split; [done|]. rewrite encode_two, (pad_char c3) by done.
    rewrite !bz_zb_small by divlia. f_equal; [|f_equal; [|f_equal]]; apply digit_is; divlia.
  - destruct (_ || _) eqn:E; [done|]. unbool.
    apply (IH (length rest)) in Hd as (bytes & -> & Hb); [|simpl; lia|done|].
    + eexists (_ :: _ :: _ :: bytes). rewrite <- app_assoc. split; [done|].
      rewrite encode_three, Hb, !bz_zb_small by divlia.
      f_equal; [|f_equal; [|f_equal; [|f_equal]]]; apply digit_is; divlia.
    + change (length (c0 :: c1 :: c2 :: c3 :: rest)) with (4 + length rest)%nat in Hl.
      rewrite Nat.Div0.add_mod in Hl. change (4 mod 4)%nat with 0%nat in Hl.
      by rewrite Nat.add_0_l, Nat.Div0.mod_mod in Hl.
Qed.

Lemma decode_encoded bytes : decode_base64 (append_base64 bytes []) = (true, bytes).
Proof.
  unfold decode_base64. case_bool_decide as Hn.
  - destruct bytes as [|a [|b [|c rest]]]; try done. by rewrite encode_three in Hn.
  - rewrite encode_length. simpl negb. cbn iota. by rewrite decode_quads_encoded.
Qed.

(** Base64 is decoded exactly: the decoder accepts a text, with some bytes, if and
    only if the text is what the encoder writes for those bytes; every other text,
    misplaced padding and stray low bits included, is rejected. *)
Theorem base64_exact (text bytes : list byte) :
  decode_base64 text = (true, bytes) <-> text = append_base64 bytes [].
Proof.
  split; [|intros ->; apply decode_encoded].
  unfold decode_base64. case_bool_decide as Hn; [by intros; simplify_eq|].
  destruct (length text mod 4 =? 0)%nat eqn:E; [|done]. intros Hd.
  apply Nat.eqb_eq in E. by apply quads_accepted in Hd as (? & -> & <-).
Qed.

Example base64_encodes : append_base64 (str "Rocq9") [] = str "Um9jcTk=".
Proof. by vm_compute. Qed.

(** The same bytes with a stray bit in the last digit. *)
Example base64_canonical : fst (decode_base64 (str "Um9jcTl=")) = false.
Proof. by vm_compute. Qed.
