(* ===== verification/JsonProtocol.v ===== *)
(** The codec of the TCP protocol (communication/protocol/json_protocol.hpp and .cpp):
    the request handler of the JSON parser as a record with one definition per
    event, the decoder of requests with every schema check, the encoders of the four
    outbound messages, and the length-prefixed frame.  Allocation failure is left
    out; [noexcept] decoding maps it to [invalid_schema]. *)

From S2P Require Import Prelude RuntimeValue JsonText JsonParser JsonWriter JsonRoundtrip Base64.
From S2P Require Import ServerStatus DiagnosticCatalog Diagnostics DiagnosticFormatter OutboundChannel Connection ServerState Communication.

Local Open Scope Z_scope.

Definition tcp_json_max_frame_bytes : Z := 1024 * 1024.
Definition tcp_json_outbound_budget_bytes : Z := 4 * 1024 * 1024.

(** ** Requests *)

Inductive json_request_kind := json_login | json_server | json_client.

#[export] Instance json_request_kind_eq_dec : EqDecision json_request_kind.
Proof. solve_decision. Defined.

Inductive json_request_payload :=
| login_request (name : list byte)
| server_request_payload (request : server_request)
| client_request (message : client_message).

Record json_request := JsonRequest {
  json_request_id : Z;
  json_kind : json_request_kind;
  json_payload : json_request_payload
}.

(** [server_request{}] *)
Definition no_server_request : server_request := ServerRequest request_shutdown [] [] 0 0.

(** [json_request{}] *)
Definition no_json_request : json_request :=
  JsonRequest 0 json_server (server_request_payload no_server_request).

Inductive json_protocol_error :=
| protocol_none | invalid_json | invalid_schema | unsupported_command.

#[export] Instance json_protocol_error_eq_dec : EqDecision json_protocol_error.
Proof. solve_decision. Defined.

(** ** The handler of the parser's events *)

Definition request_id_bit : Z := Z.shiftl 1 0.
Definition command_bit : Z := Z.shiftl 1 1.
Definition name_bit : Z := Z.shiftl 1 2.
Definition path_bit : Z := Z.shiftl 1 3.
Definition login_bit : Z := Z.shiftl 1 4.
Definition arg_bit : Z := Z.shiftl 1 5.
Definition parameters_bit : Z := Z.shiftl 1 6.
Definition options_bit : Z := Z.shiftl 1 7.

Record request_handler := Handler {
  request_value : Z;
  command_value : list byte;
  name_value : list byte;
  path_value : list byte;
  login_value : list byte;
  arg_value : list byte;
  parameters_value : list byte;
  options_value : Z;
  seen : Z;
  depth : nat;
  valid_value : bool;
  arguments_seen : bool;
  key_value : list byte
}.

Definition new_handler : request_handler :=
  Handler 0 [] [] [] [] [] [] 0 0 0 true false [].

Definition set_shape (d : nat) (v a : bool) (k : list byte) (h : request_handler) : request_handler :=
  Handler (request_value h) (command_value h) (name_value h) (path_value h) (login_value h)
    (arg_value h) (parameters_value h) (options_value h) (seen h) d v a k.
Definition set_depth (d : nat) (h : request_handler) : request_handler :=
  set_shape d (valid_value h) (arguments_seen h) (key_value h) h.
Definition invalid (h : request_handler) : request_handler :=
  set_shape (depth h) false (arguments_seen h) (key_value h) h.

Definition set_seen (s : Z) (h : request_handler) : request_handler :=
  Handler (request_value h) (command_value h) (name_value h) (path_value h) (login_value h)
    (arg_value h) (parameters_value h) (options_value h) s (depth h) (valid_value h)
    (arguments_seen h) (key_value h).

Definition mark (bit : Z) (h : request_handler) : bool * request_handler :=
  if negb (Z.land (seen h) bit =? 0) then (false, h) else (true, set_seen (Z.lor (seen h) bit) h).

(** [if (!mark(bit) || !value.get(output)) valid_value = false;] where [get] reads
    the value and [put] stores it in the member [output]. *)
Definition assign {A} (get : json_value_view -> option A)
    (put : A -> request_handler -> request_handler)
    (bit : Z) (value : json_value_view) (h : request_handler) : request_handler :=
  let '(fresh, h) := mark bit h in
  if fresh then
    match get value with
    | Some output => put output h
    | None => invalid h
    end
  else invalid h.

Definition put_request (v : Z) (h : request_handler) : request_handler :=
  Handler v (command_value h) (name_value h) (path_value h) (login_value h)
    (arg_value h) (parameters_value h) (options_value h) (seen h) (depth h) (valid_value h)
    (arguments_seen h) (key_value h).
Definition put_command (v : list byte) (h : request_handler) : request_handler :=
  Handler (request_value h) v (name_value h) (path_value h) (login_value h)
    (arg_value h) (parameters_value h) (options_value h) (seen h) (depth h) (valid_value h)
    (arguments_seen h) (key_value h).
Definition put_name (v : list byte) (h : request_handler) : request_handler :=
  Handler (request_value h) (command_value h) v (path_value h) (login_value h)
    (arg_value h) (parameters_value h) (options_value h) (seen h) (depth h) (valid_value h)
    (arguments_seen h) (key_value h).
Definition put_path (v : list byte) (h : request_handler) : request_handler :=
  Handler (request_value h) (command_value h) (name_value h) v (login_value h)
    (arg_value h) (parameters_value h) (options_value h) (seen h) (depth h) (valid_value h)
    (arguments_seen h) (key_value h).
Definition put_login (v : list byte) (h : request_handler) : request_handler :=
  Handler (request_value h) (command_value h) (name_value h) (path_value h) v
    (arg_value h) (parameters_value h) (options_value h) (seen h) (depth h) (valid_value h)
    (arguments_seen h) (key_value h).
Definition put_arg (v : list byte) (h : request_handler) : request_handler :=
  Handler (request_value h) (command_value h) (name_value h) (path_value h) (login_value h)
    v (parameters_value h) (options_value h) (seen h) (depth h) (valid_value h)
    (arguments_seen h) (key_value h).
Definition put_parameters (v : list byte) (h : request_handler) : request_handler :=
  Handler (request_value h) (command_value h) (name_value h) (path_value h) (login_value h)
    (arg_value h) v (options_value h) (seen h) (depth h) (valid_value h)
    (arguments_seen h) (key_value h).
Definition put_options (v : Z) (h : request_handler) : request_handler :=
  Handler (request_value h) (command_value h) (name_value h) (path_value h) (login_value h)
    (arg_value h) (parameters_value h) v (seen h) (depth h) (valid_value h)
    (arguments_seen h) (key_value h).

Definition object_begin (h : request_handler) : request_handler :=
  if (depth h =? 0)%nat then set_depth 1 h
  else if (depth h =? 1)%nat then
    let ok := bool_decide (key_value h = str "arguments") && negb (arguments_seen h) in
    set_shape 2 (valid_value h && ok) true (key_value h) h
  else invalid (set_depth (S (depth h)) h).

Definition object_end (h : request_handler) : request_handler :=
  if (depth h =? 0)%nat then invalid h else set_depth (pred (depth h)) h.

Definition array_begin (h : request_handler) : request_handler :=
  set_depth (S (depth h)) (invalid h).

Definition array_end (h : request_handler) : request_handler :=
  invalid (if negb (depth h =? 0)%nat then set_depth (pred (depth h)) h else h).

Definition handler_key (value : list byte) (h : request_handler) : request_handler :=
  set_shape (depth h) (valid_value h) (arguments_seen h) value h.

Definition handler_value (value : json_value_view) (h : request_handler) : request_handler :=
  if negb (valid_value h) || (negb (depth h =? 1)%nat && negb (depth h =? 2)%nat) then invalid h
  else
    let key := key_value h in
    if (depth h =? 1)%nat then
      if bool_decide (key = str "request_id")
      then assign (get_integral uint64) put_request request_id_bit value h
      else if bool_decide (key = str "command")
      then assign get_string_view put_command command_bit value h
      else invalid h
    else if bool_decide (key = str "name") then assign get_string_view put_name name_bit value h
    else if bool_decide (key = str "path") then assign get_string_view put_path path_bit value h
    else if bool_decide (key = str "login") then assign get_string_view put_login login_bit value h
    else if bool_decide (key = str "arg") then assign get_string_view put_arg arg_bit value h
    else if bool_decide (key = str "parameters")
    then assign get_string_view put_parameters parameters_bit value h
    else if bool_decide (key = str "options")
    then assign (get_integral uint64) put_options options_bit value h
    else invalid h.

(** The virtual calls; none of them throws. *)
Definition handle (h : request_handler) (e : json_event) : option request_handler :=
  Some match e with
  | ev_location _ _ => h
  | ev_object_begin => object_begin h
  | ev_object_end => object_end h
  | ev_array_begin => array_begin h
  | ev_array_end => array_end h
  | ev_key key => handler_key key h
  | ev_value value => handler_value value h
  end.

Definition handler_valid (h : request_handler) : bool :=
  valid_value h && (depth h =? 0)%nat && negb (Z.land (seen h) request_id_bit =? 0) &&
  negb (Z.land (seen h) command_bit =? 0) && negb (request_value h =? 0).

Definition only (seen allowed : Z) : bool :=
  Z.land seen (u32 (Z.lnot (Z.lor (Z.lor request_id_bit command_bit) allowed))) =? 0.

(** ** decode_json_request *)

(** The command names in the order they are compared. *)
Definition server_commands : list (list byte * server_request_kind) :=
  [ (str "LOAD", request_load); (str "PUBLISH", request_publish); (str "BUILD", request_build);
    (str "UNLOAD", request_unload); (str "REBUILD", request_rebuild);
    (str "GET_STATE", request_get_state); (str "GET_VALUE", request_get_value);
    (str "SNAP_IC", request_snap_ic); (str "RESET_IC", request_reset_ic);
    (str "RUN", request_run); (str "FREEZE", request_freeze);
    (str "SHUTDOWN", request_shutdown) ].

Fixpoint find_command (command : list byte) (table : list (list byte * server_request_kind))
  : option server_request_kind :=
  match table with
  | [] => None
  | (name, kind) :: table =>
      if bool_decide (command = name) then Some kind else find_command command table
  end.

Definition has (h : request_handler) (bit : Z) : bool := negb (Z.land (seen h) bit =? 0).

(** The schema checks of a Server command and the request they fill. *)
Definition decode_server_request (kind : server_request_kind) (h : request_handler)
  : option server_request :=
  match kind with
  | request_load | request_publish | request_build | request_rebuild | request_snap_ic =>
      if negb (only (seen h) path_bit) || negb (has h path_bit) ||
         bool_decide (path_value h = [])
      then None
      else Some (ServerRequest kind (path_value h) [] 0 0)
  | request_reset_ic =>
      if negb (only (seen h) (Z.lor path_bit options_bit)) || negb (has h path_bit) ||
         bool_decide (path_value h = []) || (reset_ic_options_mask <? options_value h)
      then None
      else Some (ServerRequest kind (path_value h) [] 0 (u8 (options_value h)))
  | request_get_value =>
      if negb (only (seen h) name_bit) || negb (has h name_bit) ||
         bool_decide (name_value h = [])
      then None
      else Some (ServerRequest kind [] (name_value h) 0 0)
  | request_unload | request_get_state | request_run | request_freeze | request_shutdown =>
      if negb (only (seen h) 0) then None else Some (ServerRequest kind [] [] 0 0)
  end.

Definition decode_client_request (h : request_handler) : option client_message :=
  if negb (only (seen h) (Z.lor (Z.lor login_bit arg_bit) parameters_bit)) then None
  else if has h parameters_bit then
    match decode_base64 (parameters_value h) with
    | (true, parameters) => Some (ClientMessage (login_value h) (arg_value h) parameters)
    | (false, _) => None
    end
  else Some (ClientMessage (login_value h) (arg_value h) []).

(** What a valid handler is turned into. *)
Definition decode_handler (h : request_handler) : json_protocol_error + json_request :=
  let command := command_value h in
  if bool_decide (command = str "LOGIN") then
    if negb (only (seen h) name_bit) || negb (has h name_bit) then inl invalid_schema
    else inr (JsonRequest (request_value h) json_login (login_request (name_value h)))
  else if bool_decide (command = str "CLIENT") then
    match decode_client_request h with
    | Some message => inr (JsonRequest (request_value h) json_client (client_request message))
    | None => inl invalid_schema
    end
  else
    match find_command command server_commands with
    | None => inl unsupported_command
    | Some kind =>
        match decode_server_request kind h with
        | Some request =>
            inr (JsonRequest (request_value h) json_server (server_request_payload request))
        | None => inl invalid_schema
        end
    end.

(** The handler after [parse_json(text, handler)]. *)
Definition handler_after (text : list byte) : request_handler :=
  match run text with
  | Some s => default new_handler (deliver handle new_handler (log s))
  | None => new_handler
  end.

(** The result and the output, which a rejected text leaves as it was. *)
Definition decode_json_request (text : list byte) (output : json_request)
  : option (json_protocol_error * json_request) :=
  match parse_json handle text new_handler with
  | None => None
  | Some parsed =>
      if negb (json_parse_ok parsed) then Some (invalid_json, output)
      else if negb (handler_valid (handler_after text)) then Some (invalid_schema, output)
      else match decode_handler (handler_after text) with
           | inl code => Some (code, output)
           | inr candidate => Some (protocol_none, candidate)
           end
  end.

(** ** Outbound messages *)

(** Text with its double quotes written as single ones. *)
Definition quotes (s : string) : list byte :=
  (fun b => if is_char b "'" then x22 else b) <$> str s.

Definition hex_digits : list byte := str "0123456789ABCDEF".

Definition append_escaped_char (output : list byte) (ch : byte) : list byte :=
  if is_char ch x22 then output ++ ["\"%byte; x22]
  else if is_char ch "\" then output ++ ["\"%byte; "\"%byte]
  else if is_char ch x08 then output ++ str "\b"
  else if is_char ch x0c then output ++ str "\f"
  else if is_char ch x0a then output ++ str "\n"
  else if is_char ch x0d then output ++ str "\r"
  else if is_char ch x09 then output ++ str "\t"
  else if bz ch <? 0x20
  then output ++ str "\u00" ++
         [hex_digits !!! Z.to_nat (Z.land (Z.shiftr (bz ch) 4) 0x0F);
          hex_digits !!! Z.to_nat (Z.land (bz ch) 0x0F)]
  else output ++ [ch].

Definition append_escaped (value output : list byte) : list byte :=
  foldl append_escaped_char (output ++ [x22]) value ++ [x22].

Definition append_integer (value : Z) (output : list byte) : list byte :=
  if (32 <? length (to_chars value))%nat then output else output ++ to_chars value.

Definition state_name (state : project_state) : list byte :=
  match state with
  | unloaded => str "UNLOADED"
  | loaded => str "LOADED"
  | run_state => str "RUN"
  | freeze_state => str "FREEZE"
  end.

Definition has_file (l : diagnostic_location) : bool :=
  negb (location_file_id l =? invalid_diagnostic_file_id) || negb (bool_decide (location_file l = [])).

Definition has_position (l : diagnostic_location) : bool := has_file l && negb (location_line l =? 0).

Definition append_diagnostic (output : list byte) (record : diagnostic_record) : list byte :=
  let output := append_integer (record_id record) (output ++ quotes "{'id':") in
  let output := append_escaped (diagnostic_severity_name (record_severity record))
                  (output ++ quotes ",'severity':") in
  let output :=
    if bool_decide (record_message record = []) then output
    else append_escaped (record_message record) (output ++ quotes ",'message':") in
  let output :=
    if bool_decide (record_detail record = []) then output
    else append_escaped (record_detail record) (output ++ quotes ",'detail':") in
  let location := record_location record in
  let output :=
    if has_position location
    then append_integer (location_column location)
           (append_integer (location_line location) (output ++ quotes ",'line':")
            ++ quotes ",'column':")
    else output in
  output ++ str "}".

Fixpoint append_records (first : bool) (l : list diagnostic_record) (output : list byte)
  : list byte :=
  match l with
  | [] => output
  | record :: l =>
      append_records false l (append_diagnostic (if first then output else output ++ str ",") record)
  end.

Definition append_diagnostics (diagnostics : diagnostic_collection) (output : list byte)
  : list byte :=
  if bool_decide (records diagnostics = []) then output
  else append_records true (records diagnostics) (output ++ quotes ",'diagnostics':[") ++ str "]".

Definition append_payload (result : server_response) (output : list byte) : list byte :=
  match response_payload result with
  | payload_none => output
  | payload_state =>
      append_escaped (state_name (response_state result)) (output ++ quotes ",'payload':{'state':")
      ++ str "}"
  | payload_runtime_value =>
      let value := response_value result in
      let output := append_integer (value_type value) (output ++ quotes ",'payload':{'type':") in
      let output := append_integer (value_size value) (output ++ quotes ",'size':") in
      append_integer (value_bits value) (output ++ quotes ",'bits':") ++ str "}"
  end.

Definition append_response (sequence request : Z) (result : server_response) (output : list byte)
  : list byte :=
  let output := append_integer sequence (output ++ quotes "{'sequence':") in
  let output := append_integer request (output ++ quotes ",'request_id':") in
  let output := output ++ quotes ",'status':" ++
                str (if succeeded (response_status result) then "true" else "false") in
  append_diagnostics (response_diagnostics result) (append_payload result output) ++ str "}".

Definition append_server_state (sequence : Z) (old_state new_state : project_state)
    (output : list byte) : list byte :=
  let output := append_integer sequence (output ++ quotes "{'sequence':") in
  let output := append_escaped (state_name old_state)
                  (output ++ quotes ",'action':'SERVER_STATE','old':") in
  append_escaped (state_name new_state) (output ++ quotes ",'new':") ++ str "}".

Definition append_client_action (sequence : Z) (action : client_action) (output : list byte)
  : list byte :=
  let output := append_integer sequence (output ++ quotes "{'sequence':") in
  let output := append_escaped (action_from action)
                  (output ++ quotes ",'action':'CLIENT','from':") in
  let output := append_escaped (action_arg action) (output ++ quotes ",'arg':") in
  append_base64 (action_parameters action) (output ++ quotes ",'parameters':'") ++ quotes "'}".

Definition append_subscription_data (sequence subscription data_sequence : Z) (data : list byte)
    (output : list byte) : list byte :=
  let output := append_integer sequence (output ++ quotes "{'sequence':") in
  let output := append_integer subscription
                  (output ++ quotes ",'action':'SUBSCRIPTION_DATA','subscription_id':") in
  let output := append_integer data_sequence (output ++ quotes ",'subscription_sequence':") in
  append_base64 data (output ++ quotes ",'parameters':'") ++ quotes "'}".

Definition encode_json_outbound (w : Outbound.outbound_write outbound_payload)
  : bool * list byte :=
  let sequence := Outbound.connection_sequence w in
  let output :=
    match Outbound.payload (Outbound.written_message w) with
    | protocol_response request result _ => append_response sequence request result []
    | server_state_action old_state new_state =>
        append_server_state sequence old_state new_state []
    | client_action_message action => append_client_action sequence action []
    | subscription_data subscription data_sequence data =>
        append_subscription_data sequence subscription data_sequence data []
    end in
  (Z.of_nat (length output) <=? tcp_json_max_frame_bytes, output).

(** ** Frames *)

Definition encode_tcp_frame (payload : list byte) : list byte :=
  let length := u32 (Z.of_nat (length payload)) in
  [ zb (Z.land (Z.shiftr length 24) 0xFF); zb (Z.land (Z.shiftr length 16) 0xFF);
    zb (Z.land (Z.shiftr length 8) 0xFF); zb (Z.land length 0xFF) ] ++ payload.

(** The first four bytes from [bytes] on. *)
Definition decode_tcp_frame_length (bytes : list byte) : Z :=
  Z.lor (Z.lor (Z.lor (u32 (Z.shiftl (bz (bytes !!! 0%nat)) 24))
    (u32 (Z.shiftl (bz (bytes !!! 1%nat)) 16))) (u32 (Z.shiftl (bz (bytes !!! 2%nat)) 8)))
    (bz (bytes !!! 3%nat)).

(** ** Decoding is total and yields well-formed requests *)

(** What the command of a Server request carries. *)
Definition server_request_ok (r : server_request) : Prop :=
  request_snap_options r = 0 /\
  match request_kind r with
  | request_load | request_publish | request_build | request_rebuild | request_snap_ic =>
      request_path r <> [] /\ request_name r = [] /\ request_reset_options r = 0
  | request_reset_ic =>
      request_path r <> [] /\ request_name r = [] /\
      0 <= request_reset_options r <= reset_ic_options_mask
  | request_get_value =>
      request_path r = [] /\ request_name r <> [] /\ request_reset_options r = 0
  | request_unload | request_get_state | request_run | request_freeze | request_shutdown =>
      request_path r = [] /\ request_name r = [] /\ request_reset_options r = 0
  end.

(** The kind is that of the payload and the identifier is a valid one. *)
Definition json_request_ok (r : json_request) : Prop :=
  0 < json_request_id r < 2 ^ 64 /\
  match json_payload r with
  | login_request _ => json_kind r = json_login
  | client_request _ => json_kind r = json_client
  | server_request_payload request => json_kind r = json_server /\ server_request_ok request
  end.

Lemma deliver_total h events : exists h', deliver handle h events = Some h'.
Proof. revert h. induction events as [|e events IH]; intros h; simpl; eauto. Qed.

Lemma deliver_app h a b :
  deliver handle h (a ++ b) =
  match deliver handle h a with Some h => deliver handle h b | None => None end.
Proof. revert h. induction a as [|e a IH]; intros h; simpl; [done|apply IH]. Qed.

(** The numbers a handler holds are 64-bit ones. *)
Definition numbers_fit (h : request_handler) : Prop :=
  0 <= request_value h < 2 ^ 64 /\ 0 <= options_value h < 2 ^ 64.

Lemma get_uint64_range v z : get_integral uint64 v = Some z -> 0 <= z < 2 ^ 64.
Proof.
  unfold get_integral, from_chars. repeat case_match; intros; simplify_eq; unfold representable in *;
    simpl in *; unbool; lia.
Qed.

Lemma assign_fits {A} (get : json_value_view -> option A) put bit value h :
  (forall v h, get value = Some v -> numbers_fit h -> numbers_fit (put v h)) ->
  numbers_fit h -> numbers_fit (assign get put bit value h).
Proof.
  intros Hp Hh. unfold assign, mark. destruct (negb _); simpl; [done|].
  destruct (get value) eqn:E; [|done]. by apply Hp.
Qed.

Lemma handle_fits h e h' : handle h e = Some h' -> numbers_fit h -> numbers_fit h'.
Proof.
  intros [= <-] Hh. destruct e as [| | | | |key|value]; try done.
  - unfold object_begin. by repeat case_match.
  - unfold object_end. by case_match.
  - unfold array_end. by case_match.
  - unfold handler_value. repeat case_match; try done; apply assign_fits; try done;
      by intros v ? Hg%get_uint64_range [??].
Qed.

Lemma deliver_fits h events h' :
  deliver handle h events = Some h' -> numbers_fit h -> numbers_fit h'.
Proof.
  revert h. induction events as [|e events IH]; intros h; [by intros [= <-]|].
  cbn [deliver]. destruct (handle h e) eqn:E; [|done]. eauto using handle_fits.
Qed.

Lemma handler_after_fits text : numbers_fit (handler_after text).
Proof.
  unfold handler_after. destruct (run text) as [s|]; [|done].
  destruct (deliver_total new_handler (log s)) as [h Hd]. rewrite Hd. simpl.
  by eapply deliver_fits.
Qed.

Lemma decode_server_request_ok kind h r :
  numbers_fit h -> decode_server_request kind h = Some r -> server_request_ok r.
Proof.
  intros [_ Ho] Hd. unfold decode_server_request in Hd.
  destruct kind; case_match; simplify_eq; unbool; unfold server_request_ok; simpl;
    repeat match goal with H : bool_decide _ = false |- _ => apply bool_decide_eq_false in H end;
    try done.
  assert (reset_ic_options_mask = 7) as Hm by done. rewrite Hm in *. unfold u8.
  rewrite Z.mod_small by lia. split_and!; done || lia.
Qed.

Lemma decode_handler_ok h r :
  numbers_fit h -> handler_valid h = true -> decode_handler h = inr r -> json_request_ok r.
Proof.
  intros Hh Hv Hd. unfold handler_valid in Hv. unbool. destruct Hh as [Hr Ho].
  unfold decode_handler in Hd. unfold json_request_ok.
  repeat case_match; simplify_eq/=; try (split; [lia|done]).
  split; [lia|]. split; [done|]. by eapply decode_server_request_ok.
Qed.

Lemma decode_returns_ok text output :
  exists code r, decode_json_request text output = Some (code, r) /\
    if bool_decide (code = protocol_none) then json_request_ok r else r = output.
Proof.
  unfold decode_json_request, parse_json. destruct (run_returns text) as (s & -> & _).
  destruct (deliver_total new_handler (log s)) as [h Hd]. rewrite Hd.
  destruct (json_parse_ok _); simpl; [|by eexists _, _].
  destruct (handler_valid _) eqn:Ev; simpl; [|by eexists _, _].
  destruct (decode_handler _) as [e|r] eqn:Er.
  - eexists _, _. split; [done|]. unfold decode_handler in Er. by repeat case_match; simplify_eq.
  - eexists _, _. split; [done|]. simpl. eapply decode_handler_ok; [|done|done].
    apply handler_after_fits.
Qed.

(** ** Every well-formed request has a document that decodes to it *)

Definition command_name (kind : server_request_kind) : list byte :=
  match kind with
  | request_load => str "LOAD" | request_publish => str "PUBLISH" | request_build => str "BUILD"
  | request_unload => str "UNLOAD" | request_rebuild => str "REBUILD"
  | request_get_state => str "GET_STATE" | request_get_value => str "GET_VALUE"
  | request_snap_ic => str "SNAP_IC" | request_reset_ic => str "RESET_IC"
  | request_run => str "RUN" | request_freeze => str "FREEZE" | request_shutdown => str "SHUTDOWN"
  end.

Definition string_member (name : string) (value : list byte) : list byte * jvalue :=
  (str name, JString value).

Definition server_arguments (r : server_request) : list (list byte * jvalue) :=
  match request_kind r with
  | request_load | request_publish | request_build | request_rebuild | request_snap_ic =>
      [string_member "path" (request_path r)]
  | request_reset_ic =>
      [string_member "path" (request_path r); (str "options", JInt (request_reset_options r))]
  | request_get_value => [string_member "name" (request_name r)]
  | request_unload | request_get_state | request_run | request_freeze | request_shutdown => []
  end.

(** The command and the arguments of a request as the protocol documents them. *)
Definition request_arguments (p : json_request_payload) : list byte * list (list byte * jvalue) :=
  match p with
  | login_request name => (str "LOGIN", [string_member "name" name])
  | client_request m =>
      (str "CLIENT",
       [string_member "login" (message_login m); string_member "arg" (message_arg m);
        string_member "parameters" (append_base64 (message_parameters m) [])])
  | server_request_payload r => (command_name (request_kind r), server_arguments r)
  end.

Definition request_document (r : json_request) : jvalue :=
  let '(command, arguments) := request_arguments (json_payload r) in
  JObject [ (str "request_id", JInt (json_request_id r)); (str "command", JString command);
            (str "arguments", JObject arguments) ].

(** The strings a request carries as text are UTF-8. *)
Definition request_utf8 (r : json_request) : Prop :=
  match json_payload r with
  | login_request name => valid_utf8 name
  | client_request m => valid_utf8 (message_login m) /\ valid_utf8 (message_arg m)
  | server_request_payload r => valid_utf8 (request_path r) /\ valid_utf8 (request_name r)
  end.

(** The view of a scalar that the parser hands to the handler. *)
Definition scalar_view (v : jvalue) : option json_value_view :=
  match v with
  | JInt z => Some (ValueView kind_integer (to_chars z) false)
  | JString s => Some (ValueView kind_string s false)
  | _ => None
  end.

(** The handler's treatment of an object's members, without the parser. *)
Fixpoint handle_members (ms : list (list byte * jvalue)) (h : request_handler) : request_handler :=
  match ms with
  | [] => h
  | (key, v) :: ms =>
      handle_members ms
        match scalar_view v with
        | Some view => handler_value view (handler_key key h)
        | None => h
        end
  end.

Lemma deliver_members ms o h :
  Forall (fun m => is_Some (scalar_view m.2)) ms ->
  deliver handle h (members_at events_at o ms) = Some (handle_members ms h).
Proof.
  intros Hs. revert o h. induction Hs as [|[key v] ms Hv Hs IH]; intros o h; [done|].
  destruct v; try (by destruct Hv); apply IH.
Qed.

Lemma get_uint64_written z :
  0 <= z < 2 ^ 64 -> get_integral uint64 (ValueView kind_integer (to_chars z) false) = Some z.
Proof.
  intros. unfold get_integral. simpl. apply from_to_chars; [|simpl; lia].
  unfold representable. simpl. apply andb_true_iff. lia.
Qed.

Lemma ascii_utf8 l : forallb (fun b => bz b <=? 0x7F) l = true -> valid_utf8 l.
Proof.
  induction l as [|b l IH]; simpl; intros; [apply valid_utf8_nil|]. unbool.
  change (b :: l) with ([b] ++ l). apply valid_utf8_app; [apply valid_utf8_ascii; lia|auto].
Qed.

Lemma base64_ascii bytes : forallb (fun b => bz b <=? 0x7F) (append_base64 bytes []) = true.
Proof. by apply base64_chars. Qed.

(** The handler after the whole document. *)
Definition handled (id : Z) (command : list byte) (arguments : list (list byte * jvalue))
  : request_handler :=
  let top := handle_members [(str "request_id", JInt id); (str "command", JString command)]
               (object_begin new_handler) in
  object_end (object_end (handle_members arguments
    (object_begin (handler_key (str "arguments") top)))).

Lemma deliver_scalar key v view o p l h rest :
  scalar_view v = Some view ->
  deliver handle h ([ev_location p l; ev_key key] ++ events_at o v ++ rest)
  = deliver handle (handler_value view (handler_key key h)) rest.
Proof. destruct v; intros Hv; simplify_eq/=; done. Qed.

Lemma deliver_object key ms o p l h rest :
  Forall (fun m => is_Some (scalar_view m.2)) ms ->
  deliver handle h ([ev_location p l; ev_key key] ++ events_at o (JObject ms) ++ rest)
  = deliver handle (object_end (handle_members ms (object_begin (handler_key key h)))) rest.
Proof.
  intros Hms. cbn [app]. change (deliver handle h (?a :: ?b :: ?l))
    with (deliver handle (handler_key key h) l).
  cbn [events_at]. rewrite <- !app_assoc.
  change (deliver handle ?h ([?a; ?b] ++ ?l)) with (deliver handle (object_begin h) l).
  by rewrite deliver_app, deliver_members.
Qed.

Lemma deliver_document id command arguments :
  Forall (fun m => is_Some (scalar_view m.2)) arguments ->
  deliver handle new_handler
    (events_at 0 (JObject [ (str "request_id", JInt id); (str "command", JString command);
                            (str "arguments", JObject arguments) ]))
  = Some (handled id command arguments).
Proof.
  intros Ha. cbn [events_at]. 
  change (deliver handle ?h ([?a; ?b] ++ ?l)) with (deliver handle (object_begin h) l).
  rewrite deliver_app. cbn [members_at]. cbn [fst snd].
  erewrite deliver_scalar by reflexivity. erewrite deliver_scalar by reflexivity.
  rewrite deliver_object by done. reflexivity.
Qed.

(** Evaluate the comparisons of concrete strings. *)
Ltac decide_strings :=
  repeat match goal with
  | |- context [bool_decide (str ?a = str ?b)] =>
      let r := eval vm_compute in (bool_decide (str a = str b)) in
      change (bool_decide (str a = str b)) with r
  end; cbn iota.

Lemma handle_top id command :
  0 <= id < 2 ^ 64 ->
  handle_members [(str "request_id", JInt id); (str "command", JString command)]
    (object_begin new_handler)
  = Handler id command [] [] [] [] [] 0 3 1 true false (str "command").
Proof.
  intros Hid. cbn [handle_members scalar_view]. remember (to_chars id) as t eqn:Ht.
  assert (get_integral uint64 (ValueView kind_integer t false) = Some id) as Hg
    by (subst t; by apply get_uint64_written).
  unfold handler_value at 2. 
  change (valid_value _) with true. change (depth _) with 1%nat.
  cbn [negb orb andb Nat.eqb key_value handler_key set_shape].
  decide_strings. unfold assign. rewrite Hg. reflexivity.
Qed.

(** A handler in its final state is valid when the identifier is. *)
Lemma valid_handler id c n p l a ps o s k :
  0 < id -> Z.land s 3 = 3 -> handler_valid (Handler id c n p l a ps o s 0 true true k) = true.
Proof.
  intros Hid Hs. unfold handler_valid. simpl.
  assert (forall b, (b = request_id_bit \/ b = command_bit) -> (Z.land s b =? 0) = false) as Hb.
  { intros b Hb. assert (b = Z.land 3 b) as -> by by destruct Hb as [-> | ->].
    rewrite Z.land_assoc, Hs. by destruct Hb as [-> | ->]. }
  rewrite !Hb by auto. simpl. apply negb_true_iff, Z.eqb_neq. lia.
Qed.

Lemma handled_login id name :
  0 < id < 2 ^ 64 ->
  handled id (str "LOGIN") [string_member "name" name]
  = Handler id (str "LOGIN") name [] [] [] [] 0 7 0 true true (str "name").
Proof. intros. unfold handled. rewrite handle_top by lia. reflexivity. Qed.

Lemma handled_client id login arg parameters :
  0 < id < 2 ^ 64 ->
  handled id (str "CLIENT") [string_member "login" login; string_member "arg" arg;
                             string_member "parameters" parameters]
  = Handler id (str "CLIENT") [] [] login arg parameters 0 115 0 true true (str "parameters").
Proof. intros. unfold handled. rewrite handle_top by lia. reflexivity. Qed.

Lemma handled_path id command path :
  0 < id < 2 ^ 64 ->
  handled id command [string_member "path" path]
  = Handler id command [] path [] [] [] 0 11 0 true true (str "path").
Proof. intros. unfold handled. rewrite handle_top by lia. reflexivity. Qed.

Lemma handled_name id command name :
  0 < id < 2 ^ 64 ->
  handled id command [string_member "name" name]
  = Handler id command name [] [] [] [] 0 7 0 true true (str "name").
Proof. intros. unfold handled. rewrite handle_top by lia. reflexivity. Qed.

Lemma handled_none id command :
  0 < id < 2 ^ 64 ->
  handled id command [] = Handler id command [] [] [] [] [] 0 3 0 true true (str "arguments").
Proof. intros. unfold handled. rewrite handle_top by lia. reflexivity. Qed.

Lemma handled_options id command path options :
  0 < id < 2 ^ 64 -> 0 <= options < 2 ^ 64 ->
  handled id command [string_member "path" path; (str "options", JInt options)]
  = Handler id command [] path [] [] [] options 139 0 true true (str "options").
Proof.
  intros. unfold handled. rewrite handle_top by lia. cbn [handle_members scalar_view string_member].
  pose proof (get_uint64_written options ltac:(done)) as Hg.
  remember (to_chars options) as t eqn:Ht.
  unfold handler_value at 1. change (valid_value _) with true. change (depth _) with 2%nat.
  cbn [negb orb andb Nat.eqb key_value handler_key set_shape].
  decide_strings.
  unfold assign at 1. rewrite Hg. reflexivity.
Qed.

Lemma handled_request r :
  json_request_ok r ->
  let '(command, arguments) := request_arguments (json_payload r) in
  let h := handled (json_request_id r) command arguments in
  handler_valid h = true /\ decode_handler h = inr r.
Proof.
  destruct r as [id kind payload]. intros [Hid Hp]. cbn [json_request_id json_kind json_payload] in *.
  destruct payload as [name|q|m]; cbn [request_arguments].
  - subst kind. rewrite handled_login by done. split; [by apply valid_handler; [lia|]|reflexivity].
  - destruct Hp as [-> Hq]. destruct q as [kind path name snap reset].
    unfold server_request_ok in Hq. cbn in Hq. destruct Hq as [-> Hq].
    destruct kind; cbn [request_kind server_arguments command_name request_path request_name
        request_reset_options] in *;
      destruct Hq as (Hq1 & Hq2 & Hq3); subst;
      change reset_ic_options_mask with 7 in *;
      rewrite ?handled_path, ?handled_name, ?handled_none, ?handled_options by (done || lia);
      (split; [by apply valid_handler; [lia|]|]); try reflexivity;
      unfold decode_handler; cbn [command_value]; decide_strings; cbn [find_command server_commands];
      decide_strings; unfold decode_server_request; cbn [path_value name_value seen options_value];
      rewrite bool_decide_eq_false_2 by done; try reflexivity.
    cbn [only has seen]. change reset_ic_options_mask with 7.
    rewrite (proj2 (Z.ltb_ge 7 reset)) by lia.
    assert (u8 reset = reset) as -> by (apply Z.mod_small; lia). reflexivity.
  - subst kind. destruct m as [login arg parameters]. cbn [message_login message_arg message_parameters].
    rewrite handled_client by done. split; [by apply valid_handler; [lia|]|].
    unfold decode_handler. cbn [command_value]. decide_strings.
    unfold decode_client_request. cbn [parameters_value]. rewrite decode_encoded. reflexivity.
Qed.

Lemma arguments_scalar p :
  Forall (fun m => is_Some (scalar_view m.2)) (request_arguments p).2.
Proof. by destruct p as [name|[[] ? ? ? ?]|m]; repeat constructor. Qed.

Lemma arguments_utf8 r :
  request_utf8 r ->
  let '(command, arguments) := request_arguments (json_payload r) in
  valid_utf8 command /\ Forall (fun m => valid_utf8 m.1 /\ readable 2 m.2) arguments.
Proof.
  unfold request_utf8. destruct (json_payload r) as [name|[kind path name snap reset]|m]; intros Hu.
  - split; [by apply ascii_utf8|]. repeat constructor; first [done | by apply ascii_utf8].
  - destruct Hu as [Hp Hn]. destruct kind; (split; [by apply ascii_utf8|]);
      repeat constructor; first [done | by apply ascii_utf8].
  - destruct Hu as [Hl Ha]. split; [by apply ascii_utf8|].
    pose proof (ascii_utf8 _ (base64_ascii (message_parameters m))).
    repeat constructor; first [done | by apply ascii_utf8].
Qed.

Lemma request_document_readable r : request_utf8 r -> readable 0 (request_document r).
Proof.
  intros Hu. apply arguments_utf8 in Hu. unfold request_document.
  destruct (request_arguments _) as [command arguments]. destruct Hu as [Hc Ha].
  assert (foldr (fun m P => (valid_utf8 m.1 /\ readable 2 m.2) /\ P) True arguments) as Hf
    by (induction Ha; simpl; auto).
  cbn [readable foldr fst snd]. unfold max_depth.
  split_and!; try done; try lia; by apply ascii_utf8.
Qed.

Lemma decode_document r output :
  json_request_ok r -> request_utf8 r ->
  decode_json_request (print (request_document r)) output = Some (protocol_none, r).
Proof.
  intros Hr Hu. apply request_document_readable in Hu.
  destruct (print_accepted _ _ eq_refl Hu) as (s & Hs & Hres & Hlog).
  pose proof (handled_request r Hr) as Hh. unfold request_document in Hlog.
  unfold decode_json_request, parse_json, handler_after. rewrite Hs, Hlog, Hres.
  pose proof (arguments_scalar (json_payload r)) as Ha.
  destruct (request_arguments (json_payload r)) as [command arguments].
  rewrite deliver_document by done. destruct Hh as [Hv Hd].
  change (json_parse_ok no_error) with true. cbn zeta in Hv, Hd.
  change (from_option id new_handler (Some ?h)) with h. rewrite Hv, Hd. done.
Qed.

(** ** Outbound messages are JSON documents *)

Definition int_member (name : string) (value : Z) : list byte * jvalue := (str name, JInt value).

(** A member that is left out when its text is empty. *)
Definition text_member (name : string) (value : list byte) : list (list byte * jvalue) :=
  if bool_decide (value = []) then [] else [string_member name value].

Definition diagnostic_document (r : diagnostic_record) : jvalue :=
  JObject
    ([int_member "id" (record_id r);
      string_member "severity" (diagnostic_severity_name (record_severity r))] ++
     text_member "message" (record_message r) ++ text_member "detail" (record_detail r) ++
     if has_position (record_location r)
     then [int_member "line" (location_line (record_location r));
           int_member "column" (location_column (record_location r))]
     else []).

Definition response_members (result : server_response) : list (list byte * jvalue) :=
  match response_payload result with
  | payload_none => []
  | payload_state =>
      [(str "payload", JObject [string_member "state" (state_name (response_state result))])]
  | payload_runtime_value =>
      let value := response_value result in
      [(str "payload",
        JObject [int_member "type" (value_type value); int_member "size" (value_size value);
                 int_member "bits" (value_bits value)])]
  end ++
  if bool_decide (records (response_diagnostics result) = []) then []
  else [(str "diagnostics", JArray (diagnostic_document <$> records (response_diagnostics result)))].

Definition outbound_document (sequence : Z) (p : outbound_payload) : jvalue :=
  JObject
    (int_member "sequence" sequence ::
     match p with
     | protocol_response request result _ =>
         [int_member "request_id" request;
          (str "status", JBool (succeeded (response_status result)))] ++ response_members result
     | server_state_action old_state new_state =>
         [string_member "action" (str "SERVER_STATE"); string_member "old" (state_name old_state);
          string_member "new" (state_name new_state)]
     | client_action_message action =>
         [string_member "action" (str "CLIENT"); string_member "from" (action_from action);
          string_member "arg" (action_arg action);
          string_member "parameters" (append_base64 (action_parameters action) [])]
     | subscription_data subscription data_sequence data =>
         [string_member "action" (str "SUBSCRIPTION_DATA");
          int_member "subscription_id" subscription;
          int_member "subscription_sequence" data_sequence;
          string_member "parameters" (append_base64 data [])]
     end).

(** Every number of a message is of its unsigned 64-bit type. *)
Definition word (z : Z) : Prop := 0 <= z < 2 ^ 64.

Definition record_fits (r : diagnostic_record) : Prop :=
  word (record_id r) /\ word (location_line (record_location r)) /\
  word (location_column (record_location r)).

Definition payload_fits (p : outbound_payload) : Prop :=
  match p with
  | protocol_response request result _ =>
      word request /\ word (value_type (response_value result)) /\
      word (value_size (response_value result)) /\ word (value_bits (response_value result)) /\
      Forall record_fits (records (response_diagnostics result))
  | server_state_action _ _ => True
  | client_action_message _ => True
  | subscription_data subscription data_sequence _ => word subscription /\ word data_sequence
  end.

Lemma append_integer_app z output : word z -> append_integer z output = output ++ to_chars z.
Proof.
  intros [??]. unfold append_integer.
  by rewrite (proj2 (Nat.ltb_ge _ _)) by (apply to_chars_fits; lia).
Qed.

(** The protocol escapes as the JSON writer does. *)
Lemma append_escaped_app value output : append_escaped value output = output ++ quoted value.
Proof. by rewrite <- escaped_string_app. Qed.

Definition plain (c : byte) : bool := bool_decide (escaped [c] = [c]).

Lemma escaped_plain l : forallb plain l = true -> escaped l = l.
Proof.
  induction l as [|c l IH]; simpl; intros; [done|]. unbool. change (c :: l) with ([c] ++ l).
  rewrite escaped_app, IH by done. f_equal. by apply bool_decide_eq_true in H.
Qed.

Lemma base64_unescaped bytes :
  quoted (append_base64 bytes []) = [x22] ++ append_base64 bytes [] ++ [x22].
Proof. rewrite quoted_escaped, escaped_plain; [done|]. by apply base64_chars. Qed.

Lemma print_object ms :
  print (JObject ms) = str "{" ++ separated (print_member <$> ms) ++ str "}".
Proof. done. Qed.

Lemma separated_cons x y l : separated (x :: y :: l) = x ++ str "," ++ separated (y :: l).
Proof. done. Qed.

(** Both sides as one right-nested concatenation. *)
Ltac flatten_print :=
  cbn [app fmap list_fmap separated]; unfold print_member, int_member, string_member;
  cbn [fst snd print]; rewrite <- ?app_assoc; reflexivity.

Lemma append_diagnostic_document output r :
  record_fits r -> append_diagnostic output r = output ++ print (diagnostic_document r).
Proof.
  intros (Hid & Hline & Hcolumn). unfold append_diagnostic, diagnostic_document, text_member.
  rewrite print_object.
  destruct (has_position _), (bool_decide (record_message r = [])), (bool_decide (record_detail r = []));
    rewrite !append_escaped_app, !append_integer_app, <- !app_assoc by done; flatten_print.
Qed.

Lemma append_records_print first l output :
  Forall record_fits l ->
  append_records first l output =
  output ++ (if first || bool_decide (l = []) then [] else str ",") ++
  separated (print <$> (diagnostic_document <$> l)).
Proof.
  intros Hl. revert first output. induction Hl as [|r l Hr Hl IH]; intros first output.
  { cbn. by destruct first; rewrite !app_nil_r. }
  cbn [append_records]. rewrite IH, append_diagnostic_document by done.
  destruct first, l as [|r' l]; cbn [orb bool_decide decide]; cbn -[print]; rewrite <- !app_assoc;
    rewrite ?app_nil_r; done.
Qed.

Lemma append_diagnostics_print diagnostics output :
  Forall record_fits (records diagnostics) ->
  append_diagnostics diagnostics output =
  output ++ if bool_decide (records diagnostics = []) then []
            else quotes ",'diagnostics':" ++
                 print (JArray (diagnostic_document <$> records diagnostics)).
Proof.
  intros Hf. unfold append_diagnostics. case_bool_decide; [by rewrite app_nil_r|].
  rewrite append_records_print by done. cbn [orb print]. by rewrite <- !app_assoc.
Qed.

Lemma append_payload_print result output :
  word (value_type (response_value result)) -> word (value_size (response_value result)) ->
  word (value_bits (response_value result)) -> Forall record_fits (records (response_diagnostics result)) ->
  append_diagnostics (response_diagnostics result) (append_payload result output) =
  output ++ foldr (fun m text => str "," ++ print_member m ++ text) [] (response_members result).
Proof.
  intros Ht Hs Hb Hf. rewrite append_diagnostics_print by done.
  unfold append_payload, response_members.
  destruct (response_payload result), (bool_decide (records _ = []));
    rewrite ?append_escaped_app, ?append_integer_app, <- ?app_assoc by done;
    cbn [app foldr]; unfold print_member; cbn [fst snd]; rewrite ?print_object;
    flatten_print.
Qed.

Lemma separated_members m ms :
  separated (print_member <$> (m :: ms)) =
  print_member m ++ foldr (fun m text => str "," ++ print_member m ++ text) [] ms.
Proof.
  revert m. induction ms as [|m' ms IH]; intros m; [cbn; by rewrite app_nil_r|].
  cbn [foldr]. rewrite <- IH. done.
Qed.

Lemma encode_is_print (w : Outbound.outbound_write outbound_payload) :
  let sequence := Outbound.connection_sequence w in
  let p := Outbound.payload (Outbound.written_message w) in
  word sequence -> payload_fits p ->
  (encode_json_outbound w).2 = print (outbound_document sequence p).
Proof.
  intros sequence p Hs Hp. unfold encode_json_outbound. fold sequence p. cbn [snd].
  unfold outbound_document. rewrite print_object, separated_members.
  destruct p as [request result release|old_state new_state|action|subscription data_sequence data];
    cbn [payload_fits] in Hp.
  - destruct Hp as (Hq & Ht & Hz & Hb & Hf). unfold append_response.
    rewrite append_payload_print, !append_integer_app, <- ?app_assoc by done.
    rewrite foldr_app. generalize (foldr (fun m text => str "," ++ print_member m ++ text) []
      (response_members result)). intros members. cbn [foldr]. flatten_print.
  - unfold append_server_state. rewrite !append_escaped_app, !append_integer_app by done.
    cbn [foldr]. rewrite <- ?app_assoc. flatten_print.
  - unfold append_client_action. rewrite append_base64_app.
    rewrite !append_escaped_app, !append_integer_app by done.
    cbn [foldr]. unfold print_member, string_member. cbn [fst snd print].
    rewrite base64_unescaped, <- ?app_assoc. flatten_print.
  - destruct Hp as [Hu Hd]. unfold append_subscription_data. rewrite append_base64_app.
    rewrite !append_integer_app by done.
    cbn [foldr]. unfold print_member, string_member. cbn [fst snd print].
    rewrite base64_unescaped, <- ?app_assoc. flatten_print.
Qed.

(** The texts of a message are UTF-8. *)
Definition payload_utf8 (p : outbound_payload) : Prop :=
  match p with
  | protocol_response _ result _ =>
      Forall (fun r => valid_utf8 (record_message r) /\ valid_utf8 (record_detail r))
        (records (response_diagnostics result))
  | client_action_message action => valid_utf8 (action_from action) /\ valid_utf8 (action_arg action)
  | server_state_action _ _ | subscription_data _ _ _ => True
  end.

Definition member_readable (d : nat) (m : list byte * jvalue) : Prop :=
  valid_utf8 m.1 /\ readable d m.2.

Lemma readable_object d ms :
  (d < max_depth)%nat -> Forall (member_readable (S d)) ms -> readable d (JObject ms).
Proof. intros Hd Hm. split; [done|]. induction Hm; by split. Qed.

Lemma readable_array d vs :
  (d < max_depth)%nat -> Forall (readable (S d)) vs -> readable d (JArray vs).
Proof. intros Hd Hv. split; [done|]. induction Hv; by split. Qed.

(** A member whose name is ASCII. *)
Lemma ascii_member d name v :
  forallb (fun b => bz b <=? 0x7F) (str name) = true -> readable d v ->
  member_readable d (str name, v).
Proof. intros ??. split; [by apply ascii_utf8|done]. Qed.

Lemma state_name_utf8 s : valid_utf8 (state_name s).
Proof. by destruct s; apply ascii_utf8. Qed.

Ltac each_member :=
  repeat first [apply Forall_nil_2 | apply Forall_cons_2; [apply ascii_member; [done|]|]].

Lemma diagnostic_readable r :
  valid_utf8 (record_message r) -> valid_utf8 (record_detail r) ->
  readable 2 (diagnostic_document r).
Proof.
  intros Hm Hd. apply readable_object; [unfold max_depth; lia|]. unfold text_member.
  assert (valid_utf8 (diagnostic_severity_name (record_severity r))) by
    (by destruct (record_severity r); apply ascii_utf8).
  destruct (bool_decide (record_message r = [])), (bool_decide (record_detail r = [])),
    (has_position _); cbn [app]; each_member; done.
Qed.

Lemma response_members_readable result :
  Forall (fun r => valid_utf8 (record_message r) /\ valid_utf8 (record_detail r))
    (records (response_diagnostics result)) ->
  Forall (member_readable 1) (response_members result).
Proof.
  intros Hp. apply Forall_app. split.
  - destruct (response_payload result); each_member; apply readable_object;
      try (unfold max_depth; lia); each_member; apply state_name_utf8 || done.
  - case_bool_decide; each_member. apply readable_array; [unfold max_depth; lia|].
    apply Forall_fmap. eapply Forall_impl; [exact Hp|]. intros r [??]. by apply diagnostic_readable.
Qed.

Lemma outbound_readable sequence p : payload_utf8 p -> readable 0 (outbound_document sequence p).
Proof.
  intros Hp. apply readable_object; [unfold max_depth; lia|].
  assert (forall bytes, valid_utf8 (append_base64 bytes [])) as Hb
    by (intros; apply ascii_utf8, base64_ascii).
  apply Forall_cons_2; [by apply ascii_member|].
  destruct p as [request result release|old_state new_state|action|subscription data_sequence data].
  - apply Forall_app. split; [each_member; done|by apply response_members_readable].
  - each_member; (by apply ascii_utf8) || apply state_name_utf8.
  - destruct Hp. each_member; (by apply ascii_utf8) || apply Hb || done.
  - each_member; (by apply ascii_utf8) || apply Hb || done.
Qed.

Lemma frame_length payload rest :
  Z.of_nat (length payload) < 2 ^ 32 ->
  decode_tcp_frame_length (encode_tcp_frame payload ++ rest) = Z.of_nat (length payload).
Proof.
  intros Hl. unfold encode_tcp_frame, decode_tcp_frame_length.
  assert (u32 (Z.of_nat (length payload)) = Z.of_nat (length payload)) as -> by
    (apply Z.mod_small; lia).
  set (n := Z.of_nat (length payload)) in *. assert (0 <= n) by lia. clearbody n.
  cbn [app lookup_total list_lookup_total]. rewrite !bz_zb_small by (apply (land_bound_r _ 8); lia).
  unfold u32. rewrite !(land_mask _ 8), !Z.shiftr_div_pow2, !Z.shiftl_mul_pow2 by lia.
  rewrite !(Z.mod_small (_ * _)) by divlia.
  rewrite (lor_disjoint _ (_ * 2 ^ 16) 24) by divlia.
  replace (n / 2 ^ 24 mod 2 ^ 8 * 2 ^ 24 + n / 2 ^ 16 mod 2 ^ 8 * 2 ^ 16)
    with (n / 2 ^ 16 * 2 ^ 16) by divlia.
  rewrite (lor_disjoint _ (_ * 2 ^ 8) 16) by divlia.
  replace (n / 2 ^ 16 * 2 ^ 16 + n / 2 ^ 8 mod 2 ^ 8 * 2 ^ 8) with (n / 2 ^ 8 * 2 ^ 8) by divlia.
  rewrite lor_disjoint by divlia. divlia.
Qed.

(** ** The codec *)


(** Every well-formed request, of every command, is the decoding of its document:
    nothing the protocol can express is refused or altered. *)
Theorem request_document_decodes (r output : json_request) :
  json_request_ok r -> request_utf8 r ->
  decode_json_request (print (request_document r)) output = Some (protocol_none, r).
Proof. apply decode_document. Qed.

Definition example_request : json_request :=
  JsonRequest 7 json_server
    (server_request_payload (ServerRequest request_reset_ic (str "warm.ic") [] 0 5)).

Lemma request_document_decodes_witness :
  decode_json_request (print (request_document example_request)) no_json_request
  = Some (protocol_none, example_request).
Proof.
  apply (request_document_decodes example_request).
  - unfold json_request_ok. simpl. split; [lia|]. split; [done|].
    unfold server_request_ok. simpl. vm_compute. split_and!; done.
  - split; by apply ascii_utf8.
Defined.

Example repeated_member_rejected :
  decode_json_request (quotes "{'request_id':1,'command':'RUN','command':'RUN'}") no_json_request
  = Some (invalid_schema, no_json_request).
Proof. by vm_compute. Qed.

(** An outbound message is sent as the compact text of one JSON document that holds
    its fields, diagnostics and Base64 parameters included, and it is refused exactly
    when that text is larger than a frame may be; the JSON parser accepts the text and
    reads back the fields. *)
Theorem outbound_is_document (w : Outbound.outbound_write outbound_payload) :
  let sequence := Outbound.connection_sequence w in
  let p := Outbound.payload (Outbound.written_message w) in
  word sequence -> payload_fits p -> payload_utf8 p ->
  let text := print (outbound_document sequence p) in
  encode_json_outbound w = (Z.of_nat (length text) <=? 1048576, text) /\
  exists s, run text = Some s /\ result s = no_error /\
    log s = events_at 0 (outbound_document sequence p).
Proof.
  intros sequence p Hs Hp Hu text. split.
  - pose proof (encode_is_print w Hs Hp) as He. fold sequence p in He. fold text in He.
    rewrite <- He. done.
  - apply print_accepted; [done|]. by apply outbound_readable.
Qed.

Definition example_action : Outbound.outbound_write outbound_payload :=
  Outbound.Write 3 (Outbound.Message 100
    (client_action_message (ClientAction (str "ann") (str "go") (str "Rocq9")))).

Lemma outbound_is_document_witness :
  let text := quotes "{'sequence':3,'action':'CLIENT','from':'ann','arg':'go','parameters':'Um9jcTk='}" in
  encode_json_outbound example_action = (true, text) /\
  exists s, run text = Some s /\ result s = no_error /\
    log s = events_at 0 (outbound_document 3
      (client_action_message (ClientAction (str "ann") (str "go") (str "Rocq9")))).
Proof.
  pose proof (outbound_is_document example_action) as H.
  apply H; [done|done|]. split; by apply ascii_utf8.
Defined.
