(* ===== verification/TcpPeer.v ===== *)
(** One client of the TCP endpoint (communication/tcp/tcp_endpoint.cpp): the
    connection gate, the peer with its receive and send buffers, the splitting of the
    received bytes into frames, the dispatch of a decoded request, and sending.  The
    results of [recv] and [send] are arguments; a sequence of them ends with the call
    that would block.  The control message of a Server request leaves out the identity
    of its client, which the control loop does not read. *)

From S2P Require Import Prelude JsonText JsonParser JsonWriter JsonRoundtrip Base64.
From S2P Require Import ServerStatus DiagnosticCatalog Diagnostics OutboundChannel Connection Communication.
From S2P Require Import ServerState Server ServerControl JsonProtocol.

Local Open Scope Z_scope.

Import Outbound Requests.
Import Connection.

(** ** tcp_connection_gate *)

Record connection_gate := Gate { limit : Z; active : Z }.

Definition gate_reset (value : Z) (g : connection_gate) : connection_gate := Gate value 0.

(** The loop of [acquire] ends with its successful exchange or with a full gate. *)
Definition acquire (g : connection_gate) : bool * connection_gate :=
  if active g <? limit g then (true, Gate (limit g) (u32 (active g + 1))) else (false, g).

Definition release (g : connection_gate) : connection_gate :=
  if active g =? 0 then Gate (limit g) 0 else Gate (limit g) (u32 (active g - 1)).

(** ** Peers *)

Record peer := Peer {
  socket_open : bool;
  peer_pointer : Z;
  peer_connection : connection;
  receive_buffer : list byte;
  receive_offset : nat;
  send_buffer : list byte;
  send_offset : nat;
  sending : option (outbound_write outbound_payload);
  accepted_at : Z;
  gate_acquired : bool;
  close_posted : bool
}.

Definition set_peer_connection (x : connection) (v : peer) : peer :=
  Peer (socket_open v) (peer_pointer v) x (receive_buffer v) (receive_offset v) (send_buffer v)
    (send_offset v) (sending v) (accepted_at v) (gate_acquired v) (close_posted v).
Definition set_receive (buffer : list byte) (offset : nat) (v : peer) : peer :=
  Peer (socket_open v) (peer_pointer v) (peer_connection v) buffer offset (send_buffer v)
    (send_offset v) (sending v) (accepted_at v) (gate_acquired v) (close_posted v).
Definition set_send (buffer : list byte) (offset : nat)
    (w : option (outbound_write outbound_payload)) (v : peer) : peer :=
  Peer (socket_open v) (peer_pointer v) (peer_connection v) (receive_buffer v) (receive_offset v)
    buffer offset w (accepted_at v) (gate_acquired v) (close_posted v).

Definition control_queue : Type := request_queue control_message.

(** ** Requests *)

(** [server_response{}] with the status of a refused request. *)
Definition refused_response : server_response :=
  status_response 0 communication_invalid_request empty_collection.

(** The push of a control message, which a stopped queue refuses. *)
Definition post (m : control_message) (request : Z) (x : connection) (q : control_queue)
  : bool * connection * control_queue :=
  let (pushed, q) := push m q in
  if pushed then (true, x, q) else (false, release_request request x, q).

Definition respond (request : Z) (release : bool) (x : connection) (q : control_queue)
  : bool * connection * control_queue :=
  let (ok, x) := enqueue_response request refused_response release x in (ok, x, q).

(** [dispatch]; [p] is the address of the connection. *)
Definition dispatch (p : Z) (text : list byte) (x : connection) (q : control_queue)
  : option (bool * connection * control_queue) :=
  match decode_json_request text no_json_request with
  | None => None
  | Some (code, decoded) => Some
      (let request := json_request_id decoded in
       if negb (bool_decide (code = protocol_none)) || (request =? 0) then (false, x, q)
       else
         let (reserved, x) := reserve_request request x in
         if negb reserved then respond request false x q
         else match json_payload decoded with
         | login_request name => post (login_message (Some p) request name) request x q
         | client_request m =>
             if negb (login_committed x) then respond request true x q
             else post (client_control (Some p) request m) request x q
         | server_request_payload r =>
             if negb (login_committed x) then respond request true x q
             else match make_request_identity x with
                  | None => respond request true x q
                  | Some _ => post (request_message r (origin_connection p request)) request x q
                  end
         end)
  end.

(** ** Receiving *)

Definition compact_receive (v : peer) : peer :=
  if (receive_offset v =? 0)%nat then v
  else if (receive_offset v =? length (receive_buffer v))%nat then set_receive [] 0 v
  else if Z.of_nat (receive_offset v) <? 8192 then v
  else set_receive (drop (receive_offset v) (receive_buffer v)) 0 v.

(** The loop of [consume_frames], which takes at least five bytes a round. *)
Fixpoint frames_loop (fuel : nat) (v : peer) (q : control_queue)
  : option (bool * peer * control_queue) :=
  match fuel with
  | O => None
  | S fuel =>
      let available := (length (receive_buffer v) - receive_offset v)%nat in
      if (available <? 4)%nat then Some (true, compact_receive v, q)
      else
        let begin := drop (receive_offset v) (receive_buffer v) in
        let length := decode_tcp_frame_length begin in
        if (length =? 0) || (tcp_json_max_frame_bytes <? length) then Some (false, v, q)
        else if Z.of_nat available <? 4 + length then Some (true, compact_receive v, q)
        else
          let size := Z.to_nat length in
          match dispatch (peer_pointer v) (take size (drop 4 begin)) (peer_connection v) q with
          | None => None
          | Some (ok, x, q) =>
              let v := set_peer_connection x v in
              if negb ok then Some (false, v, q)
              else frames_loop fuel
                     (set_receive (receive_buffer v) (receive_offset v + (4 + size)) v) q
          end
  end.

Definition consume_frames (v : peer) (q : control_queue) : option (bool * peer * control_queue) :=
  frames_loop (S (length (receive_buffer v))) v q.

Inductive recv_result :=
| received (bytes : list byte)
| recv_closed
| recv_blocked
| recv_failed.

Fixpoint receive (results : list recv_result) (v : peer) (q : control_queue)
  : option (bool * peer * control_queue) :=
  match results with
  | received bytes :: results =>
      match consume_frames (set_receive (receive_buffer v ++ bytes) (receive_offset v) v) q with
      | None => None
      | Some (ok, v, q) => if negb ok then Some (false, v, q) else receive results v q
      end
  | recv_closed :: _ | recv_failed :: _ => Some (false, v, q)
  | recv_blocked :: _ | [] => Some (true, v, q)
  end.

(** ** Sending *)

(** [prepare_one_output], and the round of [prepare_output] for one peer. *)
Definition prepare_one_output (v : peer) : peer :=
  if negb (bool_decide (send_buffer v = [])) || closing (peer_connection v) then v
  else
    let (message, x) := connection_try_next (peer_connection v) in
    let v := set_peer_connection x v in
    match message with
    | None => v
    | Some w =>
        let (ok, json) := encode_json_outbound w in
        if negb ok then set_peer_connection (begin_close x).2 v
        else set_send (encode_tcp_frame json) 0 (Some w) v
    end.

Inductive send_result :=
| sent (n : nat)
| send_blocked
| send_failed.

(** After the last byte of a message. *)
Definition finish_send (v : peer) : peer :=
  let v :=
    match sending v with
    | Some w => set_peer_connection (connection_mark_written w (peer_connection v)) v
    | None => v
    end in
  prepare_one_output (set_send [] 0 None v).

(** [send] takes [n] of the remaining bytes, which are put on the wire. *)
Fixpoint send_pending (results : list send_result) (v : peer) : bool * list byte * peer :=
  if (length (send_buffer v) <=? send_offset v)%nat then (true, [], finish_send v)
  else match results with
  | sent (S n) :: results =>
      let taken := Nat.min (S n) (length (send_buffer v) - send_offset v) in
      let bytes := take taken (drop (send_offset v) (send_buffer v)) in
      let '(ok, wire, v) :=
        send_pending results (set_send (send_buffer v) (send_offset v + taken) (sending v) v) in
      (ok, bytes ++ wire, v)
  | send_blocked :: _ | [] => (true, [], v)
  | sent O :: _ | send_failed :: _ => (false, [], v)
  end.

(** ** Closing *)

Definition close_peer (post_close has_queue : bool) (v : peer) (g : connection_gate)
    (q : control_queue) : peer * connection_gate * control_queue :=
  let x := (begin_close (peer_connection v)).2 in
  let posts := post_close && negb (close_posted v) && has_queue in
  let q := if posts then (push (close_message (Some (peer_pointer v))) q).2 else q in
  let g := if gate_acquired v then release g else g in
  (Peer false (peer_pointer v) x (receive_buffer v) (receive_offset v) (send_buffer v)
     (send_offset v) (sending v) (accepted_at v) false (close_posted v || posts), g, q).

(** ** Frames do not depend on the chunks they arrive in *)

(** The received bytes that are not consumed yet. *)
Definition pending (v : peer) : list byte := drop (receive_offset v) (receive_buffer v).

(** The frames of a stream dispatched one after another: what is left, and the
    connection and the queue. *)
Fixpoint serve (fuel : nat) (p : Z) (stream : list byte) (x : connection) (q : control_queue)
  : option (bool * list byte * connection * control_queue) :=
  match fuel with
  | O => None
  | S fuel =>
      if (length stream <? 4)%nat then Some (true, stream, x, q)
      else
        let n := decode_tcp_frame_length stream in
        if (n =? 0) || (tcp_json_max_frame_bytes <? n) then Some (false, stream, x, q)
        else if Z.of_nat (length stream) <? 4 + n then Some (true, stream, x, q)
        else
          match dispatch p (take (Z.to_nat n) (drop 4 stream)) x q with
          | None => None
          | Some (ok, x, q) =>
              if negb ok then Some (false, stream, x, q)
              else serve fuel p (drop (4 + Z.to_nat n) stream) x q
          end
  end.

Lemma decode_frame_nonneg bytes : 0 <= decode_tcp_frame_length bytes.
Proof.
  unfold decode_tcp_frame_length. byte_ranges.
  repeat (apply Z.lor_nonneg; split); try lia; apply Z.mod_pos_bound; lia.
Qed.

Lemma serve_fuel n m p stream x q r :
  (length stream < n)%nat -> (length stream < m)%nat ->
  serve n p stream x q = r -> serve m p stream x q = r.
Proof.
  revert m stream x q. induction n as [|n IH]; intros [|m] stream x q Hn Hm; try lia.
  cbn [serve]. destruct (Nat.ltb_spec (length stream) 4); [done|].
  destruct (_ || _) eqn:E; [done|]. unbool. pose proof (decode_frame_nonneg stream).
  destruct (Z.ltb_spec (Z.of_nat (length stream)) (4 + decode_tcp_frame_length stream)); [done|].
  destruct (dispatch _ _ _ _) as [[[[|] x'] q']|]; try done. simpl negb. cbn iota.
  apply IH; rewrite length_drop; lia.
Qed.

Lemma dispatch_returns p text x q : exists ok x' q', dispatch p text x q = Some (ok, x', q').
Proof.
  unfold dispatch. destruct (decode_returns_ok text no_json_request) as (code & r & -> & _).
  match goal with |- context [Some ?t] => destruct t as [[??]?] end. by eexists _, _, _.
Qed.

Lemma serve_returns fuel p stream x q :
  (length stream < fuel)%nat -> exists ok rest x' q', serve fuel p stream x q = Some (ok, rest, x', q').
Proof.
  revert stream x q. induction fuel as [|fuel IH]; intros stream x q Hf; [lia|]. cbn [serve].
  destruct (Nat.ltb_spec (length stream) 4); [by eexists _, _, _, _|].
  destruct (_ || _) eqn:E; [by eexists _, _, _, _|].
  destruct (Z.ltb_spec (Z.of_nat (length stream)) (4 + decode_tcp_frame_length stream));
    [by eexists _, _, _, _|].
  destruct (dispatch_returns p (take (Z.to_nat (decode_tcp_frame_length stream)) (drop 4 stream)) x q)
    as ([|] & x' & q' & ->); [|by eexists _, _, _, _]. apply IH. rewrite length_drop. lia.
Qed.

(** Compaction keeps the bytes that are pending. *)
Lemma compact_pending v :
  (receive_offset v <= length (receive_buffer v))%nat ->
  pending (compact_receive v) = pending v /\
  peer_connection (compact_receive v) = peer_connection v /\
  peer_pointer (compact_receive v) = peer_pointer v /\
  (receive_offset (compact_receive v) <= length (receive_buffer (compact_receive v)))%nat.
Proof.
  intros Ho. unfold compact_receive, pending.
  destruct (Nat.eqb_spec (receive_offset v) 0); [done|].
  destruct (Nat.eqb_spec (receive_offset v) (length (receive_buffer v))) as [He|].
  - simpl. rewrite He, drop_all. split_and!; done || lia.
  - destruct (_ <? _); [done|]. simpl. split_and!; done || lia.
Qed.

(** What [consume_frames] is: serving the pending bytes. *)
Lemma frames_loop_serves fuel v q :
  (receive_offset v <= length (receive_buffer v))%nat -> (length (pending v) < fuel)%nat ->
  exists ok rest x q' v', serve fuel (peer_pointer v) (pending v) (peer_connection v) q
    = Some (ok, rest, x, q') /\
    frames_loop fuel v q = Some (ok, v', q') /\ pending v' = rest /\ peer_connection v' = x /\
    peer_pointer v' = peer_pointer v /\
    (receive_offset v' <= length (receive_buffer v'))%nat.
Proof.
  revert v q. induction fuel as [|fuel IH]; intros v q Ho Hf; [lia|]. cbn [serve frames_loop].
  fold (pending v). rewrite <- length_drop. fold (pending v).
  pose proof (compact_pending v Ho) as (Hc1 & Hc2 & Hc3 & Hc4).
  destruct (Nat.ltb_spec (length (pending v)) 4); [by eexists _, _, _, _, _|].
  destruct (_ || _) eqn:E; [by eexists _, _, _, _, _|]. unbool.
  pose proof (decode_frame_nonneg (pending v)).
  destruct (Z.ltb_spec (Z.of_nat (length (pending v))) (4 + decode_tcp_frame_length (pending v)));
    [by eexists _, _, _, _, _|].
  destruct (dispatch_returns (peer_pointer v)
    (take (Z.to_nat (decode_tcp_frame_length (pending v))) (drop 4 (pending v)))
    (peer_connection v) q) as ([|] & x & q' & ->); [|by eexists _, _, _, _, _].
  simpl negb. cbn iota. unfold pending in *.
  set (v1 := set_receive _ _ _).
  assert (pending v1 = drop (4 + Z.to_nat (decode_tcp_frame_length (pending v))) (pending v)) as Hp.
  { unfold pending, v1. simpl. rewrite drop_drop. f_equal. }
  rewrite length_drop in *.
  destruct (IH v1 q') as (ok & rest & x1 & q1 & v' & Hs & Hl & Hr); unfold v1 in *; simpl in *.
  { lia. } { rewrite length_drop. lia. }
  unfold pending in Hp. simpl in Hp. rewrite Hp in Hs. by eexists _, _, _, _, _.
Qed.

Lemma decode_frame_app a b :
  (4 <= length a)%nat -> decode_tcp_frame_length (a ++ b) = decode_tcp_frame_length a.
Proof.
  intros Ha. unfold decode_tcp_frame_length.
  by rewrite !lookup_total_app_l by lia.
Qed.

Lemma serve_step n p stream x q :
  serve (S n) p stream x q =
  if (length stream <? 4)%nat then Some (true, stream, x, q)
  else
    let len := decode_tcp_frame_length stream in
    if (len =? 0) || (tcp_json_max_frame_bytes <? len) then Some (false, stream, x, q)
    else if Z.of_nat (length stream) <? 4 + len then Some (true, stream, x, q)
    else
      match dispatch p (take (Z.to_nat len) (drop 4 stream)) x q with
      | None => None
      | Some (ok, x, q) =>
          if negb ok then Some (false, stream, x, q)
          else serve n p (drop (4 + Z.to_nat len) stream) x q
      end.
Proof. done. Qed.

(** Serving more bytes later continues where serving stopped. *)
Lemma serve_app n p a b x q :
  (length (a ++ b) < n)%nat ->
  serve n p (a ++ b) x q =
  match serve n p a x q with
  | Some (true, rest, x, q) => serve n p (rest ++ b) x q
  | Some (false, rest, x, q) => Some (false, rest ++ b, x, q)
  | None => None
  end.
Proof.
  intros Hn. assert (forall m, (length a < m)%nat -> (m <= n)%nat ->
    serve n p (a ++ b) x q =
    match serve m p a x q with
    | Some (true, rest, x, q) => serve n p (rest ++ b) x q
    | Some (false, rest, x, q) => Some (false, rest ++ b, x, q)
    | None => None
    end) as Hm; [|apply Hm; rewrite length_app in Hn; lia].
  intros m. revert a x q Hn. induction m as [|m IH]; intros a x q Hn Hm Hle; [lia|].
  rewrite length_app in Hn.
  destruct n as [|n]; [lia|]. rewrite (serve_step m). cbv zeta.
  destruct (Nat.ltb_spec (length a) 4); [done|].
  rewrite (serve_step n p (a ++ b)). cbv zeta.
  rewrite length_app, (proj2 (Nat.ltb_ge (length a + length b) 4)) by lia.
  rewrite decode_frame_app by lia. destruct (_ || _) eqn:E; [done|]. unbool.
  pose proof (decode_frame_nonneg a).
  destruct (Z.ltb_spec (Z.of_nat (length a)) (4 + decode_tcp_frame_length a)) as [Hs|Hs].
  { cbn [serve]. rewrite length_app, decode_frame_app by lia.
    rewrite (proj2 (Nat.ltb_ge (length a + length b) 4)) by lia.
    rewrite (proj2 (Z.eqb_neq _ 0)), (proj2 (Z.ltb_ge tcp_json_max_frame_bytes _)) by lia. done. }
  rewrite (proj2 (Z.ltb_ge _ _)) by lia.
  rewrite drop_app_le, take_app_le by (rewrite ?length_drop; lia).
  destruct (dispatch _ _ _ _) as [[[[|] x'] q']|]; [|done..]. simpl negb. cbn iota.
  rewrite drop_app_le by lia.
  rewrite <- IH by (rewrite ?length_app, ?length_drop; lia).
  eapply serve_fuel; [| |reflexivity]; rewrite length_app, length_drop; lia.
Qed.

Lemma consume_frames_serves v q :
  (receive_offset v <= length (receive_buffer v))%nat ->
  exists ok rest x q' v',
    serve (S (length (pending v))) (peer_pointer v) (pending v) (peer_connection v) q
    = Some (ok, rest, x, q') /\
    consume_frames v q = Some (ok, v', q') /\ pending v' = rest /\ peer_connection v' = x /\
    peer_pointer v' = peer_pointer v /\ (receive_offset v' <= length (receive_buffer v'))%nat.
Proof.
  intros Ho. destruct (frames_loop_serves (S (length (receive_buffer v))) v q)
    as (ok & rest & x & q' & v' & Hs & Hl); [done|unfold pending; rewrite length_drop; lia|].
  exists ok, rest, x, q', v'. split; [|done].
  eapply serve_fuel; [| |exact Hs]; unfold pending; rewrite ?length_drop; lia.
Qed.

(** The beginning of a frame that is not there as a whole. *)
Definition incomplete (stream : list byte) : bool :=
  (length stream <? 4)%nat ||
  negb ((decode_tcp_frame_length stream =? 0) ||
        (tcp_json_max_frame_bytes <? decode_tcp_frame_length stream)) &&
  (Z.of_nat (length stream) <? 4 + decode_tcp_frame_length stream).

Lemma serve_incomplete n p stream x q :
  incomplete stream = true -> serve (S n) p stream x q = Some (true, stream, x, q).
Proof.
  intros Hi. rewrite serve_step. cbv zeta. unfold incomplete in Hi.
  destruct (length stream <? 4)%nat; [done|]. cbn [orb] in Hi. unbool.
  rewrite (proj2 (Z.eqb_neq _ 0)), (proj2 (Z.ltb_ge tcp_json_max_frame_bytes _)) by lia.
  by rewrite (proj2 (Z.ltb_lt _ _)).
Qed.

Lemma serve_stops n p stream x q rest x' q' :
  serve n p stream x q = Some (true, rest, x', q') -> incomplete rest = true.
Proof.
  revert stream x q. induction n as [|n IH]; intros stream x q; [done|].
  rewrite serve_step. cbv zeta. unfold incomplete.
  destruct (length stream <? 4)%nat eqn:E1; [by intros [= <- <- <-]; rewrite E1|].
  destruct (_ || _) eqn:E2; [done|]. destruct (Z.of_nat _ <? _) eqn:E3.
  { intros [= <- <- <-]. by rewrite E1, E2, E3. }
  destruct (dispatch _ _ _ _) as [[[[|] ?] ?]|]; [apply IH|done..].
Qed.

Lemma serve_rest_length n p stream x q ok rest x' q' :
  serve n p stream x q = Some (ok, rest, x', q') -> (length rest <= length stream)%nat.
Proof.
  revert stream x q. induction n as [|n IH]; intros stream x q; [done|].
  rewrite serve_step. cbv zeta.
  destruct (length stream <? 4)%nat; [by intros [= <- <- <- <-]|].
  destruct (_ || _); [by intros [= <- <- <- <-]|].
  destruct (Z.of_nat _ <? _); [by intros [= <- <- <- <-]|].
  destruct (dispatch _ _ _ _) as [[[[|] ?] ?]|]; [|by intros [= <- <- <- <-]|done].
  simpl negb. cbn iota. intros Hs%IH. rewrite length_drop in Hs. lia.
Qed.

Lemma receive_serves cs v q :
  (receive_offset v <= length (receive_buffer v))%nat -> incomplete (pending v) = true ->
  let stream := pending v ++ concat cs in
  exists ok rest x q' v',
    serve (S (length stream)) (peer_pointer v) stream (peer_connection v) q = Some (ok, rest, x, q') /\
    receive (received <$> cs) v q = Some (ok, v', q') /\ peer_connection v' = x /\
    (ok = true -> pending v' = rest).
Proof.
  revert v q. induction cs as [|c cs IH]; intros v q Ho Hi stream; subst stream;
    cbn [concat fmap list_fmap receive].
  { rewrite app_nil_r, serve_incomplete by done. by eexists _, _, _, _, _. }
  set (v1 := set_receive _ _ v).
  assert (pending v1 = pending v ++ c) as Hp.
  { unfold pending, v1. simpl. by rewrite drop_app_le. }
  destruct (consume_frames_serves v1 q) as (ok & rest & x & q' & v2 & Hs & -> & <- & <- & Hp2 & Ho2).
  { unfold v1. simpl. rewrite length_app. lia. }
  rewrite Hp in Hs. change (peer_pointer v1) with (peer_pointer v) in *.
  change (peer_connection v1) with (peer_connection v) in *.
  rewrite app_assoc, serve_app by (rewrite !length_app; lia).
  erewrite (serve_fuel _ (S (length ((pending v ++ c) ++ concat cs))));
    [| |rewrite !length_app; lia|exact Hs]; [|lia].
  destruct ok; simpl negb; cbn iota; [|by eexists _, _, _, _, _].
  pose proof (serve_stops _ _ _ _ _ _ _ _ Hs) as Hi2.
  destruct (IH v2 q' Ho2 Hi2) as (ok & rest & x & q'' & v3 & Hs3 & Hr3). rewrite Hp2 in Hs3.
  exists ok, rest, x, q'', v3. split; [|exact Hr3].
  pose proof (serve_rest_length _ _ _ _ _ _ _ _ _ Hs) as Hl. rewrite length_app in Hl.
  eapply serve_fuel; [| |exact Hs3]; rewrite !length_app; lia.
Qed.

(** The requests in [payloads] dispatched in order, up to the first that ends the
    connection. *)
Fixpoint dispatch_all (p : Z) (payloads : list (list byte)) (x : connection) (q : control_queue)
  : option (bool * connection * control_queue) :=
  match payloads with
  | [] => Some (true, x, q)
  | text :: payloads =>
      match dispatch p text x q with
      | Some (true, x, q) => dispatch_all p payloads x q
      | other => other
      end
  end.

Definition frame_size_ok (payload : list byte) : Prop :=
  1 <= Z.of_nat (length payload) <= tcp_json_max_frame_bytes.

Lemma serve_frames payloads partial n p x q :
  Forall frame_size_ok payloads -> incomplete partial = true ->
  let stream := concat (encode_tcp_frame <$> payloads) ++ partial in
  (length stream < n)%nat ->
  exists ok x' q' rest, dispatch_all p payloads x q = Some (ok, x', q') /\
    serve n p stream x q = Some (ok, rest, x', q') /\ (ok = true -> rest = partial).
Proof.
  intros Hf Hi. revert n x q. induction Hf as [|text payloads Ht Hf IH]; intros n x q stream Hn.
  { destruct n as [|n]; [lia|]. subst stream. simpl app. rewrite serve_incomplete by done.
    by eexists _, _, _, _. }
  subst stream. cbn [concat fmap list_fmap dispatch_all] in *. rewrite <- app_assoc in *.
  set (stream := concat _ ++ partial) in *. destruct n as [|n]; [lia|].
  unfold frame_size_ok in Ht. assert (tcp_json_max_frame_bytes = 1048576) as Hmax by done.
  assert (length (encode_tcp_frame text ++ stream) = (4 + length text + length stream)%nat) as Hl
    by by rewrite length_app.
  rewrite serve_step. cbv zeta. rewrite Hl in *.
  rewrite frame_length, (proj2 (Nat.ltb_ge _ 4)) by lia.
  rewrite (proj2 (Z.eqb_neq _ 0)), (proj2 (Z.ltb_ge tcp_json_max_frame_bytes _)) by lia.
  cbn [orb]. rewrite (proj2 (Z.ltb_ge _ (4 + _))), Nat2Z.id by lia.
  assert (drop 4 (encode_tcp_frame text ++ stream) = text ++ stream) as Hd by done.
  rewrite Hd, take_app_length, <- drop_drop, Hd, drop_app_length.
  destruct (dispatch_returns p text x q) as ([|] & x' & q' & ->); [|by eexists _, _, _, _].
  simpl negb. cbn iota. apply IH. lia.
Qed.

(** C17: Requests are framed reliably: however the bytes of the stream are cut into
    chunks, the payloads of its frames are dispatched in order, each as a whole and
    once, up to the first that ends the connection, and the part of a frame that has
    not arrived completely stays pending. *)
Theorem frames_dispatched_in_order (v : peer) (q : control_queue) (chunks : list (list byte))
    (payloads : list (list byte)) (partial : list byte) :
  (receive_offset v <= length (receive_buffer v))%nat -> incomplete (pending v) = true ->
  Forall frame_size_ok payloads -> incomplete partial = true ->
  pending v ++ concat chunks = concat (encode_tcp_frame <$> payloads) ++ partial ->
  exists ok x q' v',
    dispatch_all (peer_pointer v) payloads (peer_connection v) q = Some (ok, x, q') /\
    receive (received <$> chunks) v q = Some (ok, v', q') /\ peer_connection v' = x /\
    (ok = true -> pending v' = partial).
Proof.
  intros Ho Hi Hf Hp He.
  destruct (receive_serves chunks v q Ho Hi) as (ok & rest & x & q' & v' & Hs & Hr & Hx & Hrest).
  rewrite He in Hs.
  destruct (serve_frames payloads partial _ (peer_pointer v) (peer_connection v) q Hf Hp
    (Nat.lt_succ_diag_r _)) as (ok' & x' & q'' & rest' & Hd & Hs' & Hrest').
  rewrite Hs in Hs'. simplify_eq. exists ok', (peer_connection v'), q'', v'.
  split_and!; [done..|]. intros H. rewrite Hrest by done. auto.
Qed.

Definition example_peer : peer :=
  Peer true 1 (create 9 1000) [] 0 [] 0 None 0 true false.

(** A login and the beginning of the next frame, in two chunks. *)
Definition example_login : list byte :=
  quotes "{'request_id':1,'command':'LOGIN','arguments':{'name':'ann'}}".

Definition example_chunks : list (list byte) :=
  [take 10 (encode_tcp_frame example_login);
   drop 10 (encode_tcp_frame example_login) ++ [x00; x00]].

Lemma frames_dispatched_in_order_witness :
  exists ok x q' v',
    dispatch_all 1 [example_login] (create 9 1000) new_request_queue = Some (ok, x, q') /\
    receive (received <$> example_chunks) example_peer new_request_queue = Some (ok, v', q') /\
    peer_connection v' = x /\ (ok = true -> pending v' = [x00; x00]).
Proof.
  apply (frames_dispatched_in_order example_peer new_request_queue example_chunks [example_login]
    [x00; x00]); try done.
  constructor; [by vm_compute|done].
Defined.

(** ** What the client receives *)

(** The frame of a message, as it is sent. *)
Definition frame_of (w : outbound_write outbound_payload) : list byte :=
  encode_tcp_frame (encode_json_outbound w).2.

(** The message being sent is the one in the send buffer. *)
Definition sending_ok (v : peer) : Prop :=
  (send_offset v <= length (send_buffer v))%nat /\
  match sending v with
  | Some w => send_buffer v = frame_of w /\ (encode_json_outbound w).1 = true
  | None => send_buffer v = []
  end.

(** The part of the send buffer that is on the wire. *)
Definition sent_part (v : peer) : list byte := take (send_offset v) (send_buffer v).

Lemma sent_part_nil v : send_buffer v = [] -> sent_part v = [].
Proof. intros Hb. unfold sent_part. by rewrite Hb, take_nil. Qed.

Lemma prepare_one_ok v :
  sending_ok v ->
  sending_ok (prepare_one_output v) /\ sent_part (prepare_one_output v) = sent_part v.
Proof.
  intros Hv. unfold prepare_one_output. case_bool_decide as Hb; cbn [negb orb]; [|exact (conj Hv eq_refl)].
  destruct (closing _); [exact (conj Hv eq_refl)|].
  destruct (connection_try_next _) as [[w|] x]; [|exact (conj Hv eq_refl)].
  destruct (encode_json_outbound w) as [ok json] eqn:E.
  destruct ok; simpl negb; cbn iota; [|exact (conj Hv eq_refl)].
  rewrite (sent_part_nil v) by done. split; [|done].
  split; [apply Nat.le_0_l|]. cbn [sending set_send send_buffer]. unfold frame_of. by rewrite E.
Qed.

Lemma frame_not_empty w : frame_of w <> [].
Proof. done. Qed.

(** Calls that touch the output of a peer: its own two, and what other threads do to
    the connection. *)
Inductive output_call :=
| output_prepare
| output_send (results : list send_result)
| output_other (f : connection -> connection).

(** The bytes put on the wire, and the message that was completed by them. *)
Definition output_step (c : output_call) (v : peer)
  : list byte * list (outbound_write outbound_payload) * peer :=
  match c with
  | output_prepare => ([], [], prepare_one_output v)
  | output_send results =>
      let '(_, wire, v') := send_pending results v in
      (wire,
       if (length (send_buffer v) <=? send_offset v + length wire)%nat
       then option_list (sending v) else [], v')
  | output_other f => ([], [], set_peer_connection (f (peer_connection v)) v)
  end.

Fixpoint output_run (calls : list output_call) (v : peer)
  : list byte * list (outbound_write outbound_payload) * peer :=
  match calls with
  | [] => ([], [], v)
  | c :: calls =>
      let '(wire, done, v) := output_step c v in
      let '(wire', done', v) := output_run calls v in
      (wire ++ wire', done ++ done', v)
  end.

Lemma finish_send_ok v : sending_ok (finish_send v) /\ sent_part (finish_send v) = [].
Proof.
  unfold finish_send. set (v1 := match sending v with Some w => _ | None => v end).
  destruct (prepare_one_ok (set_send [] 0 None v1)) as [Ho He]; [by split|].
  split; [done|]. by rewrite He.
Qed.

(** [send_pending] puts the next bytes of the buffer on the wire, and goes on to the
    next message exactly when it sent the last of them. *)
Lemma send_pending_exact results v ok wire v' :
  (send_offset v <= length (send_buffer v))%nat ->
  send_pending results v = (ok, wire, v') ->
  (wire = drop (send_offset v) (send_buffer v) /\ ok = true /\ sending_ok v' /\ sent_part v' = [])
  \/
  ((send_offset v + length wire < length (send_buffer v))%nat /\
   v' = set_send (send_buffer v) (send_offset v + length wire) (sending v) v /\
   sent_part v' = sent_part v ++ wire).
Proof.
  revert v ok wire v'. induction results as [|r results IH]; intros v ok wire v' Ho; cbn [send_pending].
  all: destruct (Nat.leb_spec (length (send_buffer v)) (send_offset v)) as [Hl|Hl];
    [intros [= <- <- <-]; left; rewrite drop_ge by done; split_and!; try done; apply finish_send_ok|].
  all: assert (v = set_send (send_buffer v) (send_offset v + 0) (sending v) v) as Hv
    by (rewrite Nat.add_0_r; by destruct v).
  - intros [= <- <- <-]. right. rewrite app_nil_r. simpl. split; [lia|done].
  - assert (forall (b : bool), (b, [], v) = (ok, wire, v') ->
      (send_offset v + length wire < length (send_buffer v))%nat /\
      v' = set_send (send_buffer v) (send_offset v + length wire) (sending v) v /\
      sent_part v' = sent_part v ++ wire) as Hstop.
    { intros b [= <- <- <-]. rewrite app_nil_r. simpl. split; [lia|done]. }
    destruct r as [[|n]| |]; try (intros H; right; by eapply Hstop).
    set (taken := Nat.min (S n) (length (send_buffer v) - send_offset v)).
    set (v1 := set_send _ _ _ v). destruct (send_pending results v1) as [[ok1 wire1] v2] eqn:E.
    assert (send_offset v + taken <= length (send_buffer v))%nat as Ht by (unfold taken; lia).
    intros [= <- <- <-]. apply IH in E; [|exact Ht].
    unfold v1 in E. cbn [send_buffer send_offset sending set_send] in E.
    assert (length (take taken (drop (send_offset v) (send_buffer v))) = taken) as Hlen.
    { rewrite length_take, length_drop. unfold taken. lia. }
    destruct E as [(-> & -> & Hok & Hsp)|(Hlt & -> & Hsp)]; [left|right].
    + split_and!; [|done..]. rewrite <- drop_drop. apply take_drop.
    + rewrite length_app, Hlen, Nat.add_assoc. split_and!; [done|by destruct v|].
      rewrite Hsp, app_assoc. f_equal. unfold sent_part. cbn [send_buffer send_offset set_send].
      by rewrite take_take_drop.
Qed.

Lemma output_step_ok c v :
  sending_ok v ->
  let '(wire, written, v') := output_step c v in
  sending_ok v' /\ sent_part v ++ wire = concat (frame_of <$> written) ++ sent_part v'.
Proof.
  intros Hv. destruct c as [|results|f]; cbn [output_step].
  - destruct (prepare_one_ok v Hv) as [Ho He]. split; [done|]. by rewrite app_nil_r, He.
  - destruct (send_pending results v) as [[ok wire] v'] eqn:E.
    apply send_pending_exact in E; [|apply Hv].
    destruct E as [(-> & -> & Ho & ->)|(Hlt & -> & ->)].
    + split; [done|]. rewrite length_drop, (proj2 (Nat.leb_le _ _)) by lia.
      unfold sent_part. rewrite take_drop, app_nil_r. destruct Hv as [_ Hv].
      destruct (sending v) as [w|]; simpl; [|done]. rewrite app_nil_r. by destruct Hv.
    + rewrite (proj2 (Nat.leb_gt _ _)) by done. split; [|done].
      destruct Hv as [Hv1 Hv2]. split; [simpl; lia|exact Hv2].
  - split; [exact Hv|]. by rewrite app_nil_r.
Qed.

(** What a client receives is the frames of the messages the server reports as
    written, in that order and complete, followed by the part of the current frame
    that has been sent, whatever part of the buffer each [send] takes and whatever
    other threads do to the connection in between. *)
Theorem wire_carries_frames (calls : list output_call) (v : peer) :
  send_buffer v = [] -> send_offset v = 0%nat -> sending v = None ->
  let '(wire, written, v') := output_run calls v in
  wire = concat (frame_of <$> written) ++ sent_part v' /\ sending_ok v'.
Proof.
  intros Hb Ho Hn. assert (sending_ok v) as Hv by (split; [lia|by rewrite Hn]).
  assert (sent_part v = []) as Hp by by apply sent_part_nil. clear Hb Ho Hn.
  assert (let '(wire, written, v') := output_run calls v in
    sent_part v ++ wire = concat (frame_of <$> written) ++ sent_part v' /\ sending_ok v') as H.
  { clear Hp. revert v Hv. induction calls as [|c calls IH]; intros v Hv; cbn [output_run].
    { rewrite app_nil_r. by split. }
    pose proof (output_step_ok c v Hv) as Hc. destruct (output_step c v) as [[wire written] v1].
    destruct Hc as [Hv1 Hc]. specialize (IH v1 Hv1). destruct (output_run calls v1) as [[w' d'] v2].
    destruct IH as [IH Hv2]. split; [|done].
    by rewrite app_assoc, Hc, fmap_app, concat_app, <- !app_assoc, IH. }
  destruct (output_run calls v) as [[wire written] v']. by rewrite Hp in H.
Qed.

(** A state change is queued, framed and sent in two parts. *)
Definition example_output : list output_call :=
  [ output_other (fun x => (enqueue_message 64 (server_state_action unloaded loaded) x).2);
    output_prepare; output_send [sent 5; send_blocked]; output_send [sent 1000] ].

Lemma wire_carries_frames_witness :
  let '(wire, written, v') := output_run example_output example_peer in
  wire = concat (frame_of <$> written) ++ sent_part v' /\ sending_ok v'.
Proof. apply (wire_carries_frames example_output example_peer); reflexivity. Defined.

Example one_message_written :
  length (snd (fst (output_run example_output example_peer))) = 1%nat.
Proof. by vm_compute. Qed.
