(* ===== verification/TcpEndpoint.v ===== *)
(** The event loop of the TCP endpoint (communication/tcp/tcp_endpoint.cpp): accepting,
    expiring and servicing the peers, one iteration of [run], and [stop].  What the
    system calls return is an argument: the results of [accept], of [poll], and of
    [recv] and [send] on the socket of each peer.  The theorems say that the gate
    counts the open peers and never passes its limit, that servicing treats every peer
    by its own events as long as none is closed, and what happens when one is. *)

From S2P Require Import Prelude OutboundChannel Connection Communication.
From S2P Require Import ServerState Server ServerControl JsonProtocol TcpPeer.

Local Open Scope Z_scope.

Import Requests.
Import Connection.

Record endpoint := Endpoint {
  peers : list peer;
  gate : connection_gate;
  control : control_queue;
  next_session : Z;
  max_lifetime : Z
}.

Definition set_peers (l : list peer) (e : endpoint) : endpoint :=
  Endpoint l (gate e) (control e) (next_session e) (max_lifetime e).

(** An accepted socket: the address its connection object gets, the time, and whether
    it could be made non-blocking. *)
Record accepted_socket := AcceptedSocket {
  accepted_pointer : Z;
  accepted_time : Z;
  nonblocking : bool
}.

(** The identifier of the next session, which is never zero. *)
Definition take_session (e : endpoint) : Z * Z :=
  let id_value := next_session e in
  let next := u64 (id_value + 1) in
  if id_value =? 0 then (next, u64 (next + 1)) else (id_value, next).

(** The round of [accept_peers] for one socket; a refused one is closed. *)
Definition accept_peer (a : accepted_socket) (e : endpoint) : endpoint :=
  if negb (nonblocking a) then e
  else
    let (entered, g) := acquire (gate e) in
    if negb entered then Endpoint (peers e) g (control e) (next_session e) (max_lifetime e)
    else
      let (id, next) := take_session e in
      let value := Peer true (accepted_pointer a) (create id tcp_json_outbound_budget_bytes)
                     [] 0 [] 0 None (accepted_time a) true false in
      Endpoint (peers e ++ [value]) g (control e) next (max_lifetime e).

Definition accept_peers (sockets : list accepted_socket) (e : endpoint) : endpoint :=
  foldl (fun e a => accept_peer a e) e sockets.

Definition expire_peers (now : Z) (e : endpoint) : endpoint :=
  if max_lifetime e =? 0 then e
  else set_peers
    ((fun v => if max_lifetime e <=? now - accepted_at v
               then set_peer_connection (begin_close (peer_connection v)).2 v else v) <$> peers e) e.

Definition prepare_output (e : endpoint) : endpoint :=
  set_peers (prepare_one_output <$> peers e) e.

(** ** Servicing *)

(** The events [poll] reports for a descriptor; [hangup] is POLLERR, POLLHUP or
    POLLNVAL. *)
Record poll_events := PollEvents { hangup : bool; readable : bool; writable : bool }.

Definition no_events : poll_events := PollEvents false false false.

(** What the system calls on the sockets of the peers return. *)
Record sockets := Sockets {
  recv_results : Z -> list recv_result;
  send_results : Z -> list send_result
}.

(** Whether the peer stays alive. *)
Definition service_peer (s : sockets) (events : poll_events) (v : peer) (q : control_queue)
  : option (bool * peer * control_queue) :=
  if hangup events then Some (false, v, q)
  else
    match (if readable events then receive (recv_results s (peer_pointer v)) v q
           else Some (true, v, q)) with
    | None => None
    | Some (alive, v, q) =>
        let '(alive, v) :=
          if alive && writable events
          then let '(ok, _, v) := send_pending (send_results s (peer_pointer v)) v in (ok, v)
          else (alive, v) in
        Some (alive && negb (closing (peer_connection v)), v, q)
    end.

(** The loop over the peers in [run]: [revents] holds the events of the descriptors
    that were polled, one for each peer there was before [accept_peers].  A round
    either goes on to the next index or erases a peer. *)
Fixpoint service_loop (fuel : nat) (s : sockets) (revents : list poll_events) (peer_count index : nat)
    (e : endpoint) : option endpoint :=
  match fuel with
  | O => None
  | S fuel =>
      if (index <? peer_count)%nat && (index <? length (peers e))%nat then
        match revents !! index, peers e !! index with
        | Some events, Some v =>
            match service_peer s events v (control e) with
            | None => None
            | Some (alive, v, q) =>
                if negb alive then
                  let '(_, g, q) := close_peer true true v (gate e) q in
                  service_loop fuel s revents peer_count index
                    (Endpoint (delete index (peers e)) g q (next_session e) (max_lifetime e))
                else
                  service_loop fuel s revents peer_count (S index)
                    (Endpoint (<[index := v]> (peers e)) (gate e) q (next_session e) (max_lifetime e))
            end
        | _, _ => Some e
        end
      else Some e
  end.

Definition service_peers (s : sockets) (revents : list poll_events) (e : endpoint) : option endpoint :=
  service_loop (S (length (peers e))) s revents (length (peers e)) 0 e.

(** What [poll] returns: a failure ends the loop. *)
Inductive poll_result :=
| poll_failed
| poll_timeout
| poll_ready (accepted : list accepted_socket) (revents : list poll_events) (s : sockets).

(** One iteration of [run]; the flag tells whether the loop goes on. *)
Definition run_iteration (now : Z) (r : poll_result) (e : endpoint) : option (bool * endpoint) :=
  let e := prepare_output (expire_peers now e) in
  match r with
  | poll_failed => Some (false, e)
  | poll_timeout => Some (true, e)
  | poll_ready accepted revents s =>
      match service_peers s revents (accept_peers accepted e) with
      | None => None
      | Some e => Some (true, e)
      end
  end.

(** [stop], after the worker has ended. *)
Fixpoint close_peers (l : list peer) (g : connection_gate) (q : control_queue)
  : connection_gate * control_queue :=
  match l with
  | [] => (g, q)
  | v :: l => let '(_, g, q) := close_peer false true v g q in close_peers l g q
  end.

Definition stop (e : endpoint) : endpoint :=
  let (g, q) := close_peers (peers e) (gate e) (control e) in
  Endpoint [] g q (next_session e) (max_lifetime e).

(** ** The steps of a peer return and keep its place at the gate *)

Definition peer_ok (v : peer) : Prop :=
  gate_acquired v = true /\ (receive_offset v <= length (receive_buffer v))%nat.

Lemma frames_loop_gate fuel v q ok v' q' :
  frames_loop fuel v q = Some (ok, v', q') -> gate_acquired v' = gate_acquired v.
Proof.
  assert (forall v, gate_acquired (compact_receive v) = gate_acquired v) as Hc.
  { intros w. unfold compact_receive. by repeat case_match. }
  revert v q. induction fuel as [|fuel IH]; intros v q; [done|]. cbn [frames_loop].
  destruct (_ <? 4)%nat; [by intros [= _ <- _]|]. destruct (_ || _); [by intros [= _ <- _]|].
  destruct (Z.of_nat _ <? _); [by intros [= _ <- _]|].
  destruct (dispatch _ _ _ _) as [[[[|] x] q1]|]; simpl negb; cbn iota; [|by intros [= _ <- _]|done].
  by intros ->%IH.
Qed.

Lemma receive_ok results v q :
  peer_ok v -> exists ok v' q', receive results v q = Some (ok, v', q') /\ peer_ok v'.
Proof.
  revert v q. induction results as [|r results IH]; intros v q Hv; cbn [receive]; [by eexists _, _, _|].
  destruct r as [bytes| | |]; try by eexists _, _, _.
  destruct Hv as [Hg Ho].
  destruct (consume_frames_serves (set_receive (receive_buffer v ++ bytes) (receive_offset v) v) q)
    as (ok & rest & x & q1 & v1 & _ & Hc & _ & _ & _ & Ho1).
  { simpl. rewrite length_app. lia. }
  rewrite Hc. assert (peer_ok v1) as Hv1.
  { split; [|done]. unfold consume_frames in Hc. by rewrite (frames_loop_gate _ _ _ _ _ _ Hc). }
  destruct ok; simpl negb; cbn iota; [by apply IH|by eexists _, _, _].
Qed.

Lemma prepare_one_peer_ok v : peer_ok v -> peer_ok (prepare_one_output v).
Proof.
  intros Hv. unfold prepare_one_output. destruct (_ || _); [exact Hv|].
  destruct (connection_try_next _) as [[w|] x]; [|exact Hv].
  by destruct (encode_json_outbound w) as [[|] json].
Qed.

Lemma send_pending_ok results v ok wire v' :
  peer_ok v -> send_pending results v = (ok, wire, v') -> peer_ok v'.
Proof.
  assert (forall v, peer_ok v -> peer_ok (finish_send v)) as Hf.
  { intros w Hw. unfold finish_send. apply prepare_one_peer_ok. by destruct (sending w). }
  revert v ok wire. induction results as [|r results IH]; intros v ok wire Hv; cbn [send_pending].
  all: destruct (_ <=? _)%nat; [intros [= _ _ <-]; by apply Hf|].
  - by intros [= _ _ <-].
  - destruct r as [[|n]| |]; try by intros [= _ _ <-].
    destruct (send_pending results _) as [[ok1 wire1] v1] eqn:E. intros [= _ _ <-].
    by eapply IH; [|exact E].
Qed.

Lemma service_peer_ok s events v q :
  peer_ok v -> exists alive v' q', service_peer s events v q = Some (alive, v', q') /\ peer_ok v'.
Proof.
  intros Hv. unfold service_peer. destruct (hangup events); [by eexists _, _, _|].
  destruct (receive_ok (recv_results s (peer_pointer v)) v q Hv) as (ok & v1 & q1 & Hr & Hv1).
  assert (exists ok v1 q1, (if readable events then receive (recv_results s (peer_pointer v)) v q
    else Some (true, v, q)) = Some (ok, v1, q1) /\ peer_ok v1) as (a & v2 & q2 & -> & Hv2).
  { destruct (readable events); by eexists _, _, _. }
  destruct (a && writable events); [|by eexists _, _, _].
  destruct (send_pending _ v2) as [[ok2 wire] v3] eqn:Es. apply send_pending_ok in Es; [|done].
  by eexists _, _, _.
Qed.

(** ** The gate counts the peers *)

Definition endpoint_ok (e : endpoint) : Prop :=
  Forall peer_ok (peers e) /\ active (gate e) = Z.of_nat (length (peers e)) /\
  active (gate e) <= limit (gate e) < 2 ^ 32.

Lemma release_ok g n :
  active g = Z.of_nat (S n) -> limit g < 2 ^ 32 -> active g <= limit g ->
  release g = Gate (limit g) (Z.of_nat n).
Proof.
  intros Ha Hl Hle. unfold release. rewrite (proj2 (Z.eqb_neq _ _)) by lia.
  f_equal. unfold u32. rewrite Z.mod_small by lia. lia.
Qed.

Lemma accept_peer_ok a e : endpoint_ok e -> endpoint_ok (accept_peer a e).
Proof.
  intros (Hp & Ha & Hl). unfold accept_peer. destruct (nonblocking a); simpl negb; cbn iota; [|done].
  unfold acquire. destruct (Z.ltb_spec (active (gate e)) (limit (gate e))); simpl negb; cbn iota.
  - destruct (take_session e) as [id next]. split_and!; simpl.
    + apply Forall_app. split; [done|]. constructor; [|done]. by split.
    + rewrite length_app. unfold u32. rewrite Z.mod_small by lia. simpl. lia.
    + unfold u32. rewrite Z.mod_small by lia. lia.
    + lia.
  - exact (conj Hp (conj Ha Hl)).
Qed.

Lemma accept_peers_ok l e : endpoint_ok e -> endpoint_ok (accept_peers l e).
Proof.
  unfold accept_peers. revert e. induction l as [|a l IH]; intros e He; [done|].
  apply IH. by apply accept_peer_ok.
Qed.

Lemma map_peers_ok f e :
  (forall v, peer_ok v -> peer_ok (f v)) -> endpoint_ok e -> endpoint_ok (set_peers (f <$> peers e) e).
Proof.
  intros Hf (Hp & Ha & Hl). split_and!; simpl; try done; try lia.
  - apply Forall_fmap. eapply Forall_impl; [exact Hp|]. exact Hf.
  - by rewrite length_fmap.
Qed.

Lemma expire_ok now e : endpoint_ok e -> endpoint_ok (expire_peers now e).
Proof.
  intros He. unfold expire_peers. destruct (_ =? 0); [done|]. apply map_peers_ok; [|done].
  intros v Hv. by destruct (_ <=? _).
Qed.

Lemma service_loop_ok fuel s revents n i e :
  (length (peers e) - i < fuel)%nat -> endpoint_ok e ->
  exists e', service_loop fuel s revents n i e = Some e' /\ endpoint_ok e'.
Proof.
  revert i e. induction fuel as [|fuel IH]; intros i e Hf He; [lia|]. cbn [service_loop].
  destruct ((i <? n)%nat && (i <? length (peers e))%nat) eqn:Ei; [|by eexists]. unbool.
  destruct (revents !! i) as [events|]; [|by eexists].
  destruct (peers e !! i) as [v|] eqn:Ev; [|by eexists].
  destruct He as (Hp & Ha & Hl). pose proof (Forall_lookup_1 _ _ _ _ Hp Ev) as Hv.
  destruct (service_peer_ok s events v (control e) Hv) as (alive & v' & q & -> & Hv').
  destruct alive; simpl negb; cbn iota.
  - apply IH; simpl; [rewrite length_insert; lia|]. split_and!; simpl; try lia.
    + by apply Forall_insert.
    + by rewrite length_insert.
  - assert (length (delete i (peers e)) = (length (peers e) - 1)%nat) as Hd
      by (apply length_delete; by eexists).
    unfold close_peer. rewrite (proj1 Hv').
    rewrite (release_ok _ (length (peers e) - 1)) by lia.
    apply IH; [cbn [peers]; lia|]. split_and!; cbn [peers gate active limit]; try lia.
    by apply Forall_delete.
Qed.

Lemma run_iteration_ok now r e :
  endpoint_ok e -> exists go e', run_iteration now r e = Some (go, e') /\ endpoint_ok e'.
Proof.
  intros He. apply (expire_ok now) in He.
  apply (map_peers_ok prepare_one_output) in He; [|apply prepare_one_peer_ok].
  unfold run_iteration. destruct r as [| |accepted revents s]; [by eexists _, _..|].
  fold (prepare_output (expire_peers now e)) in He.
  apply (accept_peers_ok accepted) in He.
  set (e1 := accept_peers accepted _) in *.
  destruct (service_loop_ok (S (length (peers e1))) s revents (length (peers e1)) 0 e1)
    as (e' & Hs & He'); [lia|done|]. unfold service_peers. rewrite Hs. by eexists _, _.
Qed.

Lemma close_peers_ok l g q :
  Forall peer_ok l -> active g = Z.of_nat (length l) -> active g <= limit g < 2 ^ 32 ->
  active (close_peers l g q).1 = 0 /\ limit (close_peers l g q).1 = limit g.
Proof.
  revert g q. induction l as [|v l IH]; intros g q Hp Ha Hl; [done|].
  apply Forall_cons in Hp as [Hv Hp]. cbn [close_peers]. unfold close_peer. rewrite (proj1 Hv).
  cbn [length] in Ha. rewrite (release_ok g (length l)) by lia.
  by apply (IH (Gate (limit g) _)); cbn [active limit]; try lia.
Qed.

Lemma stop_ok e : endpoint_ok e -> endpoint_ok (stop e).
Proof.
  intros (Hp & Ha & Hl). unfold stop.
  destruct (close_peers_ok (peers e) (gate e) (control e) Hp Ha Hl) as [H0 Hlim].
  destruct (close_peers _ _ _) as [g q]. cbn [fst] in *.
  split_and!; cbn [peers gate length]; [done|lia..].
Qed.

(** The life of an endpoint. *)
Inductive endpoint_call :=
| endpoint_iterate (now : Z) (r : poll_result)
| endpoint_stop.

Fixpoint endpoint_run (calls : list endpoint_call) (e : endpoint) : option endpoint :=
  match calls with
  | [] => Some e
  | endpoint_iterate now r :: calls =>
      match run_iteration now r e with Some (_, e) => endpoint_run calls e | None => None end
  | endpoint_stop :: calls => endpoint_run calls (stop e)
  end.

Definition new_endpoint (connections : Z) (session lifetime : Z) : endpoint :=
  Endpoint [] (gate_reset connections (Gate 0 0)) new_request_queue session lifetime.

(** An endpoint never holds more connections than its gate allows, and the gate
    counts exactly the connections there are: after any iterations of its loop,
    whatever the system calls return, and after a stop every place is given back. *)
Theorem gate_counts_peers (connections session lifetime : Z) (calls : list endpoint_call) :
  0 <= connections < 2 ^ 32 ->
  exists e, endpoint_run calls (new_endpoint connections session lifetime) = Some e /\
    active (gate e) = Z.of_nat (length (peers e)) /\
    Z.of_nat (length (peers e)) <= limit (gate e) /\
    active (gate (stop e)) = 0.
Proof.
  intros Hc. assert (endpoint_ok (new_endpoint connections session lifetime)) as He.
  { split_and!; simpl; [done|lia..]. }
  assert (exists e, endpoint_run calls (new_endpoint connections session lifetime) = Some e /\
    endpoint_ok e) as (e & Hr & He').
  { revert He. generalize (new_endpoint connections session lifetime).
    induction calls as [|[now r|] calls IH]; intros e He; cbn [endpoint_run]; [by eexists|..].
    - destruct (run_iteration_ok now r e He) as (go & e' & -> & He'). by apply IH.
    - by apply IH, stop_ok. }
  exists e. split; [done|]. destruct (stop_ok e He') as (_ & Hs & _).
  destruct He' as (_ & Ha & Hl). split_and!; [done|lia|].
  rewrite Hs. unfold stop. by destruct (close_peers _ _ _).
Qed.

Definition example_accept (p : Z) : accepted_socket := AcceptedSocket p 0 true.

Definition quiet_sockets : sockets := Sockets (fun _ => []) (fun _ => []).

Definition example_calls : list endpoint_call :=
  [ endpoint_iterate 0 (poll_ready [example_accept 1; example_accept 2; example_accept 3] []
      quiet_sockets) ].

Lemma gate_counts_peers_witness :
  exists e, endpoint_run example_calls (new_endpoint 2 1 0) = Some e /\
    active (gate e) = Z.of_nat (length (peers e)) /\
    Z.of_nat (length (peers e)) <= limit (gate e) /\
    active (gate (stop e)) = 0.
Proof. apply (gate_counts_peers 2 1 0 example_calls). lia. Defined.

(** ** A closed peer takes the later ones with it *)

(** A peer without events stays as it is. *)
Lemma service_quiet s v q :
  closing (peer_connection v) = false -> service_peer s no_events v q = Some (true, v, q).
Proof. intros Hc. unfold service_peer. simpl. by rewrite Hc. Qed.

Lemma service_loop_quiet s revents n i j fuel e :
  (j <= i)%nat -> (i <= n)%nat -> (i <= length (peers e))%nat ->
  (forall k, (j <= k < i)%nat -> revents !! k = Some no_events) ->
  Forall (fun v => closing (peer_connection v) = false) (take i (peers e)) ->
  service_loop (i - j + fuel) s revents n j e = service_loop fuel s revents n i e.
Proof.
  intros Hj Hn Hi Hr Hq. remember (i - j)%nat as d eqn:Hd. revert j Hj Hr Hd.
  induction d as [|d IH]; intros j Hj Hr Hd; [by replace j with i by lia|].
  cbn [Nat.add service_loop].
  rewrite (proj2 (Nat.ltb_lt j n)), (proj2 (Nat.ltb_lt j (length (peers e)))) by lia. cbn [andb].
  rewrite Hr by lia. destruct (lookup_lt_is_Some_2 (peers e) j) as [v Hv]; [lia|]. rewrite Hv.
  rewrite service_quiet.
  2: { apply (Forall_lookup_1 _ _ j v Hq). by rewrite lookup_take_lt by lia. }
  simpl negb. cbn iota. rewrite list_insert_id by done.
  rewrite <- (IH (S j)); [by destruct e|lia|intros; apply Hr; lia|lia].
Qed.

(** The rounds at the index of a descriptor that hung up. *)
Lemma service_loop_hangup s revents n i events fuel e :
  revents !! i = Some events -> hangup events = true -> (i < n)%nat ->
  (length (peers e) - i < fuel)%nat ->
  exists e', service_loop fuel s revents n i e = Some e' /\ peers e' = take i (peers e).
Proof.
  intros Hr Hh Hn. revert e. induction fuel as [|fuel IH]; intros e Hf; [lia|]. cbn [service_loop].
  rewrite (proj2 (Nat.ltb_lt i n)) by done. cbn [andb].
  destruct (Nat.ltb_spec i (length (peers e))) as [Hi|Hi].
  - rewrite Hr. destruct (lookup_lt_is_Some_2 (peers e) i Hi) as [v Hv]. rewrite Hv.
    unfold service_peer. rewrite Hh. simpl negb. cbn iota. unfold close_peer.
    assert (length (delete i (peers e)) = (length (peers e) - 1)%nat) as Hd
      by (apply length_delete; by eexists).
    match goal with |- context [service_loop fuel s revents n i ?e'] => destruct (IH e') as (e1 & -> & Hp) end.
    { cbn [peers]. lia. }
    exists e1. split; [done|]. rewrite Hp. cbn [peers]. rewrite delete_take_drop.
    by rewrite take_app_le, take_take, Nat.min_id by (rewrite length_take; lia).
  - eexists. split; [done|]. by rewrite take_ge by lia.
Qed.

(** C18: When [poll] reports a hang-up on one connection, the loop closes that connection
    and every connection after it, those just accepted included, although nothing
    happened on their sockets: after a peer is erased the next one is serviced with
    the events of the erased one. *)
Theorem hangup_closes_later_peers (s : sockets) (revents : list poll_events) (e : endpoint)
    (i : nat) (events : poll_events) :
  revents !! i = Some events -> hangup events = true -> (i < length (peers e))%nat ->
  (forall k, (k < i)%nat -> revents !! k = Some no_events) ->
  Forall (fun v => closing (peer_connection v) = false) (take i (peers e)) ->
  exists e', service_peers s revents e = Some e' /\ peers e' = take i (peers e).
Proof.
  intros Hr Hh Hi Hq Hp. unfold service_peers.
  replace (S (length (peers e))) with (i - 0 + (S (length (peers e)) - i))%nat by lia.
  rewrite service_loop_quiet; [|lia|lia|lia|intros; apply Hq; lia|done].
  eapply service_loop_hangup; [done|done|done|lia].
Qed.

Definition hung_up : poll_events := PollEvents true true false.

(** Three peers, the second of which hangs up. *)
Definition three_peers : endpoint :=
  accept_peers [example_accept 1; example_accept 2; example_accept 3] (new_endpoint 5 1 0).

Lemma hangup_closes_later_peers_witness :
  exists e', service_peers quiet_sockets [no_events; hung_up; no_events] three_peers = Some e' /\
    peers e' = take 1 (peers three_peers).
Proof.
  apply (hangup_closes_later_peers quiet_sockets [no_events; hung_up; no_events] three_peers 1 hung_up);
    [reflexivity|reflexivity|vm_compute; lia| |by repeat constructor].
  intros k Hk. by assert (k = 0%nat) as -> by lia.
Defined.
